(* ===== verification/_CoqProject ===== *)
-Q . S2P
Prelude.v
Sums.v
Ids.v
Environment.v
Invocation.v
Functions.v
Egress.v
Revision.v
Guard.v
Slot.v
Store.v
SlotStore.v
StoreInv.v
Scenario.v
Reclaim.v
SlotProps.v
Pool.v
Bindings.v
Objects.v
Publication.v
Logs.v
SlotSpec.v
Scaler.v
Admission.v
AdmissionInv.v
AdmissionSched.v
AdmissionRun.v
AdmissionProps.v
Retry.v
Outbox.v
Dispatch.v
LedgerInv.v
AsyncWorld.v
Usage.v
UsageJournal.v
UsageLedger.v
BudgetConf.v
AsyncRun.v
AsyncSteps.v
AsyncEnds.v
AsyncProps.v
AsyncObjects.v
AsyncFront.v
AsyncFrontProps.v
PublisherProps.v
UsageMeter.v
UsageWorld.v
UsageInv.v
UsageScenario.v
UsageProps.v
Calendar.v
Cron.v
Gregorian.v
CronProps.v
Rating.v
RatingInv.v
RatingProps.v
TriggerStore.v
Webhook.v
BudgetStore.v
BudgetInv.v
BudgetProps.v
BudgetCharge.v
ControlWire.v
ControlCache.v
Budget.v
ControlWorld.v
ControlInv.v
ControlScenario.v
BudgetRun.v
ControlProps.v
Triggers.v
TriggerInv.v
TriggerService.v
TriggerScenario.v
TriggerRun.v
TriggerProps.v
WebhookProps.v
Queue.v
QueueProps.v
