(* ===== verification/Prelude.v ===== *)
(** * Tachyon Serverless: a verification library

    Tachyon Serverless runs functions in microVMs. A function's immutable revisions
    are routed by aliases; an invocation is accepted, admitted against the capacity
    of the node, given an execution environment under a lease, run in the guest and
    settled. This library models the parts of it that decide, as executable
    definitions translated from the Rust sources (crates/, in the files named in the
    comment above each definition), and proves what makes them correct.

    ** The files

    - [Prelude], [Ids]: results and early returns, record updates, machine integers,
      ordered maps and sorting; identifiers and names (domain/ids.rs).
    - The domain records and their state machines (crates/domain): [Environment]
      (environments, fencing epochs, execution leases), [Invocation] (invocations and
      attempts), [Functions] (functions, aliases, log lines), [Egress] (network
      rules), [Revision] (specifications and their validation).
    - [Guard] (repository/guard.rs, restart.rs): which row writes a store accepts, and
      how the rows of a driver that is gone are settled.
    - The store (repository/memory.rs and slot.rs): [Slot] (requests and
      preconditions), [Store] (all repositories over one [State]), [SlotStore] (the
      slot port: dispatchers, acquire, complete, renewal, reclaim, the warm pool).
      Each operation is a function [op A] of the whole state; [StoreInv] makes them
      commands, with reachable states and the order on states ([state_le]) by rule
      induction, and says which part of the state a command writes; [Scenario]
      holds concrete runs.
    - What the store guarantees: [SlotProps] (one holder per slot, completions counted
      once, rows only move forward), [SlotSpec] (the store refines an automaton of one
      slot), [Reclaim], [Pool], [Bindings] (idempotency keys), [Objects] (object
      references, the collector's pass of durable/gc.rs, and that it deletes what nothing uses),
      [Publication] (configuration generations), [Logs].
    - Admission (services/admission): [Scaler] (resources, token bucket, circuit
      breaker, demand, in binary64 floats), [Admission] (the ledger of reservations and the fair queue,
      admission/state.rs), [AdmissionInv] (its aggregates as sums over the
      reservations and the waiters), [AdmissionSched] (the scheduler as a sequence of
      small steps), [AdmissionRun] (commands, runs and what an observer sees),
      [AdmissionProps] (the guarantees).
    - Asynchronous invocations: [Retry] (invoke_async/retry.rs and config.rs: policy,
      backoff, retry budget), [Outbox] and [Dispatch] (repository/outbox.rs and
      dispatch.rs with their SQL: the tables of the [Ledger] and its transactions),
      [LedgerInv] (transactions as commands, the invariant of the ledger, and the rows a
      run of commands leaves), [AsyncWorld] (workers that interleave over one ledger),
      [AsyncRun] (invoke_async/dispatch.rs: the handler of a delivery before and after
      the run, and the reaper), [AsyncSteps] (the services of any
      processes over one ledger, a transaction at a time: a handler's readings and its claim
      are steps of their own, with those of others in between), [AsyncEnds] (decisions that
      commit), [AsyncProps] (what is written is what the ledger's transactions write, and no
      more attempts are claimed than the policy allows unless a claim had run out on the clock
      of some handler; runs start within their limits and end on the ledger, a pass of the
      reaper misses no candidate it has room for, dead letters are exact and redriven once), [AsyncObjects] (inputs in the object store),
      [AsyncFront] (mod.rs, publisher.rs, consumer.rs, dead_letters.rs: acceptance, the
      publisher, reading a delivery back, redrives), [AsyncFrontProps] and
      [PublisherProps] (their guarantees).
    - The durable queue (durable/sqlite_queue.rs and its port, durable-port/src/queue.rs): [Queue] (messages,
      remembered ids and consumers, every call as a transaction, and sequences of calls of any
      callers), [QueueProps] (deliveries are numbered copies of publications, held and then repeated,
      gone once acknowledged; a repeated publication stores nothing; the stream stays in its
      bounds; and an accepted event reaches the consumer of the queue as it was accepted).
    - Triggers (services/triggers and their tables): [Calendar] (the calendar and the time
      zones as interfaces with laws), [Gregorian] (instances), [Cron] and [CronProps]
      (cron.rs: expressions, the search, instants, and what they mean), [TriggerStore]
      (the tables and transactions), [TriggerInv] (their invariant and how rows move),
      [Triggers] (the acceptance of a fire and the scheduler pass), [Webhook] (webhook.rs:
      signatures and timestamps), [TriggerService] (administration and deliveries),
      [TriggerRun] (the services as runs of transactions), [TriggerProps] (the due times
      are exact, a scheduled time starts one invocation, none is lost), [WebhookProps]
      (only authentic deliveries fire, a repeated one starts nothing, a deleted trigger
      is silent), [TriggerScenario] (concrete runs).
    - Usage (domain/usage.rs and application/usage): [Sums] (totals over the rows of a map),
      [Usage] (events and what was measured), [UsageJournal] (journal.rs: the bounded
      journal, its chain and its cursor), [UsageLedger] (ledger.rs, config.rs: the ledger
      the events are delivered to), [UsageMeter] (mod.rs: admission and the collector),
      [UsageWorld] and [UsageInv] (processes that share a journal, crash and start again, and
      their invariant), [UsageProps] (the journal is exact, events are counted once,
      collections end, the events of admitted work fit whoever reports them, tampering is noticed), [UsageScenario] (concrete
      runs), [Rating], [RatingInv] and [RatingProps] (rating.rs: lines, charges and totals,
      and the report).
    - The control plane and its data planes (application/control): [BudgetConf] (the budgets that
      are published), [ControlWire] (wire.rs: keys, values and deliveries), [ControlCache]
      (cache.rs and gate.rs: the cache and what is read from it), [ControlWorld] and
      [ControlInv] (source.rs: what is observed and stamped; requests, answers and deliveries in
      any order, and their invariant), [ControlProps] (the cache follows the publications, who
      is let in and what is resolved was published within the lease or the TTL),
      [ControlScenario] (a concrete encoding and run).
    - Budgets (application/budget): [BudgetStore] (store.rs: the reservations, totals and alerts with
      their transactions, and the handle of a process), [BudgetInv] (transactions as commands, and the
      totals as sums over the reservations), [BudgetProps] (the totals are exact, a hard limit bounds
      what is committed, a reservation is decided by the limits, a closed one is final, alerts fire
      once), [BudgetCharge] (charge.rs: the maximum charge of a run, which covers what the run is rated
      at), [Budget] (mod.rs: admission, rechecks, ends of runs, the settlement pass, status and report),
      [BudgetRun] (admission fails closed; a pass settles what is over at the measured charge of its attempts).
    ** Correspondence

    Rust structs are records, enums are inductive types, [Result] is [result] with
    [?] as monadic bind, [BTreeMap] and [HashMap] are [gmap] (iterated in key order
    through [btree_entries]; where the source iterates a [HashMap] the order is the
    parameter [HashOrder]). Time is nanoseconds in [Z]. Unsigned integers are [Z] with
    the arithmetic the source does: wrapping, saturating or checked. A lock held over
    an operation makes it one function of the state, and a run is a sequence of such
    operations in any order.

    ** Bounds and fuel

    [Adm.pump_loop] takes fuel: every turn but the last takes a waiter out of the
    queue, so the number of waiters and one is enough ([pump_considers_everyone]).
    Runs of the admission state machine are limited to 2^30 commands where a theorem
    says that no counter wraps, and runs of asynchronous workers to 2^32 - 1 steps, so
    that no attempt counter saturates. The loops of the cron search count their turns in
    binary ([loop], [SEARCH_STEPS], [SCAN_STEPS]): a measure that falls at every turn is
    shown to be smaller ([next_local_ends], [due_times_exact]). The collector of usage takes three
    accesses per row of the journal and one more ([collection_drains]). All other recursion is
    structural.

    ** Parameters

    Code outside the repository is a parameter where it is used: [exp] of the float
    library, the digest of a specification, the text of a displayed error, the order
    of a hash map; the JSON of events and envelopes, the digest of an input, the object
    store and the queue ([Codec], [Outside], [PublishStep]: with the last, whether the publisher
    dies and what the database refuses). Theorems hold for every
    value of them, but for these: [accepted_event_reaches_consumer] asks that the JSON of an envelope
    reads back and that the object store keeps an object under the tenant it is given ([honest], which
    [outside_a_honest] shows of a concrete encoding), and of an input in it that it is there until the
    collector marks it ([undeleted]); what is said of the totals of budgets asks that no column outgrew
    64 bits, where SQLite goes on in floats ([in_range]); what is said of cron times asks the
    laws of a calendar and of a time zone ([CalendarLaws], [ZoneLaws], which [Gregorian]
    shows of concrete ones); what is said of usage asks that the JSON of an event reads back
    ([UsageCodecLaws]) and, for tampering, that the digest has no collisions ([DigestLaws],
    both shown of the encoding of [UsageScenario]); what is said of the configuration cache asks
    that keys and values read back from their JSON ([ConfigCodecLaws]) and that the digest of a
    value has no collisions (both shown of the encoding of [ControlScenario]); and a secret is only opened again by a cipher that opens what
    it sealed.

    ** Not modelled

    Sockets, files, processes and SQL: the gateway, the command line, the guest
    bridge and the SDK, the execution providers, the SQL stores (which apply the
    guards modelled here), metrics and configuration files. The async services
    around the modelled cores (invoke, pool, scaling) call the operations modelled
    here one at a time under a lock. Of the
    asynchronous path, the calls of the dispatcher that acknowledge a delivery, the renewal timer of a claim,
    and the purge of expired outputs are not modelled; a process
    that stops is a step of its own. *)

From Stdlib Require Import Ascii.
From Stdlib Require Export ZArith Lia.
From stdpp Require Export base gmap strings list sorting pretty.

(** ** Results

    Rust's [Result<T, E>]: [Err] stops a computation, [?] is [bind]. *)
Inductive result (E A : Type) : Type :=
| Ok (a : A)
| Err (e : E).
Arguments Ok {E A} _.
Arguments Err {E A} _.

#[global] Instance result_ret E : MRet (result E) := λ _ a, Ok a.
#[global] Instance result_bind E : MBind (result E) := λ _ _ k m,
  match m with
  | Ok a => k a
  | Err e => Err e
  end.
#[global] Instance result_fmap E : FMap (result E) := λ _ _ f m,
  match m with
  | Ok a => Ok (f a)
  | Err e => Err e
  end.

#[global] Instance result_eq_dec `{EqDecision E, EqDecision A} : EqDecision (result E A).
Proof. solve_decision. Defined.

Definition is_ok {E A} (r : result E A) : bool :=
  match r with Ok _ => true | Err _ => false end.
Definition is_err {E A} (r : result E A) : bool := negb (is_ok r).

Definition map_err {E F A} (f : E → F) (r : result E A) : result F A :=
  match r with Ok a => Ok a | Err e => Err (f e) end.

Lemma result_bind_Ok {E A B} (m : result E A) (k : A → result E B) b :
  (m ≫= k) = Ok b ↔ ∃ a, m = Ok a ∧ k a = Ok b.
Proof.
  destruct m as [a|e]; cbn; split; [eauto | by intros (? & [= ->] & ?) | done | by intros (? & ? & ?)].
Qed.

Lemma result_bind_Err {E A B} (m : result E A) (k : A → result E B) e :
  (m ≫= k) = Err e ↔ m = Err e ∨ ∃ a, m = Ok a ∧ k a = Err e.
Proof.
  destruct m as [a|e']; cbn; split; [eauto | by intros [?|(? & [= ->] & ?)]
  | by intros [= ->]; left | by intros [[= ->]|(? & ? & ?)]].
Qed.

Lemma result_fmap_Ok {E A B} (m : result E A) (f : A → B) b :
  f <$> m = Ok b ↔ ∃ a, m = Ok a ∧ f a = b.
Proof.
  destruct m as [a|e]; cbn; split; [intros [= <-]; eauto | by intros (? & [= ->] & ->) | done
  | by intros (? & ? & ?)].
Qed.

Lemma result_bind_assoc {E A B C} (m : result E A) (f : A → result E B) (g : B → result E C) :
  ((m ≫= f) ≫= g) = (m ≫= λ a, f a ≫= g).
Proof. by destruct m. Qed.

(** Refuse with [e] unless the condition holds. *)
Notation "'require!' b 'else' e ;; k" := (if b then k else Err e)
  (at level 100, b at level 99, e at level 99, k at level 200, right associativity, only parsing).
(** Return [e] early when the condition holds ([if b { return e }]). *)
Notation "'when!' b 'return!' e ;; k" := (if b then e else k)
  (at level 100, b at level 99, e at level 99, k at level 200, right associativity, only parsing).

(** ** Record updates

    [r <| f := v |>] and [r <| f ::= g |>] for a record with an [Eta] instance,
    the function that rebuilds a record from its projections. *)
Class Eta (R : Type) := eta : R → R.
Class SetField {R T : Type} (proj : R → T) := set_field : (T → T) → R → R.
#[global] Hint Mode SetField ! ! ! : typeclass_instances.

Ltac solve_set_field :=
  lazymatch goal with
  | |- @SetField ?R ?T ?proj =>
      let inst := constr:(_ : Eta R) in
      let h := lazymatch inst with ?h => h end in
      let body := eval cbv delta [h eta] in h in
      let body := eval cbv beta in body in
      lazymatch eval pattern proj in body with
      | ?rebuild _ =>
          let s := constr:(λ (g : T → T) (r : R), rebuild (λ x, g (proj x)) r) in
          let s := eval cbv beta in s in
          exact s
      end
  end.
#[global] Hint Extern 1 (SetField _) => solve_set_field : typeclass_instances.
#[global] Typeclasses Transparent SetField.

#[warnings="-postfix-notation-not-level-1"]
Notation "x <| proj ::= f |>" := (set_field (proj := proj) f x)
  (at level 12, proj at level 0, f at level 99, left associativity,
   format "x  <| proj  ::=  f |>").
#[warnings="-postfix-notation-not-level-1"]
Notation "x <| proj := v |>" := (set_field (proj := proj) (λ _, v) x)
  (at level 12, proj at level 0, v at level 99, left associativity,
   format "x  <| proj  :=  v |>").
Arguments set_field {R T} proj {_} g r /.

(** ** Notations of the development *)
Declare Scope rust_scope.
Delimit Scope rust_scope with rs.
Notation "x == y" := (bool_decide (x = y)) (at level 70, no associativity) : rust_scope.
Notation "x != y" := (negb (bool_decide (x = y))) (at level 70, no associativity) : rust_scope.
#[global] Open Scope rust_scope.
#[global] Open Scope Z_scope.

(** Identifiers ([TenantId], [EnvironmentId], ...) are validated strings. *)
Abbreviation TenantId := string (only parsing).
Abbreviation FunctionId := string (only parsing).
Abbreviation RevisionId := string (only parsing).
Abbreviation InvocationId := string (only parsing).
Abbreviation AttemptId := string (only parsing).
Abbreviation EnvironmentId := string (only parsing).
Abbreviation LeaseId := string (only parsing).
Abbreviation DispatcherId := string (only parsing).
Abbreviation AliasName := string (only parsing).
Abbreviation FunctionName := string (only parsing).
Abbreviation Sha256Digest := string (only parsing).

(** Instants ([DateTime<Utc>]) and [chrono::Duration]s count nanoseconds. *)
Abbreviation Timestamp := Z (only parsing).
Abbreviation Duration := Z (only parsing).
Definition nanoseconds_per_second : Z := 1000000000.
Definition seconds (n : Z) : Duration := n * nanoseconds_per_second.
Definition milliseconds (n : Z) : Duration := n * 1000000.

(** ** Machine integers

    An unsigned integer is a [Z] in range; the arithmetic the source does on it
    says whether it wraps (release builds), saturates or is bounded. *)
Definition u32_max : Z := 2 ^ 32 - 1.
Definition u64_max : Z := 2 ^ 64 - 1.
Definition i64_max : Z := 2 ^ 63 - 1.
Definition u64_range (z : Z) : Prop := 0 ≤ z ≤ u64_max.
Definition u64_add (a b : Z) : Z := (a + b) mod 2 ^ 64.
Definition u64_sub (a b : Z) : Z := (a - b) mod 2 ^ 64.
Definition u32_add (a b : Z) : Z := (a + b) mod 2 ^ 32.
Definition u64_saturating_add (a b : Z) : Z := Z.min (a + b) u64_max.
Definition u64_saturating_sub (a b : Z) : Z := Z.max (a - b) 0.
Definition u64_saturating_mul (a b : Z) : Z := Z.min (a * b) u64_max.
Definition div_ceil (a b : Z) : Z := (a + b - 1) / b.

Lemma u64_add_small a b : 0 ≤ a + b ≤ u64_max → u64_add a b = a + b.
Proof. unfold u64_add, u64_max. intros ?. apply Z.mod_small. lia. Qed.

Lemma u64_sub_small a b : 0 ≤ a - b ≤ u64_max → u64_sub a b = a - b.
Proof. unfold u64_sub, u64_max. intros ?. apply Z.mod_small. lia. Qed.

Lemma u32_add_small a b : 0 ≤ a + b ≤ u32_max → u32_add a b = a + b.
Proof. unfold u32_add, u32_max. intros ?. apply Z.mod_small. lia. Qed.

Lemma u64_add_range a b : u64_range (u64_add a b).
Proof.
  unfold u64_range, u64_add, u64_max. pose proof (Z.mod_pos_bound (a + b) (2 ^ 64)). lia.
Qed.

Lemma u64_add_1_ne a : u64_range a → u64_add a 1 ≠ a.
Proof.
  unfold u64_range, u64_max, u64_add. intros Ha Heq.
  destruct (decide (a = 2 ^ 64 - 1)) as [->|Hne]; [done|].
  rewrite Z.mod_small in Heq; lia.
Qed.

(** ** Optional values *)
Definition is_none_or {A} (o : option A) (p : A → bool) : bool :=
  match o with None => true | Some a => p a end.
Definition is_some_and {A} (o : option A) (p : A → bool) : bool :=
  match o with None => false | Some a => p a end.
Definition is_some {A} (o : option A) : bool := if o is Some _ then true else false.
Definition is_none {A} (o : option A) : bool := if o is Some _ then false else true.
Definition or_else {A} (o p : option A) : option A := if o is Some _ then o else p.
Definition unwrap_or {A} (o : option A) (d : A) : A := default d o.
Arguments is_none_or {A} !_ _ /.
Arguments is_some_and {A} !_ _ /.
Arguments is_some {A} !_ /.
Arguments is_none {A} !_ /.

Lemma is_none_true {A} (o : option A) : is_none o = true ↔ o = None.
Proof. by destruct o. Qed.
Lemma is_some_true {A} (o : option A) : is_some o = true ↔ ∃ a, o = Some a.
Proof. destruct o; naive_solver. Qed.
Lemma is_none_false {A} (o : option A) : is_none o = false ↔ o ≠ None.
Proof. by destruct o. Qed.
Lemma is_some_false {A} (o : option A) : is_some o = false ↔ o = None.
Proof. by destruct o. Qed.
Lemma is_some_negb_none {A} (o : option A) : is_some o = negb (is_none o).
Proof. by destruct o. Qed.

(** ** Strings

    Strings compare byte by byte. *)
Definition string_le (a b : string) : Prop := String.leb a b = true.
#[global] Instance string_le_dec : RelDecision string_le.
Proof. intros a b. unfold string_le. apply _. Defined.

Lemma string_le_cons c s d t :
  string_le (String c s) (String d t) ↔
  (N_of_ascii c < N_of_ascii d)%N ∨ (c = d ∧ string_le s t).
Proof.
  unfold string_le, String.leb. cbn. unfold Ascii.compare.
  destruct (N.compare_spec (N_of_ascii c) (N_of_ascii d)) as [H|H|H].
  - apply (f_equal ascii_of_N) in H. rewrite !ascii_N_embedding in H. subst.
    split; [auto|]. intros [?|[_ ?]]; [lia|done].
  - split; [by left|done].
  - split; [done|]. intros [?|[-> _]]; lia.
Qed.

#[global] Instance string_le_trans : Transitive string_le.
Proof.
  intros s. induction s as [|c s IH]; intros t u Hst Htu.
  - by destruct u.
  - destruct t as [|d t]; [done|]. destruct u as [|e u]; [done|].
    apply string_le_cons in Hst, Htu. apply string_le_cons.
    destruct Hst as [?|[-> ?]], Htu as [?|[-> ?]]; [left; lia | by left | by left |].
    right. split; [done|]. by eapply IH.
Qed.
#[global] Instance string_le_total : Total string_le.
Proof. intros s t. apply String.leb_total. Qed.
#[global] Instance string_le_anti_symm : AntiSymm (=) string_le.
Proof. intros s t. apply String.leb_antisym. Qed.

(** ** Ordered maps

    A [BTreeMap] is a [gmap] whose iteration follows the order of its keys. *)
Class BTreeKey (K : Type) := {
  bt_le : relation K;
  bt_le_dec :: RelDecision bt_le;
  bt_le_trans :: Transitive bt_le;
  bt_le_total :: Total bt_le;
  bt_le_anti_symm :: AntiSymm (=) bt_le
}.
#[global] Instance string_btree_key : BTreeKey string := {| bt_le := string_le |}.

(** Pairs compare lexicographically. *)
Definition pair_le (p q : string * string) : Prop :=
  (p.1 ≠ q.1 ∧ string_le p.1 q.1) ∨ (p.1 = q.1 ∧ string_le p.2 q.2).
#[global] Instance pair_le_dec : RelDecision pair_le.
Proof. intros p q. unfold pair_le. apply _. Defined.
#[global] Program Instance pair_btree_key : BTreeKey (string * string) := {| bt_le := pair_le |}.
Next Obligation.
  intros [a1 a2] [b1 b2] [c1 c2]. unfold pair_le; cbn.
  intros [[Hn H1]|[-> H1]] [[Hm H2]|[<- H2]]; [|by left|by left|right].
  - left. split; [|by etrans]. intros <-. apply Hn. by apply (anti_symm string_le).
  - split; [done|by etrans].
Qed.
Next Obligation.
  intros [a1 a2] [b1 b2]. unfold pair_le; cbn.
  destruct (decide (a1 = b1)) as [->|Hn].
  - destruct (total string_le a2 b2); auto.
  - destruct (total string_le a1 b1); auto.
Qed.
Next Obligation.
  intros [a1 a2] [b1 b2]. unfold pair_le; cbn.
  intros [[Hn H1]|[-> H1]] [[Hm H2]|[Heq H2]]; [|done|done|].
  - destruct Hn. by apply (anti_symm string_le).
  - f_equal. by apply (anti_symm string_le).
Qed.

Section BTree.
Context {K A : Type} `{Countable K, !BTreeKey K}.
Implicit Types (m : gmap K A) (k : K) (v : A) (p : A → bool).

Definition entry_le (x y : K * A) : Prop := bt_le x.1 y.1.
#[global] Instance entry_le_dec : RelDecision entry_le.
Proof. intros x y. unfold entry_le. apply _. Defined.

Definition btree_entries m : list (K * A) := merge_sort entry_le (map_to_list m).
Definition btree_keys m : list K := (btree_entries m).*1.
Definition btree_values m : list A := (btree_entries m).*2.

Lemma elem_of_btree_entries m k v : (k, v) ∈ btree_entries m ↔ m !! k = Some v.
Proof. unfold btree_entries. rewrite merge_sort_Permutation. apply elem_of_map_to_list. Qed.

Lemma elem_of_btree_values m v : v ∈ btree_values m ↔ ∃ k, m !! k = Some v.
Proof.
  unfold btree_values. rewrite list_elem_of_fmap. split.
  - intros ([k v'] & -> & H'). exists k. by apply elem_of_btree_entries.
  - intros [k H']. exists (k, v). split; [done|]. by apply elem_of_btree_entries.
Qed.

Lemma NoDup_btree_keys m : NoDup (btree_keys m).
Proof. unfold btree_keys, btree_entries. rewrite merge_sort_Permutation. apply NoDup_fst_map_to_list. Qed.

Lemma NoDup_btree_entries m : NoDup (btree_entries m).
Proof. apply (NoDup_fmap_1 fst), NoDup_btree_keys. Qed.

(** [values().any(p)] *)
Definition any_value p m : bool := existsb p (btree_values m).

Lemma any_value_true p m : any_value p m = true ↔ ∃ k v, m !! k = Some v ∧ p v = true.
Proof.
  unfold any_value. rewrite existsb_exists. split.
  - intros (v & Hin & Hp). apply list_elem_of_In, elem_of_btree_values in Hin as [k ?]. eauto.
  - intros (k & v & Hk & Hp). exists v. split; [|done].
    apply list_elem_of_In, elem_of_btree_values. eauto.
Qed.

Lemma any_value_false p m : any_value p m = false ↔ ∀ k v, m !! k = Some v → p v = false.
Proof.
  rewrite <-not_true_iff_false, any_value_true. split.
  - intros Hno k v Hk. destruct (p v) eqn:E; [|done]. destruct Hno. eauto.
  - intros Hall (k & v & Hk & Hp). by rewrite (Hall k v Hk) in Hp.
Qed.

(** [values().find(p)], with the key the entry is stored under. *)
Definition btree_find p m : option (K * A) := List.find (λ e, p e.2) (btree_entries m).

Lemma btree_find_Some p m k v : btree_find p m = Some (k, v) → m !! k = Some v ∧ p v = true.
Proof.
  intros [Hin Hp]%List.find_some. split; [|done].
  by apply elem_of_btree_entries, list_elem_of_In.
Qed.

Lemma btree_find_None p m : btree_find p m = None ↔ ∀ k v, m !! k = Some v → p v = false.
Proof.
  unfold btree_find. split.
  - intros Hn k v Hk. apply (List.find_none _ _ Hn (k, v)).
    by apply list_elem_of_In, elem_of_btree_entries.
  - intros Hall. destruct (List.find _ _) as [[k v]|] eqn:E; [|done].
    apply List.find_some in E as [Hin Hp].
    apply list_elem_of_In, elem_of_btree_entries, Hall in Hin. cbn in Hp. congruence.
Qed.

(** [values().filter(p).collect()] *)
Definition filter_values p m : list A := List.filter p (btree_values m).

Lemma elem_of_filter_values p m v :
  v ∈ filter_values p m ↔ (∃ k, m !! k = Some v) ∧ p v = true.
Proof.
  unfold filter_values. rewrite list_elem_of_In, filter_In, <-list_elem_of_In.
  by rewrite elem_of_btree_values.
Qed.

Definition count_values p m : nat := length (filter_values p m).
End BTree.

(** [v.sort_by(cmp)] is stable: equal elements keep their order. *)
Section Sort.
Context {A : Type} (le : A → A → bool).

Fixpoint insert_sorted (x : A) (l : list A) : list A :=
  match l with
  | [] => [x]
  | y :: l' => if le x y then x :: l else y :: insert_sorted x l'
  end.

Definition sort_by (l : list A) : list A := foldr insert_sorted [] l.

Lemma insert_sorted_Permutation x l : insert_sorted x l ≡ₚ x :: l.
Proof.
  induction l as [|y l IH]; cbn; [done|]. destruct (le x y); [done|].
  rewrite IH. apply Permutation_swap.
Qed.

Lemma sort_by_Permutation l : sort_by l ≡ₚ l.
Proof. induction l as [|x l IH]; cbn; [done|]. by rewrite insert_sorted_Permutation, IH. Qed.
End Sort.

(** [for _ in 0..n]: at most [n] turns of [step], which goes on ([inl]) or breaks ([inr]). *)
Fixpoint loop {A B} (n : positive) (step : A → A + B) (a : A) : A + B :=
  let twice p a := match loop p step a with inl a' => loop p step a' | inr b => inr b end in
  match n with
  | xH => step a
  | xO p => twice p a
  | xI p => match step a with inl a' => twice p a' | inr b => inr b end
  end.

(** What every turn keeps holds where the loop is left. *)
Lemma loop_inv {A B} (P : A → Prop) (Q : B → Prop) (step : A → A + B) n a :
  (∀ x y, P x → step x = inl y → P y) → (∀ x b, P x → step x = inr b → Q b) →
  P a → match loop n step a with inl a' => P a' | inr b => Q b end.
Proof.
  intros Hnext Hout. revert a. induction n as [p IH|p IH|]; intros a Ha; cbn.
  - destruct (step a) as [a1|b] eqn:Hs; [|by eauto].
    specialize (IH a1 ltac:(eauto)) as Hl. destruct (loop p step a1) as [a'|b]; [by apply IH|done].
  - specialize (IH a Ha) as Hl. destruct (loop p step a) as [a'|b]; [by apply IH|done].
  - destruct (step a) eqn:Hs; eauto.
Qed.

(** A loop whose turns lower a measure is left by its break. *)
Lemma loop_ends {A B} (P : A → Prop) (μ : A → Z) (step : A → A + B) n a :
  (∀ x y, P x → step x = inl y → P y ∧ 0 ≤ μ y < μ x) → P a → 0 ≤ μ a →
  match loop n step a with inl a' => P a' ∧ 0 ≤ μ a' ≤ μ a - Z.pos n | inr _ => True end.
Proof.
  intros Hstep. revert a.
  assert (Htwice : ∀ p, (∀ a, P a → 0 ≤ μ a →
      match loop p step a with inl a' => P a' ∧ 0 ≤ μ a' ≤ μ a - Z.pos p | inr _ => True end) →
    ∀ a, P a → 0 ≤ μ a →
      match match loop p step a with inl a' => loop p step a' | inr b => inr b end with
      | inl a' => P a' ∧ 0 ≤ μ a' ≤ μ a - Z.pos p~0 | inr _ => True end).
  { intros p IH a Ha Hμ. specialize (IH a Ha Hμ) as Hl.
    destruct (loop p step a) as [a'|b]; [|done]. destruct Hl as [Ha' Hle].
    specialize (IH a' Ha' ltac:(lia)) as Hl'.
    destruct (loop p step a') as [a''|b]; [|done]. destruct Hl' as [? ?]. split; [done|lia]. }
  induction n as [p IH|p IH|]; intros a Ha Hμ; cbn.
  - destruct (step a) as [a1|b] eqn:Hs; [|done]. apply Hstep in Hs as [Ha1 Hμ1]; [|done].
    specialize (Htwice p IH a1 Ha1 ltac:(lia)).
    destruct (match loop p step a1 with inl _ => _ | inr _ => _ end); [|done].
    destruct Htwice. split; [done|lia].
  - by apply Htwice.
  - destruct (step a) as [a'|] eqn:Hs; [|done]. apply Hstep in Hs as [? ?]; [|done].
    split; [done|lia].
Qed.

(** A loop broken by its first turn. *)
Lemma loop_break {A B} n (step : A → A + B) a b : step a = inr b → loop n step a = inr b.
Proof.
  intros Hs. induction n as [p IH|p IH|]; cbn; [by rewrite Hs|by rewrite IH|done].
Qed.

(** An invariant of every step of a loop. *)
Lemma foldl_inv {A B} (P : A → Prop) (f : A → B → A) (l : list B) (a : A) :
  P a → (∀ a b, b ∈ l → P a → P (f a b)) → P (foldl f a l).
Proof.
  revert a. induction l as [|b l IH]; intros a Ha Hf; cbn; [done|].
  apply IH; [|intros a' b' Hb']; apply Hf; set_solver.
Qed.

(** ** Proof automation *)
Create HintDb tsls discriminated.
#[export] Hint Constants Transparent : tsls.

(** Turn boolean facts into propositions. *)
Ltac bools :=
  repeat match goal with
  | H : context [bool_decide _ = true] |- _ => rewrite bool_decide_eq_true in H
  | H : context [bool_decide _ = false] |- _ => rewrite bool_decide_eq_false in H
  | H : negb _ = true |- _ => apply negb_true_iff in H
  | H : negb _ = false |- _ => apply negb_false_iff in H
  | H : _ && _ = true |- _ => apply andb_true_iff in H as [? ?]
  | H : _ || _ = false |- _ => apply orb_false_iff in H as [? ?]
  | H : _ || _ = true |- _ => apply orb_true_iff in H
  | H : is_none ?o = true |- _ => apply is_none_true in H
  | H : is_none _ = false |- _ => apply is_none_false in H
  | H : is_some _ = false |- _ => apply is_some_false in H
  | H : (_ <? _) = true |- _ => apply Z.ltb_lt in H
  | H : (_ <? _) = false |- _ => apply Z.ltb_ge in H
  | H : (_ <=? _) = true |- _ => apply Z.leb_le in H
  | H : (_ <=? _) = false |- _ => apply Z.leb_gt in H
  | H : (_ =? _) = true |- _ => apply Z.eqb_eq in H
  | H : (_ =? _) = false |- _ => apply Z.eqb_neq in H
  end.

(** Follow every branch of the code under verification. *)
Ltac branches :=
  repeat (progress simplify_eq/= || case_match); try done.

(** Split the [?] and [match] steps of a hypothesis [_ = Ok _]. *)
Ltac steps :=
  repeat match goal with
  | H : mbind _ _ = Ok _ |- _ =>
      let a := fresh "a" in let H1 := fresh "Hm" in let H2 := fresh "Hk" in
      apply result_bind_Ok in H as (a & H1 & H2)
  | H : fmap _ _ = Ok _ |- _ => apply result_fmap_Ok in H as (? & ? & ?)
  | H : Ok _ = Ok _ |- _ => injection H; clear H; intros; subst
  | H : Err _ = Ok _ |- _ => discriminate H
  | H : Ok _ = Err _ |- _ => discriminate H
  end.

(** Takes the [if _ then Err _ else _] at the head of a hypothesis to its [else]. *)
Ltac pass H :=
  lazymatch type of H with
  | (if ?b then _ else _) = _ => destruct b eqn:?; [discriminate H|]
  end.
