(* ===== verification/Sums.v ===== *)
(** * Sums over maps

    The sum of a weight over the rows of a map: what a counter that follows every change of the
    map stays equal to. *)

From S2P Require Import Prelude.

Open Scope Z_scope.

Section Total.
Context {K A : Type} `{HK : Countable K}.
Implicit Types (w : A → Z) (m : gmap K A).

Definition total w m : Z := map_fold (λ _ a acc, w a + acc) 0 m.

Lemma total_empty w : total w ∅ = 0.
Proof. apply map_fold_empty. Qed.

Lemma total_insert w m k a : m !! k = None → total w (<[k := a]> m) = w a + total w m.
Proof.
  intros Hk. unfold total.
  apply (map_fold_insert_L (λ _ (x : A) acc, w x + acc)); [|done]. intros. lia.
Qed.

Lemma total_delete w m k a : m !! k = Some a → total w (base.delete k m) = total w m - w a.
Proof.
  intros Hk. rewrite <-(insert_delete_id m k a Hk) at 2.
  rewrite total_insert by apply lookup_delete_eq. lia.
Qed.

Lemma total_replace w m k a b :
  m !! k = Some a → total w (<[k := b]> m) = total w m - w a + w b.
Proof.
  intros Hk. rewrite <-insert_delete_eq, total_insert by apply lookup_delete_eq.
  rewrite (total_delete _ _ _ a) by done. lia.
Qed.

Lemma total_nonneg w m : (∀ k a, m !! k = Some a → 0 ≤ w a) → 0 ≤ total w m.
Proof.
  induction m as [|k a m Hk IH] using map_ind; intros H; [by rewrite total_empty|].
  rewrite total_insert by done. apply Z.add_nonneg_nonneg; [apply (H k), lookup_insert_eq|].
  apply IH. intros k' a' Hk'. apply (H k'). rewrite lookup_insert_ne; [done|congruence].
Qed.

Lemma total_le w m c : (∀ k a, m !! k = Some a → w a ≤ c) → total w m ≤ c * Z.of_nat (size m).
Proof.
  induction m as [|k a m Hk IH] using map_ind; intros H.
  - rewrite total_empty, map_size_empty. lia.
  - rewrite total_insert, map_size_insert_None by done.
    assert (w a ≤ c) by apply (H k), lookup_insert_eq.
    assert (total w m ≤ c * Z.of_nat (size m)); [|lia].
    apply IH. intros k' a' Hk'. apply (H k'). rewrite lookup_insert_ne; [done|congruence].
Qed.

Lemma total_ge w m k a :
  (∀ k a, m !! k = Some a → 0 ≤ w a) → m !! k = Some a → w a ≤ total w m.
Proof.
  intros H Hk. pose proof (total_delete w m k a Hk) as E.
  assert (0 ≤ total w (base.delete k m)); [|lia].
  apply total_nonneg. intros k' a' [_ Hk']%lookup_delete_Some. by eapply H.
Qed.

Lemma total_mono v w m : (∀ k a, m !! k = Some a → v a ≤ w a) → total v m ≤ total w m.
Proof.
  induction m as [|k a m Hk IH] using map_ind; intros H; [by rewrite !total_empty|].
  rewrite !total_insert by done. apply Z.add_le_mono; [apply (H k), lookup_insert_eq|].
  apply IH. intros k' a' Hk'. apply (H k'). rewrite lookup_insert_ne; [done|congruence].
Qed.

Lemma total_add v w u m : (∀ a, u a = v a + w a) → total u m = total v m + total w m.
Proof.
  intros H. induction m as [|k a m Hk IH] using map_ind; [by rewrite !total_empty|].
  rewrite !total_insert, IH, H by done. lia.
Qed.

Lemma total_zero w m : (∀ k a, m !! k = Some a → w a = 0) → total w m = 0.
Proof.
  induction m as [|k a m Hk IH] using map_ind; intros H; [by rewrite total_empty|].
  rewrite total_insert, (H k a), IH; [done| |apply lookup_insert_eq|done].
  intros k' a' Hk'. apply (H k'). rewrite lookup_insert_ne; [done|congruence].
Qed.
Lemma total_subseteq w m1 m2 :
  (∀ k a, m2 !! k = Some a → 0 ≤ w a) → m1 ⊆ m2 → total w m1 ≤ total w m2.
Proof.
  revert m2. induction m1 as [|k a m Hk IH] using map_ind; intros m2 H Hsub.
  - rewrite total_empty. by apply total_nonneg.
  - rewrite total_insert by done. assert (Ha : m2 !! k = Some a).
    { eapply lookup_weaken; [apply lookup_insert_eq|done]. }
    assert (total w m ≤ total w (base.delete k m2)); [|pose proof (total_delete w _ _ _ Ha); lia].
    apply IH; [intros k' a' [_ ?]%lookup_delete_Some; eauto|].
    apply map_subseteq_spec. intros k' a' Hk'. rewrite lookup_delete_ne by congruence.
    eapply lookup_weaken; [|done]. rewrite lookup_insert_ne; [done|congruence].
Qed.
End Total.

Lemma total_fmap `{Countable K} {A B : Type} (f : A → B) (w : B → Z) (m : gmap K A) :
  total w (f <$> m) = total (w ∘ f) m.
Proof.
  induction m as [|k a m Hk IH] using map_ind; [by rewrite fmap_empty, !total_empty|].
  rewrite fmap_insert, !total_insert, IH; [done|done|]. by rewrite lookup_fmap, Hk.
Qed.
