(* ===== verification/Ids.v ===== *)
(** * Identifiers, names and domain errors

    The validated strings of [crates/domain/src/ids.rs] and the error type of
    [crates/domain/src/error.rs]. An identifier is its string: the newtypes of
    the source only carry the proof that [parse] accepted it. The ULID that
    [from_ulid] prints comes from the [ulid] crate and is an argument here. *)

From Stdlib Require Import Ascii.
From S2P Require Import Prelude.

Open Scope string_scope.
Open Scope Z_scope.

(** ** Errors *)

(** [crates/domain/src/error.rs:5-37 DomainError] *)
Inductive DomainError : Type :=
| InvalidId (expected_prefix value : string)
| InvalidName (kind value : string)
| InvalidDigest (value : string)
| Validation (field reason : string)
| IllegalTransition (entity from to : string)
| Terminal (entity state : string)
| GenerationMismatch (expected actual : Z)
| TenantMismatch (message : string)
| LimitExceeded (field : string) (actual max : Z).

#[global] Instance DomainError_eq_dec : EqDecision DomainError.
Proof. solve_decision. Defined.

(** [crates/domain/src/error.rs:40-45 DomainError::validation] *)
Definition validation (field reason : string) : DomainError := Validation field reason.

(** ** Bytes *)

Definition byte_of (c : ascii) : Z := Z.of_N (N_of_ascii c).
Definition in_range (lo hi c : ascii) : bool :=
  (byte_of lo <=? byte_of c) && (byte_of c <=? byte_of hi).
Definition is_ascii_digit (c : ascii) : bool := in_range "0" "9" c.
Definition is_ascii_lowercase (c : ascii) : bool := in_range "a" "z" c.
Definition is_ascii_uppercase (c : ascii) : bool := in_range "A" "Z" c.
Definition is_ascii_alphanumeric (c : ascii) : bool :=
  is_ascii_digit c || is_ascii_lowercase c || is_ascii_uppercase c.

(** [s.bytes().all(p)] and [s.len()] *)
Definition bytes_all (p : ascii → bool) (s : string) : bool :=
  forallb p (String.list_ascii_of_string s).
Definition byte_len (s : string) : Z := Z.of_nat (String.length s).
Definition first_byte (s : string) : option ascii := String.get 0 s.
Definition last_byte (s : string) : option ascii := String.get (String.length s - 1) s.

(** [s.strip_prefix(p)] *)
Fixpoint strip_prefix (p s : string) : option string :=
  match p, s with
  | EmptyString, _ => Some s
  | String c p', String d s' => if c == d then strip_prefix p' s' else None
  | String _ _, EmptyString => None
  end.

(** ** Typed identifiers *)

(** [crates/domain/src/ids.rs:26-26 ULID_LEN] *)
Definition ULID_LEN : Z := 26.

(** The bytes of Crockford's base 32 in lower case. *)
Definition is_crockford_byte (b : ascii) : bool :=
  in_range "0" "9" b || in_range "a" "h" b || in_range "j" "k" b || in_range "m" "n" b ||
  in_range "p" "t" b || in_range "v" "z" b.

(** [crates/domain/src/ids.rs:28-32 is_lower_crockford] *)
Definition is_lower_crockford (s : string) : bool :=
  (byte_len s =? ULID_LEN) && bytes_all is_crockford_byte s.

(** [crates/domain/src/ids.rs:34-48 parse_prefixed] *)
Definition parse_prefixed (prefix raw : string) : result DomainError string :=
  match strip_prefix prefix raw ≫= strip_prefix "_" with
  | None => Err (InvalidId prefix raw)
  | Some rest =>
      if is_lower_crockford rest then Ok raw else Err (InvalidId prefix raw)
  end.

(** The namespaces of [define_id!]. *)
(** [crates/domain/src/ids.rs:119-186 define_id! (kinds)] *)
Inductive IdKind : Type :=
| Tenant | Function_ | Revision | Invocation_ | Attempt | Environment_ | Lease
| Dispatcher | Trigger | Snapshot | DeadLetter | Redrive.

#[global] Instance IdKind_eq_dec : EqDecision IdKind.
Proof. solve_decision. Defined.

(** [crates/domain/src/ids.rs:58-58 PREFIX] *)
Definition PREFIX (k : IdKind) : string :=
  match k with
  | Tenant => "tn" | Function_ => "fn" | Revision => "rev" | Invocation_ => "inv"
  | Attempt => "att" | Environment_ => "env" | Lease => "lse" | Dispatcher => "dsp"
  | Trigger => "trg" | Snapshot => "snap" | DeadLetter => "dlq" | Redrive => "rdv"
  end.

(** [crates/domain/src/ids.rs:70-72 parse] *)
Definition parse_id (k : IdKind) (raw : string) : result DomainError string :=
  parse_prefixed (PREFIX k) raw.

Definition to_ascii_lowercase_byte (c : ascii) : ascii :=
  if is_ascii_uppercase c then ascii_of_N (N_of_ascii c + 32) else c.
Definition to_ascii_lowercase (s : string) : string :=
  String.string_of_list_ascii (map to_ascii_lowercase_byte (String.list_ascii_of_string s)).

(** [crates/domain/src/ids.rs:65-68 from_ulid] [ulid] is [ulid.to_string()]. *)
Definition from_ulid (k : IdKind) (ulid : string) : string :=
  (PREFIX k ++ "_" ++ to_ascii_lowercase ulid)%string.

(** ** Names and digests *)

(** [crates/domain/src/ids.rs:292-303 is_label] *)
Definition is_label (raw : string) (max : Z) : bool :=
  if (byte_len raw =? 0) || (max <? byte_len raw) then false
  else if negb (is_some_and (first_byte raw) is_ascii_alphanumeric)
       || negb (is_some_and (last_byte raw) is_ascii_alphanumeric) then false
  else bytes_all (λ b, is_ascii_lowercase b || is_ascii_digit b || (b == "-"%char)) raw.

(** [crates/domain/src/ids.rs:196-205 AliasName::parse] *)
Definition parse_alias_name (raw : string) : result DomainError string :=
  if is_label raw 32 then Ok raw else Err (InvalidName "alias" raw).

(** [crates/domain/src/ids.rs:207-209 AliasName::default_alias] *)
Definition default_alias : string := "prod".

(** [crates/domain/src/ids.rs:250-259 FunctionName::parse] *)
Definition parse_function_name (raw : string) : result DomainError string :=
  if is_label raw 63 then Ok raw else Err (InvalidName "function" raw).

(** [crates/domain/src/ids.rs:311-323 Sha256Digest::parse] *)
Definition parse_digest (raw : string) : result DomainError string :=
  match strip_prefix "sha256:" raw with
  | None => Err (InvalidDigest raw)
  | Some hex_part =>
      if negb (byte_len hex_part =? 64)
         || negb (bytes_all (λ b, in_range "0" "9" b || in_range "a" "f" b) hex_part)
      then Err (InvalidDigest raw)
      else Ok raw
  end.

(** ** Lemmas *)

Lemma append_cons c p r : (String c p ++ r)%string = String c (p ++ r)%string.
Proof. done. Qed.
Lemma append_nil_l r : ("" ++ r)%string = r.
Proof. done. Qed.

Lemma strip_prefix_Some p s r : strip_prefix p s = Some r ↔ s = (p ++ r)%string.
Proof.
  revert s. induction p as [|c p IH]; intros s; cbn; rewrite ?append_cons, ?append_nil_l.
  - naive_solver.
  - destruct s as [|d s]; [done|]. case_bool_decide as Hc.
    + subst d. rewrite IH. split; congruence.
    + split; [done|]. intros [= ? ?]. congruence.
Qed.

Lemma strip_prefix_app p r : strip_prefix p (p ++ r) = Some r.
Proof. by apply strip_prefix_Some. Qed.

Lemma string_length_app s t :
  String.length (s ++ t)%string = (String.length s + String.length t)%nat.
Proof. induction s as [|c s IH]; [done|]. rewrite append_cons. cbn. lia. Qed.

Lemma string_app_inj_length p q r s :
  String.length p = String.length q → (p ++ r)%string = (q ++ s)%string → p = q ∧ r = s.
Proof.
  revert q. induction p as [|c p IH]; intros [|d q] Hlen Heq; try done.
  rewrite !append_cons in Heq. cbn in *. simplify_eq. destruct (IH q) as [-> ->]; [lia|done|done].
Qed.

Lemma bytes_all_app p s t : bytes_all p (s ++ t) = bytes_all p s && bytes_all p t.
Proof. unfold bytes_all. induction s as [|c s IH]; rewrite ?append_cons; cbn; [done|]. by rewrite IH, andb_assoc. Qed.

Lemma parse_prefixed_Ok prefix raw id :
  parse_prefixed prefix raw = Ok id ↔
  id = raw ∧ ∃ rest, raw = (prefix ++ "_" ++ rest)%string ∧ is_lower_crockford rest = true.
Proof.
  unfold parse_prefixed. split.
  - destruct (strip_prefix prefix raw) as [r|] eqn:Hp; cbn; [|done].
    destruct r as [|c r]; [done|]. case_bool_decide as Hc; [|done]. subst c.
    destruct (is_lower_crockford r) eqn:Hr; [|done]. intros [= <-].
    apply strip_prefix_Some in Hp. split; [done|]. by exists r.
  - intros (-> & rest & Hraw & Hrest).
    rewrite Hraw, strip_prefix_app. cbn [option_bind mbind]. rewrite strip_prefix_app.
    by rewrite Hrest.
Qed.

Lemma is_lower_crockford_length s : is_lower_crockford s = true → String.length s = 26%nat.
Proof. unfold is_lower_crockford, byte_len, ULID_LEN. intros H. bools. lia. Qed.

#[export] Hint Resolve is_lower_crockford_length : tsls.

Lemma PREFIX_inj k1 k2 : PREFIX k1 = PREFIX k2 → k1 = k2.
Proof. by destruct k1, k2. Qed.

(** An identifier belongs to exactly one namespace. A string accepted as
    an identifier of one kind is refused as an identifier of every other
    kind, so a tenant, environment or lease id can never be confused with
    another sort of id. *)
Theorem parse_id_kind_unique (k1 k2 : IdKind) (raw a b : string) :
  parse_id k1 raw = Ok a → parse_id k2 raw = Ok b → k1 = k2 ∧ a = b.
Proof.
  unfold parse_id. rewrite !parse_prefixed_Ok.
  intros (-> & r1 & H1 & C1) (-> & r2 & H2 & C2). split; [|done].
  apply is_lower_crockford_length in C1, C2. rewrite H1 in H2.
  pose proof (f_equal String.length H2) as Hlen.
  rewrite !string_length_app in Hlen. cbn in Hlen.
  apply string_app_inj_length in H2 as [H2 _]; [by apply PREFIX_inj|lia].
Qed.

Lemma parse_id_kind_unique_witness :
  parse_id Tenant "tn_01hjjn348rn3t49zz6hvmfq67p" = Ok "tn_01hjjn348rn3t49zz6hvmfq67p" ∧
  Tenant = Tenant.
Proof.
  split; [vm_compute; reflexivity|].
  exact (proj1 (parse_id_kind_unique Tenant Tenant "tn_01hjjn348rn3t49zz6hvmfq67p" _ _
    ltac:(vm_compute; reflexivity) ltac:(vm_compute; reflexivity))).
Defined.

Example parse_id_examples :
  parse_id Function_ "rev_01hjjn348rn3t49zz6hvmfq67p"
    = Err (InvalidId "fn" "rev_01hjjn348rn3t49zz6hvmfq67p") ∧
  is_ok (parse_id Function_ "fn_01HZZZZZZZZZZZZZZZZZZZZZZZ") = false ∧
  is_ok (parse_function_name "hello-world-2") = true ∧
  is_ok (parse_function_name "-bad") = false ∧
  is_ok (parse_alias_name "with space") = false ∧
  is_ok (parse_digest "sha256:2cf24dba5fb0a30e26e83b2ac5b9e29e1b161e5c1fa7425e73043362938b9824")
    = true.
Proof. vm_compute. repeat split. Qed.
