(* ===== verification/Environment.v ===== *)
(** * Execution environments and slot leases

    [crates/domain/src/environment.rs]: the life of a microVM or process
    ([ExecutionEnvironment], module [Env]) and the lease that binds one attempt
    to it ([ExecutionLease], module [Lse]). A method that takes [&mut self]
    becomes a function to the new value; [Err] leaves the value as it was. *)

From S2P Require Import Prelude Ids.

Open Scope string_scope.
Open Scope Z_scope.

(** ** Data *)

Module ProviderKind.
(** [crates/domain/src/environment.rs:10-20 ProviderKind] *)
Inductive t : Type := Firecracker | Process | Fake | Other (name : string).
#[global] Instance eq_dec : EqDecision t.
Proof. solve_decision. Defined.

(** [crates/domain/src/environment.rs:23-30 as_str] *)
Definition as_str (k : t) : string :=
  match k with
  | Firecracker => "firecracker"
  | Process => "process"
  | Fake => "fake"
  | Other s => s
  end.
(** [crates/domain/src/environment.rs:31-34 is_unisolated] *)
Definition is_unisolated (k : t) : bool :=
  match k with Process | Fake => true | _ => false end.
End ProviderKind.

Module EnvironmentState.
(** [crates/domain/src/environment.rs:37-55 EnvironmentState] *)
Inductive t : Type :=
| Requested | Provisioning | Initializing | Ready | Busy | Idle | Draining | Stopped
| Failed (reason : string)
| Lost (reason : string).
#[global] Instance eq_dec : EqDecision t.
Proof. solve_decision. Defined.

(** [crates/domain/src/environment.rs:58-63 is_terminal] *)
Definition is_terminal (s : t) : bool :=
  match s with Stopped | Failed _ | Lost _ => true | _ => false end.

(** [crates/domain/src/environment.rs:64-77 name] *)
Definition name (s : t) : string :=
  match s with
  | Requested => "requested"
  | Provisioning => "provisioning"
  | Initializing => "initializing"
  | Ready => "ready"
  | Busy => "busy"
  | Idle => "idle"
  | Draining => "draining"
  | Stopped => "stopped"
  | Failed _ => "failed"
  | Lost _ => "lost"
  end.

Definition is_ready (s : t) : bool := match s with Ready => true | _ => false end.
Definition is_busy (s : t) : bool := match s with Busy => true | _ => false end.
Definition is_idle (s : t) : bool := match s with Idle => true | _ => false end.
End EnvironmentState.

(** A [serde_json] value; an object lists its members in key order. *)
Inductive json : Type :=
| JNull
| JBool (b : bool)
| JNumber (repr : string)
| JString (s : string)
| JArray (items : list json)
| JObject (members : list (string * json)).

#[global] Instance json_eq_dec : EqDecision json.
Proof.
  refine (fix go (x y : json) {struct x} : {x = y} + {x ≠ y} := _).
  decide equality; try exact (decide (_ = _)).
  - exact (List.list_eq_dec go _ _).
  - refine (List.list_eq_dec _ _ _). intros [k v] [k' v'].
    destruct (decide (k = k')) as [->|]; [|right; congruence].
    destruct (go v v') as [->|]; [by left|right; congruence].
Defined.

(** [crates/domain/src/environment.rs:80-90 BootEvidence] *)
Record BootEvidence := mkEvidence {
  guest_boot_id : option string;
  host_pid : option Z;
  details : list (string * json)
}.
#[global] Instance BootEvidence_eq_dec : EqDecision BootEvidence.
Proof. solve_decision. Defined.
#[global] Instance BootEvidence_eta : Eta BootEvidence :=
  λ r, mkEvidence (guest_boot_id r) (host_pid r) (details r).
Definition evidence_default : BootEvidence := mkEvidence None None [].

(** [crates/domain/src/environment.rs:92-106 ReuseKey] *)
Record ReuseKey := mkReuseKey {
  key_tenant_id : TenantId;
  key_revision_id : RevisionId;
  execution_role_version : Z;
  configuration_version : Z;
  resource_profile_digest : string;
  runtime_profile : string;
  network_policy_version : Z;
  secret_binding_generation : Z
}.
#[global] Instance ReuseKey_eq_dec : EqDecision ReuseKey.
Proof. solve_decision. Defined.

(** [crates/domain/src/environment.rs:108-144 ExecutionEnvironment] *)
Record ExecutionEnvironment := mkEnv {
  env_id : EnvironmentId;
  env_tenant_id : TenantId;
  env_revision_id : RevisionId;
  env_provider : ProviderKind.t;
  env_state : EnvironmentState.t;
  env_reuse_key : ReuseKey;
  env_epoch : Z;
  env_owner : option DispatcherId;
  env_fenced_at : option Timestamp;
  env_evidence : BootEvidence;
  env_created_at : Timestamp;
  env_ready_at : option Timestamp;
  env_idle_since : option Timestamp;
  env_stopped_at : option Timestamp;
  env_updated_at : Timestamp
}.
#[global] Instance ExecutionEnvironment_eq_dec : EqDecision ExecutionEnvironment.
Proof. solve_decision. Defined.
#[global] Instance ExecutionEnvironment_eta : Eta ExecutionEnvironment := λ r,
  mkEnv (env_id r) (env_tenant_id r) (env_revision_id r) (env_provider r) (env_state r)
    (env_reuse_key r) (env_epoch r) (env_owner r) (env_fenced_at r) (env_evidence r)
    (env_created_at r) (env_ready_at r) (env_idle_since r) (env_stopped_at r) (env_updated_at r).

(** [crates/domain/src/environment.rs:373-393 ExecutionLease] *)
Record ExecutionLease := mkLease {
  lease_id : LeaseId;
  lease_environment_id : EnvironmentId;
  lease_attempt_id : AttemptId;
  lease_tenant_id : TenantId;
  lease_epoch : Z;
  lease_acquired_at : Timestamp;
  lease_deadline : Timestamp;
  lease_released_at : option Timestamp;
  lease_owner : option DispatcherId;
  lease_expires_at : option Timestamp
}.
#[global] Instance ExecutionLease_eq_dec : EqDecision ExecutionLease.
Proof. solve_decision. Defined.
#[global] Instance ExecutionLease_eta : Eta ExecutionLease := λ r,
  mkLease (lease_id r) (lease_environment_id r) (lease_attempt_id r) (lease_tenant_id r)
    (lease_epoch r) (lease_acquired_at r) (lease_deadline r) (lease_released_at r)
    (lease_owner r) (lease_expires_at r).

(** ** Environment operations *)

Module Env.
Import EnvironmentState.

(** [crates/domain/src/environment.rs:147-172 ExecutionEnvironment::request] *)
Definition request (id : EnvironmentId) (tenant : TenantId) (revision : RevisionId)
    (provider : ProviderKind.t) (key : ReuseKey) (now : Timestamp) : ExecutionEnvironment :=
  mkEnv id tenant revision provider Requested key 0 None None evidence_default now None None
    None now.

(** [crates/domain/src/environment.rs:174-178 owned_by] *)
Definition owned_by (owner : DispatcherId) (e : ExecutionEnvironment) : ExecutionEnvironment :=
  e <| env_owner := Some owner |>.

(** [crates/domain/src/environment.rs:188-200 transition (allowed)] *)
Definition allowed (from to : EnvironmentState.t) : bool :=
  match from, to with
  | Requested, Provisioning
  | Provisioning, Initializing
  | Initializing, Ready
  | Ready, Busy
  | Busy, Idle
  | Idle, Ready
  | (Ready | Busy | Idle), Draining
  | _, Stopped
  | _, Failed _
  | _, Lost _ => true
  | _, _ => false
  end.

(** [crates/domain/src/environment.rs:180-220 transition] *)
Definition transition (to : EnvironmentState.t) (now : Timestamp) (e : ExecutionEnvironment)
    : result DomainError ExecutionEnvironment :=
  when! is_terminal (env_state e) return!
    Err (Terminal "ExecutionEnvironment" (name (env_state e)));;
  when! negb (allowed (env_state e) to) return!
    Err (IllegalTransition "ExecutionEnvironment" (name (env_state e)) (name to));;
  let e := if is_ready to && is_none (env_ready_at e)
           then e <| env_ready_at := Some now |> else e in
  let e := e <| env_idle_since := if is_idle to then Some now else None |> in
  let e := if is_terminal to then e <| env_stopped_at := Some now |> else e in
  Ok (e <| env_state := to |> <| env_updated_at := now |>).

(** [crates/domain/src/environment.rs:222-224 mark_provisioning] *)
Definition mark_provisioning := transition Provisioning.
(** [crates/domain/src/environment.rs:225-233 mark_initializing] *)
Definition mark_initializing (evidence : BootEvidence) (now : Timestamp)
    (e : ExecutionEnvironment) : result DomainError ExecutionEnvironment :=
  e ← transition Initializing now e;
  Ok (e <| env_evidence := evidence |>).
(** [crates/domain/src/environment.rs:234-236 mark_ready] *)
Definition mark_ready := transition Ready.
(** [crates/domain/src/environment.rs:237-239 mark_busy] *)
Definition mark_busy := transition Busy.
(** [crates/domain/src/environment.rs:240-242 mark_idle] *)
Definition mark_idle := transition Idle.
(** [crates/domain/src/environment.rs:243-245 mark_draining] *)
Definition mark_draining := transition Draining.
(** [crates/domain/src/environment.rs:246-248 mark_stopped] *)
Definition mark_stopped := transition Stopped.
(** [crates/domain/src/environment.rs:249-260 mark_failed] *)
Definition mark_failed (reason : string) := transition (Failed reason).
(** [crates/domain/src/environment.rs:261-272 mark_lost] *)
Definition mark_lost (reason : string) := transition (Lost reason).

(** [crates/domain/src/environment.rs:274-277 record_guest_boot_id] *)
Definition record_guest_boot_id (boot_id : string) (e : ExecutionEnvironment)
    : ExecutionEnvironment :=
  e <| env_evidence ::= λ v, v <| guest_boot_id := Some boot_id |> |>.

(** [crates/domain/src/environment.rs:279-287 is_reusable] *)
Definition is_reusable (e : ExecutionEnvironment) : bool :=
  is_none (env_fenced_at e) && (is_ready (env_state e) || is_idle (env_state e)).

(** [crates/domain/src/environment.rs:289-302 reserve] *)
Definition reserve (now : Timestamp) (e : ExecutionEnvironment)
    : result DomainError ExecutionEnvironment :=
  when! negb (is_idle (env_state e)) || is_some (env_fenced_at e) return!
    Err (IllegalTransition "ExecutionEnvironment" (name (env_state e)) "ready");;
  mark_ready now e.

(** [crates/domain/src/environment.rs:304-331 assign] *)
Definition assign (now : Timestamp) (e : ExecutionEnvironment)
    : result DomainError (ExecutionEnvironment * Z) :=
  when! negb (is_reusable e) return!
    Err (IllegalTransition "ExecutionEnvironment"
           (if is_some (env_fenced_at e) then "fenced" else name (env_state e)) "busy");;
  e ← (if is_idle (env_state e) then mark_ready now e else Ok e);
  e ← mark_busy now e;
  let e := e <| env_epoch ::= λ n, u64_add n 1 |> in
  Ok (e, env_epoch e).

(** [crates/domain/src/environment.rs:333-353 fence] *)
Definition fence (now : Timestamp) (e : ExecutionEnvironment)
    : result DomainError (ExecutionEnvironment * Z) :=
  when! is_terminal (env_state e) return!
    Err (Terminal "ExecutionEnvironment" (name (env_state e)));;
  let e := e <| env_state := Draining |> <| env_idle_since := None |>
             <| env_epoch ::= λ n, u64_add n 1 |> in
  let e := if is_none (env_fenced_at e) then e <| env_fenced_at := Some now |> else e in
  let e := e <| env_updated_at := now |> in
  Ok (e, env_epoch e).

(** [crates/domain/src/environment.rs:355-357 is_fenced] *)
Definition is_fenced (e : ExecutionEnvironment) : bool := is_some (env_fenced_at e).

(** [crates/domain/src/environment.rs:359-366 idle_expired] *)
Definition idle_expired (now : Timestamp) (ttl : Duration) (e : ExecutionEnvironment) : bool :=
  match env_idle_since e with
  | Some since => ttl <=? now - since
  | None => false
  end.

(** [crates/domain/src/environment.rs:368-370 is_terminal] *)
Definition is_terminal (e : ExecutionEnvironment) : bool :=
  EnvironmentState.is_terminal (env_state e).
End Env.

(** ** Lease operations *)

Module Lse.
(** [crates/domain/src/environment.rs:396-417 ExecutionLease::acquire] *)
Definition acquire (id : LeaseId) (env : EnvironmentId) (attempt : AttemptId)
    (tenant : TenantId) (epoch : Z) (deadline now : Timestamp) : ExecutionLease :=
  mkLease id env attempt tenant epoch now deadline None None None.

(** [crates/domain/src/environment.rs:419-424 owned_by] *)
Definition owned_by (owner : DispatcherId) (expires_at : Timestamp) (l : ExecutionLease)
    : ExecutionLease :=
  l <| lease_owner := Some owner |> <| lease_expires_at := Some expires_at |>.

(** [crates/domain/src/environment.rs:426-434 is_active] *)
Definition is_active (now : Timestamp) (l : ExecutionLease) : bool :=
  is_none (lease_released_at l) &&
  match lease_expires_at l with
  | Some expires => now <? expires
  | None => now <? lease_deadline l
  end.

(** [crates/domain/src/environment.rs:436-442 is_expired] *)
Definition is_expired (now : Timestamp) (skew : Duration) (l : ExecutionLease) : bool :=
  is_none (lease_released_at l) && is_some_and (lease_expires_at l) (λ e, e + skew <=? now).

(** [crates/domain/src/environment.rs:462-465 renew (expiry)] The expiry moves to
    [next] unless that would move it backwards. *)
Definition extend (next : Timestamp) (l : ExecutionLease) : ExecutionLease :=
  if is_none_or (lease_expires_at l) (λ e, e <? next)
  then l <| lease_expires_at := Some next |> else l.

(** [crates/domain/src/environment.rs:444-467 renew] *)
Definition renew (now : Timestamp) (ttl : Duration) (l : ExecutionLease)
    : result DomainError ExecutionLease :=
  when! is_some (lease_released_at l) return! Err (Terminal "ExecutionLease" "released");;
  when! negb (is_active now l) return!
    Err (IllegalTransition "ExecutionLease" "expired" "renewed");;
  Ok (extend (now + ttl) l).

(** [crates/domain/src/environment.rs:469-487 revive] *)
Definition revive (now : Timestamp) (ttl : Duration) (l : ExecutionLease)
    : result DomainError ExecutionLease :=
  when! is_some (lease_released_at l) return! Err (Terminal "ExecutionLease" "released");;
  Ok (extend (now + ttl) l).

(** [crates/domain/src/environment.rs:489-498 release] *)
Definition release (now : Timestamp) (l : ExecutionLease) : result DomainError ExecutionLease :=
  when! is_some (lease_released_at l) return! Err (Terminal "ExecutionLease" "released");;
  Ok (l <| lease_released_at := Some now |>).

(** [crates/domain/src/environment.rs:500-504 accepts] *)
Definition accepts (attempt : AttemptId) (epoch : Z) (l : ExecutionLease) : bool :=
  is_none (lease_released_at l) && (lease_attempt_id l == attempt) && (lease_epoch l =? epoch).
End Lse.

(** ** The environment as a state machine

    Every public mutator, so that a run of the program over one environment is
    a sequence of [env_op]s, each at its own instant. *)
Inductive env_op : Type :=
| OpProvisioning | OpInitializing (evidence : BootEvidence) | OpReady | OpBusy | OpIdle
| OpDraining | OpStopped | OpFailed (reason : string) | OpLost (reason : string)
| OpBootId (boot_id : string) | OpReserve | OpAssign | OpFence.

Definition run_op (op : env_op) (now : Timestamp) (e : ExecutionEnvironment)
    : result DomainError ExecutionEnvironment :=
  match op with
  | OpProvisioning => Env.mark_provisioning now e
  | OpInitializing ev => Env.mark_initializing ev now e
  | OpReady => Env.mark_ready now e
  | OpBusy => Env.mark_busy now e
  | OpIdle => Env.mark_idle now e
  | OpDraining => Env.mark_draining now e
  | OpStopped => Env.mark_stopped now e
  | OpFailed r => Env.mark_failed r now e
  | OpLost r => Env.mark_lost r now e
  | OpBootId b => Ok (Env.record_guest_boot_id b e)
  | OpReserve => Env.reserve now e
  | OpAssign => fst <$> Env.assign now e
  | OpFence => fst <$> Env.fence now e
  end.

Inductive env_step (e e' : ExecutionEnvironment) : Prop :=
| env_step_op op now : run_op op now e = Ok e' → env_step e e'.

(** What every environment built by [request] and these mutators satisfies. *)
Record env_wf (e : ExecutionEnvironment) : Prop := {
  wf_idle : is_some (env_idle_since e) = EnvironmentState.is_idle (env_state e);
  wf_stopped : is_some (env_stopped_at e) = EnvironmentState.is_terminal (env_state e);
  wf_ready :
    env_state e = EnvironmentState.Ready ∨ env_state e = EnvironmentState.Busy
      ∨ env_state e = EnvironmentState.Idle → env_ready_at e ≠ None;
  wf_fenced : Env.is_fenced e = true →
    env_state e = EnvironmentState.Draining ∨ Env.is_terminal e = true;
  wf_epoch : u64_range (env_epoch e);
  wf_boot_epoch :
    env_state e = EnvironmentState.Requested ∨ env_state e = EnvironmentState.Provisioning
      ∨ env_state e = EnvironmentState.Initializing → env_epoch e = 0
}.

(** *** Runs of one lease *)
Inductive lease_op : Type := LRenew (ttl : Duration) | LRevive (ttl : Duration) | LRelease.

Definition run_lease_op (op : lease_op) (now : Timestamp) (l : ExecutionLease)
    : result DomainError ExecutionLease :=
  match op with
  | LRenew ttl => Lse.renew now ttl l
  | LRevive ttl => Lse.revive now ttl l
  | LRelease => Lse.release now l
  end.

Inductive lease_step (l l' : ExecutionLease) : Prop :=
| lease_step_op op now : run_lease_op op now l = Ok l' → lease_step l l'.

(** [l'] is a later version of [l]: the same lease, released at most once and
    never for a shorter time. *)
Record lease_le (l l' : ExecutionLease) : Prop := {
  le_same : l' = l <| lease_released_at := lease_released_at l' |>
                   <| lease_expires_at := lease_expires_at l' |>;
  le_released : lease_released_at l ≠ None → l' = l;
  le_expiry : ∀ x, lease_expires_at l = Some x →
    ∃ y, lease_expires_at l' = Some y ∧ x ≤ y
}.

(** *** Concrete environments, for the witnesses *)
Definition key0 : ReuseKey := mkReuseKey "tn_a" "rev_a" 1 1 "sha256:0" "wasm" 1 1.
Definition env0 : ExecutionEnvironment :=
  Env.request "env_a" "tn_a" "rev_a" ProviderKind.Firecracker key0 0.
(** Runs a list of mutators, one per nanosecond. *)
Fixpoint run_ops (ops : list env_op) (now : Timestamp) (e : ExecutionEnvironment)
    : result DomainError ExecutionEnvironment :=
  match ops with
  | [] => Ok e
  | op :: ops => e ← run_op op now e; run_ops ops (now + 1) e
  end.

Definition boot : list env_op := [OpProvisioning; OpInitializing evidence_default; OpReady].
Definition env_of (r : result DomainError ExecutionEnvironment) : ExecutionEnvironment :=
  match r with Ok e => e | Err _ => env0 end.
Definition env_ready : ExecutionEnvironment := env_of (run_ops boot 1 env0).
Definition env_fenced : ExecutionEnvironment := env_of (run_ops (boot ++ [OpFence]) 1 env0).
Definition env_lost : ExecutionEnvironment :=
  env_of (run_ops [OpLost "node"; OpBootId "b"] 9 env_fenced).
Definition lease0 : ExecutionLease :=
  Lse.owned_by "dsp_a" 10 (Lse.acquire "lse_a" "env_a" "att_a" "tn_a" 1 100 0).

(** ** Lemmas *)

Lemma transition_Ok to now e e' :
  Env.transition to now e = Ok e' ↔
  Env.is_terminal e = false ∧ Env.allowed (env_state e) to = true ∧
  e' = e <| env_ready_at := if EnvironmentState.is_ready to && is_none (env_ready_at e)
                            then Some now else env_ready_at e |>
         <| env_idle_since := if EnvironmentState.is_idle to then Some now else None |>
         <| env_stopped_at := if EnvironmentState.is_terminal to
                              then Some now else env_stopped_at e |>
         <| env_state := to |> <| env_updated_at := now |>.
Proof.
  unfold Env.transition, Env.is_terminal.
  destruct e as [? ? ? ? st ? ? ? ? ? ? rdy idle stp ?]; cbn.
  destruct (EnvironmentState.is_terminal st); [naive_solver|].
  destruct (Env.allowed st to); cbn; [|naive_solver].
  destruct to; cbn; destruct rdy; cbn; naive_solver.
Qed.

(** What [transition] never touches. *)
Lemma transition_frame to now e e' :
  Env.transition to now e = Ok e' →
  env_id e' = env_id e ∧ env_tenant_id e' = env_tenant_id e ∧
  env_revision_id e' = env_revision_id e ∧ env_provider e' = env_provider e ∧
  env_reuse_key e' = env_reuse_key e ∧ env_owner e' = env_owner e ∧
  env_created_at e' = env_created_at e ∧ env_epoch e' = env_epoch e ∧
  env_fenced_at e' = env_fenced_at e ∧ env_state e' = to.
Proof. intros (? & ? & ->)%transition_Ok. done. Qed.

Lemma transition_wf to now e e' : Env.transition to now e = Ok e' → env_wf e → env_wf e'.
Proof.
  intros (Hterm & Hallowed & ->)%transition_Ok [Hidle Hstop Hready Hfence Hepoch Hboot].
  unfold Env.is_terminal, Env.is_fenced in *.
  destruct e as [? ? ? ? st ? ? ? fa ? ? rdy idle stp ?]; cbn in *.
  split; cbn.
  - by destruct to.
  - destruct st, to; try discriminate; done.
  - intros Hto. destruct (EnvironmentState.is_ready to) eqn:Hr; cbn.
    { by destruct rdy. }
    apply Hready. destruct st, to; try discriminate; auto; destruct_or! Hto; discriminate.
  - unfold Env.is_fenced, Env.is_terminal; cbn. intros Hf. specialize (Hfence Hf).
    destruct st, to; try discriminate; destruct_or! Hfence; try discriminate; auto.
  - done.
  - intros Hto. apply Hboot. destruct st, to; try discriminate; auto; destruct_or! Hto; discriminate.
Qed.

Lemma assign_Ok now e e' n :
  Env.assign now e = Ok (e', n) →
  Env.is_reusable e = true ∧ n = u64_add (env_epoch e) 1 ∧ env_epoch e' = n ∧
  env_state e' = EnvironmentState.Busy ∧ env_fenced_at e' = None ∧
  env_id e' = env_id e ∧ env_owner e' = env_owner e ∧ env_tenant_id e' = env_tenant_id e ∧
  env_revision_id e' = env_revision_id e ∧ env_reuse_key e' = env_reuse_key e ∧
  env_provider e' = env_provider e ∧ env_created_at e' = env_created_at e.
Proof.
  unfold Env.assign. destruct (Env.is_reusable e) eqn:Hr; cbn; [|done].
  intros H. steps. cbn.
  apply transition_frame in Hm0. destruct_and!.
  assert (env_fenced_at e = None) as Hf.
  { unfold Env.is_reusable in Hr. bools. done. }
  destruct (EnvironmentState.is_idle (env_state e)); steps.
  - apply transition_frame in Hm. destruct_and!. repeat split; congruence.
  - repeat split; congruence.
Qed.

Lemma assign_wf now e e' n : Env.assign now e = Ok (e', n) → env_wf e → env_wf e'.
Proof.
  unfold Env.assign. destruct (Env.is_reusable e) eqn:Hr; cbn; [|done].
  intros H Hwf. steps.
  assert (env_wf a) as Ha.
  { destruct (EnvironmentState.is_idle (env_state e)); steps; eauto using transition_wf. }
  pose proof (transition_wf _ _ _ _ Hm0 Ha) as [? ? ? ? ? ?].
  apply transition_frame in Hm0 as (? & ? & ? & ? & ? & ? & ? & ? & ? & Hst).
  split; cbn; try done; try apply u64_add_range.
  rewrite Hst. intros Hs. destruct_or! Hs; discriminate.
Qed.

(** [assign] on a reusable environment always succeeds. *)
Lemma assign_reusable now e :
  Env.is_reusable e = true → ∃ e', Env.assign now e = Ok (e', u64_add (env_epoch e) 1).
Proof.
  intros Hr. unfold Env.assign. rewrite Hr. cbn.
  unfold Env.is_reusable in Hr. bools.
  destruct e as [? ? ? ? st ? ? ? fa ? ? rdy idle stp ?]; cbn in *.
  destruct st; try (cbn in *; intuition discriminate); cbn;
    unfold Env.mark_ready, Env.mark_busy, Env.transition; cbn;
    destruct rdy; cbn; eauto.
Qed.

Lemma fence_Ok now e e' n :
  Env.fence now e = Ok (e', n) ↔
  Env.is_terminal e = false ∧ n = u64_add (env_epoch e) 1 ∧
  e' = e <| env_state := EnvironmentState.Draining |> <| env_idle_since := None |>
         <| env_epoch := n |>
         <| env_fenced_at := Some (unwrap_or (env_fenced_at e) now) |>
         <| env_updated_at := now |>.
Proof.
  unfold Env.fence, Env.is_terminal.
  destruct (EnvironmentState.is_terminal (env_state e)); [naive_solver|].
  destruct e as [? ? ? ? st ? ? ? fa ? ? rdy idle stp ?]; cbn. destruct fa; cbn; naive_solver.
Qed.

Lemma fence_wf now e e' n : Env.fence now e = Ok (e', n) → env_wf e → env_wf e'.
Proof.
  intros (Ht & -> & ->)%fence_Ok [? Hstop ? ? ? ?]. unfold Env.is_terminal in *.
  split; cbn; try done; try apply u64_add_range.
  - destruct (EnvironmentState.is_terminal (env_state e)); congruence.
  - intros Hs. destruct_or! Hs; discriminate.
  - by left.
  - intros Hs. destruct_or! Hs; discriminate.
Qed.

Lemma reserve_Ok now e e' :
  Env.reserve now e = Ok e' →
  env_state e = EnvironmentState.Idle ∧ env_fenced_at e = None ∧
  Env.transition EnvironmentState.Ready now e = Ok e'.
Proof.
  unfold Env.reserve. destruct (env_state e), (env_fenced_at e); cbn; naive_solver.
Qed.

(** A fenced environment is not handed out: both ways into an attempt refuse it. *)
Lemma fenced_refused e now :
  Env.is_fenced e = true →
  Env.is_reusable e = false ∧ is_err (Env.assign now e) = true ∧ is_err (Env.reserve now e) = true.
Proof.
  unfold Env.is_fenced, Env.is_reusable, Env.assign, Env.reserve, Env.is_reusable.
  destruct (env_fenced_at e); cbn; [|done]. intros _. rewrite orb_true_r. done.
Qed.

Lemma run_op_wf op now e e' : run_op op now e = Ok e' → env_wf e → env_wf e'.
Proof.
  destruct op; cbn; try apply transition_wf.
  - unfold Env.mark_initializing. intros H Hwf. steps.
    apply (transition_wf _ _ _ _ Hm) in Hwf as []. by split.
  - intros [= <-] []. by split.
  - intros (? & ? & H)%reserve_Ok Hwf. eauto using transition_wf.
  - intros H Hwf. steps. destruct x; simplify_eq/=. eauto using assign_wf.
  - intros H Hwf. steps. destruct x; simplify_eq/=. eauto using fence_wf.
Qed.
#[export] Hint Resolve transition_wf assign_wf fence_wf run_op_wf : tsls.

Lemma run_op_fenced op now e e' :
  run_op op now e = Ok e' → Env.is_fenced e = true → Env.is_fenced e' = true.
Proof.
  unfold Env.is_fenced.
  assert (∀ to, Env.transition to now e = Ok e' →
    is_some (env_fenced_at e) = true → is_some (env_fenced_at e') = true) as Ht.
  { intros to H%transition_frame. destruct_and!. congruence. }
  destruct op; cbn; try apply Ht.
  - unfold Env.mark_initializing. intros H. steps. cbn.
    apply transition_frame in Hm. destruct_and!. congruence.
  - by intros [= <-].
  - intros (? & ? & H)%reserve_Ok. by eapply Ht.
  - intros H Hf. steps. destruct (fenced_refused e now Hf) as (_ & Ha & _).
    match goal with H : Env.assign _ _ = _ |- _ => by rewrite H in Ha end.
  - intros H Hf. steps. destruct x; simplify_eq/=.
    match goal with H : Env.fence _ _ = _ |- _ => apply fence_Ok in H as (_ & _ & ->) end. done.
Qed.

Lemma request_wf id tenant rev p key now : env_wf (Env.request id tenant rev p key now).
Proof. split; cbn; try done; unfold u64_range, u64_max; naive_solver lia. Qed.

Lemma steps_wf e e' : rtc env_step e e' → env_wf e → env_wf e'.
Proof. induction 1 as [|e1 e2 e3 [op now H] _ IH]; eauto with tsls. Qed.

Lemma steps_fenced e e' : rtc env_step e e' → Env.is_fenced e = true → Env.is_fenced e' = true.
Proof. induction 1 as [|e1 e2 e3 [op now H] _ IH]; eauto using run_op_fenced. Qed.

Lemma run_op_fence_time op now e e' at_ :
  run_op op now e = Ok e' → env_fenced_at e = Some at_ → env_fenced_at e' = Some at_.
Proof.
  assert (∀ to, Env.transition to now e = Ok e' →
    env_fenced_at e = Some at_ → env_fenced_at e' = Some at_) as Ht.
  { intros to H%transition_frame. destruct_and!. congruence. }
  destruct op; cbn; try apply Ht.
  - unfold Env.mark_initializing. intros H. steps. cbn.
    apply transition_frame in Hm. destruct_and!. congruence.
  - by intros [= <-].
  - intros (? & ? & H)%reserve_Ok. by eapply Ht.
  - intros H Hf. steps. destruct x; simplify_eq/=.
    match goal with H : Env.assign _ _ = _ |- _ => apply assign_Ok in H end.
    destruct_and!. unfold Env.is_reusable in *. bools. congruence.
  - intros H Hf. steps. destruct x; simplify_eq/=.
    match goal with H : Env.fence _ _ = _ |- _ => apply fence_Ok in H as (_ & _ & ->) end.
    cbn. by rewrite Hf.
Qed.

(** A terminal environment refuses every mutator but the record of the guest's
    boot id, which does not touch its state. *)
Lemma run_op_terminal op now e e' :
  run_op op now e = Ok e' → Env.is_terminal e = true →
  env_state e' = env_state e ∧ env_stopped_at e' = env_stopped_at e ∧ env_epoch e' = env_epoch e.
Proof.
  unfold Env.is_terminal. intros H Ht.
  assert (∀ to now e', Env.transition to now e ≠ Ok e') as Hno.
  { intros to n e0 (Hf & _)%transition_Ok. unfold Env.is_terminal in Hf. congruence. }
  destruct op; cbn in H; try by destruct (Hno _ _ _ H).
  - unfold Env.mark_initializing in H. steps. by destruct (Hno _ _ _ Hm).
  - by steps.
  - apply reserve_Ok in H as (_ & _ & H). by destruct (Hno _ _ _ H).
  - steps. destruct x; simplify_eq/=.
    match goal with H : Env.assign _ _ = _ |- _ => apply assign_Ok in H as (Hr & _) end.
    unfold Env.is_reusable in Hr. destruct (env_state e); cbn in *; bools; naive_solver.
  - steps. destruct x; simplify_eq/=.
    match goal with H : Env.fence _ _ = _ |- _ => apply fence_Ok in H as (H & _) end.
    unfold Env.is_terminal in *. congruence.
Qed.

Lemma lease_le_refl l : lease_le l l.
Proof. split; [by destruct l | done | eauto with lia]. Qed.

Lemma lease_le_trans l1 l2 l3 : lease_le l1 l2 → lease_le l2 l3 → lease_le l1 l3.
Proof.
  intros [H12 R12 E12] [H23 R23 E23]. split.
  - destruct l1, l2, l3; cbn in *. congruence.
  - intros H. specialize (R12 H). subst. auto.
  - intros x (y & Hy & ?)%E12. apply E23 in Hy as (z & Hz & ?). exists z. split; [done|lia].
Qed.

#[global] Instance lease_le_preorder : PreOrder lease_le.
Proof. split; [exact lease_le_refl | exact lease_le_trans]. Qed.

Lemma extend_le next l : lease_released_at l = None → lease_le l (Lse.extend next l).
Proof.
  intros Hr. unfold Lse.extend. destruct (is_none_or _ _) eqn:He; [|reflexivity].
  split; cbn; [by destruct l | congruence |].
  intros x Hx. rewrite Hx in He; cbn in He. bools. exists next. split; [done|lia].
Qed.

Lemma run_lease_op_le op now l l' : run_lease_op op now l = Ok l' → lease_le l l'.
Proof.
  destruct (lease_released_at l) as [r|] eqn:Hr; destruct op; cbn;
    unfold Lse.renew, Lse.revive, Lse.release; rewrite Hr; cbn; try done.
  - destruct (Lse.is_active now l); cbn; [|done]. intros [= <-]. by apply extend_le.
  - intros [= <-]. by apply extend_le.
  - intros [= <-]. split; cbn; [by destruct l | congruence | eauto with lia].
Qed.

Lemma lease_steps_le l l' : rtc lease_step l l' → lease_le l l'.
Proof.
  induction 1 as [|l1 l2 l3 [op now H%run_lease_op_le] _ IH]; [reflexivity | by etrans].
Qed.
#[export] Hint Resolve run_lease_op_le lease_steps_le : tsls.

(** ** Properties *)

(** C40: whatever sequence of mutators runs on a requested environment, its
    bookkeeping stays coherent: it has an idle instant exactly while idle and a
    stop instant exactly once terminal, it was ready before it ran anything, a
    fenced one is draining or over, its epoch stays a [u64], and no attempt
    epoch is issued before it first became ready. *)
Theorem environment_run_wf id tenant rev p key now e :
  rtc env_step (Env.request id tenant rev p key now) e → env_wf e.
Proof. intros H. eapply steps_wf; [exact H | apply request_wf]. Qed.

(** fencing and termination are one-way. Once an environment is fenced, no
    later sequence of mutators clears or restamps the fence, and neither
    [assign] nor [reserve] ever hands it out again; once it is terminal, its
    state, its stop instant and its epoch never change. *)
Theorem environment_no_return (e e' : ExecutionEnvironment) :
  rtc env_step e e' →
  (∀ at_, env_fenced_at e = Some at_ →
     env_fenced_at e' = Some at_ ∧
     ∀ now, is_err (Env.assign now e') = true ∧ is_err (Env.reserve now e') = true) ∧
  (Env.is_terminal e = true →
     env_state e' = env_state e ∧ env_stopped_at e' = env_stopped_at e ∧
     env_epoch e' = env_epoch e).
Proof.
  intros Hrun. split.
  - intros at_ Hf. assert (env_fenced_at e' = Some at_) as Hf'.
    { induction Hrun as [|e1 e2 e3 [op now H] _ IH]; eauto using run_op_fence_time. }
    split; [done|]. intros now. apply fenced_refused. unfold Env.is_fenced. by rewrite Hf'.
  - induction Hrun as [|e1 e2 e3 [op now H] _ IH]; [done|]. intros Ht.
    destruct (run_op_terminal _ _ _ _ H Ht) as (Hs & Hstop & Hep).
    destruct IH as (Hs' & Hstop' & Hep'); [unfold Env.is_terminal in *; by rewrite Hs|].
    repeat split; congruence.
Qed.

(** The claim of an environment for one attempt succeeds exactly when the
    environment is reusable, leaves it busy and unfenced under the next epoch,
    and changes nothing of its identity; a lease that carried the previous
    epoch does not accept a result under the new one. *)
Theorem assign_fences_old_epoch (now : Timestamp) (e : ExecutionEnvironment) :
  env_wf e →
  (Env.is_reusable e = true ↔ ∃ e' n, Env.assign now e = Ok (e', n)) ∧
  ∀ e' n, Env.assign now e = Ok (e', n) →
    env_wf e' ∧ env_state e' = EnvironmentState.Busy ∧ env_epoch e' = n ∧
    env_id e' = env_id e ∧ env_tenant_id e' = env_tenant_id e ∧
    env_reuse_key e' = env_reuse_key e ∧
    (∀ l attempt, lease_epoch l = env_epoch e → Lse.accepts attempt n l = false).
Proof.
  intros Hwf. split.
  - split; [intros [e' ?]%(assign_reusable now); eauto | by intros (? & ? & [? _]%assign_Ok)].
  - intros e' n H. pose proof (assign_Ok _ _ _ _ H). destruct_and!.
    split_and!; eauto using assign_wf; try congruence.
    intros l attempt Hl. unfold Lse.accepts.
    replace (lease_epoch l =? n) with false; [by rewrite andb_false_r|].
    symmetry. apply Z.eqb_neq. subst n. rewrite Hl. intros Heq.
    by apply (u64_add_1_ne (env_epoch e)); [apply wf_epoch|].
Qed.

(** Over any sequence of heartbeats, revivals and releases a lease keeps its
    identity (environment, attempt, epoch, tenant, owner and deadline), its
    expiry never moves backwards, and a released lease never changes again. In
    particular a heartbeat cannot bring a lapsed or released lease back. *)
Theorem lease_run_monotone (l l' : ExecutionLease) :
  rtc lease_step l l' →
  lease_le l l' ∧
  (∀ now ttl, Lse.is_active now l' = false → is_err (Lse.renew now ttl l') = true) ∧
  (∀ now ttl l'', Lse.renew now ttl l' = Ok l'' → lease_le l l'').
Proof.
  intros Hrun. split; [|split].
  - by apply lease_steps_le.
  - intros now ttl Ha. unfold Lse.renew. destruct (is_some _); [done|]. by rewrite Ha.
  - intros now ttl l'' H. etrans; [by apply lease_steps_le|].
    by apply (run_lease_op_le (LRenew ttl) now).
Qed.

(** ** Witnesses *)

Lemma run_ops_steps ops now e e' : run_ops ops now e = Ok e' → rtc env_step e e'.
Proof.
  revert now e. induction ops as [|op ops IH]; intros now e H; cbn in H; steps; [done|].
  eapply rtc_l; [by econstructor | eauto].
Qed.

Lemma environment_run_wf_witness : env_wf env_ready.
Proof.
  apply (environment_run_wf "env_a" "tn_a" "rev_a" ProviderKind.Firecracker key0 0).
  apply (run_ops_steps boot 1). vm_compute. reflexivity.
Defined.

Lemma environment_no_return_witness :
  env_fenced_at env_lost = Some 4 ∧ is_err (Env.assign 20 env_lost) = true.
Proof.
  destruct (environment_no_return env_fenced env_lost) as [H _].
  - apply (run_ops_steps [OpLost "node"; OpBootId "b"] 9). vm_compute. reflexivity.
  - destruct (H 4) as [Hf Hr]; [vm_compute; reflexivity|]. exact (conj Hf (proj1 (Hr 20))).
Defined.

Lemma assign_fences_old_epoch_witness : ∃ e' n, Env.assign 7 env_ready = Ok (e', n).
Proof.
  apply (assign_fences_old_epoch 7 env_ready); [|vm_compute; reflexivity].
  apply (steps_wf env0); [|apply request_wf].
  apply (run_ops_steps boot 1). vm_compute. reflexivity.
Defined.

Lemma lease_run_monotone_witness :
  lease_le lease0 (lease0 <| lease_expires_at := Some 15 |>).
Proof.
  apply (lease_run_monotone lease0).
  eapply rtc_l; [|apply rtc_refl]. apply (lease_step_op _ _ (LRenew 10) 5).
  vm_compute. reflexivity.
Defined.
