(* ===== verification/Invocation.v ===== *)
(** * Invocations and attempts

    [crates/domain/src/invocation.rs]: one logical request ([Invocation],
    module [Inv]) and one execution try ([InvocationAttempt], module [Att]).
    A payload body, digest or trace id is its string. *)

From S2P Require Import Prelude Ids.

Open Scope string_scope.
Open Scope Z_scope.

(** ** Data *)

(** [crates/domain/src/invocation.rs:12-17 InvocationMode] *)
Inductive InvocationMode : Type := Sync | Async.
#[global] Instance InvocationMode_eq_dec : EqDecision InvocationMode.
Proof. solve_decision. Defined.

(** [crates/domain/src/invocation.rs:19-28 EventKind] *)
Inductive EventKind : Type := Json | Http.
#[global] Instance EventKind_eq_dec : EqDecision EventKind.
Proof. solve_decision. Defined.

(** [crates/domain/src/invocation.rs:31-36 event_type] *)
Definition event_type (k : EventKind) : string :=
  match k with Json => "tachyon.invoke.v1" | Http => "tachyon.http.v1" end.

Module ErrorClass.
(** [crates/domain/src/invocation.rs:39-60 ErrorClass] *)
Inductive t : Type :=
| UserError | Crash | InitError | Timeout | QueueTimeout | PlatformError | Cancelled
| OutcomeUnknown.
#[global] Instance eq_dec : EqDecision t.
Proof. solve_decision. Defined.

(** [crates/domain/src/invocation.rs:63-74 as_str] *)
Definition as_str (c : t) : string :=
  match c with
  | UserError => "user_error"
  | Crash => "crash"
  | InitError => "init_error"
  | Timeout => "timeout"
  | QueueTimeout => "queue_timeout"
  | PlatformError => "platform_error"
  | Cancelled => "cancelled"
  | OutcomeUnknown => "outcome_unknown"
  end.
End ErrorClass.

(** [crates/domain/src/invocation.rs:77-83 InvocationError] *)
Record InvocationError := mkInvError {
  err_class : ErrorClass.t;
  err_type : string;
  err_message : string
}.
#[global] Instance InvocationError_eq_dec : EqDecision InvocationError.
Proof. solve_decision. Defined.

Module InvocationStatus.
(** [crates/domain/src/invocation.rs:99-117 InvocationStatus] *)
Inductive t : Type :=
| Accepted | Queued | Running | Succeeded
| Failed (error : InvocationError)
| Cancelled
| OutcomeUnknown (error : InvocationError).
#[global] Instance eq_dec : EqDecision t.
Proof. solve_decision. Defined.

(** [crates/domain/src/invocation.rs:120-125 is_terminal] *)
Definition is_terminal (s : t) : bool :=
  match s with Succeeded | Failed _ | Cancelled | OutcomeUnknown _ => true | _ => false end.

(** [crates/domain/src/invocation.rs:127-137 name] *)
Definition name (s : t) : string :=
  match s with
  | Accepted => "accepted"
  | Queued => "queued"
  | Running => "running"
  | Succeeded => "succeeded"
  | Failed _ => "failed"
  | Cancelled => "cancelled"
  | OutcomeUnknown _ => "outcome_unknown"
  end.
End InvocationStatus.

(** [crates/domain/src/invocation.rs:140-154 Deadlines] *)
Record Deadlines := mkDeadlines {
  queue_deadline : Timestamp;
  init_deadline : option Timestamp;
  execution_deadline : option Timestamp;
  client_deadline : Timestamp
}.
#[global] Instance Deadlines_eq_dec : EqDecision Deadlines.
Proof. solve_decision. Defined.
#[global] Instance Deadlines_eta : Eta Deadlines := λ r,
  mkDeadlines (queue_deadline r) (init_deadline r) (execution_deadline r) (client_deadline r).

(** [crates/domain/src/invocation.rs:156-169 PayloadRef] *)
Inductive PayloadRef : Type :=
| Inline (bytes_base64 : string) (size_bytes : Z)
| Digest (digest : Sha256Digest) (size_bytes : Z).
#[global] Instance PayloadRef_eq_dec : EqDecision PayloadRef.
Proof. solve_decision. Defined.

(** [crates/domain/src/invocation.rs:172-176 size_bytes] *)
Definition size_bytes (p : PayloadRef) : Z :=
  match p with Inline _ n | Digest _ n => n end.

(** [crates/domain/src/invocation.rs:179-215 Invocation] *)
Record Invocation := mkInv {
  inv_id : InvocationId;
  inv_tenant_id : TenantId;
  inv_function_id : FunctionId;
  inv_alias : option AliasName;
  inv_revision_id : RevisionId;
  inv_alias_generation : option Z;
  inv_mode : InvocationMode;
  inv_event_kind : EventKind;
  inv_status : InvocationStatus.t;
  inv_deadlines : Deadlines;
  inv_idempotency_key : option string;
  inv_input_digest : Sha256Digest;
  inv_input_size_bytes : Z;
  inv_output : option PayloadRef;
  inv_http_status : option Z;
  inv_trace_id : string;
  inv_accepted_at : Timestamp;
  inv_started_at : option Timestamp;
  inv_finished_at : option Timestamp;
  inv_attempt_ids : list AttemptId;
  inv_dispatcher_id : option DispatcherId
}.
#[global] Instance Invocation_eq_dec : EqDecision Invocation.
Proof. solve_decision. Defined.
#[global] Instance Invocation_eta : Eta Invocation := λ r,
  mkInv (inv_id r) (inv_tenant_id r) (inv_function_id r) (inv_alias r) (inv_revision_id r)
    (inv_alias_generation r) (inv_mode r) (inv_event_kind r) (inv_status r) (inv_deadlines r)
    (inv_idempotency_key r) (inv_input_digest r) (inv_input_size_bytes r) (inv_output r)
    (inv_http_status r) (inv_trace_id r) (inv_accepted_at r) (inv_started_at r)
    (inv_finished_at r) (inv_attempt_ids r) (inv_dispatcher_id r).

Module AttemptStatus.
(** [crates/domain/src/invocation.rs:452-459 AttemptStatus] *)
Inductive t : Type :=
| Dispatched | Succeeded
| Failed (error : InvocationError)
| OutcomeUnknown (error : InvocationError).
#[global] Instance eq_dec : EqDecision t.
Proof. solve_decision. Defined.

(** [crates/domain/src/invocation.rs:462-464 is_terminal] *)
Definition is_terminal (s : t) : bool :=
  match s with Dispatched => false | _ => true end.

(** [crates/domain/src/invocation.rs:465-472 name] *)
Definition name (s : t) : string :=
  match s with
  | Dispatched => "dispatched"
  | Succeeded => "succeeded"
  | Failed _ => "failed"
  | OutcomeUnknown _ => "outcome_unknown"
  end.
End AttemptStatus.

(** [crates/domain/src/invocation.rs:475-482 StartKind] *)
Inductive StartKind : Type := Cold | Warm | Restored.
#[global] Instance StartKind_eq_dec : EqDecision StartKind.
Proof. solve_decision. Defined.

(** [crates/domain/src/invocation.rs:484-504 AttemptTimings] *)
Record AttemptTimings := mkTimings {
  queue_wait_ms : option Z;
  environment_boot_ms : option Z;
  runtime_init_ms : option Z;
  resume_ms : option Z;
  readiness_ms : option Z;
  handler_ms : option Z;
  response_ms : option Z;
  total_ms : option Z
}.
#[global] Instance AttemptTimings_eq_dec : EqDecision AttemptTimings.
Proof. solve_decision. Defined.
Definition timings_default : AttemptTimings := mkTimings None None None None None None None None.

(** [crates/domain/src/invocation.rs:506-520 InvocationAttempt] *)
Record InvocationAttempt := mkAttempt {
  att_id : AttemptId;
  att_invocation_id : InvocationId;
  att_tenant_id : TenantId;
  att_number : Z;
  att_environment_id : EnvironmentId;
  att_epoch : Z;
  att_status : AttemptStatus.t;
  att_start_kind : StartKind;
  att_timings : AttemptTimings;
  att_dispatched_at : Timestamp;
  att_finished_at : option Timestamp
}.
#[global] Instance InvocationAttempt_eq_dec : EqDecision InvocationAttempt.
Proof. solve_decision. Defined.
#[global] Instance InvocationAttempt_eta : Eta InvocationAttempt := λ r,
  mkAttempt (att_id r) (att_invocation_id r) (att_tenant_id r) (att_number r)
    (att_environment_id r) (att_epoch r) (att_status r) (att_start_kind r) (att_timings r)
    (att_dispatched_at r) (att_finished_at r).

(** ** Operations on an invocation *)

Module Inv.
Import InvocationStatus.

(** [crates/domain/src/invocation.rs:218-271 Invocation::accept] *)
Definition accept (id : InvocationId) (tenant_id : TenantId) (function_id : FunctionId)
    (alias : option AliasName) (revision_id : RevisionId) (mode : InvocationMode)
    (event_kind : EventKind) (deadlines : Deadlines) (idempotency_key : option string)
    (input_digest : Sha256Digest) (input_size_bytes : Z) (trace_id : string) (now : Timestamp)
    : result DomainError Invocation :=
  when! is_some_and idempotency_key (λ k, (byte_len k =? 0) || (256 <? byte_len k)) return!
    Err (validation "idempotency_key" "must be 1..=256 chars");;
  when! client_deadline deadlines <? now return!
    Err (validation "client_deadline" "already elapsed at acceptance");;
  Ok (mkInv id tenant_id function_id alias revision_id None mode event_kind Accepted deadlines
        idempotency_key input_digest input_size_bytes None None trace_id now None None [] None).

(** [crates/domain/src/invocation.rs:273-282 ensure_not_terminal] *)
Definition ensure_not_terminal (i : Invocation) : result DomainError unit :=
  if is_terminal (inv_status i) then Err (Terminal "Invocation" (name (inv_status i))) else Ok tt.

(** [crates/domain/src/invocation.rs:284-290 illegal] *)
Definition illegal (i : Invocation) (to : string) : DomainError :=
  IllegalTransition "Invocation" (name (inv_status i)) to.

(** [crates/domain/src/invocation.rs:292-301 mark_queued] *)
Definition mark_queued (i : Invocation) : result DomainError Invocation :=
  _ ← ensure_not_terminal i;
  match inv_status i with
  | Accepted => Ok (i <| inv_status := Queued |>)
  | _ => Err (illegal i "queued")
  end.

(** The deadlines of a dispatch. *)
Definition set_deadlines (execution init : option Timestamp) (i : Invocation) : Invocation :=
  i <| inv_deadlines ::= λ d, d <| execution_deadline := execution |>
                                <| init_deadline := init |> |>.

(** [crates/domain/src/invocation.rs:303-325 mark_running] *)
Definition mark_running (attempt_id : AttemptId) (execution init : Timestamp) (now : Timestamp)
    (i : Invocation) : result DomainError Invocation :=
  _ ← ensure_not_terminal i;
  match inv_status i with
  | Accepted | Queued =>
      let i := i <| inv_status := Running |>
                 <| inv_started_at ::= λ o, or_else o (Some now) |> in
      let i := set_deadlines (Some execution) (Some init) i in
      Ok (i <| inv_attempt_ids ::= λ ids, app ids [attempt_id] |>)
  | _ => Err (illegal i "running")
  end.

(** [crates/domain/src/invocation.rs:327-350 mark_retry] *)
Definition mark_retry (attempt_id : AttemptId) (execution init : Timestamp) (i : Invocation)
    : result DomainError Invocation :=
  _ ← ensure_not_terminal i;
  match inv_status i with
  | Running =>
      let i := set_deadlines (Some execution) (Some init) i in
      Ok (i <| inv_attempt_ids ::= λ ids, app ids [attempt_id] |>)
  | _ => Err (illegal i "retry")
  end.

(** [crates/domain/src/invocation.rs:352-365 mark_requeued] *)
Definition mark_requeued (i : Invocation) : result DomainError Invocation :=
  _ ← ensure_not_terminal i;
  when! inv_mode i != Async return! Err (illegal i "requeued");;
  Ok (set_deadlines None None (i <| inv_status := Queued |>)).

(** [crates/domain/src/invocation.rs:367-384 mark_succeeded] *)
Definition mark_succeeded (output : option PayloadRef) (http_status : option Z) (now : Timestamp)
    (i : Invocation) : result DomainError Invocation :=
  _ ← ensure_not_terminal i;
  match inv_status i with
  | Running =>
      Ok (i <| inv_status := Succeeded |> <| inv_output := output |>
            <| inv_http_status := http_status |> <| inv_finished_at := Some now |>)
  | _ => Err (illegal i "succeeded")
  end.

(** [crates/domain/src/invocation.rs:386-408 mark_failed] *)
Definition mark_failed (error : InvocationError) (now : Timestamp) (i : Invocation)
    : result DomainError Invocation :=
  _ ← ensure_not_terminal i;
  when! err_class error == ErrorClass.OutcomeUnknown return!
    Err (validation "error.class" "use mark_outcome_unknown for OutcomeUnknown");;
  when! err_class error == ErrorClass.Cancelled return!
    Err (validation "error.class" "use mark_cancelled for Cancelled");;
  Ok (i <| inv_status := Failed error |> <| inv_finished_at := Some now |>).

(** [crates/domain/src/invocation.rs:410-415 mark_cancelled] *)
Definition mark_cancelled (now : Timestamp) (i : Invocation) : result DomainError Invocation :=
  _ ← ensure_not_terminal i;
  Ok (i <| inv_status := Cancelled |> <| inv_finished_at := Some now |>).

(** [crates/domain/src/invocation.rs:417-438 mark_outcome_unknown] *)
Definition mark_outcome_unknown (reason : string) (now : Timestamp) (i : Invocation)
    : result DomainError Invocation :=
  _ ← ensure_not_terminal i;
  match inv_status i with
  | Running =>
      Ok (i <| inv_status :=
                 OutcomeUnknown (mkInvError ErrorClass.OutcomeUnknown "Host.OutcomeUnknown" reason) |>
            <| inv_finished_at := Some now |>)
  | _ => Err (illegal i "outcome_unknown")
  end.

(** [crates/domain/src/invocation.rs:440-449 ensure_owned_by] *)
Definition ensure_owned_by (tenant : TenantId) (i : Invocation) : result DomainError unit :=
  if inv_tenant_id i == tenant then Ok tt
  else Err (TenantMismatch ("invocation " +:+ inv_id i +:+ " is not owned by tenant " +:+ tenant)).
End Inv.

(** ** Operations on an attempt *)

Module Att.
(** [crates/domain/src/invocation.rs:523-547 InvocationAttempt::dispatch] *)
Definition dispatch (id : AttemptId) (invocation_id : InvocationId) (tenant_id : TenantId)
    (number : Z) (environment_id : EnvironmentId) (epoch : Z) (start_kind : StartKind)
    (now : Timestamp) : InvocationAttempt :=
  mkAttempt id invocation_id tenant_id number environment_id epoch AttemptStatus.Dispatched
    start_kind timings_default now None.

(** [crates/domain/src/invocation.rs:549-559 finish] *)
Definition finish (status : AttemptStatus.t) (now : Timestamp) (a : InvocationAttempt)
    : result DomainError InvocationAttempt :=
  when! AttemptStatus.is_terminal (att_status a) return!
    Err (Terminal "InvocationAttempt" (AttemptStatus.name (att_status a)));;
  Ok (a <| att_status := status |> <| att_finished_at := Some now |>).

(** [crates/domain/src/invocation.rs:561-563 succeed] *)
Definition succeed := finish AttemptStatus.Succeeded.
(** [crates/domain/src/invocation.rs:564-566 fail] *)
Definition fail (error : InvocationError) := finish (AttemptStatus.Failed error).
(** [crates/domain/src/invocation.rs:567-573 outcome_unknown] *)
Definition outcome_unknown (error : InvocationError) := finish (AttemptStatus.OutcomeUnknown error).
End Att.

(** ** The invocation as a state machine *)

Inductive inv_op : Type :=
| OpQueued | OpRunning (attempt : AttemptId) (execution init : Timestamp)
| OpRetry (attempt : AttemptId) (execution init : Timestamp) | OpRequeued
| OpSucceeded (output : option PayloadRef) (http_status : option Z)
| OpFailed (error : InvocationError) | OpCancelled | OpOutcomeUnknown (reason : string).

Definition run_inv_op (op : inv_op) (now : Timestamp) (i : Invocation)
    : result DomainError Invocation :=
  match op with
  | OpQueued => Inv.mark_queued i
  | OpRunning a x d => Inv.mark_running a x d now i
  | OpRetry a x d => Inv.mark_retry a x d i
  | OpRequeued => Inv.mark_requeued i
  | OpSucceeded o h => Inv.mark_succeeded o h now i
  | OpFailed e => Inv.mark_failed e now i
  | OpCancelled => Inv.mark_cancelled now i
  | OpOutcomeUnknown r => Inv.mark_outcome_unknown r now i
  end.

Inductive inv_step (i i' : Invocation) : Prop :=
| inv_step_op op now : run_inv_op op now i = Ok i' → inv_step i i'.

(** The abstract automaton of the statuses: which edge each operation takes,
    and the status it leads to. *)
Definition status_edge (mode : InvocationMode) (s : InvocationStatus.t) (op : inv_op)
    : option InvocationStatus.t :=
  match op, s with
  | _, (InvocationStatus.Succeeded | InvocationStatus.Failed _ | InvocationStatus.Cancelled
        | InvocationStatus.OutcomeUnknown _) => None
  | OpQueued, InvocationStatus.Accepted => Some InvocationStatus.Queued
  | OpRunning _ _ _, (InvocationStatus.Accepted | InvocationStatus.Queued) =>
      Some InvocationStatus.Running
  | OpRetry _ _ _, InvocationStatus.Running => Some InvocationStatus.Running
  | OpRequeued, _ => if mode == Async then Some InvocationStatus.Queued else None
  | OpSucceeded _ _, InvocationStatus.Running => Some InvocationStatus.Succeeded
  | OpFailed e, _ =>
      if bool_decide (err_class e = ErrorClass.OutcomeUnknown ∨ err_class e = ErrorClass.Cancelled)
      then None else Some (InvocationStatus.Failed e)
  | OpCancelled, _ => Some InvocationStatus.Cancelled
  | OpOutcomeUnknown r, InvocationStatus.Running =>
      Some (InvocationStatus.OutcomeUnknown
              (mkInvError ErrorClass.OutcomeUnknown "Host.OutcomeUnknown" r))
  | _, _ => None
  end.

(** The outcomes only a dispatched invocation has. *)
Definition has_run (s : InvocationStatus.t) : bool :=
  match s with InvocationStatus.Succeeded | InvocationStatus.OutcomeUnknown _ => true | _ => false end.

(** What every invocation built by [accept] and these mutators satisfies. *)
Record inv_wf (i : Invocation) : Prop := {
  iwf_finished : is_some (inv_finished_at i) = InvocationStatus.is_terminal (inv_status i);
  iwf_started : inv_started_at i = None ↔ inv_attempt_ids i = [];
  iwf_accepted : inv_status i = InvocationStatus.Accepted → inv_attempt_ids i = [];
  iwf_running : inv_status i = InvocationStatus.Running →
    inv_attempt_ids i ≠ [] ∧ is_some (execution_deadline (inv_deadlines i)) = true ∧
    is_some (init_deadline (inv_deadlines i)) = true;
  iwf_ran : has_run (inv_status i) = true → inv_attempt_ids i ≠ [];
  iwf_output : inv_status i ≠ InvocationStatus.Succeeded →
    inv_output i = None ∧ inv_http_status i = None;
  iwf_failed : ∀ e, inv_status i = InvocationStatus.Failed e →
    err_class e ≠ ErrorClass.OutcomeUnknown ∧ err_class e ≠ ErrorClass.Cancelled;
  iwf_unknown : ∀ e, inv_status i = InvocationStatus.OutcomeUnknown e →
    err_class e = ErrorClass.OutcomeUnknown;
  iwf_client : inv_accepted_at i ≤ client_deadline (inv_deadlines i);
  iwf_key : ∀ k, inv_idempotency_key i = Some k → 1 ≤ byte_len k ≤ 256
}.

(** The fields acceptance fixes. *)
Definition inv_fixed (i : Invocation) :=
  (inv_id i, inv_tenant_id i, inv_function_id i, inv_alias i, inv_revision_id i,
   inv_alias_generation i, inv_mode i, inv_event_kind i,
   (queue_deadline (inv_deadlines i), client_deadline (inv_deadlines i)),
   inv_idempotency_key i, inv_input_digest i, inv_input_size_bytes i, inv_trace_id i,
   inv_accepted_at i, inv_dispatcher_id i).

(** [i'] is a later version of [i]. *)
Record inv_le (i i' : Invocation) : Prop := {
  ile_fixed : inv_fixed i' = inv_fixed i;
  ile_attempts : inv_attempt_ids i `prefix_of` inv_attempt_ids i';
  ile_started : ∀ t, inv_started_at i = Some t → inv_started_at i' = Some t;
  ile_terminal : InvocationStatus.is_terminal (inv_status i) = true → i' = i
}.

(** *** Concrete invocations, for the witnesses *)

Definition deadlines0 : Deadlines := mkDeadlines 50 None None 100.
Definition inv0 : Invocation :=
  match Inv.accept "inv_a" "tn_a" "fn_a" None "rev_a" Async Json deadlines0 (Some "k") "sha256:0"
          3 "trace" 0 with
  | Ok i => i
  | Err _ => mkInv "" "" "" None "" None Sync Json InvocationStatus.Accepted deadlines0 None "" 0
               None None "" 0 None None [] None
  end.

Fixpoint run_inv_ops (ops : list inv_op) (now : Timestamp) (i : Invocation)
    : result DomainError Invocation :=
  match ops with
  | [] => Ok i
  | op :: ops => i ← run_inv_op op now i; run_inv_ops ops (now + 1) i
  end.

Definition inv_retried_ops : list inv_op :=
  [OpQueued; OpRunning "att_a" 60 20; OpRequeued; OpRunning "att_b" 70 30; OpSucceeded None None].
Definition inv_running : Invocation :=
  match run_inv_ops [OpQueued; OpRunning "att_a" 60 20] 1 inv0 with Ok i => i | Err _ => inv0 end.
Definition inv_done : Invocation :=
  match run_inv_ops inv_retried_ops 1 inv0 with Ok i => i | Err _ => inv0 end.

(** ** Lemmas *)

#[local] Hint Unfold Inv.mark_queued Inv.mark_running Inv.mark_retry Inv.mark_requeued
  Inv.mark_succeeded Inv.mark_failed Inv.mark_cancelled Inv.mark_outcome_unknown
  Inv.ensure_not_terminal Inv.set_deadlines : inv_ops.

(** Runs one operation through every status. *)
Ltac inv_cases H op i :=
  let st := fresh "st" in
  destruct i as [? ? ? ? ? ? ? ? st ? ? ? ? ? ? ? ? ? ? ? ?]; destruct op, st;
  cbn in H; autounfold with inv_ops in H; cbn in H; try discriminate H;
  cbn; repeat (case_bool_decide; cbn in H; try discriminate H).

Lemma run_inv_op_edge op now i i' :
  run_inv_op op now i = Ok i' →
  status_edge (inv_mode i) (inv_status i) op = Some (inv_status i').
Proof.
  intros H. inv_cases H op i;
    first [injection H as <-; done | tauto].
Qed.

Lemma run_inv_op_enabled op now i s :
  status_edge (inv_mode i) (inv_status i) op = Some s →
  ∃ i', run_inv_op op now i = Ok i' ∧ inv_status i' = s.
Proof.
  intros H.
  inv_cases H op i; autounfold with inv_ops; cbn;
    repeat (case_bool_decide; cbn in *; try discriminate H);
    first [tauto | injection H as <-; eauto].
Qed.

Lemma run_inv_op_terminal op now i :
  InvocationStatus.is_terminal (inv_status i) = true →
  run_inv_op op now i = Err (Terminal "Invocation" (InvocationStatus.name (inv_status i))).
Proof. intros H. destruct op; cbn; autounfold with inv_ops; by rewrite H. Qed.

Lemma run_inv_op_fixed op now i i' : run_inv_op op now i = Ok i' → inv_fixed i' = inv_fixed i.
Proof.
  intros H. inv_cases H op i; injection H as <-; done.
Qed.

Lemma run_inv_op_attempts op now i i' :
  run_inv_op op now i = Ok i' →
  inv_attempt_ids i' =
    app (inv_attempt_ids i) match op with OpRunning a _ _ | OpRetry a _ _ => [a] | _ => [] end.
Proof.
  intros H. inv_cases H op i; injection H as <-;
    cbn; by rewrite ?app_nil_r.
Qed.

Lemma run_inv_op_started op now i i' :
  run_inv_op op now i = Ok i' →
  inv_started_at i' = match op with
                      | OpRunning _ _ _ => or_else (inv_started_at i) (Some now)
                      | _ => inv_started_at i
                      end.
Proof.
  intros H. inv_cases H op i; injection H as <-; done.
Qed.

Lemma run_inv_op_le op now i i' : run_inv_op op now i = Ok i' → inv_le i i'.
Proof.
  intros H. split.
  - eauto using run_inv_op_fixed.
  - rewrite (run_inv_op_attempts _ _ _ _ H). by apply prefix_app_r.
  - intros t Ht. rewrite (run_inv_op_started _ _ _ _ H). destruct op; by rewrite ?Ht.
  - intros Hterm. by rewrite run_inv_op_terminal in H.
Qed.

#[global] Instance inv_le_preorder : PreOrder inv_le.
Proof.
  split.
  - by split.
  - intros i1 i2 i3 [F1 A1 S1 T1] [F2 A2 S2 T2]. split; [congruence | by etrans | auto |].
    intros H. specialize (T1 H). subst. auto.
Qed.

Lemma inv_steps_le i i' : rtc inv_step i i' → inv_le i i'.
Proof.
  induction 1 as [|i1 i2 i3 [op now H%run_inv_op_le] _ IH]; [reflexivity | by etrans].
Qed.
#[export] Hint Resolve run_inv_op_le inv_steps_le : tsls.

Lemma app_singleton_ne {A} (l : list A) (x : A) : app l [x] ≠ [].
Proof. by destruct l. Qed.

Lemma or_else_started {A B} (o : option A) (a : A) (l : list B) (x : B) :
  or_else o (Some a) = None ↔ app l [x] = [].
Proof. destruct o, l; done. Qed.

#[local] Hint Resolve app_singleton_ne or_else_started : inv_db.

Lemma run_inv_op_wf op now i i' : run_inv_op op now i = Ok i' → inv_wf i → inv_wf i'.
Proof.
  intros H [F S A R Ra O Fa U C K].
  inv_cases H op i; injection H as <-; cbn in *; split; cbn; auto with inv_db;
    try done; try congruence; try (intros; split; congruence);
    try (intros ? [= <-]; done); try (intros _; apply R; done).
  all: destruct R as [Hne _]; [done|]; rewrite S; by destruct inv_attempt_ids0.
Qed.

Lemma accept_wf id tn fn al rev mode ev dl key dig sz tr now i :
  Inv.accept id tn fn al rev mode ev dl key dig sz tr now = Ok i →
  inv_wf i ∧ inv_status i = InvocationStatus.Accepted ∧ inv_deadlines i = dl ∧ inv_id i = id ∧
  inv_tenant_id i = tn ∧ inv_revision_id i = rev.
Proof.
  unfold Inv.accept. destruct (is_some_and key _) eqn:Hk; [done|].
  destruct (client_deadline dl <? now) eqn:Hc; [done|]. intros [= <-]. bools.
  split; [|done]. split; cbn; try done; try congruence.
  intros k ->. cbn in Hk. bools. unfold byte_len in *. lia.
Qed.

Lemma inv_steps_wf i i' : rtc inv_step i i' → inv_wf i → inv_wf i'.
Proof. induction 1 as [|i1 i2 i3 [op now H] _ IH]; eauto using run_inv_op_wf. Qed.

Lemma run_inv_ops_steps ops now i i' : run_inv_ops ops now i = Ok i' → rtc inv_step i i'.
Proof.
  revert now i. induction ops as [|op ops IH]; intros now i H; cbn in H; steps; [done|].
  eapply rtc_l; [by econstructor | eauto].
Qed.

(** ** Properties *)

(** From acceptance on, whatever the services do with an invocation, its
    record stays coherent: it has a finish instant exactly when its status is
    terminal; it is running, succeeded or of unknown outcome only with a recorded
    attempt, and running only under both deadlines; only a success carries an
    output; a failure is never classed as cancelled or unknown. Along the way
    its identity, deadlines of acceptance and input never change, its attempt
    list only grows, its first start is kept, and a terminal record is final. *)
Theorem invocation_run_coherent id tn fn al rev mode ev dl key dig sz tr now i0 i i' :
  Inv.accept id tn fn al rev mode ev dl key dig sz tr now = Ok i0 →
  rtc inv_step i0 i → rtc inv_step i i' →
  inv_wf i ∧ inv_le i i'.
Proof.
  intros (Hwf & _)%accept_wf H1 H2. split; [by eapply inv_steps_wf | by apply inv_steps_le].
Qed.

(** the mutators implement the status automaton exactly: an operation
    succeeds if and only if the automaton has that edge from the current
    status (in the invocation's mode), the new status is the one the edge leads
    to, and an operation on a terminal record is refused as [Terminal]. *)
Theorem invocation_implements_automaton (op : inv_op) (now : Timestamp) (i : Invocation) :
  (∀ s, status_edge (inv_mode i) (inv_status i) op = Some s ↔
     ∃ i', run_inv_op op now i = Ok i' ∧ inv_status i' = s) ∧
  (InvocationStatus.is_terminal (inv_status i) = true →
     run_inv_op op now i = Err (Terminal "Invocation" (InvocationStatus.name (inv_status i)))) ∧
  (is_err (run_inv_op op now i) = true ↔ status_edge (inv_mode i) (inv_status i) op = None).
Proof.
  assert (∀ s, status_edge (inv_mode i) (inv_status i) op = Some s ↔
    ∃ i', run_inv_op op now i = Ok i' ∧ inv_status i' = s) as Hedge.
  { intros s. split; [apply run_inv_op_enabled|]. intros (i' & H & <-).
    by eapply run_inv_op_edge. }
  split; [done|]. split; [apply run_inv_op_terminal|].
  destruct (run_inv_op op now i) as [i'|e] eqn:H; cbn; split; try done.
  - intros Hn. apply run_inv_op_edge in H. congruence.
  - intros _. destruct (status_edge _ _ _) as [s|]; [|done].
    destruct (proj1 (Hedge s) eq_refl) as (i' & ? & _). congruence.
Qed.

(** An attempt is settled at most once: after any [finish] the result and
    its instant are final, whoever reports next. *)
Theorem attempt_settles_once (a a1 : InvocationAttempt) s1 t1 :
  Att.finish s1 t1 a = Ok a1 → AttemptStatus.is_terminal s1 = true →
  att_status a1 = s1 ∧ att_finished_at a1 = Some t1 ∧ AttemptStatus.is_terminal (att_status a) = false ∧
  ∀ s2 t2, Att.finish s2 t2 a1 = Err (Terminal "InvocationAttempt" (AttemptStatus.name s1)).
Proof.
  unfold Att.finish. destruct (AttemptStatus.is_terminal (att_status a)) eqn:Ha; [done|].
  intros [= <-] Hs. cbn. by rewrite Hs.
Qed.

(** ** Witnesses *)

Lemma invocation_run_coherent_witness : inv_wf inv_done ∧ inv_le inv_done inv_done.
Proof.
  apply (invocation_run_coherent "inv_a" "tn_a" "fn_a" None "rev_a" Async Json deadlines0
           (Some "k") "sha256:0" 3 "trace" 0 inv0 inv_done inv_done).
  - vm_compute. reflexivity.
  - apply (run_inv_ops_steps inv_retried_ops 1). vm_compute. reflexivity.
  - apply rtc_refl.
Defined.

Lemma attempt_settles_once_witness : ∃ a1 : InvocationAttempt,
  att_finished_at a1 = Some 9.
Proof.
  exists (Att.dispatch "att_a" "inv_a" "tn_a" 1 "env_a" 1 Cold 3
            <| att_status := AttemptStatus.Succeeded |> <| att_finished_at := Some 9 |>).
  apply (attempt_settles_once (Att.dispatch "att_a" "inv_a" "tn_a" 1 "env_a" 1 Cold 3) _
           AttemptStatus.Succeeded 9); vm_compute; reflexivity.
Defined.
