(* ===== verification/Functions.v ===== *)
(** * Functions, aliases, limits and log lines

    [crates/domain/src/function.rs] (module [Fn]), [alias.rs] (module
    [Alias]), [limits.rs] and [log.rs]. *)

From Stdlib Require Import Ascii.
From S2P Require Import Prelude Ids.

Open Scope string_scope.
Open Scope Z_scope.

(** ** Functions *)

(** [crates/domain/src/function.rs:9-24 Function] *)
Record FunctionDef := mkFunction {
  fn_id : FunctionId;
  fn_tenant_id : TenantId;
  fn_name : FunctionName;
  fn_description : string;
  fn_created_at : Timestamp;
  fn_updated_at : Timestamp;
  fn_deleted_at : option Timestamp;
  fn_drained_at : option Timestamp
}.
#[global] Instance FunctionDef_eq_dec : EqDecision FunctionDef.
Proof. solve_decision. Defined.
#[global] Instance FunctionDef_eta : Eta FunctionDef := λ r,
  mkFunction (fn_id r) (fn_tenant_id r) (fn_name r) (fn_description r) (fn_created_at r)
    (fn_updated_at r) (fn_deleted_at r) (fn_drained_at r).

Module Fn.
(** [crates/domain/src/function.rs:27-27 MAX_DESCRIPTION_LEN] *)
Definition MAX_DESCRIPTION_LEN : Z := 1024.

(** [crates/domain/src/function.rs:29-53 Function::new] *)
Definition new (id : FunctionId) (tenant_id : TenantId) (name : FunctionName)
    (description : string) (now : Timestamp) : result DomainError FunctionDef :=
  when! MAX_DESCRIPTION_LEN <? byte_len description return!
    Err (LimitExceeded "description" (byte_len description) MAX_DESCRIPTION_LEN);;
  Ok (mkFunction id tenant_id name description now now None None).

(** [crates/domain/src/function.rs:55-57 is_deleted] *)
Definition is_deleted (f : FunctionDef) : bool := is_some (fn_deleted_at f).

(** [crates/domain/src/function.rs:59-69 mark_deleted] *)
Definition mark_deleted (now : Timestamp) (f : FunctionDef) : result DomainError FunctionDef :=
  when! is_some (fn_deleted_at f) return! Err (Terminal "Function" "deleted");;
  Ok (f <| fn_deleted_at := Some now |> <| fn_updated_at := now |>).

(** [crates/domain/src/function.rs:71-78 deletion_state] *)
Definition deletion_state (f : FunctionDef) : string :=
  match fn_deleted_at f, fn_drained_at f with
  | None, _ => "live"
  | Some _, None => "deleting"
  | Some _, Some _ => "deleted"
  end.

(** [crates/domain/src/function.rs:80-92 mark_drained] *)
Definition mark_drained (now : Timestamp) (f : FunctionDef) : result DomainError FunctionDef :=
  when! is_none (fn_deleted_at f) || is_some (fn_drained_at f) return!
    Err (IllegalTransition "Function" (deletion_state f) "deleted");;
  Ok (f <| fn_drained_at := Some now |> <| fn_updated_at := now |>).

(** [crates/domain/src/function.rs:94-104 ensure_owned_by] *)
Definition ensure_owned_by (tenant : TenantId) (f : FunctionDef) : result DomainError unit :=
  if fn_tenant_id f == tenant then Ok tt
  else Err (TenantMismatch ("function " +:+ fn_id f +:+ " is not owned by tenant " +:+ tenant)).
End Fn.

(** ** Aliases *)

(** [crates/domain/src/alias.rs:9-22 FunctionAlias] *)
Record FunctionAlias := mkAlias {
  alias_function_id : FunctionId;
  alias_tenant_id : TenantId;
  alias_name : AliasName;
  alias_revision_id : RevisionId;
  alias_generation : Z;
  alias_previous_revision_id : option RevisionId;
  alias_created_at : Timestamp;
  alias_updated_at : Timestamp
}.
#[global] Instance FunctionAlias_eq_dec : EqDecision FunctionAlias.
Proof. solve_decision. Defined.
#[global] Instance FunctionAlias_eta : Eta FunctionAlias := λ r,
  mkAlias (alias_function_id r) (alias_tenant_id r) (alias_name r) (alias_revision_id r)
    (alias_generation r) (alias_previous_revision_id r) (alias_created_at r) (alias_updated_at r).

Module Alias.
(** [crates/domain/src/alias.rs:25-42 FunctionAlias::new] *)
Definition new (function_id : FunctionId) (tenant_id : TenantId) (name : AliasName)
    (revision_id : RevisionId) (now : Timestamp) : FunctionAlias :=
  mkAlias function_id tenant_id name revision_id 1 None now now.

(** [crates/domain/src/alias.rs:44-66 update] *)
Definition update (revision_id : RevisionId) (expected_generation : option Z) (now : Timestamp)
    (a : FunctionAlias) : result DomainError FunctionAlias :=
  when! is_some_and expected_generation (λ e, negb (e =? alias_generation a)) return!
    Err (GenerationMismatch (unwrap_or expected_generation 0) (alias_generation a));;
  let a := if revision_id != alias_revision_id a
           then a <| alias_previous_revision_id := Some (alias_revision_id a) |>
                  <| alias_revision_id := revision_id |>
           else a in
  Ok (a <| alias_generation ::= λ g, u64_add g 1 |> <| alias_updated_at := now |>).
End Alias.

(** ** Limits *)

(** [crates/domain/src/limits.rs:5-35 Limits] *)
Record Limits := mkLimits {
  max_payload_bytes : Z;
  max_response_bytes : Z;
  max_execution_timeout_seconds : Z;
  max_init_timeout_seconds : Z;
  min_memory_mib : Z;
  max_memory_mib : Z;
  min_cpu_millis : Z;
  max_cpu_millis : Z;
  min_ephemeral_storage_mib : Z;
  max_ephemeral_storage_mib : Z;
  max_log_lines_per_invocation : Z;
  max_log_bytes_per_invocation : Z;
  max_log_line_bytes : Z;
  max_artifact_bytes : Z
}.

(** [crates/domain/src/limits.rs:38-55 Limits::default] *)
Definition limits_default : Limits :=
  mkLimits (1024 * 1024) (6 * 1024 * 1024) (15 * 60) 120 128 4096 250 2000 32 2048 2000
    (1024 * 1024) (16 * 1024) (256 * 1024 * 1024).

(** ** Log lines *)

(** [crates/domain/src/log.rs:8-15 LogStream] *)
Inductive LogStream : Type := Stdout | Stderr | Platform.
#[global] Instance LogStream_eq_dec : EqDecision LogStream.
Proof. solve_decision. Defined.

(** [crates/domain/src/log.rs:17-26 LogPhase] *)
Inductive LogPhase : Type := Boot | Init | Handler | Shutdown.
#[global] Instance LogPhase_eq_dec : EqDecision LogPhase.
Proof. solve_decision. Defined.

(** [crates/domain/src/log.rs:28-40 LogRecord] *)
Record LogRecord := mkLog {
  log_tenant_id : TenantId;
  log_environment_id : EnvironmentId;
  log_invocation_id : option InvocationId;
  log_attempt_id : option AttemptId;
  log_stream : LogStream;
  log_phase : LogPhase;
  log_timestamp : Timestamp;
  log_line : string;
  log_truncated : bool
}.
#[global] Instance LogRecord_eq_dec : EqDecision LogRecord.
Proof. solve_decision. Defined.

(** [str::is_char_boundary] on UTF-8 bytes: the ends, and any byte that does
    not continue a character ([0b10xxxxxx]). *)
Definition is_continuation (c : ascii) : bool := (128 <=? byte_of c) && (byte_of c <? 192).
Definition is_char_boundary (s : string) (i : nat) : bool :=
  match i with
  | O => true
  | _ => match String.get i s with
         | Some c => negb (is_continuation c)
         | None => (i =? String.length s)%nat
         end
  end.

(** [crates/domain/src/log.rs:48-51 bounded_line (loop)] *)
Fixpoint cut (line : string) (limit : nat) : nat :=
  match limit with
  | O => O
  | S k => if is_char_boundary line limit then limit else cut line k
  end.

(** [crates/domain/src/log.rs:43-53 bounded_line] *)
Definition bounded_line (line : string) (max_bytes : nat) : string * bool :=
  when! bool_decide (String.length line ≤ max_bytes)%nat return! (line, false);;
  (String.substring 0 (cut line max_bytes) line, true).

(** ** Runs of an alias and of a function *)

Inductive alias_step (a a' : FunctionAlias) : Prop :=
| alias_step_update rev expected now :
    Alias.update rev expected now a = Ok a' → alias_step a a'.

Inductive fn_step (f f' : FunctionDef) : Prop :=
| fn_step_deleted now : Fn.mark_deleted now f = Ok f' → fn_step f f'
| fn_step_drained now : Fn.mark_drained now f = Ok f' → fn_step f f'.

(** The stage of a deletion: live, deleting, deleted. *)
Definition deletion_stage (f : FunctionDef) : nat :=
  match fn_deleted_at f, fn_drained_at f with
  | None, _ => 0
  | Some _, None => 1
  | Some _, Some _ => 2
  end.

(** ** Lemmas *)

Lemma alias_update_Ok rev expected now a a' :
  Alias.update rev expected now a = Ok a' ↔
  (∀ e, expected = Some e → e = alias_generation a) ∧
  a' = a <| alias_previous_revision_id :=
              if rev != alias_revision_id a then Some (alias_revision_id a)
              else alias_previous_revision_id a |>
         <| alias_revision_id := rev |>
         <| alias_generation := u64_add (alias_generation a) 1 |> <| alias_updated_at := now |>.
Proof.
  unfold Alias.update. destruct expected as [e|]; cbn.
  - destruct (Z.eqb_spec e (alias_generation a)); cbn; [|naive_solver].
    case_bool_decide; subst; cbn; [destruct a|]; naive_solver.
  - case_bool_decide; subst; cbn; [destruct a|]; naive_solver.
Qed.

Lemma cut_spec line n :
  (cut line n ≤ n)%nat ∧ is_char_boundary line (cut line n) = true ∧
  ∀ k, (cut line n < k ≤ n)%nat → is_char_boundary line k = false.
Proof.
  induction n as [|n (IH1 & IH2 & IH3)]; cbn [cut]; [repeat split; lia|].
  destruct (is_char_boundary line (S n)) eqn:E; [repeat split; [lia|done|lia]|].
  split; [lia|]. split; [done|]. intros k Hk.
  destruct (decide (k = S n)) as [->|]; [done|]. apply IH3. lia.
Qed.

(** ** Properties *)

(** An alias is a compare-and-swap cell. An update with an expected
    generation succeeds exactly when it names the current one; every success
    moves to the next generation, routes to the asked revision and remembers
    the one it replaced, so of two updates that both expect the same
    generation at most one succeeds. *)
Theorem alias_update_cas (a : FunctionAlias) :
  u64_range (alias_generation a) →
  (∀ rev g now, is_ok (Alias.update rev (Some g) now a) = true ↔ g = alias_generation a) ∧
  (∀ rev expected now a', Alias.update rev expected now a = Ok a' →
     alias_revision_id a' = rev ∧
     alias_generation a' = u64_add (alias_generation a) 1 ∧
     (rev ≠ alias_revision_id a → alias_previous_revision_id a' = Some (alias_revision_id a)) ∧
     (alias_function_id a', alias_tenant_id a', alias_name a', alias_created_at a') =
       (alias_function_id a, alias_tenant_id a, alias_name a, alias_created_at a) ∧
     ∀ rev2 now2, Alias.update rev2 (Some (alias_generation a)) now2 a'
       = Err (GenerationMismatch (alias_generation a) (alias_generation a'))).
Proof.
  intros Hr. split.
  - intros rev g now. destruct (Alias.update rev (Some g) now a) as [a'|e] eqn:H; cbn.
    + apply alias_update_Ok in H as [Hg _]. split; [by intros _; apply Hg|done].
    + split; [done|]. intros ->. unfold Alias.update in H. cbn in H.
      rewrite Z.eqb_refl in H. cbn in H. by case_match.
  - intros rev expected now a' (_ & ->)%alias_update_Ok. cbn.
    split_and!; try done.
    + intros Hne. by rewrite bool_decide_false.
    + intros rev2 now2. unfold Alias.update. cbn.
      destruct (Z.eqb_spec (alias_generation a) (u64_add (alias_generation a) 1)) as [Heq|]; [|done].
      by destruct (u64_add_1_ne _ Hr).
Qed.

(** A deletion only moves forward, live then deleting then deleted; each
    stage is entered once and its instant is never rewritten. *)
Theorem function_deletion_forward (f f' : FunctionDef) :
  rtc fn_step f f' →
  (deletion_stage f ≤ deletion_stage f')%nat ∧
  (∀ t, fn_deleted_at f = Some t → fn_deleted_at f' = Some t) ∧
  (∀ t, fn_deleted_at f = Some t → fn_drained_at f = Some t →
     f' = f ∧ ∀ now, is_err (Fn.mark_deleted now f') = true ∧ is_err (Fn.mark_drained now f') = true) ∧
  (fn_id f', fn_tenant_id f', fn_name f') = (fn_id f, fn_tenant_id f, fn_name f).
Proof.
  assert (∀ f f', fn_step f f' → ∃ g, f' = g ∧ (deletion_stage f < deletion_stage g)%nat ∧
    (∀ t, fn_deleted_at f = Some t → fn_deleted_at g = Some t) ∧
    (fn_id g, fn_tenant_id g, fn_name g) = (fn_id f, fn_tenant_id f, fn_name f)) as Hstep.
  { intros g g' [now H|now H]; exists g'; unfold Fn.mark_deleted, Fn.mark_drained, deletion_stage in *;
      destruct (fn_deleted_at g) eqn:Hd, (fn_drained_at g) eqn:Hr; cbn in H; try done;
      injection H as <-; cbn; rewrite ?Hd, ?Hr; split_and!; auto with lia; done. }
  induction 1 as [f|f1 f2 f3 H _ (IH1 & IH2 & IH3 & IH4)].
  - split_and!; [lia|done| |done]. intros t Hd Hr. split; [done|]. intros now.
    unfold Fn.mark_deleted, Fn.mark_drained. by rewrite Hd, Hr.
  - destruct (Hstep _ _ H) as (? & <- & Hlt & Hdel & Hid). split_and!; [lia|auto| |congruence].
    intros t Hd Hr. unfold deletion_stage in Hlt at 1. rewrite Hd, Hr in Hlt.
    unfold deletion_stage in Hlt. repeat case_match; lia.
Qed.

(** A bounded log line never exceeds the limit, is a prefix of the line cut
    on a character boundary, is marked truncated exactly when something was
    cut, and is the longest such prefix. *)
Theorem bounded_line_longest_prefix (line : string) (max : nat) (s : string) (t : bool) :
  bounded_line line max = (s, t) →
  (t = false ↔ (String.length line ≤ max)%nat) ∧ (t = false → s = line) ∧
  ∃ n, s = String.substring 0 n line ∧
    (t = true → (n ≤ max)%nat ∧ is_char_boundary line n = true ∧
       ∀ k, (n < k ≤ max)%nat → is_char_boundary line k = false).
Proof.
  unfold bounded_line. case_bool_decide as Hle; intros [= <- <-].
  - split_and!; [done|done|]. exists (String.length line). split; [|done].
    clear. induction line as [|c l IH]; [done|]. cbn. by rewrite <-IH at 1.
  - split_and!; [split; [done|by intros ?%Hle]|done|]. exists (cut line max).
    split; [done|]. intros _. apply cut_spec.
Qed.

(** ** Witnesses *)

Lemma alias_update_cas_witness :
  is_ok (Alias.update "rev_b" (Some 1) 5 (Alias.new "fn_a" "tn_a" "prod" "rev_a" 0)) = true.
Proof.
  apply (alias_update_cas (Alias.new "fn_a" "tn_a" "prod" "rev_a" 0)); [|reflexivity].
  vm_compute. split; discriminate.
Defined.

Lemma function_deletion_forward_witness :
  fn_deleted_at (mkFunction "fn_a" "tn_a" "hello" "" 0 7 (Some 5) (Some 7)) = Some 5.
Proof.
  apply (function_deletion_forward (mkFunction "fn_a" "tn_a" "hello" "" 0 5 (Some 5) None));
    [|reflexivity].
  eapply rtc_l; [|apply rtc_refl]. apply (fn_step_drained _ _ 7). reflexivity.
Defined.

Lemma bounded_line_longest_prefix_witness :
  (String.length "hello" ≤ 4)%nat ↔ true = false.
Proof.
  symmetry. apply (bounded_line_longest_prefix "hello" 4 "hell" true). vm_compute. reflexivity.
Defined.
