(* ===== verification/Egress.v ===== *)
(** * Egress allowlists

    [crates/domain/src/egress.rs]: IPv4 networks, the allow rules of a
    [restricted] revision and the ranges no profile may reach. An [Ipv4Addr] is
    its big-endian [u32]; its text form and [u8::from_str] are the standard
    library's grammars. *)

From Stdlib Require Import Ascii.
From S2P Require Import Prelude Ids.

Open Scope string_scope.
Open Scope Z_scope.

(** ** Standard library text formats *)

Definition digit_value (c : ascii) : Z := byte_of c - 48.

(** The value of a string of decimal digits. *)
Definition digits_value (s : string) : Z :=
  fold_left (λ acc c, acc * 10 + digit_value c) (String.list_ascii_of_string s) 0.

(** [s.parse::<u8>()]: an optional [+], then digits worth at most 255. *)
Definition parse_u8 (s : string) : option Z :=
  let digits := match s with String c r => if c == "+"%char then r else s | _ => s end in
  if negb (byte_len digits =? 0) && bytes_all is_ascii_digit digits
     && (digits_value digits <=? 255)
  then Some (digits_value digits) else None.

(** [s.split_once(c)] *)
Fixpoint split_once (c : ascii) (s : string) : option (string * string) :=
  match s with
  | EmptyString => None
  | String d r => if d == c then Some ("", r)
                  else '(a, b) ← split_once c r; Some (String d a, b)
  end.

Definition contains_byte (c : ascii) (s : string) : bool := is_some (split_once c s).

(** One octet: one to three digits, no leading zero, at most 255. *)
Definition parse_octet (s : string) : option Z :=
  if negb (byte_len s =? 0) && (byte_len s <=? 3) && bytes_all is_ascii_digit s
     && negb ((first_byte s == Some "0"%char) && negb (byte_len s =? 1))
     && (digits_value s <=? 255)
  then Some (digits_value s) else None.

(** [s.parse::<Ipv4Addr>()] *)
Definition parse_ipv4 (s : string) : option Z :=
  '(a, r) ← split_once "." s; '(b, r) ← split_once "." r; '(c, d) ← split_once "." r;
  a ← parse_octet a; b ← parse_octet b; c ← parse_octet c; d ← parse_octet d;
  Some (Z.lor (Z.shiftl a 24) (Z.lor (Z.shiftl b 16) (Z.lor (Z.shiftl c 8) d))).

(** [Display] of an [Ipv4Addr]. *)
Definition octet (addr i : Z) : Z := Z.land (Z.shiftr addr (8 * i)) 255.
Definition ipv4_to_string (addr : Z) : string :=
  pretty (octet addr 3) +:+ "." +:+ pretty (octet addr 2) +:+ "." +:+ pretty (octet addr 1)
    +:+ "." +:+ pretty (octet addr 0).

(** ** IPv4 networks *)

(** [crates/domain/src/egress.rs:84-89 Ipv4Cidr] *)
Record Ipv4Cidr := mkCidr { network : Z; prefix : Z }.
#[global] Instance Ipv4Cidr_eq_dec : EqDecision Ipv4Cidr.
Proof. solve_decision. Defined.

(** [crates/domain/src/egress.rs:134-140 mask_bits] *)
Definition mask_bits (prefix : Z) : Z :=
  if prefix =? 0 then 0 else Z.land (Z.shiftl u32_max (32 - prefix)) u32_max.

(** [crates/domain/src/egress.rs:125-132 Ipv4Cidr::new] *)
Definition cidr_new (addr prefix : Z) : Ipv4Cidr :=
  let prefix := Z.min prefix 32 in
  mkCidr (Z.land addr (mask_bits prefix)) prefix.

(** [crates/domain/src/egress.rs:150-152 netmask] *)
Definition netmask (c : Ipv4Cidr) : Z := mask_bits (prefix c).
(** [crates/domain/src/egress.rs:154-157 size] *)
Definition cidr_size (c : Ipv4Cidr) : Z := Z.shiftl 1 (32 - prefix c).
(** [crates/domain/src/egress.rs:159-161 contains] *)
Definition contains (c : Ipv4Cidr) (addr : Z) : bool :=
  Z.land addr (mask_bits (prefix c)) =? network c.
(** [crates/domain/src/egress.rs:163-166 contains_net] *)
Definition contains_net (c other : Ipv4Cidr) : bool :=
  (prefix c <=? prefix other) && contains c (network other).
(** [crates/domain/src/egress.rs:168-171 overlaps] *)
Definition overlaps (c other : Ipv4Cidr) : bool := contains_net c other || contains_net other c.

(** [crates/domain/src/egress.rs:175-177 fmt] *)
Definition cidr_to_string (c : Ipv4Cidr) : string :=
  ipv4_to_string (network c) +:+ "/" +:+ pretty (prefix c).

(** [crates/domain/src/egress.rs:95-96 parse (invalid)] *)
Definition invalid_cidr (s reason : string) : DomainError :=
  validation "egress_allow.cidr" ("`" +:+ s +:+ "`: " +:+ reason).

(** [crates/domain/src/egress.rs:92-123 Ipv4Cidr::parse] *)
Definition cidr_parse (s : string) : result DomainError Ipv4Cidr :=
  '(addr, prefix) ←
    match split_once "/" s with
    | Some (a, p) =>
        match parse_u8 p with
        | Some n => if n <=? 32 then Ok (a, n)
                    else Err (invalid_cidr s "prefix length must be 0..=32")
        | None => Err (invalid_cidr s "prefix length must be 0..=32")
        end
    | None => Ok (s, 32)
    end;
  when! contains_byte ":" addr return!
    Err (invalid_cidr s "IPv6 is not provided to guests; only IPv4 networks can be allowed");;
  match parse_ipv4 addr with
  | None => Err (invalid_cidr s "not an IPv4 address in CIDR form")
  | Some addr =>
      let cidr := cidr_new addr prefix in
      when! negb (network cidr =? addr) return!
        Err (invalid_cidr s ("host bits are set (did you mean " +:+ cidr_to_string cidr +:+ "?)"));;
      Ok cidr
  end.

(** ** Ranges no profile may reach *)

(** [crates/domain/src/egress.rs:180-185 BlockedRange] *)
Record BlockedRange := mkBlocked { blocked_cidr : string; blocked_name : string }.

(** [crates/domain/src/egress.rs:188-191 BlockedRange::cidr] [None] is the panic
    of [expect]. *)
Definition range_cidr (b : BlockedRange) : option Ipv4Cidr :=
  match cidr_parse (blocked_cidr b) with Ok c => Some c | Err _ => None end.

(** [crates/domain/src/egress.rs:194-261 BLOCKED_IPV4] *)
Definition BLOCKED_IPV4 : list BlockedRange :=
  [ mkBlocked "0.0.0.0/8" "this network";
    mkBlocked "10.0.0.0/8" "RFC1918 private";
    mkBlocked "100.64.0.0/10" "CGNAT shared address space";
    mkBlocked "127.0.0.0/8" "loopback";
    mkBlocked "169.254.0.0/16" "link-local and cloud metadata";
    mkBlocked "172.16.0.0/12" "RFC1918 private";
    mkBlocked "192.0.0.0/24" "IETF protocol assignments";
    mkBlocked "192.0.2.0/24" "TEST-NET-1";
    mkBlocked "192.88.99.0/24" "6to4 relay anycast";
    mkBlocked "192.168.0.0/16" "RFC1918 private";
    mkBlocked "198.18.0.0/15" "benchmarking";
    mkBlocked "198.51.100.0/24" "TEST-NET-2";
    mkBlocked "203.0.113.0/24" "TEST-NET-3";
    mkBlocked "224.0.0.0/4" "multicast";
    mkBlocked "240.0.0.0/4" "reserved and limited broadcast" ].

(** [crates/domain/src/egress.rs:320-324 is_public_ipv4] *)
Definition is_public_ipv4 (addr : Z) : bool :=
  negb (existsb (λ b, is_some_and (range_cidr b) (λ c, contains c addr)) BLOCKED_IPV4).

(** ** Allow rules *)

(** [crates/domain/src/egress.rs:15-16 MAX_EGRESS_ALLOW_RULES] *)
Definition MAX_EGRESS_ALLOW_RULES : Z := 16.
(** [crates/domain/src/egress.rs:17-18 MAX_EGRESS_ALLOW_PORTS] *)
Definition MAX_EGRESS_ALLOW_PORTS : Z := 16.

(** [crates/domain/src/egress.rs:20-27 EgressProtocol] *)
Inductive EgressProtocol : Type := Tcp | Udp.
#[global] Instance EgressProtocol_eq_dec : EqDecision EgressProtocol.
Proof. solve_decision. Defined.

(** [crates/domain/src/egress.rs:38-49 EgressAllowRule] *)
Record EgressAllowRule := mkRule {
  rule_cidr : string;
  rule_protocol : EgressProtocol;
  rule_ports : list Z
}.
#[global] Instance EgressAllowRule_eq_dec : EqDecision EgressAllowRule.
Proof. solve_decision. Defined.

(** [crates/domain/src/egress.rs:59-59 validate (find)] *)
Definition find_blocked (net : Ipv4Cidr) : option BlockedRange :=
  List.find (λ b, is_some_and (range_cidr b) (λ c, overlaps c net)) BLOCKED_IPV4.

(** [crates/domain/src/egress.rs:57-81 EgressAllowRule::validate] *)
Definition rule_validate (r : EgressAllowRule) : result DomainError unit :=
  net ← cidr_parse (rule_cidr r);
  match find_blocked net with
  | Some b =>
      Err (validation "egress_allow.cidr"
        ("`" +:+ rule_cidr r +:+ "` overlaps " +:+ blocked_cidr b +:+ " (" +:+ blocked_name b
           +:+ "), which no egress profile may reach"))
  | None =>
      when! (Z.of_nat (length (rule_ports r)) =? 0)
            || (MAX_EGRESS_ALLOW_PORTS <? Z.of_nat (length (rule_ports r))) return!
        Err (validation "egress_allow.ports"
               ("must list 1..=" +:+ pretty MAX_EGRESS_ALLOW_PORTS +:+ " ports"));;
      when! bool_decide (0 ∈ rule_ports r) return!
        Err (validation "egress_allow.ports" "port 0 is not a destination port");;
      Ok tt
  end.

(** A network [new] can build. *)
Record cidr_wf (c : Ipv4Cidr) : Prop := {
  cw_prefix : 0 ≤ prefix c ≤ 32;
  cw_network : 0 ≤ network c < 2 ^ 32;
  cw_masked : Z.land (network c) (mask_bits (prefix c)) = network c
}.

Example egress_examples :
  cidr_parse "203.0.113.7" = Ok (mkCidr 3405803783 32) ∧
  is_ok (cidr_parse "10.1.2.3/8") = false ∧
  is_ok (cidr_parse "8.8.8.8/+32") = true ∧
  is_ok (cidr_parse "08.8.8.8") = false ∧
  is_public_ipv4 2852039166 = false ∧
  is_ok (rule_validate (mkRule "8.8.8.0/24" Udp [53])) = true ∧
  is_ok (rule_validate (mkRule "168.0.0.0/5" Tcp [443])) = false.
Proof. vm_compute. repeat split. Qed.

(** ** Lemmas *)

Lemma mask_bits_testbit p i :
  0 ≤ p ≤ 32 → 0 ≤ i → Z.testbit (mask_bits p) i = (32 - p <=? i) && (i <? 32).
Proof.
  intros Hp Hi. unfold mask_bits. destruct (p =? 0) eqn:E.
  - apply Z.eqb_eq in E. subst p. rewrite Z.bits_0. symmetry.
    destruct (32 - 0 <=? i) eqn:E1, (i <? 32) eqn:E2; try done. bools. lia.
  - change u32_max with (Z.ones 32).
    rewrite Z.land_spec, Z.shiftl_spec, !Z.testbit_ones by lia.
    destruct (32 - p <=? i) eqn:E1, (i <? 32) eqn:E2; bools;
      repeat match goal with
      | |- context [?a <=? ?b] => destruct (Z.leb_spec a b)
      | |- context [?a <? ?b] => destruct (Z.ltb_spec a b)
      end; cbn; try done; lia.
Qed.

(** A longer prefix has a wider mask. *)
Lemma mask_bits_land p q : 0 ≤ p ≤ q → q ≤ 32 → Z.land (mask_bits q) (mask_bits p) = mask_bits p.
Proof.
  intros Hp Hq. apply Z.bits_inj'. intros i Hi.
  rewrite Z.land_spec, !mask_bits_testbit by lia.
  destruct (Z.leb_spec (32 - p) i), (Z.ltb_spec i 32), (Z.leb_spec (32 - q) i); cbn; try done; lia.
Qed.

Lemma mask_bits_range p : 0 ≤ p ≤ 32 → 0 ≤ mask_bits p.
Proof.
  intros Hp. unfold mask_bits. destruct (p =? 0); [done|].
  apply Z.land_nonneg. right. done.
Qed.

Lemma cidr_new_wf addr p : 0 ≤ p → 0 ≤ addr < 2 ^ 32 → cidr_wf (cidr_new addr p).
Proof.
  intros Hp Ha. unfold cidr_new. assert (0 ≤ Z.min p 32 ≤ 32) as Hm by lia.
  split; cbn [prefix network]; [done| |].
  - split; [apply Z.land_nonneg; lia|]. apply Z.log2_lt_cancel.
    destruct (Z.eq_dec (Z.land addr (mask_bits (Z.min p 32))) 0) as [->|Hne]; [done|].
    pose proof (Z.log2_land addr (mask_bits (Z.min p 32)) (proj1 Ha) (mask_bits_range _ Hm)).
    change (Z.log2 (2 ^ 32)) with 32.
    enough (Z.log2 addr < 32) by lia.
    destruct (Z.eq_dec addr 0) as [->|]; [done|]. apply Z.log2_lt_pow2; lia.
  - rewrite <-Z.land_assoc. f_equal. apply mask_bits_land; lia.
Qed.

Lemma contains_network c : cidr_wf c → contains c (network c) = true.
Proof. intros [_ _ Hm]. unfold contains. by apply Z.eqb_eq. Qed.

Lemma contains_shorter c o a :
  0 ≤ prefix c ≤ prefix o → prefix o ≤ 32 → contains c a = true → contains o a = true →
  contains c (network o) = true.
Proof.
  unfold contains. intros Hp Hq Hc Ho. bools. apply Z.eqb_eq.
  rewrite <-Hc, <-Ho, <-Z.land_assoc. f_equal. by apply mask_bits_land.
Qed.

Lemma overlaps_spec c o :
  cidr_wf c → cidr_wf o →
  overlaps c o = true ↔ ∃ a, 0 ≤ a < 2 ^ 32 ∧ contains c a = true ∧ contains o a = true.
Proof.
  intros Hc Ho. unfold overlaps, contains_net. split.
  - intros H. bools. destruct H as [H|H]; bools.
    + exists (network o). split_and!; [apply Ho | apply Ho | done | by apply contains_network].
    + exists (network c). split_and!; [apply Hc | apply Hc | by apply contains_network | done].
  - intros (a & _ & H1 & H2). destruct Hc as [Pc _ _], Ho as [Po _ _].
    apply orb_true_iff. destruct (Z.le_ge_cases (prefix c) (prefix o)) as [Hle|Hle].
    + left. apply andb_true_iff. split; [by apply Z.leb_le|].
      eapply contains_shorter; eauto; lia.
    + right. apply andb_true_iff. split; [apply Z.leb_le; lia|].
      eapply contains_shorter; [| |exact H2|exact H1]; lia.
Qed.

Lemma fold_digits_nonneg l acc :
  forallb is_ascii_digit l = true → 0 ≤ acc →
  0 ≤ fold_left (λ acc c, acc * 10 + digit_value c) l acc.
Proof.
  revert acc. induction l as [|c l IH]; intros acc Hl Hacc; cbn in *; [done|]. bools.
  apply IH; [done|]. unfold is_ascii_digit, in_range, digit_value in *. bools.
  change (byte_of "0") with 48 in *. lia.
Qed.

Lemma parse_octet_range s v : parse_octet s = Some v → 0 ≤ v < 2 ^ 8.
Proof.
  unfold parse_octet. match goal with |- context [if ?b then _ else _] => destruct b eqn:E end;
    [|done]. intros [= <-]. bools. split; [by apply fold_digits_nonneg|lia].
Qed.

Lemma parse_u8_range s v : parse_u8 s = Some v → 0 ≤ v ≤ 255.
Proof.
  unfold parse_u8. match goal with |- context [if ?b then _ else _] => destruct b eqn:E end;
    [|done]. intros [= <-]. bools. split; [by apply fold_digits_nonneg|lia].
Qed.

Lemma lor_shift_range a b n :
  0 ≤ a < 2 ^ 8 → 0 ≤ n → 0 ≤ b < 2 ^ n → 0 ≤ Z.lor (Z.shiftl a n) b < 2 ^ (n + 8).
Proof.
  intros Ha Hn Hb. split; [apply Z.lor_nonneg; split; [apply Z.shiftl_nonneg|]; lia|].
  rewrite Z.shiftl_mul_pow2 by lia.
  assert (Z.land (a * 2 ^ n) b = 0) as Hd.
  { apply Z.bits_inj'. intros i Hi. rewrite Z.land_spec, Z.bits_0.
    destruct (Z.lt_ge_cases i n).
    - by rewrite Z.mul_pow2_bits_low.
    - by rewrite <-(Z.mod_small b (2 ^ n)), Z.mod_pow2_bits_high, andb_false_r by lia. }
  pose proof (Z.add_lor_land (a * 2 ^ n) b) as Hsum. rewrite Hd in Hsum.
  rewrite Z.pow_add_r by lia. nia.
Qed.

Lemma parse_ipv4_range s v : parse_ipv4 s = Some v → 0 ≤ v < 2 ^ 32.
Proof.
  unfold parse_ipv4. intros H. repeat (case_match || (progress simplify_option_eq)); try done.
  repeat match goal with H : parse_octet _ = Some _ |- _ => apply parse_octet_range in H end.
  apply (lor_shift_range _ _ 24); [done|lia|].
  apply (lor_shift_range _ _ 16); [done|lia|].
  by apply (lor_shift_range _ _ 8).
Qed.

Lemma cidr_parse_wf s c : cidr_parse s = Ok c → cidr_wf c.
Proof.
  unfold cidr_parse. intros H. steps. destruct a as [addr p].
  assert (0 ≤ p) as Hp.
  { destruct (split_once "/" s) as [[a' p']|]; [|by simplify_eq].
    destruct (parse_u8 p') as [n|] eqn:E; [|done]. apply parse_u8_range in E.
    destruct (n <=? 32); simplify_eq; lia. }
  destruct (contains_byte ":" addr); [done|].
  destruct (parse_ipv4 addr) as [v|] eqn:E; [|done].
  case_match; [done|]. injection Hk as <-. apply cidr_new_wf; [done|by eapply parse_ipv4_range].
Qed.
#[export] Hint Resolve cidr_parse_wf parse_ipv4_range contains_network : tsls.

(** The table is well formed: [expect] never panics. *)
Lemma blocked_ranges_parse : forallb (λ b, is_some (range_cidr b)) BLOCKED_IPV4 = true.
Proof. vm_compute. reflexivity. Qed.

Lemma range_cidr_wf b c : range_cidr b = Some c → cidr_wf c.
Proof. unfold range_cidr. case_match; naive_solver eauto using cidr_parse_wf. Qed.

(** No blocked range overlaps a network exactly when every address of the
    network is public. *)
Lemma find_blocked_None net :
  cidr_wf net →
  find_blocked net = None ↔
  ∀ a, 0 ≤ a < 2 ^ 32 → contains net a = true → is_public_ipv4 a = true.
Proof.
  intros Hwf. unfold find_blocked, is_public_ipv4. generalize BLOCKED_IPV4 as table.
  intros table. split.
  - intros Hnone a Ha Hin. apply negb_true_iff, not_true_iff_false.
    intros (b & Hb & Hc)%existsb_exists.
    pose proof (List.find_none _ _ Hnone b Hb) as Hf. cbn in Hf.
    destruct (range_cidr b) as [c|] eqn:Ec; cbn in *; [|done].
    rewrite (proj2 (overlaps_spec c net (range_cidr_wf _ _ Ec) Hwf)) in Hf; [done|].
    exists a. split; [lia|done].
  - intros Hpub. destruct (List.find _ _) as [b|] eqn:Ef; [|done].
    apply List.find_some in Ef as [Hb Ho].
    destruct (range_cidr b) as [c|] eqn:Ec; cbn in *; [|done].
    apply overlaps_spec in Ho as (a & Ha & Hc & Hn); [|by eapply range_cidr_wf|done].
    specialize (Hpub a Ha Hn). apply negb_true_iff, not_true_iff_false in Hpub.
    destruct Hpub. apply existsb_exists. exists b. by rewrite Ec.
Qed.

(** ** Properties *)

(** on networks the parser accepts, [overlaps] is exactly "shares an
    address", although the code only compares prefixes and masked network
    addresses; and [contains_net] holds exactly when every address of the inner
    network is an address of the outer one. *)
Theorem cidr_overlap_iff_share_address (s1 s2 : string) (c o : Ipv4Cidr) :
  cidr_parse s1 = Ok c → cidr_parse s2 = Ok o →
  (overlaps c o = true ↔ ∃ a, 0 ≤ a < 2 ^ 32 ∧ contains c a = true ∧ contains o a = true) ∧
  (contains_net c o = true →
     ∀ a, contains o a = true → contains c a = true).
Proof.
  intros Hc%cidr_parse_wf Ho%cidr_parse_wf. split; [by apply overlaps_spec|].
  unfold contains_net, contains. intros Hn a Ha. bools. apply Z.eqb_eq.
  destruct Hc as [Pc _ _], Ho as [Po _ _].
  match goal with H : Z.land (network o) _ = _ |- _ => rewrite <-H end.
  rewrite <-Ha, <-Z.land_assoc. f_equal. symmetry. apply mask_bits_land; lia.
Qed.

(** a rule passes validation exactly when its network parses, every address
    of that network is public (outside all the blocked ranges, metadata and
    management networks included), and it lists 1 to 16 ports, none of them 0.
    So a [restricted] guest can never be given a route to a blocked range. *)
Theorem validated_rule_only_public (r : EgressAllowRule) :
  rule_validate r = Ok tt ↔
  ∃ net, cidr_parse (rule_cidr r) = Ok net ∧
    (∀ a, 0 ≤ a < 2 ^ 32 → contains net a = true → is_public_ipv4 a = true) ∧
    1 ≤ Z.of_nat (length (rule_ports r)) ≤ 16 ∧ 0 ∉ rule_ports r.
Proof.
  unfold rule_validate. destruct (cidr_parse (rule_cidr r)) as [net|e] eqn:Hp; cbn [mbind result_bind];
    [|split; [done|by intros (? & ? & _)]].
  pose proof (cidr_parse_wf _ _ Hp) as Hwf. pose proof (find_blocked_None net Hwf) as Hb.
  destruct (find_blocked net) as [b|]; cbn.
  - split; [done|]. intros (? & [= <-] & Hpub & _). by apply Hb in Hpub.
  - unfold MAX_EGRESS_ALLOW_PORTS.
    destruct (_ =? 0) eqn:E1, (16 <? _) eqn:E2; cbn; bools;
      try (split; [done|intros (? & _ & _ & ? & _); lia]).
    case_bool_decide as H0; [split; [done|by intros (? & _ & _ & _ & ?)]|].
    split; [|done]. intros _. exists net. split_and!; [done|by apply Hb|lia|lia|done].
Qed.

(** ** Witnesses *)

Lemma cidr_overlap_iff_share_address_witness :
  ∃ a, 0 ≤ a < 2 ^ 32 ∧ contains (mkCidr 2818572288 5) a = true ∧
       contains (mkCidr 2851995648 16) a = true.
Proof.
  apply (cidr_overlap_iff_share_address "168.0.0.0/5" "169.254.0.0/16"); vm_compute; reflexivity.
Defined.
