(* ===== verification/Revision.v ===== *)
(** * Revisions

    [crates/domain/src/revision.rs] and the restore settings of
    [crates/domain/src/snapshot.rs]: the immutable unit of code and
    configuration, its validation and its preparation states. The digest of a
    specification hashes its [serde_json] form with SHA-256, both third-party
    code: it is the argument [digest] of the section that uses it. *)

From Stdlib Require Import Ascii.
From S2P Require Import Prelude Ids Functions Egress.

Open Scope string_scope.
Open Scope Z_scope.

(** ** Data *)

(** [crates/domain/src/revision.rs:11-13 RUNTIME_PROTOCOL_V1] *)
Definition RUNTIME_PROTOCOL_V1 : string := "tachyon-invoke-v1".

(** [crates/domain/src/revision.rs:15-21 Architecture] *)
Inductive Architecture : Type := X86_64 | Aarch64.
#[global] Instance Architecture_eq_dec : EqDecision Architecture.
Proof. solve_decision. Defined.

(** [crates/domain/src/revision.rs:43-61 ArtifactRef] *)
Inductive ArtifactRef : Type :=
| Binary (digest : Sha256Digest) (size_bytes : Z)
| OciImage (reference : string) (digest : Sha256Digest).
#[global] Instance ArtifactRef_eq_dec : EqDecision ArtifactRef.
Proof. solve_decision. Defined.

(** [crates/domain/src/revision.rs:64-68 ArtifactRef::digest] *)
Definition artifact_digest (a : ArtifactRef) : Sha256Digest :=
  match a with Binary d _ | OciImage _ d => d end.

(** [crates/domain/src/revision.rs:71-76 RuntimeSpec] *)
Record RuntimeSpec := mkRuntime { protocol : string; architecture : Architecture }.
#[global] Instance RuntimeSpec_eq_dec : EqDecision RuntimeSpec.
Proof. solve_decision. Defined.

(** [crates/domain/src/revision.rs:78-83 ResourceProfile] *)
Record ResourceProfile := mkResources {
  memory_mib : Z; cpu_millis : Z; ephemeral_storage_mib : Z }.
#[global] Instance ResourceProfile_eq_dec : EqDecision ResourceProfile.
Proof. solve_decision. Defined.

(** [crates/domain/src/revision.rs:86-92 ResourceProfile::default] *)
Definition resources_default : ResourceProfile := mkResources 256 500 256.

(** [crates/domain/src/revision.rs:96-99 vcpus] *)
Definition vcpus (r : ResourceProfile) : Z := Z.max (div_ceil (cpu_millis r) 1000) 1.

(** [crates/domain/src/revision.rs:102-128 ExecutionPolicy] *)
Record ExecutionPolicy := mkPolicy {
  timeout_seconds : Z;
  initialization_timeout_seconds : Z;
  concurrency_per_environment : Z;
  max_concurrency : Z;
  min_ready : Z;
  idle_ttl_seconds : option Z;
  scale_down_cooldown_seconds : option Z
}.
#[global] Instance ExecutionPolicy_eq_dec : EqDecision ExecutionPolicy.
Proof. solve_decision. Defined.
#[global] Instance ExecutionPolicy_eta : Eta ExecutionPolicy := λ r,
  mkPolicy (timeout_seconds r) (initialization_timeout_seconds r)
    (concurrency_per_environment r) (max_concurrency r) (min_ready r) (idle_ttl_seconds r)
    (scale_down_cooldown_seconds r).

(** [crates/domain/src/revision.rs:130-132 MAX_MIN_READY] *)
Definition MAX_MIN_READY : Z := 16.
(** [crates/domain/src/revision.rs:133-134 MAX_IDLE_TTL_SECONDS] *)
Definition MAX_IDLE_TTL_SECONDS : Z := 86400.
(** [crates/domain/src/revision.rs:135-136 MAX_SCALE_DOWN_COOLDOWN_SECONDS] *)
Definition MAX_SCALE_DOWN_COOLDOWN_SECONDS : Z := 3600.

(** [crates/domain/src/revision.rs:139-149 ExecutionPolicy::default] *)
Definition policy_default : ExecutionPolicy := mkPolicy 30 30 1 4 0 None None.

Module EgressProfile.
(** [crates/domain/src/revision.rs:152-167 EgressProfile] *)
Inductive t : Type := None_ | Restricted | PublicWeb.
#[global] Instance eq_dec : EqDecision t.
Proof. solve_decision. Defined.

(** [crates/domain/src/revision.rs:170-177 as_str] *)
Definition as_str (p : t) : string :=
  match p with None_ => "none" | Restricted => "restricted" | PublicWeb => "public-web" end.
End EgressProfile.

(** [crates/domain/src/revision.rs:180-187 SecretBinding] *)
Record SecretBinding := mkSecret { env_name : string; binding_ref : string }.
#[global] Instance SecretBinding_eq_dec : EqDecision SecretBinding.
Proof. solve_decision. Defined.

Module RevisionStatus.
(** [crates/domain/src/revision.rs:189-197 RevisionStatus] *)
Inductive t : Type := Pending | Preparing | Validating | Ready | Failed (reason : string).
#[global] Instance eq_dec : EqDecision t.
Proof. solve_decision. Defined.

(** [crates/domain/src/revision.rs:200-202 is_terminal] *)
Definition is_terminal (s : t) : bool := match s with Ready | Failed _ => true | _ => false end.

(** [crates/domain/src/revision.rs:204-212 name] *)
Definition name (s : t) : string :=
  match s with
  | Pending => "pending"
  | Preparing => "preparing"
  | Validating => "validating"
  | Ready => "ready"
  | Failed _ => "failed"
  end.
End RevisionStatus.

Module RestorePolicy.
(** [crates/domain/src/snapshot.rs:30-44 RestorePolicy] *)
Inductive t : Type := Disabled | Prefer | Require.
#[global] Instance eq_dec : EqDecision t.
Proof. solve_decision. Defined.

(** [crates/domain/src/snapshot.rs:47-53 as_str] *)
Definition as_str (p : t) : string :=
  match p with Disabled => "disabled" | Prefer => "prefer" | Require => "require" end.

(** [crates/domain/src/snapshot.rs:55-65 parse] *)
Definition parse (raw : string) : result DomainError t :=
  if raw == "disabled" then Ok Disabled
  else if raw == "prefer" then Ok Prefer
  else if raw == "require" then Ok Require
  else Err (validation "restore.policy"
              ("must be disabled, prefer or require (got `" +:+ raw +:+ "`)")).

(** [crates/domain/src/snapshot.rs:67-69 is_disabled] *)
Definition is_disabled (p : t) : bool := match p with Disabled => true | _ => false end.
End RestorePolicy.

(** [crates/domain/src/snapshot.rs:72-85 RestoreSettings] *)
Record RestoreSettings := mkRestore { policy : RestorePolicy.t; synthetic_init_sample : bool }.
#[global] Instance RestoreSettings_eq_dec : EqDecision RestoreSettings.
Proof. solve_decision. Defined.

(** [crates/domain/src/revision.rs:248-257 Placement] *)
Record Placement := mkPlacement { region : option string }.
#[global] Instance Placement_eq_dec : EqDecision Placement.
Proof. solve_decision. Defined.

(** [crates/domain/src/revision.rs:215-246 RevisionSpec] *)
Record RevisionSpec := mkSpec {
  artifact : ArtifactRef;
  runtime : RuntimeSpec;
  resources : ResourceProfile;
  execution : ExecutionPolicy;
  egress : EgressProfile.t;
  egress_allow : list EgressAllowRule;
  env_vars : list (string * string);
  secrets : list SecretBinding;
  description : string;
  placement : Placement;
  restore : RestoreSettings
}.
#[global] Instance RevisionSpec_eq_dec : EqDecision RevisionSpec.
Proof. solve_decision. Defined.
#[global] Instance RevisionSpec_eta : Eta RevisionSpec := λ r,
  mkSpec (artifact r) (runtime r) (resources r) (execution r) (egress r) (egress_allow r)
    (env_vars r) (secrets r) (description r) (placement r) (restore r).

(** [crates/domain/src/revision.rs:460-473 FunctionRevision] *)
Record FunctionRevision := mkRevision {
  rev_id : RevisionId;
  rev_function_id : FunctionId;
  rev_tenant_id : TenantId;
  rev_number : Z;
  rev_spec : RevisionSpec;
  rev_spec_digest : Sha256Digest;
  rev_status : RevisionStatus.t;
  rev_created_at : Timestamp;
  rev_updated_at : Timestamp
}.
#[global] Instance FunctionRevision_eq_dec : EqDecision FunctionRevision.
Proof. solve_decision. Defined.
#[global] Instance FunctionRevision_eta : Eta FunctionRevision := λ r,
  mkRevision (rev_id r) (rev_function_id r) (rev_tenant_id r) (rev_number r) (rev_spec r)
    (rev_spec_digest r) (rev_status r) (rev_created_at r) (rev_updated_at r).

(** ** Validation *)

(** [crates/domain/src/revision.rs:264-279 Placement::validate] *)
Definition placement_validate (p : Placement) : result DomainError unit :=
  match region p with
  | Some region =>
      if negb (byte_len region =? 0) && (byte_len region <=? 64)
         && bytes_all (λ b, is_ascii_lowercase b || is_ascii_digit b || (b == "-"%char)) region
      then Ok tt
      else Err (validation "placement.region" "must be 1..=64 bytes of [a-z0-9-]")
  | None => Ok tt
  end.

(** [crates/domain/src/revision.rs:444-458 validate_env_name] *)
Definition validate_env_name (name : string) : result DomainError unit :=
  if negb (byte_len name =? 0) && (byte_len name <=? 128)
     && negb (is_some_and (first_byte name) is_ascii_digit)
     && bytes_all (λ b, is_ascii_alphanumeric b || (b == "_"%char)) name
     && negb (is_some (strip_prefix "TACHYON_" name))
  then Ok tt
  else Err (validation "env_vars"
              ("invalid or reserved environment variable name `" +:+ name +:+ "`")).

(** [crates/domain/src/snapshot.rs:92-124 snapshot_eligibility] *)
Definition snapshot_eligibility (spec : RevisionSpec) : result DomainError unit :=
  when! negb (synthetic_init_sample (restore spec)) return!
    Err (validation "restore.synthetic_init_sample"
      ("snapshots are only allowed for revisions marked as a synthetic initialization "
         +:+ "sample (X1 experimental)"));;
  when! negb (Z.of_nat (length (secrets spec)) =? 0) return!
    Err (validation "restore"
      ("snapshots are refused for revisions with secret bindings: a snapshot captures "
         +:+ "guest memory, and secrets cannot yet be delivered after a restore"));;
  when! egress spec != EgressProfile.None_ return!
    Err (validation "restore"
      ("snapshots support egress `none` only; `" +:+ EgressProfile.as_str (egress spec)
         +:+ "` is unsupported in X1"));;
  Ok tt.

(** [crates/domain/src/snapshot.rs:126-133 RestoreSettings::validate] *)
Definition restore_validate (spec : RevisionSpec) : result DomainError unit :=
  when! RestorePolicy.is_disabled (policy (restore spec)) return! Ok tt;;
  snapshot_eligibility spec.

(** Runs a check over a list and stops at the first error ([for x in xs { f(x)?; }]). *)
Fixpoint check_all {A} (f : A → result DomainError unit) (l : list A)
    : result DomainError unit :=
  match l with
  | [] => Ok tt
  | a :: l => _ ← f a; check_all f l
  end.

(** [names.windows(2).any(|w| w[0] == w[1])] *)
Fixpoint adjacent_equal (l : list string) : bool :=
  match l with
  | a :: ((b :: _) as l') => (a == b) || adjacent_equal l'
  | _ => false
  end.

(** [crates/domain/src/revision.rs:284-319 validate (part)] The runtime and resource
    checks. *)
Definition validate_resources (limits : Limits) (s : RevisionSpec) : result DomainError unit :=
  when! protocol (runtime s) != RUNTIME_PROTOCOL_V1 return!
    Err (validation "runtime.protocol"
           ("unsupported protocol `" +:+ protocol (runtime s) +:+ "`"));;
  let r := resources s in
  when! (memory_mib r <? min_memory_mib limits) || (max_memory_mib limits <? memory_mib r) return!
    Err (validation "resources.memory_mib"
      ("must be within " +:+ pretty (min_memory_mib limits) +:+ "..="
         +:+ pretty (max_memory_mib limits)));;
  when! (cpu_millis r <? min_cpu_millis limits) || (max_cpu_millis limits <? cpu_millis r) return!
    Err (validation "resources.cpu_millis"
      ("must be within " +:+ pretty (min_cpu_millis limits) +:+ "..="
         +:+ pretty (max_cpu_millis limits)));;
  when! (ephemeral_storage_mib r <? min_ephemeral_storage_mib limits)
        || (max_ephemeral_storage_mib limits <? ephemeral_storage_mib r) return!
    Err (validation "resources.ephemeral_storage_mib"
      ("must be within " +:+ pretty (min_ephemeral_storage_mib limits) +:+ "..="
         +:+ pretty (max_ephemeral_storage_mib limits)));;
  Ok tt.

(** [crates/domain/src/revision.rs:320-371 validate (part)] The execution policy checks. *)
Definition validate_execution (limits : Limits) (e : ExecutionPolicy) : result DomainError unit :=
  when! (timeout_seconds e =? 0)
        || (max_execution_timeout_seconds limits <? timeout_seconds e) return!
    Err (validation "execution.timeout_seconds"
      ("must be within 1..=" +:+ pretty (max_execution_timeout_seconds limits)));;
  when! (initialization_timeout_seconds e =? 0)
        || (max_init_timeout_seconds limits <? initialization_timeout_seconds e) return!
    Err (validation "execution.initialization_timeout_seconds"
      ("must be within 1..=" +:+ pretty (max_init_timeout_seconds limits)));;
  when! negb (concurrency_per_environment e =? 1) return!
    Err (validation "execution.concurrency_per_environment"
           "must be 1 (one invocation per environment)");;
  when! (max_concurrency e =? 0) || (1000 <? max_concurrency e) return!
    Err (validation "execution.max_concurrency" "must be within 1..=1000");;
  when! (MAX_MIN_READY <? min_ready e) || (max_concurrency e <? min_ready e) return!
    Err (validation "execution.min_ready"
      ("must be within 0..=" +:+ pretty MAX_MIN_READY +:+ " and at most execution.max_concurrency"));;
  when! is_some_and (idle_ttl_seconds e) (λ s, (s =? 0) || (MAX_IDLE_TTL_SECONDS <? s)) return!
    Err (validation "execution.idle_ttl_seconds"
      ("must be within 1..=" +:+ pretty MAX_IDLE_TTL_SECONDS));;
  when! is_some_and (scale_down_cooldown_seconds e)
          (λ s, MAX_SCALE_DOWN_COOLDOWN_SECONDS <? s) return!
    Err (validation "execution.scale_down_cooldown_seconds"
      ("must be within 0..=" +:+ pretty MAX_SCALE_DOWN_COOLDOWN_SECONDS));;
  Ok tt.

(** [crates/domain/src/revision.rs:372-399 validate (part)] The egress checks. *)
Definition validate_egress (s : RevisionSpec) : result DomainError unit :=
  let n := Z.of_nat (length (egress_allow s)) in
  match egress s with
  | EgressProfile.Restricted =>
      when! (n =? 0) || (MAX_EGRESS_ALLOW_RULES <? n) return!
        Err (validation "egress_allow"
          ("egress `restricted` needs 1..=" +:+ pretty MAX_EGRESS_ALLOW_RULES
             +:+ " allow rules (everything else is denied)"));;
      check_all rule_validate (egress_allow s)
  | EgressProfile.None_ | EgressProfile.PublicWeb =>
      when! negb (n =? 0) return!
        Err (validation "egress_allow"
          ("allow rules only apply to egress `restricted`, not `"
             +:+ EgressProfile.as_str (egress s) +:+ "`"));;
      Ok tt
  end.

(** The names of the variables a guest sees. *)
Definition variable_names (s : RevisionSpec) : list string :=
  app (env_vars s).*1 (map env_name (secrets s)).

(** [crates/domain/src/revision.rs:400-424 validate (part)] The environment checks. *)
Definition validate_environment (s : RevisionSpec) : result DomainError unit :=
  _ ← check_all (λ nv, validate_env_name nv.1) (env_vars s);
  _ ← check_all (λ b,
        _ ← validate_env_name (env_name b);
        if (byte_len (binding_ref b) =? 0) || (256 <? byte_len (binding_ref b))
        then Err (validation "secrets.binding_ref" "must be 1..=256 chars")
        else Ok tt) (secrets s);
  when! adjacent_equal (merge_sort string_le (variable_names s)) return!
    Err (validation "env_vars" "duplicate environment variable name");;
  Ok tt.

(** [crates/domain/src/revision.rs:283-435 validate] *)
Definition spec_validate (limits : Limits) (s : RevisionSpec) : result DomainError unit :=
  _ ← validate_resources limits s;
  _ ← validate_execution limits (execution s);
  _ ← validate_egress s;
  _ ← validate_environment s;
  when! 1024 <? byte_len (description s) return!
    Err (LimitExceeded "description" (byte_len (description s)) 1024);;
  _ ← placement_validate (placement s);
  restore_validate s.

(** ** Revisions *)

Module Rev.
Section Digest.
Context (digest : RevisionSpec → Sha256Digest).

(** [crates/domain/src/revision.rs:476-498 FunctionRevision::new] *)
Definition new (id : RevisionId) (function_id : FunctionId) (tenant_id : TenantId) (number : Z)
    (spec : RevisionSpec) (limits : Limits) (now : Timestamp)
    : result DomainError FunctionRevision :=
  _ ← spec_validate limits spec;
  Ok (mkRevision id function_id tenant_id number spec (digest spec) RevisionStatus.Pending now now).

(** [crates/domain/src/revision.rs:504-514 verify_integrity] *)
Definition verify_integrity (r : FunctionRevision) : result DomainError unit :=
  if digest (rev_spec r) == rev_spec_digest r then Ok tt
  else Err (validation "spec_digest" "revision specification was modified after creation").
End Digest.

(** [crates/domain/src/revision.rs:500-502 is_ready] *)
Definition is_ready (r : FunctionRevision) : bool :=
  match rev_status r with RevisionStatus.Ready => true | _ => false end.

(** [crates/domain/src/revision.rs:523-529 transition (allowed)] *)
Definition allowed (from to : RevisionStatus.t) : bool :=
  match from, to with
  | RevisionStatus.Pending, RevisionStatus.Preparing
  | RevisionStatus.Preparing, RevisionStatus.Validating
  | RevisionStatus.Validating, RevisionStatus.Ready
  | _, RevisionStatus.Failed _ => true
  | _, _ => false
  end.

(** [crates/domain/src/revision.rs:516-540 transition] *)
Definition transition (to : RevisionStatus.t) (now : Timestamp) (r : FunctionRevision)
    : result DomainError FunctionRevision :=
  when! RevisionStatus.is_terminal (rev_status r) return!
    Err (Terminal "FunctionRevision" (RevisionStatus.name (rev_status r)));;
  when! negb (allowed (rev_status r) to) return!
    Err (IllegalTransition "FunctionRevision" (RevisionStatus.name (rev_status r))
           (RevisionStatus.name to));;
  Ok (r <| rev_status := to |> <| rev_updated_at := now |>).

(** [crates/domain/src/revision.rs:542-544 start_preparing] *)
Definition start_preparing := transition RevisionStatus.Preparing.
(** [crates/domain/src/revision.rs:545-547 start_validating] *)
Definition start_validating := transition RevisionStatus.Validating.
(** [crates/domain/src/revision.rs:548-550 mark_ready] *)
Definition mark_ready := transition RevisionStatus.Ready.
(** [crates/domain/src/revision.rs:551-562 mark_failed] *)
Definition mark_failed (reason : string) := transition (RevisionStatus.Failed reason).
End Rev.

Inductive rev_step (r r' : FunctionRevision) : Prop :=
| rev_step_transition to now : Rev.transition to now r = Ok r' → rev_step r r'.

(** What validation promises to the rest of the platform. *)
Record spec_ok (limits : Limits) (s : RevisionSpec) : Prop := {
  so_protocol : protocol (runtime s) = RUNTIME_PROTOCOL_V1;
  so_memory : min_memory_mib limits ≤ memory_mib (resources s) ≤ max_memory_mib limits;
  so_cpu : min_cpu_millis limits ≤ cpu_millis (resources s) ≤ max_cpu_millis limits;
  so_storage : min_ephemeral_storage_mib limits ≤ ephemeral_storage_mib (resources s)
                 ≤ max_ephemeral_storage_mib limits;
  so_timeout : timeout_seconds (execution s) ≠ 0 ∧
    timeout_seconds (execution s) ≤ max_execution_timeout_seconds limits;
  so_concurrency : concurrency_per_environment (execution s) = 1 ∧
    max_concurrency (execution s) ≠ 0 ∧ max_concurrency (execution s) ≤ 1000;
  so_min_ready : min_ready (execution s) ≤ max_concurrency (execution s) ∧
    min_ready (execution s) ≤ 16;
  so_egress : egress s ≠ EgressProfile.Restricted ↔ egress_allow s = [];
  so_rules : ∀ r, r ∈ egress_allow s → rule_validate r = Ok tt;
  so_names : NoDup (variable_names s);
  so_reserved : ∀ n, n ∈ variable_names s → strip_prefix "TACHYON_" n = None ∧ n ≠ "";
  so_restore : policy (restore s) ≠ RestorePolicy.Disabled →
    secrets s = [] ∧ egress s = EgressProfile.None_ ∧ synthetic_init_sample (restore s) = true
}.

(** *** A concrete specification, for the witnesses *)
Definition spec0 : RevisionSpec :=
  mkSpec (Binary "sha256:0" 3) (mkRuntime RUNTIME_PROTOCOL_V1 X86_64) resources_default
    policy_default EgressProfile.Restricted [mkRule "8.8.8.0/24" Udp [53]]
    [("LANG", "C")] [mkSecret "TOKEN" "vault/token"] "" (mkPlacement (Some "jp"))
    (mkRestore RestorePolicy.Disabled false).

(** ** Lemmas *)

Lemma check_all_Ok {A} (f : A → result DomainError unit) l :
  check_all f l = Ok tt ↔ ∀ x, x ∈ l → f x = Ok tt.
Proof.
  induction l as [|a l IH]; cbn.
  - split; [by intros _ x ?%not_elem_of_nil | done].
  - split.
    + intros H x [->|Hx]%elem_of_cons; steps; [by destruct a0 | by apply IH].
    + intros H. rewrite (H a) by left. cbn. apply IH. intros x Hx. apply H. by right.
Qed.

Lemma adjacent_equal_NoDup l : StronglySorted string_le l → adjacent_equal l = false ↔ NoDup l.
Proof.
  induction 1 as [|a l Hs IH Ha]; [split; [constructor|done]|].
  destruct l as [|b l]; [split; [intros _; apply NoDup_singleton|done]|].
  change (adjacent_equal (a :: b :: l)) with ((a == b) || adjacent_equal (b :: l)).
  rewrite orb_false_iff, bool_decide_eq_false, IH, (NoDup_cons a (b :: l)).
  split; [|set_solver]. intros [Hne Hnd]. split; [|done].
  intros [->|Hin]%elem_of_cons; [done|]. apply Hne. apply (anti_symm string_le).
  - rewrite Forall_forall in Ha. apply Ha. by left.
  - inversion_clear Hs as [|? ? _ Hb]. rewrite Forall_forall in Hb. by apply Hb.
Qed.

Lemma variable_names_distinct s :
  adjacent_equal (merge_sort string_le (variable_names s)) = false ↔ NoDup (variable_names s).
Proof.
  rewrite adjacent_equal_NoDup by (apply StronglySorted_merge_sort; apply _).
  by rewrite merge_sort_Permutation.
Qed.

Lemma validate_env_name_Ok n :
  validate_env_name n = Ok tt → strip_prefix "TACHYON_" n = None ∧ n ≠ "".
Proof.
  unfold validate_env_name. destruct (strip_prefix "TACHYON_" n) eqn:Hs; cbn.
  - by rewrite andb_false_r.
  - intros H. split; [done|]. intros ->. discriminate H.
Qed.

Lemma validate_resources_Ok limits s :
  validate_resources limits s = Ok tt ↔
  protocol (runtime s) = RUNTIME_PROTOCOL_V1 ∧
  min_memory_mib limits ≤ memory_mib (resources s) ≤ max_memory_mib limits ∧
  min_cpu_millis limits ≤ cpu_millis (resources s) ≤ max_cpu_millis limits ∧
  min_ephemeral_storage_mib limits ≤ ephemeral_storage_mib (resources s)
    ≤ max_ephemeral_storage_mib limits.
Proof.
  unfold validate_resources. case_bool_decide; cbn; [|split; [done|tauto]].
  repeat match goal with
  | |- context [(?a <? ?b) || (?c <? ?d)] =>
      destruct (Z.ltb_spec a b), (Z.ltb_spec c d); cbn; try (split; [done|lia])
  end.
  split; [intros _; split_and!; done || lia | done].
Qed.

Lemma validate_execution_Ok limits e :
  validate_execution limits e = Ok tt →
  (timeout_seconds e ≠ 0 ∧ timeout_seconds e ≤ max_execution_timeout_seconds limits) ∧
  (concurrency_per_environment e = 1 ∧ max_concurrency e ≠ 0 ∧ max_concurrency e ≤ 1000) ∧
  min_ready e ≤ max_concurrency e ∧ min_ready e ≤ 16.
Proof.
  unfold validate_execution, MAX_MIN_READY. intros H.
  repeat match type of H with
  | (if ?b then _ else _) = _ => destruct b eqn:?; [discriminate H|]
  end. bools. lia.
Qed.

Lemma validate_egress_Ok s :
  validate_egress s = Ok tt →
  (egress s ≠ EgressProfile.Restricted ↔ egress_allow s = []) ∧
  ∀ r, r ∈ egress_allow s → rule_validate r = Ok tt.
Proof.
  unfold validate_egress. intros H.
  destruct (egress s), (egress_allow s) as [|r l]; try discriminate H;
    try (split; [split; done | by intros ? ?%not_elem_of_nil]).
  destruct (_ || _); [discriminate H|]. split; [split; congruence|]. by apply check_all_Ok.
Qed.

Lemma validate_environment_Ok s :
  validate_environment s = Ok tt →
  NoDup (variable_names s) ∧
  ∀ n, n ∈ variable_names s → strip_prefix "TACHYON_" n = None ∧ n ≠ "".
Proof.
  unfold validate_environment. intros H. steps. destruct a, a0.
  destruct (adjacent_equal _) eqn:Hd; [discriminate Hk0|].
  rewrite check_all_Ok in Hm. rewrite check_all_Ok in Hm0. split; [by apply variable_names_distinct|].
  intros n [Hn|Hn]%elem_of_app; apply validate_env_name_Ok.
  - apply list_elem_of_fmap in Hn as (nv & -> & Hn). by apply Hm.
  - apply list_elem_of_In, in_map_iff in Hn as (b & <- & Hn%list_elem_of_In).
    specialize (Hm0 b Hn). steps. by destruct a.
Qed.

Lemma restore_validate_Ok s :
  restore_validate s = Ok tt → policy (restore s) ≠ RestorePolicy.Disabled →
  secrets s = [] ∧ egress s = EgressProfile.None_ ∧ synthetic_init_sample (restore s) = true.
Proof.
  unfold restore_validate, snapshot_eligibility. intros H Hp.
  destruct (policy (restore s)); [done| |]; cbn in H;
    destruct (synthetic_init_sample _), (secrets s); cbn in H; try discriminate H;
    case_bool_decide; by cbn in H.
Qed.

Lemma spec_validate_Ok limits s :
  spec_validate limits s = Ok tt → spec_ok limits s.
Proof.
  unfold spec_validate. intros H. steps.
  repeat match goal with u : unit |- _ => destruct u end.
  destruct (1024 <? _); [discriminate|]. steps.
  apply validate_resources_Ok in Hm as (? & ? & ? & ?).
  apply validate_execution_Ok in Hm0 as (? & ? & ?).
  apply validate_egress_Ok in Hm1 as [? ?]. apply validate_environment_Ok in Hm2 as [? ?].
  split; eauto using restore_validate_Ok.
Qed.

Lemma rev_transition_Ok to now r r' :
  Rev.transition to now r = Ok r' ↔
  RevisionStatus.is_terminal (rev_status r) = false ∧ Rev.allowed (rev_status r) to = true ∧
  r' = r <| rev_status := to |> <| rev_updated_at := now |>.
Proof.
  unfold Rev.transition. destruct (RevisionStatus.is_terminal _); [naive_solver|].
  destruct (Rev.allowed _ _); cbn; naive_solver.
Qed.

Lemma rev_steps_frame r r' :
  rtc rev_step r r' →
  r' = r <| rev_status := rev_status r' |> <| rev_updated_at := rev_updated_at r' |>.
Proof.
  induction 1 as [r|r1 r2 r3 [to now H] _ IH]; [by destruct r|].
  apply rev_transition_Ok in H as (_ & _ & ->). rewrite IH. by destruct r1.
Qed.

Lemma rev_steps_terminal r r' :
  rtc rev_step r r' → RevisionStatus.is_terminal (rev_status r) = true → r' = r.
Proof.
  inversion 1 as [|? r2 ? [to now H1]]; [done|]. intros Ht.
  apply rev_transition_Ok in H1 as (Hf & _). congruence.
Qed.

(** ** Properties *)

(** A specification that passes validation stays inside the platform's
    limits: memory, cpu, storage and timeouts within the configured bounds,
    one invocation per environment and at most 1000 environments, a pre-started
    pool no larger than the concurrency, allow rules exactly for the
    [restricted] profile and each of them valid, guest variables pairwise
    distinct and never in the reserved namespace, and a restore policy only for
    a synthetic revision without secrets or network. *)
Theorem validated_spec_within_limits (limits : Limits) (s : RevisionSpec) :
  spec_validate limits s = Ok tt → spec_ok limits s.
Proof. apply spec_validate_Ok. Qed.

(** a revision is an immutable publication: through any sequence of status
    changes its specification, digest, number and owners stay what [new] fixed,
    so its integrity check keeps passing, whatever the hash; the specification
    it carries was validated; and once ready or failed it never changes again. *)
Theorem revision_immutable (digest : RevisionSpec → Sha256Digest) id fn tn number spec limits now r r' :
  Rev.new digest id fn tn number spec limits now = Ok r →
  rtc rev_step r r' →
  rev_spec r' = spec ∧ rev_number r' = number ∧
  (rev_id r', rev_function_id r', rev_tenant_id r') = (id, fn, tn) ∧
  Rev.verify_integrity digest r' = Ok tt ∧ spec_ok limits (rev_spec r') ∧
  (RevisionStatus.is_terminal (rev_status r') = true → ∀ r'', rtc rev_step r' r'' → r'' = r').
Proof.
  unfold Rev.new. intros H Hrun. steps. destruct a. apply rev_steps_frame in Hrun.
  rewrite Hrun. cbn. unfold Rev.verify_integrity. cbn. rewrite bool_decide_true by done.
  split_and!; try done; [by apply spec_validate_Ok|].
  intros Ht r'' Hr''. by apply rev_steps_terminal in Hr''.
Qed.

(** ** Witnesses *)

Lemma validated_spec_within_limits_witness : spec_ok limits_default spec0.
Proof. apply (validated_spec_within_limits limits_default spec0). vm_compute. reflexivity. Defined.

Lemma revision_immutable_witness :
  Rev.verify_integrity (λ s, pretty (memory_mib (resources s)))
    (mkRevision "rev_a" "fn_a" "tn_a" 1 spec0 "256" RevisionStatus.Preparing 0 4) = Ok tt.
Proof.
  apply (revision_immutable (λ s, pretty (memory_mib (resources s))) "rev_a" "fn_a" "tn_a" 1 spec0
           limits_default 0
           (mkRevision "rev_a" "fn_a" "tn_a" 1 spec0 "256" RevisionStatus.Pending 0 0)).
  - vm_compute. reflexivity.
  - eapply rtc_l; [|apply rtc_refl]. apply (rev_step_transition _ _ RevisionStatus.Preparing 4).
    vm_compute. reflexivity.
Defined.
