(* ===== verification/Guard.v ===== *)
(** * Row guards and restart rules

    [crates/application/src/repository/guard.rs]: what every store refuses,
    whatever the service layer checked before, as functions of the stored row
    and the row being written; [crates/application/src/repository/restart.rs]:
    how the rows of a driver that is gone are settled; and the error type of
    [crates/application/src/repository/mod.rs]. *)

From S2P Require Import Prelude Ids Environment Invocation Functions Revision.

Open Scope string_scope.
Open Scope Z_scope.

(** ** Errors *)

(** [crates/application/src/repository/mod.rs:74-92 RepoError] *)
Inductive RepoError : Type :=
| NotFound (what : string)
| Conflict (message : string)
| Refused (message : string)
| Io (message : string)
| Serialization (message : string)
| Store (message : string).
#[global] Instance RepoError_eq_dec : EqDecision RepoError.
Proof. solve_decision. Defined.

(** ** Guards *)

(** [crates/application/src/repository/guard.rs:27-33 Write] *)
Inductive Write : Type := Apply | Unchanged.
#[global] Instance Write_eq_dec : EqDecision Write.
Proof. solve_decision. Defined.

(** [crates/application/src/repository/guard.rs:35-37 refuse] *)
Definition refuse {A} (msg : string) : result RepoError A := Err (Refused msg).

(** [crates/application/src/repository/guard.rs:39-47 same_tenant] *)
Definition same_tenant (kind id : string) (row parent : TenantId) : result RepoError unit :=
  if row == parent then Ok tt
  else refuse (kind +:+ " " +:+ id +:+ " belongs to another tenant than its parent").

(** [crates/application/src/repository/guard.rs:49-62 immutable] Each check says
    whether a field is the same in both rows, in the order of the macro's list. *)
Fixpoint immutable (kind id : string) (checks : list (bool * string)) : result RepoError unit :=
  match checks with
  | [] => Ok tt
  | (same, field) :: checks =>
      when! negb same return!
        refuse (kind +:+ " " +:+ id +:+ ": `" +:+ field +:+ "` is immutable");;
      immutable kind id checks
  end.

(** Whether a field is the same in the old and in the new row. *)
Definition same {R A} `{EqDecision A} (f : R → A) (old new : R) : bool := f old == f new.

(** [crates/application/src/repository/guard.rs:64-88 function_update] *)
Definition function_update (old new : FunctionDef) : result RepoError Write :=
  _ ← immutable "function" (fn_id old)
        [(same fn_id old new, "id"); (same fn_tenant_id old new, "tenant_id");
         (same fn_name old new, "name"); (same fn_created_at old new, "created_at")];
  when! old == new return! Ok Unchanged;;
  if Fn.is_deleted old then
    let only_drained := is_none (fn_drained_at old) && is_some (fn_drained_at new)
      && same fn_deleted_at old new && same fn_description old new
      && (fn_updated_at old <=? fn_updated_at new) in
    when! negb only_drained return! refuse ("function " +:+ fn_id old +:+ " is deleted");;
    Ok Apply
  else Ok Apply.

(** [crates/application/src/repository/guard.rs:90-103 revision_insert] *)
Definition revision_insert (function : option FunctionDef) (revision : FunctionRevision)
    : result RepoError unit :=
  match function with
  | Some f => same_tenant "revision" (rev_id revision) (rev_tenant_id revision) (fn_tenant_id f)
  | None => Ok tt
  end.

(** [crates/application/src/repository/guard.rs:105-132 revision_update] *)
Definition revision_update (old new : FunctionRevision) : result RepoError Write :=
  _ ← immutable "revision" (rev_id old)
        [(same rev_id old new, "id"); (same rev_function_id old new, "function_id");
         (same rev_tenant_id old new, "tenant_id"); (same rev_number old new, "number");
         (same rev_spec old new, "spec"); (same rev_spec_digest old new, "spec_digest");
         (same rev_created_at old new, "created_at")];
  when! old == new return! Ok Unchanged;;
  when! RevisionStatus.is_terminal (rev_status old) return!
    refuse ("revision " +:+ rev_id old +:+ " is " +:+ RevisionStatus.name (rev_status old)
              +:+ " and final");;
  Ok Apply.

(** [crates/application/src/repository/guard.rs:134-157 alias_target] *)
Definition alias_target (function : option FunctionDef) (revision : option FunctionRevision)
    (alias : FunctionAlias) : result RepoError unit :=
  _ ← match function with
      | Some f => same_tenant "alias" (alias_name alias) (alias_tenant_id alias) (fn_tenant_id f)
      | None => Ok tt
      end;
  match revision with
  | None => refuse ("alias `" +:+ alias_name alias +:+ "` points at revision "
                      +:+ alias_revision_id alias +:+ " which does not exist")
  | Some r =>
      when! (rev_function_id r != alias_function_id alias)
            || (rev_tenant_id r != alias_tenant_id alias) return!
        refuse ("alias `" +:+ alias_name alias +:+ "` cannot point at revision "
                  +:+ alias_revision_id alias +:+ " of another function");;
      Ok tt
  end.

(** [crates/application/src/repository/guard.rs:159-176 alias_update] *)
Definition alias_update (old new : FunctionAlias) : result RepoError unit :=
  _ ← immutable "alias" (alias_name old)
        [(same alias_function_id old new, "function_id");
         (same alias_tenant_id old new, "tenant_id"); (same alias_name old new, "name");
         (same alias_created_at old new, "created_at")];
  when! alias_generation new <=? alias_generation old return!
    refuse ("alias `" +:+ alias_name old +:+ "`: generation must advance ("
              +:+ pretty (alias_generation old) +:+ " -> " +:+ pretty (alias_generation new)
              +:+ ")");;
  Ok tt.

(** [crates/application/src/repository/guard.rs:233-251 bounded_output] *)
Definition bounded_output (invocation : Invocation) (max_inline_bytes : Z)
    : result RepoError unit :=
  match inv_output invocation with
  | Some (Inline bytes_base64 size) =>
      let encoded_max := u64_saturating_mul (div_ceil max_inline_bytes 3) 4 in
      when! (max_inline_bytes <? size) || (encoded_max <? byte_len bytes_base64) return!
        refuse ("invocation " +:+ inv_id invocation +:+ ": inline output of " +:+ pretty size
                  +:+ " bytes exceeds " +:+ pretty max_inline_bytes +:+ " bytes");;
      Ok tt
  | _ => Ok tt
  end.

(** [crates/application/src/repository/guard.rs:178-192 invocation_insert] *)
Definition invocation_insert (function : option FunctionDef) (invocation : Invocation)
    (max_inline_bytes : Z) : result RepoError unit :=
  _ ← match function with
      | Some f => same_tenant "invocation" (inv_id invocation) (inv_tenant_id invocation)
                    (fn_tenant_id f)
      | None => Ok tt
      end;
  bounded_output invocation max_inline_bytes.

(** [crates/application/src/repository/guard.rs:194-231 invocation_update] *)
Definition invocation_update (old new : Invocation) (max_inline_bytes : Z)
    : result RepoError Write :=
  _ ← immutable "invocation" (inv_id old)
        [(same inv_id old new, "id"); (same inv_tenant_id old new, "tenant_id");
         (same inv_function_id old new, "function_id"); (same inv_alias old new, "alias");
         (same inv_mode old new, "mode"); (same inv_event_kind old new, "event_kind");
         (same inv_idempotency_key old new, "idempotency_key");
         (same inv_input_digest old new, "input_digest");
         (same inv_input_size_bytes old new, "input_size_bytes");
         (same inv_trace_id old new, "trace_id"); (same inv_accepted_at old new, "accepted_at");
         (same inv_dispatcher_id old new, "dispatcher_id")];
  when! old == new return! Ok Unchanged;;
  when! InvocationStatus.is_terminal (inv_status old) return!
    refuse ("invocation " +:+ inv_id old +:+ " is " +:+ InvocationStatus.name (inv_status old)
              +:+ " and final");;
  _ ← bounded_output new max_inline_bytes;
  Ok Apply.

(** [crates/application/src/repository/guard.rs:253-266 attempt_insert] *)
Definition attempt_insert (invocation : option Invocation) (attempt : InvocationAttempt)
    : result RepoError unit :=
  match invocation with
  | Some inv => same_tenant "attempt" (att_id attempt) (att_tenant_id attempt) (inv_tenant_id inv)
  | None => Ok tt
  end.

(** [crates/application/src/repository/guard.rs:268-299 attempt_update] *)
Definition attempt_update (old new : InvocationAttempt) : result RepoError Write :=
  _ ← immutable "attempt" (att_id old)
        [(same att_id old new, "id"); (same att_invocation_id old new, "invocation_id");
         (same att_tenant_id old new, "tenant_id"); (same att_number old new, "number");
         (same att_environment_id old new, "environment_id"); (same att_epoch old new, "epoch");
         (same att_start_kind old new, "start_kind");
         (same att_dispatched_at old new, "dispatched_at")];
  when! old == new return! Ok Unchanged;;
  when! AttemptStatus.is_terminal (att_status old) return!
    refuse ("attempt " +:+ att_id old +:+ " is " +:+ AttemptStatus.name (att_status old)
              +:+ " and final");;
  Ok Apply.

(** [crates/application/src/repository/guard.rs:301-315 environment_insert] *)
Definition environment_insert (revision : option FunctionRevision) (env : ExecutionEnvironment)
    : result RepoError unit :=
  when! (key_tenant_id (env_reuse_key env) != env_tenant_id env)
        || (key_revision_id (env_reuse_key env) != env_revision_id env) return!
    refuse ("environment " +:+ env_id env
              +:+ ": its reuse key names another tenant or revision");;
  match revision with
  | Some r => same_tenant "environment" (env_id env) (env_tenant_id env) (rev_tenant_id r)
  | None => Ok tt
  end.

(** [crates/application/src/repository/guard.rs:317-339 environment_identity] *)
Definition environment_identity (old new : ExecutionEnvironment) : result RepoError unit :=
  immutable "environment" (env_id old)
    [(same env_id old new, "id"); (same env_tenant_id old new, "tenant_id");
     (same env_revision_id old new, "revision_id"); (same env_provider old new, "provider");
     (same env_reuse_key old new, "reuse_key"); (same env_owner old new, "owner");
     (same env_created_at old new, "created_at")].

(** [crates/application/src/repository/guard.rs:341-379 environment_update] *)
Definition environment_update (old new : ExecutionEnvironment) : result RepoError Write :=
  _ ← environment_identity old new;
  when! old == new return! Ok Unchanged;;
  when! Env.is_terminal old return!
    refuse ("environment " +:+ env_id old +:+ " is " +:+ EnvironmentState.name (env_state old)
              +:+ " and final");;
  when! negb (env_epoch old =? env_epoch new) return!
    refuse ("environment " +:+ env_id old +:+ ": stale copy at epoch " +:+ pretty (env_epoch new)
              +:+ " (stored epoch " +:+ pretty (env_epoch old) +:+ ")");;
  when! negb (same env_fenced_at old new) return!
    refuse ("environment " +:+ env_id old +:+ ": fencing only changes through a reclaim");;
  when! EnvironmentState.is_busy (env_state new) && negb (EnvironmentState.is_busy (env_state old))
  return!
    refuse ("environment " +:+ env_id old
              +:+ ": an environment only becomes busy by acquiring a slot");;
  Ok Apply.

(** [crates/application/src/repository/guard.rs:381-389 lease_insert] *)
Definition lease_insert (env : option ExecutionEnvironment) (lease : ExecutionLease)
    : result RepoError unit :=
  match env with
  | Some e => same_tenant "lease" (lease_id lease) (lease_tenant_id lease) (env_tenant_id e)
  | None => Ok tt
  end.

(** [crates/application/src/repository/guard.rs:391-415 lease_update] *)
Definition lease_update (old new : ExecutionLease) : result RepoError Write :=
  _ ← immutable "lease" (lease_id old)
        [(same lease_id old new, "id"); (same lease_environment_id old new, "environment_id");
         (same lease_attempt_id old new, "attempt_id"); (same lease_tenant_id old new, "tenant_id");
         (same lease_epoch old new, "epoch"); (same lease_acquired_at old new, "acquired_at");
         (same lease_deadline old new, "deadline"); (same lease_owner old new, "owner")];
  when! old == new return! Ok Unchanged;;
  when! is_some (lease_released_at old) return!
    refuse ("lease " +:+ lease_id old +:+ " is released");;
  Ok Apply.

(** ** Settling rows whose driver is gone *)

(** [crates/application/src/repository/restart.rs:17-18 HOST_RESTARTED] *)
Definition HOST_RESTARTED : string := "Host.Restarted".
(** [crates/application/src/repository/restart.rs:19-20 HOST_LEASE_EXPIRED] *)
Definition HOST_LEASE_EXPIRED : string := "Host.LeaseExpired".

(** [crates/application/src/repository/restart.rs:22-32 Cause] *)
Record Cause := mkCause {
  cause_error_type : string;
  cause_not_started : string;
  cause_unknown : string;
  cause_attempt : string
}.
#[global] Instance Cause_eq_dec : EqDecision Cause.
Proof. solve_decision. Defined.

(** [crates/application/src/repository/restart.rs:35-40 RESTARTED] *)
Definition RESTARTED : Cause :=
  mkCause HOST_RESTARTED
    "gateway restarted while the invocation was in flight"
    "gateway restarted after the invocation was dispatched; the handler may have run"
    "gateway restarted while the attempt was in flight".

(** [crates/application/src/repository/restart.rs:41-46 LEASE_EXPIRED] *)
Definition LEASE_EXPIRED : Cause :=
  mkCause HOST_LEASE_EXPIRED
    "the dispatcher that accepted the invocation lost its lease before dispatching it"
    "the dispatcher lost its lease after the invocation was dispatched; the handler may have run"
    "the dispatcher lost its lease while the attempt was in flight".

(** The value a failed [&mut self] call leaves behind, when its result is dropped. *)
Definition or_unchanged {A} (old : A) (r : result DomainError A) : A :=
  match r with Ok new => new | Err _ => old end.

(** [crates/application/src/repository/restart.rs:58-82 settle_invocation_with] The
    [bool] says whether the invocation changed. *)
Definition settle_invocation_with (inv : Invocation) (cause : Cause) (now : Timestamp)
    : Invocation * bool :=
  when! InvocationStatus.is_terminal (inv_status inv) return! (inv, false);;
  match inv_status inv with
  | InvocationStatus.Running =>
      match Inv.mark_outcome_unknown (cause_unknown cause) now inv with
      | Ok inv' =>
          match inv_status inv' with
          | InvocationStatus.OutcomeUnknown e =>
              (inv' <| inv_status := InvocationStatus.OutcomeUnknown
                         (mkInvError (err_class e) (cause_error_type cause) (err_message e)) |>,
               true)
          | _ => (inv', true)
          end
      | Err _ => (inv, true)
      end
  | _ =>
      (or_unchanged inv (Inv.mark_failed
         (mkInvError ErrorClass.PlatformError (cause_error_type cause) (cause_not_started cause))
         now inv), true)
  end.

(** [crates/application/src/repository/restart.rs:49-56 settle_invocation] *)
Definition settle_invocation (inv : Invocation) (now : Timestamp) : Invocation * bool :=
  settle_invocation_with inv RESTARTED now.

(** [crates/application/src/repository/restart.rs:94-116 settle_attempt_with] *)
Definition settle_attempt_with (att : InvocationAttempt) (invocation_outcome_unknown : bool)
    (cause : Cause) (now : Timestamp) : InvocationAttempt * bool :=
  when! AttemptStatus.is_terminal (att_status att) return! (att, false);;
  if invocation_outcome_unknown then
    (or_unchanged att (Att.outcome_unknown
       (mkInvError ErrorClass.OutcomeUnknown (cause_error_type cause) (cause_unknown cause))
       now att), true)
  else
    (or_unchanged att (Att.fail
       (mkInvError ErrorClass.PlatformError (cause_error_type cause) (cause_attempt cause))
       now att), true).

(** [crates/application/src/repository/restart.rs:84-92 settle_attempt] *)
Definition settle_attempt (att : InvocationAttempt) (invocation_outcome_unknown : bool)
    (now : Timestamp) : InvocationAttempt * bool :=
  settle_attempt_with att invocation_outcome_unknown RESTARTED now.

(** [crates/application/src/repository/restart.rs:118-127 settle_environment] *)
Definition settle_environment (env : ExecutionEnvironment) (now : Timestamp)
    : ExecutionEnvironment * bool :=
  when! Env.is_terminal env return! (env, false);;
  (or_unchanged env (Env.mark_lost "gateway restarted" now env), true).

(** [crates/application/src/repository/restart.rs:129-133 settle_lease] *)
Definition settle_lease (lease : ExecutionLease) (now : Timestamp) : ExecutionLease * bool :=
  when! negb (is_none (lease_released_at lease)) return! (lease, false);;
  match Lse.release now lease with
  | Ok lease' => (lease', true)
  | Err _ => (lease, false)
  end.

(** [crates/application/src/repository/restart.rs:150-152 is_outcome_unknown] *)
Definition is_outcome_unknown (inv : Invocation) : bool :=
  match inv_status inv with InvocationStatus.OutcomeUnknown _ => true | _ => false end.

(** [crates/application/src/repository/restart.rs:135-142 survives_dispatcher] *)
Definition survives_dispatcher (inv : Invocation) : bool := inv_mode inv == Async.

(** [crates/application/src/repository/restart.rs:144-148 attempts_unknown] *)
Definition attempts_unknown (inv : Invocation) : bool :=
  is_outcome_unknown inv || match inv_status inv with InvocationStatus.Running => true | _ => false end.

#[global] Arguments environment_identity : simpl never.
#[global] Arguments environment_update : simpl never.
#[global] Arguments environment_insert : simpl never.
#[global] Arguments invocation_update : simpl never.
#[global] Arguments invocation_insert : simpl never.
#[global] Arguments attempt_update : simpl never.
#[global] Arguments attempt_insert : simpl never.
#[global] Arguments revision_update : simpl never.
#[global] Arguments function_update : simpl never.
#[global] Arguments alias_update : simpl never.
#[global] Arguments alias_target : simpl never.
#[global] Arguments lease_insert : simpl never.
#[global] Arguments settle_invocation_with : simpl never.
#[global] Arguments settle_attempt_with : simpl never.

(** ** Lemmas *)

Lemma immutable_Ok kind id checks :
  immutable kind id checks = Ok tt ↔ Forall (λ c, c.1 = true) checks.
Proof.
  induction checks as [|[b f] checks IH]; cbn; [by split|].
  rewrite Forall_cons, <-IH. destruct b; cbn; split; [done|tauto|done|by intros [? _]].
Qed.

Lemma same_tenant_Ok kind id row parent : same_tenant kind id row parent = Ok tt ↔ row = parent.
Proof. unfold same_tenant, refuse. case_bool_decide; split; congruence. Qed.

(** Reads the fields an [immutable] guard compared. *)
Ltac identity H :=
  apply immutable_Ok in H; rewrite ?Forall_cons in H; unfold same in H; cbn in H; destruct_and! H;
  repeat match goal with E : bool_decide _ = true |- _ => apply bool_decide_eq_true in E end.

Record env_identity (old new : ExecutionEnvironment) : Prop := {
  ei_id : env_id new = env_id old;
  ei_tenant : env_tenant_id new = env_tenant_id old;
  ei_revision : env_revision_id new = env_revision_id old;
  ei_provider : env_provider new = env_provider old;
  ei_key : env_reuse_key new = env_reuse_key old;
  ei_owner : env_owner new = env_owner old;
  ei_created : env_created_at new = env_created_at old
}.

Lemma env_identity_refl e : env_identity e e.
Proof. by split. Qed.

Lemma environment_identity_Ok old new :
  environment_identity old new = Ok tt ↔ env_identity old new.
Proof.
  unfold environment_identity. split.
  - intros H. identity H. by split.
  - intros []. apply immutable_Ok. unfold same. repeat constructor; cbn; by apply bool_decide_eq_true.
Qed.

Lemma environment_update_Ok old new w :
  environment_update old new = Ok w →
  env_identity old new ∧ env_epoch new = env_epoch old ∧ env_fenced_at new = env_fenced_at old ∧
  (w = Unchanged ∧ new = old ∨
   w = Apply ∧ Env.is_terminal old = false ∧
   (env_state new = EnvironmentState.Busy → env_state old = EnvironmentState.Busy)).
Proof.
  unfold environment_update, same. intros H. steps. destruct a.
  apply environment_identity_Ok in Hm.
  case_bool_decide as Heq; [subst; steps; split_and!; auto|].
  destruct (Env.is_terminal old); [done|].
  destruct (Z.eqb_spec (env_epoch old) (env_epoch new)); cbn in Hk; [|done].
  case_bool_decide; cbn in Hk; [|done].
  destruct (_ && _) eqn:Hb in Hk; [done|]. injection Hk as <-.
  split_and!; try done. right. split_and!; try done. intros Hn. rewrite Hn in Hb. cbn in Hb.
  by destruct (env_state old).
Qed.

Lemma invocation_update_Ok old new max w :
  invocation_update old new max = Ok w →
  inv_id new = inv_id old ∧ inv_tenant_id new = inv_tenant_id old ∧
  inv_function_id new = inv_function_id old ∧
  inv_idempotency_key new = inv_idempotency_key old ∧
  inv_dispatcher_id new = inv_dispatcher_id old ∧ inv_mode new = inv_mode old ∧
  inv_input_digest new = inv_input_digest old ∧ inv_accepted_at new = inv_accepted_at old ∧
  (w = Unchanged ∧ new = old ∨
   w = Apply ∧ InvocationStatus.is_terminal (inv_status old) = false ∧
   bounded_output new max = Ok tt).
Proof.
  unfold invocation_update. intros H. steps. destruct a. identity Hm.
  case_bool_decide as Heq; [subst; steps; split_and!; auto|].
  destruct (InvocationStatus.is_terminal _); [done|]. steps. destruct a.
  split_and!; auto.
Qed.

Lemma attempt_update_Ok old new w :
  attempt_update old new = Ok w →
  att_id new = att_id old ∧ att_invocation_id new = att_invocation_id old ∧
  att_tenant_id new = att_tenant_id old ∧ att_environment_id new = att_environment_id old ∧
  att_epoch new = att_epoch old ∧ att_number new = att_number old ∧
  (w = Unchanged ∧ new = old ∨
   w = Apply ∧ AttemptStatus.is_terminal (att_status old) = false).
Proof.
  unfold attempt_update. intros H. steps. destruct a. identity Hm.
  case_bool_decide as Heq; [subst; steps; split_and!; auto|].
  destruct (AttemptStatus.is_terminal _); [done|]. steps. split_and!; auto.
Qed.

Lemma revision_update_Ok old new w :
  revision_update old new = Ok w →
  rev_id new = rev_id old ∧ rev_function_id new = rev_function_id old ∧
  rev_tenant_id new = rev_tenant_id old ∧ rev_number new = rev_number old ∧
  rev_spec new = rev_spec old ∧ rev_spec_digest new = rev_spec_digest old ∧
  (w = Unchanged ∧ new = old ∨
   w = Apply ∧ RevisionStatus.is_terminal (rev_status old) = false).
Proof.
  unfold revision_update. intros H. steps. destruct a. identity Hm.
  case_bool_decide as Heq; [subst; steps; split_and!; auto|].
  destruct (RevisionStatus.is_terminal _); [done|]. steps. split_and!; auto.
Qed.

Lemma lease_update_Ok old new w :
  lease_update old new = Ok w →
  lease_id new = lease_id old ∧ lease_environment_id new = lease_environment_id old ∧
  lease_attempt_id new = lease_attempt_id old ∧ lease_tenant_id new = lease_tenant_id old ∧
  lease_epoch new = lease_epoch old ∧ lease_owner new = lease_owner old ∧
  (w = Unchanged ∧ new = old ∨ w = Apply ∧ lease_released_at old = None).
Proof.
  unfold lease_update. intros H. steps. destruct a. identity Hm.
  case_bool_decide as Heq; [subst; steps; split_and!; auto|].
  destruct (lease_released_at old) eqn:Hr; cbn in Hk; [done|]. steps. split_and!; auto.
Qed.

(** Settling a row uses the domain's own transitions, and always ends it. *)
Lemma settle_invocation_with_spec inv cause now inv' b :
  settle_invocation_with inv cause now = (inv', b) →
  (InvocationStatus.is_terminal (inv_status inv) = true ∧ b = false ∧ inv' = inv) ∨
  (InvocationStatus.is_terminal (inv_status inv) = false ∧ b = true ∧
   inv' = inv <| inv_status := inv_status inv' |> <| inv_finished_at := Some now |> ∧
   InvocationStatus.is_terminal (inv_status inv') = true ∧
   (is_outcome_unknown inv' = true ↔ inv_status inv = InvocationStatus.Running)).
Proof.
  unfold settle_invocation_with, Inv.mark_outcome_unknown, Inv.mark_failed,
    Inv.ensure_not_terminal, is_outcome_unknown.
  destruct inv as [? ? ? ? ? ? ? ? st ? ? ? ? ? ? ? ? ? ? ? ?]. cbn.
  destruct st; cbn; intros [= <- <-]; cbn; auto; right; repeat split; intros; congruence.
Qed.

Lemma settle_attempt_with_spec att unknown cause now att' b :
  settle_attempt_with att unknown cause now = (att', b) →
  (AttemptStatus.is_terminal (att_status att) = true ∧ b = false ∧ att' = att) ∨
  (AttemptStatus.is_terminal (att_status att) = false ∧ b = true ∧
   att' = att <| att_status := att_status att' |> <| att_finished_at := Some now |> ∧
   AttemptStatus.is_terminal (att_status att') = true).
Proof.
  unfold settle_attempt_with, Att.outcome_unknown, Att.fail, Att.finish.
  destruct att as [? ? ? ? ? ? st ? ? ? ?]. cbn.
  destruct st; cbn; [|intros [= <- <-]; auto ..].
  destruct unknown; cbn; intros [= <- <-]; right; done.
Qed.

(** The guard of an invocation row does not compare [revision_id], although the
    revision is documented as fixed at acceptance. *)
Example invocation_update_repins :
  invocation_update inv0 (inv0 <| inv_revision_id := "rev_b" |>) 100 = Ok Apply.
Proof. vm_compute. reflexivity. Qed.

(** ** Properties *)

(** whatever row a caller hands to the store, a write the guards accept keeps
    the row's identity (ids, tenant, parents, epoch, spec and digest), and a
    final row (a terminal invocation, attempt or environment, a ready or failed
    revision, a released lease) is accepted only unchanged; an environment is
    never made busy, moved to another epoch, fenced or unfenced by a plain
    update. *)
Theorem guards_protect_rows :
  (∀ old new w, environment_update old new = Ok w →
     env_identity old new ∧ env_epoch new = env_epoch old ∧ env_fenced_at new = env_fenced_at old ∧
     (Env.is_terminal old = true → new = old) ∧
     (env_state new = EnvironmentState.Busy → env_state old = EnvironmentState.Busy)) ∧
  (∀ old new max w, invocation_update old new max = Ok w →
     (inv_id new, inv_tenant_id new, inv_function_id new, inv_dispatcher_id new) =
       (inv_id old, inv_tenant_id old, inv_function_id old, inv_dispatcher_id old) ∧
     (InvocationStatus.is_terminal (inv_status old) = true → new = old)) ∧
  (∀ old new w, attempt_update old new = Ok w →
     (att_id new, att_invocation_id new, att_tenant_id new, att_environment_id new, att_epoch new)
       = (att_id old, att_invocation_id old, att_tenant_id old, att_environment_id old, att_epoch old) ∧
     (AttemptStatus.is_terminal (att_status old) = true → new = old)) ∧
  (∀ old new w, revision_update old new = Ok w →
     (rev_id new, rev_function_id new, rev_tenant_id new, rev_number new, rev_spec new,
      rev_spec_digest new) =
       (rev_id old, rev_function_id old, rev_tenant_id old, rev_number old, rev_spec old,
        rev_spec_digest old) ∧
     (RevisionStatus.is_terminal (rev_status old) = true → new = old)) ∧
  (∀ old new w, lease_update old new = Ok w →
     (lease_id new, lease_environment_id new, lease_attempt_id new, lease_epoch new, lease_owner new)
       = (lease_id old, lease_environment_id old, lease_attempt_id old, lease_epoch old,
          lease_owner old) ∧
     (lease_released_at old ≠ None → new = old)).
Proof.
  split_and!.
  - intros old new w H%environment_update_Ok. destruct_and! H. split_and!; try done.
    + intros Ht. destruct_or!; destruct_and!; congruence.
    + destruct_or!; destruct_and!; subst; auto.
  - intros old new max w H%invocation_update_Ok. destruct_and! H.
    split; [congruence|]. intros Ht. destruct_or!; destruct_and!; congruence.
  - intros old new w H%attempt_update_Ok. destruct_and! H.
    split; [congruence|]. intros Ht. destruct_or!; destruct_and!; congruence.
  - intros old new w H%revision_update_Ok. destruct_and! H.
    split; [congruence|]. intros Ht. destruct_or!; destruct_and!; congruence.
  - intros old new w H%lease_update_Ok. destruct_and! H.
    split; [congruence|]. intros Ht. destruct_or!; destruct_and!; congruence.
Qed.

(** settling the rows of a driver that is gone is honest about execution: an
    invocation is reported as of unknown outcome exactly when it had been
    dispatched ([Running]), as a plain platform failure exactly when it provably
    never started, and an invocation or attempt that already ended is left
    untouched; settling a second time changes nothing. *)
Theorem restart_settles_honestly (inv inv' : Invocation) (cause : Cause) (now : Timestamp) b :
  settle_invocation_with inv cause now = (inv', b) →
  InvocationStatus.is_terminal (inv_status inv') = true ∧
  (b = false ↔ InvocationStatus.is_terminal (inv_status inv) = true) ∧
  (b = false → inv' = inv) ∧
  (b = true → (is_outcome_unknown inv' = true ↔ inv_status inv = InvocationStatus.Running) ∧
     (inv_id inv', inv_attempt_ids inv', inv_output inv') =
       (inv_id inv, inv_attempt_ids inv, inv_output inv)) ∧
  ∀ cause2 now2, settle_invocation_with inv' cause2 now2 = (inv', false).
Proof.
  intros H%settle_invocation_with_spec. split_and!.
  - destruct_or!; destruct_and!; congruence.
  - destruct_or!; destruct_and!; split; congruence.
  - destruct_or!; destruct_and!; congruence.
  - destruct_or! H; destruct_and! H; [congruence|]. intros _. split; [done|].
    match goal with E : inv' = _ |- _ => rewrite E end. done.
  - intros cause2 now2. unfold settle_invocation_with.
    destruct_or! H; destruct_and! H; subst;
      match goal with E : InvocationStatus.is_terminal _ = true |- _ => by rewrite E end.
Qed.

(** ** Witnesses *)

Lemma restart_settles_honestly_witness :
  settle_invocation_with (settle_invocation_with inv_running RESTARTED 9).1 LEASE_EXPIRED 10
    = ((settle_invocation_with inv_running RESTARTED 9).1, false).
Proof.
  apply (restart_settles_honestly inv_running _ RESTARTED 9 true). vm_compute. reflexivity.
Defined.
