(* ===== verification/Slot.v ===== *)
(** * The slot port

    [crates/application/src/repository/slot.rs]: dispatchers, the requests and
    outcomes of the slot operations, and the checks every store shares before
    it acquires a slot or accepts a completion. *)

From S2P Require Import Prelude Ids Environment Invocation Functions Revision Guard.

Open Scope string_scope.
Open Scope Z_scope.

(** ** Data *)

(** [crates/application/src/repository/slot.rs:41-61 DispatcherRecord] *)
Record DispatcherRecord := mkDispatcher {
  disp_id : DispatcherId;
  disp_instance : string;
  disp_hostname : string;
  disp_pid : Z;
  disp_started_at : Timestamp;
  disp_heartbeat_at : Timestamp;
  disp_lease_expires_at : Timestamp;
  disp_stopped_at : option Timestamp;
  disp_reclaimed_at : option Timestamp
}.
#[global] Instance DispatcherRecord_eq_dec : EqDecision DispatcherRecord.
Proof. solve_decision. Defined.
#[global] Instance DispatcherRecord_eta : Eta DispatcherRecord := λ r,
  mkDispatcher (disp_id r) (disp_instance r) (disp_hostname r) (disp_pid r) (disp_started_at r)
    (disp_heartbeat_at r) (disp_lease_expires_at r) (disp_stopped_at r) (disp_reclaimed_at r).

Module Disp.
(** [crates/application/src/repository/slot.rs:64-68 is_live] *)
Definition is_live (d : DispatcherRecord) : bool :=
  is_none (disp_stopped_at d) && is_none (disp_reclaimed_at d).

(** [crates/application/src/repository/slot.rs:70-73 is_expired] *)
Definition is_expired (now : Timestamp) (skew : Duration) (d : DispatcherRecord) : bool :=
  disp_lease_expires_at d + skew <=? now.
End Disp.

(** [crates/application/src/repository/slot.rs:76-91 SlotAcquire] *)
Record SlotAcquire := mkAcquire {
  acq_env : ExecutionEnvironment;
  acq_expected_epoch : Z;
  acq_lease : ExecutionLease;
  acq_attempt : InvocationAttempt;
  acq_invocation : option Invocation
}.

Module AcquireOutcome.
(** [crates/application/src/repository/slot.rs:93-101 AcquireOutcome] *)
Inductive t : Type := Acquired | Lost (reason : string).
#[global] Instance eq_dec : EqDecision t.
Proof. solve_decision. Defined.
End AcquireOutcome.

(** [crates/application/src/repository/slot.rs:103-113 SlotCompletion] *)
Record SlotCompletion := mkCompletion {
  cmp_lease_id : LeaseId;
  cmp_attempt : InvocationAttempt;
  cmp_invocation : option Invocation;
  cmp_now : Timestamp
}.

Module CompletionOutcome.
(** [crates/application/src/repository/slot.rs:115-123 CompletionOutcome] *)
Inductive t : Type := Accepted | Stale (reason : string).
#[global] Instance eq_dec : EqDecision t.
Proof. solve_decision. Defined.
End CompletionOutcome.

Module HeartbeatOutcome.
(** [crates/application/src/repository/slot.rs:125-132 HeartbeatOutcome] *)
Inductive t : Type := Renewed (leases : nat) | Fenced.
#[global] Instance eq_dec : EqDecision t.
Proof. solve_decision. Defined.
End HeartbeatOutcome.

(** [crates/application/src/repository/slot.rs:134-145 ReclaimRequest] *)
Record ReclaimRequest := mkReclaim {
  req_reclaimer : DispatcherId;
  req_now : Timestamp;
  req_skew : Duration;
  req_presumed_dead : list DispatcherId
}.

(** [crates/application/src/repository/slot.rs:147-158 ReclaimReport] *)
Record ReclaimReport := mkReport {
  rep_dispatchers : list DispatcherId;
  rep_leases : nat;
  rep_invocations : nat;
  rep_attempts : nat;
  rep_fenced : list ExecutionEnvironment
}.
#[global] Instance ReclaimReport_eta : Eta ReclaimReport := λ r,
  mkReport (rep_dispatchers r) (rep_leases r) (rep_invocations r) (rep_attempts r) (rep_fenced r).
Definition report_default : ReclaimReport := mkReport [] 0 0 0 [].

(** [crates/application/src/repository/slot.rs:161-167 is_empty] *)
Definition report_is_empty (r : ReclaimReport) : bool :=
  match rep_dispatchers r, rep_leases r, rep_invocations r, rep_attempts r, rep_fenced r with
  | [], O, O, O, [] => true
  | _, _, _, _, _ => false
  end.

(** [crates/application/src/repository/mod.rs:159-166 PoolLimits] *)
Record PoolLimits := mkPoolLimits { max_idle_per_key : nat; max_total_idle : nat }.

(** ** Shared checks *)

(** [crates/application/src/repository/slot.rs:324-403 acquire_preconditions] *)
Definition acquire_preconditions (request : SlotAcquire) (stored : option ExecutionEnvironment)
    : result RepoError (option string) :=
  let env := acq_env request in
  let lease := acq_lease request in
  let attempt := acq_attempt request in
  let new_epoch := u64_add (acq_expected_epoch request) 1 in
  let malformed (what : string) :=
    refuse ("acquire of environment " +:+ env_id env +:+ ": " +:+ what) in
  when! negb (env_epoch env =? new_epoch) || negb (lease_epoch lease =? new_epoch)
        || negb (att_epoch attempt =? new_epoch) return!
    malformed ("environment, lease and attempt must all be at epoch " +:+ pretty new_epoch);;
  when! (lease_environment_id lease != env_id env) || (att_environment_id attempt != env_id env)
  return! malformed "lease or attempt names another environment";;
  when! lease_attempt_id lease != att_id attempt return!
    malformed "lease is for another attempt";;
  when! is_none (lease_owner lease) || is_none (lease_expires_at lease)
        || is_some (lease_released_at lease) return!
    malformed "the lease needs an owner and an expiry";;
  when! negb (EnvironmentState.is_busy (env_state env)) return!
    malformed "the written row must be busy";;
  match stored with
  | None => Err (NotFound ("environment " +:+ env_id env))
  | Some stored =>
      _ ← environment_identity stored env;
      when! env_owner stored != lease_owner lease return!
        Ok (Some ("environment " +:+ env_id env +:+ " is owned by another dispatcher"));;
      when! Env.is_terminal stored || Env.is_fenced stored return!
        Ok (Some ("environment " +:+ env_id env +:+ " is "
          +:+ (if Env.is_fenced stored then "fenced" else EnvironmentState.name (env_state stored))));;
      when! negb (env_epoch stored =? acq_expected_epoch request) return!
        Ok (Some ("environment " +:+ env_id env +:+ " moved to epoch "
          +:+ pretty (env_epoch stored) +:+ " (expected " +:+ pretty (acq_expected_epoch request)
          +:+ ")"));;
      when! negb (Env.is_reusable stored) return!
        Ok (Some ("environment " +:+ env_id env +:+ " is "
          +:+ EnvironmentState.name (env_state stored) +:+ ", not ready or idle"));;
      Ok None
  end.

(** [crates/application/src/repository/slot.rs:405-434 lease_is_current] [Some reason]
    when the lease is stale. *)
Definition lease_is_current (lease : option ExecutionLease) (attempt : AttemptId) (epoch : Z)
    (env : option ExecutionEnvironment) : option string :=
  match lease with
  | None => Some "lease not found"
  | Some lease =>
      when! is_some (lease_released_at lease) return!
        Some ("lease " +:+ lease_id lease +:+ " is already released");;
      when! negb (Lse.accepts attempt epoch lease) return!
        Some ("lease " +:+ lease_id lease +:+ " is for attempt " +:+ lease_attempt_id lease
          +:+ " at epoch " +:+ pretty (lease_epoch lease) +:+ ", not " +:+ attempt
          +:+ " at epoch " +:+ pretty epoch);;
      match env with
      | Some env =>
          if negb (env_epoch env =? epoch) then
            Some ("environment " +:+ env_id env +:+ " moved to epoch " +:+ pretty (env_epoch env)
              +:+ " (completion carries " +:+ pretty epoch +:+ ")")
          else if Env.is_fenced env then
            Some ("environment " +:+ env_id env +:+ " is fenced")
          else None
      | None => None
      end
  end.

(** ** Lemmas *)

(** What a request that passes the preconditions looks like. *)
Record acquirable (r : SlotAcquire) (stored : ExecutionEnvironment) : Prop := {
  aq_env_epoch : env_epoch (acq_env r) = u64_add (acq_expected_epoch r) 1;
  aq_lease_epoch : lease_epoch (acq_lease r) = u64_add (acq_expected_epoch r) 1;
  aq_att_epoch : att_epoch (acq_attempt r) = u64_add (acq_expected_epoch r) 1;
  aq_lease_env : lease_environment_id (acq_lease r) = env_id (acq_env r);
  aq_att_env : att_environment_id (acq_attempt r) = env_id (acq_env r);
  aq_att : lease_attempt_id (acq_lease r) = att_id (acq_attempt r);
  aq_owner : lease_owner (acq_lease r) ≠ None;
  aq_expiry : lease_expires_at (acq_lease r) ≠ None;
  aq_unreleased : lease_released_at (acq_lease r) = None;
  aq_busy : env_state (acq_env r) = EnvironmentState.Busy;
  aq_identity : env_identity stored (acq_env r);
  aq_same_owner : env_owner stored = lease_owner (acq_lease r);
  aq_epoch : env_epoch stored = acq_expected_epoch r;
  aq_not_fenced : env_fenced_at stored = None;
  aq_state : env_state stored = EnvironmentState.Ready ∨ env_state stored = EnvironmentState.Idle
}.

Lemma is_reusable_spec e :
  Env.is_reusable e = true ↔
  env_fenced_at e = None ∧
  (env_state e = EnvironmentState.Ready ∨ env_state e = EnvironmentState.Idle).
Proof.
  unfold Env.is_reusable. rewrite andb_true_iff, orb_true_iff, is_none_true.
  assert (∀ s, EnvironmentState.is_ready s = true ↔ s = EnvironmentState.Ready) as -> by by intros [].
  assert (∀ s, EnvironmentState.is_idle s = true ↔ s = EnvironmentState.Idle) as -> by by intros [].
  done.
Qed.

Lemma acquire_preconditions_None r stored :
  acquire_preconditions r stored = Ok None ↔ ∃ e, stored = Some e ∧ acquirable r e.
Proof.
  unfold acquire_preconditions, refuse. split.
  - intros H. do 5 pass H. destruct stored as [e|]; [|discriminate H]. exists e. split; [done|].
    steps. destruct a. do 4 pass Hk. apply environment_identity_Ok in Hm.
    bools.
    match goal with E : Env.is_reusable e = true |- _ => apply is_reusable_spec in E as [? ?] end.
    split; try done; try congruence.
    by destruct (env_state (acq_env r)).
  - intros (e & -> & []).
    assert (env_owner e ≠ None) as Ho by congruence.
    repeat match goal with
    | |- context [negb (?a =? ?b)] => replace (a =? b) with true by (symmetry; apply Z.eqb_eq; congruence)
    | |- context [?a != ?b] => rewrite (bool_decide_true (a = b)) by congruence
    end. cbn.
    apply is_none_false in aq_owner0, aq_expiry0. rewrite aq_owner0, aq_expiry0, aq_unreleased0, aq_busy0.
    cbn. apply environment_identity_Ok in aq_identity0. rewrite aq_identity0. cbn.
    assert (Env.is_terminal e || Env.is_fenced e = false) as ->.
    { unfold Env.is_terminal, Env.is_fenced. rewrite aq_not_fenced0. by destruct aq_state0 as [-> | ->]. }
    by rewrite (proj2 (is_reusable_spec e)).
Qed.

(** The lease under which a completion is accepted. *)
Lemma lease_is_current_None lease attempt epoch env :
  lease_is_current lease attempt epoch env = None ↔
  ∃ l, lease = Some l ∧ lease_released_at l = None ∧ lease_attempt_id l = attempt ∧
    lease_epoch l = epoch ∧
    ∀ e, env = Some e → env_epoch e = epoch ∧ env_fenced_at e = None.
Proof.
  unfold lease_is_current, Lse.accepts. destruct lease as [l|]; [|naive_solver].
  destruct (lease_released_at l) as [t|] eqn:Hr; cbn; [naive_solver|].
  case_bool_decide as Ha; cbn; [|naive_solver].
  destruct (Z.eqb_spec (lease_epoch l) epoch) as [Hep|Hep]; cbn; [|naive_solver].
  destruct env as [e|]; [|naive_solver].
  destruct (Z.eqb_spec (env_epoch e) epoch); cbn; [|naive_solver].
  unfold Env.is_fenced. destruct (env_fenced_at e) eqn:Hf; cbn; naive_solver.
Qed.
