(* ===== verification/Store.v ===== *)
(** * The store: control-plane rows

    The volatile store of [crates/application/src/repository/memory.rs], whose
    semantics every other store shares: its state behind one lock, and the
    operations on functions, revisions, aliases, invocations, attempts,
    idempotency keys, artifact owners, the published configuration
    ([config.rs]), object references ([objects.rs]) and log lines ([logs.rs]).
    The slots, leases and dispatchers are in SlotStore.v. An operation holds the
    write lock from start to end, so it is one function of the state; every
    refusal happens before the first write, so [Err] carries no state. *)

From S2P Require Import Prelude Ids Environment Invocation Functions Revision Guard Slot.

Open Scope string_scope.
Open Scope Z_scope.

(** ** State *)

(** [crates/application/src/repository/mod.rs:212-222 IdempotencyBinding] *)
Record IdempotencyBinding := mkBinding {
  bind_invocation_id : InvocationId;
  bind_input_digest : Sha256Digest;
  bind_expires_at : option Timestamp
}.
#[global] Instance IdempotencyBinding_eq_dec : EqDecision IdempotencyBinding.
Proof. solve_decision. Defined.
#[global] Instance IdempotencyBinding_eta : Eta IdempotencyBinding := λ r,
  mkBinding (bind_invocation_id r) (bind_input_digest r) (bind_expires_at r).

(** [crates/application/src/repository/mod.rs:224-230 IdempotencyOutcome] *)
Inductive IdempotencyOutcome : Type := Inserted | Existing (binding : IdempotencyBinding).

(** [crates/application/src/repository/memory.rs:31-36 IdempotencyKey] Tenant,
    function and key. *)
Definition IdempotencyKey : Type := (TenantId * FunctionId) * string.

(** [crates/application/src/repository/config.rs:36-44 PublishedRow] *)
Record PublishedRow := mkPublished {
  pub_generation : Z;
  pub_natural_version : Z;
  pub_digest : string;
  pub_body : option string
}.
#[global] Instance PublishedRow_eta : Eta PublishedRow := λ r,
  mkPublished (pub_generation r) (pub_natural_version r) (pub_digest r) (pub_body r).

(** [crates/application/src/repository/objects.rs:45-52 CollectReason] *)
Inductive CollectReason : Type := Expired | Orphan.
#[global] Instance CollectReason_eq_dec : EqDecision CollectReason.
Proof. solve_decision. Defined.

(** [crates/application/src/repository/memory.rs:38-57 State] *)
Record State := mkState {
  st_functions : gmap FunctionId FunctionDef;
  st_revisions : gmap RevisionId FunctionRevision;
  st_revision_counters : gmap FunctionId Z;
  st_aliases : gmap (FunctionId * AliasName) FunctionAlias;
  st_invocations : gmap InvocationId Invocation;
  st_attempts : gmap AttemptId InvocationAttempt;
  st_environments : gmap EnvironmentId ExecutionEnvironment;
  st_idempotency : gmap IdempotencyKey IdempotencyBinding;
  st_artifact_owners : gmap Sha256Digest (gset TenantId);
  st_leases : gmap LeaseId ExecutionLease;
  st_dispatchers : gmap DispatcherId DispatcherRecord;
  st_publication : gmap string PublishedRow;
  st_publication_generation : Z;
  st_object_refs : gmap string (gset InvocationId);
  st_object_tombstones : gmap string (CollectReason * Timestamp)
}.
#[global] Instance State_eta : Eta State := λ s,
  mkState (st_functions s) (st_revisions s) (st_revision_counters s) (st_aliases s)
    (st_invocations s) (st_attempts s) (st_environments s) (st_idempotency s)
    (st_artifact_owners s) (st_leases s) (st_dispatchers s) (st_publication s)
    (st_publication_generation s) (st_object_refs s) (st_object_tombstones s).

(** What a store is built with. *)
(** [crates/application/src/repository/memory.rs:59-66 InMemoryStore] *)
Record StoreConfig := mkStoreConfig {
  cfg_limits : Limits;
  cfg_idempotency_retention : option Duration
}.

(** [crates/application/src/repository/memory.rs:69-76 InMemoryStore::new] The empty
    state of a new store. *)
Definition empty_state : State := mkState ∅ ∅ ∅ ∅ ∅ ∅ ∅ ∅ ∅ ∅ ∅ ∅ 0 ∅ ∅.

(** An operation under the write lock. *)
Definition op (A : Type) : Type := State → result RepoError (A * State).

(** [crates/application/src/repository/memory.rs:124-126 duplicate] *)
Definition duplicate (kind id : string) : RepoError :=
  Conflict (kind +:+ " " +:+ id +:+ " already exists").

(** ** Functions *)

Module FunctionRepo.
(** [crates/application/src/repository/memory.rs:129-145 insert] *)
Definition insert (function : FunctionDef) : op unit := λ s,
  when! is_some (st_functions s !! fn_id function) return!
    Err (duplicate "function" (fn_id function));;
  let dup := any_value (λ f, (fn_tenant_id f == fn_tenant_id function)
                             && (fn_name f == fn_name function) && negb (Fn.is_deleted f))
               (st_functions s) in
  when! dup && negb (Fn.is_deleted function) return!
    Err (Conflict ("function name `" +:+ fn_name function +:+ "` already exists"));;
  Ok (tt, s <| st_functions ::= <[fn_id function := function]> |>).

(** [crates/application/src/repository/memory.rs:147-149 get] *)
Definition get (id : FunctionId) (s : State) : option FunctionDef := st_functions s !! id.

(** [crates/application/src/repository/memory.rs:151-163 find_by_name] *)
Definition find_by_name (tenant : TenantId) (name : FunctionName) (s : State)
    : option FunctionDef :=
  snd <$> btree_find (λ f, (fn_tenant_id f == tenant) && (fn_name f == name)
                           && negb (Fn.is_deleted f)) (st_functions s).

(** Oldest first, then by id. *)
Definition created_before (a b : FunctionDef) : bool :=
  (fn_created_at a <? fn_created_at b)
  || ((fn_created_at a =? fn_created_at b) && String.leb (fn_id a) (fn_id b)).

(** [crates/application/src/repository/memory.rs:165-176 list] *)
Definition list (tenant : TenantId) (s : State) : list FunctionDef :=
  sort_by created_before (filter_values (λ f, fn_tenant_id f == tenant) (st_functions s)).

(** [crates/application/src/repository/memory.rs:178-187 update] *)
Definition update (function : FunctionDef) : op unit := λ s,
  match st_functions s !! fn_id function with
  | None => Err (NotFound ("function " +:+ fn_id function))
  | Some slot =>
      w ← function_update slot function;
      Ok (tt, if w == Apply then s <| st_functions ::= <[fn_id function := function]> |> else s)
  end.
End FunctionRepo.

(** ** Revisions *)

Module RevisionRepo.
(** [crates/application/src/repository/memory.rs:191-196 allocate_number] *)
Definition allocate_number (function : FunctionId) : op Z := λ s,
  let c := u64_add (unwrap_or (st_revision_counters s !! function) 0) 1 in
  Ok (c, s <| st_revision_counters ::= <[function := c]> |>).

(** [crates/application/src/repository/memory.rs:198-215 insert] *)
Definition insert (revision : FunctionRevision) : op unit := λ s,
  when! is_some (st_revisions s !! rev_id revision) return!
    Err (duplicate "revision" (rev_id revision));;
  _ ← revision_insert (st_functions s !! rev_function_id revision) revision;
  when! any_value (λ r, (rev_function_id r == rev_function_id revision)
                        && (rev_number r =? rev_number revision)) (st_revisions s) return!
    Err (Conflict ("revision number " +:+ pretty (rev_number revision)
                     +:+ " already exists for function " +:+ rev_function_id revision));;
  Ok (tt, s <| st_revisions ::= <[rev_id revision := revision]> |>).

(** [crates/application/src/repository/memory.rs:217-219 get] *)
Definition get (id : RevisionId) (s : State) : option FunctionRevision := st_revisions s !! id.

(** [crates/application/src/repository/memory.rs:221-232 list_by_function] *)
Definition list_by_function (function : FunctionId) (s : State) : list FunctionRevision :=
  sort_by (λ a b, rev_number a <=? rev_number b)
    (filter_values (λ r, rev_function_id r == function) (st_revisions s)).

(** [crates/application/src/repository/memory.rs:234-243 update] *)
Definition update (revision : FunctionRevision) : op unit := λ s,
  match st_revisions s !! rev_id revision with
  | None => Err (NotFound ("revision " +:+ rev_id revision))
  | Some slot =>
      w ← revision_update slot revision;
      Ok (tt, if w == Apply then s <| st_revisions ::= <[rev_id revision := revision]> |> else s)
  end.
End RevisionRepo.

(** ** Aliases *)

Module AliasRepo.
Definition key (alias : FunctionAlias) : FunctionId * AliasName :=
  (alias_function_id alias, alias_name alias).

(** [crates/application/src/repository/memory.rs:247-258 get] *)
Definition get (function : FunctionId) (name : AliasName) (s : State) : option FunctionAlias :=
  st_aliases s !! (function, name).

(** [crates/application/src/repository/memory.rs:260-271 list] *)
Definition list (function : FunctionId) (s : State) : list FunctionAlias :=
  sort_by (λ a b, String.leb (alias_name a) (alias_name b))
    (filter_values (λ a, alias_function_id a == function) (st_aliases s)).

(** [crates/application/src/repository/memory.rs:273-289 insert] *)
Definition insert (alias : FunctionAlias) : op unit := λ s,
  when! is_some (st_aliases s !! key alias) return!
    Err (Conflict ("alias `" +:+ alias_name alias +:+ "` already exists"));;
  _ ← alias_target (st_functions s !! alias_function_id alias)
        (st_revisions s !! alias_revision_id alias) alias;
  Ok (tt, s <| st_aliases ::= <[key alias := alias]> |>).

(** [crates/application/src/repository/memory.rs:291-312 compare_and_set] *)
Definition compare_and_set (alias : FunctionAlias) (expected_generation : Z) : op bool := λ s,
  match st_aliases s !! key alias with
  | None => Err (NotFound ("alias `" +:+ alias_name alias +:+ "`"))
  | Some current =>
      when! negb (alias_generation current =? expected_generation) return! Ok (false, s);;
      _ ← alias_update current alias;
      _ ← alias_target (st_functions s !! alias_function_id alias)
            (st_revisions s !! alias_revision_id alias) alias;
      Ok (true, s <| st_aliases ::= <[key alias := alias]> |>)
  end.
End AliasRepo.

(** ** Invocations and attempts *)

(** [crates/application/src/repository/memory.rs:396-407 set_binding_expiry] *)
Definition set_binding_expiry (inv : Invocation) (retention : option Duration) (s : State)
    : State :=
  when! is_none (inv_idempotency_key inv)
        || negb (InvocationStatus.is_terminal (inv_status inv)) return! s;;
  let expires_at :=
    (λ r, unwrap_or (inv_finished_at inv) (inv_accepted_at inv) + r) <$> retention in
  s <| st_idempotency ::=
      fmap (λ b, if bind_invocation_id b == inv_id inv
                 then b <| bind_expires_at := expires_at |> else b) |>.

#[global] Arguments set_binding_expiry : simpl never.

(** [crates/application/src/repository/memory.rs:409-424 insert_invocation] *)
Definition insert_invocation (invocation : Invocation) (max_inline_bytes : Z) (s : State)
    : result RepoError State :=
  when! is_some (st_invocations s !! inv_id invocation) return!
    Err (duplicate "invocation" (inv_id invocation));;
  _ ← invocation_insert (st_functions s !! inv_function_id invocation) invocation
        max_inline_bytes;
  Ok (s <| st_invocations ::= <[inv_id invocation := invocation]> |>).

Module InvocationRepo.
(** [crates/application/src/repository/memory.rs:316-319 insert] *)
Definition insert (cfg : StoreConfig) (invocation : Invocation) : op unit := λ s,
  s ← insert_invocation invocation (max_response_bytes (cfg_limits cfg)) s;
  Ok (tt, s).

(** [crates/application/src/repository/memory.rs:321-323 get] *)
Definition get (id : InvocationId) (s : State) : option Invocation := st_invocations s !! id.

(** [crates/application/src/repository/memory.rs:325-337 update] *)
Definition update (cfg : StoreConfig) (invocation : Invocation) : op unit := λ s,
  match st_invocations s !! inv_id invocation with
  | None => Err (NotFound ("invocation " +:+ inv_id invocation))
  | Some slot =>
      w ← invocation_update slot invocation (max_response_bytes (cfg_limits cfg));
      Ok (tt, if w == Apply
              then set_binding_expiry invocation (cfg_idempotency_retention cfg)
                     (s <| st_invocations ::= <[inv_id invocation := invocation]> |>)
              else s)
  end.

(** Newest first, then by id, highest first. *)
Definition accepted_after (a b : Invocation) : bool :=
  (inv_accepted_at b <? inv_accepted_at a)
  || ((inv_accepted_at a =? inv_accepted_at b) && String.leb (inv_id b) (inv_id a)).

(** [crates/application/src/repository/memory.rs:339-355 list_by_function] *)
Definition list_by_function (function : FunctionId) (limit : nat) (s : State)
    : list Invocation :=
  take limit (sort_by accepted_after
    (filter_values (λ i, inv_function_id i == function) (st_invocations s))).

(** [crates/application/src/repository/memory.rs:357-365 insert_attempt] *)
Definition insert_attempt (attempt : InvocationAttempt) : op unit := λ s,
  when! is_some (st_attempts s !! att_id attempt) return!
    Err (duplicate "attempt" (att_id attempt));;
  _ ← attempt_insert (st_invocations s !! att_invocation_id attempt) attempt;
  Ok (tt, s <| st_attempts ::= <[att_id attempt := attempt]> |>).

(** [crates/application/src/repository/memory.rs:367-369 get_attempt] *)
Definition get_attempt (id : AttemptId) (s : State) : option InvocationAttempt :=
  st_attempts s !! id.

(** [crates/application/src/repository/memory.rs:371-380 update_attempt] *)
Definition update_attempt (attempt : InvocationAttempt) : op unit := λ s,
  match st_attempts s !! att_id attempt with
  | None => Err (NotFound ("attempt " +:+ att_id attempt))
  | Some slot =>
      w ← attempt_update slot attempt;
      Ok (tt, if w == Apply then s <| st_attempts ::= <[att_id attempt := attempt]> |> else s)
  end.

(** [crates/application/src/repository/memory.rs:382-393 attempts_of] *)
Definition attempts_of (invocation : InvocationId) (s : State) : list InvocationAttempt :=
  sort_by (λ a b, att_number a <=? att_number b)
    (filter_values (λ a, att_invocation_id a == invocation) (st_attempts s)).
End InvocationRepo.

(** ** Idempotency keys *)

(** [crates/application/src/repository/memory.rs:474-480 live_binding] *)
Definition live_binding (s : State) (key : IdempotencyKey) (now : Timestamp)
    : option IdempotencyBinding :=
  b ← st_idempotency s !! key;
  if is_some (st_invocations s !! bind_invocation_id b)
     && is_none_or (bind_expires_at b) (λ e, now <? e)
  then Some b else None.

Module IdempotencyRepo.
(** [crates/application/src/repository/memory.rs:483-496 lookup] *)
Definition lookup (tenant : TenantId) (function : FunctionId) (key : string) (now : Timestamp)
    (s : State) : option IdempotencyBinding := live_binding s (tenant, function, key) now.

(** The key of an invocation, if it carries one. *)
Definition key_of (invocation : Invocation) : option IdempotencyKey :=
  (λ k, (inv_tenant_id invocation, inv_function_id invocation, k))
    <$> inv_idempotency_key invocation.

(** [crates/application/src/repository/memory.rs:498-525 insert_bound] *)
Definition insert_bound (cfg : StoreConfig) (invocation : Invocation) : op IdempotencyOutcome :=
  λ s,
  let key := key_of invocation in
  match k ← key; live_binding s k (inv_accepted_at invocation) with
  | Some existing => Ok (Existing existing, s)
  | None =>
      let binding := mkBinding (inv_id invocation) (inv_input_digest invocation) None in
      s ← insert_invocation invocation (max_response_bytes (cfg_limits cfg)) s;
      Ok (Inserted,
          match key with
          | Some k => set_binding_expiry invocation (cfg_idempotency_retention cfg)
                        (s <| st_idempotency ::= <[k := binding]> |>)
          | None => s
          end)
  end.

(** [crates/application/src/repository/memory.rs:527-533 purge_expired_idempotency] *)
Definition purge_expired_idempotency (now : Timestamp) : op nat := λ s,
  let kept := filter (λ kb, is_none_or (bind_expires_at kb.2) (λ e, now <? e) = true)
                (st_idempotency s) in
  Ok ((size (st_idempotency s) - size kept)%nat, s <| st_idempotency := kept |>).
End IdempotencyRepo.

(** ** Artifact owners *)

Module ArtifactRepo.
(** [crates/application/src/repository/memory.rs:537-545 claim] *)
Definition claim (tenant : TenantId) (digest : Sha256Digest) : op unit := λ s,
  Ok (tt, s <| st_artifact_owners ::=
                 <[digest := {[tenant]} ∪ unwrap_or (st_artifact_owners s !! digest) ∅]> |>).

(** [crates/application/src/repository/memory.rs:547-554 is_owned_by] *)
Definition is_owned_by (tenant : TenantId) (digest : Sha256Digest) (s : State) : bool :=
  is_some_and (st_artifact_owners s !! digest) (λ owners, bool_decide (tenant ∈ owners)).
End ArtifactRepo.

(** ** Published configuration *)

(** [crates/application/src/repository/config.rs:18-25 ConfigRows] *)
Record ConfigRows := mkConfigRows {
  cr_functions : list FunctionDef;
  cr_aliases : list FunctionAlias;
  cr_revisions : list FunctionRevision
}.

(** [crates/application/src/repository/config.rs:27-34 ConfigObservation] *)
Record ConfigObservation := mkObservation {
  obs_key : string;
  obs_natural_version : Z;
  obs_digest : string;
  obs_body : string
}.

(** [crates/application/src/repository/config.rs:46-51 StampedEntry] *)
Record StampedEntry := mkStamped {
  se_key : string;
  se_generation : Z;
  se_body : option string
}.

(** [crates/application/src/repository/config.rs:53-59 StampedConfig] *)
Record StampedConfig := mkStampedConfig {
  sc_generation : Z;
  sc_entries : list StampedEntry
}.

(** The publication while it is being stamped: rows, counter, changed keys. *)
Definition Publication : Type := gmap string PublishedRow * Z * list string.

(** [crates/application/src/repository/config.rs:96-102 stamp (replace)] *)
Definition replaces (row : option PublishedRow) (o : ConfigObservation) : bool :=
  match row with
  | None => true
  | Some row =>
      is_none (pub_body row)
      || ((pub_digest row != obs_digest o) && (pub_natural_version row <=? obs_natural_version o))
  end.

(** [crates/application/src/repository/config.rs:94-115 stamp (observations)] *)
Definition stamp_one (p : Publication) (o : ConfigObservation) : Publication :=
  let '(rows, counter, changed) := p in
  if replaces (rows !! obs_key o) o then
    let counter := u64_add counter 1 in
    (<[obs_key o := mkPublished counter (obs_natural_version o) (obs_digest o)
                      (Some (obs_body o))]> rows, counter, app changed [obs_key o])
  else p.

(** [crates/application/src/repository/config.rs:116-123 stamp (tombstones)] *)
Definition tombstone_one (seen : gset string) (p : Publication) (e : string * PublishedRow)
    : Publication :=
  let '(rows, counter, changed) := p in
  let '(key, row) := e in
  if is_some (pub_body row) && negb (bool_decide (key ∈ seen)) then
    let counter := u64_add counter 1 in
    (<[key := row <| pub_generation := counter |> <| pub_body := None |>]> rows, counter,
     app changed [key])
  else p.

(** [crates/application/src/repository/config.rs:79-126 stamp] *)
Definition stamp (rows : gmap string PublishedRow) (counter : Z)
    (observed : list ConfigObservation) : Publication :=
  let '(rows, counter, changed) := foldl stamp_one (rows, counter, []) observed in
  let seen := list_to_set (map obs_key observed) in
  foldl (tombstone_one seen) (rows, counter, changed) (btree_entries rows).

(** [crates/application/src/repository/config.rs:128-141 above] *)
Definition above (rows : gmap string PublishedRow) (since : Z) : list StampedEntry :=
  sort_by (λ a b, se_generation a <=? se_generation b)
    (map (λ e, mkStamped e.1 (pub_generation e.2) (pub_body e.2))
       (List.filter (λ e, since <? pub_generation e.2) (btree_entries rows))).

Module ConfigRepo.
(** [crates/application/src/repository/memory.rs:97-121 stamp_config] *)
Definition stamp_config (observe : ConfigRows → result RepoError (list ConfigObservation))
    (since : Z) : op StampedConfig := λ s,
  let rows := mkConfigRows (btree_values (st_functions s)) (btree_values (st_aliases s))
                (btree_values (st_revisions s)) in
  observed ← observe rows;
  let '(publication, generation, _) :=
    stamp (st_publication s) (st_publication_generation s) observed in
  Ok (mkStampedConfig generation (above publication since),
      s <| st_publication := publication |> <| st_publication_generation := generation |>).
End ConfigRepo.

(** ** Object references *)

(** A reference to an object of the durable store: its id, the tenant of its
    scope and its creation time, which the [ulid] crate reads from the id. *)
Record ObjectRef := mkObject {
  obj_id : string;
  obj_tenant_id : TenantId;
  obj_created_at_ms : Z
}.

(** [crates/application/src/repository/objects.rs:29-31 TOMBSTONE_RETENTION_DAYS] *)
Definition TOMBSTONE_RETENTION_DAYS : Z := 30.

(** [crates/application/src/repository/objects.rs:55-60 as_str] *)
Definition reason_str (r : CollectReason) : string :=
  match r with Expired => "expired" | Orphan => "orphan" end.

Module CollectDecision.
(** [crates/application/src/repository/objects.rs:63-73 CollectDecision] *)
Inductive t : Type := Collect | InUse (invocations : nat) | Referenced.
#[global] Instance eq_dec : EqDecision t.
Proof. solve_decision. Defined.
End CollectDecision.

(** [crates/application/src/repository/objects.rs:33-43 check_attachable] *)
Definition check_attachable (object : ObjectRef) (now : Timestamp) : result RepoError unit :=
  let limit := now - seconds (TOMBSTONE_RETENTION_DAYS * 86400) in
  when! obj_created_at_ms object <? limit / 1000000 return!
    refuse ("object " +:+ obj_id object +:+ " is older than " +:+ pretty TOMBSTONE_RETENTION_DAYS
              +:+ " days and can no longer be attached; store it again");;
  Ok tt.

Module ObjectRepo.
(** The invocations that reference an object. *)
Definition refs_of (id : string) (s : State) : gset InvocationId :=
  unwrap_or (st_object_refs s !! id) ∅.

(** [crates/application/src/repository/memory.rs:1098-1128 attach_object] *)
Definition attach_object (object : ObjectRef) (invocation : InvocationId) (now : Timestamp)
    : op unit := λ s,
  _ ← check_attachable object now;
  match st_invocations s !! invocation with
  | None => Err (NotFound ("invocation " +:+ invocation))
  | Some inv =>
      when! inv_tenant_id inv != obj_tenant_id object return!
        refuse ("object " +:+ obj_id object +:+ " belongs to another tenant than invocation "
                  +:+ invocation);;
      match st_object_tombstones s !! obj_id object with
      | Some (reason, _) =>
          refuse ("object " +:+ obj_id object +:+ " is being collected (" +:+ reason_str reason
                    +:+ "); store it again")
      | None =>
          Ok (tt, s <| st_object_refs ::=
                         <[obj_id object := {[invocation]} ∪ refs_of (obj_id object) s]> |>)
      end
  end.

(** [crates/application/src/repository/memory.rs:1130-1141 object_references] *)
Definition object_references (id : string) (s : State) : list InvocationId :=
  merge_sort string_le (elements (refs_of id s)).

(** A reference that keeps an object alive: a row that is gone counts as live. *)
Definition is_live_ref (s : State) (id : InvocationId) : bool :=
  is_none_or (st_invocations s !! id)
    (λ inv, negb (InvocationStatus.is_terminal (inv_status inv))).

(** [crates/application/src/repository/memory.rs:1143-1176 claim_for_collection] *)
Definition claim_for_collection (object : ObjectRef) (reason : CollectReason) (now : Timestamp)
    : op CollectDecision.t := λ s,
  when! is_some (st_object_tombstones s !! obj_id object) return!
    Ok (CollectDecision.Collect, s);;
  let refs := elements (refs_of (obj_id object) s) in
  let live := length (List.filter (is_live_ref s) refs) in
  when! bool_decide (0 < live)%nat return! Ok (CollectDecision.InUse live, s);;
  when! (reason == Orphan) && bool_decide (refs ≠ []) return! Ok (CollectDecision.Referenced, s);;
  Ok (CollectDecision.Collect,
      s <| st_object_tombstones ::= <[obj_id object := (reason, now)]> |>).

(** [crates/application/src/repository/memory.rs:1178-1185 forget_object] *)
Definition forget_object (id : string) : op unit := λ s,
  Ok (tt, s <| st_object_refs ::= base.delete id |>).

(** [crates/application/src/repository/memory.rs:1187-1192 purge_tombstones] *)
Definition purge_tombstones (before : Timestamp) : op nat := λ s,
  let kept := filter (λ kt, before ≤ kt.2.2) (st_object_tombstones s) in
  Ok ((size (st_object_tombstones s) - size kept)%nat, s <| st_object_tombstones := kept |>).
End ObjectRepo.

(** ** Log lines *)

(** [crates/application/src/repository/logs.rs:13-18 LogBucket] *)
Record LogBucket := mkBucket {
  bucket_records : list LogRecord;
  bucket_bytes : Z;
  bucket_dropped : bool
}.

Module LogBuffer.
(** [crates/application/src/repository/logs.rs:20-23 LogBuffer] *)
Definition t : Type := gmap string LogBucket.

(** [crates/application/src/repository/mod.rs:182-191 AppendOutcome] *)
Inductive AppendOutcome : Type := Stored | Dropped.

(** [crates/application/src/repository/logs.rs:25-30 log_key] *)
Definition log_key (record : LogRecord) : string :=
  match log_invocation_id record with
  | Some inv => "inv:" +:+ inv
  | None => "env:" +:+ log_environment_id record
  end.

(** [crates/application/src/repository/logs.rs:33-47 append] *)
Definition append (limits : Limits) (record : LogRecord) (buckets : t) : AppendOutcome * t :=
  let key := log_key record in
  let bucket := unwrap_or (buckets !! key) (mkBucket [] 0 false) in
  let line_bytes := byte_len (log_line record) in
  if (max_log_lines_per_invocation limits <=? Z.of_nat (length (bucket_records bucket)))
     || (max_log_bytes_per_invocation limits <? u64_add (bucket_bytes bucket) line_bytes)
  then (Dropped, <[key := mkBucket (bucket_records bucket) (bucket_bytes bucket) true]> buckets)
  else (Stored, <[key := mkBucket (app (bucket_records bucket) [record])
                           (u64_add (bucket_bytes bucket) line_bytes) (bucket_dropped bucket)]>
                  buckets).

(** [crates/application/src/repository/mod.rs:193-199 LogQuery] *)
Record LogQuery := mkQuery { query_records : list LogRecord; query_dropped : bool }.

(** [crates/application/src/repository/logs.rs:49-65 query] *)
Definition query (tenant : TenantId) (invocation : InvocationId) (buckets : t) : LogQuery :=
  match buckets !! ("inv:" +:+ invocation) with
  | Some b =>
      let records := List.filter (λ r, log_tenant_id r == tenant) (bucket_records b) in
      mkQuery records (bucket_dropped b && bool_decide (records ≠ []))
  | None => mkQuery [] false
  end.
End LogBuffer.
