(* ===== verification/SlotStore.v ===== *)
(** * The store: environments, dispatchers and slots

    The second half of [crates/application/src/repository/memory.rs]: the
    environment rows and the [SlotStore] port, that is dispatchers and their
    leases, the warm pool, slot acquisition, completion and reclaim. A loop
    over [values_mut] updates each row independently, so it is a map over the
    rows and a count; a loop whose steps see each other is a fold in key order. *)

From S2P Require Import Prelude Ids Environment Invocation Functions Revision Guard Slot Store.

Open Scope string_scope.
Open Scope Z_scope.

(** ** Environment rows *)

Module EnvironmentRepo.
(** [crates/application/src/repository/memory.rs:427-435 insert] *)
Definition insert (env : ExecutionEnvironment) : op unit := λ s,
  when! is_some (st_environments s !! env_id env) return!
    Err (duplicate "environment" (env_id env));;
  _ ← environment_insert (st_revisions s !! env_revision_id env) env;
  Ok (tt, s <| st_environments ::= <[env_id env := env]> |>).

(** [crates/application/src/repository/memory.rs:437-439 get] *)
Definition get (id : EnvironmentId) (s : State) : option ExecutionEnvironment :=
  st_environments s !! id.

(** [crates/application/src/repository/memory.rs:441-450 update] *)
Definition update (env : ExecutionEnvironment) : op unit := λ s,
  match st_environments s !! env_id env with
  | None => Err (NotFound ("environment " +:+ env_id env))
  | Some slot =>
      w ← environment_update slot env;
      Ok (tt, if w == Apply then s <| st_environments ::= <[env_id env := env]> |> else s)
  end.

(** [crates/application/src/repository/memory.rs:452-461 list_active] *)
Definition list_active (s : State) : list ExecutionEnvironment :=
  filter_values (λ e, negb (Env.is_terminal e)) (st_environments s).
End EnvironmentRepo.

(** ** Leases and reclaim *)

(** [crates/application/src/repository/memory.rs:561-565 has_unreleased_lease] *)
Definition has_unreleased_lease (s : State) (env : EnvironmentId) : bool :=
  any_value (λ l, (lease_environment_id l == env) && is_none (lease_released_at l))
    (st_leases s).

(** [crates/application/src/repository/memory.rs:567-575 fence_env] *)
Definition fence_env (id : EnvironmentId) (now : Timestamp) (sr : State * ReclaimReport)
    : State * ReclaimReport :=
  let '(s, report) := sr in
  match st_environments s !! id with
  | Some env =>
      if negb (Env.is_terminal env) && negb (Env.is_fenced env) then
        match Env.fence now env with
        | Ok (env', _) =>
            (s <| st_environments ::= <[id := env']> |>,
             report <| rep_fenced ::= λ l, app l [env'] |>)
        | Err _ => sr
        end
      else sr
  | None => sr
  end.

(** Whether settling would change the attempt of an invocation. *)
Definition settles (inv : InvocationId) (att : InvocationAttempt) : bool :=
  (att_invocation_id att == inv) && negb (AttemptStatus.is_terminal (att_status att)).

(** [crates/application/src/repository/memory.rs:594-599 settle_invocation_rows (attempts)] *)
Definition settle_attempts (inv : InvocationId) (unknown : bool) (cause : Cause) (now : Timestamp)
    (sr : State * ReclaimReport) : State * ReclaimReport :=
  let '(s, report) := sr in
  (s <| st_attempts ::= fmap (λ att,
          if att_invocation_id att == inv then (settle_attempt_with att unknown cause now).1
          else att) |>,
   report <| rep_attempts ::= Nat.add (count_values (settles inv) (st_attempts s)) |>).

(** [crates/application/src/repository/memory.rs:577-600 settle_invocation_rows] *)
Definition settle_invocation_rows (id : InvocationId) (cause : Cause)
    (retention : option Duration) (now : Timestamp) (sr : State * ReclaimReport)
    : State * ReclaimReport :=
  let '(s, report) := sr in
  match st_invocations s !! id with
  | None => sr
  | Some inv =>
      let '(inv, settled) :=
        if survives_dispatcher inv then (inv, false) else settle_invocation_with inv cause now in
      let '(s, report) :=
        if settled
        then (set_binding_expiry inv retention (s <| st_invocations ::= <[inv_id inv := inv]> |>),
              report <| rep_invocations ::= S |>)
        else (s, report) in
      settle_attempts (inv_id inv) (attempts_unknown inv) cause now (s, report)
  end.

(** [crates/application/src/repository/memory.rs:602-608 cause_of] *)
Definition cause_of (d : DispatcherRecord) (proven_dead : bool) : Cause :=
  if proven_dead || is_some (disp_stopped_at d) then RESTARTED else LEASE_EXPIRED.

(** ** Renewal *)

(** Whether a lease is one the renewal of [id] visits. *)
Definition renewable_by (id : DispatcherId) (l : ExecutionLease) : bool :=
  (lease_owner l == Some id) && is_none (lease_released_at l).

(** [crates/application/src/repository/memory.rs:632-638 renew_dispatcher (lease)] *)
Definition renew_one (revive : bool) (now : Timestamp) (ttl : Duration) (l : ExecutionLease)
    : result DomainError ExecutionLease :=
  if revive then Lse.revive now ttl l else Lse.renew now ttl l.

(** [crates/application/src/repository/memory.rs:611-642 renew_dispatcher] *)
Definition renew_dispatcher (id : DispatcherId) (ttl : Duration) (now : Timestamp)
    (revive : bool) (s : State) : HeartbeatOutcome.t * State :=
  match st_dispatchers s !! id with
  | None => (HeartbeatOutcome.Fenced, s)
  | Some d =>
      when! negb (Disp.is_live d) || (negb revive && (disp_lease_expires_at d <=? now)) return!
        (HeartbeatOutcome.Fenced, s);;
      let d := d <| disp_heartbeat_at := now |>
                 <| disp_lease_expires_at ::= λ e, Z.max e (now + ttl) |> in
      let renewed := count_values (λ l, renewable_by id l && is_ok (renew_one revive now ttl l))
                       (st_leases s) in
      (HeartbeatOutcome.Renewed renewed,
       s <| st_dispatchers ::= <[id := d]> |>
         <| st_leases ::= fmap (λ l, if renewable_by id l
                                     then or_unchanged l (renew_one revive now ttl l) else l) |>)
  end.

(** ** The slot port *)

Module Slots.
(** *** Dispatchers *)

(** [crates/application/src/repository/memory.rs:646-653 register_dispatcher] *)
Definition register_dispatcher (record : DispatcherRecord) : op unit := λ s,
  when! is_some (st_dispatchers s !! disp_id record) return!
    Err (duplicate "dispatcher" (disp_id record));;
  Ok (tt, s <| st_dispatchers ::= <[disp_id record := record]> |>).

(** [crates/application/src/repository/memory.rs:655-657 get_dispatcher] *)
Definition get_dispatcher (id : DispatcherId) (s : State) : option DispatcherRecord :=
  st_dispatchers s !! id.

(** [crates/application/src/repository/memory.rs:659-661 list_dispatchers] *)
Definition list_dispatchers (s : State) : list DispatcherRecord := btree_values (st_dispatchers s).

(** [crates/application/src/repository/memory.rs:663-670 heartbeat] *)
Definition heartbeat (id : DispatcherId) (ttl : Duration) (now : Timestamp)
    : op HeartbeatOutcome.t := λ s, Ok (renew_dispatcher id ttl now false s).

(** [crates/application/src/repository/memory.rs:672-679 renew_after_store_outage] *)
Definition renew_after_store_outage (id : DispatcherId) (ttl : Duration) (now : Timestamp)
    : op HeartbeatOutcome.t := λ s, Ok (renew_dispatcher id ttl now true s).

(** [crates/application/src/repository/memory.rs:681-688 stop_dispatcher] *)
Definition stop_dispatcher (id : DispatcherId) (now : Timestamp) : op unit := λ s,
  match st_dispatchers s !! id with
  | Some d =>
      if is_none (disp_stopped_at d)
      then Ok (tt, s <| st_dispatchers ::= <[id := d <| disp_stopped_at := Some now |>]> |>)
      else Ok (tt, s)
  | None => Ok (tt, s)
  end.

(** *** Pool *)

Definition is_idle (e : ExecutionEnvironment) : bool := EnvironmentState.is_idle (env_state e).

(** Longest idle first ([None] first), then by id. *)
Definition idle_before (a b : ExecutionEnvironment) : bool :=
  match env_idle_since a, env_idle_since b with
  | None, Some _ => true
  | Some _, None => false
  | None, None => String.leb (env_id a) (env_id b)
  | Some x, Some y => (x <? y) || ((x =? y) && String.leb (env_id a) (env_id b))
  end.

(** [crates/application/src/repository/memory.rs:690-704 list_idle] *)
Definition list_idle (owner : option DispatcherId) (s : State) : list ExecutionEnvironment :=
  sort_by idle_before
    (filter_values (λ e, is_idle e && (env_owner e == owner)) (st_environments s)).

(** [crates/application/src/repository/memory.rs:706-728 claim_for_reuse] *)
Definition claim_for_reuse (key : ReuseKey) (owner : option DispatcherId) (now : Timestamp)
    : op (option ExecutionEnvironment) := λ s,
  match btree_find (λ e, is_idle e && (env_reuse_key e == key) && (env_owner e == owner))
          (st_environments s) with
  | None => Ok (None, s)
  | Some (id, env) =>
      match Env.reserve now env with
      | Err _ => Ok (None, s)
      | Ok claimed => Ok (Some claimed, s <| st_environments ::= <[id := claimed]> |>)
      end
  end.

(** A [min_ready] pre-start is published straight from [Ready] at epoch 0. *)
Definition prestarted (e : ExecutionEnvironment) : bool :=
  EnvironmentState.is_ready (env_state e) && (env_epoch e =? 0).

(** The row [release_to_pool] writes. *)
Definition pooled_row (env : ExecutionEnvironment) (now : Timestamp)
    : option ExecutionEnvironment :=
  let busy := if EnvironmentState.is_ready (env_state env) then Env.mark_busy now env else Ok env in
  match busy with
  | Err _ => None
  | Ok pooled => match Env.mark_idle now pooled with Ok pooled => Some pooled | Err _ => None end
  end.

(** [crates/application/src/repository/memory.rs:730-771 release_to_pool] *)
Definition release_to_pool (env : ExecutionEnvironment) (limits : PoolLimits) (now : Timestamp)
    : op (option ExecutionEnvironment) := λ s,
  match st_environments s !! env_id env with
  | None => Ok (None, s)
  | Some current =>
      when! negb (env_epoch current =? env_epoch env)
            || negb (EnvironmentState.is_busy (env_state current) || prestarted current)
            || Env.is_fenced current || has_unreleased_lease s (env_id env) return!
        Ok (None, s);;
      let total := count_values is_idle (st_environments s) in
      let per_key := count_values (λ e, is_idle e && (env_reuse_key e == env_reuse_key env))
                       (st_environments s) in
      when! (max_total_idle limits <=? total)%nat || (max_idle_per_key limits <=? per_key)%nat
      return! Ok (None, s);;
      match pooled_row env now with
      | None => Ok (None, s)
      | Some pooled =>
          _ ← environment_update current pooled;
          Ok (Some pooled, s <| st_environments ::= <[env_id pooled := pooled]> |>)
      end
  end.

(** [crates/application/src/repository/memory.rs:773-785 take_idle_for_termination] *)
Definition take_idle_for_termination (id : EnvironmentId) (now : Timestamp) : op bool := λ s,
  match st_environments s !! id with
  | Some env =>
      if is_idle env then
        match Env.mark_draining now env with
        | Ok env' => Ok (true, s <| st_environments ::= <[id := env']> |>)
        | Err _ => Ok (false, s)
        end
      else Ok (false, s)
  | None => Ok (false, s)
  end.

(** *** Acquisition *)

(** [crates/application/src/repository/memory.rs:805-824 acquire (owner)] [Some reason]
    when the owner may not take the slot. *)
Definition owner_lost (s : State) (owner : DispatcherId) : option string :=
  match st_dispatchers s !! owner with
  | Some d => if Disp.is_live d then None
              else Some ("dispatcher " +:+ owner +:+ " is stopped or was reclaimed")
  | None => Some ("dispatcher " +:+ owner +:+ " is not registered")
  end.

(** [crates/application/src/repository/memory.rs:826-840 acquire (invocation)] *)
Definition acquire_invocation (cfg : StoreConfig) (s : State) (invocation : option Invocation)
    : result RepoError (option string) :=
  match invocation with
  | None => Ok None
  | Some inv =>
      match st_invocations s !! inv_id inv with
      | None => Err (NotFound ("invocation " +:+ inv_id inv))
      | Some old =>
          when! InvocationStatus.is_terminal (inv_status old) return!
            Ok (Some ("invocation " +:+ inv_id inv +:+ " is already "
                        +:+ InvocationStatus.name (inv_status old)));;
          _ ← invocation_update old inv (max_response_bytes (cfg_limits cfg));
          Ok None
      end
  end.

Definition lost (reason : string) (s : State) : result RepoError (AcquireOutcome.t * State) :=
  Ok (AcquireOutcome.Lost reason, s).

(** The four rows an acquire writes. *)
Definition write_acquired (r : SlotAcquire) (s : State) : State :=
  let s := s <| st_environments ::= <[env_id (acq_env r) := acq_env r]> |>
             <| st_leases ::= <[lease_id (acq_lease r) := acq_lease r]> |>
             <| st_attempts ::= <[att_id (acq_attempt r) := acq_attempt r]> |> in
  match acq_invocation r with
  | Some inv => s <| st_invocations ::= <[inv_id inv := inv]> |>
  | None => s
  end.

(** [crates/application/src/repository/memory.rs:787-854 acquire] *)
Definition acquire (cfg : StoreConfig) (request : SlotAcquire) : op AcquireOutcome.t := λ s,
  let env := acq_env request in
  let lease := acq_lease request in
  let attempt := acq_attempt request in
  let stored := st_environments s !! env_id env in
  pre ← acquire_preconditions request stored;
  match pre with
  | Some reason => lost reason s
  | None =>
  match stored, lease_owner lease with
  | Some stored, Some owner =>
  match owner_lost s owner with
  | Some reason => lost reason s
  | None =>
      when! has_unreleased_lease s (env_id env) return!
        lost ("environment " +:+ env_id env +:+ " already has an unreleased lease") s;;
      inv ← acquire_invocation cfg s (acq_invocation request);
      match inv with
      | Some reason => lost reason s
      | None =>
          when! is_some (st_attempts s !! att_id attempt) return!
            Err (duplicate "attempt" (att_id attempt));;
          when! is_some (st_leases s !! lease_id lease) return!
            Err (duplicate "lease" (lease_id lease));;
          _ ← attempt_insert (st_invocations s !! att_invocation_id attempt) attempt;
          _ ← lease_insert (Some stored) lease;
          Ok (AcquireOutcome.Acquired, write_acquired request s)
      end
  end
  | _, _ => Err (NotFound ("environment " +:+ env_id env))
  end
  end.

(** [crates/application/src/repository/memory.rs:856-858 get_lease] *)
Definition get_lease (id : LeaseId) (s : State) : option ExecutionLease := st_leases s !! id.

(** [crates/application/src/repository/memory.rs:860-876 renew_lease] *)
Definition renew_lease (id : LeaseId) (owner : DispatcherId) (epoch : Z) (ttl : Duration)
    (now : Timestamp) : op bool := λ s,
  match st_leases s !! id with
  | None => Ok (false, s)
  | Some lease =>
      when! (lease_owner lease != Some owner) || negb (lease_epoch lease =? epoch) return!
        Ok (false, s);;
      match Lse.renew now ttl lease with
      | Ok lease' => Ok (true, s <| st_leases ::= <[id := lease']> |>)
      | Err _ => Ok (false, s)
      end
  end.

(** *** Completion *)

Definition stale (reason : string) (s : State) : result RepoError (CompletionOutcome.t * State) :=
  Ok (CompletionOutcome.Stale reason, s).

(** The environment a lease is about. *)
Definition env_of_lease (s : State) (lease : option ExecutionLease)
    : option ExecutionEnvironment :=
  l ← lease; st_environments s !! lease_environment_id l.

(** [crates/application/src/repository/memory.rs:906-922 complete (invocation)] The write
    a completion makes to the invocation row, [inl] a reason that makes it stale. *)
Definition complete_invocation (cfg : StoreConfig) (s : State) (invocation : option Invocation)
    : result RepoError (string + option (Invocation * Write)) :=
  match invocation with
  | None => Ok (inr None)
  | Some inv =>
      match st_invocations s !! inv_id inv with
      | None => Err (NotFound ("invocation " +:+ inv_id inv))
      | Some old =>
          when! InvocationStatus.is_terminal (inv_status old) return!
            Ok (inl ("invocation " +:+ inv_id inv +:+ " is already "
                       +:+ InvocationStatus.name (inv_status old)));;
          w ← invocation_update old inv (max_response_bytes (cfg_limits cfg));
          Ok (inr (Some (inv, w)))
      end
  end.

(** [crates/application/src/repository/memory.rs:928-935 complete (writes)] *)
Definition write_completed (cfg : StoreConfig) (lease : ExecutionLease)
    (attempt : InvocationAttempt) (attempt_write : Write)
    (invocation : option (Invocation * Write)) (s : State) : State :=
  let s := s <| st_leases ::= <[lease_id lease := lease]> |> in
  let s := if attempt_write == Apply
           then s <| st_attempts ::= <[att_id attempt := attempt]> |> else s in
  match invocation with
  | Some (inv, Apply) =>
      set_binding_expiry inv (cfg_idempotency_retention cfg)
        (s <| st_invocations ::= <[inv_id inv := inv]> |>)
  | _ => s
  end.

(** [crates/application/src/repository/memory.rs:878-937 complete] [display] prints a
    [DomainError]. *)
Definition complete (display : DomainError → string) (cfg : StoreConfig)
    (completion : SlotCompletion) : op CompletionOutcome.t := λ s,
  let attempt := cmp_attempt completion in
  let lease := st_leases s !! cmp_lease_id completion in
  match lease_is_current lease (att_id attempt) (att_epoch attempt) (env_of_lease s lease), lease with
  | Some reason, _ => stale reason s
  | None, None => Err (NotFound "lease")
  | None, Some lease =>
      match st_attempts s !! att_id attempt with
      | None => Err (NotFound ("attempt " +:+ att_id attempt))
      | Some old_attempt =>
          when! AttemptStatus.is_terminal (att_status old_attempt) return!
            stale ("attempt " +:+ att_id attempt +:+ " is already settled") s;;
          attempt_write ← attempt_update old_attempt attempt;
          inv ← complete_invocation cfg s (cmp_invocation completion);
          match inv with
          | inl reason => stale reason s
          | inr invocation =>
              lease ← map_err (λ e, Refused (display e)) (Lse.release (cmp_now completion) lease);
              Ok (CompletionOutcome.Accepted,
                  write_completed cfg lease attempt attempt_write invocation s)
          end
      end
  end.

(** [crates/application/src/repository/memory.rs:939-956 release_lease] *)
Definition release_lease (id : LeaseId) (attempt : AttemptId) (epoch : Z) (now : Timestamp)
    : op bool := λ s,
  let lease := st_leases s !! id in
  when! is_some (lease_is_current lease attempt epoch (env_of_lease s lease)) return!
    Ok (false, s);;
  match lease with
  | None => Ok (false, s)
  | Some l =>
      match Lse.release now l with
      | Ok l' => Ok (true, s <| st_leases ::= <[id := l']> |>)
      | Err _ => Ok (false, s)
      end
  end.

(** *** Reclaim *)

(** [crates/application/src/repository/memory.rs:968-975 reclaim_expired (own lease)] *)
Definition may_reclaim (r : ReclaimRequest) (s : State) : bool :=
  is_some_and (st_dispatchers s !! req_reclaimer r)
    (λ d, Disp.is_live d && (req_now r <? disp_lease_expires_at d)).

(** What a reclaim decides about one dispatcher. *)
Inductive verdict : Type :=
| Spared
| AlreadyReclaimed (cause : Cause)
| Reclaimed (cause : Cause).

(** [crates/application/src/repository/memory.rs:978-993 reclaim_expired (dispatchers)] *)
Definition judge (r : ReclaimRequest) (d : DispatcherRecord) : verdict :=
  if disp_id d == req_reclaimer r then Spared
  else if is_some (disp_reclaimed_at d) then AlreadyReclaimed (cause_of d false)
  else
    let proven := bool_decide (disp_id d ∈ req_presumed_dead r) in
    if is_none (disp_stopped_at d) && negb proven
       && negb (Disp.is_expired (req_now r) (req_skew r) d)
    then Spared
    else Reclaimed (cause_of d proven).

Definition verdict_cause (v : verdict) : option Cause :=
  match v with Spared => None | AlreadyReclaimed c | Reclaimed c => Some c end.
Definition is_reclaimed (v : verdict) : bool :=
  match v with Reclaimed _ => true | _ => false end.

Definition mark_reclaimed (r : ReclaimRequest) (d : DispatcherRecord) : DispatcherRecord :=
  if is_reclaimed (judge r d) then d <| disp_reclaimed_at := Some (req_now r) |> else d.

(** The dead dispatchers and the cause their rows are settled with. *)
Definition dead_of (r : ReclaimRequest) (s : State) : gmap DispatcherId Cause :=
  list_to_map (omap (λ d, (λ c, (disp_id d, c)) <$> verdict_cause (judge r d))
                 (btree_values (st_dispatchers s))).

(** [crates/application/src/repository/memory.rs:995-1010 reclaim_expired (leases)] The
    cause an unreleased lease is reclaimed with, if it is. *)
Definition expiry_cause (r : ReclaimRequest) (dead : gmap DispatcherId Cause)
    (l : ExecutionLease) : option Cause :=
  if is_none (lease_released_at l) then
    owner ← lease_owner l;
    if owner == req_reclaimer r then None
    else match dead !! owner with
         | Some cause => Some cause
         | None => if Lse.is_expired (req_now r) (req_skew r) l then Some LEASE_EXPIRED else None
         end
  else None.

(** [crates/application/src/repository/memory.rs:1011-1041 reclaim_expired (lease)] *)
Definition reclaim_lease (retention : option Duration) (now : Timestamp)
    (sr : State * ReclaimReport) (lc : ExecutionLease * Cause) : State * ReclaimReport :=
  let '(s, report) := sr in
  let '(lease, cause) := lc in
  match Lse.release now lease with
  | Err _ => sr
  | Ok lease =>
      let s := s <| st_leases ::= <[lease_id lease := lease]> |> in
      let report := report <| rep_leases ::= S |> in
      let '(s, report) :=
        match st_attempts s !! lease_attempt_id lease with
        | None => (s, report)
        | Some att =>
            let '(att, settled) := settle_attempt_with att true cause now in
            let s := s <| st_attempts ::= <[lease_attempt_id lease := att]> |> in
            let report := if settled then report <| rep_attempts ::= S |> else report in
            if is_some_and (st_invocations s !! att_invocation_id att)
                 (λ inv, negb (InvocationStatus.is_terminal (inv_status inv))
                         && (last (inv_attempt_ids inv) == Some (lease_attempt_id lease)))
            then settle_invocation_rows (att_invocation_id att) cause retention now (s, report)
            else (s, report)
        end in
      if is_some_and (st_environments s !! lease_environment_id lease)
           (λ e, env_epoch e =? lease_epoch lease)
      then fence_env (lease_environment_id lease) now (s, report)
      else (s, report)
  end.

(** [crates/application/src/repository/memory.rs:1043-1062 reclaim_expired (owner)] *)
Definition reclaim_owner (retention : option Duration) (now : Timestamp)
    (sr : State * ReclaimReport) (oc : DispatcherId * Cause) : State * ReclaimReport :=
  let '(owner, cause) := oc in
  let invocations := map inv_id (filter_values (λ i, (inv_dispatcher_id i == Some owner)
      && negb (InvocationStatus.is_terminal (inv_status i))) (st_invocations sr.1)) in
  let sr := foldl (λ sr id, settle_invocation_rows id cause retention now sr) sr invocations in
  let envs := map env_id (filter_values (λ e, (env_owner e == Some owner)
      && negb (Env.is_terminal e) && negb (Env.is_fenced e)) (st_environments sr.1)) in
  foldl (λ sr id, fence_env id now sr) sr envs.

(** [crates/application/src/repository/memory.rs:958-1064 reclaim_expired] *)
Definition reclaim_expired (cfg : StoreConfig) (r : ReclaimRequest) : op ReclaimReport := λ s,
  let retention := cfg_idempotency_retention cfg in
  when! negb (may_reclaim r s) return! Ok (report_default, s);;
  let dead := dead_of r s in
  let report := report_default <| rep_dispatchers :=
    map disp_id (List.filter (λ d, is_reclaimed (judge r d)) (btree_values (st_dispatchers s))) |> in
  let s := s <| st_dispatchers ::= fmap (mark_reclaimed r) |> in
  let expired := omap (λ l, (λ c, (l, c)) <$> expiry_cause r dead l) (btree_values (st_leases s)) in
  let sr := foldl (reclaim_lease retention (req_now r)) (s, report) expired in
  let '(s, report) := foldl (reclaim_owner retention (req_now r)) sr (btree_entries dead) in
  Ok (report, s).

(** [crates/application/src/repository/memory.rs:1066-1075 list_fenced] *)
Definition list_fenced (s : State) : list ExecutionEnvironment :=
  filter_values (λ e, Env.is_fenced e && negb (Env.is_terminal e)) (st_environments s).

(** [crates/application/src/repository/memory.rs:1094-1095 FENCED_TERMINATED] *)
Definition FENCED_TERMINATED : string :=
  "owner lost its lease; environment fenced and terminate confirmed".

(** [crates/application/src/repository/memory.rs:1077-1091 confirm_terminated] *)
Definition confirm_terminated (id : EnvironmentId) (epoch : Z) (now : Timestamp) : op bool := λ s,
  match st_environments s !! id with
  | None => Ok (false, s)
  | Some env =>
      when! negb (Env.is_fenced env) || Env.is_terminal env || negb (env_epoch env =? epoch)
      return! Ok (false, s);;
      match Env.mark_lost FENCED_TERMINATED now env with
      | Ok env' => Ok (true, s <| st_environments ::= <[id := env']> |>)
      | Err _ => Ok (false, s)
      end
  end.
End Slots.

#[global] Arguments has_unreleased_lease : simpl never.
#[global] Arguments fence_env : simpl never.
#[global] Arguments settle_attempts : simpl never.
#[global] Arguments settle_invocation_rows : simpl never.
#[global] Arguments renew_dispatcher : simpl never.
#[global] Arguments Slots.judge : simpl never.
#[global] Arguments Slots.expiry_cause : simpl never.
#[global] Arguments Slots.reclaim_lease : simpl never.
#[global] Arguments Slots.reclaim_owner : simpl never.
