(* ===== verification/StoreInv.v ===== *)
(** * Invariants of the store

    Every mutating operation of the store as one command ([store_cmd]), the
    states they reach, and what holds in all of them: the slot invariant
    ([slot_inv]: leases, environments and attempts agree, one holder per
    environment) and the history of the rows ([state_le]: nothing final is
    rewritten, nothing released or fenced comes back). Last, which parts of the
    state each command leaves alone. *)

From S2P Require Import Prelude Ids Environment Invocation Functions Revision Guard Slot Store SlotStore.

Open Scope string_scope.
Open Scope Z_scope.

(** ** Commands *)

Inductive store_cmd : Type :=
| CInsertFunction (f : FunctionDef) | CUpdateFunction (f : FunctionDef)
| CAllocateNumber (f : FunctionId)
| CInsertRevision (r : FunctionRevision) | CUpdateRevision (r : FunctionRevision)
| CInsertAlias (a : FunctionAlias) | CSetAlias (a : FunctionAlias) (expected : Z)
| CInsertInvocation (i : Invocation) | CUpdateInvocation (i : Invocation)
| CInsertBound (i : Invocation) | CPurgeIdempotency (now : Timestamp)
| CInsertAttempt (a : InvocationAttempt) | CUpdateAttempt (a : InvocationAttempt)
| CClaimArtifact (t : TenantId) (d : Sha256Digest)
| CStamp (observe : ConfigRows → result RepoError (list ConfigObservation)) (since : Z)
| CAttach (o : ObjectRef) (i : InvocationId) (now : Timestamp)
| CCollect (o : ObjectRef) (r : CollectReason) (now : Timestamp)
| CForget (o : string) | CPurgeTombstones (before : Timestamp)
| CInsertEnvironment (e : ExecutionEnvironment) | CUpdateEnvironment (e : ExecutionEnvironment)
| CRegister (d : DispatcherRecord) | CHeartbeat (d : DispatcherId) (ttl : Duration) (now : Timestamp)
| COutage (d : DispatcherId) (ttl : Duration) (now : Timestamp)
| CStop (d : DispatcherId) (now : Timestamp)
| CReuse (k : ReuseKey) (o : option DispatcherId) (now : Timestamp)
| CPool (e : ExecutionEnvironment) (l : PoolLimits) (now : Timestamp)
| CTakeIdle (e : EnvironmentId) (now : Timestamp)
| CAcquire (r : SlotAcquire)
| CRenewLease (l : LeaseId) (o : DispatcherId) (epoch : Z) (ttl : Duration) (now : Timestamp)
| CComplete (c : SlotCompletion)
| CRelease (l : LeaseId) (a : AttemptId) (epoch : Z) (now : Timestamp)
| CReclaim (r : ReclaimRequest)
| CConfirm (e : EnvironmentId) (epoch : Z) (now : Timestamp).

(** The state an operation leaves behind, its answer dropped. *)
Definition after {A} (o : op A) (s : State) : result RepoError State := snd <$> o s.

Section Store.
Context (display : DomainError → string) (cfg : StoreConfig).

Definition run_cmd (c : store_cmd) : State → result RepoError State :=
  match c with
  | CInsertFunction f => after (FunctionRepo.insert f)
  | CUpdateFunction f => after (FunctionRepo.update f)
  | CAllocateNumber f => after (RevisionRepo.allocate_number f)
  | CInsertRevision r => after (RevisionRepo.insert r)
  | CUpdateRevision r => after (RevisionRepo.update r)
  | CInsertAlias a => after (AliasRepo.insert a)
  | CSetAlias a g => after (AliasRepo.compare_and_set a g)
  | CInsertInvocation i => after (InvocationRepo.insert cfg i)
  | CUpdateInvocation i => after (InvocationRepo.update cfg i)
  | CInsertBound i => after (IdempotencyRepo.insert_bound cfg i)
  | CPurgeIdempotency now => after (IdempotencyRepo.purge_expired_idempotency now)
  | CInsertAttempt a => after (InvocationRepo.insert_attempt a)
  | CUpdateAttempt a => after (InvocationRepo.update_attempt a)
  | CClaimArtifact t d => after (ArtifactRepo.claim t d)
  | CStamp o since => after (ConfigRepo.stamp_config o since)
  | CAttach o i now => after (ObjectRepo.attach_object o i now)
  | CCollect o r now => after (ObjectRepo.claim_for_collection o r now)
  | CForget o => after (ObjectRepo.forget_object o)
  | CPurgeTombstones b => after (ObjectRepo.purge_tombstones b)
  | CInsertEnvironment e => after (EnvironmentRepo.insert e)
  | CUpdateEnvironment e => after (EnvironmentRepo.update e)
  | CRegister d => after (Slots.register_dispatcher d)
  | CHeartbeat d ttl now => after (Slots.heartbeat d ttl now)
  | COutage d ttl now => after (Slots.renew_after_store_outage d ttl now)
  | CStop d now => after (Slots.stop_dispatcher d now)
  | CReuse k o now => after (Slots.claim_for_reuse k o now)
  | CPool e l now => after (Slots.release_to_pool e l now)
  | CTakeIdle e now => after (Slots.take_idle_for_termination e now)
  | CAcquire r => after (Slots.acquire cfg r)
  | CRenewLease l o ep ttl now => after (Slots.renew_lease l o ep ttl now)
  | CComplete c => after (Slots.complete display cfg c)
  | CRelease l a ep now => after (Slots.release_lease l a ep now)
  | CReclaim r => after (Slots.reclaim_expired cfg r)
  | CConfirm e ep now => after (Slots.confirm_terminated e ep now)
  end.

Inductive store_step (s s' : State) : Prop :=
| store_step_cmd c : run_cmd c s = Ok s' → store_step s s'.

(** The states a store that started empty goes through. *)
Definition store_reachable (s : State) : Prop := rtc store_step empty_state s.
End Store.

(** ** The slot invariant *)

Definition unreleased (l : ExecutionLease) : Prop := lease_released_at l = None.

(** The environment and the attempt a held lease is about agree with it. *)
Record lease_backed (s : State) (l : ExecutionLease) : Prop := {
  lb_env : ∃ e, st_environments s !! lease_environment_id l = Some e ∧
    env_epoch e = lease_epoch l ∧ env_owner e = lease_owner l ∧
    env_tenant_id e = lease_tenant_id l;
  lb_owner : lease_owner l ≠ None;
  lb_attempt : ∃ a, st_attempts s !! lease_attempt_id l = Some a ∧
    att_environment_id a = lease_environment_id l ∧ att_epoch a = lease_epoch l
}.

(** Every row is stored under its own id. *)
Definition keyed {A} (id : A → string) (m : gmap string A) : Prop :=
  ∀ k x, m !! k = Some x → id x = k.

Record slot_inv (s : State) : Prop := {
  si_env_key : keyed env_id (st_environments s);
  si_lease_key : keyed lease_id (st_leases s);
  si_attempt_key : keyed att_id (st_attempts s);
  si_invocation_key : keyed inv_id (st_invocations s);
  si_dispatcher_key : keyed disp_id (st_dispatchers s);
  si_one_holder : ∀ k1 k2 l1 l2,
    st_leases s !! k1 = Some l1 → st_leases s !! k2 = Some l2 →
    unreleased l1 → unreleased l2 → lease_environment_id l1 = lease_environment_id l2 → k1 = k2;
  si_backed : ∀ k l, st_leases s !! k = Some l → unreleased l → lease_backed s l
}.

(** *** What an accepted acquire and an accepted completion saw and wrote *)

Record acquired (cfg : StoreConfig) (r : SlotAcquire) (s s' : State) : Prop := {
  ac_stored : ∃ e, st_environments s !! env_id (acq_env r) = Some e ∧ acquirable r e ∧
    lease_tenant_id (acq_lease r) = env_tenant_id e;
  ac_owner : ∃ o d, lease_owner (acq_lease r) = Some o ∧ st_dispatchers s !! o = Some d ∧
    Disp.is_live d = true;
  ac_free : has_unreleased_lease s (env_id (acq_env r)) = false;
  ac_invocation : Slots.acquire_invocation cfg s (acq_invocation r) = Ok None;
  ac_attempt : st_attempts s !! att_id (acq_attempt r) = None;
  ac_lease : st_leases s !! lease_id (acq_lease r) = None;
  ac_write : s' = Slots.write_acquired r s
}.

Record completed (cfg : StoreConfig) (c : SlotCompletion) (s s' : State)
    (l : ExecutionLease) (w : Write) (iw : option (Invocation * Write)) : Prop := {
  cp_lease : st_leases s !! cmp_lease_id c = Some l;
  cp_unreleased : lease_released_at l = None;
  cp_attempt : lease_attempt_id l = att_id (cmp_attempt c);
  cp_epoch : lease_epoch l = att_epoch (cmp_attempt c);
  cp_env : ∀ e, st_environments s !! lease_environment_id l = Some e →
    env_epoch e = lease_epoch l ∧ env_fenced_at e = None;
  cp_row : ∃ a, st_attempts s !! att_id (cmp_attempt c) = Some a ∧
    AttemptStatus.is_terminal (att_status a) = false ∧
    attempt_update a (cmp_attempt c) = Ok w;
  cp_invocation : Slots.complete_invocation cfg s (cmp_invocation c) = Ok (inr iw);
  cp_write : s' = Slots.write_completed cfg (l <| lease_released_at := Some (cmp_now c) |>)
                    (cmp_attempt c) w iw s
}.

(** ** The history of the rows *)

Record inv_row_le (i i' : Invocation) : Prop := {
  irl_identity : (inv_id i', inv_tenant_id i', inv_function_id i', inv_mode i',
                  inv_dispatcher_id i', inv_idempotency_key i', inv_input_digest i') =
                 (inv_id i, inv_tenant_id i, inv_function_id i, inv_mode i,
                  inv_dispatcher_id i, inv_idempotency_key i, inv_input_digest i);
  irl_final : InvocationStatus.is_terminal (inv_status i) = true → i' = i
}.

Record att_row_le (a a' : InvocationAttempt) : Prop := {
  arl_identity : (att_id a', att_invocation_id a', att_tenant_id a', att_environment_id a',
                  att_epoch a', att_number a') =
                 (att_id a, att_invocation_id a, att_tenant_id a, att_environment_id a,
                  att_epoch a, att_number a);
  arl_final : AttemptStatus.is_terminal (att_status a) = true → a' = a
}.

Record env_row_le (e e' : ExecutionEnvironment) : Prop := {
  erl_identity : env_identity e e';
  erl_final : Env.is_terminal e = true → e' = e;
  erl_fenced : ∀ t, env_fenced_at e = Some t →
    env_fenced_at e' = Some t ∧ env_epoch e' = env_epoch e
}.

Record disp_row_le (d d' : DispatcherRecord) : Prop := {
  drl_identity : (disp_id d', disp_instance d', disp_hostname d', disp_pid d', disp_started_at d') =
                 (disp_id d, disp_instance d, disp_hostname d, disp_pid d, disp_started_at d);
  drl_live : Disp.is_live d' = true → Disp.is_live d = true;
  drl_expiry : disp_lease_expires_at d ≤ disp_lease_expires_at d';
  drl_stopped : ∀ t, disp_stopped_at d = Some t → disp_stopped_at d' = Some t;
  drl_reclaimed : ∀ t, disp_reclaimed_at d = Some t → disp_reclaimed_at d' = Some t
}.

Record alias_row_le (a a' : FunctionAlias) : Prop := {
  alrl_identity : (alias_function_id a', alias_tenant_id a', alias_name a') =
                  (alias_function_id a, alias_tenant_id a, alias_name a);
  alrl_generation : a' = a ∨ alias_generation a < alias_generation a'
}.

Record rev_row_le (r r' : FunctionRevision) : Prop := {
  rrl_identity : (rev_id r', rev_function_id r', rev_tenant_id r', rev_number r', rev_spec r',
                  rev_spec_digest r') =
                 (rev_id r, rev_function_id r, rev_tenant_id r, rev_number r, rev_spec r,
                  rev_spec_digest r);
  rrl_final : RevisionStatus.is_terminal (rev_status r) = true → r' = r
}.

(** Every row of [m] is still in [m'], as a later version of itself. *)
Definition rows_le `{Countable K} {A} (le : A → A → Prop) (m m' : gmap K A) : Prop :=
  ∀ k x, m !! k = Some x → ∃ x', m' !! k = Some x' ∧ le x x'.

Record state_le (s s' : State) : Prop := {
  sl_invocations : rows_le inv_row_le (st_invocations s) (st_invocations s');
  sl_attempts : rows_le att_row_le (st_attempts s) (st_attempts s');
  sl_environments : rows_le env_row_le (st_environments s) (st_environments s');
  sl_leases : rows_le lease_le (st_leases s) (st_leases s');
  sl_dispatchers : rows_le disp_row_le (st_dispatchers s) (st_dispatchers s');
  sl_aliases : rows_le alias_row_le (st_aliases s) (st_aliases s');
  sl_revisions : rows_le rev_row_le (st_revisions s) (st_revisions s')
}.

(** ** Lemmas *)

(** *** Preorders *)

#[global] Instance inv_row_le_preorder : PreOrder inv_row_le.
Proof.
  split; [by split|]. intros i1 i2 i3 [I1 F1] [I2 F2]. split; [congruence|].
  intros H. specialize (F1 H). subst. auto.
Qed.
#[global] Instance att_row_le_preorder : PreOrder att_row_le.
Proof.
  split; [by split|]. intros i1 i2 i3 [I1 F1] [I2 F2]. split; [congruence|].
  intros H. specialize (F1 H). subst. auto.
Qed.
#[global] Instance env_identity_preorder : PreOrder env_identity.
Proof. split; [by split|]. intros e1 e2 e3 [] []. split; congruence. Qed.
#[global] Instance env_row_le_preorder : PreOrder env_row_le.
Proof.
  split; [split; [reflexivity | auto | auto]|].
  intros e1 e2 e3 [I1 F1 X1] [I2 F2 X2]. split; [by etrans| |].
  - intros H. specialize (F1 H). subst. auto.
  - intros t Ht. destruct (X1 t Ht) as [Ht' E1]. destruct (X2 t Ht') as [? E2]. split; congruence.
Qed.
#[global] Instance disp_row_le_preorder : PreOrder disp_row_le.
Proof.
  split; [split; auto with lia|].
  intros d1 d2 d3 [I1 L1 E1 S1 R1] [I2 L2 E2 S2 R2]. split; auto; [congruence|lia].
Qed.
#[global] Instance alias_row_le_preorder : PreOrder alias_row_le.
Proof.
  split; [split; auto|]. intros a1 a2 a3 [I1 G1] [I2 G2]. split; [congruence|].
  destruct G1 as [->|], G2 as [->|]; auto. right. lia.
Qed.
#[global] Instance rev_row_le_preorder : PreOrder rev_row_le.
Proof.
  split; [by split|]. intros i1 i2 i3 [I1 F1] [I2 F2]. split; [congruence|].
  intros H. specialize (F1 H). subst. auto.
Qed.

Section Rows.
Context `{Countable K} {A : Type} (le : A → A → Prop) `{!PreOrder le}.
Implicit Types m : gmap K A.

#[global] Instance rows_le_preorder : PreOrder (rows_le (K := K) le).
Proof.
  split.
  - intros m k x Hx. exists x. split; [done|reflexivity].
  - intros m1 m2 m3 H12 H23 k x Hx. destruct (H12 k x Hx) as (y & Hy & ?).
    destruct (H23 k y Hy) as (z & Hz & ?). exists z. split; [done|by etrans].
Qed.

Lemma rows_le_insert_fresh m k x : m !! k = None → rows_le le m (<[k := x]> m).
Proof.
  intros Hk j y Hy. exists y. split; [|reflexivity]. rewrite lookup_insert_ne; congruence.
Qed.

Lemma rows_le_insert m k x x' : m !! k = Some x → le x x' → rows_le le m (<[k := x']> m).
Proof.
  intros Hk Hle j y Hy. destruct (decide (j = k)) as [->|Hne].
  - exists x'. rewrite lookup_insert_eq. simplify_eq. done.
  - exists y. rewrite lookup_insert_ne by done. split; [done|reflexivity].
Qed.

Lemma rows_le_fmap m f : (∀ x, le x (f x)) → rows_le le m (f <$> m).
Proof. intros Hf k x Hk. exists (f x). rewrite lookup_fmap, Hk. done. Qed.
End Rows.

#[global] Instance state_le_preorder : PreOrder state_le.
Proof.
  split.
  - intros s. split; reflexivity.
  - intros s1 s2 s3 [] []. split; by etrans.
Qed.

#[export] Hint Resolve rows_le_insert_fresh rows_le_insert rows_le_fmap : tsls.

(** *** Rows that evolve *)

Lemma inv_update_row_le old new max w : invocation_update old new max = Ok w → inv_row_le old new.
Proof.
  intros H%invocation_update_Ok. destruct_and! H. split; [congruence|].
  intros Ht. destruct_or!; destruct_and!; congruence.
Qed.

Lemma att_update_row_le old new w : attempt_update old new = Ok w → att_row_le old new.
Proof.
  intros H%attempt_update_Ok. destruct_and! H. split; [congruence|].
  intros Ht. destruct_or!; destruct_and!; congruence.
Qed.

Lemma env_update_row_le old new w : environment_update old new = Ok w → env_row_le old new.
Proof.
  intros H%environment_update_Ok. destruct_and! H. split; [done| |].
  - intros Ht. destruct_or!; destruct_and!; congruence.
  - intros t Ht. split; congruence.
Qed.

Lemma rev_update_row_le old new w : revision_update old new = Ok w → rev_row_le old new.
Proof.
  intros H%revision_update_Ok. destruct_and! H. split; [congruence|].
  intros Ht. destruct_or!; destruct_and!; congruence.
Qed.

Lemma alias_update_row_le old new : alias_update old new = Ok tt → alias_row_le old new.
Proof.
  unfold alias_update. intros H. steps. destruct a. identity Hm. pass Hk. bools.
  split; [congruence|by right].
Qed.

Lemma settle_inv_row_le i cause now i' b :
  settle_invocation_with i cause now = (i', b) → inv_row_le i i'.
Proof.
  intros H%settle_invocation_with_spec. destruct_or! H; destruct_and! H; subst; [reflexivity|].
  match goal with E : i' = _ |- _ => rewrite E end. split; [done|congruence].
Qed.

Lemma settle_att_row_le a unknown cause now :
  att_row_le a (settle_attempt_with a unknown cause now).1.
Proof.
  destruct (settle_attempt_with a unknown cause now) as [a' b] eqn:H. cbn.
  apply settle_attempt_with_spec in H. destruct_or! H; destruct_and! H; subst; [reflexivity|].
  match goal with E : a' = _ |- _ => rewrite E end. split; [done|congruence].
Qed.

Lemma transition_row_le to now e e' : Env.transition to now e = Ok e' → env_row_le e e'.
Proof.
  intros H. pose proof (transition_frame _ _ _ _ H) as Hf. destruct_and! Hf.
  apply transition_Ok in H as (Ht & _). split; [by split|congruence|]. intros t Hft. split; congruence.
Qed.

Lemma fence_row_le now e e' n :
  Env.fence now e = Ok (e', n) → env_fenced_at e = None → env_row_le e e'.
Proof.
  intros (Ht & -> & ->)%fence_Ok Hf. split; [by split|congruence|].
  intros t Hft. congruence.
Qed.

Lemma acquirable_row_le r e : acquirable r e → env_row_le e (acq_env r).
Proof.
  intros H. destruct (aq_state _ _ H) as [Hs|Hs]; destruct H; (split; [done| |congruence]);
    unfold Env.is_terminal; by rewrite Hs.
Qed.

Lemma renew_one_le revive now ttl l : lease_le l (or_unchanged l (renew_one revive now ttl l)).
Proof.
  destruct (renew_one revive now ttl l) as [l'|] eqn:H; [|reflexivity]. cbn.
  destruct revive; [apply (run_lease_op_le (LRevive ttl) now) | apply (run_lease_op_le (LRenew ttl) now)];
    exact H.
Qed.

Lemma release_le now l l' : Lse.release now l = Ok l' → lease_le l l'.
Proof. apply (run_lease_op_le LRelease). Qed.

Lemma release_Ok now l l' :
  Lse.release now l = Ok l' ↔
  lease_released_at l = None ∧ l' = l <| lease_released_at := Some now |>.
Proof. unfold Lse.release. destruct (lease_released_at l); cbn; naive_solver. Qed.
#[export] Hint Resolve inv_update_row_le att_update_row_le env_update_row_le rev_update_row_le
  alias_update_row_le settle_inv_row_le settle_att_row_le transition_row_le fence_row_le
  acquirable_row_le renew_one_le release_le : tsls.

(** *** What the slot operations do, case by case *)

Lemma acquire_Ok cfg r s out s' :
  Slots.acquire cfg r s = Ok (out, s') →
  ((∃ reason, out = AcquireOutcome.Lost reason) ∧ s' = s) ∨
  (out = AcquireOutcome.Acquired ∧ acquired cfg r s s').
Proof.
  unfold Slots.acquire, Slots.lost. intros H. steps. rename Hm into Hpre.
  destruct a as [reason|]; [steps; eauto|].
  apply acquire_preconditions_None in Hpre as (e & He & Hacq). rewrite He in Hk.
  destruct (lease_owner (acq_lease r)) as [o|] eqn:Ho; [|discriminate].
  destruct (Slots.owner_lost s o) eqn:Hlive; [steps; eauto|].
  destruct (has_unreleased_lease _ _) eqn:Hfree; [steps; eauto|]. steps.
  destruct a as [reason|]; [steps; eauto|]. pass Hk0. pass Hk0. steps.
  right. split; [done|]. bools.
  unfold lease_insert in Hm1. destruct a0. apply same_tenant_Ok in Hm1.
  unfold Slots.owner_lost in Hlive. destruct (st_dispatchers s !! o) as [d|] eqn:Hd; [|done].
  destruct (Disp.is_live d) eqn:Hlv; [|done].
  split; try done; [by exists e | by exists o, d].
Qed.

Lemma complete_Ok display cfg c s out s' :
  Slots.complete display cfg c s = Ok (out, s') →
  ((∃ reason, out = CompletionOutcome.Stale reason) ∧ s' = s) ∨
  (out = CompletionOutcome.Accepted ∧ ∃ l w iw, completed cfg c s s' l w iw).
Proof.
  unfold Slots.complete, Slots.stale. intros H.
  destruct (lease_is_current _ _ _ _) eqn:Hc; [steps; eauto|].
  apply lease_is_current_None in Hc as (l & Hl & Hr & Ha & Hep & Henv). rewrite Hl in H, Henv.
  cbn in Henv. destruct (st_attempts s !! _) as [a|] eqn:Hat; [|discriminate].
  destruct (AttemptStatus.is_terminal _) eqn:Ht; [steps; eauto|]. steps.
  destruct a1 as [reason|iw]; [steps; eauto|]. steps.
  unfold map_err, Lse.release in Hm1. rewrite Hr in Hm1. cbn in Hm1. steps.
  right. split; [done|]. exists l, a0, iw. split; eauto.
  intros e He. destruct (Henv e He). split; congruence.
Qed.

Lemma complete_invocation_Ok cfg s io iw :
  Slots.complete_invocation cfg s io = Ok (inr iw) →
  match iw with
  | None => io = None
  | Some (i, w) => io = Some i ∧ ∃ old, st_invocations s !! inv_id i = Some old ∧
      InvocationStatus.is_terminal (inv_status old) = false ∧
      invocation_update old i (max_response_bytes (cfg_limits cfg)) = Ok w
  end.
Proof.
  unfold Slots.complete_invocation. intros H. destruct io as [i|]; [|by simplify_eq].
  destruct (st_invocations s !! inv_id i) as [old|] eqn:Ho; [|discriminate].
  destruct (InvocationStatus.is_terminal _) eqn:Ht; [discriminate|]. steps. eauto.
Qed.

Lemma acquire_invocation_Ok cfg s io :
  Slots.acquire_invocation cfg s io = Ok None →
  ∀ i, io = Some i → ∃ old w, st_invocations s !! inv_id i = Some old ∧
    InvocationStatus.is_terminal (inv_status old) = false ∧
    invocation_update old i (max_response_bytes (cfg_limits cfg)) = Ok w.
Proof.
  unfold Slots.acquire_invocation. intros H i ->.
  destruct (st_invocations s !! inv_id i) as [old|] eqn:Ho; [|discriminate].
  destruct (InvocationStatus.is_terminal _) eqn:Ht; [discriminate|]. steps. eauto.
Qed.

(** *** Every command moves the rows forward *)

(** The control-plane rows of [s'] are those of [s] up to the part named. *)
Ltac same_rows := split; cbn; try reflexivity.

Lemma set_binding_expiry_le inv retention s : state_le s (set_binding_expiry inv retention s).
Proof. unfold set_binding_expiry. destruct (_ || _); [reflexivity | same_rows]. Qed.

Lemma insert_invocation_le i max s s' : insert_invocation i max s = Ok s' → state_le s s'.
Proof.
  unfold insert_invocation. intros H. pass H. steps. bools. same_rows. eauto with tsls typeclass_instances.
Qed.

(** Reads the row an update found and the write it was allowed. *)
Lemma fence_env_le id now s report : state_le s (fence_env id now (s, report)).1.
Proof.
  unfold fence_env. destruct (st_environments s !! id) as [e|] eqn:He; [|reflexivity].
  destruct (negb _ && negb _) eqn:Hf; [|reflexivity].
  destruct (Env.fence now e) as [[e' n]|] eqn:Hfe; [|reflexivity]. cbn. same_rows.
  eapply rows_le_insert; [apply _|eassumption|]. eapply fence_row_le; [done|].
  unfold Env.is_fenced in Hf. bools. done.
Qed.

Lemma settle_attempts_le inv unknown cause now s report :
  state_le s (settle_attempts inv unknown cause now (s, report)).1.
Proof.
  unfold settle_attempts. same_rows. apply rows_le_fmap. intros a.
  case_bool_decide; [apply settle_att_row_le | reflexivity].
Qed.

Lemma settle_invocation_rows_le id cause retention now s report :
  keyed inv_id (st_invocations s) →
  state_le s (settle_invocation_rows id cause retention now (s, report)).1.
Proof.
  intros Hkey. unfold settle_invocation_rows.
  destruct (st_invocations s !! id) as [i|] eqn:Hi; [|reflexivity].
  destruct (survives_dispatcher i); [apply settle_attempts_le|].
  destruct (settle_invocation_with i cause now) as [i' b] eqn:Hs.
  pose proof (settle_inv_row_le _ _ _ _ _ Hs) as Hle.
  destruct b; [|apply settle_attempts_le].
  etrans; [|apply settle_attempts_le]. etrans; [|apply set_binding_expiry_le]. same_rows.
  assert (inv_id i' = id) as ->.
  { rewrite <-(Hkey _ _ Hi). pose proof (irl_identity _ _ Hle). congruence. }
  eauto with tsls typeclass_instances.
Qed.

Lemma write_acquired_le cfg r s s' : acquired cfg r s s' → state_le s s'.
Proof.
  intros [(e & He & Hacq & _) _ _ Hinv Hatt Hlease ->]. unfold Slots.write_acquired.
  pose proof (acquire_invocation_Ok cfg s _ Hinv) as Hi.
  destruct (acq_invocation r) as [i|].
  - destruct (Hi i eq_refl) as (old & w & Hold & _ & Hu). same_rows; eauto with tsls typeclass_instances.
  - same_rows; eauto with tsls typeclass_instances.
Qed.

Lemma write_completed_le cfg c s s' l w iw :
  slot_inv s → completed cfg c s s' l w iw → state_le s s'.
Proof.
  intros Hinv [Hl Hr _ _ _ (a & Ha & _ & Hau) Hcinv ->].
  set (l' := l <| lease_released_at := Some (cmp_now c) |>).
  assert (lease_le l l') as Hle by (apply (release_le (cmp_now c)); apply release_Ok; done).
  assert (lease_id l = cmp_lease_id c) as Hid by apply (si_lease_key _ Hinv _ _ Hl).
  apply complete_invocation_Ok in Hcinv. unfold Slots.write_completed.
  set (s1 := s <| st_leases ::= <[lease_id l' := l']> |>).
  assert (state_le s s1) as H1.
  { same_rows. rewrite Hid. eauto with tsls typeclass_instances. }
  set (s2 := if w == Apply then _ else s1).
  assert (state_le s1 s2) as H2.
  { unfold s2. destruct (w == Apply); [|reflexivity]. same_rows. eauto with tsls typeclass_instances. }
  assert (st_invocations s2 = st_invocations s) as Hi2 by (unfold s2; by destruct (w == Apply)).
  etrans; [exact H1|]. etrans; [exact H2|].
  destruct iw as [[i [|]]|]; [|reflexivity..].
  etrans; [|apply set_binding_expiry_le]. destruct Hcinv as (_ & old & Hold & _ & Hu).
  same_rows. rewrite Hi2. eauto with tsls typeclass_instances.
Qed.

Lemma renew_dispatcher_le id ttl now revive s out s' :
  renew_dispatcher id ttl now revive s = (out, s') → state_le s s'.
Proof.
  unfold renew_dispatcher. destruct (st_dispatchers s !! id) as [d|] eqn:Hd; [|by intros [= <- <-]].
  destruct (_ || _); intros [= <- <-]; [reflexivity|]. same_rows.
  - apply rows_le_fmap. intros l. destruct (renewable_by id l); [|reflexivity].
    apply renew_one_le.
  - eapply rows_le_insert; [apply _|eassumption|]. split; cbn; auto with lia.
Qed.

(** *** The slot invariant through each operation *)

Lemma keyed_empty {A} (id : A → string) : keyed id ∅.
Proof. intros k x Hx. by rewrite lookup_empty in Hx. Qed.

Lemma keyed_insert {A} (id : A → string) m k x : keyed id m → id x = k → keyed id (<[k := x]> m).
Proof.
  intros Hm Hx j y. destruct (decide (j = k)) as [->|Hne].
  - rewrite lookup_insert_eq. congruence.
  - rewrite lookup_insert_ne by done. apply Hm.
Qed.

Lemma keyed_fmap {A} (id : A → string) m f : keyed id m → (∀ x, id (f x) = id x) → keyed id (f <$> m).
Proof.
  intros Hm Hf k y. rewrite lookup_fmap, fmap_Some. intros (x & Hx & ->). rewrite Hf. by apply Hm.
Qed.

Lemma keyed_rows_insert {A} (id : A → string) m k x x' :
  keyed id m → m !! k = Some x → (id x' = id x) → keyed id (<[k := x']> m).
Proof. intros Hm Hx Hid. apply keyed_insert; [done|]. rewrite Hid. by apply Hm. Qed.

(** The fields of a lease that say who holds what. *)
Definition same_holder (l l' : ExecutionLease) : Prop :=
  (lease_environment_id l', lease_attempt_id l', lease_epoch l', lease_owner l', lease_tenant_id l')
  = (lease_environment_id l, lease_attempt_id l, lease_epoch l, lease_owner l, lease_tenant_id l).

Lemma lease_le_holder l l' : lease_le l l' → same_holder l l'.
Proof. intros [Hs _ _]. rewrite Hs. done. Qed.

Lemma lease_le_unreleased l l' : lease_le l l' → unreleased l' → unreleased l.
Proof.
  intros [_ Hr _] Hu. unfold unreleased in *. destruct (lease_released_at l) as [t|] eqn:E; [|done].
  rewrite Hr in Hu; congruence.
Qed.

(** Anything that takes no lease, keeps the attempts and moves no environment
    that is held keeps the invariant. *)
Lemma slot_inv_evolve s s' :
  slot_inv s →
  keyed env_id (st_environments s') → keyed lease_id (st_leases s') →
  keyed att_id (st_attempts s') → keyed inv_id (st_invocations s') →
  keyed disp_id (st_dispatchers s') →
  (∀ k l', st_leases s' !! k = Some l' → unreleased l' →
     ∃ l, st_leases s !! k = Some l ∧ unreleased l ∧ same_holder l l') →
  (∀ k l e, st_leases s' !! k = Some l → unreleased l →
     st_environments s !! lease_environment_id l = Some e →
     ∃ e', st_environments s' !! lease_environment_id l = Some e' ∧
       (env_epoch e', env_owner e', env_tenant_id e') = (env_epoch e, env_owner e, env_tenant_id e)) →
  rows_le att_row_le (st_attempts s) (st_attempts s') →
  slot_inv s'.
Proof.
  intros Hinv ? ? ? ? ? Hl He Ha. split; try done.
  - intros k1 k2 l1 l2 K1 K2 U1 U2 Heq.
    destruct (Hl _ _ K1 U1) as (m1 & M1 & V1 & S1). destruct (Hl _ _ K2 U2) as (m2 & M2 & V2 & S2).
    apply (si_one_holder _ Hinv _ _ _ _ M1 M2 V1 V2). unfold same_holder in *. congruence.
  - intros k l' Hk U. destruct (Hl _ _ Hk U) as (l & Hlk & V & S).
    destruct (si_backed _ Hinv _ _ Hlk V) as [(e & Hee & E1 & E2 & E3) Ho (a & Haa & A1 & A2)].
    unfold same_holder in S. simplify_eq.
    assert (st_environments s !! lease_environment_id l' = Some e) as He0 by congruence.
    destruct (He _ _ _ Hk U He0) as (e' & He' & Heq). simplify_eq.
    destruct (Ha _ _ Haa) as (a' & Haa' & [Hai _]). simplify_eq.
    split; [|congruence|].
    + exists e'. split_and!; congruence.
    + exists a'. split_and!; congruence.
Qed.

(** The environments held by a lease. *)
Definition held (s : State) (env : EnvironmentId) : Prop :=
  ∃ k l, st_leases s !! k = Some l ∧ unreleased l ∧ lease_environment_id l = env.

Lemma has_unreleased_lease_held s env : has_unreleased_lease s env = true ↔ held s env.
Proof.
  unfold has_unreleased_lease, held, unreleased. rewrite any_value_true. split.
  - intros (k & l & Hl & Hb). bools. eauto.
  - intros (k & l & Hl & Hr & He). exists k, l. split; [done|].
    rewrite Hr, bool_decide_true; done.
Qed.

Lemma has_unreleased_lease_free s env : has_unreleased_lease s env = false ↔ ¬ held s env.
Proof. rewrite <-has_unreleased_lease_held. by destruct (has_unreleased_lease s env). Qed.

(** Only the control-plane rows changed. *)
Lemma slot_inv_control s s' :
  slot_inv s → st_environments s' = st_environments s → st_leases s' = st_leases s →
  st_attempts s' = st_attempts s → st_dispatchers s' = st_dispatchers s →
  keyed inv_id (st_invocations s') → slot_inv s'.
Proof.
  intros Hinv He Hl Ha Hd Hi.
  apply (slot_inv_evolve s); rewrite ?He, ?Hl, ?Ha, ?Hd; try done; try apply Hinv.
  - intros k l Hk U. by exists l.
  - intros k l e Hk U Hle. by exists e.
Qed.

(** One environment row changed, and nobody holds it under another epoch. *)
Lemma slot_inv_env s k e e' :
  slot_inv s → st_environments s !! k = Some e → env_identity e e' →
  (held s k → env_epoch e' = env_epoch e) →
  slot_inv (s <| st_environments ::= <[k := e']> |>).
Proof.
  intros Hinv He [] Hh. apply (slot_inv_evolve s); cbn; try done; try apply Hinv.
  - eapply keyed_rows_insert; eauto. apply Hinv.
  - intros j l Hk U. by exists l.
  - intros j l e0 Hk U He0. destruct (decide (lease_environment_id l = k)) as [<-|Hne].
    + exists e'. rewrite lookup_insert_eq. split; [done|]. simplify_eq.
      rewrite Hh by (exists j, l; done). congruence.
    + exists e0. by rewrite lookup_insert_ne.
Qed.

Lemma slot_inv_env_fresh s e :
  slot_inv s → st_environments s !! env_id e = None →
  slot_inv (s <| st_environments ::= <[env_id e := e]> |>).
Proof.
  intros Hinv He. apply (slot_inv_evolve s); cbn; try done; try apply Hinv.
  - apply keyed_insert; [apply Hinv|done].
  - intros j l Hk U. by exists l.
  - intros j l e0 Hk U He0. exists e0. rewrite lookup_insert_ne by congruence. done.
Qed.

(** One lease row moved forward. *)
Lemma slot_inv_lease s k l l' :
  slot_inv s → st_leases s !! k = Some l → lease_le l l' →
  slot_inv (s <| st_leases ::= <[k := l']> |>).
Proof.
  intros Hinv Hl Hle. apply (slot_inv_evolve s); cbn; try done; try apply Hinv.
  - eapply keyed_rows_insert; eauto; [apply Hinv|]. by destruct Hle as [-> _ _].
  - intros j m. destruct (decide (j = k)) as [->|Hne].
    + rewrite lookup_insert_eq. intros [= <-] U. exists l. split; [done|].
      split; [by eapply lease_le_unreleased|by apply lease_le_holder].
    + rewrite lookup_insert_ne by done. intros Hm U. by exists m.
  - intros j m e Hj U He. by exists e.
Qed.

Lemma slot_inv_attempts s m :
  slot_inv s → rows_le att_row_le (st_attempts s) m → keyed att_id m →
  slot_inv (s <| st_attempts := m |>).
Proof.
  intros Hinv Hle Hm. apply (slot_inv_evolve s); cbn; try done; try apply Hinv.
  - intros j l Hk U. by exists l.
  - intros j l e Hk U He. by exists e.
Qed.

Lemma slot_inv_attempt s a a' :
  slot_inv s → st_attempts s !! att_id a' = Some a → att_row_le a a' →
  slot_inv (s <| st_attempts ::= <[att_id a' := a']> |>).
Proof.
  intros Hinv Ha Hle. apply (slot_inv_attempts s); [done| |].
  - eauto with tsls typeclass_instances.
  - apply keyed_insert; [apply Hinv|done].
Qed.

Lemma slot_inv_dispatchers s m :
  slot_inv s → keyed disp_id m → slot_inv (s <| st_dispatchers := m |>).
Proof.
  intros Hinv Hm. apply (slot_inv_evolve s); cbn; try done; try apply Hinv.
  - intros j l Hk U. by exists l.
  - intros j l e Hk U He. by exists e.
Qed.

Lemma set_binding_expiry_frame inv r s :
  st_environments (set_binding_expiry inv r s) = st_environments s ∧
  st_leases (set_binding_expiry inv r s) = st_leases s ∧
  st_attempts (set_binding_expiry inv r s) = st_attempts s ∧
  st_dispatchers (set_binding_expiry inv r s) = st_dispatchers s ∧
  st_invocations (set_binding_expiry inv r s) = st_invocations s.
Proof. unfold set_binding_expiry. by destruct (_ || _). Qed.

Lemma slot_inv_binding inv r s : slot_inv s → slot_inv (set_binding_expiry inv r s).
Proof.
  intros Hinv. destruct (set_binding_expiry_frame inv r s) as (? & ? & ? & ? & Hi).
  apply (slot_inv_control s); try done. rewrite Hi. apply Hinv.
Qed.

Lemma slot_inv_invocation s i :
  slot_inv s → slot_inv (s <| st_invocations ::= <[inv_id i := i]> |>).
Proof. intros Hinv. apply (slot_inv_control s); try done. apply keyed_insert; [apply Hinv|done]. Qed.

Lemma insert_invocation_inv i max s s' :
  insert_invocation i max s = Ok s' → slot_inv s → slot_inv s'.
Proof. unfold insert_invocation. intros H Hinv. pass H. steps. by apply slot_inv_invocation. Qed.

Lemma write_acquired_inv cfg r s s' : acquired cfg r s s' → slot_inv s → slot_inv s'.
Proof.
  intros [(e & He & Hacq & Htn) (o & d & Ho & _) Hfree _ Hatt Hlease ->] Hinv.
  apply has_unreleased_lease_free in Hfree.
  destruct Hacq as [Q1 Q2 Q3 Q4 Q5 Q6 Q7 Q8 Q9 Q10 [] Q12 Q13 Q14 Q15].
  enough (slot_inv (s <| st_environments ::= <[env_id (acq_env r) := acq_env r]> |>
             <| st_leases ::= <[lease_id (acq_lease r) := acq_lease r]> |>
             <| st_attempts ::= <[att_id (acq_attempt r) := acq_attempt r]> |>)).
  { unfold Slots.write_acquired. destruct (acq_invocation r); [by apply slot_inv_invocation|done]. }
  assert (∀ k l, st_leases s !! k = Some l → unreleased l →
            lease_environment_id l ≠ env_id (acq_env r)) as Hothers.
  { intros k l Hk U Heq. apply Hfree. by exists k, l. }
  split; cbn; try (apply keyed_insert; [apply Hinv|done]); try apply Hinv.
  - intros k1 k2 l1 l2 H1 H2 U1 U2 Heq.
    apply lookup_insert_Some in H1 as [[<- <-]|[N1 H1]], H2 as [[<- <-]|[N2 H2]]; [done| | |].
    + destruct (Hothers _ _ H2 U2). congruence.
    + destruct (Hothers _ _ H1 U1). congruence.
    + by apply (si_one_holder _ Hinv _ _ _ _ H1 H2).
  - intros k l Hk U. apply lookup_insert_Some in Hk as [[<- <-]|[N Hk]].
    + split; cbn; [|congruence|].
      * exists (acq_env r). rewrite Q4, lookup_insert_eq.
        split_and!; congruence.
      * exists (acq_attempt r). rewrite Q6, lookup_insert_eq. split_and!; congruence.
    + destruct (si_backed _ Hinv _ _ Hk U) as [(e' & He' & ?) ? (a & Ha & ?)].
      pose proof (Hothers _ _ Hk U). split; cbn; [|done|].
      * exists e'. by rewrite lookup_insert_ne by congruence.
      * exists a. rewrite lookup_insert_ne by congruence. done.
Qed.

Lemma write_completed_inv cfg c s s' l w iw : completed cfg c s s' l w iw → slot_inv s → slot_inv s'.
Proof.
  intros [Hl Hr _ _ _ (a & Ha & _ & Hau) Hcinv ->] Hinv.
  set (l' := l <| lease_released_at := Some (cmp_now c) |>).
  assert (lease_le l l') as Hle by (apply (release_le (cmp_now c)); apply release_Ok; done).
  assert (lease_id l = cmp_lease_id c) as Hid by apply (si_lease_key _ Hinv _ _ Hl).
  unfold Slots.write_completed.
  assert (slot_inv (s <| st_leases ::= <[lease_id l' := l']> |>)) as H1.
  { change (lease_id l') with (lease_id l). rewrite Hid. by apply (slot_inv_lease s _ l). }
  set (s1 := s <| st_leases ::= _ |>) in *.
  set (s2 := if w == Apply then _ else s1).
  assert (slot_inv s2) as H2.
  { unfold s2. destruct (w == Apply); [|done]. eapply slot_inv_attempt; [done|exact Ha|].
    by eapply att_update_row_le. }
  destruct iw as [[i [|]]|]; [|done..]. by apply slot_inv_binding, slot_inv_invocation.
Qed.

Lemma renew_dispatcher_inv id ttl now revive s out s' :
  renew_dispatcher id ttl now revive s = (out, s') → slot_inv s → slot_inv s'.
Proof.
  unfold renew_dispatcher. intros H Hinv. destruct (st_dispatchers s !! id) as [d|] eqn:Hd; [|by simplify_eq].
  destruct (_ || _); injection H as <- <-; [done|].
  assert (∀ l, lease_le l (if renewable_by id l then or_unchanged l (renew_one revive now ttl l) else l)) as Hle.
  { intros l. destruct (renewable_by id l); [apply renew_one_le | reflexivity]. }
  apply (slot_inv_evolve s); cbn; try apply Hinv; try done.
  - apply keyed_fmap; [apply Hinv|]. intros l. by destruct (Hle l) as [-> _ _].
  - eapply keyed_rows_insert; eauto. apply Hinv.
  - intros k l'. rewrite lookup_fmap, fmap_Some. intros (l & Hl & ->) U. exists l.
    split; [done|]. split; [eapply lease_le_unreleased, U; apply Hle|apply lease_le_holder, Hle].
  - intros k l e _ _ He. by exists e.
Qed.

Lemma fence_env_inv id now s report :
  slot_inv s → ¬ held s id → slot_inv (fence_env id now (s, report)).1.
Proof.
  intros Hinv Hfree. unfold fence_env. destruct (st_environments s !! id) as [e|] eqn:He; [|done].
  destruct (negb _ && negb _); [|done].
  destruct (Env.fence now e) as [[e' n]|] eqn:Hf; [|done]. cbn.
  apply fence_Ok in Hf as (_ & -> & ->). eapply slot_inv_env; [done|exact He|by split|done].
Qed.

Lemma settle_attempts_inv inv unknown cause now s report :
  slot_inv s → slot_inv (settle_attempts inv unknown cause now (s, report)).1.
Proof.
  intros Hinv. unfold settle_attempts. cbn [fst].
  assert (∀ a, att_row_le a (if att_invocation_id a == inv
    then (settle_attempt_with a unknown cause now).1 else a)) as Hle.
  { intros a. case_bool_decide; [apply settle_att_row_le | reflexivity]. }
  apply (slot_inv_attempts s); [done|by apply rows_le_fmap|]. apply keyed_fmap; [apply Hinv|].
  intros a. destruct (Hle a) as [Hid _]. congruence.
Qed.

Lemma settle_invocation_rows_inv id cause r now s report :
  slot_inv s → slot_inv (settle_invocation_rows id cause r now (s, report)).1.
Proof.
  intros Hinv. unfold settle_invocation_rows.
  destruct (st_invocations s !! id) as [i|]; [|done].
  destruct (if survives_dispatcher i then _ else _) as [i' []]; apply settle_attempts_inv; [|done].
  by apply slot_inv_binding, slot_inv_invocation.
Qed.

(** *** Reclaim *)

Lemma settle_attempts_frame inv u c now s r :
  let s' := (settle_attempts inv u c now (s, r)).1 in
  st_environments s' = st_environments s ∧ st_leases s' = st_leases s ∧
  st_dispatchers s' = st_dispatchers s ∧ st_invocations s' = st_invocations s.
Proof. done. Qed.

Lemma settle_invocation_rows_frame id c ret now s r :
  let s' := (settle_invocation_rows id c ret now (s, r)).1 in
  st_environments s' = st_environments s ∧ st_leases s' = st_leases s ∧
  st_dispatchers s' = st_dispatchers s.
Proof.
  unfold settle_invocation_rows. destruct (st_invocations s !! id) as [i|]; [|done].
  destruct (if survives_dispatcher i then _ else _) as [i' []]; [|done].
  pose proof (set_binding_expiry_frame i' ret (s <| st_invocations ::= <[inv_id i' := i']> |>)) as H.
  destruct_and! H. split_and!; done.
Qed.

Lemma fence_env_frame id now s r :
  let s' := (fence_env id now (s, r)).1 in
  st_leases s' = st_leases s ∧ st_attempts s' = st_attempts s ∧
  st_dispatchers s' = st_dispatchers s ∧ st_invocations s' = st_invocations s ∧
  (∀ k, k ≠ id → st_environments s' !! k = st_environments s !! k).
Proof.
  unfold fence_env. destruct (st_environments s !! id) as [e|]; [|done].
  destruct (negb _ && negb _); [|done]. destruct (Env.fence now e) as [[e' n]|]; [|done]. cbn.
  split_and!; try done. intros k Hk. by rewrite lookup_insert_ne.
Qed.

(** What one step of a reclaim does to the slot rows. *)
Record reclaim_step (s s' : State) : Prop := {
  rs_inv : slot_inv s';
  rs_le : state_le s s';
  rs_dispatchers : st_dispatchers s' = st_dispatchers s
}.

Lemma reclaim_step_refl s : slot_inv s → reclaim_step s s.
Proof. by split. Qed.

Lemma reclaim_step_trans s1 s2 s3 : reclaim_step s1 s2 → reclaim_step s2 s3 → reclaim_step s1 s3.
Proof. intros [] []. split; [done|by etrans|congruence]. Qed.

Lemma settle_invocation_rows_step id c ret now s r :
  slot_inv s → reclaim_step s (settle_invocation_rows id c ret now (s, r)).1.
Proof.
  intros Hinv. split.
  - by apply settle_invocation_rows_inv.
  - apply settle_invocation_rows_le, Hinv.
  - apply settle_invocation_rows_frame.
Qed.

Lemma fence_env_step id now s r :
  slot_inv s → ¬ held s id → reclaim_step s (fence_env id now (s, r)).1.
Proof.
  intros Hinv Hh. split; [by apply fence_env_inv|apply fence_env_le|apply fence_env_frame].
Qed.

(** The part of [reclaim_lease] that settles the attempt and its invocation. *)
Lemma reclaim_attempt_step s (r : ReclaimReport) k att c now :
  slot_inv s → st_attempts s !! k = Some att →
  reclaim_step s (s <| st_attempts ::= <[k := (settle_attempt_with att true c now).1]> |>).
Proof.
  intros Hinv Ha. pose proof (settle_att_row_le att true c now) as Hle.
  set (att' := (settle_attempt_with att true c now).1) in *.
  assert (att_id att' = k) as <-.
  { destruct Hle as [Hid _]. rewrite <-(si_attempt_key _ Hinv _ _ Ha). congruence. }
  split; [by eapply slot_inv_attempt| |done]. same_rows. eauto with tsls typeclass_instances.
Qed.

Lemma release_other_holders s k l l' now :
  slot_inv s → st_leases s !! k = Some l → Lse.release now l = Ok l' →
  ¬ held (s <| st_leases ::= <[k := l']> |>) (lease_environment_id l).
Proof.
  intros Hinv Hl (Hu & ->)%release_Ok (j & m & Hm & Um & Hem). cbn in Hm.
  apply lookup_insert_Some in Hm as [[<- <-]|[Hne Hm]]; [done|].
  apply Hne. by apply (si_one_holder _ Hinv _ _ _ _ Hl Hm).
Qed.

Lemma held_frame s s' env : st_leases s' = st_leases s → held s' env ↔ held s env.
Proof. intros H. unfold held. by rewrite H. Qed.

Lemma reclaim_lease_step ret now s report l c :
  slot_inv s → st_leases s !! lease_id l = Some l → unreleased l →
  let s' := (Slots.reclaim_lease ret now (s, report) (l, c)).1 in
  reclaim_step s s' ∧
  st_leases s' = <[lease_id l := l <| lease_released_at := Some now |>]> (st_leases s).
Proof.
  intros Hinv Hl Hu. unfold Slots.reclaim_lease.
  destruct (Lse.release now l) as [l'|] eqn:Hrel; [|unfold Lse.release in Hrel; by rewrite Hu in Hrel].
  pose proof (release_other_holders _ _ _ _ _ Hinv Hl Hrel) as Hfree.
  pose proof (release_le _ _ _ Hrel) as Hle.
  apply release_Ok in Hrel as (_ & ->).
  set (l' := l <| lease_released_at := Some now |>) in *.
  change (lease_id l') with (lease_id l). change (lease_attempt_id l') with (lease_attempt_id l).
  change (lease_environment_id l') with (lease_environment_id l).
  change (lease_epoch l') with (lease_epoch l).
  set (s1 := s <| st_leases ::= <[lease_id l := l']> |>) in *.
  assert (reclaim_step s s1) as H1.
  { split; [by apply (slot_inv_lease s _ l)| |done]. same_rows. eauto with tsls typeclass_instances. }
  (* the attempt and invocation *)
  match goal with |- context [let '(s, report) := ?X in _] =>
    assert (reclaim_step s1 X.1 ∧ st_leases X.1 = st_leases s1) as [H2 L2] end.
  { destruct (st_attempts s1 !! lease_attempt_id l) as [att|] eqn:Ha.
    2: { split; [apply reclaim_step_refl, H1|done]. }
    pose proof (reclaim_attempt_step s1 report _ _ c now (rs_inv _ _ H1) Ha) as Hatt.
    destruct (settle_attempt_with att true c now) as [att' b]. cbn [fst] in Hatt.
    set (s2 := s1 <| st_attempts ::= _ |>) in *.
    destruct (is_some_and _ _); [|done].
    split; [eapply reclaim_step_trans; [exact Hatt|apply settle_invocation_rows_step, Hatt]|].
    etrans; [apply settle_invocation_rows_frame|done]. }
  match goal with |- context [let '(s, report) := ?X in _] => destruct X as [s2 r2] end.
  cbn [fst] in H2, L2.
  assert (¬ held s2 (lease_environment_id l)) as Hfree2 by by rewrite (held_frame s1).
  pose proof (reclaim_step_trans _ _ _ H1 H2) as H12.
  destruct (is_some_and _ _); [|done]. split.
  - eapply reclaim_step_trans; [exact H12|]. apply fence_env_step; [apply H12|done].
  - etrans; [apply fence_env_frame|done].
Qed.

(** The leases a pass releases: each is the stored, unreleased row of its id. *)
Record expired_ok (s : State) (L : list (ExecutionLease * Cause)) : Prop := {
  eo_nodup : NoDup (map (λ lc, lease_id lc.1) L);
  eo_stored : ∀ lc, lc ∈ L → st_leases s !! lease_id lc.1 = Some lc.1 ∧ unreleased lc.1
}.

(** The leases after a pass: those of [L] released, the others as they were. *)
Definition leases_after (now : Timestamp) (L : list (ExecutionLease * Cause))
    (m : gmap LeaseId ExecutionLease) : gmap LeaseId ExecutionLease :=
  foldl (λ m lc, <[lease_id lc.1 := lc.1 <| lease_released_at := Some now |>]> m) m L.

Lemma leases_after_lookup now L m k :
  NoDup (map (λ lc, lease_id lc.1) L) →
  leases_after now L m !! k =
    match list_find (λ lc, lease_id lc.1 = k) L with
    | Some (_, lc) => Some (lc.1 <| lease_released_at := Some now |>)
    | None => m !! k
    end.
Proof.
  unfold leases_after. revert m. induction L as [|[l c] L IH]; intros m Hnd; cbn; [done|].
  inversion_clear Hnd as [|? ? Hnot Hnd']. rewrite IH by done. cbn.
  destruct (decide (lease_id l = k)) as [<-|Hne]; cbn.
  - destruct (list_find _ L) as [[j [l' c']]|] eqn:Hf; cbn.
    + exfalso. apply list_find_Some in Hf as (Hj & Heq & _). apply Hnot. cbn in Heq.
      rewrite <-Heq. apply list_elem_of_In, (in_map (λ lc, lease_id lc.1) L (l', c')).
      by eapply list_elem_of_In, list_elem_of_lookup_2.
    + by rewrite lookup_insert_eq.
  - destruct (list_find _ L) as [[j [l' c']]|]; cbn; [done|]. by rewrite lookup_insert_ne.
Qed.

Lemma reclaim_leases_step ret now L s report :
  slot_inv s → expired_ok s L →
  let s' := (foldl (Slots.reclaim_lease ret now) (s, report) L).1 in
  reclaim_step s s' ∧ st_leases s' = leases_after now L (st_leases s).
Proof.
  revert s report. induction L as [|[l c] L IH]; intros s report Hinv [Hnd Hst]; cbn.
  { split; [by apply reclaim_step_refl|done]. }
  destruct (Hst (l, c)) as [Hl Hu]; [by left|]. cbn in Hl, Hu.
  inversion_clear Hnd as [|? ? Hnot Hnd'].
  destruct (reclaim_lease_step ret now s report l c Hinv Hl Hu) as [H1 HL1].
  destruct (Slots.reclaim_lease ret now (s, report) (l, c)) as [s1 r1]. cbn [fst] in *.
  destruct (IH s1 r1 (rs_inv _ _ H1)) as [H2 HL2].
  - split; [done|]. intros lc Hin. destruct (Hst lc) as [Hlc Hulc]; [by right|].
    split; [|done]. rewrite HL1, lookup_insert_ne; [done|].
    intros Heq. apply Hnot. cbn. rewrite Heq.
    apply list_elem_of_In, (in_map (λ lc, lease_id lc.1)). by apply list_elem_of_In.
  - split; [by eapply reclaim_step_trans|]. rewrite HL2, HL1. done.
Qed.

(** A dispatcher that holds nothing. *)
Definition holds_nothing (s : State) (owner : DispatcherId) : Prop :=
  ∀ k l, st_leases s !! k = Some l → unreleased l → lease_owner l ≠ Some owner.

Lemma holds_nothing_free s owner k e :
  slot_inv s → holds_nothing s owner → st_environments s !! k = Some e →
  env_owner e = Some owner → ¬ held s k.
Proof.
  intros Hinv Hn He Ho (j & l & Hl & Hu & <-).
  destruct (si_backed _ Hinv _ _ Hl Hu) as [(e' & He' & _ & Hoe & _) _ _].
  apply (Hn _ _ Hl Hu). congruence.
Qed.

Lemma settle_rows_fold id_list c ret now s report :
  slot_inv s →
  let s' := (foldl (λ sr id, settle_invocation_rows id c ret now sr) (s, report) id_list).1 in
  reclaim_step s s' ∧ st_leases s' = st_leases s ∧ st_environments s' = st_environments s.
Proof.
  intros Hinv. apply foldl_inv.
  - split; [by apply reclaim_step_refl|done].
  - intros [s1 r1] id _ (H1 & HL & HE). cbn [fst] in *.
    destruct (settle_invocation_rows_frame id c ret now s1 r1) as (E2 & L2 & _).
    split; [eapply reclaim_step_trans; [exact H1|apply settle_invocation_rows_step, H1]|].
    split; congruence.
Qed.

Lemma fence_fold (ids : list EnvironmentId) now s report owner :
  slot_inv s → holds_nothing s owner →
  (∀ k, k ∈ ids → ∃ e, st_environments s !! k = Some e ∧ env_owner e = Some owner) →
  let s' := (foldl (λ sr id, fence_env id now sr) (s, report) ids).1 in
  reclaim_step s s' ∧ st_leases s' = st_leases s.
Proof.
  intros Hinv Hn Hids. apply foldl_inv.
  - split; [by apply reclaim_step_refl|done].
  - intros [s1 r1] k Hk (H1 & HL). cbn [fst] in *.
    destruct (fence_env_frame k now s1 r1) as (L2 & _).
    split; [|congruence]. eapply reclaim_step_trans; [exact H1|].
    apply fence_env_step; [apply H1|].
    destruct (Hids k Hk) as (e & He & Ho).
    destruct (sl_environments _ _ (rs_le _ _ H1) _ _ He) as (e' & He' & [[] _ _]).
    eapply (holds_nothing_free s1 owner); [apply H1| |exact He'|congruence].
    unfold holds_nothing. by rewrite HL.
Qed.

Lemma reclaim_owner_step ret now owner c s report :
  slot_inv s → holds_nothing s owner →
  let s' := (Slots.reclaim_owner ret now (s, report) (owner, c)).1 in
  reclaim_step s s' ∧ st_leases s' = st_leases s.
Proof.
  intros Hinv Hn. unfold Slots.reclaim_owner. cbn [fst].
  match goal with |- context [foldl (λ sr id, settle_invocation_rows id c ret now sr) _ ?I] =>
    pose proof (settle_rows_fold I c ret now s report Hinv) as (H1 & L1 & E1) end.
  destruct (foldl _ (s, report) _) as [s1 r1]. cbn [fst] in *.
  match goal with |- context [foldl _ (s1, r1) ?ids] =>
    destruct (fence_fold ids now s1 r1 owner (rs_inv _ _ H1)) as [H2 L2] end.
  - unfold holds_nothing. by rewrite L1.
  - intros k Hk. apply list_elem_of_In, in_map_iff in Hk as (e & <- & Hin%list_elem_of_In).
    apply elem_of_filter_values in Hin as ((j & Hj) & Hp). bools.
    exists e. rewrite (si_env_key _ (rs_inv _ _ H1) _ _ Hj). done.
  - split; [by eapply reclaim_step_trans|congruence].
Qed.

Lemma reclaim_owners_step ret now D s report :
  slot_inv s → (∀ oc, oc ∈ D → holds_nothing s oc.1) →
  let s' := (foldl (Slots.reclaim_owner ret now) (s, report) D).1 in
  reclaim_step s s' ∧ st_leases s' = st_leases s.
Proof.
  intros Hinv Hn. apply foldl_inv.
  - split; [by apply reclaim_step_refl|done].
  - intros [s1 r1] [owner c] Hin (H1 & L1). cbn [fst] in *.
    destruct (reclaim_owner_step ret now owner c s1 r1 (rs_inv _ _ H1)) as [H2 L2].
    { unfold holds_nothing. rewrite L1. by apply (Hn (owner, c)). }
    split; [by eapply reclaim_step_trans|congruence].
Qed.

(** *** The dispatchers a pass judges *)

Lemma mark_reclaimed_le r d : disp_row_le d (Slots.mark_reclaimed r d).
Proof.
  unfold Slots.mark_reclaimed, Slots.judge. case_bool_decide; [reflexivity|].
  destruct (disp_reclaimed_at d) as [t|] eqn:Hr; [reflexivity|]. cbn.
  destruct (_ && _ && _); [reflexivity|]. cbn.
  split; cbn; try done; [|congruence]. unfold Disp.is_live. cbn. rewrite andb_false_r. done.
Qed.

Lemma dead_of_lookup r s o c :
  keyed disp_id (st_dispatchers s) →
  Slots.dead_of r s !! o = Some c ↔
  ∃ d, st_dispatchers s !! o = Some d ∧ Slots.verdict_cause (Slots.judge r d) = Some c.
Proof.
  intros Hk. unfold Slots.dead_of. rewrite <-elem_of_list_to_map.
  - rewrite list_elem_of_omap. split.
    + intros (d & Hd & Hc). apply elem_of_btree_values in Hd as [k Hd].
      rewrite fmap_Some in Hc. destruct Hc as (c' & Hc & [= -> ->]).
      exists d. by rewrite (Hk _ _ Hd).
    + intros (d & Hd & Hc). exists d. split; [apply elem_of_btree_values; eauto|].
      rewrite Hc. cbn. by rewrite (Hk _ _ Hd).
  - unfold btree_values. pose proof (NoDup_btree_keys (st_dispatchers s)) as Hnd.
    assert (∀ k d, (k, d) ∈ btree_entries (st_dispatchers s) → disp_id d = k) as Hke.
    { intros k d Hin%elem_of_btree_entries. by apply Hk. }
    unfold btree_keys in Hnd. revert Hnd Hke.
    induction (btree_entries (st_dispatchers s)) as [|[k d] l IH]; intros Hnd Hke; [constructor|].
    cbn in *. inversion_clear Hnd as [|? ? Hnot Hnd'].
    assert (NoDup (omap (λ d, (λ c, (disp_id d, c)) <$> Slots.verdict_cause (Slots.judge r d)) l.*2).*1)
      as IHl by (apply IH; [done|]; intros; apply Hke; by right).
    destruct (Slots.verdict_cause (Slots.judge r d)) as [c'|]; cbn; [|done].
    constructor; [|done]. intros Hin. apply Hnot.
    apply list_elem_of_fmap in Hin as ([k' c''] & Heq & Hin). cbn in Heq.
    apply list_elem_of_omap in Hin as (d' & Hd' & Hc'). rewrite fmap_Some in Hc'.
    destruct Hc' as (c3 & _ & [= -> ->]).
    apply list_elem_of_fmap in Hd' as ([k2 d2] & -> & Hin2). cbn in *.
    apply list_elem_of_fmap. exists (k2, d2). split; [|done]. cbn.
    rewrite <-(Hke k d) by by left. rewrite Heq. apply Hke. by right.
Qed.

Lemma judge_reclaimer r d : disp_id d = req_reclaimer r → Slots.judge r d = Slots.Spared.
Proof. intros H. unfold Slots.judge. by rewrite bool_decide_true. Qed.

Lemma expiry_cause_Some r dead l c :
  Slots.expiry_cause r dead l = Some c →
  unreleased l ∧ ∃ o, lease_owner l = Some o ∧ o ≠ req_reclaimer r ∧
    (dead !! o = Some c ∨ dead !! o = None ∧ Lse.is_expired (req_now r) (req_skew r) l = true).
Proof.
  unfold Slots.expiry_cause, unreleased. destruct (lease_released_at l); cbn; [done|].
  intros H. split; [done|]. destruct (lease_owner l) as [o|]; [|done]. cbn in H. exists o.
  case_bool_decide; [done|]. destruct (dead !! o); [by simplify_eq; auto|].
  destruct (Lse.is_expired _ _ _); [auto|done].
Qed.

Lemma expiry_cause_None r dead l o :
  Slots.expiry_cause r dead l = None → unreleased l → lease_owner l = Some o →
  o = req_reclaimer r ∨ dead !! o = None ∧ Lse.is_expired (req_now r) (req_skew r) l = false.
Proof.
  unfold Slots.expiry_cause, unreleased. intros H Hu Ho. rewrite Hu, Ho in H. cbn in H.
  case_bool_decide; [auto|]. destruct (dead !! o); [done|].
  destruct (Lse.is_expired _ _ _); [done|auto].
Qed.

(** The leases a pass releases, with the cause they are settled with. *)
Definition expired_of (r : ReclaimRequest) (s : State) : list (ExecutionLease * Cause) :=
  omap (λ l, (λ c, (l, c)) <$> Slots.expiry_cause r (Slots.dead_of r s) l)
    (btree_values (st_leases s)).

Lemma elem_of_expired r s l c :
  (l, c) ∈ expired_of r s ↔
  (∃ k, st_leases s !! k = Some l) ∧ Slots.expiry_cause r (Slots.dead_of r s) l = Some c.
Proof.
  unfold expired_of. rewrite list_elem_of_omap. split.
  - intros (l' & Hl & (c' & Hc & [= -> ->])%fmap_Some).
    split; [by apply elem_of_btree_values|done].
  - intros [Hl Hc]. exists l. split; [by apply elem_of_btree_values|by rewrite Hc].
Qed.

Lemma expired_of_ok r s : slot_inv s → expired_ok s (expired_of r s).
Proof.
  intros Hinv. split.
  - unfold expired_of, btree_values. pose proof (NoDup_btree_keys (st_leases s)) as Hnd.
    assert (∀ k l, (k, l) ∈ btree_entries (st_leases s) → lease_id l = k) as Hke.
    { intros k l Hin%elem_of_btree_entries. by apply (si_lease_key _ Hinv). }
    unfold btree_keys in Hnd. revert Hnd Hke.
    induction (btree_entries (st_leases s)) as [|[k l] L IH]; intros Hnd Hke; [constructor|].
    cbn in *. inversion_clear Hnd as [|? ? Hnot Hnd'].
    specialize (IH Hnd' (λ k l Hin, Hke k l (list_elem_of_further _ _ _ Hin))).
    destruct (Slots.expiry_cause r (Slots.dead_of r s) l) as [c|]; cbn; [|done].
    constructor; [|done]. intros Hin. apply Hnot.
    apply list_elem_of_In, in_map_iff in Hin as ([l' c'] & Heq & Hin%list_elem_of_In). cbn in Heq.
    apply list_elem_of_omap in Hin as (l2 & Hl2 & (c2 & _ & [= -> ->])%fmap_Some).
    apply list_elem_of_fmap in Hl2 as ([k2 l3] & -> & Hin2). cbn in *.
    apply list_elem_of_fmap. exists (k2, l3). split; [|done]. cbn.
    rewrite <-(Hke k l) by by left. rewrite <-Heq. apply Hke. by right.
  - intros [l c] Hin. apply elem_of_expired in Hin as ((k & Hk) & Hc).
    cbn. rewrite (si_lease_key _ Hinv _ _ Hk). split; [done|]. by apply expiry_cause_Some in Hc as [? _].
Qed.

Lemma leases_after_lookup_expired r s now k l :
  slot_inv s → st_leases s !! k = Some l →
  leases_after now (expired_of r s) (st_leases s) !! k =
    match Slots.expiry_cause r (Slots.dead_of r s) l with
    | Some _ => Some (l <| lease_released_at := Some now |>)
    | None => Some l
    end.
Proof.
  intros Hinv Hk. destruct (expired_of_ok r s Hinv) as [Hnd Hst].
  rewrite leases_after_lookup by done.
  destruct (list_find _ _) as [[j [l' c']]|] eqn:Hf.
  - apply list_find_Some in Hf as (Hj & Heq & _). cbn in Heq.
    apply list_elem_of_lookup_2 in Hj. destruct (Hst _ Hj) as [Hl' _]. cbn in *.
    apply elem_of_expired in Hj as (_ & Hc). assert (l' = l) as -> by congruence. by rewrite Hc.
  - apply list_find_None in Hf. destruct (Slots.expiry_cause _ _ l) as [c|] eqn:Hc; [|done].
    assert ((l, c) ∈ expired_of r s) as Hin by (apply elem_of_expired; eauto).
    rewrite Forall_forall in Hf. destruct (Hf _ Hin). by apply (si_lease_key _ Hinv).
Qed.

Lemma leases_after_lookup_inv r s now k l' :
  slot_inv s → leases_after now (expired_of r s) (st_leases s) !! k = Some l' →
  ∃ l, st_leases s !! k = Some l.
Proof.
  intros Hinv. destruct (expired_of_ok r s Hinv) as [Hnd Hst]. rewrite leases_after_lookup by done.
  destruct (list_find _ _) as [[j [l c]]|] eqn:Hf; [|eauto]. intros _.
  apply list_find_Some in Hf as (Hj & Heq & _). apply list_elem_of_lookup_2 in Hj.
  destruct (Hst _ Hj) as [Hl _]. cbn in *. subst. eauto.
Qed.

Lemma dead_of_marked r s :
  st_dispatchers (s <| st_dispatchers ::= fmap (Slots.mark_reclaimed r) |>) =
  Slots.mark_reclaimed r <$> st_dispatchers s.
Proof. done. Qed.

(** After the leases of the pass are released, no dead dispatcher holds one. *)
Lemma dead_holds_nothing r s now o :
  slot_inv s → (∃ c, Slots.dead_of r s !! o = Some c) →
  ∀ k l, leases_after now (expired_of r s) (st_leases s) !! k = Some l → unreleased l →
    lease_owner l ≠ Some o.
Proof.
  intros Hinv [c Hc] k l' Hk Hu Ho.
  destruct (leases_after_lookup_inv _ _ _ _ _ Hinv Hk) as [l Hl].
  rewrite (leases_after_lookup_expired r s now k l Hinv Hl) in Hk.
  destruct (Slots.expiry_cause _ _ l) as [c'|] eqn:He; simplify_eq; [done|].
  destruct (expiry_cause_None _ _ _ _ He Hu Ho) as [->|[Hn _]]; [|congruence].
  apply dead_of_lookup in Hc as (d & Hd & Hv); [|apply Hinv].
  rewrite judge_reclaimer in Hv; [done|]. by apply (si_dispatcher_key _ Hinv).
Qed.

Record reclaimed_state (r : ReclaimRequest) (s s' : State) : Prop := {
  rcl_inv : slot_inv s';
  rcl_le : state_le s s';
  rcl_dispatchers : st_dispatchers s' = Slots.mark_reclaimed r <$> st_dispatchers s;
  rcl_leases : st_leases s' = leases_after (req_now r) (expired_of r s) (st_leases s)
}.

Lemma reclaim_expired_Ok cfg r s rep s' :
  slot_inv s → Slots.reclaim_expired cfg r s = Ok (rep, s') →
  (Slots.may_reclaim r s = false ∧ rep = report_default ∧ s' = s) ∨
  (Slots.may_reclaim r s = true ∧ reclaimed_state r s s').
Proof.
  unfold Slots.reclaim_expired. intros Hinv H.
  destruct (Slots.may_reclaim r s); cbn [negb] in H; [right|by left; simplify_eq].
  split; [done|].
  set (s1 := s <| st_dispatchers ::= fmap (Slots.mark_reclaimed r) |>) in *.
  assert (state_le s s1) as Hle1.
  { same_rows. apply rows_le_fmap. apply mark_reclaimed_le. }
  assert (slot_inv s1) as Hinv1.
  { apply (slot_inv_dispatchers s); [done|]. apply keyed_fmap; [apply Hinv|].
    intros d. destruct (mark_reclaimed_le r d) as [Hid _ _ _ _]. congruence. }
  change (omap _ _) with (expired_of r s) in H.
  match type of H with context [foldl (Slots.reclaim_lease _ _) (s1, ?rep0) _] =>
    destruct (reclaim_leases_step (cfg_idempotency_retention cfg) (req_now r) (expired_of r s) s1 rep0 Hinv1)
      as [H2 L2]; [destruct (expired_of_ok r s Hinv); by split|] end.
  destruct (foldl (Slots.reclaim_lease _ _) _ _) as [s2 r2]. cbn [fst] in *.
  destruct (reclaim_owners_step (cfg_idempotency_retention cfg) (req_now r)
              (btree_entries (Slots.dead_of r s)) s2 r2 (rs_inv _ _ H2)) as [H3 L3].
  { intros [o c] Hin%elem_of_btree_entries. unfold holds_nothing. rewrite L2.
    apply (dead_holds_nothing r s); eauto. }
  destruct (foldl (Slots.reclaim_owner _ _) _ _) as [s3 r3]. cbn [fst] in *. simplify_eq.
  pose proof (reclaim_step_trans _ _ _ H2 H3) as [I Le D].
  split; [done|by etrans|by rewrite D|by rewrite L3].
Qed.

(** *** Every command *)

Record good_step (s s' : State) : Prop := { gs_inv : slot_inv s'; gs_le : state_le s s' }.

Lemma good_step_refl s : slot_inv s → good_step s s.
Proof. by split. Qed.

Lemma good_control s s' :
  slot_inv s → state_le s s' → st_environments s' = st_environments s →
  st_leases s' = st_leases s → st_attempts s' = st_attempts s →
  st_dispatchers s' = st_dispatchers s → st_invocations s' = st_invocations s → good_step s s'.
Proof.
  intros Hinv Hle He Hl Ha Hd Hi. split; [|done].
  apply (slot_inv_control s); try done. rewrite Hi. apply Hinv.
Qed.

Lemma good_env_update s e e' :
  slot_inv s → st_environments s !! env_id e' = Some e → env_row_le e e' →
  (held s (env_id e') → env_epoch e' = env_epoch e) →
  good_step s (s <| st_environments ::= <[env_id e' := e']> |>).
Proof.
  intros Hinv He Hle Hh. split; [eapply slot_inv_env; eauto; apply Hle|].
  same_rows. eauto with tsls typeclass_instances.
Qed.

(** A stored environment moved along one of its transitions. *)
Lemma good_transition s k e e' to now :
  slot_inv s → st_environments s !! k = Some e → Env.transition to now e = Ok e' →
  good_step s (s <| st_environments ::= <[k := e']> |>).
Proof.
  intros Hinv He Ht. pose proof (transition_frame _ _ _ _ Ht) as Hf. destruct_and! Hf.
  assert (env_id e' = k) as <- by (rewrite <-(si_env_key _ Hinv _ _ He); congruence).
  eapply good_env_update; eauto using transition_row_le.
Qed.

Lemma good_lease s k l l' :
  slot_inv s → st_leases s !! k = Some l → lease_le l l' →
  good_step s (s <| st_leases ::= <[k := l']> |>).
Proof.
  intros Hinv Hl Hle. split; [by eapply slot_inv_lease|]. same_rows.
  eauto with tsls typeclass_instances.
Qed.

Lemma good_insert_invocation i max s s' :
  slot_inv s → insert_invocation i max s = Ok s' → good_step s s'.
Proof. intros Hinv H. split; [by eapply insert_invocation_inv|by eapply insert_invocation_le]. Qed.

Lemma good_binding i r s s' : good_step s s' → good_step s (set_binding_expiry i r s').
Proof.
  intros [Hinv Hle]. split; [by apply slot_inv_binding|]. etrans; [done|apply set_binding_expiry_le].
Qed.

Lemma good_trans s1 s2 s3 : good_step s1 s2 → good_step s2 s3 → good_step s1 s3.
Proof. intros [] []. split; [done|by etrans]. Qed.
#[local] Hint Resolve good_step_refl good_transition good_lease good_insert_invocation
  good_binding : good.

(** Opens a command into the operation it runs. *)
Ltac open_cmd H :=
  unfold after in H; apply result_fmap_Ok in H as ([? ?] & H & <-); cbn [snd].

(** Closes a step that only wrote control-plane rows. *)
Ltac control :=
  apply good_control;
  [try assumption | same_rows; eauto with tsls typeclass_instances | reflexivity ..].

Lemma good_function_cmds c s s' :
  slot_inv s →
  match c with
  | CInsertFunction f => after (FunctionRepo.insert f) s = Ok s'
  | CUpdateFunction f => after (FunctionRepo.update f) s = Ok s'
  | CAllocateNumber f => after (RevisionRepo.allocate_number f) s = Ok s'
  | CInsertRevision r => after (RevisionRepo.insert r) s = Ok s'
  | CUpdateRevision r => after (RevisionRepo.update r) s = Ok s'
  | CInsertAlias a => after (AliasRepo.insert a) s = Ok s'
  | CSetAlias a g => after (AliasRepo.compare_and_set a g) s = Ok s'
  | _ => False
  end → good_step s s'.
Proof.
  intros Hinv H. destruct c; try done; open_cmd H.
  - unfold FunctionRepo.insert in H. pass H. pass H. steps. control.
  - unfold FunctionRepo.update in H. destruct (st_functions s !! _) as [old|]; [|done]. steps.
    case_bool_decide; [control | eauto with good].
  - unfold RevisionRepo.allocate_number in H. steps. control.
  - unfold RevisionRepo.insert in H. pass H. steps. pass Hk. steps. bools.
    control.
  - unfold RevisionRepo.update in H. destruct (st_revisions s !! _) as [old|] eqn:Ho; [|done]. steps.
    case_bool_decide; [|eauto with good]. control.
  - unfold AliasRepo.insert in H. pass H. steps. bools. control.
  - unfold AliasRepo.compare_and_set in H. destruct (st_aliases s !! _) as [old|] eqn:Ho; [|done].
    destruct (negb _); [steps; eauto with good|]. steps.
    repeat match goal with u : unit |- _ => destruct u end. control.
Qed.

Lemma good_ledger_cmds cfg c s s' :
  slot_inv s →
  match c with
  | CInsertInvocation i => after (InvocationRepo.insert cfg i) s = Ok s'
  | CUpdateInvocation i => after (InvocationRepo.update cfg i) s = Ok s'
  | CInsertBound i => after (IdempotencyRepo.insert_bound cfg i) s = Ok s'
  | CPurgeIdempotency now => after (IdempotencyRepo.purge_expired_idempotency now) s = Ok s'
  | CInsertAttempt a => after (InvocationRepo.insert_attempt a) s = Ok s'
  | CUpdateAttempt a => after (InvocationRepo.update_attempt a) s = Ok s'
  | _ => False
  end → good_step s s'.
Proof.
  intros Hinv H. destruct c; try done; open_cmd H.
  - unfold InvocationRepo.insert in H. steps. eauto with good.
  - unfold InvocationRepo.update in H. destruct (st_invocations s !! _) as [old|] eqn:Ho; [|done].
    steps. case_bool_decide; [|eauto with good]. apply good_binding.
    split; [by apply slot_inv_invocation|]. same_rows. eauto with tsls typeclass_instances.
  - unfold IdempotencyRepo.insert_bound in H.
    destruct (mbind _ _); [steps; eauto with good|]. steps.
    destruct (IdempotencyRepo.key_of _); [|eauto with good]. apply good_binding.
    eapply good_trans; [by eapply good_insert_invocation|]. control. by eapply insert_invocation_inv.
  - unfold IdempotencyRepo.purge_expired_idempotency in H. steps. control.
  - unfold InvocationRepo.insert_attempt in H. pass H. steps. bools. split.
    + apply (slot_inv_attempts s); [done|eauto with tsls typeclass_instances|].
      apply keyed_insert; [apply Hinv|done].
    + same_rows. eauto with tsls typeclass_instances.
  - unfold InvocationRepo.update_attempt in H. destruct (st_attempts s !! _) as [old|] eqn:Ho; [|done].
    steps. case_bool_decide; [|eauto with good]. split.
    + eapply slot_inv_attempt; eauto with tsls.
    + same_rows. eauto with tsls typeclass_instances.
Qed.

Lemma good_object_cmds c s s' :
  slot_inv s →
  match c with
  | CClaimArtifact t d => after (ArtifactRepo.claim t d) s = Ok s'
  | CStamp o since => after (ConfigRepo.stamp_config o since) s = Ok s'
  | CAttach o i now => after (ObjectRepo.attach_object o i now) s = Ok s'
  | CCollect o r now => after (ObjectRepo.claim_for_collection o r now) s = Ok s'
  | CForget o => after (ObjectRepo.forget_object o) s = Ok s'
  | CPurgeTombstones b => after (ObjectRepo.purge_tombstones b) s = Ok s'
  | _ => False
  end → good_step s s'.
Proof.
  intros Hinv H. destruct c; try done; open_cmd H.
  - unfold ArtifactRepo.claim in H. steps. control.
  - unfold ConfigRepo.stamp_config in H. steps. destruct (stamp _ _ _) as [[p g] ch]. steps.
    control.
  - unfold ObjectRepo.attach_object in H. steps. destruct (st_invocations s !! _); [|done]. pass Hk.
    destruct (st_object_tombstones s !! _) as [[? ?]|]; [done|]. steps.
    control.
  - unfold ObjectRepo.claim_for_collection in H. cbn zeta in H.
    repeat match type of H with (if ?b then _ else _) = _ =>
      destruct b; [injection H as <- <-; eauto with good|] end.
    steps. control.
  - unfold ObjectRepo.forget_object in H. steps. control.
  - unfold ObjectRepo.purge_tombstones in H. steps. control.
Qed.

Lemma good_environment_cmds c s s' :
  slot_inv s →
  match c with
  | CInsertEnvironment e => after (EnvironmentRepo.insert e) s = Ok s'
  | CUpdateEnvironment e => after (EnvironmentRepo.update e) s = Ok s'
  | CReuse k o now => after (Slots.claim_for_reuse k o now) s = Ok s'
  | CPool e l now => after (Slots.release_to_pool e l now) s = Ok s'
  | CTakeIdle e now => after (Slots.take_idle_for_termination e now) s = Ok s'
  | CConfirm e ep now => after (Slots.confirm_terminated e ep now) s = Ok s'
  | _ => False
  end → good_step s s'.
Proof.
  intros Hinv H. destruct c as [| | | | | | | | | | | | | | | | | | |env|env| | | | |key o now|env l now
    |env now| | | | | |env ep now]; try done; open_cmd H.
  - unfold EnvironmentRepo.insert in H. pass H. steps. bools. split.
    + by apply slot_inv_env_fresh.
    + same_rows. eauto with tsls typeclass_instances.
  - unfold EnvironmentRepo.update in H. destruct (st_environments s !! _) as [old|] eqn:Ho; [|done].
    steps. case_bool_decide; [|eauto with good].
    eapply good_env_update; eauto with tsls. intros _.
    apply environment_update_Ok in Hm. by destruct_and! Hm.
  - unfold Slots.claim_for_reuse in H.
    destruct (btree_find _ _) as [[id old]|] eqn:Hf; [|steps; eauto with good].
    apply btree_find_Some in Hf as [Hf _].
    destruct (Env.reserve now old) as [e'|] eqn:Hr; steps; [|eauto with good].
    apply reserve_Ok in Hr as (_ & _ & Hr). by eapply good_transition.
  - unfold Slots.release_to_pool in H.
    destruct (st_environments s !! _) as [old|] eqn:Ho; [|steps; eauto with good].
    destruct (_ || _ || _ || _) eqn:Hc; [steps; eauto with good|].
    destruct (_ || _) in H; [steps; eauto with good|].
    destruct (Slots.pooled_row env now) as [pooled|]; [|steps; eauto with good]. steps.
    pose proof (env_update_row_le _ _ _ Hm) as Hle. apply environment_update_Ok in Hm.
    destruct_and! Hm. destruct (erl_identity _ _ Hle).
    assert (env_id pooled = env_id env) as Hid.
    { rewrite <-(si_env_key _ Hinv _ _ Ho). congruence. }
    apply (good_env_update s old pooled Hinv); [by rewrite Hid|done|by intros _].
  - unfold Slots.take_idle_for_termination in H.
    destruct (st_environments s !! _) as [old|] eqn:Ho; [|steps; eauto with good].
    destruct (Slots.is_idle old); [|steps; eauto with good].
    destruct (Env.mark_draining now old) as [e'|] eqn:Hr; steps; [by eapply good_transition | eauto with good].
  - unfold Slots.confirm_terminated in H.
    destruct (st_environments s !! _) as [old|] eqn:Ho; [|steps; eauto with good].
    destruct (_ || _ || _); [steps; eauto with good|].
    destruct (Env.mark_lost _ now old) as [e'|] eqn:Hr; steps; [by eapply good_transition | eauto with good].
Qed.

Lemma good_dispatcher_cmds c s s' :
  slot_inv s →
  match c with
  | CRegister d => after (Slots.register_dispatcher d) s = Ok s'
  | CHeartbeat d ttl now => after (Slots.heartbeat d ttl now) s = Ok s'
  | COutage d ttl now => after (Slots.renew_after_store_outage d ttl now) s = Ok s'
  | CStop d now => after (Slots.stop_dispatcher d now) s = Ok s'
  | _ => False
  end → good_step s s'.
Proof.
  intros Hinv H. destruct c as [| | | | | | | | | | | | | | | | | | | | |rec|d ttl now|d ttl now|d now
    | | | | | | | | |]; try done; open_cmd H.
  - unfold Slots.register_dispatcher in H. pass H. steps. bools. split.
    + apply (slot_inv_dispatchers s); [done|]. apply keyed_insert; [apply Hinv|done].
    + same_rows. eauto with tsls typeclass_instances.
  - unfold Slots.heartbeat in H. steps.
    split; [by eapply renew_dispatcher_inv|by eapply renew_dispatcher_le].
  - unfold Slots.renew_after_store_outage in H. steps.
    split; [by eapply renew_dispatcher_inv|by eapply renew_dispatcher_le].
  - unfold Slots.stop_dispatcher in H. destruct (st_dispatchers s !! _) as [old|] eqn:Ho; [|steps; eauto with good].
    destruct (is_none _) eqn:Hn; steps; [|eauto with good]. bools. split.
    + apply (slot_inv_dispatchers s); [done|]. eapply keyed_rows_insert; eauto. apply Hinv.
    + same_rows. eapply rows_le_insert; [apply _|eassumption|].
      split; cbn; try done; try lia; congruence.
Qed.

Lemma good_lease_cmds display cfg c s s' :
  slot_inv s →
  match c with
  | CAcquire r => after (Slots.acquire cfg r) s = Ok s'
  | CRenewLease l o ep ttl now => after (Slots.renew_lease l o ep ttl now) s = Ok s'
  | CComplete c => after (Slots.complete display cfg c) s = Ok s'
  | CRelease l a ep now => after (Slots.release_lease l a ep now) s = Ok s'
  | CReclaim r => after (Slots.reclaim_expired cfg r) s = Ok s'
  | _ => False
  end → good_step s s'.
Proof.
  intros Hinv H. destruct c as [| | | | | | | | | | | | | | | | | | | | | | | | | | |
    |r|l o ep ttl now|cm|l a ep now|r|]; try done; open_cmd H.
  - apply acquire_Ok in H as [(_ & ->)|(_ & H)]; [eauto with good|].
    split; [by eapply write_acquired_inv|by eapply write_acquired_le].
  - unfold Slots.renew_lease in H. destruct (st_leases s !! l) as [old|] eqn:Ho; [|steps; eauto with good].
    destruct (_ || _); [steps; eauto with good|].
    destruct (Lse.renew now ttl old) as [l'|] eqn:Hr; steps; [|eauto with good].
    eapply good_lease; eauto. apply (run_lease_op_le (LRenew ttl) now _ _ Hr).
  - apply complete_Ok in H as [(_ & ->)|(_ & l & w & iw & H)]; [eauto with good|].
    split; [by eapply write_completed_inv|by eapply write_completed_le].
  - unfold Slots.release_lease in H. destruct (is_some _); [steps; eauto with good|].
    destruct (st_leases s !! l) as [old|] eqn:Ho; [|steps; eauto with good].
    destruct (Lse.release now old) as [l'|] eqn:Hr; steps; [|eauto with good].
    eapply good_lease; eauto using release_le.
  - apply reclaim_expired_Ok in H as [(_ & _ & ->)|(_ & [? ? _ _])]; [eauto with good| |done].
    by split.
Qed.

Lemma run_cmd_good display cfg c s s' :
  slot_inv s → run_cmd display cfg c s = Ok s' → good_step s s'.
Proof.
  intros Hinv H.
  pose proof (good_function_cmds c s s' Hinv) as H1.
  pose proof (good_ledger_cmds cfg c s s' Hinv) as H2.
  pose proof (good_object_cmds c s s' Hinv) as H3.
  pose proof (good_environment_cmds c s s' Hinv) as H4.
  pose proof (good_dispatcher_cmds c s s' Hinv) as H5.
  pose proof (good_lease_cmds display cfg c s s' Hinv) as H6.
  destruct c; first [exact (H1 H) | exact (H2 H) | exact (H3 H) | exact (H4 H) | exact (H5 H)
                    | exact (H6 H)].
Qed.

Lemma empty_slot_inv : slot_inv empty_state.
Proof.
  split; cbn; try apply keyed_empty.
  - intros k1 k2 l1 l2 H1. by rewrite lookup_empty in H1.
  - intros k l Hk. by rewrite lookup_empty in Hk.
Qed.

Lemma steps_good display cfg s s' :
  slot_inv s → rtc (store_step display cfg) s s' → good_step s s'.
Proof.
  intros Hinv Hrun. induction Hrun as [s|s1 s2 s3 [c H] _ IH]; [by apply good_step_refl|].
  pose proof (run_cmd_good _ _ _ _ _ Hinv H) as H12.
  eapply good_trans; [exact H12|]. apply IH, H12.
Qed.

Open Scope string_scope.
Open Scope Z_scope.

(** ** Definitions *)

(** The commands that write idempotency bindings, object references or
    tombstones, the publication, the slots, or the invocations. *)
Definition writes_bindings (c : store_cmd) : bool :=
  match c with
  | CUpdateInvocation _ | CInsertBound _ | CPurgeIdempotency _ | CComplete _ | CReclaim _ => true
  | _ => false
  end.
Definition writes_objects (c : store_cmd) : bool :=
  match c with
  | CAttach _ _ _ | CCollect _ _ _ | CForget _ | CPurgeTombstones _ => true
  | _ => false
  end.
Definition writes_publication (c : store_cmd) : bool :=
  match c with CStamp _ _ => true | _ => false end.
Definition writes_slots (c : store_cmd) : bool :=
  match c with
  | CInsertEnvironment _ | CUpdateEnvironment _ | CHeartbeat _ _ _ | COutage _ _ _ | CReuse _ _ _
  | CPool _ _ _ | CTakeIdle _ _ | CAcquire _ | CRenewLease _ _ _ _ _ | CComplete _
  | CRelease _ _ _ _ | CReclaim _ | CConfirm _ _ _ => true
  | _ => false
  end.

(** The parts of the state a command may write. *)
Record frame (b o p sl : bool) (s s' : State) : Prop := {
  fr_bindings : b = false → st_idempotency s' = st_idempotency s;
  fr_objects : o = false → st_object_refs s' = st_object_refs s ∧
    st_object_tombstones s' = st_object_tombstones s;
  fr_publication : p = false → st_publication s' = st_publication s ∧
    st_publication_generation s' = st_publication_generation s;
  fr_slots : sl = false → st_environments s' = st_environments s ∧ st_leases s' = st_leases s
}.

(** ** Lemmas *)

Lemma frame_refl b o p sl s : frame b o p sl s s.
Proof. by split. Qed.

Lemma frame_trans b o p sl s1 s2 s3 :
  frame b o p sl s1 s2 → frame b o p sl s2 s3 → frame b o p sl s1 s3.
Proof.
  intros [B1 O1 P1 S1] [B2 O2 P2 S2]. split; intros E.
  - by rewrite B2, B1.
  - destruct (O1 E), (O2 E). split; congruence.
  - destruct (P1 E), (P2 E). split; congruence.
  - destruct (S1 E), (S2 E). split; congruence.
Qed.

Lemma set_binding_expiry_slots inv ret s : frame true false false false s (set_binding_expiry inv ret s).
Proof. unfold set_binding_expiry. destruct (_ || _); by split. Qed.

Lemma frame_fold {A B} b o p sl (f : State * B → A → State * B) (l : list A) sr :
  (∀ sr a, frame b o p sl sr.1 (f sr a).1) → frame b o p sl sr.1 (foldl f sr l).1.
Proof.
  intros Hf. apply (foldl_inv (λ sr', frame b o p sl sr.1 sr'.1)); [apply frame_refl|].
  intros sr1 a _ H. by eapply frame_trans, Hf.
Qed.

Lemma settle_invocation_rows_frame_all id c ret now sr :
  frame true false false true sr.1 (settle_invocation_rows id c ret now sr).1.
Proof.
  destruct sr as [s r]. unfold settle_invocation_rows.
  destruct (st_invocations s !! id) as [i|]; [|apply frame_refl].
  destruct (if survives_dispatcher i then _ else _) as [i' []]; [|by split].
  eapply frame_trans; [|by split]. eapply frame_trans with (s2 := s <| st_invocations ::= _ |>);
    [by split|]. destruct (set_binding_expiry_slots i' ret (s <| st_invocations ::= <[inv_id i' := i']> |>)).
  split; auto.
Qed.

Lemma fence_env_frame_all id now sr : frame true false false true sr.1 (fence_env id now sr).1.
Proof.
  destruct sr as [s r]. unfold fence_env. destruct (st_environments s !! id); [|apply frame_refl].
  destruct (_ && _); [|apply frame_refl]. destruct (Env.fence now _) as [[? ?]|]; by split.
Qed.

Lemma reclaim_lease_frame_all ret now sr lc :
  frame true false false true sr.1 (Slots.reclaim_lease ret now sr lc).1.
Proof.
  destruct sr as [s r], lc as [l c]. unfold Slots.reclaim_lease.
  destruct (Lse.release now l) as [l'|]; [|apply frame_refl]. cbn [fst].
  set (s1 := s <| st_leases ::= _ |>). assert (frame true false false true s s1) as H1 by by split.
  match goal with |- context [let '(s, report) := ?X in _] =>
    assert (frame true false false true s X.1) as H2 end.
  { eapply frame_trans; [exact H1|].
    destruct (st_attempts s1 !! _) as [att|]; [|apply frame_refl].
    destruct (settle_attempt_with att true c now) as [att' b].
    destruct (is_some_and _ _); [|by split].
    match goal with |- context [settle_invocation_rows ?i ?c ?r ?n ?sr] =>
      eapply frame_trans; [|apply (settle_invocation_rows_frame_all i c r n sr)] end. by split. }
  match goal with |- context [let '(s, report) := ?X in _] => destruct X as [s2 r2] end.
  cbn [fst] in H2. destruct (is_some_and _ _); [|done].
  eapply frame_trans; [exact H2|apply (fence_env_frame_all _ _ (s2, r2))].
Qed.

Lemma reclaim_owner_frame_all ret now sr oc :
  frame true false false true sr.1 (Slots.reclaim_owner ret now sr oc).1.
Proof.
  destruct oc as [o c]. unfold Slots.reclaim_owner.
  eapply frame_trans; [|apply frame_fold; intros; apply fence_env_frame_all].
  apply frame_fold. intros. apply settle_invocation_rows_frame_all.
Qed.

Lemma reclaim_expired_frame cfg r s rep s' :
  Slots.reclaim_expired cfg r s = Ok (rep, s') → frame true false false true s s'.
Proof.
  unfold Slots.reclaim_expired. intros H.
  destruct (negb _); [injection H as _ <-; apply frame_refl|].
  set (s1 := s <| st_dispatchers ::= _ |>) in *.
  assert (frame true false false true s s1) as H1 by by split.
  match type of H with context [foldl (Slots.reclaim_lease ?ret ?now) (s1, ?rep0) ?L] =>
    pose proof (frame_fold true false false true (Slots.reclaim_lease ret now) L (s1, rep0)
      ltac:(intros; apply reclaim_lease_frame_all)) as H2 end.
  destruct (foldl (Slots.reclaim_lease _ _) _ _) as [s2 r2].
  match type of H with context [foldl (Slots.reclaim_owner ?ret ?now) (s2, r2) ?L] =>
    pose proof (frame_fold true false false true (Slots.reclaim_owner ret now) L (s2, r2)
      ltac:(intros; apply reclaim_owner_frame_all)) as H3 end.
  destruct (foldl (Slots.reclaim_owner _ _) _ _) as [s3 r3]. injection H as _ <-.
  eapply frame_trans; [exact H1|]. by eapply frame_trans.
Qed.

Lemma write_completed_frame cfg l a w iw s :
  frame true false false true s (Slots.write_completed cfg l a w iw s).
Proof.
  unfold Slots.write_completed. set (s1 := if w == Apply then _ else _).
  assert (frame true false false true s s1) as H1 by (unfold s1; destruct (w == Apply); by split).
  destruct iw as [[i []]|]; [|done..]. eapply frame_trans; [exact H1|].
  destruct (set_binding_expiry_slots i (cfg_idempotency_retention cfg)
    (s1 <| st_invocations ::= <[inv_id i := i]> |>)). split; auto.
Qed.

Lemma write_acquired_frame r s : frame false false false true s (Slots.write_acquired r s).
Proof. unfold Slots.write_acquired. destruct (acq_invocation r); by split. Qed.

(** Follows an operation to each of the states it can answer. *)
Ltac outcomes H :=
  repeat match type of H with
  | (if ?b then _ else _) = Ok _ => destruct b
  | match ?x with _ => _ end = Ok _ => destruct x
  | mbind _ _ = Ok _ =>
      let a := fresh "a" in let Ha := fresh "Ha" in
      apply result_bind_Ok in H as (a & Ha & H)
  end; try discriminate H; try (injection H as <- <-).

Lemma run_cmd_frame display cfg c s s' :
  run_cmd display cfg c s = Ok s' →
  frame (writes_bindings c) (writes_objects c) (writes_publication c) (writes_slots c) s s'.
Proof.
  intros H. destruct c; cbn [run_cmd] in H; unfold after in H;
    apply result_fmap_Ok in H as ([out s1] & H & <-); cbn [snd];
    cbn [writes_bindings writes_objects writes_publication writes_slots];
    try (unfold FunctionRepo.insert, FunctionRepo.update, RevisionRepo.allocate_number,
      RevisionRepo.insert, RevisionRepo.update, AliasRepo.insert, AliasRepo.compare_and_set,
      InvocationRepo.insert_attempt, InvocationRepo.update_attempt, ArtifactRepo.claim,
      ConfigRepo.stamp_config, ObjectRepo.attach_object, ObjectRepo.claim_for_collection,
      ObjectRepo.forget_object, ObjectRepo.purge_tombstones, EnvironmentRepo.insert,
      EnvironmentRepo.update, Slots.register_dispatcher, Slots.stop_dispatcher,
      Slots.claim_for_reuse, Slots.release_to_pool, Slots.take_idle_for_termination,
      Slots.renew_lease, Slots.release_lease, Slots.confirm_terminated,
      IdempotencyRepo.purge_expired_idempotency in H;
      outcomes H; repeat match goal with |- context [if ?b then _ else _] => destruct b end;
      solve [by split]).
  - unfold InvocationRepo.insert, insert_invocation in H. outcomes H. outcomes Ha. injection Ha as <-. by split.
  - unfold InvocationRepo.update in H. outcomes H. case_match; [|apply frame_refl].
    eapply frame_trans; [|apply set_binding_expiry_slots]. by split.
  - unfold IdempotencyRepo.insert_bound in H.
    destruct (mbind _ _); [injection H as <- <-; apply frame_refl|].
    unfold insert_invocation in H. outcomes H. outcomes Ha. injection Ha as <-. case_match; [|by split].
    eapply frame_trans; [|apply set_binding_expiry_slots]. by split.
  - unfold Slots.heartbeat, renew_dispatcher in H. injection H as H.
    destruct (st_dispatchers s !! _); [destruct (_ || _)|]; injection H as <- <-; by split.
  - unfold Slots.renew_after_store_outage, renew_dispatcher in H. injection H as H.
    destruct (st_dispatchers s !! _); [destruct (_ || _)|]; injection H as <- <-; by split.
  - apply acquire_Ok in H as [(_ & ->)|(_ & [])]; [apply frame_refl|].
    subst. apply write_acquired_frame.
  - apply complete_Ok in H as [(_ & ->)|(_ & l & w & iw & [])]; [apply frame_refl|].
    subst. apply write_completed_frame.
  - by eapply reclaim_expired_frame.
Qed.
