(* ===== verification/Scenario.v ===== *)
(** * Concrete runs of the store

    Rows, requests and command lists the witnesses of the store's theorems
    evaluate on: two dispatchers, one environment, one synchronous invocation
    and its attempt, from registration to completion or reclaim. *)

From S2P Require Import Prelude Ids Environment Invocation Functions Revision Guard Slot Store.
From S2P Require Import SlotStore StoreInv.

Open Scope string_scope.
Open Scope Z_scope.

(** ** Definitions *)

(** Runs a list of commands, stopping at the first refusal. *)
Fixpoint run_cmds (display : DomainError → string) (cfg : StoreConfig) (cs : list store_cmd)
    (s : State) : result RepoError State :=
  match cs with
  | [] => Ok s
  | c :: cs => s ← run_cmd display cfg c s; run_cmds display cfg cs s
  end.

Definition cfg0 : StoreConfig := mkStoreConfig limits_default (Some 1000).
Definition display0 (e : DomainError) : string := "refused".

Definition dispatcher_of (id : DispatcherId) (expires : Timestamp) : DispatcherRecord :=
  mkDispatcher id "i" "h" 1 0 0 expires None None.
Definition dsp_a : DispatcherRecord := dispatcher_of "dsp_a" 100.
Definition dsp_b : DispatcherRecord := dispatcher_of "dsp_b" 100000.

(** The environment of the runs: ready, owned by [dsp_a], at epoch 0. *)
Definition env_a : ExecutionEnvironment := Env.owned_by "dsp_a" env_ready.
Definition env_a_busy : ExecutionEnvironment :=
  match Env.assign 30 env_a with Ok (e, _) => e | Err _ => env_a end.

(** The invocation of the runs, waited for by a client of [dsp_a]. *)
Definition inv_a : Invocation :=
  inv0 <| inv_mode := Sync |> <| inv_dispatcher_id := Some "dsp_a" |>.
Definition inv_a_running : Invocation :=
  match run_inv_ops [OpQueued; OpRunning "att_a" 60 20] 1 inv_a with Ok i => i | Err _ => inv_a end.
Definition inv_a_done : Invocation :=
  match run_inv_ops [OpSucceeded None None] 40 inv_a_running with Ok i => i | Err _ => inv_a end.

Definition att_a : InvocationAttempt :=
  Att.dispatch "att_a" "inv_a" "tn_a" 1 "env_a" 1 Warm 30.
Definition att_a_done : InvocationAttempt :=
  match Att.succeed 40 att_a with Ok a => a | Err _ => att_a end.
Definition lse_a : ExecutionLease :=
  Lse.owned_by "dsp_a" 100 (Lse.acquire "lse_a" "env_a" "att_a" "tn_a" 1 500 30).

Definition acquire_a : SlotAcquire := mkAcquire env_a_busy 0 lse_a att_a (Some inv_a_running).
Definition complete_a : SlotCompletion := mkCompletion "lse_a" att_a_done (Some inv_a_done) 40.
(** [dsp_b] reclaims at 1000, when the leases of [dsp_a] are long expired. *)
Definition reclaim_b : ReclaimRequest := mkReclaim "dsp_b" 1000 10 [].

Definition setup : list store_cmd :=
  [CRegister dsp_a; CRegister dsp_b; CInsertBound inv_a; CInsertEnvironment env_a].

Definition state_of (r : result RepoError State) : State :=
  match r with Ok s => s | Err _ => empty_state end.
Definition run0 (cs : list store_cmd) : result RepoError State :=
  run_cmds display0 cfg0 cs empty_state.

Definition s_ready : State := state_of (run0 setup).
Definition s_held : State := state_of (run0 (setup ++ [CAcquire acquire_a])).
Definition s_done : State := state_of (run0 (setup ++ [CAcquire acquire_a; CComplete complete_a])).
Definition s_reclaimed : State :=
  state_of (run0 (setup ++ [CAcquire acquire_a; CReclaim reclaim_b])).

Definition reclaim_report : ReclaimReport :=
  match Slots.reclaim_expired cfg0 reclaim_b s_held with
  | Ok (rep, _) => rep
  | Err _ => report_default
  end.

Definition env_a_gone : ExecutionEnvironment :=
  unwrap_or (st_environments s_reclaimed !! "env_a") env_a.
Definition dsp_a_gone : DispatcherRecord := unwrap_or (st_dispatchers s_reclaimed !! "dsp_a") dsp_a.
Definition s_renewed : State :=
  match Slots.heartbeat "dsp_a" 500 50 s_held with Ok (_, s) => s | Err _ => empty_state end.

(** ** Lemmas *)

Lemma run_cmds_steps display cfg cs s s' :
  run_cmds display cfg cs s = Ok s' → rtc (store_step display cfg) s s'.
Proof.
  revert s. induction cs as [|c cs IH]; intros s H; cbn in H; steps; [apply rtc_refl|].
  eapply rtc_l; [by exists c | by apply IH].
Qed.

Lemma run0_reachable cs s : run0 cs = Ok s → store_reachable display0 cfg0 s.
Proof. apply run_cmds_steps. Qed.

Lemma s_ready_reachable : store_reachable display0 cfg0 s_ready.
Proof. apply (run0_reachable setup). vm_compute. reflexivity. Qed.
Lemma s_held_reachable : store_reachable display0 cfg0 s_held.
Proof. apply (run0_reachable (setup ++ [CAcquire acquire_a])). vm_compute. reflexivity. Qed.
Lemma s_done_reachable : store_reachable display0 cfg0 s_done.
Proof.
  apply (run0_reachable (setup ++ [CAcquire acquire_a; CComplete complete_a])).
  vm_compute. reflexivity.
Qed.

Lemma s_reclaimed_reachable : store_reachable display0 cfg0 s_reclaimed.
Proof.
  apply (run0_reachable (setup ++ [CAcquire acquire_a; CReclaim reclaim_b])).
  vm_compute. reflexivity.
Qed.

(** The environment is held in between, and by nobody before and after. *)
Example slot_held_in_between :
  map (λ s, has_unreleased_lease s "env_a") [s_ready; s_held; s_done; s_reclaimed]
    = [false; true; false; false].
Proof. vm_compute. reflexivity. Qed.
