(* ===== verification/Reclaim.v ===== *)
(** * Reclaim: what a pass takes and what it spares

    The two contracts of [SlotStore::reclaim_expired]: nothing that belongs to
    the reclaimer, or to a dispatcher that still holds its lease, is touched;
    and nothing of a dead dispatcher is left held, usable or in flight. *)

From S2P Require Import Prelude Ids Environment Invocation Functions Revision Guard Slot Store.
From S2P Require Import SlotStore StoreInv Scenario.

Open Scope string_scope.
Open Scope Z_scope.

(** ** Definitions *)

(** No attempt can run on the environment again. *)
Definition out_of_use (e : ExecutionEnvironment) : Prop :=
  Env.is_terminal e = true ∨ Env.is_fenced e = true.

Definition env_out_of_use (s : State) (k : EnvironmentId) : Prop :=
  ∃ e, st_environments s !! k = Some e ∧ out_of_use e.

(** The invocation ended. *)
Definition inv_settled (s : State) (k : InvocationId) : Prop :=
  ∃ i, st_invocations s !! k = Some i ∧ InvocationStatus.is_terminal (inv_status i) = true.

(** A dispatcher the pass finds gone: it stopped, an earlier pass reclaimed it,
    the reclaimer proved it dead, or its lease ran out more than the clock skew ago. *)
Definition found_gone (r : ReclaimRequest) (d : DispatcherRecord) : Prop :=
  disp_id d ≠ req_reclaimer r ∧
  (Disp.is_live d = false ∨ disp_id d ∈ req_presumed_dead r ∨
   disp_lease_expires_at d + req_skew r ≤ req_now r).

(** A held lease the pass has no claim on: the reclaimer's own, or one that has
    not expired, of a dispatcher that is not gone. *)
Definition spared_lease (r : ReclaimRequest) (s : State) (l : ExecutionLease) : Prop :=
  unreleased l ∧ ∃ o, lease_owner l = Some o ∧
  (o = req_reclaimer r ∨
   (∀ d, st_dispatchers s !! o = Some d → ¬ found_gone r d) ∧
   Lse.is_expired (req_now r) (req_skew r) l = false).

(** What [reclaim_owner] leaves of the rows of its owner. *)
Record owner_cleared (owner : DispatcherId) (s s' : State) : Prop := {
  oc_envs : ∀ k e, st_environments s !! k = Some e → env_owner e = Some owner → env_out_of_use s' k;
  oc_invs : ∀ k i, st_invocations s !! k = Some i → inv_dispatcher_id i = Some owner →
    inv_mode i = Sync → inv_settled s' k
}.

(** Nothing is left of a dispatcher: no lease, no usable environment, no
    synchronous invocation in flight. *)
Definition dead_cleared (owner : DispatcherId) (s s' : State) : Prop :=
  (∀ k l, st_leases s' !! k = Some l → unreleased l → lease_owner l ≠ Some owner) ∧
  owner_cleared owner s s'.

(** ** Lemmas *)

Lemma env_out_of_use_le s s' k : state_le s s' → env_out_of_use s k → env_out_of_use s' k.
Proof.
  intros Hle (e & He & Ho). destruct (sl_environments _ _ Hle _ _ He) as (e' & He' & [_ Hf Hx]).
  exists e'. split; [done|]. destruct Ho as [Ht|Hfe]; [left; by rewrite (Hf Ht)|right].
  unfold Env.is_fenced in *. destruct (env_fenced_at e) as [t|]; [|done].
  by destruct (Hx t eq_refl) as [-> _].
Qed.

Lemma inv_settled_le s s' k : state_le s s' → inv_settled s k → inv_settled s' k.
Proof.
  intros Hle (i & Hi & Ht). destruct (sl_invocations _ _ Hle _ _ Hi) as (i' & Hi' & [_ Hf]).
  exists i'. rewrite (Hf Ht) in *. done.
Qed.

Lemma fence_env_out_of_use id now s r e :
  st_environments s !! id = Some e → env_out_of_use (fence_env id now (s, r)).1 id.
Proof.
  intros He. unfold fence_env, env_out_of_use, out_of_use. rewrite He.
  destruct (Env.is_terminal e) eqn:Ht; cbn; [eauto|].
  destruct (Env.is_fenced e) eqn:Hf; cbn; [eauto|].
  unfold Env.fence. unfold Env.is_terminal in Ht. rewrite Ht. cbn.
  eexists. rewrite lookup_insert_eq. split; [done|]. right.
  unfold Env.is_fenced in *. by destruct (env_fenced_at e).
Qed.

(** The environment of a lease that is reclaimed goes out of use. *)
Lemma reclaim_lease_out_of_use ret now s report l c :
  slot_inv s → st_leases s !! lease_id l = Some l → unreleased l →
  env_out_of_use (Slots.reclaim_lease ret now (s, report) (l, c)).1 (lease_environment_id l).
Proof.
  intros Hinv Hl Hu.
  destruct (si_backed _ Hinv _ _ Hl Hu) as [(e & He & Hep & _ & _) _ _].
  unfold Slots.reclaim_lease.
  destruct (Lse.release now l) as [l'|] eqn:Hrel; [|unfold Lse.release in Hrel; by rewrite Hu in Hrel].
  apply release_Ok in Hrel as (_ & ->). cbn [lease_id lease_attempt_id lease_environment_id lease_epoch].
  set (l' := l <| lease_released_at := Some now |>) in *.
  change (lease_environment_id l') with (lease_environment_id l).
  change (lease_epoch l') with (lease_epoch l).
  match goal with |- context [let '(s, report) := ?X in _] =>
    assert (st_environments X.1 = st_environments s) as HE end.
  { destruct (st_attempts _ !! _) as [att|]; [|done].
    destruct (settle_attempt_with att true c now) as [att' b].
    destruct (is_some_and _ _); [|done]. etrans; [apply settle_invocation_rows_frame|done]. }
  match goal with |- context [let '(s, report) := ?X in _] => destruct X as [s2 r2] end.
  cbn [fst] in HE. rewrite <-HE in He.
  assert (is_some_and (st_environments s2 !! lease_environment_id l)
            (λ e, env_epoch e =? lease_epoch l) = true) as ->.
  { rewrite He. cbn. by apply Z.eqb_eq. }
  by eapply fence_env_out_of_use.
Qed.

Lemma reclaim_leases_out_of_use ret now L s report lc :
  slot_inv s → expired_ok s L → lc ∈ L →
  env_out_of_use (foldl (Slots.reclaim_lease ret now) (s, report) L).1 (lease_environment_id lc.1).
Proof.
  revert s report. induction L as [|[l c] L IH]; intros s report Hinv [Hnd Hst] Hin.
  { by apply not_elem_of_nil in Hin. }
  destruct (Hst (l, c)) as [Hl Hu]; [by left|]. cbn [fst] in Hl, Hu. cbn [foldl].
  inversion_clear Hnd as [|? ? Hnot Hnd'].
  destruct (reclaim_lease_step ret now s report l c Hinv Hl Hu) as [H1 HL1].
  pose proof (reclaim_lease_out_of_use ret now s report l c Hinv Hl Hu) as Hout.
  destruct (Slots.reclaim_lease ret now (s, report) (l, c)) as [s1 r1]. cbn [fst] in *.
  assert (expired_ok s1 L) as Hok1.
  { split; [done|]. intros lc' Hin'. destruct (Hst lc') as [Hlc Hulc]; [by right|].
    split; [|done]. rewrite HL1, lookup_insert_ne; [done|].
    intros Heq. apply Hnot. cbn. rewrite Heq.
    apply list_elem_of_In, (in_map (λ lc, lease_id lc.1)). by apply list_elem_of_In. }
  apply elem_of_cons in Hin as [->|Hin].
  - destruct (reclaim_leases_step ret now L s1 r1 (rs_inv _ _ H1) Hok1) as [H2 _].
    eapply env_out_of_use_le; [apply H2|done].
  - by apply IH; [apply H1| |].
Qed.

(** An environment no lease of the pass is about is left as it was. *)
Lemma reclaim_lease_env_frame ret now s report l c k :
  k ≠ lease_environment_id l →
  st_environments (Slots.reclaim_lease ret now (s, report) (l, c)).1 !! k = st_environments s !! k.
Proof.
  intros Hk. unfold Slots.reclaim_lease.
  destruct (Lse.release now l) as [l'|] eqn:Hrel; [|done]. apply release_Ok in Hrel as (_ & ->).
  set (l' := l <| lease_released_at := Some now |>) in *.
  change (lease_environment_id l') with (lease_environment_id l).
  match goal with |- context [let '(s, report) := ?X in _] =>
    assert (st_environments X.1 = st_environments s) as HE end.
  { destruct (st_attempts _ !! _) as [att|]; [|done].
    destruct (settle_attempt_with att true c now) as [att' b].
    destruct (is_some_and _ _); [|done]. etrans; [apply settle_invocation_rows_frame|done]. }
  match goal with |- context [let '(s, report) := ?X in _] => destruct X as [s2 r2] end.
  cbn [fst] in HE. destruct (is_some_and _ _); cbn [fst]; [|by rewrite HE].
  destruct (fence_env_frame (lease_environment_id l) now s2 r2) as (_ & _ & _ & _ & Hf).
  by rewrite Hf, HE.
Qed.

Lemma reclaim_leases_env_frame ret now L s report k :
  (∀ lc, lc ∈ L → k ≠ lease_environment_id lc.1) →
  st_environments (foldl (Slots.reclaim_lease ret now) (s, report) L).1 !! k
    = st_environments s !! k.
Proof.
  intros HL. apply (foldl_inv (λ sr, st_environments sr.1 !! k = st_environments s !! k)); [done|].
  intros [s1 r1] [l c] Hin H1. cbn [fst] in *.
  rewrite reclaim_lease_env_frame; [done|]. by apply (HL (l, c)).
Qed.

Lemma fence_fold_env_frame ids now s report k :
  k ∉ ids →
  st_environments (foldl (λ sr id, fence_env id now sr) (s, report) ids).1 !! k
    = st_environments s !! k.
Proof.
  intros Hk. apply (foldl_inv (λ sr, st_environments sr.1 !! k = st_environments s !! k)); [done|].
  intros [s1 r1] id Hin H1. cbn [fst] in *.
  destruct (fence_env_frame id now s1 r1) as (_ & _ & _ & _ & Hf).
  rewrite Hf; [done|]. by intros ->.
Qed.

(** An environment of another owner is left as it was. *)
Lemma reclaim_owner_env_frame ret now owner c s report k e :
  slot_inv s → st_environments s !! k = Some e → env_owner e ≠ Some owner →
  st_environments (Slots.reclaim_owner ret now (s, report) (owner, c)).1 !! k = Some e.
Proof.
  intros Hinv He Ho. unfold Slots.reclaim_owner. cbn [fst].
  match goal with |- context [foldl (λ sr id, settle_invocation_rows id c ret now sr) _ ?I] =>
    pose proof (settle_rows_fold I c ret now s report Hinv) as (H1 & L1 & E1) end.
  destruct (foldl _ (s, report) _) as [s1 r1]. cbn [fst] in *.
  rewrite fence_fold_env_frame; [by rewrite E1|].
  intros Hk. apply list_elem_of_In, in_map_iff in Hk as (e' & <- & Hin%list_elem_of_In).
  apply elem_of_filter_values in Hin as ((j & Hj) & Hp). bools.
  rewrite E1 in Hj. rewrite (si_env_key _ Hinv _ _ Hj) in He. congruence.
Qed.

Lemma reclaim_owners_env_frame ret now D s report k e :
  slot_inv s → (∀ oc, oc ∈ D → holds_nothing s oc.1) →
  st_environments s !! k = Some e → (∀ oc, oc ∈ D → env_owner e ≠ Some oc.1) →
  st_environments (foldl (Slots.reclaim_owner ret now) (s, report) D).1 !! k = Some e.
Proof.
  intros Hinv Hn He Ho.
  apply (foldl_inv (λ sr, reclaim_step s sr.1 ∧ st_leases sr.1 = st_leases s ∧
                          st_environments sr.1 !! k = Some e)).
  - split; [by apply reclaim_step_refl|done].
  - intros [s1 r1] [owner c] Hin (H1 & L1 & E1). cbn [fst] in *.
    destruct (reclaim_owner_step ret now owner c s1 r1 (rs_inv _ _ H1)) as [H2 L2].
    { unfold holds_nothing. rewrite L1. by apply (Hn (owner, c)). }
    split; [by eapply reclaim_step_trans|]. split; [congruence|].
    apply reclaim_owner_env_frame; [apply H1|done|]. by apply (Ho (owner, c)).
Qed.

(** What a dead dispatcher owned goes out of use, what it drove is settled. *)
Lemma settle_rows_settled id c ret now s r i :
  slot_inv s → st_invocations s !! id = Some i → inv_mode i = Sync →
  inv_settled (settle_invocation_rows id c ret now (s, r)).1 id.
Proof.
  intros Hinv Hi Hm. unfold settle_invocation_rows, inv_settled, survives_dispatcher. rewrite Hi, Hm.
  cbn [bool_decide decide_rel]. rewrite bool_decide_false by done.
  destruct (settle_invocation_with i c now) as [i' b] eqn:Hs.
  pose proof (settle_inv_row_le _ _ _ _ _ Hs) as [Hid _].
  assert (inv_id i' = id) as Hi'. { rewrite <-(si_invocation_key _ Hinv _ _ Hi). congruence. }
  apply settle_invocation_with_spec in Hs. destruct b.
  - match goal with |- context [settle_attempts ?a ?b ?c ?d (?s1, ?r1)] =>
      destruct (settle_attempts_frame a b c d s1 r1) as (_ & _ & _ & ->) end.
    match goal with |- context [set_binding_expiry ?a ?b ?s1] =>
      destruct (set_binding_expiry_frame a b s1) as (_ & _ & _ & _ & ->) end.
    exists i'. cbn. rewrite Hi', lookup_insert_eq. split; [done|].
    destruct_or! Hs; destruct_and! Hs; done.
  - match goal with |- context [settle_attempts ?a ?b ?c ?d (?s1, ?r1)] =>
      destruct (settle_attempts_frame a b c d s1 r1) as (_ & _ & _ & ->) end.
    exists i. split; [done|]. destruct_or! Hs; destruct_and! Hs; done.
Qed.

Lemma fence_fold_le ids now s report :
  state_le s (foldl (λ sr id, fence_env id now sr) (s, report) ids).1.
Proof.
  apply (foldl_inv (λ sr, state_le s sr.1)); [done|].
  intros [s1 r1] id _ H1. cbn [fst] in *. etrans; [exact H1|apply fence_env_le].
Qed.

Lemma fence_fold_out_of_use ids now s report k e :
  k ∈ ids → st_environments s !! k = Some e →
  env_out_of_use (foldl (λ sr id, fence_env id now sr) (s, report) ids).1 k.
Proof.
  intros (l1 & l2 & ->)%list_elem_of_split He. rewrite foldl_app. cbn [foldl].
  pose proof (fence_fold_le l1 now s report) as Hle1.
  destruct (foldl _ (s, report) l1) as [s1 r1]. cbn [fst] in *.
  destruct (sl_environments _ _ Hle1 _ _ He) as (e1 & He1 & _).
  pose proof (fence_env_out_of_use k now s1 r1 e1 He1) as Hout.
  destruct (fence_env k now (s1, r1)) as [s2 r2]. cbn [fst] in *.
  eapply env_out_of_use_le; [apply fence_fold_le|done].
Qed.

Lemma settle_rows_fold_settled ids c ret now s report k i :
  slot_inv s → k ∈ ids → st_invocations s !! k = Some i → inv_mode i = Sync →
  inv_settled (foldl (λ sr id, settle_invocation_rows id c ret now sr) (s, report) ids).1 k.
Proof.
  intros Hinv (l1 & l2 & ->)%list_elem_of_split Hi Hm. rewrite foldl_app. cbn [foldl].
  pose proof (settle_rows_fold l1 c ret now s report Hinv) as (H1 & _).
  destruct (foldl _ (s, report) l1) as [s1 r1]. cbn [fst] in *.
  destruct (sl_invocations _ _ (rs_le _ _ H1) _ _ Hi) as (i1 & Hi1 & [Hid _]).
  pose proof (settle_rows_settled k c ret now s1 r1 i1 (rs_inv _ _ H1) Hi1 ltac:(congruence)) as Hset.
  pose proof (settle_invocation_rows_step k c ret now s1 r1 (rs_inv _ _ H1)) as H2.
  destruct (settle_invocation_rows k c ret now (s1, r1)) as [s2 r2]. cbn [fst] in *.
  pose proof (settle_rows_fold l2 c ret now s2 r2 (rs_inv _ _ H2)) as (H3 & _).
  eapply inv_settled_le; [apply H3|done].
Qed.

Lemma reclaim_owner_cleared ret now owner c s report :
  slot_inv s → holds_nothing s owner →
  owner_cleared owner s (Slots.reclaim_owner ret now (s, report) (owner, c)).1.
Proof.
  intros Hinv Hn. unfold Slots.reclaim_owner. cbn [fst].
  match goal with |- context [foldl (λ sr id, settle_invocation_rows id c ret now sr) _ ?I] =>
    pose proof (settle_rows_fold I c ret now s report Hinv) as (H1 & L1 & E1);
    pose proof (λ k i, settle_rows_fold_settled I c ret now s report k i Hinv) as HS;
    set (ids := I) in * end.
  destruct (foldl _ (s, report) _) as [s1 r1]. cbn [fst] in *.
  split.
  - intros k e He Ho.
    destruct (decide (out_of_use e)) as [Hout|Hout].
    { eapply env_out_of_use_le; [apply fence_fold_le|]. exists e. by rewrite E1. }
    apply (fence_fold_out_of_use _ _ _ _ _ e); [|by rewrite E1].
    apply list_elem_of_In, in_map_iff. exists e. split; [by apply (si_env_key _ Hinv)|].
    apply list_elem_of_In, elem_of_filter_values. split; [exists k; by rewrite E1|].
    unfold out_of_use in Hout. rewrite bool_decide_true by done.
    destruct (Env.is_terminal e), (Env.is_fenced e); cbn; tauto.
  - intros k i Hi Hd Hm. eapply inv_settled_le; [apply fence_fold_le|].
    destruct (InvocationStatus.is_terminal (inv_status i)) eqn:Ht.
    { eapply inv_settled_le; [apply H1|]. by exists i. }
    apply (HS k i); [|done..].
    apply list_elem_of_In, in_map_iff. exists i. split; [by apply (si_invocation_key _ Hinv)|].
    apply list_elem_of_In, elem_of_filter_values. split; [by exists k|].
    rewrite bool_decide_true by done. by rewrite Ht.
Qed.

Lemma reclaim_owners_cleared ret now D s report owner c :
  slot_inv s → (∀ oc, oc ∈ D → holds_nothing s oc.1) → (owner, c) ∈ D →
  owner_cleared owner s (foldl (Slots.reclaim_owner ret now) (s, report) D).1.
Proof.
  intros Hinv Hn (D1 & D2 & ->)%list_elem_of_split. rewrite foldl_app. cbn [foldl].
  destruct (reclaim_owners_step ret now D1 s report Hinv) as [H1 L1].
  { intros oc Hin. apply Hn. set_solver. }
  destruct (foldl _ (s, report) D1) as [s1 r1]. cbn [fst] in *.
  assert (∀ o, holds_nothing s o → holds_nothing s1 o) as Hn1.
  { intros o. unfold holds_nothing. by rewrite L1. }
  assert (holds_nothing s1 owner) as Hno by (apply Hn1, (Hn (owner, c)); set_solver).
  pose proof (reclaim_owner_cleared ret now owner c s1 r1 (rs_inv _ _ H1) Hno) as [CE CI].
  destruct (reclaim_owner_step ret now owner c s1 r1 (rs_inv _ _ H1) Hno) as [H2 L2].
  destruct (Slots.reclaim_owner ret now (s1, r1) (owner, c)) as [s2 r2]. cbn [fst] in *.
  destruct (reclaim_owners_step ret now D2 s2 r2 (rs_inv _ _ H2)) as [H3 _].
  { intros oc Hin. unfold holds_nothing. rewrite L2. apply Hn1, Hn. set_solver. }
  split.
  - intros k e He Ho. destruct (sl_environments _ _ (rs_le _ _ H1) _ _ He) as (e1 & He1 & [[] _ _]).
    eapply env_out_of_use_le; [apply H3|]. apply (CE k e1); congruence.
  - intros k i Hi Hd Hm. destruct (sl_invocations _ _ (rs_le _ _ H1) _ _ Hi) as (i1 & Hi1 & [Hid _]).
    eapply inv_settled_le; [apply H3|]. apply (CI k i1); congruence.
Qed.

(** The verdict of a pass is that the dispatcher is gone. *)
Lemma judge_gone r d : found_gone r d ↔ Slots.judge r d ≠ Slots.Spared.
Proof.
  unfold found_gone, Slots.judge, Disp.is_live, Disp.is_expired.
  case_bool_decide as Hid; [tauto|].
  destruct (disp_reclaimed_at d); cbn; [rewrite andb_false_r; split; auto|].
  destruct (disp_stopped_at d); cbn; [split; auto|].
  case_bool_decide as Hdead; cbn; [split; auto|].
  destruct (Z.leb_spec (disp_lease_expires_at d + req_skew r) (req_now r)); cbn; [split; auto|].
  split; [|done]. intros [_ [?|[?|?]]]; [done|done|lia].
Qed.

Lemma dead_of_gone r s d :
  slot_inv s → st_dispatchers s !! disp_id d = Some d → found_gone r d →
  ∃ c, Slots.dead_of r s !! disp_id d = Some c.
Proof.
  intros Hinv Hd Hg%judge_gone. destruct (Slots.judge r d) as [|c|c] eqn:Hj; [done| |];
    (exists c; apply dead_of_lookup; [apply Hinv|]; exists d; by rewrite Hj).
Qed.

Lemma dead_of_found_gone r s o :
  slot_inv s → is_Some (Slots.dead_of r s !! o) →
  ∃ d, st_dispatchers s !! o = Some d ∧ found_gone r d.
Proof.
  intros Hinv [c Hc]. apply dead_of_lookup in Hc as (d & Hd & Hv); [|apply Hinv].
  exists d. split; [done|]. apply judge_gone. by destruct (Slots.judge r d).
Qed.

Lemma dead_of_not_reclaimer r s o :
  slot_inv s → is_Some (Slots.dead_of r s !! o) → o ≠ req_reclaimer r.
Proof.
  intros Hinv (d & Hd & Hg & _)%dead_of_found_gone; [|done].
  by rewrite <-(si_dispatcher_key _ Hinv _ _ Hd).
Qed.

Lemma spared_expiry_cause r s l :
  slot_inv s → spared_lease r s l →
  unreleased l ∧ Slots.expiry_cause r (Slots.dead_of r s) l = None ∧
  ∀ o, is_Some (Slots.dead_of r s !! o) → lease_owner l ≠ Some o.
Proof.
  intros Hinv (Hu & o & Ho & Hs).
  assert (∀ o', is_Some (Slots.dead_of r s !! o') → o ≠ o') as Hne.
  { intros o' Ho' <-. destruct Hs as [->|[Hg _]].
    - by eapply dead_of_not_reclaimer.
    - destruct (dead_of_found_gone r s o Hinv Ho') as (d & Hd & Hdg). by apply (Hg d). }
  split; [done|]. split; [|intros o' Ho' Heq; apply (Hne o' Ho'); congruence].
  unfold Slots.expiry_cause, unreleased in *.
  rewrite Hu, Ho. cbn. case_bool_decide as Hr; [done|]. destruct Hs as [?|[_ He]]; [done|].
  destruct (Slots.dead_of r s !! o) as [c|] eqn:Hd; [|by rewrite He].
  destruct (Hne o); eauto.
Qed.

(** The pass, as its three phases. *)
Lemma reclaim_expired_phases cfg r s rep s' :
  slot_inv s → Slots.may_reclaim r s = true → Slots.reclaim_expired cfg r s = Ok (rep, s') →
  let ret := cfg_idempotency_retention cfg in
  let s1 := s <| st_dispatchers ::= fmap (Slots.mark_reclaimed r) |> in
  ∃ rep1 rep2,
  let s2 := (foldl (Slots.reclaim_lease ret (req_now r)) (s1, rep1) (expired_of r s)).1 in
  good_step s s1 ∧ expired_ok s1 (expired_of r s) ∧ reclaim_step s1 s2 ∧
  (∀ oc, oc ∈ btree_entries (Slots.dead_of r s) → holds_nothing s2 oc.1) ∧
  reclaim_step s2 s' ∧
  s' = (foldl (Slots.reclaim_owner ret (req_now r)) (s2, rep2) (btree_entries (Slots.dead_of r s))).1.
Proof.
  intros Hinv Hmay H. unfold Slots.reclaim_expired in H. rewrite Hmay in H. cbn [negb] in H.
  set (s1 := s <| st_dispatchers ::= fmap (Slots.mark_reclaimed r) |>) in *.
  assert (good_step s s1) as H1.
  { split.
    - apply (slot_inv_dispatchers s); [done|]. apply keyed_fmap; [apply Hinv|].
      intros d. destruct (mark_reclaimed_le r d) as [Hid _ _ _ _]. congruence.
    - split; try reflexivity. cbn. apply rows_le_fmap, mark_reclaimed_le. }
  change (omap _ _) with (expired_of r s) in H.
  assert (expired_ok s1 (expired_of r s)) as Hok by (destruct (expired_of_ok r s Hinv); by split).
  match type of H with context [foldl (Slots.reclaim_lease _ _) (s1, ?rep0) _] =>
    exists rep0;
    destruct (reclaim_leases_step (cfg_idempotency_retention cfg) (req_now r) (expired_of r s) s1 rep0
                (gs_inv _ _ H1) Hok) as [H2 L2] end.
  destruct (foldl (Slots.reclaim_lease _ _) _ _) as [s2 r2]. cbn [fst] in *. exists r2.
  assert (∀ oc, oc ∈ btree_entries (Slots.dead_of r s) → holds_nothing s2 oc.1) as Hn.
  { intros [o c] Hin%elem_of_btree_entries. unfold holds_nothing. rewrite L2.
    apply (dead_holds_nothing r s); eauto. }
  destruct (reclaim_owners_step (cfg_idempotency_retention cfg) (req_now r)
              (btree_entries (Slots.dead_of r s)) s2 r2 (rs_inv _ _ H2) Hn) as [H3 _].
  destruct (foldl (Slots.reclaim_owner _ _) _ _) as [s3 r3]. cbn [fst] in *. simplify_eq.
  split_and!; done.
Qed.

Lemma mark_reclaimed_gone r d :
  found_gone r d → disp_reclaimed_at (Slots.mark_reclaimed r d) ≠ None.
Proof.
  intros Hg%judge_gone. unfold Slots.mark_reclaimed.
  destruct (Slots.judge r d) eqn:Hj; [done| |done]. cbn. unfold Slots.judge in Hj.
  destruct (disp_id d == _); [done|]. destruct (disp_reclaimed_at d); [done|].
  by destruct (_ && _ && _).
Qed.

Lemma owner_cleared_le owner s0 s s' :
  state_le s0 s → owner_cleared owner s s' → owner_cleared owner s0 s'.
Proof.
  intros Hle [CE CI]. split.
  - intros k e He Ho. destruct (sl_environments _ _ Hle _ _ He) as (e' & He' & [[] _ _]).
    apply (CE k e'); congruence.
  - intros k i Hi Ho Hm. destruct (sl_invocations _ _ Hle _ _ Hi) as (i' & Hi' & [Hid _]).
    apply (CI k i'); congruence.
Qed.

(** ** Properties *)

(** A pass of a dispatcher that lost its own lease does nothing. Any other
    pass leaves alone what it has no claim on: the rows of dispatchers that are
    not gone, every lease that is the reclaimer's own or unexpired and held by a
    dispatcher that is not gone, and the environment under such a lease, which is
    neither fenced nor moved. *)
Theorem reclaim_spares_the_living display cfg s r rep s' :
  store_reachable display cfg s → Slots.reclaim_expired cfg r s = Ok (rep, s') →
  (Slots.may_reclaim r s = false → rep = report_default ∧ s' = s) ∧
  (∀ k d, st_dispatchers s !! k = Some d → ¬ found_gone r d → st_dispatchers s' !! k = Some d) ∧
  (∀ k l, st_leases s !! k = Some l → spared_lease r s l →
     st_leases s' !! k = Some l ∧
     st_environments s' !! lease_environment_id l = st_environments s !! lease_environment_id l).
Proof.
  intros [Hinv _]%(steps_good display cfg _ _ empty_slot_inv) H.
  destruct (reclaim_expired_Ok cfg r s rep s' Hinv H) as [(Hmay & -> & ->)|(Hmay & [_ _ HD HL])];
    [by split_and!|].
  split; [congruence|]. split.
  - intros k d Hd Hg. rewrite HD, lookup_fmap, Hd. cbn. f_equal. unfold Slots.mark_reclaimed.
    rewrite judge_gone in Hg. destruct (Slots.judge r d); [done|..]; by destruct Hg.
  - intros k l Hl Hs. destruct (spared_expiry_cause r s l Hinv Hs) as (Hu & Hc & Ho).
    split; [by rewrite HL, (leases_after_lookup_expired r s _ k l Hinv Hl), Hc|].
    destruct (si_backed _ Hinv _ _ Hl Hu) as [(e & He & _ & Hoe & _) _ _].
    destruct (reclaim_expired_phases cfg r s rep s' Hinv Hmay H)
      as (r1 & r2 & [Hinv1 _] & _ & H2 & Hn & _ & ->).
    rewrite He. apply reclaim_owners_env_frame; [apply H2|done| |].
    + rewrite reclaim_leases_env_frame; [done|]. intros [l' c'] Hin. cbn.
      apply elem_of_expired in Hin as [[k' Hk'] Hc']. intros Heq.
      destruct (expiry_cause_Some _ _ _ _ Hc') as [Hu' _].
      pose proof (si_one_holder _ Hinv _ _ _ _ Hl Hk' Hu Hu' Heq). congruence.
    + intros [o c] Hin%elem_of_btree_entries. cbn. rewrite Hoe. apply Ho. eauto.
Qed.

(** After a pass, nothing of what it found gone is left behind. Every held
    lease that is not spared is released and its environment is out of use. Every
    dispatcher found gone is marked reclaimed and holds no lease, every
    environment it owned is out of use, and every synchronous invocation it drove
    has ended. *)
Theorem reclaim_clears_the_dead display cfg s r rep s' :
  store_reachable display cfg s → Slots.reclaim_expired cfg r s = Ok (rep, s') →
  Slots.may_reclaim r s = true →
  (∀ k l, st_leases s !! k = Some l → unreleased l → ¬ spared_lease r s l →
     st_leases s' !! k = Some (l <| lease_released_at := Some (req_now r) |>) ∧
     env_out_of_use s' (lease_environment_id l)) ∧
  (∀ d, st_dispatchers s !! disp_id d = Some d → found_gone r d →
     (∃ d', st_dispatchers s' !! disp_id d = Some d' ∧ disp_reclaimed_at d' ≠ None) ∧
     dead_cleared (disp_id d) s s').
Proof.
  intros [Hinv _]%(steps_good display cfg _ _ empty_slot_inv) H Hmay.
  destruct (reclaim_expired_Ok cfg r s rep s' Hinv H) as [(? & _)|(_ & [_ _ HD HL])]; [congruence|].
  destruct (reclaim_expired_phases cfg r s rep s' Hinv Hmay H)
    as (r1 & r2 & [Hinv1 Hle1] & Hok & H2 & Hn & H3 & Heq).
  set (s1 := s <| st_dispatchers ::= fmap (Slots.mark_reclaimed r) |>) in *.
  split.
  - intros k l Hk Hu Hns. destruct (Slots.expiry_cause r (Slots.dead_of r s) l) as [c|] eqn:Hc.
    + split; [by rewrite HL, (leases_after_lookup_expired r s _ k l Hinv Hk), Hc|].
      eapply env_out_of_use_le; [apply H3|].
      apply (reclaim_leases_out_of_use _ _ (expired_of r s) s1 r1 (l, c)); [done..|].
      apply elem_of_expired. eauto.
    + destruct Hns. destruct (si_backed _ Hinv _ _ Hk Hu) as [_ Ho _].
      destruct (lease_owner l) as [o|] eqn:Hlo; [|done]. split; [done|]. exists o. split; [done|].
      destruct (expiry_cause_None _ _ _ _ Hc Hu Hlo) as [->|[Hd He]]; [by left|right].
      split; [|done]. intros d Hdo Hg. pose proof (si_dispatcher_key _ Hinv _ _ Hdo) as <-.
      destruct (dead_of_gone r s d Hinv Hdo Hg). congruence.
  - intros d Hd Hg. destruct (dead_of_gone r s d Hinv Hd Hg) as [c Hc].
    match type of H2 with reclaim_step _ ?X => set (s2 := X) in * end.
    pose proof (reclaim_owners_cleared (cfg_idempotency_retention cfg) (req_now r)
      (btree_entries (Slots.dead_of r s)) s2 r2 (disp_id d) c (rs_inv _ _ H2) Hn
      ltac:(by apply elem_of_btree_entries)) as HC.
    rewrite <-Heq in HC. assert (state_le s s2) as Hle by (etrans; [exact Hle1|apply H2]).
    split; [|split; [|by eapply owner_cleared_le]].
    + exists (Slots.mark_reclaimed r d). rewrite HD, lookup_fmap, Hd.
      split; [done|by apply mark_reclaimed_gone].
    + intros k l Hk Hu. rewrite HL in Hk.
      exact (dead_holds_nothing r s _ _ Hinv (ex_intro _ c Hc) k l Hk Hu).
Qed.

(** ** Witnesses *)

Lemma reclaim_spares_the_living_witness :
  st_dispatchers s_reclaimed !! "dsp_b" = Some dsp_b.
Proof.
  destruct (reclaim_spares_the_living display0 cfg0 s_held reclaim_b reclaim_report s_reclaimed
              s_held_reachable) as (_ & H & _).
  - vm_compute. reflexivity.
  - apply H; [vm_compute; reflexivity|]. intros [Hne _]. apply Hne. reflexivity.
Defined.

Lemma reclaim_clears_the_dead_witness :
  env_out_of_use s_reclaimed "env_a" ∧ inv_settled s_reclaimed "inv_a".
Proof.
  destruct (reclaim_clears_the_dead display0 cfg0 s_held reclaim_b reclaim_report s_reclaimed
              s_held_reachable) as (_ & H).
  - vm_compute. reflexivity.
  - vm_compute. reflexivity.
  - destruct (H dsp_a) as (_ & _ & [He Hi]).
    + vm_compute. reflexivity.
    + split; [vm_compute; discriminate|]. right. right. vm_compute. discriminate.
    + split; [apply (He "env_a" env_a_busy) | apply (Hi "inv_a" inv_a_running)];
        vm_compute; reflexivity.
Defined.
