(* ===== verification/SlotProps.v ===== *)
(** * Slots: who may run, and whose result counts

    The guarantees of the [SlotStore] port over every history of the store: one
    holder per environment, one accepted completion per lease, no use of a
    fenced environment, no return of a dispatcher that was declared gone. *)

From S2P Require Import Prelude Ids Environment Invocation Functions Revision Guard Slot Store.
From S2P Require Import SlotStore StoreInv Scenario.

Open Scope string_scope.
Open Scope Z_scope.

(** ** Lemmas *)

Lemma reachable_inv display cfg s : store_reachable display cfg s → slot_inv s.
Proof. intros H%(steps_good display cfg _ _ empty_slot_inv). apply H. Qed.

Lemma reachable_steps display cfg s s' :
  store_reachable display cfg s → rtc (store_step display cfg) s s' → good_step s s'.
Proof. intros H Hrun. eapply steps_good; [by eapply reachable_inv | exact Hrun]. Qed.

(** A lease that was released stays released. *)
Lemma released_forever s s' k l :
  state_le s s' → st_leases s !! k = Some l → lease_released_at l ≠ None →
  st_leases s' !! k = Some l.
Proof.
  intros Hle Hl Hr. destruct (sl_leases _ _ Hle _ _ Hl) as (l' & Hl' & [_ Hx _]).
  by rewrite (Hx Hr) in Hl'.
Qed.

Lemma released_not_current s k l a epoch :
  st_leases s !! k = Some l → lease_released_at l ≠ None →
  ∃ reason, lease_is_current (st_leases s !! k) a epoch (Slots.env_of_lease s (st_leases s !! k))
              = Some reason.
Proof.
  intros Hl Hr. destruct (lease_is_current _ _ _ _) eqn:Hc; [eauto|].
  apply lease_is_current_None in Hc as (l' & Hl' & Hn & _). congruence.
Qed.

Lemma complete_stale display cfg c s reason :
  lease_is_current (st_leases s !! cmp_lease_id c) (att_id (cmp_attempt c)) (att_epoch (cmp_attempt c))
    (Slots.env_of_lease s (st_leases s !! cmp_lease_id c)) = Some reason →
  Slots.complete display cfg c s = Ok (CompletionOutcome.Stale reason, s).
Proof. intros H. unfold Slots.complete. by rewrite H. Qed.

Lemma release_lease_stale k a epoch now s reason :
  lease_is_current (st_leases s !! k) a epoch (Slots.env_of_lease s (st_leases s !! k)) = Some reason →
  Slots.release_lease k a epoch now s = Ok (false, s).
Proof. intros H. unfold Slots.release_lease. by rewrite H. Qed.

(** A completion leaves its lease released and writes what it carries. *)
Lemma completed_writes cfg c s s' l w iw :
  slot_inv s → completed cfg c s s' l w iw →
  st_leases s' !! cmp_lease_id c = Some (l <| lease_released_at := Some (cmp_now c) |>) ∧
  st_attempts s' !! att_id (cmp_attempt c) = Some (cmp_attempt c) ∧
  (∀ i, cmp_invocation c = Some i → st_invocations s' !! inv_id i = Some i).
Proof.
  intros Hinv [Hl Hr Ha Hep _ (a & Hat & _ & Hau) Hci ->].
  apply complete_invocation_Ok in Hci.
  pose proof (si_lease_key _ Hinv _ _ Hl) as Hid.
  unfold Slots.write_completed. cbn [lease_id set_field].
  set (s1 := if w == Apply then _ else _).
  assert (st_leases s1 !! cmp_lease_id c = Some (l <| lease_released_at := Some (cmp_now c) |>)) as L1.
  { unfold s1. destruct (w == Apply); cbn; rewrite Hid; apply lookup_insert_eq. }
  assert (st_attempts s1 !! att_id (cmp_attempt c) = Some (cmp_attempt c)) as A1.
  { unfold s1. case_bool_decide; cbn; [apply lookup_insert_eq|].
    apply attempt_update_Ok in Hau. destruct_and! Hau. destruct_or!; destruct_and!; congruence. }
  assert (st_invocations s1 = st_invocations s) as I1 by (unfold s1; by destruct (w == Apply)).
  destruct iw as [[i []]|].
  - match goal with |- context [set_binding_expiry ?i ?r ?x] =>
      destruct (set_binding_expiry_frame i r x) as (_ & E1 & E2 & _ & E3) end.
    rewrite E1, E2, E3. split_and!; try done. intros i' Hi'. destruct Hci as [Hi _].
    assert (i' = i) as -> by congruence. cbn. apply lookup_insert_eq.
  - split_and!; try done. intros i' Hi'. destruct Hci as (Hi & old & Ho & _ & Hu).
    assert (i' = i) as -> by congruence. rewrite I1.
    apply invocation_update_Ok in Hu. destruct_and! Hu. destruct_or!; destruct_and!; congruence.
  - split_and!; try done. congruence.
Qed.

Lemma has_unreleased_lease_after cfg r s s' :
  acquired cfg r s s' →
  held s' (env_id (acq_env r)) ∧
  ∀ k l, st_leases s' !! k = Some l → unreleased l →
    lease_environment_id l = env_id (acq_env r) → k = lease_id (acq_lease r) ∧ l = acq_lease r.
Proof.
  intros [(e & _ & [] & _) _ Hfree%has_unreleased_lease_free _ _ _ ->].
  assert (st_leases (Slots.write_acquired r s) = <[lease_id (acq_lease r) := acq_lease r]> (st_leases s))
    as HL by (unfold Slots.write_acquired; by destruct (acq_invocation r)).
  unfold held. rewrite HL. split.
  - exists (lease_id (acq_lease r)), (acq_lease r). rewrite lookup_insert_eq. done.
  - intros k l [[<- <-]|[Hne Hl]]%lookup_insert_Some Hu He; [done|].
    destruct Hfree. by exists k, l.
Qed.

Lemma acquire_held_refused cfg r s out s' :
  held s (env_id (acq_env r)) → Slots.acquire cfg r s = Ok (out, s') → out ≠ AcquireOutcome.Acquired.
Proof.
  intros Hh [([? ->] & _)|(_ & [_ _ Hfree _ _ _ _])]%acquire_Ok; [done|].
  by apply has_unreleased_lease_free in Hfree.
Qed.

(** An environment that is out of use is never handed out. *)
Lemma out_of_use_not_acquirable r e : acquirable r e → ¬ (Env.is_terminal e = true ∨ Env.is_fenced e = true).
Proof.
  intros []. unfold Env.is_terminal, Env.is_fenced. rewrite aq_not_fenced.
  destruct aq_state as [-> | ->]; by intros [?|?].
Qed.

Lemma disp_not_live_forever s s' k d :
  state_le s s' → st_dispatchers s !! k = Some d → Disp.is_live d = false →
  ∃ d', st_dispatchers s' !! k = Some d' ∧ Disp.is_live d' = false.
Proof.
  intros Hle Hd Hn. destruct (sl_dispatchers _ _ Hle _ _ Hd) as (d' & Hd' & [_ Hl _ _ _]).
  exists d'. split; [done|]. destruct (Disp.is_live d'); [|done]. by rewrite Hl in Hn.
Qed.

(** ** Properties *)

(** C1: In every state the store can reach, each row is stored under its own id,
    an environment has at most one unreleased lease, and an unreleased lease has
    an owner, an environment of the same epoch, owner and tenant, and an attempt
    of the same environment and epoch. *)
Theorem slots_consistent display cfg s : store_reachable display cfg s → slot_inv s.
Proof. apply reachable_inv. Qed.

(** Whatever runs after a reachable state, no row is lost and every row only
    moves forward: identities never change; ended invocations, attempts,
    environments and revisions and released leases are final; lease and
    dispatcher expiries and alias generations never go back; a fenced
    environment keeps its fence and its epoch; a stopped or reclaimed dispatcher
    never becomes live again. *)
Theorem rows_never_go_back display cfg s s' :
  store_reachable display cfg s → rtc (store_step display cfg) s s' → state_le s s'.
Proof. intros H Hrun. by eapply gs_le, reachable_steps. Qed.

(** C4: A result counts once. When a completion is accepted, its lease was
    unreleased and for exactly this attempt and epoch, its environment was at
    that epoch and not fenced, and its attempt and invocation had not ended; the
    rows it carries are then stored and the lease is released. From then on, in
    every later state, each further completion or release under that lease is
    refused as stale and changes nothing. *)
Theorem completion_counts_once display cfg s c s1 :
  store_reachable display cfg s →
  Slots.complete display cfg c s = Ok (CompletionOutcome.Accepted, s1) →
  (∃ l w iw, completed cfg c s s1 l w iw) ∧
  st_attempts s1 !! att_id (cmp_attempt c) = Some (cmp_attempt c) ∧
  (∀ i, cmp_invocation c = Some i → st_invocations s1 !! inv_id i = Some i) ∧
  ∀ s2, rtc (store_step display cfg) s1 s2 →
    (∀ c', cmp_lease_id c' = cmp_lease_id c →
       ∃ reason, Slots.complete display cfg c' s2 = Ok (CompletionOutcome.Stale reason, s2)) ∧
    (∀ a epoch now, Slots.release_lease (cmp_lease_id c) a epoch now s2 = Ok (false, s2)).
Proof.
  intros Hreach Hc. pose proof (reachable_inv _ _ _ Hreach) as Hinv.
  assert (store_step display cfg s s1) as Hs1.
  { exists (CComplete c). cbn. unfold after. by rewrite Hc. }
  destruct (complete_Ok _ _ _ _ _ _ Hc) as [([? ?] & _)|(_ & l & w & iw & Hcp)]; [done|].
  destruct (completed_writes _ _ _ _ _ _ _ Hinv Hcp) as (HL & HA & HI).
  split_and!; eauto. intros s2 H12.
  assert (state_le s1 s2) as Hle.
  { eapply gs_le, reachable_steps; [|exact H12]. by eapply rtc_r. }
  pose proof (released_forever _ _ _ _ Hle HL ltac:(done)) as HL2.
  split.
  - intros c' Hid. rewrite <-Hid in HL2.
    destruct (released_not_current s2 _ _ (att_id (cmp_attempt c')) (att_epoch (cmp_attempt c')) HL2 ltac:(done))
      as [reason Hr]. exists reason. by apply complete_stale.
  - intros a epoch now. destruct (released_not_current s2 _ _ a epoch HL2 ltac:(done)) as [reason Hr].
    by eapply release_lease_stale.
Qed.

(** C3: A slot is taken by one holder. An accepted acquire found the environment
    reusable, unfenced, at the expected epoch, free of leases and owned by a live
    dispatcher, and its invocation not ended; it leaves the environment busy at
    the next epoch, held by exactly the lease it wrote. While the environment is
    held, in that state or any other, every further acquire of it is refused. *)
Theorem slot_has_one_holder cfg s r s1 :
  Slots.acquire cfg r s = Ok (AcquireOutcome.Acquired, s1) →
  acquired cfg r s s1 ∧ held s1 (env_id (acq_env r)) ∧
  (∀ k l, st_leases s1 !! k = Some l → unreleased l →
     lease_environment_id l = env_id (acq_env r) → l = acq_lease r) ∧
  ∀ s2 r' out s3, held s2 (env_id (acq_env r')) →
    Slots.acquire cfg r' s2 = Ok (out, s3) → ∃ reason, out = AcquireOutcome.Lost reason ∧ s3 = s2.
Proof.
  intros Ha. destruct (acquire_Ok _ _ _ _ _ Ha) as [([? ?] & _)|(_ & Hacq)]; [done|].
  destruct (has_unreleased_lease_after _ _ _ _ Hacq) as [Hh Hu]. split_and!; [done..| |].
  - intros k l Hk Hul He. by destruct (Hu k l Hk Hul He).
  - intros s2 r' out s3 Hh2 H. pose proof (acquire_held_refused _ _ _ _ _ Hh2 H).
    apply acquire_Ok in H as [([reason ->] & ->)|(-> & _)]; [eauto|done].
Qed.

(** Once an environment is fenced or has ended it is never used again: in
    every later state it can be neither acquired, nor claimed from the pool, nor
    released to it, and if it was fenced no completion for it is accepted. *)
Theorem out_of_use_for_good display cfg s s' k e :
  store_reachable display cfg s → st_environments s !! k = Some e →
  Env.is_terminal e = true ∨ Env.is_fenced e = true → rtc (store_step display cfg) s s' →
  (∀ r s2, env_id (acq_env r) = k → Slots.acquire cfg r s' ≠ Ok (AcquireOutcome.Acquired, s2)) ∧
  (∀ key o now e' s2, Slots.claim_for_reuse key o now s' = Ok (Some e', s2) → env_id e' ≠ k) ∧
  (∀ e' limits now, env_id e' = k → Slots.release_to_pool e' limits now s' = Ok (None, s')) ∧
  (Env.is_fenced e = true → ∀ c l s2, st_leases s' !! cmp_lease_id c = Some l →
     lease_environment_id l = k →
     Slots.complete display cfg c s' ≠ Ok (CompletionOutcome.Accepted, s2)).
Proof.
  intros Hreach He Ho Hrun. destruct (reachable_steps _ _ _ _ Hreach Hrun) as [Hinv Hle].
  destruct (sl_environments _ _ Hle _ _ He) as (e1 & He1 & [_ Hfin Hfen]).
  assert (Env.is_terminal e1 = true ∨ Env.is_fenced e1 = true) as Ho1.
  { destruct Ho as [Ht|Hf]; [left; by rewrite (Hfin Ht)|right]. unfold Env.is_fenced in *.
    destruct (env_fenced_at e) as [t|]; [|done]. by destruct (Hfen t eq_refl) as [-> _]. }
  split_and!.
  - intros r s2 <- [([? ?] & _)|(_ & [(e2 & He2 & Hacq & _) _ _ _ _ _ _])]%acquire_Ok; [done|].
    rewrite He1 in He2. injection He2 as <-. by destruct (out_of_use_not_acquirable _ _ Hacq).
  - intros key o now e' s2 H <-. unfold Slots.claim_for_reuse in H.
    destruct (btree_find _ _) as [[id env]|] eqn:Hf; [|done].
    apply btree_find_Some in Hf as [Hid Hp]. bools.
    destruct (Env.reserve now env) as [e2|] eqn:Hr; [|done]. simplify_eq.
    apply reserve_Ok in Hr as (Hidle & Hnf & Hr). pose proof (transition_frame _ _ _ _ Hr) as Hfr.
    destruct_and! Hfr. pose proof (si_env_key _ Hinv _ _ Hid) as Hk.
    assert (e1 = env) as -> by congruence. unfold Env.is_terminal, Env.is_fenced in Ho1.
    rewrite Hnf, Hidle in Ho1. by destruct Ho1.
  - intros e' limits now <-. unfold Slots.release_to_pool. rewrite He1.
    destruct Ho1 as [Ht|Hf]; [|by rewrite Hf, !orb_true_r].
    assert (EnvironmentState.is_busy (env_state e1) || Slots.prestarted e1 = false) as ->.
    { unfold Env.is_terminal, Slots.prestarted in *. by destruct (env_state e1). }
    by rewrite !orb_true_r.
  - intros Hf c l s2 Hl <- [([? ?] & _)|(_ & l2 & w & iw & [Hl2 _ _ _ Henv _ _ _])]%complete_Ok; [done|].
    assert (l2 = l) as -> by congruence. destruct (Henv _ He1) as [_ Hn].
    unfold Env.is_fenced in Hf. destruct (env_fenced_at e) as [t|]; [|done].
    destruct (Hfen t eq_refl). congruence.
Qed.

(** A dispatcher that stopped or was reclaimed never comes back: in every
    later state its heartbeat and its outage renewal answer [Fenced], its reclaim
    passes do nothing, and it acquires no slot. *)
Theorem gone_dispatcher_stays_gone display cfg s s' k d :
  store_reachable display cfg s → st_dispatchers s !! k = Some d → Disp.is_live d = false →
  rtc (store_step display cfg) s s' →
  (∀ ttl now, Slots.heartbeat k ttl now s' = Ok (HeartbeatOutcome.Fenced, s') ∧
              Slots.renew_after_store_outage k ttl now s' = Ok (HeartbeatOutcome.Fenced, s')) ∧
  (∀ r, req_reclaimer r = k → Slots.reclaim_expired cfg r s' = Ok (report_default, s')) ∧
  (∀ r s2, lease_owner (acq_lease r) = Some k →
     Slots.acquire cfg r s' ≠ Ok (AcquireOutcome.Acquired, s2)).
Proof.
  intros Hreach Hd Hn Hrun. destruct (reachable_steps _ _ _ _ Hreach Hrun) as [_ Hle].
  destruct (disp_not_live_forever _ _ _ _ Hle Hd Hn) as (d' & Hd' & Hn').
  split_and!.
  - intros ttl now. unfold Slots.heartbeat, Slots.renew_after_store_outage, renew_dispatcher.
    by rewrite Hd', Hn'.
  - intros r <-. unfold Slots.reclaim_expired, Slots.may_reclaim. rewrite Hd'. cbn [is_some_and]. by rewrite Hn'.
  - intros r s2 Ho [([? ?] & _)|(_ & [_ (o & d2 & Ho2 & Hd2 & Hl) _ _ _ _ _])]%acquire_Ok; [done|].
    congruence.
Qed.

(** A heartbeat keeps what is held and revives nothing. It is refused, and
    changes nothing, unless its dispatcher is registered, live and not yet
    expired. Accepted, it moves that dispatcher's expiry to at least [now + ttl],
    keeps each of its active leases active until then, and leaves its lapsed or
    released leases, the leases of others and all other dispatchers untouched. *)
Theorem heartbeat_revives_nothing id ttl now s out s' :
  Slots.heartbeat id ttl now s = Ok (out, s') →
  match out with
  | HeartbeatOutcome.Fenced => s' = s ∧
      ∀ d, st_dispatchers s !! id = Some d →
        Disp.is_live d = false ∨ disp_lease_expires_at d ≤ now
  | HeartbeatOutcome.Renewed _ =>
      (∃ d d', st_dispatchers s !! id = Some d ∧ Disp.is_live d = true ∧
         now < disp_lease_expires_at d ∧ st_dispatchers s' = <[id := d']> (st_dispatchers s) ∧
         now + ttl ≤ disp_lease_expires_at d') ∧
      ∀ k l, st_leases s !! k = Some l →
        ∃ l', st_leases s' !! k = Some l' ∧
          if (lease_owner l == Some id) && Lse.is_active now l
          then ∀ t, t < now + ttl → Lse.is_active t l' = true
          else l' = l
  end.
Proof.
  unfold Slots.heartbeat, renew_dispatcher. cbn [negb andb]. intros H.
  destruct (st_dispatchers s !! id) as [d|] eqn:Hd; [|by simplify_eq].
  destruct (negb (Disp.is_live d) || _) eqn:Hc; injection H as <- <-.
  - split; [done|]. intros d' [= <-]. bools. destruct Hc as [Hc|Hc]; bools; auto.
  - bools. split.
    + exists d. eexists. split_and!; [done..|lia| |]; [cbn; reflexivity|cbn; lia].
    + intros k l Hl. cbn. rewrite lookup_fmap, Hl. cbn. eexists. split; [done|].
      unfold renewable_by, renew_one, Lse.renew, Lse.is_active, Lse.extend.
      destruct (lease_owner l == Some id); cbn; [|done].
      destruct (lease_released_at l) eqn:Hr; cbn; [done|].
      destruct (lease_expires_at l) as [x|] eqn:Hx; cbn.
      * destruct (now <? x) eqn:Hnx; cbn; [|done]. bools.
        destruct (x <? now + ttl) eqn:Hlt; cbn; rewrite ?Hr, ?Hx; cbn; bools;
          intros t Ht; apply Z.ltb_lt; lia.
      * destruct (now <? lease_deadline l) eqn:Hnx; cbn; [|done]. rewrite ?Hr. cbn.
        intros t Ht. by apply Z.ltb_lt.
Qed.

(** ** Witnesses *)

Lemma slots_consistent_witness : slot_inv s_held.
Proof. apply (slots_consistent display0 cfg0), s_held_reachable. Defined.

Lemma rows_never_go_back_witness : state_le s_ready s_held.
Proof.
  apply (rows_never_go_back display0 cfg0); [apply s_ready_reachable|].
  apply (run_cmds_steps _ _ [CAcquire acquire_a]). vm_compute. reflexivity.
Defined.

Lemma completion_counts_once_witness :
  Slots.release_lease "lse_a" "att_a" 1 41 s_done = Ok (false, s_done).
Proof.
  destruct (completion_counts_once display0 cfg0 s_held complete_a s_done s_held_reachable)
    as (_ & _ & _ & H).
  - vm_compute. reflexivity.
  - apply (H s_done (rtc_refl _ _)).
Defined.

Lemma slot_has_one_holder_witness : held s_held "env_a".
Proof.
  apply (slot_has_one_holder cfg0 s_ready acquire_a s_held). vm_compute. reflexivity.
Defined.

Lemma out_of_use_for_good_witness :
  Slots.acquire cfg0 acquire_a s_reclaimed ≠ Ok (AcquireOutcome.Acquired, s_held).
Proof.
  destruct (out_of_use_for_good display0 cfg0 s_reclaimed s_reclaimed "env_a" env_a_gone) as [H _].
  - apply s_reclaimed_reachable.
  - vm_compute. reflexivity.
  - right. vm_compute. reflexivity.
  - apply rtc_refl.
  - apply H. vm_compute. reflexivity.
Defined.

Lemma gone_dispatcher_stays_gone_witness :
  Slots.heartbeat "dsp_a" 50 60 s_reclaimed = Ok (HeartbeatOutcome.Fenced, s_reclaimed).
Proof.
  destruct (gone_dispatcher_stays_gone display0 cfg0 s_reclaimed s_reclaimed "dsp_a" dsp_a_gone)
    as [H _].
  - apply s_reclaimed_reachable.
  - vm_compute. reflexivity.
  - vm_compute. reflexivity.
  - apply rtc_refl.
  - apply (H 50 60).
Defined.

Lemma heartbeat_revives_nothing_witness :
  ∃ l, st_leases s_renewed !! "lse_a" = Some l ∧ ∀ t, t < 550 → Lse.is_active t l = true.
Proof.
  destruct (heartbeat_revives_nothing "dsp_a" 500 50 s_held (HeartbeatOutcome.Renewed 1) s_renewed)
    as [_ H].
  - vm_compute. reflexivity.
  - destruct (H "lse_a" lse_a) as (l & Hl & Ha); [vm_compute; reflexivity|]. exists l. exact (conj Hl Ha).
Defined.
