(* ===== verification/Pool.v ===== *)
(** * The warm pool

    Idle environments are claimed for reuse by exact key and owner, and released
    to the pool within its limits. *)

From S2P Require Import Prelude Ids Environment Invocation Functions Revision Guard Slot Store.
From S2P Require Import SlotStore StoreInv Scenario.

Open Scope string_scope.
Open Scope Z_scope.

(** ** Definitions *)

(** An idle environment a claim for this key and owner may take. *)
Definition poolable (key : ReuseKey) (owner : option DispatcherId) (e : ExecutionEnvironment) : Prop :=
  Slots.is_idle e = true ∧ env_reuse_key e = key ∧ env_owner e = owner.

(** The idle environments, in total and for one key. *)
Definition idle_total (s : State) : nat := count_values Slots.is_idle (st_environments s).
Definition idle_of_key (key : ReuseKey) (s : State) : nat :=
  count_values (λ e, Slots.is_idle e && (env_reuse_key e == key)) (st_environments s).

(** The environment after its attempt, and the pool it is released to. *)
Definition env_a_free : ExecutionEnvironment :=
  unwrap_or (st_environments s_done !! "env_a") env_a.
Definition pool_limits0 : PoolLimits := mkPoolLimits 1 2.
Definition s_pooled : State :=
  match Slots.release_to_pool env_a_free pool_limits0 60 s_done with
  | Ok (_, s) => s
  | Err _ => empty_state
  end.
Definition env_a_pooled : ExecutionEnvironment :=
  unwrap_or (st_environments s_pooled !! "env_a") env_a.
Definition env_a_reserved : ExecutionEnvironment :=
  match Env.reserve 70 env_a_pooled with Ok e => e | Err _ => env_a end.
Definition s_reserved : State :=
  s_pooled <| st_environments ::= <["env_a" := env_a_reserved]> |>.

(** ** Lemmas *)

Section Count.
Context {K A : Type} `{Countable K, !BTreeKey K}.
Implicit Types (m : gmap K A) (p : A → bool).

#[global] Instance bool_filter_Permutation p : Proper ((≡ₚ) ==> (≡ₚ)) (List.filter p).
Proof.
  intros l1 l2 Hl. induction Hl as [|x l1 l2 _ IH|x y l|l1 l2 l3 _ IH1 _ IH2]; cbn.
  - done.
  - by destruct (p x); rewrite IH.
  - destruct (p x), (p y); try done. apply Permutation_swap.
  - by etrans.
Qed.

Lemma count_values_size p m : count_values p m = size (filter (λ kv, p kv.2 = true) m).
Proof.
  unfold count_values, filter_values, btree_values, btree_entries.
  rewrite <-(length_map_to_list (filter _ m)), map_filter_alt.
  rewrite map_to_list_to_map.
  - rewrite (merge_sort_Permutation entry_le (map_to_list m)).
    generalize (map_to_list m). intros l. induction l as [|[k v] l IH]; [done|].
    rewrite filter_cons. cbn. destruct (p v); cbn; by rewrite IH.
  - eapply sublist_NoDup; [apply (NoDup_fst_map_to_list m)|apply fmap_sublist, sublist_filter].
Qed.

Lemma count_values_insert p m k x : (count_values p (<[k := x]> m) ≤ S (count_values p m))%nat.
Proof.
  rewrite !count_values_size.
  etrans; [apply (map_subseteq_size _ (<[k := x]> (filter (λ kv, p kv.2 = true) m)))|].
  - apply map_subseteq_spec. intros j y [[[<- <-]|[? ?]]%lookup_insert_Some Hp]%map_lookup_filter_Some.
    + apply lookup_insert_eq.
    + rewrite lookup_insert_ne by done. by apply map_lookup_filter_Some.
  - rewrite map_size_insert. case_match; [apply Nat.le_succ_diag_r|reflexivity].
Qed.
End Count.

Lemma pooled_row_Some e now e' :
  Slots.pooled_row e now = Some e' →
  Slots.is_idle e' = true ∧ env_id e' = env_id e ∧ env_epoch e' = env_epoch e ∧
  env_reuse_key e' = env_reuse_key e ∧ env_owner e' = env_owner e.
Proof.
  unfold Slots.pooled_row, Env.mark_busy, Env.mark_idle.
  destruct (EnvironmentState.is_ready _).
  - destruct (Env.transition _ now e) as [e1|] eqn:H1; [|done].
    destruct (Env.transition _ now e1) as [e2|] eqn:H2; intros [= <-].
    pose proof (transition_frame _ _ _ _ H1) as F1. pose proof (transition_frame _ _ _ _ H2) as F2.
    destruct_and! F1. destruct_and! F2. apply transition_Ok in H2 as (_ & _ & ->).
    split_and!; [done|congruence..].
  - destruct (Env.transition _ now e) as [e2|] eqn:H2; intros [= <-].
    pose proof (transition_frame _ _ _ _ H2) as F2. destruct_and! F2.
    apply transition_Ok in H2 as (_ & _ & ->). split_and!; [done|congruence..].
Qed.

(** A claim, case by case. *)
Lemma claim_Ok key o now s out s' :
  slot_inv s → Slots.claim_for_reuse key o now s = Ok (out, s') →
  match out with
  | Some e => ∃ old, st_environments s !! env_id e = Some old ∧ poolable key o old ∧
      env_fenced_at old = None ∧ Env.mark_ready now old = Ok e ∧
      s' = s <| st_environments ::= <[env_id e := e]> |>
  | None => s' = s ∧ ∀ k e, st_environments s !! k = Some e → poolable key o e →
      ∃ k1 e1, st_environments s !! k1 = Some e1 ∧ poolable key o e1 ∧ Env.is_fenced e1 = true
  end.
Proof.
  intros Hinv. unfold Slots.claim_for_reuse. set (P := λ e, _).
  assert (∀ e, P e = true ↔ poolable key o e) as HP.
  { intros e. unfold P, poolable. rewrite !andb_true_iff, !bool_decide_eq_true. tauto. }
  destruct (btree_find P _) as [[id old]|] eqn:Hf.
  - apply btree_find_Some in Hf as [Hid Hp%HP].
    destruct (Env.reserve now old) as [e|] eqn:Hr; intros [= <- <-].
    + apply reserve_Ok in Hr as (Hi & Hn & Hr). pose proof (transition_frame _ _ _ _ Hr) as F.
      destruct_and! F. assert (id = env_id e) as ->.
      { rewrite <-(si_env_key _ Hinv _ _ Hid). congruence. }
      exists old. by split_and!.
    + split; [done|]. intros k e1 Hk Hpe. exists id, old. split_and!; [done..|].
      destruct Hp as [Hi _]. unfold Slots.is_idle in Hi. unfold Env.is_fenced.
      destruct (env_fenced_at old) as [t|] eqn:Hfen; [done|]. unfold Env.reserve in Hr.
      rewrite Hfen, Hi in Hr. cbn in Hr. unfold Env.mark_ready, Env.transition in Hr.
      by destruct (env_state old).
  - intros [= <- <-]. split; [done|]. intros k e Hk Hpe.
    apply HP in Hpe. rewrite btree_find_None in Hf. by rewrite (Hf k e Hk) in Hpe.
Qed.

(** ** Properties *)

(** Reuse is by exact key and one taker. A claim answers an environment that
    was idle, unfenced, with exactly this reuse key (so of the same tenant,
    revision and configuration) and this owner, and leaves it ready; it is then
    no longer idle, so no later claim or retirement takes it as well. With no
    fenced idle row around, a claim answers nothing only when nothing matches. *)
Theorem claim_takes_exact_key display cfg s key o now out s' :
  store_reachable display cfg s → Slots.claim_for_reuse key o now s = Ok (out, s') →
  match out with
  | Some e => ∃ old, st_environments s !! env_id e = Some old ∧ poolable key o old ∧
      env_fenced_at old = None ∧ env_epoch e = env_epoch old ∧ env_identity old e ∧
      env_state e = EnvironmentState.Ready ∧ s' = s <| st_environments ::= <[env_id e := e]> |> ∧
      (∀ key' o' now' e' s2, Slots.claim_for_reuse key' o' now' s' = Ok (Some e', s2) →
         env_id e' ≠ env_id e) ∧
      (∀ now', Slots.take_idle_for_termination (env_id e) now' s' = Ok (false, s'))
  | None => s' = s ∧
      ((∀ k e, st_environments s !! k = Some e → Slots.is_idle e = true → Env.is_fenced e = false) →
       ∀ k e, st_environments s !! k = Some e → ¬ poolable key o e)
  end.
Proof.
  intros Hreach H. destruct (steps_good display cfg _ _ empty_slot_inv Hreach) as [Hinv _].
  assert (slot_inv s') as Hinv'.
  { eapply gs_inv, (run_cmd_good display cfg (CReuse key o now)); [exact Hinv|].
    cbn. unfold after. by rewrite H. }
  apply claim_Ok in H; [|done]. destruct out as [e|].
  - destruct H as (old & Hold & Hp & Hn & Hr & ->). exists old.
    pose proof (transition_frame _ _ _ _ Hr) as F. destruct_and! F.
    apply transition_Ok in Hr as (_ & _ & He).
    assert (env_state e = EnvironmentState.Ready) as Hst by by rewrite He.
    split_and!; [done..|split; congruence|done|done| |].
    + intros key' o' now' e' s2 Hc Heq. apply claim_Ok in Hc; [|done].
      destruct Hc as (old' & Hold' & [Hi _] & _). rewrite Heq in Hold'. cbn in Hold'.
      rewrite lookup_insert_eq in Hold'. injection Hold' as <-.
      unfold Slots.is_idle in Hi. by rewrite Hst in Hi.
    + intros now'. unfold Slots.take_idle_for_termination. cbn. rewrite lookup_insert_eq.
      unfold Slots.is_idle. by rewrite Hst.
  - destruct H as [-> H]. split; [done|]. intros Hf k e Hk Hp.
    destruct (H k e Hk Hp) as (k1 & e1 & H1 & [Hi1 _] & Hf1). by rewrite (Hf k1 e1 H1 Hi1) in Hf1.
Qed.

(** The pool stays within its limits. An environment enters the pool only if
    its stored row is at the same epoch, busy or freshly pre-started, not fenced
    and under no unreleased lease; afterwards it is idle under the same identity,
    and the pool holds at most [max_total_idle] environments, at most
    [max_idle_per_key] of them with this reuse key. *)
Theorem pool_stays_within_limits s env limits now e s' :
  Slots.release_to_pool env limits now s = Ok (Some e, s') →
  (∃ cur, st_environments s !! env_id env = Some cur ∧ env_epoch cur = env_epoch env ∧
     (env_state cur = EnvironmentState.Busy ∨ Slots.prestarted cur = true) ∧
     env_fenced_at cur = None ∧ ¬ held s (env_id env) ∧ env_row_le cur e ∧ env_epoch e = env_epoch cur) ∧
  st_environments s' !! env_id env = Some e ∧ Slots.is_idle e = true ∧
  (idle_total s' ≤ max_total_idle limits)%nat ∧
  (idle_of_key (env_reuse_key env) s' ≤ max_idle_per_key limits)%nat.
Proof.
  unfold Slots.release_to_pool. intros H.
  destruct (st_environments s !! env_id env) as [cur|] eqn:Hcur; [|done].
  destruct (_ || _ || _ || _) eqn:Hc; [done|]. destruct (_ || _) eqn:Hlim in H; [done|].
  destruct (Slots.pooled_row env now) as [p|] eqn:Hp; [|done]. steps.
  apply pooled_row_Some in Hp as (Hidle & Hid & Hep & _ & _).
  pose proof (env_update_row_le _ _ _ Hm) as Hle.
  apply orb_false_iff in Hc as [Hc Hfree]. apply orb_false_iff in Hc as [Hc Hfen].
  apply orb_false_iff in Hc as [Hepc Hst]. apply orb_false_iff in Hlim as [Ht Hk].
  apply negb_false_iff in Hepc, Hst. apply Z.eqb_eq in Hepc. apply orb_true_iff in Hst.
  apply Nat.leb_gt in Ht, Hk. apply has_unreleased_lease_free in Hfree. split_and!.
  - exists cur. split_and!; try done; [| |lia].
    + destruct Hst as [Hb|?]; [left|by right]. by destruct (env_state cur).
    + unfold Env.is_fenced in Hfen. by destruct (env_fenced_at cur).
  - cbn. rewrite Hid. apply lookup_insert_eq.
  - done.
  - unfold idle_total. cbn. etrans; [apply count_values_insert|]. unfold idle_total. lia.
  - unfold idle_of_key. cbn. etrans; [apply count_values_insert|]. lia.
Qed.

(** ** Witnesses *)

Lemma s_pooled_reachable : store_reachable display0 cfg0 s_pooled.
Proof.
  apply (run0_reachable (setup ++ [CAcquire acquire_a; CComplete complete_a;
           CPool env_a_free pool_limits0 60])). vm_compute. reflexivity.
Qed.

Lemma claim_takes_exact_key_witness :
  Slots.take_idle_for_termination "env_a" 80 s_reserved = Ok (false, s_reserved).
Proof.
  destruct (claim_takes_exact_key display0 cfg0 s_pooled (env_reuse_key env_a) (Some "dsp_a") 70
              (Some env_a_reserved) s_reserved s_pooled_reachable) as (old & H).
  - vm_compute. reflexivity.
  - destruct H as (_ & _ & _ & _ & _ & _ & _ & _ & H). exact (H 80).
Defined.

Lemma pool_stays_within_limits_witness : (idle_total s_pooled ≤ 2)%nat.
Proof.
  apply (pool_stays_within_limits s_done env_a_free pool_limits0 60 env_a_pooled s_pooled).
  vm_compute. reflexivity.
Defined.


