(* ===== verification/Bindings.v ===== *)
(** * Idempotency keys

    A request with an idempotency key is accepted once: the binding from the key
    to its invocation survives everything until the invocation ended and its
    retention passed. *)

From S2P Require Import Prelude Ids Environment Invocation Functions Revision Guard Slot Store.
From S2P Require Import SlotStore StoreInv Scenario.

Open Scope string_scope.
Open Scope Z_scope.

(** ** Definitions *)

(** Until when the key of an invocation stays bound, [None] without a limit. *)
Definition bound_until (cfg : StoreConfig) (i : Invocation) : option Timestamp :=
  if InvocationStatus.is_terminal (inv_status i)
  then (λ r, unwrap_or (inv_finished_at i) (inv_accepted_at i) + r) <$> cfg_idempotency_retention cfg
  else None.

(** Every binding names a stored invocation that carries its key and its input,
    and does not expire before that invocation allows it. *)
Record bindings_ok (cfg : StoreConfig) (s : State) : Prop := {
  bo_key : keyed inv_id (st_invocations s);
  bo_bound : ∀ k b, st_idempotency s !! k = Some b →
    ∃ i, st_invocations s !! bind_invocation_id b = Some i ∧
      IdempotencyRepo.key_of i = Some k ∧ bind_input_digest b = inv_input_digest i ∧
      (bind_expires_at b = None ∨ bind_expires_at b = bound_until cfg i)
}.

(** A binding without a limit is kept while its invocation sets none. *)
Definition bindings_kept (cfg : StoreConfig) (s s' : State) : Prop :=
  ∀ k b i, st_idempotency s !! k = Some b → bind_expires_at b = None →
    st_invocations s' !! bind_invocation_id b = Some i → bound_until cfg i = None →
    st_idempotency s' !! k = Some b.

Record binding_step (cfg : StoreConfig) (s s' : State) : Prop := {
  bs_ok : bindings_ok cfg s';
  bs_rows : rows_le inv_row_le (st_invocations s) (st_invocations s');
  bs_kept : bindings_kept cfg s s'
}.

(** A retry of [inv_a] under another id, while it runs. *)
Definition inv_a_again : Invocation := inv_a <| inv_id := "inv_b" |>.
Definition setup_a : list store_cmd :=
  [CRegister dsp_a; CRegister dsp_b; CInsertEnvironment env_a].
Definition s_fresh : State := state_of (run0 setup_a).
Definition s_bound : State :=
  match IdempotencyRepo.insert_bound cfg0 inv_a s_fresh with Ok (_, s) => s | Err _ => empty_state end.
Definition s_bound_held : State :=
  state_of (run_cmds display0 cfg0 [CAcquire acquire_a; CPurgeIdempotency 1000000] s_bound).

(** ** Lemmas *)

Lemma bound_until_le cfg i i' : inv_row_le i i' → bound_until cfg i' = None → bound_until cfg i = None.
Proof.
  intros [_ Hf] H. unfold bound_until in *. destruct (InvocationStatus.is_terminal (inv_status i)) eqn:E; [|done].
  specialize (Hf eq_refl). subst. by rewrite E in H.
Qed.

Lemma key_of_le i i' : inv_row_le i i' → IdempotencyRepo.key_of i' = IdempotencyRepo.key_of i.
Proof.
  intros [Hid _]. injection Hid as E1 E2 E3 E4 E5 E6 E7. unfold IdempotencyRepo.key_of.
  by rewrite E2, E3, E6.
Qed.

Lemma binding_step_refl cfg s : bindings_ok cfg s → binding_step cfg s s.
Proof. intros Hok. split; [done|reflexivity|]. by intros k b i Hk. Qed.

Lemma binding_step_trans cfg s1 s2 s3 :
  bindings_ok cfg s1 → binding_step cfg s1 s2 → binding_step cfg s2 s3 → binding_step cfg s1 s3.
Proof.
  intros Hok1 [Hok2 R12 K12] [Hok3 R23 K23]. split; [done|by etrans|].
  intros k b i Hk Hn Hi Hb. apply (K23 k b i); [|done..].
  destruct (bo_bound _ _ Hok1 k b Hk) as (i1 & Hi1 & _).
  destruct (R12 _ _ Hi1) as (i2 & Hi2 & _). destruct (R23 _ _ Hi2) as (i3 & Hi3 & Hle3).
  apply (K12 k b i2); [done..|]. simplify_eq. by eapply bound_until_le.
Qed.

(** A step that writes no binding. *)
Lemma binding_step_frame cfg s s' :
  bindings_ok cfg s → keyed inv_id (st_invocations s') →
  rows_le inv_row_le (st_invocations s) (st_invocations s') →
  st_idempotency s' = st_idempotency s → binding_step cfg s s'.
Proof.
  intros [_ Hok] Hkey Hrows Heq. split; [split; [done|]|done|].
  - intros k b Hk. rewrite Heq in Hk. destruct (Hok k b Hk) as (i & Hi & Hki & Hd & He).
    destruct (Hrows _ _ Hi) as (i' & Hi' & Hle).
    exists i'. split_and!; [done| | |].
    + rewrite <-Hki. by apply key_of_le.
    + destruct Hle as [Hid _]. congruence.
    + destruct He as [He|He]; [by left|]. unfold bound_until in He |- *.
      destruct (InvocationStatus.is_terminal (inv_status i)) eqn:Ht; [|by left].
      destruct Hle as [_ Hf]. specialize (Hf Ht). subst. rewrite Ht. by right.
  - intros k b i Hk _ _ _. by rewrite Heq.
Qed.

(** The row of the invocation is stored before its expiry is set. *)
Lemma binding_step_expiry cfg s i :
  bindings_ok cfg s → st_invocations s !! inv_id i = Some i →
  binding_step cfg s (set_binding_expiry i (cfg_idempotency_retention cfg) s).
Proof.
  intros Hok Hi. unfold set_binding_expiry.
  destruct (is_none _ || _) eqn:Hc; [by apply binding_step_refl|]. destruct Hok as [Hkey Hok].
  bools. match goal with H : InvocationStatus.is_terminal _ = true |- _ => rename H into Ht end.
  set (exp := _ <$> _) in *. assert (bound_until cfg i = exp) as Hexp by (unfold bound_until; by rewrite Ht).
  split; [split; [done|]|done|].
  - intros k b. cbn. rewrite lookup_fmap, fmap_Some. intros (b0 & Hb0 & ->).
    destruct (Hok k b0 Hb0) as (i0 & Hi0 & Hk0 & Hd0 & He0). exists i0.
    case_bool_decide as Hid; cbn; [|done]. split_and!; try done. right.
    rewrite Hid, Hi in Hi0. by simplify_eq.
  - intros k b i' Hk Hn Hi' Hb. cbn in *. rewrite lookup_fmap, Hk. cbn. f_equal.
    case_bool_decide as Hid; [|done]. rewrite Hid, Hi in Hi'. simplify_eq.
    destruct b as [bi bd be]; cbn in *. f_equal. congruence.
Qed.

(** An invocation is written, then the expiry of its binding. *)
Lemma binding_step_write cfg s s1 i :
  bindings_ok cfg s → st_invocations s1 = <[inv_id i := i]> (st_invocations s) →
  st_idempotency s1 = st_idempotency s →
  rows_le inv_row_le (st_invocations s) (st_invocations s1) →
  binding_step cfg s (set_binding_expiry i (cfg_idempotency_retention cfg) s1).
Proof.
  intros Hok Hi Heq Hrows. assert (binding_step cfg s s1) as H1.
  { apply binding_step_frame; [done| |done|done]. rewrite Hi. apply keyed_insert; [apply Hok|done]. }
  eapply binding_step_trans; [done|exact H1|]. apply binding_step_expiry; [apply H1|].
  rewrite Hi. apply lookup_insert_eq.
Qed.

Lemma binding_step_insert_bound cfg i s out s' :
  bindings_ok cfg s → IdempotencyRepo.insert_bound cfg i s = Ok (out, s') → binding_step cfg s s'.
Proof.
  intros Hok H. unfold IdempotencyRepo.insert_bound in H.
  destruct (mbind _ _) as [b|] eqn:Hl; [injection H as <- <-; by apply binding_step_refl|].
  apply result_bind_Ok in H as (s1 & H1 & H). injection H as <- <-.
  unfold insert_invocation in H1. pass H1. steps. bools.
  assert (rows_le inv_row_le (st_invocations s) (<[inv_id i := i]> (st_invocations s))) as Hrows
    by eauto with tsls typeclass_instances.
  set (s1 := s <| st_invocations ::= <[inv_id i := i]> |>).
  assert (binding_step cfg s s1) as Hs1.
  { apply binding_step_frame; [done| |done|done]. apply keyed_insert; [apply Hok|done]. }
  destruct (IdempotencyRepo.key_of i) as [k|] eqn:Hk; [|exact Hs1]. cbn in Hl.
  eapply binding_step_trans; [done|exact Hs1|].
  set (s2 := s1 <| st_idempotency ::= <[k := mkBinding (inv_id i) (inv_input_digest i) None]> |>).
  assert (binding_step cfg s1 s2) as Hs2.
  { split; [split; [apply Hs1|]|reflexivity|].
    - intros k' b. cbn. intros [[<- <-]|[Hne Hb]]%lookup_insert_Some.
      + exists i. rewrite lookup_insert_eq. split_and!; auto.
      + apply (bo_bound _ _ (bs_ok _ _ _ Hs1) k' b Hb).
    - intros k' b j Hb Hn Hj Hu. cbn in Hb |- *. destruct (decide (k' = k)) as [->|Hne];
        [|by rewrite lookup_insert_ne].
      exfalso. unfold live_binding in Hl. rewrite Hb in Hl. cbn in Hl. rewrite Hn in Hl.
      destruct (bo_bound _ _ Hok k b Hb) as (i0 & Hi0 & _). rewrite Hi0 in Hl. done. }
  eapply binding_step_trans; [apply Hs1|exact Hs2|]. apply binding_step_expiry; [apply Hs2|].
  apply lookup_insert_eq.
Qed.

Lemma binding_step_purge cfg now s out s' :
  bindings_ok cfg s → IdempotencyRepo.purge_expired_idempotency now s = Ok (out, s') →
  binding_step cfg s s'.
Proof.
  intros [Hkey Hok] [= _ <-]. split; [split; [done|]|reflexivity|].
  - intros k b [Hb _]%map_lookup_filter_Some. by apply Hok.
  - intros k b i Hb Hn _ _. apply map_lookup_filter_Some. split; [done|]. cbn. by rewrite Hn.
Qed.

Lemma binding_step_settle cfg id c now sr :
  bindings_ok cfg sr.1 →
  binding_step cfg sr.1 (settle_invocation_rows id c (cfg_idempotency_retention cfg) now sr).1.
Proof.
  destruct sr as [s r]. cbn [fst]. intros Hok.
  pose proof (settle_invocation_rows_le id c (cfg_idempotency_retention cfg) now s r (bo_key _ _ Hok)) as Hle.
  unfold settle_invocation_rows in *. destruct (st_invocations s !! id) as [i|] eqn:Hi; [|by apply binding_step_refl].
  destruct (survives_dispatcher i).
  - apply binding_step_frame; [done|apply Hok|apply Hle|done].
  - destruct (settle_invocation_with i c now) as [i' b] eqn:Hs.
    pose proof (settle_inv_row_le _ _ _ _ _ Hs) as Hrow. destruct b; cbn [fst settle_attempts] in *.
    + assert (inv_id i' = id) as Hid.
      { rewrite <-(bo_key _ _ Hok _ _ Hi). destruct Hrow as [Hid _]. congruence. }
      set (s1 := s <| st_invocations ::= _ |>) in *.
      assert (binding_step cfg s (set_binding_expiry i' (cfg_idempotency_retention cfg) s1)) as H1.
      { apply binding_step_write; [done..|]. cbn. rewrite Hid. eauto with tsls typeclass_instances. }
      eapply binding_step_trans; [done|exact H1|].
      apply binding_step_frame; [apply H1|apply H1|reflexivity|done].
    + apply binding_step_frame; [done|apply Hok|apply Hle|done].
Qed.

Lemma binding_step_fold {A} cfg (f : State * ReclaimReport → A → State * ReclaimReport) (l : list A) sr :
  bindings_ok cfg sr.1 → (∀ sr a, bindings_ok cfg sr.1 → binding_step cfg sr.1 (f sr a).1) →
  binding_step cfg sr.1 (foldl f sr l).1.
Proof.
  intros Hok Hf. apply (foldl_inv (λ sr', binding_step cfg sr.1 sr'.1)); [by apply binding_step_refl|].
  intros sr1 a _ H. eapply binding_step_trans; [done|exact H|]. apply Hf, H.
Qed.

(** A step that leaves the invocations and the bindings as they were. *)
Lemma binding_step_same cfg s s' :
  bindings_ok cfg s → st_invocations s' = st_invocations s → st_idempotency s' = st_idempotency s →
  binding_step cfg s s'.
Proof. intros Hok Hi Hb. apply binding_step_frame; rewrite ?Hi; [done|apply Hok|reflexivity|done]. Qed.

Lemma binding_step_fence cfg id now sr :
  bindings_ok cfg sr.1 → binding_step cfg sr.1 (fence_env id now sr).1.
Proof.
  destruct sr as [s r]. intros Hok. apply binding_step_same; [done|apply fence_env_frame|].
  unfold fence_env. destruct (st_environments s !! id); [|done]. destruct (_ && _); [|done].
  by destruct (Env.fence now _) as [[? ?]|].
Qed.

Lemma binding_step_reclaim_lease cfg now sr lc :
  bindings_ok cfg sr.1 →
  binding_step cfg sr.1 (Slots.reclaim_lease (cfg_idempotency_retention cfg) now sr lc).1.
Proof.
  destruct sr as [s r], lc as [l c]. cbn [fst]. intros Hok. unfold Slots.reclaim_lease.
  destruct (Lse.release now l) as [l'|]; [|by apply binding_step_refl].
  set (s1 := s <| st_leases ::= _ |>).
  assert (binding_step cfg s s1) as H1 by by apply binding_step_same.
  match goal with |- context [let '(s, report) := ?X in _] =>
    assert (binding_step cfg s X.1) as H2; [|destruct X as [s2 r2]] end.
  { destruct (st_attempts s1 !! _) as [att|]; [|done].
    destruct (settle_attempt_with att true c now) as [att' b].
    destruct (is_some_and _ _); [|by apply binding_step_same].
    match goal with |- context [settle_invocation_rows ?i ?c ?r ?n ?sr] =>
      assert (binding_step cfg s sr.1) as H2 by (by apply binding_step_same);
      eapply binding_step_trans; [done|exact H2|];
      apply (binding_step_settle cfg i c n sr), H2 end. }
  cbn [fst] in H2. destruct (is_some_and _ _); [|done].
  eapply binding_step_trans; [done|exact H2|]. apply (binding_step_fence cfg _ _ (s2, r2)), H2.
Qed.

Lemma binding_step_reclaim_owner cfg now sr oc :
  bindings_ok cfg sr.1 →
  binding_step cfg sr.1 (Slots.reclaim_owner (cfg_idempotency_retention cfg) now sr oc).1.
Proof.
  destruct oc as [o c]. intros Hok. unfold Slots.reclaim_owner.
  match goal with |- context [foldl (λ sr id, settle_invocation_rows id ?c ?r ?n sr) sr ?L] =>
    pose proof (binding_step_fold cfg (λ sr id, settle_invocation_rows id c r n sr) L sr Hok
      (λ sr id H, binding_step_settle cfg id c n sr H)) as H1 end.
  eapply binding_step_trans; [done|exact H1|].
  apply binding_step_fold; [apply H1|]. intros sr' id. apply binding_step_fence.
Qed.

Lemma binding_step_reclaim cfg r s rep s' :
  bindings_ok cfg s → Slots.reclaim_expired cfg r s = Ok (rep, s') → binding_step cfg s s'.
Proof.
  intros Hok H. unfold Slots.reclaim_expired in H.
  destruct (negb _); [injection H as _ <-; by apply binding_step_refl|].
  set (s1 := s <| st_dispatchers ::= _ |>) in *.
  assert (binding_step cfg s s1) as H1 by by apply binding_step_same.
  match type of H with context [foldl (Slots.reclaim_lease ?ret ?now) (s1, ?rep0) ?L] =>
    pose proof (binding_step_fold cfg (Slots.reclaim_lease ret now) L (s1, rep0) (bs_ok _ _ _ H1)
      (binding_step_reclaim_lease cfg now)) as H2 end.
  destruct (foldl (Slots.reclaim_lease _ _) _ _) as [s2 r2]. cbn [fst] in H2.
  match type of H with context [foldl (Slots.reclaim_owner ?ret ?now) (s2, r2) ?L] =>
    pose proof (binding_step_fold cfg (Slots.reclaim_owner ret now) L (s2, r2) (bs_ok _ _ _ H2)
      (binding_step_reclaim_owner cfg now)) as H3 end.
  destruct (foldl (Slots.reclaim_owner _ _) _ _) as [s3 r3]. cbn [fst] in H3. injection H as _ <-.
  eapply binding_step_trans; [done|exact H1|]. eapply binding_step_trans; [apply H1|exact H2|done].
Qed.

Lemma binding_step_complete cfg c s s' l w iw :
  bindings_ok cfg s → completed cfg c s s' l w iw → binding_step cfg s s'.
Proof.
  intros Hok [_ _ _ _ _ _ Hci ->]. apply complete_invocation_Ok in Hci.
  unfold Slots.write_completed. set (s1 := if w == Apply then _ else _).
  assert (st_invocations s1 = st_invocations s ∧ st_idempotency s1 = st_idempotency s) as [HI HB]
    by (unfold s1; by destruct (w == Apply)).
  destruct iw as [[i []]|]; [|by apply binding_step_same..].
  destruct Hci as (_ & old & Hold & _ & Hu).
  apply binding_step_write; [done|cbn; by rewrite HI|done|]. cbn. rewrite HI.
  eauto with tsls typeclass_instances.
Qed.

Lemma run_cmd_bindings display cfg c s s' :
  slot_inv s → bindings_ok cfg s → run_cmd display cfg c s = Ok s' → binding_step cfg s s'.
Proof.
  intros Hinv Hok H. destruct (run_cmd_good _ _ _ _ _ Hinv H) as [Hinv' Hle].
  destruct (writes_bindings c) eqn:Hw.
  - destruct c; try discriminate Hw; cbn [run_cmd] in H; unfold after in H;
      apply result_fmap_Ok in H as ([out s1] & H & <-); cbn [snd] in *.
    + unfold InvocationRepo.update in H. destruct (st_invocations s !! _) as [old|] eqn:Ho; [|done].
      steps. case_bool_decide; [|by apply binding_step_refl].
      apply binding_step_write; [done..|]. cbn. eauto with tsls typeclass_instances.
    + by eapply binding_step_insert_bound.
    + by eapply binding_step_purge.
    + apply complete_Ok in H as [(_ & ->)|(_ & l & w & iw & H)]; [by apply binding_step_refl|].
      by eapply binding_step_complete.
    + by eapply binding_step_reclaim.
  - destruct (run_cmd_frame _ _ _ _ _ H) as [Hb _ _ _].
    apply binding_step_frame; [done|apply Hinv'|apply Hle|by apply Hb].
Qed.

Lemma empty_bindings cfg : bindings_ok cfg empty_state.
Proof. split; [apply keyed_empty|]. intros k b H. cbn in H. by rewrite lookup_empty in H. Qed.

Lemma steps_bindings display cfg s s' :
  slot_inv s → bindings_ok cfg s → rtc (store_step display cfg) s s' →
  slot_inv s' ∧ binding_step cfg s s'.
Proof.
  intros Hinv Hok Hrun. revert Hinv Hok.
  induction Hrun as [s|s1 s2 s3 [c H] _ IH]; intros Hinv Hok; [split; [done|by apply binding_step_refl]|].
  pose proof (run_cmd_bindings _ _ _ _ _ Hinv Hok H) as H12.
  destruct (IH (gs_inv _ _ (run_cmd_good _ _ _ _ _ Hinv H)) (bs_ok _ _ _ H12)) as [? H23].
  split; [done|]. by eapply binding_step_trans.
Qed.

(** A bound key answers the invocation it is bound to. *)
Lemma bound_existing cfg s k b i' :
  bindings_ok cfg s → st_idempotency s !! k = Some b → bind_expires_at b = None →
  IdempotencyRepo.key_of i' = Some k →
  IdempotencyRepo.insert_bound cfg i' s = Ok (Existing b, s).
Proof.
  intros [_ Hok] Hb Hn Hk. unfold IdempotencyRepo.insert_bound. rewrite Hk. cbn.
  unfold live_binding. rewrite Hb. cbn. destruct (Hok k b Hb) as (i & Hi & _). by rewrite Hi, Hn.
Qed.

(** ** Properties *)

(** In every reachable state an idempotency key is bound to a stored
    invocation of the same tenant, function and key, with the digest of the input
    that invocation was accepted with; the binding has no expiry, or exactly the
    end of that invocation plus the retention. *)
Theorem bindings_name_their_invocation display cfg s :
  store_reachable display cfg s → bindings_ok cfg s.
Proof.
  intros H. by destruct (steps_bindings display cfg _ _ empty_slot_inv (empty_bindings cfg) H) as [_ []].
Qed.

(** An idempotency key is accepted once. After an invocation was inserted
    under its key, whatever runs and however often expired keys are purged, as
    long as its row has not ended (or no retention is configured) every further
    request with that key is answered with this invocation and the digest of its
    input, and stores nothing. *)
Theorem key_accepted_once display cfg s i k s1 s2 i2 :
  store_reachable display cfg s → IdempotencyRepo.key_of i = Some k →
  IdempotencyRepo.insert_bound cfg i s = Ok (Inserted, s1) →
  rtc (store_step display cfg) s1 s2 →
  st_invocations s2 !! inv_id i = Some i2 → bound_until cfg i2 = None →
  ∀ i', IdempotencyRepo.key_of i' = Some k →
    IdempotencyRepo.insert_bound cfg i' s2
      = Ok (Existing (mkBinding (inv_id i) (inv_input_digest i) None), s2).
Proof.
  intros Hreach Hk H H12 Hi2 Hu i' Hk'. set (b := mkBinding _ _ None).
  destruct (steps_bindings display cfg _ _ empty_slot_inv (empty_bindings cfg) Hreach) as [Hinv [Hok _ _]].
  assert (run_cmd display cfg (CInsertBound i) s = Ok s1) as Hc by (cbn; unfold after; by rewrite H).
  pose proof (run_cmd_bindings _ _ _ _ _ Hinv Hok Hc) as [Hok1 _ _].
  pose proof (run_cmd_good _ _ _ _ _ Hinv Hc) as [Hinv1 _].
  destruct (steps_bindings display cfg _ _ Hinv1 Hok1 H12) as [_ [Hok2 Hrows Hkept]].
  apply (bound_existing cfg s2 k b); try done. apply (Hkept k b i2); try done.
  unfold IdempotencyRepo.insert_bound in H. destruct (mbind _ _); [discriminate H|].
  apply result_bind_Ok in H as (s0 & H0 & H). rewrite Hk in H. injection H as <-.
  unfold insert_invocation in H0. pass H0. steps.
  assert (bound_until cfg i = None) as Hui.
  { destruct (Hrows (inv_id i) i) as (i3 & Hi3 & Hle).
    - match goal with |- context [set_binding_expiry ?i ?r ?x] =>
        destruct (set_binding_expiry_frame i r x) as (_ & _ & _ & _ & ->) end.
      apply lookup_insert_eq.
    - simplify_eq. by eapply bound_until_le. }
  unfold set_binding_expiry. destruct (_ || _) eqn:Hc2; [apply lookup_insert_eq|]. bools.
  cbn. rewrite lookup_fmap, lookup_insert_eq. cbn. f_equal. rewrite bool_decide_true by done.
  unfold bound_until in Hui.
  match goal with H : InvocationStatus.is_terminal _ = true |- _ => rewrite H in Hui end.
  by rewrite Hui.
Qed.

(** ** Witnesses *)

Lemma bindings_name_their_invocation_witness : bindings_ok cfg0 s_held.
Proof. apply (bindings_name_their_invocation display0), s_held_reachable. Defined.

Lemma key_accepted_once_witness :
  IdempotencyRepo.insert_bound cfg0 inv_a_again s_bound_held
    = Ok (Existing (mkBinding "inv_a" "sha256:0" None), s_bound_held).
Proof.
  apply (key_accepted_once display0 cfg0 s_fresh inv_a (("tn_a", "fn_a"), "k") s_bound s_bound_held
           inv_a_running).
  - apply (run0_reachable setup_a). vm_compute. reflexivity.
  - reflexivity.
  - vm_compute. reflexivity.
  - apply (run_cmds_steps _ _ [CAcquire acquire_a; CPurgeIdempotency 1000000]). vm_compute. reflexivity.
  - vm_compute. reflexivity.
  - reflexivity.
  - reflexivity.
Defined.
