(* ===== verification/Objects.v ===== *)
(** * Object references and their collection

    The pass of the object collector [crates/application/src/durable/gc.rs] over the references
    of the repository, and that an object of the durable store is collected only when nothing
    unfinished refers to it, and cannot be attached to anything once it is being collected. The
    object store itself is outside: what it lists, and whether it deletes, are arguments, as is
    what others do to the repository between the steps of a pass. *)

From S2P Require Import Prelude Ids Environment Invocation Functions Revision Guard Slot Store.
From S2P Require Import SlotStore StoreInv Scenario.

Open Scope string_scope.
Open Scope Z_scope.

(** ** Definitions *)

(** [crates/durable-port/src/object.rs:178-190 ObjectMeta] What the collector reads of it. *)
Record ObjectMeta := mkObjectMeta { mt_reference : ObjectRef; mt_expires_at : option Timestamp }.

(** [crates/durable-port/src/object.rs:225-232 ObjectListing] *)
Record ObjectListing := mkObjectListing { ls_objects : list ObjectMeta; ls_incomplete : list string }.

(** [crates/application/src/durable/gc.rs:25-37 GcReport] *)
Record GcReport := mkGcReport {
  gc_examined : nat;
  gc_collected_expired : nat;
  gc_collected_orphans : nat;
  gc_kept_in_use : nat;
  gc_kept_referenced : nat;
  gc_incomplete_removed : nat;
  gc_tombstones_purged : nat;
  gc_failed : nat
}.
#[global] Instance GcReport_eta : Eta GcReport := λ r,
  mkGcReport (gc_examined r) (gc_collected_expired r) (gc_collected_orphans r) (gc_kept_in_use r)
    (gc_kept_referenced r) (gc_incomplete_removed r) (gc_tombstones_purged r) (gc_failed r).
Definition empty_gc_report : GcReport := mkGcReport 0 0 0 0 0 0 0 0.

(** What happens outside around one candidate: what others did before its claim and between its
    claim and its deletion, and which of the calls fail. *)
Record GcTurn := mkGcTurn {
  gt_before : State → State;
  gt_claim_fails : bool;
  gt_between : State → State;
  gt_delete_fails : bool;
  gt_forget_fails : bool
}.

(** [crates/application/src/durable/gc.rs:87-91 run (reason)] *)
Definition gc_reason (now : Timestamp) (meta : ObjectMeta) : CollectReason :=
  if is_some_and (mt_expires_at meta) (λ t, t <=? now) then Expired else Orphan.

(** [crates/application/src/durable/gc.rs:118-121 run (collected)] *)
Definition gc_collected (reason : CollectReason) (r : GcReport) : GcReport :=
  match reason with
  | Expired => r <| gc_collected_expired ::= S |>
  | Orphan => r <| gc_collected_orphans ::= S |>
  end.

(** [crates/application/src/durable/gc.rs:86-123 run (object)] One candidate; with it, when the object
    store is asked to delete the object, the state of the repository at that moment. *)
Definition gc_object (t : GcTurn) (now : Timestamp) (meta : ObjectMeta) (r : GcReport) (s : State)
    : GcReport * option (ObjectRef * State) * State :=
  let r := r <| gc_examined ::= S |> in
  let object := mt_reference meta in
  let reason := gc_reason now meta in
  let s := gt_before t s in
  when! gt_claim_fails t return! (r <| gc_failed ::= S |>, None, s);;
  match ObjectRepo.claim_for_collection object reason now s with
  | Err _ => (r <| gc_failed ::= S |>, None, s)
  | Ok (CollectDecision.InUse _, s) => (r <| gc_kept_in_use ::= S |>, None, s)
  | Ok (CollectDecision.Referenced, s) => (r <| gc_kept_referenced ::= S |>, None, s)
  | Ok (CollectDecision.Collect, s) =>
      let s := gt_between t s in
      let deleted := Some (object, s) in
      when! gt_delete_fails t return! (r <| gc_failed ::= S |>, deleted, s);;
      when! gt_forget_fails t return! (r <| gc_failed ::= S |>, deleted, s);;
      match ObjectRepo.forget_object (obj_id object) s with
      | Ok (_, s) => (gc_collected reason r, deleted, s)
      | Err _ => (r <| gc_failed ::= S |>, deleted, s)
      end
  end.

(** [crates/application/src/durable/gc.rs:85-124 run (loop)] [turns] is what happens outside,
    candidate by candidate. *)
Fixpoint gc_objects (turns : nat → GcTurn) (i : nat) (now : Timestamp) (metas : list ObjectMeta) (r : GcReport)
    (s : State) : GcReport * list (ObjectRef * State) * State :=
  match metas with
  | [] => (r, [], s)
  | meta :: metas =>
      let '(r, deleted, s) := gc_object (turns i) now meta r s in
      let '(r, all, s) := gc_objects turns (S i) now metas r s in
      (r, option_list deleted ++ all, s)%list
  end.

(** [crates/application/src/durable/gc.rs:73-144 run] [listing] is what the object store lists,
    [purges] whether the repository purges, [removes] what removing the incomplete writes gave. *)
Definition gc_run (turns : nat → GcTurn) (now : Timestamp) (listing : option ObjectListing) (purges : bool)
    (removes : option nat) (s : State) : GcReport * list (ObjectRef * State) * State :=
  match listing with
  | None => (empty_gc_report <| gc_failed ::= S |>, [], s)
  | Some listing =>
      let '(r, deleted, s) := gc_objects turns 0 now (ls_objects listing) empty_gc_report s in
      let purged :=
        if purges then ObjectRepo.purge_tombstones (now - seconds (TOMBSTONE_RETENTION_DAYS * 86400)) s
        else refuse "the repository" in
      let '(r, s) :=
        match purged with
        | Ok (n, s) => (r <| gc_tombstones_purged := n |>, s)
        | Err _ => (r <| gc_failed ::= S |>, s)
        end in
      let r :=
        when! ls_incomplete listing == [] return! r;;
        match removes with
        | Some n => r <| gc_incomplete_removed := n |>
        | None => r <| gc_failed ::= S |>
        end in
      (r, deleted, s)
  end.

(** The row of a reference has ended. *)
Definition ref_ended (s : State) (id : InvocationId) : Prop :=
  ∃ i, st_invocations s !! id = Some i ∧ InvocationStatus.is_terminal (inv_status i) = true.

(** Whatever refers to an object under collection has ended. *)
Definition tombstones_safe (s : State) : Prop :=
  ∀ o, is_Some (st_object_tombstones s !! o) →
    ∀ id, id ∈ ObjectRepo.refs_of o s → ref_ended s id.

Definition object_a : ObjectRef := mkObject "obj_a" "tn_a" 1000.
Definition attach_a : store_cmd := CAttach object_a "inv_a" 70.
Definition s_attached : State := state_of (run0 (setup ++ [CAcquire acquire_a; attach_a])).
Definition s_ended : State :=
  state_of (run0 (setup ++ [CAcquire acquire_a; attach_a; CComplete complete_a])).
Definition s_collected : State :=
  state_of (run0 (setup ++ [CAcquire acquire_a; attach_a; CComplete complete_a;
                            CCollect object_a Expired 80])).

(** ** Lemmas *)

Lemma is_live_ref_false s id : ObjectRepo.is_live_ref s id = false ↔ ref_ended s id.
Proof.
  unfold ObjectRepo.is_live_ref, ref_ended. destruct (st_invocations s !! id) as [i|]; cbn.
  - rewrite negb_false_iff. split; [eauto|]. by intros (i' & [= <-] & ?).
  - split; [done|]. by intros (? & ? & _).
Qed.

Lemma ref_ended_le s s' id : state_le s s' → ref_ended s id → ref_ended s' id.
Proof.
  intros Hle (i & Hi & Ht). destruct (sl_invocations _ _ Hle _ _ Hi) as (i' & Hi' & [_ Hf]).
  exists i'. specialize (Hf Ht). by subst.
Qed.

Lemma live_refs_nil s l : List.filter (ObjectRepo.is_live_ref s) l = [] ↔ ∀ id, id ∈ l → ref_ended s id.
Proof.
  induction l as [|x l IH]; cbn; [split; [by intros _ id ?%not_elem_of_nil|done]|].
  destruct (ObjectRepo.is_live_ref s x) eqn:Hx.
  - split; [done|]. intros H. assert (ref_ended s x) as Hr%is_live_ref_false by (apply H; by left). congruence.
  - rewrite IH. apply is_live_ref_false in Hx. split.
    + intros H id [->|Hin]%elem_of_cons; auto.
    + intros H id Hin. apply H. by right.
Qed.

(** A claim, decision by decision. *)
Lemma claim_for_collection_spec object reason now s d s' :
  ObjectRepo.claim_for_collection object reason now s = Ok (d, s') →
  (st_object_tombstones s !! obj_id object ≠ None ∧ d = CollectDecision.Collect ∧ s' = s) ∨
  (st_object_tombstones s !! obj_id object = None ∧ s' = s ∧
   ∃ n, d = CollectDecision.InUse n ∧ (0 < n)%nat ∧
     ∃ id, id ∈ ObjectRepo.refs_of (obj_id object) s ∧ ¬ ref_ended s id) ∨
  (st_object_tombstones s !! obj_id object = None ∧
   (∀ id, id ∈ ObjectRepo.refs_of (obj_id object) s → ref_ended s id) ∧
   (reason = Orphan ∧ ObjectRepo.refs_of (obj_id object) s ≠ ∅ ∧
      d = CollectDecision.Referenced ∧ s' = s ∨
    (reason = Orphan → ObjectRepo.refs_of (obj_id object) s = ∅) ∧ d = CollectDecision.Collect ∧
      s' = s <| st_object_tombstones ::= <[obj_id object := (reason, now)]> |>)).
Proof.
  unfold ObjectRepo.claim_for_collection. cbn zeta.
  destruct (st_object_tombstones s !! obj_id object) as [t|]; cbn [is_some].
  { intros [= <- <-]. by left. }
  set (refs := ObjectRepo.refs_of (obj_id object) s).
  case_bool_decide as Hlive.
  { intros [= <- <-]. right. left. split_and!; [done..|]. eexists. split_and!; [done..|].
    destruct (List.filter _ _) as [|x l] eqn:Hf; [cbn in Hlive; lia|].
    exists x. assert (In x (List.filter (ObjectRepo.is_live_ref s) (elements refs))) as Hx
      by (rewrite Hf; by left).
    apply filter_In in Hx as [Hin Hx]. split; [by apply elem_of_elements, list_elem_of_In|].
    intros Hr%is_live_ref_false. congruence. }
  assert (∀ id, id ∈ refs → ref_ended s id) as Hall.
  { intros id Hid. apply (proj1 (live_refs_nil s (elements refs))); [|by apply elem_of_elements].
    destruct (List.filter _ _); [done|cbn in Hlive; lia]. }
  destruct ((reason == Orphan) && bool_decide (elements refs ≠ [])) eqn:Ho; intros [= <- <-]; bools.
  - right. right. split_and!; [done..|]. left. split_and!; [done| |done..].
    intros He. rewrite He in *. by rewrite elements_empty in *.
  - right. right. split_and!; [done..|]. right. split_and!; [|done..].
    intros ->. rewrite bool_decide_true in Ho by done. cbn in Ho. bools.
    apply leibniz_equiv, elements_empty_iff. destruct (decide (elements refs = [])); tauto.
Qed.

(** What a command does to references and tombstones. *)
Lemma object_effect display cfg c s s' :
  run_cmd display cfg c s = Ok s' →
  (st_object_refs s' = st_object_refs s ∧ st_object_tombstones s' = st_object_tombstones s) ∨
  (∃ o i now, c = CAttach o i now ∧ ObjectRepo.attach_object o i now s = Ok (tt, s') ∧
     st_object_tombstones s !! obj_id o = None ∧
     st_object_tombstones s' = st_object_tombstones s ∧
     st_object_refs s' = <[obj_id o := {[i]} ∪ ObjectRepo.refs_of (obj_id o) s]> (st_object_refs s)) ∨
  (∃ o r now, c = CCollect o r now ∧ st_object_tombstones s !! obj_id o = None ∧
     (∀ id, id ∈ ObjectRepo.refs_of (obj_id o) s → ref_ended s id) ∧
     st_object_tombstones s' = <[obj_id o := (r, now)]> (st_object_tombstones s) ∧
     st_object_refs s' = st_object_refs s) ∨
  (∃ o, c = CForget o ∧ st_object_tombstones s' = st_object_tombstones s ∧
     st_object_refs s' = base.delete o (st_object_refs s)) ∨
  (∃ before, c = CPurgeTombstones before ∧ st_object_refs s' = st_object_refs s ∧
     st_object_tombstones s' = filter (λ kt, before ≤ kt.2.2) (st_object_tombstones s)).
Proof.
  intros H. destruct (writes_objects c) eqn:Hw.
  2: { left. destruct (run_cmd_frame _ _ _ _ _ H) as [_ Ho _ _]. by apply Ho. }
  destruct c; try discriminate Hw; cbn [run_cmd] in H; unfold after in H;
    apply result_fmap_Ok in H as ([out s1] & H & <-); cbn [snd] in *.
  - right. left. exists o, i, now. destruct out. split; [done|]. split; [done|].
    unfold ObjectRepo.attach_object in H. steps.
    destruct (st_invocations s !! i); [|done]. pass Hk. destruct (st_object_tombstones s !! _) as [[? ?]|]; [done|].
    by steps.
  - apply claim_for_collection_spec in H as [(_ & _ & ->)|[(_ & -> & _)|(Hn & Hall & H)]]; [by left..|].
    destruct H as [(_ & _ & _ & ->)|(_ & _ & ->)]; [by left|]. right. right. left. by exists o, r, now.
  - right. right. right. left. exists o. unfold ObjectRepo.forget_object in H. by steps.
  - right. right. right. right. exists before. unfold ObjectRepo.purge_tombstones in H. by injection H as _ <-.
Qed.

Lemma run_cmd_tombstones display cfg c s s' :
  slot_inv s → tombstones_safe s → run_cmd display cfg c s = Ok s' → tombstones_safe s'.
Proof.
  intros Hinv Hsafe H. pose proof (gs_le _ _ (run_cmd_good _ _ _ _ _ Hinv H)) as Hle.
  intros o Ht id Hid. eapply ref_ended_le; [exact Hle|]. unfold ObjectRepo.refs_of in Hid.
  destruct (object_effect _ _ _ _ _ H) as [[E1 E2]|[(o' & i & now & _ & _ & Hn & E2 & E1)|[(o' & r & now & _ & _ & Hall & E2 & E1)|
    [(o' & _ & E2 & E1)|(b & _ & E1 & E2)]]]]; rewrite E1 in Hid; rewrite E2 in Ht.
  - by eapply Hsafe.
  - apply (Hsafe o Ht). rewrite lookup_insert_ne in Hid; [done|]. intros <-. rewrite Hn in Ht. by destruct Ht.
  - destruct (decide (o = obj_id o')) as [->|Hne]; [by apply Hall|].
    apply (Hsafe o); [by rewrite lookup_insert_ne in Ht|done].
  - apply (Hsafe o Ht). destruct (decide (o = o')) as [->|Hne]; [by rewrite lookup_delete_eq in Hid|].
    by rewrite lookup_delete_ne in Hid.
  - destruct Ht as [t Ht]. apply map_lookup_filter_Some in Ht as [Ht _]. apply (Hsafe o); eauto.
Qed.

Lemma reachable_tombstones display cfg s : store_reachable display cfg s → slot_inv s ∧ tombstones_safe s.
Proof.
  unfold store_reachable. intros H. revert H.
  assert (slot_inv empty_state ∧ tombstones_safe empty_state) as H0.
  { split; [apply empty_slot_inv|]. intros o [t Ht]. cbn in Ht. by rewrite lookup_empty in Ht. }
  intros H. revert H0. induction H as [s|s1 s2 s3 [c H] _ IH]; [done|]. intros [Hinv Hs]. apply IH.
  split; [by eapply gs_inv, run_cmd_good|by eapply run_cmd_tombstones].
Qed.

(** ** Clocks *)

Section clocks.
Context (display : DomainError → string) (cfg : StoreConfig).
(** The creation time of an object in milliseconds, which its id carries. *)
Context (created_of : string → Z).

Definition dated (o : ObjectRef) : Prop := obj_created_at_ms o = created_of (obj_id o).

(** A command at clock [T]: an attach reads the clock, a purge keeps what the retention says, and an
    object is collected at the earliest in the millisecond after the one it was created in. *)
Definition at_clock (T : Timestamp) (c : store_cmd) : Prop :=
  match c with
  | CAttach o _ now => now = T ∧ dated o
  | CPurgeTombstones before => before ≤ T - seconds (TOMBSTONE_RETENTION_DAYS * 86400)
  | CCollect o _ now => milliseconds (created_of (obj_id o) + 1) ≤ now
  | _ => True
  end.

(** A command of anyone, or nothing, at a clock that does not go back. *)
Definition clocked_step (p q : Timestamp * State) : Prop :=
  p.1 ≤ q.1 ∧ (q.2 = p.2 ∨ ∃ c, at_clock q.1 c ∧ run_cmd display cfg c p.2 = Ok q.2).

(** Collections are later than creations. *)
Definition collected_later (s : State) : Prop :=
  ∀ id r t, st_object_tombstones s !! id = Some (r, t) → milliseconds (created_of id + 1) ≤ t.

(** Nothing unfinished refers to the object, and nothing can be made to: it is under collection,
    or too old to be attached from [T] on. *)
Record out_of_use (id : string) (T : Timestamp) (s : State) : Prop := mkOutOfUse {
  ou_inv : slot_inv s;
  ou_later : collected_later s;
  ou_refs : ∀ inv, inv ∈ ObjectRepo.refs_of id s → ref_ended s inv;
  ou_buried : st_object_tombstones s !! id ≠ None ∨
    milliseconds (created_of id + 1) ≤ T - seconds (TOMBSTONE_RETENTION_DAYS * 86400)
}.

Lemma out_of_use_unattachable o T T' inv s :
  out_of_use (obj_id o) T s → dated o → T ≤ T' → is_err (ObjectRepo.attach_object o inv T' s) = true.
Proof.
  intros [_ _ _ Hb] Hd HT. unfold ObjectRepo.attach_object.
  destruct (check_attachable o T') as [[]|] eqn:Hc; [|done]. cbn.
  destruct (st_invocations s !! inv); [|done]. destruct (_ != _); [done|].
  destruct (st_object_tombstones s !! obj_id o) as [[r t]|]; [done|]. destruct Hb as [?|Hold]; [done|]. exfalso.
  unfold check_attachable in Hc. pass Hc. bools. unfold milliseconds in *. rewrite Hd in *. apply Z.le_ngt in Heqb.
  apply Heqb, Z.lt_le_trans with (created_of (obj_id o) + 1); [lia|]. apply Z.div_le_lower_bound; lia.
Qed.

Lemma collected_later_step T s s' c :
  at_clock T c → run_cmd display cfg c s = Ok s' → collected_later s → collected_later s'.
Proof.
  intros Hp H Hl id r t Ht.
  destruct (object_effect _ _ _ _ _ H) as [[_ E]|[(? & ? & ? & _ & _ & _ & E & _)|[(o & r' & now & -> & _ & _ & E & _)|
    [(? & _ & E & _)|(b & _ & _ & E)]]]]; rewrite E in Ht; [by eapply Hl..| |by eapply Hl|].
  - apply lookup_insert_Some in Ht as [[<- [= <- <-]]|[_ ?]]; [exact Hp|by eapply Hl].
  - apply map_lookup_filter_Some in Ht as [Ht _]. by eapply Hl.
Qed.

(** No reference to it is added. *)
Lemma out_of_use_refs id T T' c s s' :
  out_of_use id T s → T ≤ T' → at_clock T' c → run_cmd display cfg c s = Ok s' →
  ObjectRepo.refs_of id s' ⊆ ObjectRepo.refs_of id s.
Proof.
  intros Hu HT Hp H. unfold ObjectRepo.refs_of.
  destruct (object_effect _ _ _ _ _ H) as [[E _]|[(o & i & now & -> & Ha & _ & _ & E)|[(? & ? & ? & _ & _ & _ & _ & E)|
    [(o & _ & _ & E)|(? & _ & E & _)]]]]; rewrite E; try done.
  - destruct Hp as [-> Hd]. destruct (decide (obj_id o = id)) as [<-|Hne]; [|by rewrite lookup_insert_ne].
    pose proof (out_of_use_unattachable o T T' i s Hu Hd HT) as He. by rewrite Ha in He.
  - destruct (decide (o = id)) as [->|Hne]; [rewrite lookup_delete_eq; cbn; set_solver|by rewrite lookup_delete_ne].
Qed.

Lemma out_of_use_step id p q : clocked_step p q → out_of_use id p.1 p.2 → out_of_use id q.1 q.2.
Proof.
  destruct p as [T s], q as [T' s']. intros [HT [Hs|(c & Hp & H)]] Hu; cbn in *.
  { subst. destruct Hu as [? ? ? [?|?]]; split; auto. right. lia. }
  pose proof Hu as [Hinv Hl Hrefs Hb]. pose proof (run_cmd_good _ _ _ _ _ Hinv H) as Hg.
  split; [by eapply gs_inv|by eapply collected_later_step| |].
  - intros inv ?%(out_of_use_refs id T T' c s s' Hu HT Hp H). eapply ref_ended_le; [by apply gs_le|auto].
  - destruct Hb as [Ht|?]; [|right; lia].
    destruct (object_effect _ _ _ _ _ H) as [[_ E]|[(? & ? & ? & _ & _ & _ & E & _)|[(o & r & now & _ & _ & _ & E & _)|
      [(? & _ & E & _)|(b & -> & _ & E)]]]]; rewrite E; [by left..| |by left|].
    + left. destruct (decide (obj_id o = id)) as [->|?]; [by rewrite lookup_insert_eq|by rewrite lookup_insert_ne].
    + destruct (st_object_tombstones s !! id) as [[r t]|] eqn:Et; [|done]. cbn in Hp.
      destruct (decide (b ≤ t)); [left|right; pose proof (Hl _ _ _ Et); lia].
      enough (filter (λ kt : string * (CollectReason * Z), b ≤ kt.2.2) (st_object_tombstones s) !! id = Some (r, t)) as -> by done.
      by apply map_lookup_filter_Some.
Qed.

Lemma out_of_use_run id p q : rtc clocked_step p q → out_of_use id p.1 p.2 → out_of_use id q.1 q.2.
Proof. induction 1 as [|p1 p2 p3 H _ IH]; [done|]. intros Hu. by eapply IH, out_of_use_step. Qed.
(** What every state of the repository satisfies. *)
Record repo_ok (s : State) : Prop := mkRepoOk {
  ro_inv : slot_inv s;
  ro_safe : tombstones_safe s;
  ro_later : collected_later s
}.

Lemma clocked_run_ok p q : rtc clocked_step p q → repo_ok p.2 → repo_ok q.2 ∧ p.1 ≤ q.1.
Proof.
  induction 1 as [|p1 p2 p3 [HT H] _ IH]; intros Hok; [by split|].
  assert (repo_ok p2.2) as Hok2; [|destruct (IH Hok2); split; [done|lia]].
  destruct H as [->|(c & Hp & H)]; [done|]. destruct Hok as [Hinv Hsafe Hl]. split.
  - by eapply gs_inv, run_cmd_good.
  - by eapply run_cmd_tombstones.
  - by eapply collected_later_step.
Qed.

(** What others do around the candidates of a pass, with the clock before, between and after. *)
Definition turns_ok (clock : nat → Timestamp) (turns : nat → GcTurn) : Prop :=
  ∀ i s, rtc clocked_step (clock (2 * i)%nat, s) (clock (2 * i + 1)%nat, gt_before (turns i) s) ∧
         rtc clocked_step (clock (2 * i + 1)%nat, s) (clock (2 * i + 2)%nat, gt_between (turns i) s).

(** A claim is a command, whatever the clock. *)
Lemma collecting_step T o reason now d s s' :
  milliseconds (created_of (obj_id o) + 1) ≤ now →
  ObjectRepo.claim_for_collection o reason now s = Ok (d, s') → clocked_step (T, s) (T, s').
Proof.
  intros Hn H. split; [done|]. right. exists (CCollect o reason now). split; [exact Hn|].
  cbn. unfold after. by rewrite H.
Qed.

Lemma claim_out_of_use T o reason now s s' :
  repo_ok s → milliseconds (created_of (obj_id o) + 1) ≤ now →
  ObjectRepo.claim_for_collection o reason now s = Ok (CollectDecision.Collect, s') →
  out_of_use (obj_id o) T s'.
Proof.
  intros Hok Hn H. destruct (clocked_run_ok (T, s) (T, s')) as [[Hinv Hsafe Hl] _];
    [by eapply rtc_once, collecting_step|done|]. cbn in *.
  assert (Ht : st_object_tombstones s' !! obj_id o ≠ None).
  { apply claim_for_collection_spec in H as [(? & _ & ->)|[(_ & _ & n & ? & _)|(_ & _ & H)]]; [done..|].
    destruct H as [(_ & _ & ? & _)|(_ & _ & ->)]; [done|]. cbn. by rewrite lookup_insert_eq. }
  split; [done|done| |by left]. intros inv. apply Hsafe. by apply not_eq_None_Some.
Qed.

(** Every candidate counts once. *)
Definition gc_counted (r : GcReport) : nat :=
  gc_collected_expired r + gc_collected_orphans r + gc_kept_in_use r + gc_kept_referenced r + gc_failed r.

Definition candidate_ok (now : Timestamp) (meta : ObjectMeta) : Prop :=
  milliseconds (created_of (obj_id (mt_reference meta)) + 1) ≤ now.

Lemma gc_object_facts t now meta r s r' deleted s' T0 T1 T2 :
  rtc clocked_step (T0, s) (T1, gt_before t s) →
  (∀ s1, rtc clocked_step (T1, s1) (T2, gt_between t s1)) →
  repo_ok s → candidate_ok now meta → gc_object t now meta r s = (r', deleted, s') →
  rtc clocked_step (T0, s) (T2, s') ∧ gc_examined r' = S (gc_examined r) ∧ gc_counted r' = S (gc_counted r) ∧
  (∀ o sd, deleted = Some (o, sd) →
     o = mt_reference meta ∧ rtc clocked_step (T0, s) (T2, sd) ∧ out_of_use (obj_id o) T2 sd).
Proof.
  intros Hb Hm Hok Hc H. unfold gc_object in H. cbn zeta in H.
  destruct (clocked_run_ok _ _ Hb Hok) as [Hok1 _]. cbn in Hok1.
  assert (Htick : ∀ s1, clocked_step (T1, s1) (T2, s1)).
  { intros s1. destruct (clocked_run_ok _ _ (Hm (gt_before t s)) Hok1) as [_ ?]. split; [done|by left]. }
  destruct (gt_claim_fails t).
  { injection H as <- <- <-. split_and!; [by eapply rtc_r|done|unfold gc_counted; cbn; lia|done]. }
  destruct (ObjectRepo.claim_for_collection _ _ _ _) as [[d s1]|] eqn:Ec.
  2: { injection H as <- <- <-. split_and!; [by eapply rtc_r|done|unfold gc_counted; cbn; lia|done]. }
  assert (Hs1 : rtc clocked_step (T0, s) (T1, s1)) by (eapply rtc_r; [exact Hb|by eapply collecting_step]).
  destruct d as [|n|].
  2-3: injection H as <- <- <-; split_and!; [by eapply rtc_r|done|unfold gc_counted; cbn; lia|done].
  assert (Hs2 : rtc clocked_step (T0, s) (T2, gt_between t s1)) by (etrans; [exact Hs1|apply Hm]).
  assert (Hout : out_of_use (obj_id (mt_reference meta)) T2 (gt_between t s1)).
  { apply (out_of_use_run _ _ _ (Hm s1)). by eapply claim_out_of_use. }
  assert (Hdel : ∀ o sd, Some (mt_reference meta, gt_between t s1) = Some (o, sd) →
    o = mt_reference meta ∧ rtc clocked_step (T0, s) (T2, sd) ∧ out_of_use (obj_id o) T2 sd)
    by (by intros o sd [= <- <-]).
  destruct (gt_delete_fails t); [|destruct (gt_forget_fails t)]; cbn in H; injection H as <- <- <-.
  1-2: split_and!; [done|done|unfold gc_counted; cbn; lia|done].
  split_and!; [|by destruct (gc_reason now meta)|unfold gc_counted; destruct (gc_reason now meta); cbn; lia|done].
  eapply rtc_r; [exact Hs2|]. split; [done|]. right. by exists (CForget (obj_id (mt_reference meta))).
Qed.

Lemma gc_objects_facts clock turns now metas : ∀ i r s r' deleted s',
  turns_ok clock turns → repo_ok s → (∀ meta, meta ∈ metas → candidate_ok now meta) →
  gc_objects turns i now metas r s = (r', deleted, s') →
  rtc clocked_step (clock (2 * i)%nat, s) (clock (2 * (i + length metas))%nat, s') ∧
  gc_examined r' = (gc_examined r + length metas)%nat ∧ gc_counted r' = (gc_counted r + length metas)%nat ∧
  (∀ o sd, (o, sd) ∈ deleted → (∃ meta, meta ∈ metas ∧ mt_reference meta = o) ∧
     ∃ T, rtc clocked_step (clock (2 * i)%nat, s) (T, sd) ∧ out_of_use (obj_id o) T sd).
Proof.
  induction metas as [|meta metas IH]; intros i r s r' deleted s' Ht Hok Hc H; cbn in H.
  { injection H as <- <- <-. cbn [length]. rewrite !Nat.add_0_r. split_and!; [done..|]. intros o sd Hin. by apply elem_of_nil in Hin. }
  destruct (gc_object (turns i) now meta r s) as [[r1 d1] s1] eqn:E1.
  destruct (gc_objects turns (S i) now metas r1 s1) as [[r2 d2] s2] eqn:E2. injection H as <- <- <-.
  destruct (gc_object_facts _ _ _ _ _ _ _ _ _ _ _ (proj1 (Ht i s)) (λ x, proj2 (Ht i x)) Hok (Hc meta ltac:(by left)) E1)
    as (Hr1 & He1 & Hc1 & Hd1).
  destruct (clocked_run_ok _ _ Hr1 Hok) as [Hok1 _].
  destruct (IH _ _ _ _ _ _ Ht Hok1 (λ m Hm, Hc m ltac:(by right)) E2) as (Hr2 & He2 & Hc2 & Hd2).
  replace (2 * S i)%nat with (2 * i + 2)%nat in * by lia. split_and!.
  - etrans; [exact Hr1|]. cbn [length]. by replace (i + S (length metas))%nat with (S i + length metas)%nat by lia.
  - cbn [length]. lia.
  - cbn [length]. lia.
  - intros o sd [Hin|Hin]%elem_of_app.
    + destruct d1 as [[o1 sd1]|]; cbn in Hin; [|by apply elem_of_nil in Hin].
      apply list_elem_of_singleton in Hin as [= -> ->]. destruct (Hd1 _ _ eq_refl) as (-> & ? & ?).
      split; [exists meta; split; [by left|done]|eauto].
    + destruct (Hd2 _ _ Hin) as [(m & ? & ?) (T & ? & ?)].
      split; [exists m; split; [by right|done]|]. exists T. split; [by etrans|done].
Qed.
End clocks.

(** ** Properties *)

(** The object of an unfinished invocation is never collected. While an
    invocation that has not ended refers to an object, the object has no
    tombstone and every claim to collect it, for either reason, is answered
    [InUse] and changes nothing. *)
Theorem object_in_use_is_kept display cfg s o id i :
  store_reachable display cfg s → id ∈ ObjectRepo.refs_of o s → st_invocations s !! id = Some i →
  InvocationStatus.is_terminal (inv_status i) = false →
  st_object_tombstones s !! o = None ∧
  ∀ object reason now d s', obj_id object = o →
    ObjectRepo.claim_for_collection object reason now s = Ok (d, s') →
    s' = s ∧ ∃ n, d = CollectDecision.InUse n ∧ (0 < n)%nat.
Proof.
  intros Hreach Hid Hi Hn. destruct (reachable_tombstones _ _ _ Hreach) as [_ Hsafe].
  assert (¬ ref_ended s id) as Hlive by (intros (i' & ? & ?); congruence).
  assert (st_object_tombstones s !! o = None) as Ht.
  { apply eq_None_not_Some. intros Hs. by apply Hlive, (Hsafe o). }
  split; [done|]. intros object reason now d s' <- H.
  apply claim_for_collection_spec in H as [(? & _)|[(_ & -> & n & ? & ? & _)|(_ & Hall & _)]]; [done|eauto|].
  by destruct (Hlive (Hall id Hid)).
Qed.

(** A collection is decided once and nothing revives it. A claim answers
    [Collect] only for an object already under collection, or one to which every
    reference has ended, and for an orphan none is left; it then leaves a
    tombstone. While the tombstone stands, every reference to the object has
    ended, each attach is refused, and each further claim answers [Collect]. *)
Theorem collected_object_stays_unused display cfg s object reason now s1 :
  store_reachable display cfg s →
  ObjectRepo.claim_for_collection object reason now s = Ok (CollectDecision.Collect, s1) →
  st_object_tombstones s1 !! obj_id object ≠ None ∧
  (st_object_tombstones s !! obj_id object = None → reason = Orphan →
     ObjectRepo.refs_of (obj_id object) s = ∅) ∧
  ∀ s2, rtc (store_step display cfg) s1 s2 → st_object_tombstones s2 !! obj_id object ≠ None →
    (∀ id, id ∈ ObjectRepo.refs_of (obj_id object) s2 → ref_ended s2 id) ∧
    (∀ object' inv t, obj_id object' = obj_id object →
       is_err (ObjectRepo.attach_object object' inv t s2) = true) ∧
    (∀ reason' t, ObjectRepo.claim_for_collection object reason' t s2
       = Ok (CollectDecision.Collect, s2)).
Proof.
  intros Hreach H. assert (store_reachable display cfg s1) as Hreach1.
  { eapply rtc_r; [exact Hreach|]. exists (CCollect object reason now).
    cbn [run_cmd]. unfold after. by rewrite H. }
  split_and!.
  - apply claim_for_collection_spec in H as [(? & _ & ->)|[(_ & _ & n & ? & _)|(_ & _ & H)]]; [done..|].
    destruct H as [(_ & _ & ? & _)|(_ & _ & ->)]; [done|]. cbn. by rewrite lookup_insert_eq.
  - intros Hn Hr. apply claim_for_collection_spec in H as [(? & _)|[(_ & _ & n & ? & _)|(_ & _ & H)]]; [done..|].
    destruct H as [(_ & _ & ? & _)|(Ho & _)]; [done|auto].
  - intros s2 H12 Ht. assert (store_reachable display cfg s2) as Hreach2 by (unfold store_reachable in *; by etrans).
    destruct (reachable_tombstones _ _ _ Hreach2) as [_ Hsafe].
    destruct (st_object_tombstones s2 !! obj_id object) as [t|] eqn:Hto; [|done]. split_and!.
    + apply Hsafe. by rewrite Hto.
    + intros object' inv t' Ho. unfold ObjectRepo.attach_object.
      destruct (check_attachable object' t') as [[]|]; [|done]. cbn.
      destruct (st_invocations s2 !! inv); [|done]. destruct (_ != _); [done|].
      rewrite Ho, Hto. by destruct t.
    + intros reason' t'. unfold ObjectRepo.claim_for_collection. by rewrite Hto.
Qed.

(** C28: the collector only deletes what nothing will use. In a pass over any list of candidates, while
    others run any commands on the repository before, between and after its steps: when
    the object store is asked to delete an object, it is one of the candidates and every
    invocation that refers to it has ended; and from then on, for ever, however the
    deletion went and although its tombstone is purged after the retention, every
    invocation that refers to it has ended and each attach of it is refused. Clocks do not go
    back, and an object is collected at the earliest in the millisecond after the one it was created in. Every
    candidate is examined and counted once, as collected, kept or failed. *)
Theorem gc_deletes_only_unused display cfg created_of clock turns now listing purges removes s r deleted s' :
  store_reachable display cfg s → collected_later created_of s → turns_ok display cfg created_of clock turns →
  (∀ meta, meta ∈ ls_objects listing → candidate_ok created_of now meta) →
  gc_run turns now (Some listing) purges removes s = (r, deleted, s') →
  (∀ o sd, (o, sd) ∈ deleted →
     (∃ meta, meta ∈ ls_objects listing ∧ mt_reference meta = o) ∧
     ∃ T, rtc (clocked_step display cfg created_of) (clock 0%nat, s) (T, sd) ∧
       ∀ T' s2, rtc (clocked_step display cfg created_of) (T, sd) (T', s2) →
         (∀ inv, inv ∈ ObjectRepo.refs_of (obj_id o) s2 → ref_ended s2 inv) ∧
         (∀ o' inv, obj_id o' = obj_id o → dated created_of o' →
            is_err (ObjectRepo.attach_object o' inv T' s2) = true)) ∧
  gc_examined r = length (ls_objects listing) ∧
  gc_counted r = (length (ls_objects listing) + (if purges then 0 else 1) +
    (if (ls_incomplete listing == []) || is_some removes then 0 else 1))%nat.
Proof.
  intros Hreach Hl Ht Hc H. destruct (reachable_tombstones _ _ _ Hreach) as [Hinv Hsafe].
  unfold gc_run in H. destruct (gc_objects turns 0 now _ _ s) as [[r1 d1] s1] eqn:E.
  destruct (gc_objects_facts _ _ _ _ _ _ _ _ _ _ _ _ _ Ht (mkRepoOk _ _ Hinv Hsafe Hl) Hc E) as (_ & He & Hn & Hd).
  assert (deleted = d1) as -> by (destruct purges; cbn in H; by injection H as _ <- _). split.
  - intros o sd Hin. destruct (Hd o sd Hin) as [? (T & Hrun & Hout)]. split; [done|]. exists T. split; [exact Hrun|].
    intros T' s2 Hr. pose proof (out_of_use_run _ _ _ _ _ _ Hr Hout) as Ho. split; [apply Ho|].
    intros o' inv Hid Hdt. cbn in Ho. rewrite <-Hid in Ho. by eapply out_of_use_unattachable.
  - unfold gc_counted in *. destruct purges, (ls_incomplete listing == []), removes; cbn in *;
      injection H as <- _; cbn; lia.
Qed.

(** ** Witnesses *)

Lemma object_in_use_is_kept_witness : st_object_tombstones s_attached !! "obj_a" = None.
Proof.
  apply (object_in_use_is_kept display0 cfg0 s_attached "obj_a" "inv_a" inv_a_running).
  - apply (run0_reachable (setup ++ [CAcquire acquire_a; attach_a])). vm_compute. reflexivity.
  - apply (bool_decide_eq_true_1 _). vm_compute. reflexivity.
  - vm_compute. reflexivity.
  - vm_compute. reflexivity.
Defined.

Lemma collected_object_stays_unused_witness :
  is_err (ObjectRepo.attach_object object_a "inv_a" 90 s_collected) = true.
Proof.
  destruct (collected_object_stays_unused display0 cfg0 s_ended object_a Expired 80 s_collected)
    as (Ht & _ & H).
  - apply (run0_reachable (setup ++ [CAcquire acquire_a; attach_a; CComplete complete_a])).
    vm_compute. reflexivity.
  - vm_compute. reflexivity.
  - destruct (H s_collected (rtc_refl _ _) Ht) as (_ & Ha & _). apply (Ha object_a "inv_a" 90). reflexivity.
Defined.

Definition created_q (id : string) : Z := 0.
Definition quiet_turn : GcTurn := mkGcTurn id false id false false.
Definition listing_a : ObjectListing := mkObjectListing [mkObjectMeta object_a (Some 80)] [].

(** The finished invocation's object expired; a pass deletes it. *)
Lemma gc_deletes_only_unused_witness :
  let '(r, deleted, _) := gc_run (λ _, quiet_turn) 2000000 (Some listing_a) true None s_ended in
  gc_examined r = 1%nat ∧ length deleted = 1%nat ∧
  ∀ o sd, (o, sd) ∈ deleted → ∃ meta, meta ∈ ls_objects listing_a ∧ mt_reference meta = o.
Proof.
  destruct (gc_run _ _ _ _ _ _) as [[r deleted] s'] eqn:E.
  destruct (gc_deletes_only_unused display0 cfg0 created_q (λ _, 0) (λ _, quiet_turn) 2000000 listing_a true None
              s_ended r deleted s') as (Hd & He & _).
  - apply (run0_reachable (setup ++ [CAcquire acquire_a; attach_a; CComplete complete_a])).
    vm_compute. reflexivity.
  - intros id r' t H. replace (st_object_tombstones s_ended) with (∅ : gmap string (CollectReason * Z)) in H
      by (vm_compute; reflexivity). by rewrite lookup_empty in H.
  - intros i s. split; done.
  - intros meta ->%list_elem_of_singleton. by vm_compute.
  - exact E.
  - split; [exact He|]. split; [|intros o sd H; apply (Hd o sd H)].
    replace deleted with (gc_run (λ _, quiet_turn) 2000000 (Some listing_a) true None s_ended).1.2 by (by rewrite E).
    vm_compute. reflexivity.
Defined.
