(* ===== verification/Publication.v ===== *)
(** * The published configuration

    [stamp] numbers every change of the configuration with a generation of its
    own, and [above] answers the changes after one: what a gateway's cache needs
    to follow the control plane. *)

From S2P Require Import Prelude Ids Environment Invocation Functions Revision Guard Slot Store.

Open Scope string_scope.
Open Scope Z_scope.

(** ** Definitions *)

(** Every row carries a generation of its own, none above the counter. *)
Record pub_ok (rows : gmap string PublishedRow) (counter : Z) : Prop := {
  po_counter : 0 ≤ counter;
  po_range : ∀ k row, rows !! k = Some row → 0 < pub_generation row ≤ counter;
  po_unique : ∀ k1 k2 r1 r2, rows !! k1 = Some r1 → rows !! k2 = Some r2 →
    pub_generation r1 = pub_generation r2 → k1 = k2
}.

(** [q] is [p] after some numbered changes, as long as the counter does not wrap. *)
Definition pub_le (p q : Publication) : Prop :=
  ∃ l, q.2 = app p.2 l ∧
    (0 ≤ p.1.2 → p.1.2 + Z.of_nat (length l) ≤ u64_max →
     q.1.2 = p.1.2 + Z.of_nat (length l) ∧
     (pub_ok p.1.1 p.1.2 → pub_ok q.1.1 q.1.2) ∧
     ∀ k, (q.1.1 !! k = p.1.1 !! k) ∨
          (k ∈ l ∧ ∃ row, q.1.1 !! k = Some row ∧ p.1.2 < pub_generation row)).

(** Successive publications, with every change they made. *)
Fixpoint stamps (p : Publication) (observations : list (list ConfigObservation)) : Publication :=
  match observations with
  | [] => p
  | observed :: rest =>
      let '(rows, counter, changed) := stamp p.1.1 p.1.2 observed in
      stamps (rows, counter, app p.2 changed) rest
  end.

(** What a reader holds: the body of every key, [None] once it is gone. *)
Definition bodies (rows : gmap string PublishedRow) : gmap string (option string) :=
  pub_body <$> rows.
Definition apply_entries (entries : list StampedEntry) (view : gmap string (option string))
    : gmap string (option string) :=
  foldl (λ v e, <[se_key e := se_body e]> v) view entries.

(** The row a stamp leaves for an observed key. *)
Definition mirrors (row : option PublishedRow) (o : ConfigObservation) (row' : PublishedRow) : Prop :=
  if replaces row o
  then pub_digest row' = obs_digest o ∧ pub_body row' = Some (obs_body o) ∧
       pub_natural_version row' = obs_natural_version o
  else row = Some row' ∧ pub_body row' ≠ None ∧
       (pub_digest row' = obs_digest o ∨ obs_natural_version o < pub_natural_version row').

(** Two rounds of configuration: an alias moves, a route appears and a function goes. *)
Definition obs_of (key : string) (version : Z) (body : string) : ConfigObservation :=
  mkObservation key version body body.
Definition round1 : list ConfigObservation := [obs_of "alias/a" 1 "r1"; obs_of "fn/f" 1 "f"].
Definition round2 : list ConfigObservation := [obs_of "alias/a" 2 "r2"; obs_of "route/x" 1 "x"].

(** ** Lemmas *)

#[global] Instance pub_le_preorder : PreOrder pub_le.
Proof.
  split.
  - intros [[r c] ch]. exists []. rewrite app_nil_r. split; [done|]. cbn. intros _ _.
    split_and!; [lia|done|auto].
  - intros [[r1 c1] ch1] [[r2 c2] ch2] [[r3 c3] ch3] (l1 & E1 & H1) (l2 & E2 & H2). cbn in *.
    exists (app l1 l2). split; [by rewrite E2, E1, app_assoc|]. rewrite length_app. cbn.
    intros Hc Hmax. destruct H1 as (C1 & P1 & K1); [lia..|].
    destruct H2 as (C2 & P2 & K2); [lia..|]. split_and!; [lia|auto|]. intros k.
    destruct (K2 k) as [Hk2|(Hin & row & Hrow & Hg)]; [|right; split; [set_solver|exists row; split; [done|lia]]].
    destruct (K1 k) as [Hk1|(Hin & row & Hrow & Hg)]; [left; congruence|right].
    split; [set_solver|]. exists row. split; [congruence|done].
Qed.

(** One numbered change. *)
Lemma pub_le_insert rows counter changed k row :
  pub_generation row = u64_add counter 1 →
  pub_le (rows, counter, changed) (<[k := row]> rows, u64_add counter 1, app changed [k]).
Proof.
  intros Hg. exists [k]. split; [done|]. cbn. intros Hc Hmax.
  rewrite u64_add_small in Hg |- * by lia. split_and!; [done| |].
  - intros [_ Hr Hu]. split; [lia| |].
    + intros j r [[<- <-]|[_ Hj]]%lookup_insert_Some; [lia|]. specialize (Hr j r Hj). lia.
    + intros j1 j2 r1 r2 H1%lookup_insert_Some H2%lookup_insert_Some Heq.
      destruct H1 as [[<- <-]|[N1 H1]], H2 as [[<- <-]|[N2 H2]]; [done| | |eauto].
      * specialize (Hr _ _ H2). lia.
      * specialize (Hr _ _ H1). lia.
  - intros j. destruct (decide (j = k)) as [->|Hne]; [right|left; by apply lookup_insert_ne].
    rewrite lookup_insert_eq. split; [set_solver|]. exists row. split; [done|lia].
Qed.

Lemma stamp_one_le p o : pub_le p (stamp_one p o).
Proof.
  destruct p as [[r c] ch]. unfold stamp_one. destruct (replaces _ _); [|reflexivity].
  by apply pub_le_insert.
Qed.

Lemma tombstone_one_le seen p e : pub_le p (tombstone_one seen p e).
Proof.
  destruct p as [[r c] ch], e as [k row]. unfold tombstone_one. destruct (_ && _); [|reflexivity].
  by apply pub_le_insert.
Qed.

Lemma pub_fold_le {A} (f : Publication → A → Publication) (l : list A) p :
  (∀ p a, pub_le p (f p a)) → pub_le p (foldl f p l).
Proof.
  intros Hf. apply (foldl_inv (pub_le p)); [reflexivity|]. intros q a _ H. by etrans.
Qed.

Lemma stamp_le rows counter observed : pub_le (rows, counter, []) (stamp rows counter observed).
Proof.
  unfold stamp. pose proof (pub_fold_le stamp_one observed (rows, counter, []) stamp_one_le) as H.
  destruct (foldl stamp_one _ _) as [[r c] ch]. etrans; [exact H|].
  apply pub_fold_le. intros. apply tombstone_one_le.
Qed.

(** What was changed before plays no part in what follows. *)
Lemma pub_le_changed rows counter ch q :
  pub_le (rows, counter, []) q → pub_le (rows, counter, ch) (q.1, app ch q.2).
Proof. intros (l & Hl & H). exists l. cbn in *. by rewrite Hl. Qed.

Lemma stamps_le p obs : pub_le p (stamps p obs).
Proof.
  revert p. induction obs as [|observed rest IH]; intros p; cbn; [reflexivity|].
  destruct p as [[r c] ch]. cbn.
  pose proof (pub_le_changed r c ch _ (stamp_le r c observed)) as H.
  destruct (stamp r c observed) as [[r' c'] ch']. etrans; [exact H|apply IH].
Qed.

(** *** Catching up *)

Lemma apply_entries_lookup entries view k :
  NoDup (map se_key entries) →
  apply_entries entries view !! k =
    match List.find (λ e, bool_decide (se_key e = k)) entries with
    | Some e => Some (se_body e)
    | None => view !! k
    end.
Proof.
  unfold apply_entries. revert view. induction entries as [|e l IH]; intros view; cbn; [done|].
  intros [Hnot Hnd]%NoDup_cons. rewrite IH by done. case_bool_decide as Hk.
  - destruct (List.find _ l) as [e'|] eqn:Hf.
    + apply List.find_some in Hf as [Hin Heq]. bools. destruct Hnot. rewrite Hk, <-Heq.
      by apply list_elem_of_In, in_map.
    + subst. apply lookup_insert_eq.
  - destruct (List.find _ l); [done|]. by apply lookup_insert_ne.
Qed.

Lemma elem_of_above rows since e :
  e ∈ above rows since ↔ ∃ row, rows !! se_key e = Some row ∧ since < pub_generation row ∧
    se_generation e = pub_generation row ∧ se_body e = pub_body row.
Proof.
  unfold above. rewrite sort_by_Permutation, list_elem_of_In, in_map_iff. split.
  - intros ([k row] & <- & [Hin Hg]%filter_In). exists row. cbn in *. bools.
    split_and!; try done. by apply elem_of_btree_entries, list_elem_of_In.
  - intros (row & Hk & Hg & E1 & E2). exists (se_key e, row). split; [destruct e; cbn in *; congruence|].
    apply filter_In. split; [by apply list_elem_of_In, elem_of_btree_entries|]. by apply Z.ltb_lt.
Qed.

Lemma above_keys rows since : NoDup (map se_key (above rows since)).
Proof.
  assert (∀ l1 l2 : list StampedEntry, l1 ≡ₚ l2 → NoDup (map se_key l2) → NoDup (map se_key l1)) as Hp.
  { intros l1 l2 Hl. by rewrite Hl. }
  eapply Hp; [apply sort_by_Permutation|]. rewrite map_map. cbn.
  pose proof (NoDup_btree_keys rows) as H. unfold btree_keys in H.
  induction (btree_entries rows) as [|e l IH]; cbn; [constructor|].
  cbn in H. apply NoDup_cons in H as [Hnot Hnd]. destruct (_ <? _); cbn; [|by apply IH].
  apply NoDup_cons. split; [|by apply IH]. intros Hin. apply Hnot.
  apply list_elem_of_In, in_map_iff in Hin as (e' & <- & [Hin _]%filter_In).
  by apply list_elem_of_In, in_map.
Qed.

Lemma find_above rows since k :
  match List.find (λ e, bool_decide (se_key e = k)) (above rows since) with
  | Some e => ∃ row, rows !! k = Some row ∧ since < pub_generation row ∧ se_body e = pub_body row
  | None => ∀ row, rows !! k = Some row → pub_generation row ≤ since
  end.
Proof.
  destruct (List.find _ _) as [e|] eqn:Hf.
  - apply List.find_some in Hf as [Hin Heq]. bools. subst.
    apply list_elem_of_In, elem_of_above in Hin as (row & ? & ? & _ & ?). eauto.
  - intros row Hrow. destruct (Z.le_gt_cases (pub_generation row) since) as [|Hg]; [done|].
    apply (List.find_none _ _) with (x := mkStamped k (pub_generation row) (pub_body row)) in Hf.
    + cbn in Hf. by rewrite bool_decide_true in Hf.
    + apply list_elem_of_In, elem_of_above. by exists row.
Qed.

(** *** What a stamp writes *)

(** The observations of a key that is not among them change nothing. *)
Lemma stamp_obs_other obs p k :
  k ∉ map obs_key obs → (foldl stamp_one p obs).1.1 !! k = p.1.1 !! k.
Proof.
  revert p. induction obs as [|o obs IH]; intros p Hk; cbn in *; [done|].
  apply not_elem_of_cons in Hk as [Hne Hk]. rewrite IH by done.
  destruct p as [[r c] ch]. unfold stamp_one. destruct (replaces _ _); [|done].
  cbn. by rewrite lookup_insert_ne.
Qed.

Lemma stamp_one_mirrors p o :
  ∃ row', (stamp_one p o).1.1 !! obs_key o = Some row' ∧ mirrors (p.1.1 !! obs_key o) o row'.
Proof.
  destruct p as [[r c] ch]. unfold stamp_one, mirrors. cbn.
  destruct (replaces (r !! obs_key o) o) eqn:Hr; cbn.
  - eexists. by rewrite lookup_insert_eq.
  - unfold replaces in Hr. destruct (r !! obs_key o) as [row|]; [|done]. exists row.
    apply orb_false_iff in Hr as [Hl Hd]. bools. split_and!; [done..|].
    apply andb_false_iff in Hd as [Hd|Hd]; bools; auto.
Qed.

Lemma stamp_obs_mirrors obs p o :
  NoDup (map obs_key obs) → o ∈ obs →
  ∃ row', (foldl stamp_one p obs).1.1 !! obs_key o = Some row' ∧ mirrors (p.1.1 !! obs_key o) o row'.
Proof.
  intros Hnd (l1 & l2 & ->)%list_elem_of_split. rewrite map_app in Hnd. cbn in Hnd.
  apply NoDup_app in Hnd as (_ & Hd & [Hn _]%NoDup_cons). rewrite foldl_app. cbn.
  rewrite stamp_obs_other by done.
  destruct (stamp_one_mirrors (foldl stamp_one p l1) o) as (row' & Hrow & Hm).
  exists row'. split; [done|]. rewrite stamp_obs_other in Hm; [done|].
  intros Hin. apply (Hd _ Hin). by left.
Qed.

Lemma tombstones_seen seen l p k :
  k ∈ seen → (foldl (tombstone_one seen) p l).1.1 !! k = p.1.1 !! k.
Proof.
  intros Hk. apply (foldl_inv (λ q, q.1.1 !! k = p.1.1 !! k)); [done|].
  intros [[r c] ch] [j row] _ <-. unfold tombstone_one. destruct (_ && _) eqn:Hc; [|done].
  bools. cbn. apply lookup_insert_ne. by intros ->.
Qed.

Lemma tombstones_unseen seen l p k row :
  k ∉ seen → (∀ row, p.1.1 !! k = Some row → pub_body row = None ∨ (k, row) ∈ l) →
  (foldl (tombstone_one seen) p l).1.1 !! k = Some row → pub_body row = None.
Proof.
  intros Hk. revert p. induction l as [|[j rj] l IH]; intros p Hp; cbn.
  - intros Hrow. destruct (Hp row Hrow) as [?|?%not_elem_of_nil]; done.
  - apply IH. destruct p as [[r c] ch]. cbn in *. intros row' Hrow'.
    destruct (is_some (pub_body rj) && negb (bool_decide (j ∈ seen))) eqn:Hc; cbn in Hrow'.
    + apply lookup_insert_Some in Hrow' as [[<- <-]|[Hne Hr]]; [by left|].
      destruct (Hp _ Hr) as [?|[[= -> ->]|?]%elem_of_cons]; [by left|done|by right].
    + destruct (Hp _ Hrow') as [?|[[= -> ->]|?]%elem_of_cons]; [by left|left|by right].
      rewrite bool_decide_false in Hc by done. by destruct (pub_body rj).
Qed.

(** ** Properties *)

(** A publication mirrors what was observed. For observations of distinct
    keys, an observed key holds the observed body, version and digest when it is
    new, was gone, or changed to a version that is not older, and otherwise its
    row as it was; a key that was not observed is gone. *)
Theorem stamp_mirrors_observations rows counter observed rows' counter' changed :
  NoDup (map obs_key observed) →
  stamp rows counter observed = (rows', counter', changed) →
  (∀ o, o ∈ observed → ∃ row', rows' !! obs_key o = Some row' ∧ mirrors (rows !! obs_key o) o row') ∧
  (∀ k row', k ∉ map obs_key observed → rows' !! k = Some row' → pub_body row' = None).
Proof.
  unfold stamp. intros Hnd H. pose proof (stamp_obs_mirrors observed (rows, counter, [])) as Hm.
  destruct (foldl stamp_one _ _) as [[r c] ch]. set (seen := list_to_set _) in *.
  assert (∀ k, k ∈ seen ↔ k ∈ map obs_key observed) as Hseen by (intros k; apply elem_of_list_to_set).
  assert (rows' = (foldl (tombstone_one seen) (r, c, ch) (btree_entries r)).1.1) as -> by by rewrite H.
  split.
  - intros o Ho. destruct (Hm o Hnd Ho) as (row' & Hrow & Hr). exists row'. split; [|exact Hr].
    rewrite tombstones_seen; [done|]. apply Hseen. by apply list_elem_of_In, in_map, list_elem_of_In.
  - intros k row' Hk. apply tombstones_unseen; [by rewrite Hseen|]. cbn.
    intros row Hrow. right. by apply elem_of_btree_entries.
Qed.

(** A reader that asks for what changed after the generation it knows ends up
    with exactly the published configuration, however many publications it
    missed: applying the answer of [above] to the bodies at generation [counter]
    gives the bodies now, deletions included. Until the 64-bit counter would
    wrap, it counts the changes, and every row keeps a generation of its own. *)
Theorem reader_catches_up rows counter observations rows' counter' changed :
  pub_ok rows counter → stamps (rows, counter, []) observations = (rows', counter', changed) →
  counter + Z.of_nat (length changed) ≤ u64_max →
  apply_entries (above rows' counter) (bodies rows) = bodies rows' ∧
  pub_ok rows' counter' ∧ counter' = counter + Z.of_nat (length changed).
Proof.
  intros Hok H Hmax. destruct (stamps_le (rows, counter, []) observations) as (l & Hl & Hs).
  rewrite H in Hl, Hs. cbn in Hl, Hs. subst l.
  destruct Hs as (Hc & Hok' & Hk); [apply Hok|done|]. split_and!; [|auto|done].
  apply map_eq. intros k. rewrite apply_entries_lookup by apply above_keys.
  pose proof (find_above rows' counter k) as Hf. unfold bodies. rewrite !lookup_fmap.
  destruct (List.find _ _) as [e|].
  - destruct Hf as (row & -> & _ & Hb). cbn. by rewrite Hb.
  - destruct (Hk k) as [->|(_ & row & Hrow & Hg)]; [done|]. specialize (Hf row Hrow). lia.
Qed.

(** ** Witnesses *)

Lemma stamp_mirrors_observations_witness :
  ∃ row, (stamp ∅ 0 round1).1.1 !! "alias/a" = Some row ∧ pub_body row = Some "r1".
Proof.
  destruct (stamp_mirrors_observations ∅ 0 round1 (stamp ∅ 0 round1).1.1 (stamp ∅ 0 round1).1.2
              (stamp ∅ 0 round1).2) as [H _].
  - apply (bool_decide_eq_true_1 _). vm_compute. reflexivity.
  - vm_compute. reflexivity.
  - destruct (H (obs_of "alias/a" 1 "r1")) as (row & Hr & Hm); [by left|].
    exists row. split; [exact Hr|]. exact (proj1 (proj2 Hm)).
Defined.

Lemma reader_catches_up_witness :
  apply_entries (above (stamps (∅, 0, []) [round1; round2]).1.1 0) (bodies ∅)
    = bodies (stamps (∅, 0, []) [round1; round2]).1.1.
Proof.
  apply (reader_catches_up ∅ 0 [round1; round2] (stamps (∅, 0, []) [round1; round2]).1.1
           (stamps (∅, 0, []) [round1; round2]).1.2 (stamps (∅, 0, []) [round1; round2]).2).
  - split; [done| |]; intros k; intros; by rewrite lookup_empty in *.
  - vm_compute. reflexivity.
  - vm_compute. discriminate.
Defined.
