(* ===== verification/Logs.v ===== *)
(** * Log lines of invocations

    The in-memory log keeps a bounded prefix of each invocation's lines and shows
    them to their tenant only. *)

From S2P Require Import Prelude Ids Environment Invocation Functions Revision Guard Slot Store.

Open Scope string_scope.
Open Scope Z_scope.

(** ** Definitions *)

(** Appends a sequence of lines to an empty log. *)
Definition append_all (limits : Limits) (records : list LogRecord) : LogBuffer.t :=
  foldl (λ b r, (LogBuffer.append limits r b).2) ∅ records.

(** The lines of one bucket, in the order they were appended. *)
Definition lines_of (key : string) (records : list LogRecord) : list LogRecord :=
  List.filter (λ r, LogBuffer.log_key r == key) records.
Definition total_bytes (records : list LogRecord) : Z :=
  foldr (λ r n, byte_len (log_line r) + n) 0 records.

(** A bucket within its limits, of lines in order; of all lines unless it says so. *)
Record bucket_ok (limits : Limits) (appended : list LogRecord) (b : LogBucket) : Prop := {
  bk_lines : Z.of_nat (length (bucket_records b)) ≤ max_log_lines_per_invocation limits;
  bk_bytes : bucket_bytes b = total_bytes (bucket_records b);
  bk_limit : bucket_bytes b ≤ max_log_bytes_per_invocation limits;
  bk_order : bucket_records b `sublist_of` appended;
  bk_complete : bucket_dropped b = false → bucket_records b = appended
}.

(** The limits are limits, and no line makes the byte count wrap. *)
Record limits_sane (limits : Limits) (records : list LogRecord) : Prop := {
  ls_lines : 0 ≤ max_log_lines_per_invocation limits;
  ls_bytes : 0 ≤ max_log_bytes_per_invocation limits;
  ls_no_wrap : ∀ r, r ∈ records →
    max_log_bytes_per_invocation limits + byte_len (log_line r) ≤ u64_max
}.

Definition line_of (tenant inv line : string) : LogRecord :=
  mkLog tenant "env_a" (Some inv) None Stdout Handler 0 line false.
Definition log0 : list LogRecord :=
  [line_of "tn_a" "inv_a" "one"; line_of "tn_b" "inv_b" "other"; line_of "tn_a" "inv_a" "two"].

(** ** Lemmas *)

Lemma total_bytes_app l1 l2 : total_bytes (app l1 l2) = total_bytes l1 + total_bytes l2.
Proof. unfold total_bytes. induction l1 as [|r l1 IH]; cbn; lia. Qed.

Lemma total_bytes_nonneg l : 0 ≤ total_bytes l.
Proof.
  induction l as [|r l IH]; [done|].
  change (total_bytes (r :: l)) with (byte_len (log_line r) + total_bytes l). unfold byte_len. lia.
Qed.

(** What a bucket holds after its lines, and before the first. *)
Definition bucket_at (limits : Limits) (records : list LogRecord) (key : string) (m : LogBuffer.t) : Prop :=
  match m !! key with
  | Some b => bucket_ok limits (lines_of key records) b
  | None => lines_of key records = []
  end.

Lemma append_bucket limits records r m :
  limits_sane limits (app records [r]) → (∀ key, bucket_at limits records key m) →
  ∀ key, bucket_at limits (app records [r]) key (LogBuffer.append limits r m).2.
Proof.
  intros Hl Hm key. specialize (Hm key). unfold bucket_at, lines_of in *. rewrite List.filter_app. cbn.
  unfold LogBuffer.append, LogBuffer.t in *. destruct (decide (LogBuffer.log_key r = key)) as [<-|Hne].
  2: { rewrite bool_decide_false by done. rewrite app_nil_r.
       destruct (_ || _); cbn; by rewrite lookup_insert_ne. }
  rewrite bool_decide_true by done. set (b := unwrap_or _ _).
  assert (bucket_ok limits (List.filter (λ r0, LogBuffer.log_key r0 == LogBuffer.log_key r) records) b)
    as [B1 B2 B3 B4 B5].
  { unfold b. destruct (m !! LogBuffer.log_key r) as [b0|]; [exact Hm|]. cbn. rewrite Hm.
    split; cbn; try done; apply Hl. }
  assert (0 ≤ bucket_bytes b) by (rewrite B2; apply total_bytes_nonneg).
  pose proof (ls_no_wrap _ _ Hl r ltac:(set_solver)).
  destruct (_ || _) eqn:Hc; cbn; rewrite lookup_insert_eq.
  - split; cbn; try done. by apply sublist_inserts_r.
  - bools. unfold byte_len in *. rewrite u64_add_small in * by lia. split; cbn.
    + rewrite length_app. cbn. lia.
    + rewrite total_bytes_app. cbn. unfold byte_len. lia.
    + lia.
    + by apply sublist_app.
    + intros Hd. by rewrite B5.
Qed.

Lemma append_all_app limits l1 l2 :
  append_all limits (app l1 l2) = foldl (λ b r, (LogBuffer.append limits r b).2) (append_all limits l1) l2.
Proof. unfold append_all. by rewrite foldl_app. Qed.

Lemma append_all_buckets limits records :
  limits_sane limits records → ∀ key, bucket_at limits records key (append_all limits records).
Proof.
  induction records as [|r records IH] using rev_ind; intros Hl.
  - intros key. unfold bucket_at, append_all, LogBuffer.t. cbn. by rewrite lookup_empty.
  - rewrite append_all_app. cbn. apply append_bucket; [done|]. apply IH.
    destruct Hl. split; auto. intros r' Hr'. apply ls_no_wrap0. set_solver.
Qed.

Lemma log_key_invocation r inv :
  LogBuffer.log_key r = "inv:" +:+ inv → log_invocation_id r = Some inv.
Proof.
  unfold LogBuffer.log_key. destruct (log_invocation_id r) as [i|]; [|discriminate].
  intros H. f_equal. by injection H.
Qed.

(** ** Properties *)

(** The log of an invocation is a bounded prefix-ordered part of what it
    wrote: after any appends, each bucket holds at most the configured lines and
    bytes, counts its bytes exactly, keeps the order of the appends, and holds all
    of them unless it says that lines were dropped. *)
Theorem log_buckets_bounded limits records key b :
  limits_sane limits records → append_all limits records !! key = Some b →
  bucket_ok limits (lines_of key records) b.
Proof.
  intros Hl Hb. pose proof (append_all_buckets limits records Hl key) as H.
  unfold bucket_at in H. by rewrite Hb in H.
Qed.

(** A tenant reads only its own lines of the invocation it asks for. A query
    answers records that were appended, of that tenant and that invocation, and
    tells of dropped lines only to a tenant that may see the invocation. *)
Theorem log_query_isolated limits records tenant inv r :
  limits_sane limits records →
  r ∈ LogBuffer.query_records (LogBuffer.query tenant inv (append_all limits records)) →
  r ∈ records ∧ log_tenant_id r = tenant ∧ log_invocation_id r = Some inv.
Proof.
  intros Hl. unfold LogBuffer.query.
  destruct (append_all limits records !! _) as [b|] eqn:Hb; cbn; [|by intros ?%not_elem_of_nil].
  intros [Hin Ht]%list_elem_of_In%filter_In. bools.
  pose proof (append_all_buckets limits records Hl ("inv:" +:+ inv)) as H.
  unfold bucket_at in H. rewrite Hb in H. apply list_elem_of_In in Hin.
  pose proof (elem_of_sublist _ _ _ Hin (bk_order _ _ _ H)) as Hin'. clear Hin. rename Hin' into Hin. apply list_elem_of_In, filter_In in Hin as [Hin Hk].
  bools. split; [by apply list_elem_of_In|]. split; [done|]. by apply log_key_invocation.
Qed.

(** ** Witnesses *)

Lemma log0_sane : limits_sane limits_default log0.
Proof. split; [vm_compute; discriminate..|]. apply Forall_forall. repeat constructor; vm_compute; discriminate. Qed.

Lemma log_buckets_bounded_witness :
  bucket_ok limits_default (lines_of "inv:inv_a" log0)
    (mkBucket [line_of "tn_a" "inv_a" "one"; line_of "tn_a" "inv_a" "two"] 6 false).
Proof.
  apply (log_buckets_bounded limits_default log0 "inv:inv_a"); [apply log0_sane|].
  vm_compute. reflexivity.
Defined.

Lemma log_query_isolated_witness : log_tenant_id (line_of "tn_a" "inv_a" "two") = "tn_a".
Proof.
  apply (log_query_isolated limits_default log0 "tn_a" "inv_a"); [apply log0_sane|].
  vm_compute. right. left.
Defined.
