(* ===== verification/SlotSpec.v ===== *)
(** * The slot of an environment, abstractly

    Seen from outside, an environment is a slot that is created once, is taken
    and given back, each time under the next epoch, and in the end goes out of
    use for good. The store refines this automaton: each of its commands is one
    of the automaton's steps, for every environment. *)

From S2P Require Import Prelude Ids Environment Invocation Functions Revision Guard Slot Store.
From S2P Require Import SlotStore StoreInv Reclaim SlotProps Scenario.

Open Scope string_scope.
Open Scope Z_scope.

(** ** Definitions *)

Inductive slot : Type :=
| Absent | Free (epoch : Z) | Held (epoch : Z) (lease : LeaseId) | Out.

Inductive slot_step : slot → slot → Prop :=
| slot_stay x : slot_step x x
| slot_create n : slot_step Absent (Free n)
| slot_create_out : slot_step Absent Out
| slot_take n l : slot_step (Free n) (Held (u64_add n 1) l)
| slot_give_back n l : slot_step (Held n l) (Free n)
| slot_lose n l : slot_step (Held n l) Out
| slot_retire n : slot_step (Free n) Out.

(** The lease that holds an environment. *)
Definition holder (s : State) (k : EnvironmentId) : option LeaseId :=
  fst <$> btree_find (λ l, (lease_environment_id l == k) && is_none (lease_released_at l))
            (st_leases s).

(** The abstraction of a state, for one environment. *)
Definition slot_of (s : State) (k : EnvironmentId) : slot :=
  match st_environments s !! k, holder s k with
  | None, _ => Absent
  | Some e, Some l => Held (env_epoch e) l
  | Some e, None => if Env.is_terminal e || Env.is_fenced e then Out else Free (env_epoch e)
  end.

(** The epoch moves only by fencing or by an acquire. *)
Definition epoch_kept (e e' : ExecutionEnvironment) : Prop :=
  (env_epoch e' = env_epoch e ∧ env_fenced_at e' = env_fenced_at e) ∨ Env.is_fenced e' = true.

(** ** Lemmas *)

#[global] Instance epoch_kept_preorder : PreOrder epoch_kept.
Proof.
  split; [by left|]. intros e1 e2 e3 H12 [[E F]|?]; [|by right].
  destruct H12 as [[E1 F1]|Hf]; [left; split; congruence|right].
  unfold Env.is_fenced in *. by rewrite F.
Qed.

Lemma holder_Some s k l :
  slot_inv s →
  holder s k = Some l ↔ ∃ row, st_leases s !! l = Some row ∧ unreleased row ∧ lease_environment_id row = k.
Proof.
  intros Hinv. unfold holder, unreleased. split.
  - intros H. apply fmap_Some in H as ([l' row] & Hf & ->). apply btree_find_Some in Hf as [Hl Hp].
    bools. eauto.
  - intros (row & Hl & Hu & He). destruct (btree_find _ _) as [[l' row']|] eqn:Hf.
    + apply btree_find_Some in Hf as [Hl' Hp]. bools. cbn. f_equal.
      apply (si_one_holder _ Hinv l' l row' row); congruence.
    + rewrite btree_find_None in Hf. specialize (Hf l row Hl). cbn in Hf.
      rewrite Hu, bool_decide_true in Hf; done.
Qed.

Lemma holder_None s k : slot_inv s → holder s k = None ↔ ¬ held s k.
Proof.
  intros Hinv. split.
  - intros Hn (l & row & Hl & Hu & He). assert (holder s k = Some l) as H by (apply holder_Some; eauto).
    congruence.
  - intros Hn. destruct (holder s k) as [l|] eqn:H; [|done]. destruct Hn.
    apply holder_Some in H as (row & ? & ? & ?); [|done]. by exists l, row.
Qed.

(** *** Epochs through each command *)

Lemma transition_epoch to now e e' : Env.transition to now e = Ok e' → epoch_kept e e'.
Proof. intros H. pose proof (transition_frame _ _ _ _ H) as F. destruct_and! F. by left. Qed.

Lemma env_update_epoch old new w : environment_update old new = Ok w → epoch_kept old new.
Proof. intros H%environment_update_Ok. destruct_and! H. left. split; congruence. Qed.

Lemma fence_env_epoch id now sr :
  rows_le epoch_kept (st_environments sr.1) (st_environments (fence_env id now sr).1).
Proof.
  destruct sr as [s r]. unfold fence_env. destruct (st_environments s !! id) as [e|] eqn:He; [|reflexivity].
  destruct (_ && _) eqn:Hc; [|reflexivity]. destruct (Env.fence now e) as [[e' n]|] eqn:Hf; [|reflexivity].
  cbn. eapply rows_le_insert; [apply _|exact He|]. right.
  by apply fence_Ok in Hf as (_ & _ & ->).
Qed.

Lemma reclaim_lease_epoch ret now sr lc :
  rows_le epoch_kept (st_environments sr.1) (st_environments (Slots.reclaim_lease ret now sr lc).1).
Proof.
  destruct sr as [s r], lc as [l c]. unfold Slots.reclaim_lease.
  destruct (Lse.release now l) as [l'|]; [|reflexivity].
  match goal with |- context [let '(s, report) := ?X in _] =>
    assert (st_environments X.1 = st_environments s) as HE; [|destruct X as [s2 r2]] end.
  { destruct (_ !! lease_attempt_id l') as [att|]; [|done].
    destruct (settle_attempt_with att true c now) as [att' b].
    destruct (is_some_and _ _); [|done]. etrans; [apply settle_invocation_rows_frame|done]. }
  cbn [fst] in *. destruct (is_some_and _ _); cbn [fst]; [|by rewrite HE].
  rewrite <-HE. apply (fence_env_epoch _ _ (s2, r2)).
Qed.

Lemma epoch_fold {A} (f : State * ReclaimReport → A → State * ReclaimReport) (l : list A) sr :
  (∀ sr a, rows_le epoch_kept (st_environments sr.1) (st_environments (f sr a).1)) →
  rows_le epoch_kept (st_environments sr.1) (st_environments (foldl f sr l).1).
Proof.
  intros Hf. apply (foldl_inv (λ sr', rows_le epoch_kept (st_environments sr.1) (st_environments sr'.1)));
    [reflexivity|]. intros sr1 a _ H. by etrans.
Qed.

Lemma reclaim_owner_epoch ret now sr oc :
  rows_le epoch_kept (st_environments sr.1) (st_environments (Slots.reclaim_owner ret now sr oc).1).
Proof.
  destruct oc as [o c]. unfold Slots.reclaim_owner.
  etrans; [|apply epoch_fold; intros; apply fence_env_epoch].
  apply (epoch_fold (λ sr id, settle_invocation_rows id c ret now sr)). intros [s r] id.
  destruct (settle_invocation_rows_frame id c ret now s r) as (E & _). by rewrite E.
Qed.

Lemma reclaim_epoch cfg r s rep s' :
  Slots.reclaim_expired cfg r s = Ok (rep, s') →
  rows_le epoch_kept (st_environments s) (st_environments s').
Proof.
  unfold Slots.reclaim_expired. intros H. destruct (negb _); [injection H as _ <-; reflexivity|].
  match type of H with context [foldl (Slots.reclaim_lease ?ret ?now) (?s1, ?rep0) ?L] =>
    pose proof (epoch_fold (Slots.reclaim_lease ret now) L (s1, rep0)
      (reclaim_lease_epoch ret now)) as H2 end.
  destruct (foldl (Slots.reclaim_lease _ _) _ _) as [s2 r2].
  match type of H with context [foldl (Slots.reclaim_owner ?ret ?now) (s2, r2) ?L] =>
    pose proof (epoch_fold (Slots.reclaim_owner ret now) L (s2, r2)
      (reclaim_owner_epoch ret now)) as H3 end.
  destruct (foldl (Slots.reclaim_owner _ _) _ _) as [s3 r3]. injection H as _ <-.
  cbn in *. by etrans.
Qed.

(** What a command other than an acquire does to the slots. *)
Record no_new_holder (s s' : State) : Prop := {
  nh_epoch : rows_le epoch_kept (st_environments s) (st_environments s');
  nh_lease : ∀ k l', st_leases s' !! k = Some l' → unreleased l' → is_Some (st_leases s !! k)
}.

Lemma no_new_holder_leases s s' :
  st_environments s' = st_environments s →
  (∀ k l', st_leases s' !! k = Some l' → is_Some (st_leases s !! k)) → no_new_holder s s'.
Proof. intros He Hl. split; [by rewrite He|eauto]. Qed.

Lemma no_new_holder_refl s : no_new_holder s s.
Proof. apply no_new_holder_leases; eauto. Qed.

Lemma no_new_holder_envs s s' :
  st_leases s' = st_leases s → rows_le epoch_kept (st_environments s) (st_environments s') →
  no_new_holder s s'.
Proof. intros Hl He. split; [done|]. rewrite Hl. eauto. Qed.

Lemma no_new_holder_env s k e e' :
  st_environments s !! k = Some e → epoch_kept e e' →
  no_new_holder s (s <| st_environments ::= <[k := e']> |>).
Proof. intros He Hk. apply no_new_holder_envs; [done|]. by eapply rows_le_insert; [apply _|..]. Qed.

Lemma no_new_holder_lease s k l l' :
  st_leases s !! k = Some l → no_new_holder s (s <| st_leases ::= <[k := l']> |>).
Proof.
  intros Hl. apply no_new_holder_leases; [done|]. cbn. intros j l2 Hj.
  destruct (decide (j = k)) as [->|Hne]; [eauto|]. rewrite lookup_insert_ne in Hj by done. eauto.
Qed.
#[local] Hint Resolve no_new_holder_refl no_new_holder_env no_new_holder_lease transition_epoch
  env_update_epoch : slots.

Lemma renew_no_new_holder id ttl now revive s : no_new_holder s (renew_dispatcher id ttl now revive s).2.
Proof.
  unfold renew_dispatcher. destruct (st_dispatchers s !! id); [|apply no_new_holder_refl].
  destruct (_ || _); [apply no_new_holder_refl|]. apply no_new_holder_leases; [done|]. cbn.
  intros k l'. rewrite lookup_fmap, fmap_Some. intros (l & Hl & _). eauto.
Qed.

(** Closes a command that wrote one environment, one lease, or nothing. *)
Ltac one_write old :=
  first [ apply no_new_holder_refl
        | apply (no_new_holder_env _ _ old); [assumption | eauto with slots]
        | apply (no_new_holder_lease _ _ old); assumption ].

Lemma environment_no_new_holder c s s' :
  match c with
  | CInsertEnvironment e => after (EnvironmentRepo.insert e) s = Ok s'
  | CUpdateEnvironment e => after (EnvironmentRepo.update e) s = Ok s'
  | CReuse k o now => after (Slots.claim_for_reuse k o now) s = Ok s'
  | CTakeIdle e now => after (Slots.take_idle_for_termination e now) s = Ok s'
  | CConfirm e ep now => after (Slots.confirm_terminated e ep now) s = Ok s'
  | _ => False
  end → no_new_holder s s'.
Proof.
  intros H. destruct c; try done; unfold after in H; apply result_fmap_Ok in H as ([? ?] & H & <-); cbn [snd].
  - unfold EnvironmentRepo.insert in H. pass H. steps. bools. apply no_new_holder_envs; [done|].
    cbn. by apply rows_le_insert_fresh; [apply _|].
  - unfold EnvironmentRepo.update in H. destruct (st_environments s !! _) as [old|] eqn:Ho; [|done].
    steps. case_bool_decide; one_write old.
  - unfold Slots.claim_for_reuse in H. destruct (btree_find _ _) as [[id old]|] eqn:Hf; [|steps; eauto with slots].
    apply btree_find_Some in Hf as [Hf _].
    destruct (Env.reserve now old) as [e'|] eqn:Hr; steps; [|eauto with slots].
    apply reserve_Ok in Hr as (_ & _ & Hr). one_write old.
  - unfold Slots.take_idle_for_termination in H.
    destruct (st_environments s !! _) as [old|] eqn:Ho; [|steps; eauto with slots].
    destruct (Slots.is_idle old); [|steps; eauto with slots].
    destruct (Env.mark_draining now old) as [e'|] eqn:Hr; steps; one_write old.
  - unfold Slots.confirm_terminated in H.
    destruct (st_environments s !! _) as [old|] eqn:Ho; [|steps; eauto with slots].
    destruct (_ || _ || _); [steps; eauto with slots|].
    destruct (Env.mark_lost _ now old) as [e'|] eqn:Hr; steps; one_write old.
Qed.

Lemma pool_no_new_holder env limits now s out s' :
  slot_inv s → Slots.release_to_pool env limits now s = Ok (out, s') → no_new_holder s s'.
Proof.
  intros Hinv H. unfold Slots.release_to_pool in H.
  destruct (st_environments s !! _) as [old|] eqn:Ho; [|steps; eauto with slots].
  destruct (_ || _ || _ || _); [steps; eauto with slots|].
  destruct (_ || _) in H; [steps; eauto with slots|].
  destruct (Slots.pooled_row env now) as [pooled|]; [|steps; eauto with slots]. steps.
  apply (no_new_holder_env _ _ old); [|eauto with slots].
  apply env_update_row_le in Hm as [[] _ _]. rewrite <-Ho.
  f_equal. rewrite <-(si_env_key _ Hinv _ _ Ho). congruence.
Qed.

Lemma complete_no_new_holder cfg c s s' l w iw :
  slot_inv s → completed cfg c s s' l w iw → no_new_holder s s'.
Proof.
  intros Hinv [Hl _ _ _ _ _ _ ->]. pose proof (si_lease_key _ Hinv _ _ Hl) as Hid.
  unfold Slots.write_completed. set (s1 := s <| st_leases ::= _ |>).
  assert (no_new_holder s s1) as [He Hls] by (apply (no_new_holder_lease _ _ l); cbn; congruence).
  destruct (w == Apply), iw as [[i []]|]; try (by split);
    match goal with |- context [set_binding_expiry ?i ?r ?x] =>
      destruct (set_binding_expiry_frame i r x) as (E1 & E2 & _); split; rewrite ?E1, ?E2; done end.
Qed.

Lemma run_cmd_no_new_holder display cfg c s s' :
  slot_inv s → (∀ r, c ≠ CAcquire r) → run_cmd display cfg c s = Ok s' → no_new_holder s s'.
Proof.
  intros Hinv Hna H. destruct (writes_slots c) eqn:Hw.
  2: { destruct (run_cmd_frame _ _ _ _ _ H) as [_ _ _ Hs]. destruct (Hs Hw) as [E1 E2].
       apply no_new_holder_leases; rewrite ?E2; eauto. }
  pose proof (environment_no_new_holder c s s') as He.
  pose proof (gs_le _ _ (run_cmd_good _ _ _ _ _ Hinv H)) as Hle.
  destruct c; try discriminate Hw; first [exact (He H) | by destruct (Hna r) | clear He];
    cbn [run_cmd] in H; unfold after in H; apply result_fmap_Ok in H as ([out s1] & H & <-);
    cbn [snd] in *.
  - injection H as H. pose proof (renew_no_new_holder d ttl now false s) as Hn. by rewrite H in Hn.
  - injection H as H. pose proof (renew_no_new_holder d ttl now true s) as Hn. by rewrite H in Hn.
  - by eapply pool_no_new_holder.
  - unfold Slots.renew_lease in H. destruct (st_leases s !! l) as [old|] eqn:Ho; [|steps; eauto with slots].
    destruct (_ || _); [steps; eauto with slots|].
    destruct (Lse.renew now ttl old) as [l'|]; steps; one_write old.
  - apply complete_Ok in H as [(_ & ->)|(_ & l & w & iw & H)]; [eauto with slots|].
    by eapply complete_no_new_holder.
  - unfold Slots.release_lease in H. destruct (is_some _); [steps; eauto with slots|].
    destruct (st_leases s !! l) as [old|] eqn:Ho; [|steps; eauto with slots].
    destruct (Lse.release now old) as [l'|]; steps; one_write old.
  - pose proof (reclaim_epoch _ _ _ _ _ H) as He.
    apply reclaim_expired_Ok in H as [(_ & _ & ->)|(_ & [_ _ _ HL])]; [eauto with slots| |done].
    split; [done|]. intros k l' Hk _. rewrite HL in Hk.
    by eapply leases_after_lookup_inv.
Qed.

(** The abstraction, case by case. *)
Lemma slot_of_spec s k :
  slot_inv s →
  match slot_of s k with
  | Absent => st_environments s !! k = None
  | Free n => ∃ e, st_environments s !! k = Some e ∧ env_epoch e = n ∧ ¬ out_of_use e ∧ ¬ held s k
  | Held n l => ∃ e row, st_environments s !! k = Some e ∧ env_epoch e = n ∧
      st_leases s !! l = Some row ∧ unreleased row ∧ lease_environment_id row = k
  | Out => ∃ e, st_environments s !! k = Some e ∧ out_of_use e ∧ ¬ held s k
  end.
Proof.
  intros Hinv. unfold slot_of, out_of_use. destruct (st_environments s !! k) as [e|]; [|done].
  destruct (holder s k) as [l|] eqn:Hh.
  - apply holder_Some in Hh as (row & ? & ? & ?); [|done]. by exists e, row.
  - apply holder_None in Hh; [|done]. destruct (Env.is_terminal e) eqn:?, (Env.is_fenced e) eqn:?;
      cbn; exists e; split_and!; first [done | by left | by right | intros [?|?]; congruence].
Qed.

Lemma slot_of_free s k e :
  slot_inv s → st_environments s !! k = Some e → ¬ held s k →
  slot_of s k = if Env.is_terminal e || Env.is_fenced e then Out else Free (env_epoch e).
Proof. intros Hinv He Hn%holder_None; [|done]. unfold slot_of. by rewrite He, Hn. Qed.

Lemma slot_of_held s k e l row :
  slot_inv s → st_environments s !! k = Some e → st_leases s !! l = Some row → unreleased row →
  lease_environment_id row = k → slot_of s k = Held (env_epoch e) l.
Proof.
  intros Hinv He Hl Hu Hk. unfold slot_of. rewrite He.
  by replace (holder s k) with (Some l) by (symmetry; apply holder_Some; eauto).
Qed.

(** A free slot whose environment was not acquired stays free or goes out. *)
Lemma free_slot_step s' k e e' :
  slot_inv s' → env_row_le e e' → epoch_kept e e' → st_environments s' !! k = Some e' →
  ¬ held s' k → slot_of s' k = Out ∨ (slot_of s' k = Free (env_epoch e) ∧ ¬ out_of_use e').
Proof.
  intros Hinv' _ Hk He' Hn. rewrite (slot_of_free _ _ _ Hinv' He' Hn).
  unfold out_of_use. destruct (Env.is_terminal e') eqn:Ht; [by left|].
  destruct (Env.is_fenced e') eqn:Hf; [by left|right]. cbn. destruct Hk as [[-> _]|?]; [|congruence].
  split; [done|]. by intros [?|?].
Qed.

Lemma out_of_use_row_le e e' : env_row_le e e' → out_of_use e → out_of_use e'.
Proof.
  intros [_ Hf Hx] [Ht|Hfe]; [left; by rewrite (Hf Ht)|right]. unfold Env.is_fenced in *.
  destruct (env_fenced_at e) as [t|]; [|done]. by destruct (Hx t eq_refl) as [-> _].
Qed.

(** A command other than an acquire is a step of every slot. *)
Lemma slot_step_no_acquire s s' k :
  slot_inv s → good_step s s' → no_new_holder s s' → slot_step (slot_of s k) (slot_of s' k).
Proof.
  intros Hinv [Hinv' Hle] [Hep Hls].
  assert (held s' k → ∃ l row, st_leases s !! l = Some row ∧ unreleased row ∧ lease_environment_id row = k ∧
            ∃ row', st_leases s' !! l = Some row' ∧ unreleased row' ∧ lease_environment_id row' = k) as Hback.
  { intros (l & row' & Hl' & Hu' & Hk'). destruct (Hls l row' Hl' Hu') as [row Hl].
    destruct (sl_leases _ _ Hle _ _ Hl) as (row2 & Hl2 & Hrow). assert (row2 = row') as -> by congruence.
    exists l, row. pose proof (lease_le_holder _ _ Hrow) as Hs. unfold same_holder in Hs.
    split_and!; [done|by eapply lease_le_unreleased|congruence|]. by exists row'. }
  pose proof (slot_of_spec s k Hinv) as Hs. destruct (slot_of s k) as [|n|n l|] eqn:Hso.
  - pose proof (slot_of_spec s' k Hinv') as Hs'.
    assert (¬ held s' k) as Hn.
    { intros (l & row & Hl & Hu & Hk & _)%Hback. destruct (si_backed _ Hinv _ _ Hl Hu) as [(e & He & _) _ _].
      congruence. }
    destruct (slot_of s' k) as [|m|m l|]; try constructor.
    destruct Hs' as (e & row & _ & _ & Hl & Hu & Hk). destruct Hn. by exists l, row.
  - destruct Hs as (e & He & <- & _ & Hn). destruct (Hep k e He) as (e1 & He1 & Hk1).
    destruct (sl_environments _ _ Hle k e He) as (e2 & He2 & Hr). assert (e2 = e1) as -> by congruence.
    assert (¬ held s' k) as Hn'. { intros (l & row & Hl & Hu & Hk & _)%Hback. apply Hn. by exists l, row. }
    destruct (free_slot_step s' k e e1) as [->|[-> _]]; try done; constructor.
  - destruct Hs as (e & row & He & <- & Hl & Hu & Hk).
    destruct (Hep k e He) as (e1 & He1 & Hk1).
    destruct (sl_environments _ _ Hle k e He) as (e2 & He2 & Hr). assert (e2 = e1) as -> by congruence.
    destruct (decide (holder s' k = None)) as [Hn%holder_None|Hh]; [|done|].
    + destruct (free_slot_step s' k e e1) as [->|[-> _]]; try done; constructor.
    + destruct (holder s' k) as [l'|] eqn:Hl'; [|done].
      apply holder_Some in Hl' as (row' & Hrow' & Hu' & Hk'); [|done].
      destruct (Hls l' row' Hrow' Hu') as [row0 Hrow0].
      destruct (sl_leases _ _ Hle _ _ Hrow0) as (row2 & Hrow2 & Hlel). assert (row2 = row') as -> by congruence.
      pose proof (lease_le_holder _ _ Hlel) as Hsame. unfold same_holder in Hsame.
      assert (l' = l) as ->.
      { apply (si_one_holder _ Hinv l' l row0 row); [done..|by eapply lease_le_unreleased|done|congruence]. }
      rewrite (slot_of_held s' k e1 l row') by done.
      destruct (si_backed _ Hinv _ _ Hl Hu) as [(e3 & He3 & Hep3 & _) _ _].
      destruct (si_backed _ Hinv' _ _ Hrow' Hu') as [(e4 & He4 & Hep4 & _) _ _].
      replace (env_epoch e1) with (env_epoch e) by congruence. constructor.
  - destruct Hs as (e & He & Ho & Hn).
    destruct (sl_environments _ _ Hle k e He) as (e1 & He1 & Hr).
    assert (¬ held s' k) as Hn'. { intros (l & row & Hl & Hu & Hk & _)%Hback. apply Hn. by exists l, row. }
    rewrite (slot_of_free _ _ _ Hinv' He1 Hn').
    destruct (out_of_use_row_le _ _ Hr Ho) as [-> | ->]; [|rewrite orb_true_r]; constructor.
Qed.

(** An accepted acquire takes its own slot and touches no other. *)
Lemma slot_step_acquire cfg r s s' k :
  slot_inv s → slot_inv s' → acquired cfg r s s' → slot_step (slot_of s k) (slot_of s' k).
Proof.
  intros Hinv Hinv' Hacq. destruct (has_unreleased_lease_after _ _ _ _ Hacq) as [_ Hu].
  destruct Hacq as [(e & He & Ha & _) _ Hfree _ _ Hfresh ->].
  apply has_unreleased_lease_free in Hfree.
  assert (st_environments (Slots.write_acquired r s) = <[env_id (acq_env r) := acq_env r]> (st_environments s) ∧
          st_leases (Slots.write_acquired r s) = <[lease_id (acq_lease r) := acq_lease r]> (st_leases s))
    as [HE HL] by (unfold Slots.write_acquired; by destruct (acq_invocation r)).
  destruct (decide (k = env_id (acq_env r))) as [->|Hne].
  - rewrite (slot_of_free s _ e Hinv He Hfree).
    assert (Env.is_terminal e || Env.is_fenced e = false) as ->.
    { apply orb_false_iff. pose proof (out_of_use_not_acquirable _ _ Ha).
      destruct (Env.is_terminal e), (Env.is_fenced e); tauto. }
    rewrite (slot_of_held _ _ (acq_env r) (lease_id (acq_lease r)) (acq_lease r)).
    + rewrite (aq_env_epoch _ _ Ha), <-(aq_epoch _ _ Ha). constructor.
    + done.
    + rewrite HE. apply lookup_insert_eq.
    + rewrite HL. apply lookup_insert_eq.
    + apply Ha.
    + apply Ha.
  - assert (holder (Slots.write_acquired r s) k = holder s k) as Hh.
    { apply option_eq. intros l. rewrite !holder_Some by done. rewrite HL. split.
      - intros (row & [[<- <-]|[? ?]]%lookup_insert_Some & Hur & Hk); [|eauto].
        destruct Hne. rewrite <-Hk. apply Ha.
      - intros (row & Hl & Hur & Hk). exists row. rewrite lookup_insert_ne by congruence. done. }
    unfold slot_of. rewrite Hh, HE, lookup_insert_ne by done. constructor.
Qed.

(** ** Properties *)

(** C2: The store refines the slot automaton. In every reachable state, each
    command, seen through any one environment, is a step of the automaton: the
    slot is created free or out of use; a free slot is taken under the next epoch,
    or goes out of use; a held slot stays with its lease, is given back at the same
    epoch, or goes out of use; a slot out of use stays so. *)
Theorem store_refines_slots display cfg s s' k :
  store_reachable display cfg s → store_step display cfg s s' →
  slot_step (slot_of s k) (slot_of s' k).
Proof.
  intros Hreach [c H]. pose proof (reachable_inv _ _ _ Hreach) as Hinv.
  pose proof (run_cmd_good _ _ _ _ _ Hinv H) as Hg.
  assert ((∃ r, c = CAcquire r) ∨ ∀ r, c ≠ CAcquire r) as [[r ->]|Hna]
    by (destruct c; first [by right | left; eauto]).
  - cbn [run_cmd] in H. unfold after in H. apply result_fmap_Ok in H as ([out s1] & H & <-).
    apply acquire_Ok in H as [(_ & ->)|(_ & H)]; [constructor|].
    eapply slot_step_acquire; [done|apply Hg|done].
  - eapply slot_step_no_acquire; [done..|]. by eapply run_cmd_no_new_holder.
Qed.

(** ** Witnesses *)

Lemma store_refines_slots_witness : slot_step (Free 0) (Held 1 "lse_a").
Proof.
  assert (slot_of s_ready "env_a" = Free 0 ∧ slot_of s_held "env_a" = Held 1 "lse_a") as [<- <-]
    by (vm_compute; split; reflexivity).
  apply (store_refines_slots display0 cfg0); [apply s_ready_reachable|].
  exists (CAcquire acquire_a). vm_compute. reflexivity.
Defined.
