(* ===== verification/Scaler.v ===== *)
(** * Resources and start control

    [crates/application/src/services/admission/resources.rs] and [scaler.rs]: resource
    vectors and node capacity, the start-rate token bucket, the start-failure circuit
    breaker and the demand estimate. Rust's [f64] is IEEE 754 binary64 (the standard
    library's [spec_float] at precision 53), executable; [exp] has no specified
    precision, so it is a parameter where it is used. *)

From S2P Require Import Prelude Revision.
From Stdlib Require Export SpecFloat.

Open Scope Z_scope.

(** ** Definitions *)

(** [crates/application/src/services/admission/resources.rs:7-13 Resources] *)
Record Resources := mkRes { res_cpu : Z; res_memory : Z; res_storage : Z }.
#[global] Instance Resources_eq_dec : EqDecision Resources.
Proof. solve_decision. Defined.

(** [crates/application/src/services/admission/resources.rs:16-20 ZERO] *)
Definition ZERO : Resources := mkRes 0 0 0.

(** [crates/application/src/services/admission/resources.rs:32-40 plus] *)
Definition plus (a b : Resources) : Resources :=
  mkRes (u64_saturating_add (res_cpu a) (res_cpu b))
    (u64_saturating_add (res_memory a) (res_memory b))
    (u64_saturating_add (res_storage a) (res_storage b)).

(** [crates/application/src/services/admission/resources.rs:42-58 minus] *)
Definition minus (a b : Resources) : Resources :=
  mkRes (u64_saturating_sub (res_cpu a) (res_cpu b))
    (u64_saturating_sub (res_memory a) (res_memory b))
    (u64_saturating_sub (res_storage a) (res_storage b)).

(** [crates/application/src/services/admission/resources.rs:22-30 for_environment] *)
Definition for_environment (profile : ResourceProfile) (overhead : Resources) : Resources :=
  plus (mkRes (cpu_millis profile) (memory_mib profile) (ephemeral_storage_mib profile)) overhead.

(** [crates/application/src/services/admission/resources.rs:61-67 NodeCapacity] *)
Record NodeCapacity := mkCapacity {
  cap_cpu : option Z;
  cap_memory : option Z;
  cap_storage : option Z
}.

(** [crates/application/src/services/admission/resources.rs:70-76 admits] *)
Definition admits (c : NodeCapacity) (used : Resources) : bool :=
  let ok (cap : option Z) (v : Z) := is_none_or cap (λ c, v <=? c) in
  ok (cap_cpu c) (res_cpu used) && ok (cap_memory c) (res_memory used)
  && ok (cap_storage c) (res_storage used).

(** *** Exact sums

    The vectors without saturation, and the range in which the two agree. *)
Definition res_add (a b : Resources) : Resources :=
  mkRes (res_cpu a + res_cpu b) (res_memory a + res_memory b) (res_storage a + res_storage b).
Definition res_nonneg (a : Resources) : Prop := 0 ≤ res_cpu a ∧ 0 ≤ res_memory a ∧ 0 ≤ res_storage a.
Definition res_le (a b : Resources) : Prop :=
  res_cpu a ≤ res_cpu b ∧ res_memory a ≤ res_memory b ∧ res_storage a ≤ res_storage b.
Definition res_bounded (n : Z) (a : Resources) : Prop :=
  (0 ≤ res_cpu a ≤ n) ∧ (0 ≤ res_memory a ≤ n) ∧ (0 ≤ res_storage a ≤ n).

(** ** Lemmas *)

Lemma res_add_comm a b : res_add a b = res_add b a.
Proof. unfold res_add. f_equal; lia. Qed.

Lemma res_add_assoc a b c : res_add a (res_add b c) = res_add (res_add a b) c.
Proof. unfold res_add. cbn. f_equal; lia. Qed.

Lemma res_add_0 a : res_add ZERO a = a.
Proof. by destruct a. Qed.

(** Below the limit, [plus] and [minus] are exact. *)
Lemma plus_exact a b : res_bounded u64_max (res_add a b) → plus a b = res_add a b.
Proof.
  unfold res_bounded, plus, res_add, u64_saturating_add. cbn. intros (? & ? & ?).
  f_equal; lia.
Qed.

Lemma minus_exact a b : res_nonneg a → minus (res_add b a) b = a.
Proof.
  destruct a as [c m s]. unfold res_nonneg, minus, res_add, u64_saturating_sub. cbn. intros (? & ? & ?).
  f_equal; lia.
Qed.

Lemma admits_mono c a b : res_le a b → admits c b = true → admits c a = true.
Proof.
  unfold res_le, admits. intros (L1 & L2 & L3) H. rewrite !andb_true_iff in *.
  destruct H as [[H1 H2] H3].
  destruct (cap_cpu c), (cap_memory c), (cap_storage c); cbn in *;
    rewrite ?Z.leb_le in *; split_and!; first [done | lia].
Qed.

Open Scope Z_scope.

(** ** Definitions *)

Definition f64 : Type := spec_float.
#[global] Instance f64_eq_dec : EqDecision f64.
Proof. solve_decision. Defined.

(** [n as f64]: rounded to nearest, ties to even. *)
Definition f64_of (n : Z) : f64 := binary_normalize 53 1024 n 0 false.
Definition f64_add : f64 → f64 → f64 := SFadd 53 1024.
Definition f64_sub : f64 → f64 → f64 := SFsub 53 1024.
Definition f64_mul : f64 → f64 → f64 := SFmul 53 1024.
Definition f64_div : f64 → f64 → f64 := SFdiv 53 1024.
Definition f64_neg : f64 → f64 := SFopp.

(** A decimal literal [n / 10^k]: both are exact, the quotient is rounded once. *)
Definition f64_lit (n k : Z) : f64 := f64_div (f64_of n) (f64_of (10 ^ k)).

Definition is_nan (x : f64) : bool := match x with S754_nan => true | _ => false end.
Definition f64_lt : f64 → f64 → bool := SFltb.
Definition f64_le : f64 → f64 → bool := SFleb.

(** [x.max(y)] and [x.min(y)] ignore a NaN. *)
Definition f64_max (x y : f64) : f64 :=
  if is_nan x then y else if is_nan y then x else if f64_lt x y then y else x.
Definition f64_min (x y : f64) : f64 :=
  if is_nan x then y else if is_nan y then x else if f64_lt y x then y else x.

(** The integer part towards minus infinity, and the least integer above. *)
Definition floor_Z (s : bool) (m : positive) (e : Z) : Z :=
  let v := if s then Z.neg m else Z.pos m in
  if 0 <=? e then v * 2 ^ e else v / 2 ^ (- e).
Definition ceil_Z (s : bool) (m : positive) (e : Z) : Z := - floor_Z (negb s) m e.

Definition f64_ceil (x : f64) : f64 :=
  match x with
  | S754_finite s m e => if 0 <=? e then x else binary_normalize 53 1024 (ceil_Z s m e) 0 s
  | _ => x
  end.

(** [x as u32]: towards zero, saturating, a NaN is zero. *)
Definition f64_to_u32 (x : f64) : Z :=
  match x with
  | S754_nan | S754_zero _ => 0
  | S754_infinity true => 0
  | S754_infinity false => u32_max
  | S754_finite true _ _ => 0
  | S754_finite false m e => Z.min (floor_Z false m e) u32_max
  end.

(** ** Lemmas *)

Lemma f64_to_u32_range x : 0 ≤ f64_to_u32 x ≤ u32_max.
Proof.
  assert (0 ≤ u32_max) by done.
  destruct x as [s|[]| |[] m e]; cbn -[floor_Z u32_max]; try lia.
  assert (0 ≤ floor_Z false m e); [|lia]. unfold floor_Z.
  destruct (Z.leb_spec 0 e); [|apply Z.div_pos; [lia|apply Z.pow_pos_nonneg; lia]].
  apply Z.mul_nonneg_nonneg; [lia|apply Z.pow_nonneg; lia].
Qed.

(** 0.1 + 0.2 is not 0.3, and 2.5 rounds up to 3. *)
Example f64_sum : bool_decide (f64_add (f64_lit 1 1) (f64_lit 2 1) = f64_lit 3 1) = false.
Proof. vm_compute. reflexivity. Qed.
Example f64_round_up : f64_to_u32 (f64_ceil (f64_lit 25 1)) = 3.
Proof. vm_compute. reflexivity. Qed.

Open Scope string_scope.
Open Scope Z_scope.

(** ** Definitions *)

(** [num_microseconds], [None] outside [i64]. *)
Definition num_microseconds (d : Duration) : option Z :=
  let us := Z.quot d 1000 in
  if (- i64_max - 1 <=? us) && (us <=? i64_max) then Some us else None.

(** [crates/application/src/services/admission/scaler.rs:10-12 secs_between] *)
Definition secs_between (from to : Timestamp) : f64 :=
  f64_max (f64_div (f64_of (unwrap_or (num_microseconds (to - from)) i64_max)) (f64_of 1000000))
    (f64_of 0).

(** *** Start rate *)

(** [crates/application/src/services/admission/scaler.rs:18-25 TokenBucket] *)
Record TokenBucket := mkBucket {
  tb_per_second : f64;
  tb_burst : f64;
  tb_tokens : f64;
  tb_at : option Timestamp
}.
#[global] Instance TokenBucket_eta : Eta TokenBucket := λ r,
  mkBucket (tb_per_second r) (tb_burst r) (tb_tokens r) (tb_at r).

Module Bucket.
(** [crates/application/src/services/admission/scaler.rs:28-35 TokenBucket::new] *)
Definition new (per_second burst : Z) : TokenBucket :=
  mkBucket (f64_of (Z.max per_second 1)) (f64_of (Z.max burst 1)) (f64_of (Z.max burst 1)) None.

(** [crates/application/src/services/admission/scaler.rs:37-44 refill] *)
Definition refill (now : Timestamp) (b : TokenBucket) : TokenBucket :=
  let b := match tb_at b with
           | Some at_ => b <| tb_tokens := f64_min
               (f64_add (tb_tokens b) (f64_mul (secs_between at_ now) (tb_per_second b)))
               (tb_burst b) |>
           | None => b
           end in
  if is_none_or (tb_at b) (λ at_, at_ <? now) then b <| tb_at := Some now |> else b.

(** [crates/application/src/services/admission/scaler.rs:46-50 available] *)
Definition available (now : Timestamp) (b : TokenBucket) : bool * TokenBucket :=
  let b := refill now b in (f64_le (f64_of 1) (tb_tokens b), b).

(** [crates/application/src/services/admission/scaler.rs:52-61 take] *)
Definition take (now : Timestamp) (b : TokenBucket) : bool * TokenBucket :=
  let b := refill now b in
  if f64_le (f64_of 1) (tb_tokens b)
  then (true, b <| tb_tokens := f64_sub (tb_tokens b) (f64_of 1) |>)
  else (false, b).
End Bucket.

(** *** Start failures *)

(** [crates/application/src/services/admission/scaler.rs:82-87 BreakerState] *)
Inductive BreakerState : Type :=
| Closed (consecutive_failures : Z)
| Open (until : Timestamp)
| HalfOpen (probe_in_flight : bool).
#[global] Instance BreakerState_eq_dec : EqDecision BreakerState.
Proof. solve_decision. Defined.

Module BreakerGate.
(** [crates/application/src/services/admission/scaler.rs:89-100 BreakerGate] *)
Inductive t : Type := Allow | Probe | Wait | Reject.
#[global] Instance eq_dec : EqDecision t.
Proof. solve_decision. Defined.
End BreakerGate.

(** [crates/application/src/services/admission/scaler.rs:102-107 CircuitBreaker] *)
Record CircuitBreaker := mkBreaker {
  cb_threshold : Z;
  cb_cooldown : Duration;
  cb_state : BreakerState
}.
#[global] Instance CircuitBreaker_eta : Eta CircuitBreaker := λ r,
  mkBreaker (cb_threshold r) (cb_cooldown r) (cb_state r).

Module Breaker.
(** [crates/application/src/services/admission/scaler.rs:110-118 CircuitBreaker::new] *)
Definition new (threshold cooldown_seconds : Z) : CircuitBreaker :=
  mkBreaker (Z.max threshold 1) (seconds (Z.min cooldown_seconds (i64_max / 1000))) (Closed 0).

(** [crates/application/src/services/admission/scaler.rs:120-129 tick] *)
Definition tick (now : Timestamp) (b : CircuitBreaker) : CircuitBreaker :=
  match cb_state b with
  | Open until => if until <=? now then b <| cb_state := HalfOpen false |> else b
  | _ => b
  end.

(** [crates/application/src/services/admission/scaler.rs:131-134 state] *)
Definition state (now : Timestamp) (b : CircuitBreaker) : BreakerState * CircuitBreaker :=
  let b := tick now b in (cb_state b, b).

(** What the breaker answers in a state. *)
Definition gate_of (s : BreakerState) : BreakerGate.t :=
  match s with
  | Closed _ => BreakerGate.Allow
  | Open _ => BreakerGate.Reject
  | HalfOpen false => BreakerGate.Probe
  | HalfOpen true => BreakerGate.Wait
  end.

(** [crates/application/src/services/admission/scaler.rs:136-148 gate] *)
Definition gate (now : Timestamp) (b : CircuitBreaker) : BreakerGate.t * CircuitBreaker :=
  let b := tick now b in (gate_of (cb_state b), b).

(** [crates/application/src/services/admission/scaler.rs:150-153 is_open] *)
Definition is_open (now : Timestamp) (b : CircuitBreaker) : bool * CircuitBreaker :=
  let '(g, b) := gate now b in (g == BreakerGate.Reject, b).

(** [crates/application/src/services/admission/scaler.rs:155-161 probe_started] *)
Definition probe_started (b : CircuitBreaker) : CircuitBreaker :=
  match cb_state b with HalfOpen _ => b <| cb_state := HalfOpen true |> | _ => b end.

(** [crates/application/src/services/admission/scaler.rs:163-174 probe_abandoned] *)
Definition probe_abandoned (b : CircuitBreaker) : CircuitBreaker :=
  match cb_state b with HalfOpen true => b <| cb_state := HalfOpen false |> | _ => b end.

(** [crates/application/src/services/admission/scaler.rs:176-180 record_success] *)
Definition record_success (b : CircuitBreaker) : CircuitBreaker := b <| cb_state := Closed 0 |>.

(** [crates/application/src/services/admission/scaler.rs:182-212 record_failure] *)
Definition record_failure (now : Timestamp) (b : CircuitBreaker) : bool * CircuitBreaker :=
  let b := tick now b in
  match cb_state b with
  | Closed consecutive_failures =>
      let n := u32_add consecutive_failures 1 in
      if cb_threshold b <=? n
      then (true, b <| cb_state := Open (now + cb_cooldown b) |>)
      else (false, b <| cb_state := Closed n |>)
  | HalfOpen _ => (true, b <| cb_state := Open (now + cb_cooldown b) |>)
  | Open _ => (false, b)
  end.

(** [crates/application/src/services/admission/scaler.rs:214-220 name] *)
Definition name (now : Timestamp) (b : CircuitBreaker) : string * CircuitBreaker :=
  let '(s, b) := state now b in
  (match s with Closed _ => "closed" | Open _ => "open" | HalfOpen _ => "half_open" end, b).
End Breaker.

(** *** Demand *)

(** [crates/application/src/services/admission/scaler.rs:227-236 DemandStats] *)
Record DemandStats := mkStats {
  ds_rate : f64;
  ds_rate_at : option Timestamp;
  ds_avg_duration : option f64
}.
#[global] Instance DemandStats_eta : Eta DemandStats := λ r,
  mkStats (ds_rate r) (ds_rate_at r) (ds_avg_duration r).
Definition stats_default : DemandStats := mkStats (f64_of 0) None None.

Module Demand.
(** [crates/application/src/services/admission/scaler.rs:239-244 decayed] *)
Definition decayed (exp : f64 → f64) (now : Timestamp) (window : f64) (s : DemandStats) : f64 :=
  match ds_rate_at s with
  | Some at_ => f64_mul (ds_rate s) (exp (f64_div (f64_neg (secs_between at_ now)) window))
  | None => f64_of 0
  end.

(** [crates/application/src/services/admission/scaler.rs:246-252 record_arrival] *)
Definition record_arrival (exp : f64 → f64) (now : Timestamp) (window : f64) (s : DemandStats)
    : DemandStats :=
  s <| ds_rate := f64_add (decayed exp now window s) (f64_div (f64_of 1) window) |>
    <| ds_rate_at := Some (match ds_rate_at s with
                           | Some at_ => if now <? at_ then at_ else now
                           | None => now
                           end) |>.

(** [crates/application/src/services/admission/scaler.rs:254-259 record_duration] *)
Definition record_duration (secs : f64) (s : DemandStats) : DemandStats :=
  s <| ds_avg_duration := Some (match ds_avg_duration s with
        | Some avg => f64_add (f64_mul (f64_lit 8 1) avg) (f64_mul (f64_lit 2 1) secs)
        | None => secs
        end) |>.

(** [crates/application/src/services/admission/scaler.rs:261-263 arrival_rate] *)
Definition arrival_rate := decayed.
End Demand.

(** [crates/application/src/services/admission/scaler.rs:270-280 DemandInput] *)
Record DemandInput := mkDemand {
  di_arrival_rate : f64;
  di_avg_duration_seconds : f64;
  di_in_flight : Z;
  di_backlog : Z;
  di_concurrency_per_environment : Z;
  di_min_ready : Z;
  di_max_environments : Z
}.

(** [crates/application/src/services/admission/scaler.rs:282-301 desired_environments] *)
Definition desired_environments (d : DemandInput) : Z :=
  let expected := f64_max (f64_mul (di_arrival_rate d) (di_avg_duration_seconds d))
                    (f64_of (di_in_flight d)) in
  let load := f64_add expected (f64_of (di_backlog d)) in
  let per_env := f64_of (Z.max (di_concurrency_per_environment d) 1) in
  let raw := f64_max (f64_ceil (f64_sub (f64_div load per_env) (f64_lit 1 9))) (f64_of 0) in
  let raw := if f64_lt (f64_of u32_max) raw then u32_max else f64_to_u32 raw in
  let lo := Z.min (di_min_ready d) (di_max_environments d) in
  Z.min (Z.max raw lo) (di_max_environments d).

(** *** The breaker as a state machine *)

(** What happens to a breaker, each at its own instant. *)
Inductive breaker_op : Type :=
| BGate | BProbe | BAbandon | BSuccess | BFailure.
Definition run_breaker (op : breaker_op) (now : Timestamp) (b : CircuitBreaker) : CircuitBreaker :=
  match op with
  | BGate => (Breaker.gate now b).2
  | BProbe => Breaker.probe_started b
  | BAbandon => Breaker.probe_abandoned b
  | BSuccess => Breaker.record_success b
  | BFailure => (Breaker.record_failure now b).2
  end.

(** [n] failures in a row, each at its instant. *)
Fixpoint failures (times : list Timestamp) (b : CircuitBreaker) : CircuitBreaker :=
  match times with
  | [] => b
  | t :: times => failures times (Breaker.record_failure t b).2
  end.

(** ** Lemmas *)

Lemma failures_closed times b n :
  cb_state b = Closed n → 0 ≤ n → n + Z.of_nat (length times) < cb_threshold b →
  cb_threshold b ≤ u32_max →
  failures times b = b <| cb_state := Closed (n + Z.of_nat (length times)) |>.
Proof.
  revert b n. induction times as [|t times IH]; intros b n Hs Hn Hlt Hmax; cbn [failures].
  - cbn. rewrite Z.add_0_r. destruct b; cbn in *. by subst.
  - cbn [length] in Hlt. unfold u32_max in Hmax. unfold Breaker.record_failure, Breaker.tick.
    rewrite !Hs. cbn zeta iota. rewrite ?Hs. rewrite u32_add_small by (unfold u32_max; lia).
    replace (cb_threshold b <=? n + 1) with false by (symmetry; apply Z.leb_gt; lia).
    cbn [snd]. rewrite (IH _ (n + 1)); [|done|lia|cbn; lia|done].
    cbn. do 2 f_equal. lia.
Qed.

(** ** Properties *)

(** The autoscaler's target is always within the revision's limits: at least
    [min_ready] and at most [max_environments] ([max_environments] when the two
    disagree), whatever the estimates are, infinities and NaNs included. *)
Theorem desired_within_limits d :
  0 ≤ di_min_ready d → 0 ≤ di_max_environments d ≤ u32_max →
  Z.min (di_min_ready d) (di_max_environments d) ≤ desired_environments d
    ≤ di_max_environments d.
Proof. intros ? ?. unfold desired_environments. lia. Qed.

(** The circuit breaker opens at the threshold and probes one start at a time.
    A new breaker lets starts through for fewer consecutive failures than the
    threshold; the failure that reaches it opens the breaker, which then refuses
    every start until its cooldown ends and next allows a probe. While a probe
    runs no other start is let through; its failure reopens the breaker for a
    full cooldown, its success closes it. *)
Theorem breaker_opens_and_probes threshold cooldown times now :
  let b := Breaker.new threshold cooldown in
  let opened := (Breaker.record_failure now (failures times b)).2 in
  let until := now + cb_cooldown b in
  Z.of_nat (length times) + 1 = cb_threshold b → cb_threshold b ≤ u32_max →
  (∀ t, (Breaker.gate t (failures times b)).1 = BreakerGate.Allow) ∧
  (Breaker.record_failure now (failures times b)).1 = true ∧
  (∀ t, (Breaker.gate t opened).1 = if until <=? t then BreakerGate.Probe else BreakerGate.Reject) ∧
  (∀ t, until ≤ t →
     let probing := Breaker.probe_started (Breaker.gate t opened).2 in
     (∀ t', (Breaker.gate t' probing).1 = BreakerGate.Wait) ∧
     (∀ t', cb_state (Breaker.record_failure t' probing).2 = Open (t' + cb_cooldown b)) ∧
     (∀ t', (Breaker.gate t' (Breaker.record_success probing)).1 = BreakerGate.Allow)).
Proof.
  intros b opened until Hn Hmax.
  assert (failures times b = b <| cb_state := Closed (Z.of_nat (length times)) |>) as Hf.
  { apply (failures_closed times b 0); [done|lia|lia|done]. }
  assert (Breaker.record_failure now (failures times b) = (true, b <| cb_state := Open until |>)) as Ho.
  { rewrite Hf. unfold Breaker.record_failure. cbn [Breaker.tick cb_state set_field].
    rewrite u32_add_small by lia.
    by replace (cb_threshold _ <=? _) with true by (symmetry; apply Z.leb_le; cbn in *; lia). }
  unfold opened. rewrite Ho. cbn [fst snd]. split_and!; [|done| |].
  - intros t. by rewrite Hf.
  - intros t. unfold Breaker.gate, Breaker.tick. cbn. by destruct (until <=? t).
  - intros t Ht. unfold Breaker.gate, Breaker.tick. cbn.
    replace (until <=? t) with true by (symmetry; by apply Z.leb_le). cbn. done.
Qed.

(** ** Witnesses *)

Definition demand0 : DemandInput := mkDemand S754_nan (f64_lit 5 1) 3 1 1 2 10.

Lemma desired_within_limits_witness : 2 ≤ desired_environments demand0 ≤ 10.
Proof. apply (desired_within_limits demand0); vm_compute; [discriminate | split; discriminate]. Defined.

Lemma breaker_opens_and_probes_witness :
  (Breaker.record_failure 4 (failures [2; 3] (Breaker.new 3 10))).1 = true.
Proof.
  destruct (breaker_opens_and_probes 3 10 [2; 3] 4) as (_ & H & _).
  - reflexivity.
  - vm_compute. discriminate.
  - exact H.
Defined.

(** The examples of the source's own tests. *)
Example desired_takes_the_larger :
  map desired_environments
    [mkDemand (f64_of 0) (f64_of 0) 0 0 1 0 10; mkDemand (f64_of 0) (f64_of 0) 0 7 1 0 10;
     mkDemand (f64_of 4) (f64_lit 5 1) 3 1 1 0 10; mkDemand (f64_of 10) (f64_of 1) 2 5 1 0 10;
     mkDemand (f64_of 0) (f64_of 0) 3 0 2 0 10] = [0; 7; 4; 10; 2].
Proof. vm_compute. reflexivity. Qed.

Definition takes (times : list Timestamp) (b : TokenBucket) : list bool :=
  (foldl (λ '(out, b) t, let '(ok, b) := Bucket.take (milliseconds t) b in (app out [ok], b))
     ([], b) times).1.
Example bucket_limits_bursts :
  takes [0; 0; 0; 0; 400; 500; 500] (Bucket.new 2 3) = [true; true; true; false; false; true; false].
Proof. vm_compute. reflexivity. Qed.
