(* ===== verification/Admission.v ===== *)
(** * Admission: the capacity ledger and the fair queue

    [crates/application/src/services/admission/state.rs], the admission state
    machine behind one lock, with the settings of [admission/config.rs]. Every
    operation takes [now] and is one function of the state; outcomes for waiters
    collect in an outbox. The iteration order of a [HashMap] is unspecified, so it
    is a parameter ([HashOrder]), and so is [exp]. An index or an [expect] that
    finds nothing panics in the source; here it leaves the state as it is, and
    AdmissionInv.v shows that it always finds something. *)

From S2P Require Import Prelude Ids Scaler.

Open Scope string_scope.
Open Scope Z_scope.

(** ** Settings *)

(** [crates/application/src/services/admission/config.rs:18-48 NodeConfig] *)
Record NodeConfig := mkNode {
  node_name : string;
  node_region : option string;
  node_cpu_millis : option Z;
  node_memory_mib : option Z;
  node_ephemeral_storage_mib : option Z;
  vmm_overhead_memory_mib : Z;
  bridge_overhead_memory_mib : Z;
  overhead_cpu_millis : Z;
  overhead_storage_mib : Z
}.

(** [crates/application/src/services/admission/config.rs:51-63 NodeConfig::default] *)
Definition node_default : NodeConfig := mkNode "local" None None None None 16 8 0 0.

(** [crates/application/src/services/admission/config.rs:67-76 overhead] *)
Definition node_overhead (n : NodeConfig) : Resources :=
  mkRes (overhead_cpu_millis n)
    (u64_saturating_add (vmm_overhead_memory_mib n) (bridge_overhead_memory_mib n))
    (overhead_storage_mib n).

(** [crates/application/src/services/admission/config.rs:79-96 TenantQuotaConfig] *)
Record TenantQuotaConfig := mkQuotaConfig {
  qc_max_concurrency : option Z;
  qc_max_queue : option Z;
  qc_weight : option Z;
  qc_required_region : option string
}.

(** [crates/application/src/services/admission/config.rs:98-111 TenantQuotaEntry] *)
Record TenantQuotaEntry := mkQuotaEntry { qe_tenant_id : TenantId; qe_quota : TenantQuotaConfig }.

(** [crates/application/src/services/admission/state.rs:461-476 AdmissionSettings] *)
Record AdmissionSettings := mkSettings {
  set_node : NodeConfig;
  set_max_concurrency : Z;
  set_max_queue : Z;
  set_max_queue_bytes : Z;
  set_queue_timeout_seconds : Z;
  set_tenant_defaults : TenantQuotaConfig;
  set_tenants : list TenantQuotaEntry;
  set_start_rate_per_second : Z;
  set_start_burst : Z;
  set_breaker_threshold : Z;
  set_breaker_cooldown_seconds : Z;
  set_rate_window_seconds : Z
}.

(** ** Decisions *)

Abbreviation WaiterId := Z (only parsing).
Abbreviation ReservationId := Z (only parsing).

Module RejectReason.
(** [crates/application/src/services/admission/state.rs:25-45 RejectReason] *)
Inductive t : Type :=
| Capacity | Quota | QueueFull | QueueDeadline | CircuitOpen | Placement | FunctionDeleted.
#[global] Instance eq_dec : EqDecision t.
Proof. solve_decision. Defined.

(** [crates/application/src/services/admission/state.rs:449-458 ALL] *)
Definition ALL : list t :=
  [Capacity; Quota; QueueFull; QueueDeadline; CircuitOpen; Placement; FunctionDeleted].

(** [crates/application/src/services/admission/state.rs:48-58 as_str] *)
Definition as_str (r : t) : string :=
  match r with
  | Capacity => "capacity"
  | Quota => "quota"
  | QueueFull => "queue_full"
  | QueueDeadline => "queue_deadline"
  | CircuitOpen => "circuit_open"
  | Placement => "placement"
  | FunctionDeleted => "function_deleted"
  end.

#[global] Program Instance countable : Countable t :=
  inj_countable as_str (λ s, List.find (λ r, as_str r == s) ALL) _.
Next Obligation. by intros []. Qed.
End RejectReason.

Module DrainReason.
(** [crates/application/src/services/admission/state.rs:61-68 DrainReason] *)
Inductive t : Type := AliasSwitch | FunctionDeleted.
#[global] Instance eq_dec : EqDecision t.
Proof. solve_decision. Defined.

(** [crates/application/src/services/admission/state.rs:71-76 as_str] *)
Definition as_str (r : t) : string :=
  match r with AliasSwitch => "alias_switch" | FunctionDeleted => "function_deleted" end.
End DrainReason.

(** [crates/application/src/services/admission/state.rs:79-88 ScaleDown] *)
Inductive ScaleDown : Type :=
| ScaleIdle (idle_since : Timestamp)
| ScaleDrain (reason : string).

Module KeepReason.
(** [crates/application/src/services/admission/state.rs:90-105 KeepReason] *)
Inductive t : Type := NotIdle | Queued | Promised | IdleTtl | Cooldown | MinReady.
#[global] Instance eq_dec : EqDecision t.
Proof. solve_decision. Defined.

(** [crates/application/src/services/admission/state.rs:108-117 as_str] *)
Definition as_str (k : t) : string :=
  match k with
  | NotIdle => "not_idle"
  | Queued => "queued"
  | Promised => "promised"
  | IdleTtl => "idle_ttl"
  | Cooldown => "cooldown"
  | MinReady => "min_ready"
  end.
End KeepReason.

(** [crates/application/src/services/admission/state.rs:158-162 Rejection] *)
Record Rejection := mkRejection { rej_reason : RejectReason.t; rej_message : string }.
#[global] Instance Rejection_eq_dec : EqDecision Rejection.
Proof. solve_decision. Defined.

(** [crates/application/src/services/admission/state.rs:120-133 PrestartSkip] *)
Inductive PrestartSkip : Type :=
| Satisfied | NotRouted | WaitersFirst | PrestartBlocked (why : string) | Refused (r : Rejection).

(** [crates/application/src/services/admission/state.rs:135-141 ScaleEvent] *)
Record ScaleEvent := mkScaleEvent { sev_kind : string; sev_reason : string; sev_at : Timestamp }.

(** [crates/application/src/services/admission/state.rs:143-153 ScaleRecord] *)
Record ScaleRecord := mkScaleRecord {
  sr_tenant : TenantId;
  sr_event : ScaleEvent;
  sr_min_ready : Z;
  sr_max_environments : Z;
  sr_idle_ttl_seconds : Z;
  sr_cooldown_seconds : Z
}.
#[global] Instance ScaleRecord_eta : Eta ScaleRecord := λ r,
  mkScaleRecord (sr_tenant r) (sr_event r) (sr_min_ready r) (sr_max_environments r)
    (sr_idle_ttl_seconds r) (sr_cooldown_seconds r).

(** [crates/application/src/services/admission/state.rs:155-156 MAX_SCALE_RECORDS] *)
Definition MAX_SCALE_RECORDS : nat := 4096.

Module BlockReason.
(** [crates/application/src/services/admission/state.rs:173-189 BlockReason] *)
Inductive t : Type := Pending | Capacity | Quota | StartRate | Scaling | Probe.
#[global] Instance eq_dec : EqDecision t.
Proof. solve_decision. Defined.

(** [crates/application/src/services/admission/state.rs:192-199 on_deadline] *)
Definition on_deadline (b : t) : RejectReason.t :=
  match b with
  | Capacity => RejectReason.Capacity
  | Quota => RejectReason.Quota
  | _ => RejectReason.QueueDeadline
  end.
End BlockReason.

(** [crates/application/src/services/admission/state.rs:202-226 Ticket] *)
Record Ticket := mkTicket {
  tk_tenant : TenantId;
  tk_function : FunctionId;
  tk_revision : RevisionId;
  tk_idle_ttl_seconds : Z;
  tk_scale_down_cooldown_seconds : Z;
  tk_resources : Resources;
  tk_max_environments : Z;
  tk_concurrency_per_environment : Z;
  tk_min_ready : Z;
  tk_payload_bytes : Z;
  tk_deadline : Timestamp;
  tk_required_region : option string;
  tk_cold_only : bool
}.

Module GrantKind.
(** [crates/application/src/services/admission/state.rs:228-236 GrantKind] *)
Inductive t : Type := Cold | Warm.
#[global] Instance eq_dec : EqDecision t.
Proof. solve_decision. Defined.
End GrantKind.

(** [crates/application/src/services/admission/state.rs:238-245 Outcome] *)
Inductive Outcome : Type :=
| Granted (reservation : ReservationId) (kind : GrantKind.t)
| Rejected (r : Rejection).

(** ** Reservations *)

Module ResState.
(** [crates/application/src/services/admission/state.rs:247-255 ResState] *)
Inductive t : Type := Promised | Starting | Busy | Parking | Idle | Draining.
#[global] Instance eq_dec : EqDecision t.
Proof. solve_decision. Defined.

(** [crates/application/src/services/admission/state.rs:262-264 in_flight] *)
Definition in_flight (s : t) : bool :=
  match s with Promised | Starting | Busy => true | _ => false end.

(** [crates/application/src/services/admission/state.rs:266-270 holds_resources] *)
Definition holds_resources (s : t) : bool := match s with Promised => false | _ => true end.
End ResState.

(** [crates/application/src/services/admission/state.rs:273-281 Reservation] *)
Record Reservation := mkReservation {
  rs_tenant : TenantId;
  rs_revision : RevisionId;
  rs_resources : Resources;
  rs_state : ResState.t;
  rs_probe : bool
}.
#[global] Instance Reservation_eta : Eta Reservation := λ r,
  mkReservation (rs_tenant r) (rs_revision r) (rs_resources r) (rs_state r) (rs_probe r).

(** [crates/application/src/services/admission/state.rs:283-284 Counts] *)
Record Counts := mkCounts {
  n_promised : Z; n_starting : Z; n_busy : Z; n_parking : Z; n_idle : Z; n_draining : Z }.
#[global] Instance Counts_eta : Eta Counts := λ r,
  mkCounts (n_promised r) (n_starting r) (n_busy r) (n_parking r) (n_idle r) (n_draining r).

Module Cnt.
Definition zero : Counts := mkCounts 0 0 0 0 0 0.

(** [crates/application/src/services/admission/state.rs:287-289 get] *)
Definition get (c : Counts) (s : ResState.t) : Z :=
  match s with
  | ResState.Promised => n_promised c | ResState.Starting => n_starting c
  | ResState.Busy => n_busy c | ResState.Parking => n_parking c
  | ResState.Idle => n_idle c | ResState.Draining => n_draining c
  end.

Definition update (f : Z → Z) (s : ResState.t) (c : Counts) : Counts :=
  match s with
  | ResState.Promised => c <| n_promised ::= f |> | ResState.Starting => c <| n_starting ::= f |>
  | ResState.Busy => c <| n_busy ::= f |> | ResState.Parking => c <| n_parking ::= f |>
  | ResState.Idle => c <| n_idle ::= f |> | ResState.Draining => c <| n_draining ::= f |>
  end.

(** [crates/application/src/services/admission/state.rs:290-292 inc] *)
Definition inc : ResState.t → Counts → Counts := update (λ n, u32_add n 1).
(** [crates/application/src/services/admission/state.rs:293-296 dec] *)
Definition dec : ResState.t → Counts → Counts := update (λ n, Z.max (n - 1) 0).

(** [crates/application/src/services/admission/state.rs:297-299 in_flight] *)
Definition in_flight (c : Counts) : Z :=
  u32_add (u32_add (n_promised c) (n_starting c)) (n_busy c).
(** [crates/application/src/services/admission/state.rs:300-302 is_empty] *)
Definition is_empty (c : Counts) : bool :=
  forallb (Z.eqb 0) [n_promised c; n_starting c; n_busy c; n_parking c; n_idle c; n_draining c].
(** [crates/application/src/services/admission/state.rs:303-310 provisioned] *)
Definition provisioned (c : Counts) : Z :=
  u32_add (u32_add (u32_add (n_starting c) (n_busy c)) (n_idle c)) (n_parking c).
End Cnt.

(** [crates/application/src/services/admission/state.rs:323-338 RevisionEntry] *)
Record RevisionEntry := mkRevEntry {
  re_tenant : TenantId;
  re_max_environments : Z;
  re_concurrency_per_environment : Z;
  re_min_ready : Z;
  re_idle_ttl_seconds : Z;
  re_cooldown_seconds : Z;
  re_last_scale_up : option Timestamp;
  re_counts : Counts;
  re_queued : Z;
  re_stats : DemandStats;
  re_breaker : CircuitBreaker
}.
#[global] Instance RevisionEntry_eta : Eta RevisionEntry := λ r,
  mkRevEntry (re_tenant r) (re_max_environments r) (re_concurrency_per_environment r)
    (re_min_ready r) (re_idle_ttl_seconds r) (re_cooldown_seconds r) (re_last_scale_up r)
    (re_counts r) (re_queued r) (re_stats r) (re_breaker r).

(** [crates/application/src/services/admission/state.rs:340-346 TenantQuota] *)
Record TenantQuota := mkQuota {
  tq_max_concurrency : option Z;
  tq_max_queue : option Z;
  tq_weight : Z;
  tq_required_region : option string
}.

(** [crates/application/src/services/admission/state.rs:348-359 TenantEntry] *)
Record TenantEntry := mkTenant {
  te_quota : TenantQuota;
  te_in_flight : Z;
  te_queue : list WaiterId;
  te_queued_bytes : Z;
  te_last_served : Z;
  te_grants : Z
}.
#[global] Instance TenantEntry_eta : Eta TenantEntry := λ r,
  mkTenant (te_quota r) (te_in_flight r) (te_queue r) (te_queued_bytes r) (te_last_served r)
    (te_grants r).

(** [crates/application/src/services/admission/state.rs:361-370 Waiter] *)
Record Waiter := mkWaiter {
  wt_ticket : Ticket;
  wt_enqueued_at : Timestamp;
  wt_blocked : BlockReason.t;
  wt_coalesced : bool
}.
#[global] Instance Waiter_eta : Eta Waiter := λ r,
  mkWaiter (wt_ticket r) (wt_enqueued_at r) (wt_blocked r) (wt_coalesced r).

(** [crates/application/src/services/admission/state.rs:372-394 AdmissionCounters] *)
Record AdmissionCounters := mkCounters {
  ct_arrivals : Z;
  ct_grants_cold : Z;
  ct_grants_warm : Z;
  ct_coalesced_waits : Z;
  ct_starts_avoided : Z;
  ct_start_successes : Z;
  ct_start_failures : Z;
  ct_breaker_opens : Z;
  ct_scale_events : gmap (string * string) Z
}.
#[global] Instance AdmissionCounters_eta : Eta AdmissionCounters := λ r,
  mkCounters (ct_arrivals r) (ct_grants_cold r) (ct_grants_warm r) (ct_coalesced_waits r)
    (ct_starts_avoided r) (ct_start_successes r) (ct_start_failures r) (ct_breaker_opens r)
    (ct_scale_events r).

(** [crates/application/src/services/admission/state.rs:478-509 AdmissionState] *)
Record AdmissionState := mkAdmission {
  ad_settings : AdmissionSettings;
  ad_capacity : NodeCapacity;
  ad_overhead : Resources;
  ad_tenant_quotas : gmap TenantId TenantQuota;
  ad_reserved : Resources;
  ad_counts : Counts;
  ad_reservations : gmap ReservationId Reservation;
  ad_revisions : gmap RevisionId RevisionEntry;
  ad_tenants : gmap TenantId TenantEntry;
  ad_waiters : gmap WaiterId Waiter;
  ad_queued : Z;
  ad_queued_bytes : Z;
  ad_bucket : TokenBucket;
  ad_next_id : Z;
  ad_serve_seq : Z;
  ad_outbox : list (WaiterId * Outcome);
  ad_eviction_requested : bool;
  ad_evictions : Z;
  ad_rejections : gmap RejectReason.t Z;
  ad_routed : gset RevisionId;
  ad_drains : gmap RevisionId DrainReason.t;
  ad_scale_records : gmap RevisionId ScaleRecord;
  ad_counters : AdmissionCounters
}.
#[global] Instance AdmissionState_eta : Eta AdmissionState := λ r,
  mkAdmission (ad_settings r) (ad_capacity r) (ad_overhead r) (ad_tenant_quotas r) (ad_reserved r)
    (ad_counts r) (ad_reservations r) (ad_revisions r) (ad_tenants r) (ad_waiters r) (ad_queued r)
    (ad_queued_bytes r) (ad_bucket r) (ad_next_id r) (ad_serve_seq r) (ad_outbox r)
    (ad_eviction_requested r) (ad_evictions r) (ad_rejections r) (ad_routed r) (ad_drains r)
    (ad_scale_records r) (ad_counters r).

(** The order in which a [HashMap] of the state is iterated: some permutation. *)
Class HashOrder := {
  hash_waiters : gmap WaiterId Waiter → list (WaiterId * Waiter);
  hash_waiters_perm : ∀ m, hash_waiters m ≡ₚ map_to_list m;
  hash_records : gmap RevisionId ScaleRecord → list (RevisionId * ScaleRecord);
  hash_records_perm : ∀ m, hash_records m ≡ₚ map_to_list m
}.

(** ** Rejections *)

Definition function_deleted (revision : RevisionId) : Rejection :=
  mkRejection RejectReason.FunctionDeleted
    ("the function of revision " +:+ revision +:+ " is being deleted; new work is refused "
       +:+ "(work already running completes)").

Definition circuit_open (revision : RevisionId) : Rejection :=
  mkRejection RejectReason.CircuitOpen
    ("revision " +:+ revision +:+ " failed to start repeatedly; starts are paused "
       +:+ "(circuit breaker open)").

(** [{:?}] of [Resources]. *)
Definition debug_resources (r : Resources) : string :=
  "Resources { cpu_millis: " +:+ pretty (res_cpu r) +:+ ", memory_mib: " +:+ pretty (res_memory r)
    +:+ ", ephemeral_storage_mib: " +:+ pretty (res_storage r) +:+ " }".

(** The milliseconds a waiter waited. *)
Definition waited_ms (now : Timestamp) (w : Waiter) : Z :=
  Z.max (Z.quot (now - wt_enqueued_at w) 1000000) 0.

(** ** Operations *)

Module Adm.
Section Adm.
Context (exp : f64 → f64) `{HO : !HashOrder}.
Implicit Types (s : AdmissionState) (now : Timestamp).

(** *** Settings *)

Definition quota_of (defaults : TenantQuotaConfig) : TenantQuota :=
  mkQuota (qc_max_concurrency defaults) (qc_max_queue defaults)
    (Z.max (unwrap_or (qc_weight defaults) 1) 1) (qc_required_region defaults).

(** The quota of one [[capacity.tenants]] entry, resolved against the defaults. *)
Definition entry_quota (defaults : TenantQuota) (q : TenantQuotaConfig) : TenantQuota :=
  mkQuota (or_else (qc_max_concurrency q) (tq_max_concurrency defaults))
    (or_else (qc_max_queue q) (tq_max_queue defaults))
    (Z.max (unwrap_or (qc_weight q) (tq_weight defaults)) 1)
    (or_else (qc_required_region q) (tq_required_region defaults)).

(** [crates/application/src/services/admission/state.rs:522-577 new] *)
Definition new (settings : AdmissionSettings) : AdmissionState :=
  let defaults := quota_of (set_tenant_defaults settings) in
  let node := set_node settings in
  {| ad_settings := settings;
     ad_capacity := mkCapacity (node_cpu_millis node) (node_memory_mib node)
                      (node_ephemeral_storage_mib node);
     ad_overhead := node_overhead node;
     ad_tenant_quotas := foldl (λ m t, <[qe_tenant_id t := entry_quota defaults (qe_quota t)]> m) ∅
                           (set_tenants settings);
     ad_reserved := ZERO; ad_counts := Cnt.zero; ad_reservations := ∅; ad_revisions := ∅;
     ad_tenants := ∅; ad_waiters := ∅; ad_queued := 0; ad_queued_bytes := 0;
     ad_bucket := Bucket.new (set_start_rate_per_second settings) (set_start_burst settings);
     ad_next_id := 0; ad_serve_seq := 0; ad_outbox := []; ad_eviction_requested := false;
     ad_evictions := 0; ad_rejections := ∅; ad_routed := ∅; ad_drains := ∅;
     ad_scale_records := ∅; ad_counters := mkCounters 0 0 0 0 0 0 0 0 ∅ |}.

(** [crates/application/src/services/admission/state.rs:583-585 take_outbox] *)
Definition take_outbox s : list (WaiterId * Outcome) * AdmissionState :=
  (ad_outbox s, s <| ad_outbox := [] |>).

(** [crates/application/src/services/admission/state.rs:587-590 take_evictions] *)
Definition take_evictions s : Z * AdmissionState := (ad_evictions s, s <| ad_evictions := 0 |>).

(** [crates/application/src/services/admission/state.rs:592-594 queue_len] *)
Definition queue_len s : Z := ad_queued s.
(** [crates/application/src/services/admission/state.rs:596-598 is_queued] *)
Definition is_queued (id : WaiterId) s : bool := is_some (ad_waiters s !! id).
(** [crates/application/src/services/admission/state.rs:600-603 peek_next_waiter_id] *)
Definition peek_next_waiter_id s : WaiterId := u64_add (ad_next_id s) 1.

(** [crates/application/src/services/admission/state.rs:605-608 next] *)
Definition next s : Z * AdmissionState :=
  let id := u64_add (ad_next_id s) 1 in (id, s <| ad_next_id := id |>).

(** [crates/application/src/services/admission/state.rs:610-620 quota_for] *)
Definition quota_for (tenant : TenantId) s : TenantQuota :=
  unwrap_or (ad_tenant_quotas s !! tenant) (quota_of (set_tenant_defaults (ad_settings s))).

(** [crates/application/src/services/admission/state.rs:622-638 tenant_entry] The entry,
    made when it is missing, and changed by [f]. *)
Definition tenant_entry (tenant : TenantId) (f : TenantEntry → TenantEntry) s : AdmissionState :=
  let entry := unwrap_or (ad_tenants s !! tenant) (mkTenant (quota_for tenant s) 0 [] 0 0 0) in
  s <| ad_tenants ::= <[tenant := f entry]> |>.

(** [crates/application/src/services/admission/state.rs:640-665 revision_entry] The entry,
    made when it is missing, brought up to date with the ticket and changed by [f]. *)
Definition revision_entry (t : Ticket) (f : RevisionEntry → RevisionEntry) s : AdmissionState :=
  let st := ad_settings s in
  let e := unwrap_or (ad_revisions s !! tk_revision t)
             (mkRevEntry (tk_tenant t) (tk_max_environments t) (tk_concurrency_per_environment t)
                (tk_min_ready t) (tk_idle_ttl_seconds t) (tk_scale_down_cooldown_seconds t) None
                Cnt.zero 0 stats_default
                (Breaker.new (set_breaker_threshold st) (set_breaker_cooldown_seconds st))) in
  let e := e <| re_max_environments := Z.max (tk_max_environments t) 1 |>
             <| re_concurrency_per_environment := Z.max (tk_concurrency_per_environment t) 1 |>
             <| re_min_ready := tk_min_ready t |>
             <| re_idle_ttl_seconds := tk_idle_ttl_seconds t |>
             <| re_cooldown_seconds := tk_scale_down_cooldown_seconds t |> in
  s <| ad_revisions ::= <[tk_revision t := f e]> |>.

(** [if let Some(rev) = revisions.get_mut(id)] *)
Definition on_revision (id : RevisionId) (f : RevisionEntry → RevisionEntry) s : AdmissionState :=
  s <| ad_revisions ::= alter f id |>.

(** *** Reports *)

Definition bump (k : string * string) (m : gmap (string * string) Z) : gmap (string * string) Z :=
  <[k := u64_add (unwrap_or (m !! k) 0) 1]> m.

(** The first record that is oldest, [min_by_key]. *)
Definition oldest (l : list (RevisionId * ScaleRecord)) : option RevisionId :=
  fst <$> foldl (λ (best : option (RevisionId * ScaleRecord)) e,
             match best with
             | Some b => if sev_at (sr_event e.2) <? sev_at (sr_event b.2) then Some e else best
             | None => Some e
             end) None l.

(** [crates/application/src/services/admission/state.rs:667-712 record_scale] *)
Definition record_scale (revision : RevisionId) (kind reason : string) now s : AdmissionState :=
  let s := s <| ad_counters ::= λ c, c <| ct_scale_events ::= bump (kind, reason) |> |> in
  let event := mkScaleEvent kind reason now in
  match ad_revisions s !! revision with
  | None => s <| ad_scale_records ::= alter (λ r, r <| sr_event := event |>) revision |>
  | Some rev =>
      let record := mkScaleRecord (re_tenant rev) event (re_min_ready rev)
                      (re_max_environments rev) (re_idle_ttl_seconds rev) (re_cooldown_seconds rev) in
      let records :=
        if bool_decide (MAX_SCALE_RECORDS <= size (ad_scale_records s))%nat
           && is_none (ad_scale_records s !! revision)
        then match oldest (List.filter (λ e, is_none (ad_revisions s !! e.1))
                             (hash_records (ad_scale_records s))) with
             | Some id => base.delete id (ad_scale_records s)
             | None => ad_scale_records s
             end
        else ad_scale_records s in
      s <| ad_scale_records := <[revision := record]> records |>
  end.

(** [crates/application/src/services/admission/state.rs:714-716 reject_count] *)
Definition reject_count (reason : RejectReason.t) s : AdmissionState :=
  s <| ad_rejections ::= λ m, <[reason := u64_add (unwrap_or (m !! reason) 0) 1]> m |>.

(** [crates/application/src/services/admission/state.rs:718-720 window] *)
Definition window s : f64 := f64_of (Z.max (set_rate_window_seconds (ad_settings s)) 1).

(** *** The queue *)

(** [crates/application/src/services/admission/state.rs:880-892 remove_waiter] *)
Definition remove_waiter (id : WaiterId) s : option Waiter * AdmissionState :=
  match ad_waiters s !! id with
  | None => (None, s)
  | Some w =>
      let t := wt_ticket w in
      let s := s <| ad_waiters ::= base.delete id |>
                 <| ad_tenants ::= alter (λ e, e <| te_queue ::= List.filter (λ x, negb (x =? id)) |>
                      <| te_queued_bytes ::= λ n, u64_sub n (tk_payload_bytes t) |>) (tk_tenant t) |>
                 <| ad_revisions ::= alter (λ r, r <| re_queued ::= λ n, Z.max (n - 1) 0 |>)
                      (tk_revision t) |>
                 <| ad_queued ::= λ n, u64_sub n 1 |>
                 <| ad_queued_bytes ::= λ n, u64_sub n (tk_payload_bytes t) |> in
      (Some w, s)
  end.

(** [crates/application/src/services/admission/state.rs:875-878 withdraw] *)
Definition withdraw (id : WaiterId) s : option BlockReason.t * AdmissionState :=
  let '(w, s) := remove_waiter id s in (wt_blocked <$> w, s).

(** [outbox.push((id, outcome))] *)
Definition answer (id : WaiterId) (o : Outcome) s : AdmissionState :=
  s <| ad_outbox ::= λ l, app l [(id, o)] |>.

(** Removes a waiter and answers it with a rejection. *)
Definition refuse_waiter (id : WaiterId) (r : Rejection) s : AdmissionState :=
  answer id (Rejected r) (reject_count (rej_reason r) (remove_waiter id s).2).

(** Why a waiter whose deadline passed is refused. *)
Definition expired_rejection now (w : Waiter) : Rejection :=
  let reason := BlockReason.on_deadline (wt_blocked w) in
  mkRejection reason
    ("queue deadline passed after " +:+ pretty (waited_ms now w) +:+ " ms waiting ("
       +:+ RejectReason.as_str reason +:+ ")").

(** The waiters that satisfy [p], in the order the map is iterated. *)
Definition waiters_where (p : Waiter → bool) s : list WaiterId :=
  map fst (List.filter (λ e, p e.2) (hash_waiters (ad_waiters s))).

(** [crates/application/src/services/admission/state.rs:894-920 expire] *)
Definition expire now s : AdmissionState :=
  foldl (λ s id, match ad_waiters s !! id with
                 | Some w => refuse_waiter id (expired_rejection now w) s
                 | None => s
                 end) s (waiters_where (λ w, tk_deadline (wt_ticket w) <=? now) s).

(** Refuses every waiter of a revision. *)
Definition refuse_revision (revision : RevisionId) (r : Rejection) s : AdmissionState :=
  foldl (λ s id, refuse_waiter id r s) s
    (waiters_where (λ w, tk_revision (wt_ticket w) == revision) s).

(** *** Reservations *)

(** [crates/application/src/services/admission/state.rs:1131-1160 account] *)
Definition account (r : Reservation) (add : bool) s : AdmissionState :=
  let st := rs_state r in
  let count := if add then Cnt.inc st else Cnt.dec st in
  let s := s <| ad_counts ::= count |> in
  let s := if ResState.holds_resources st
           then s <| ad_reserved ::= λ a, if add then plus a (rs_resources r)
                                          else minus a (rs_resources r) |>
           else s in
  let s := if ResState.in_flight st
           then tenant_entry (rs_tenant r)
                  (λ t, t <| te_in_flight ::= λ n, if add then u64_add n 1 else u64_sub n 1 |>) s
           else s in
  on_revision (rs_revision r) (λ rev, rev <| re_counts ::= count |>) s.

(** [crates/application/src/services/admission/state.rs:1162-1165 insert_reservation] *)
Definition insert_reservation (id : ReservationId) (r : Reservation) s : AdmissionState :=
  account r true s <| ad_reservations ::= <[id := r]> |>.

(** The reservation of [id] leaves the ledger. *)
Definition remove_reservation (id : ReservationId) (r : Reservation) s : AdmissionState :=
  account r false (s <| ad_reservations ::= base.delete id |>).

(** [crates/application/src/services/admission/state.rs:1167-1179 set_state] *)
Definition set_state (id : ReservationId) (to : ResState.t) s : AdmissionState :=
  match ad_reservations s !! id with
  | None => s
  | Some r =>
      when! rs_state r == to return! s;;
      let s := account r false s in
      let r := r <| rs_state := to |> in
      account r true s <| ad_reservations ::= <[id := r]> |>
  end.

(** *** The scheduler *)

(** [crates/application/src/services/admission/state.rs:1870-1875 Eval] *)
Inductive Eval : Type :=
| EGrant (kind : GrantKind.t)
| EReject (r : Rejection)
| EBlocked (reason : BlockReason.t) (node_wide : bool).

(** The demand of a revision for one more waiter, under the tenant's quota. *)
Definition demand now (rev : RevisionEntry) (tenant_max : option Z) s : DemandInput :=
  mkDemand (Demand.arrival_rate exp now (window s) (re_stats rev))
    (unwrap_or (ds_avg_duration (re_stats rev)) (f64_of 0))
    (Cnt.in_flight (re_counts rev)) (re_queued rev) (re_concurrency_per_environment rev)
    (re_min_ready rev)
    (match tenant_max with
     | None => re_max_environments rev
     | Some m => Z.min (re_max_environments rev) (m mod 2 ^ 32)
     end).

(** [crates/application/src/services/admission/state.rs:991-1060 evaluate] *)
Definition evaluate (id : WaiterId) now (node_block : option BlockReason.t) s
    : Eval * AdmissionState :=
  let blocked reason node_wide s := (EBlocked reason node_wide, s) in
  match ad_waiters s !! id with
  | None => blocked BlockReason.Pending false s
  | Some w =>
  let t := wt_ticket w in
  when! bool_decide (ad_drains s !! tk_revision t = Some DrainReason.FunctionDeleted) return!
    (EReject (function_deleted (tk_revision t)), s);;
  match ad_tenants s !! tk_tenant t, ad_revisions s !! tk_revision t with
  | Some tenant, Some rev =>
      let tenant_max := tq_max_concurrency (te_quota tenant) in
      let '(gate, breaker) := Breaker.gate now (re_breaker rev) in
      let rev := rev <| re_breaker := breaker |> in
      let s := s <| ad_revisions ::= <[tk_revision t := rev]> |> in
      let counts := re_counts rev in
      when! gate == BreakerGate.Reject return! (EReject (circuit_open (tk_revision t)), s);;
      when! is_some_and tenant_max (λ m, m <=? te_in_flight tenant)
            || (re_max_environments rev <=? Cnt.in_flight counts) return!
        blocked BlockReason.Quota false s;;
      when! set_max_concurrency (ad_settings s) <=? Cnt.in_flight (ad_counts s) return!
        blocked BlockReason.Capacity true s;;
      when! negb (tk_cold_only t) && (n_promised counts <? n_idle counts) return!
        (EGrant GrantKind.Warm, s);;
      match node_block with
      | Some block => blocked block false s
      | None =>
          when! gate == BreakerGate.Wait return! blocked BlockReason.Probe false s;;
          let desired := desired_environments (demand now rev tenant_max s) in
          let provisioned := u32_add (u32_add (u32_add (n_starting counts) (n_busy counts))
                               (n_idle counts)) (n_parking counts) in
          when! desired <=? provisioned return! blocked BlockReason.Scaling false s;;
          when! negb (admits (ad_capacity s) (plus (ad_reserved s) (tk_resources t))) return!
            blocked BlockReason.Capacity true
              (if (0 <? n_idle (ad_counts s)) && negb (ad_eviction_requested s)
               then s <| ad_eviction_requested := true |> <| ad_evictions ::= λ n, u64_add n 1 |>
               else s);;
          let '(available, bucket) := Bucket.available now (ad_bucket s) in
          let s := s <| ad_bucket := bucket |> in
          when! negb available return! blocked BlockReason.StartRate true s;;
          (EGrant GrantKind.Cold, s)
      end
  | _, _ => blocked BlockReason.Pending false s
  end
  end.

(** What a cold grant reserves: the token, the probe, the record of the decision. *)
Definition start_cold (t : Ticket) now s : bool * AdmissionState :=
  let s := s <| ad_bucket ::= λ b, (Bucket.take now b).2 |> in
  match ad_revisions s !! tk_revision t with
  | None => (false, s)
  | Some rev =>
      let '(gate, breaker) := Breaker.gate now (re_breaker rev) in
      let probe := gate == BreakerGate.Probe in
      let breaker := if probe then Breaker.probe_started breaker else breaker in
      let kind := if Cnt.provisioned (re_counts rev) =? 0 then "activation" else "scale_up" in
      let s := on_revision (tk_revision t) (λ rev, rev <| re_breaker := breaker |>
                                                       <| re_last_scale_up := Some now |>) s in
      (probe, record_scale (tk_revision t) kind "backlog" now s)
  end.

(** What a grant adds to the counters. *)
Definition count_grant (kind : GrantKind.t) (w : Waiter) (c : AdmissionCounters)
    : AdmissionCounters :=
  let c := match kind with
           | GrantKind.Cold => c <| ct_grants_cold ::= λ n, u64_add n 1 |>
           | GrantKind.Warm => c <| ct_grants_warm ::= λ n, u64_add n 1 |>
           end in
  if wt_coalesced w then
    let c := c <| ct_coalesced_waits ::= λ n, u64_add n 1 |> in
    if kind == GrantKind.Warm then c <| ct_starts_avoided ::= λ n, u64_add n 1 |> else c
  else c.

(** The tenant was served: the order of tenants depends on it. *)
Definition serve (tenant : TenantId) s : AdmissionState :=
  let seq := u64_add (ad_serve_seq s) 1 in
  tenant_entry tenant (λ e, e <| te_last_served := seq |> <| te_grants ::= λ n, u64_add n 1 |>)
    (s <| ad_serve_seq := seq |>).

(** [crates/application/src/services/admission/state.rs:1062-1125 grant] *)
Definition grant (id : WaiterId) (kind : GrantKind.t) now s : AdmissionState :=
  match remove_waiter id s with
  | (None, s) => s
  | (Some w, s) =>
      let s := s <| ad_counters ::= count_grant kind w |> in
      let t := wt_ticket w in
      let '(state, probe, s) :=
        match kind with
        | GrantKind.Warm => (ResState.Promised, false, s)
        | GrantKind.Cold => let '(probe, s) := start_cold t now s in (ResState.Starting, probe, s)
        end in
      let '(rid, s) := next s in
      let r := mkReservation (tk_tenant t) (tk_revision t) (tk_resources t) state probe in
      answer id (Granted rid kind) (serve (tk_tenant t) (insert_reservation rid r s))
  end.

(** What one pass of the scheduler decides. *)
Definition decision : Type := option (WaiterId * (GrantKind.t + Rejection)).

(** A waiter is left in the queue, blocked for [reason]. *)
Definition mark_blocked (id : WaiterId) (reason : BlockReason.t) s : AdmissionState :=
  s <| ad_waiters ::= alter (λ w, w <| wt_blocked := reason |>
         <| wt_coalesced ::= λ c, c || (reason == BlockReason.Scaling) |>) id |>.

(** [crates/application/src/services/admission/state.rs:957-977 pump (waiters)] The waiters
    of one tenant, in order, until one is decided. *)
Fixpoint scan_queue (ids : list WaiterId) now (node_block : option BlockReason.t) s
    : decision * option BlockReason.t * AdmissionState :=
  match ids with
  | [] => (None, node_block, s)
  | id :: ids =>
      match evaluate id now node_block s with
      | (EGrant kind, s) => (Some (id, inl kind), node_block, s)
      | (EReject r, s) => (Some (id, inr r), node_block, s)
      | (EBlocked reason node_wide, s) =>
          let s := mark_blocked id reason s in
          let node_block := if node_wide && is_none node_block then Some reason else node_block in
          scan_queue ids now node_block s
      end
  end.

(** [crates/application/src/services/admission/state.rs:955-978 pump (tenants)] *)
Fixpoint scan_tenants (order : list TenantId) now (node_block : option BlockReason.t) s
    : decision * AdmissionState :=
  match order with
  | [] => (None, s)
  | tenant :: order =>
      let ids := from_option te_queue [] (ad_tenants s !! tenant) in
      match scan_queue ids now node_block s with
      | (Some d, _, s) => (Some d, s)
      | (None, node_block, s) => scan_tenants order now node_block s
      end
  end.

(** Least attained service first, then who was served least recently, then by id. *)
Definition share (e : TenantEntry) : Z :=
  u64_saturating_mul (te_in_flight e) 1000000 / tq_weight (te_quota e).
Definition fairer (a b : TenantId * TenantEntry) : bool :=
  (share a.2 <? share b.2)
  || ((share a.2 =? share b.2)
      && ((te_last_served a.2 <? te_last_served b.2)
          || ((te_last_served a.2 =? te_last_served b.2) && String.leb a.1 b.1))).

(** [crates/application/src/services/admission/state.rs:938-950 pump (order)] *)
Definition pump_order s : list TenantId :=
  map fst (sort_by fairer
    (List.filter (λ e, negb (bool_decide (te_queue e.2 = []))) (btree_entries (ad_tenants s)))).

(** One turn of the scheduler: expire, then decide at most one waiter. *)
Definition pump_decide now s : decision * AdmissionState :=
  let s := expire now s in scan_tenants (pump_order s) now None s.

Definition pump_apply (d : WaiterId * (GrantKind.t + Rejection)) now s : AdmissionState :=
  match d with
  | (id, inl kind) => grant id kind now s
  | (id, inr r) => refuse_waiter id r s
  end.

(** [crates/application/src/services/admission/state.rs:936-988 pump (loop)] *)
Fixpoint pump_loop (fuel : nat) now s : AdmissionState :=
  match fuel with
  | O => s
  | S fuel =>
      match pump_decide now s with
      | (Some d, s) => pump_loop fuel now (pump_apply d now s)
      | (None, s) => s
      end
  end.

(** [crates/application/src/services/admission/state.rs:926-989 pump] Every turn takes a
    waiter out of the queue, so there are no more turns than waiters, and a last one. *)
Definition pump now s : AdmissionState := pump_loop (S (size (ad_waiters s))) now s.

(** *** Arrivals *)

Definition placement_refused (required : string) s : Rejection :=
  let node := set_node (ad_settings s) in
  mkRejection RejectReason.Placement
    ("placement requires region `" +:+ required +:+ "` but node `" +:+ node_name node +:+ "` is in "
       +:+ match node_region node with
           | Some r => "region `" +:+ r +:+ "`"
           | None => "no region"
           end +:+ "; the constraint is never relaxed").

Definition too_large (t : Ticket) s : Rejection :=
  mkRejection RejectReason.Capacity
    ("one environment needs " +:+ debug_resources (tk_resources t)
       +:+ " including overhead, more than node `" +:+ node_name (set_node (ad_settings s))
       +:+ "` has").

(** [crates/application/src/services/admission/state.rs:828-873 check_static] The breaker of
    the revision is brought up to [now] on the way. *)
Definition check_static (t : Ticket) now s : result Rejection unit * AdmissionState :=
  let quota := quota_for (tk_tenant t) s in
  let region := node_region (set_node (ad_settings s)) in
  match List.find (λ required, region != Some required)
          (omap id [tq_required_region quota; tk_required_region t]) with
  | Some required => (Err (placement_refused required s), s)
  | None =>
      when! bool_decide (ad_drains s !! tk_revision t = Some DrainReason.FunctionDeleted) return!
        (Err (function_deleted (tk_revision t)), s);;
      let '(open, s) :=
        match ad_revisions s !! tk_revision t with
        | Some rev =>
            let '(open, breaker) := Breaker.is_open now (re_breaker rev) in
            (open, on_revision (tk_revision t) (λ rev, rev <| re_breaker := breaker |>) s)
        | None => (false, s)
        end in
      when! open return! (Err (circuit_open (tk_revision t)), s);;
      when! negb (admits (ad_capacity s) (tk_resources t)) return! (Err (too_large t s), s);;
      when! tq_max_concurrency quota == Some 0 return!
        (Err (mkRejection RejectReason.Quota "tenant quota is zero"), s);;
      (Ok tt, s)
  end.

(** [crates/application/src/services/admission/state.rs:820-826 precheck] *)
Definition precheck (t : Ticket) now s : result Rejection unit * AdmissionState :=
  match check_static t now s with
  | (Ok u, s) => (Ok u, s)
  | (Err r, s) => (Err r, reject_count (rej_reason r) s)
  end.

(** The limit that a newcomer who is still waiting breaks, if any. *)
Definition queue_limit (t : Ticket) s : option Rejection :=
  let st := ad_settings s in
  let slots n := pretty n +:+ " slots) is full" in
  match ad_tenants s !! tk_tenant t with
  | None => None
  | Some e =>
      if is_some_and (tq_max_queue (te_quota e)) (λ max, max <? Z.of_nat (length (te_queue e)))
      then Some (mkRejection RejectReason.Quota
             ("the tenant's wait queue (" +:+ slots (unwrap_or (tq_max_queue (te_quota e)) 0)))
      else if set_max_queue st <? ad_queued s
      then Some (mkRejection RejectReason.QueueFull
             ("no capacity available and the wait queue (" +:+ slots (set_max_queue st)))
      else if set_max_queue_bytes st <? ad_queued_bytes s
      then Some (mkRejection RejectReason.QueueFull
             ("no capacity available and the wait queue holds "
                +:+ pretty (u64_sub (ad_queued_bytes s) (tk_payload_bytes t)) +:+ " of "
                +:+ pretty (set_max_queue_bytes st) +:+ " payload bytes"))
      else None
  end.

(** The waiter joins its tenant's queue: behind the others, or first on a retry. *)
Definition join_queue (t : Ticket) (retry : bool) now s : WaiterId * AdmissionState :=
  let window := window s in
  let s := revision_entry t (λ rev,
             (if retry then rev else rev <| re_stats ::= Demand.record_arrival exp now window |>)
               <| re_queued ::= λ n, u32_add n 1 |>) s in
  let s := if retry then s
           else s <| ad_counters ::= λ c, c <| ct_arrivals ::= λ n, u64_add n 1 |> |> in
  let '(id, s) := next s in
  let bytes := tk_payload_bytes t in
  let s := tenant_entry (tk_tenant t) (λ e, e <| te_queued_bytes ::= λ n, u64_add n bytes |>
             <| te_queue ::= λ q, if retry then id :: q else app q [id] |>) s in
  let s := s <| ad_queued ::= λ n, u64_add n 1 |>
             <| ad_queued_bytes ::= λ n, u64_add n bytes |>
             <| ad_waiters ::= <[id := mkWaiter t now BlockReason.Pending false]> |> in
  (id, s).

(** [crates/application/src/services/admission/state.rs:726-818 enqueue] *)
Definition enqueue (t : Ticket) (retry : bool) now s : result Rejection WaiterId * AdmissionState :=
  match check_static t now s with
  | (Err r, s) => (Err r, reject_count (rej_reason r) s)
  | (Ok _, s) =>
      let '(id, s) := join_queue t retry now s in
      let s := pump now s in
      when! retry || negb (is_queued id s) return! (Ok id, s);;
      match queue_limit t s with
      | Some r => (Err r, reject_count (rej_reason r) (remove_waiter id s).2)
      | None => (Ok id, s)
      end
  end.

(** *** The life of a reservation *)

(** [crates/application/src/services/admission/state.rs:1181-1186 ready] *)
Definition ready (id : ReservationId) s : AdmissionState :=
  if (rs_state <$> ad_reservations s !! id) == Some ResState.Starting
  then set_state id ResState.Busy s else s.

(** [crates/application/src/services/admission/state.rs:1188-1192 park] *)
Definition park (id : ReservationId) now s : AdmissionState :=
  pump now (set_state id ResState.Parking s).
(** [crates/application/src/services/admission/state.rs:1194-1198 parked] *)
Definition parked (id : ReservationId) now s : AdmissionState :=
  pump now (set_state id ResState.Idle s).
(** [crates/application/src/services/admission/state.rs:1200-1204 drain] *)
Definition drain (id : ReservationId) now s : AdmissionState :=
  pump now (set_state id ResState.Draining s).

Definition probe_abandoned (r : Reservation) s : AdmissionState :=
  if rs_probe r
  then on_revision (rs_revision r) (λ rev, rev <| re_breaker ::= Breaker.probe_abandoned |>) s
  else s.

(** [crates/application/src/services/admission/state.rs:1562-1578 forget_revision_if_idle] *)
Definition forget_revision_if_idle (revision : RevisionId) now s : AdmissionState :=
  match ad_revisions s !! revision with
  | None => s
  | Some rev =>
      when! negb (Cnt.is_empty (re_counts rev) && (re_queued rev =? 0)) return! s;;
      let '(state, breaker) := Breaker.state now (re_breaker rev) in
      if (state == Closed 0)
         && f64_lt (Demand.arrival_rate exp now (window s) (re_stats rev)) (f64_lit 1 3)
      then s <| ad_revisions ::= base.delete revision |>
      else on_revision revision (λ rev, rev <| re_breaker := breaker |>) s
  end.

(** [crates/application/src/services/admission/state.rs:1206-1224 release] *)
Definition release (id : ReservationId) now s : AdmissionState :=
  let s :=
    match ad_reservations s !! id with
    | None => s
    | Some r =>
        let s := probe_abandoned r (remove_reservation id r s) in
        let s := match rs_state r with
                 | ResState.Idle | ResState.Draining | ResState.Parking =>
                     s <| ad_eviction_requested := false |>
                 | _ => s
                 end in
        forget_revision_if_idle (rs_revision r) now s
    end in
  pump now s.

(** [crates/application/src/services/admission/state.rs:1226-1250 adopt] *)
Definition adopt (holder : option ReservationId) (idle : ReservationId) now s
    : ReservationId * AdmissionState :=
  let s :=
    match holder with
    | None => s
    | Some h =>
        when! h =? idle return! s;;
        match ad_reservations s !! h with
        | None => s
        | Some r => probe_abandoned r (remove_reservation h r s)
        end
    end in
  (idle, pump now (set_state idle ResState.Busy s)).

(** [crates/application/src/services/admission/state.rs:1252-1291 redeem] *)
Definition redeem (id : ReservationId) now s : bool * AdmissionState :=
  match ad_reservations s !! id with
  | None => (false, s)
  | Some r =>
      when! rs_state r != ResState.Promised return! (rs_state r == ResState.Starting, s);;
      let fits := admits (ad_capacity s) (plus (ad_reserved s) (rs_resources r)) in
      match ad_revisions s !! rs_revision r with
      | None => (false, s)
      | Some rev =>
          let '(gate, breaker) := Breaker.gate now (re_breaker rev) in
          let s := on_revision (rs_revision r) (λ rev, rev <| re_breaker := breaker |>) s in
          let may := fits && ((gate == BreakerGate.Allow) || (gate == BreakerGate.Probe)) in
          let '(took, s) :=
            if may then let '(took, bucket) := Bucket.take now (ad_bucket s) in
                        (took, s <| ad_bucket := bucket |>)
            else (false, s) in
          when! negb (may && took) return! (false, release id now s);;
          let probe := gate == BreakerGate.Probe in
          let s := on_revision (rs_revision r) (λ rev, rev
                     <| re_breaker ::= λ b, if probe then Breaker.probe_started b else b |>
                     <| re_last_scale_up := Some now |>) s in
          let s := record_scale (rs_revision r) "scale_up" "promised_environment_gone" now s in
          let s := account r false s in
          let converted := r <| rs_state := ResState.Starting |> <| rs_probe := probe |> in
          (true, account converted true s <| ad_reservations ::= <[id := converted]> |>)
      end
  end.

(** [crates/application/src/services/admission/state.rs:1293-1327 start_result] *)
Definition start_result (id : ReservationId) (ok : bool) now s : AdmissionState :=
  match ad_reservations s !! id with
  | None => s
  | Some r =>
      let revision := rs_revision r in
      let s := s <| ad_reservations ::= <[id := r <| rs_probe := false |>]> |> in
      let s := s <| ad_counters ::= λ c,
                 if ok then c <| ct_start_successes ::= λ n, u64_add n 1 |>
                 else c <| ct_start_failures ::= λ n, u64_add n 1 |> |> in
      match ad_revisions s !! revision with
      | None => s
      | Some rev =>
          if ok
          then pump now (on_revision revision
                 (λ rev, rev <| re_breaker ::= Breaker.record_success |>) s)
          else
            let '(opened, breaker) := Breaker.record_failure now (re_breaker rev) in
            let s := on_revision revision (λ rev, rev <| re_breaker := breaker |>) s in
            pump now
              (if opened
               then refuse_revision revision (circuit_open revision)
                      (s <| ad_counters ::= λ c, c <| ct_breaker_opens ::= λ n, u64_add n 1 |> |>)
               else s)
      end
  end.

(** [crates/application/src/services/admission/state.rs:1329-1334 observe_duration] *)
Definition observe_duration (revision : RevisionId) (seconds : f64) s : AdmissionState :=
  on_revision revision (λ rev, rev <| re_stats ::= Demand.record_duration seconds |>) s.

(** *** Scale to zero, minimum ready, drains *)

(** [crates/application/src/services/admission/state.rs:1340-1345 set_routed] *)
Definition set_routed (routed : gset RevisionId) s : AdmissionState := s <| ad_routed := routed |>.
(** [crates/application/src/services/admission/state.rs:1347-1349 is_routed] *)
Definition is_routed (revision : RevisionId) s : bool := bool_decide (revision ∈ ad_routed s).

(** [crates/application/src/services/admission/state.rs:1351-1387 begin_drain] *)
Definition begin_drain (revision : RevisionId) (reason : DrainReason.t) now s
    : bool * AdmissionState :=
  let previous := ad_drains s !! revision in
  let reason := if previous == Some DrainReason.FunctionDeleted
                then DrainReason.FunctionDeleted else reason in
  let s := s <| ad_drains ::= <[revision := reason]> |> in
  let started := previous != Some reason in
  let s := if started then record_scale revision "drain" (DrainReason.as_str reason) now s else s in
  let s := if reason == DrainReason.FunctionDeleted
           then pump now (refuse_revision revision (function_deleted revision) s)
           else s in
  (started, s).

(** [crates/application/src/services/admission/state.rs:1389-1397 end_drain] *)
Definition end_drain (revision : RevisionId) s : bool * AdmissionState :=
  if (ad_drains s !! revision) == Some DrainReason.AliasSwitch
  then (true, s <| ad_drains ::= base.delete revision |>)
  else (false, s).

(** [crates/application/src/services/admission/state.rs:1399-1401 drain_reason] *)
Definition drain_reason (revision : RevisionId) s : option DrainReason.t := ad_drains s !! revision.
(** [crates/application/src/services/admission/state.rs:1403-1406 forget_drain] *)
Definition forget_drain (revision : RevisionId) s : AdmissionState :=
  s <| ad_drains ::= base.delete revision |>.

(** [crates/application/src/services/admission/state.rs:1408-1413 revision_is_empty] *)
Definition revision_is_empty (revision : RevisionId) s : bool :=
  is_none_or (ad_revisions s !! revision)
    (λ r, Cnt.is_empty (re_counts r) && (re_queued r =? 0)).

(** A number of seconds from a ticket, as a duration. *)
Definition seconds_capped (n : Z) : Duration := seconds (Z.min n (i64_max / 1000)).

(** Why an environment that became idle is kept, or the reason to terminate it. *)
Definition idle_reason (revision : RevisionId) (rev : RevisionEntry) (idle_since : Timestamp) now s
    : result KeepReason.t string :=
  match ad_drains s !! revision with
  | Some d => Ok (DrainReason.as_str d)
  | None =>
      when! now - idle_since <? seconds_capped (re_idle_ttl_seconds rev) return! Err KeepReason.IdleTtl;;
      when! is_some_and (re_last_scale_up rev)
              (λ t, now - t <? seconds_capped (re_cooldown_seconds rev)) return!
        Err KeepReason.Cooldown;;
      when! is_routed revision s && (Cnt.provisioned (re_counts rev) <=? re_min_ready rev) return!
        Err KeepReason.MinReady;;
      Ok "idle_ttl"
  end.

(** [crates/application/src/services/admission/state.rs:1415-1487 try_scale_down] *)
Definition try_scale_down (id : ReservationId) (how : ScaleDown) now s
    : result KeepReason.t unit * AdmissionState :=
  match ad_reservations s !! id with
  | None => (Err KeepReason.NotIdle, s)
  | Some r =>
      when! rs_state r != ResState.Idle return! (Err KeepReason.NotIdle, s);;
      let revision := rs_revision r in
      match ad_revisions s !! revision with
      | None => (Err KeepReason.NotIdle, s)
      | Some rev =>
          when! 0 <? re_queued rev return! (Err KeepReason.Queued, s);;
          when! n_idle (re_counts rev) <=? n_promised (re_counts rev) return!
            (Err KeepReason.Promised, s);;
          let drained := is_some (ad_drains s !! revision) in
          let reason := match how with
                        | ScaleIdle idle_since => idle_reason revision rev idle_since now s
                        | ScaleDrain reason => Ok reason
                        end in
          match reason with
          | Err k => (Err k, s)
          | Ok reason =>
              let s := set_state id ResState.Draining s in
              let left := from_option (λ r, Cnt.provisioned (re_counts r)) 0
                            (ad_revisions s !! revision) in
              let kind := match how with
                          | ScaleDrain _ => "drain"
                          | _ => if drained then "drain"
                                 else if left =? 0 then "scale_to_zero" else "scale_down"
                          end in
              (Ok tt, record_scale revision kind reason now s)
          end
      end
  end.

(** [crates/application/src/services/admission/state.rs:1489-1553 try_prestart] *)
Definition try_prestart (t : Ticket) now s : result PrestartSkip ReservationId * AdmissionState :=
  match check_static t now s with
  | (Err r, s) => (Err (Refused r), s)
  | (Ok _, s) =>
      when! negb (is_routed (tk_revision t) s) || is_some (ad_drains s !! tk_revision t) return!
        (Err NotRouted, s);;
      when! tk_min_ready t =? 0 return! (Err Satisfied, s);;
      when! 0 <? ad_queued s return! (Err WaitersFirst, s);;
      let quota := quota_for (tk_tenant t) s in
      let tenant_in_flight := from_option te_in_flight 0 (ad_tenants s !! tk_tenant t) in
      let node_full := set_max_concurrency (ad_settings s) <=? Cnt.in_flight (ad_counts s) in
      let fits := admits (ad_capacity s) (plus (ad_reserved s) (tk_resources t)) in
      let '(bucket_ok, bucket) := Bucket.available now (ad_bucket s) in
      let s := s <| ad_bucket := bucket |> in
      let s := revision_entry t (λ rev, rev) s in
      match ad_revisions s !! tk_revision t with
      | None => (Err Satisfied, s)
      | Some rev =>
          when! re_min_ready rev <=? Cnt.provisioned (re_counts rev) return! (Err Satisfied, s);;
          when! is_some_and (tq_max_concurrency quota) (λ m, m <=? tenant_in_flight)
                || (re_max_environments rev <=? Cnt.in_flight (re_counts rev)) return!
            (Err (PrestartBlocked "quota"), s);;
          let '(gate, breaker) := Breaker.gate now (re_breaker rev) in
          let s := on_revision (tk_revision t) (λ rev, rev <| re_breaker := breaker |>) s in
          when! gate != BreakerGate.Allow return! (Err (PrestartBlocked "circuit_breaker"), s);;
          when! node_full || negb fits return! (Err (PrestartBlocked "capacity"), s);;
          when! negb bucket_ok return! (Err (PrestartBlocked "start_rate"), s);;
          let s := on_revision (tk_revision t) (λ rev, rev <| re_last_scale_up := Some now |>) s in
          let s := s <| ad_bucket ::= λ b, (Bucket.take now b).2 |> in
          let '(rid, s) := next s in
          let s := insert_reservation rid
                     (mkReservation (tk_tenant t) (tk_revision t) (tk_resources t)
                        ResState.Starting false) s in
          (Ok rid, record_scale (tk_revision t) "prestart" "min_ready" now s)
      end
  end.

(** [crates/application/src/services/admission/state.rs:1555-1560 provisioned] *)
Definition provisioned (revision : RevisionId) s : Z :=
  from_option (λ r, Cnt.provisioned (re_counts r)) 0 (ad_revisions s !! revision).

End Adm.
End Adm.
