(* ===== verification/AdmissionInv.v ===== *)
(** * What the admission state means

    The aggregates of [Admission.v] — counters, reserved resources, in-flight and
    queue sizes — as sums over the reservations and the waiters; the invariant
    [Inv] that they are exact, and the equivalence [≈] of states that differ only
    in what no sum depends on (breakers, rates, counters, reports). *)

From S2P Require Import Prelude Sums Scaler Admission.

Open Scope Z_scope.

(** ** What a reservation and a waiter count for *)

Definition one (b : bool) : Z := if b then 1 else 0.
Definition in_state (st : ResState.t) (r : Reservation) : Z := one (rs_state r == st).
Definition held (f : Resources → Z) (r : Reservation) : Z :=
  if ResState.holds_resources (rs_state r) then f (rs_resources r) else 0.
Definition held_sum (m : gmap Z Reservation) : Resources :=
  mkRes (total (held res_cpu) m) (total (held res_memory) m) (total (held res_storage) m).
Definition flies (r : Reservation) : Z := one (ResState.in_flight (rs_state r)).
Definition flies_for (t : TenantId) (r : Reservation) : Z := one (rs_tenant r == t) * flies r.
Definition of_revision (v : RevisionId) (st : ResState.t) (r : Reservation) : Z :=
  one (rs_revision r == v) * in_state st r.
Definition flies_of (v : RevisionId) (r : Reservation) : Z := one (rs_revision r == v) * flies r.
Definition payload_for (t : TenantId) (k : Ticket) : Z := one (tk_tenant k == t) * tk_payload_bytes k.
Definition waits_for (v : RevisionId) (k : Ticket) : Z := one (tk_revision k == v).

(** The tickets in the queue. *)
Definition tickets (s : AdmissionState) : gmap WaiterId Ticket := wt_ticket <$> ad_waiters s.

(** The entry of a tenant, as it is or as it would be made; what is counted for a
    revision, nothing when it has no entry. *)
Definition tenant (s : AdmissionState) (t : TenantId) : TenantEntry :=
  unwrap_or (ad_tenants s !! t) (mkTenant (Adm.quota_for t s) 0 [] 0 0 0).
Definition rev_counts (s : AdmissionState) (v : RevisionId) : Counts :=
  from_option re_counts Cnt.zero (ad_revisions s !! v).
Definition rev_queued (s : AdmissionState) (v : RevisionId) : Z :=
  from_option re_queued 0 (ad_revisions s !! v).

(** ** States that differ only in what no sum depends on *)

Record core_eq (s s' : AdmissionState) : Prop := {
  ce_settings : ad_settings s = ad_settings s';
  ce_capacity : ad_capacity s = ad_capacity s';
  ce_quotas : ad_tenant_quotas s = ad_tenant_quotas s';
  ce_reserved : ad_reserved s = ad_reserved s';
  ce_counts : ad_counts s = ad_counts s';
  ce_reservations : ad_reservations s = ad_reservations s';
  ce_tickets : tickets s = tickets s';
  ce_queued : ad_queued s = ad_queued s';
  ce_bytes : ad_queued_bytes s = ad_queued_bytes s';
  ce_next : ad_next_id s = ad_next_id s';
  ce_flight : ∀ t, te_in_flight (tenant s t) = te_in_flight (tenant s' t);
  ce_queue : ∀ t, te_queue (tenant s t) = te_queue (tenant s' t);
  ce_tbytes : ∀ t, te_queued_bytes (tenant s t) = te_queued_bytes (tenant s' t);
  ce_quota : ∀ t, te_quota (tenant s t) = te_quota (tenant s' t);
  ce_rcounts : ∀ v, rev_counts s v = rev_counts s' v;
  ce_rqueued : ∀ v, rev_queued s v = rev_queued s' v;
  ce_max : ∀ v, re_max_environments <$> ad_revisions s !! v
              = re_max_environments <$> ad_revisions s' !! v;
  ce_outbox : ad_outbox s = ad_outbox s';
  ce_drains : ad_drains s = ad_drains s'
}.
#[global] Instance core_equiv : Equiv AdmissionState := core_eq.
#[global] Instance core_equivalence : Equivalence (≡@{AdmissionState}).
Proof.
  split.
  - intros s. by constructor.
  - intros s s' H. destruct H. by constructor.
  - intros s s' s'' H H'. destruct H, H'. constructor; intros; etrans; eauto.
Qed.

(** Updates of a revision entry that no sum sees. *)
Lemma on_revision_core v f s :
  (∀ e, re_counts (f e) = re_counts e ∧ re_queued (f e) = re_queued e
        ∧ re_max_environments (f e) = re_max_environments e) →
  Adm.on_revision v f s ≡ s.
Proof.
  intros H. constructor; try done; intros v'; unfold rev_counts, rev_queued; cbn;
    (destruct (decide (v = v')) as [->|];
      [rewrite lookup_alter_eq; destruct (ad_revisions s !! v') as [e|]; cbn; [|done];
       destruct (H e) as (? & ? & ?); congruence
      |by rewrite lookup_alter_ne]).
Qed.

(** ** The invariant *)

(** What the callers promise about a ticket: its sizes are bounded, and its cap is
    the cap of its revision, which never changes. *)
Definition limit : Z := 2 ^ 32.
Definition ticket_ok (max_of : RevisionId → Z) (k : Ticket) : Prop :=
  res_bounded limit (tk_resources k) ∧ 0 ≤ tk_payload_bytes k ≤ limit
  ∧ Z.max (tk_max_environments k) 1 = max_of (tk_revision k).

(** The ids a run hands out stay below [2 ^ 31]. *)
Definition id_limit : Z := 2 ^ 31.

(** The counters, reserved resources and in-flight numbers are the sums of the reservations. *)
Record Ledger (s : AdmissionState) : Prop := {
  inv_counts : ∀ st, Cnt.get (ad_counts s) st = total (in_state st) (ad_reservations s);
  inv_reserved : ad_reserved s = held_sum (ad_reservations s);
  inv_flight : ∀ t, te_in_flight (tenant s t) = total (flies_for t) (ad_reservations s);
  inv_rcounts : ∀ v st, Cnt.get (rev_counts s v) st = total (of_revision v st) (ad_reservations s);
  inv_ids : ∀ id, is_Some (ad_reservations s !! id) → 0 < id ≤ ad_next_id s;
  inv_resources : ∀ id r, ad_reservations s !! id = Some r → res_bounded limit (rs_resources r);
  inv_size : Z.of_nat (size (ad_reservations s)) ≤ ad_next_id s
}.

(** The tenants' queues and the queue sizes are those of the waiters. *)
Record Queue (max_of : RevisionId → Z) (s : AdmissionState) : Prop := {
  inv_queued : ad_queued s = Z.of_nat (size (tickets s));
  inv_bytes : ad_queued_bytes s = total tk_payload_bytes (tickets s);
  inv_tbytes : ∀ t, te_queued_bytes (tenant s t) = total (payload_for t) (tickets s);
  inv_rqueued : ∀ v, rev_queued s v = total (waits_for v) (tickets s);
  inv_queue : ∀ t id, id ∈ te_queue (tenant s t) ↔ ∃ k, tickets s !! id = Some k ∧ tk_tenant k = t;
  inv_nodup : ∀ t, NoDup (te_queue (tenant s t));
  inv_quota : ∀ t, te_quota (tenant s t) = Adm.quota_for t s;
  inv_max : ∀ v m, re_max_environments <$> ad_revisions s !! v = Some m → m = max_of v;
  inv_wids : ∀ id, is_Some (tickets s !! id) → 0 < id ≤ ad_next_id s;
  inv_tickets : ∀ id k, tickets s !! id = Some k → ticket_ok max_of k
}.

Record Inv (max_of : RevisionId → Z) (b : Z) (s : AdmissionState) : Prop := {
  inv_ledger : Ledger s;
  inv_waiting : Queue max_of s;
  inv_bound : ad_next_id s + Z.of_nat (size (tickets s)) ≤ b;
  inv_limit : b ≤ id_limit
}.

Lemma quota_for_core s s' t : s ≡ s' → Adm.quota_for t s = Adm.quota_for t s'.
Proof. intros []. unfold Adm.quota_for. congruence. Qed.

Ltac rewrite_core :=
  repeat match goal with
  | E : _ ?s = _ ?s' |- context [?s'] => rewrite <-E
  | E : ∀ t, _ (_ _ t) = _ (_ ?s' t) |- context [?s'] => rewrite <-E
  | E : ∀ t, _ _ t = _ ?s' t |- context [?s'] => rewrite <-E
  | E : ∀ t, _ t _ = _ t ?s' |- context [?s'] => rewrite <-E
  end.

Lemma Inv_core max_of b s s' : s ≡ s' → Inv max_of b s → Inv max_of b s'.
Proof.
  intros E [HL HQ Hb Hl]. pose proof (λ t, quota_for_core s s' t E) as Hq. destruct E.
  constructor; [destruct HL|destruct HQ| |done]; [constructor..|]; intros; rewrite_core; eauto;
    try congruence;
    repeat match goal with
    | E : _ s = _ s', H : context [_ s'] |- _ => rewrite <-E in H
    | E : ∀ v, _ <$> (_ s !! v) = _, H : context [_ s'] |- _ => rewrite <-E in H
    end; eauto.
Qed.

#[global] Instance Inv_proper max_of b : Proper ((≡) ==> iff) (Inv max_of b).
Proof. intros s s' E. split; apply Inv_core; [done | by symmetry]. Qed.

(** ** The primitive changes of the ledger *)

Lemma get_inc c st st' :
  0 ≤ Cnt.get c st' < u32_max → Cnt.get (Cnt.inc st c) st' = Cnt.get c st' + one (st == st').
Proof.
  intros H. assert (Cnt.get c st' + 1 ≤ u32_max) by lia. unfold one. case_bool_decide as E.
  - subst. destruct c, st'; cbn -[u32_add u32_max] in *; apply u32_add_small; lia.
  - rewrite Z.add_0_r. by destruct c, st, st'.
Qed.

Lemma get_dec c st st' :
  one (st == st') ≤ Cnt.get c st' → Cnt.get (Cnt.dec st c) st' = Cnt.get c st' - one (st == st').
Proof.
  unfold one. case_bool_decide as E; intros H.
  - subst. destruct c, st'; cbn in *; lia.
  - rewrite Z.sub_0_r. by destruct c, st, st'.
Qed.

Lemma tenant_tenant_entry t f s t' :
  tenant (Adm.tenant_entry t f s) t' = if decide (t = t') then f (tenant s t) else tenant s t'.
Proof.
  unfold tenant. cbn. case_decide as E; [subst; by rewrite lookup_insert_eq|].
  by rewrite lookup_insert_ne.
Qed.

Lemma account_core r add s :
  let s' := Adm.account r add s in
  ad_settings s' = ad_settings s ∧ ad_capacity s' = ad_capacity s
  ∧ ad_tenant_quotas s' = ad_tenant_quotas s ∧ ad_reservations s' = ad_reservations s
  ∧ ad_waiters s' = ad_waiters s ∧ ad_queued s' = ad_queued s
  ∧ ad_queued_bytes s' = ad_queued_bytes s ∧ ad_next_id s' = ad_next_id s
  ∧ ad_outbox s' = ad_outbox s ∧ ad_drains s' = ad_drains s.
Proof.
  cbn. unfold Adm.account.
  destruct (ResState.holds_resources (rs_state r)), (ResState.in_flight (rs_state r)); done.
Qed.

Lemma account_counts r add s :
  ad_counts (Adm.account r add s)
  = (if add then Cnt.inc (rs_state r) else Cnt.dec (rs_state r)) (ad_counts s).
Proof.
  unfold Adm.account.
  by destruct (ResState.holds_resources (rs_state r)), (ResState.in_flight (rs_state r)).
Qed.

Lemma account_reserved r add s :
  ad_reserved (Adm.account r add s)
  = if ResState.holds_resources (rs_state r)
    then (if add then plus else minus) (ad_reserved s) (rs_resources r) else ad_reserved s.
Proof.
  unfold Adm.account.
  by destruct (ResState.holds_resources (rs_state r)), (ResState.in_flight (rs_state r)), add.
Qed.

Lemma account_tenant r add s t :
  tenant (Adm.account r add s) t
  = if ResState.in_flight (rs_state r) && (rs_tenant r == t)
    then tenant s t <| te_in_flight ::= λ n, if add then u64_add n 1 else u64_sub n 1 |>
    else tenant s t.
Proof.
  unfold Adm.account.
  destruct (ResState.holds_resources (rs_state r)), (ResState.in_flight (rs_state r)); cbn -[tenant];
    try done.
  all: etrans; [apply (tenant_tenant_entry (rs_tenant r))|]; case_decide as E;
    [subst; rewrite bool_decide_eq_true_2 by done | rewrite bool_decide_eq_false_2 by done]; done.
Qed.

Lemma account_revisions r add s :
  ad_revisions (Adm.account r add s)
  = alter (λ e, e <| re_counts ::= (if add then Cnt.inc (rs_state r) else Cnt.dec (rs_state r)) |>)
      (rs_revision r) (ad_revisions s).
Proof.
  unfold Adm.account.
  by destruct (ResState.holds_resources (rs_state r)), (ResState.in_flight (rs_state r)).
Qed.

Lemma account_rev_counts r add s v :
  is_Some (ad_revisions s !! rs_revision r) → rev_counts (Adm.account r add s) v
  = if rs_revision r == v
    then (if add then Cnt.inc (rs_state r) else Cnt.dec (rs_state r)) (rev_counts s v)
    else rev_counts s v.
Proof.
  intros [e He]. unfold rev_counts. rewrite account_revisions. case_bool_decide as E.
  - subst. by rewrite lookup_alter_eq, He.
  - by rewrite lookup_alter_ne.
Qed.

Lemma account_rev_queued r add s v : rev_queued (Adm.account r add s) v = rev_queued s v.
Proof.
  unfold rev_queued. rewrite account_revisions. destruct (decide (rs_revision r = v)) as [->|].
  - rewrite lookup_alter_eq. by destruct (ad_revisions s !! v).
  - by rewrite lookup_alter_ne.
Qed.

Lemma account_max r add s v :
  re_max_environments <$> ad_revisions (Adm.account r add s) !! v
  = re_max_environments <$> ad_revisions s !! v.
Proof.
  rewrite account_revisions. destruct (decide (rs_revision r = v)) as [->|].
  - rewrite lookup_alter_eq. by destruct (ad_revisions s !! v).
  - by rewrite lookup_alter_ne.
Qed.

(** Each weight that counts reservations counts one at most once. *)
Lemma one_bounds b : 0 ≤ one b ≤ 1.
Proof. destruct b; cbn; lia. Qed.
Lemma one_mul_bounds b x : 0 ≤ x ≤ 1 → 0 ≤ one b * x ≤ 1.
Proof. destruct b; cbn; lia. Qed.
#[export] Hint Resolve one_bounds one_mul_bounds : tsls.

Lemma in_state_01 st r : 0 ≤ in_state st r ≤ 1.
Proof. apply one_bounds. Qed.
Lemma flies_01 r : 0 ≤ flies r ≤ 1.
Proof. apply one_bounds. Qed.
Lemma flies_for_01 t r : 0 ≤ flies_for t r ≤ 1.
Proof. apply one_mul_bounds, flies_01. Qed.
Lemma flies_of_01 v r : 0 ≤ flies_of v r ≤ 1.
Proof. apply one_mul_bounds, flies_01. Qed.
Lemma of_revision_01 v st r : 0 ≤ of_revision v st r ≤ 1.
Proof. apply one_mul_bounds, in_state_01. Qed.
#[export] Hint Resolve in_state_01 flies_01 flies_for_01 flies_of_01 of_revision_01 : tsls.

(** What booking a reservation in ([add]) or out of the ledger changes. *)
Record booked (r : Reservation) (add : bool) (m : gmap Z Reservation) (s s' : AdmissionState)
    : Prop := {
  bk_settings : ad_settings s' = ad_settings s;
  bk_capacity : ad_capacity s' = ad_capacity s;
  bk_quota_for : ∀ t, Adm.quota_for t s' = Adm.quota_for t s;
  bk_counts : ad_counts s'
    = (if add then Cnt.inc (rs_state r) else Cnt.dec (rs_state r)) (ad_counts s);
  bk_reserved : ad_reserved s'
    = if ResState.holds_resources (rs_state r)
      then (if add then plus else minus) (ad_reserved s) (rs_resources r) else ad_reserved s;
  bk_reservations : ad_reservations s' = m;
  bk_tickets : tickets s' = tickets s;
  bk_queued : ad_queued s' = ad_queued s;
  bk_bytes : ad_queued_bytes s' = ad_queued_bytes s;
  bk_next : ad_next_id s' = ad_next_id s;
  bk_tenant : ∀ t, tenant s' t
    = if ResState.in_flight (rs_state r) && (rs_tenant r == t)
      then tenant s t <| te_in_flight ::= λ n, if add then u64_add n 1 else u64_sub n 1 |>
      else tenant s t;
  bk_rev_counts : ∀ v, is_Some (ad_revisions s !! rs_revision r) → rev_counts s' v
    = if rs_revision r == v
      then (if add then Cnt.inc (rs_state r) else Cnt.dec (rs_state r)) (rev_counts s v)
      else rev_counts s v;
  bk_rev_queued : ∀ v, rev_queued s' v = rev_queued s v;
  bk_max : ∀ v, re_max_environments <$> ad_revisions s' !! v
                = re_max_environments <$> ad_revisions s !! v;
  bk_outbox : ad_outbox s' = ad_outbox s;
  bk_drains : ad_drains s' = ad_drains s
}.

Lemma account_booked r add s :
  booked r add (ad_reservations s) s (Adm.account r add s).
Proof.
  destruct (account_core r add s) as (E1 & E2 & E3 & E4 & E5 & E6 & E7 & E8 & E9 & E10).
  constructor; intros; auto using account_counts, account_reserved, account_tenant,
    account_rev_counts, account_rev_queued, account_max.
  - unfold Adm.quota_for. congruence.
  - unfold tickets. congruence.
Qed.

Lemma insert_booked id r s :
  booked r true (<[id := r]> (ad_reservations s)) s (Adm.insert_reservation id r s).
Proof.
  destruct (account_booked r true s) as [].
  constructor; try done. unfold Adm.insert_reservation; cbn. by f_equal.
Qed.

Lemma remove_booked id r s :
  booked r false (base.delete id (ad_reservations s)) s (Adm.remove_reservation id r s).
Proof.
  destruct (account_booked r false (s <| ad_reservations ::= base.delete id |>)) as [].
  by constructor.
Qed.

Section Primitives.
Context (max_of : RevisionId → Z) (b : Z).
Implicit Types (s : AdmissionState) (r : Reservation).
Notation Inv := (Inv max_of b).

Lemma Inv_next_bound s : Inv s → 0 ≤ ad_next_id s ≤ id_limit.
Proof. intros [[] _ ? ?]. lia. Qed.

Lemma count_bound (w : Reservation → Z) (m : gmap Z Reservation) :
  (∀ r, 0 ≤ w r ≤ 1) → 0 ≤ total w m ≤ Z.of_nat (size m).
Proof.
  intros Hw. split; [apply total_nonneg; intros; apply Hw|].
  rewrite <-(Z.mul_1_l (Z.of_nat _)). apply total_le. intros. apply Hw.
Qed.

Lemma Inv_count_bound s w :
  Inv s → (∀ r, 0 ≤ w r ≤ 1) → 0 ≤ total w (ad_reservations s) < u32_max.
Proof.
  intros H Hw. pose proof (count_bound w (ad_reservations s) Hw). pose proof (Inv_next_bound s H).
  destruct H as [[] _ _ _]. unfold id_limit, u32_max in *. lia.
Qed.

Lemma Inv_held_bound s f :
  Inv s → (∀ a : Resources, res_bounded limit a → 0 ≤ f a ≤ limit) →
  0 ≤ total (held f) (ad_reservations s) ≤ limit * id_limit.
Proof.
  intros H Hf. pose proof (Inv_next_bound s H). destruct H as [[] _ _ _].
  assert (∀ k r, ad_reservations s !! k = Some r → 0 ≤ held f r ≤ limit) as Hb.
  { intros k r Hk. unfold held. destruct (ResState.holds_resources _); [|done]. eauto. }
  split; [apply total_nonneg; naive_solver|]. etrans; [apply total_le; naive_solver|].
  apply Z.mul_le_mono_nonneg_l; [done|lia].
Qed.

Lemma held_sum_bound s : Inv s → res_bounded (limit * id_limit) (held_sum (ad_reservations s)).
Proof.
  intros H. unfold res_bounded, held_sum; cbn [res_cpu res_memory res_storage].
  split_and!; apply Inv_held_bound; unfold res_bounded; naive_solver.
Qed.

Lemma plus_held s a :
  Inv s → res_bounded limit a →
  plus (held_sum (ad_reservations s)) a = res_add (held_sum (ad_reservations s)) a.
Proof.
  intros HI Ha. apply plus_exact. pose proof (held_sum_bound _ HI) as Hh. revert Hh Ha.
  generalize (held_sum (ad_reservations s)). intros h. clear.
  unfold res_bounded, res_add, limit, id_limit, u64_max. cbn. lia.
Qed.

Lemma held_sum_insert m k r :
  m !! k = None → held_sum (<[k := r]> m)
  = if ResState.holds_resources (rs_state r) then res_add (held_sum m) (rs_resources r)
    else held_sum m.
Proof.
  intros Hk. unfold held_sum, res_add. rewrite !total_insert by done. unfold held at 1 3 5.
  destruct (ResState.holds_resources (rs_state r)); cbn; f_equal; lia.
Qed.

Lemma held_sum_delete m k r :
  m !! k = Some r → held_sum m
  = if ResState.holds_resources (rs_state r)
    then res_add (held_sum (base.delete k m)) (rs_resources r) else held_sum (base.delete k m).
Proof.
  intros Hk. rewrite <-held_sum_insert with (k := k) by apply lookup_delete_eq.
  by rewrite insert_delete_id.
Qed.

(** Booking leaves the queue alone. *)
Lemma booked_queue r add m s s' : booked r add m s s' → Queue max_of s → Queue max_of s'.
Proof.
  intros [] [].
  assert (∀ t, te_queue (tenant s' t) = te_queue (tenant s t)
               ∧ te_queued_bytes (tenant s' t) = te_queued_bytes (tenant s t)
               ∧ te_quota (tenant s' t) = te_quota (tenant s t)) as Ht.
  { intros t. rewrite bk_tenant0. by destruct (ResState.in_flight _ && _). }
  constructor; intros;
    rewrite ?bk_tickets0, ?bk_queued0, ?bk_bytes0, ?bk_next0, ?bk_rev_queued0, ?bk_quota_for0,
      ?(proj1 (Ht _)), ?(proj1 (proj2 (Ht _))), ?(proj2 (proj2 (Ht _))); eauto.
  - rewrite bk_max0 in *. eauto.
  - rewrite bk_tickets0 in *. eauto.
  - rewrite bk_tickets0 in *. eauto.
Qed.

(** A fresh reservation of a revision that has an entry joins the ledger. *)
Lemma insert_Inv s id r s' :
  Inv s → ad_reservations s !! id = None → 0 < id ≤ ad_next_id s →
  Z.of_nat (size (ad_reservations s)) + 1 ≤ ad_next_id s →
  res_bounded limit (rs_resources r) → is_Some (ad_revisions s !! rs_revision r) →
  booked r true (<[id := r]> (ad_reservations s)) s s' → Inv s'.
Proof.
  intros HI Hid Hrange Hsize Hres Hrev Hb.
  pose proof (Inv_next_bound s HI) as Hn. pose proof (λ a, plus_held s a HI) as Hplus.
  pose proof (λ w, Inv_count_bound s w HI) as Hlt.
  destruct HI as [HL HQ Hbd ?]. constructor; [|by eapply booked_queue|by destruct Hb; congruence|done].
  destruct Hb, HL. constructor; rewrite ?bk_reservations0, ?bk_next0.
  - intros st. rewrite bk_counts0, total_insert, get_inc by (done || rewrite inv_counts0; auto with tsls).
    rewrite inv_counts0. change (in_state st r) with (one (rs_state r == st)). lia.
  - rewrite bk_reserved0, held_sum_insert, inv_reserved0 by done.
    destruct (ResState.holds_resources _); [|done]. by apply Hplus.
  - intros t. rewrite bk_tenant0, total_insert by done. unfold flies_for at 1, flies.
    destruct (ResState.in_flight _); cbn; [|rewrite Z.mul_0_r; apply inv_flight0].
    case_bool_decide; cbn; [|apply inv_flight0]. rewrite inv_flight0, u64_add_small; [lia|].
    pose proof (Hlt (flies_for t) (flies_for_01 t)). unfold u32_max, u64_max in *. lia.
  - intros v st. rewrite bk_rev_counts0, total_insert by done. unfold of_revision at 1.
    case_bool_decide as E; cbn [one]; [|apply inv_rcounts0].
    rewrite get_inc, inv_rcounts0; [unfold in_state; lia|rewrite inv_rcounts0].
    auto with tsls.
  - intros id' H. destruct (decide (id = id')) as [->|Hne]; [done|].
    rewrite lookup_insert_ne in H by done. eauto.
  - intros id' r' H. apply lookup_insert_Some in H as [[<- <-]|[_ H]]; eauto.
  - rewrite map_size_insert_None by done. lia.
Qed.

(** A revision with a reservation or a waiter has an entry. *)
Lemma reserved_revision s id r :
  Ledger s → ad_reservations s !! id = Some r → is_Some (ad_revisions s !! rs_revision r).
Proof.
  intros [] H. destruct (ad_revisions s !! rs_revision r) as [e|] eqn:E; [done|].
  pose proof (inv_rcounts0 (rs_revision r) (rs_state r)) as Ht.
  unfold rev_counts in Ht. rewrite E in Ht. cbn in Ht.
  pose proof (total_ge (of_revision (rs_revision r) (rs_state r)) _ _ _
                (λ k r' _, proj1 (of_revision_01 _ _ r')) H) as Hge.
  unfold of_revision at 1, in_state in Hge. rewrite !bool_decide_eq_true_2 in Hge by done.
  cbn in Hge. destruct (rs_state r); cbn in Ht; lia.
Qed.

(** A reservation leaves the ledger. *)
Lemma remove_Inv s id r s' :
  Inv s → ad_reservations s !! id = Some r →
  booked r false (base.delete id (ad_reservations s)) s s' → Inv s'.
Proof.
  intros HI Hid Hb. pose proof (held_sum_bound s HI) as Hh.
  assert (∀ w, (∀ r, 0 ≤ w r ≤ 1) → w r ≤ total w (ad_reservations s)) as Hge.
  { intros w Hw. eapply total_ge; [|done]. intros; apply Hw. }
  pose proof (λ w, Inv_count_bound s w HI) as Hlt.
  destruct HI as [HL HQ Hbd ?]. pose proof (reserved_revision s id r HL Hid) as Hrev.
  constructor; [|by eapply booked_queue|by destruct Hb; congruence|done].
  destruct Hb, HL. constructor; rewrite ?bk_reservations0, ?bk_next0.
  - intros st. rewrite bk_counts0, (total_delete _ _ _ r) by done.
    change (in_state st r) with (one (rs_state r == st)).
    rewrite get_dec; rewrite inv_counts0; [done|]. apply (Hge (in_state st)). auto with tsls.
  - rewrite bk_reserved0, inv_reserved0. rewrite (held_sum_delete _ _ _ Hid) in *.
    destruct (ResState.holds_resources _); [|done]. rewrite res_add_comm in *. apply minus_exact.
    apply inv_resources0 in Hid. unfold held_sum. split_and!; apply total_nonneg.
    all: intros k r' [_ Hk]%lookup_delete_Some; apply inv_resources0 in Hk; unfold held;
      destruct (ResState.holds_resources _); [|done]; apply Hk.
  - intros t. rewrite bk_tenant0, (total_delete _ _ _ r) by done.
    pose proof (Hge (flies_for t) (flies_for_01 t)) as G.
    pose proof (Hlt (flies_for t) (flies_for_01 t)) as L. revert G L.
    generalize (total (flies_for t) (ad_reservations s)), (inv_flight0 t). intros n <-.
    unfold flies_for, flies. destruct (ResState.in_flight _); cbn [andb]; [|intros; cbn; lia].
    case_bool_decide; cbn; intros; [|lia]. apply u64_sub_small. unfold u32_max, u64_max in *. lia.
  - intros v st. rewrite bk_rev_counts0, (total_delete _ _ _ r) by done.
    pose proof (Hge (of_revision v st) (of_revision_01 v st)) as G. revert G.
    generalize (total (of_revision v st) (ad_reservations s)), (inv_rcounts0 v st). intros n <-.
    unfold of_revision, in_state. case_bool_decide as E; cbn [one]; rewrite ?Z.mul_1_l, ?Z.mul_0_l.
    + apply get_dec.
    + intros; lia.
  - intros id' [? [_ H]%lookup_delete_Some]. eauto.
  - intros id' r' [_ H]%lookup_delete_Some. eauto.
  - rewrite map_size_delete_Some by eauto. lia.
Qed.

(** The tenant and the revision of a waiter have entries. *)
Lemma waiting_tenant s id k :
  Queue max_of s → tickets s !! id = Some k → is_Some (ad_tenants s !! tk_tenant k).
Proof.
  intros [] H. assert (id ∈ te_queue (tenant s (tk_tenant k))) as Hq by (apply inv_queue0; eauto).
  unfold tenant in Hq. destruct (ad_tenants s !! tk_tenant k); [done|].
  cbn in Hq. by apply not_elem_of_nil in Hq.
Qed.

Lemma waits_for_nonneg v (m : gmap WaiterId Ticket) : ∀ id k, m !! id = Some k → 0 ≤ waits_for v k.
Proof. intros. apply one_bounds. Qed.

Lemma waiting_revision s id k :
  Queue max_of s → tickets s !! id = Some k →
  is_Some (ad_revisions s !! tk_revision k) ∧ 1 ≤ rev_queued s (tk_revision k).
Proof.
  intros [] H.
  pose proof (total_ge (waits_for (tk_revision k)) _ _ _ (waits_for_nonneg _ _) H) as Hge.
  unfold waits_for at 1 in Hge. rewrite bool_decide_eq_true_2 in Hge by done. cbn in Hge.
  rewrite <-inv_rqueued0 in Hge. split; [|done]. unfold rev_queued in Hge.
  destruct (ad_revisions s !! tk_revision k); [done|]. cbn in Hge. lia.
Qed.

(** Sums over the tickets stay far below the machine range. *)
Lemma ticket_sum_bound s (w : Ticket → Z) c :
  Inv s → 0 ≤ c ≤ limit → (∀ k, ticket_ok max_of k → 0 ≤ w k ≤ c) →
  (∀ id k, tickets s !! id = Some k → w k ≤ total w (tickets s))
  ∧ 0 ≤ total w (tickets s) ≤ c * Z.of_nat (size (tickets s)).
Proof.
  intros [HL HQ ? ?] Hc Hw.
  assert (∀ id k, tickets s !! id = Some k → 0 ≤ w k ≤ c) as H'.
  { intros id k H. apply Hw. by eapply inv_tickets. }
  split_and!.
  - intros id k H. eapply total_ge; [|done]. intros ? ? E. apply (H' _ _ E).
  - apply total_nonneg. intros ? ? E. apply (H' _ _ E).
  - apply total_le. intros ? ? E. apply (H' _ _ E).
Qed.

(** What leaving the queue changes. *)
Record left_queue (id : WaiterId) (k : Ticket) (s s' : AdmissionState) : Prop := {
  lq_settings : ad_settings s' = ad_settings s;
  lq_capacity : ad_capacity s' = ad_capacity s;
  lq_quota_for : ∀ t, Adm.quota_for t s' = Adm.quota_for t s;
  lq_counts : ad_counts s' = ad_counts s;
  lq_reserved : ad_reserved s' = ad_reserved s;
  lq_reservations : ad_reservations s' = ad_reservations s;
  lq_tickets : tickets s' = base.delete id (tickets s);
  lq_queued : ad_queued s' = u64_sub (ad_queued s) 1;
  lq_bytes : ad_queued_bytes s' = u64_sub (ad_queued_bytes s) (tk_payload_bytes k);
  lq_next : ad_next_id s' = ad_next_id s;
  lq_queue : ∀ t, te_queue (tenant s' t)
    = if tk_tenant k == t then List.filter (λ x, negb (x =? id)) (te_queue (tenant s t))
      else te_queue (tenant s t);
  lq_tbytes : ∀ t, is_Some (ad_tenants s !! tk_tenant k) → te_queued_bytes (tenant s' t)
    = if tk_tenant k == t then u64_sub (te_queued_bytes (tenant s t)) (tk_payload_bytes k)
      else te_queued_bytes (tenant s t);
  lq_flight : ∀ t, te_in_flight (tenant s' t) = te_in_flight (tenant s t);
  lq_quota : ∀ t, te_quota (tenant s' t) = te_quota (tenant s t);
  lq_rev_counts : ∀ v, rev_counts s' v = rev_counts s v;
  lq_rev_queued : ∀ v, is_Some (ad_revisions s !! tk_revision k) → rev_queued s' v
    = if tk_revision k == v then Z.max (rev_queued s v - 1) 0 else rev_queued s v;
  lq_max : ∀ v, re_max_environments <$> ad_revisions s' !! v
                = re_max_environments <$> ad_revisions s !! v;
  lq_outbox : ad_outbox s' = ad_outbox s;
  lq_drains : ad_drains s' = ad_drains s
}.

Lemma remove_waiter_left id s w :
  ad_waiters s !! id = Some w → left_queue id (wt_ticket w) s (Adm.remove_waiter id s).2.
Proof.
  intros Hw. unfold Adm.remove_waiter. rewrite Hw. cbn [snd].
  constructor; try done.
  - unfold tickets; cbn. by rewrite fmap_delete.
  - intros t. unfold tenant; cbn. case_bool_decide as E; subst;
      rewrite ?lookup_alter_eq, ?lookup_alter_ne by done; try done. by destruct (ad_tenants s !! _).
  - intros t [e He]. unfold tenant; cbn. case_bool_decide as E; subst;
      rewrite ?lookup_alter_eq, ?lookup_alter_ne by done; try done. by rewrite He.
  - intros t. unfold tenant; cbn. destruct (decide (tk_tenant (wt_ticket w) = t)) as [<-|];
      rewrite ?lookup_alter_eq, ?lookup_alter_ne by done; try done. by destruct (ad_tenants s !! _).
  - intros t. unfold tenant; cbn. destruct (decide (tk_tenant (wt_ticket w) = t)) as [<-|];
      rewrite ?lookup_alter_eq, ?lookup_alter_ne by done; try done. by destruct (ad_tenants s !! _).
  - intros v. unfold rev_counts; cbn. destruct (decide (tk_revision (wt_ticket w) = v)) as [->|].
    + rewrite lookup_alter_eq. by destruct (ad_revisions s !! v).
    + by rewrite lookup_alter_ne.
  - intros v [e He]. unfold rev_queued; cbn. case_bool_decide as E.
    + subst. by rewrite lookup_alter_eq, He.
    + by rewrite lookup_alter_ne.
  - intros v. cbn. destruct (decide (tk_revision (wt_ticket w) = v)) as [->|].
    + rewrite lookup_alter_eq. by destruct (ad_revisions s !! v).
    + by rewrite lookup_alter_ne.
Qed.

(** The view of a state after leaving the queue is all that counts. *)
Lemma left_queue_core id k s s1 s2 : left_queue id k s s1 → s2 ≡ s1 → left_queue id k s s2.
Proof.
  intros H E. pose proof (λ t, quota_for_core s2 s1 t E) as Hq.
  destruct H, E. constructor; intros; (etrans; [solve [eauto]|]); eauto.
Qed.

Lemma tickets_lookup s id k :
  tickets s !! id = Some k ↔ ∃ w, ad_waiters s !! id = Some w ∧ wt_ticket w = k.
Proof.
  unfold tickets. rewrite lookup_fmap, fmap_Some. split; intros (w & ? & ?); eauto.
Qed.

(** The weights of a ticket. *)
Lemma payload_limit k : ticket_ok max_of k → 0 ≤ tk_payload_bytes k ≤ limit.
Proof. by intros (_ & ? & _). Qed.
Lemma payload_for_limit t k : ticket_ok max_of k → 0 ≤ payload_for t k ≤ limit.
Proof. intros H%payload_limit. unfold payload_for, limit in *. destruct (_ == _); cbn; lia. Qed.
Lemma waits_for_limit v k : ticket_ok max_of k → 0 ≤ waits_for v k ≤ 1.
Proof. intros _. apply one_bounds. Qed.

Lemma Inv_size_bound s : Inv s → 0 ≤ Z.of_nat (size (tickets s)) ≤ id_limit - ad_next_id s.
Proof. intros [[] ? ? ?]. lia. Qed.

(** A waiter leaves the queue. *)
Lemma leave_Inv id k s s' :
  Inv s → tickets s !! id = Some k → left_queue id k s s' → Inv s'.
Proof.
  intros HI Hk Hl.
  pose proof (ticket_sum_bound s tk_payload_bytes limit HI ltac:(done) payload_limit) as [Gp Bp].
  pose proof (λ t, ticket_sum_bound s (payload_for t) limit HI ltac:(done) (payload_for_limit t)) as Bt.
  pose proof (Inv_size_bound s HI) as Hsz. pose proof (Inv_next_bound s HI) as Hn.
  destruct HI as [HL HQ Hbd ?].
  pose proof (waiting_tenant s id k HQ Hk) as Ht.
  pose proof (waiting_revision s id k HQ Hk) as [Hr Hr1].
  assert (size (tickets s) ≠ O) as Hne.
  { intros E%map_size_empty_inv. by rewrite E, lookup_empty in Hk. }
  assert (limit * Z.of_nat (size (tickets s)) ≤ u64_max) as Hmax.
  { unfold limit, id_limit, u64_max in *. lia. }
  specialize (Gp _ _ Hk). pose proof (λ t, proj1 (Bt t) _ _ Hk) as Gt.
  destruct Hl. constructor; [destruct HL| |rewrite lq_tickets0, map_size_delete_Some by eauto; lia|done].
  { constructor; intros;
      rewrite ?lq_counts0, ?lq_reserved0, ?lq_reservations0, ?lq_next0, ?lq_rev_counts0,
        ?lq_flight0 in *; eauto. }
  destruct HQ. pose proof (inv_tickets0 _ _ Hk) as (_ & Hp & _). constructor.
  - rewrite lq_queued0, lq_tickets0, map_size_delete_Some, inv_queued0 by eauto.
    rewrite u64_sub_small; unfold u64_max, id_limit in *; lia.
  - rewrite lq_bytes0, lq_tickets0, (total_delete _ _ _ k), inv_bytes0 by done. apply u64_sub_small. lia.
  - intros t. rewrite lq_tbytes0, lq_tickets0, (total_delete _ _ _ k), <-inv_tbytes0 by done.
    specialize (Gt t). destruct (Bt t) as [_ B]. rewrite <-inv_tbytes0 in Gt, B. revert Gt.
    unfold payload_for. case_bool_decide; cbn; [intros; rewrite u64_sub_small; lia|lia].
  - intros v. rewrite lq_rev_queued0, lq_tickets0, (total_delete _ _ _ k), <-inv_rqueued0 by done.
    unfold waits_for. case_bool_decide; cbn; subst; lia.
  - intros t id'. rewrite lq_queue0, lq_tickets0.
    setoid_rewrite lookup_delete_Some. case_bool_decide as E; cbn -[tenant].
    + rewrite list_elem_of_In, filter_In, <-list_elem_of_In, inv_queue0, negb_true_iff, Z.eqb_neq. naive_solver.
    + rewrite inv_queue0. split; [|naive_solver].
      intros (k' & ? & ?). exists k'. split_and!; [|done..]. congruence.
  - intros t. rewrite lq_queue0. case_bool_decide; [|done].
    apply NoDup_ListNoDup, List.NoDup_filter, NoDup_ListNoDup. done.
  - intros t. rewrite lq_quota0, lq_quota_for0. done.
  - intros v m. rewrite lq_max0. eauto.
  - intros id' [? H]. rewrite lq_tickets0, lookup_delete_Some, lq_next0 in *. destruct H. eauto.
  - intros id' k'. rewrite lq_tickets0, lookup_delete_Some. intros [_ ?]. eauto.
Qed.

(** What joining the queue under a fresh id changes. *)
Record joined_queue (k : Ticket) (retry : bool) (s : AdmissionState) (id : WaiterId)
    (s' : AdmissionState) : Prop := {
  jq_id : id = u64_add (ad_next_id s) 1;
  jq_settings : ad_settings s' = ad_settings s;
  jq_capacity : ad_capacity s' = ad_capacity s;
  jq_quota_for : ∀ t, Adm.quota_for t s' = Adm.quota_for t s;
  jq_counts : ad_counts s' = ad_counts s;
  jq_reserved : ad_reserved s' = ad_reserved s;
  jq_reservations : ad_reservations s' = ad_reservations s;
  jq_tickets : tickets s' = <[id := k]> (tickets s);
  jq_queued : ad_queued s' = u64_add (ad_queued s) 1;
  jq_bytes : ad_queued_bytes s' = u64_add (ad_queued_bytes s) (tk_payload_bytes k);
  jq_next : ad_next_id s' = id;
  jq_tenant : ∀ t, tenant s' t
    = if tk_tenant k == t
      then tenant s t <| te_queued_bytes ::= λ n, u64_add n (tk_payload_bytes k) |>
             <| te_queue ::= λ q, if retry then id :: q else app q [id] |>
      else tenant s t;
  jq_rev_counts : ∀ v, rev_counts s' v = rev_counts s v;
  jq_rev_queued : ∀ v, rev_queued s' v
    = if tk_revision k == v then u32_add (rev_queued s v) 1 else rev_queued s v;
  jq_max : ∀ v, re_max_environments <$> ad_revisions s' !! v
    = if tk_revision k == v then Some (Z.max (tk_max_environments k) 1)
      else re_max_environments <$> ad_revisions s !! v;
  jq_outbox : ad_outbox s' = ad_outbox s;
  jq_drains : ad_drains s' = ad_drains s
}.

Lemma join_queue_joined exp k retry now s :
  let '(id, s') := Adm.join_queue exp k retry now s in joined_queue k retry s id s'.
Proof.
  unfold Adm.join_queue. cbn [Adm.next].
  constructor; try by destruct retry.
  - destruct retry; unfold tickets; cbn; by rewrite fmap_insert.
  - intros t. unfold tenant. destruct retry; cbn; case_bool_decide as E; subst;
      rewrite ?lookup_insert_eq, ?lookup_insert_ne by done; done.
  - intros v. unfold rev_counts. destruct (decide (tk_revision k = v)) as [E|]; destruct retry; cbn;
      subst; rewrite ?lookup_insert_eq, ?lookup_insert_ne by done; cbn; try done;
      by destruct (ad_revisions s !! _).
  - intros v. unfold rev_queued. destruct retry; cbn; case_bool_decide as E; subst;
      rewrite ?lookup_insert_eq, ?lookup_insert_ne by done; cbn; try done;
      by destruct (ad_revisions s !! _).
  - intros v. destruct retry; cbn; case_bool_decide as E; subst;
      rewrite ?lookup_insert_eq, ?lookup_insert_ne by done; cbn; try done.
Qed.

(** A newcomer joins the queue. *)
Lemma join_Inv k retry s id s' :
  Inv s → ad_next_id s + Z.of_nat (size (tickets s)) + 2 ≤ b → ticket_ok max_of k →
  joined_queue k retry s id s' → Inv s'.
Proof.
  intros HI Hroom Hk Hj.
  pose proof (ticket_sum_bound s tk_payload_bytes limit HI ltac:(done) payload_limit) as [_ Bp].
  pose proof (λ t, proj2 (ticket_sum_bound s (payload_for t) limit HI ltac:(done)
                            (payload_for_limit t))) as Bt.
  pose proof (λ v, proj2 (ticket_sum_bound s (waits_for v) 1 HI ltac:(done) (waits_for_limit v))) as Bw.
  pose proof (Inv_next_bound s HI) as Hn. pose proof (payload_limit k Hk) as Hp.
  destruct HI as [HL HQ Hbd Hlim].
  assert (limit * (Z.of_nat (size (tickets s)) + 1) ≤ u64_max) as Hmax.
  { unfold limit, id_limit, u64_max in *. lia. }
  assert (u64_add (ad_next_id s) 1 = ad_next_id s + 1) as Hid.
  { apply u64_add_small. unfold id_limit, u64_max in *. lia. }
  assert (∀ t, te_in_flight (tenant s' t) = te_in_flight (tenant s t)
               ∧ te_quota (tenant s' t) = te_quota (tenant s t)) as Hf.
  { intros t. rewrite (jq_tenant _ _ _ _ _ Hj) by done. by destruct (_ == _). }
  destruct Hj. rewrite Hid in jq_id0. subst id.
  assert (tickets s !! (ad_next_id s + 1) = None) as Hfresh.
  { destruct HQ. apply eq_None_not_Some. intros H%inv_wids0. lia. }
  constructor; [destruct HL| |rewrite jq_next0, jq_tickets0, map_size_insert_None by done; lia|done].
  { constructor; intros;
      rewrite ?jq_counts0, ?jq_reserved0, ?jq_reservations0, ?jq_next0, ?jq_rev_counts0,
        ?(proj1 (Hf _)) in *; eauto; [|lia]. assert (0 < id ≤ ad_next_id s) by eauto. lia. }
  destruct HQ. constructor; rewrite ?jq_tickets0, ?jq_next0.
  - rewrite jq_queued0, map_size_insert_None, inv_queued0 by done.
    rewrite u64_add_small; unfold u64_max, id_limit in *; lia.
  - rewrite jq_bytes0, total_insert, inv_bytes0 by done. rewrite u64_add_small; unfold limit in *; lia.
  - intros t. rewrite jq_tenant0, total_insert, <-inv_tbytes0 by done.
    specialize (Bt t). rewrite <-inv_tbytes0 in Bt.
    unfold payload_for. case_bool_decide; cbn -[tenant]; [|lia].
    rewrite u64_add_small; unfold limit in *; lia.
  - intros v. rewrite jq_rev_queued0, total_insert, <-inv_rqueued0 by done.
    specialize (Bw v). rewrite <-inv_rqueued0 in Bw.
    unfold waits_for. case_bool_decide; cbn; [|lia].
    rewrite u32_add_small; unfold id_limit, u32_max in *; lia.
  - intros t id. rewrite jq_tenant0. setoid_rewrite lookup_insert_Some.
    case_bool_decide as E; cbn -[tenant].
    + transitivity (id = ad_next_id s + 1 ∨ id ∈ te_queue (tenant s t)).
      { destruct retry; set_solver. }
      rewrite inv_queue0. split; [|naive_solver].
      intros [->|(k' & Hk' & ?)]; [eauto|]. exists k'. split; [right; split; [congruence|done]|done].
    + rewrite inv_queue0. split; [|naive_solver].
      intros (k' & Hk' & ?). exists k'. split; [right; split; [congruence|done]|done].
  - intros t. rewrite jq_tenant0. case_bool_decide as E; [|done]. cbn -[tenant].
    assert (ad_next_id s + 1 ∉ te_queue (tenant s t)) as Hnew.
    { intros (k' & ? & _)%inv_queue0. congruence. }
    destruct retry; [by constructor|]. apply NoDup_app. set_solver by eauto using NoDup_singleton.
  - intros t. rewrite (proj2 (Hf t)), jq_quota_for0. done.
  - intros v m. rewrite jq_max0. case_bool_decide; [|eauto]. subst. intros [= <-]. apply Hk.
  - intros id [k' [[<- _]|[_ H]]%lookup_insert_Some]; [lia|].
    assert (0 < id ≤ ad_next_id s) by eauto. lia.
  - intros id k' [[<- <-]|[_ H]]%lookup_insert_Some; eauto.
Qed.

(** A fresh id, and the reservation made under it. *)
Lemma next_Inv s :
  Inv s → ad_next_id s + Z.of_nat (size (tickets s)) + 1 ≤ b →
  (Adm.next s).1 = ad_next_id s + 1 ∧ Inv (Adm.next s).2
  ∧ ad_next_id (Adm.next s).2 = ad_next_id s + 1
  ∧ ad_reservations s !! (ad_next_id s + 1) = None.
Proof.
  intros HI Hroom. pose proof (Inv_next_bound s HI) as Hn. destruct HI as [HL HQ Hb Hl].
  assert (u64_add (ad_next_id s) 1 = ad_next_id s + 1) as E.
  { apply u64_add_small. unfold id_limit, u64_max in *. lia. }
  unfold Adm.next. cbn [fst snd]. rewrite E. split_and!; [done| |done|].
  - constructor; [destruct HL|destruct HQ| |done]; [| |change (ad_next_id s + 1 + Z.of_nat (size (tickets s)) ≤ b); lia].
    + constructor; try done; cbn; [|lia]. intros id H. apply inv_ids0 in H. lia.
    + constructor; try done. cbn. intros id H. apply inv_wids0 in H. lia.
  - destruct HL. apply eq_None_not_Some. intros H%inv_ids0. lia.
Qed.

Lemma alloc_Inv s r :
  Inv s → ad_next_id s + Z.of_nat (size (tickets s)) + 1 ≤ b →
  res_bounded limit (rs_resources r) → is_Some (ad_revisions s !! rs_revision r) →
  Inv (Adm.insert_reservation (Adm.next s).1 r (Adm.next s).2).
Proof.
  intros HI Hroom Hr Hrev. pose proof (Inv_next_bound s HI).
  assert (Z.of_nat (size (ad_reservations s)) ≤ ad_next_id s) by (destruct HI as [[]]; done).
  destruct (next_Inv s HI Hroom) as (E & HI' & En & Hfresh). rewrite E.
  eapply insert_Inv; [exact HI' | exact Hfresh | rewrite En; lia | rewrite En; change (ad_reservations (Adm.next s).2) with (ad_reservations s); lia
                     | done | done | apply insert_booked].
Qed.

(** A reservation changes state: it leaves the ledger and comes back. *)
Lemma rebook_eq id r r' s :
  Adm.account r' true (Adm.account r false s) <| ad_reservations ::= <[id := r']> |>
  = Adm.insert_reservation id r' (Adm.remove_reservation id r s).
Proof.
  unfold Adm.remove_reservation, Adm.insert_reservation, Adm.account.
  destruct r as [t v a st p], r' as [t' v' a' st' p']; cbn [rs_state].
  destruct s, (ResState.holds_resources st), (ResState.in_flight st),
    (ResState.holds_resources st'), (ResState.in_flight st'); cbn -[Cnt.inc Cnt.dec];
    by rewrite insert_delete_eq.
Qed.

Lemma rebook_Inv s id r r' :
  Inv s → ad_reservations s !! id = Some r →
  res_bounded limit (rs_resources r') → rs_revision r' = rs_revision r →
  Inv (Adm.insert_reservation id r' (Adm.remove_reservation id r s)).
Proof.
  intros HI Hid Hr' Hv. pose proof (remove_booked id r s) as Hb.
  pose proof (remove_Inv s id r _ HI Hid Hb) as HI'. destruct HI as [HL _ _ _].
  pose proof (reserved_revision s id r HL Hid) as Hrev.
  assert (0 < id ≤ ad_next_id s) as Hrange by (destruct HL; eauto).
  assert (Z.of_nat (size (ad_reservations s)) ≤ ad_next_id s) by (destruct HL; done).
  eapply insert_Inv; [exact HI'| | | | done | | apply insert_booked];
    rewrite ?(bk_reservations _ _ _ _ _ Hb), ?(bk_next _ _ _ _ _ Hb).
  - apply lookup_delete_eq.
  - done.
  - rewrite map_size_delete_Some by eauto.
    assert (size (ad_reservations s) ≠ O); [|lia].
    intros E%map_size_empty_inv. by rewrite E, lookup_empty in Hid.
  - rewrite Hv. destruct Hrev as [e He]. pose proof (bk_max _ _ _ _ _ Hb (rs_revision r)) as Hm.
    rewrite He in Hm. destruct (ad_revisions (Adm.remove_reservation id r s) !! rs_revision r); done.
Qed.

Lemma set_state_Inv s id to : Inv s → Inv (Adm.set_state id to s).
Proof.
  intros HI. unfold Adm.set_state. destruct (ad_reservations s !! id) as [r|] eqn:Hid; [|done].
  case_bool_decide; [done|]. cbv zeta. rewrite rebook_eq.
  assert (res_bounded limit (rs_resources r)) by (destruct HI as [[] _ _ _]; eauto).
  by apply rebook_Inv.
Qed.

(** The probe flag of a reservation is not in any sum. *)
Lemma probe_Inv s id r :
  Inv s → ad_reservations s !! id = Some r →
  Inv (s <| ad_reservations ::= <[id := r <| rs_probe := false |>]> |>).
Proof.
  intros [HL HQ Hb Hl] Hid.
  assert (∀ w, w (r <| rs_probe := false |>) = w r →
            total w (<[id := r <| rs_probe := false |>]> (ad_reservations s))
            = total w (ad_reservations s)) as E.
  { intros w Hw. rewrite (total_replace _ _ _ r) by done. lia. }
  constructor; [destruct HL| |done|done].
  - constructor; intros; cbn -[tenant rev_counts] in *; rewrite ?E by done; eauto.
    + rewrite inv_reserved0. unfold held_sum. by rewrite !E.
    + destruct (decide (id = id0)) as [<-|]; [eauto|]. rewrite lookup_insert_ne in * by done. eauto.
    + apply lookup_insert_Some in H as [[<- <-]|[_ H]]; cbn; eauto.
    + rewrite map_size_insert_Some by done. done.
  - destruct HQ. by constructor.
Qed.

(** An entry that counts nothing is forgotten. *)
Lemma forget_Inv s v rev :
  Inv s → ad_revisions s !! v = Some rev → Cnt.is_empty (re_counts rev) = true →
  re_queued rev = 0 → Inv (s <| ad_revisions ::= base.delete v |>).
Proof.
  intros [HL HQ Hb Hl] Hv He Hq.
  assert (re_counts rev = Cnt.zero) as Hz.
  { destruct (re_counts rev). unfold Cnt.is_empty in He. cbn -[Z.eqb] in He. bools. by subst. }
  set (s' := _ <| ad_revisions ::= _ |>).
  assert (∀ v', rev_counts s' v' = rev_counts s v' ∧ rev_queued s' v' = rev_queued s v') as E.
  { intros v'. unfold s', rev_counts, rev_queued; cbn. destruct (decide (v = v')) as [<-|].
    - by rewrite lookup_delete_eq, Hv.
    - by rewrite lookup_delete_ne. }
  constructor; [destruct HL|destruct HQ|done|done]; constructor; intros;
    rewrite ?(proj1 (E _)), ?(proj2 (E _)); eauto.
  eapply (inv_max0 v0). revert H. unfold s'; cbn. destruct (decide (v = v0)) as [<-|].
  - by rewrite lookup_delete_eq.
  - by rewrite lookup_delete_ne.
Qed.

(** A revision entry is made or brought up to date. *)
Lemma revision_entry_Inv s k :
  Inv s → ticket_ok max_of k → Inv (Adm.revision_entry k (λ rev, rev) s).
Proof.
  intros [HL HQ Hb Hl] Hk. set (s' := Adm.revision_entry _ _ _).
  assert (∀ v, rev_counts s' v = rev_counts s v ∧ rev_queued s' v = rev_queued s v) as E.
  { intros v. unfold s', rev_counts, rev_queued; cbn. destruct (decide (tk_revision k = v)) as [<-|].
    - rewrite lookup_insert_eq. by destruct (ad_revisions s !! _).
    - by rewrite lookup_insert_ne. }
  constructor; [destruct HL|destruct HQ|done|done]; constructor; intros;
    rewrite ?(proj1 (E _)), ?(proj2 (E _)); eauto.
  revert H. unfold s'; cbn. destruct (decide (tk_revision k = v)) as [<-|].
  - rewrite lookup_insert_eq. intros [= <-]. apply Hk.
  - rewrite lookup_insert_ne by done. eauto.
Qed.

(** Reports, drains and routes are in no sum. *)
Lemma outbox_Inv s f : Inv s → Inv (s <| ad_outbox ::= f |>).
Proof. intros [[] [] ? ?]. by constructor; [constructor|constructor|..]. Qed.
Lemma drains_Inv s f : Inv s → Inv (s <| ad_drains ::= f |>).
Proof. intros [[] [] ? ?]. by constructor; [constructor|constructor|..]. Qed.
End Primitives.
