(* ===== verification/AdmissionSched.v ===== *)
(** * The scheduler as a transition system

    [Adm.pump] is a sequence of small steps: a change no sum sees, a waiter
    answered with a rejection, a waiter granted a reservation that the limits
    allow ([micro]). Every invariant of the scheduler is proved step by step. *)

From S2P Require Import Prelude Sums Scaler Admission AdmissionInv.

Open Scope Z_scope.

(** ** Changes that no sum sees *)

Lemma reject_count_core reason s : Adm.reject_count reason s ≡ s.
Proof. by constructor. Qed.

Section Neutral.
Context (exp : SpecFloat.spec_float → SpecFloat.spec_float) `{HO : !HashOrder}.
Implicit Types (s : AdmissionState) (now : Timestamp).

Lemma record_scale_core v kind reason now s : Adm.record_scale v kind reason now s ≡ s.
Proof.
  unfold Adm.record_scale. cbn [ad_revisions set_field].
  destruct (ad_revisions s !! v) as [e|]; by constructor.
Qed.

Lemma breaker_core v f s : Adm.on_revision v (λ rev, rev <| re_breaker ::= f |>) s ≡ s.
Proof. by apply on_revision_core. Qed.

Lemma set_breaker_core v e x s :
  ad_revisions s !! v = Some e → s <| ad_revisions ::= <[v := e <| re_breaker := x |>]> |> ≡ s.
Proof.
  intros He. constructor; try done; intros v'; unfold rev_counts, rev_queued; cbn;
    (destruct (decide (v = v')) as [<-|];
      [by rewrite lookup_insert_eq, He | by rewrite lookup_insert_ne]).
Qed.

Lemma mark_core id f s :
  (∀ w, wt_ticket (f w) = wt_ticket w) → s <| ad_waiters ::= alter f id |> ≡ s.
Proof.
  intros Hf. constructor; try done. unfold tickets; cbn. apply map_eq. intros id'.
  rewrite !lookup_fmap. destruct (decide (id = id')) as [<-|].
  - rewrite lookup_alter_eq. destruct (ad_waiters s !! id); cbn; by rewrite ?Hf.
  - by rewrite lookup_alter_ne.
Qed.

Lemma serve_core t s : Adm.serve t s ≡ s.
Proof.
  constructor; try done; intros t'; unfold Adm.serve; rewrite tenant_tenant_entry; by case_decide; subst.
Qed.

Lemma start_cold_core t now s : (Adm.start_cold t now s).2 ≡ s.
Proof.
  unfold Adm.start_cold. cbn [ad_revisions set_field].
  destruct (ad_revisions s !! tk_revision t) as [rev|]; [|by constructor].
  destruct (Breaker.gate now (re_breaker rev)) as [gate breaker]. cbn [snd].
  rewrite record_scale_core, on_revision_core by done. by constructor.
Qed.

(** ** What a decision of the scheduler rests on *)

(** The limits allow one more environment in flight for the ticket. *)
Definition grantable (kind : GrantKind.t) (k : Ticket) s : Prop :=
  let t := tenant s (tk_tenant k) in
  Cnt.in_flight (ad_counts s) < set_max_concurrency (ad_settings s)
  ∧ (∀ m, tq_max_concurrency (te_quota t) = Some m → te_in_flight t < m)
  ∧ (∃ m, re_max_environments <$> ad_revisions s !! tk_revision k = Some m
          ∧ Cnt.in_flight (rev_counts s (tk_revision k)) < m)
  ∧ match kind with
    | GrantKind.Cold => admits (ad_capacity s) (plus (ad_reserved s) (tk_resources k)) = true
    | GrantKind.Warm => n_promised (rev_counts s (tk_revision k)) < n_idle (rev_counts s (tk_revision k))
    end.

#[global] Instance grantable_proper kind k : Proper ((≡) ==> iff) (grantable kind k).
Proof.
  intros s s' E. unfold grantable. cbv zeta.
  by rewrite (ce_settings _ _ E), (ce_capacity _ _ E), (ce_reserved _ _ E), (ce_counts _ _ E),
    (ce_flight _ _ E), (ce_quota _ _ E), (ce_rcounts _ _ E), (ce_max _ _ E).
Qed.

(** The revision of the ticket is being deleted. *)
Definition deleting (k : Ticket) s : Prop :=
  ad_drains s !! tk_revision k = Some DrainReason.FunctionDeleted.

Definition considered (e : Adm.Eval) (k : Ticket) s : Prop :=
  match e with
  | Adm.EGrant kind => grantable kind k s ∧ ¬ deleting k s
  | Adm.EReject _ => True
  | Adm.EBlocked reason node_wide => ¬ deleting k s ∧
      (node_wide = true → reason ≠ BlockReason.Pending) ∧
      (is_Some (ad_tenants s !! tk_tenant k) → is_Some (ad_revisions s !! tk_revision k) →
       reason ≠ BlockReason.Pending)
  end.

Lemma evaluate_spec id now nb s e s' :
  nb ≠ Some BlockReason.Pending → Adm.evaluate exp id now nb s = (e, s') →
  s' ≡ s ∧ ad_waiters s' = ad_waiters s
  ∧ match ad_waiters s !! id with
           | Some w => considered e (wt_ticket w) s
           | None => e = Adm.EBlocked BlockReason.Pending false
           end.
Proof.
  intros Hnb. unfold Adm.evaluate. destruct (ad_waiters s !! id) as [w|]; [|intros [= <- <-]; eauto].
  set (k := wt_ticket w). case_bool_decide as Hd; [by intros [= <- <-]|].
  destruct (ad_tenants s !! tk_tenant k) as [te|] eqn:Ht;
    [|intros [= <- <-]; do 4 (split; [done|]); rewrite Ht; by intros []].
  destruct (ad_revisions s !! tk_revision k) as [rev|] eqn:Hr;
    [|intros [= <- <-]; do 4 (split; [done|]); rewrite Hr; by intros ? []].
  destruct (Breaker.gate now (re_breaker rev)) as [gate breaker].
  cbv zeta. cbn [re_counts re_max_environments].
  set (s1 := s <| ad_revisions ::= <[tk_revision k := rev <| re_breaker := breaker |>]> |>).
  assert (s1 ≡ s) as E1 by by apply set_breaker_core.
  assert (tenant s (tk_tenant k) = te) as Et by by unfold tenant; rewrite Ht.
  assert (rev_counts s (tk_revision k) = re_counts rev) as Er by by unfold rev_counts; rewrite Hr.
  change (ad_capacity s1) with (ad_capacity s). change (ad_reserved s1) with (ad_reserved s).
  change (ad_counts s1) with (ad_counts s). change (ad_settings s1) with (ad_settings s).
  repeat case_match; intros [= <- <-]; bools; (split; [etrans; [|exact E1]; by constructor|]); (split; [done|]);
    unfold considered, grantable; cbv zeta; rewrite ?Et, ?Er, ?Hr; repeat split; try done; eauto.
  all: try (intros ->; by destruct Hnb).
  all: try (intros _ _ ->; by destruct Hnb).
  all: intros m Hm; match goal with H : is_some_and _ _ = false |- _ => rewrite Hm in H; cbn in H end;
    bools; lia.
Qed.

(** A waiter that a pass left in the queue: it was looked at, something blocks it,
    and its revision is not being deleted. *)
Definition settled (id : WaiterId) s : Prop :=
  ∀ w, ad_waiters s !! id = Some w →
  ¬ deleting (wt_ticket w) s ∧ wt_blocked w ≠ BlockReason.Pending.

Lemma mark_settled id id' reason s :
  reason ≠ BlockReason.Pending → settled id' s →
  settled id' (Adm.mark_blocked id reason s).
Proof.
  intros Hr Hs w Hw. cbn in Hw. destruct (decide (id = id')) as [<-|].
  - rewrite lookup_alter_eq in Hw. destruct (ad_waiters s !! id) as [w0|] eqn:E; [|done].
    injection Hw as <-. split; [by apply (Hs w0)|done].
  - rewrite lookup_alter_ne in Hw by done. by apply Hs.
Qed.

(** What the decision of a pass means. *)
Definition decided (d : Adm.decision) s : Prop :=
  match d with
  | Some (id, inl kind) =>
      ∃ w, ad_waiters s !! id = Some w ∧ grantable kind (wt_ticket w) s ∧ ¬ deleting (wt_ticket w) s
  | Some (id, inr _) => is_Some (ad_waiters s !! id)
  | None => True
  end.

Lemma deleting_core k s s' : s ≡ s' → deleting k s ↔ deleting k s'.
Proof. intros E. unfold deleting. by rewrite (ce_drains _ _ E). Qed.

Lemma scan_queue_spec max_of b ids now nb s d nb' s' :
  Inv max_of b s → nb ≠ Some BlockReason.Pending →
  Adm.scan_queue exp ids now nb s = (d, nb', s') →
  s' ≡ s ∧ nb' ≠ Some BlockReason.Pending ∧ decided d s'
  ∧ (∀ id, settled id s → settled id s') ∧ (d = None → Forall (λ id, settled id s') ids).
Proof.
  revert nb s. induction ids as [|id ids IH]; intros nb s HI Hnb; cbn -[Adm.evaluate].
  { intros [= <- <- <-]. by split_and!. }
  destruct (Adm.evaluate exp id now nb s) as [e s1] eqn:He.
  destruct (evaluate_spec _ _ _ _ _ _ Hnb He) as (E & Ew & Hc).
  assert (∀ id', settled id' s → settled id' s1) as Hset.
  { intros id' Hs w. rewrite Ew. intros Hw. rewrite (deleting_core _ _ _ E). by apply Hs. }
  destruct e as [kind|r|reason node_wide].
  - intros [= <- <- <-]. split_and!; try done. cbn. rewrite Ew.
    destruct (ad_waiters s !! id) as [w|] eqn:Hw; [|done].
    exists w. by rewrite (deleting_core _ _ _ E), E.
  - intros [= <- <- <-]. split_and!; try done. cbn. rewrite Ew. by destruct (ad_waiters s !! id).
  - set (s2 := Adm.mark_blocked id reason s1). intros Hscan.
    assert (s2 ≡ s) as E2 by by (rewrite <-E; apply mark_core).
    assert (Inv max_of b s2) as HI2 by by rewrite E2.
    assert (node_wide = true → reason ≠ BlockReason.Pending) as Hwide.
    { destruct (ad_waiters s !! id) as [w|]; [apply Hc|by injection Hc as -> ->]. }
    apply IH in Hscan as (E3 & Hnb' & Hd & Hs & Hall); [|done|].
    2: { destruct node_wide, nb; cbn; try done. intros [= ->]. by apply Hwide. }
    assert (settled id s2) as Hid.
    { intros w2 Hw2. cbn in Hw2. rewrite lookup_alter_eq, Ew in Hw2.
      destruct (ad_waiters s !! id) as [w|] eqn:Hw; [|done]. injection Hw2 as <-.
      destruct Hc as (Hdel & _ & Hreason). split; [by rewrite (deleting_core _ _ _ E2)|]. apply Hreason.
      - eapply waiting_tenant; [apply HI|]. apply tickets_lookup. eauto.
      - eapply waiting_revision; [apply HI|]. apply tickets_lookup. eauto. }
    assert (∀ id', settled id' s → settled id' s2) as Hset2.
    { intros id' Hs'. destruct (decide (id = id')) as [<-|Hne]; [done|].
      intros w Hw. cbn in Hw. rewrite lookup_alter_ne in Hw by done. by apply (Hset id' Hs'). }
    split_and!; [by rewrite E3|done|done|by eauto|]. intros ->. constructor; [by apply Hs|by apply Hall].
Qed.

Lemma scan_tenants_spec max_of b order now nb s d s' :
  Inv max_of b s → nb ≠ Some BlockReason.Pending →
  Adm.scan_tenants exp order now nb s = (d, s') →
  s' ≡ s ∧ decided d s' ∧ (∀ id, settled id s → settled id s')
  ∧ (d = None → Forall (λ t, Forall (λ id, settled id s') (te_queue (tenant s t))) order).
Proof.
  revert nb s. induction order as [|t order IH]; intros nb s HI Hnb; cbn -[Adm.scan_queue].
  { intros [= <- <-]. by split_and!. }
  destruct (Adm.scan_queue _ _ _ _ _) as [[d1 nb1] s1] eqn:Hq.
  destruct (scan_queue_spec _ _ _ _ _ _ _ _ _ HI Hnb Hq) as (E & Hnb1 & Hd & Hs & Hall).
  destruct d1 as [d1|]; [intros [= <- <-]; by split_and!|]. intros Hscan.
  assert (Inv max_of b s1) as HI1 by by rewrite E.
  apply IH in Hscan as (E' & Hd' & Hs' & Hall'); [|done|done].
  split_and!; [by rewrite E'|done|by eauto|]. intros ->. constructor.
  - specialize (Hall eq_refl). unfold tenant.
    destruct (ad_tenants s !! t) as [e|]; [|by constructor].
    eapply Forall_impl; [exact Hall|]. cbn. eauto.
  - specialize (Hall' eq_refl). eapply Forall_impl; [exact Hall'|].
    intros t' Ht'. by rewrite <-(ce_queue _ _ E).
Qed.

(** ** Small steps *)

(** The state a granted reservation starts in. *)
Definition granted_state (kind : GrantKind.t) : ResState.t :=
  match kind with GrantKind.Cold => ResState.Starting | GrantKind.Warm => ResState.Promised end.

(** The waiter [id] is answered. *)
Inductive settles (id : WaiterId) (s s' : AdmissionState) : Prop :=
| settles_refuse k r s1 :
    tickets s !! id = Some k → left_queue id k s s1 →
    s' ≡ Adm.answer id (Rejected r) s1 → settles id s s'
| settles_grant k kind probe s1 :
    tickets s !! id = Some k → grantable kind k s → ¬ deleting k s → left_queue id k s s1 →
    s' ≡ Adm.answer id (Granted (Adm.next s1).1 kind)
           (Adm.insert_reservation (Adm.next s1).1
              (mkReservation (tk_tenant k) (tk_revision k) (tk_resources k) (granted_state kind) probe)
              (Adm.next s1).2) →
    settles id s s'.

Inductive micro : relation AdmissionState :=
| micro_neutral s s' : s' ≡ s → micro s s'
| micro_settles id s s' : settles id s s' → micro s s'.

#[global] Instance answer_proper id o : Proper ((≡) ==> (≡)) (Adm.answer id o).
Proof.
  intros s s' E. pose proof (ce_outbox _ _ E) as Eo. destruct E. constructor; try done.
  cbn. by rewrite Eo.
Qed.

Lemma refuse_settles id r s :
  is_Some (ad_waiters s !! id) → settles id s (Adm.refuse_waiter id r s).
Proof.
  intros [w Hw]. eapply (settles_refuse id _ _ (wt_ticket w) r).
  - apply tickets_lookup. eauto.
  - by apply remove_waiter_left.
  - unfold Adm.refuse_waiter. by rewrite reject_count_core.
Qed.

Lemma grant_settles id kind now s w :
  ad_waiters s !! id = Some w → grantable kind (wt_ticket w) s → ¬ deleting (wt_ticket w) s →
  settles id s (Adm.grant id kind now s).
Proof.
  intros Hw Hg Hd. pose proof (remove_waiter_left id s w Hw) as Hl.
  assert ((Adm.remove_waiter id s).1 = Some w) as E1 by by unfold Adm.remove_waiter; rewrite Hw.
  unfold Adm.grant. destruct (Adm.remove_waiter id s) as [ow s1]. cbn in E1, Hl. subst ow.
  set (s2 := s1 <| ad_counters ::= _ |>). assert (s2 ≡ s1) as E2 by by constructor.
  assert (∃ probe s3, s3 ≡ s1 ∧
    (match kind with
     | GrantKind.Warm => (ResState.Promised, false, s2)
     | GrantKind.Cold => let '(probe, s) := Adm.start_cold (wt_ticket w) now s2 in
                         (ResState.Starting, probe, s)
     end) = (granted_state kind, probe, s3)) as (probe & s3 & E3 & ->).
  { destruct kind; [|by exists false, s2].
    pose proof (start_cold_core (wt_ticket w) now s2) as E.
    destruct (Adm.start_cold (wt_ticket w) now s2) as [probe s3]. exists probe, s3.
    split; [by rewrite <-E2|done]. }
  eapply (settles_grant id _ _ (wt_ticket w) kind probe s3); [apply tickets_lookup; eauto|done..| |].
  - by eapply left_queue_core.
  - unfold Adm.next. cbn [fst snd]. by rewrite serve_core.
Qed.

End Neutral.

(** ** Invariants of the small steps *)

(** The reservations stay within the node, the tenants' quotas and the revisions' caps. *)
Record within (max_of : RevisionId → Z) (s : AdmissionState) : Prop := {
  wi_node : admits (ad_capacity s) (held_sum (ad_reservations s)) = true;
  wi_total : total flies (ad_reservations s) ≤ set_max_concurrency (ad_settings s);
  wi_tenant : ∀ t q, tq_max_concurrency (Adm.quota_for t s) = Some q →
    total (flies_for t) (ad_reservations s) ≤ q;
  wi_revision : ∀ v, total (flies_of v) (ad_reservations s) ≤ max_of v
}.

(** The ids answered so far: [given] before, and those in the outbox. *)
Definition outcomes (given : list WaiterId) (s : AdmissionState) : list WaiterId :=
  app given (ad_outbox s).*1.

(** Whoever was answered, now or before ([given]), was answered once and waits no more. *)
Record answered_once (given : list WaiterId) (s : AdmissionState) : Prop := {
  ao_once : NoDup (outcomes given s);
  ao_gone : ∀ id, id ∈ outcomes given s → tickets s !! id = None;
  ao_old : ∀ id, id ∈ outcomes given s → 0 < id ≤ ad_next_id s
}.

(** An id is accounted for when it waits, or has been answered. *)
Definition accounted (given : list WaiterId) (s : AdmissionState) (id : WaiterId) : Prop :=
  is_Some (tickets s !! id) ∨ id ∈ outcomes given s.

Section Micro.
Context (max_of : RevisionId → Z) (b : Z).
Implicit Types (s : AdmissionState) (r : Reservation).
Notation Inv := (Inv max_of b).

Lemma in_flight_sum s c (w : ResState.t → Reservation → Z) u :
  Inv s → (∀ st, Cnt.get c st = total (w st) (ad_reservations s)) →
  (∀ r, u r = w ResState.Promised r + w ResState.Starting r + w ResState.Busy r) →
  (∀ st r, 0 ≤ w st r) → (∀ r, 0 ≤ u r ≤ 1) → Cnt.in_flight c = total u (ad_reservations s).
Proof.
  intros HI Hc Hu Hw Hb. pose proof (Inv_count_bound max_of b s u HI Hb) as B.
  assert (∀ st, 0 ≤ total (w st) (ad_reservations s)) as Hn.
  { intros st. apply total_nonneg. intros; apply Hw. }
  pose proof (Hn ResState.Promised). pose proof (Hn ResState.Starting). pose proof (Hn ResState.Busy).
  rewrite (total_add (λ r, w ResState.Promised r + w ResState.Starting r) (w ResState.Busy) u) in *
    by done.
  rewrite (total_add (w ResState.Promised) (w ResState.Starting)
             (λ r, w ResState.Promised r + w ResState.Starting r)) in * by done.
  rewrite <-!Hc in *. unfold Cnt.in_flight. cbn in *. unfold u32_max in *.
  rewrite (u32_add_small (n_promised c)) by (unfold u32_max; lia).
  apply u32_add_small. unfold u32_max. lia.
Qed.

Lemma flies_sum r : flies r = in_state ResState.Promised r + in_state ResState.Starting r
                              + in_state ResState.Busy r.
Proof. unfold flies, in_state. by destruct (rs_state r). Qed.

Lemma node_in_flight s : Inv s → Cnt.in_flight (ad_counts s) = total flies (ad_reservations s).
Proof.
  intros HI. apply (in_flight_sum s _ in_state); [done|apply HI|apply flies_sum| |apply flies_01].
  intros. apply in_state_01.
Qed.

Lemma revision_in_flight s v :
  Inv s → Cnt.in_flight (rev_counts s v) = total (flies_of v) (ad_reservations s).
Proof.
  intros HI. apply (in_flight_sum s _ (of_revision v)); [done|apply HI| | |apply flies_of_01].
  - intros r. unfold flies_of, of_revision. rewrite flies_sum. lia.
  - intros. apply of_revision_01.
Qed.

Lemma leave_size id k s s1 :
  tickets s !! id = Some k → left_queue id k s s1 →
  Z.of_nat (size (tickets s1)) + 1 = Z.of_nat (size (tickets s)).
Proof.
  intros Hk Hl. rewrite (lq_tickets _ _ _ _ Hl), map_size_delete_Some by eauto.
  assert (size (tickets s) ≠ O); [|lia].
  intros E%map_size_empty_inv. by rewrite E, lookup_empty in Hk.
Qed.

Lemma micro_Inv s s' : micro s s' → Inv s → Inv s'.
Proof.
  intros [s1 s2 E|id s1 s3 [k r s2 Hk Hl E|k kind probe s2 Hk Hg _ Hl E]] HI.
  - by rewrite E.
  - rewrite E. apply outbox_Inv. by eapply leave_Inv.
  - rewrite E. apply outbox_Inv. pose proof (leave_Inv _ _ _ _ _ _ HI Hk Hl) as HI2.
    pose proof (leave_size _ _ _ _ Hk Hl). apply alloc_Inv; [done|..].
    + rewrite (lq_next _ _ _ _ Hl). destruct HI as [_ _ ? _]. lia.
    + by destruct (inv_tickets _ _ (inv_waiting _ _ _ HI) _ _ Hk).
    + destruct Hg as (_ & _ & (m & Hm & _) & _). rewrite <-(lq_max _ _ _ _ Hl) in Hm. cbn.
      by destruct (ad_revisions s2 !! tk_revision k).
Qed.

Lemma micros_Inv s s' : rtc micro s s' → Inv s → Inv s'.
Proof. induction 1; eauto using micro_Inv. Qed.

#[local] Instance within_proper : Proper ((≡) ==> iff) (within max_of).
Proof.
  assert (∀ s s' : AdmissionState, s ≡ s' → within max_of s → within max_of s') as H.
  { intros s s' E [W1 W2 W3 W4]. pose proof (λ t, quota_for_core s s' t E) as Hq. destruct E.
    constructor; intros; rewrite_core; eauto. eapply W3. by rewrite Hq. }
  intros s s' E. split; apply H; [done|by symmetry].
Qed.

Lemma left_within id k s s1 : left_queue id k s s1 → within max_of s → within max_of s1.
Proof.
  intros Hl [W1 W2 W3 W4]. constructor; rewrite ?(lq_capacity _ _ _ _ Hl), ?(lq_settings _ _ _ _ Hl),
    ?(lq_reservations _ _ _ _ Hl); try done.
  intros t q. rewrite (lq_quota_for _ _ _ _ Hl). apply W3.
Qed.

Lemma answer_within id o s : within max_of s → within max_of (Adm.answer id o s).
Proof. intros [W1 W2 W3 W4]. by constructor. Qed.

(** A reservation that every limit has room for stays within the limits. *)
Lemma alloc_within s r :
  Inv s → ad_next_id s + Z.of_nat (size (tickets s)) + 1 ≤ b → within max_of s →
  res_bounded limit (rs_resources r) → flies r = 1 →
  total flies (ad_reservations s) < set_max_concurrency (ad_settings s) →
  (∀ q, tq_max_concurrency (Adm.quota_for (rs_tenant r) s) = Some q →
    total (flies_for (rs_tenant r)) (ad_reservations s) < q) →
  total (flies_of (rs_revision r)) (ad_reservations s) < max_of (rs_revision r) →
  (ResState.holds_resources (rs_state r) = true →
    admits (ad_capacity s) (plus (ad_reserved s) (rs_resources r)) = true) →
  within max_of (Adm.insert_reservation (Adm.next s).1 r (Adm.next s).2).
Proof.
  intros HI Hroom [W1 W2 W3 W4] Hr Hf Hmax Hten Hrev Hfit.
  destruct (next_Inv _ _ _ HI Hroom) as (En & _ & _ & Hfresh). rewrite En.
  pose proof (insert_booked (ad_next_id s + 1) r (Adm.next s).2) as Hb.
  set (s4 := Adm.insert_reservation _ _ _) in *.
  assert (ad_reservations s4 = <[ad_next_id s + 1 := r]> (ad_reservations s)) as Em by apply Hb.
  constructor; rewrite ?Em, ?(bk_capacity _ _ _ _ _ Hb), ?(bk_settings _ _ _ _ _ Hb), ?total_insert by done;
    cbn [Adm.next snd set_field ad_capacity ad_settings].
  - rewrite held_sum_insert by done. destruct (ResState.holds_resources _); [|done].
    rewrite <-Hfit, (inv_reserved _ (inv_ledger _ _ _ HI)) by done. f_equal. symmetry. by eapply plus_held.
  - rewrite Hf. cbn. lia.
  - intros t q Hq. rewrite (bk_quota_for _ _ _ _ _ Hb) in Hq.
    change (Adm.quota_for t _) with (Adm.quota_for t s) in Hq. pose proof (W3 t q Hq).
    rewrite total_insert by done. change (flies_for t r) with (one (rs_tenant r == t) * flies r).
    rewrite Hf. case_bool_decide; subst; cbn; [|lia]. specialize (Hten _ Hq). lia.
  - intros v. pose proof (W4 v). rewrite total_insert by done.
    change (flies_of v r) with (one (rs_revision r == v) * flies r). rewrite Hf.
    case_bool_decide; subst; cbn; lia.
Qed.

(** The node never grants more than it has: a grant stays within the limits. *)
Lemma micro_within s s' : micro s s' → Inv s → within max_of s → within max_of s'.
Proof.
  intros [s1 s2 E|id s1 s3 [k r s2 Hk Hl E|k kind probe s2 Hk Hg _ Hl E]] HI Hw.
  - by rewrite E.
  - rewrite E. by eapply answer_within, left_within.
  - rewrite E. apply answer_within.
    pose proof (leave_Inv _ _ _ _ _ _ HI Hk Hl) as HI2. pose proof (leave_size _ _ _ _ Hk Hl) as Hsz.
    destruct Hg as (Hmax & Hten & (m & Hm & Hrev) & Hkind).
    pose proof (inv_max _ _ (inv_waiting _ _ _ HI) _ _ Hm) as ->.
    rewrite (node_in_flight _ HI) in Hmax. rewrite (revision_in_flight _ _ HI) in Hrev.
    rewrite (inv_flight _ (inv_ledger _ _ _ HI)), (inv_quota _ _ (inv_waiting _ _ _ HI)) in Hten.
    apply alloc_within; cbn [rs_tenant rs_revision rs_resources rs_state];
      rewrite ?(lq_next _ _ _ _ Hl), ?(lq_reservations _ _ _ _ Hl), ?(lq_settings _ _ _ _ Hl),
        ?(lq_quota_for _ _ _ _ Hl), ?(lq_capacity _ _ _ _ Hl), ?(lq_reserved _ _ _ _ Hl); try done.
    + pose proof (inv_bound _ _ _ HI). lia.
    + by eapply left_within.
    + apply (inv_tickets _ _ (inv_waiting _ _ _ HI) _ _ Hk).
    + by destruct kind.
    + by destruct kind.
Qed.

Lemma micros_within s s' : rtc micro s s' → Inv s → within max_of s → within max_of s'.
Proof. induction 1; eauto using micro_Inv, micro_within. Qed.

(** What a step does to the queue and the outbox. *)
Lemma settles_outcome id s s' :
  settles id s s' →
  is_Some (tickets s !! id) ∧ tickets s' = base.delete id (tickets s)
  ∧ (∃ o, ad_outbox s' = app (ad_outbox s) [(id, o)])
  ∧ (ad_next_id s' = ad_next_id s ∨ ad_next_id s' = u64_add (ad_next_id s) 1).
Proof.
  intros [k r s2 Hk Hl E|k kind probe s2 Hk _ _ Hl E].
  - rewrite (ce_tickets _ _ E), (ce_outbox _ _ E), (ce_next _ _ E).
    cbn. rewrite (lq_outbox _ _ _ _ Hl), (lq_next _ _ _ _ Hl), <-(lq_tickets _ _ _ _ Hl).
    split_and!; eauto.
  - set (r := mkReservation _ _ _ _ _) in *.
    pose proof (insert_booked (Adm.next s2).1 r (Adm.next s2).2) as Hb.
    set (s4 := Adm.insert_reservation _ _ _) in *. set (o := Granted _ _) in *.
    rewrite (ce_tickets _ _ E), (ce_outbox _ _ E), (ce_next _ _ E).
    change (tickets (Adm.answer id o s4)) with (tickets s4).
    change (ad_outbox (Adm.answer id o s4)) with (app (ad_outbox s4) [(id, o)]).
    change (ad_next_id (Adm.answer id o s4)) with (ad_next_id s4).
    rewrite (bk_tickets _ _ _ _ _ Hb), (bk_outbox _ _ _ _ _ Hb), (bk_next _ _ _ _ _ Hb).
    rewrite <-(lq_tickets _ _ _ _ Hl), <-(lq_outbox _ _ _ _ Hl), <-(lq_next _ _ _ _ Hl).
    split_and!; eauto.
Qed.

Lemma neutral_outcome s s' :
  s' ≡ s → tickets s' = tickets s ∧ ad_outbox s' = ad_outbox s ∧ ad_next_id s' = ad_next_id s.
Proof. intros E. by rewrite (ce_tickets _ _ E), (ce_outbox _ _ E), (ce_next _ _ E). Qed.

Lemma micro_outcome s s' :
  micro s s' →
  (tickets s' = tickets s ∧ ad_outbox s' = ad_outbox s ∧ ad_next_id s' = ad_next_id s)
  ∨ ∃ id o, is_Some (tickets s !! id) ∧ tickets s' = base.delete id (tickets s)
      ∧ ad_outbox s' = app (ad_outbox s) [(id, o)]
      ∧ (ad_next_id s' = ad_next_id s ∨ ad_next_id s' = u64_add (ad_next_id s) 1).
Proof.
  intros [s1 s2 E%neutral_outcome|id s1 s2 (? & ? & (o & ?) & ?)%settles_outcome]; [by left|].
  right. exists id, o. by split_and!.
Qed.

Lemma micros_drains s s' : rtc micro s s' → ad_drains s' = ad_drains s.
Proof.
  induction 1 as [|s1 s2 s3 H _ IH]; [done|]. rewrite IH.
  destruct H as [s1 s2 E|id s1 s2 [k r s4 Hk Hl E|k kind probe s4 Hk _ _ Hl E]].
  - apply E.
  - rewrite (ce_drains _ _ E). apply Hl.
  - rewrite (ce_drains _ _ E). etrans; [apply (bk_drains _ _ _ _ _ (insert_booked _ _ _))|apply Hl].
Qed.

Lemma micro_answered given s s' :
  micro s s' → Inv s → answered_once given s → answered_once given s'.
Proof.
  intros Hm HI [Ho Hg Hold]. pose proof (inv_wids _ _ (inv_waiting _ _ _ HI)) as Hid.
  pose proof (micro_Inv _ _ Hm HI) as HI'.
  destruct (micro_outcome _ _ Hm) as [(Et & Eo & En)|(id & o & Hk & Et & Eo & En)].
  { constructor; unfold outcomes in *; by rewrite ?Et, ?Eo, ?En. }
  assert (ad_next_id s ≤ ad_next_id s') as Hle.
  { destruct En as [->| ->]; [done|]. pose proof (Inv_next_bound _ _ _ HI).
    rewrite u64_add_small; unfold id_limit, u64_max in *; lia. }
  assert (outcomes given s' = app (outcomes given s) [id]) as E.
  { unfold outcomes. rewrite Eo, fmap_app. by rewrite (assoc_L app). }
  constructor; rewrite E.
  - apply NoDup_app. split_and!; [done| |apply NoDup_singleton].
    intros x Hx Hx'%list_elem_of_singleton. subst. apply Hg in Hx. rewrite Hx in Hk. by destruct Hk.
  - intros x [Hx|Hx%list_elem_of_singleton]%elem_of_app; rewrite Et.
    + apply lookup_delete_None. right. by apply Hg.
    + subst. apply lookup_delete_eq.
  - intros x [Hx|Hx%list_elem_of_singleton]%elem_of_app; [apply Hold in Hx|subst; apply Hid in Hk]; lia.
Qed.

Lemma micro_accounted given s s' id :
  micro s s' → accounted given s' id ↔ accounted given s id.
Proof.
  intros Hm. unfold accounted, outcomes.
  destruct (micro_outcome _ _ Hm) as [(-> & -> & _)|(id' & o & Hk & -> & -> & _)]; [done|].
  rewrite fmap_app, (assoc_L app), elem_of_app. cbn. rewrite list_elem_of_singleton, lookup_delete_is_Some.
  destruct (decide (id = id')) as [->|]; naive_solver.
Qed.

Lemma micros_answered given s s' :
  rtc micro s s' → Inv s → answered_once given s → answered_once given s'.
Proof. induction 1; eauto using micro_Inv, micro_answered. Qed.

Lemma micros_accounted given s s' id :
  rtc micro s s' → accounted given s' id ↔ accounted given s id.
Proof. induction 1 as [|s1 s2 s3 H _ IH]; [done|]. rewrite IH. by apply micro_accounted. Qed.
End Micro.

(** ** The scheduler *)

Section Pump.
Context (exp : SpecFloat.spec_float → SpecFloat.spec_float) `{HO : !HashOrder}.
Context (max_of : RevisionId → Z) (b : Z).
Implicit Types (s : AdmissionState) (now : Timestamp).
Notation Inv := (Inv max_of b).

Lemma elem_of_waiters_where p s id :
  id ∈ Adm.waiters_where p s ↔ ∃ w, ad_waiters s !! id = Some w ∧ p w = true.
Proof.
  unfold Adm.waiters_where. rewrite list_elem_of_fmap. setoid_rewrite list_elem_of_In.
  setoid_rewrite filter_In. setoid_rewrite <-list_elem_of_In. setoid_rewrite hash_waiters_perm.
  split.
  - intros ([id' w] & -> & Hin & Hp). apply elem_of_map_to_list in Hin. eauto.
  - intros (w & Hw & Hp). exists (id, w). by rewrite elem_of_map_to_list.
Qed.

Lemma NoDup_waiters_where p s : NoDup (Adm.waiters_where p s).
Proof.
  unfold Adm.waiters_where. pose proof (NoDup_fst_map_to_list (ad_waiters s)) as H.
  rewrite <-(hash_waiters_perm (ad_waiters s)) in H. revert H.
  induction (hash_waiters (ad_waiters s)) as [|[id w] l IH]; cbn; [done|].
  intros [Hn Hl]%NoDup_cons. destruct (p w); cbn; [|by apply IH].
  apply NoDup_cons. split; [|by apply IH]. intros Hin. apply Hn.
  apply list_elem_of_fmap in Hin as ([id' w'] & -> & Hin). apply list_elem_of_In, filter_In in Hin as [Hin _].
  apply list_elem_of_fmap. exists (id', w'). by rewrite list_elem_of_In.
Qed.

Lemma refuse_waiters id r s : ad_waiters (Adm.refuse_waiter id r s) = base.delete id (ad_waiters s).
Proof.
  unfold Adm.refuse_waiter, Adm.remove_waiter. cbn.
  destruct (ad_waiters s !! id) eqn:E; cbn; [done|]. by rewrite delete_id.
Qed.

Lemma foldl_micro {A} (f : AdmissionState → A → AdmissionState) l s :
  (∀ s a, rtc micro s (f s a)) → rtc micro s (foldl f s l).
Proof. intros Hf. revert s. induction l as [|a l IH]; intros s; cbn; [done|].
  etrans; [apply Hf|apply IH].
Qed.

Lemma expire_micro now s : rtc micro s (Adm.expire now s).
Proof.
  apply foldl_micro. intros s' id. destruct (ad_waiters s' !! id) eqn:E; [|done].
  apply rtc_once, (micro_settles id), refuse_settles. eauto.
Qed.

Lemma refuse_all_micro r l s :
  NoDup l → (∀ id, id ∈ l → is_Some (ad_waiters s !! id)) →
  rtc micro s (foldl (λ s id, Adm.refuse_waiter id r s) s l).
Proof.
  revert s. induction l as [|id l IH]; intros s Hn Hl; cbn; [done|].
  apply NoDup_cons in Hn as [Hid Hn]. eapply rtc_l; [apply (micro_settles id), refuse_settles, Hl; by left|].
  apply IH; [done|]. intros id' Hid'. rewrite refuse_waiters, lookup_delete_ne by (intros ->; by destruct Hid).
  apply Hl. by right.
Qed.

Lemma refuse_revision_micro v r s : rtc micro s (Adm.refuse_revision v r s).
Proof.
  apply refuse_all_micro; [apply NoDup_waiters_where|].
  intros id (w & Hw & _)%elem_of_waiters_where. eauto.
Qed.

(** Nobody waits past its deadline. *)
Lemma expire_spec now s id w :
  ad_waiters (Adm.expire now s) !! id = Some w →
  ad_waiters s !! id = Some w ∧ now < tk_deadline (wt_ticket w).
Proof.
  intros Hw. unfold Adm.expire in Hw.
  set (l := Adm.waiters_where _ s) in Hw.
  assert (∀ l s, ad_waiters (foldl (λ s id, match ad_waiters s !! id with
                 | Some w => Adm.refuse_waiter id (Adm.expired_rejection now w) s
                 | None => s
                 end) s l) !! id = Some w → id ∉ l ∧ ad_waiters s !! id = Some w) as Hf.
  { clear. induction l as [|id' l IH]; cbn; intros s Hw; [set_solver|].
    apply IH in Hw as [Hid Hw]. destruct (ad_waiters s !! id') as [w'|] eqn:E.
    - rewrite refuse_waiters in Hw. apply lookup_delete_Some in Hw as [Hne ?]. split; [|done].
      intros [->|?]%elem_of_cons; done.
    - split; [|done]. intros [->|?]%elem_of_cons; [congruence|done]. }
  apply Hf in Hw as [Hid Hw]. split; [done|].
  destruct (Z.ltb_spec now (tk_deadline (wt_ticket w))); [done|]. destruct Hid.
  apply elem_of_waiters_where. exists w. split; [done|]. by apply Z.leb_le.
Qed.

Lemma pump_decide_spec now s d s' :
  Inv s → Adm.pump_decide exp now s = (d, s') → rtc micro s s' ∧ decided d s'.
Proof.
  intros HI. unfold Adm.pump_decide. intros Hs. pose proof (expire_micro now s) as Hm.
  pose proof (micros_Inv _ _ _ _ Hm HI) as HI'.
  assert (None ≠ Some BlockReason.Pending) as Hnb by done.
  destruct (scan_tenants_spec _ _ _ _ _ _ _ _ _ HI' Hnb Hs) as (E & Hd & _).
  split; [|done]. eapply rtc_r; [exact Hm|]. by apply micro_neutral.
Qed.

Lemma pump_apply_settles d now s : decided (Some d) s → settles d.1 s (Adm.pump_apply d now s).
Proof.
  destruct d as [id [kind|r]]; cbn.
  - intros (w & Hw & Hg & Hd). by eapply grant_settles.
  - apply refuse_settles.
Qed.

Lemma pump_loop_micro fuel now s : Inv s → rtc micro s (Adm.pump_loop exp fuel now s).
Proof.
  revert s. induction fuel as [|fuel IH]; intros s HI; [apply rtc_refl|].
  cbn [Adm.pump_loop].
  destruct (Adm.pump_decide exp now s) as [[d|] s1] eqn:Hd;
    destruct (pump_decide_spec _ _ _ _ HI Hd) as [Hm Hdec]; [|exact Hm].
  assert (rtc micro s (Adm.pump_apply d now s1)) as Hm'.
  { eapply rtc_r; [exact Hm|]. by eapply micro_settles, pump_apply_settles. }
  etrans; [exact Hm'|]. apply IH. by eapply micros_Inv.
Qed.

Lemma pump_micro now s : Inv s → rtc micro s (Adm.pump exp now s).
Proof. apply pump_loop_micro. Qed.

(** Every turn but the last takes a waiter out of the queue. *)
Lemma pump_turn_size now s d s1 :
  Inv s → Adm.pump_decide exp now s = (Some d, s1) →
  (size (tickets (Adm.pump_apply d now s1)) < size (tickets s))%nat.
Proof.
  intros HI Hd.
  destruct (pump_decide_spec _ _ _ _ HI Hd) as [Hm Hdec].
  assert (∀ s s', rtc micro s s' → (size (tickets s') ≤ size (tickets s))%nat) as Hle.
  { induction 1 as [|a c e H _ IH]; [done|]. etrans; [exact IH|].
    destruct (micro_outcome _ _ H) as [(-> & _)|(id & o & Hk & -> & _)]; [done|].
    rewrite map_size_delete_Some by done. lia. }
  apply Hle in Hm.
  destruct (settles_outcome _ _ _ (pump_apply_settles d now s1 Hdec)) as ([k Hk] & -> & _).
  rewrite map_size_delete_Some by eauto. assert (size (tickets s1) ≠ O); [|lia].
  intros E0%map_size_empty_inv. by rewrite E0, lookup_empty in Hk.
Qed.

(** The loop ends by a pass that decides nothing: the fuel is enough. *)
Lemma pump_loop_ends fuel now s :
  Inv s → (size (tickets s) < fuel)%nat →
  (∃ s0, Inv s0 ∧ Adm.pump_decide exp now s0 = (None, Adm.pump_loop exp fuel now s))
  ∧ ∀ more, Adm.pump_loop exp (fuel + more) now s = Adm.pump_loop exp fuel now s.
Proof.
  revert s. induction fuel as [|fuel IH]; intros s HI Hlt; [lia|]. cbn [Adm.pump_loop Nat.add].
  destruct (Adm.pump_decide exp now s) as [[d|] s1] eqn:Hd; [|eauto].
  destruct (pump_decide_spec _ _ _ _ HI Hd) as [Hm Hdec].
  pose proof (pump_turn_size _ _ _ _ HI Hd). apply IH; [|lia].
  eapply micros_Inv; [|exact HI]. eapply rtc_r; [exact Hm|].
  by eapply micro_settles, pump_apply_settles.
Qed.

Lemma size_tickets s : size (tickets s) = size (ad_waiters s).
Proof. apply map_size_fmap. Qed.

(** Who is still waiting after the last pass. *)
Lemma pass_settles now s0 s' id w :
  Inv s0 → Adm.pump_decide exp now s0 = (None, s') → ad_waiters s' !! id = Some w →
  now < tk_deadline (wt_ticket w) ∧ ¬ deleting (wt_ticket w) s'
  ∧ wt_blocked w ≠ BlockReason.Pending.
Proof.
  intros HI Hd Hw. unfold Adm.pump_decide in Hd. cbv zeta in Hd.
  set (s1 := Adm.expire now s0) in *.
  assert (Inv s1) as HI1 by (eapply micros_Inv; [apply expire_micro|exact HI]).
  assert (None ≠ Some BlockReason.Pending) as Hnb by done.
  destruct (scan_tenants_spec _ _ _ _ _ _ _ _ _ HI1 Hnb Hd) as (E & _ & _ & Hall).
  specialize (Hall eq_refl). rewrite Forall_forall in Hall.
  assert (tickets s1 !! id = Some (wt_ticket w)) as Hk.
  { rewrite <-(ce_tickets _ _ E). apply tickets_lookup. eauto. }
  assert (id ∈ te_queue (tenant s1 (tk_tenant (wt_ticket w)))) as Hq.
  { apply (inv_queue _ _ (inv_waiting _ _ _ HI1)). eauto. }
  assert (tk_tenant (wt_ticket w) ∈ Adm.pump_order s1) as Ho.
  { unfold Adm.pump_order, tenant in *.
    destruct (ad_tenants s1 !! _) as [e|] eqn:He; cbn in Hq; [|by apply not_elem_of_nil in Hq].
    apply list_elem_of_fmap. exists (tk_tenant (wt_ticket w), e). split; [done|].
    rewrite sort_by_Permutation. apply list_elem_of_In, filter_In. split.
    - apply list_elem_of_In, elem_of_btree_entries. done.
    - cbn. apply negb_true_iff, bool_decide_eq_false. intros Eq.
      rewrite Eq in Hq. by apply not_elem_of_nil in Hq. }
  apply Hall in Ho. rewrite Forall_forall in Ho. destruct (Ho id Hq w Hw) as [? ?].
  apply tickets_lookup in Hk as (w1 & Hw1 & Ek). apply expire_spec in Hw1 as [_ Hw1].
  rewrite Ek in Hw1. by split_and!.
Qed.

Lemma pump_settles now s id w :
  Inv s → ad_waiters (Adm.pump exp now s) !! id = Some w →
  now < tk_deadline (wt_ticket w) ∧ ¬ deleting (wt_ticket w) (Adm.pump exp now s)
  ∧ wt_blocked w ≠ BlockReason.Pending.
Proof.
  intros HI Hw. unfold Adm.pump in *.
  destruct (pump_loop_ends (S (size (ad_waiters s))) now s HI) as [(s0 & HI0 & Hd) _].
  { rewrite size_tickets. lia. }
  by eapply pass_settles.
Qed.
End Pump.
