(* ===== verification/AdmissionRun.v ===== *)
(** * Runs of the admission state machine

    The operations of [Admission.v] as commands, the runs from a fresh state with
    the history an observer keeps (who was let in, who withdrew, who was
    answered), and what every command preserves. *)

From S2P Require Import Prelude Sums Scaler Admission AdmissionInv AdmissionSched.

Open Scope Z_scope.

(** ** Commands *)

(** One call of the state machine by [AdmissionController]. *)
Inductive adm_cmd : Type :=
| CEnqueue (t : Ticket) (retry : bool)
| CPrecheck (t : Ticket)
| CWithdraw (id : WaiterId)
| CExpire
| CPump
| CReady (id : ReservationId)
| CPark (id : ReservationId)
| CParked (id : ReservationId)
| CDrain (id : ReservationId)
| CRelease (id : ReservationId)
| CAdopt (holder : option ReservationId) (idle : ReservationId)
| CRedeem (id : ReservationId)
| CStartResult (id : ReservationId) (ok : bool)
| CObserveDuration (revision : RevisionId) (seconds : f64)
| CSetRouted (routed : gset RevisionId)
| CBeginDrain (revision : RevisionId) (reason : DrainReason.t)
| CEndDrain (revision : RevisionId)
| CForgetDrain (revision : RevisionId)
| CTryScaleDown (id : ReservationId) (how : ScaleDown)
| CTryPrestart (t : Ticket)
| CTakeOutbox
| CTakeEvictions.

(** What an observer of the state machine has seen. *)
Record history := mkHistory {
  h_accepted : list WaiterId;
  h_withdrawn : list WaiterId;
  h_given : list (WaiterId * Outcome)
}.

Section Run.
Context (exp : f64 → f64) `{HO : !HashOrder}.
Implicit Types (s : AdmissionState) (now : Timestamp) (h : history).

Definition run (c : adm_cmd) now s : AdmissionState :=
  match c with
  | CEnqueue t retry => (Adm.enqueue exp t retry now s).2
  | CPrecheck t => (Adm.precheck t now s).2
  | CWithdraw id => (Adm.withdraw id s).2
  | CExpire => Adm.expire now s
  | CPump => Adm.pump exp now s
  | CReady id => Adm.ready id s
  | CPark id => Adm.park exp id now s
  | CParked id => Adm.parked exp id now s
  | CDrain id => Adm.drain exp id now s
  | CRelease id => Adm.release exp id now s
  | CAdopt holder idle => (Adm.adopt exp holder idle now s).2
  | CRedeem id => (Adm.redeem exp id now s).2
  | CStartResult id ok => Adm.start_result exp id ok now s
  | CObserveDuration v secs => Adm.observe_duration v secs s
  | CSetRouted routed => Adm.set_routed routed s
  | CBeginDrain v reason => (Adm.begin_drain exp v reason now s).2
  | CEndDrain v => (Adm.end_drain v s).2
  | CForgetDrain v => Adm.forget_drain v s
  | CTryScaleDown id how => (Adm.try_scale_down id how now s).2
  | CTryPrestart t => (Adm.try_prestart t now s).2
  | CTakeOutbox => (Adm.take_outbox s).2
  | CTakeEvictions => (Adm.take_evictions s).2
  end.

(** What the answer of a command adds to the history. *)
Definition note (c : adm_cmd) now s h : history :=
  match c with
  | CEnqueue t retry =>
      match (Adm.enqueue exp t retry now s).1 with
      | Ok id => mkHistory (id :: h_accepted h) (h_withdrawn h) (h_given h)
      | Err _ => h
      end
  | CWithdraw id =>
      match (Adm.withdraw id s).1 with
      | Some _ => mkHistory (h_accepted h) (id :: h_withdrawn h) (h_given h)
      | None => h
      end
  | CTakeOutbox =>
      mkHistory (h_accepted h) (h_withdrawn h) (app (h_given h) (Adm.take_outbox s).1)
  | _ => h
  end.

(** Runs from a fresh state, of commands that satisfy [ok] where they are called. *)
Inductive runs (ok : adm_cmd → AdmissionState → Prop) (st : AdmissionSettings)
    : nat → AdmissionState → history → Prop :=
| runs_new : runs ok st 0 (Adm.new st) (mkHistory [] [] [])
| runs_step n s h c now :
    runs ok st n s h → ok c s → runs ok st (S n) (run c now s) (note c now s h).
End Run.

(** The tickets of a command. *)
Definition cmd_tickets (max_of : RevisionId → Z) (c : adm_cmd) (_ : AdmissionState) : Prop :=
  match c with
  | CEnqueue t _ | CTryPrestart t => ticket_ok max_of t
  | _ => True
  end.

(** ** Changes that leave the queue and the outbox alone *)

Record quiet (s s' : AdmissionState) : Prop := {
  qu_tickets : tickets s' = tickets s;
  qu_outbox : ad_outbox s' = ad_outbox s;
  qu_next : ad_next_id s ≤ ad_next_id s'
}.

Lemma core_quiet s s' : s' ≡ s → quiet s s'.
Proof.
  intros E. constructor; rewrite ?(ce_tickets _ _ E), ?(ce_outbox _ _ E), ?(ce_next _ _ E); done.
Qed.

Lemma quiet_refl s : quiet s s.
Proof. done. Qed.

Lemma quiet_trans s1 s2 s3 : quiet s1 s2 → quiet s2 s3 → quiet s1 s3.
Proof. intros [] []. constructor; by etrans. Qed.

Lemma booked_quiet r add m s s' : booked r add m s s' → quiet s s'.
Proof. intros []. constructor; try done. by apply Z.eq_le_incl. Qed.

Lemma set_state_quiet id to s : quiet s (Adm.set_state id to s).
Proof.
  unfold Adm.set_state. destruct (ad_reservations s !! id) as [r|]; [|done].
  case_bool_decide; [done|]. cbv zeta. rewrite rebook_eq.
  eapply quiet_trans; eapply booked_quiet; [apply remove_booked|apply insert_booked].
Qed.

Lemma Inv_mono max_of b b' s : Inv max_of b s → b ≤ b' → b' ≤ id_limit → Inv max_of b' s.
Proof. intros [? ? ? ?] ? ?. constructor; try done. lia. Qed.

Section Calm.
Context (exp : f64 → f64) `{HO : !HashOrder}.
Context (max_of : RevisionId → Z) (b : Z).
Implicit Types (s : AdmissionState) (now : Timestamp).
Notation Inv := (Inv max_of b).

(** A change of the ledger alone, then turns of the scheduler. *)
Definition calm s s' : Prop := ∃ s1, quiet s s1 ∧ Inv s1 ∧ rtc micro s1 s'.

Lemma calm_Inv s s' : calm s s' → Inv s'.
Proof. intros (s1 & _ & HI & Hm). by eapply micros_Inv. Qed.

Lemma calm_quiet s s' : quiet s s' → Inv s' → calm s s'.
Proof. intros H HI. by exists s'. Qed.

Lemma calm_core s s' : s' ≡ s → Inv s → calm s s'.
Proof. intros E HI. apply calm_quiet; [by apply core_quiet|by rewrite E]. Qed.

Lemma calm_micros s s' : rtc micro s s' → Inv s → calm s s'.
Proof. intros H HI. by exists s. Qed.

Lemma calm_step s s1 s2 : calm s s1 → (Inv s1 → rtc micro s1 s2) → calm s s2.
Proof.
  intros (s0 & Hq & HI & Hm) H. exists s0. split_and!; [done|done|].
  etrans; [exact Hm|]. apply H. by eapply micros_Inv.
Qed.

Lemma quiet_calm s s1 s2 : quiet s s1 → calm s1 s2 → calm s s2.
Proof. intros Hq (s0 & Hq' & HI & Hm). exists s0. split_and!; [by eapply quiet_trans|done..]. Qed.

Lemma pump_calm now s s1 : quiet s s1 → Inv s1 → calm s (Adm.pump exp now s1).
Proof. intros Hq HI. exists s1. split_and!; [done|done|]. by eapply pump_micro. Qed.

Lemma set_state_calm id to now s : Inv s → calm s (Adm.pump exp now (Adm.set_state id to s)).
Proof. intros HI. apply pump_calm; [apply set_state_quiet|by apply set_state_Inv]. Qed.

Lemma check_static_core k now s : (Adm.check_static k now s).2 ≡ s.
Proof.
  unfold Adm.check_static. destruct (List.find _ _) as [?|]; [done|].
  case_bool_decide; [done|]. destruct (ad_revisions s !! tk_revision k) as [rev|].
  - destruct (Breaker.is_open now (re_breaker rev)) as [open breaker].
    destruct open; [by apply on_revision_core|].
    destruct (negb _); [by apply on_revision_core|].
    destruct (_ == _); by apply on_revision_core.
  - destruct (negb _); [done|]. destruct (_ == _); done.
Qed.

Lemma probe_abandoned_core r s : Adm.probe_abandoned r s ≡ s.
Proof. unfold Adm.probe_abandoned. destruct (rs_probe r); [|done]. by apply on_revision_core. Qed.

Lemma remove_reservation_step id r s :
  Inv s → ad_reservations s !! id = Some r →
  let s' := Adm.probe_abandoned r (Adm.remove_reservation id r s) in quiet s s' ∧ Inv s'.
Proof.
  intros HI Hr s'. pose proof (remove_booked id r s) as Hb. split.
  - eapply quiet_trans; [by eapply booked_quiet|]. apply core_quiet, probe_abandoned_core.
  - unfold s'. rewrite probe_abandoned_core. by eapply remove_Inv.
Qed.

Lemma forget_step v now s :
  Inv s → let s' := Adm.forget_revision_if_idle exp v now s in quiet s s' ∧ Inv s'.
Proof.
  intros HI. unfold Adm.forget_revision_if_idle. destruct (ad_revisions s !! v) as [rev|] eqn:Hv; [|done].
  destruct (negb _) eqn:Hb; [done|]. bools.
  destruct (Breaker.state now (re_breaker rev)) as [state breaker].
  destruct (_ && _).
  - split; [done|]. by eapply forget_Inv.
  - assert (Adm.on_revision v (λ rev, rev <| re_breaker := breaker |>) s ≡ s) as E by by apply on_revision_core.
    split; [by apply core_quiet|by rewrite E].
Qed.

Lemma release_calm id now s : Inv s → calm s (Adm.release exp id now s).
Proof.
  intros HI. unfold Adm.release.
  destruct (ad_reservations s !! id) as [r|] eqn:Hr; [|by apply pump_calm].
  destruct (remove_reservation_step id r s HI Hr) as [Hq HI1].
  set (s1 := Adm.probe_abandoned _ _) in *.
  set (s2 := match rs_state r with ResState.Promised => _ | _ => _ end).
  assert (s2 ≡ s1) as E by (unfold s2; by destruct (rs_state r)).
  assert (Inv s2) as HI2 by by rewrite E.
  destruct (forget_step (rs_revision r) now s2 HI2) as [Hq3 HI3].
  apply pump_calm; [|done]. eapply quiet_trans; [exact Hq|]. by eapply quiet_trans; [apply core_quiet|].
Qed.

Lemma adopt_calm holder idle now s : Inv s → calm s (Adm.adopt exp holder idle now s).2.
Proof.
  intros HI. unfold Adm.adopt; cbn [snd]. destruct holder as [h|]; [|by apply set_state_calm].
  destruct (h =? idle); [by apply set_state_calm|].
  destruct (ad_reservations s !! h) as [r|] eqn:Hr; [|by apply set_state_calm].
  destruct (remove_reservation_step h r s HI Hr) as [Hq HI1].
  eapply quiet_calm; [exact Hq|]. by apply set_state_calm.
Qed.

Lemma rebook_quiet id r r' s :
  quiet s (Adm.insert_reservation id r' (Adm.remove_reservation id r s)).
Proof. eapply quiet_trans; eapply booked_quiet; [apply remove_booked|apply insert_booked]. Qed.

Lemma redeem_calm id now s : Inv s → calm s (Adm.redeem exp id now s).2.
Proof.
  intros HI. unfold Adm.redeem. destruct (ad_reservations s !! id) as [r|] eqn:Hr; [|by apply calm_core].
  case_bool_decide; cbn [negb]; [|by apply calm_core].
  destruct (ad_revisions s !! rs_revision r) as [rev|] eqn:Hv; [|by apply calm_core].
  destruct (Breaker.gate now (re_breaker rev)) as [gate breaker]. cbv zeta.
  set (s1 := Adm.on_revision _ _ s). assert (s1 ≡ s) as E1 by by apply on_revision_core.
  set (may := _ && _).
  match goal with |- calm _ (match ?p0 with (_, _) => _ end).2 => set (p := p0) end.
  assert (p.2 ≡ s) as E2.
  { unfold p. destruct may; [|done]. destruct (Bucket.take _ _). rewrite <-E1. by constructor. }
  destruct p as [took s2]. cbn in E2. assert (Inv s2) as HI2 by by rewrite E2.
  destruct (negb (may && took)).
  { eapply quiet_calm; [by apply core_quiet|by apply release_calm]. }
  set (s3 := Adm.record_scale _ _ _ _ _).
  assert (s3 ≡ s) as E3.
  { unfold s3. rewrite record_scale_core. rewrite <-E2. by apply on_revision_core. }
  assert (Inv s3) as HI3 by by rewrite E3. cbn [snd]. rewrite rebook_eq.
  rewrite <-(ce_reservations _ _ E3) in Hr. apply calm_quiet.
  - eapply quiet_trans; [by apply core_quiet|apply rebook_quiet].
  - apply rebook_Inv; [done..| |done]. exact (inv_resources _ (inv_ledger _ _ _ HI3) _ _ Hr).
Qed.

Lemma start_result_calm id ok now s : Inv s → calm s (Adm.start_result exp id ok now s).
Proof.
  intros HI. unfold Adm.start_result. destruct (ad_reservations s !! id) as [r|] eqn:Hr; [|by apply calm_core].
  pose proof (probe_Inv _ _ s id r HI Hr) as HI0. set (s0 := s <| ad_reservations ::= _ |>) in *.
  set (s1 := s0 <| ad_counters ::= _ |>). assert (s1 ≡ s0) as E1 by by constructor.
  assert (quiet s s1 ∧ Inv s1) as [Hq HI1] by (split; [done|by rewrite E1]).
  destruct (ad_revisions s1 !! rs_revision r) as [rev|] eqn:Hv; [|by apply calm_quiet].
  destruct ok.
  { set (s2 := Adm.on_revision _ _ s1). assert (s2 ≡ s1) as E2 by apply breaker_core.
    apply pump_calm; [by eapply quiet_trans; [|apply core_quiet]|by rewrite E2]. }
  destruct (Breaker.record_failure now (re_breaker rev)) as [opened breaker].
  set (s2 := Adm.on_revision _ _ s1). assert (s2 ≡ s1) as E2 by by apply on_revision_core.
  assert (quiet s s2) as Hq2 by by eapply quiet_trans; [|apply core_quiet].
  assert (Inv s2) as HI2 by by rewrite E2.
  destruct opened; [|by apply pump_calm].
  set (s3 := s2 <| ad_counters ::= _ |>). assert (s3 ≡ s2) as E3 by by constructor.
  apply (calm_step _ (Adm.refuse_revision (rs_revision r) (circuit_open (rs_revision r)) s3)).
  - exists s3. split_and!; [by eapply quiet_trans; [|apply core_quiet]|by rewrite E3|].
    apply refuse_revision_micro.
  - intros HI4. by eapply pump_micro.
Qed.

Lemma begin_drain_calm v reason now s : Inv s → calm s (Adm.begin_drain exp v reason now s).2.
Proof.
  intros HI. unfold Adm.begin_drain; cbn [snd]. cbv zeta.
  set (reason' := if (_ : bool) then DrainReason.FunctionDeleted else _).
  pose proof (drains_Inv _ _ s (<[v := reason']>) HI) as HI0.
  set (s0 := s <| ad_drains ::= _ |>) in *.
  set (s1 := if (_ : bool) then Adm.record_scale _ _ _ _ _ else s0).
  assert (s1 ≡ s0) as E1.
  { unfold s1. destruct (negb _); [apply record_scale_core|done]. }
  assert (quiet s s1 ∧ Inv s1) as [Hq HI1].
  { split; [|by rewrite E1]. apply (quiet_trans _ s0); [done|by apply core_quiet]. }
  case_bool_decide; [|by apply calm_quiet].
  apply (calm_step _ (Adm.refuse_revision v (function_deleted v) s1)).
  - exists s1. split_and!; [done|done|]. apply refuse_revision_micro.
  - intros HI4. by eapply pump_micro.
Qed.

Lemma try_scale_down_calm id how now s : Inv s → calm s (Adm.try_scale_down id how now s).2.
Proof.
  intros HI. unfold Adm.try_scale_down. destruct (ad_reservations s !! id) as [r|]; [|by apply calm_core].
  destruct (_ != _); [by apply calm_core|].
  destruct (ad_revisions s !! rs_revision r) as [rev|]; [|by apply calm_core].
  destruct (0 <? _); [by apply calm_core|]. destruct (_ <=? _); [by apply calm_core|].
  cbv zeta. destruct (match how with ScaleIdle _ => _ | ScaleDrain _ => _ end); [|by apply calm_core].
  cbn [snd]. apply calm_quiet.
  - eapply quiet_trans; [apply set_state_quiet|apply core_quiet, record_scale_core].
  - rewrite record_scale_core. by apply set_state_Inv.
Qed.

Lemma try_prestart_calm k now s :
  Inv s → ad_next_id s + Z.of_nat (size (tickets s)) + 1 ≤ b → ticket_ok max_of k →
  calm s (Adm.try_prestart k now s).2.
Proof.
  intros HI Hroom Hk. unfold Adm.try_prestart.
  pose proof (check_static_core k now s) as E. destruct (Adm.check_static k now s) as [res s1].
  cbn in E. assert (calm s s1) as Hc by by apply calm_core.
  assert (Inv s1) as HI1 by by rewrite E.
  assert (ad_next_id s1 + Z.of_nat (size (tickets s1)) + 1 ≤ b) as Hroom1.
  { by rewrite (ce_next _ _ E), (ce_tickets _ _ E). }
  destruct res; [|done]. do 3 (case_match; [done|]).
  destruct (Bucket.available now (ad_bucket s1)) as [bucket_ok bucket]. cbv zeta.
  set (s2 := s1 <| ad_bucket := bucket |>). assert (s2 ≡ s1) as E2 by by constructor.
  assert (Inv s2) as HI2 by by rewrite E2.
  pose proof (revision_entry_Inv _ _ s2 k HI2 Hk) as HI3.
  set (s3 := Adm.revision_entry k _ s2) in *.
  assert (quiet s s3) as Hq3.
  { eapply quiet_trans; [apply core_quiet, E|done]. }
  assert (is_Some (ad_revisions s3 !! tk_revision k)) as Hrev.
  { unfold s3; cbn. rewrite lookup_insert_eq. eauto. }
  destruct (ad_revisions s3 !! tk_revision k) as [rev|] eqn:Hv; [|by apply calm_quiet].
  do 2 (case_match; [by apply calm_quiet|]).
  destruct (Breaker.gate now (re_breaker rev)) as [gate breaker].
  set (s4 := Adm.on_revision _ _ s3). assert (s4 ≡ s3) as E4 by by apply on_revision_core.
  assert (calm s s4) as Hc4.
  { apply calm_quiet; [by eapply quiet_trans; [|apply core_quiet]|by rewrite E4]. }
  do 3 (case_match; [done|]).
  set (s5 := Adm.on_revision _ _ s4). assert (s5 ≡ s4) as E5 by by apply on_revision_core.
  set (s6 := s5 <| ad_bucket ::= _ |>). assert (s6 ≡ s5) as E6 by by constructor.
  assert (s6 ≡ s3) as E63 by by rewrite E6, E5.
  assert (Inv s6) as HI6 by by rewrite E63.
  assert (ad_next_id s6 + Z.of_nat (size (tickets s6)) + 1 ≤ b) as Hroom6 by done.
  set (r := mkReservation _ _ _ _ _).
  assert (Inv (Adm.insert_reservation (Adm.next s6).1 r (Adm.next s6).2)) as HI7.
  { apply alloc_Inv; [done|done|apply Hk|]. change (rs_revision r) with (tk_revision k).
    pose proof (ce_max _ _ E63 (tk_revision k)) as Hm. rewrite Hv in Hm.
    by destruct (ad_revisions s6 !! tk_revision k). }
  unfold Adm.next in *; cbn [fst snd] in *. apply calm_quiet; [|by rewrite record_scale_core].
  eapply quiet_trans; [exact Hq3|]. eapply quiet_trans; [apply core_quiet, E63|].
  eapply quiet_trans; [|apply core_quiet, record_scale_core].
  eapply (quiet_trans _ (Adm.next s6).2); [|eapply booked_quiet, insert_booked].
  destruct (next_Inv _ _ _ HI6 Hroom6) as (_ & _ & En & _). constructor; [done|done|]. rewrite En. lia.
Qed.
End Calm.

(** ** What every command preserves *)

Definition moves_queue (c : adm_cmd) : bool :=
  match c with CEnqueue _ _ | CWithdraw _ | CTakeOutbox => true | _ => false end.

(** What the observer knows agrees with the state. *)
Record history_ok (s : AdmissionState) (h : history) : Prop := {
  hi_answered : answered_once (h_given h).*1 s;
  hi_accepted : ∀ id, id ∈ h_accepted h ↔ accounted (h_given h).*1 s id ∨ id ∈ h_withdrawn h;
  hi_withdrawn : ∀ id, id ∈ h_withdrawn h →
    ¬ accounted (h_given h).*1 s id ∧ 0 < id ≤ ad_next_id s
}.

Section Commands.
Context (exp : f64 → f64) `{HO : !HashOrder} (max_of : RevisionId → Z).
Implicit Types (s : AdmissionState) (now : Timestamp) (h : history).

Lemma new_Inv st : Inv max_of 0 (Adm.new st).
Proof.
  constructor; [constructor|constructor|done|done]; intros; try done.
  - by destruct st0.
  - by destruct st0.
  - by apply is_Some_None in H.
  - split; [intros H; by apply not_elem_of_nil in H|by intros (k & ? & _)].
  - constructor.
  - by apply is_Some_None in H.
Qed.

Lemma accounted_range b s given id :
  Inv max_of b s → answered_once given s → accounted given s id → 0 < id ≤ ad_next_id s.
Proof.
  intros HI [_ _ Hold] [H|H]; [|by apply Hold]. exact (inv_wids _ _ (inv_waiting _ _ _ HI) _ H).
Qed.

Lemma quiet_history s s' h : quiet s s' → history_ok s h → history_ok s' h.
Proof.
  intros [Et Eo En] [[A1 A2 A3] H2 H3].
  assert (outcomes (h_given h).*1 s' = outcomes (h_given h).*1 s) as E by by unfold outcomes; rewrite Eo.
  assert (∀ id, accounted (h_given h).*1 s' id ↔ accounted (h_given h).*1 s id) as Ea.
  { intros id. unfold accounted. by rewrite E, Et. }
  constructor; [constructor; rewrite E| |].
  - done.
  - intros id H. rewrite Et. eauto.
  - intros id H. apply A3 in H. lia.
  - intros id. rewrite Ea. apply H2.
  - intros id H. rewrite Ea. apply H3 in H. split; [apply H|lia].
Qed.

Lemma micros_next s s' b : rtc micro s s' → Inv max_of b s → ad_next_id s ≤ ad_next_id s'.
Proof.
  induction 1 as [|s1 s2 s3 H _ IH]; intros HI; [done|].
  etrans; [|apply IH; by eapply micro_Inv]. pose proof (Inv_next_bound _ _ _ HI).
  destruct (micro_outcome _ _ H) as [(_ & _ & ->)|(_ & _ & _ & _ & _ & [->| ->])]; [done..|].
  rewrite u64_add_small; unfold id_limit, u64_max in *; lia.
Qed.

Lemma micros_history b s s' h :
  rtc micro s s' → Inv max_of b s → history_ok s h → history_ok s' h.
Proof.
  intros Hm HI [H1 H2 H3]. pose proof (micros_next _ _ _ Hm HI). constructor.
  - by eapply micros_answered.
  - intros id. rewrite (micros_accounted _ _ _ _ Hm). apply H2.
  - intros id H'. rewrite (micros_accounted _ _ _ _ Hm). apply H3 in H'. split; [apply H'|lia].
Qed.

Lemma calm_history b s s' h : calm max_of b s s' → history_ok s h → history_ok s' h.
Proof.
  intros (s1 & Hq & HI & Hm) H. eapply micros_history; [exact Hm|exact HI|]. by eapply quiet_history.
Qed.

(** Every command but the three that move the queue is calm. *)
Lemma run_calm b c now s :
  Inv max_of b s → ad_next_id s + Z.of_nat (size (tickets s)) + 1 ≤ b →
  cmd_tickets max_of c s → moves_queue c = false → calm max_of b s (run exp c now s).
Proof.
  intros HI Hroom Ht Hm. destruct c; try done; cbn [run].
  - unfold Adm.precheck. pose proof (check_static_core t now s) as E.
    destruct (Adm.check_static t now s) as [[]]; [by apply calm_core|].
    apply calm_core; [|done]. cbn [snd] in *. by rewrite reject_count_core.
  - apply calm_micros; [apply expire_micro|done].
  - apply calm_micros; [by eapply pump_micro|done].
  - unfold Adm.ready. case_bool_decide; [|by apply calm_core].
    apply calm_quiet; [apply set_state_quiet|by apply set_state_Inv].
  - by apply set_state_calm.
  - by apply set_state_calm.
  - by apply set_state_calm.
  - by apply release_calm.
  - by apply adopt_calm.
  - by apply redeem_calm.
  - by apply start_result_calm.
  - apply calm_core; [|done]. by apply on_revision_core.
  - apply calm_core; [by constructor|done].
  - by apply begin_drain_calm.
  - unfold Adm.end_drain. case_bool_decide; [|by apply calm_core].
    apply calm_quiet; [done|]. by apply drains_Inv.
  - apply calm_quiet; [done|]. by apply drains_Inv.
  - by apply try_scale_down_calm.
  - by apply try_prestart_calm.
  - apply calm_core; [by constructor|done].
Qed.

(** The three outcomes of an enqueue: refused at the door, let in, or let in, still
    waiting after the scheduler ran, and over a limit. *)
Inductive enqueued (k : Ticket) (retry : bool) now s
    : result Rejection WaiterId → AdmissionState → Prop :=
| enqueued_refused r s' : s' ≡ s → enqueued k retry now s (Err r) s'
| enqueued_in id s0 s1 :
    s0 ≡ s → joined_queue k retry s0 id s1 →
    enqueued k retry now s (Ok id) (Adm.pump exp now s1)
| enqueued_over id s0 s1 k' s2 r s' :
    s0 ≡ s → joined_queue k retry s0 id s1 → retry = false →
    tickets (Adm.pump exp now s1) !! id = Some k' →
    left_queue id k' (Adm.pump exp now s1) s2 → s' ≡ s2 →
    enqueued k retry now s (Err r) s'.

Lemma enqueue_enqueued k retry now s :
  let '(res, s') := Adm.enqueue exp k retry now s in enqueued k retry now s res s'.
Proof.
  unfold Adm.enqueue. pose proof (check_static_core k now s) as E0.
  destruct (Adm.check_static k now s) as [[] s0]; cbn [snd] in E0.
  2: { apply enqueued_refused. by rewrite reject_count_core. }
  pose proof (join_queue_joined exp k retry now s0) as Hj.
  destruct (Adm.join_queue exp k retry now s0) as [id s1].
  destruct (retry || negb (Adm.is_queued id (Adm.pump exp now s1))) eqn:Hq;
    [by eapply enqueued_in|]. bools.
  destruct (Adm.queue_limit k (Adm.pump exp now s1)) as [r|]; [|by eapply enqueued_in].
  unfold Adm.is_queued in *. destruct (ad_waiters (Adm.pump exp now s1) !! id) as [w|] eqn:Hw; [|done].
  eapply (enqueued_over k retry now s id s0 s1 (wt_ticket w)); [done..| | |].
  - apply tickets_lookup. eauto.
  - by apply remove_waiter_left.
  - apply reject_count_core.
Qed.

Lemma withdraw_cases id s :
  (Adm.withdraw id s = (None, s) ∧ ad_waiters s !! id = None)
  ∨ ∃ k blocked s', Adm.withdraw id s = (Some blocked, s') ∧ tickets s !! id = Some k
      ∧ left_queue id k s s'.
Proof.
  unfold Adm.withdraw. destruct (ad_waiters s !! id) as [w|] eqn:Hw.
  - right. pose proof (remove_waiter_left id s w Hw) as Hl.
    assert ((Adm.remove_waiter id s).1 = Some w) as E by by unfold Adm.remove_waiter; rewrite Hw.
    destruct (Adm.remove_waiter id s) as [ow s1]. cbn in *. subst.
    exists (wt_ticket w), (wt_blocked w), s1. split_and!; [done| |done]. apply tickets_lookup. eauto.
  - left. unfold Adm.remove_waiter. by rewrite Hw.
Qed.

Lemma enqueued_Inv b k retry now s res s' :
  Inv max_of b s → ad_next_id s + Z.of_nat (size (tickets s)) + 2 ≤ b → ticket_ok max_of k →
  enqueued k retry now s res s' → Inv max_of b s'.
Proof.
  intros HI Hroom Hk [r s1 E|id s0 s1 E Hj|id s0 s1 k' s2 r s3 E Hj _ Hid Hl E'].
  - by rewrite E.
  - assert (Inv max_of b s1) as HI1.
    { eapply join_Inv; [|by rewrite (ce_next _ _ E), (ce_tickets _ _ E)|exact Hk|exact Hj]. by rewrite E. }
    eapply micros_Inv; [by eapply pump_micro|done].
  - assert (Inv max_of b s1) as HI1.
    { eapply join_Inv; [|by rewrite (ce_next _ _ E), (ce_tickets _ _ E)|exact Hk|exact Hj]. by rewrite E. }
    rewrite E'. eapply leave_Inv; [|exact Hid|exact Hl].
    eapply micros_Inv; [by eapply pump_micro|done].
Qed.

(** The ledger and the queue stay exact through every command. *)
Lemma run_Inv b c now s :
  Inv max_of b s → ad_next_id s + Z.of_nat (size (tickets s)) + 2 ≤ b →
  cmd_tickets max_of c s → Inv max_of b (run exp c now s).
Proof.
  intros HI Hroom Ht. destruct (moves_queue c) eqn:Hm.
  2: { eapply calm_Inv, run_calm; [done|lia|done|done]. }
  destruct c; try done; cbn [run].
  - pose proof (enqueue_enqueued t retry now s) as He.
    destruct (Adm.enqueue exp t retry now s) as [res s']. by eapply enqueued_Inv.
  - destruct (withdraw_cases id s) as [(-> & _)|(k & bl & s' & -> & Hk & Hl)]; [done|].
    by eapply leave_Inv.
  - by apply outbox_Inv.
Qed.

Lemma runs_Inv ok st n s h :
  (∀ c s, ok c s → cmd_tickets max_of c s) → runs exp ok st n s h →
  2 * Z.of_nat n ≤ id_limit → Inv max_of (2 * Z.of_nat n) s.
Proof.
  intros Hok. induction 1 as [|n s h c now _ IH Hc]; intros Hn; [apply new_Inv|].
  assert (Inv max_of (2 * Z.of_nat n) s) as HI by (apply IH; lia).
  apply run_Inv; [eapply Inv_mono; [exact HI|lia..]| |by apply Hok].
  pose proof (inv_bound _ _ _ HI). lia.
Qed.

Lemma joined_history b s h k retry id s1 :
  Inv max_of b s → joined_queue k retry s id s1 → history_ok s h →
  history_ok s1 (mkHistory (id :: h_accepted h) (h_withdrawn h) (h_given h))
  ∧ id ∉ h_accepted h ∧ id ∉ h_withdrawn h.
Proof.
  intros HI Hj [HA H2 H3]. pose proof (Inv_next_bound _ _ _ HI) as Hn.
  pose proof (jq_id _ _ _ _ _ Hj) as Hid. rewrite u64_add_small in Hid by (unfold id_limit, u64_max in *; lia).
  pose proof (jq_tickets _ _ _ _ _ Hj) as Et. pose proof (jq_next _ _ _ _ _ Hj) as En.
  pose proof (jq_outbox _ _ _ _ _ Hj) as Eo.
  assert (∀ x, accounted (h_given h).*1 s x → x ≠ id) as Hacc.
  { intros x Hx%(accounted_range _ _ _ _ HI HA). lia. }
  assert (∀ x, x ∈ h_withdrawn h → x ≠ id) as Hwd by (intros x [_ Hx]%H3; lia).
  assert (outcomes (h_given h).*1 s1 = outcomes (h_given h).*1 s) as E by by unfold outcomes; rewrite Eo.
  assert (∀ x, accounted (h_given h).*1 s1 x ↔ x = id ∨ accounted (h_given h).*1 s x) as Ea.
  { intros x. unfold accounted. rewrite E, Et, lookup_insert_is_Some. destruct (decide (id = x)); naive_solver. }
  split_and!; [constructor; cbn [h_accepted h_withdrawn h_given]| |].
  - destruct HA as [A1 A2 A3]. constructor; rewrite E; [done| |].
    + intros x Hx. rewrite Et, lookup_insert_ne; [by apply A2|]. intros <-. apply (Hacc id); [by right|done].
    + intros x Hx%A3. lia.
  - intros x. rewrite elem_of_cons, Ea, H2. tauto.
  - intros x Hx. rewrite Ea. destruct (H3 x Hx). pose proof (Hwd x Hx). split; [|lia]. naive_solver.
  - rewrite H2. intros [Hx|Hx]; [by apply Hacc in Hx|by apply Hwd in Hx].
  - intros Hx. by apply Hwd in Hx.
Qed.

(** A waiter that leaves without an answer: its id is not accounted for any more. *)
Lemma left_history b s h id k s1 given :
  Inv max_of b s → tickets s !! id = Some k → left_queue id k s s1 → answered_once given s →
  answered_once given s1 ∧ (∀ x, accounted given s1 x ↔ x ≠ id ∧ accounted given s x)
  ∧ 0 < id ≤ ad_next_id s1 ∧ ad_next_id s1 = ad_next_id s.
Proof.
  intros HI Hk Hl [A1 A2 A3]. pose proof (lq_tickets _ _ _ _ Hl) as Et.
  assert (outcomes given s1 = outcomes given s) as E.
  { unfold outcomes. by rewrite (lq_outbox _ _ _ _ Hl). }
  assert (id ∉ outcomes given s) as Hid by (intros H%A2; congruence).
  split_and!.
  - constructor; rewrite E; [done| |].
    + intros x Hx. rewrite Et. apply lookup_delete_None. right. by apply A2.
    + intros x Hx. rewrite (lq_next _ _ _ _ Hl). by apply A3.
  - intros x. unfold accounted. rewrite E, Et, lookup_delete_is_Some.
    split; [|naive_solver]. intros [[? ?]|Hx]; [by split; [|left]|]. split; [|by right]. by intros ->.
  - apply (inv_wids _ _ (inv_waiting _ _ _ HI) id). eauto.
  - rewrite (lq_next _ _ _ _ Hl). apply (inv_wids _ _ (inv_waiting _ _ _ HI)). eauto.
  - apply Hl.
Qed.

Lemma run_history b c now s h :
  Inv max_of b s → ad_next_id s + Z.of_nat (size (tickets s)) + 2 ≤ b →
  cmd_tickets max_of c s → history_ok s h → history_ok (run exp c now s) (note exp c now s h).
Proof.
  intros HI Hroom Ht Hh. destruct (moves_queue c) eqn:Hm.
  2: { assert (note exp c now s h = h) as -> by by destruct c.
       eapply calm_history; [|exact Hh]. eapply run_calm; [done|lia|done|done]. }
  destruct c; try done; cbn [run note].
  - pose proof (enqueue_enqueued t retry now s) as He.
    destruct (Adm.enqueue exp t retry now s) as [res s']. cbn [fst snd].
    pose proof (enqueued_Inv _ _ _ _ _ _ _ HI Hroom Ht He) as HI'.
    destruct He as [r s1 E|id s0 s1 E Hj|id s0 s1 k' s2 r s3 E Hj _ Hid Hl E'].
    { eapply quiet_history; [by apply core_quiet|done]. }
    all: assert (Inv max_of b s0) as HI0 by by rewrite E.
    all: assert (history_ok s0 h) as Hh0 by (eapply quiet_history; [by apply core_quiet|done]).
    all: assert (Inv max_of b s1) as HI1 by
      (eapply join_Inv; [exact HI0|by rewrite (ce_next _ _ E), (ce_tickets _ _ E)|exact Ht|exact Hj]).
    all: destruct (joined_history _ _ _ _ _ _ _ HI0 Hj Hh0) as (Hh1 & Hna & Hnw).
    all: assert (rtc micro s1 (Adm.pump exp now s1)) as Hp by by eapply pump_micro.
    all: pose proof (micros_history _ _ _ _ Hp HI1 Hh1) as Hh2.
    { done. }
    pose proof (micros_Inv _ _ _ _ Hp HI1) as HI2. destruct Hh2 as [G1 G2 G3].
    destruct (left_history _ _ h _ _ _ _ HI2 Hid Hl G1) as (A1 & A2 & A3 & A4).
    cbn [h_accepted h_withdrawn h_given] in *.
    eapply quiet_history; [apply core_quiet, E'|]. constructor; [done| |].
    + intros x. rewrite A2. specialize (G2 x). rewrite elem_of_cons in G2.
      destruct (decide (x = id)) as [->|Hne]; [|tauto]. split; [done|]. intros [[? _]|?]; done.
    + intros x Hx. rewrite A2, A4. destruct (G3 x Hx). naive_solver.
  - destruct (withdraw_cases id s) as [(-> & _)|(k & bl & s' & -> & Hk & Hl)]; [done|]. cbn [fst snd].
    destruct Hh as [G1 G2 G3].
    destruct (left_history _ _ h _ _ _ _ HI Hk Hl G1) as (A1 & A2 & A3 & A4).
    constructor; cbn [h_accepted h_withdrawn h_given]; [done| |].
    + intros x. rewrite A2, elem_of_cons, G2. destruct (decide (x = id)) as [->|]; [|naive_solver].
      split; [by right; left|]. intros _. left. left. eauto.
    + intros x [->|Hx]%elem_of_cons; rewrite A2; [naive_solver|]. rewrite A4.
      destruct (G3 x Hx). naive_solver.
  - destruct Hh as [[A1 A2 A3] G2 G3]. unfold Adm.take_outbox. cbn [fst snd].
    set (s' := s <| ad_outbox := [] |>).
    assert (outcomes (app (h_given h) (ad_outbox s)).*1 s' = outcomes (h_given h).*1 s) as E.
    { unfold outcomes. cbn. by rewrite app_nil_r, fmap_app. }
    assert (∀ x, accounted (app (h_given h) (ad_outbox s)).*1 s' x ↔ accounted (h_given h).*1 s x) as Ea.
    { intros x. unfold accounted. by rewrite E. }
    constructor; cbn [h_accepted h_withdrawn h_given].
    + constructor; by rewrite E.
    + intros x. by rewrite Ea.
    + intros x Hx. rewrite Ea. by apply G3.
Qed.

Lemma runs_history ok st n s h :
  (∀ c s, ok c s → cmd_tickets max_of c s) → runs exp ok st n s h →
  2 * Z.of_nat n ≤ id_limit → history_ok s h.
Proof.
  intros Hok Hr. induction Hr as [|n s h c now Hr IH Hc]; intros Hn.
  { constructor; [constructor|..]; cbn; try set_solver; [constructor|].
    assert (tickets (Adm.new st) = ∅) as E by apply fmap_empty.
    intros id. unfold accounted, outcomes. rewrite E, lookup_empty. cbn.
    split; [set_solver|]. intros [[[? [=]]|?]|?]; set_solver. }
  assert (Inv max_of (2 * Z.of_nat n) s) as HI by (eapply runs_Inv; [exact Hok|exact Hr|lia]).
  eapply (run_history (2 * Z.of_nat (S n))); [eapply Inv_mono; [exact HI|lia..]| |by apply Hok|].
  - pose proof (inv_bound _ _ _ HI). lia.
  - apply IH. lia.
Qed.
End Commands.
