(* ===== verification/AdmissionProps.v ===== *)
(** * What admission guarantees

    The limits hold in every run whose callers keep the contract of a grant, and
    the properties of the admission state machine, with concrete runs. *)

From S2P Require Import Prelude Sums Ids Scaler Admission AdmissionInv AdmissionSched.
From S2P Require Import AdmissionRun.

Open Scope Z_scope.

(** ** The contract of the callers *)

(** A promise holds no resources, so only a reservation that is more than a promise is
    parked, drained or taken over; who takes over an environment that was not
    already counted as in flight gives up one of the same tenant and revision. *)
Definition held_grant (id : ReservationId) (s : AdmissionState) : Prop :=
  ∀ r, ad_reservations s !! id = Some r → rs_state r ≠ ResState.Promised.

Definition exchanged (holder : option ReservationId) (idle : ReservationId) (r : Reservation)
    (s : AdmissionState) : Prop :=
  ∃ h rh, holder = Some h ∧ h ≠ idle ∧ ad_reservations s !! h = Some rh
    ∧ ResState.in_flight (rs_state rh) = true
    ∧ rs_tenant rh = rs_tenant r ∧ rs_revision rh = rs_revision r.

Definition contract (max_of : RevisionId → Z) (c : adm_cmd) (s : AdmissionState) : Prop :=
  cmd_tickets max_of c s
  ∧ match c with
    | CPark id | CParked id | CDrain id => held_grant id s
    | CAdopt holder idle => held_grant idle s ∧
        ∀ r, ad_reservations s !! idle = Some r → ResState.in_flight (rs_state r) = false →
        exchanged holder idle r s
    | _ => True
    end.

(** Settings as they are read: unsigned numbers. *)
Definition settings_ok (st : AdmissionSettings) : Prop :=
  admits (ad_capacity (Adm.new st)) ZERO = true ∧ 0 ≤ set_max_concurrency st
  ∧ ∀ t q, tq_max_concurrency (Adm.quota_for t (Adm.new st)) = Some q → 0 ≤ q.

(** ** Commands that take nothing more *)

Record lighter (s s' : AdmissionState) : Prop := {
  lt_capacity : ad_capacity s' = ad_capacity s;
  lt_settings : ad_settings s' = ad_settings s;
  lt_quota_for : ∀ t, Adm.quota_for t s' = Adm.quota_for t s;
  lt_held : res_le (held_sum (ad_reservations s')) (held_sum (ad_reservations s));
  lt_flies : total flies (ad_reservations s') ≤ total flies (ad_reservations s);
  lt_tenant : ∀ t, total (flies_for t) (ad_reservations s') ≤ total (flies_for t) (ad_reservations s);
  lt_revision : ∀ v, total (flies_of v) (ad_reservations s') ≤ total (flies_of v) (ad_reservations s)
}.

Section Limits.
Context (exp : f64 → f64) `{HO : !HashOrder} (max_of : RevisionId → Z) (b : Z).
Implicit Types (s : AdmissionState) (now : Timestamp) (r : Reservation).
Notation Inv := (Inv max_of b).
Notation within := (within max_of).

Lemma lighter_within s s' : lighter s s' → within s → within s'.
Proof.
  intros [L1 L2 L3 L4 L5 L6 L7] [W1 W2 W3 W4]. constructor; rewrite ?L1, ?L2.
  - by eapply admits_mono.
  - lia.
  - intros t q. rewrite L3. intros H%W3. specialize (L6 t). lia.
  - intros v. specialize (L7 v). specialize (W4 v). lia.
Qed.

Lemma res_le_refl a : res_le a a.
Proof. unfold res_le. lia. Qed.

(** The same reservations, the same limits. *)
Lemma same_lighter s s' :
  ad_capacity s' = ad_capacity s → ad_settings s' = ad_settings s →
  (∀ t, Adm.quota_for t s' = Adm.quota_for t s) →
  ad_reservations s' = ad_reservations s → lighter s s'.
Proof. intros E1 E2 E3 E4. constructor; rewrite ?E4; intros; auto; apply res_le_refl || lia. Qed.

Lemma core_within s s' : s' ≡ s → within s → within s'.
Proof.
  intros E. apply lighter_within, same_lighter; [apply E..| |apply E]. intros t. by apply quota_for_core.
Qed.

(** What one reservation weighs. *)
Definition weighs_no_more r' r : Prop :=
  (ResState.holds_resources (rs_state r') = true →
    ResState.holds_resources (rs_state r) = true ∧ rs_resources r' = rs_resources r)
  ∧ (ResState.in_flight (rs_state r') = true →
      ResState.in_flight (rs_state r) = true ∧ rs_tenant r' = rs_tenant r
      ∧ rs_revision r' = rs_revision r).

Lemma weighs_flies r' r t v :
  weighs_no_more r' r →
  flies r' ≤ flies r ∧ flies_for t r' ≤ flies_for t r ∧ flies_of v r' ≤ flies_of v r.
Proof.
  intros [_ H]. unfold flies_for, flies_of, flies.
  destruct (ResState.in_flight (rs_state r')) eqn:E.
  - destruct H as (-> & -> & ->); [done|lia].
  - cbn. rewrite !Z.mul_0_r. pose proof (one_bounds (rs_tenant r == t)).
    pose proof (one_bounds (rs_revision r == v)). pose proof (one_bounds (ResState.in_flight (rs_state r))).
    nia.
Qed.

Lemma weighs_held f r' r : weighs_no_more r' r → 0 ≤ f (rs_resources r) → held f r' ≤ held f r.
Proof.
  intros [H _] Hf. unfold held. destruct (ResState.holds_resources (rs_state r')) eqn:E.
  - destruct H as [-> ->]; [done|lia].
  - destruct (ResState.holds_resources (rs_state r)); [done|lia].
Qed.

Lemma held_nonneg f r : 0 ≤ f (rs_resources r) → 0 ≤ held f r.
Proof. unfold held. destruct (ResState.holds_resources _); lia. Qed.

Lemma res_bounded_nonneg n a : res_bounded n a → res_nonneg a.
Proof. unfold res_bounded, res_nonneg. lia. Qed.

(** A reservation leaves. *)
Lemma remove_lighter id r s s' :
  Inv s → ad_reservations s !! id = Some r →
  booked r false (base.delete id (ad_reservations s)) s s' → lighter s s'.
Proof.
  intros HI Hr Hb.
  pose proof (res_bounded_nonneg _ _ (inv_resources _ (inv_ledger _ _ _ HI) _ _ Hr)) as (? & ? & ?).
  constructor; try apply Hb; rewrite (bk_reservations _ _ _ _ _ Hb).
  - unfold held_sum, res_le; cbn. rewrite !(total_delete _ _ _ r) by done.
    pose proof (held_nonneg res_cpu r). pose proof (held_nonneg res_memory r).
    pose proof (held_nonneg res_storage r). lia.
  - rewrite (total_delete _ _ _ r) by done. pose proof (flies_01 r). lia.
  - intros t. rewrite (total_delete _ _ _ r) by done. pose proof (flies_for_01 t r). lia.
  - intros v. rewrite (total_delete _ _ _ r) by done. pose proof (flies_of_01 v r). lia.
Qed.

(** A reservation comes back no heavier. *)
Lemma rebook_lighter id r r' s :
  Inv s → ad_reservations s !! id = Some r → weighs_no_more r' r →
  lighter s (Adm.insert_reservation id r' (Adm.remove_reservation id r s)).
Proof.
  intros HI Hr Hw.
  pose proof (res_bounded_nonneg _ _ (inv_resources _ (inv_ledger _ _ _ HI) _ _ Hr)) as (? & ? & ?).
  pose proof (remove_booked id r s) as Hb.
  pose proof (insert_booked id r' (Adm.remove_reservation id r s)) as Hb'.
  assert (ad_reservations (Adm.insert_reservation id r' (Adm.remove_reservation id r s))
          = <[id := r']> (ad_reservations s)) as Em.
  { rewrite (bk_reservations _ _ _ _ _ Hb'), (bk_reservations _ _ _ _ _ Hb). apply insert_delete_eq. }
  constructor; rewrite ?Em.
  - by rewrite (bk_capacity _ _ _ _ _ Hb'), (bk_capacity _ _ _ _ _ Hb).
  - by rewrite (bk_settings _ _ _ _ _ Hb'), (bk_settings _ _ _ _ _ Hb).
  - intros t. by rewrite (bk_quota_for _ _ _ _ _ Hb'), (bk_quota_for _ _ _ _ _ Hb).
  - unfold held_sum, res_le; cbn. rewrite !(total_replace _ _ _ r) by done.
    pose proof (weighs_held res_cpu _ _ Hw). pose proof (weighs_held res_memory _ _ Hw).
    pose proof (weighs_held res_storage _ _ Hw). lia.
  - rewrite (total_replace _ _ _ r) by done. pose proof (weighs_flies r' r "" "" Hw). lia.
  - intros t. rewrite (total_replace _ _ _ r) by done. pose proof (weighs_flies r' r t "" Hw). lia.
  - intros v. rewrite (total_replace _ _ _ r) by done. pose proof (weighs_flies r' r "" v Hw). lia.
Qed.

Lemma set_state_within id to s :
  Inv s →
  (∀ r, ad_reservations s !! id = Some r →
    (ResState.holds_resources to = true → ResState.holds_resources (rs_state r) = true)
    ∧ (ResState.in_flight to = true → ResState.in_flight (rs_state r) = true)) →
  within s → within (Adm.set_state id to s).
Proof.
  intros HI Hw. unfold Adm.set_state. destruct (ad_reservations s !! id) as [r|] eqn:Hr; [|done].
  case_bool_decide; [done|]. cbv zeta. rewrite rebook_eq. destruct (Hw r eq_refl) as [H1 H2].
  apply lighter_within, rebook_lighter; [done..|]. by split; intros H'; [apply H1 in H'|apply H2 in H'].
Qed.

Lemma pump_within now s : Inv s → within s → within (Adm.pump exp now s).
Proof. intros HI. eapply micros_within; [by eapply pump_micro|done]. Qed.

Lemma probe_within id r s :
  ad_reservations s !! id = Some r → within s →
  within (s <| ad_reservations ::= <[id := r <| rs_probe := false |>]> |>).
Proof.
  intros Hr. apply lighter_within. constructor; try done; cbn;
    unfold held_sum; intros; rewrite !(total_replace _ _ _ r) by done;
    unfold res_le, held, flies_for, flies_of, flies; cbn; lia.
Qed.

Lemma remove_within id r s :
  Inv s → ad_reservations s !! id = Some r → within s →
  within (Adm.probe_abandoned r (Adm.remove_reservation id r s)).
Proof.
  intros HI Hr Hw. eapply core_within; [apply probe_abandoned_core|].
  eapply lighter_within; [|exact Hw]. eapply remove_lighter; [done..|apply remove_booked].
Qed.

Lemma forget_within v now s : within s → within (Adm.forget_revision_if_idle exp v now s).
Proof.
  unfold Adm.forget_revision_if_idle. destruct (ad_revisions s !! v); [|done].
  destruct (negb _); [done|]. destruct (Breaker.state _ _). destruct (_ && _).
  - by apply lighter_within, same_lighter.
  - apply core_within. by apply on_revision_core.
Qed.

Lemma release_within id now s : Inv s → within s → within (Adm.release exp id now s).
Proof.
  intros HI Hw. unfold Adm.release.
  destruct (ad_reservations s !! id) as [r|] eqn:Hr; [|by apply pump_within].
  destruct (remove_reservation_step max_of b id r s HI Hr) as [_ HI1].
  pose proof (remove_within id r s HI Hr Hw) as Hw1.
  set (s1 := Adm.probe_abandoned _ _) in *.
  set (s2 := match rs_state r with ResState.Promised => _ | _ => _ end).
  assert (s2 ≡ s1) as E by (unfold s2; by destruct (rs_state r)).
  assert (Inv s2) as HI2 by by rewrite E.
  destruct (forget_step exp max_of b (rs_revision r) now s2 HI2) as [_ HI3].
  apply pump_within; [done|]. by apply forget_within, (core_within s1).
Qed.

Lemma set_state_fields id to s r :
  ad_reservations s !! id = Some r →
  let s' := Adm.set_state id to s in
  ad_reservations s' = <[id := r <| rs_state := to |>]> (ad_reservations s)
  ∧ ad_capacity s' = ad_capacity s ∧ ad_settings s' = ad_settings s
  ∧ ∀ t, Adm.quota_for t s' = Adm.quota_for t s.
Proof.
  intros Hr. cbv zeta. unfold Adm.set_state. rewrite Hr. case_bool_decide as Hto.
  { split_and!; [|done..]. symmetry. apply insert_id. rewrite Hr. f_equal.
    destruct r; cbn in *. by subst. }
  cbv zeta. rewrite rebook_eq. set (r' := r <| rs_state := to |>).
  pose proof (remove_booked id r s) as B1.
  pose proof (insert_booked id r' (Adm.remove_reservation id r s)) as B2.
  split_and!.
  - rewrite (bk_reservations _ _ _ _ _ B2), (bk_reservations _ _ _ _ _ B1). apply insert_delete_eq.
  - by rewrite (bk_capacity _ _ _ _ _ B2), (bk_capacity _ _ _ _ _ B1).
  - by rewrite (bk_settings _ _ _ _ _ B2), (bk_settings _ _ _ _ _ B1).
  - intros t. by rewrite (bk_quota_for _ _ _ _ _ B2), (bk_quota_for _ _ _ _ _ B1).
Qed.

(** An environment taken over from the pool is counted instead of what its new driver
    held before. *)
Lemma exchange_lighter idle r h rh s :
  Inv s → ad_reservations s !! idle = Some r → held_grant idle s →
  h ≠ idle → ad_reservations s !! h = Some rh → ResState.in_flight (rs_state rh) = true →
  rs_tenant rh = rs_tenant r → rs_revision rh = rs_revision r →
  lighter s (Adm.set_state idle ResState.Busy
               (Adm.probe_abandoned rh (Adm.remove_reservation h rh s))).
Proof.
  intros HI Hr Hheld Hne Hrh Hf Ht Hv. set (s1 := Adm.probe_abandoned _ _).
  assert (s1 ≡ Adm.remove_reservation h rh s) as E by apply probe_abandoned_core.
  pose proof (remove_booked h rh s) as Hb.
  assert (ad_reservations s1 !! idle = Some r) as Hr1.
  { by rewrite (ce_reservations _ _ E), (bk_reservations _ _ _ _ _ Hb), lookup_delete_ne. }
  destruct (set_state_fields idle ResState.Busy s1 r Hr1) as (Em & Ec & Es & Eq).
  set (s2 := Adm.set_state _ _ _) in *. set (r' := r <| rs_state := ResState.Busy |>) in *.
  rewrite (ce_reservations _ _ E), (bk_reservations _ _ _ _ _ Hb) in Em.
  assert (∀ w, total w (ad_reservations s2) = total w (ad_reservations s) - w rh - w r + w r') as Etot.
  { intros w. rewrite Em, (total_replace _ _ _ r) by (by rewrite lookup_delete_ne).
    rewrite (total_delete _ _ _ rh) by done. lia. }
  assert (flies rh = 1) as F1 by by unfold flies; rewrite Hf.
  assert (flies r' = 1) as F2 by done.
  constructor.
  - rewrite Ec, (ce_capacity _ _ E). apply Hb.
  - rewrite Es, (ce_settings _ _ E). apply Hb.
  - intros t. rewrite Eq, (quota_for_core _ _ t E). apply Hb.
  - pose proof (inv_resources _ (inv_ledger _ _ _ HI) _ _ Hrh) as Bh.
    assert (∀ f, 0 ≤ f (rs_resources rh) →
      total (held f) (ad_reservations s2) ≤ total (held f) (ad_reservations s)) as Hh.
    { intros f Hn. rewrite Etot. pose proof (held_nonneg f rh Hn).
      assert (held f r' = held f r) as ->; [|lia].
      unfold held, r'; cbn. specialize (Hheld r Hr). by destruct (rs_state r). }
    unfold res_bounded in Bh. unfold held_sum, res_le; cbn. split_and!; apply Hh; lia.
  - rewrite Etot. pose proof (flies_01 r). lia.
  - intros t. rewrite Etot. pose proof (flies_for_01 t r). unfold flies_for in *. rewrite F1, F2, Ht.
    change (rs_tenant r') with (rs_tenant r). lia.
  - intros v. rewrite Etot. pose proof (flies_of_01 v r). unfold flies_of in *. rewrite F1, F2, Hv.
    change (rs_revision r') with (rs_revision r). lia.
Qed.

Lemma adopt_within holder idle now s :
  Inv s → contract max_of (CAdopt holder idle) s → within s →
  within (Adm.adopt exp holder idle now s).2.
Proof.
  intros HI [_ [Hheld Hex]] Hw. unfold Adm.adopt; cbn [snd].
  destruct (ad_reservations s !! idle) as [r|] eqn:Hr.
  2: { set (s1 := match holder with Some _ => _ | None => s end).
       assert (Inv s1 ∧ within s1 ∧ ad_reservations s1 !! idle = None) as (HI1 & Hw1 & Hr1).
       { unfold s1. destruct holder as [h|]; [|done]. destruct (h =? idle); [done|].
         destruct (ad_reservations s !! h) as [rh|] eqn:Hrh; [|done].
         destruct (remove_reservation_step max_of b h rh s HI Hrh) as [_ HI1].
         split_and!; [done|by apply remove_within|].
         rewrite (ce_reservations _ _ (probe_abandoned_core _ _)),
           (bk_reservations _ _ _ _ _ (remove_booked h rh s)).
         apply lookup_delete_None. by right. }
       apply pump_within; [by apply set_state_Inv|]. unfold Adm.set_state. by rewrite Hr1. }
  destruct (ResState.in_flight (rs_state r)) eqn:Hf.
  - set (s1 := match holder with Some _ => _ | None => s end).
    assert (Inv s1 ∧ within s1 ∧ ad_reservations s1 !! idle = Some r) as (HI1 & Hw1 & Hr1).
    { unfold s1. destruct holder as [h|]; [|done]. destruct (Z.eqb_spec h idle); [done|].
      destruct (ad_reservations s !! h) as [rh|] eqn:Hrh; [|done].
      destruct (remove_reservation_step max_of b h rh s HI Hrh) as [_ HI1].
      split_and!; [done|by apply remove_within|].
      by rewrite (ce_reservations _ _ (probe_abandoned_core _ _)),
        (bk_reservations _ _ _ _ _ (remove_booked h rh s)), lookup_delete_ne. }
    apply pump_within; [by apply set_state_Inv|]. apply set_state_within; [done| |done].
    intros r' Hr'. rewrite Hr1 in Hr'. injection Hr' as <-. split; [|done]. intros _.
    specialize (Hheld r Hr). by destruct (rs_state r).
  - destruct (Hex r eq_refl Hf) as (h & rh & -> & Hne & Hrh & Hfh & Ht & Hv).
    destruct (Z.eqb_spec h idle) as [|_]; [done|]. rewrite Hrh.
    destruct (remove_reservation_step max_of b h rh s HI Hrh) as [_ HI1].
    apply pump_within; [by apply set_state_Inv|].
    eapply lighter_within; [|exact Hw]. by eapply exchange_lighter.
Qed.

(** A promise becomes a start when the node has room for it. *)
Lemma convert_within id r probe s :
  Inv s → ad_reservations s !! id = Some r → rs_state r = ResState.Promised →
  admits (ad_capacity s) (plus (ad_reserved s) (rs_resources r)) = true → within s →
  within (Adm.insert_reservation id (r <| rs_state := ResState.Starting |> <| rs_probe := probe |>)
            (Adm.remove_reservation id r s)).
Proof.
  intros HI Hr Hst Hfit [W1 W2 W3 W4]. set (r' := r <| rs_state := _ |> <| rs_probe := probe |>).
  pose proof (remove_booked id r s) as B1.
  pose proof (insert_booked id r' (Adm.remove_reservation id r s)) as B2.
  assert (ad_reservations (Adm.insert_reservation id r' (Adm.remove_reservation id r s))
          = <[id := r']> (ad_reservations s)) as Em.
  { rewrite (bk_reservations _ _ _ _ _ B2), (bk_reservations _ _ _ _ _ B1). apply insert_delete_eq. }
  assert (flies r = 1 ∧ flies r' = 1) as [F1 F2] by (unfold flies; by rewrite Hst).
  assert (∀ f, held f r = 0) as Hz by (intros f; unfold held; by rewrite Hst).
  assert (∀ f, held f r' = f (rs_resources r)) as Hf by done.
  constructor; rewrite ?(bk_capacity _ _ _ _ _ B2), ?(bk_capacity _ _ _ _ _ B1),
    ?(bk_settings _ _ _ _ _ B2), ?(bk_settings _ _ _ _ _ B1), ?Em.
  - rewrite <-Hfit, (inv_reserved _ (inv_ledger _ _ _ HI)). f_equal.
    rewrite (plus_held _ _ _ _ HI) by exact (inv_resources _ (inv_ledger _ _ _ HI) _ _ Hr).
    unfold held_sum, res_add; cbn. rewrite !(total_replace _ _ _ r), !Hz, !Hf, !Z.sub_0_r by done. done.
  - rewrite (total_replace _ _ _ r) by done. lia.
  - intros t q. rewrite (bk_quota_for _ _ _ _ _ B2), (bk_quota_for _ _ _ _ _ B1). intros Hq%W3.
    rewrite (total_replace _ _ _ r) by done.
    assert (flies_for t r' = flies_for t r) by (unfold flies_for; by rewrite F1, F2). lia.
  - intros v. specialize (W4 v). rewrite (total_replace _ _ _ r) by done.
    assert (flies_of v r' = flies_of v r) by (unfold flies_of; by rewrite F1, F2). lia.
Qed.

Lemma redeem_within id now s : Inv s → within s → within (Adm.redeem exp id now s).2.
Proof.
  intros HI Hw. unfold Adm.redeem. destruct (ad_reservations s !! id) as [r|] eqn:Hr; [|done].
  case_bool_decide as Hst; cbn [negb]; [|done].
  destruct (ad_revisions s !! rs_revision r) as [rev|] eqn:Hv; [|done].
  destruct (Breaker.gate now (re_breaker rev)) as [gate breaker]. cbv zeta.
  set (s1 := Adm.on_revision _ _ s). assert (s1 ≡ s) as E1 by by apply on_revision_core.
  destruct (admits _ _) eqn:Hfit; cbn [andb].
  2: { cbn [andb negb snd]. apply release_within; [by rewrite E1|by eapply core_within]. }
  match goal with |- within (match ?p0 with (_, _) => _ end).2 => set (p := p0) end.
  assert (p.2 ≡ s) as E2.
  { unfold p. destruct (_ || _); [|done]. destruct (Bucket.take _ _). rewrite <-E1. by constructor. }
  destruct p as [took s2]. cbn in E2. assert (Inv s2) as HI2 by by rewrite E2.
  assert (within s2) as Hw2 by by eapply core_within.
  destruct (negb _); [by apply release_within|].
  set (s3 := Adm.record_scale _ _ _ _ _).
  assert (s3 ≡ s) as E3.
  { unfold s3. rewrite record_scale_core. rewrite <-E2. by apply on_revision_core. }
  cbn [snd]. rewrite rebook_eq. apply convert_within.
  - by rewrite E3.
  - by rewrite (ce_reservations _ _ E3).
  - done.
  - by rewrite (ce_capacity _ _ E3), (ce_reserved _ _ E3).
  - by eapply core_within.
Qed.

Lemma start_result_within id ok now s : Inv s → within s → within (Adm.start_result exp id ok now s).
Proof.
  intros HI Hw. unfold Adm.start_result. destruct (ad_reservations s !! id) as [r|] eqn:Hr; [|done].
  pose proof (probe_Inv _ _ s id r HI Hr) as HI0. pose proof (probe_within id r s Hr Hw) as Hw0.
  set (s0 := s <| ad_reservations ::= _ |>) in *.
  set (s1 := s0 <| ad_counters ::= _ |>). assert (s1 ≡ s0) as E1 by by constructor.
  assert (Inv s1 ∧ within s1) as [HI1 Hw1] by (split; [by rewrite E1|by eapply core_within]).
  destruct (ad_revisions s1 !! rs_revision r) as [rev|] eqn:Hv; [|done].
  destruct ok.
  { set (s2 := Adm.on_revision _ _ s1). assert (s2 ≡ s1) as E2 by apply breaker_core.
    apply pump_within; [by rewrite E2|by eapply core_within]. }
  destruct (Breaker.record_failure now (re_breaker rev)) as [opened breaker].
  set (s2 := Adm.on_revision _ _ s1). assert (s2 ≡ s1) as E2 by by apply on_revision_core.
  assert (Inv s2 ∧ within s2) as [HI2 Hw2] by (split; [by rewrite E2|by eapply core_within]).
  destruct opened; [|by apply pump_within].
  set (s3 := s2 <| ad_counters ::= _ |>). assert (s3 ≡ s2) as E3 by by constructor.
  assert (Inv s3 ∧ within s3) as [HI3 Hw3] by (split; [by rewrite E3|by eapply core_within]).
  pose proof (refuse_revision_micro (rs_revision r) (circuit_open (rs_revision r)) s3) as Hm.
  apply pump_within; [by eapply micros_Inv|by eapply micros_within].
Qed.

Lemma begin_drain_within v reason now s :
  Inv s → within s → within (Adm.begin_drain exp v reason now s).2.
Proof.
  intros HI Hw. unfold Adm.begin_drain; cbn [snd]. cbv zeta.
  set (reason' := if (_ : bool) then DrainReason.FunctionDeleted else _).
  pose proof (drains_Inv _ _ s (<[v := reason']>) HI) as HI0.
  set (s0 := s <| ad_drains ::= _ |>) in *.
  assert (within s0) as Hw0 by (apply (lighter_within s); [by apply same_lighter|done]).
  set (s1 := if (_ : bool) then Adm.record_scale _ _ _ _ _ else s0).
  assert (s1 ≡ s0) as E1.
  { unfold s1. destruct (negb _); [apply record_scale_core|done]. }
  assert (Inv s1 ∧ within s1) as [HI1 Hw1] by (split; [by rewrite E1|by eapply core_within]).
  case_bool_decide; [|done].
  pose proof (refuse_revision_micro v (function_deleted v) s1) as Hm.
  apply pump_within; [by eapply micros_Inv|by eapply micros_within].
Qed.

Lemma try_scale_down_within id how now s :
  Inv s → within s → within (Adm.try_scale_down id how now s).2.
Proof.
  intros HI Hw. unfold Adm.try_scale_down. destruct (ad_reservations s !! id) as [r|] eqn:Hr; [|done].
  case_bool_decide as Hst; [|done]. cbn [negb].
  destruct (ad_revisions s !! rs_revision r) as [rev|]; [|done].
  destruct (0 <? _); [done|]. destruct (_ <=? _); [done|].
  cbv zeta. destruct (match how with ScaleIdle _ => _ | ScaleDrain _ => _ end); [|done].
  cbn [snd]. eapply core_within; [apply record_scale_core|]. apply set_state_within; [done| |done].
  intros r' Hr'. rewrite Hr in Hr'. injection Hr' as <-. by rewrite Hst.
Qed.

Lemma revision_entry_within k s : within s → within (Adm.revision_entry k (λ rev, rev) s).
Proof. by apply lighter_within, same_lighter. Qed.

Lemma try_prestart_within k now s :
  Inv s → ad_next_id s + Z.of_nat (size (tickets s)) + 1 ≤ b → ticket_ok max_of k →
  within s → within (Adm.try_prestart k now s).2.
Proof.
  intros HI Hroom Hk Hw. unfold Adm.try_prestart.
  pose proof (check_static_core k now s) as E. destruct (Adm.check_static k now s) as [res s1].
  cbn in E. assert (within s1) as Hw1 by by eapply core_within.
  destruct res; [|done]. do 3 (case_match; [done|]).
  destruct (Bucket.available now (ad_bucket s1)) as [bucket_ok bucket]. cbv zeta.
  set (s2 := s1 <| ad_bucket := bucket |>). assert (s2 ≡ s) as E2 by by rewrite <-E.
  assert (Inv s2) as HI2 by by rewrite E2.
  pose proof (revision_entry_Inv _ _ s2 k HI2 Hk) as HI3.
  assert (within s2) as Hw2 by by eapply core_within.
  pose proof (revision_entry_within k s2 Hw2) as Hw3.
  set (s3 := Adm.revision_entry k _ s2) in *.
  destruct (ad_revisions s3 !! tk_revision k) as [rev|] eqn:Hv; [|done].
  destruct (re_min_ready rev <=? _); [done|].
  destruct (is_some_and _ _) eqn:Hten; [done|]. destruct (_ <=? Cnt.in_flight (re_counts rev)) eqn:Hrev; [done|].
  destruct (Breaker.gate now (re_breaker rev)) as [gate breaker].
  set (s4 := Adm.on_revision _ _ s3). assert (s4 ≡ s3) as E4 by by apply on_revision_core.
  assert (within s4) as Hw4 by by eapply core_within.
  cbn [orb]. destruct (gate != _); [done|].
  destruct (_ <=? Cnt.in_flight (ad_counts _)) eqn:Hnode; [done|].
  destruct (admits _ _) eqn:Hfit; [|done]. cbn [orb negb]. destruct (negb bucket_ok); [done|]. bools.
  set (s5 := Adm.on_revision _ _ s4). assert (s5 ≡ s4) as E5 by by apply on_revision_core.
  set (s6 := s5 <| ad_bucket ::= _ |>). assert (s6 ≡ s5) as E6 by by constructor.
  assert (s6 ≡ s3) as E63 by by rewrite E6, E5.
  assert (Inv s6) as HI6 by by rewrite E63.
  assert (Inv s1) as HI1 by by rewrite E.
  unfold Adm.next. cbn [fst snd]. eapply core_within; [apply record_scale_core|].
  apply (alloc_within _ b s6 (mkReservation (tk_tenant k) (tk_revision k) (tk_resources k)
           ResState.Starting false)); try done.
  - by rewrite <-(ce_next _ _ E2), <-(ce_tickets _ _ E2) in Hroom.
  - by eapply core_within.
  - apply Hk.
  - cbn [rs_tenant rs_revision].
    change (ad_reservations s6) with (ad_reservations s1). change (ad_settings s6) with (ad_settings s1).
    rewrite <-(node_in_flight _ _ _ HI1). done.
  - intros q. change (ad_reservations s6) with (ad_reservations s1).
    change (Adm.quota_for _ s6) with (Adm.quota_for (tk_tenant k) s1). cbn [rs_tenant]. intros Hq.
    rewrite <-(inv_flight _ (inv_ledger _ _ _ HI1)). rewrite Hq in Hten. cbn in Hten. bools.
    unfold tenant. destruct (ad_tenants s1 !! tk_tenant k); done.
  - cbn [rs_revision]. change (ad_reservations s6) with (ad_reservations s3).
    rewrite <-(revision_in_flight _ _ _ _ HI3).
    rewrite <-(inv_max _ _ (inv_waiting _ _ _ HI3) (tk_revision k) (re_max_environments rev)) by by rewrite Hv.
    unfold rev_counts. by rewrite Hv.
Qed.

Lemma enqueue_within k retry now s :
  Inv s → ad_next_id s + Z.of_nat (size (tickets s)) + 2 ≤ b → ticket_ok max_of k →
  within s → within (Adm.enqueue exp k retry now s).2.
Proof.
  intros HI Hroom Hk Hw. pose proof (enqueue_enqueued exp k retry now s) as He.
  destruct (Adm.enqueue exp k retry now s) as [res s']. cbn [snd].
  assert (∀ id s0 s1, s0 ≡ s → joined_queue k retry s0 id s1 → Inv s1 ∧ within s1) as Hj.
  { intros id s0 s1 E Hj. split.
    - eapply join_Inv; [|by rewrite (ce_next _ _ E), (ce_tickets _ _ E)|exact Hk|exact Hj]. by rewrite E.
    - assert (within s0) as Hw0 by by eapply core_within.
      eapply lighter_within; [|exact Hw0]. apply same_lighter; apply Hj. }
  destruct He as [r s1 E|id s0 s1 E H|id s0 s1 k' s2 r s3 E H _ Hid Hl E'].
  - by eapply core_within.
  - destruct (Hj _ _ _ E H). by apply pump_within.
  - destruct (Hj _ _ _ E H). eapply core_within; [exact E'|].
    eapply left_within; [exact Hl|]. by apply pump_within.
Qed.

(** Every command that keeps the contract keeps the limits. *)
Lemma run_within c now s :
  Inv s → ad_next_id s + Z.of_nat (size (tickets s)) + 2 ≤ b → contract max_of c s →
  within s → within (run exp c now s).
Proof.
  intros HI Hroom [Ht Hc] Hw.
  assert (∀ id to, held_grant id s → ResState.in_flight to = false →
            within (Adm.pump exp now (Adm.set_state id to s))) as Hset.
  { intros id to Hheld Hto. apply pump_within; [by apply set_state_Inv|].
    apply set_state_within; [done| |done]. intros r Hr. specialize (Hheld r Hr). rewrite Hto.
    split; [|done]. by destruct (rs_state r). }
  destruct c; cbn [run].
  - by apply enqueue_within.
  - unfold Adm.precheck. pose proof (check_static_core t now s) as E.
    destruct (Adm.check_static t now s) as [[] s0]; cbn [snd] in *; [by eapply core_within|].
    eapply core_within; [apply reject_count_core|by eapply core_within].
  - destruct (withdraw_cases id s) as [(-> & _)|(k & bl & s' & -> & Hk & Hl)]; [done|].
    by eapply left_within.
  - eapply micros_within; [apply expire_micro|done..].
  - by apply pump_within.
  - unfold Adm.ready. case_bool_decide as Hst; [|done]. apply set_state_within; [done| |done].
    intros r Hr. rewrite Hr in Hst. injection Hst as Hst. by rewrite Hst.
  - by apply Hset.
  - by apply Hset.
  - by apply Hset.
  - by apply release_within.
  - by apply adopt_within.
  - by apply redeem_within.
  - by apply start_result_within.
  - eapply core_within; [|exact Hw]. by apply on_revision_core.
  - apply (lighter_within s); [by apply same_lighter|done].
  - by apply begin_drain_within.
  - unfold Adm.end_drain. case_bool_decide; [|done]. apply (lighter_within s); [by apply same_lighter|done].
  - apply (lighter_within s); [by apply same_lighter|done].
  - by apply try_scale_down_within.
  - apply try_prestart_within; [done|lia|done..].
  - apply (lighter_within s); [by apply same_lighter|done].
  - apply (lighter_within s); [by apply same_lighter|done].
Qed.
End Limits.

Section Properties.
Context (exp : f64 → f64) `{HO : !HashOrder} (max_of : RevisionId → Z) (st : AdmissionSettings).
Implicit Types (s : AdmissionState) (now : Timestamp) (h : history).

Lemma runs_contract n s h :
  runs exp (contract max_of) st n s h → 2 * Z.of_nat n ≤ id_limit → Inv max_of (2 * Z.of_nat n) s.
Proof. intros Hr Hn. eapply runs_Inv; [|exact Hr|done]. by intros c s' []. Qed.

Lemma runs_within n s h :
  settings_ok st → (∀ v, 0 ≤ max_of v) → runs exp (contract max_of) st n s h →
  2 * Z.of_nat n ≤ id_limit → within max_of s.
Proof.
  intros (S1 & S2 & S3) Hmax. induction 1 as [|n s h c now Hr IH Hc]; intros Hn.
  { by constructor. }
  assert (Inv max_of (2 * Z.of_nat n) s) as HI by (eapply runs_contract; [exact Hr|lia]).
  eapply (run_within _ _ (2 * Z.of_nat (S n))); [eapply Inv_mono; [exact HI|lia..]| |done|apply IH; lia].
  pose proof (inv_bound _ _ _ HI). lia.
Qed.

Lemma begin_drain_drains b v reason now s :
  Inv max_of b s →
  ad_drains (Adm.begin_drain exp v reason now s).2
  = <[v := if (ad_drains s !! v) == Some DrainReason.FunctionDeleted
           then DrainReason.FunctionDeleted else reason]> (ad_drains s).
Proof.
  intros HI. unfold Adm.begin_drain; cbn [snd]. cbv zeta.
  set (reason' := if (_ : bool) then DrainReason.FunctionDeleted else _).
  pose proof (drains_Inv _ _ s (<[v := reason']>) HI) as HI0.
  set (s0 := s <| ad_drains ::= _ |>) in *.
  set (s1 := if (_ : bool) then Adm.record_scale _ _ _ _ _ else s0).
  assert (s1 ≡ s0) as E1 by (unfold s1; destruct (negb _); [apply record_scale_core|done]).
  change (<[v := reason']> (ad_drains s)) with (ad_drains s0). rewrite <-(ce_drains _ _ E1).
  case_bool_decide; [|done].
  pose proof (refuse_revision_micro v (function_deleted v) s1) as Hm.
  rewrite <-(micros_drains _ _ Hm). eapply micros_drains, pump_micro.
  eapply micros_Inv; [exact Hm|]. by rewrite E1.
Qed.

Lemma begin_drain_deleted b v now s id w :
  Inv max_of b s →
  ad_waiters (Adm.begin_drain exp v DrainReason.FunctionDeleted now s).2 !! id = Some w →
  ¬ deleting (wt_ticket w) (Adm.begin_drain exp v DrainReason.FunctionDeleted now s).2
  ∧ now < tk_deadline (wt_ticket w).
Proof.
  intros HI. unfold Adm.begin_drain; cbn [snd]. cbv zeta.
  set (reason' := if (_ : bool) then DrainReason.FunctionDeleted else _).
  assert (reason' = DrainReason.FunctionDeleted) as Er by (unfold reason'; by case_match).
  rewrite (bool_decide_eq_true_2 _ Er).
  pose proof (drains_Inv _ _ s (<[v := reason']>) HI) as HI0.
  set (s0 := s <| ad_drains ::= _ |>) in *.
  set (s1 := if (_ : bool) then Adm.record_scale _ _ _ _ _ else s0).
  assert (s1 ≡ s0) as E1 by (unfold s1; destruct (negb _); [apply record_scale_core|done]).
  intros Hw. assert (Inv max_of b (Adm.refuse_revision v (function_deleted v) s1)) as HI2.
  { eapply micros_Inv; [apply refuse_revision_micro|]. by rewrite E1. }
  by destruct (pump_settles _ _ _ _ _ _ _ HI2 Hw) as (? & ? & _).
Qed.

Lemma check_static_deleted k now s :
  ad_drains s !! tk_revision k = Some DrainReason.FunctionDeleted →
  ∃ r, Adm.check_static k now s = (Err r, s).
Proof.
  intros Hd. unfold Adm.check_static. destruct (List.find _ _); [eauto|].
  rewrite bool_decide_eq_true_2 by done. eauto.
Qed.

(** ** Properties *)

(** The books of admission are exact. After any run of fewer than 2^30 commands
    the state counters, the reserved resources, each tenant's and each revision's
    numbers are the sums over the reservations, and the queue lengths, queued
    bytes and tenants' queues are those of the waiters; no counter wrapped or
    saturated on the way. *)
Theorem admission_books_exact n s h :
  runs exp (cmd_tickets max_of) st n s h → 2 * Z.of_nat n ≤ id_limit →
  Ledger s ∧ Queue max_of s.
Proof.
  intros Hr Hn. assert (Inv max_of (2 * Z.of_nat n) s) as [] by by eapply runs_Inv. done.
Qed.

(** C10: The node is never overcommitted. In every run whose callers keep the
    contract of a grant, the environments that hold resources fit the node
    together, and the environments in flight stay within the node's concurrency,
    each tenant's quota and each revision's cap. *)
Theorem admission_never_overcommits n s h :
  settings_ok st → (∀ v, 0 ≤ max_of v) → runs exp (contract max_of) st n s h →
  2 * Z.of_nat n ≤ id_limit → within max_of s.
Proof. apply runs_within. Qed.

(** C39: The scheduler terminates and leaves nobody unconsidered. Its loop ends by a
    pass that decides nothing, within as many turns as there are waiters and one
    more; whoever is left waiting has a deadline ahead, a revision that is not
    being deleted, and a reason that blocks it. *)
Theorem pump_considers_everyone n s h now :
  runs exp (cmd_tickets max_of) st n s h → 2 * Z.of_nat n ≤ id_limit →
  (∀ more, Adm.pump_loop exp (S (size (ad_waiters s)) + more) now s = Adm.pump exp now s)
  ∧ ∀ id w, ad_waiters (Adm.pump exp now s) !! id = Some w →
      now < tk_deadline (wt_ticket w)
      ∧ ad_drains (Adm.pump exp now s) !! tk_revision (wt_ticket w) ≠ Some DrainReason.FunctionDeleted
      ∧ wt_blocked w ≠ BlockReason.Pending.
Proof.
  intros Hr Hn. assert (Inv max_of (2 * Z.of_nat n) s) as HI by by eapply runs_Inv. split.
  - eapply pump_loop_ends; [exact HI|]. rewrite size_tickets. lia.
  - intros id w Hw. by eapply pump_settles.
Qed.

(** C11: Every invocation let in is answered once. At any point of a run each accepted
    id is in exactly one place: still waiting, withdrawn by its caller, or answered,
    and nobody is answered twice or without having been let in. *)
Theorem waiter_answered_once n s h :
  runs exp (cmd_tickets max_of) st n s h → 2 * Z.of_nat n ≤ id_limit →
  let answered := app (h_given h).*1 (ad_outbox s).*1 in
  NoDup answered
  ∧ (∀ id, id ∈ h_accepted h ↔
      is_Some (ad_waiters s !! id) ∨ id ∈ answered ∨ id ∈ h_withdrawn h)
  ∧ (∀ id, id ∈ answered → ad_waiters s !! id = None)
  ∧ ∀ id, id ∈ h_withdrawn h → ad_waiters s !! id = None ∧ id ∉ answered.
Proof.
  intros Hr Hn answered. assert (history_ok s h) as [[A1 A2 A3] H2 H3] by by eapply runs_history.
  assert (∀ id, is_Some (tickets s !! id) ↔ is_Some (ad_waiters s !! id)) as E.
  { intros id. unfold tickets. by rewrite lookup_fmap, fmap_is_Some. }
  split_and!; [done| | |].
  - intros id. rewrite H2. unfold accounted. rewrite E. unfold outcomes. tauto.
  - intros id Hid%A2. apply eq_None_not_Some. rewrite <-E, Hid. by intros [].
  - intros id Hid%H3. destruct Hid as [Hid _]. split; [|by intros ?; apply Hid; right].
    apply eq_None_not_Some. rewrite <-E. intros ?. apply Hid. by left.
Qed.

(** A deleted function gets no more work. Beginning its drain leaves no waiter of
    the revision; while the drain stands it is never weakened, and every enqueue
    and every pre-start of the revision is refused. *)
Theorem deleted_function_gets_no_work n s h v now :
  runs exp (cmd_tickets max_of) st n s h → 2 * Z.of_nat n ≤ id_limit →
  (∀ id w, ad_waiters (Adm.begin_drain exp v DrainReason.FunctionDeleted now s).2 !! id = Some w →
    tk_revision (wt_ticket w) ≠ v)
  ∧ (ad_drains s !! v = Some DrainReason.FunctionDeleted →
      (∀ reason, ad_drains (Adm.begin_drain exp v reason now s).2 !! v
                 = Some DrainReason.FunctionDeleted)
      ∧ (Adm.end_drain v s).2 = s
      ∧ ∀ k, tk_revision k = v →
          (∀ retry, is_err (Adm.enqueue exp k retry now s).1 = true)
          ∧ is_err (Adm.try_prestart k now s).1 = true).
Proof.
  intros Hr Hn. assert (Inv max_of (2 * Z.of_nat n) s) as HI by by eapply runs_Inv. split.
  - intros id w Hw Hv. destruct (begin_drain_deleted _ _ _ _ _ _ HI Hw) as [Hdel _].
    apply Hdel. unfold deleting. rewrite Hv, (begin_drain_drains _ _ _ _ _ HI), lookup_insert_eq.
    by case_match.
  - intros Hd. split_and!.
    + intros reason. rewrite (begin_drain_drains _ _ _ _ _ HI), lookup_insert_eq, Hd.
      by rewrite bool_decide_eq_true_2.
    + unfold Adm.end_drain. by rewrite Hd.
    + intros k <-. destruct (check_static_deleted k now s Hd) as (r & Hc).
      unfold Adm.enqueue, Adm.try_prestart. by rewrite Hc.
Qed.
End Properties.

(** ** A concrete run

    One node of 512 MiB for two invocations at a time. *)

#[local] Program Instance order0 : HashOrder :=
  {| hash_waiters := map_to_list; hash_records := map_to_list |}.
Next Obligation. done. Qed.
Next Obligation. done. Qed.
Definition exp0 (_ : f64) : f64 := f64_of 0.
Definition caps0 (_ : RevisionId) : Z := 10.

Definition admission_settings0 : AdmissionSettings :=
  mkSettings (mkNode "local" None (Some 4000) (Some 512) None 0 0 0 0) 2 10 1000 60
    (mkQuotaConfig None None None None) [] 10 10 3 30 60.
Definition ticket0 (tenant : TenantId) (memory : Z) : Ticket :=
  mkTicket tenant "fn_1" ("rev_" +:+ tenant) 300 60 (mkRes 500 memory 100) 10 1 1 20 (seconds 60)
    None false.

Section Play.
Context (ok : adm_cmd → AdmissionState → Prop).

Fixpoint play (cs : list (adm_cmd * Timestamp)) (s : AdmissionState) (h : history)
    : AdmissionState * history :=
  match cs with
  | [] => (s, h)
  | (c, now) :: cs => play cs (run exp0 c now s) (note exp0 c now s h)
  end.

Fixpoint plays (cs : list (adm_cmd * Timestamp)) (s : AdmissionState) : Prop :=
  match cs with
  | [] => True
  | (c, now) :: cs => ok c s ∧ plays cs (run exp0 c now s)
  end.

Lemma play_runs st cs n s h :
  runs exp0 ok st n s h → plays cs s →
  runs exp0 ok st (length cs + n) (play cs s h).1 (play cs s h).2.
Proof.
  revert n s h. induction cs as [|[c now] cs IH]; intros n s h Hr; cbn [play plays length]; [done|].
  intros [Hc Hcs]. replace (S (length cs) + n)%nat with (length cs + S n)%nat by lia.
  apply IH; [by constructor|done].
Qed.
End Play.

(** Two tenants: the first starts two environments, one is parked and taken over by a
    third invocation, the second tenant's large one waits. *)
Definition script0 : list (adm_cmd * Timestamp) :=
  [(CEnqueue (ticket0 "tn_1" 128) false, 0); (CReady 2, seconds 1);
   (CEnqueue (ticket0 "tn_1" 128) false, seconds 1); (CEnqueue (ticket0 "tn_2" 500) false, seconds 2);
   (CTakeOutbox, seconds 2); (CPark 2, seconds 3); (CParked 2, seconds 3);
   (CEnqueue (ticket0 "tn_1" 128) false, seconds 4); (CEnqueue (ticket0 "tn_2" 400) false, seconds 4);
   (CAdopt (Some 7) 2, seconds 4); (CWithdraw 8, seconds 5)].
Definition state0 : AdmissionState := (play script0 (Adm.new admission_settings0) (mkHistory [] [] [])).1.
Definition history0 : history := (play script0 (Adm.new admission_settings0) (mkHistory [] [] [])).2.

Lemma ticket0_ok tenant memory : 0 ≤ memory ≤ 1024 → ticket_ok caps0 (ticket0 tenant memory).
Proof. intros ?. unfold ticket_ok, res_bounded, limit, caps0; cbn. lia. Qed.

Lemma runs0 : runs exp0 (contract caps0) admission_settings0 (length script0) state0 history0.
Proof.
  rewrite <-(Nat.add_0_r (length script0)). apply play_runs; [constructor|].
  repeat (split; [split; [try exact I; by apply ticket0_ok|try exact I]|]); [..|exact I].
  - intros r Hr. vm_compute in Hr. by injection Hr as <-.
  - intros r Hr. vm_compute in Hr. by injection Hr as <-.
  - split; intros r Hr; vm_compute in Hr; injection Hr as <-; [done|]. intros _.
    exists 7. eexists. split_and!; [done|done|vm_compute; reflexivity|done..].
Qed.

Lemma runs_weaken exp `{HO : !HashOrder} max_of st n s h :
  runs exp (contract max_of) st n s h → runs exp (cmd_tickets max_of) st n s h.
Proof. induction 1 as [|n s h c now _ IH [Hc _]]; by constructor. Qed.

Lemma admission_books_exact_witness : Ledger state0 ∧ Queue caps0 state0.
Proof.
  apply (admission_books_exact exp0 caps0 admission_settings0 (length script0) state0 history0);
    [apply runs_weaken, runs0|vm_compute; discriminate].
Defined.

Lemma admission_never_overcommits_witness : within caps0 state0.
Proof.
  apply (admission_never_overcommits exp0 caps0 admission_settings0 (length script0) state0 history0);
    [|intros v; by vm_compute|apply runs0|vm_compute; discriminate].
  split_and!; [done|done|]. intros t q. vm_compute. discriminate.
Defined.

Lemma pump_considers_everyone_witness :
  ad_waiters (Adm.pump exp0 (seconds 60) state0) !! 5 = None
  ∧ Adm.pump_loop exp0 (2 + 5) (seconds 60) state0 = Adm.pump exp0 (seconds 60) state0.
Proof.
  destruct (pump_considers_everyone exp0 caps0 admission_settings0 (length script0) state0 history0
              (seconds 60)) as [H1 H2]; [apply runs_weaken, runs0|vm_compute; discriminate|].
  split; [vm_compute; reflexivity|]. apply (H1 5%nat).
Defined.

Lemma waiter_answered_once_witness :
  NoDup (app (h_given history0).*1 (ad_outbox state0).*1)
  ∧ (5 ∈ h_accepted history0 ∧ is_Some (ad_waiters state0 !! 5))
  ∧ (6 ∈ h_accepted history0 ∧ 6 ∈ app (h_given history0).*1 (ad_outbox state0).*1)
  ∧ (8 ∈ h_accepted history0 ∧ 8 ∈ h_withdrawn history0).
Proof.
  destruct (waiter_answered_once exp0 caps0 admission_settings0 (length script0) state0 history0)
    as (H1 & H2 & _); [apply runs_weaken, runs0|vm_compute; discriminate|].
  split; [exact H1|]. split_and!.
  - apply H2. left. eexists. vm_compute. reflexivity.
  - eexists. vm_compute. reflexivity.
  - apply H2. right. left. by apply (bool_decide_eq_true_1 _).
  - by apply (bool_decide_eq_true_1 _).
  - apply H2. right. right. by apply (bool_decide_eq_true_1 _).
  - by apply (bool_decide_eq_true_1 _).
Defined.

Definition state1 : AdmissionState :=
  run exp0 (CBeginDrain "rev_tn_2" DrainReason.FunctionDeleted) (seconds 6) state0.

Lemma deleted_function_gets_no_work_witness :
  is_err (Adm.enqueue exp0 (ticket0 "tn_2" 10) false (seconds 7) state1).1 = true
  ∧ ad_waiters state1 !! 5 = None.
Proof.
  destruct (deleted_function_gets_no_work exp0 caps0 admission_settings0 (S (length script0)) state1
              (note exp0 (CBeginDrain "rev_tn_2" DrainReason.FunctionDeleted) (seconds 6) state0 history0)
              "rev_tn_2" (seconds 7)) as [_ H].
  - apply runs_step; [apply runs_weaken, runs0|exact I].
  - vm_compute. discriminate.
  - assert (ad_drains state1 !! "rev_tn_2" = Some DrainReason.FunctionDeleted) as Hd
      by (vm_compute; reflexivity).
    split; [|vm_compute; reflexivity]. destruct (H Hd) as (_ & _ & Hk).
    exact (proj1 (Hk (ticket0 "tn_2" 10) eq_refl) false).
Defined.
