(* ===== verification/Retry.v ===== *)
(** * The retry policy of asynchronous invocations

    [crates/application/src/services/invoke_async/retry.rs]: attempts, maximum age,
    exponential backoff with full jitter, the classification of run outcomes and the
    per-function retry budget; and the publisher's settings
    ([services/invoke_async/config.rs]). *)

From Stdlib Require Import Ascii.
From S2P Require Import Prelude Ids Invocation.

Open Scope string_scope.
Open Scope Z_scope.

(** ** Definitions *)

Module DeadLetterReason.
(** [crates/application/src/repository/dispatch.rs:160-176 DeadLetterReason] *)
Inductive t : Type :=
| NonRetryable | AttemptsExhausted | Expired | FunctionDeleted | RevisionUnavailable | Poison.
#[global] Instance eq_dec : EqDecision t.
Proof. solve_decision. Defined.

(** [crates/application/src/repository/dispatch.rs:179-188 as_str] *)
Definition as_str (r : t) : string :=
  match r with
  | NonRetryable => "non_retryable"
  | AttemptsExhausted => "attempts_exhausted"
  | Expired => "expired"
  | FunctionDeleted => "function_deleted"
  | RevisionUnavailable => "revision_unavailable"
  | Poison => "poison"
  end.
End DeadLetterReason.

Module ControlError.
(** [crates/application/src/control/mod.rs:36-66 ControlError] *)
Inductive t : Type :=
| ConfigNotDelivered | ConfigExpired | AuthLeaseExpired | UnknownTenant | PolicyDenied
| ColdStartRestricted | ProviderControlUnavailable | ControlPlaneUnavailable | StoreUnavailable.

(** [crates/application/src/control/mod.rs:69-79 ALL] *)
Definition ALL : list t :=
  [ConfigNotDelivered; ConfigExpired; AuthLeaseExpired; UnknownTenant; PolicyDenied;
   ColdStartRestricted; ProviderControlUnavailable; ControlPlaneUnavailable; StoreUnavailable].

(** [crates/application/src/control/mod.rs:81-93 error_type] *)
Definition error_type (e : t) : string :=
  match e with
  | ConfigNotDelivered => "Host.ConfigNotDelivered"
  | ConfigExpired => "Host.ConfigExpired"
  | AuthLeaseExpired => "Host.AuthLeaseExpired"
  | UnknownTenant => "Host.UnknownTenant"
  | PolicyDenied => "Host.PolicyDenied"
  | ColdStartRestricted => "Host.ColdStartRestricted"
  | ProviderControlUnavailable => "Host.ProviderControlUnavailable"
  | ControlPlaneUnavailable => "Host.ControlPlaneUnavailable"
  | StoreUnavailable => "Host.StoreUnavailable"
  end.

(** [crates/application/src/control/mod.rs:95-97 from_error_type] *)
Definition from_error_type (s : string) : option t := List.find (λ k, error_type k == s) ALL.
End ControlError.

(** *** Settings *)

(** [crates/application/src/services/invoke_async/retry.rs:39-48 FunctionRetryPolicy] *)
Record FunctionRetryPolicy := mkFnPolicy {
  fp_function_id : FunctionId;
  fp_max_attempts : option Z;
  fp_max_event_age_seconds : option Z
}.

(** [crates/application/src/services/invoke_async/retry.rs:50-94 AsyncDispatchConfig] *)
Record AsyncDispatchConfig := mkDispatchConfig {
  cf_enabled : bool;
  cf_consumer : string;
  cf_workers : Z;
  cf_ack_wait_seconds : Z;
  cf_max_deliver : Z;
  cf_fetch_wait_ms : Z;
  cf_claim_ttl_seconds : Z;
  cf_admission_wait_ms : Z;
  cf_max_attempts : Z;
  cf_max_event_age_seconds : Z;
  cf_backoff_initial_ms : Z;
  cf_backoff_max_ms : Z;
  cf_backoff_floor_ms : Z;
  cf_retry_budget : Z;
  cf_retry_budget_window_seconds : Z;
  cf_reaper_interval_seconds : Z;
  cf_stall_timeout_seconds : Z;
  cf_functions : list FunctionRetryPolicy
}.
#[global] Instance AsyncDispatchConfig_eta : Eta AsyncDispatchConfig := λ r,
  mkDispatchConfig (cf_enabled r) (cf_consumer r) (cf_workers r) (cf_ack_wait_seconds r)
    (cf_max_deliver r) (cf_fetch_wait_ms r) (cf_claim_ttl_seconds r) (cf_admission_wait_ms r)
    (cf_max_attempts r) (cf_max_event_age_seconds r) (cf_backoff_initial_ms r)
    (cf_backoff_max_ms r) (cf_backoff_floor_ms r) (cf_retry_budget r)
    (cf_retry_budget_window_seconds r) (cf_reaper_interval_seconds r)
    (cf_stall_timeout_seconds r) (cf_functions r).

(** [crates/application/src/services/invoke_async/retry.rs:97-118 default] *)
Definition default_dispatch_config : AsyncDispatchConfig :=
  mkDispatchConfig true "dispatcher" 0 300 1000 1000 60 2000 3 (6 * 60 * 60) 1000 (5 * 60 * 1000)
    100 100 60 10 (15 * 60) [].

(** [crates/application/src/services/invoke_async/retry.rs:121-123 secs] *)
Definition secs (n : Z) : Duration := seconds (Z.min n (i64_max / 1000)).

(** [crates/application/src/services/invoke_async/retry.rs:125-130 RetryPolicy] *)
Record RetryPolicy := mkRetryPolicy {
  rp_max_attempts : Z;
  rp_max_event_age : Duration
}.

(** [crates/application/src/services/invoke_async/retry.rs:133-136 expires_at] *)
Definition expires_at (policy : RetryPolicy) (i : Invocation) : Timestamp :=
  Z.min (inv_accepted_at i + rp_max_event_age policy) (queue_deadline (inv_deadlines i)).

Module Config.
(** [crates/application/src/services/invoke_async/retry.rs:140-151 policy_for] *)
Definition policy_for (function : FunctionId) (c : AsyncDispatchConfig) : RetryPolicy :=
  let over := List.find (λ f, fp_function_id f == function) (cf_functions c) in
  mkRetryPolicy
    (unwrap_or (f ← over; fp_max_attempts f) (cf_max_attempts c))
    (secs (unwrap_or (f ← over; fp_max_event_age_seconds f) (cf_max_event_age_seconds c))).

(** [crates/application/src/services/invoke_async/retry.rs:153-161 min_event_age] *)
Definition min_event_age (c : AsyncDispatchConfig) : Duration :=
  secs (fold_left Z.min (omap fp_max_event_age_seconds (cf_functions c))
          (cf_max_event_age_seconds c)).

(** [crates/application/src/services/invoke_async/retry.rs:163-168 workers_for] *)
Definition workers_for (max_concurrency : Z) (c : AsyncDispatchConfig) : Z :=
  if cf_workers c =? 0 then Z.max (max_concurrency / 2) 1 else cf_workers c.

(** [crates/application/src/services/invoke_async/retry.rs:170-172 ack_wait] *)
Definition ack_wait (c : AsyncDispatchConfig) : Duration := seconds (Z.max (cf_ack_wait_seconds c) 1).

(** [crates/application/src/services/invoke_async/retry.rs:178-180 claim_ttl] *)
Definition claim_ttl (c : AsyncDispatchConfig) : Duration := secs (cf_claim_ttl_seconds c).

(** [crates/application/src/services/invoke_async/retry.rs:190-192 stall_timeout] *)
Definition stall_timeout (c : AsyncDispatchConfig) : Duration := secs (cf_stall_timeout_seconds c).

(** [crates/application/src/services/invoke_async/retry.rs:194-201 backoff_ceiling_ms] *)
Definition backoff_ceiling_ms (n : Z) (c : AsyncDispatchConfig) : Z :=
  let shift := Z.min (Z.max (n - 1) 0) 30 in
  Z.min (u64_saturating_mul (cf_backoff_initial_ms c) (Z.shiftl 1 shift)) (cf_backoff_max_ms c).

(** [crates/application/src/services/invoke_async/retry.rs:203-208 backoff] *)
Definition backoff (n : Z) (jitter : Z → Z) (c : AsyncDispatchConfig) : Duration :=
  let ceiling := backoff_ceiling_ms n c in
  let ms := Z.max (Z.min (jitter ceiling) ceiling) (cf_backoff_floor_ms c) in
  milliseconds (Z.min ms i64_max).

(** The bytes a consumer name is made of. *)
Definition is_consumer_byte (b : ascii) : bool :=
  is_ascii_lowercase b || is_ascii_digit b || bool_decide (b = "-"%char).

(** [crates/application/src/services/invoke_async/retry.rs:210-249 validate] *)
Definition validate (c : AsyncDispatchConfig) : result string unit :=
  when! cf_max_attempts c =? 0 return! Err "[async_dispatch] max_attempts must be >= 1";;
  when! (cf_max_event_age_seconds c =? 0) || (cf_claim_ttl_seconds c =? 0) return!
    Err "[async_dispatch] max_event_age_seconds and claim_ttl_seconds must be > 0";;
  when! (cf_backoff_initial_ms c =? 0) || (cf_backoff_max_ms c <? cf_backoff_initial_ms c) return!
    Err "[async_dispatch] needs 0 < backoff_initial_ms <= backoff_max_ms";;
  when! cf_backoff_initial_ms c <? cf_backoff_floor_ms c return!
    Err "[async_dispatch] backoff_floor_ms must be <= backoff_initial_ms";;
  when! (0 <? cf_retry_budget c) && (cf_retry_budget_window_seconds c =? 0) return!
    Err "[async_dispatch] retry_budget_window_seconds must be > 0";;
  when! (cf_max_deliver c =? 0) || (cf_ack_wait_seconds c =? 0) return!
    Err "[async_dispatch] max_deliver and ack_wait_seconds must be > 0";;
  when! negb (bytes_all is_consumer_byte (cf_consumer c)) || (cf_consumer c == "") return!
    Err "[async_dispatch] consumer must be [a-z0-9-]+";;
  match List.find (λ f, (fp_max_attempts f == Some 0) || (fp_max_event_age_seconds f == Some 0))
          (cf_functions c) with
  | Some f => Err ("[[async_dispatch.function]] " +:+ fp_function_id f +:+
                   ": max_attempts and max_event_age_seconds must be > 0")
  | None => Ok tt
  end.
End Config.

(** [crates/application/src/services/invoke_async/retry.rs:252-259 system_jitter] *)
Definition system_jitter (random : option Z) (ceiling : Z) : Z :=
  if ceiling =? 0 then 0 else unwrap_or random (ceiling / 2) mod (ceiling + 1).

(** *** The classification of outcomes *)

Module Disposition.
(** [crates/application/src/services/invoke_async/retry.rs:261-273 Disposition] *)
Inductive t : Type := Retry | Defer | DeadLetter (reason : DeadLetterReason.t) | Cancelled.
#[global] Instance eq_dec : EqDecision t.
Proof. solve_decision. Defined.
End Disposition.

Definition FUNCTION_DELETED : string := "Host.FunctionDeleted".
Definition QUEUE_TIMEOUT : string := "Host.QueueTimeout".
Definition CAPACITY_WAIT_TIMEOUT : string := "Host.CapacityWaitTimeout".
Definition QUOTA_WAIT_TIMEOUT : string := "Host.QuotaWaitTimeout".
Definition START_CIRCUIT_OPEN : string := "Host.StartCircuitOpen".
Definition ASYNC_GATEWAY_SHUTDOWN : string := "Host.GatewayShutdown".
Definition INVALID_INPUT : string := "Host.InvalidInput".
Definition INPUT_CORRUPT : string := "Host.InputCorrupt".
Definition INPUT_UNAVAILABLE : string := "Host.InputUnavailable".
Definition RETRY_BUDGET_EXHAUSTED : string := "Host.RetryBudgetExhausted".
Definition EVENT_EXPIRED : string := "Host.AsyncEventExpired".
Definition RUN_ABANDONED : string := "Host.AsyncRunAbandoned".
Definition REVISION_UNAVAILABLE : string := "Host.RevisionUnavailable".
Definition USAGE_JOURNAL_FULL : string := "Host.UsageJournalFull".
Definition USAGE_JOURNAL_UNAVAILABLE : string := "Host.UsageJournalUnavailable".
Definition BUDGET_EXHAUSTED : string := "Host.BudgetExhausted".
Definition BUDGET_UNKNOWN : string := "Host.BudgetUnknown".
Definition BUDGET_STORE_UNAVAILABLE : string := "Host.BudgetStoreUnavailable".

(** The error types that fail the same way on every run. *)
Definition permanent_types : list string :=
  ["Host.SecretBindingUnavailable"; "Host.ResponseTooLarge"; "Runtime.ResponseTooLarge";
   "Host.UnsupportedArtifact"; "Host.InvokeTooLarge"; "Host.InvokeEncode"; INVALID_INPUT;
   INPUT_CORRUPT].

(** The error types of a run that never started. *)
Definition deferred_types : list string :=
  [QUEUE_TIMEOUT; CAPACITY_WAIT_TIMEOUT; QUOTA_WAIT_TIMEOUT; START_CIRCUIT_OPEN;
   ASYNC_GATEWAY_SHUTDOWN; "Host.DispatcherFenced"; "Host.AlreadyRunning"; "Host.CapacityClosed";
   RETRY_BUDGET_EXHAUSTED; INPUT_UNAVAILABLE; USAGE_JOURNAL_FULL; USAGE_JOURNAL_UNAVAILABLE;
   BUDGET_EXHAUSTED; BUDGET_UNKNOWN; BUDGET_STORE_UNAVAILABLE].

(** [crates/application/src/services/invoke_async/retry.rs:275-325 classify] *)
Definition classify (error : InvocationError) : Disposition.t :=
  let t := err_type error in
  when! err_class error == ErrorClass.Cancelled return! Disposition.Cancelled;;
  when! t == FUNCTION_DELETED return! Disposition.DeadLetter DeadLetterReason.FunctionDeleted;;
  when! bool_decide (t ∈ permanent_types) return! Disposition.DeadLetter DeadLetterReason.NonRetryable;;
  when! bool_decide (t ∈ deferred_types) return! Disposition.Defer;;
  match ControlError.from_error_type t with
  | Some (ControlError.PolicyDenied | ControlError.UnknownTenant) => Disposition.DeadLetter DeadLetterReason.NonRetryable
  | Some _ => Disposition.Defer
  | None => if err_class error == ErrorClass.QueueTimeout then Disposition.Defer else Disposition.Retry
  end.

(** *** The retry budget *)

(** [crates/application/src/services/invoke_async/retry.rs:342-346 RetryBudget] *)
Record RetryBudget := mkRetryBudget { rb_windows : gmap FunctionId (Timestamp * Z) }.
Definition no_retries : RetryBudget := mkRetryBudget ∅.

(** [crates/application/src/services/invoke_async/retry.rs:349-371 take] *)
Definition take_retry (c : AsyncDispatchConfig) (function : FunctionId) (now : Timestamp)
    (b : RetryBudget) : result Timestamp unit * RetryBudget :=
  when! cf_retry_budget c =? 0 return! (Ok tt, b);;
  let window := secs (cf_retry_budget_window_seconds c) in
  let entry := unwrap_or (rb_windows b !! function) (now, 0) in
  let entry := if window <=? now - entry.1 then (now, 0) else entry in
  when! cf_retry_budget c <=? entry.2 return!
    (Err (entry.1 + window), mkRetryBudget (<[function := entry]> (rb_windows b)));;
  (Ok tt, mkRetryBudget (<[function := (entry.1, entry.2 + 1)]> (rb_windows b))).

(** *** The publisher's settings *)

(** [crates/application/src/services/invoke_async/config.rs:8-36 InvokeAsyncConfig] *)
Record InvokeAsyncConfig := mkAsyncConfig {
  ac_inline_input_max_bytes : Z;
  ac_max_pending_events : Z;
  ac_max_pending_age_seconds : Z;
  ac_queue_deadline_seconds : Z;
  ac_publish_batch : Z;
  ac_publish_interval_ms : Z;
  ac_claim_ttl_seconds : Z;
  ac_retry_initial_ms : Z;
  ac_retry_max_ms : Z;
  ac_sent_retention_seconds : Z
}.

(** [crates/application/src/services/invoke_async/config.rs:39-52 default] *)
Definition default_async_config : InvokeAsyncConfig :=
  mkAsyncConfig (64 * 1024) 10000 300 (24 * 60 * 60) 100 200 30 500 30000 (60 * 60).

Module Publishing.
(** [crates/application/src/services/invoke_async/config.rs:60-62 max_pending_age] *)
Definition max_pending_age (c : InvokeAsyncConfig) : Duration := secs (ac_max_pending_age_seconds c).

(** [crates/application/src/services/invoke_async/config.rs:64-66 queue_deadline] *)
Definition queue_wait (c : InvokeAsyncConfig) : Duration := secs (ac_queue_deadline_seconds c).

(** [crates/application/src/services/invoke_async/config.rs:68-70 claim_ttl] *)
Definition claim_ttl (c : InvokeAsyncConfig) : Duration := secs (ac_claim_ttl_seconds c).

(** [crates/application/src/services/invoke_async/config.rs:72-74 sent_retention] *)
Definition sent_retention (c : InvokeAsyncConfig) : Duration := secs (ac_sent_retention_seconds c).

(** [crates/application/src/services/invoke_async/config.rs:80-88 backoff] *)
Definition backoff (attempts : Z) (c : InvokeAsyncConfig) : Duration :=
  let shift := Z.min (Z.max (attempts - 1) 0) 20 in
  let ms := Z.min (u64_saturating_mul (ac_retry_initial_ms c) (Z.shiftl 1 shift))
              (ac_retry_max_ms c) in
  milliseconds (Z.min ms i64_max).

(** [crates/application/src/services/invoke_async/config.rs:90-110 validate] *)
Definition validate (c : InvokeAsyncConfig) : result string unit :=
  when! (ac_max_pending_events c =? 0) || (ac_max_pending_age_seconds c =? 0) return!
    Err ("[invoke_async] max_pending_events and max_pending_age_seconds must be > 0: the " +:+
         "outbox is bounded");;
  when! ac_queue_deadline_seconds c =? 0 return!
    Err "[invoke_async] queue_deadline_seconds must be > 0";;
  when! (ac_publish_batch c =? 0) || (ac_claim_ttl_seconds c =? 0) return!
    Err "[invoke_async] publish_batch and claim_ttl_seconds must be > 0";;
  when! (ac_retry_initial_ms c =? 0) || (ac_retry_max_ms c <? ac_retry_initial_ms c) return!
    Err "[invoke_async] needs 0 < retry_initial_ms <= retry_max_ms";;
  Ok tt.
End Publishing.

(** ** Backoff *)

(** What the types of the settings guarantee: [u32] and [u64] values. *)
Record config_in_range (c : AsyncDispatchConfig) : Prop := {
  cr_initial : u64_range (cf_backoff_initial_ms c);
  cr_max : u64_range (cf_backoff_max_ms c);
  cr_floor : u64_range (cf_backoff_floor_ms c);
  cr_budget : 0 ≤ cf_retry_budget c ≤ u32_max;
  cr_window : u64_range (cf_retry_budget_window_seconds c);
  cr_ttl : u64_range (cf_claim_ttl_seconds c);
  cr_stall : u64_range (cf_stall_timeout_seconds c);
  cr_attempts : 0 ≤ cf_max_attempts c ≤ u32_max
}.

(** The settings [validate] accepts. *)
Lemma validate_Ok c :
  Config.validate c = Ok tt →
  cf_max_attempts c ≠ 0 ∧ cf_claim_ttl_seconds c ≠ 0 ∧ cf_backoff_initial_ms c ≠ 0 ∧
  cf_backoff_initial_ms c ≤ cf_backoff_max_ms c ∧ cf_backoff_floor_ms c ≤ cf_backoff_initial_ms c ∧
  (0 < cf_retry_budget c → cf_retry_budget_window_seconds c ≠ 0).
Proof.
  unfold Config.validate. repeat case_match; try done. intros _.
  repeat match goal with H : _ || _ = false |- _ => apply orb_false_iff in H as [? ?] end.
  repeat match goal with H : _ && _ = false |- _ => apply andb_false_iff in H end.
  repeat split; try lia.
Qed.

Lemma shiftl_pow n : 0 ≤ n → Z.shiftl 1 n = 2 ^ n.
Proof. intros ?. rewrite Z.shiftl_1_l. done. Qed.

Lemma saturating_mul_min a b m :
  0 ≤ a → 0 ≤ b → m ≤ u64_max → Z.min (u64_saturating_mul a b) m = Z.min (a * b) m.
Proof. unfold u64_saturating_mul. lia. Qed.

Lemma ceiling_bounds n c :
  config_in_range c →
  0 ≤ Config.backoff_ceiling_ms n c ≤ cf_backoff_max_ms c.
Proof.
  intros [[Hi _] [Hm Hm'] _ _ _ _ _ _]. unfold Config.backoff_ceiling_ms.
  rewrite shiftl_pow by lia.
  pose proof (Z.pow_pos_nonneg 2 (Z.min (Z.max (n - 1) 0) 30)).
  rewrite saturating_mul_min by lia. nia.
Qed.

(** the delay before try [n + 1] is the capped exponential the documentation
    gives, computed without overflow: the upper bound is
    [min(backoff_max_ms, backoff_initial_ms * 2^(n-1))] for every [n] (the shift is
    capped at 30, which no longer matters when the maximum is at most [2^30] times
    the initial delay), and the delay drawn is between the floor and that bound. *)
Theorem backoff_is_capped_exponential c n jitter :
  Config.validate c = Ok tt → config_in_range c →
  cf_backoff_max_ms c ≤ cf_backoff_initial_ms c * 2 ^ 30 → cf_backoff_max_ms c ≤ i64_max →
  1 ≤ n → (∀ x, 0 ≤ jitter x) →
  Config.backoff_ceiling_ms n c = Z.min (cf_backoff_initial_ms c * 2 ^ (n - 1)) (cf_backoff_max_ms c)
  ∧ milliseconds (cf_backoff_floor_ms c) ≤ Config.backoff n jitter c
    ≤ milliseconds (Config.backoff_ceiling_ms n c)
  ∧ Config.backoff n (λ x, x) c = milliseconds (Config.backoff_ceiling_ms n c).
Proof.
  intros Hv Hr Hcap Hi64 Hn Hj.
  apply validate_Ok in Hv as (_ & _ & H0 & Hle & Hfl & _).
  pose proof (ceiling_bounds n c Hr) as Hb.
  assert (Heq : Config.backoff_ceiling_ms n c
                = Z.min (cf_backoff_initial_ms c * 2 ^ (n - 1)) (cf_backoff_max_ms c)).
  { destruct Hr as [[Hi _] [Hm Hm'] _ _ _ _ _ _]. unfold Config.backoff_ceiling_ms.
    rewrite shiftl_pow by lia.
    destruct (Z.le_gt_cases (n - 1) 30).
    - rewrite (Z.max_l (n - 1) 0), (Z.min_l (n - 1) 30) by lia.
      apply saturating_mul_min; [lia | apply Z.pow_nonneg; lia | lia].
    - rewrite (Z.max_l (n - 1) 0), (Z.min_r (n - 1) 30) by lia.
      rewrite saturating_mul_min by lia.
      assert (2 ^ 30 ≤ 2 ^ (n - 1)) by (apply Z.pow_le_mono_r; lia). nia. }
  assert (Hfloor : cf_backoff_floor_ms c ≤ Config.backoff_ceiling_ms n c).
  { rewrite Heq. destruct Hr as [[Hi _] _ _ _ _ _ _ _].
    pose proof (Z.pow_pos_nonneg 2 (n - 1)). nia. }
  split; [done|]. unfold Config.backoff, milliseconds. specialize (Hj (Config.backoff_ceiling_ms n c)).
  split; [|lia]. split; lia.
Qed.

Lemma backoff_is_capped_exponential_witness :
  Config.backoff_ceiling_ms 40 default_dispatch_config = 300000 ∧
  milliseconds 100 ≤ Config.backoff 2 (λ _, 7) default_dispatch_config ≤ milliseconds 2000.
Proof.
  assert (Hr : config_in_range default_dispatch_config) by (split; by vm_compute).
  destruct (backoff_is_capped_exponential default_dispatch_config 40 (λ _, 7))
    as (Ha & _); [done | done | by vm_compute | by vm_compute | lia | lia |].
  destruct (backoff_is_capped_exponential default_dispatch_config 2 (λ _, 7))
    as (_ & Hb & _); [done | done | by vm_compute | by vm_compute | lia | lia |].
  split; [by rewrite Ha | exact Hb].
Defined.

(** ** The retry budget *)

Section budget.
Context (c : AsyncDispatchConfig) (function : FunctionId).

(** How many retries of [function] a sequence of requests is granted. *)
Fixpoint granted (calls : list (FunctionId * Timestamp)) (b : RetryBudget) : Z :=
  match calls with
  | [] => 0
  | (f, now) :: calls =>
      let r := take_retry c f now b in
      (if (f == function) && is_ok r.1 then 1 else 0) + granted calls r.2
  end.

Abbreviation window := (secs (cf_retry_budget_window_seconds c)).
Abbreviation limit := (cf_retry_budget c).

(** The retries a window that started at [s] with [k] retries taken leaves for the
    requests up to [last]. *)
Definition left_until (last s k : Z) : Z := limit - k + limit * ((last - s) / window).

Hypothesis Hwindow : 0 < window.
Hypothesis Hlimit : 0 < limit.

Lemma left_until_reset last s k now :
  k ≤ limit → s + window ≤ now → left_until last now 0 ≤ left_until last s k.
Proof.
  unfold left_until. intros Hk Hs.
  assert ((last - now) / window + 1 ≤ (last - s) / window) as Hd; [|nia].
  rewrite <- Z.div_add by lia. apply Z.div_le_mono; lia.
Qed.

Lemma left_until_nonneg last s k : k ≤ limit → s ≤ last → 0 ≤ left_until last s k.
Proof. unfold left_until. intros ??. pose proof (Z.div_pos (last - s) window). nia. Qed.

(** The potential of a budget state: what it leaves for [function]. *)
Lemma granted_left calls last : ∀ b s k,
  rb_windows b !! function = Some (s, k) → k ≤ limit → s ≤ last →
  Forall (λ call, call.2 ≤ last) calls →
  granted calls b ≤ left_until last s k.
Proof.
  induction calls as [|[f now] calls IH]; intros b s k Hb Hk Hs Hall; cbn [granted].
  { by apply left_until_nonneg. }
  apply Forall_cons in Hall as [Hnow Hall]. cbn in Hnow.
  unfold take_retry. rewrite (proj2 (Z.eqb_neq _ _)) by lia.
  destruct (decide (f = function)) as [->|Hne].
  - rewrite Hb. change (unwrap_or (Some (s, k)) (now, 0)) with (s, k). cbn [fst snd].
    rewrite bool_decide_true by done.
    destruct (window <=? now - s) eqn:Hw; cbn [fst snd].
    + rewrite (proj2 (Z.leb_gt _ _)) by lia. cbn [is_ok fst snd andb].
      etrans; [|apply (left_until_reset last s k now); lia].
      specialize (IH (mkRetryBudget (<[function:=(now, 0 + 1)]> (rb_windows b))) now (0 + 1) (lookup_insert_eq _ _ _)
                     ltac:(lia) Hnow Hall).
      unfold left_until in *. lia.
    + destruct (limit <=? k) eqn:Hf; cbn [is_ok fst snd andb].
      * specialize (IH (mkRetryBudget (<[function:=(s, k)]> (rb_windows b))) s k (lookup_insert_eq _ _ _) Hk Hs Hall). lia.
      * specialize (IH (mkRetryBudget (<[function:=(s, k + 1)]> (rb_windows b))) s (k + 1) (lookup_insert_eq _ _ _)
                       ltac:(lia) Hs Hall).
        unfold left_until in *. lia.
  - rewrite (bool_decide_false (f = function)) by done. cbn [andb].
    rewrite Z.add_0_l. repeat case_match; cbn [snd];
      apply IH; cbn [rb_windows]; rewrite ?lookup_insert_ne by done; done.
Qed.

(** Nothing is left of an earlier window at [first]. *)
Definition starts_fresh (b : RetryBudget) (first : Z) : Prop :=
  ∀ s k, rb_windows b !! function = Some (s, k) → s + window ≤ first.

Lemma granted_fresh calls first last : ∀ b,
  starts_fresh b first → first ≤ last → Forall (λ call, first ≤ call.2 ≤ last) calls →
  granted calls b ≤ limit * ((last - first) / window + 1).
Proof.
  assert (Hd : first ≤ last → 0 ≤ (last - first) / window)
    by (intros; apply Z.div_pos; lia).
  induction calls as [|[f now] calls IH]; intros b Hb Hle Hall; cbn [granted]; [nia|].
  apply Forall_cons in Hall as [[Hnow Hnow'] Hall]. cbn in Hnow, Hnow'.
  unfold take_retry. rewrite (proj2 (Z.eqb_neq _ _)) by lia.
  destruct (decide (f = function)) as [->|Hne].
  - set (e := if window <=? _ then _ else _).
    assert (He : e = (now, 0)).
    { subst e. case_match eqn:Hw; [done|]. destruct (rb_windows b !! function) as [[s k]|] eqn:Hs; cbn in *.
      - specialize (Hb s k Hs). lia.
      - done. }
    rewrite He, bool_decide_true by done. cbn [fst snd].
    rewrite (proj2 (Z.leb_gt _ _)) by lia. cbn [is_ok fst snd andb].
    pose proof (granted_left calls last (mkRetryBudget (<[function:=(now, 0 + 1)]> (rb_windows b))) now (0 + 1)
                  (lookup_insert_eq _ _ _) ltac:(lia) Hnow') as Hg.
    assert (Forall (λ call : FunctionId * Z, call.2 ≤ last) calls) as Hall'
      by (eapply Forall_impl; [exact Hall | cbn; lia]).
    specialize (Hg Hall'). unfold left_until in Hg.
    assert ((last - now) / window ≤ (last - first) / window) by (apply Z.div_le_mono; lia).
    nia.
  - rewrite (bool_decide_false (f = function)) by done. cbn [andb]. rewrite Z.add_0_l.
    repeat case_match; cbn [snd]; apply IH; try done; intros s k Hs;
      (cbn [rb_windows] in Hs; rewrite lookup_insert_ne in Hs by done); by apply (Hb s k).
Qed.
End budget.

(** the retry budget turns a retry storm into a bounded rate. Whatever requests
    arrive between two instants, in whatever order the workers read their clocks and
    whatever window is open when they begin, one function is granted at most
    [retry_budget] retries for every window the span covers, and two windows more. *)
Theorem retry_budget_bounds_rate c function calls b first last :
  0 < cf_retry_budget c → 0 < secs (cf_retry_budget_window_seconds c) →
  (∀ s k, rb_windows b !! function = Some (s, k) → 0 ≤ k ≤ cf_retry_budget c) →
  first ≤ last → Forall (λ call, first ≤ call.2 ≤ last) calls →
  granted c function calls b
  ≤ cf_retry_budget c * ((last - first) / secs (cf_retry_budget_window_seconds c) + 2).
Proof.
  remember (secs (cf_retry_budget_window_seconds c)) as W eqn:EW.
  intros Hlim HW Hk Hle Hall.
  assert (0 ≤ (last - first) / W) by (apply Z.div_pos; lia).
  destruct (rb_windows b !! function) as [[s k]|] eqn:Hs.
  - specialize (Hk s k eq_refl) as [Hk0 Hk]. destruct (Z.le_gt_cases (s + W) first).
    + etrans; [apply (granted_fresh c function ltac:(by rewrite <- EW) Hlim calls first last)|];
        try done; [|rewrite <- EW; nia].
      intros s' k' Hs'. rewrite Hs in Hs'. by simplify_eq.
    + destruct (Z.le_gt_cases s last) as [Hsl|Hsl].
      * etrans; [apply (granted_left c function ltac:(by rewrite <- EW) Hlim calls last _ s k); try done|].
        { eapply Forall_impl; [exact Hall | cbn; lia]. }
        unfold left_until. rewrite <- EW.
        assert ((last - s) / W ≤ (last - first) / W + 1) as Hd; [|nia].
        rewrite <- Z.div_add by lia. apply Z.div_le_mono; lia.
      * etrans; [apply (granted_left c function ltac:(by rewrite <- EW) Hlim calls s _ s k); try done|].
        { eapply Forall_impl; [exact Hall | cbn; lia]. }
        unfold left_until. rewrite <- EW. rewrite Z.sub_diag, Z.div_0_l by lia. nia.
  - etrans; [apply (granted_fresh c function ltac:(by rewrite <- EW) Hlim calls first last)|]; try done; [|rewrite <- EW; nia].
    intros s' k' Hs'. by rewrite Hs in Hs'.
Qed.

Definition three_calls : list (FunctionId * Timestamp) :=
  [("fn_a", seconds 0); ("fn_a", seconds 1); ("fn_b", seconds 1); ("fn_a", seconds 2)].

Lemma retry_budget_bounds_rate_witness :
  let c := default_dispatch_config <| cf_retry_budget := 2 |> in
  granted c "fn_a" three_calls no_retries = 2 ∧ granted c "fn_a" three_calls no_retries ≤ 2 * (0 + 2).
Proof.
  intros c. split; [by vm_compute|].
  apply (retry_budget_bounds_rate c "fn_a" three_calls no_retries 0 (seconds 2)); [by vm_compute..| |].
  - by vm_compute.
  - repeat constructor; by vm_compute.
Defined.
