(* ===== verification/Outbox.v ===== *)
(** * The durable ledger: asynchronous acceptance and the outbox

    [crates/application/src/repository/outbox.rs] and its SQL implementation
    ([repository/sqlite/outbox.rs]): the tables an asynchronous invocation lives in,
    the acceptance transaction, and the claim, mark and retry of outbox rows by
    publishers. A table is a finite map by its primary key, a transaction a function
    of the whole ledger whose error leaves it as it was. The tables the two stores
    share (functions, invocations, idempotency keys, object references) are those of
    [Store]. *)

From S2P Require Import Prelude Ids Functions Invocation Guard Store Retry.

Open Scope string_scope.
Open Scope Z_scope.

(** ** Rows *)

(** [crates/application/src/repository/outbox.rs:31-36 AsyncInputBody] *)
Inductive AsyncInputBody : Type :=
| InlineBody (bytes : string)
| ObjectBody (reference : ObjectRef).

(** [crates/application/src/repository/outbox.rs:47-55 AsyncInput] *)
Record AsyncInput := mkInput {
  in_invocation_id : InvocationId;
  in_tenant_id : TenantId;
  in_size_bytes : Z;
  in_digest : Sha256Digest;
  in_body : AsyncInputBody
}.
#[global] Instance AsyncInput_eta : Eta AsyncInput := λ r,
  mkInput (in_invocation_id r) (in_tenant_id r) (in_size_bytes r) (in_digest r) (in_body r).

(** [crates/application/src/repository/outbox.rs:58-63 storage] *)
Definition storage (i : AsyncInput) : string :=
  match in_body i with InlineBody _ => "inline" | ObjectBody _ => "object" end.

(** [crates/application/src/repository/outbox.rs:66-86 OutboxEvent] The [sent] column
    is set exactly when [sent_at] is. *)
Record OutboxEvent := mkEvent {
  ob_event_id : InvocationId;
  ob_tenant_id : TenantId;
  ob_topic : string;
  ob_payload : string;
  ob_created_at : Timestamp;
  ob_sent_at : option Timestamp;
  ob_publish_attempts : Z;
  ob_next_attempt_at : Timestamp;
  ob_claimed_by : option string;
  ob_claim_expires_at : option Timestamp;
  ob_last_error : option string;
  ob_queue_sequence : option Z;
  ob_generation : Z
}.
#[global] Instance OutboxEvent_eta : Eta OutboxEvent := λ r,
  mkEvent (ob_event_id r) (ob_tenant_id r) (ob_topic r) (ob_payload r) (ob_created_at r)
    (ob_sent_at r) (ob_publish_attempts r) (ob_next_attempt_at r) (ob_claimed_by r)
    (ob_claim_expires_at r) (ob_last_error r) (ob_queue_sequence r) (ob_generation r).
#[global] Instance OutboxEvent_eq_dec : EqDecision OutboxEvent.
Proof. solve_decision. Defined.

Module Event.
(** [crates/application/src/repository/outbox.rs:89-111 OutboxEvent::new] *)
Definition new (event_id : InvocationId) (tenant_id : TenantId) (topic payload : string)
    (now : Timestamp) : OutboxEvent :=
  mkEvent event_id tenant_id topic payload now None 0 now None None None None 0.
End Event.

(** [crates/application/src/repository/outbox.rs:121-127 message_id_for] *)
Definition message_id_for (event : InvocationId) (generation : Z) : string :=
  if generation =? 0 then event else event +:+ ".g" +:+ pretty generation.

(** [crates/application/src/repository/outbox.rs:129-134 BacklogLimits] *)
Record BacklogLimits := mkBacklog {
  bl_max_pending : Z;
  bl_max_pending_age : Duration
}.

(** [crates/application/src/repository/outbox.rs:136-143 OutboxStats] *)
Record OutboxStats := mkStats {
  os_pending : Z;
  os_oldest_pending_at : option Timestamp;
  os_sent : Z
}.

(** [crates/application/src/repository/outbox.rs:146-152 exceeds] *)
Definition exceeds (limits : BacklogLimits) (now : Timestamp) (s : OutboxStats) : bool :=
  (bl_max_pending limits <=? os_pending s)
  || is_some_and (os_oldest_pending_at s) (λ t, bl_max_pending_age limits <=? now - t).

Module DispatchState.
(** [crates/application/src/repository/dispatch.rs:32-43 DispatchState] *)
Inductive t : Type := Running | Scheduled | Done | Dead.
#[global] Instance eq_dec : EqDecision t.
Proof. solve_decision. Defined.

(** [crates/application/src/repository/dispatch.rs:46-53 as_str] *)
Definition as_str (s : t) : string :=
  match s with
  | Running => "running" | Scheduled => "scheduled" | Done => "done" | Dead => "dead"
  end.

(** [crates/application/src/repository/dispatch.rs:55-63 parse] *)
Definition parse (raw : string) : option t :=
  if raw == "running" then Some Running
  else if raw == "scheduled" then Some Scheduled
  else if raw == "done" then Some Done
  else if raw == "dead" then Some Dead
  else None.
End DispatchState.

(** [crates/application/src/repository/dispatch.rs:66-85 DispatchRecord] *)
Record DispatchRecord := mkRecord {
  dr_invocation_id : InvocationId;
  dr_tenant_id : TenantId;
  dr_function_id : FunctionId;
  dr_state : DispatchState.t;
  dr_generation : Z;
  dr_attempts : Z;
  dr_deferrals : Z;
  dr_claimed_by : option string;
  dr_claim_expires_at : option Timestamp;
  dr_next_attempt_at : option Timestamp;
  dr_first_attempt_at : option Timestamp;
  dr_last_attempt_at : option Timestamp;
  dr_updated_at : Timestamp;
  dr_last_error : option InvocationError
}.
#[global] Instance DispatchRecord_eta : Eta DispatchRecord := λ r,
  mkRecord (dr_invocation_id r) (dr_tenant_id r) (dr_function_id r) (dr_state r) (dr_generation r)
    (dr_attempts r) (dr_deferrals r) (dr_claimed_by r) (dr_claim_expires_at r)
    (dr_next_attempt_at r) (dr_first_attempt_at r) (dr_last_attempt_at r) (dr_updated_at r)
    (dr_last_error r).

(** [crates/application/src/repository/dispatch.rs:191-196 DeadLetterStatus] *)
Inductive DeadLetterStatus : Type := Open | Redriven.
#[global] Instance DeadLetterStatus_eq_dec : EqDecision DeadLetterStatus.
Proof. solve_decision. Defined.

(** [crates/application/src/repository/dispatch.rs:207-251 DeadLetter] *)
Record DeadLetter := mkDead {
  dd_id : string;
  dd_tenant_id : TenantId;
  dd_function_id : option FunctionId;
  dd_invocation_id : option InvocationId;
  dd_revision_id : option RevisionId;
  dd_reason : DeadLetterReason.t;
  dd_status : DeadLetterStatus;
  dd_attempts : Z;
  dd_deferrals : Z;
  dd_last_error : option InvocationError;
  dd_accepted_at : option Timestamp;
  dd_first_attempt_at : option Timestamp;
  dd_last_attempt_at : option Timestamp;
  dd_created_at : Timestamp;
  dd_input_digest : option Sha256Digest;
  dd_input_size_bytes : option Z;
  dd_input_storage : option string;
  dd_message_id : option string;
  dd_message_sequence : option Z;
  dd_detail : option string;
  dd_redrive_count : Z;
  dd_redriven_at : option Timestamp
}.
#[global] Instance DeadLetter_eta : Eta DeadLetter := λ r,
  mkDead (dd_id r) (dd_tenant_id r) (dd_function_id r) (dd_invocation_id r) (dd_revision_id r)
    (dd_reason r) (dd_status r) (dd_attempts r) (dd_deferrals r) (dd_last_error r)
    (dd_accepted_at r) (dd_first_attempt_at r) (dd_last_attempt_at r) (dd_created_at r)
    (dd_input_digest r) (dd_input_size_bytes r) (dd_input_storage r) (dd_message_id r)
    (dd_message_sequence r) (dd_detail r) (dd_redrive_count r) (dd_redriven_at r).

(** [crates/application/src/repository/dispatch.rs:264-284 Redrive] *)
Record Redrive := mkRedrive {
  rd_id : string;
  rd_dead_letter_id : string;
  rd_tenant_id : TenantId;
  rd_function_id : FunctionId;
  rd_source_invocation_id : InvocationId;
  rd_invocation_id : InvocationId;
  rd_revision_id : RevisionId;
  rd_revision_overridden : bool;
  rd_requested_by : string;
  rd_reason : option string;
  rd_created_at : Timestamp
}.

(** The ledger: the store's tables and those of the asynchronous path. *)
Record Ledger := mkLedger {
  lg_store : State;
  lg_inputs : gmap InvocationId AsyncInput;
  lg_outbox : gmap InvocationId OutboxEvent;
  lg_dispatch : gmap InvocationId DispatchRecord;
  lg_dead : gmap string DeadLetter;
  lg_redrives : gmap string Redrive
}.
#[global] Instance Ledger_eta : Eta Ledger := λ r,
  mkLedger (lg_store r) (lg_inputs r) (lg_outbox r) (lg_dispatch r) (lg_dead r) (lg_redrives r).

Definition empty_ledger : Ledger := mkLedger empty_state ∅ ∅ ∅ ∅ ∅.

(** A transaction on the ledger. *)
Definition tx (A : Type) : Type := Ledger → result RepoError (A * Ledger).

(** ** Rows shared by the transactions *)

(** [crates/application/src/repository/sqlite/mod.rs:80-82 big] An unsigned value a
    BIGINT column takes. *)
Definition big (v : Z) (what : string) : result RepoError unit :=
  if v <=? i64_max then Ok tt
  else Err (Refused (what +:+ " " +:+ pretty v +:+ " does not fit a BIGINT")).

(** A constraint violation the database reports. *)
Definition constraint_violation (table : string) : RepoError :=
  Conflict ("UNIQUE constraint failed: " +:+ table).

(** [crates/application/src/repository/sqlite/mod.rs:754-763 idempotency_expires_at] *)
Definition idempotency_expires_at (inv : Invocation) (retention : option Duration)
    : option Timestamp :=
  r ← retention;
  if InvocationStatus.is_terminal (inv_status inv)
  then Some (unwrap_or (inv_finished_at inv) (inv_accepted_at inv) + r) else None.

(** [crates/application/src/repository/sqlite/mod.rs:817-845 update_invocation_row] *)
Definition update_invocation_row (cfg : StoreConfig) (inv : Invocation) (s : State)
    : result RepoError State :=
  match st_invocations s !! inv_id inv with
  | Some old =>
      when! InvocationStatus.is_terminal (inv_status old) return!
        refuse ("invocation " +:+ inv_id inv +:+ " changed concurrently");;
      Ok (set_binding_expiry inv (cfg_idempotency_retention cfg)
            (s <| st_invocations ::= <[inv_id inv := inv]> |>))
  | None => refuse ("invocation " +:+ inv_id inv +:+ " changed concurrently")
  end.

(** [crates/application/src/repository/sqlite/mod.rs:1326-1341 insert_invocation_checked] *)
Definition insert_invocation_checked (cfg : StoreConfig) (inv : Invocation) (s : State)
    : result RepoError State :=
  when! is_some (st_invocations s !! inv_id inv) return!
    Err (duplicate "invocation" (inv_id inv));;
  _ ← invocation_insert (st_functions s !! inv_function_id inv) inv
        (max_response_bytes (cfg_limits cfg));
  Ok (s <| st_invocations ::= <[inv_id inv := inv]> |>).

(** [crates/application/src/repository/sqlite/mod.rs:1509-1541 bind_idempotency] *)
Definition bind_idempotency (cfg : StoreConfig) (inv : Invocation) (s : State) : State :=
  match IdempotencyRepo.key_of inv with
  | Some k =>
      s <| st_idempotency ::=
             <[k := mkBinding (inv_id inv) (inv_input_digest inv)
                      (idempotency_expires_at inv (cfg_idempotency_retention cfg))]> |>
  | None => s
  end.

(** [crates/application/src/repository/sqlite/objects.rs:15-57 attach_in] *)
Definition attach_in (object : ObjectRef) (invocation : InvocationId) (s : State)
    : result RepoError State :=
  match st_invocations s !! invocation with
  | None => Err (NotFound ("invocation " +:+ invocation))
  | Some inv =>
      when! inv_tenant_id inv != obj_tenant_id object return!
        refuse ("object " +:+ obj_id object +:+ " belongs to another tenant than invocation "
                  +:+ invocation);;
      match st_object_tombstones s !! obj_id object with
      | Some (reason, _) =>
          refuse ("object " +:+ obj_id object +:+ " is being collected (" +:+ reason_str reason
                    +:+ "); store it again")
      | None =>
          Ok (s <| st_object_refs ::=
                     <[obj_id object := {[invocation]} ∪ ObjectRepo.refs_of (obj_id object) s]> |>)
      end
  end.

(** [crates/application/src/repository/sqlite/outbox.rs:186-222 insert_input_row] *)
Definition insert_input_row (input : AsyncInput) (l : Ledger) : result RepoError Ledger :=
  s ← match in_body input with
      | InlineBody _ => Ok (lg_store l)
      | ObjectBody object => attach_in object (in_invocation_id input) (lg_store l)
      end;
  _ ← big (in_size_bytes input) "input size";
  when! is_some (lg_inputs l !! in_invocation_id input) return!
    Err (constraint_violation "invocation_inputs");;
  Ok (l <| lg_store := s |> <| lg_inputs ::= <[in_invocation_id input := input]> |>).

(** The columns an insert writes; the others take their defaults. *)
Definition new_row (e : OutboxEvent) : OutboxEvent :=
  mkEvent (ob_event_id e) (ob_tenant_id e) (ob_topic e) (ob_payload e) (ob_created_at e) None 0
    (ob_next_attempt_at e) None None None None (ob_generation e).

(** [crates/application/src/repository/sqlite/outbox.rs:224-241 insert_outbox_row] *)
Definition insert_outbox_row (event : OutboxEvent) (l : Ledger) : result RepoError Ledger :=
  _ ← big (ob_generation event) "outbox generation";
  when! is_some (lg_outbox l !! ob_event_id event) return! Err (constraint_violation "outbox");;
  Ok (l <| lg_outbox ::= <[ob_event_id event := new_row event]> |>).

(** [crates/application/src/repository/sqlite/outbox.rs:68-99 event_of] What is read
    of a row: the count of publishes fits its type. *)
Definition event_of (row : OutboxEvent) : OutboxEvent :=
  row <| ob_publish_attempts ::= λ n, if (0 <=? n) && (n <=? u32_max) then n else u32_max |>.

(** [crates/application/src/repository/sqlite/outbox.rs:101-113 stats_in] *)
Definition stats_in (l : Ledger) : OutboxStats :=
  let pending := filter_values (λ e, is_none (ob_sent_at e)) (lg_outbox l) in
  mkStats (Z.of_nat (length pending))
    (match ob_created_at <$> pending with [] => None | t :: ts => Some (fold_left Z.min ts t) end)
    (Z.of_nat (count_values (λ e, is_some (ob_sent_at e)) (lg_outbox l))).

(** [crates/application/src/repository/sqlite/outbox.rs:115-124 truncate] *)
Definition truncate (s : string) (max : nat) : string :=
  if bool_decide (String.length s ≤ max)%nat then s else String.substring 0 (cut s max) s.

(** ** Acceptance *)

Module AsyncAcceptOutcome.
(** [crates/application/src/repository/outbox.rs:155-163 AsyncAcceptOutcome] *)
Inductive t : Type :=
| Accepted
| Existing (binding : IdempotencyBinding)
| Backlog (stats : OutboxStats).
End AsyncAcceptOutcome.

(** [crates/application/src/repository/sqlite/outbox.rs:126-149 check_accept] *)
Definition check_accept (inv : Invocation) (input : AsyncInput) (event : OutboxEvent)
    : result RepoError unit :=
  when! (in_invocation_id input != inv_id inv) || (ob_event_id event != inv_id inv)
        || (in_tenant_id input != inv_tenant_id inv) || (ob_tenant_id event != inv_tenant_id inv)
        || (in_digest input != inv_input_digest inv)
        || (in_size_bytes input != inv_input_size_bytes inv) return!
    refuse ("input, outbox event and invocation must name the same invocation, tenant and " +:+
            "digest");;
  match in_body input with
  | ObjectBody object => check_attachable object (inv_accepted_at inv)
  | InlineBody _ => Ok tt
  end.

(** [crates/application/src/repository/sqlite/outbox.rs:151-184 accept_in] *)
Definition accept_in (cfg : StoreConfig) (inv : Invocation) (input : AsyncInput)
    (event : OutboxEvent) (backlog : BacklogLimits) : tx AsyncAcceptOutcome.t := λ l,
  let now := inv_accepted_at inv in
  match k ← IdempotencyRepo.key_of inv; live_binding (lg_store l) k now with
  | Some existing => Ok (AsyncAcceptOutcome.Existing existing, l)
  | None =>
      let stats := stats_in l in
      when! exceeds backlog now stats return! Ok (AsyncAcceptOutcome.Backlog stats, l);;
      s ← insert_invocation_checked cfg inv (lg_store l);
      l ← insert_input_row input (l <| lg_store := bind_idempotency cfg inv s |>);
      l ← insert_outbox_row event l;
      Ok (AsyncAcceptOutcome.Accepted, l)
  end.

(** [crates/application/src/repository/sqlite/outbox.rs:244-263 accept_async] The
    failpoint before the commit is the argument [before_commit]. *)
Definition accept_async (cfg : StoreConfig) (inv : Invocation) (input : AsyncInput)
    (event : OutboxEvent) (backlog : BacklogLimits) (before_commit : bool)
    : tx AsyncAcceptOutcome.t := λ l,
  _ ← check_accept inv input event;
  '(outcome, l) ← accept_in cfg inv input event backlog l;
  match outcome with
  | AsyncAcceptOutcome.Accepted =>
      when! before_commit return!
        Err (Store "failpoint accept.before_commit: the transaction is rolled back");;
      Ok (outcome, l)
  | _ => Ok (outcome, l)
  end.

(** ** Publishing *)

(** The rows a publisher may claim. *)
Definition unclaimed_at (now : Timestamp) (e : OutboxEvent) : bool :=
  is_none (ob_sent_at e)
  && (is_none (ob_claimed_by e) || is_some_and (ob_claim_expires_at e) (λ t, t <=? now)).

Definition claimable (now : Timestamp) (e : OutboxEvent) : bool :=
  unclaimed_at now e && (ob_next_attempt_at e <=? now).

(** Oldest first, then by event id. *)
Definition created_before (a b : OutboxEvent) : bool :=
  (ob_created_at a <? ob_created_at b)
  || ((ob_created_at a =? ob_created_at b) && String.leb (ob_event_id a) (ob_event_id b)).

Fixpoint claim_rows (owner : string) (now expires : Timestamp) (ids : list InvocationId)
    (l : Ledger) : list OutboxEvent * Ledger :=
  match ids with
  | [] => ([], l)
  | id :: ids =>
      match lg_outbox l !! id with
      | Some e =>
          when! negb (unclaimed_at now e) return! claim_rows owner now expires ids l;;
          let e := e <| ob_claimed_by := Some owner |> <| ob_claim_expires_at := Some expires |>
                     <| ob_publish_attempts ::= Z.add 1 |> in
          let (out, l) := claim_rows owner now expires ids (l <| lg_outbox ::= <[id := e]> |>) in
          (event_of e :: out, l)
      | None => claim_rows owner now expires ids l
      end
  end.

(** [crates/application/src/repository/sqlite/outbox.rs:336-394 claim_outbox] *)
Definition claim_outbox (owner : string) (now : Timestamp) (ttl : Duration) (max : nat)
    : tx (list OutboxEvent) := λ l,
  let rows := filter_values (claimable now) (lg_outbox l) in
  when! bool_decide (rows = []) || bool_decide (max = 0%nat) return! Ok ([], l);;
  let ids := ob_event_id <$> take max (sort_by created_before rows) in
  Ok (claim_rows owner now (now + ttl) ids l).

(** The claim of a row is [owner]'s. *)
Definition held_by (owner : string) (e : OutboxEvent) : bool :=
  is_none (ob_sent_at e) && (ob_claimed_by e == Some owner).

(** The row of an event the queue stored. *)
Definition sent_row (now : Timestamp) (queue_sequence : Z) (e : OutboxEvent) : OutboxEvent :=
  mkEvent (ob_event_id e) (ob_tenant_id e) (ob_topic e) (ob_payload e) (ob_created_at e) (Some now)
    (ob_publish_attempts e) (ob_next_attempt_at e) None None None (Some queue_sequence)
    (ob_generation e).

(** The row of an event whose claim is given up. *)
Definition released_row (next_attempt_at : Timestamp) (error : string) (e : OutboxEvent) : OutboxEvent :=
  mkEvent (ob_event_id e) (ob_tenant_id e) (ob_topic e) (ob_payload e) (ob_created_at e) (ob_sent_at e)
    (ob_publish_attempts e) next_attempt_at None None (Some (truncate error 512))
    (ob_queue_sequence e) (ob_generation e).

(** [crates/application/src/repository/sqlite/outbox.rs:396-430 mark_outbox_sent] *)
Definition mark_outbox_sent (cfg : StoreConfig) (event : InvocationId) (owner : string)
    (queue_sequence : Z) (now : Timestamp) : tx bool := λ l,
  _ ← big queue_sequence "queue sequence";
  match lg_outbox l !! event with
  | Some e =>
      when! negb (held_by owner e) return! Ok (false, l);;
      let l := l <| lg_outbox ::= <[event := sent_row now queue_sequence e]> |> in
      match st_invocations (lg_store l) !! event with
      | Some inv =>
          when! inv_status inv != InvocationStatus.Accepted return! Ok (true, l);;
          match Inv.mark_queued inv with
          | Ok inv =>
              s ← update_invocation_row cfg inv (lg_store l);
              Ok (true, l <| lg_store := s |>)
          | Err _ => Ok (true, l)
          end
      | None => Ok (true, l)
      end
  | None => Ok (false, l)
  end.

(** [crates/application/src/repository/sqlite/outbox.rs:432-454 retry_outbox] *)
Definition retry_outbox (event : InvocationId) (owner : string) (next_attempt_at : Timestamp)
    (error : string) : tx bool := λ l,
  match lg_outbox l !! event with
  | Some e =>
      when! negb (held_by owner e) return! Ok (false, l);;
      Ok (true, l <| lg_outbox ::= <[event := released_row next_attempt_at error e]> |>)
  | None => Ok (false, l)
  end.

(** [crates/application/src/repository/sqlite/outbox.rs:456-463 purge_sent_outbox] *)
Definition purge_sent_outbox (before : Timestamp) : tx nat := λ l,
  let kept := filter (λ ke, negb (is_some_and (ob_sent_at ke.2) (λ t, t <? before)) = true)
                (lg_outbox l) in
  Ok ((size (lg_outbox l) - size kept)%nat, l <| lg_outbox := kept |>).

(** [crates/application/src/repository/sqlite/mod.rs:1353-1364 update] Any other writer
    of an invocation row: the driver of a run, a cancellation. *)
Definition update_invocation (cfg : StoreConfig) (inv : Invocation) : tx unit := λ l,
  match st_invocations (lg_store l) !! inv_id inv with
  | None => Err (NotFound ("invocation " +:+ inv_id inv))
  | Some old =>
      w ← invocation_update old inv (max_response_bytes (cfg_limits cfg));
      when! w != Apply return! Ok (tt, l);;
      s ← update_invocation_row cfg inv (lg_store l);
      Ok (tt, l <| lg_store := s |>)
  end.
