(* ===== verification/Dispatch.v ===== *)
(** * The durable ledger: claims, settles, dead letters and redrives

    [crates/application/src/repository/dispatch.rs] and its SQL implementation
    ([repository/sqlite/dispatch.rs], and the object collection of
    [sqlite/objects.rs] that respects dead letters). Every operation is one
    transaction on the [Ledger]. *)

From S2P Require Import Prelude Ids Functions Invocation Guard Store Retry Outbox.

Open Scope string_scope.
Open Scope Z_scope.

(** ** Requests and outcomes *)

Module Rec.
(** [crates/application/src/repository/dispatch.rs:88-106 unclaimed] *)
Definition unclaimed (i : Invocation) : DispatchRecord :=
  mkRecord (inv_id i) (inv_tenant_id i) (inv_function_id i) DispatchState.Scheduled 0 0 0 None None
    None None None (inv_accepted_at i) None.

(** [crates/application/src/repository/dispatch.rs:108-113 claim_live] *)
Definition claim_live (now : Timestamp) (r : DispatchRecord) : bool :=
  (dr_state r == DispatchState.Running) && is_some (dr_claimed_by r)
  && is_some_and (dr_claim_expires_at r) (λ t, now <? t).
End Rec.

(** [crates/application/src/repository/dispatch.rs:116-126 ClaimRequest] *)
Record ClaimRequest := mkClaim {
  cl_invocation_id : InvocationId;
  cl_owner : string;
  cl_generation : Z;
  cl_now : Timestamp;
  cl_ttl : Duration
}.

Module ClaimOutcome.
(** [crates/application/src/repository/dispatch.rs:128-147 ClaimOutcome] *)
Inductive t : Type :=
| Claimed (invocation : Invocation) (record : DispatchRecord)
| Terminal (invocation : Invocation)
| Stale (current : Z)
| Held (owner : string) (expires_at : Timestamp)
| NotDue (at_ : Timestamp).
End ClaimOutcome.

Module Fence.
(** [crates/application/src/repository/dispatch.rs:149-158 DispatchFence] *)
Inductive t : Type :=
| Claim (owner : string) (attempts : Z)
| Unclaimed (generation : Z).
End Fence.

(** [crates/application/src/repository/dispatch.rs:286-303 DispatchSettle] *)
Record DispatchSettle := mkSettle {
  sl_fence : Fence.t;
  sl_invocation : Invocation;
  sl_state : DispatchState.t;
  sl_next_attempt_at : option Timestamp;
  sl_last_error : option InvocationError;
  sl_counted : bool;
  sl_dead_letter : option DeadLetter;
  sl_republish : option OutboxEvent;
  sl_now : Timestamp
}.

Module SettleOutcome.
(** [crates/application/src/repository/dispatch.rs:305-311 SettleOutcome] *)
Inductive t : Type := Committed | Lost (reason : string).
#[global] Instance eq_dec : EqDecision t.
Proof. solve_decision. Defined.
End SettleOutcome.

(** [crates/application/src/repository/dispatch.rs:313-320 DispatchCandidate] *)
Record DispatchCandidate := mkCandidate {
  cd_invocation : Invocation;
  cd_record : DispatchRecord;
  cd_outbox : option OutboxEvent
}.

(** [crates/application/src/repository/dispatch.rs:322-332 RedriveWrite] *)
Record RedriveWrite := mkRedriveWrite {
  rw_dead_letter_id : string;
  rw_invocation : Invocation;
  rw_input : AsyncInput;
  rw_event : OutboxEvent;
  rw_redrive : Redrive
}.

(** [crates/application/src/repository/dispatch.rs:254-261 origin_key] *)
Definition origin_key (d : DeadLetter) : string :=
  match dd_invocation_id d, dd_message_id d with
  | Some inv, _ => "inv:" +:+ inv
  | None, Some msg =>
      "msg:" +:+ msg +:+ ":" +:+ pretty (unwrap_or (dd_message_sequence d) 0)
  | None, None => "dlq:" +:+ dd_id d
  end.

(** ** Rows *)

(** [crates/application/src/repository/sqlite/dispatch.rs:110-118 get_record] *)
Definition get_record (id : InvocationId) (l : Ledger) : option DispatchRecord :=
  lg_dispatch l !! id.

(** The row, or the state of an invocation that was never claimed. *)
Definition record_or_unclaimed (inv : Invocation) (l : Ledger) : DispatchRecord :=
  unwrap_or (get_record (inv_id inv) l) (Rec.unclaimed inv).

(** [crates/application/src/repository/sqlite/dispatch.rs:120-146 write_record] *)
Definition write_record (r : DispatchRecord) (l : Ledger) : result RepoError Ledger :=
  _ ← big (dr_generation r) "dispatch generation";
  Ok (l <| lg_dispatch ::= <[dr_invocation_id r := r]> |>).

(** [crates/application/src/repository/sqlite/dispatch.rs:148-173 insert_dead_letter] *)
Definition insert_dead_letter (d : DeadLetter) : tx bool := λ l,
  when! any_value (λ e, origin_key e == origin_key d) (lg_dead l) return! Ok (false, l);;
  when! is_some (lg_dead l !! dd_id d) return! Err (constraint_violation "dead_letters");;
  Ok (true, l <| lg_dead ::= <[dd_id d := d]> |>).

(** [crates/application/src/repository/sqlite/dispatch.rs:175-184 is_async_with_input] *)
Definition is_async_with_input (inv : Invocation) (l : Ledger) : bool :=
  (inv_mode inv == Async) && is_some (lg_inputs l !! inv_id inv).

(** ** Claiming a run *)

(** [crates/application/src/repository/sqlite/dispatch.rs:237-243 claim_dispatch (row)] The
    row of a run that is claimed. *)
Definition claimed_record (req : ClaimRequest) (r : DispatchRecord) : DispatchRecord :=
  mkRecord (dr_invocation_id r) (dr_tenant_id r) (dr_function_id r) DispatchState.Running
    (dr_generation r) (Z.min (dr_attempts r + 1) u32_max) (dr_deferrals r) (Some (cl_owner req))
    (Some (cl_now req + cl_ttl req)) (dr_next_attempt_at r)
    (or_else (dr_first_attempt_at r) (Some (cl_now req))) (Some (cl_now req)) (cl_now req)
    (dr_last_error r).

(** [crates/application/src/repository/sqlite/dispatch.rs:194-250 claim_dispatch] *)
Definition claim_dispatch (req : ClaimRequest) : tx ClaimOutcome.t := λ l,
  let id := cl_invocation_id req in
  match st_invocations (lg_store l) !! id with
  | None => Err (NotFound ("invocation " +:+ id))
  | Some inv =>
      when! InvocationStatus.is_terminal (inv_status inv) return!
        Ok (ClaimOutcome.Terminal inv, l);;
      when! negb (is_async_with_input inv l) return!
        refuse ("invocation " +:+ id +:+ " is not an asynchronous invocation");;
      let record := unwrap_or (get_record id l) (Rec.unclaimed inv) in
      when! cl_generation req != dr_generation record return!
        Ok (ClaimOutcome.Stale (dr_generation record), l);;
      when! Rec.claim_live (cl_now req) record return!
        Ok (ClaimOutcome.Held (unwrap_or (dr_claimed_by record) "")
              (unwrap_or (dr_claim_expires_at record) (cl_now req)), l);;
      let not_due := (dr_state record == DispatchState.Scheduled)
                     && is_some_and (dr_next_attempt_at record) (λ t, cl_now req <? t) in
      when! not_due return!
        Ok (ClaimOutcome.NotDue (unwrap_or (dr_next_attempt_at record) (cl_now req)), l);;
      let record := claimed_record req record in
      l ← write_record record l;
      Ok (ClaimOutcome.Claimed inv record, l)
  end.

(** [crates/application/src/repository/sqlite/dispatch.rs:252-276 renew_dispatch_claim] *)
Definition renew_dispatch_claim (invocation : InvocationId) (owner : string) (attempts : Z)
    (now : Timestamp) (ttl : Duration) : tx bool := λ l,
  match get_record invocation l with
  | Some r =>
      let ours := (dr_state r == DispatchState.Running) && (dr_claimed_by r == Some owner)
                  && (dr_attempts r =? attempts) in
      when! negb ours return! Ok (false, l);;
      let r := r <| dr_claim_expires_at := Some (now + ttl) |> <| dr_updated_at := now |> in
      Ok (true, l <| lg_dispatch ::= <[invocation := r]> |>)
  | None => Ok (false, l)
  end.

(** ** Settling a run *)

(** [crates/application/src/repository/sqlite/dispatch.rs:306-328 settle_dispatch (fence)]
    Whether the fence of a settle holds for the row. *)
Definition fence_holds (f : Fence.t) (now : Timestamp) (r : DispatchRecord) : bool :=
  match f with
  | Fence.Claim owner attempts =>
      (dr_state r == DispatchState.Running) && (dr_claimed_by r == Some owner)
      && (dr_attempts r =? attempts)
  | Fence.Unclaimed generation => (dr_generation r =? generation) && negb (Rec.claim_live now r)
  end.

Definition fence_lost (f : Fence.t) (id : InvocationId) (r : DispatchRecord) : string :=
  match f with
  | Fence.Claim owner attempts =>
      "the claim of invocation " +:+ id +:+ " is no longer " +:+ owner +:+ "'s attempt "
        +:+ pretty attempts
  | Fence.Unclaimed _ =>
      "invocation " +:+ id +:+ " moved on (generation " +:+ pretty (dr_generation r) +:+ ", state "
        +:+ DispatchState.as_str (dr_state r) +:+ ")"
  end.

Definition from_claim (f : Fence.t) : bool :=
  match f with Fence.Claim _ _ => true | Fence.Unclaimed _ => false end.

(** [crates/application/src/repository/sqlite/dispatch.rs:337-350 settle_dispatch (row)]
    The row after the settle, before the next event moves its generation. *)
Definition settled_record (settle : DispatchSettle) (r : DispatchRecord) : DispatchRecord :=
  let attempts := if negb (sl_counted settle) && from_claim (sl_fence settle)
                  then Z.max (dr_attempts r - 1) 0 else dr_attempts r in
  let deferrals := if sl_counted settle then dr_deferrals r
                   else Z.min (dr_deferrals r + 1) u32_max in
  mkRecord (dr_invocation_id r) (dr_tenant_id r) (dr_function_id r) (sl_state settle)
    (dr_generation r) attempts deferrals None None (sl_next_attempt_at settle)
    (dr_first_attempt_at r) (dr_last_attempt_at r) (sl_now settle)
    (or_else (sl_last_error settle) (dr_last_error r)).

(** [crates/application/src/repository/sqlite/dispatch.rs:354-367 settle_dispatch (republish)]
    The event of the next try. *)
Definition republish (settle : DispatchSettle) (r : DispatchRecord) (l : Ledger)
    : result RepoError (DispatchRecord * Ledger) :=
  let inv := sl_invocation settle in
  match sl_republish settle with
  | None => Ok (r, l)
  | Some event =>
      when! (ob_event_id event != inv_id inv) || (ob_tenant_id event != inv_tenant_id inv)
            || negb (ob_generation event =? dr_generation r + 1) return!
        refuse ("the next event of invocation " +:+ inv_id inv +:+ " must be its generation "
                  +:+ pretty (dr_generation r + 1));;
      l ← insert_outbox_row event l;
      Ok (r <| dr_generation := ob_generation event |>, l)
  end.

(** [crates/application/src/repository/sqlite/dispatch.rs:369-378 settle_dispatch (dead letter)] *)
Definition settle_dead_letter (settle : DispatchSettle) (l : Ledger) : result RepoError Ledger :=
  let inv := sl_invocation settle in
  match sl_dead_letter settle with
  | None => Ok l
  | Some d =>
      when! (dd_tenant_id d != inv_tenant_id inv) || (dd_invocation_id d != Some (inv_id inv)) return!
        refuse "a dead letter must name its own invocation and tenant";;
      '(_, l) ← insert_dead_letter d l;
      Ok l
  end.

(** [crates/application/src/repository/sqlite/dispatch.rs:278-381 settle_dispatch] *)
Definition settle_dispatch (cfg : StoreConfig) (settle : DispatchSettle) : tx SettleOutcome.t :=
  λ l,
  let inv := sl_invocation settle in
  match st_invocations (lg_store l) !! inv_id inv with
  | None => Err (NotFound ("invocation " +:+ inv_id inv))
  | Some old =>
      when! InvocationStatus.is_terminal (inv_status old) return!
        Ok (SettleOutcome.Lost ("invocation " +:+ inv_id old +:+ " is already "
                                  +:+ InvocationStatus.name (inv_status old)), l);;
      let record := unwrap_or (get_record (inv_id inv) l) (Rec.unclaimed old) in
      when! negb (fence_holds (sl_fence settle) (sl_now settle) record) return!
        Ok (SettleOutcome.Lost (fence_lost (sl_fence settle) (inv_id old) record), l);;
      when! negb (InvocationStatus.is_terminal (inv_status inv))
            && (sl_state settle != DispatchState.Scheduled) return!
        refuse "only a scheduled retry leaves the invocation non-terminal";;
      w ← invocation_update old inv (max_response_bytes (cfg_limits cfg));
      s ← (if w == Apply then update_invocation_row cfg inv (lg_store l) else Ok (lg_store l));
      let l := l <| lg_store := s |> <| lg_outbox ::= base.delete (inv_id inv) |> in
      '(record, l) ← republish settle (settled_record settle record) l;
      l ← write_record record l;
      l ← settle_dead_letter settle l;
      Ok (SettleOutcome.Committed, l)
  end.

(** ** The reaper's candidates *)

(** [x <= ?] on a nullable column. *)
Definition col_le (o : option Timestamp) (t : Timestamp) : bool := is_some_and o (λ x, x <=? t).

(** [crates/application/src/repository/sqlite/dispatch.rs:397-412 dispatch_candidates (where)] *)
Definition is_candidate (now quiet_before accepted_before : Timestamp) (l : Ledger)
    (v : Invocation) : bool :=
  let d := lg_dispatch l !! inv_id v in
  let o := lg_outbox l !! inv_id v in
  let running := is_some_and d (λ d, dr_state d == DispatchState.Running) in
  let claim_over := col_le (d ← d; dr_claim_expires_at d) now in
  is_some (lg_inputs l !! inv_id v)
  && negb (InvocationStatus.is_terminal (inv_status v))
  && ((running && claim_over)
      || ((inv_accepted_at v <=? accepted_before) && (negb running || claim_over))
      || (is_none_or d (λ d, dr_state d == DispatchState.Scheduled)
          && is_none_or o (λ o, is_some (ob_sent_at o))
          && is_none_or (o ← o; ob_sent_at o) (λ t, t <=? quiet_before)
          && is_none_or (d ← d; dr_next_attempt_at d) (λ t, t <=? quiet_before)
          && (inv_accepted_at v <=? quiet_before))).

(** Oldest first, then by id. *)
Definition accepted_before (a b : Invocation) : bool :=
  (inv_accepted_at a <? inv_accepted_at b)
  || ((inv_accepted_at a =? inv_accepted_at b) && String.leb (inv_id a) (inv_id b)).

(** [crates/application/src/repository/sqlite/dispatch.rs:383-436 dispatch_candidates] *)
Definition dispatch_candidates (now quiet_before accepted_until : Timestamp) (limit : nat)
    (l : Ledger) : list DispatchCandidate :=
  (λ v, mkCandidate v (record_or_unclaimed v l) (event_of <$> lg_outbox l !! inv_id v))
  <$> take limit (sort_by accepted_before
        (filter_values (is_candidate now quiet_before accepted_until l)
           (st_invocations (lg_store l)))).

(** ** Dead letters and redrives *)

(** [crates/application/src/repository/sqlite/dispatch.rs:438-445 record_poison] *)
Definition record_poison (d : DeadLetter) : tx bool := λ l,
  when! is_some (dd_invocation_id d) return! refuse "a poison dead letter names no invocation";;
  insert_dead_letter d l.

(** [crates/application/src/repository/sqlite/dispatch.rs:447-455 dead_letter] *)
Definition dead_letter (id : string) (l : Ledger) : option DeadLetter := lg_dead l !! id.

(** Newest first. *)
Definition dead_newer (a b : DeadLetter) : bool :=
  (dd_created_at b <? dd_created_at a)
  || ((dd_created_at a =? dd_created_at b) && String.leb (dd_id b) (dd_id a)).

(** [crates/application/src/repository/sqlite/dispatch.rs:467-482 list_dead_letters] *)
Definition list_dead_letters (tenant : TenantId) (function : FunctionId) (limit : nat)
    (l : Ledger) : list DeadLetter :=
  take limit (sort_by dead_newer
    (filter_values (λ d, (dd_tenant_id d == tenant) && (dd_function_id d == Some function))
       (lg_dead l))).

(** Oldest first. *)
Definition redrive_older (a b : Redrive) : bool :=
  (rd_created_at a <? rd_created_at b)
  || ((rd_created_at a =? rd_created_at b) && String.leb (rd_id a) (rd_id b)).

(** [crates/application/src/repository/sqlite/dispatch.rs:484-492 redrives_of] *)
Definition redrives_of (dead_letter_id : string) (l : Ledger) : list Redrive :=
  sort_by redrive_older (filter_values (λ r, rd_dead_letter_id r == dead_letter_id) (lg_redrives l)).

(** [crates/application/src/repository/sqlite/dispatch.rs:494-502 redrive_creating] *)
Definition redrive_creating (invocation : InvocationId) (l : Ledger) : option Redrive :=
  snd <$> btree_find (λ r, rd_invocation_id r == invocation) (lg_redrives l).

(** [crates/application/src/repository/sqlite/dispatch.rs:504-579 redrive] *)
Definition redrive (cfg : StoreConfig) (w : RedriveWrite) : tx unit := λ l,
  let inv := rw_invocation w in
  let input := rw_input w in
  let event := rw_event w in
  let rd := rw_redrive w in
  match lg_dead l !! rw_dead_letter_id w with
  | None => Err (NotFound ("dead letter " +:+ rw_dead_letter_id w))
  | Some dead =>
      when! dd_status dead != Open return!
        Err (Conflict ("dead letter " +:+ rw_dead_letter_id w +:+ " is redriven"));;
      when! (inv_tenant_id inv != dd_tenant_id dead) || (in_tenant_id input != dd_tenant_id dead)
            || (ob_tenant_id event != dd_tenant_id dead) || (rd_tenant_id rd != dd_tenant_id dead)
            || (in_invocation_id input != inv_id inv) || (ob_event_id event != inv_id inv)
            || (rd_invocation_id rd != inv_id inv)
            || (dd_function_id dead != Some (inv_function_id inv))
            || (dd_invocation_id dead != Some (rd_source_invocation_id rd)) return!
        refuse "a redrive must stay within its dead letter's tenant and function";;
      let now := inv_accepted_at inv in
      s ← insert_invocation_checked cfg inv (lg_store l);
      l ← insert_input_row input (l <| lg_store := s |>);
      l ← insert_outbox_row event l;
      when! is_some (lg_redrives l !! rd_id rd) return! Err (constraint_violation "redrives");;
      let dead := dead <| dd_status := Redriven |>
                       <| dd_redrive_count ::= λ n, Z.min (n + 1) u32_max |>
                       <| dd_redriven_at := Some now |> in
      Ok (tt, l <| lg_redrives ::= <[rd_id rd := rd]> |>
                <| lg_dead ::= <[dd_id dead := dead]> |>)
  end.

(** ** Collecting objects *)

(** An open dead letter keeps the input of its invocation for a redrive. *)
Definition has_open_dead_letter (id : InvocationId) (l : Ledger) : bool :=
  any_value (λ d, (dd_status d == Open) && (dd_invocation_id d == Some id)) (lg_dead l).

(** [crates/application/src/repository/sqlite/objects.rs:86-143 claim_for_collection] *)
Definition claim_object (object : ObjectRef) (reason : CollectReason) (now : Timestamp)
    : tx CollectDecision.t := λ l,
  let s := lg_store l in
  when! is_some (st_object_tombstones s !! obj_id object) return! Ok (CollectDecision.Collect, l);;
  let refs := elements (ObjectRepo.refs_of (obj_id object) s) in
  let live := length (List.filter (λ id, ObjectRepo.is_live_ref s id || has_open_dead_letter id l)
                        refs) in
  when! bool_decide (0 < live)%nat return! Ok (CollectDecision.InUse live, l);;
  when! (reason == Orphan) && bool_decide (refs ≠ []) return! Ok (CollectDecision.Referenced, l);;
  Ok (CollectDecision.Collect,
      l <| lg_store ::= λ s,
             s <| st_object_tombstones ::= <[obj_id object := (reason, now)]> |> |>).
