(* ===== verification/LedgerInv.v ===== *)
(** * The durable ledger: what every transaction preserves

    The specifications of the transactions of [Outbox] and [Dispatch], the invariant
    of the tables they write together, and the ledgers a sequence of transactions
    reaches. *)

From S2P Require Import Prelude Ids Functions Invocation Guard Store StoreInv Scenario Retry.
From S2P Require Import Outbox Dispatch.

Open Scope string_scope.
Open Scope Z_scope.

(** ** Commands *)

(** One transaction, with its arguments. *)
Inductive lcmd : Type :=
| LAccept (inv : Invocation) (input : AsyncInput) (event : OutboxEvent) (backlog : BacklogLimits)
    (before_commit : bool)
| LClaimOutbox (owner : string) (now : Timestamp) (ttl : Duration) (max : nat)
| LMark (event : InvocationId) (owner : string) (sequence : Z) (now : Timestamp)
| LRetry (event : InvocationId) (owner : string) (next : Timestamp) (error : string)
| LPurge (before : Timestamp)
| LUpdate (inv : Invocation)
| LClaim (req : ClaimRequest)
| LRenew (id : InvocationId) (owner : string) (attempts : Z) (now : Timestamp) (ttl : Duration)
| LSettle (settle : DispatchSettle)
| LPoison (d : DeadLetter)
| LRedrive (w : RedriveWrite)
| LCollect (object : ObjectRef) (reason : CollectReason) (now : Timestamp).

(** The ledger after a transaction: unchanged when it failed. *)
Definition after {A} (t : tx A) (l : Ledger) : Ledger :=
  match t l with Ok (_, l') => l' | Err _ => l end.

Definition run_lcmd (cfg : StoreConfig) (c : lcmd) (l : Ledger) : Ledger :=
  match c with
  | LAccept inv input event backlog b => after (accept_async cfg inv input event backlog b) l
  | LClaimOutbox owner now ttl max => after (claim_outbox owner now ttl max) l
  | LMark event owner seq now => after (mark_outbox_sent cfg event owner seq now) l
  | LRetry event owner next error => after (retry_outbox event owner next error) l
  | LPurge before => after (purge_sent_outbox before) l
  | LUpdate inv => after (update_invocation cfg inv) l
  | LClaim req => after (claim_dispatch req) l
  | LRenew id owner attempts now ttl => after (renew_dispatch_claim id owner attempts now ttl) l
  | LSettle settle => after (settle_dispatch cfg settle) l
  | LPoison d => after (record_poison d) l
  | LRedrive w => after (redrive cfg w) l
  | LCollect object reason now => after (claim_object object reason now) l
  end.

(** What the services pass: the first event of an invocation has generation 0, a
    settle never leaves a run claimed and writes a dead letter exactly when it is
    dead, a new dead letter is open, a redrive's audit record names its dead letter. *)
Definition lcmd_ok (c : lcmd) : Prop :=
  match c with
  | LAccept _ _ event _ _ => ob_generation event = 0
  | LSettle s =>
      sl_state s ≠ DispatchState.Running ∧
      (sl_state s = DispatchState.Dead ↔ sl_dead_letter s ≠ None) ∧
      (∀ d, sl_dead_letter s = Some d → dd_status d = Open)
  | LPoison d => dd_status d = Open
  | LRedrive w => ob_generation (rw_event w) = 0 ∧ rd_dead_letter_id (rw_redrive w) = rw_dead_letter_id w
  | _ => True
  end.

(** ** Tables *)

Abbreviation invs l := (st_invocations (lg_store l)).

(** The delivery generation an invocation is at. *)
Definition generation (l : Ledger) (id : InvocationId) : Z :=
  default 0 (dr_generation <$> lg_dispatch l !! id).

(** A run holds its claim, anything else holds none. *)
Definition claim_shape (r : DispatchRecord) : Prop :=
  match dr_state r with
  | DispatchState.Running => dr_claimed_by r ≠ None ∧ dr_claim_expires_at r ≠ None
  | _ => dr_claimed_by r = None ∧ dr_claim_expires_at r = None
  end.

Definition settled_state (s : DispatchState.t) : bool :=
  match s with DispatchState.Done | DispatchState.Dead => true | _ => false end.

Record record_wf (l : Ledger) (id : InvocationId) (r : DispatchRecord) : Prop := {
  rw_id : dr_invocation_id r = id;
  rw_generation : 0 ≤ dr_generation r;
  rw_attempts : 0 ≤ dr_attempts r ≤ u32_max;
  rw_claim : claim_shape r;
  rw_row : is_Some (invs l !! id);
  rw_settled : ∀ inv, invs l !! id = Some inv → settled_state (dr_state r) = true →
    InvocationStatus.is_terminal (inv_status inv) = true
}.

(** The dead letter [d] is the one of invocation [id]. *)
Definition dead_of (id : InvocationId) (d : DeadLetter) : Prop := dd_invocation_id d = Some id.

Record ledger_wf (l : Ledger) : Prop := {
  wf_invocations : keyed inv_id (invs l);
  wf_dispatch : ∀ id r, lg_dispatch l !! id = Some r → record_wf l id r;
  wf_outbox : ∀ id e, lg_outbox l !! id = Some e →
    ob_event_id e = id ∧ ob_generation e = generation l id ∧ is_Some (invs l !! id);
  wf_inputs : ∀ id i, lg_inputs l !! id = Some i → is_Some (invs l !! id);
  wf_dead_keyed : keyed dd_id (lg_dead l);
  wf_dead_once : ∀ k k' d d', lg_dead l !! k = Some d → lg_dead l !! k' = Some d' →
    origin_key d = origin_key d' → k = k';
  wf_dead_row : ∀ k d id, lg_dead l !! k = Some d → dead_of id d →
    ∃ r, lg_dispatch l !! id = Some r ∧ dr_state r = DispatchState.Dead;
  wf_dead_letter : ∀ id r, lg_dispatch l !! id = Some r → dr_state r = DispatchState.Dead →
    ∃ k d, lg_dead l !! k = Some d ∧ dead_of id d;
  wf_redriven : ∀ k r, lg_redrives l !! k = Some r →
    ∃ d, lg_dead l !! rd_dead_letter_id r = Some d ∧ dd_status d = Redriven;
  wf_redriven_once : ∀ k k' r r', lg_redrives l !! k = Some r → lg_redrives l !! k' = Some r' →
    rd_dead_letter_id r = rd_dead_letter_id r' → k = k'
}.

Lemma empty_ledger_wf : ledger_wf empty_ledger.
Proof. split; intros *; cbn; rewrite ?lookup_empty; done. Qed.

(** ** What the transactions write *)

Lemma after_Ok {A} (t : tx A) l : after t l = l ∨ ∃ a, t l = Ok (a, after t l).
Proof. unfold after. destruct (t l) as [[a l']|]; eauto. Qed.

Lemma update_invocation_row_Ok cfg inv s s' :
  update_invocation_row cfg inv s = Ok s' →
  ∃ old, st_invocations s !! inv_id inv = Some old ∧
    InvocationStatus.is_terminal (inv_status old) = false ∧
    st_invocations s' = <[inv_id inv := inv]> (st_invocations s).
Proof.
  unfold update_invocation_row, refuse. destruct (_ !! _) as [old|] eqn:Hold; [|done].
  destruct (InvocationStatus.is_terminal _) eqn:Ht; [done|]. intros. steps.
  exists old. split_and!; [done|done|]. by rewrite (proj2 (proj2 (proj2 (proj2 (set_binding_expiry_frame _ _ _))))).
Qed.

Lemma insert_invocation_checked_Ok cfg inv s s' :
  insert_invocation_checked cfg inv s = Ok s' →
  st_invocations s !! inv_id inv = None ∧
  st_invocations s' = <[inv_id inv := inv]> (st_invocations s).
Proof.
  unfold insert_invocation_checked. intros H. pass H. steps. bools. done.
Qed.

Lemma bind_idempotency_frame cfg inv s :
  st_invocations (bind_idempotency cfg inv s) = st_invocations s.
Proof. unfold bind_idempotency. by destruct (IdempotencyRepo.key_of inv). Qed.

Lemma attach_in_frame object id s s' :
  attach_in object id s = Ok s' → st_invocations s' = st_invocations s.
Proof.
  unfold attach_in, refuse. destruct (_ !! _); [|done]. intros H. pass H.
  destruct (st_object_tombstones s !! _) as [[]|]; [done|]. by steps.
Qed.

Lemma insert_input_row_Ok input l l' :
  insert_input_row input l = Ok l' →
  lg_inputs l !! in_invocation_id input = None ∧
  invs l' = invs l ∧ lg_inputs l' = <[in_invocation_id input := input]> (lg_inputs l) ∧
  lg_outbox l' = lg_outbox l ∧ lg_dispatch l' = lg_dispatch l ∧ lg_dead l' = lg_dead l ∧
  lg_redrives l' = lg_redrives l.
Proof.
  unfold insert_input_row. intros H. steps. pass Hk0. steps. bools.
  split_and!; try done. cbn. destruct (in_body input); steps; [done|].
  by eapply attach_in_frame.
Qed.

Lemma insert_outbox_row_Ok event l l' :
  insert_outbox_row event l = Ok l' →
  lg_outbox l !! ob_event_id event = None ∧
  l' = l <| lg_outbox ::= <[ob_event_id event := new_row event]> |>.
Proof. unfold insert_outbox_row. intros H. steps. pass Hk. steps. bools. done. Qed.

Lemma insert_dead_letter_Ok d l b l' :
  insert_dead_letter d l = Ok (b, l') →
  (b = false ∧ l' = l ∧ ∃ k e, lg_dead l !! k = Some e ∧ origin_key e = origin_key d) ∨
  (b = true ∧ l' = l <| lg_dead ::= <[dd_id d := d]> |> ∧ lg_dead l !! dd_id d = None ∧
   ∀ k e, lg_dead l !! k = Some e → origin_key e ≠ origin_key d).
Proof.
  unfold insert_dead_letter. destruct (any_value _ _) eqn:Ha.
  - intros [= <- <-]. left. apply any_value_true in Ha as (k & e & Hk & He).
    apply bool_decide_eq_true in He. split_and!; eauto.
  - intros H. pass H. steps. bools. right. split_and!; try done. intros k e Hk Heq.
    apply not_true_iff_false in Ha. apply Ha, any_value_true. exists k, e. split; [done|].
    by apply bool_decide_eq_true.
Qed.

(** A new invocation with its input and its first event. *)
Record accepted (inv : Invocation) (input : AsyncInput) (event : OutboxEvent) (l l' : Ledger)
    : Prop := {
  ac_fresh : invs l !! inv_id inv = None;
  ac_invs : invs l' = <[inv_id inv := inv]> (invs l);
  ac_input_fresh : lg_inputs l !! inv_id inv = None;
  ac_inputs : lg_inputs l' = <[inv_id inv := input]> (lg_inputs l);
  ac_event_fresh : lg_outbox l !! inv_id inv = None;
  ac_outbox : lg_outbox l' = <[inv_id inv := new_row event]> (lg_outbox l);
  ac_event_id : ob_event_id event = inv_id inv;
  ac_dispatch : lg_dispatch l' = lg_dispatch l
}.

Lemma accept_in_Ok cfg inv input event backlog l out l' :
  check_accept inv input event = Ok tt →
  accept_in cfg inv input event backlog l = Ok (out, l') →
  l' = l ∧ out ≠ AsyncAcceptOutcome.Accepted ∨
  out = AsyncAcceptOutcome.Accepted ∧ exceeds backlog (inv_accepted_at inv) (stats_in l) = false ∧
  accepted inv input event l l' ∧ lg_dead l' = lg_dead l ∧ lg_redrives l' = lg_redrives l.
Proof.
  unfold accept_in. intros Hcheck H. destruct (k ← _; _) as [e|].
  { steps. by left. }
  destruct (exceeds _ _ _) eqn:Hex; [steps; by left|]. steps.
  apply insert_invocation_checked_Ok in Hm as [Hf Hi].
  apply insert_input_row_Ok in Hm0 as (Hif & Hii & Hin & Hob & Hd & Hde & Hr).
  apply insert_outbox_row_Ok in Hm1 as [Hof ->]. cbn in *.
  unfold check_accept in Hcheck. pass Hcheck. bools.
  rewrite bind_idempotency_frame in Hii. rewrite Hob in Hof.
  right. split_and!; try done. split; cbn; try congruence.
  all: rewrite ?Hii, ?Hin, ?Hob; congruence.
Qed.

Lemma accept_async_Ok cfg inv input event backlog b l out l' :
  accept_async cfg inv input event backlog b l = Ok (out, l') →
  l' = l ∧ out ≠ AsyncAcceptOutcome.Accepted ∨
  out = AsyncAcceptOutcome.Accepted ∧ b = false ∧ exceeds backlog (inv_accepted_at inv) (stats_in l) = false ∧
  check_accept inv input event = Ok tt ∧ accepted inv input event l l' ∧
  lg_dead l' = lg_dead l ∧ lg_redrives l' = lg_redrives l.
Proof.
  unfold accept_async. intros H. steps. destruct a, a0 as [o l2].
  destruct (accept_in_Ok _ _ _ _ _ _ _ _ Hm Hm0) as [[-> Hne]|(-> & ? & ? & ? & ?)].
  - left. destruct o; try done; steps; done.
  - right. destruct b; [done|]. by steps.
Qed.

(** Every row left of the outbox was there, with its event and generation. *)
Definition outbox_shrinks (l l' : Ledger) : Prop :=
  ∀ id e', lg_outbox l' !! id = Some e' →
    ∃ e, lg_outbox l !! id = Some e ∧ ob_event_id e' = ob_event_id e ∧
         ob_generation e' = ob_generation e.

#[global] Instance outbox_shrinks_preorder : PreOrder outbox_shrinks.
Proof.
  split.
  - intros l id e He. eauto.
  - intros l1 l2 l3 H12 H23 id e He. destruct (H23 id e He) as (e2 & He2 & ? & ?).
    destruct (H12 id e2 He2) as (e1 & He1 & ? & ?). exists e1. split_and!; congruence.
Qed.

(** A transaction that touches no claim, no dead letter and no new invocation. *)
Record quiet (l l' : Ledger) : Prop := {
  qu_rows : rows_le inv_row_le (invs l) (invs l');
  qu_keyed : keyed inv_id (invs l) → keyed inv_id (invs l');
  qu_inputs : lg_inputs l' = lg_inputs l;
  qu_outbox : outbox_shrinks l l';
  qu_dispatch : lg_dispatch l' = lg_dispatch l;
  qu_dead : lg_dead l' = lg_dead l;
  qu_redrives : lg_redrives l' = lg_redrives l
}.

Lemma ledger_quiet_refl l : quiet l l.
Proof. split; try reflexivity. auto. Qed.

Lemma shrinks_insert l id e e' :
  lg_outbox l !! id = Some e → ob_event_id e' = ob_event_id e → ob_generation e' = ob_generation e →
  outbox_shrinks l (l <| lg_outbox ::= <[id := e']> |>).
Proof.
  intros He Hi Hg j x Hx. cbn in Hx. destruct (decide (j = id)) as [->|Hne].
  - rewrite lookup_insert_eq in Hx. simplify_eq. eauto.
  - rewrite lookup_insert_ne in Hx by done. eauto.
Qed.

Lemma quiet_outbox l l' :
  l' = l <| lg_outbox := lg_outbox l' |> → outbox_shrinks l l' → quiet l l'.
Proof. intros E Hs. split; [| | |exact Hs| | |]; rewrite E; try reflexivity. auto. Qed.

Lemma quiet_row cfg inv old s' l l' w :
  invs l !! inv_id inv = Some old → inv_row_le old inv →
  update_invocation_row cfg inv (lg_store l) = Ok s' →
  l' = l <| lg_store := s' |> <| lg_outbox := w |> → outbox_shrinks l l' → quiet l l'.
Proof.
  intros Hold Hle (o & Ho & _ & Hs)%update_invocation_row_Ok E Hsh.
  assert (invs l' = <[inv_id inv := inv]> (invs l)) as Hi by (rewrite E; exact Hs).
  split; [| | |exact Hsh| | |]; try by rewrite E.
  { rewrite Hi. eauto with tsls typeclass_instances. }
  intros Hk. rewrite Hi. by apply keyed_insert.
Qed.

Lemma quiet_store cfg inv old s' l :
  invs l !! inv_id inv = Some old → inv_row_le old inv →
  update_invocation_row cfg inv (lg_store l) = Ok s' → quiet l (l <| lg_store := s' |>).
Proof.
  intros Hold Hle Hs. eapply (quiet_row cfg inv old s' l _ (lg_outbox l)); eauto.
  intros id e He. eauto.
Qed.

Lemma update_invocation_quiet cfg inv l u l' :
  update_invocation cfg inv l = Ok (u, l') → quiet l l'.
Proof.
  unfold update_invocation. destruct (_ !! _) as [old|] eqn:Hold; [|done]. intros H. steps.
  destruct (_ != _); steps; [apply ledger_quiet_refl|].
  eapply quiet_store; [exact Hold | by eapply inv_update_row_le | done].
Qed.

Lemma claim_rows_store owner now expires ids l out l' :
  claim_rows owner now expires ids l = (out, l') → lg_store l' = lg_store l.
Proof.
  revert l out. induction ids as [|id ids IH]; intros l out; cbn; [by intros [= _ <-]|].
  destruct (lg_outbox l !! id) as [e|]; [|apply IH]. destruct (unclaimed_at now e); [|apply IH].
  cbn. destruct (claim_rows _ _ _ _ _) as [out2 l2] eqn:H2. intros [= _ <-].
  by rewrite (IH _ _ H2).
Qed.

Lemma claim_rows_quiet owner now expires ids : ∀ l out l',
  claim_rows owner now expires ids l = (out, l') → quiet l l'.
Proof.
  intros l out l' H. apply quiet_outbox; revert l out l' H.
  - induction ids as [|id ids IH]; intros l out l'; cbn; [intros [= _ <-]; by destruct l|].
    destruct (lg_outbox l !! id) as [e|]; [|apply IH]. destruct (unclaimed_at now e); [|apply IH].
    cbn. destruct (claim_rows _ _ _ _ _) as [out2 l2] eqn:H2. intros [= _ <-].
    by rewrite (IH _ _ _ H2).
  - induction ids as [|id ids IH]; intros l out l'; cbn; [by intros [= _ <-]|].
    destruct (lg_outbox l !! id) as [e|] eqn:He; [|apply IH].
    destruct (unclaimed_at now e); [|apply IH]. cbn.
    destruct (claim_rows _ _ _ _ _) as [out2 l2] eqn:H2. intros [= _ <-].
    etrans; [|by apply (IH _ _ _ H2)]. by eapply shrinks_insert.
Qed.

Lemma claim_outbox_quiet owner now ttl max l out l' :
  claim_outbox owner now ttl max l = Ok (out, l') → quiet l l'.
Proof.
  unfold claim_outbox. destruct (_ || _); intros [= H]; [subst; apply ledger_quiet_refl|].
  by eapply claim_rows_quiet.
Qed.

Lemma mark_queued_row_le inv inv' : Inv.mark_queued inv = Ok inv' → inv_row_le inv inv'.
Proof.
  unfold Inv.mark_queued, Inv.ensure_not_terminal. destruct (InvocationStatus.is_terminal _) eqn:Ht; [done|].
  cbn. destruct (inv_status inv) eqn:Hs; try done. intros [= <-]. split; [done|]. by rewrite Hs.
Qed.

Lemma mark_queued_id inv inv' : Inv.mark_queued inv = Ok inv' → inv_id inv' = inv_id inv.
Proof. intros H%mark_queued_row_le. apply irl_identity in H. congruence. Qed.

Lemma mark_outbox_sent_quiet cfg event owner seq now l b l' :
  ledger_wf l → mark_outbox_sent cfg event owner seq now l = Ok (b, l') → quiet l l'.
Proof.
  intros Hwf. unfold mark_outbox_sent. intros H. steps. destruct (_ !! _) as [e|] eqn:He; [|steps; apply ledger_quiet_refl].
  destruct (held_by owner e); cbn in Hk; [|steps; apply ledger_quiet_refl].
  set (e' := sent_row now seq e) in Hk.
  assert (outbox_shrinks l (l <| lg_outbox ::= <[event:=e']> |>)) as Hsh by by eapply shrinks_insert.
  destruct (st_invocations _ !! event) as [inv|] eqn:Hi.
  2: { steps. by apply quiet_outbox. }
  destruct (_ != _); [steps; by apply quiet_outbox|].
  destruct (Inv.mark_queued inv) as [inv'|] eqn:Hq; [|steps; by apply quiet_outbox]. steps.
  assert (inv_id inv' = event) as Hid.
  { rewrite (mark_queued_id _ _ Hq). by apply (wf_invocations l Hwf). }
  eapply (quiet_row cfg inv' inv a0 l _ (<[event:=e']> (lg_outbox l))); try done.
  - by rewrite Hid.
  - by apply mark_queued_row_le.
Qed.

Lemma retry_outbox_quiet event owner next error l b l' :
  retry_outbox event owner next error l = Ok (b, l') → quiet l l'.
Proof.
  unfold retry_outbox. destruct (_ !! _) as [e|] eqn:He; [|intros; steps; apply ledger_quiet_refl].
  destruct (held_by owner e); cbn; intros; steps; [|apply ledger_quiet_refl].
  apply quiet_outbox; [done|]. by eapply shrinks_insert.
Qed.

Lemma purge_sent_outbox_quiet before l n l' :
  purge_sent_outbox before l = Ok (n, l') → quiet l l'.
Proof.
  unfold purge_sent_outbox. intros. steps. apply quiet_outbox; [done|].
  intros id e [He _]%map_lookup_filter_Some. eauto.
Qed.

Lemma claim_object_quiet object reason now l d l' :
  claim_object object reason now l = Ok (d, l') → quiet l l'.
Proof.
  unfold claim_object. intros H.
  repeat match type of H with (if ?b then _ else _) = _ => destruct b end; steps;
    try apply ledger_quiet_refl.
  split; try reflexivity; [auto|]. intros id e He. eauto.
Qed.

Lemma write_record_Ok r l l' :
  write_record r l = Ok l' → l' = l <| lg_dispatch ::= <[dr_invocation_id r := r]> |>.
Proof. unfold write_record. intros H. by steps. Qed.

(** Claiming: the row of the invocation becomes a running one. *)
Lemma claim_dispatch_Ok req l out l' :
  claim_dispatch req l = Ok (out, l') →
  (l' = l ∧ ∀ i r, out ≠ ClaimOutcome.Claimed i r) ∨
  ∃ inv r, invs l !! cl_invocation_id req = Some inv ∧
    r = unwrap_or (get_record (cl_invocation_id req) l) (Rec.unclaimed inv) ∧
    out = ClaimOutcome.Claimed inv (claimed_record req r) ∧
    InvocationStatus.is_terminal (inv_status inv) = false ∧
    is_async_with_input inv l = true ∧ cl_generation req = dr_generation r ∧
    Rec.claim_live (cl_now req) r = false ∧
    ((dr_state r == DispatchState.Scheduled)
     && is_some_and (dr_next_attempt_at r) (λ t, cl_now req <? t)) = false ∧
    l' = l <| lg_dispatch ::= <[dr_invocation_id r := claimed_record req r]> |>.
Proof.
  unfold claim_dispatch. destruct (st_invocations _ !! _) as [inv|] eqn:Hi; [|done]. cbv zeta.
  remember (unwrap_or _ _) as r eqn:Er.
  destruct (InvocationStatus.is_terminal _) eqn:Ht; [intros [= <- <-]; by left|].
  destruct (is_async_with_input inv l) eqn:Ha; [cbn [negb]|done].
  destruct (_ != _) eqn:Hg; [intros [= <- <-]; by left|].
  destruct (Rec.claim_live _ _) eqn:Hl; [intros [= <- <-]; by left|].
  destruct (_ && _) eqn:Hd; [intros [= <- <-]; by left|].
  intros H. apply result_bind_Ok in H as (l1 & Hw & [= <- <-]).
  apply write_record_Ok in Hw as ->.
  apply negb_false_iff, bool_decide_eq_true in Hg.
  right. exists inv, r. split_and!; first [assumption | reflexivity].
Qed.

Lemma renew_dispatch_claim_Ok id owner attempts now ttl l b l' :
  renew_dispatch_claim id owner attempts now ttl l = Ok (b, l') →
  (b = false ∧ l' = l) ∨
  ∃ r, lg_dispatch l !! id = Some r ∧ b = true ∧
    dr_state r = DispatchState.Running ∧ dr_claimed_by r = Some owner ∧ dr_attempts r = attempts ∧
    l' = l <| lg_dispatch ::= <[id := r <| dr_claim_expires_at := Some (now + ttl) |>
                                        <| dr_updated_at := now |>]> |>.
Proof.
  unfold renew_dispatch_claim, get_record.
  destruct (lg_dispatch l !! id) as [r|]; [|intros [= <- <-]; by left].
  destruct (_ && _) eqn:Hc; cbn [negb]; [|intros [= <- <-]; by left].
  intros [= <- <-]. bools. right. exists r. by split_and!.
Qed.

(** The row a committed settle writes. *)
Definition final_record (settle : DispatchSettle) (r : DispatchRecord) : DispatchRecord :=
  match sl_republish settle with
  | Some e => settled_record settle r <| dr_generation := ob_generation e |>
  | None => settled_record settle r
  end.

Record settled (settle : DispatchSettle) (old : Invocation) (r : DispatchRecord) (l l' : Ledger)
    : Prop := {
  se_old : invs l !! inv_id (sl_invocation settle) = Some old;
  se_record : r = unwrap_or (get_record (inv_id (sl_invocation settle)) l) (Rec.unclaimed old);
  se_live : InvocationStatus.is_terminal (inv_status old) = false;
  se_fence : fence_holds (sl_fence settle) (sl_now settle) r = true;
  se_terminal : InvocationStatus.is_terminal (inv_status (sl_invocation settle)) = false →
    sl_state settle = DispatchState.Scheduled;
  se_row : inv_row_le old (sl_invocation settle);
  se_invs : invs l' = <[inv_id (sl_invocation settle) := sl_invocation settle]> (invs l);
  se_inputs : lg_inputs l' = lg_inputs l;
  se_dispatch : lg_dispatch l' = <[dr_invocation_id r := final_record settle r]> (lg_dispatch l);
  se_event : ∀ e, sl_republish settle = Some e →
    ob_event_id e = inv_id (sl_invocation settle) ∧ ob_generation e = dr_generation r + 1;
  se_outbox : lg_outbox l' =
    match sl_republish settle with
    | Some e => <[inv_id (sl_invocation settle) := new_row e]>
                  (base.delete (inv_id (sl_invocation settle)) (lg_outbox l))
    | None => base.delete (inv_id (sl_invocation settle)) (lg_outbox l)
    end;
  se_dead : match sl_dead_letter settle with
    | None => lg_dead l' = lg_dead l
    | Some d =>
        dd_invocation_id d = Some (inv_id (sl_invocation settle)) ∧
        dd_tenant_id d = inv_tenant_id (sl_invocation settle) ∧
        (lg_dead l' = lg_dead l ∧
           (∃ k e, lg_dead l !! k = Some e ∧ origin_key e = origin_key d) ∨
         lg_dead l' = <[dd_id d := d]> (lg_dead l) ∧ lg_dead l !! dd_id d = None ∧
           ∀ k e, lg_dead l !! k = Some e → origin_key e ≠ origin_key d)
    end;
  se_redrives : lg_redrives l' = lg_redrives l
}.

Lemma settle_write_Ok cfg old inv w s s' :
  st_invocations s !! inv_id inv = Some old →
  invocation_update old inv (max_response_bytes (cfg_limits cfg)) = Ok w →
  (if w == Apply then update_invocation_row cfg inv s else Ok s) = Ok s' →
  st_invocations s' = <[inv_id inv := inv]> (st_invocations s).
Proof.
  intros Ho Hu. apply invocation_update_Ok in Hu. destruct_and! Hu.
  case_bool_decide as Hw; [by intros (? & _ & _ & ?)%update_invocation_row_Ok|].
  intros [= <-]. destruct_or!; destruct_and!; simplify_eq. by rewrite insert_id.
Qed.

Lemma republish_Ok settle r l r' l' :
  republish settle r l = Ok (r', l') →
  (∀ e, sl_republish settle = Some e →
    ob_event_id e = inv_id (sl_invocation settle) ∧ ob_generation e = dr_generation r + 1) ∧
  r' = match sl_republish settle with
       | Some e => r <| dr_generation := ob_generation e |> | None => r end ∧
  l' = match sl_republish settle with
       | Some e => l <| lg_outbox ::= <[inv_id (sl_invocation settle) := new_row e]> |>
       | None => l end.
Proof.
  unfold republish. destruct (sl_republish settle) as [e|]; [|by intros [= <- <-]].
  intros H. pass H. steps. apply insert_outbox_row_Ok in Hm as [_ ->]. bools.
  split_and!; [intros; simplify_eq; auto|done|congruence].
Qed.


Lemma settle_dead_letter_Ok settle l l' :
  settle_dead_letter settle l = Ok l' →
  l' = l <| lg_dead := lg_dead l' |> ∧
  match sl_dead_letter settle with
  | None => lg_dead l' = lg_dead l
  | Some d =>
      dd_invocation_id d = Some (inv_id (sl_invocation settle)) ∧
      dd_tenant_id d = inv_tenant_id (sl_invocation settle) ∧
      (lg_dead l' = lg_dead l ∧
         (∃ k e, lg_dead l !! k = Some e ∧ origin_key e = origin_key d) ∨
       lg_dead l' = <[dd_id d := d]> (lg_dead l) ∧ lg_dead l !! dd_id d = None ∧
         ∀ k e, lg_dead l !! k = Some e → origin_key e ≠ origin_key d)
  end.
Proof.
  unfold settle_dead_letter. destruct (sl_dead_letter settle) as [d|].
  - intros H. pass H. apply result_bind_Ok in H as ([b l1] & H & [= <-]). bools.
    apply insert_dead_letter_Ok in H as [(_ & -> & He)|(_ & -> & Hf & Hk)].
    + split; [by destruct l|]. split_and!; auto.
    + split; [done|]. split_and!; auto.
  - intros [= <-]. by destruct l.
Qed.

Lemma settle_dispatch_Ok cfg settle l out l' :
  settle_dispatch cfg settle l = Ok (out, l') →
  (l' = l ∧ ∃ why, out = SettleOutcome.Lost why) ∨
  out = SettleOutcome.Committed ∧ ∃ old r, settled settle old r l l'.
Proof.
  unfold settle_dispatch. destruct (st_invocations _ !! _) as [old|] eqn:Ho; [|done]. cbv zeta.
  remember (unwrap_or _ _) as r eqn:Er.
  destruct (InvocationStatus.is_terminal (inv_status old)) eqn:Ht; [intros [= <- <-]; left; eauto|].
  destruct (fence_holds _ _ _) eqn:Hf; cbn [negb]; [|intros [= <- <-]; left; eauto].
  destruct (_ && _) eqn:Hs; [done|]. intros H.
  apply result_bind_Ok in H as (w & Hu & H). apply result_bind_Ok in H as (s & Hw & H).
  apply result_bind_Ok in H as ([r2 l2] & Hr & H). apply result_bind_Ok in H as (l3 & Hd & H).
  apply result_bind_Ok in H as (l4 & Hl & [= <- <-]).
  pose proof (settle_write_Ok _ _ _ _ _ _ Ho Hu Hw) as Hi.
  apply republish_Ok in Hr as (He & Hr & Hl2). apply write_record_Ok in Hd.
  apply settle_dead_letter_Ok in Hl as [Hl Hdead].
  assert (dr_invocation_id r2 = dr_invocation_id r) as Hid.
  { rewrite Hr. by destruct (sl_republish settle). }
  assert (r2 = final_record settle r) as Hfin.
  { rewrite Hr. unfold final_record. by destruct (sl_republish settle). }
  right. split; [done|]. exists old, r.
  assert (lg_dead l3 = lg_dead l) as Hd3.
  { rewrite Hd, Hl2. by destruct (sl_republish settle). }
  rewrite Hd3 in Hdead.
  split; try done.
  - intros Hn. rewrite Hn in Hs. cbn in Hs. by bools.
  - by eapply inv_update_row_le.
  - rewrite Hl, Hd, Hl2. by destruct (sl_republish settle).
  - rewrite Hl, Hd, Hl2. by destruct (sl_republish settle).
  - rewrite Hl, Hd, Hl2, Hid, Hfin. by destruct (sl_republish settle).
  - rewrite Hl, Hd, Hl2. by destruct (sl_republish settle).
  - rewrite Hl, Hd, Hl2. by destruct (sl_republish settle).
Qed.

Lemma redrive_Ok cfg w l u l' :
  redrive cfg w l = Ok (u, l') →
  ∃ dead, lg_dead l !! rw_dead_letter_id w = Some dead ∧ dd_status dead = Open ∧
    inv_tenant_id (rw_invocation w) = dd_tenant_id dead ∧
    in_tenant_id (rw_input w) = dd_tenant_id dead ∧
    dd_function_id dead = Some (inv_function_id (rw_invocation w)) ∧
    dd_invocation_id dead = Some (rd_source_invocation_id (rw_redrive w)) ∧
    rd_invocation_id (rw_redrive w) = inv_id (rw_invocation w) ∧
    accepted (rw_invocation w) (rw_input w) (rw_event w) l l' ∧
    lg_redrives l !! rd_id (rw_redrive w) = None ∧
    lg_redrives l' = <[rd_id (rw_redrive w) := rw_redrive w]> (lg_redrives l) ∧
    lg_dead l' = <[dd_id dead := dead <| dd_status := Redriven |>
                         <| dd_redrive_count ::= λ n, Z.min (n + 1) u32_max |>
                         <| dd_redriven_at := Some (inv_accepted_at (rw_invocation w)) |>]>
                   (lg_dead l).
Proof.
  unfold redrive. destruct (_ !! _) as [dead|] eqn:Hd; [|done]. intros H. pass H. pass H.
  apply result_bind_Ok in H as (s & Hs & H). apply result_bind_Ok in H as (l2 & Hl2 & H).
  apply result_bind_Ok in H as (l3 & Hl3 & H). pass H. injection H as <- <-.
  apply insert_invocation_checked_Ok in Hs as [Hf Hi].
  apply insert_input_row_Ok in Hl2 as (Hif & Hii & Hin & Hob & Hdi & Hde & Hr).
  apply insert_outbox_row_Ok in Hl3 as [Hof ->]. cbn in *. bools.
  rewrite Hr in *. rewrite Hob in Hof.
  exists dead. split_and!; try done; [|congruence..]. split; cbn; try congruence.
Qed.

(** ** The invariant is preserved *)

Lemma record_wf_mono l l' id r :
  rows_le inv_row_le (invs l) (invs l') → record_wf l id r → record_wf l' id r.
Proof.
  intros Hle [Hid Hg Ha Hc [inv Hi] Hs]. destruct (Hle id inv Hi) as (inv' & Hi' & Hr).
  split; try done. intros j Hj Hst. simplify_eq.
  rewrite (irl_final _ _ Hr); eauto.
Qed.

Lemma row_is_Some l l' id :
  rows_le inv_row_le (invs l) (invs l') → is_Some (invs l !! id) → is_Some (invs l' !! id).
Proof. intros Hle [i Hi]. destruct (Hle id i Hi) as (i' & ? & _). eauto. Qed.

Lemma quiet_wf l l' : quiet l l' → ledger_wf l → ledger_wf l'.
Proof.
  intros [Hr Hk Hin Hout Hdis Hde Hrd] Hwf. split; rewrite ?Hin, ?Hdis, ?Hde, ?Hrd; try apply Hwf.
  - apply Hk, Hwf.
  - intros id r Hid. by eapply record_wf_mono, (wf_dispatch l Hwf).
  - intros id e' He'. destruct (Hout id e' He') as (e & He & -> & ->).
    destruct (wf_outbox l Hwf id e He) as (? & ? & ?). unfold generation. rewrite Hdis.
    split_and!; try done. by eapply row_is_Some.
  - intros id i Hi. eapply row_is_Some; [done|]. by eapply (wf_inputs l Hwf).
Qed.

(** A fresh invocation has no row of its own anywhere. *)
Lemma fresh_no_record l id : ledger_wf l → invs l !! id = None → lg_dispatch l !! id = None.
Proof.
  intros Hwf Hn. destruct (lg_dispatch l !! id) as [r|] eqn:Hr; [|done].
  destruct (rw_row _ _ _ (wf_dispatch l Hwf id r Hr)). congruence.
Qed.

Lemma accepted_rows inv input event l l' :
  accepted inv input event l l' → rows_le inv_row_le (invs l) (invs l').
Proof. intros []. rewrite ac_invs0. eauto with tsls typeclass_instances. Qed.

(** What an acceptance preserves, whatever it does to dead letters and redrives. *)
Lemma accepted_wf inv input event l l' :
  ledger_wf l → accepted inv input event l l' → ob_generation event = 0 →
  keyed inv_id (invs l') ∧
  (∀ id r, lg_dispatch l' !! id = Some r → record_wf l' id r) ∧
  (∀ id e, lg_outbox l' !! id = Some e →
     ob_event_id e = id ∧ ob_generation e = generation l' id ∧ is_Some (invs l' !! id)) ∧
  (∀ id i, lg_inputs l' !! id = Some i → is_Some (invs l' !! id)).
Proof.
  intros Hwf Hac Hg. pose proof (accepted_rows _ _ _ _ _ Hac) as Hle.
  destruct Hac as [Hf Hi Hif Hin Hof Hout Heid Hdis]. split_and!.
  - rewrite Hi. apply keyed_insert; [apply Hwf|done].
  - intros id r Hr. rewrite Hdis in Hr. by eapply record_wf_mono, (wf_dispatch l Hwf).
  - intros id e. unfold generation. rewrite Hout, Hdis. destruct (decide (id = inv_id inv)) as [->|Hne].
    + rewrite lookup_insert_eq. intros [= <-]. cbn. rewrite Heid, Hg, fresh_no_record by done.
      split_and!; try done. rewrite Hi, lookup_insert_eq. eauto.
    + rewrite lookup_insert_ne by done. intros He. destruct (wf_outbox l Hwf id e He) as (? & ? & ?).
      split_and!; try done. by eapply row_is_Some.
  - intros id i. rewrite Hin. destruct (decide (id = inv_id inv)) as [->|Hne].
    + intros _. rewrite Hi, lookup_insert_eq. eauto.
    + rewrite lookup_insert_ne by done. intros Hl. eapply row_is_Some; [done|].
      by eapply (wf_inputs l Hwf).
Qed.

Lemma accept_async_wf cfg inv input event backlog b l out l' :
  ledger_wf l → ob_generation event = 0 →
  accept_async cfg inv input event backlog b l = Ok (out, l') → ledger_wf l'.
Proof.
  intros Hwf Hg [[-> _]|(_ & _ & _ & _ & Hac & Hde & Hrd)]%accept_async_Ok; [done|].
  destruct (accepted_wf _ _ _ _ _ Hwf Hac Hg) as (? & ? & ? & ?).
  split; try done; rewrite ?Hde, ?Hrd, ?(ac_dispatch _ _ _ _ _ Hac); apply Hwf.
Qed.

Lemma record_or_unclaimed_wf l id inv :
  ledger_wf l → invs l !! id = Some inv → InvocationStatus.is_terminal (inv_status inv) = false →
  let r := unwrap_or (get_record id l) (Rec.unclaimed inv) in
  record_wf l id r ∧ dr_generation r = generation l id ∧ settled_state (dr_state r) = false.
Proof.
  intros Hwf Hi Ht r. subst r. unfold get_record, generation.
  destruct (lg_dispatch l !! id) as [r|] eqn:Hr; cbn.
  - pose proof (wf_dispatch l Hwf id r Hr) as Hw. split_and!; try done.
    apply not_true_iff_false. intros Hs. rewrite (rw_settled _ _ _ Hw inv Hi Hs) in Ht. done.
  - split_and!; try done. split; try done. by apply (wf_invocations l Hwf).
Qed.

(** A transaction that only writes the dispatch row of [id], at the same generation. *)
Lemma dispatch_wf l l' id r :
  ledger_wf l → l' = l <| lg_dispatch ::= <[id := r]> |> → record_wf l id r →
  dr_generation r = generation l id →
  (dr_state r = DispatchState.Dead ↔
     ∃ r0, lg_dispatch l !! id = Some r0 ∧ dr_state r0 = DispatchState.Dead) →
  ledger_wf l'.
Proof.
  intros Hwf -> Hr Hg Hd. split; cbn; try apply Hwf.
  - intros id' r'. destruct (decide (id' = id)) as [->|Hne].
    + rewrite lookup_insert_eq. intros [= <-]. eapply (record_wf_mono l); [reflexivity|done].
    + rewrite lookup_insert_ne by done. intros Hl.
      eapply (record_wf_mono l); [reflexivity|]. by apply (wf_dispatch l Hwf).
  - intros id' e He. destruct (wf_outbox l Hwf id' e He) as (? & Hge & ?).
    split_and!; try done. rewrite Hge. destruct (decide (id' = id)) as [->|Hne].
    + rewrite <-Hg. unfold generation. cbn. by rewrite lookup_insert_eq.
    + unfold generation. cbn. by rewrite lookup_insert_ne.
  - intros k d id' Hk Hof. destruct (wf_dead_row l Hwf k d id' Hk Hof) as (r' & Hr' & Hs).
    destruct (decide (id' = id)) as [->|Hne]; [|by rewrite lookup_insert_ne; eauto].
    rewrite lookup_insert_eq. exists r. split; [done|]. apply Hd. eauto.
  - intros id' r' Hr' Hs. destruct (decide (id' = id)) as [->|Hne].
    + rewrite lookup_insert_eq in Hr'. simplify_eq. apply Hd in Hs as (r0 & Hr0 & Hs).
      by eapply (wf_dead_letter l Hwf).
    + rewrite lookup_insert_ne in Hr' by done. by eapply (wf_dead_letter l Hwf).
Qed.

(** A row that is not settled is not dead. *)
Lemma not_dead l id inv :
  ledger_wf l → invs l !! id = Some inv → InvocationStatus.is_terminal (inv_status inv) = false →
  ¬ ∃ r, lg_dispatch l !! id = Some r ∧ dr_state r = DispatchState.Dead.
Proof.
  intros Hwf Hi Ht (r & Hr & Hs). apply not_true_iff_false in Ht. apply Ht.
  apply (rw_settled _ _ _ (wf_dispatch l Hwf id r Hr) inv Hi). by rewrite Hs.
Qed.

Lemma claimed_record_wf req l id r : record_wf l id r → record_wf l id (claimed_record req r).
Proof.
  intros [? ? [? ?] ? ? ?]. split; try assumption; [|split; discriminate|discriminate].
  unfold claimed_record. cbn [dr_attempts set_field]. unfold u32_max in *. lia.
Qed.

Lemma claim_wf req l out l' :
  ledger_wf l → claim_dispatch req l = Ok (out, l') → ledger_wf l'.
Proof.
  intros Hwf [[-> _]|(inv & r & Hi & Er & _ & Ht & _ & _ & _ & _ & ->)]%claim_dispatch_Ok; [done|].
  destruct (record_or_unclaimed_wf l _ inv Hwf Hi Ht) as (Hr & Hg & _). rewrite <-Er in Hr, Hg.
  rewrite (rw_id _ _ _ Hr).
  apply (dispatch_wf l _ (cl_invocation_id req) (claimed_record req r)); try assumption.
  - reflexivity.
  - by apply claimed_record_wf.
  - split; [discriminate|]. intros Hd. by destruct (not_dead l _ inv Hwf Hi Ht).
Qed.

Lemma renew_wf id owner attempts now ttl l b l' :
  ledger_wf l → renew_dispatch_claim id owner attempts now ttl l = Ok (b, l') → ledger_wf l'.
Proof.
  intros Hwf [[_ ->]|(r & Hr & _ & Hs & Hc & _ & ->)]%renew_dispatch_claim_Ok; [done|].
  pose proof (wf_dispatch l Hwf id r Hr) as [? ? ? Hsh ? ?].
  eapply (dispatch_wf l _ id); [done|done| | |].
  - split; try done. unfold claim_shape in *. cbn in *. rewrite Hs in *. by destruct Hsh.
  - unfold generation. by rewrite Hr.
  - cbn. rewrite Hs. split; [done|]. intros (? & ? & ?). congruence.
Qed.

(** What only depends on the rows of invocations. *)
Lemma same_rows_wf l l' :
  ledger_wf l → invs l' = invs l → lg_dispatch l' = lg_dispatch l → lg_outbox l' = lg_outbox l →
  lg_inputs l' = lg_inputs l →
  keyed inv_id (invs l') ∧
  (∀ id r, lg_dispatch l' !! id = Some r → record_wf l' id r) ∧
  (∀ id e, lg_outbox l' !! id = Some e →
     ob_event_id e = id ∧ ob_generation e = generation l' id ∧ is_Some (invs l' !! id)) ∧
  (∀ id i, lg_inputs l' !! id = Some i → is_Some (invs l' !! id)).
Proof.
  intros Hwf Hi Hd Ho Hin. unfold generation. rewrite Hi, Hd, Ho, Hin. split_and!; try apply Hwf.
  intros id r Hr. eapply (record_wf_mono l); [by rewrite Hi|]. by apply (wf_dispatch l Hwf).
Qed.

(** A fresh dead letter keeps the keys apart and the redriven ones where they are. *)
Lemma fresh_dead_letter l d :
  ledger_wf l → lg_dead l !! dd_id d = None →
  (∀ k e, lg_dead l !! k = Some e → origin_key e ≠ origin_key d) →
  let dead := <[dd_id d := d]> (lg_dead l) in
  keyed dd_id dead ∧
  (∀ k k' e e', dead !! k = Some e → dead !! k' = Some e' → origin_key e = origin_key e' → k = k') ∧
  (∀ k e, lg_dead l !! k = Some e → dead !! k = Some e).
Proof.
  intros Hwf Hf Hk dead. split_and!.
  - apply keyed_insert; [by apply wf_dead_keyed|done].
  - intros k k' e e'. unfold dead. rewrite !lookup_insert_Some.
    intros [[<- <-]|[? He]] [[<- <-]|[? He']] Heq; try done.
    + by destruct (Hk k' e').
    + by destruct (Hk k e).
    + by eapply (wf_dead_once l Hwf).
  - intros k e He. unfold dead. rewrite lookup_insert_ne; [done|]. intros Eq. rewrite <-Eq in He. congruence.
Qed.

Lemma record_poison_Ok d l b l' :
  record_poison d l = Ok (b, l') → dd_invocation_id d = None ∧ insert_dead_letter d l = Ok (b, l').
Proof. unfold record_poison. intros H. pass H. by bools. Qed.

Lemma poison_wf d l b l' :
  ledger_wf l → record_poison d l = Ok (b, l') → ledger_wf l'.
Proof.
  intros Hwf [Hn H]%record_poison_Ok.
  apply insert_dead_letter_Ok in H as [(_ & -> & _)|(_ & E & Hf & Hk)]; [done|].
  destruct (same_rows_wf l l' Hwf) as (? & ? & ? & ?); [by rewrite E..|].
  destruct (fresh_dead_letter l d Hwf Hf Hk) as (? & ? & Hold).
  split; try assumption; rewrite E; cbn [lg_dead lg_dispatch lg_redrives set_field]; try assumption.
  - intros k e id. rewrite lookup_insert_Some. intros [[<- <-]|[? He]] Hof.
    + unfold dead_of in Hof. congruence.
    + by eapply (wf_dead_row l Hwf).
  - intros id r Hr Hs. destruct (wf_dead_letter l Hwf id r Hr Hs) as (k & e & He & Hof). eauto.
  - intros k r Hr. destruct (wf_redriven l Hwf k r Hr) as (e & He & Hs). eauto.
  - apply (wf_redriven_once l Hwf).
Qed.

(** The origin keys of dead letters of invocations are those of their invocations. *)
Lemma origin_key_of id d e : dead_of id d → origin_key e = origin_key d → dead_of id e.
Proof.
  unfold origin_key, dead_of. intros ->. destruct (dd_invocation_id e) as [i|].
  - intros [= H]. by f_equal.
  - destruct (dd_message_id e); discriminate.
Qed.

Lemma final_record_keeps settle r :
  let r' := final_record settle r in
  dr_invocation_id r' = dr_invocation_id r ∧ dr_state r' = sl_state settle ∧
  dr_claimed_by r' = None ∧ dr_claim_expires_at r' = None ∧
  dr_next_attempt_at r' = sl_next_attempt_at settle ∧
  dr_attempts r' = (if negb (sl_counted settle) && from_claim (sl_fence settle)
                    then Z.max (dr_attempts r - 1) 0 else dr_attempts r) ∧
  dr_generation r' = match sl_republish settle with
                     | Some e => ob_generation e | None => dr_generation r end.
Proof. unfold final_record. by destruct (sl_republish settle). Qed.

Lemma final_record_wf settle old r l l' :
  ledger_wf l → settled settle old r l l' → sl_state settle ≠ DispatchState.Running →
  record_wf l' (inv_id (sl_invocation settle)) (final_record settle r) ∧
  dr_invocation_id r = inv_id (sl_invocation settle).
Proof.
  intros Hwf S Hrun.
  destruct (record_or_unclaimed_wf l _ old Hwf (se_old _ _ _ _ _ S) (se_live _ _ _ _ _ S))
    as (Hr & _ & _). rewrite <-(se_record _ _ _ _ _ S) in Hr.
  destruct (final_record_keeps settle r) as (Hid & Hst & Hc & He & _ & Ha & Hg).
  destruct Hr as [Hri Hrg Hra _ _ _]. split; [|done]. split.
  - congruence.
  - rewrite Hg. destruct (sl_republish settle) as [e|] eqn:Hev; [|done].
    destruct (se_event _ _ _ _ _ S e Hev). lia.
  - rewrite Ha. destruct (_ && _); lia.
  - unfold claim_shape. rewrite Hst, Hc, He. by destruct (sl_state settle).
  - rewrite (se_invs _ _ _ _ _ S), lookup_insert_eq. eauto.
  - intros i. rewrite (se_invs _ _ _ _ _ S), lookup_insert_eq, Hst. intros [= <-] Hss.
    apply not_false_iff_true. intros Ht. apply (se_terminal _ _ _ _ _ S) in Ht. by rewrite Ht in Hss.
Qed.

Lemma settled_rows settle old r l l' :
  settled settle old r l l' → rows_le inv_row_le (invs l) (invs l').
Proof.
  intros []. rewrite se_invs0. eauto with tsls typeclass_instances.
Qed.

(** The dead letter of a settle is the first of its invocation. *)
Lemma settle_dead_fresh settle old r l l' d :
  ledger_wf l → settled settle old r l l' → sl_dead_letter settle = Some d →
  dead_of (inv_id (sl_invocation settle)) d ∧ lg_dead l' = <[dd_id d := d]> (lg_dead l) ∧
  lg_dead l !! dd_id d = None ∧ ∀ k e, lg_dead l !! k = Some e → origin_key e ≠ origin_key d.
Proof.
  intros Hwf S Hd. pose proof (se_dead _ _ _ _ _ S) as H. rewrite Hd in H.
  destruct H as (Hof & _ & [[_ (k & e & Hk & He)]|(? & ? & ?)]); [|done].
  destruct (not_dead l _ old Hwf (se_old _ _ _ _ _ S) (se_live _ _ _ _ _ S)).
  eapply (wf_dead_row l Hwf k e); [done|]. by eapply origin_key_of.
Qed.

(** The letters after a settle, with the row it wrote. *)
Lemma settled_letters settle old r l l' :
  ledger_wf l → lcmd_ok (LSettle settle) → settled settle old r l l' →
  dr_invocation_id r = inv_id (sl_invocation settle) →
  keyed dd_id (lg_dead l') ∧
  (∀ k k' d d', lg_dead l' !! k = Some d → lg_dead l' !! k' = Some d' →
     origin_key d = origin_key d' → k = k') ∧
  (∀ k d id, lg_dead l' !! k = Some d → dead_of id d →
     ∃ r, lg_dispatch l' !! id = Some r ∧ dr_state r = DispatchState.Dead) ∧
  (∀ id r, lg_dispatch l' !! id = Some r → dr_state r = DispatchState.Dead →
     ∃ k d, lg_dead l' !! k = Some d ∧ dead_of id d) ∧
  (∀ k d, lg_dead l !! k = Some d → lg_dead l' !! k = Some d).
Proof.
  intros Hwf (_ & Hdead & _) S Hid.
  pose proof (not_dead l _ old Hwf (se_old _ _ _ _ _ S) (se_live _ _ _ _ _ S)) as Hnd.
  destruct (final_record_keeps settle r) as (_ & Hst & _).
  set (id := inv_id (sl_invocation settle)) in *.
  assert (Hdis : lg_dispatch l' = <[id := final_record settle r]> (lg_dispatch l))
    by (rewrite (se_dispatch _ _ _ _ _ S); by rewrite Hid).
  assert (Hrow : ∀ k d id', lg_dead l !! k = Some d → dead_of id' d →
    ∃ r, lg_dispatch l' !! id' = Some r ∧ dr_state r = DispatchState.Dead).
  { intros k d id' Hk Hof. destruct (wf_dead_row l Hwf k d id' Hk Hof) as (r' & Hr' & Hs).
    exists r'. rewrite Hdis, lookup_insert_ne; [done|]. intros <-. destruct Hnd. eauto. }
  destruct (sl_dead_letter settle) as [d|] eqn:Hd.
  - destruct (settle_dead_fresh settle old r l l' d Hwf S Hd) as (Hof & Hl & Hf & Hk).
    destruct (fresh_dead_letter l d Hwf Hf Hk) as (? & ? & Hold). rewrite Hl. fold id in Hof.
    split_and!; try assumption.
    + intros k e id'. rewrite lookup_insert_Some. intros [[<- <-]|[? He]] Hof'; [|by eapply Hrow].
      unfold dead_of in *. assert (id' = id) as -> by congruence.
      exists (final_record settle r). rewrite Hdis, lookup_insert_eq, Hst. split; [done|].
      by apply Hdead.
    + intros id' r'. rewrite Hdis, lookup_insert_Some. intros [[<- <-]|[? Hr]] Hs.
      * exists (dd_id d), d. by rewrite lookup_insert_eq.
      * destruct (wf_dead_letter l Hwf id' r' Hr Hs) as (k & e & He & Hof'). eauto.
  - pose proof (se_dead _ _ _ _ _ S) as Hl. rewrite Hd in Hl. rewrite Hl.
    split_and!; try (by apply Hwf); [done| |done].
    intros id' r'. rewrite Hdis, lookup_insert_Some. intros [[<- <-]|[? Hr]] Hs.
    + rewrite Hst in Hs. by apply Hdead in Hs.
    + by eapply (wf_dead_letter l Hwf).
Qed.

Lemma settled_wf settle old r l l' :
  ledger_wf l → lcmd_ok (LSettle settle) → settled settle old r l l' → ledger_wf l'.
Proof.
  intros Hwf Hok S. pose proof (settled_rows _ _ _ _ _ S) as Hle. pose proof Hok as (Hrun & _ & _).
  destruct (final_record_wf _ _ _ _ _ Hwf S Hrun) as [Hfin Hid].
  destruct (settled_letters _ _ _ _ _ Hwf Hok S Hid) as (? & ? & ? & ? & Hold).
  destruct (final_record_keeps settle r) as (_ & Hst & _ & _ & _ & _ & Hg).
  set (id := inv_id (sl_invocation settle)) in *.
  assert (Hdis : lg_dispatch l' = <[id := final_record settle r]> (lg_dispatch l))
    by (rewrite (se_dispatch _ _ _ _ _ S); by rewrite Hid).
  assert (Hother : ∀ id', id' ≠ id → lg_dispatch l' !! id' = lg_dispatch l !! id')
    by (intros; rewrite Hdis, lookup_insert_ne; done).
  split.
  - rewrite (se_invs _ _ _ _ _ S). apply keyed_insert; [apply Hwf|done].
  - intros id' r'. rewrite Hdis, lookup_insert_Some. intros [[<- <-]|[_ Hr]]; [done|].
    eapply record_wf_mono; [done|]. by apply (wf_dispatch l Hwf).
  - intros id' e. destruct (decide (id' = id)) as [->|Hne].
    + rewrite (se_outbox _ _ _ _ _ S). fold id. destruct (sl_republish settle) as [e0|] eqn:Hev;
        [|by rewrite lookup_delete_eq]. rewrite lookup_insert_eq. intros [= <-].
      destruct (se_event _ _ _ _ _ S e0 Hev) as [? ?]. unfold generation.
      rewrite Hdis, lookup_insert_eq. cbn. rewrite Hg. split_and!; try done. apply (rw_row _ _ _ Hfin).
    + intros He. assert (lg_outbox l !! id' = Some e) as He'.
      { rewrite (se_outbox _ _ _ _ _ S) in He. fold id in He.
        destruct (sl_republish settle); rewrite ?lookup_insert_ne, ?lookup_delete_ne in He by done; done. }
      destruct (wf_outbox l Hwf id' e He') as (? & Hge & ?). unfold generation in *.
      rewrite Hother by done. split_and!; try done. by eapply row_is_Some.
  - intros id' i. rewrite (se_inputs _ _ _ _ _ S). intros Hi. eapply row_is_Some; [done|].
    by eapply (wf_inputs l Hwf).
  - done.
  - done.
  - done.
  - done.
  - intros k r'. rewrite (se_redrives _ _ _ _ _ S). intros Hr'.
    destruct (wf_redriven l Hwf k r' Hr') as (d & Hk & ?). eauto.
  - rewrite (se_redrives _ _ _ _ _ S). apply Hwf.
Qed.

Lemma redrive_wf cfg w l u l' :
  ledger_wf l → lcmd_ok (LRedrive w) → redrive cfg w l = Ok (u, l') → ledger_wf l'.
Proof.
  intros Hwf [Hg Hid] (dead & Hd & Hopen & _ & _ & _ & _ & _ & Hac & Hrf & Hr & Hl)%redrive_Ok.
  destruct (accepted_wf _ _ _ _ _ Hwf Hac Hg) as (? & ? & ? & ?).
  pose proof (wf_dead_keyed l Hwf _ _ Hd) as Hk. rewrite Hk in Hl.
  set (dead' := dead <| dd_status := Redriven |> <| dd_redrive_count ::= _ |>
                  <| dd_redriven_at := _ |>) in Hl.
  assert (Hsame : ∀ k d, lg_dead l' !! k = Some d → ∃ d0, lg_dead l !! k = Some d0 ∧
    dd_id d0 = dd_id d ∧ dd_invocation_id d0 = dd_invocation_id d ∧ origin_key d0 = origin_key d).
  { intros k d. rewrite Hl, lookup_insert_Some. intros [[<- <-]|[_ Hd']]; eauto. }
  split; try assumption; rewrite ?(ac_dispatch _ _ _ _ _ Hac).
  - rewrite Hl. apply keyed_insert; [apply Hwf|done].
  - intros k k' d d' (d0 & Hd0 & _ & _ & E)%Hsame (d1 & Hd1 & _ & _ & E')%Hsame Heq.
    eapply (wf_dead_once l Hwf); [done..|congruence].
  - intros k d id (d0 & Hd0 & _ & E & _)%Hsame Hof. eapply (wf_dead_row l Hwf k d0); [done|].
    unfold dead_of in *. congruence.
  - intros id r Hr' Hs. destruct (wf_dead_letter l Hwf id r Hr' Hs) as (k & d & Hk' & Hof).
    rewrite Hl. destruct (decide (k = rw_dead_letter_id w)) as [->|Hne].
    + exists (rw_dead_letter_id w), dead'. rewrite lookup_insert_eq. simplify_eq. done.
    + exists k, d. by rewrite lookup_insert_ne.
  - intros k r. rewrite Hr, Hl, lookup_insert_Some. intros [[<- <-]|[_ Hr']].
    + exists dead'. rewrite Hid, lookup_insert_eq. done.
    + destruct (wf_redriven l Hwf k r Hr') as (d & Hd' & Hs).
      exists d. rewrite lookup_insert_ne; [done|]. intros E. rewrite <-E in Hd'. congruence.
  - assert (Hold : ∀ k r, lg_redrives l !! k = Some r → rd_dead_letter_id r ≠ rw_dead_letter_id w).
    { intros k r Hr' E. destruct (wf_redriven l Hwf k r Hr') as (d & Hd' & Hs). congruence. }
    intros k k' r r'. rewrite Hr, !lookup_insert_Some.
    intros [[<- <-]|[_ Ha]] [[<- <-]|[_ Hb]] Heq; try done.
    + destruct (Hold _ _ Hb). congruence.
    + destruct (Hold _ _ Ha). congruence.
    + by eapply (wf_redriven_once l Hwf).
Qed.

(** ** Runs of the ledger *)

Lemma settle_wf cfg settle l out l' :
  ledger_wf l → lcmd_ok (LSettle settle) → settle_dispatch cfg settle l = Ok (out, l') → ledger_wf l'.
Proof.
  intros Hwf Hok [[-> _]|(_ & old & r & S)]%settle_dispatch_Ok; [done|]. by eapply settled_wf.
Qed.

Lemma run_lcmd_wf cfg c l : ledger_wf l → lcmd_ok c → ledger_wf (run_lcmd cfg c l).
Proof.
  intros Hwf Hok.
  destruct c; cbn [run_lcmd];
    match goal with |- ledger_wf (after ?t l) => destruct (after_Ok t l) as [->|[a H]]; [done|] end;
    [by eapply accept_async_wf | | | | | | by eapply claim_wf | by eapply renew_wf | by eapply settle_wf
    | by eapply poison_wf | by eapply redrive_wf |]; eapply quiet_wf; eauto using
    claim_outbox_quiet, mark_outbox_sent_quiet, retry_outbox_quiet, purge_sent_outbox_quiet,
    update_invocation_quiet, claim_object_quiet.
Qed.

(** Every row only moves forward: an invocation keeps its identity, and a terminal one
    never changes. *)
Lemma run_lcmd_rows cfg c l :
  ledger_wf l → rows_le inv_row_le (invs l) (invs (run_lcmd cfg c l)).
Proof.
  intros Hwf.
  destruct c; cbn [run_lcmd];
    match goal with |- context [after ?t l] => destruct (after_Ok t l) as [->|[a H]]; [done|] end;
    try solve [apply qu_rows; eauto using
    claim_outbox_quiet, mark_outbox_sent_quiet, retry_outbox_quiet, purge_sent_outbox_quiet,
    update_invocation_quiet, claim_object_quiet].
  - apply accept_async_Ok in H as [[-> _]|(_ & _ & _ & _ & Hac & _)]; [done|].
    by eapply accepted_rows.
  - apply claim_dispatch_Ok in H as [[-> _]|(? & ? & _ & _ & _ & _ & _ & _ & _ & _ & ->)]; done.
  - apply renew_dispatch_claim_Ok in H as [[_ ->]|(? & _ & _ & _ & _ & _ & ->)]; done.
  - apply settle_dispatch_Ok in H as [[-> _]|(_ & ? & ? & S)]; [done|]. by eapply settled_rows.
  - apply record_poison_Ok in H as [_ H].
    by apply insert_dead_letter_Ok in H as [(_ & -> & _)|(_ & -> & _)].
  - apply redrive_Ok in H as (? & _ & _ & _ & _ & _ & _ & _ & Hac & _). by eapply accepted_rows.
Qed.

(** Runs of transactions, as the services make them. *)
Inductive ledger_run (cfg : StoreConfig) (l : Ledger) : Ledger → Prop :=
| run_here : ledger_run cfg l l
| run_step l' c : ledger_run cfg l l' → lcmd_ok c → ledger_run cfg l (run_lcmd cfg c l').

Lemma ledger_run_wf cfg l l' : ledger_wf l → ledger_run cfg l l' → ledger_wf l'.
Proof. intros Hwf. induction 1; [done|]. by apply run_lcmd_wf. Qed.

Lemma ledger_run_trans cfg l1 l2 l3 :
  ledger_run cfg l1 l2 → ledger_run cfg l2 l3 → ledger_run cfg l1 l3.
Proof. intros H12 H23. induction H23; [done|]. by apply run_step. Qed.

Lemma ledger_run_rows cfg l l' :
  ledger_wf l → ledger_run cfg l l' → rows_le inv_row_le (invs l) (invs l').
Proof.
  intros Hwf. induction 1 as [|l' c Hrun IH]; [reflexivity|].
  etrans; [exact IH|]. apply run_lcmd_rows. by eapply ledger_run_wf.
Qed.

(** ** A ledger with one accepted invocation *)

Definition input_a : AsyncInput := mkInput "inv_a" "tn_a" 3 "sha256:0" (InlineBody "{}").
Definition event_a : OutboxEvent := Event.new "inv_a" "tn_a" "invoke" "{}" 0.
Definition backlog_a : BacklogLimits := mkBacklog 10 1000.

Definition accept_a : lcmd := LAccept inv0 input_a event_a backlog_a false.
Definition ledger_a : Ledger := run_lcmd cfg0 accept_a empty_ledger.

Lemma ledger_a_run : ledger_run cfg0 empty_ledger ledger_a.
Proof. apply (run_step _ _ _ accept_a); [apply run_here|done]. Qed.
