(* ===== verification/AsyncWorld.v ===== *)
(** * Concurrent runs of the asynchronous dispatcher

    Many workers, in one process or in several, deliver, claim, run and settle over
    one ledger; each transaction is atomic and they interleave freely. A worker that
    dies in a run leaves its claim to expire. What a run is fenced by is its owner and
    the attempt its claim produced: the workers of one process share their owner, so
    the attempt is what keeps their runs apart, and an attempt given back by a deferral
    must not let an older run in. *)

From S2P Require Import Prelude Ids Functions Invocation Guard Store StoreInv Scenario Retry.
From S2P Require Import Outbox Dispatch LedgerInv.

Open Scope string_scope.
Open Scope Z_scope.

(** ** The world *)

(** A worker of the dispatcher [owner] and the run it holds: the invocation and the
    attempt its claim produced. *)
Record Worker := mkWorker { wk_owner : string; wk_run : option (InvocationId * Z) }.
#[global] Instance Worker_eta : Eta Worker := λ r, mkWorker (wk_owner r) (wk_run r).

Record World := mkWorld { wd_ledger : Ledger; wd_workers : gmap nat Worker }.
#[global] Instance World_eta : Eta World := λ r, mkWorld (wd_ledger r) (wd_workers r).

(** A transaction that is no run's: anything but a claim, its renewal and its settle. *)
Definition no_run (c : lcmd) : Prop :=
  match c with
  | LClaim _ | LRenew _ _ _ _ _ => False
  | LSettle s => ∃ g, sl_fence s = Fence.Unclaimed g
  | _ => True
  end.

(** The run a claim gives its worker. *)
Definition run_of (req : ClaimRequest) (out : ClaimOutcome.t) : option (InvocationId * Z) :=
  match out with
  | ClaimOutcome.Claimed _ r => Some (cl_invocation_id req, dr_attempts r)
  | _ => None
  end.

(** One step, and the worker that takes it. *)
Inductive wstep (cfg : StoreConfig) : option nat → World → World → Prop :=
| w_other c w :
    lcmd_ok c → no_run c → wstep cfg None w (w <| wd_ledger ::= run_lcmd cfg c |>)
| w_join k owner w :
    wd_workers w !! k = None →
    wstep cfg (Some k) w (w <| wd_workers ::= <[k := mkWorker owner None]> |>)
| w_claim k wk req out l' w :
    wd_workers w !! k = Some wk → wk_run wk = None → cl_owner req = wk_owner wk →
    claim_dispatch req (wd_ledger w) = Ok (out, l') →
    wstep cfg (Some k) w (mkWorld l' (<[k := mkWorker (wk_owner wk) (run_of req out)]> (wd_workers w)))
| w_renew k wk id a now ttl w :
    wd_workers w !! k = Some wk → wk_run wk = Some (id, a) →
    wstep cfg (Some k) w (w <| wd_ledger ::= run_lcmd cfg (LRenew id (wk_owner wk) a now ttl) |>)
| w_settle k wk id a settle w :
    wd_workers w !! k = Some wk → wk_run wk = Some (id, a) → lcmd_ok (LSettle settle) →
    sl_fence settle = Fence.Claim (wk_owner wk) a → inv_id (sl_invocation settle) = id →
    wstep cfg (Some k) w (mkWorld (run_lcmd cfg (LSettle settle) (wd_ledger w))
                            (<[k := mkWorker (wk_owner wk) None]> (wd_workers w)))
| w_crash k wk w :
    wd_workers w !! k = Some wk →
    wstep cfg (Some k) w (w <| wd_workers ::= <[k := mkWorker (wk_owner wk) None]> |>).

(** [n] steps, none of them taken by a worker of [except]. *)
Inductive wsteps (cfg : StoreConfig) (except : nat → Prop) : nat → World → World → Prop :=
| ws_refl w : wsteps cfg except 0 w w
| ws_step n w w' w'' who :
    wsteps cfg except n w w' → wstep cfg who w' w'' → (∀ k, who = Some k → ¬ except k) →
    wsteps cfg except (S n) w w''.

Definition empty_world : World := mkWorld empty_ledger ∅.

(** The worlds [n] steps reach. *)
Definition reach (cfg : StoreConfig) (n : nat) (w : World) : Prop :=
  wsteps cfg (λ _, False) n empty_world w.

(** Worker [k] runs attempt [a] of [id] for [owner]. *)
Definition holds (w : World) (k : nat) (owner : string) (id : InvocationId) (a : Z) : Prop :=
  wd_workers w !! k = Some (mkWorker owner (Some (id, a))).

(** The claim of the row is the run's. *)
Definition is_current (l : Ledger) (owner : string) (id : InvocationId) (a : Z) : Prop :=
  ∃ r, lg_dispatch l !! id = Some r ∧ dr_state r = DispatchState.Running ∧
       dr_claimed_by r = Some owner ∧ dr_attempts r = a.

(** ** Attempts *)

Definition attempts_at (l : Ledger) (id : InvocationId) : Z :=
  default 0 (dr_attempts <$> lg_dispatch l !! id).

Lemma record_attempts l id inv :
  dr_attempts (unwrap_or (get_record id l) (Rec.unclaimed inv)) = attempts_at l id.
Proof. unfold attempts_at, get_record. by destruct (lg_dispatch l !! id). Qed.

(** What transactions that are no run's leave of the attempts and of running rows. *)
Definition same_attempts (l l' : Ledger) : Prop :=
  (∀ id, attempts_at l' id = attempts_at l id) ∧
  (∀ owner id a, is_current l' owner id a → is_current l owner id a).

Lemma same_dispatch l l' : lg_dispatch l' = lg_dispatch l → same_attempts l l'.
Proof. unfold same_attempts, attempts_at, is_current. intros ->. split; auto. Qed.

Lemma same_insert l l' id r :
  lg_dispatch l' = <[id := r]> (lg_dispatch l) → dr_attempts r = attempts_at l id →
  (∀ owner a, dr_state r = DispatchState.Running → dr_claimed_by r = Some owner →
     dr_attempts r = a → is_current l owner id a) →
  same_attempts l l'.
Proof.
  intros Hl Ha Hc. unfold same_attempts, attempts_at in *. rewrite Hl. split.
  - intros id'. destruct (decide (id' = id)) as [->|Hne];
      [by rewrite lookup_insert_eq | by rewrite lookup_insert_ne].
  - intros owner id' a (r' & Hr' & Hs & Hb & Haa). rewrite Hl in Hr'.
    apply lookup_insert_Some in Hr' as [[<- <-]|[_ Hr']]; [by apply Hc|]. by exists r'.
Qed.

Lemma settled_id settle old r l l' :
  ledger_wf l → settled settle old r l l' → dr_invocation_id r = inv_id (sl_invocation settle).
Proof.
  intros Hwf S.
  destruct (record_or_unclaimed_wf l _ old Hwf (se_old _ _ _ _ _ S) (se_live _ _ _ _ _ S))
    as (Hr & _ & _). rewrite <-(se_record _ _ _ _ _ S) in Hr. apply (rw_id _ _ _ Hr).
Qed.

Lemma no_run_same cfg c l :
  ledger_wf l → lcmd_ok c → no_run c → same_attempts l (run_lcmd cfg c l).
Proof.
  intros Hwf Hok Hno.
  destruct c; cbn [run_lcmd]; try done;
    match goal with |- same_attempts l (after ?t l) =>
      destruct (after_Ok t l) as [->|[a H]]; [by apply same_dispatch|] end;
    try solve [apply same_dispatch, qu_dispatch; eauto using
    claim_outbox_quiet, mark_outbox_sent_quiet, retry_outbox_quiet, purge_sent_outbox_quiet,
    update_invocation_quiet, claim_object_quiet].
  - apply same_dispatch.
    apply accept_async_Ok in H as [[-> _]|(_ & _ & _ & _ & Hac & _)]; [done|]. apply Hac.
  - apply settle_dispatch_Ok in H as [[-> _]|(_ & old & r & S)]; [by apply same_dispatch|].
    destruct Hok as (Hrun & _). destruct Hno as [g Hg].
    destruct (final_record_keeps settle r) as (_ & Hst & _ & _ & _ & Ha & _).
    eapply same_insert; [apply (se_dispatch _ _ _ _ _ S)| |].
    + rewrite Ha, Hg, andb_false_r. rewrite (settled_id _ _ _ _ _ Hwf S).
      rewrite (se_record _ _ _ _ _ S). apply record_attempts.
    + intros owner a' Hs. congruence.
  - apply same_dispatch. apply record_poison_Ok in H as [_ H].
    by apply insert_dead_letter_Ok in H as [(_ & -> & _)|(_ & -> & _)].
  - apply same_dispatch. apply redrive_Ok in H as (? & _ & _ & _ & _ & _ & _ & _ & Hac & _).
    apply Hac.
Qed.

(** ** The fence *)

(** What holds of every world [n] steps reach: a run's attempt was counted, and no two
    runs of an invocation share one. *)
Record fenced (n : nat) (w : World) : Prop := {
  fe_wf : ledger_wf (wd_ledger w);
  fe_bound : ∀ id, 0 ≤ attempts_at (wd_ledger w) id ≤ Z.of_nat n;
  fe_token : ∀ k owner id a, holds w k owner id a → 0 < a ≤ attempts_at (wd_ledger w) id;
  fe_apart : ∀ k k' owner owner' id a,
    holds w k owner id a → holds w k' owner' id a → k = k'
}.

Lemma holds_insert l m k k' wk owner id a :
  holds (mkWorld l (<[k := wk]> m)) k' owner id a →
  (k' = k ∧ wk = mkWorker owner (Some (id, a))) ∨ (k' ≠ k ∧ m !! k' = Some (mkWorker owner (Some (id, a)))).
Proof.
  unfold holds. cbn. rewrite lookup_insert_Some. intros [[<- ->]|[? ?]]; auto.
Qed.

(** A step that leaves the attempts as they are and gives no worker a run. *)
Lemma fenced_same n w w' :
  fenced n w → ledger_wf (wd_ledger w') →
  (∀ id, attempts_at (wd_ledger w') id = attempts_at (wd_ledger w) id) →
  (∀ k owner id a, holds w' k owner id a → holds w k owner id a) →
  fenced (S n) w'.
Proof.
  intros [Hwf Hb Ht Hap] Hwf' Ha Hh. split; [done| | |].
  - intros id. rewrite Ha. specialize (Hb id). lia.
  - intros k owner id a Hk. rewrite Ha. eauto.
  - intros k k' o o' id a Hk Hk'. eauto.
Qed.

(** What a claim changes. *)
Lemma claim_attempts req l inv r l' :
  ledger_wf l → claim_dispatch req l = Ok (ClaimOutcome.Claimed inv r, l') →
  (attempts_at l (cl_invocation_id req) < u32_max →
   dr_attempts r = attempts_at l (cl_invocation_id req) + 1) ∧
  attempts_at l' (cl_invocation_id req) = dr_attempts r ∧
  (∀ id, id ≠ cl_invocation_id req → lg_dispatch l' !! id = lg_dispatch l !! id) ∧
  ledger_wf l'.
Proof.
  intros Hwf H. split_and!; [| | |by eapply claim_wf];
    apply claim_dispatch_Ok in H as [[_ H]|(inv' & r' & Hi & Er & [= -> ->] & Ht & _ & _ & _ & _ & ->)];
    try (by destruct (H inv r));
    destruct (record_or_unclaimed_wf l _ inv' Hwf Hi Ht) as (Hr & _); rewrite <-Er in Hr;
    rewrite ?(rw_id _ _ _ Hr).
  - cbn [claimed_record dr_attempts]. rewrite Er, record_attempts. lia.
  - unfold attempts_at. cbn [lg_dispatch set_field]. by rewrite lookup_insert_eq.
  - intros id Hne. cbn [lg_dispatch set_field]. by rewrite lookup_insert_ne.
Qed.

Lemma attempts_same_row l l' id :
  lg_dispatch l' !! id = lg_dispatch l !! id → attempts_at l' id = attempts_at l id.
Proof. unfold attempts_at. by intros ->. Qed.

(** A claim that gives no run changes nothing. *)
Lemma claim_nothing req l out l' :
  claim_dispatch req l = Ok (out, l') → run_of req out = None → l' = l.
Proof.
  intros H Hr. apply claim_dispatch_Ok in H as [[-> _]|(? & ? & _ & _ & -> & _)]; done.
Qed.

(** What a settle of a claim changes: at most its attempt is given back. *)
Lemma claim_settle_attempts cfg settle owner a l :
  ledger_wf l → sl_fence settle = Fence.Claim owner a →
  let l' := run_lcmd cfg (LSettle settle) l in
  let id := inv_id (sl_invocation settle) in
  l' = l ∨
  attempts_at l id = a ∧ a - 1 ≤ attempts_at l' id ≤ a ∧ 0 ≤ attempts_at l' id ∧
  (∀ owner' a', sl_state settle ≠ DispatchState.Running → ¬ is_current l' owner' id a') ∧
  (∀ id', id' ≠ id → lg_dispatch l' !! id' = lg_dispatch l !! id').
Proof.
  intros Hwf Hf l' id. subst l'. cbn [run_lcmd].
  destruct (after_Ok (settle_dispatch cfg settle) l) as [E|[out H]]; [by left|].
  apply settle_dispatch_Ok in H as [[E _]|(_ & old & r & S)]; [by left|]. right.
  set (l' := after _ l) in *.
  pose proof (settled_id _ _ _ _ _ Hwf S) as Hid. fold id in Hid.
  pose proof (se_fence _ _ _ _ _ S) as Hh. rewrite Hf in Hh. cbn in Hh. bools.
  destruct (final_record_keeps settle r) as (_ & Hst & _ & _ & _ & Ha & _).
  assert (Hdis : lg_dispatch l' = <[id := final_record settle r]> (lg_dispatch l))
    by (rewrite (se_dispatch _ _ _ _ _ S); by rewrite Hid).
  assert (attempts_at l id = a) as Hat.
  { unfold id. rewrite <-(record_attempts l _ old), <-(se_record _ _ _ _ _ S). done. }
  assert (attempts_at l' id = dr_attempts (final_record settle r)) as Hat'
    by (unfold attempts_at; rewrite Hdis, lookup_insert_eq; done).
  assert (0 ≤ dr_attempts r).
  { destruct (record_or_unclaimed_wf l _ old Hwf (se_old _ _ _ _ _ S) (se_live _ _ _ _ _ S))
      as (Hr & _ & _). rewrite <-(se_record _ _ _ _ _ S) in Hr. apply (rw_attempts _ _ _ Hr). }
  split_and!; [done| | | | |].
  - rewrite Hat', Ha. destruct (_ && _); lia.
  - rewrite Hat', Ha. destruct (_ && _); lia.
  - rewrite Hat', Ha. destruct (_ && _); lia.
  - intros o' a' Hn (r' & Hr' & Hs & _). rewrite Hdis, lookup_insert_eq in Hr'. congruence.
  - intros id' Hne. rewrite Hdis. by rewrite lookup_insert_ne.
Qed.

Lemma renew_same cfg id owner a now ttl l :
  same_attempts l (run_lcmd cfg (LRenew id owner a now ttl) l).
Proof.
  cbn [run_lcmd].
  destruct (after_Ok (renew_dispatch_claim id owner a now ttl) l) as [->|[b H]]; [by apply same_dispatch|].
  apply renew_dispatch_claim_Ok in H as [[_ ->]|(r & Hr & _ & Hs & Hc & Ha & ->)]; [by apply same_dispatch|].
  eapply same_insert; [reflexivity| |].
  - cbn. unfold attempts_at. by rewrite Hr.
  - cbn. intros owner' a' _ Hc' Ha'. exists r. split_and!; try done.
Qed.

Lemma holds_same_workers w w' k owner id a :
  wd_workers w' = wd_workers w → holds w' k owner id a → holds w k owner id a.
Proof. unfold holds. by intros ->. Qed.

Lemma fenced_claim n w k wk req out l' :
  fenced n w → Z.of_nat n < u32_max → wd_workers w !! k = Some wk →
  claim_dispatch req (wd_ledger w) = Ok (out, l') →
  fenced (S n) (mkWorld l' (<[k := mkWorker (wk_owner wk) (run_of req out)]> (wd_workers w))).
Proof.
  intros Hf Hn Hk H. pose proof Hf as [Hwf Hb Ht Hap].
  destruct (run_of req out) as [[id a]|] eqn:Hr.
  2: { rewrite (claim_nothing _ _ _ _ H Hr). apply (fenced_same n w); try done.
       intros k' o i a [[_ [=]]|[_ ?]]%holds_insert. done. }
  destruct out as [inv r| | | |]; try discriminate Hr. injection Hr as <- <-.
  destruct (claim_attempts _ _ _ _ _ Hwf H) as (Ha & Ha' & Hother & Hwf').
  set (id := cl_invocation_id req) in *.
  specialize (Ha ltac:(specialize (Hb id); lia)).
  assert (Hne : ∀ id', id' ≠ id → attempts_at l' id' = attempts_at (wd_ledger w) id')
    by (intros; by apply attempts_same_row, Hother).
  split; cbn [wd_ledger]; [done| | |].
  - intros id'. pose proof (Hb id'). destruct (decide (id' = id)) as [->|Hi];
      [rewrite Ha', Ha|rewrite Hne by done]; lia.
  - intros k' o id' a [[_ [= _ <- <-]]|[_ Hh]]%holds_insert.
    + specialize (Hb id). lia.
    + specialize (Ht k' o id' a Hh). destruct (decide (id' = id)) as [->|Hi]; [lia|]. by rewrite Hne.
  - intros k1 k2 o1 o2 id' a [[-> [= _ <- <-]]|[N1 H1]]%holds_insert [[-> E]|[N2 H2]]%holds_insert.
    + done.
    + specialize (Ht k2 o2 _ _ H2). lia.
    + injection E as _ E1 E2. subst. specialize (Ht k1 o1 _ _ H1). lia.
    + by eapply (Hap k1 k2).
Qed.

Lemma fenced_settle cfg n w k owner id a settle :
  fenced n w → holds w k owner id a → lcmd_ok (LSettle settle) →
  sl_fence settle = Fence.Claim owner a → inv_id (sl_invocation settle) = id →
  fenced (S n) (mkWorld (run_lcmd cfg (LSettle settle) (wd_ledger w))
                  (<[k := mkWorker owner None]> (wd_workers w))).
Proof.
  intros Hf Hk Hok Hfe <-. pose proof Hf as [Hwf Hb Ht Hap].
  assert (Hback : ∀ k' o i a' l, holds (mkWorld l (<[k := mkWorker owner None]> (wd_workers w))) k' o i a' →
    k' ≠ k ∧ holds w k' o i a') by (intros *; by intros [[_ [=]]|?]%holds_insert).
  pose proof (run_lcmd_wf cfg _ _ Hwf Hok) as Hwf'.
  destruct (claim_settle_attempts cfg settle owner a _ Hwf Hfe) as [E|(Ha & Hd & H0 & _ & Hother)].
  { rewrite E. apply (fenced_same n w); try done. intros * H. by apply Hback in H as [_ ?]. }
  set (l' := run_lcmd _ _ _) in *. set (id := inv_id (sl_invocation settle)) in *.
  assert (Hne : ∀ id', id' ≠ id → attempts_at l' id' = attempts_at (wd_ledger w) id')
    by (intros; by apply attempts_same_row, Hother).
  split; cbn [wd_ledger]; [done| | |].
  - intros id'. pose proof (Hb id'). destruct (decide (id' = id)) as [->|Hi]; [|rewrite Hne by done]; lia.
  - intros k' o id' a' [Hne' Hh]%Hback. pose proof (Ht k' o id' a' Hh).
    destruct (decide (id' = id)) as [->|Hi]; [|by rewrite Hne].
    destruct (decide (a' = a)) as [->|]; [|lia]. by destruct (Hne' (Hap _ _ _ _ _ _ Hh Hk)).
  - intros k1 k2 o1 o2 id' a' [_ H1]%Hback [_ H2]%Hback. by eapply (Hap k1 k2).
Qed.

Lemma wstep_fenced cfg n who w w' :
  fenced n w → Z.of_nat n < u32_max → wstep cfg who w w' → fenced (S n) w'.
Proof.
  intros Hf Hn Hstep. pose proof (fe_wf _ _ Hf) as Hwf.
  destruct Hstep as [c w Hok Hno|k owner w Hk|k wk req out l' w Hk Hr Ho H|k wk id a now ttl w Hk Hr
                    |k wk id a settle w Hk Hr Hok Hfe Hid|k wk w Hk].
  - destruct (no_run_same cfg c _ Hwf Hok Hno) as [Ha _].
    apply (fenced_same n w); [done|by apply run_lcmd_wf|done|done].
  - apply (fenced_same n w); try done. intros k' o id a [[_ [=]]|[_ ?]]%holds_insert. done.
  - by apply fenced_claim.
  - destruct (renew_same cfg id (wk_owner wk) a now ttl (wd_ledger w)) as [Ha _].
    apply (fenced_same n w); [done|by apply run_lcmd_wf|done|done].
  - apply (fenced_settle cfg n w k (wk_owner wk) id a); try done. unfold holds. rewrite Hk. by destruct wk; cbn in *; subst.
  - apply (fenced_same n w); try done. intros k' o id a [[_ [=]]|[_ ?]]%holds_insert. done.
Qed.

Lemma wsteps_fenced cfg except n m w w' :
  fenced n w → Z.of_nat (n + m) ≤ u32_max → wsteps cfg except m w w' → fenced (n + m) w'.
Proof.
  intros Hf Hn Hsteps. induction Hsteps as [w|m w w1 w2 who H1 IH H2 _].
  - by rewrite Nat.add_0_r.
  - rewrite Nat.add_succ_r in *. eapply wstep_fenced; [apply IH; [done|lia]|lia|done].
Qed.

Lemma empty_fenced : fenced 0 empty_world.
Proof.
  split; [apply empty_ledger_wf| | |].
  - intros id. unfold attempts_at. cbn. rewrite lookup_empty. cbn. lia.
  - intros k owner id a. unfold holds. cbn. by rewrite lookup_empty.
  - intros k k' o o' id a. unfold holds. cbn. by rewrite lookup_empty.
Qed.

Lemma reach_fenced cfg n w : reach cfg n w → Z.of_nat n ≤ u32_max → fenced n w.
Proof. intros H Hn. by apply (wsteps_fenced cfg (λ _, False) 0 n empty_world w empty_fenced). Qed.

(** A run whose claim was taken over stays so, whatever the others do. *)
Lemma taken_over_stays cfg n k w w' who owner id a :
  fenced n w → Z.of_nat n < u32_max → wstep cfg who w w' → who ≠ Some k → holds w k owner id a →
  ¬ is_current (wd_ledger w) owner id a →
  holds w' k owner id a ∧ ¬ is_current (wd_ledger w') owner id a.
Proof.
  intros Hf Hn Hstep Hwho Hh Hnot. pose proof (fe_wf _ _ Hf) as Hwf.
  pose proof (fe_token _ _ Hf _ _ _ _ Hh) as Ht.
  assert (Hkeep : ∀ k' wk l, k' ≠ k → holds (mkWorld l (<[k' := wk]> (wd_workers w))) k owner id a)
    by (intros; unfold holds; cbn; by rewrite lookup_insert_ne).
  destruct Hstep as [c w Hok Hno|k' owner' w Hk|k' wk req out l' w Hk Hr Ho H|k' wk id' a' now ttl w Hk Hr
                    |k' wk id' a' settle w Hk Hr Hok Hfe Hid|k' wk w Hk].
  - destruct (no_run_same cfg c _ Hwf Hok Hno) as [_ Hc]. split; [done|]. by intros ?%Hc.
  - split; [by apply Hkeep; intros ->|done].
  - split; [by apply Hkeep; intros ->|]. cbn [wd_ledger].
    destruct (run_of req out) as [[i x]|] eqn:Hrun; [|by rewrite (claim_nothing _ _ _ _ H Hrun)].
    destruct out as [inv r| | | |]; try discriminate Hrun.
    destruct (claim_attempts _ _ _ _ _ Hwf H) as (Ha & Ha' & Hother & _).
    destruct (decide (id = cl_invocation_id req)) as [->|Hne].
    + specialize (Ha ltac:(pose proof (fe_bound _ _ Hf (cl_invocation_id req)); lia)).
      intros (r' & Hr' & _ & _ & Hx). unfold attempts_at in Ha' at 1. rewrite Hr' in Ha'. cbn in Ha'. lia.
    + intros (r' & Hr' & ?). apply Hnot. exists r'. by rewrite <-Hother.
  - destruct (renew_same cfg id' (wk_owner wk) a' now ttl (wd_ledger w)) as [_ Hc].
    split; [done|]. by intros ?%Hc.
  - split; [by apply Hkeep; intros ->|]. cbn [wd_ledger].
    destruct (claim_settle_attempts cfg settle _ _ _ Hwf Hfe) as [->|(_ & _ & _ & Hn' & Hother)]; [done|].
    destruct (decide (id = inv_id (sl_invocation settle))) as [->|Hne].
    + apply Hn'. apply Hok.
    + intros (r' & Hr' & ?). apply Hnot. exists r'. by rewrite <-Hother.
  - split; [by apply Hkeep; intros ->|done].
Qed.

(** The settle of a run whose claim was taken over writes nothing. *)
Lemma stale_settle cfg l owner id a settle :
  ledger_wf l → 0 < a ≤ attempts_at l id → ¬ is_current l owner id a →
  sl_fence settle = Fence.Claim owner a → inv_id (sl_invocation settle) = id →
  ∃ why, settle_dispatch cfg settle l = Ok (SettleOutcome.Lost why, l).
Proof.
  intros Hwf Ha Hnot Hf <-. unfold attempts_at in Ha.
  destruct (lg_dispatch l !! _) as [r|] eqn:Hr; cbn in Ha; [|lia].
  destruct (rw_row _ _ _ (wf_dispatch l Hwf _ r Hr)) as [inv Hi].
  unfold settle_dispatch. rewrite Hi. destruct (InvocationStatus.is_terminal _); [eauto|].
  unfold get_record. rewrite Hr. cbn [unwrap_or default from_option]. rewrite Hf.
  destruct (fence_holds _ _ _) eqn:Hh; [|cbn [negb]; eauto].
  destruct Hnot. exists r. cbn in Hh. bools. done.
Qed.

Lemma stale_steps cfg n m k w w' owner id a :
  fenced n w → Z.of_nat (n + m) ≤ u32_max → wsteps cfg (eq k) m w w' → holds w k owner id a →
  ¬ is_current (wd_ledger w) owner id a →
  holds w' k owner id a ∧ ¬ is_current (wd_ledger w') owner id a.
Proof.
  intros Hf Hn Hsteps Hh Hnot. induction Hsteps as [w|m w w1 w2 who H1 IH H2 Hwho]; [done|].
  destruct IH as [Hh1 Hnot1]; [done|lia|done|done|].
  eapply (taken_over_stays cfg (n + m) k w1 w2 who); try done; [by eapply wsteps_fenced; [|lia|]|lia|].
  intros ->. by eapply Hwho.
Qed.

(** C5: of the runs of one invocation, only the last claimed can record an outcome. In
    every world the workers reach, whatever the interleaving, crashes and clock
    readings, two workers never run the same invocation at the same attempt, although
    the workers of one process share their owner. And once the row's claim is no
    longer a run's (it expired and another worker claimed the run, or the reaper
    rescheduled it), then whatever happens next, attempts given back by deferrals
    included, that run's settle is lost and writes nothing. *)
Theorem taken_over_run_never_commits cfg n m k w w' owner id a :
  reach cfg n w → Z.of_nat (n + m) ≤ u32_max → holds w k owner id a →
  (∀ k' owner' a', k' ≠ k → holds w k' owner' id a' → a' ≠ a) ∧
  (¬ is_current (wd_ledger w) owner id a → wsteps cfg (eq k) m w w' →
   ∀ settle, sl_fence settle = Fence.Claim owner a → inv_id (sl_invocation settle) = id →
   ∃ why, settle_dispatch cfg settle (wd_ledger w') = Ok (SettleOutcome.Lost why, wd_ledger w')).
Proof.
  intros Hr Hn Hh. assert (fenced n w) as Hf by (eapply reach_fenced; [done|lia]). split.
  - intros k' owner' a' Hne Hh' ->. by destruct (Hne (fe_apart _ _ Hf _ _ _ _ _ _ Hh' Hh)).
  - intros Hnot Hsteps settle Hfe Hid.
    destruct (stale_steps cfg n m k w w' owner id a) as [Hh' Hnot']; try done.
    assert (fenced (n + m) w') as Hf' by by eapply wsteps_fenced.
    eapply (stale_settle cfg _ owner id a); [apply Hf'|by eapply (fe_token _ _ Hf')|done..].
Qed.

(** ** A run that is taken over

    Worker 0 claims the invocation; its claim expires and worker 1 of the same process
    claims the second attempt, which it gives back. *)

Definition claim_at (now : Timestamp) : ClaimRequest := mkClaim "inv_a" "dsp_a" 0 now 5.

Definition claim_of (req : ClaimRequest) (l : Ledger) : ClaimOutcome.t * Ledger :=
  match claim_dispatch req l with Ok r => r | Err _ => (ClaimOutcome.Stale 0, l) end.

Definition do_claim (k : nat) (req : ClaimRequest) (w : World) : World :=
  let r := claim_of req (wd_ledger w) in
  mkWorld r.2 (<[k := mkWorker "dsp_a" (run_of req r.1)]> (wd_workers w)).

Definition do_join (k : nat) (w : World) : World :=
  w <| wd_workers ::= <[k := mkWorker "dsp_a" None]> |>.

(** The settle of a run that is given back, and of one that succeeds. *)
Definition give_back (a : Z) : DispatchSettle :=
  mkSettle (Fence.Claim "dsp_a" a) (inv0 <| inv_status := InvocationStatus.Queued |>)
    DispatchState.Scheduled (Some 30) None false None (Some (event_a <| ob_generation := 1 |>)) 21.
Definition succeed_a (a : Z) : DispatchSettle :=
  mkSettle (Fence.Claim "dsp_a" a) (inv0 <| inv_status := InvocationStatus.Succeeded |>)
    DispatchState.Done None None true None None 22.

Definition world_joined : World :=
  do_join 1 (do_join 0 (empty_world <| wd_ledger ::= run_lcmd cfg0 accept_a |>)).
Definition world_claimed : World := do_claim 0 (claim_at 10) world_joined.
Definition world_taken : World := do_claim 1 (claim_at 20) world_claimed.
Definition world_back : World :=
  mkWorld (run_lcmd cfg0 (LSettle (give_back 2)) (wd_ledger world_taken))
    (<[1%nat := mkWorker "dsp_a" None]> (wd_workers world_taken)).

Lemma claim_step k req w :
  wd_workers w !! k = Some (mkWorker "dsp_a" None) → cl_owner req = "dsp_a" →
  is_ok (claim_dispatch req (wd_ledger w)) = true →
  wstep cfg0 (Some k) w (do_claim k req w).
Proof.
  intros Hk Ho Hok. unfold do_claim, claim_of.
  destruct (claim_dispatch req (wd_ledger w)) as [[out l']|] eqn:H; [|done].
  by apply (w_claim cfg0 k (mkWorker "dsp_a" None) req out l').
Qed.

Lemma world_taken_reach : reach cfg0 5 world_taken.
Proof.
  unfold reach.
  do 4 (eapply ws_step; [|apply claim_step || apply w_join; vm_compute; done|naive_solver]).
  eapply ws_step; [apply ws_refl| |naive_solver]. by apply (w_other cfg0 accept_a).
Qed.

Lemma world_back_steps : wsteps cfg0 (eq 0%nat) 1 world_taken world_back.
Proof.
  eapply ws_step; [apply ws_refl| |].
  - apply (w_settle cfg0 1 (mkWorker "dsp_a" (Some ("inv_a", 2))) "inv_a" 2 (give_back 2));
      vm_compute; done.
  - by intros k [= <-].
Qed.

(** The attempt the row counts is worker 0's again, and its settle is still lost. *)
Lemma taken_over_run_never_commits_witness :
  attempts_at (wd_ledger world_back) "inv_a" = 1 ∧
  ∃ why, settle_dispatch cfg0 (succeed_a 1) (wd_ledger world_back)
         = Ok (SettleOutcome.Lost why, wd_ledger world_back).
Proof.
  split; [by vm_compute|].
  apply (taken_over_run_never_commits cfg0 5 1 0 world_taken world_back "dsp_a" "inv_a" 1);
    [apply world_taken_reach|done|by vm_compute| |apply world_back_steps|done|done].
  intros (r & Hr & _ & _ & Ha). vm_compute in Hr. injection Hr as <-. discriminate Ha.
Defined.
