(* ===== verification/Usage.v ===== *)
(** * Usage facts

    [crates/domain/src/usage.rs]: what the host observed of one attempt or of the end of one
    environment, and who measured each quantity of it. An event carries no price; the journal
    keeps it, the ledger deduplicates it and [Rating] reads it. *)

From S2P Require Import Prelude.

Open Scope string_scope.
Open Scope Z_scope.

(** [crates/domain/src/usage.rs:19-20 USAGE_SCHEMA_VERSION] *)
Definition USAGE_SCHEMA_VERSION : Z := 2.

Module UsageEventType.
(** [crates/domain/src/usage.rs:22-33 UsageEventType] *)
Inductive t : Type :=
| EnvironmentStarted | HandlerStarted | HandlerFinished | AttemptSettled | EnvironmentStopped.
#[global] Instance eq_dec : EqDecision t.
Proof. solve_decision. Defined.

(** [crates/domain/src/usage.rs:36-44 as_str] *)
Definition as_str (e : t) : string :=
  match e with
  | EnvironmentStarted => "environment_started"
  | HandlerStarted => "handler_started"
  | HandlerFinished => "handler_finished"
  | AttemptSettled => "attempt_settled"
  | EnvironmentStopped => "environment_stopped"
  end.
End UsageEventType.

Module EvidenceQuality.
(** [crates/domain/src/usage.rs:47-55 EvidenceQuality] *)
Inductive t : Type := HostObserved | GuestReported | Unknown.
#[global] Instance eq_dec : EqDecision t.
Proof. solve_decision. Defined.
End EvidenceQuality.

(** ** Quantities *)

Module Measurement.
(** [crates/domain/src/usage.rs:57-72 Measurement] *)
Inductive t : Type := HostMeasured | ProviderReported | GuestReported | Unknown.
#[global] Instance eq_dec : EqDecision t.
Proof. solve_decision. Defined.

(** [crates/domain/src/usage.rs:75-78 ratable] *)
Definition ratable (m : t) : bool :=
  match m with HostMeasured | ProviderReported => true | GuestReported | Unknown => false end.

(** [crates/domain/src/usage.rs:80-87 as_str] *)
Definition as_str (m : t) : string :=
  match m with
  | HostMeasured => "host_measured"
  | ProviderReported => "provider_reported"
  | GuestReported => "guest_reported"
  | Unknown => "unknown"
  end.
End Measurement.

(** [crates/domain/src/usage.rs:90-98 Metered] *)
Record Metered := mkMetered { mt_value : option Z; mt_measurement : Measurement.t }.
#[global] Instance Metered_eta : Eta Metered := λ r, mkMetered (mt_value r) (mt_measurement r).
#[global] Instance Metered_eq_dec : EqDecision Metered.
Proof. solve_decision. Defined.

Module Meter.
(** [crates/domain/src/usage.rs:101-106 host] *)
Definition host (v : Z) : Metered := mkMetered (Some v) Measurement.HostMeasured.
(** [crates/domain/src/usage.rs:108-113 provider] *)
Definition provider (v : Z) : Metered := mkMetered (Some v) Measurement.ProviderReported.
(** [crates/domain/src/usage.rs:115-120 guest] *)
Definition guest (v : Z) : Metered := mkMetered (Some v) Measurement.GuestReported.
(** [crates/domain/src/usage.rs:122-124 unknown] *)
Definition unknown : Metered := mkMetered None Measurement.Unknown.
(** [crates/domain/src/usage.rs:126-129 host_opt] *)
Definition host_opt (v : option Z) : Metered := match v with None => unknown | Some v => host v end.
(** [crates/domain/src/usage.rs:131-137 ratable_value] *)
Definition ratable_value (m : Metered) : option Z :=
  if Measurement.ratable (mt_measurement m) then mt_value m else None.
(** [crates/domain/src/usage.rs:139-141 is_unknown] *)
Definition is_unknown (m : Metered) : bool := is_none (ratable_value m).
End Meter.

(** ** Attempts *)

Module AttemptKind.
(** [crates/domain/src/usage.rs:144-153 AttemptKind] *)
Inductive t : Type := First | Retry.
#[global] Instance eq_dec : EqDecision t.
Proof. solve_decision. Defined.

(** [crates/domain/src/usage.rs:156-161 from_number] *)
Definition from_number (number : Z) : t := if (number =? 0) || (number =? 1) then First else Retry.
End AttemptKind.

Module UsageOutcome.
(** [crates/domain/src/usage.rs:164-173 UsageOutcome] *)
Inductive t : Type := Succeeded | Failed | Timeout | Cancelled | OutcomeUnknown.
#[global] Instance eq_dec : EqDecision t.
Proof. solve_decision. Defined.

(** [crates/domain/src/usage.rs:176-184 as_str] *)
Definition as_str (o : t) : string :=
  match o with
  | Succeeded => "succeeded"
  | Failed => "failed"
  | Timeout => "timeout"
  | Cancelled => "cancelled"
  | OutcomeUnknown => "outcome_unknown"
  end.
End UsageOutcome.

(** [crates/domain/src/usage.rs:187-212 UsageSegments] *)
Record UsageSegments := mkSegments {
  sg_queue_wait_ms : Metered;
  sg_vm_base_boot_ms : Metered;
  sg_user_init_ms : Metered;
  sg_handler_ms : Metered;
  sg_teardown_ms : Metered;
  sg_idle_pooled_ms : Metered
}.
#[global] Instance UsageSegments_eta : Eta UsageSegments := λ r,
  mkSegments (sg_queue_wait_ms r) (sg_vm_base_boot_ms r) (sg_user_init_ms r) (sg_handler_ms r)
    (sg_teardown_ms r) (sg_idle_pooled_ms r).
#[global] Instance UsageSegments_eq_dec : EqDecision UsageSegments.
Proof. solve_decision. Defined.

Module Segments.
Definition none : UsageSegments :=
  mkSegments Meter.unknown Meter.unknown Meter.unknown Meter.unknown Meter.unknown Meter.unknown.

(** [crates/domain/src/usage.rs:215-225 named] *)
Definition named (s : UsageSegments) : list (string * Metered) :=
  [("queue_wait_ms", sg_queue_wait_ms s); ("vm_base_boot_ms", sg_vm_base_boot_ms s);
   ("user_init_ms", sg_user_init_ms s); ("handler_ms", sg_handler_ms s);
   ("teardown_ms", sg_teardown_ms s); ("idle_pooled_ms", sg_idle_pooled_ms s)].

(** [crates/domain/src/usage.rs:227-232 get] *)
Definition get (name : string) (s : UsageSegments) : option Metered :=
  snd <$> List.find (λ e, e.1 == name) (named s).
End Segments.

(** [crates/domain/src/usage.rs:235-251 UsageResources] *)
Record UsageResources := mkUsageResources {
  ur_requested_cpu_millis : Z;
  ur_requested_memory_mib : Z;
  ur_requested_storage_mib : Z;
  ur_cgroup_cpu_usec : Metered;
  ur_cgroup_memory_peak_bytes : Metered
}.
#[global] Instance UsageResources_eta : Eta UsageResources := λ r,
  mkUsageResources (ur_requested_cpu_millis r) (ur_requested_memory_mib r)
    (ur_requested_storage_mib r) (ur_cgroup_cpu_usec r) (ur_cgroup_memory_peak_bytes r).
#[global] Instance UsageResources_eq_dec : EqDecision UsageResources.
Proof. solve_decision. Defined.

(** [crates/domain/src/usage.rs:253-260 UsageBytes] *)
Record UsageBytes := mkUsageBytes { ub_request_bytes : Metered; ub_response_bytes : Metered }.
#[global] Instance UsageBytes_eta : Eta UsageBytes := λ r,
  mkUsageBytes (ub_request_bytes r) (ub_response_bytes r).
#[global] Instance UsageBytes_eq_dec : EqDecision UsageBytes.
Proof. solve_decision. Defined.

(** [crates/domain/src/usage.rs:262-269 GuestReportedUsage] *)
Record GuestReportedUsage := mkGuestUsage {
  gu_guest_init_ms : option Z;
  gu_guest_handler_ms : option Z
}.
#[global] Instance GuestReportedUsage_eq_dec : EqDecision GuestReportedUsage.
Proof. solve_decision. Defined.

Module WallClockSource.
(** [crates/domain/src/usage.rs:271-280 WallClockSource] *)
Inductive t : Type := HostClock | Unknown.
#[global] Instance eq_dec : EqDecision t.
Proof. solve_decision. Defined.
End WallClockSource.

Module StoppedBy.
(** [crates/domain/src/usage.rs:282-299 StoppedBy] *)
Inductive t : Type := Owner | Pool | Reclaim | Reconcile.
#[global] Instance eq_dec : EqDecision t.
Proof. solve_decision. Defined.

(** [crates/domain/src/usage.rs:302-309 as_str] *)
Definition as_str (s : t) : string :=
  match s with
  | Owner => "owner" | Pool => "pool" | Reclaim => "reclaim" | Reconcile => "reconcile"
  end.
End StoppedBy.

Module LifetimeSource.
(** [crates/domain/src/usage.rs:312-328 LifetimeSource] *)
Inductive t : Type := LedgerOwnerClock | LedgerReclaimerClock | Unknown.
#[global] Instance eq_dec : EqDecision t.
Proof. solve_decision. Defined.
End LifetimeSource.

(** ** Events *)

(** [crates/domain/src/usage.rs:330-339 environment_stopped_event_id] *)
Definition environment_stopped_event_id (environment : EnvironmentId) : string :=
  environment +:+ ":environment-stopped".

(** [crates/domain/src/usage.rs:341-345 STOP_SEQUENCE_UNKNOWN] *)
Definition STOP_SEQUENCE_UNKNOWN : Z := i64_max.

(** [crates/domain/src/usage.rs:347-419 UsageEvent] *)
Record UsageEvent := mkUsageEvent {
  ue_event_id : string;
  ue_tenant_id : TenantId;
  ue_environment_id : EnvironmentId;
  ue_invocation_id : option InvocationId;
  ue_attempt_id : option AttemptId;
  ue_event_type : UsageEventType.t;
  ue_sequence : Z;
  ue_observed_at : Timestamp;
  ue_monotonic_duration_ms : option Z;
  ue_memory_mib : Z;
  ue_cpu_millis : Z;
  ue_bytes_in : Z;
  ue_bytes_out : Z;
  ue_meter_version : Z;
  ue_evidence_quality : EvidenceQuality.t;
  ue_function_id : option FunctionId;
  ue_revision_id : option RevisionId;
  ue_attempt_number : option Z;
  ue_attempt_kind : option AttemptKind.t;
  ue_outcome : option UsageOutcome.t;
  ue_epoch : Z;
  ue_boot_id : option string;
  ue_wall_clock_source : WallClockSource.t;
  ue_segments : UsageSegments;
  ue_resources : UsageResources;
  ue_bytes : UsageBytes;
  ue_guest_reported : GuestReportedUsage;
  ue_stopped_by : option StoppedBy.t;
  ue_lifetime_source : LifetimeSource.t
}.
#[global] Instance UsageEvent_eta : Eta UsageEvent := λ r,
  mkUsageEvent (ue_event_id r) (ue_tenant_id r) (ue_environment_id r) (ue_invocation_id r)
    (ue_attempt_id r) (ue_event_type r) (ue_sequence r) (ue_observed_at r)
    (ue_monotonic_duration_ms r) (ue_memory_mib r) (ue_cpu_millis r) (ue_bytes_in r)
    (ue_bytes_out r) (ue_meter_version r) (ue_evidence_quality r) (ue_function_id r)
    (ue_revision_id r) (ue_attempt_number r) (ue_attempt_kind r) (ue_outcome r) (ue_epoch r)
    (ue_boot_id r) (ue_wall_clock_source r) (ue_segments r) (ue_resources r) (ue_bytes r)
    (ue_guest_reported r) (ue_stopped_by r) (ue_lifetime_source r).
#[global] Instance UsageEvent_eq_dec : EqDecision UsageEvent.
Proof. solve_decision. Defined.

Module NewUsage.
(** [crates/domain/src/usage.rs:422-463 UsageEvent::new] *)
Definition new (event_id : string) (tenant_id : TenantId) (environment_id : EnvironmentId)
    (event_type : UsageEventType.t) (sequence : Z) (observed_at : Timestamp) : UsageEvent :=
  mkUsageEvent event_id tenant_id environment_id None None event_type sequence observed_at
    None 0 0 0 0 USAGE_SCHEMA_VERSION EvidenceQuality.HostObserved None None None None None 0 None
    WallClockSource.HostClock Segments.none (mkUsageResources 0 0 0 Meter.unknown Meter.unknown)
    (mkUsageBytes Meter.unknown Meter.unknown) (mkGuestUsage None None) None LifetimeSource.Unknown.
End NewUsage.

(** ** Refusals *)

Module JournalRefusal.
(** [crates/application/src/usage/journal.rs:67-75 JournalRefusal] *)
Inductive t : Type := Full | Unavailable.
#[global] Instance eq_dec : EqDecision t.
Proof. solve_decision. Defined.

(** [crates/application/src/usage/journal.rs:78-83 as_str] *)
Definition as_str (r : t) : string :=
  match r with Full => "usage_journal_full" | Unavailable => "usage_journal_unavailable" end.
End JournalRefusal.

(** ** Codecs

    The JSON of an event ([serde_json]), and the hexadecimal text of a SHA-256 ([sha2], [hex]):
    the program calls them and does not contain them. *)
Class UsageCodec := {
  event_json : UsageEvent → result string string;
  event_of_json : string → result string UsageEvent;
  sha256_hex : string → string
}.

(** What the collector relies on: the text of an event reads back as the event, and is at most
    [isize::MAX] bytes long, as every Rust string is. *)
Class UsageCodecLaws `{UsageCodec} := {
  event_reads_back (e : UsageEvent) (body : string) :
    event_json e = Ok body → event_of_json body = Ok e;
  event_size (e : UsageEvent) (body : string) :
    event_json e = Ok body → Z.of_nat (String.length body) ≤ i64_max
}.

Definition line_feed : Ascii.ascii := Ascii.ascii_of_nat 10.

(** A text without line feeds. *)
Definition one_line (s : string) : Prop :=
  line_feed ∉ String.list_ascii_of_string s.

(** What is asked of the digest where tampering is concerned: no collisions, and a text of its own
    shape. *)
Class DigestLaws `{UsageCodec} := {
  digest_inj (a b : string) : sha256_hex a = sha256_hex b → a = b;
  digest_line (a : string) : one_line (sha256_hex a);
  digest_not_genesis (a : string) : sha256_hex a ≠ "genesis"
}.
