(* ===== verification/UsageJournal.v ===== *)
(** * The usage journal and the ledger

    [crates/application/src/usage/journal.rs]: the bounded, chained, append-only table every
    usage event is written to at the metering point, and [usage/ledger.rs]: the table the
    collector delivers to, keyed by the event id. The database of the journal is shared by the
    processes of a data directory; each has a handle of its own. What SQLite does with an access
    is an argument: it works, the connection stays busy, or it fails (a failed transaction leaves
    the database as it was). *)

From S2P Require Import Prelude Usage.

Open Scope string_scope.
Open Scope Z_scope.

(** ** Rows *)

(** [crates/application/src/usage/journal.rs:40-48 function_usage_journal] *)
Record JournalRow := mkJournalRow {
  jr_seq : Z;
  jr_event_id : string;
  jr_tenant_id : TenantId;
  jr_body : string;
  jr_body_bytes : Z;
  jr_chain : string;
  jr_appended_at : Timestamp
}.
#[global] Instance JournalRow_eta : Eta JournalRow := λ r,
  mkJournalRow (jr_seq r) (jr_event_id r) (jr_tenant_id r) (jr_body r) (jr_body_bytes r)
    (jr_chain r) (jr_appended_at r).
#[global] Instance JournalRow_eq_dec : EqDecision JournalRow.
Proof. solve_decision. Defined.

(** [crates/application/src/usage/journal.rs:40-49 SCHEMA] The database: the rows in the order of
    their [seq], the last value [AUTOINCREMENT] gave out, the row of
    [function_usage_journal_state] and the losses. *)
Record JournalDb := mkJournalDb {
  jd_rows : list JournalRow;
  jd_sequence : Z;
  jd_cursor_seq : Z;
  jd_cursor_chain : string;
  jd_pending_events : Z;
  jd_pending_bytes : Z;
  jd_losses : gmap TenantId Z
}.
#[global] Instance JournalDb_eta : Eta JournalDb := λ r,
  mkJournalDb (jd_rows r) (jd_sequence r) (jd_cursor_seq r) (jd_cursor_chain r)
    (jd_pending_events r) (jd_pending_bytes r) (jd_losses r).

(** [crates/application/src/usage/journal.rs:37-38 GENESIS_CHAIN] *)
Definition GENESIS_CHAIN : string := "genesis".

(** What [SCHEMA] creates. *)
Definition empty_journal : JournalDb := mkJournalDb [] 0 0 GENESIS_CHAIN 0 0 ∅.

(** [crates/application/src/usage/journal.rs:86-95 JournalLimits] *)
Record JournalLimits := mkJournalLimits {
  jl_max_events : Z;
  jl_max_bytes : Z;
  jl_admission_headroom_events : Z;
  jl_admission_headroom_bytes : Z
}.

(** [crates/application/src/usage/journal.rs:97-103 JournalEntry] *)
Record JournalEntry := mkJournalEntry { je_seq : Z; je_event : UsageEvent; je_chain : string }.

(** [crates/application/src/usage/journal.rs:132-141 UsageJournal] The handle of one process;
    [uj_open] is whether it holds a connection. *)
Record UsageJournal := mkUsageJournal {
  uj_limits : JournalLimits;
  uj_open : bool;
  uj_last_error : option string;
  uj_lost_unavailable : gmap TenantId Z;
  uj_forced_unavailable : bool
}.
#[global] Instance UsageJournal_eta : Eta UsageJournal := λ r,
  mkUsageJournal (uj_limits r) (uj_open r) (uj_last_error r) (uj_lost_unavailable r)
    (uj_forced_unavailable r).

(** ** Access *)

(** What becomes of an access to a SQLite database: it is done, the connection stayed taken for
    longer than a caller waits, or SQLite fails with a message, which may close the connection. *)
Inductive DbAccess : Type := Works | Stuck | Breaks (message : string) (closes : bool).

(** [crates/application/src/sqlite_wait.rs:28-34 busy_message] *)
Definition busy_message (store : string) : string :=
  "the " +:+ store +:+ " connection stayed busy for 5 s (database locked?)".

(** An operation of a handle on the shared database. *)
Definition jop (A : Type) : Type :=
  UsageJournal → JournalDb → A * UsageJournal * JournalDb.

(** [crates/application/src/usage/journal.rs:261-300 with_conn] *)
Definition with_conn {A} (w : DbAccess) (f : JournalDb → A * JournalDb) : jop (result string A) := λ j db,
  when! uj_forced_unavailable j return! (Err "usage journal is unavailable (forced)", j, db);;
  match w with
  | Stuck =>
      let msg := busy_message "usage journal" in (Err msg, j <| uj_last_error := Some msg |>, db)
  | _ =>
      when! negb (uj_open j) return!
        (Err (unwrap_or (uj_last_error j) "usage journal is not open"), j, db);;
      match w with
      | Breaks msg closes =>
          (Err msg, j <| uj_open ::= λ o, if closes then false else o |>
                      <| uj_last_error := Some msg |>, db)
      | _ => let '(a, db) := f db in (Ok a, j, db)
      end
  end.

(** [crates/application/src/usage/journal.rs:195-216 open] [opens] is what opening the file and
    creating the schema gave. *)
Definition open_journal (limits : JournalLimits) (opens : result string unit) : UsageJournal :=
  mkUsageJournal limits (is_ok opens) (match opens with Ok _ => None | Err e => Some e end) ∅ false.

(** [crates/application/src/usage/journal.rs:226-231 force_unavailable] *)
Definition force_unavailable (unavailable : bool) (j : UsageJournal) : UsageJournal :=
  j <| uj_forced_unavailable := unavailable |>.

(** [crates/application/src/usage/journal.rs:233-259 probe] [free] is whether the connection's
    lock was free. *)
Definition probe (free : bool) (opens : result string unit) (j : UsageJournal) : bool * UsageJournal :=
  when! uj_forced_unavailable j return! (false, j);;
  when! negb free return! (false, j);;
  when! uj_open j return! (true, j);;
  match opens with
  | Ok _ => (true, j <| uj_open := true |> <| uj_last_error := None |>)
  | Err e => (false, j <| uj_last_error := Some e |>)
  end.

(** [crates/application/src/usage/journal.rs:302-308 note_unavailable_loss] *)
Definition note_unavailable_loss (tenant : TenantId) (j : UsageJournal) : UsageJournal :=
  j <| uj_lost_unavailable ::= λ m, <[tenant := u64_add (unwrap_or (m !! tenant) 0) 1]> m |>.

Section journal.
Context `{UsageCodec}.

(** [crates/application/src/usage/journal.rs:181-188 chain_next] *)
Definition chain_next (previous body : string) : string :=
  sha256_hex (previous +:+ String line_feed "" +:+ body).

(** [crates/application/src/usage/journal.rs:323-327 append (part)] The chain of the last row,
    or of the cursor. *)
Definition last_chain (db : JournalDb) : string :=
  match last (jd_rows db) with Some r => jr_chain r | None => jd_cursor_chain db end.

(** [crates/application/src/usage/journal.rs:314-321 append (part)] *)
Definition no_room (limits : JournalLimits) (bytes : Z) (db : JournalDb) : bool :=
  (jl_max_events limits <? u64_add (jd_pending_events db) 1)
  || (jl_max_bytes limits <? u64_add (jd_pending_bytes db) bytes).

(** [crates/application/src/usage/journal.rs:311-353 append (part)] The transaction: refused with
    a loss on record, or a row and the counters. *)
Definition append_tx (limits : JournalLimits) (event_id : string) (tenant : TenantId)
    (body : string) (now : Timestamp) (db : JournalDb) : option Z * JournalDb :=
  let bytes := Z.of_nat (String.length body) in
  when! no_room limits bytes db return!
    (None, db <| jd_losses ::= λ m, <[tenant := unwrap_or (m !! tenant) 0 + 1]> m |>);;
  let seq := Z.max (jd_sequence db) (unwrap_or (jr_seq <$> last (jd_rows db)) 0) + 1 in
  let row := mkJournalRow seq event_id tenant body bytes (chain_next (last_chain db) body) now in
  (Some seq, db <| jd_rows ::= λ l, (l ++ [row])%list |> <| jd_sequence := seq |>
                <| jd_pending_events ::= λ n, n + 1 |>
                <| jd_pending_bytes ::= λ n, n + bytes |>).

(** [crates/application/src/usage/journal.rs:310-389 append] *)
Definition append (w : DbAccess) (event : UsageEvent) (now : Timestamp)
    : jop (result JournalRefusal.t Z) := λ j db,
  let tenant := ue_tenant_id event in
  match event_json event with
  | Err _ => (Err JournalRefusal.Unavailable, note_unavailable_loss tenant j, db)
  | Ok body =>
      match with_conn w (append_tx (uj_limits j) (ue_event_id event) tenant body now) j db with
      | (Ok (Some seq), j, db) => (Ok seq, j, db)
      | (Ok None, j, db) => (Err JournalRefusal.Full, j, db)
      | (Err _, j, db) => (Err JournalRefusal.Unavailable, note_unavailable_loss tenant j, db)
      end
  end.

(** [crates/application/src/usage/journal.rs:391-416 admission] *)
Definition admission (w : DbAccess) : jop (result JournalRefusal.t unit) := λ j db,
  let limits := uj_limits j in
  match with_conn w (λ db, (jd_pending_events db, jd_pending_bytes db, db)) j db with
  | (Err _, j, db) => (Err JournalRefusal.Unavailable, j, db)
  | (Ok (events, bytes), j, db) =>
      let events_left := u64_saturating_sub (jl_max_events limits) events in
      let bytes_left := u64_saturating_sub (jl_max_bytes limits) bytes in
      if (events_left <=? jl_admission_headroom_events limits)
         || (bytes_left <=? jl_admission_headroom_bytes limits)
      then (Err JournalRefusal.Full, j, db) else (Ok tt, j, db)
  end.

(** [crates/application/src/usage/journal.rs:441-455 read_batch (part)] The rows of a batch as
    entries, the chain recomputed. *)
Fixpoint check_chain (previous : string) (rows : list JournalRow)
    : result string (list JournalEntry) :=
  match rows with
  | [] => Ok []
  | r :: rows =>
      when! negb (chain_next previous (jr_body r) == jr_chain r) return!
        Err ("usage journal integrity: row " +:+ pretty (jr_seq r)
          +:+ " does not continue the chain (modified, inserted or deleted rows before it)");;
      match event_of_json (jr_body r) with
      | Err e => Err ("usage journal integrity: row " +:+ pretty (jr_seq r)
                   +:+ " is not an event: " +:+ e)
      | Ok event =>
          rest ← check_chain (jr_chain r) rows;
          Ok (mkJournalEntry (jr_seq r) event (jr_chain r) :: rest)
      end
  end.

(** [crates/application/src/usage/journal.rs:418-465 read_batch] *)
Definition read_batch (w : DbAccess) (limit : nat)
    : jop (result string (Z * string * list JournalEntry)) := λ j db,
  match with_conn w (λ db, (jd_cursor_seq db, jd_cursor_chain db,
          take limit (List.filter (λ r, jd_cursor_seq db <? jr_seq r) (jd_rows db)), db)) j db with
  | (Err e, j, db) => (Err ("usage journal unavailable: " +:+ e), j, db)
  | (Ok (cursor_seq, cursor_chain, rows), j, db) =>
      (entries ← check_chain cursor_chain rows; Ok (cursor_seq, cursor_chain, entries), j, db)
  end.

(** [crates/application/src/usage/journal.rs:468-494 commit_cursor (part)] *)
Definition commit_tx (from_seq to_seq : Z) (to_chain : string) (db : JournalDb) : bool * JournalDb :=
  let rows := List.filter (λ r, (from_seq <? jr_seq r) && (jr_seq r <=? to_seq)) (jd_rows db) in
  let count := Z.of_nat (length rows) in
  let bytes := foldr Z.add 0 (jr_body_bytes <$> rows) in
  when! negb (jd_cursor_seq db =? from_seq) return! (false, db);;
  (true, db <| jd_cursor_seq := to_seq |> <| jd_cursor_chain := to_chain |>
            <| jd_pending_events ::= λ n, Z.max (n - count) 0 |>
            <| jd_pending_bytes ::= λ n, Z.max (n - bytes) 0 |>
            <| jd_rows ::= List.filter (λ r, to_seq <? jr_seq r) |>).

(** [crates/application/src/usage/journal.rs:467-501 commit_cursor] *)
Definition commit_cursor (w : DbAccess) (from_seq to_seq : Z) (to_chain : string)
    : jop (result string bool) := with_conn w (commit_tx from_seq to_seq to_chain).

(** [crates/application/src/usage/journal.rs:503-516 head_seq] *)
Definition head_seq (w : DbAccess) : jop (result string Z) := λ j db,
  match with_conn w (λ db, (Z.max (unwrap_or (jr_seq <$> last (jd_rows db)) 0) (jd_cursor_seq db), db))
          j db with
  | (r, j, db) => ((λ v, Z.max v 0) <$> r, j, db)
  end.

(** [crates/application/src/usage/journal.rs:518-540 unjournaled_for] *)
Definition unjournaled_for (w : DbAccess) (tenant : TenantId) : jop Z := λ j db,
  let in_memory := unwrap_or (uj_lost_unavailable j !! tenant) 0 in
  match with_conn w (λ db, (jd_losses db !! tenant, db)) j db with
  | (Ok on_disk, j, db) => (in_memory + unwrap_or on_disk 0, j, db)
  | (Err _, j, db) => (in_memory, j, db)
  end.

(** [crates/application/src/usage/journal.rs:105-120 JournalStatus] *)
Record JournalStatus := mkJournalStatus {
  js_healthy : bool;
  js_pending_events : Z;
  js_pending_bytes : Z;
  js_cursor_seq : Z;
  js_limits : JournalLimits;
  js_admitting : bool;
  js_unjournaled_events : Z;
  js_last_error : option string
}.

(** [crates/application/src/usage/journal.rs:542-576 status] [w] and [w'] are its two accesses;
    the path of the file is left out. *)
Definition status (w w' : DbAccess) : jop JournalStatus := λ j db,
  let '(state, j, db) := with_conn w (λ db, (jd_cursor_seq db, jd_pending_events db,
      jd_pending_bytes db, map_fold (λ _ n acc, n + acc) 0 (jd_losses db), db)) j db in
  let '(adm, j, db) := admission w' j db in
  let lost_memory := map_fold (λ _ n acc, n + acc) 0 (uj_lost_unavailable j) in
  let '(healthy, (cursor, events, bytes, lost_disk)) :=
    match state with Ok s => (true, s) | Err _ => (false, (0, 0, 0, 0)) end in
  (mkJournalStatus healthy events bytes cursor (uj_limits j) (is_ok adm)
     (lost_disk + lost_memory) (uj_last_error j), j, db).
End journal.
