(* ===== verification/UsageLedger.v ===== *)
(** * The usage ledger and the collector

    [crates/application/src/usage/ledger.rs]: the table of events by their id, and
    [usage/mod.rs]: admission by the journal, and the collector, which reads a batch after the
    cursor, delivers it and only then moves the cursor. *)

From S2P Require Import Prelude Usage UsageJournal.

Open Scope string_scope.
Open Scope Z_scope.

(** ** The ledger *)

(** [crates/application/src/usage/ledger.rs:23-39 function_usage_events] *)
Record LedgerRow := mkLedgerRow {
  lr_event_id : string;
  lr_schema_version : Z;
  lr_tenant_id : TenantId;
  lr_function_id : option FunctionId;
  lr_revision_id : option RevisionId;
  lr_invocation_id : option InvocationId;
  lr_attempt_id : option AttemptId;
  lr_environment_id : EnvironmentId;
  lr_epoch : Z;
  lr_sequence : Z;
  lr_event_type : string;
  lr_observed_at : Timestamp;
  lr_received_at : Timestamp;
  lr_wall_clock_skew_ms : Z;
  lr_body : string
}.

(** [crates/application/src/usage/ledger.rs:21-38 SCHEMA] The table keyed by the event id, the
    counters, and whether deliveries are refused. *)
Record UsageTable := mkUsageTable {
  ul_events : gmap string LedgerRow;
  ul_accepted : Z;
  ul_duplicates : Z;
  ul_unavailable : bool
}.
#[global] Instance UsageTable_eta : Eta UsageTable := λ r,
  mkUsageTable (ul_events r) (ul_accepted r) (ul_duplicates r) (ul_unavailable r).
Definition empty_usage_table : UsageTable := mkUsageTable ∅ 0 0 false.

(** [crates/application/src/usage/ledger.rs:55-62 AcceptReport] *)
Record AcceptReport := mkAcceptReport { ar_inserted : Z; ar_duplicates : Z }.
#[global] Instance AcceptReport_eta : Eta AcceptReport := λ r,
  mkAcceptReport (ar_inserted r) (ar_duplicates r).

(** [e as i64] *)
Definition as_i64 (z : Z) : Z := if z <=? i64_max then z else z - 2 ^ 64.

Section ledger.
Context `{UsageCodec}.

(** [crates/application/src/usage/ledger.rs:163-187 accept (part)] The row of an event. *)
Definition row_of (received_at : Timestamp) (e : UsageEvent) (body : string) : LedgerRow :=
  mkLedgerRow (ue_event_id e) (ue_meter_version e) (ue_tenant_id e) (ue_function_id e)
    (ue_revision_id e) (ue_invocation_id e) (ue_attempt_id e) (ue_environment_id e)
    (as_i64 (ue_epoch e)) (as_i64 (ue_sequence e)) (UsageEventType.as_str (ue_event_type e))
    (ue_observed_at e) received_at (Z.quot (received_at - ue_observed_at e) 1000000) body.

(** [crates/application/src/usage/ledger.rs:163-192 accept (part)] [INSERT OR IGNORE] of every
    event in turn. *)
Fixpoint insert_events (received_at : Timestamp) (events : list UsageEvent) (rep : AcceptReport)
    (rows : gmap string LedgerRow) : result string (AcceptReport * gmap string LedgerRow) :=
  match events with
  | [] => Ok (rep, rows)
  | e :: events =>
      body ← event_json e;
      match rows !! ue_event_id e with
      | None => insert_events received_at events (rep <| ar_inserted ::= λ n, n + 1 |>)
                  (<[ue_event_id e := row_of received_at e body]> rows)
      | Some _ => insert_events received_at events (rep <| ar_duplicates ::= λ n, n + 1 |>) rows
      end
  end.

(** [crates/application/src/usage/ledger.rs:144-206 accept] *)
Definition accept_events (w : DbAccess) (events : list UsageEvent) (received_at : Timestamp)
    (l : UsageTable) : result string (AcceptReport * UsageTable) :=
  when! ul_unavailable l return! Err "usage ledger unavailable (forced)";;
  match w with
  | Stuck => Err ("usage ledger unavailable: " +:+ busy_message "usage ledger")
  | Breaks msg _ => Err msg
  | Works =>
      '(rep, rows) ← insert_events received_at events (mkAcceptReport 0 0) (ul_events l);
      Ok (rep, l <| ul_events := rows |> <| ul_accepted ::= λ n, n + ar_inserted rep |>
                 <| ul_duplicates ::= λ n, n + ar_duplicates rep |>)
  end.

(** [ORDER BY observed_at, event_id]: the text of an instant sorts as the instant. *)
Definition observed_before (a b : LedgerRow) : bool :=
  (lr_observed_at a <? lr_observed_at b)
  || ((lr_observed_at a =? lr_observed_at b) && String.leb (lr_event_id a) (lr_event_id b)).

(** [crates/application/src/usage/ledger.rs:214-221 events_for (part)] *)
Definition selected (tenant : TenantId) (function : option FunctionId) (from to : Timestamp)
    (r : LedgerRow) : bool :=
  (lr_tenant_id r == tenant) && (from <=? lr_observed_at r) && (lr_observed_at r <? to)
  && is_none_or function (λ f, lr_function_id r == Some f).

(** [crates/application/src/usage/ledger.rs:235-243 events_for (part)] *)
Fixpoint events_of (tenant : TenantId) (rows : list LedgerRow) : result string (list UsageEvent) :=
  match rows with
  | [] => Ok []
  | r :: rows =>
      event ← event_of_json (lr_body r);
      rest ← events_of tenant rows;
      Ok (if ue_tenant_id event == tenant then event :: rest else rest)
  end.

(** [crates/application/src/usage/ledger.rs:208-246 events_for] *)
Definition events_for (w : DbAccess) (tenant : TenantId) (function : option FunctionId)
    (from to : Timestamp) (l : UsageTable) : result string (list UsageEvent) :=
  match w with
  | Stuck => Err ("usage ledger unavailable: " +:+ busy_message "usage ledger")
  | Breaks msg _ => Err msg
  | Works =>
      events_of tenant
        (sort_by observed_before (filter_values (selected tenant function from to) (ul_events l)))
  end.

(** [crates/application/src/usage/ledger.rs:257-263 attempt_settled_events (part)] *)
Definition settled_row (tenant : TenantId) (attempt : AttemptId) (r : LedgerRow) : bool :=
  (lr_tenant_id r == tenant) && (lr_attempt_id r == Some attempt)
  && (lr_event_type r == "attempt_settled").

(** [crates/application/src/usage/ledger.rs:248-280 attempt_settled_events] *)
Definition attempt_settled_events (w : DbAccess) (tenant : TenantId) (attempts : list AttemptId)
    (l : UsageTable) : result string (list UsageEvent) :=
  when! ul_unavailable l return! Err "usage ledger unavailable (forced)";;
  match w with
  | Stuck => Err ("usage ledger unavailable: " +:+ busy_message "usage ledger")
  | Breaks msg _ => Err msg
  | Works =>
      let rows := attempts ≫= λ attempt,
        sort_by (λ a b, String.leb (lr_event_id a) (lr_event_id b))
          (filter_values (settled_row tenant attempt) (ul_events l)) in
      events_of tenant rows
  end.

(** [crates/application/src/usage/ledger.rs:282-291 recorded_skew_ms] *)
Definition recorded_skew_ms (event_id : string) (l : UsageTable) : option Z :=
  lr_wall_clock_skew_ms <$> ul_events l !! event_id.

(** [crates/application/src/usage/ledger.rs:293-311 stats] *)
Definition ledger_stats (l : UsageTable) : Z * Z := (Z.of_nat (size (ul_events l)), ul_duplicates l).
End ledger.

(** ** Settings *)

Module JournalFullPolicy.
(** [crates/application/src/usage/config.rs:12-23 JournalFullPolicy] *)
Inductive t : Type := Refuse | AcceptUnmetered.
#[global] Instance eq_dec : EqDecision t.
Proof. solve_decision. Defined.
End JournalFullPolicy.

Module Profile.
(** [crates/application/src/config.rs:42-48 Profile] *)
Inductive t : Type := Dev | Production.
#[global] Instance eq_dec : EqDecision t.
Proof. solve_decision. Defined.
End Profile.

(** [crates/application/src/usage/config.rs:47-67 UsageConfig] The price table is given apart. *)
Record UsageConfig := mkUsageConfig {
  uc_journal_max_events : Z;
  uc_journal_max_bytes : Z;
  uc_admission_headroom_events : Z;
  uc_admission_headroom_bytes : Z;
  uc_on_journal_full : JournalFullPolicy.t;
  uc_collect_interval_ms : Z;
  uc_collect_batch : nat;
  uc_billing_enabled : bool
}.

Module UsageConf.
(** A word between double quotes. *)
Definition quoted (s : string) : string :=
  let q := String (Ascii.ascii_of_nat 34) EmptyString in q +:+ s +:+ q.

(** [crates/application/src/usage/config.rs:70-82 default] *)
Definition default_config : UsageConfig :=
  mkUsageConfig 100000 (64 * 1024 * 1024) 1000 (1024 * 1024) JournalFullPolicy.Refuse 1000 500 false.

(** [crates/application/src/usage/config.rs:86-93 limits] *)
Definition limits (c : UsageConfig) : JournalLimits :=
  mkJournalLimits (uc_journal_max_events c) (uc_journal_max_bytes c)
    (uc_admission_headroom_events c) (uc_admission_headroom_bytes c).

(** [crates/application/src/usage/config.rs:99-133 validate] *)
Definition validate (c : UsageConfig) (profile : Profile.t) : result string unit :=
  when! uc_billing_enabled c return! Err "[usage.billing] enabled = true is not supported: billing is hard-disabled in this prototype (usage is metered and rated provisionally, never invoiced)";;
  when! (uc_on_journal_full c == JournalFullPolicy.AcceptUnmetered) && (profile != Profile.Dev) return!
    Err ("[usage] on_journal_full = " +:+ quoted "accept_unmetered" +:+ " is only allowed with profile = "
      +:+ quoted "dev" +:+ ": production refuses invocations it cannot meter");;
  when! (uc_journal_max_events c =? 0) || (uc_journal_max_bytes c =? 0) return!
    Err "[usage] journal_max_events and journal_max_bytes must be >= 1";;
  when! (uc_journal_max_events c <=? uc_admission_headroom_events c)
        || (uc_journal_max_bytes c <=? uc_admission_headroom_bytes c) return!
    Err "[usage] admission_headroom_events / _bytes must be below journal_max_events / _bytes";;
  when! uc_collect_interval_ms c <? 10 return! Err "[usage] collect_interval_ms must be >= 10";;
  when! (uc_collect_batch c =? 0)%nat return! Err "[usage] collect_batch must be >= 1";;
  Ok tt.
End UsageConf.
