(* ===== verification/BudgetConf.v ===== *)
(** * Budgets: settings and refusals

    [crates/application/src/budget/config.rs] and [publish.rs]: the limits of tenants and
    functions, their validation and what the control plane publishes of them; of [mod.rs] the
    reasons for which a budget refuses. *)

From S2P Require Import Prelude Ids UsageLedger.

Open Scope string_scope.
Open Scope Z_scope.

(** ** Refusals *)

Module BudgetRefusal.
(** [crates/application/src/budget/mod.rs:91-98 BudgetRefusal] *)
Inductive t : Type := Exhausted | Unknown | StoreUnavailable.
#[global] Instance eq_dec : EqDecision t.
Proof. solve_decision. Defined.

(** [crates/application/src/budget/mod.rs:101-107 error_type] *)
Definition error_type (r : t) : string :=
  match r with
  | Exhausted => "Host.BudgetExhausted"
  | Unknown => "Host.BudgetUnknown"
  | StoreUnavailable => "Host.BudgetStoreUnavailable"
  end.

(** [crates/application/src/budget/mod.rs:109-113 from_error_type] *)
Definition from_error_type (raw : string) : option t :=
  List.find (λ r, error_type r == raw) [Exhausted; Unknown; StoreUnavailable].
End BudgetRefusal.

Module RefusalCause.
(** [crates/application/src/budget/mod.rs:124-135 RefusalCause] *)
Inductive t : Type :=
| TenantLimit | FunctionLimit | NotDelivered | LeaseExpired | PriceTableMismatch | CollectorStalled
| StoreError.
#[global] Instance eq_dec : EqDecision t.
Proof. solve_decision. Defined.

(** [crates/application/src/budget/mod.rs:160-166 refusal] *)
Definition refusal (c : t) : BudgetRefusal.t :=
  match c with
  | TenantLimit | FunctionLimit => BudgetRefusal.Exhausted
  | StoreError => BudgetRefusal.StoreUnavailable
  | _ => BudgetRefusal.Unknown
  end.
End RefusalCause.

(** ** Limits *)

(** [crates/application/src/budget/config.rs:24-41 BudgetLimits] *)
Record BudgetLimits := mkBudgetLimits {
  bl_soft_limit_micros : option Z;
  bl_alert_thresholds_percent : list Z;
  bl_hard_limit_micros : option Z
}.
#[global] Instance BudgetLimits_eq_dec : EqDecision BudgetLimits.
Proof. solve_decision. Defined.

(** [crates/application/src/budget/config.rs:77-88 FunctionBudgetConfig] The limits of the
    function, as [limits] gives them. *)
Record FunctionBudgetConfig := mkFunctionBudgetConfig {
  fb_function_id : FunctionId;
  fb_limits : BudgetLimits
}.

(** [crates/application/src/budget/config.rs:100-112 TenantBudgetConfig] *)
Record TenantBudgetConfig := mkTenantBudgetConfig {
  tbc_tenant_id : TenantId;
  tbc_limits : BudgetLimits;
  tbc_functions : list FunctionBudgetConfig
}.

(** [crates/application/src/budget/config.rs:124-136 BudgetBook] *)
Record BudgetBook := mkBudgetBook {
  bk_tenants : list TenantBudgetConfig;
  bk_default_tenant : option BudgetLimits
}.

Definition PERIOD_CALENDAR_MONTH_UTC : string := "calendar_month_utc".

(** [crates/application/src/budget/config.rs:178-204 BudgetConfig] [bc_file] is the path. *)
Record BudgetConfig := mkBudgetConfig {
  bc_enabled : bool;
  bc_period : string;
  bc_file : option string;
  bc_tenants : list TenantBudgetConfig;
  bc_default_tenant : option BudgetLimits;
  bc_reservation_slack_ms : Z;
  bc_expiry_grace_seconds : Z;
  bc_max_unsettled_age_seconds : Z;
  bc_settle_batch : nat
}.

(** [crates/application/src/budget/config.rs:283-287 FunctionBudget] *)
Record FunctionBudget := mkFunctionBudget { fbu_function_id : FunctionId; fbu_limits : BudgetLimits }.
#[global] Instance FunctionBudget_eq_dec : EqDecision FunctionBudget.
Proof. solve_decision. Defined.

(** [crates/application/src/budget/config.rs:269-281 TenantBudget] *)
Record TenantBudget := mkTenantBudget {
  tb_tenant_id : TenantId;
  tb_period : string;
  tb_currency : string;
  tb_price_table_version : string;
  tb_limits : BudgetLimits;
  tb_functions : list FunctionBudget
}.
#[global] Instance TenantBudget_eq_dec : EqDecision TenantBudget.
Proof. solve_decision. Defined.

Module Budgets.

(** [crates/application/src/budget/config.rs:50-63 validate (part)] *)
Fixpoint check_thresholds (what : string) (previous : Z) (ps : list Z) : result string unit :=
  match ps with
  | [] => Ok tt
  | p :: ps =>
      when! (p =? 0) || (1000 <? p) return!
        Err (what +:+ ": alert thresholds must be within 1..=1000 percent, got " +:+ pretty p);;
      when! p <=? previous return!
        Err (what +:+ ": alert_thresholds_percent must be strictly increasing");;
      check_thresholds what p ps
  end.

(** [crates/application/src/budget/config.rs:44-74 validate] *)
Definition validate_limits (what : string) (l : BudgetLimits) : result string unit :=
  when! negb (bl_alert_thresholds_percent l == []) && is_none (bl_soft_limit_micros l) return!
    Err (what +:+ ": alert_thresholds_percent needs soft_limit_micros (alerts and the hard limit are separate settings)");;
  _ ← check_thresholds what 0 (bl_alert_thresholds_percent l);
  when! existsb (λ v, is_some_and v (λ v, i64_max <? v)) [bl_soft_limit_micros l; bl_hard_limit_micros l] return!
    Err (what +:+ ": limits must be at most " +:+ pretty i64_max);;
  Ok tt.

(** [crates/application/src/budget/config.rs:156-166 validate (part)] *)
Fixpoint check_functions (tenant : TenantId) (seen : gset FunctionId) (fs : list FunctionBudgetConfig)
    : result string unit :=
  match fs with
  | [] => Ok tt
  | f :: fs =>
      when! bool_decide (fb_function_id f ∈ seen) return!
        Err ("budget: function " +:+ fb_function_id f +:+ " of tenant " +:+ tenant +:+ " is listed twice");;
      _ ← validate_limits ("budget function " +:+ fb_function_id f) (fb_limits f);
      check_functions tenant ({[fb_function_id f]} ∪ seen) fs
  end.

(** [crates/application/src/budget/config.rs:149-167 validate (part)] *)
Fixpoint check_tenants (seen : gset TenantId) (ts : list TenantBudgetConfig) : result string unit :=
  match ts with
  | [] => Ok tt
  | t :: ts =>
      when! bool_decide (tbc_tenant_id t ∈ seen) return!
        Err ("budget: tenant " +:+ tbc_tenant_id t +:+ " is listed twice");;
      _ ← validate_limits ("budget tenant " +:+ tbc_tenant_id t) (tbc_limits t);
      _ ← check_functions (tbc_tenant_id t) ∅ (tbc_functions t);
      check_tenants ({[tbc_tenant_id t]} ∪ seen) ts
  end.

(** [crates/application/src/budget/config.rs:151-175 validate] *)
Definition validate_book (b : BudgetBook) : result string unit :=
  _ ← check_tenants ∅ (bk_tenants b);
  match bk_default_tenant b with
  | Some d => validate_limits "budget default_tenant" d
  | None => Ok tt
  end.

(** [crates/application/src/budget/config.rs:139-143 from_toml] [parsed] is what the TOML library
    made of the text. *)
Definition from_toml (parsed : result string BudgetBook) : result string BudgetBook :=
  match parsed with
  | Err e => Err ("budget file: " +:+ e)
  | Ok book => _ ← validate_book book; Ok book
  end.

(** [crates/application/src/budget/config.rs:207-219 default] *)
Definition default_config : BudgetConfig :=
  mkBudgetConfig false PERIOD_CALENDAR_MONTH_UTC None [] None 250 30 30 500.

(** [crates/application/src/budget/config.rs:223-229 publishes] *)
Definition publishes (c : BudgetConfig) : bool :=
  bc_enabled c || is_some (bc_file c) || negb (bool_decide (length (bc_tenants c) = 0%nat))
  || is_some (bc_default_tenant c).

(** [crates/application/src/budget/config.rs:231-236 inline_book] *)
Definition inline_book (c : BudgetConfig) : BudgetBook := mkBudgetBook (bc_tenants c) (bc_default_tenant c).

(** [crates/application/src/budget/config.rs:238-258 validate] *)
Definition validate (c : BudgetConfig) : result string unit :=
  when! bc_period c != PERIOD_CALENDAR_MONTH_UTC return!
    Err ("[budget] period must be " +:+ UsageConf.quoted PERIOD_CALENDAR_MONTH_UTC +:+ ", got "
      +:+ UsageConf.quoted (bc_period c));;
  when! is_some (bc_file c)
        && (negb (bool_decide (length (bc_tenants c) = 0%nat)) || is_some (bc_default_tenant c)) return!
    Err "[budget] set either file or inline tenants / default_tenant, not both";;
  _ ← validate_book (inline_book c);
  when! bc_max_unsettled_age_seconds c =? 0 return! Err "[budget] max_unsettled_age_seconds must be >= 1";;
  when! (bc_settle_batch c =? 0)%nat return! Err "[budget] settle_batch must be >= 1";;
  Ok tt.

(** [crates/application/src/budget/config.rs:290-295 function] *)
Definition function (id : FunctionId) (b : TenantBudget) : option BudgetLimits :=
  fbu_limits <$> List.find (λ f, fbu_function_id f == id) (tb_functions b).

(** [crates/application/src/budget/config.rs:299-328 budget_for] *)
Definition budget_for (tenant : TenantId) (period currency price_table_version : string)
    (b : BudgetBook) : option TenantBudget :=
  let build := mkTenantBudget tenant period currency price_table_version in
  match List.find (λ t, tbc_tenant_id t == tenant) (bk_tenants b) with
  | Some t => Some (build (tbc_limits t)
                      ((λ f, mkFunctionBudget (fb_function_id f) (fb_limits f)) <$> tbc_functions t))
  | None => (λ d, build d []) <$> bk_default_tenant b
  end.
End Budgets.

(** ** Publication *)

(** [crates/application/src/budget/publish.rs:22-30 PublicationStatus] *)
Record PublicationStatus := mkPublicationStatus {
  ps_file : option string;
  ps_loads : Z;
  ps_last_error : option string;
  ps_tenants : nat;
  ps_has_default : bool
}.
#[global] Instance PublicationStatus_eta : Eta PublicationStatus := λ r,
  mkPublicationStatus (ps_file r) (ps_loads r) (ps_last_error r) (ps_tenants r) (ps_has_default r).

(** [crates/application/src/budget/publish.rs:38-44 BudgetPublisher] With its [State]; a file's
    signature is its modification time and size, if it can be read. *)
Record BudgetPublisher := mkBudgetPublisher {
  bp_file : option string;
  bp_period : string;
  bp_currency : string;
  bp_price_table_version : string;
  bp_signature : option (Z * Z);
  bp_book : BudgetBook;
  bp_status : PublicationStatus
}.
#[global] Instance BudgetPublisher_eta : Eta BudgetPublisher := λ r,
  mkBudgetPublisher (bp_file r) (bp_period r) (bp_currency r) (bp_price_table_version r)
    (bp_signature r) (bp_book r) (bp_status r).

(** What the file is when it is looked at: its signature, and what loading it gives. *)
Record FileState := mkFileState { fs_signature : option (Z * Z); fs_load : result string BudgetBook }.

Module Publisher.
(** [crates/application/src/budget/publish.rs:60-84 new] *)
Definition new (c : BudgetConfig) (currency version : string) (file : FileState)
    : result string BudgetPublisher :=
  '(book, signature, loads) ←
    match bc_file c with
    | Some _ => book ← fs_load file; Ok (book, fs_signature file, 1)
    | None => Ok (Budgets.inline_book c, None, 0)
    end;
  Ok (mkBudgetPublisher (bc_file c) (bc_period c) currency version signature book
        (mkPublicationStatus (bc_file c) loads None (length (bk_tenants book))
           (is_some (bk_default_tenant book)))).

(** [crates/application/src/budget/publish.rs:86-119 refresh] *)
Definition refresh (file : FileState) (p : BudgetPublisher) : BudgetPublisher :=
  when! is_none (bp_file p) return! p;;
  when! fs_signature file == bp_signature p return! p;;
  match fs_load file with
  | Ok book =>
      p <| bp_status ::= λ s, s <| ps_loads ::= λ n, n + 1 |> <| ps_last_error := None |>
             <| ps_tenants := length (bk_tenants book) |>
             <| ps_has_default := is_some (bk_default_tenant book) |> |>
        <| bp_book := book |> <| bp_signature := fs_signature file |>
  | Err e => p <| bp_status ::= λ s, s <| ps_last_error := Some e |> |>
  end.

(** [crates/application/src/budget/publish.rs:138-147 budgets] *)
Definition budgets (file : FileState) (tenants : list TenantId) (p : BudgetPublisher)
    : list TenantBudget * BudgetPublisher :=
  let p := refresh file p in
  (omap (λ t, Budgets.budget_for t (bp_period p) (bp_currency p) (bp_price_table_version p) (bp_book p))
     tenants, p).
End Publisher.
