(* ===== verification/AsyncRun.v ===== *)
(** * The asynchronous dispatcher

    [crates/application/src/services/invoke_async/dispatch.rs]: what one delivery of
    the queue leads to. A delivery is only a hint; the handler decides on the ledger:
    it inspects the event, refuses dead ends, claims the run, and settles its outcome
    by the retry policy, each in a transaction of its own. The reaper does the same
    for runs, events and invocations nobody delivers any more. What the handler
    decides is a function of what it read; the queue's acknowledgements, the renewal
    timer and the metrics are not modelled. *)

From S2P Require Import Prelude Ids Functions Invocation Guard Store Retry Outbox Dispatch Usage BudgetConf.

Open Scope string_scope.
Open Scope Z_scope.

(** [crates/application/src/services/invoke_async/mod.rs:181-205 InvokeEnvelope] *)
Record InvokeEnvelope := mkEnvelope {
  ev_version : Z;
  ev_invocation_id : InvocationId;
  ev_tenant_id : TenantId;
  ev_function_id : FunctionId;
  ev_revision_id : RevisionId;
  ev_event_kind : EventKind;
  ev_input_digest : Sha256Digest;
  ev_input_size_bytes : Z;
  ev_input_storage : string;
  ev_accepted_at : Timestamp;
  ev_queue_deadline : Timestamp;
  ev_trace_id : string;
  ev_generation : Z
}.

Definition ENVELOPE_VERSION : Z := 1.
Definition INVOKE_TOPIC : string := "invoke".

(** A delivery of the queue: its message id, routing tenant, payload and sequence. *)
Record Delivery := mkDelivery {
  dv_message_id : string;
  dv_tenant_id : TenantId;
  dv_payload : string;
  dv_sequence : Z
}.

(** The code outside the repository the dispatcher relies on: the JSON of the
    envelope, the digest of an input, the texts of an error and
    of an instant, the parser of events and the object store. *)
Record Codec := mkCodec {
  Payload : Type;
  encode : InvokeEnvelope → string;
  decode : string → result string InvokeEnvelope;
  sha256 : string → Sha256Digest;
  display : DomainError → string;
  rfc3339 : Timestamp → string;
  parse_event : string → result string Payload;
  get_object : option (ObjectRef → result string string)
}.

Module AsyncRefusal.
(** [crates/application/src/services/invoke_async/mod.rs:83-100 AsyncRefusal] *)
Inductive t : Type :=
| Backlog | QueueFull | QueueUnavailable | ObjectStoreUnavailable | ObjectQuota | InputTooLarge
| NotConfigured.

(** [crates/application/src/services/invoke_async/mod.rs:103-113 as_str] *)
Definition as_str (r : t) : string :=
  match r with
  | Backlog => "backlog"
  | QueueFull => "queue_full"
  | QueueUnavailable => "queue_unavailable"
  | ObjectStoreUnavailable => "object_store_unavailable"
  | ObjectQuota => "object_quota"
  | InputTooLarge => "input_too_large"
  | NotConfigured => "not_configured"
  end.
End AsyncRefusal.

(** [crates/application/src/error.rs:21-100 AppError] The errors the asynchronous
    services answer with; [Ledgers] and [Domains] are the repository's and the domain's,
    before they are mapped. *)
Inductive AppError : Type :=
| Ledgers (e : RepoError)
| Domains (e : DomainError)
| Forbidden (message : string)
| Absent (what : string)
| Conflicting (message : string)
| IdempotencyConflict (key : string) (invocation_id : InvocationId)
| InvalidRequest (message : string)
| PayloadTooLarge (size max : Z)
| AsyncRefused (reason : AsyncRefusal.t) (message : string)
| ProviderUnavailable (message : string)
| Platform (message : string)
| Unauthorized (message : string)
| Gone (message : string)
| RevisionNotReady (message : string)
| FunctionDeleted (message : string)
| Control (kind : ControlError.t) (message : string)
| UsageRefused (refusal : JournalRefusal.t) (message : string)
| BudgetRefused (refusal : BudgetRefusal.t) (message : string).

(** [crates/application/src/error.rs:293-309 From<RepoError>] *)
Definition from_repo (e : RepoError) : AppError :=
  match e with
  | NotFound what => Absent what
  | Conflict what | Refused what => Conflicting what
  | Store msg | Io msg => Control ControlError.StoreUnavailable ("storage: " +:+ msg)
  | Serialization msg => Platform ("storage: " +:+ msg)
  end.

(** A failure of the ledger is the caller's failure. *)
Definition ledger {A} (r : result RepoError A) : result AppError A := map_err Ledgers r.

Module HandleOutcome.
(** [crates/application/src/services/invoke_async/dispatch.rs:75-99 HandleOutcome] *)
Inductive t : Type :=
| Completed (status : string)
| Rescheduled (next_attempt_at : Timestamp) (counted : bool)
| DeadLettered (reason : DeadLetterReason.t)
| Skipped (why : string)
| NotDue (at_ : Timestamp)
| Poisoned
| Failed (error : string)
| LostClaim.

(** [crates/application/src/services/invoke_async/dispatch.rs:102-116 metric_label] *)
Definition metric_label (o : t) : string :=
  match o with
  | Completed _ => "completed"
  | Rescheduled _ _ => "rescheduled"
  | DeadLettered _ => "dead_lettered"
  | Skipped why =>
      if why == "terminal" then "skipped_terminal"
      else if why == "stale_generation" then "skipped_stale" else "skipped_claimed"
  | NotDue _ => "not_due"
  | Poisoned => "poison"
  | Failed _ => "failed"
  | LostClaim => "lost_claim"
  end.
End HandleOutcome.

(** [crates/application/src/services/invoke_async/dispatch.rs:198-206 Decision] *)
Record Decision := mkDecision {
  dn_invocation : Invocation;
  dn_state : DispatchState.t;
  dn_next_attempt_at : option Timestamp;
  dn_error : option InvocationError;
  dn_counted : bool;
  dn_dead : option DeadLetterReason.t
}.

(** ** Before the run *)

(** What a delivery is found to be. *)
Inductive Inspection : Type :=
| IsPoison (detail : string)
| IsSkipped (why : string)
| IsEarly (at_ : Timestamp)
| IsDue (envelope : InvokeEnvelope) (invocation : Invocation) (record : DispatchRecord).

(** [crates/application/src/services/invoke_async/dispatch.rs:356-413 handle_inner (steps 1 and 2)]
    The event's envelope and its invocation, as the handler reads it; or what the
    delivery is already found to be. *)
Definition locate (o : Codec) (d : Delivery) (l : Ledger) : Inspection + InvokeEnvelope * Invocation :=
  match decode o (dv_payload d) with
  | Err e => inl (IsPoison ("the envelope is not decodable: " +:+ e))
  | Ok envelope =>
      when! negb (ev_version envelope =? ENVELOPE_VERSION) return!
        inl (IsPoison ("unsupported envelope version " +:+ pretty (ev_version envelope)));;
      when! (message_id_for (ev_invocation_id envelope) (ev_generation envelope) != dv_message_id d)
            || (ev_tenant_id envelope != dv_tenant_id d) return!
        inl (IsPoison "the envelope does not match its message id or routing tenant");;
      match st_invocations (lg_store l) !! ev_invocation_id envelope with
      | None => inl (IsPoison "the event names no invocation of this tenant")
      | Some inv =>
          when! (inv_tenant_id inv != dv_tenant_id d)
                || (inv_function_id inv != ev_function_id envelope)
                || (inv_revision_id inv != ev_revision_id envelope)
                || (inv_input_digest inv != ev_input_digest envelope)
                || (inv_mode inv != Async) return!
            inl (IsPoison "the event names no invocation of this tenant");;
          when! InvocationStatus.is_terminal (inv_status inv) return! inl (IsSkipped "terminal");;
          inr (envelope, inv)
      end
  end.

(** [crates/application/src/services/invoke_async/dispatch.rs:415-437 handle_inner (step 3)]
    The generation, the claim and the schedule of the row, read in a transaction of
    its own, at the handler's one reading of the clock. *)
Definition check_record (envelope : InvokeEnvelope) (inv : Invocation) (now : Timestamp) (l : Ledger)
    : Inspection :=
  let record := record_or_unclaimed inv l in
  when! negb (ev_generation envelope =? dr_generation record) return! IsSkipped "stale_generation";;
  when! Rec.claim_live now record return! IsSkipped "claimed";;
  when! (dr_state record == DispatchState.Scheduled)
        && is_some_and (dr_next_attempt_at record) (λ t, now <? t) return!
    IsEarly (unwrap_or (dr_next_attempt_at record) now);;
  IsDue envelope inv record.

(** [crates/application/src/services/invoke_async/dispatch.rs:356-437 handle_inner (steps 1 to 3)]
    The invocation is read of the ledger [l], its row of a later one, [l']. *)
Definition inspect (o : Codec) (d : Delivery) (now : Timestamp) (l l' : Ledger) : Inspection :=
  match locate o d l with
  | inl found => found
  | inr (envelope, inv) => check_record envelope inv now l'
  end.

(** [crates/application/src/services/invoke_async/dispatch.rs:612-663 pre_run_dead_end]
    [deleted] is the configuration cache's answer. *)
Definition pre_run_dead_end (deleted : bool) (inv : Invocation) (record : DispatchRecord)
    (policy : RetryPolicy) (now : Timestamp) : option (DeadLetterReason.t * InvocationError) :=
  when! expires_at policy inv <=? now return!
    Some (DeadLetterReason.Expired,
          unwrap_or (dr_last_error record)
            (mkInvError ErrorClass.QueueTimeout EVENT_EXPIRED
               ("the event is older than its maximum age ("
                  +:+ pretty (Z.quot (rp_max_event_age policy) nanoseconds_per_second)
                  +:+ " s) or queue deadline")));;
  when! rp_max_attempts policy <=? dr_attempts record return!
    Some (DeadLetterReason.AttemptsExhausted,
          unwrap_or (dr_last_error record)
            (mkInvError ErrorClass.OutcomeUnknown RUN_ABANDONED
               "every attempt ended without a recorded result"));;
  when! deleted return!
    Some (DeadLetterReason.FunctionDeleted,
          mkInvError ErrorClass.PlatformError FUNCTION_DELETED
            "the function was deleted before the invocation could run");;
  None.

(** [crates/application/src/services/invoke_async/dispatch.rs:703-714 resolve (pinned revision)]
    The cache must answer with the pinned revision. *)
Definition resolve (cached : result InvocationError RevisionId) (inv : Invocation)
    : result InvocationError unit :=
  r ← cached;
  if r == inv_revision_id inv then Ok tt
  else Err (mkInvError ErrorClass.PlatformError REVISION_UNAVAILABLE
              "the pinned revision did not resolve").

(** An error of the platform. *)
Definition platform_error {A} (error_type message : string) : result InvocationError A :=
  Err (mkInvError ErrorClass.PlatformError error_type message).

(** [crates/application/src/services/invoke_async/dispatch.rs:739-770 read_input (bytes)] *)
Definition input_bytes (o : Codec) (inv : Invocation) (body : AsyncInputBody)
    : result InvocationError string :=
  match body with
  | InlineBody bytes => Ok bytes
  | ObjectBody reference =>
      when! obj_tenant_id reference != inv_tenant_id inv return!
        platform_error INPUT_CORRUPT "the input object is not the invocation's";;
      match get_object o with
      | None => platform_error INPUT_UNAVAILABLE
                  "the input is in the object store, but none is configured"
      | Some get =>
          match get reference with
          | Ok bytes => Ok bytes
          | Err code => platform_error INPUT_UNAVAILABLE
                          ("reading the input object (" +:+ code +:+ ")")
          end
      end
  end.

(** [crates/application/src/services/invoke_async/dispatch.rs:716-782 read_input] *)
Definition read_input (o : Codec) (inv : Invocation) (l : Ledger)
    : result InvocationError (Payload o) :=
  match lg_inputs l !! inv_id inv with
  | Some input =>
      when! in_tenant_id input != inv_tenant_id inv return!
        platform_error INPUT_CORRUPT "the invocation has no stored input";;
      bytes ← input_bytes o inv (in_body input);
      when! sha256 o bytes != inv_input_digest inv return!
        platform_error INPUT_CORRUPT "the stored input does not match the accepted digest";;
      match parse_event o bytes with
      | Ok payload => Ok payload
      | Err e => platform_error INVALID_INPUT ("the input is not a JSON event: " +:+ e)
      end
  | None => platform_error INPUT_CORRUPT "the invocation has no stored input"
  end.

(** ** Decisions *)

(** [crates/application/src/services/invoke_async/dispatch.rs:1374-1401 settle_failed] *)
Definition settle_failed (error : InvocationError) (now : Timestamp) (inv : Invocation)
    : Invocation :=
  match err_class error with
  | ErrorClass.OutcomeUnknown =>
      match inv_status inv with
      | InvocationStatus.Running =>
          match Inv.mark_outcome_unknown (err_message error) now inv with
          | Ok i =>
              match inv_status i with
              | InvocationStatus.OutcomeUnknown e =>
                  i <| inv_status := InvocationStatus.OutcomeUnknown
                         (mkInvError (err_class e) (err_type error) (err_message e)) |>
              | _ => i
              end
          | Err _ => inv
          end
      | _ => or_unchanged inv (Inv.mark_failed
               (mkInvError ErrorClass.PlatformError (err_type error) (err_message error)) now inv)
      end
  | ErrorClass.Cancelled =>
      or_unchanged inv (Inv.mark_failed
        (mkInvError ErrorClass.PlatformError (err_type error) (err_message error)) now inv)
  | _ => or_unchanged inv (Inv.mark_failed error now inv)
  end.

Section decisions.
Context (o : Codec) (c : AsyncDispatchConfig) (jitter : Z → Z).

(** [crates/application/src/services/invoke_async/dispatch.rs:969-990 dead_letter_and_ack] *)
Definition dead_lettered (reason : DeadLetterReason.t) (error : InvocationError) (counted : bool)
    (now : Timestamp) (inv : Invocation) : Decision :=
  mkDecision (settle_failed error now inv) DispatchState.Dead None (Some error) counted (Some reason).

(** [crates/application/src/services/invoke_async/dispatch.rs:887-967 schedule_and_ack] *)
Definition schedule (inv : Invocation) (record : DispatchRecord) (fence : Fence.t)
    (policy : RetryPolicy) (error : InvocationError) (counted : bool)
    (not_before : option Timestamp) (now : Timestamp) : result AppError Decision :=
  let attempts := if from_claim fence && negb counted then Z.max (dr_attempts record - 1) 0
                  else dr_attempts record in
  when! counted && (rp_max_attempts policy <=? attempts) return!
    Ok (dead_lettered DeadLetterReason.AttemptsExhausted error true now inv);;
  let tries := if counted then attempts else Z.min (dr_deferrals record + 1) u32_max in
  let next := now + Config.backoff (Z.max tries 1) jitter c in
  let next := match not_before with Some t => Z.max next t | None => next end in
  when! expires_at policy inv <=? next return!
    Ok (dead_lettered DeadLetterReason.Expired error counted now inv);;
  match Inv.mark_requeued inv with
  | Ok inv => Ok (mkDecision inv DispatchState.Scheduled (Some next) (Some error) counted None)
  | Err e => Err (Platform ("cannot requeue invocation " +:+ inv_id inv +:+ ": " +:+ display o e))
  end.

(** [crates/application/src/services/invoke_async/dispatch.rs:813-846 complete_and_ack] *)
Definition complete (inv : Invocation) (record : DispatchRecord) (fence : Fence.t)
    (output : option PayloadRef) (http_status : option Z) (now now' : Timestamp)
    : result AppError Decision :=
  match Inv.mark_succeeded output http_status now inv with
  | Ok inv => Ok (mkDecision inv DispatchState.Done None None true None)
  | Err e =>
      let error := mkInvError ErrorClass.OutcomeUnknown "Host.OutcomeUnknown"
                     ("the run succeeded but could not be recorded: " +:+ display o e) in
      schedule inv record fence (Config.policy_for (inv_function_id inv) c) error true None now'
  end.

(** [crates/application/src/services/invoke_async/dispatch.rs:848-869 cancel_and_ack] *)
Definition cancel (inv : Invocation) (now : Timestamp) : Decision :=
  mkDecision (or_unchanged inv (Inv.mark_cancelled now inv)) DispatchState.Done None None true None.
End decisions.

(** ** Committing a decision *)

(** [crates/application/src/services/invoke_async/dispatch.rs:1103-1143 next_event] *)
Definition next_event (o : Codec) (inv : Invocation) (record : DispatchRecord) (due : Timestamp)
    (l : Ledger) : result AppError OutboxEvent :=
  match lg_inputs l !! inv_id inv with
  | None => Err (Platform "the invocation has no stored input")
  | Some input =>
      let generation := dr_generation record + 1 in
      let envelope :=
        mkEnvelope ENVELOPE_VERSION (inv_id inv) (inv_tenant_id inv) (inv_function_id inv)
          (inv_revision_id inv) (inv_event_kind inv) (inv_input_digest inv)
          (inv_input_size_bytes inv) (storage input) (inv_accepted_at inv)
          (queue_deadline (inv_deadlines inv)) (inv_trace_id inv) generation in
      Ok (Event.new (inv_id inv) (inv_tenant_id inv) INVOKE_TOPIC (encode o envelope) due
            <| ob_generation := generation |>)
  end.

(** [crates/application/src/services/invoke_async/dispatch.rs:1145-1189 dead_letter_for] *)
Definition dead_letter_for (id : string) (inv : Invocation) (record : DispatchRecord)
    (reason : DeadLetterReason.t) (error : option InvocationError) (counted from_claim : bool)
    (now : Timestamp) (l : Ledger) : DeadLetter :=
  let attempts := if negb counted && from_claim then Z.max (dr_attempts record - 1) 0
                  else dr_attempts record in
  let deferrals := if counted then dr_deferrals record
                   else Z.min (dr_deferrals record + 1) u32_max in
  mkDead id (inv_tenant_id inv) (Some (inv_function_id inv)) (Some (inv_id inv))
    (Some (inv_revision_id inv)) reason Open attempts deferrals error (Some (inv_accepted_at inv))
    (dr_first_attempt_at record) (dr_last_attempt_at record) now (Some (inv_input_digest inv))
    (Some (inv_input_size_bytes inv)) (storage <$> lg_inputs l !! inv_id inv) None None None 0 None.

(** What the dispatcher is given for one commit: the clock and the next id. *)
Record Fresh := mkFresh { fr_now : Timestamp; fr_dead_letter_id : string; fr_created_at : Timestamp }.

(** [crates/application/src/services/invoke_async/dispatch.rs:1033-1073 commit (settle)] The
    settle a decision asks for. *)
Definition settle_of (o : Codec) (record : DispatchRecord) (fence : Fence.t) (d : Decision)
    (fresh : Fresh) (l : Ledger) : result AppError DispatchSettle :=
  event ← match dn_state d, dn_next_attempt_at d with
          | DispatchState.Scheduled, Some due =>
              e ← next_event o (dn_invocation d) record due l; Ok (Some e)
          | _, _ => Ok None
          end;
  let dead := (λ reason, dead_letter_for (fr_dead_letter_id fresh) (dn_invocation d) record reason
                           (dn_error d) (dn_counted d) (from_claim fence) (fr_created_at fresh) l)
              <$> dn_dead d in
  Ok (mkSettle fence (dn_invocation d) (dn_state d) (dn_next_attempt_at d) (dn_error d)
        (dn_counted d) dead event (fr_now fresh)).

(** [crates/application/src/services/invoke_async/dispatch.rs:1026-1101 commit] *)
Definition commit (cfg : StoreConfig) (o : Codec) (record : DispatchRecord) (fence : Fence.t)
    (d : Decision) (fresh : Fresh) (l : Ledger) : result AppError (SettleOutcome.t * Ledger) :=
  settle ← settle_of o record fence d fresh l;
  ledger (settle_dispatch cfg settle l).

(** [crates/application/src/services/invoke_async/dispatch.rs:992-1024 commit_and_ack] *)
Definition commit_and_ack (cfg : StoreConfig) (o : Codec) (record : DispatchRecord)
    (fence : Fence.t) (d : Decision) (fresh : Fresh) (l : Ledger)
    : result AppError (HandleOutcome.t * Ledger) :=
  let outcome :=
    match dn_dead d, dn_state d with
    | Some reason, _ => HandleOutcome.DeadLettered reason
    | None, DispatchState.Scheduled =>
        HandleOutcome.Rescheduled (unwrap_or (dn_next_attempt_at d) (fr_now fresh)) (dn_counted d)
    | None, _ => HandleOutcome.Completed (InvocationStatus.name (inv_status (dn_invocation d)))
    end in
  '(settled, l) ← commit cfg o record fence d fresh l;
  match settled with
  | SettleOutcome.Committed => Ok (outcome, l)
  | SettleOutcome.Lost _ => Ok (HandleOutcome.LostClaim, l)
  end.

(** [crates/application/src/services/invoke_async/dispatch.rs:1191-1234 poison] *)
Definition poison (o : Codec) (d : Delivery) (detail : string) (fresh : Fresh) (l : Ledger)
    : result AppError (HandleOutcome.t * Ledger) :=
  let dead := mkDead (fr_dead_letter_id fresh) (dv_tenant_id d) None None None
                DeadLetterReason.Poison Open 0 0 None None None None (fr_created_at fresh)
                (Some (sha256 o (dv_payload d))) (Some (byte_len (dv_payload d))) None
                (Some (dv_message_id d)) (Some (dv_sequence d)) (Some detail) 0 None in
  '(_, l) ← ledger (record_poison dead l);
  Ok (HandleOutcome.Poisoned, l).

(** ** One delivery *)

(** The clock readings of one delivery: when it was inspected (and claims), when a
    decision was made, and those of the commit. *)
Record Readings := mkReadings { tm_check : Timestamp; tm_decide : Timestamp; tm_fresh : Fresh }.

(** Where the handler is before the run: done with the delivery, or running it. *)
Inductive Before (o : Codec) : Type :=
| BeforeDone (outcome : HandleOutcome.t)
| BeforeRun (invocation : Invocation) (record : DispatchRecord) (payload : Payload o).
Arguments BeforeDone {o} _.
Arguments BeforeRun {o} _ _ _.

Section handler.
Context (cfg : StoreConfig) (o : Codec) (c : AsyncDispatchConfig) (jitter : Z → Z).
Context (owner : string).

(** [crates/application/src/services/invoke_async/dispatch.rs:452-468 handle_inner (refusal)]
    A run that cannot start with [error]: a dead letter, or deferred. *)
Definition refuse_run (inv : Invocation) (record : DispatchRecord) (fence : Fence.t)
    (policy : RetryPolicy) (error : InvocationError) (tm : Readings) (l : Ledger)
    : result AppError (HandleOutcome.t * Ledger) :=
  match classify error with
  | Disposition.DeadLetter reason =>
      commit_and_ack cfg o record fence (dead_lettered reason error true (tm_decide tm) inv)
        (tm_fresh tm) l
  | _ =>
      d ← schedule o c jitter inv record fence policy error false None (tm_decide tm);
      commit_and_ack cfg o record fence d (tm_fresh tm) l
  end.

(** [crates/application/src/services/invoke_async/dispatch.rs:469-482 handle_inner (retry budget)]
    The error of a retry over the budget. *)
Definition budget_error (inv : Invocation) (next_window : Timestamp) : InvocationError :=
  mkInvError ErrorClass.PlatformError RETRY_BUDGET_EXHAUSTED
    ("the retry budget of function " +:+ inv_function_id inv +:+ " (" +:+
     pretty (cf_retry_budget c) +:+ " per " +:+ pretty (cf_retry_budget_window_seconds c) +:+
     " s) is spent until " +:+ rfc3339 o next_window).

(** Where the handler is after the last transaction before its run. *)
Inductive Started : Type :=
| StartOver (outcome : HandleOutcome.t)
| StartClaimed (invocation : Invocation) (record : DispatchRecord).

(** [crates/application/src/services/invoke_async/dispatch.rs:497-527 handle_inner (step 5: the claim)]
    One transaction: it reads the row again, and not its attempts. *)
Definition claim_run (envelope : InvokeEnvelope) (inv : Invocation) (now : Timestamp) (l : Ledger)
    : result AppError (Started * Ledger) :=
  '(claimed, l) ← ledger (claim_dispatch (mkClaim (inv_id inv) owner (ev_generation envelope)
                                           now (Config.claim_ttl c)) l);
  Ok (match claimed with
      | ClaimOutcome.Claimed inv record => StartClaimed inv record
      | ClaimOutcome.Terminal _ => StartOver (HandleOutcome.Skipped "terminal")
      | ClaimOutcome.Stale _ => StartOver (HandleOutcome.Skipped "stale_generation")
      | ClaimOutcome.Held _ _ => StartOver (HandleOutcome.Skipped "claimed")
      | ClaimOutcome.NotDue t => StartOver (HandleOutcome.NotDue t)
      end, l).

(** [crates/application/src/services/invoke_async/dispatch.rs:438-527 handle_inner (steps 4 and 5)]
    Everything decided before a due event is run, and the one transaction it leads to:
    [inv] and [record] are what the handler read, [l] is the ledger by now. [deleted]
    and [cached] are the configuration cache's answers. *)
Definition start_run (envelope : InvokeEnvelope) (inv : Invocation) (record : DispatchRecord)
    (deleted : bool) (cached : result InvocationError RevisionId) (tm : Readings)
    (b : RetryBudget) (l : Ledger) : result AppError (Started * RetryBudget * Ledger) :=
  let policy := Config.policy_for (inv_function_id inv) c in
  let fence := Fence.Unclaimed (dr_generation record) in
  match pre_run_dead_end deleted inv record policy (tm_check tm) with
  | Some (reason, error) =>
      '(outcome, l) ← commit_and_ack cfg o record fence
                        (dead_lettered reason error true (tm_decide tm) inv) (tm_fresh tm) l;
      Ok (StartOver outcome, b, l)
  | None =>
      match resolve cached inv with
      | Err error =>
          '(outcome, l) ← refuse_run inv record fence policy error tm l;
          Ok (StartOver outcome, b, l)
      | Ok _ =>
          let (budgeted, b) := if 0 <? dr_attempts record
                               then take_retry c (inv_function_id inv) (tm_check tm) b
                               else (Ok tt, b) in
          match budgeted with
          | Err next_window =>
              d ← schedule o c jitter inv record fence policy (budget_error inv next_window) false
                    (Some next_window) (tm_decide tm);
              '(outcome, l) ← commit_and_ack cfg o record fence d (tm_fresh tm) l;
              Ok (StartOver outcome, b, l)
          | Ok _ =>
              '(started, l) ← claim_run envelope inv (tm_check tm) l;
              Ok (started, b, l)
          end
      end
  end.

(** What the transactions of other processes make of the ledger between two of the
    handler's own. *)
Definition Others : Type := nat → Ledger → Ledger.

(** Nobody else is at work. *)
Definition alone : Others := λ _ l, l.

(** [crates/application/src/services/invoke_async/dispatch.rs:528-559 handle_inner (step 5: the input)]
    The input of a claimed run is read, and a run without one is refused. *)
Definition open_run (others : Others) (inv : Invocation) (record : DispatchRecord)
    (policy : RetryPolicy) (tm : Readings) (l : Ledger) : result AppError (Before o * Ledger) :=
  match read_input o inv l with
  | Ok payload => Ok (BeforeRun inv record payload, l)
  | Err error =>
      '(outcome, l) ← refuse_run inv record (Fence.Claim owner (dr_attempts record))
                        policy error tm (others 3%nat l);
      Ok (BeforeDone outcome, l)
  end.

(** [crates/application/src/services/invoke_async/dispatch.rs:356-559 handle_inner (before the run)]
    The invocation, its row, the transaction that ends the delivery or claims the run,
    and the input of the run are each read or made of a ledger of their own: [others]
    stand between them. *)
Definition before_run (others : Others) (d : Delivery) (deleted : bool)
    (cached : result InvocationError RevisionId) (tm : Readings) (b : RetryBudget) (l : Ledger)
    : result AppError (Before o * RetryBudget * Ledger) :=
  let seen := others 0%nat l in
  let found := inspect o d (tm_check tm) l seen in
  let l := others 1%nat seen in
  match found with
  | IsPoison detail =>
      '(outcome, l) ← poison o d detail (tm_fresh tm) l;
      Ok (BeforeDone outcome, b, l)
  | IsSkipped why => Ok (BeforeDone (HandleOutcome.Skipped why), b, l)
  | IsEarly t => Ok (BeforeDone (HandleOutcome.NotDue t), b, l)
  | IsDue envelope inv record =>
      '(started, b, l) ← start_run envelope inv record deleted cached tm b l;
      match started with
      | StartOver outcome => Ok (BeforeDone outcome, b, l)
      | StartClaimed inv' record =>
          '(before, l) ← open_run others inv' record (Config.policy_for (inv_function_id inv) c) tm
                           (others 2%nat l);
          Ok (before, b, l)
      end
  end.

(** [crates/application/src/services/invoke_async/dispatch.rs:587-613 handle_inner (steps 6 and 7)]
    The settle of a run that ended with [outcome]; [record] is the row its claim
    wrote, [current] the invocation as the handler read it again, [l] the ledger by
    now. *)
Definition settle_run (current : Invocation) (record : DispatchRecord)
    (outcome : result InvocationError (option PayloadRef * option Z)) (tm : Readings) (l : Ledger)
    : result AppError (HandleOutcome.t * Ledger) :=
  let fence := Fence.Claim owner (dr_attempts record) in
  let policy := Config.policy_for (inv_function_id current) c in
  match outcome with
  | Ok (output, http_status) =>
      d ← complete o c jitter current record fence output http_status (tm_check tm) (tm_decide tm);
      commit_and_ack cfg o record fence d (tm_fresh tm) l
  | Err error =>
      match classify error with
      | Disposition.Cancelled =>
          commit_and_ack cfg o (record_or_unclaimed current l) fence (cancel current (tm_decide tm))
            (tm_fresh tm) l
      | Disposition.DeadLetter reason =>
          commit_and_ack cfg o record fence
            (dead_lettered reason error true (tm_decide tm) current) (tm_fresh tm) l
      | Disposition.Defer =>
          d ← schedule o c jitter current record fence policy error false None (tm_decide tm);
          commit_and_ack cfg o record fence d (tm_fresh tm) l
      | Disposition.Retry =>
          d ← schedule o c jitter current record fence policy error true None (tm_decide tm);
          commit_and_ack cfg o record fence d (tm_fresh tm) l
      end
  end.

(** [crates/application/src/services/invoke_async/dispatch.rs:582-613 handle_inner (after the run)]
    Nobody else's transaction between the two. *)
Definition after_run (id : InvocationId) (record : DispatchRecord)
    (outcome : result InvocationError (option PayloadRef * option Z)) (tm : Readings) (l : Ledger)
    : result AppError (HandleOutcome.t * Ledger) :=
  match st_invocations (lg_store l) !! id with
  | None => Err (Ledgers (NotFound "invocation not found"))
  | Some current => settle_run current record outcome tm l
  end.

(** ** The reaper *)

(** [crates/application/src/services/invoke_async/dispatch.rs:119-129 ReapReport] *)
Record ReapReport := mkReap {
  rr_examined : Z;
  rr_abandoned : Z;
  rr_republished : Z;
  rr_dead_lettered : Z;
  rr_lost : Z;
  rr_failed : Z
}.

(** What the reaper makes of a candidate. *)
Inductive Reaping : Type :=
| ReapSkip
| ReapAbandoned (d : Decision)
| ReapRepublished (d : Decision)
| ReapDead (d : Decision).

(** [crates/application/src/services/invoke_async/dispatch.rs:1264-1352 reap (decision)] *)
Definition reap_decision (v : DispatchCandidate) (queue_idle : bool) (now : Timestamp) : Reaping :=
  let inv := cd_invocation v in
  let record := cd_record v in
  let policy := Config.policy_for (inv_function_id inv) c in
  let expired := expires_at policy inv <=? now in
  let abandoned := (dr_state record == DispatchState.Running) && negb (Rec.claim_live now record) in
  let abandoned_error := mkInvError ErrorClass.OutcomeUnknown RUN_ABANDONED
    ("the dispatcher running this attempt stopped before recording a " +:+
     "result; the handler may have run") in
  let expired_error := unwrap_or (dr_last_error record)
    (mkInvError ErrorClass.QueueTimeout EVENT_EXPIRED
       "the event is older than its maximum age or queue deadline") in
  if abandoned || expired then
    let (reason, error) := if expired then (DeadLetterReason.Expired, expired_error)
                           else (DeadLetterReason.AttemptsExhausted, abandoned_error) in
    if abandoned && (reason == DeadLetterReason.AttemptsExhausted)
       && (dr_attempts record <? rp_max_attempts policy)
    then match Inv.mark_requeued inv with
         | Err _ => ReapSkip
         | Ok inv =>
             let next := now + Config.backoff (Z.max (dr_attempts record) 1) jitter c in
             ReapAbandoned (mkDecision inv DispatchState.Scheduled (Some next) (Some error) true None)
         end
    else ReapDead (mkDecision (settle_failed error now inv) DispatchState.Dead None (Some error) true
                     (Some reason))
  else
    let unpublished := is_some_and (cd_outbox v) (λ e, is_none (ob_sent_at e)) in
    when! unpublished || negb queue_idle return! ReapSkip;;
    match Inv.mark_requeued inv with
    | Err _ => ReapSkip
    | Ok inv => ReapRepublished (mkDecision inv DispatchState.Scheduled (Some now) None true None)
    end.

Definition reaped (r : Reaping) : option Decision :=
  match r with ReapSkip => None | ReapAbandoned d | ReapRepublished d | ReapDead d => Some d end.

(** The reaper's count of a decision it is about to commit. *)
Definition count_reaping (r : Reaping) (p : ReapReport) : ReapReport :=
  let '(mkReap e a r' d x f) := p in
  match r with
  | ReapSkip => mkReap (e + 1) a r' d x f
  | ReapAbandoned _ => mkReap (e + 1) (a + 1) r' d x f
  | ReapRepublished _ => mkReap (e + 1) a (r' + 1) d x f
  | ReapDead _ => mkReap (e + 1) a r' (d + 1) x f
  end.

(** [crates/application/src/services/invoke_async/dispatch.rs:1262-1360 reap (candidate)] *)
Definition reap_one (v : DispatchCandidate) (queue_idle : bool) (now : Timestamp) (fresh : Fresh)
    (p : ReapReport) (l : Ledger) : ReapReport * Ledger :=
  let r := reap_decision v queue_idle now in
  let p := count_reaping r p in
  match reaped r with
  | None => (p, l)
  | Some d =>
      let '(mkReap e a r' dl x f) := p in
      match commit cfg o (cd_record v) (Fence.Unclaimed (dr_generation (cd_record v))) d fresh l with
      | Ok (SettleOutcome.Committed, l) => (p, l)
      | Ok (SettleOutcome.Lost _, l) => (mkReap e a r' dl (x + 1) f, l)
      | Err _ => (mkReap e a r' dl x (f + 1), l)
      end
  end.

(** [crates/application/src/services/invoke_async/dispatch.rs:1238-1371 reap] One pass:
    the candidates are read once, and each one's commit is a transaction of its own, on
    what [others] made of the ledger meanwhile. [fresh] gives the clock readings and
    ids of each candidate's commit. *)
Definition reap (others : Others) (queue_idle : bool) (now : Timestamp) (fresh : nat → Fresh) (l : Ledger)
    : ReapReport * Ledger :=
  let candidates := dispatch_candidates now (now - Config.stall_timeout c)
                      (now - Config.min_event_age c) 256 l in
  foldl (λ '(p, l) '(i, v), reap_one v queue_idle now (fresh i) p (others i l))
    (mkReap 0 0 0 0 0 0, l) (imap pair candidates).
End handler.
