(* ===== verification/AsyncSteps.v ===== *)
(** * The asynchronous services over the ledger

    Acceptance, the publisher's transactions, the handlers, claim renewals, the reaper,
    redrives and the collector, as steps over one ledger. A step is at most one
    transaction: a handler reads the invocation, then its row, then claims, and any
    transaction of any other process may fall in between; what it read may be old when
    it acts. Every step is a sequence of the ledger's transactions with arguments as
    [LedgerInv] asks for, so its invariant holds of the ledgers the services reach; and
    as long as no claim is written that some handler's clock has already outlived, no
    run is claimed beyond the attempts of the policy. *)

From S2P Require Import Prelude Ids Functions Invocation Guard Store StoreInv Scenario Retry.
From S2P Require Import Outbox Dispatch LedgerInv AsyncWorld AsyncRun.

Open Scope string_scope.
Open Scope Z_scope.

(** ** Steps *)

(** What a handler read of a due event, and its one reading of the clock. *)
Record Reading := mkReading {
  rg_now : Timestamp;
  rg_envelope : InvokeEnvelope;
  rg_invocation : Invocation;
  rg_record : DispatchRecord
}.

(** The ledger and what the handlers of all processes have read of it so far: the
    invocations, and the due events. [ds_late] records that a claim was written or
    renewed that had already run out on the clock of a handler. *)
Record Dispatchers := mkDispatchers {
  ds_ledger : Ledger;
  ds_located : list (InvokeEnvelope * Invocation);
  ds_seen : list Reading;
  ds_late : bool
}.
#[global] Instance Dispatchers_eta : Eta Dispatchers :=
  λ r, mkDispatchers (ds_ledger r) (ds_located r) (ds_seen r) (ds_late r).

Definition started_run (s : Started) : bool :=
  match s with StartClaimed _ _ => true | StartOver _ => false end.

(** A handler has read the clock when a claim made at [now] is over. *)
Definition outlived (w : Dispatchers) (now : Timestamp) (ttl : Duration) : bool :=
  existsb (λ s, now + ttl <=? rg_now s) (ds_seen w).

Section steps.
Context (cfg : StoreConfig) (o : Codec) (c : AsyncDispatchConfig) (jitter : Z → Z).

(** The transactions that claim no run. Their arguments are what a process read some
    time ago, or is given: any. *)
Inductive service_step (l : Ledger) : Ledger → Prop :=
| ss_accept inv input event backlog b out l' :
    ob_generation event = 0 → accept_async cfg inv input event backlog b l = Ok (out, l') →
    service_step l l'
| ss_claim_events owner now ttl max out l' :
    claim_outbox owner now ttl max l = Ok (out, l') → service_step l l'
| ss_sent event owner sequence now out l' :
    mark_outbox_sent cfg event owner sequence now l = Ok (out, l') → service_step l l'
| ss_unsent event owner next error out l' :
    retry_outbox event owner next error l = Ok (out, l') → service_step l l'
| ss_purge before n l' : purge_sent_outbox before l = Ok (n, l') → service_step l l'
| ss_update inv l' : update_invocation cfg inv l = Ok (tt, l') → service_step l l'
| ss_poison d detail fresh out l' : poison o d detail fresh l = Ok (out, l') → service_step l l'
| ss_refuse owner inv record policy error tm out l' :
    refuse_run cfg o c jitter inv record (Fence.Claim owner (dr_attempts record)) policy error tm l
      = Ok (out, l') → service_step l l'
| ss_settle owner current record outcome tm out l' :
    settle_run cfg o c jitter owner current record outcome tm l = Ok (out, l') → service_step l l'
| ss_reap v queue_idle now fresh p :
    service_step l (reap_one cfg o c jitter v queue_idle now fresh p l).2
| ss_redrive w l' :
    ob_generation (rw_event w) = 0 → rd_dead_letter_id (rw_redrive w) = rw_dead_letter_id w →
    redrive cfg w l = Ok (tt, l') → service_step l l'
| ss_collect object reason now out l' :
    claim_object object reason now l = Ok (out, l') → service_step l l'.

(** One step of a service: a transaction, or a handler's read. A handler that stops
    leaves the transactions it made. *)
Inductive async_step (w : Dispatchers) : Dispatchers → Prop :=
| as_service l' : service_step (ds_ledger w) l' → async_step w (w <| ds_ledger := l' |>)
| as_locate d envelope inv :
    locate o d (ds_ledger w) = inr (envelope, inv) →
    async_step w (w <| ds_located ::= cons (envelope, inv) |>)
| as_check envelope inv now record :
    (envelope, inv) ∈ ds_located w →
    check_record envelope inv now (ds_ledger w) = IsDue envelope inv record →
    async_step w (w <| ds_seen ::= cons (mkReading now envelope inv record) |>)
| as_start owner s deleted cached tm b started b' l' :
    s ∈ ds_seen w → tm_check tm = rg_now s →
    start_run cfg o c jitter owner (rg_envelope s) (rg_invocation s) (rg_record s) deleted cached tm b
      (ds_ledger w) = Ok (started, b', l') →
    async_step w
      (w <| ds_ledger := l' |>
         <| ds_late := ds_late w || started_run started && outlived w (rg_now s) (Config.claim_ttl c) |>)
| as_renew id owner attempts now ttl out l' :
    renew_dispatch_claim id owner attempts now ttl (ds_ledger w) = Ok (out, l') →
    async_step w
      (w <| ds_ledger := l' |> <| ds_late := ds_late w || outlived w now ttl |>).

(** What the services reach. *)
Definition nothing_yet : Dispatchers := mkDispatchers empty_ledger [] [] false.
Definition async_reach (w : Dispatchers) : Prop := rtc async_step nothing_yet w.
End steps.

(** ** Attempts *)

(** No invocation has more attempts than its function's policy allows. *)
Definition attempts_within (c : AsyncDispatchConfig) (l : Ledger) : Prop :=
  ∀ id inv, invs l !! id = Some inv →
    attempts_at l id ≤ rp_max_attempts (Config.policy_for (inv_function_id inv) c).

(** Policies allow at least no attempt: the settings are unsigned. *)
Definition policies_nonneg (c : AsyncDispatchConfig) : Prop :=
  ∀ f, 0 ≤ rp_max_attempts (Config.policy_for f c).

(** Nothing more is delivered of an invocation. *)
Definition ended (l : Ledger) (id : InvocationId) : Prop :=
  ∃ r, lg_dispatch l !! id = Some r ∧ settled_state (dr_state r) = true.

(** The claim of a row is not over at [t]. *)
Definition live_at (t : Timestamp) (l : Ledger) (id : InvocationId) : Prop :=
  ∃ r, lg_dispatch l !! id = Some r ∧ Rec.claim_live t r = true.

(** How a row goes on: to a later generation, to its end, to a claim that is live at
    [t], or not at all. *)
Record row_on (t : Timestamp) (l l' : Ledger) (id : InvocationId) : Prop := {
  ro_generation : generation l id ≤ generation l' id;
  ro_ended : ended l id → ended l' id;
  ro_row : generation l id < generation l' id ∨ ended l' id ∨
           lg_dispatch l' !! id = lg_dispatch l !! id ∨ live_at t l' id
}.

Lemma same_row_on t l l' id : lg_dispatch l' !! id = lg_dispatch l !! id → row_on t l l' id.
Proof.
  intros E. split; [unfold generation; by rewrite E| |by auto].
  unfold ended. by rewrite E.
Qed.

Lemma row_on_trans t l1 l2 l3 id : row_on t l1 l2 id → row_on t l2 l3 id → row_on t l1 l3 id.
Proof.
  intros [G1 E1 R1] [G2 E2 R2]. split; [lia|auto|].
  destruct R2 as [?|[?|[E|?]]]; [left; lia|by auto| |by auto].
  destruct R1 as [?|[?|[E'|(r & Hr & Hl)]]]; [left; lia|by auto| |].
  - right; right; left. congruence.
  - do 3 right. exists r. by rewrite E.
Qed.

(** What a step that claims and renews nothing keeps: the ledger's invariant, its rows
    and the attempts. *)
Record keeps (cfg : StoreConfig) (l l' : Ledger) : Prop := {
  kp_run : ledger_run cfg l l';
  kp_attempts : ledger_wf l → ∀ id, attempts_at l' id ≤ attempts_at l id;
  kp_rows : ledger_wf l → ∀ t id, row_on t l l' id
}.

Lemma keeps_refl cfg l : keeps cfg l l.
Proof. split; [apply run_here|done|intros; by apply same_row_on]. Qed.

Lemma keeps_trans cfg l1 l2 l3 : keeps cfg l1 l2 → keeps cfg l2 l3 → keeps cfg l1 l3.
Proof.
  intros [R1 A1 B1] [R2 A2 B2]. split; [by eapply ledger_run_trans|..]; intros Hwf;
    pose proof (ledger_run_wf _ _ _ Hwf R1) as Hwf2.
  - intros id. specialize (A1 Hwf id). specialize (A2 Hwf2 id). lia.
  - intros t id. eapply row_on_trans; [by apply B1|by apply B2].
Qed.

(** A transaction that succeeded is the command. *)
Lemma after_eq {A} (t : tx A) l a l' : t l = Ok (a, l') → after t l = l'.
Proof. unfold after. by intros ->. Qed.

Lemma command_run cfg cmd l l' : lcmd_ok cmd → run_lcmd cfg cmd l = l' → ledger_run cfg l l'.
Proof. intros Hok <-. apply run_step; [apply run_here|done]. Qed.

(** The function of a stored invocation never changes, and new ones have no attempt. *)
Lemma within_mono c l l' :
  policies_nonneg c → ledger_wf l → rows_le inv_row_le (invs l) (invs l') →
  (∀ id, attempts_at l' id ≤ attempts_at l id) →
  attempts_within c l → attempts_within c l'.
Proof.
  intros Hp Hwf Hle Ha Hw id inv Hi. specialize (Ha id).
  destruct (invs l !! id) as [old|] eqn:Ho.
  - destruct (Hle id old Ho) as (inv' & Hi' & Hid). rewrite Hi in Hi'. injection Hi' as <-.
    apply irl_identity in Hid. specialize (Hw id old Ho).
    assert (inv_function_id inv = inv_function_id old) as -> by congruence. lia.
  - assert (attempts_at l id = 0) as Hz.
    { unfold attempts_at. destruct (lg_dispatch l !! id) as [r|] eqn:Hr; [|done].
      destruct (rw_row _ _ _ (wf_dispatch l Hwf id r Hr)). congruence. }
    specialize (Hp (inv_function_id inv)). lia.
Qed.

(** A transaction that writes no row of the dispatch table. *)
Lemma same_keeps cfg l l' :
  ledger_run cfg l l' → (ledger_wf l → lg_dispatch l' = lg_dispatch l) → keeps cfg l l'.
Proof.
  intros Hr E. split; [done|..]; intros Hwf; specialize (E Hwf).
  - intros id. unfold attempts_at. by rewrite E.
  - intros t id. apply same_row_on. by rewrite E.
Qed.

Lemma no_run_dispatch cfg cmd l :
  ledger_wf l → no_run cmd → (∀ s, cmd ≠ LSettle s) →
  lg_dispatch (run_lcmd cfg cmd l) = lg_dispatch l.
Proof.
  intros Hwf Hno Hns.
  destruct cmd; cbn [run_lcmd]; try done;
    match goal with |- context [after ?t l] =>
      destruct (after_Ok t l) as [->|[a H]]; [done|] end;
    try solve [apply qu_dispatch; eauto using
    claim_outbox_quiet, mark_outbox_sent_quiet, retry_outbox_quiet, purge_sent_outbox_quiet,
    update_invocation_quiet, claim_object_quiet].
  - apply accept_async_Ok in H as [[-> _]|(_ & _ & _ & _ & Hac & _)]; [done|]. apply Hac.
  - by exfalso; eapply Hns.
  - apply record_poison_Ok in H as [_ H].
    by apply insert_dead_letter_Ok in H as [(_ & -> & _)|(_ & -> & _)].
  - apply redrive_Ok in H as (? & _ & _ & _ & _ & _ & _ & _ & Hac & _). apply Hac.
Qed.

Lemma command_keeps cfg cmd l l' :
  lcmd_ok cmd → no_run cmd → (∀ s, cmd ≠ LSettle s) → run_lcmd cfg cmd l = l' → keeps cfg l l'.
Proof.
  intros Hok Hno Hns <-. apply same_keeps; [by eapply command_run|intros; by apply no_run_dispatch].
Qed.

(** A settle takes its row to the next generation, or to its end. *)
Lemma settle_keeps cfg settle l out l' :
  lcmd_ok (LSettle settle) → (sl_state settle = DispatchState.Scheduled → sl_republish settle ≠ None) →
  settle_dispatch cfg settle l = Ok (out, l') → keeps cfg l l'.
Proof.
  intros Hok Hev H. pose proof (command_run cfg (LSettle settle) l l' Hok (after_eq _ _ _ _ H)) as Hrun.
  apply settle_dispatch_Ok in H as [[-> _]|(_ & old & r & S)]; [apply keeps_refl|].
  set (id := inv_id (sl_invocation settle)).
  destruct (final_record_keeps settle r) as (_ & Hst & _ & _ & _ & Ha & Hg).
  assert (Hfacts : ledger_wf l →
    lg_dispatch l' = <[id := final_record settle r]> (lg_dispatch l) ∧
    attempts_at l id = dr_attempts r ∧ generation l id = dr_generation r ∧ 0 ≤ dr_attempts r ∧
    ¬ ended l id).
  { intros Hwf. rewrite (se_dispatch _ _ _ _ _ S), (settled_id _ _ _ _ _ Hwf S).
    pose proof (se_record _ _ _ _ _ S) as Er. fold id in Er. unfold get_record in Er.
    unfold attempts_at, generation.
    destruct (record_or_unclaimed_wf l _ old Hwf (se_old _ _ _ _ _ S) (se_live _ _ _ _ _ S)) as (Hr & _).
    rewrite <-(se_record _ _ _ _ _ S) in Hr.
    split_and!; [done|by destruct (lg_dispatch l !! id); subst r..|apply (rw_attempts _ _ _ Hr)|].
    intros (r' & Hr' & Hs). pose proof (wf_dispatch l Hwf id r' Hr') as Hw.
    pose proof (rw_settled _ _ _ Hw old (se_old _ _ _ _ _ S) Hs). pose proof (se_live _ _ _ _ _ S).
    congruence. }
  assert (Hother : ∀ id', lg_dispatch l' = <[id := final_record settle r]> (lg_dispatch l) → id' ≠ id →
    lg_dispatch l' !! id' = lg_dispatch l !! id') by (intros id' -> ?; by rewrite lookup_insert_ne).
  split; [done|..]; intros Hwf; destruct (Hfacts Hwf) as (Hl & Hat & Hge & H0 & Hne).
  - intros id'. destruct (decide (id' = id)) as [->|Hn]; [|by rewrite (attempts_same_row l l' id' (Hother _ Hl Hn))].
    rewrite Hat. unfold attempts_at. rewrite Hl, lookup_insert_eq. cbn. rewrite Ha.
    destruct (_ && _); lia.
  - intros t id'. destruct (decide (id' = id)) as [->|Hn]; [|by apply same_row_on, Hother].
    assert (generation l' id = dr_generation (final_record settle r)) as Hge'
      by (unfold generation; by rewrite Hl, lookup_insert_eq).
    assert (Hend : settled_state (sl_state settle) = true → ended l' id)
      by (intros; exists (final_record settle r); by rewrite Hl, lookup_insert_eq, Hst).
    destruct Hok as [Hrun' _].
    destruct (sl_republish settle) as [e|] eqn:He.
    + destruct (se_event _ _ _ _ _ S e He) as [_ Hn]. split; [lia|done|left; lia].
    + assert (ended l' id) by (apply Hend; destruct (sl_state settle); try done; by destruct (Hev eq_refl)).
      split; [lia|done|by auto].
Qed.

(** ** Decisions are settles the ledger takes *)

(** A decision never leaves a run claimed, is dead exactly with a reason, and says when
    a run it reschedules is due. *)
Definition decision_ok (d : Decision) : Prop :=
  dn_state d ≠ DispatchState.Running ∧ (dn_state d = DispatchState.Dead ↔ dn_dead d ≠ None) ∧
  (dn_state d = DispatchState.Scheduled → dn_next_attempt_at d ≠ None).

Lemma settle_of_ok o record fence d fresh l settle :
  decision_ok d → settle_of o record fence d fresh l = Ok settle →
  lcmd_ok (LSettle settle) ∧ (sl_state settle = DispatchState.Scheduled → sl_republish settle ≠ None).
Proof.
  intros (Hs & Hd & Hn) H. unfold settle_of in H. apply result_bind_Ok in H as (event & He & [= <-]).
  split; cbn; [split_and!; [done| |]|].
  - rewrite Hd. by destruct (dn_dead d).
  - intros dl. destruct (dn_dead d); [|done]. by intros [= <-].
  - intros E. specialize (Hn E). rewrite E in He. destruct (dn_next_attempt_at d); [|done].
    by apply result_bind_Ok in He as (e & _ & [= <-]).
Qed.

Section kept.
Context (cfg : StoreConfig) (o : Codec) (c : AsyncDispatchConfig) (jitter : Z → Z).

Lemma commit_keeps record fence d fresh l out l' :
  decision_ok d → commit cfg o record fence d fresh l = Ok (out, l') → keeps cfg l l'.
Proof.
  intros Hd H. unfold commit, ledger in H. apply result_bind_Ok in H as (settle & Hs & H).
  destruct (settle_dispatch cfg settle l) as [[out' l'']|] eqn:Hset; [|done]. injection H as -> ->.
  destruct (settle_of_ok _ _ _ _ _ _ _ Hd Hs) as [Hok Hev]. by eapply settle_keeps.
Qed.

Lemma commit_and_ack_keeps record fence d fresh l out l' :
  decision_ok d → commit_and_ack cfg o record fence d fresh l = Ok (out, l') → keeps cfg l l'.
Proof.
  intros Hd H. unfold commit_and_ack in H. apply result_bind_Ok in H as ([settled l2] & Hc & H).
  assert (l' = l2) as -> by (destruct settled; by injection H). by eapply commit_keeps.
Qed.

Lemma dead_lettered_ok reason error counted now inv :
  decision_ok (dead_lettered reason error counted now inv).
Proof. by split. Qed.

Lemma schedule_ok inv record fence policy error counted not_before now d :
  schedule o c jitter inv record fence policy error counted not_before now = Ok d → decision_ok d.
Proof.
  unfold schedule. repeat case_match; intros; simplify_eq; by split.
Qed.

Lemma complete_ok inv record fence output status now now' d :
  complete o c jitter inv record fence output status now now' = Ok d → decision_ok d.
Proof.
  unfold complete. case_match; [intros; simplify_eq; by split|]. apply schedule_ok.
Qed.

Lemma refuse_run_keeps inv record fence policy error tm l out l' :
  refuse_run cfg o c jitter inv record fence policy error tm l = Ok (out, l') → keeps cfg l l'.
Proof.
  unfold refuse_run. destruct (classify error); intros H;
    [| |by eapply commit_and_ack_keeps; [apply dead_lettered_ok|]|];
    apply result_bind_Ok in H as (d & Hd & H);
    (eapply commit_and_ack_keeps; [by eapply schedule_ok|done]).
Qed.

Lemma settle_run_keeps owner current record outcome tm l out l' :
  settle_run cfg o c jitter owner current record outcome tm l = Ok (out, l') → keeps cfg l l'.
Proof.
  unfold settle_run. destruct outcome as [[output status]|error]; intros H.
  - apply result_bind_Ok in H as (d & Hd & H). eapply commit_and_ack_keeps; [by eapply complete_ok|done].
  - destruct (classify error); try (eapply commit_and_ack_keeps; [|exact H]; by split);
      apply result_bind_Ok in H as (d & Hd & H);
      (eapply commit_and_ack_keeps; [by eapply schedule_ok|done]).
Qed.

Lemma reap_decision_ok v queue_idle now d :
  reaped (reap_decision c jitter v queue_idle now) = Some d → decision_ok d.
Proof. unfold reap_decision. repeat case_match; intros; simplify_eq/=; by split. Qed.

Lemma reap_one_keeps v queue_idle now fresh p l :
  keeps cfg l (reap_one cfg o c jitter v queue_idle now fresh p l).2.
Proof.
  unfold reap_one. cbv zeta. destruct (reaped _) as [d|] eqn:Hd; [|apply keeps_refl].
  destruct (count_reaping _ _). destruct (commit _ _ _ _ _ _ _) as [[[|why] l2]|] eqn:Hc;
    [..|apply keeps_refl]; (eapply commit_keeps; [by eapply reap_decision_ok|done]).
Qed.

Lemma ledger_Ok {A} (r : result RepoError A) a : ledger r = Ok a → r = Ok a.
Proof. destruct r; cbn; congruence. Qed.

Lemma poison_keeps d detail fresh l out l' : poison o d detail fresh l = Ok (out, l') → keeps cfg l l'.
Proof.
  unfold poison. intros H. apply result_bind_Ok in H as ([r l3] & Hr & [= <- <-]).
  apply ledger_Ok in Hr. set (dead := mkDead _ _ _ _ _ _ _ _ _ _ _ _ _ _ _ _ _ _ _ _ _ _) in Hr.
  apply (command_keeps cfg (LPoison dead)); try done. by apply (after_eq _ _ r).
Qed.

Lemma service_step_keeps l l' : service_step cfg o c jitter l l' → keeps cfg l l'.
Proof.
  intros Hstep. destruct Hstep;
    try (by eauto using refuse_run_keeps, settle_run_keeps, reap_one_keeps, poison_keeps).
  - eapply (command_keeps cfg (LAccept _ _ _ _ _)); [done..|]. by eapply after_eq.
  - eapply (command_keeps cfg (LClaimOutbox _ _ _ _)); [done..|]. by eapply after_eq.
  - eapply (command_keeps cfg (LMark _ _ _ _)); [done..|]. by eapply after_eq.
  - eapply (command_keeps cfg (LRetry _ _ _ _)); [done..|]. by eapply after_eq.
  - eapply (command_keeps cfg (LPurge _)); [done..|]. by eapply after_eq.
  - eapply (command_keeps cfg (LUpdate _)); [done..|]. by eapply after_eq.
  - eapply (command_keeps cfg (LRedrive _)); [by split|done..|]. by eapply after_eq.
  - eapply (command_keeps cfg (LCollect _ _ _)); [done..|]. by eapply after_eq.
Qed.

(** What the start of a run does: it claims it, or it is a transaction that claims none. *)
Lemma start_run_keeps owner envelope inv record deleted cached tm b l started b' l' :
  start_run cfg o c jitter owner envelope inv record deleted cached tm b l = Ok (started, b', l') →
  (started_run started = false ∧ keeps cfg l l') ∨
  ∃ inv' record',
    started = StartClaimed inv' record' ∧
    pre_run_dead_end deleted inv record (Config.policy_for (inv_function_id inv) c) (tm_check tm) = None ∧
    cached = Ok (inv_revision_id inv) ∧
    claim_dispatch (mkClaim (inv_id inv) owner (ev_generation envelope) (tm_check tm) (Config.claim_ttl c)) l
      = Ok (ClaimOutcome.Claimed inv' record', l').
Proof.
  unfold start_run. cbv zeta.
  destruct (pre_run_dead_end _ _ _ _ _) as [[reason error]|] eqn:Hend; intros H.
  { apply result_bind_Ok in H as ([out l2] & Hc & [= <- <- <-]). left. split; [done|].
    eapply commit_and_ack_keeps; [by apply dead_lettered_ok|done]. }
  destruct (resolve cached inv) eqn:Hr.
  2: { apply result_bind_Ok in H as ([out l2] & Hc & [= <- <- <-]). left. split; [done|].
       by eapply refuse_run_keeps. }
  destruct (if 0 <? dr_attempts record then _ else _) as [[u'|next] b2].
  - apply result_bind_Ok in H as ([st l2] & Hc & [= <- <- <-]). unfold claim_run in Hc.
    apply result_bind_Ok in Hc as ([claimed l3] & Hcl & [= <- <-]). apply ledger_Ok in Hcl.
    destruct claimed; try (left; split; [done|]; rewrite (claim_nothing _ _ _ _ Hcl eq_refl); apply keeps_refl).
    right. exists invocation, record0. split_and!; try done. unfold resolve in Hr.
    apply result_bind_Ok in Hr as (rev & -> & Hr). case_bool_decide; [by subst|done].
  - apply result_bind_Ok in H as (dec & Hd & H). left.
    apply result_bind_Ok in H as ([out l2] & Hc & [= <- <- <-]). split; [done|].
    eapply commit_and_ack_keeps; [by eapply schedule_ok|done].
Qed.

(** What is due has the row the handler read, under the invocation's own id. *)
Lemma locate_Ok d l envelope inv :
  locate o d l = inr (envelope, inv) →
  invs l !! ev_invocation_id envelope = Some inv ∧
  InvocationStatus.is_terminal (inv_status inv) = false ∧ inv_mode inv = Async ∧
  inv_tenant_id inv = dv_tenant_id d ∧
  message_id_for (ev_invocation_id envelope) (ev_generation envelope) = dv_message_id d.
Proof.
  unfold locate. intros H. destruct (decode o _) as [e|]; [|done]. pass H. pass H.
  destruct (_ !! _) as [i|] eqn:Hi; [|done]. pass H. pass H.
  injection H as <- <-. bools. split_and!; congruence.
Qed.

Lemma check_due envelope inv now l envelope' inv' record :
  check_record envelope inv now l = IsDue envelope' inv' record →
  envelope' = envelope ∧ inv' = inv ∧ record = record_or_unclaimed inv l ∧
  ev_generation envelope = dr_generation record ∧ Rec.claim_live now record = false.
Proof.
  unfold check_record. cbv zeta. intros H. pass H. pass H. pass H. injection H as <- <- <-.
  bools. split_and!; congruence.
Qed.

Lemma inspect_due d now l l' envelope inv record :
  inspect o d now l l' = IsDue envelope inv record →
  locate o d l = inr (envelope, inv) ∧ check_record envelope inv now l' = IsDue envelope inv record.
Proof.
  unfold inspect. destruct (locate o d l) as [found|[e i]] eqn:Hl.
  - intros ->. exfalso. revert Hl. unfold locate.
    destruct (decode o _) as [e|]; [|done]. do 2 (case_match; [done|]).
    destruct (_ !! _); [|done]. by repeat (case_match; [done|]).
  - intros H. pose proof H as (-> & -> & _)%check_due. done.
Qed.

Lemma dead_end_None deleted inv record policy now :
  pre_run_dead_end deleted inv record policy now = None →
  now < expires_at policy inv ∧ dr_attempts record < rp_max_attempts policy ∧ deleted = false.
Proof.
  unfold pre_run_dead_end. intros H. pass H. pass H. pass H. by bools.
Qed.

(** ** What handlers have read *)

(** An invocation a handler read is still there, of its function. *)
Definition known (l : Ledger) (inv : Invocation) : Prop :=
  ∃ inv', invs l !! inv_id inv = Some inv' ∧ inv_function_id inv' = inv_function_id inv.

(** What a reading says is what the row was, or the row has gone on since: a claim of
    this generation made after it was read is live on the clock of its reader. *)
Record reading_ok (l : Ledger) (s : Reading) : Prop := {
  rk_known : known l (rg_invocation s);
  rk_row : ev_generation (rg_envelope s) ≤ generation l (inv_id (rg_invocation s))
}.
Definition fresh_enough (l : Ledger) (s : Reading) : Prop :=
  let id := inv_id (rg_invocation s) in
  ev_generation (rg_envelope s) < generation l id ∨ ended l id ∨
  attempts_at l id ≤ dr_attempts (rg_record s) ∨ live_at (rg_now s) l id.

(** What holds of everything the services reach. *)
Record dispatchers_ok (w : Dispatchers) : Prop := {
  dk_run : ledger_run cfg empty_ledger (ds_ledger w);
  dk_located : ∀ e inv, (e, inv) ∈ ds_located w → known (ds_ledger w) inv;
  dk_seen : ∀ s, s ∈ ds_seen w → reading_ok (ds_ledger w) s;
  dk_fresh : ds_late w = false → ∀ s, s ∈ ds_seen w → fresh_enough (ds_ledger w) s;
  dk_within : ds_late w = false → attempts_within c (ds_ledger w)
}.

Lemma dk_wf w : dispatchers_ok w → ledger_wf (ds_ledger w).
Proof. intros [Hr _ _ _ _]. by eapply ledger_run_wf; [apply empty_ledger_wf|]. Qed.

Lemma known_mono l l' inv : rows_le inv_row_le (invs l) (invs l') → known l inv → known l' inv.
Proof.
  intros Hle (i & Hi & Hf). destruct (Hle _ _ Hi) as (i' & Hi' & [Hid _]). exists i'.
  split; [done|congruence].
Qed.

Lemma reading_mono t l l' s :
  rows_le inv_row_le (invs l) (invs l') → row_on t l l' (inv_id (rg_invocation s)) →
  reading_ok l s → reading_ok l' s.
Proof.
  intros Hle [Hg _ _] [Hk Hr]. split; [by eapply known_mono|lia].
Qed.

Lemma fresh_mono l l' s :
  ev_generation (rg_envelope s) ≤ generation l (inv_id (rg_invocation s)) →
  row_on (rg_now s) l l' (inv_id (rg_invocation s)) → fresh_enough l s → fresh_enough l' s.
Proof.
  unfold fresh_enough. cbv zeta. intros Hle [Hg He Hr] Hf.
  destruct Hr as [?|[?|[E|?]]]; [left; lia|by auto| |by auto].
  destruct Hf as [?|[?|[Ha|(r & Hr & Hl)]]]; [left; lia|by auto| |].
  - right; right; left. by rewrite (attempts_same_row l l' _ E).
  - do 3 right. exists r. by rewrite E.
Qed.

(** A step whose rows go on. *)
Lemma dispatchers_on w l' late :
  dispatchers_ok w → ledger_run cfg (ds_ledger w) l' →
  (∀ s, s ∈ ds_seen w → ∃ t, row_on t (ds_ledger w) l' (inv_id (rg_invocation s))) →
  (late = false → ds_late w = false ∧ attempts_within c l' ∧
     ∀ s, s ∈ ds_seen w → row_on (rg_now s) (ds_ledger w) l' (inv_id (rg_invocation s))) →
  dispatchers_ok (w <| ds_ledger := l' |> <| ds_late := late |>).
Proof.
  intros Hw Hrun Hon Hlate. pose proof (dk_wf w Hw) as Hwf. destruct Hw as [Hr Hl Hs Hf Hb].
  pose proof (ledger_run_rows cfg _ _ Hwf Hrun) as Hle. split; cbn.
  - by eapply ledger_run_trans.
  - intros e inv He. eapply known_mono; [done|by eapply Hl].
  - intros s Hin. destruct (Hon s Hin) as [t Ht]. eapply reading_mono; [done|exact Ht|by apply Hs].
  - intros (Hl0 & _ & Hr0)%Hlate s Hin. eapply fresh_mono; [by apply Hs|by apply Hr0|by apply Hf].
  - by intros (_ & ? & _)%Hlate.
Qed.

Lemma keeps_dispatchers w l' :
  policies_nonneg c → dispatchers_ok w → keeps cfg (ds_ledger w) l' →
  dispatchers_ok (w <| ds_ledger := l' |>).
Proof.
  intros Hp Hw [Hrun Ha Hon]. pose proof (dk_wf w Hw) as Hwf.
  assert (w <| ds_ledger := l' |> = w <| ds_ledger := l' |> <| ds_late := ds_late w |>) as -> by (by destruct w).
  apply dispatchers_on; [done|done|intros s _; exists 0; by apply Hon|].
  intros Hl. split_and!; [done| |intros s _; by apply Hon].
  eapply within_mono; [done|done|by eapply ledger_run_rows|by apply Ha|by apply (dk_within w Hw)].
Qed.

(** What a claim makes of the rows. *)
Lemma claim_moves req l inv r l' :
  ledger_wf l → claim_dispatch req l = Ok (ClaimOutcome.Claimed inv r, l') →
  let id := cl_invocation_id req in
  cl_generation req = generation l id ∧ ¬ ended l id ∧ ¬ live_at (cl_now req) l id ∧
  invs l' = invs l ∧
  ∀ t id', t < cl_now req + cl_ttl req → row_on t l l' id'.
Proof.
  intros Hwf H id.
  apply claim_dispatch_Ok in H as [[_ H]|(i & r0 & Hi & Er & [= <- ->] & Ht & _ & Hg & Hl & _ & E)];
    [by destruct (H inv r)|].
  fold id in Hi, Er. destruct (record_or_unclaimed_wf l id inv Hwf Hi Ht) as (Hr & _).
  rewrite <-Er in Hr. pose proof (rw_id _ _ _ Hr) as Hid. rewrite Hid in E.
  assert (Hgen : dr_generation r0 = generation l id)
    by (rewrite Er; unfold generation, get_record; by destruct (lg_dispatch l !! id)).
  assert (Hne : ¬ ended l id).
  { intros (r' & Hr' & Hs). pose proof (rw_settled _ _ _ (wf_dispatch l Hwf id r' Hr') inv Hi Hs). congruence. }
  split_and!; [congruence|done| |by rewrite E|].
  - intros (r' & Hr' & Hlive). rewrite Er in Hl. unfold get_record in Hl. rewrite Hr' in Hl.
    cbn in Hl. congruence.
  - intros t id' Hlt. destruct (decide (id' = id)) as [->|Hn];
      [|apply same_row_on; rewrite E; cbn; by rewrite lookup_insert_ne].
    split; [|done|].
    + rewrite <-Hgen. unfold generation. rewrite E. cbn. by rewrite lookup_insert_eq.
    + do 3 right. exists (claimed_record req r0). rewrite E. cbn. rewrite lookup_insert_eq.
      split; [done|]. unfold Rec.claim_live. cbn. by rewrite (proj2 (Z.ltb_lt _ _) Hlt).
Qed.

Lemma outlived_false w now ttl :
  outlived w now ttl = false → ∀ s, s ∈ ds_seen w → rg_now s < now + ttl.
Proof.
  unfold outlived. intros H s Hs. apply Z.nle_gt. intros Hle. apply not_true_iff_false in H. apply H.
  apply existsb_exists. exists s. split; [by apply list_elem_of_In|]. by apply Z.leb_le.
Qed.

(** A claim made on a reading keeps what holds; and it is within the policy unless some
    claim came too late. *)
Lemma claim_dispatchers w s owner inv r l' :
  dispatchers_ok w → s ∈ ds_seen w →
  dr_attempts (rg_record s) < rp_max_attempts (Config.policy_for (inv_function_id (rg_invocation s)) c) →
  claim_dispatch (mkClaim (inv_id (rg_invocation s)) owner (ev_generation (rg_envelope s)) (rg_now s)
                    (Config.claim_ttl c)) (ds_ledger w) = Ok (ClaimOutcome.Claimed inv r, l') →
  dispatchers_ok (w <| ds_ledger := l' |>
                    <| ds_late := ds_late w || outlived w (rg_now s) (Config.claim_ttl c) |>).
Proof.
  intros Hw Hs Hlt H. pose proof (dk_wf w Hw) as Hwf.
  destruct (claim_moves _ _ _ _ _ Hwf H) as (Hg & Hne & Hnl & Hinvs & Hon).
  destruct (claim_attempts _ _ _ _ _ Hwf H) as (_ & Ha' & Hother & _).
  cbn [cl_invocation_id cl_generation cl_now cl_ttl] in *.
  apply dispatchers_on; [done| | |].
  - by apply (command_run cfg (LClaim _) _ _ I (after_eq _ _ _ _ H)).
  - intros s' _. exists (rg_now s + Config.claim_ttl c - 1). apply Hon. lia.
  - intros [Hl Ho]%orb_false_iff. split; [done|]. split.
    2: { intros s' Hs'. apply Hon. by apply (outlived_false w). }
    intros id' i Hi. rewrite Hinvs in Hi. pose proof (dk_within w Hw Hl id' i Hi) as Hb.
    destruct (decide (id' = inv_id (rg_invocation s))) as [->|Hn];
      [|by rewrite (attempts_same_row _ _ _ (Hother id' Hn))].
    destruct (rk_known _ _ (dk_seen w Hw s Hs)) as (i' & Hi' & Hfn).
    rewrite Hi in Hi'. injection Hi' as <-. rewrite Hfn, Ha'.
    assert (attempts_at (ds_ledger w) (inv_id (rg_invocation s)) ≤ dr_attempts (rg_record s)) as Hle.
    { destruct (dk_fresh w Hw Hl s Hs) as [?|[?|[?|?]]]; [lia|done|done|done]. }
    apply claim_dispatch_Ok in H as [[_ H]|(i0 & r0 & Hi0 & Er & [= _ ->] & _)]; [by destruct (H inv r)|].
    cbn [claimed_record dr_attempts cl_invocation_id] in *. rewrite Er, record_attempts. lia.
Qed.

Lemma renew_moves id owner attempts now ttl l out l' :
  ledger_wf l → renew_dispatch_claim id owner attempts now ttl l = Ok (out, l') →
  ledger_run cfg l l' ∧ invs l' = invs l ∧ (∀ id', attempts_at l' id' = attempts_at l id') ∧
  ∀ t id', t < now + ttl → row_on t l l' id'.
Proof.
  intros Hwf H. pose proof (after_eq _ _ _ _ H) as Ea. split; [by apply (command_run cfg (LRenew id owner attempts now ttl))|].
  destruct (renew_same cfg id owner attempts now ttl l) as [Hat _]. cbn [run_lcmd] in Hat. rewrite Ea in Hat.
  apply renew_dispatch_claim_Ok in H as [[_ ->]|(r & Hr & _ & Hst & Hcl & _ & E)].
  { split_and!; [done|done|]. intros. by apply same_row_on. }
  split_and!; [by rewrite E|done|]. intros t id' Hlt. destruct (decide (id' = id)) as [->|Hn];
    [|apply same_row_on; rewrite E; cbn; by rewrite lookup_insert_ne].
  split.
  - unfold generation. rewrite E, Hr. cbn. by rewrite lookup_insert_eq.
  - intros (r' & Hr' & Hs). rewrite Hr in Hr'. injection Hr' as <-. by rewrite Hst in Hs.
  - do 3 right. eexists. rewrite E. cbn. rewrite lookup_insert_eq. split; [done|].
    unfold Rec.claim_live. cbn. rewrite Hst, Hcl. cbn. by rewrite (proj2 (Z.ltb_lt _ _) Hlt).
Qed.

Lemma check_reading w envelope inv now record :
  dispatchers_ok w → (envelope, inv) ∈ ds_located w →
  check_record envelope inv now (ds_ledger w) = IsDue envelope inv record →
  dispatchers_ok (w <| ds_seen ::= cons (mkReading now envelope inv record) |>).
Proof.
  intros Hw Hloc (_ & _ & -> & Hge & Hlive)%check_due. pose proof Hw as [Hr Hl Hs Hf Hb]. split; cbn; try done.
  - intros s [->|Hin]%elem_of_cons; [|by apply Hs]. split; cbn; [by eapply Hl|]. rewrite Hge.
    unfold record_or_unclaimed, get_record, generation. by destruct (lg_dispatch _ !! _).
  - intros Hlate s [->|Hin]%elem_of_cons; [|by apply Hf]. do 2 right; left. cbn.
    by rewrite <-(record_attempts _ _ inv).
Qed.

Lemma async_step_ok w w' :
  policies_nonneg c → dispatchers_ok w → async_step cfg o c jitter w w' → dispatchers_ok w'.
Proof.
  intros Hp Hw Hstep.
  destruct Hstep as [l' Hs|d envelope inv Hloc|envelope inv now record Hin Hck
    |owner s deleted cached tm b started b' l' Hin Htm H|id owner attempts now ttl out l' H].
  - apply keeps_dispatchers; [done|done|]. by apply service_step_keeps.
  - pose proof (dk_wf w Hw) as Hwf. apply locate_Ok in Hloc as (Hi & _).
    destruct Hw as [Hr Hl Hs Hf Hb]. split; cbn; try done.
    intros e i [[= -> ->]|Hin]%elem_of_cons; [|by eapply Hl].
    exists inv. split; [|done]. by rewrite (wf_invocations _ Hwf _ _ Hi).
  - by eapply check_reading.
  - apply start_run_keeps in H as [[Hst Hk]|(inv' & record' & -> & Hend & _ & Hc)].
    + rewrite Hst, orb_false_r. pose proof (keeps_dispatchers w l' Hp Hw Hk). by destruct w.
    + cbn [started_run andb]. rewrite Htm in Hc. eapply claim_dispatchers; [done..| |exact Hc].
      by apply dead_end_None in Hend as (_ & Ha & _).
  - pose proof (dk_wf w Hw) as Hwf.
    destruct (renew_moves _ _ _ _ _ _ _ _ Hwf H) as (Hrun & Hinvs & Hat & Hon).
    apply dispatchers_on; [done|done|..].
    + intros s _. exists (now + ttl - 1). apply Hon. lia.
    + intros [Hl Ho]%orb_false_iff. split; [done|]. split.
      * intros id' i. rewrite Hinvs, Hat. by apply (dk_within w Hw).
      * intros s Hs. apply Hon. by apply (outlived_false w).
Qed.

Lemma nothing_yet_ok : policies_nonneg c → dispatchers_ok nothing_yet.
Proof.
  intros Hp. split; cbn; [apply run_here|set_solver..|]. intros _ id inv. cbn. by rewrite lookup_empty.
Qed.

Lemma async_reach_ok w : policies_nonneg c → async_reach cfg o c jitter w → dispatchers_ok w.
Proof.
  intros Hp Hr. pose proof (nothing_yet_ok Hp) as H0. induction Hr as [|w1 w2 w3 Hstep _ IH]; [done|].
  apply IH. by eapply async_step_ok.
Qed.

(** *** The handler among the others *)

(** A service at work between the handler's transactions. *)
Definition at_work (others : Others) : Prop := ∀ n l, rtc (service_step cfg o c jitter) l (others n l).

Lemma services_move w l' :
  rtc (service_step cfg o c jitter) (ds_ledger w) l' →
  rtc (async_step cfg o c jitter) w (w <| ds_ledger := l' |>).
Proof.
  intros Hr. remember (ds_ledger w) as l eqn:El. revert w El.
  induction Hr as [l|l l2 l3 H12 _ IH]; intros w ->; [by destruct w|].
  apply (rtc_l _ _ (w <| ds_ledger := l2 |>)); [by constructor|].
  specialize (IH (w <| ds_ledger := l2 |>) eq_refl). by destruct w.
Qed.

(** What the handler does before a run, whatever the others do meanwhile, is a run of
    the services' steps. *)
Lemma before_run_steps owner others d deleted cached tm b before b' l' w :
  at_work others →
  before_run cfg o c jitter owner others d deleted cached tm b (ds_ledger w) = Ok (before, b', l') →
  ∃ w', rtc (async_step cfg o c jitter) w w' ∧ ds_ledger w' = l'.
Proof.
  intros Ho. unfold before_run. cbv zeta. set (seen := others 0%nat _).
  assert (Hs : ∀ w1 n l, rtc (async_step cfg o c jitter) w w1 → ds_ledger w1 = l →
    rtc (async_step cfg o c jitter) w (w1 <| ds_ledger := others n l |>)).
  { intros w1 n l H1 <-. etrans; [exact H1|]. apply services_move, Ho. }
  assert (H0 : rtc (async_step cfg o c jitter) w (w <| ds_ledger := seen |>)) by by apply Hs.
  assert (H1 : rtc (async_step cfg o c jitter) w (w <| ds_ledger := others 1%nat seen |>))
    by (pose proof (Hs _ 1%nat seen H0 eq_refl); by destruct w).
  destruct (inspect o d _ _ seen) as [detail|why|t|envelope inv record] eqn:Hi; intros H.
  - apply result_bind_Ok in H as ([out l2] & Hp & [= <- <- <-]). eexists.
    split; [eapply rtc_r; [exact H1|]; apply (as_service _ _ _ _ _ l2); by eapply ss_poison|done].
  - injection H as <- <- <-. eexists. split; [exact H1|done].
  - injection H as <- <- <-. eexists. split; [exact H1|done].
  - apply inspect_due in Hi as [Hloc Hck].
    apply result_bind_Ok in H as ([[started b2] l2] & Hst & H).
    set (rg := mkReading (tm_check tm) envelope inv record).
    set (w1 := w <| ds_located ::= cons (envelope, inv) |> <| ds_ledger := seen |>
                 <| ds_seen ::= cons rg |> <| ds_ledger := others 1%nat seen |>).
    assert (Hw1 : rtc (async_step cfg o c jitter) w w1).
    { eapply rtc_l; [by eapply as_locate|]. etrans; [apply services_move, (Ho 0%nat)|].
      eapply rtc_l; [eapply (as_check _ _ _ _ _ envelope inv (tm_check tm) record); [apply elem_of_cons; by left|exact Hck]|].
      apply (services_move (w <| ds_located ::= cons (envelope, inv) |> <| ds_ledger := seen |>
        <| ds_seen ::= cons rg |>)), Ho. }
    assert (Hw2 : ∃ w2, rtc (async_step cfg o c jitter) w w2 ∧ ds_ledger w2 = l2).
    { eexists. split; [eapply rtc_r; [exact Hw1|]; eapply (as_start _ _ _ _ w1 owner rg)|done];
        [apply elem_of_cons; by left|done|exact Hst]. }
    destruct Hw2 as (w2 & Hw2 & El). destruct started as [out|inv' record'].
    { injection H as <- <- <-. by exists w2. }
    apply result_bind_Ok in H as ([bef l3] & Hop & [= <- <- <-]). unfold open_run in Hop.
    destruct (read_input o inv' _) as [payload|error].
    + injection Hop as <- <-. eexists. split; [by apply (Hs w2 2%nat l2)|done].
    + apply result_bind_Ok in Hop as ([out l4] & Hrf & [= <- <-]). eexists.
      split; [eapply rtc_r; [apply (Hs (w2 <| ds_ledger := others 2%nat l2 |>) 3%nat (others 2%nat l2)); [by apply (Hs w2 2%nat l2)|done]|];
        apply (as_service _ _ _ _ _ l4); by eapply ss_refuse|done].
Qed.

Lemma alone_at_work : at_work alone.
Proof. intros n l. reflexivity. Qed.
End kept.
