(* ===== verification/AsyncEnds.v ===== *)
(** * Asynchronous runs: decisions that commit

    What the dispatcher decides ends an invocation for good or requeues it, and the
    ledger takes the settle of such a decision when its fence holds: the end of the run
    is on the ledger. *)

From S2P Require Import Prelude Ids Functions Invocation Guard Store StoreInv Scenario Retry.
From S2P Require Import Outbox Dispatch LedgerInv AsyncWorld AsyncRun AsyncSteps.

Open Scope string_scope.
Open Scope Z_scope.

(** ** Outputs stay bounded *)

(** Every stored output passed the bound the configuration sets. *)
Definition bounded_rows (cfg : StoreConfig) (l : Ledger) : Prop :=
  ∀ id inv, invs l !! id = Some inv →
    bounded_output inv (max_response_bytes (cfg_limits cfg)) = Ok tt.

(** The rows of invocations are as they were, but for one that passed the bound. *)
Definition bounded_write (cfg : StoreConfig) (l l' : Ledger) : Prop :=
  invs l' = invs l ∨
  ∃ inv, invs l' = <[inv_id inv := inv]> (invs l) ∧
         bounded_output inv (max_response_bytes (cfg_limits cfg)) = Ok tt.

Lemma bounded_write_rows cfg l l' : bounded_rows cfg l → bounded_write cfg l l' → bounded_rows cfg l'.
Proof.
  intros Hb [E|(inv & E & Hi)] id i; rewrite E; [apply Hb|].
  rewrite lookup_insert_Some. intros [[_ <-]|[_ H]]; [done|]. by eapply Hb.
Qed.

Lemma update_bounded cfg old new w :
  bounded_output old (max_response_bytes (cfg_limits cfg)) = Ok tt →
  invocation_update old new (max_response_bytes (cfg_limits cfg)) = Ok w →
  bounded_output new (max_response_bytes (cfg_limits cfg)) = Ok tt.
Proof.
  intros Ho H%invocation_update_Ok. destruct_and! H. destruct_or!; destruct_and!; [congruence|done].
Qed.

Lemma insert_checked_bounded cfg inv s s' :
  insert_invocation_checked cfg inv s = Ok s' →
  bounded_output inv (max_response_bytes (cfg_limits cfg)) = Ok tt.
Proof.
  unfold insert_invocation_checked, invocation_insert. intros H. pass H. steps. by destruct a.
Qed.

Lemma mark_bounded cfg event owner seq now l b l' :
  ledger_wf l → bounded_rows cfg l → mark_outbox_sent cfg event owner seq now l = Ok (b, l') →
  bounded_write cfg l l'.
Proof.
  intros Hwf Hb H. unfold mark_outbox_sent in H. steps.
  destruct (_ !! _) as [e|]; [|steps; by left]. destruct (held_by owner e); cbn [negb] in Hk;
    [|steps; by left].
  destruct (st_invocations _ !! event) as [inv|] eqn:Hi; [|steps; by left].
  destruct (_ != _); [steps; by left|].
  destruct (Inv.mark_queued inv) as [inv'|] eqn:Hq; [|steps; by left]. steps.
  apply update_invocation_row_Ok in Hm0 as (old & _ & _ & Hs). right. exists inv'. split; [exact Hs|].
  specialize (Hb event inv Hi). unfold Inv.mark_queued in Hq.
  apply result_bind_Ok in Hq as (u & _ & Hq). destruct (inv_status inv); try done.
  by injection Hq as <-.
Qed.

Lemma claim_object_invs object reason now l d l' :
  claim_object object reason now l = Ok (d, l') → invs l' = invs l.
Proof.
  unfold claim_object. intros H.
  repeat match type of H with (if ?b then _ else _) = _ => destruct b end; by steps.
Qed.

Lemma command_bounded cfg cmd l :
  ledger_wf l → bounded_rows cfg l → bounded_write cfg l (run_lcmd cfg cmd l).
Proof.
  intros Hwf Hb.
  destruct cmd; cbn [run_lcmd];
    match goal with |- bounded_write cfg l (after ?t l) =>
      destruct (after_Ok t l) as [->|[a H]]; [by left|] end; set (l' := after _ l) in *; clearbody l'.
  - pose proof H as Ha. apply accept_async_Ok in Ha as [[-> _]|(-> & _ & _ & _ & Ha & _)]; [by left|].
    right. exists inv. split; [apply Ha|]. unfold accept_async, accept_in in H. steps. destruct a0.
    destruct (k ← _; _); [by steps|]. destruct (exceeds _ _ _); [by steps|]. steps.
    by eapply insert_checked_bounded.
  - left. unfold claim_outbox in H. destruct (_ || _); injection H as H; [congruence|].
    f_equal. by eapply claim_rows_store.
  - by eapply mark_bounded.
  - left. unfold retry_outbox in H. destruct (_ !! _); [|by steps].
    destruct (held_by _ _); cbn [negb] in H; by steps.
  - left. by injection H as _ <-.
  - unfold update_invocation in H. destruct (_ !! _) as [old|] eqn:Ho; [|done]. steps.
    pose proof (update_bounded cfg old inv a0 (Hb _ _ Ho) Hm).
    destruct (_ != _); steps; [by left|]. right. exists inv. split; [|done].
    by apply update_invocation_row_Ok in Hm0 as (? & _ & _ & ?).
  - left. by apply claim_dispatch_Ok in H as [[-> _]|(? & ? & _ & _ & _ & _ & _ & _ & _ & _ & ->)].
  - left. by apply renew_dispatch_claim_Ok in H as [[_ ->]|(? & _ & _ & _ & _ & _ & ->)].
  - pose proof H as Hs. apply settle_dispatch_Ok in Hs as [[-> _]|(_ & old & r & S)]; [by left|].
    right. exists (sl_invocation settle). split; [apply S|].
    unfold settle_dispatch in H. rewrite (se_old _ _ _ _ _ S) in H. cbv zeta in H.
    rewrite (se_live _ _ _ _ _ S), <-(se_record _ _ _ _ _ S), (se_fence _ _ _ _ _ S) in H.
    cbn [negb] in H. pass H. apply result_bind_Ok in H as (w & Hu & _).
    eapply update_bounded; [|exact Hu]. by eapply Hb, S.
  - left. apply record_poison_Ok in H as [_ H].
    by apply insert_dead_letter_Ok in H as [(_ & -> & _)|(_ & -> & _)].
  - pose proof H as Hr. apply redrive_Ok in Hr as (? & _ & _ & _ & _ & _ & _ & _ & Hac & _).
    right. eexists. split; [apply Hac|]. unfold redrive in H.
    destruct (_ !! _); [|done]. pass H. pass H. apply result_bind_Ok in H as (s & Hs & _).
    by eapply insert_checked_bounded.
  - left. by rewrite (claim_object_invs _ _ _ _ _ _ H).
Qed.

Lemma ledger_run_bounded cfg l l' :
  ledger_wf l → bounded_rows cfg l → ledger_run cfg l l' → bounded_rows cfg l'.
Proof.
  intros Hwf Hb. induction 1 as [|l' c Hrun IH]; [done|].
  eapply bounded_write_rows; [exact IH|]. apply command_bounded; [by eapply ledger_run_wf|done].
Qed.

(** ** Decisions that commit *)

(** [new] differs from [old] only in its status and what ends or requeues a run set. *)
Definition rewritten (old new : Invocation) : Prop :=
  ∃ st dl out http fin,
    new = old <| inv_status := st |> <| inv_deadlines := dl |> <| inv_output := out |>
              <| inv_http_status := http |> <| inv_finished_at := fin |>.

Lemma rewritten_status st old : rewritten old (old <| inv_status := st |>).
Proof.
  exists st, (inv_deadlines old), (inv_output old), (inv_http_status old), (inv_finished_at old).
  by destruct old.
Qed.

Lemma rewritten_update old new max :
  rewritten old new → InvocationStatus.is_terminal (inv_status old) = false →
  bounded_output new max = Ok tt → ∃ w, invocation_update old new max = Ok w.
Proof.
  intros (st & dl & out & http & fin & E) Ht Hb. unfold invocation_update.
  rewrite (proj2 (immutable_Ok _ _ _)).
  2: { rewrite E. unfold same. repeat constructor; by apply bool_decide_eq_true. }
  cbn [mbind result_bind]. destruct (_ == _); [eauto|]. rewrite Ht, Hb. by eexists.
Qed.

(** What a decision makes of the stored invocation: requeued with an instant for its
    next try, or ended for good. *)
Record ends (cfg : StoreConfig) (old : Invocation) (d : Decision) : Prop := {
  en_ok : decision_ok d;
  en_row : rewritten old (dn_invocation d);
  en_bounded : bounded_output (dn_invocation d) (max_response_bytes (cfg_limits cfg)) = Ok tt;
  en_state : match dn_state d with
    | DispatchState.Scheduled =>
        inv_status (dn_invocation d) = InvocationStatus.Queued ∧ is_Some (dn_next_attempt_at d)
    | _ => InvocationStatus.is_terminal (inv_status (dn_invocation d)) = true
    end
}.

(** The end of a run on the ledger: the invocation is terminal, with a dead letter when
    it is dead, or its next try is a fresh event of the outbox. *)
Definition resolved (l : Ledger) (id : InvocationId) : Prop :=
  ∃ inv r, invs l !! id = Some inv ∧ lg_dispatch l !! id = Some r ∧
  match dr_state r with
  | DispatchState.Done =>
      InvocationStatus.is_terminal (inv_status inv) = true ∧ lg_outbox l !! id = None
  | DispatchState.Dead =>
      InvocationStatus.is_terminal (inv_status inv) = true ∧ lg_outbox l !! id = None ∧
      ∃ k d, lg_dead l !! k = Some d ∧ dead_of id d ∧ dd_status d = Open
  | DispatchState.Scheduled =>
      inv_status inv = InvocationStatus.Queued ∧
      ∃ e, lg_outbox l !! id = Some e ∧ ob_sent_at e = None ∧ ob_claimed_by e = None ∧
           ob_generation e = dr_generation r ∧ dr_next_attempt_at r = Some (ob_next_attempt_at e)
  | DispatchState.Running => False
  end.

(** A settle the ledger takes. *)
Lemma settle_commits cfg settle l old r :
  invs l !! inv_id (sl_invocation settle) = Some old → inv_id old = inv_id (sl_invocation settle) →
  InvocationStatus.is_terminal (inv_status old) = false →
  r = record_or_unclaimed old l → fence_holds (sl_fence settle) (sl_now settle) r = true →
  (InvocationStatus.is_terminal (inv_status (sl_invocation settle)) = false →
     sl_state settle = DispatchState.Scheduled) →
  rewritten old (sl_invocation settle) →
  bounded_output (sl_invocation settle) (max_response_bytes (cfg_limits cfg)) = Ok tt →
  dr_generation r < i64_max →
  (∀ e, sl_republish settle = Some e → ob_event_id e = inv_id (sl_invocation settle) ∧
     ob_tenant_id e = inv_tenant_id (sl_invocation settle) ∧ ob_generation e = dr_generation r + 1) →
  (∀ d, sl_dead_letter settle = Some d → dd_invocation_id d = Some (inv_id (sl_invocation settle)) ∧
     dd_tenant_id d = inv_tenant_id (sl_invocation settle) ∧ lg_dead l !! dd_id d = None) →
  ∃ l', settle_dispatch cfg settle l = Ok (SettleOutcome.Committed, l').
Proof.
  intros Ho Hid Ht Er Hf Hs Hrw Hb Hg Hev Hdl. unfold settle_dispatch. rewrite Ho, Ht. cbv zeta.
  unfold record_or_unclaimed in Er. rewrite Hid in Er. rewrite <-Er, Hf. cbn [negb].
  replace (negb _ && _) with false.
  2: { destruct (InvocationStatus.is_terminal (inv_status (sl_invocation settle))); [done|].
       rewrite Hs by done. done. }
  destruct (rewritten_update old _ (max_response_bytes (cfg_limits cfg)) Hrw Ht Hb) as [w Hw].
  rewrite Hw. cbn [mbind result_bind].
  assert (∃ s, (if w == Apply then update_invocation_row cfg (sl_invocation settle) (lg_store l)
                else Ok (lg_store l)) = Ok s) as [s ->].
  { case_bool_decide; [|eauto]. unfold update_invocation_row. rewrite Ho, Ht. eauto. }
  cbn [mbind result_bind]. unfold republish.
  assert (Hbig : ∀ g what, g ≤ dr_generation r + 1 → big g what = Ok tt).
  { intros g what Hle. unfold big. by rewrite (proj2 (Z.leb_le _ _)) by lia. }
  unfold insert_outbox_row, write_record, settle_dead_letter, insert_dead_letter.
  destruct (sl_republish settle) as [e|] eqn:He.
  - destruct (Hev e eq_refl) as (-> & -> & Hge). rewrite Hge.
    rewrite (bool_decide_true (_ = _)), (bool_decide_true (_ = _)) by done. cbn [settled_record dr_generation set_field negb orb].
    rewrite Z.eqb_refl, Hbig by lia. cbn [negb mbind result_bind lg_outbox set_field].
    rewrite lookup_delete_eq. cbn [is_some mbind result_bind dr_generation set_field].
    rewrite Hbig by lia. cbn [mbind result_bind].
    destruct (sl_dead_letter settle) as [d|]; [|by eexists].
    destruct (Hdl d eq_refl) as (-> & -> & Hfr).
    rewrite (bool_decide_true (_ = _)), (bool_decide_true (_ = _)) by done.
    cbn [negb orb lg_dead set_field]. rewrite Hfr. destruct (any_value _ _); by eexists.
  - cbn [mbind result_bind settled_record dr_generation]. rewrite Hbig by lia.
    cbn [mbind result_bind].
    destruct (sl_dead_letter settle) as [d|]; [|by eexists].
    destruct (Hdl d eq_refl) as (-> & -> & Hfr).
    rewrite (bool_decide_true (_ = _)), (bool_decide_true (_ = _)) by done.
    cbn [negb orb lg_dead set_field]. rewrite Hfr. destruct (any_value _ _); by eexists.
Qed.

Lemma rewritten_keeps old new :
  rewritten old new → inv_id new = inv_id old ∧ inv_tenant_id new = inv_tenant_id old.
Proof. by intros (st & dl & out & http & fin & ->). Qed.

(** The settle of a decision that ends or requeues an invocation with a stored input. *)
Lemma settle_of_ends cfg o record fence d fresh l old :
  ends cfg old d → is_Some (lg_inputs l !! inv_id old) →
  ∃ settle, settle_of o record fence d fresh l = Ok settle ∧ sl_fence settle = fence ∧
    sl_invocation settle = dn_invocation d ∧ sl_state settle = dn_state d ∧
    sl_now settle = fr_now fresh ∧ sl_next_attempt_at settle = dn_next_attempt_at d ∧
    match sl_republish settle with
    | Some e =>
        dn_state d = DispatchState.Scheduled ∧ ob_event_id e = inv_id old ∧
        ob_tenant_id e = inv_tenant_id old ∧ ob_generation e = dr_generation record + 1 ∧
        dn_next_attempt_at d = Some (ob_next_attempt_at e)
    | None => dn_state d ≠ DispatchState.Scheduled
    end ∧
    match sl_dead_letter settle with
    | Some dl =>
        dd_id dl = fr_dead_letter_id fresh ∧ dead_of (inv_id old) dl ∧
        dd_tenant_id dl = inv_tenant_id old ∧ dd_status dl = Open
    | None => dn_state d ≠ DispatchState.Dead
    end.
Proof.
  intros [(Hrun & Hdead & _) Hrw _ Hst] [input Hin]. apply rewritten_keeps in Hrw as [Hid Hten].
  unfold settle_of, next_event. rewrite Hid, Hin, Hten. cbv zeta.
  assert (match dn_dead d with Some _ => dn_state d = DispatchState.Dead
                             | None => dn_state d ≠ DispatchState.Dead end) as Hd.
  { destruct (dn_dead d); [by apply Hdead|]. by intros ?%Hdead. }
  destruct (dn_state d) eqn:Es; [done| | |].
  - destruct Hst as [_ [t ->]]. cbn [mbind result_bind]. eexists. split; [reflexivity|]. cbn.
    destruct (dn_dead d); [done|]. split_and!; done.
  - cbn [mbind result_bind]. eexists. split; [reflexivity|]. cbn. destruct (dn_dead d); done.
  - cbn [mbind result_bind]. eexists. split; [reflexivity|]. cbn. destruct (dn_dead d); [|done].
    cbn. unfold dead_of, dead_letter_for. cbn. rewrite Hid. split_and!; done.
Qed.

Section commits.
Context (cfg : StoreConfig) (o : Codec) (l : Ledger) (old : Invocation).
Hypothesis Hwf : ledger_wf l.
Hypothesis Hold : invs l !! inv_id old = Some old.
Hypothesis Hlive : InvocationStatus.is_terminal (inv_status old) = false.
Hypothesis Hinput : is_Some (lg_inputs l !! inv_id old).

Abbreviation row := (record_or_unclaimed old l).

Lemma commit_resolves record fence d fresh :
  fence_holds fence (fr_now fresh) row = true →
  dr_generation record = dr_generation row → dr_generation row < i64_max →
  lg_dead l !! fr_dead_letter_id fresh = None → ends cfg old d →
  ∃ l', commit cfg o record fence d fresh l = Ok (SettleOutcome.Committed, l') ∧
        resolved l' (inv_id old) ∧ invs l' !! inv_id old = Some (dn_invocation d) ∧
        (∀ r, lg_dispatch l' !! inv_id old = Some r → dr_state r = DispatchState.Scheduled →
           dr_generation r = dr_generation row + 1).
Proof.
  intros Hf Hge Hg Hfr Hends. pose proof Hends as [Hok Hrw Hb Hst].
  pose proof (rewritten_keeps _ _ Hrw) as [Hid Hten].
  destruct (settle_of_ends cfg o record fence d fresh l old Hends Hinput)
    as (settle & Hset & Hfe & Hinv & Hstate & Hnow & Hnext & Hev & Hdl).
  destruct (settle_of_ok _ _ _ _ _ _ _ Hok Hset) as (Hlok & _).
  unfold commit. rewrite Hset. cbn [mbind result_bind].
  assert (∃ l', settle_dispatch cfg settle l = Ok (SettleOutcome.Committed, l')) as [l' Hl'].
  { apply (settle_commits cfg settle l old row); rewrite ?Hinv, ?Hid, ?Hfe, ?Hnow, ?Hstate, ?Hten; try done.
    - intros Hn. by destruct (dn_state d); rewrite ?Hst in Hn.
    - intros e He. rewrite He in Hev. destruct_and! Hev. split_and!; congruence.
    - intros dl Hd. rewrite Hd in Hdl. destruct_and! Hdl. split_and!; congruence. }
  exists l'. rewrite Hl'. split; [done|].
  apply settle_dispatch_Ok in Hl' as [[_ [why [=]]]|(_ & old' & r & S)].
  pose proof (settled_id _ _ _ _ _ Hwf S) as Hri.
  destruct (final_record_keeps settle r) as (_ & Hfs & _ & _ & Hfn & _ & Hfg).
  assert (Hrow : inv_id (sl_invocation settle) = inv_id old) by congruence. rewrite Hrow in *.
  split; [|split; [by rewrite (se_invs _ _ _ _ _ S), Hrow, lookup_insert_eq, Hinv|]].
  2: { rewrite (se_dispatch _ _ _ _ _ S), Hri, lookup_insert_eq. intros r' [= <-] Es.
       rewrite Hfs, Hstate in Es. rewrite Hfg. destruct (sl_republish settle); [by destruct_and! Hev; lia|done]. }
  exists (dn_invocation d), (final_record settle r).
  rewrite (se_invs _ _ _ _ _ S), (se_dispatch _ _ _ _ _ S), (se_outbox _ _ _ _ _ S), Hri, Hrow, Hinv.
  rewrite !lookup_insert_eq, Hfs, Hstate. split; [done|]. split; [done|].
  destruct (dn_state d) eqn:Es; [by destruct Hok| | |].
  - split; [apply Hst|]. destruct (sl_republish settle) as [e|] eqn:He; [|done].
    destruct Hev as (_ & _ & _ & _ & Hnx). exists (new_row e). rewrite lookup_insert_eq.
    split_and!; [done..|by rewrite Hfg|by rewrite Hfn, Hnext, Hnx].
  - split; [apply Hst|]. destruct (sl_republish settle) as [e|]; [by destruct Hev|].
    by rewrite lookup_delete_eq.
  - split; [apply Hst|]. destruct (sl_republish settle) as [e|]; [by destruct Hev|].
    split; [by rewrite lookup_delete_eq|].
    destruct (sl_dead_letter settle) as [dl|] eqn:Hd; [|done].
    destruct (settle_dead_fresh settle _ _ _ _ dl Hwf S Hd) as (_ & -> & _).
    exists (dd_id dl), dl. rewrite lookup_insert_eq. destruct_and! Hdl. done.
Qed.

Lemma commit_and_ack_resolves record fence d fresh :
  fence_holds fence (fr_now fresh) row = true →
  dr_generation record = dr_generation row → dr_generation row < i64_max →
  lg_dead l !! fr_dead_letter_id fresh = None → ends cfg old d →
  ∃ out l', commit_and_ack cfg o record fence d fresh l = Ok (out, l') ∧
        out ≠ HandleOutcome.LostClaim ∧ resolved l' (inv_id old) ∧
        invs l' !! inv_id old = Some (dn_invocation d).
Proof.
  intros Hf Hge Hg Hfr He.
  destruct (commit_resolves record fence d fresh Hf Hge Hg Hfr He) as (l' & Hc & ? & ? & _).
  unfold commit_and_ack. cbv zeta. rewrite Hc. cbn [mbind result_bind]. eexists _, l'.
  split; [done|]. split; [|done]. by repeat case_match.
Qed.
End commits.

(** ** The decisions end or requeue *)

Lemma bounded_same old new max :
  inv_output new = inv_output old → bounded_output old max = Ok tt → bounded_output new max = Ok tt.
Proof. unfold bounded_output. intros ->. by repeat case_match. Qed.

(** What every failure, requeue and cancellation makes of a live invocation. *)
Record rewrites (old new : Invocation) : Prop := {
  rs_row : rewritten old new;
  rs_output : inv_output new = inv_output old
}.

Lemma finished_rewrites st now old :
  rewrites old (old <| inv_status := st |> <| inv_finished_at := Some now |>).
Proof.
  split; [|done].
  exists st, (inv_deadlines old), (inv_output old), (inv_http_status old), (Some now). by destruct old.
Qed.

Lemma mark_failed_live error now inv :
  InvocationStatus.is_terminal (inv_status inv) = false →
  err_class error ≠ ErrorClass.OutcomeUnknown → err_class error ≠ ErrorClass.Cancelled →
  Inv.mark_failed error now inv =
    Ok (inv <| inv_status := InvocationStatus.Failed error |> <| inv_finished_at := Some now |>).
Proof.
  intros Ht Hu Hc. unfold Inv.mark_failed, Inv.ensure_not_terminal. rewrite Ht.
  cbn [mbind result_bind]. by rewrite !bool_decide_false by done.
Qed.

Lemma settle_failed_ends error now inv :
  InvocationStatus.is_terminal (inv_status inv) = false →
  rewrites inv (settle_failed error now inv) ∧
  InvocationStatus.is_terminal (inv_status (settle_failed error now inv)) = true.
Proof.
  intros Ht. unfold settle_failed.
  destruct (err_class error) eqn:Hc; try (
    rewrite (mark_failed_live _ now inv Ht) by (cbn; congruence); cbn [or_unchanged];
    split; [apply finished_rewrites|done]).
  destruct (inv_status inv) eqn:Hs; try (
    rewrite mark_failed_live by (cbn; congruence); cbn [or_unchanged];
    split; [apply finished_rewrites|done]); try done.
  unfold Inv.mark_outcome_unknown, Inv.ensure_not_terminal. rewrite Hs. cbn.
  split; [|done]. split; [|done].
  eexists (InvocationStatus.OutcomeUnknown (mkInvError _ _ _)), (inv_deadlines inv), (inv_output inv),
    (inv_http_status inv), (Some now). destruct inv. reflexivity.
Qed.

Lemma mark_requeued_live inv :
  InvocationStatus.is_terminal (inv_status inv) = false → inv_mode inv = Async →
  ∃ inv', Inv.mark_requeued inv = Ok inv' ∧ rewrites inv inv' ∧
          inv_status inv' = InvocationStatus.Queued.
Proof.
  intros Ht Hm. unfold Inv.mark_requeued, Inv.ensure_not_terminal. rewrite Ht.
  cbn [mbind result_bind]. rewrite bool_decide_true by done. eexists. split; [done|]. split; [|done].
  split; [|done].
  exists InvocationStatus.Queued,
    (inv_deadlines inv <| execution_deadline := None |> <| init_deadline := None |>),
    (inv_output inv), (inv_http_status inv), (inv_finished_at inv). by destruct inv.
Qed.

Section decided.
Context (cfg : StoreConfig) (o : Codec) (c : AsyncDispatchConfig) (jitter : Z → Z).
Context (inv : Invocation).
Hypothesis Hlive : InvocationStatus.is_terminal (inv_status inv) = false.
Hypothesis Hasync : inv_mode inv = Async.
Hypothesis Hbound : bounded_output inv (max_response_bytes (cfg_limits cfg)) = Ok tt.

Lemma dead_ends st error counted now reason :
  st = settle_failed error now inv →
  ends cfg inv (mkDecision st DispatchState.Dead None (Some error) counted (Some reason)).
Proof.
  intros ->. destruct (settle_failed_ends error now inv Hlive) as [[Hr Ho] Ht].
  split; [by split|done|by eapply bounded_same|done].
Qed.

Lemma requeued_ends inv' t error counted :
  Inv.mark_requeued inv = Ok inv' →
  ends cfg inv (mkDecision inv' DispatchState.Scheduled (Some t) error counted None).
Proof.
  intros H. destruct (mark_requeued_live inv Hlive Hasync) as (i & Hi & [Hr Ho] & Hs).
  rewrite Hi in H. injection H as <-. split; [by split|done|by eapply bounded_same|by split].
Qed.

(** Scheduling decides for every live asynchronous invocation. *)
Lemma schedule_ends record fence policy error counted not_before now :
  ∃ d, schedule o c jitter inv record fence policy error counted not_before now = Ok d ∧ ends cfg inv d.
Proof.
  unfold schedule. cbv zeta. destruct (counted && _); [eexists; split; [done|]; by eapply dead_ends|].
  destruct (_ <=? _); [eexists; split; [done|]; by eapply dead_ends|].
  destruct (mark_requeued_live inv Hlive Hasync) as (i & Hi & _). rewrite Hi.
  eexists. split; [done|]. by apply requeued_ends.
Qed.

Lemma complete_ends record fence output status now now' :
  bounded_output (inv <| inv_output := output |>) (max_response_bytes (cfg_limits cfg)) = Ok tt →
  ∃ d, complete o c jitter inv record fence output status now now' = Ok d ∧ ends cfg inv d.
Proof.
  intros Hb. unfold complete. destruct (Inv.mark_succeeded _ _ _ _) as [i|e] eqn:Hs; [|apply schedule_ends].
  unfold Inv.mark_succeeded in Hs. apply result_bind_Ok in Hs as (u & _ & Hs).
  destruct (inv_status inv); try done. injection Hs as <-.
  eexists. split; [done|]. split; [by split| | |done].
  - exists InvocationStatus.Succeeded, (inv_deadlines inv), output, status, (Some now). by destruct inv.
  - by apply (bounded_same (inv <| inv_output := output |>)).
Qed.

Lemma cancel_ends now : ends cfg inv (cancel inv now).
Proof.
  unfold cancel, Inv.mark_cancelled, Inv.ensure_not_terminal. rewrite Hlive. cbn [mbind result_bind or_unchanged].
  destruct (finished_rewrites InvocationStatus.Cancelled now inv) as [Hr Ho].
  split; [by split|done|by eapply bounded_same|done].
Qed.

Lemma reap_decision_ends v queue_idle now d :
  cd_invocation v = inv → reaped (reap_decision c jitter v queue_idle now) = Some d → ends cfg inv d.
Proof.
  intros Hv. unfold reap_decision. cbv zeta. rewrite Hv. intros H.
  destruct (_ || _).
  - destruct (if expires_at _ _ <=? _ then _ else _) as [reason error]. destruct (_ && _).
    + destruct (Inv.mark_requeued _) eqn:Hq; [|done]. injection H as <-. by apply requeued_ends.
    + injection H as <-. by eapply dead_ends.
  - destruct (_ || _); [done|]. destruct (Inv.mark_requeued _) eqn:Hq; [|done].
    injection H as <-. by apply requeued_ends.
Qed.
End decided.
