(* ===== verification/AsyncProps.v ===== *)
(** * The asynchronous path: what callers and operators may rely on

    Runs start within their limits, every run's end is recorded, the reaper misses no
    one, and dead letters are exact and redriven once. *)

From S2P Require Import Prelude Ids Functions Invocation Guard Store StoreInv Scenario Retry.
From S2P Require Import Outbox Dispatch LedgerInv AsyncWorld AsyncRun AsyncSteps AsyncEnds.

Open Scope string_scope.
Open Scope Z_scope.

(** ** The services and the ledger *)

(** C6: the asynchronous services refine the transactions of the ledger. Handlers of
    any processes read an invocation, then its row, and then claim or settle, with any
    transactions of any others in between and acting on what they read however long
    ago; whatever deliveries, clock readings, codecs, crashes between transactions and
    reaper passes make of it, every ledger they reach is one a sequence of the ledger's
    transactions reaches, so its invariant holds. And as long as no claim was written
    or renewed that had already run out on the clock of some handler, no invocation is
    ever claimed for more attempts than its function's policy allows, although a claim
    does not check them. *)
Theorem services_respect_ledger cfg o c jitter w :
  policies_nonneg c → async_reach cfg o c jitter w →
  ledger_run cfg empty_ledger (ds_ledger w) ∧ ledger_wf (ds_ledger w) ∧
  (ds_late w = false → attempts_within c (ds_ledger w)).
Proof.
  intros Hp Hw%async_reach_ok; [|done]. pose proof (dk_wf _ _ _ Hw). by destruct Hw.
Qed.

(** *** What a run started from *)

Section starts.
Context (cfg : StoreConfig) (o : Codec) (c : AsyncDispatchConfig) (jitter : Z → Z).
Context (owner : string).

Lemma before_run_runs d deleted cached tm b l inv record payload b' l' :
  before_run cfg o c jitter owner alone d deleted cached tm b l = Ok (BeforeRun inv record payload, b', l') →
  ∃ envelope inv0 record0, 
    locate o d l = inr (envelope, inv0) ∧
    check_record envelope inv0 (tm_check tm) l = IsDue envelope inv0 record0 ∧
    pre_run_dead_end deleted inv0 record0 (Config.policy_for (inv_function_id inv0) c) (tm_check tm) = None ∧
    cached = Ok (inv_revision_id inv0) ∧
    claim_dispatch (mkClaim (inv_id inv0) owner (ev_generation envelope) (tm_check tm)
                      (Config.claim_ttl c)) l = Ok (ClaimOutcome.Claimed inv record, l') ∧
    read_input o inv l' = Ok payload.
Proof.
  unfold before_run, alone. cbv zeta.
  destruct (inspect o d (tm_check tm) l l) as [detail|why|at_|envelope inv0 record0] eqn:Hi; intros H.
  { by apply result_bind_Ok in H as ([out l2] & Hc & [=]). }
  { discriminate H. } { discriminate H. }
  apply inspect_due in Hi as [Hl Hc]. apply result_bind_Ok in H as ([[started b2] l2] & Hs & H).
  destruct started as [out|inv1 record1]; [discriminate H|].
  apply result_bind_Ok in H as ([before l3] & Ho & [= -> -> ->]).
  unfold open_run in Ho. destruct (read_input o inv1 l2) as [p|e] eqn:Hr.
  2: { by apply result_bind_Ok in Ho as ([out l4] & _ & [=]). }
  injection Ho as -> -> -> ->.
  apply start_run_keeps in Hs as [[Hf _]|(inv' & record' & [= <- <-] & Hend & Hcached & Hcl)]; [done|].
  by exists envelope, inv0, record0.
Qed.

Lemma read_input_Ok inv l payload :
  read_input o inv l = Ok payload →
  ∃ input bytes, lg_inputs l !! inv_id inv = Some input ∧ input_bytes o inv (in_body input) = Ok bytes ∧
    sha256 o bytes = inv_input_digest inv ∧ parse_event o bytes = Ok payload.
Proof.
  unfold read_input, platform_error. destruct (_ !! _) as [input|]; [|done]. intros H. pass H.
  apply result_bind_Ok in H as (bytes & Hb & H). pass H. bools.
  destruct (parse_event o bytes) eqn:Hp; [|done]. injection H as ->. by exists input, bytes.
Qed.
End starts.

(** C7: a run starts only within its limits. When the handler, undisturbed, is about
    to call the handler function, the delivery named a live invocation of its own
    tenant and its current generation, the function is not deleted and its pinned
    revision resolved, its age and deadline are not reached, this attempt is one more
    than were counted and within the policy, no other run's claim was live, and the
    input has the digest that was accepted; the ledger changed in one row only, which
    is the run's until the claim expires. *)
Theorem run_starts_within_limits cfg o c jitter owner d deleted cached tm b l inv record payload b' l' :
  ledger_wf l →
  before_run cfg o c jitter owner alone d deleted cached tm b l = Ok (BeforeRun inv record payload, b', l') →
  let policy := Config.policy_for (inv_function_id inv) c in
  let id := inv_id inv in
  invs l !! id = Some inv ∧ InvocationStatus.is_terminal (inv_status inv) = false ∧
  inv_tenant_id inv = dv_tenant_id d ∧ dv_message_id d = message_id_for id (dr_generation record) ∧
  deleted = false ∧ cached = Ok (inv_revision_id inv) ∧ tm_check tm < expires_at policy inv ∧
  dr_attempts record = Z.min (attempts_at l id + 1) u32_max ∧
  dr_attempts record ≤ rp_max_attempts policy ∧
  Rec.claim_live (tm_check tm) (record_or_unclaimed inv l) = false ∧
  (∃ input bytes, lg_inputs l !! id = Some input ∧ input_bytes o inv (in_body input) = Ok bytes ∧
     sha256 o bytes = inv_input_digest inv ∧ parse_event o bytes = Ok payload) ∧
  l' = l <| lg_dispatch ::= <[id := record]> |> ∧ is_current l' owner id (dr_attempts record) ∧
  dr_claim_expires_at record = Some (tm_check tm + Config.claim_ttl c).
Proof.
  intros Hwf H. apply before_run_runs in H as (envelope & inv1 & record1 & Hloc & Hck & Hend & Hcached & Hclaim & Hread).
  apply locate_Ok in Hloc as (Hinv & Ht & _ & Hten & Hmsg).
  apply check_due in Hck as (_ & _ & -> & Hgen & _).
  pose proof (wf_invocations l Hwf _ _ Hinv) as Hid.
  apply dead_end_None in Hend as (Hage & Hatt & Hdel).
  unfold record_or_unclaimed in Hatt, Hgen. rewrite record_attempts in Hatt.
  apply read_input_Ok in Hread.
  destruct (claim_dispatch_Ok _ _ _ _ Hclaim) as [[_ Hno]|(i & r & Hi & Er & [= -> Hrec] & _ & _ & _ & Hcl & _ & E)];
    [by destruct (Hno inv record)|].
  cbn [cl_invocation_id cl_now] in *. rewrite Hid, Hinv in Hi. injection Hi as ->.
  pose proof (record_or_unclaimed_wf l _ i Hwf Hinv Ht) as (Hrw & _).
  rewrite <-Hid, <-Er in Hrw. pose proof (rw_id _ _ _ Hrw) as Hrid. rewrite Hrid in E.
  pose proof (record_attempts l (inv_id i) i) as Ha. rewrite <-Er in Ha.
  rewrite <-Er in Hgen. rewrite Hgen, <-Hid in Hmsg.
  assert (Hrest : lg_inputs l' = lg_inputs l) by (by rewrite E). rewrite Hrest in Hread.
  rewrite Hrec in *. cbn [claimed_record dr_attempts dr_generation dr_claim_expires_at cl_now cl_ttl].
  split_and!; try done; try congruence; try lia.
  { unfold record_or_unclaimed. by rewrite <-Er. }
  exists (claimed_record (mkClaim (inv_id i) owner (ev_generation envelope) (tm_check tm)
    (Config.claim_ttl c)) r). rewrite E. cbn. by rewrite lookup_insert_eq.
Qed.

(** ** Every end is recorded *)

Lemma reachable_facts cfg l :
  ledger_run cfg empty_ledger l → ledger_wf l ∧ bounded_rows cfg l.
Proof.
  intros Hr. split; [by eapply ledger_run_wf; [apply empty_ledger_wf|]|].
  eapply ledger_run_bounded; [apply empty_ledger_wf| |exact Hr].
  intros id inv. cbn. by rewrite lookup_empty.
Qed.

Lemma async_input inv l :
  is_async_with_input inv l = true → inv_mode inv = Async ∧ is_Some (lg_inputs l !! inv_id inv).
Proof. unfold is_async_with_input. intros H. bools. split; [done|]. by destruct (lg_inputs l !! _). Qed.

(** C8: the end of a run that still holds its claim is always recorded: whatever the
    run's outcome, the settle commits, and afterwards the invocation is either
    terminal (with an open dead letter when it is dead) and nothing of it is left to
    publish, or it is queued with a fresh unsent event of its next generation, due at
    the row's next try. A success of a running invocation is stored as one, with its
    output. *)
Theorem run_end_is_recorded cfg o c jitter owner l id inv record outcome tm :
  ledger_run cfg empty_ledger l → invs l !! id = Some inv →
  InvocationStatus.is_terminal (inv_status inv) = false → is_async_with_input inv l = true →
  lg_dispatch l !! id = Some record → is_current l owner id (dr_attempts record) →
  dr_generation record < i64_max → lg_dead l !! fr_dead_letter_id (tm_fresh tm) = None →
  (∀ output status, outcome = Ok (output, status) →
     bounded_output (inv <| inv_output := output |>) (max_response_bytes (cfg_limits cfg)) = Ok tt) →
  ∃ out l', after_run cfg o c jitter owner id record outcome tm l = Ok (out, l') ∧
    out ≠ HandleOutcome.LostClaim ∧ resolved l' id ∧
    (∀ output status, outcome = Ok (output, status) → inv_status inv = InvocationStatus.Running →
       ∃ inv', invs l' !! id = Some inv' ∧ inv_status inv' = InvocationStatus.Succeeded ∧
               inv_output inv' = output).
Proof.
  intros [Hwf Hbd]%reachable_facts Hi Hlive [Hmode Hin]%async_input Hr Hcur Hg Hfr Hout.
  pose proof (Hbd _ _ Hi) as Hb. pose proof (wf_invocations l Hwf _ _ Hi) as <-.
  assert (record_or_unclaimed inv l = record) as Erow
    by (unfold record_or_unclaimed, get_record; by rewrite Hr).
  assert (Hf : fence_holds (Fence.Claim owner (dr_attempts record)) (fr_now (tm_fresh tm)) record = true).
  { destruct Hcur as (r & Hr' & Hs & Hc & _). rewrite Hr in Hr'. injection Hr' as <-. cbn.
    by rewrite Hs, Hc, Z.eqb_refl, !bool_decide_eq_true_2. }
  assert (Hcommit : ∀ d, ends cfg inv d → ∃ out l',
    commit_and_ack cfg o record (Fence.Claim owner (dr_attempts record)) d (tm_fresh tm) l = Ok (out, l') ∧
    out ≠ HandleOutcome.LostClaim ∧ resolved l' (inv_id inv) ∧
    invs l' !! inv_id inv = Some (dn_invocation d)).
  { intros d Hd. apply commit_and_ack_resolves; rewrite ?Erow; done. }
  unfold after_run. rewrite Hi. unfold settle_run. cbv zeta. destruct outcome as [[output status]|error].
  - specialize (Hout output status eq_refl).
    destruct (complete_ends cfg o c jitter inv Hlive Hmode Hb record (Fence.Claim owner (dr_attempts record))
                output status (tm_check tm) (tm_decide tm) Hout) as (d & Hd & He).
    destruct (Hcommit d He) as (out & l' & Hc & Hn & Hres & Hrow). exists out, l'.
    rewrite Hd. cbn [mbind result_bind]. split_and!; try done.
    intros ? ? [= <- <-] Hrun. exists (dn_invocation d). split; [done|].
    unfold complete, Inv.mark_succeeded, Inv.ensure_not_terminal in Hd. rewrite Hlive, Hrun in Hd.
    by injection Hd as <-.
  - assert (Hend : ∃ d, ends cfg inv d ∧
      match classify error with
      | Disposition.Cancelled => d = cancel inv (tm_decide tm)
      | Disposition.DeadLetter reason => d = dead_lettered reason error true (tm_decide tm) inv
      | Disposition.Defer => schedule o c jitter inv record (Fence.Claim owner (dr_attempts record))
          (Config.policy_for (inv_function_id inv) c) error false None (tm_decide tm) = Ok d
      | Disposition.Retry => schedule o c jitter inv record (Fence.Claim owner (dr_attempts record))
          (Config.policy_for (inv_function_id inv) c) error true None (tm_decide tm) = Ok d
      end).
    { destruct (classify error); [| |eexists; split; [by eapply dead_ends|done]
                                  |eexists; split; [by apply cancel_ends|done]];
        edestruct (schedule_ends cfg o c jitter inv Hlive Hmode Hb) as (d & Hd & He); eauto. }
    destruct Hend as (d & He & Hd). destruct (Hcommit d He) as (out & l' & Hc & Hn & Hres & _).
    exists out, l'. split; [|by split_and!].
    rewrite Erow. destruct (classify error); subst; rewrite ?Hd; done.
Qed.

(** The instant from which the reaper finds an invocation that nothing else moves: its
    claim is over, and its acceptance, its event and its next try are a stall timeout
    old. *)
Definition reaped_from (c : AsyncDispatchConfig) (l : Ledger) (inv : Invocation) : Timestamp :=
  let after (t : option Timestamp) := unwrap_or t (inv_accepted_at inv) in
  let d := lg_dispatch l !! inv_id inv in
  Z.max (after (d ← d; dr_claim_expires_at d))
    (Config.stall_timeout c
       + Z.max (inv_accepted_at inv)
           (Z.max (after (d ← d; dr_next_attempt_at d)) (after (e ← lg_outbox l !! inv_id inv; ob_sent_at e)))).

Lemma candidate_from c l inv now :
  ledger_wf l → invs l !! inv_id inv = Some inv →
  InvocationStatus.is_terminal (inv_status inv) = false → is_async_with_input inv l = true →
  is_none_or (lg_outbox l !! inv_id inv) (λ e, is_some (ob_sent_at e)) = true →
  reaped_from c l inv ≤ now →
  is_candidate now (now - Config.stall_timeout c) (now - Config.min_event_age c) l inv = true.
Proof.
  intros Hwf Hi Hlive [_ [input Hin]]%async_input Hout. unfold reaped_from, is_candidate. cbv zeta.
  rewrite Hin, Hlive. cbn [is_some negb andb]. intros Hnow. rewrite Hout.
  destruct (lg_dispatch l !! inv_id inv) as [r|] eqn:Hr; cbn [mbind option_bind is_some_and is_none_or] in *.
  - destruct (wf_dispatch l Hwf _ _ Hr) as [_ _ _ Hcl _ Hset].
    specialize (Hset inv Hi). unfold claim_shape in Hcl.
    destruct (dr_state r) eqn:Hs; cbn [settled_state] in Hset;
      try (specialize (Hset eq_refl); congruence).
    + rewrite bool_decide_true by done. destruct Hcl as [_ Hcl].
      destruct (dr_claim_expires_at r) as [t|]; [|done]. cbn [col_le is_some_and unwrap_or default from_option] in *.
      unfold unwrap_or in *. cbn in Hnow. rewrite (proj2 (Z.leb_le t now)) by lia. done.
    + rewrite (bool_decide_true (DispatchState.Scheduled = DispatchState.Scheduled)) by done.
      apply orb_true_iff. right. unfold unwrap_or in *.
      destruct (dr_next_attempt_at r), (lg_outbox l !! inv_id inv) as [e|]; cbn in *;
        try destruct (ob_sent_at e); cbn in *; try done;
        rewrite ?andb_true_iff, ?Z.leb_le; lia.
  - apply orb_true_iff. right. unfold unwrap_or in *.
    destruct (lg_outbox l !! inv_id inv) as [e|]; cbn in *;
      try destruct (ob_sent_at e); cbn in *; try done;
        rewrite ?andb_true_iff, ?Z.leb_le; lia.
Qed.

(** The reaper always decides on a published invocation of an idle queue. *)
Lemma reap_decides c jitter inv record event now :
  InvocationStatus.is_terminal (inv_status inv) = false → inv_mode inv = Async →
  is_none_or event (λ e, is_some (ob_sent_at e)) = true →
  ∃ d, reaped (reap_decision c jitter (mkCandidate inv record event) true now) = Some d.
Proof.
  intros Hlive Hmode Hsent. destruct (mark_requeued_live inv Hlive Hmode) as (i & Hi & _).
  unfold reap_decision. cbn [cd_invocation cd_record cd_outbox]. cbv zeta. rewrite Hi.
  replace (is_some_and event (λ e, is_none (ob_sent_at e))) with false
    by (destruct event as [e|]; [by cbn in *; destruct (ob_sent_at e)|done]).
  destruct (_ || _); [|by eexists].
  destruct (if expires_at _ _ <=? _ then _ else _) as [reason error]. destruct (_ && _); by eexists.
Qed.

(** Nobody holds the row from then on. *)
Lemma unclaimed_from c l inv now :
  ledger_wf l → reaped_from c l inv ≤ now →
  Rec.claim_live now (record_or_unclaimed inv l) = false.
Proof.
  unfold reaped_from, record_or_unclaimed, get_record, Rec.claim_live. intros Hwf Hnow.
  destruct (lg_dispatch l !! inv_id inv) as [r|]; [|done]. cbn in *.
  destruct (dr_claim_expires_at r) as [t|]; cbn in *; [|by rewrite andb_false_r].
  rewrite (proj2 (Z.ltb_ge now t)) by lia. by rewrite andb_false_r.
Qed.

(** *** One pass over all candidates *)

(** What the rest of a pass, and other processes, leave of an invocation: its rows, its
    dead letters, and the id [k] of a dead letter to come. *)
Record apart (k : string) (id : InvocationId) (l l' : Ledger) : Prop := {
  ap_inv : invs l' !! id = invs l !! id;
  ap_input : lg_inputs l' !! id = lg_inputs l !! id;
  ap_dispatch : lg_dispatch l' !! id = lg_dispatch l !! id;
  ap_outbox : lg_outbox l' !! id = lg_outbox l !! id;
  ap_free : lg_dead l !! k = None → lg_dead l' !! k = None;
  ap_letters : ∀ k' d, lg_dead l !! k' = Some d → dead_of id d → lg_dead l' !! k' = Some d
}.
#[global] Instance apart_preorder k id : PreOrder (apart k id).
Proof.
  split; [by split; auto|]. intros l1 l2 l3 [? ? ? ? F1 L1] [? ? ? ? F2 L2].
  split; [congruence..|auto|]. eauto.
Qed.

Lemma reap_decision_id c jitter v queue_idle now d :
  reaped (reap_decision c jitter v queue_idle now) = Some d → inv_id (dn_invocation d) = inv_id (cd_invocation v).
Proof.
  assert (Hq : ∀ inv i, Inv.mark_requeued inv = Ok i → inv_id i = inv_id inv).
  { intros inv i. unfold Inv.mark_requeued. intros H. apply result_bind_Ok in H as (u & _ & H).
    case_bool_decide; [|done]. by injection H as <-. }
  assert (Hf : ∀ e t inv, inv_id (settle_failed e t inv) = inv_id inv).
  { intros e t inv. unfold settle_failed, Inv.mark_outcome_unknown, Inv.mark_failed, Inv.ensure_not_terminal, or_unchanged.
    repeat case_match; simplify_eq/=; done. }
  unfold reap_decision. cbv zeta. intros H.
  repeat (case_match; simplify_eq/=); rewrite ?Hf; eauto.
Qed.

(** A candidate's commit writes its own rows, under its own dead letter's id. *)
Lemma reap_one_apart cfg o c jitter v queue_idle now fresh p l id k :
  ledger_wf l → inv_id (cd_invocation v) ≠ id → k ≠ fr_dead_letter_id fresh →
  apart k id l (reap_one cfg o c jitter v queue_idle now fresh p l).2.
Proof.
  intros Hwf Hne Hk. unfold reap_one. cbv zeta.
  destruct (reaped _) as [d|] eqn:Hd; [|reflexivity]. apply reap_decision_id in Hd.
  destruct (count_reaping _ _). destruct (commit _ _ _ _ _ _ _) as [[out l2]|e] eqn:Hc; [|reflexivity].
  enough (apart k id l l2) by (by destruct out). unfold commit, ledger in Hc.
  apply result_bind_Ok in Hc as (settle & Hs & Hc).
  assert (sl_invocation settle = dn_invocation d ∧
    ∀ dl, sl_dead_letter settle = Some dl → dd_id dl = fr_dead_letter_id fresh) as [Hinv Hdl].
  { unfold settle_of in Hs. apply result_bind_Ok in Hs as (e & _ & [= <-]). split; [done|].
    cbn. intros dl. destruct (dn_dead d); [|done]. by intros [= <-]. }
  destruct (settle_dispatch cfg settle l) as [[out' l3]|] eqn:Hset; [|done]. injection Hc as -> ->.
  apply settle_dispatch_Ok in Hset as [[-> _]|(_ & old & r & S)]; [reflexivity|].
  pose proof (settled_id _ _ _ _ _ Hwf S) as Hrid.
  assert (Hn : inv_id (sl_invocation settle) ≠ id) by congruence.
  split.
  - by rewrite (se_invs _ _ _ _ _ S), lookup_insert_ne.
  - by rewrite (se_inputs _ _ _ _ _ S).
  - rewrite (se_dispatch _ _ _ _ _ S), lookup_insert_ne by congruence. done.
  - rewrite (se_outbox _ _ _ _ _ S). destruct (sl_republish settle);
      rewrite ?lookup_insert_ne, ?lookup_delete_ne by done; done.
  - destruct (sl_dead_letter settle) as [dl|] eqn:Ed.
    + destruct (settle_dead_fresh _ _ _ _ _ dl Hwf S Ed) as (_ & -> & _).
      rewrite lookup_insert_ne; [done|]. rewrite (Hdl dl eq_refl). done.
    + pose proof (se_dead _ _ _ _ _ S) as Hde. rewrite Ed in Hde. by rewrite Hde.
  - intros k' d' Hk' _. destruct (sl_dead_letter settle) as [dl|] eqn:Ed.
    + destruct (settle_dead_fresh _ _ _ _ _ dl Hwf S Ed) as (_ & -> & Hfree & _).
      rewrite lookup_insert_ne; [done|]. congruence.
    + pose proof (se_dead _ _ _ _ _ S) as Hde. rewrite Ed in Hde. by rewrite Hde.
Qed.

Lemma apart_resolved k id l l' : apart k id l l' → resolved l id → resolved l' id.
Proof.
  intros [Hi _ Hd Ho _ Hl] (inv & r & Hinv & Hr & H). exists inv, r. rewrite Hi, Hd, Ho.
  split; [done|]. split; [done|]. destruct (dr_state r); [exact H|exact H|exact H|].
  destruct H as (Ht & Hn & k' & d & Hk & Hof & Hop). split; [done|]. split; [done|].
  exists k', d. auto.
Qed.

Lemma sublist_bool_filter {A} (p : A → bool) (l : list A) : List.filter p l `sublist_of` l.
Proof. induction l as [|x l IH]; cbn; [constructor|]. destruct (p x); by constructor. Qed.

(** Every candidate of a pass is an invocation of its own. *)
Lemma candidates_nodup now quiet since limit l :
  ledger_wf l → NoDup ((λ v, inv_id (cd_invocation v)) <$> dispatch_candidates now quiet since limit l).
Proof.
  intros Hwf. unfold dispatch_candidates. rewrite <-list_fmap_compose. cbn.
  eapply sublist_NoDup; [|apply (fmap_sublist inv_id), sublist_take]. rewrite sort_by_Permutation.
  unfold filter_values. eapply sublist_NoDup; [|apply (fmap_sublist inv_id), sublist_bool_filter].
  unfold btree_values. rewrite <-list_fmap_compose.
  replace ((inv_id ∘ snd) <$> btree_entries (invs l)) with (btree_keys (invs l)); [apply NoDup_btree_keys|].
  unfold btree_keys. apply list_fmap_ext. intros i [key v] Hin. cbn.
  apply list_elem_of_lookup_2, elem_of_btree_entries in Hin. symmetry. exact (wf_invocations l Hwf _ _ Hin).
Qed.

Lemma elem_of_imap_pair {A} (xs : list A) n i x :
  (i, x) ∈ imap (λ j, pair (n + j)%nat) xs → (n ≤ i)%nat ∧ x ∈ xs ∧ (i < n + length xs)%nat.
Proof.
  intros (j & Hj)%list_elem_of_lookup. rewrite list_lookup_imap in Hj.
  destruct (xs !! j) as [y|] eqn:Hy; [|done]. injection Hj as <- ->.
  pose proof (lookup_lt_Some _ _ _ Hy). split; [lia|]. split; [by eapply list_elem_of_lookup_2|lia].
Qed.

Section pass.
Context (cfg : StoreConfig) (o : Codec) (c : AsyncDispatchConfig) (jitter : Z → Z).
Context (others : Others) (fresh : nat → Fresh) (id : InvocationId).
Hypothesis Hothers : ∀ n i l, ledger_run cfg l (others n l) ∧
                              apart (fr_dead_letter_id (fresh i)) id l (others n l).
Hypothesis Hdistinct : ∀ i j, fr_dead_letter_id (fresh i) = fr_dead_letter_id (fresh j) → i = j.

Abbreviation turn now := (λ '(p, l) '(i, v), reap_one cfg o c jitter v true now (fresh i) p (others i l)).

(** The candidates of other invocations leave one alone. *)
Lemma turns_apart now i xs p l :
  ledger_wf l → (∀ j v, (j, v) ∈ xs → inv_id (cd_invocation v) ≠ id ∧ j ≠ i) →
  let l' := (foldl (turn now) (p, l) xs).2 in
  ledger_run cfg l l' ∧ apart (fr_dead_letter_id (fresh i)) id l l'.
Proof.
  intros Hwf. revert p l Hwf. induction xs as [|[j v] xs IH]; intros p l Hwf Hxs; cbn.
  { split; [apply run_here|reflexivity]. }
  destruct (Hothers j i l) as [Hr Ha]. pose proof (ledger_run_wf _ _ _ Hwf Hr) as Hwf1.
  destruct (Hxs j v ltac:(by left)) as [Hv Hj].
  pose proof (reap_one_keeps cfg o c jitter v true now (fresh j) p (others j l)) as Hk.
  assert (Ha2 : apart (fr_dead_letter_id (fresh i)) id (others j l)
    (reap_one cfg o c jitter v true now (fresh j) p (others j l)).2).
  { apply reap_one_apart; [done|done|]. intros E. by apply Hj, Hdistinct. }
  destruct (reap_one _ _ _ _ _ _ _ _ _ _) as [p2 l2] eqn:E. cbn in Hk, Ha2.
  destruct (IH p2 l2) as [Hr3 Ha3]; [by eapply ledger_run_wf, kp_run|intros; apply Hxs; by right|].
  split.
  - eapply ledger_run_trans; [exact Hr|]. eapply ledger_run_trans; [by apply kp_run|done].
  - etrans; [exact Ha|]. etrans; [exact Ha2|exact Ha3].
Qed.

(** A pass comes to each candidate's turn with its rows as they were listed, and leaves
    what its turn made of them. *)
Lemma turns_reach now c1 v c2 p l :
  ledger_wf l → NoDup ((λ v, inv_id (cd_invocation v)) <$> (c1 ++ v :: c2)%list) → inv_id (cd_invocation v) = id →
  ∃ i p1 l1, ledger_run cfg l l1 ∧ apart (fr_dead_letter_id (fresh i)) id l l1 ∧
    apart (fr_dead_letter_id (fresh i)) id (reap_one cfg o c jitter v true now (fresh i) p1 l1).2
      (foldl (turn now) (p, l) (imap pair (c1 ++ v :: c2)%list)).2.
Proof.
  intros Hwf Hnd Hid. rewrite fmap_app, fmap_cons in Hnd. apply NoDup_app in Hnd as (_ & Hn1 & [Hn2 _]%NoDup_cons).
  rewrite Hid in Hn1, Hn2. rewrite imap_app, foldl_app. cbn [imap foldl]. set (i := (length c1 + 0)%nat).
  destruct (turns_apart now i (imap pair c1) p l Hwf) as [Hr1 Ha1].
  { intros j w [_ [Hw Hj]]%(elem_of_imap_pair c1 0). split; [|subst i; lia]. intros E.
    apply (Hn1 id); [|by left]. apply list_elem_of_fmap. by exists w. }
  destruct (foldl _ (p, l) _) as [p1 l1]. cbn [snd] in Hr1, Ha1.
  destruct (Hothers i i l1) as [Hr2 Ha2]. exists i, p1, (others i l1).
  assert (Hrun : ledger_run cfg l (others i l1)) by by eapply ledger_run_trans.
  split; [done|]. split; [by etrans|].
  pose proof (reap_one_keeps cfg o c jitter v true now (fresh i) p1 (others i l1)) as Hk.
  destruct (reap_one _ _ _ _ v _ _ _ _ _) as [p3 l3].
  pose proof (ledger_run_wf _ _ _ (ledger_run_wf _ _ _ Hwf Hrun) (kp_run _ _ _ Hk)) as Hwf3.
  erewrite imap_ext; [apply (turns_apart now i (imap (λ j, pair (S (length c1) + j)%nat) c2) p3 l3 Hwf3)|].
  - intros j w (Hj & Hw & _)%elem_of_imap_pair. split; [|subst i; lia]. intros E.
    apply Hn2, list_elem_of_fmap. by exists w.
  - intros j x _. cbn. f_equal. lia.
Qed.

(** Its own turn ends it, or sends its next event. *)
Lemma reap_one_resolves l inv now p fr :
  ledger_wf l → invs l !! inv_id inv = Some inv →
  bounded_output inv (max_response_bytes (cfg_limits cfg)) = Ok tt →
  InvocationStatus.is_terminal (inv_status inv) = false → is_async_with_input inv l = true →
  is_none_or (lg_outbox l !! inv_id inv) (λ e, is_some (ob_sent_at e)) = true →
  dr_generation (record_or_unclaimed inv l) < i64_max → reaped_from c l inv ≤ fr_now fr →
  lg_dead l !! fr_dead_letter_id fr = None →
  let v := mkCandidate inv (record_or_unclaimed inv l) (event_of <$> lg_outbox l !! inv_id inv) in
  let l' := (reap_one cfg o c jitter v true now fr p l).2 in
  resolved l' (inv_id inv) ∧
  ∀ r, lg_dispatch l' !! inv_id inv = Some r → dr_state r = DispatchState.Scheduled →
    dr_generation r = dr_generation (record_or_unclaimed inv l) + 1.
Proof.
  intros Hwf Hi Hb Hlive Hin Hsent Hg Hnow Hdead v. destruct (async_input _ _ Hin) as [Hmode Hinput].
  destruct (reap_decides c jitter inv (record_or_unclaimed inv l) (event_of <$> lg_outbox l !! inv_id inv) now)
    as [d Hd]; [done|done|by destruct (lg_outbox l !! inv_id inv)|].
  assert (He : ends cfg inv d)
    by (eapply (reap_decision_ends cfg c jitter inv Hlive Hmode Hb); [|exact Hd]; done).
  assert (Hf : fence_holds (Fence.Unclaimed (dr_generation (record_or_unclaimed inv l))) (fr_now fr)
                 (record_or_unclaimed inv l) = true).
  { cbn. rewrite Z.eqb_refl, (unclaimed_from c l inv (fr_now fr) Hwf); [done|lia]. }
  destruct (commit_resolves cfg o l inv Hwf Hi Hlive Hinput (record_or_unclaimed inv l) _ d fr Hf
              eq_refl Hg Hdead He) as (l' & Hc & Hres & _ & Hgen).
  unfold reap_one. cbv zeta. fold v in Hd. rewrite Hd. destruct (count_reaping _ _).
  cbn [cd_record v]. rewrite Hc. by split.
Qed.
End pass.

(** C9: the reaper misses no one. Take a live asynchronous invocation whose event, if
    it has one, was published. From an explicit instant on (its claim is over; its
    acceptance, its event and its next try are a stall timeout old), one pass over an
    idle queue, if no more than its 256 candidates are found, leaves the invocation
    ended, with a dead letter, or queued with a fresh event of its next generation in
    the outbox: whatever the pass makes of every other candidate, and whatever other
    processes do between its transactions, as long as they leave this invocation to
    it. *)
Theorem reaper_misses_no_one cfg o c jitter others fresh l id inv now :
  ledger_run cfg empty_ledger l → invs l !! id = Some inv →
  InvocationStatus.is_terminal (inv_status inv) = false → is_async_with_input inv l = true →
  is_none_or (lg_outbox l !! id) (λ e, is_some (ob_sent_at e)) = true →
  dr_generation (record_or_unclaimed inv l) < i64_max → reaped_from c l inv ≤ now →
  (count_values (is_candidate now (now - Config.stall_timeout c) (now - Config.min_event_age c) l)
     (invs l) ≤ 256)%nat →
  (∀ i, now ≤ fr_now (fresh i) ∧ lg_dead l !! fr_dead_letter_id (fresh i) = None) →
  (∀ i j, fr_dead_letter_id (fresh i) = fr_dead_letter_id (fresh j) → i = j) →
  (∀ n i l1, ledger_run cfg l1 (others n l1) ∧ apart (fr_dead_letter_id (fresh i)) id l1 (others n l1)) →
  let l' := (reap cfg o c jitter others true now fresh l).2 in
  resolved l' id ∧
  ∀ r, lg_dispatch l' !! id = Some r → dr_state r = DispatchState.Scheduled →
    dr_generation r = dr_generation (record_or_unclaimed inv l) + 1.
Proof.
  intros [Hwf Hbd]%reachable_facts Hi Hlive Hin Hsent Hg Hnow Hroom Hfresh Hdistinct Hothers.
  pose proof (Hbd _ _ Hi) as Hb. pose proof (wf_invocations l Hwf _ _ Hi) as Hid.
  set (v := mkCandidate inv (record_or_unclaimed inv l) (event_of <$> lg_outbox l !! id)).
  unfold reap. cbv zeta. set (cands := dispatch_candidates _ _ _ _ _).
  assert (Hv : v ∈ cands).
  { unfold cands, dispatch_candidates. apply list_elem_of_fmap. exists inv.
    split; [unfold v; by rewrite Hid|]. rewrite take_ge by by rewrite sort_by_Permutation.
    rewrite sort_by_Permutation. apply elem_of_filter_values. split; [eauto|].
    subst id. by apply candidate_from. }
  pose proof (candidates_nodup now (now - Config.stall_timeout c) (now - Config.min_event_age c) 256 l Hwf) as Hnd.
  fold cands in Hnd. clearbody cands. apply list_elem_of_split in Hv as (c1 & c2 & ->).
  destruct (turns_reach cfg o c jitter others fresh id Hothers Hdistinct now c1 v c2 (mkReap 0 0 0 0 0 0) l Hwf Hnd Hid)
    as (i & p1 & l2 & Hr2 & Ha & Ha3).
  pose proof (ledger_run_wf _ _ _ Hwf Hr2) as Hwf2.
  assert (Hrec : record_or_unclaimed inv l2 = record_or_unclaimed inv l).
  { unfold record_or_unclaimed, get_record. by rewrite Hid, (ap_dispatch _ _ _ _ Ha). }
  assert (Hfrom : reaped_from c l2 inv = reaped_from c l inv).
  { unfold reaped_from. by rewrite Hid, (ap_dispatch _ _ _ _ Ha), (ap_outbox _ _ _ _ Ha). }
  destruct (Hfresh i) as [Hfn Hfd].
  destruct (reap_one_resolves cfg o c jitter l2 inv now p1 (fresh i)) as [Hres Hgen]; try done.
  { by rewrite Hid, (ap_inv _ _ _ _ Ha). }
  { unfold is_async_with_input in *. by rewrite Hid, (ap_input _ _ _ _ Ha), <-Hid. }
  { by rewrite Hid, (ap_outbox _ _ _ _ Ha). }
  { by rewrite Hrec. } { rewrite Hfrom. lia. } { by apply (ap_free _ _ _ _ Ha). }
  rewrite Hrec, Hid, (ap_outbox _ _ _ _ Ha) in Hres, Hgen. fold v in Hres, Hgen.
  split; [by eapply apart_resolved|]. intros r Hr. apply Hgen. rewrite <-Hr. symmetry.
  apply (ap_dispatch _ _ _ _ Ha3).
Qed.

(** ** Dead letters *)

(** A dead letter stays, with its origin and reason; once redriven it stays so. *)
Record dead_row_le (d d' : DeadLetter) : Prop := {
  drl_identity : (dd_id d', dd_tenant_id d', dd_invocation_id d', dd_reason d', dd_created_at d') =
                 (dd_id d, dd_tenant_id d, dd_invocation_id d, dd_reason d, dd_created_at d);
  drl_redriven : dd_status d = Redriven → d' = d
}.
#[global] Instance dead_row_le_preorder : PreOrder dead_row_le.
Proof.
  split; [by split|]. intros d1 d2 d3 [I1 F1] [I2 F2]. split; [congruence|].
  intros H. specialize (F1 H). subst. auto.
Qed.

Lemma command_dead_rows cfg cmd l :
  ledger_wf l → lcmd_ok cmd → rows_le dead_row_le (lg_dead l) (lg_dead (run_lcmd cfg cmd l)).
Proof.
  intros Hwf Hok.
  destruct cmd; cbn [run_lcmd];
    match goal with |- context [after ?t l] => destruct (after_Ok t l) as [->|[a H]]; [done|] end;
    set (l' := after _ l) in *; clearbody l';
    try solve [rewrite (qu_dead l l'); [done|]; eauto using
    claim_outbox_quiet, mark_outbox_sent_quiet, retry_outbox_quiet, purge_sent_outbox_quiet,
    update_invocation_quiet, claim_object_quiet].
  - apply accept_async_Ok in H as [[-> _]|(_ & _ & _ & _ & _ & -> & _)]; done.
  - by apply claim_dispatch_Ok in H as [[-> _]|(? & ? & _ & _ & _ & _ & _ & _ & _ & _ & ->)].
  - by apply renew_dispatch_claim_Ok in H as [[_ ->]|(? & _ & _ & _ & _ & _ & ->)].
  - apply settle_dispatch_Ok in H as [[-> _]|(_ & old & r & S)]; [done|].
    pose proof (se_dead _ _ _ _ _ S) as Hd. destruct (sl_dead_letter settle) as [d|]; [|by rewrite Hd].
    destruct Hd as (_ & _ & [[-> _]|(-> & Hf & _)]); [done|]. eauto with tsls typeclass_instances.
  - apply record_poison_Ok in H as [_ H].
    apply insert_dead_letter_Ok in H as [(_ & -> & _)|(_ & -> & Hf & _)]; [done|].
    by apply rows_le_insert_fresh; [typeclasses eauto|].
  - apply redrive_Ok in H as (dead & Hd & Hopen & _ & _ & _ & _ & _ & _ & _ & _ & ->).
    rewrite (wf_dead_keyed l Hwf _ _ Hd). eapply rows_le_insert; [|done|]; [typeclasses eauto|].
    split; [done|]. congruence.
Qed.

Lemma ledger_run_dead_rows cfg l l' :
  ledger_wf l → ledger_run cfg l l' → rows_le dead_row_le (lg_dead l) (lg_dead l').
Proof.
  intros Hwf. induction 1 as [|l' c Hrun IH Hok]; [reflexivity|].
  etrans; [exact IH|]. apply command_dead_rows; [by eapply ledger_run_wf|done].
Qed.

(** dead letters are exact and final. In every ledger the transactions reach, an
    invocation's dispatch is dead if and only if a dead letter names it; no two dead
    letters name one invocation; the invocation of a dead letter is terminal; and
    whatever happens later, a terminal invocation keeps its outcome and a dead letter
    its origin and reason. *)
Theorem dead_letters_exact cfg l l' id :
  ledger_run cfg empty_ledger l → ledger_run cfg l l' →
  ((∃ r, lg_dispatch l !! id = Some r ∧ dr_state r = DispatchState.Dead) ↔
   (∃ k d, lg_dead l !! k = Some d ∧ dead_of id d)) ∧
  (∀ k k' d d', lg_dead l !! k = Some d → lg_dead l !! k' = Some d' →
     dead_of id d → dead_of id d' → k = k') ∧
  (∀ k d, lg_dead l !! k = Some d → dead_of id d →
     ∃ inv, invs l !! id = Some inv ∧ InvocationStatus.is_terminal (inv_status inv) = true) ∧
  (∀ inv, invs l !! id = Some inv → InvocationStatus.is_terminal (inv_status inv) = true →
     invs l' !! id = Some inv) ∧
  rows_le dead_row_le (lg_dead l) (lg_dead l').
Proof.
  intros [Hwf _]%reachable_facts Hrun. split_and!.
  - split; [intros (r & Hr & Hs); by eapply (wf_dead_letter l Hwf)|].
    intros (k & d & Hk & Hd). by eapply (wf_dead_row l Hwf).
  - intros k k' d d' Hk Hk' Hd Hd'. eapply (wf_dead_once l Hwf); [done..|].
    unfold origin_key. by rewrite Hd, Hd'.
  - intros k d Hk Hd. destruct (wf_dead_row l Hwf k d id Hk Hd) as (r & Hr & Hs).
    destruct (wf_dispatch l Hwf id r Hr) as [_ _ _ _ [inv Hi] Hset]. exists inv. split; [done|].
    apply Hset; [done|]. by rewrite Hs.
  - intros inv Hi Ht. destruct (ledger_run_rows cfg l l' Hwf Hrun id inv Hi) as (inv' & Hi' & [_ Hfin]).
    by rewrite (Hfin Ht) in Hi'.
  - by eapply ledger_run_dead_rows.
Qed.

(** A redriven dead letter has its audit record. *)
Definition audited (l : Ledger) : Prop :=
  ∀ k d, lg_dead l !! k = Some d → dd_status d = Redriven →
    ∃ k' r, lg_redrives l !! k' = Some r ∧ rd_dead_letter_id r = k.

Lemma audited_mono l l' :
  audited l → lg_redrives l' = lg_redrives l →
  (∀ k d, lg_dead l' !! k = Some d → dd_status d = Redriven → lg_dead l !! k = Some d) → audited l'.
Proof. intros Ha E Hd k d Hk Hs. rewrite E. by eapply Ha; [apply Hd|]. Qed.

Lemma audited_insert l l' d0 k0 :
  audited l → lg_redrives l' = lg_redrives l → lg_dead l' = <[k0 := d0]> (lg_dead l) →
  dd_status d0 = Open → audited l'.
Proof.
  intros Ha E Hl Ho. apply (audited_mono l l' Ha E). intros k d. rewrite Hl, lookup_insert_Some.
  intros [[_ <-]|[_ ?]]; congruence.
Qed.

Lemma command_audited cfg cmd l :
  ledger_wf l → lcmd_ok cmd → audited l → audited (run_lcmd cfg cmd l).
Proof.
  intros Hwf Hok Ha.
  destruct cmd; cbn [run_lcmd];
    match goal with |- context [after ?t l] => destruct (after_Ok t l) as [->|[a H]]; [done|] end;
    set (l' := after _ l) in *; clearbody l';
    try solve [apply (audited_mono l l' Ha);
      [apply qu_redrives|rewrite (qu_dead l l'); [done|]]; eauto using
      claim_outbox_quiet, mark_outbox_sent_quiet, retry_outbox_quiet, purge_sent_outbox_quiet,
      update_invocation_quiet, claim_object_quiet].
  - apply accept_async_Ok in H as [[-> _]|(_ & _ & _ & _ & _ & Hd & Hr)]; [done|].
    apply (audited_mono l l' Ha Hr). by rewrite Hd.
  - by apply claim_dispatch_Ok in H as [[-> _]|(? & ? & _ & _ & _ & _ & _ & _ & _ & _ & ->)].
  - by apply renew_dispatch_claim_Ok in H as [[_ ->]|(? & _ & _ & _ & _ & _ & ->)].
  - apply settle_dispatch_Ok in H as [[-> _]|(_ & old & r & S)]; [done|].
    destruct Hok as (_ & _ & Hopen). pose proof (se_dead _ _ _ _ _ S) as Hd.
    pose proof (se_redrives _ _ _ _ _ S) as Hr.
    destruct (sl_dead_letter settle) as [d|]; [|apply (audited_mono l l' Ha Hr); by rewrite Hd].
    destruct Hd as (_ & _ & [[E _]|(E & _)]).
    + apply (audited_mono l l' Ha Hr). by rewrite E.
    + eapply (audited_insert l l' d); eauto.
  - apply record_poison_Ok in H as [_ H].
    apply insert_dead_letter_Ok in H as [(_ & -> & _)|(_ & E & _)]; [done|].
    eapply (audited_insert l l' d); [done|by rewrite E..|done].
  - apply redrive_Ok in H as (dead & Hd & Hopen & _ & _ & _ & _ & _ & _ & Hf & Hr & Hl).
    destruct Hok as [_ Hid]. intros k d. rewrite Hl, (wf_dead_keyed l Hwf _ _ Hd), lookup_insert_Some.
    intros [[<- _]|[_ Hk]] Hs; rewrite Hr.
    + exists (rd_id (rw_redrive w)), (rw_redrive w). by rewrite lookup_insert_eq.
    + destruct (Ha k d Hk Hs) as (k' & r & Hk' & E). exists k', r. split; [|done].
      rewrite lookup_insert_ne; [done|]. intros Eq. rewrite <-Eq in Hk'. congruence.
Qed.

Lemma ledger_run_audited cfg l : ledger_run cfg empty_ledger l → audited l.
Proof.
  intros Hrun. induction Hrun as [|l' c Hrun IH Hok].
  - intros k d. cbn. by rewrite lookup_empty.
  - apply command_audited; [|done|done]. by eapply ledger_run_wf; [apply empty_ledger_wf|].
Qed.

(** a dead letter is redriven at most once. In every ledger the transactions
    reach, a dead letter is redriven if and only if an audit record names it, and only
    one does. A redrive that succeeds found it open, and creates in the same
    transaction the new invocation with its input and an unsent event of generation 0,
    the audit record and the mark on the dead letter; every later redrive of it is a
    conflict and changes nothing. *)
Theorem dead_letter_redriven_once cfg l w :
  ledger_run cfg empty_ledger l →
  (∀ k d, lg_dead l !! k = Some d →
     (dd_status d = Redriven ↔ ∃ k' r, lg_redrives l !! k' = Some r ∧ rd_dead_letter_id r = k)) ∧
  (∀ k k' r r', lg_redrives l !! k = Some r → lg_redrives l !! k' = Some r' →
     rd_dead_letter_id r = rd_dead_letter_id r' → k = k') ∧
  (∀ l1, lcmd_ok (LRedrive w) → redrive cfg w l = Ok (tt, l1) →
     let inv := rw_invocation w in
     (∃ d, lg_dead l !! rw_dead_letter_id w = Some d ∧ dd_status d = Open) ∧
     invs l !! inv_id inv = None ∧ invs l1 !! inv_id inv = Some inv ∧
     lg_inputs l1 !! inv_id inv = Some (rw_input w) ∧
     (∃ e, lg_outbox l1 !! inv_id inv = Some e ∧ ob_sent_at e = None ∧ ob_generation e = 0) ∧
     redrive_creating (inv_id inv) l1 ≠ None ∧
     ∀ l2 w', ledger_run cfg l1 l2 → rw_dead_letter_id w' = rw_dead_letter_id w →
       redrive cfg w' l2 = Err (Conflict ("dead letter " +:+ rw_dead_letter_id w +:+ " is redriven"))).
Proof.
  intros Hrun. pose proof (ledger_run_audited cfg l Hrun) as Hau.
  apply reachable_facts in Hrun as [Hwf _]. split_and!.
  - intros k d Hk. split; [by apply Hau|]. intros (k' & r & Hr & <-).
    destruct (wf_redriven l Hwf k' r Hr) as (d' & Hd' & ?). congruence.
  - apply (wf_redriven_once l Hwf).
  - intros l1 Hok H inv. pose proof (redrive_wf cfg w l tt l1 Hwf Hok H) as Hwf1.
    apply redrive_Ok in H as (dead & Hd & Hopen & _ & _ & _ & _ & Hrid & Hac & _ & Hr & Hl).
    split_and!; [by exists dead|apply Hac| | | | |].
    + by rewrite (ac_invs _ _ _ _ _ Hac), lookup_insert_eq.
    + by rewrite (ac_inputs _ _ _ _ _ Hac), lookup_insert_eq.
    + exists (new_row (rw_event w)). rewrite (ac_outbox _ _ _ _ _ Hac), lookup_insert_eq.
      by destruct Hok.
    + unfold redrive_creating. destruct (btree_find _ _) eqn:Hb; [done|]. rewrite btree_find_None in Hb.
      specialize (Hb (rd_id (rw_redrive w)) (rw_redrive w)). rewrite Hr, lookup_insert_eq in Hb.
      specialize (Hb eq_refl). bools. by destruct Hb.
    + intros l2 w' Hrun2 Hw. rewrite (wf_dead_keyed l Hwf _ _ Hd) in Hl.
      destruct (ledger_run_dead_rows cfg l1 l2 Hwf1 Hrun2 (rw_dead_letter_id w) _
                  ltac:(rewrite Hl; apply lookup_insert_eq)) as (d2 & Hd2 & [_ Hfin]).
      rewrite (Hfin eq_refl) in Hd2. unfold redrive. rewrite Hw, Hd2. done.
Qed.

(** ** One invocation, from its event to its end

    Accepted at 0, it is delivered at 10 and run; or its event is published and lost,
    and the reaper ends it after its deadline. *)

Definition envelope_a : InvokeEnvelope :=
  mkEnvelope 1 "inv_a" "tn_a" "fn_a" "rev_a" Json "sha256:0" 3 "inline" 0 50 "trace" 0.
Definition codec0 : Codec :=
  mkCodec string (λ _, "{}") (λ s, if s == "{}" then Ok envelope_a else Err "not an envelope")
    (λ _, "sha256:0") (λ _, "refused") (λ _, "then") Ok None.
Definition delivery_a : Delivery := mkDelivery "inv_a" "tn_a" "{}" 7.
Definition fresh_at (now : Timestamp) : Fresh := mkFresh now "dlq_a" now.
Definition readings_at (now : Timestamp) : Readings := mkReadings now now (fresh_at now).

Definition start_a : result AppError (Before codec0 * RetryBudget * Ledger) :=
  before_run cfg0 codec0 default_dispatch_config (λ x, x) "dsp_a" alone delivery_a false (Ok "rev_a")
    (readings_at 10) no_retries ledger_a.
Definition ledger_started : Ledger :=
  match start_a with Ok (_, _, l) => l | Err _ => empty_ledger end.
Definition record_a : DispatchRecord :=
  unwrap_or (get_record "inv_a" ledger_started) (Rec.unclaimed inv0).

Lemma start_a_runs : start_a = Ok (BeforeRun (o := codec0) inv0 record_a "{}", no_retries, ledger_started).
Proof. vm_compute. reflexivity. Qed.

Lemma default_policies : policies_nonneg default_dispatch_config.
Proof. intros f. by vm_compute. Qed.

Definition accepted_a : Dispatchers := nothing_yet <| ds_ledger := ledger_a |>.

Lemma accepted_a_reach c : async_reach cfg0 codec0 c (λ x, x) accepted_a.
Proof.
  apply rtc_once, as_service.
  by apply (ss_accept cfg0 codec0 c (λ x, x) _ inv0 input_a event_a backlog_a false AsyncAcceptOutcome.Accepted).
Qed.

Lemma ledger_started_run : ledger_run cfg0 empty_ledger ledger_started.
Proof.
  destruct (before_run_steps cfg0 codec0 default_dispatch_config (λ x, x) "dsp_a" alone delivery_a false
    (Ok "rev_a") (readings_at 10) no_retries _ _ _ accepted_a (alone_at_work _ _ _ _) start_a_runs)
    as (w & Hw & <-).
  eapply dk_run, async_reach_ok; [exact default_policies|].
  unfold async_reach. etrans; [apply accepted_a_reach|exact Hw].
Qed.

(** Two handlers, of two processes, read the event before either claims it, at the
    readings [t] and [t'] of their clocks; the policy allows one attempt. *)
Definition one_attempt : AsyncDispatchConfig := default_dispatch_config <| cf_max_attempts := 1 |>.
Definition reading_a (t : Timestamp) : Reading := mkReading t envelope_a inv0 (Rec.unclaimed inv0).
Definition start_by (owner : string) (s : Reading) (w : Dispatchers) : Dispatchers :=
  match start_run cfg0 codec0 one_attempt (λ x, x) owner (rg_envelope s) (rg_invocation s) (rg_record s)
          false (Ok "rev_a") (readings_at (rg_now s)) no_retries (ds_ledger w) with
  | Ok (started, _, l) =>
      w <| ds_ledger := l |>
        <| ds_late := ds_late w || started_run started && outlived w (rg_now s) (Config.claim_ttl one_attempt) |>
  | Err _ => w
  end.
Definition both_read (t t' : Timestamp) : Dispatchers :=
  mkDispatchers ledger_a [(envelope_a, inv0)] [reading_a t'; reading_a t] false.
Definition raced (t t' : Timestamp) : Dispatchers :=
  start_by "dsp_b" (reading_a t') (start_by "dsp_a" (reading_a t) (both_read t t')).

Lemma start_by_step owner s w :
  s ∈ ds_seen w → rtc (async_step cfg0 codec0 one_attempt (λ x, x)) w (start_by owner s w).
Proof.
  intros Hs. unfold start_by. destruct (start_run _ _ _ _ _ _ _ _ _ _ _ _ _) as [[[st b] l]|e] eqn:H; [|done].
  apply rtc_once. by apply (as_start _ _ _ _ w owner s false (Ok "rev_a") (readings_at (rg_now s)) no_retries st b l).
Qed.

Lemma start_by_seen owner s w : ds_seen (start_by owner s w) = ds_seen w.
Proof. unfold start_by. by destruct (start_run _ _ _ _ _ _ _ _ _ _ _ _ _) as [[[st b] l]|e]. Qed.

Lemma raced_reach t t' : async_reach cfg0 codec0 one_attempt (λ x, x) (raced t t').
Proof.
  unfold async_reach, raced. etrans; [apply accepted_a_reach|].
  eapply rtc_l; [apply (as_locate _ _ _ _ accepted_a delivery_a envelope_a inv0); by vm_compute|].
  eapply rtc_l; [apply (as_check _ _ _ _ _ envelope_a inv0 t (Rec.unclaimed inv0)); [by left|done]|].
  eapply rtc_l; [apply (as_check _ _ _ _ _ envelope_a inv0 t' (Rec.unclaimed inv0)); [by left|done]|].
  etrans; [apply (start_by_step "dsp_a" (reading_a t)); by right; left|].
  apply (start_by_step "dsp_b" (reading_a t')). rewrite start_by_seen. by left.
Qed.

Lemma services_respect_ledger_witness :
  attempts_at (ds_ledger (raced 10 11)) "inv_a" = 1 ∧
  attempts_within one_attempt (ds_ledger (raced 10 11)).
Proof.
  split; [by vm_compute|].
  apply (services_respect_ledger cfg0 codec0 one_attempt (λ x, x));
    [intros f; by vm_compute|apply raced_reach|by vm_compute].
Defined.

(** The exception is real: when the second handler's clock is the first's claim ahead,
    it claims an attempt the policy does not allow. *)
Lemma late_claim_exceeds_policy :
  async_reach cfg0 codec0 one_attempt (λ x, x) (raced (10 - seconds 60) 10) ∧
  ds_late (raced (10 - seconds 60) 10) = true ∧
  rp_max_attempts (Config.policy_for "fn_a" one_attempt) = 1 ∧
  attempts_at (ds_ledger (raced (10 - seconds 60) 10)) "inv_a" = 2.
Proof. split; [apply raced_reach|]. by vm_compute. Qed.

Lemma run_starts_within_limits_witness :
  dr_attempts record_a ≤ 3 ∧ is_current ledger_started "dsp_a" "inv_a" 1.
Proof.
  destruct (run_starts_within_limits cfg0 codec0 default_dispatch_config (λ x, x) "dsp_a" delivery_a false
    (Ok "rev_a") (readings_at 10) no_retries ledger_a inv0 record_a "{}" no_retries ledger_started)
    as (_ & _ & _ & _ & _ & _ & _ & _ & Hle & _ & _ & _ & Hcur & _).
  - apply (ledger_run_wf cfg0 empty_ledger); [apply empty_ledger_wf|exact ledger_a_run].
  - exact start_a_runs.
  - split; [exact Hle|exact Hcur].
Defined.

(** The driver marks the invocation running. *)
Definition ledger_running : Ledger := run_lcmd cfg0 (LUpdate inv_running) ledger_started.

Lemma ledger_running_run : ledger_run cfg0 empty_ledger ledger_running.
Proof. apply run_step; [exact ledger_started_run|done]. Qed.

Lemma run_end_is_recorded_witness :
  ∃ out l', after_run cfg0 codec0 default_dispatch_config (λ x, x) "dsp_a" "inv_a" record_a
              (Ok (Some (Inline "e30=" 2), Some 200)) (readings_at 30) ledger_running = Ok (out, l') ∧
    resolved l' "inv_a" ∧
    ∃ inv', invs l' !! "inv_a" = Some inv' ∧ inv_status inv' = InvocationStatus.Succeeded.
Proof.
  destruct (run_end_is_recorded cfg0 codec0 default_dispatch_config (λ x, x) "dsp_a" ledger_running "inv_a"
    inv_running record_a (Ok (Some (Inline "e30=" 2), Some 200)) (readings_at 30))
    as (out & l' & H & _ & Hres & Hok); try (vm_compute; reflexivity).
  - exact ledger_running_run.
  - exists record_a. split_and!; by vm_compute.
  - by intros output status [= <- <-].
  - destruct (Hok _ _ eq_refl) as (inv' & Hi & Hs & _); [by vm_compute|].
    exists out, l'. split; [exact H|]. split; [exact Hres|]. exists inv'. split; [exact Hi|exact Hs].
Defined.

(** The event is published, and its delivery is lost. *)
Definition ledger_sent : Ledger :=
  run_lcmd cfg0 (LMark "inv_a" "pub" 7 1) (run_lcmd cfg0 (LClaimOutbox "pub" 0 10 10) ledger_a).
Definition inv_sent : Invocation := inv0 <| inv_status := InvocationStatus.Queued |>.
Definition reap_at : Timestamp := seconds 1000.
Definition fresh_ids (i : nat) : Fresh := mkFresh reap_at ("dlq_" +:+ pretty i) reap_at.
Definition ledger_reaped : Ledger :=
  (reap cfg0 codec0 default_dispatch_config (λ x, x) alone true reap_at fresh_ids ledger_sent).2.

Lemma ledger_sent_run : ledger_run cfg0 empty_ledger ledger_sent.
Proof. apply run_step; [|done]. apply run_step; [|done]. exact ledger_a_run. Qed.

Lemma reaper_misses_no_one_witness :
  resolved ledger_reaped "inv_a" ∧
  dr_state <$> lg_dispatch ledger_reaped !! "inv_a" = Some DispatchState.Dead.
Proof.
  split; [|by vm_compute].
  apply (reaper_misses_no_one cfg0 codec0 default_dispatch_config (λ x, x) alone fresh_ids ledger_sent "inv_a"
           inv_sent reap_at); try (vm_compute; (done || lia)).
  - exact ledger_sent_run.
  - intros i j E. cbn in E. injection E as E. exact (inj pretty _ _ E).
  - intros n i l1. split; [apply run_here|reflexivity].
Defined.

Lemma ledger_reaped_run : ledger_run cfg0 empty_ledger ledger_reaped.
Proof.
  eapply ledger_run_trans; [exact ledger_sent_run|].
  apply (foldl_inv (λ pl, ledger_run cfg0 ledger_sent pl.2)); [apply run_here|].
  intros [p l2] [i v] _ Hk. eapply ledger_run_trans; [exact Hk|]. apply kp_run, reap_one_keeps.
Qed.

Definition dead_a : DeadLetter :=
  unwrap_or (lg_dead ledger_reaped !! "dlq_0")
    (dead_letter_for "" inv0 record_a DeadLetterReason.Expired None true true 0 empty_ledger).

(** The redrive of the dead letter, as a new invocation. *)
Definition inv_redriven : Invocation :=
  match Inv.accept "inv_b" "tn_a" "fn_a" None "rev_a" Async Json deadlines0 None "sha256:0" 3 "trace" 60 with
  | Ok i => i
  | Err _ => inv0 <| inv_id := "inv_b" |> <| inv_idempotency_key := None |>
  end.
Definition redrive_a : RedriveWrite :=
  mkRedriveWrite "dlq_0" inv_redriven (input_a <| in_invocation_id := "inv_b" |>)
    (Event.new "inv_b" "tn_a" "invoke" "{}" 60)
    (mkRedrive "rdr_a" "dlq_0" "tn_a" "fn_a" "inv_a" "inv_b" "rev_a" false "op" None 60).
Definition ledger_redriven : Ledger := run_lcmd cfg0 (LRedrive redrive_a) ledger_reaped.

Lemma dead_letters_exact_witness :
  ∃ inv, invs ledger_redriven !! "inv_a" = Some inv ∧
         InvocationStatus.is_terminal (inv_status inv) = true.
Proof.
  destruct (dead_letters_exact cfg0 ledger_reaped ledger_redriven "inv_a")
    as (_ & _ & Hterm & Hkeep & _).
  - exact ledger_reaped_run.
  - apply (run_step cfg0 ledger_reaped _ (LRedrive redrive_a)); [apply run_here|by split].
  - destruct (Hterm "dlq_0" dead_a) as (inv & Hi & Ht); [by vm_compute..|].
    exists inv. split; [by apply Hkeep|exact Ht].
Defined.

Lemma dead_letter_redriven_once_witness :
  redrive cfg0 redrive_a ledger_reaped = Ok (tt, ledger_redriven) ∧
  redrive cfg0 redrive_a ledger_redriven = Err (Conflict "dead letter dlq_0 is redriven").
Proof.
  split; [by vm_compute|].
  destruct (dead_letter_redriven_once cfg0 ledger_reaped redrive_a ledger_reaped_run) as (_ & _ & H).
  destruct (H ledger_redriven) as (_ & _ & _ & _ & _ & _ & Hc); [by split|by vm_compute|].
  apply (Hc ledger_redriven redrive_a); [apply run_here|done].
Defined.
