(* ===== verification/AsyncObjects.v ===== *)
(** * Inputs in the object store

    The input of an asynchronous invocation may be an object. The collector claims an
    object before it deletes it; a claim must respect live invocations and open dead
    letters, whose redrive reads the same object. *)

From S2P Require Import Prelude Ids Functions Invocation Guard Store StoreInv Scenario Retry.
From S2P Require Import Outbox Dispatch LedgerInv.

Open Scope string_scope.
Open Scope Z_scope.

(** ** Object references *)

(** Who references what, and what is being collected. *)
Definition objects (s : State) := (st_object_refs s, st_object_tombstones s).

(** The references grow, and what is under collection stays the same. *)
Record objects_le (s s' : State) : Prop := {
  ol_refs : ∀ o id, id ∈ ObjectRepo.refs_of o s → id ∈ ObjectRepo.refs_of o s';
  ol_tombstones : st_object_tombstones s' = st_object_tombstones s
}.

#[global] Instance objects_le_preorder : PreOrder objects_le.
Proof. split; [by split|]. intros s1 s2 s3 [] []. split; [auto|congruence]. Qed.

Lemma objects_same s s' : objects s' = objects s → objects_le s s'.
Proof. intros [= Hr Ht]. split; [|done]. unfold ObjectRepo.refs_of. by rewrite Hr. Qed.

Lemma set_binding_expiry_objects inv retention s :
  objects (set_binding_expiry inv retention s) = objects s.
Proof. unfold set_binding_expiry. by repeat case_match. Qed.

Lemma update_row_objects cfg inv s s' :
  update_invocation_row cfg inv s = Ok s' → objects s' = objects s.
Proof.
  unfold update_invocation_row, refuse. destruct (_ !! _) as [old|]; [|done]. intros H. pass H.
  injection H as <-. by rewrite set_binding_expiry_objects.
Qed.

Lemma insert_checked_objects cfg inv s s' :
  insert_invocation_checked cfg inv s = Ok s' → objects s' = objects s.
Proof. unfold insert_invocation_checked. intros H. pass H. by steps. Qed.

Lemma attach_in_Ok object id s s' :
  attach_in object id s = Ok s' →
  objects_le s s' ∧ st_object_tombstones s !! obj_id object = None ∧
  id ∈ ObjectRepo.refs_of (obj_id object) s'.
Proof.
  unfold attach_in, refuse. destruct (_ !! _); [|done]. intros H. pass H.
  destruct (st_object_tombstones s !! _) as [[]|] eqn:Ht; [done|]. injection H as <-.
  assert (Hrefs : ∀ o, ObjectRepo.refs_of o
    (s <| st_object_refs ::= <[obj_id object := {[id]} ∪ ObjectRepo.refs_of (obj_id object) s]> |>)
    = if decide (o = obj_id object) then {[id]} ∪ ObjectRepo.refs_of o s else ObjectRepo.refs_of o s).
  { intros o. unfold ObjectRepo.refs_of at 1. cbn. destruct (decide (o = obj_id object)) as [->|Hne];
      [by rewrite lookup_insert_eq|by rewrite lookup_insert_ne]. }
  split; [|split; [done|]].
  - split; [|done]. intros o j Hj. rewrite Hrefs.
    destruct (decide (o = obj_id object)); [apply elem_of_union; by right|done].
  - rewrite Hrefs, decide_True by done. apply elem_of_union. left. by apply elem_of_singleton.
Qed.

(** A new input's object is referenced by its invocation and not under collection. *)
Lemma insert_input_objects input l l' :
  insert_input_row input l = Ok l' →
  objects_le (lg_store l) (lg_store l') ∧
  ∀ object, in_body input = ObjectBody object →
    st_object_tombstones (lg_store l') !! obj_id object = None ∧
    in_invocation_id input ∈ ObjectRepo.refs_of (obj_id object) (lg_store l').
Proof.
  unfold insert_input_row. intros H. apply result_bind_Ok in H as (s & Hs & H).
  apply result_bind_Ok in H as (u & _ & H). pass H. injection H as <-. cbn.
  destruct (in_body input) as [bytes|object].
  - injection Hs as <-. split; [done|]. by intros object.
  - apply attach_in_Ok in Hs as (Hle & Ht & Hr). split; [done|]. intros object' [= <-].
    by rewrite (ol_tombstones _ _ Hle).
Qed.

Lemma bind_idempotency_objects cfg inv s : objects (bind_idempotency cfg inv s) = objects s.
Proof. unfold bind_idempotency. by destruct (IdempotencyRepo.key_of inv). Qed.

Lemma insert_event_store event l l' : insert_outbox_row event l = Ok l' → lg_store l' = lg_store l.
Proof. by intros [_ ->]%insert_outbox_row_Ok. Qed.

Lemma accept_objects cfg inv input event backlog b l out l' :
  accept_async cfg inv input event backlog b l = Ok (out, l') →
  objects_le (lg_store l) (lg_store l') ∧
  (out = AsyncAcceptOutcome.Accepted → in_invocation_id input = inv_id inv ∧
   ∀ object, in_body input = ObjectBody object →
     st_object_tombstones (lg_store l') !! obj_id object = None ∧
     inv_id inv ∈ ObjectRepo.refs_of (obj_id object) (lg_store l')).
Proof.
  unfold accept_async, accept_in. intros H. steps. destruct a, a0 as [o l2].
  unfold check_accept in Hm. pass Hm. bools. subst.
  destruct (k ← _; _) as [e|]; [steps; by split|].
  destruct (exceeds _ _ _); [steps; by split|]. steps. destruct b; [done|]. steps.
  apply insert_checked_objects in Hm1. apply insert_input_objects in Hm0 as [Hle Hob].
  apply insert_event_store in Hm2. rewrite Hm2 in *. cbn [lg_store set_field] in Hle. split.
  - etrans; [|exact Hle]. apply objects_same. by rewrite bind_idempotency_objects.
  - intros _. split; [congruence|]. intros object Ho.
    destruct (Hob object Ho) as [? Hr]. split; [done|]. congruence.
Qed.

Lemma redrive_objects cfg w l l' :
  redrive cfg w l = Ok (tt, l') →
  objects_le (lg_store l) (lg_store l') ∧ in_invocation_id (rw_input w) = inv_id (rw_invocation w) ∧
  ∀ object, in_body (rw_input w) = ObjectBody object →
     st_object_tombstones (lg_store l') !! obj_id object = None ∧
     inv_id (rw_invocation w) ∈ ObjectRepo.refs_of (obj_id object) (lg_store l').
Proof.
  unfold redrive. destruct (_ !! _) as [dead|] eqn:Hd; [|done]. intros H. pass H. pass H.
  apply result_bind_Ok in H as (s & Hs & H). apply result_bind_Ok in H as (l2 & Hl2 & H).
  apply result_bind_Ok in H as (l3 & Hl3 & H). pass H. injection H as <-. bools.
  apply insert_checked_objects in Hs. apply insert_input_objects in Hl2 as [Hle Hob].
  apply insert_event_store in Hl3. cbn [lg_store set_field] in *. rewrite Hl3 in *.
  split; [etrans; [|exact Hle]; by apply objects_same|]. split; [congruence|].
  intros object Ho. destruct (Hob object Ho) as [? Hr]. split; [done|]. congruence.
Qed.

(** What a committed settle, an update and the publisher leave of the objects. *)
Lemma settle_objects cfg settle l out l' :
  settle_dispatch cfg settle l = Ok (out, l') → objects (lg_store l') = objects (lg_store l).
Proof.
  unfold settle_dispatch. destruct (_ !! _) as [old|]; [|done]. cbv zeta.
  destruct (InvocationStatus.is_terminal _); [by intros [= _ <-]|].
  destruct (negb _); [by intros [= _ <-]|]. intros H. pass H.
  apply result_bind_Ok in H as (w & _ & H). apply result_bind_Ok in H as (s & Hs & H).
  apply result_bind_Ok in H as ([r l2] & Hr & H). apply result_bind_Ok in H as (l3 & Hl3 & H).
  apply result_bind_Ok in H as (l4 & Hl4 & [= _ <-]).
  apply republish_Ok in Hr as (_ & _ & E2). apply write_record_Ok in Hl3.
  apply settle_dead_letter_Ok in Hl4 as [E4 _].
  assert (lg_store l4 = s) as ->.
  { rewrite E4, Hl3, E2. by destruct (sl_republish settle). }
  case_bool_decide; [by eapply update_row_objects|congruence].
Qed.

Lemma mark_objects cfg event owner seq now l b l' :
  mark_outbox_sent cfg event owner seq now l = Ok (b, l') → objects (lg_store l') = objects (lg_store l).
Proof.
  unfold mark_outbox_sent. intros H. steps.
  destruct (_ !! _) as [e|]; [|by steps]. destruct (held_by owner e); cbn [negb] in Hk; [|by steps].
  destruct (st_invocations _ !! event) as [inv|]; [|by steps].
  destruct (_ != _); [by steps|]. destruct (Inv.mark_queued inv) as [inv'|]; [|by steps]. steps.
  by apply update_row_objects in Hm0.
Qed.

(** ** What the collector must respect *)

(** Live, or with an open dead letter: its input may be read again. *)
Definition input_wanted (l : Ledger) (id : InvocationId) : Prop :=
  (∃ inv, invs l !! id = Some inv ∧ InvocationStatus.is_terminal (inv_status inv) = false) ∨
  (∃ k d, lg_dead l !! k = Some d ∧ dead_of id d ∧ dd_status d = Open).

(** Every input in the object store is referenced by its invocation, and not under
    collection while the invocation may want it. *)
Definition inputs_kept (l : Ledger) : Prop :=
  ∀ id input object, lg_inputs l !! id = Some input → in_body input = ObjectBody object →
    id ∈ ObjectRepo.refs_of (obj_id object) (lg_store l) ∧
    (input_wanted l id → st_object_tombstones (lg_store l) !! obj_id object = None).

Lemma inputs_kept_mono l l' :
  inputs_kept l → lg_inputs l' = lg_inputs l → objects_le (lg_store l) (lg_store l') →
  (∀ id, is_Some (lg_inputs l !! id) → input_wanted l' id → input_wanted l id) → inputs_kept l'.
Proof.
  intros Hk Hi [Hr Ht] Hw id input object Hin Ho. rewrite Hi in Hin.
  destruct (Hk id input object Hin Ho) as [Hid Hn]. split; [auto|]. rewrite Ht. eauto.
Qed.

Lemma inputs_kept_insert l l' id0 input0 :
  ledger_wf l → inputs_kept l → lg_inputs l' = <[id0 := input0]> (lg_inputs l) →
  invs l !! id0 = None → objects_le (lg_store l) (lg_store l') →
  (∀ object, in_body input0 = ObjectBody object →
     st_object_tombstones (lg_store l') !! obj_id object = None ∧
     id0 ∈ ObjectRepo.refs_of (obj_id object) (lg_store l')) →
  (∀ id, id ≠ id0 → input_wanted l' id → input_wanted l id) → inputs_kept l'.
Proof.
  intros Hwf Hk Hi Hn [Hr Ht] Hnew Hw id input object Hin Ho. rewrite Hi, lookup_insert_Some in Hin.
  destruct Hin as [[<- <-]|[Hne Hin]]; [by destruct (Hnew object Ho)|].
  destruct (Hk id input object Hin Ho) as [Hid Hno]. split; [auto|]. rewrite Ht. eauto.
Qed.

(** Who is wanted after a transaction was wanted before it, but for a new invocation. *)
Lemma wanted_back l l' id :
  rows_le inv_row_le (invs l) (invs l') → is_Some (invs l !! id) →
  (∀ k d, lg_dead l' !! k = Some d → dead_of id d → dd_status d = Open → input_wanted l id) →
  input_wanted l' id → input_wanted l id.
Proof.
  intros Hle [old Ho] Hd [(inv & Hi & Hlive)|(k & d & Hk & Hof & Hs)]; [|by eapply Hd].
  left. exists old. split; [done|]. destruct (Hle id old Ho) as (inv' & Hi' & [_ Hfin]).
  rewrite Hi in Hi'. injection Hi' as <-. apply not_true_is_false. intros Ht.
  specialize (Hfin Ht). subst. congruence.
Qed.

Lemma wanted_same_dead l l' id :
  rows_le inv_row_le (invs l) (invs l') → is_Some (invs l !! id) → lg_dead l' = lg_dead l →
  input_wanted l' id → input_wanted l id.
Proof.
  intros Hle Ho E. apply wanted_back; [done|done|]. rewrite E. intros k d ???. right. eauto.
Qed.

Lemma quiet_inputs_kept l l' :
  ledger_wf l → inputs_kept l → quiet l l' → objects_le (lg_store l) (lg_store l') → inputs_kept l'.
Proof.
  intros Hwf Hk Hq Hle. apply (inputs_kept_mono l l' Hk); [apply Hq|done|].
  intros id [i Hi]. apply wanted_same_dead; [apply Hq|by eapply (wf_inputs l Hwf)|apply Hq].
Qed.

Lemma settle_inputs_kept cfg settle l out l' :
  ledger_wf l → inputs_kept l → settle_dispatch cfg settle l = Ok (out, l') → inputs_kept l'.
Proof.
  intros Hwf Hk H. pose proof (settle_objects _ _ _ _ _ H) as Hob.
  apply settle_dispatch_Ok in H as [[-> _]|(_ & old & r & S)]; [done|].
  apply (inputs_kept_mono l l' Hk); [apply S|by apply objects_same|].
  intros id [i Hi]. apply wanted_back; [by eapply settled_rows|by eapply (wf_inputs l Hwf)|].
  intros k d Hd Hof Hs. pose proof (se_dead _ _ _ _ _ S) as E.
  destruct (sl_dead_letter settle) as [d0|]; [|rewrite E in Hd; right; eauto].
  destruct E as (Hinv & _ & [[E _]|(E & _)]); rewrite E in Hd; [right; eauto|].
  rewrite lookup_insert_Some in Hd. destruct Hd as [[_ <-]|[_ Hd]]; [|right; eauto].
  left. exists old. unfold dead_of in Hof. rewrite Hinv in Hof. injection Hof as <-.
  split; apply S.
Qed.

Lemma redrive_inputs_kept cfg w l l' :
  ledger_wf l → inputs_kept l → redrive cfg w l = Ok (tt, l') → inputs_kept l'.
Proof.
  intros Hwf Hk H. destruct (redrive_objects _ _ _ _ H) as (Hle & Hid & Hnew).
  apply redrive_Ok in H as (dead & Hd & Hopen & _ & _ & _ & _ & _ & Hac & _ & _ & Hl).
  apply (inputs_kept_insert l l' (inv_id (rw_invocation w)) (rw_input w)); try done; try apply Hac.
  intros id Hne [(inv & Hi & Hlive)|(k & d & Hkd & Hof & Hs)].
  - left. rewrite (ac_invs _ _ _ _ _ Hac), lookup_insert_ne in Hi by done. eauto.
  - right. rewrite Hl, lookup_insert_Some in Hkd. destruct Hkd as [[_ <-]|[_ Hkd]]; [done|]. eauto.
Qed.

Lemma accept_inputs_kept cfg inv input event backlog b l out l' :
  ledger_wf l → inputs_kept l → accept_async cfg inv input event backlog b l = Ok (out, l') →
  inputs_kept l'.
Proof.
  intros Hwf Hk H. destruct (accept_objects _ _ _ _ _ _ _ _ _ H) as [Hle Hnew].
  apply accept_async_Ok in H as [[-> _]|(-> & _ & _ & _ & Hac & Hdead & _)]; [done|].
  destruct (Hnew eq_refl) as [Hid Hob].
  apply (inputs_kept_insert l l' (inv_id inv) input); try done; try apply Hac.
  intros id Hne [(i & Hi & Hlive)|(k & d & Hkd & Hof & Hs)].
  - left. rewrite (ac_invs _ _ _ _ _ Hac), lookup_insert_ne in Hi by done. eauto.
  - right. rewrite Hdead in Hkd. eauto.
Qed.

Lemma wanted_live l id :
  input_wanted l id → ObjectRepo.is_live_ref (lg_store l) id || has_open_dead_letter id l = true.
Proof.
  intros [(inv & Hi & Hlive)|(k & d & Hk & Hof & Hs)]; apply orb_true_iff.
  - left. unfold ObjectRepo.is_live_ref. rewrite Hi. cbn. by rewrite Hlive.
  - right. apply any_value_true. exists k, d. split; [done|]. unfold dead_of in Hof.
    by rewrite Hs, Hof, !bool_decide_eq_true_2.
Qed.

(** The references a collector counts as live. *)
Lemma live_refs_pos l id object :
  id ∈ ObjectRepo.refs_of (obj_id object) (lg_store l) → input_wanted l id →
  (0 < length (List.filter (λ id, ObjectRepo.is_live_ref (lg_store l) id || has_open_dead_letter id l)
                 (elements (ObjectRepo.refs_of (obj_id object) (lg_store l)))))%nat.
Proof.
  intros Hid Hw%wanted_live. destruct (List.filter _ _) as [|x rest] eqn:Hf; [|cbn; lia].
  assert (In id []) as []. rewrite <-Hf. apply filter_In. split; [|done].
  by apply list_elem_of_In, elem_of_elements.
Qed.

(** A claim answers that an object someone wants is in use. *)
Lemma claim_object_in_use l id object reason now :
  id ∈ ObjectRepo.refs_of (obj_id object) (lg_store l) → input_wanted l id →
  st_object_tombstones (lg_store l) !! obj_id object = None →
  ∃ n, (0 < n)%nat ∧ claim_object object reason now l = Ok (CollectDecision.InUse n, l).
Proof.
  intros Hid Hw Hn. pose proof (live_refs_pos l id object Hid Hw) as Hlt.
  unfold claim_object. rewrite Hn. cbn [is_some]. rewrite (bool_decide_true (0 < _)%nat) by exact Hlt.
  by eexists.
Qed.

Lemma collect_inputs_kept object reason now l d l' :
  ledger_wf l → inputs_kept l → claim_object object reason now l = Ok (d, l') → inputs_kept l'.
Proof.
  intros Hwf Hk H. unfold claim_object in H. destruct (is_some _); [by injection H as _ <-|].
  destruct (bool_decide (0 < _)%nat) eqn:Hlive; [by injection H as _ <-|].
  destruct (_ && _); [by injection H as _ <-|]. injection H as _ <-. bools.
  intros id input o Hin Ho. destruct (Hk id input o Hin Ho) as [Hid Hn]. split; [done|].
  intros Hw. cbn in Hw |- *. assert (input_wanted l id) as Hw' by exact Hw.
  rewrite lookup_insert_ne; [by apply Hn|]. intros Eq. apply Hlive.
  apply (live_refs_pos l id object); [by rewrite Eq|done].
Qed.

(** ** Every transaction keeps the inputs *)

Lemma command_inputs_kept cfg cmd l :
  ledger_wf l → lcmd_ok cmd → inputs_kept l → inputs_kept (run_lcmd cfg cmd l).
Proof.
  intros Hwf Hok Hk.
  destruct cmd; cbn [run_lcmd];
    match goal with |- context [after ?t l] => destruct (after_Ok t l) as [->|[a H]]; [done|] end;
    set (l' := after _ l) in *; clearbody l'.
  - by eapply accept_inputs_kept.
  - apply (quiet_inputs_kept l); try done; [by eapply claim_outbox_quiet|]. apply objects_same.
    unfold claim_outbox in H. destruct (_ || _); injection H as H; [by subst|].
    f_equal. by eapply claim_rows_store.
  - apply (quiet_inputs_kept l); try done; [by eapply mark_outbox_sent_quiet|].
    by eapply objects_same, mark_objects.
  - apply (quiet_inputs_kept l); try done; [by eapply retry_outbox_quiet|]. apply objects_same.
    unfold retry_outbox in H. destruct (_ !! _); [|by steps].
    destruct (held_by _ _); cbn [negb] in H; by steps.
  - apply (quiet_inputs_kept l); try done; [by eapply purge_sent_outbox_quiet|]. by injection H as _ <-.
  - apply (quiet_inputs_kept l); try done; [by eapply update_invocation_quiet|]. apply objects_same.
    unfold update_invocation in H. destruct (_ !! _); [|done]. steps. destruct (_ != _); steps; [done|].
    by eapply update_row_objects.
  - by apply claim_dispatch_Ok in H as [[-> _]|(? & ? & _ & _ & _ & _ & _ & _ & _ & _ & ->)].
  - by apply renew_dispatch_claim_Ok in H as [[_ ->]|(? & _ & _ & _ & _ & _ & ->)].
  - by eapply settle_inputs_kept.
  - apply record_poison_Ok in H as [Hn H].
    apply insert_dead_letter_Ok in H as [(_ & -> & _)|(_ & -> & _)]; [done|].
    apply (inputs_kept_mono l); try done. intros id [i Hi]. apply wanted_back; [done|by eapply (wf_inputs l Hwf)|].
    intros k d0. cbn. rewrite lookup_insert_Some. unfold dead_of.
    intros [[_ <-]|[_ Hd]] Hof Hs; [congruence|]. right. eauto.
  - destruct a. by eapply redrive_inputs_kept.
  - by eapply collect_inputs_kept.
Qed.

Lemma ledger_run_inputs_kept cfg l : ledger_run cfg empty_ledger l → inputs_kept l.
Proof.
  induction 1 as [|l' cmd Hrun IH Hok].
  - intros id input object. cbn. by rewrite lookup_empty.
  - apply command_inputs_kept; [|done|done]. by eapply ledger_run_wf; [apply empty_ledger_wf|].
Qed.

(** the input of an asynchronous invocation outlives everything that may read it.
    In every ledger the transactions reach, the object of an input is referenced by
    its invocation; while that invocation is live, or its dead letter is open and may
    be redriven, the object is not under collection, and every claim of the collector
    for it (orphan or expired) answers that it is in use and changes nothing. *)
Theorem wanted_input_is_kept cfg l id input object reason now :
  ledger_run cfg empty_ledger l → lg_inputs l !! id = Some input → in_body input = ObjectBody object →
  id ∈ ObjectRepo.refs_of (obj_id object) (lg_store l) ∧
  ((∃ inv, invs l !! id = Some inv ∧ InvocationStatus.is_terminal (inv_status inv) = false) ∨
   (∃ k d, lg_dead l !! k = Some d ∧ dd_invocation_id d = Some id ∧ dd_status d = Open) →
   st_object_tombstones (lg_store l) !! obj_id object = None ∧
   ∃ n, (0 < n)%nat ∧ claim_object object reason now l = Ok (CollectDecision.InUse n, l)).
Proof.
  intros Hrun Hin Ho. destruct (ledger_run_inputs_kept cfg l Hrun id input object Hin Ho) as [Hid Hn].
  split; [done|]. intros Hw. split; [by apply Hn|]. apply (claim_object_in_use l id); [done|done|by apply Hn].
Qed.

(** ** An input in the object store, dead-lettered *)

Definition object_a : ObjectRef := mkObject "obj_a" "tn_a" 0.
Definition object_input : AsyncInput := mkInput "inv_a" "tn_a" 3 "sha256:0" (ObjectBody object_a).
Definition dead_letter_a : DeadLetter :=
  mkDead "dlq_a" "tn_a" (Some "fn_a") (Some "inv_a") (Some "rev_a") DeadLetterReason.Expired Open 0 0
    None (Some 0) None None 60 (Some "sha256:0") (Some 3) (Some "object") None None None 0 None.
Definition expire_a : DispatchSettle :=
  mkSettle (Fence.Unclaimed 0) (inv0 <| inv_status := InvocationStatus.Cancelled |>)
    DispatchState.Dead None None true (Some dead_letter_a) None 60.
Definition ledger_object : Ledger :=
  run_lcmd cfg0 (LSettle expire_a)
    (run_lcmd cfg0 (LAccept inv0 object_input event_a backlog_a false) empty_ledger).

Lemma ledger_object_run : ledger_run cfg0 empty_ledger ledger_object.
Proof.
  apply run_step.
  - by apply (run_step _ _ _ (LAccept inv0 object_input event_a backlog_a false)); [apply run_here|].
  - cbn. split_and!; [done|by split|]. by intros d [= <-].
Qed.

Lemma wanted_input_is_kept_witness :
  ∃ n, (0 < n)%nat ∧
    claim_object object_a Expired (seconds 100) ledger_object = Ok (CollectDecision.InUse n, ledger_object).
Proof.
  destruct (wanted_input_is_kept cfg0 ledger_object "inv_a" object_input object_a Expired (seconds 100))
    as [_ H]; [exact ledger_object_run|by vm_compute|done|].
  apply H. right. exists "dlq_a", dead_letter_a. split; [by vm_compute|done].
Defined.
