(* ===== verification/AsyncFront.v ===== *)
(** * The front of the asynchronous path

    Acceptance ([crates/application/src/services/invoke_async/mod.rs]), the publisher
    of the outbox (publisher.rs), reading a delivered event back (consumer.rs) and the
    redrive of dead letters (dead_letters.rs), over the ledger's transactions. What
    comes from outside (the resolution from the configuration cache, the object store,
    the queue's answers, clock readings, fresh ids, failpoints) is an argument. A
    result comes with the ledger it leaves, since a committed acceptance may still
    answer an error. Acceptances for triggers are in [Triggers]. *)

From Stdlib Require Import Ascii.
From S2P Require Import Prelude Ids Functions Invocation Revision Guard Store Retry.
From S2P Require Import Outbox Dispatch AsyncRun.

Open Scope string_scope.
Open Scope Z_scope.

(** ** Callers *)

Module Role.
(** [crates/provider-port/src/identity.rs:7-20 Role] *)
Inductive t : Type := Deploy | Invoke | Operator | Redrive.
#[global] Instance eq_dec : EqDecision t.
Proof. solve_decision. Defined.

(** [crates/application/src/authz.rs:63-70 role_name] *)
Definition name (r : t) : string :=
  match r with
  | Deploy => "deploy" | Invoke => "invoke" | Operator => "operator" | Redrive => "redrive"
  end.
End Role.

(** [crates/provider-port/src/identity.rs:22-27 Principal] *)
Record Principal := mkPrincipal {
  pr_subject : string;
  pr_tenant_id : TenantId;
  pr_roles : list Role.t
}.

(** [crates/application/src/authz.rs:13-23 require_role] *)
Definition require_role (p : Principal) (r : Role.t) : result AppError unit :=
  if bool_decide (r ∈ pr_roles p) then Ok tt
  else Err (Forbidden ("role `" +:+ Role.name r +:+ "` is required")).

(** [crates/application/src/authz.rs:30-33 require_invoke] *)
Definition require_invoke (p : Principal) : result AppError unit := require_role p Role.Invoke.

(** [crates/application/src/authz.rs:35-40 require_redrive] *)
Definition require_redrive (p : Principal) : result AppError unit :=
  _ ← require_role p Role.Invoke;
  require_role p Role.Redrive.

(** [crates/application/src/authz.rs:53-61 ensure_tenant] *)
Definition ensure_tenant (p : Principal) (owner : TenantId) (what : string) : result AppError unit :=
  if pr_tenant_id p == owner then Ok tt else Err (Absent (what +:+ " not found")).

(** ** The queue as the publisher last saw it *)

Module QueueError.
(** [crates/durable-port/src/queue.rs:305-328 QueueError] *)
Inductive t : Type :=
| QueueFull (message : string)
| MessageTooLarge (size max : Z)
| InvalidMessage (message : string)
| Unauthorized (message : string)
| ConsumerNotFound (message : string)
| ConsumerConflict (message : string)
| Unavailable (message : string)
| Backend (message : string).

(** [crates/durable-port/src/queue.rs:331-343 code] *)
Definition code (e : t) : string :=
  match e with
  | QueueFull _ => "queue_full"
  | MessageTooLarge _ _ => "message_too_large"
  | InvalidMessage _ => "invalid_message"
  | Unauthorized _ => "unauthorized"
  | ConsumerNotFound _ => "consumer_not_found"
  | ConsumerConflict _ => "consumer_conflict"
  | Unavailable _ => "unavailable"
  | Backend _ => "backend"
  end.
End QueueError.

Module QueueCondition.
(** [crates/application/src/services/invoke_async/mod.rs:133-139 QueueCondition] *)
Inductive t : Type := Healthy | Full | Unavailable.
#[global] Instance eq_dec : EqDecision t.
Proof. solve_decision. Defined.
End QueueCondition.

(** [crates/application/src/services/invoke_async/mod.rs:141-145 QueueHealth] *)
Definition QueueHealth : Type := QueueCondition.t * option Timestamp.

Module Health.
(** [crates/application/src/services/invoke_async/mod.rs:148-152 default] *)
Definition default_health : QueueHealth := (QueueCondition.Healthy, None).

(** [crates/application/src/services/invoke_async/mod.rs:164-166 record_ok] *)
Definition record_ok (h : QueueHealth) : QueueHealth := (QueueCondition.Healthy, None).

(** [crates/application/src/services/invoke_async/mod.rs:168-178 record_error] *)
Definition record_error (e : QueueError.t) (now : Timestamp) (h : QueueHealth) : QueueHealth :=
  match e with
  | QueueError.MessageTooLarge _ _ | QueueError.InvalidMessage _ => h
  | _ =>
      let condition := match e with
                       | QueueError.QueueFull _ => QueueCondition.Full
                       | _ => QueueCondition.Unavailable
                       end in
      if h.1 == condition then h else (condition, Some now)
  end.
End Health.

(** ** Acceptance *)

(** [crates/application/src/control/cache.rs:162-171 Resolved] *)
Record Resolved := mkResolved {
  re_function : FunctionDef;
  re_revision : FunctionRevision;
  re_alias : option AliasName;
  re_alias_generation : option Z
}.

(** [crates/application/src/services/invoke_async/mod.rs:207-216 InvokeAsyncRequest] The
    payload is given as its JSON bytes. *)
Record InvokeAsyncRequest := mkAsyncRequest {
  rq_principal : Principal;
  rq_payload : result string string;
  rq_idempotency_key : option string;
  rq_trace_id : option string
}.

(** [crates/application/src/services/invoke_async/mod.rs:230-237 AsyncAcceptance] *)
Record AsyncAcceptance := mkAcceptance {
  aa_invocation : Invocation;
  aa_input_storage : string;
  aa_replayed : bool
}.

Module ObjectError.
(** [crates/durable-port/src/object.rs:234-261 ObjectError] The errors a put may
    answer, with the text and the code of the others. *)
Inductive t : Type :=
| TooLarge (size max : Z)
| QuotaExceeded (used requested quota : Z)
| Other (code : string).
End ObjectError.

(** What the object store answers about a stored object. *)
Record ObjectMeta := mkMeta {
  om_reference : ObjectRef;
  om_digest : Sha256Digest;
  om_size_bytes : Z
}.

Definition MAX_TRACE_ID_BYTES : Z := 256.

(** What an acceptance is given from outside: the resolution, the clock, the next id, the
    object store, the queue's condition and the failpoints. *)
Record Outside := mkOutside {
  os_draining : bool;
  os_resolved : result AppError Resolved;
  os_now : Timestamp;
  os_id : InvocationId;
  os_put : option (TenantId → string → result ObjectError.t ObjectMeta);
  os_queue : QueueCondition.t;
  os_fail_put : bool;
  os_fail_before_commit : bool;
  os_fail_after_commit : bool
}.

Definition refused {A} (reason : AsyncRefusal.t) (message : string) : result AppError A :=
  Err (AsyncRefused reason message).

(** [crates/application/src/services/invoke_async/mod.rs:282-317 backlog_refusal] *)
Definition backlog_refusal (o : Codec) (stats : OutboxStats) (limits : BacklogLimits)
    (queue : QueueCondition.t) (now : Timestamp) : option AppError :=
  let over := exceeds limits now stats in
  let detail := pretty (os_pending stats) +:+ " unpublished events (max " +:+
                pretty (bl_max_pending limits) +:+ "), oldest accepted at " +:+
                match os_oldest_pending_at stats with Some t => rfc3339 o t | None => "-" end in
  match over, queue with
  | true, QueueCondition.Unavailable =>
      Some (AsyncRefused AsyncRefusal.QueueUnavailable
              ("the queue is unreachable and the outbox is full: " +:+ detail))
  | _, QueueCondition.Full =>
      if 0 <? os_pending stats
      then Some (AsyncRefused AsyncRefusal.QueueFull
                   ("the queue refused the last publish as full: " +:+ detail))
      else if over
      then Some (AsyncRefused AsyncRefusal.Backlog
                   ("the async outbox is over its bound: " +:+ detail))
      else None
  | true, _ =>
      Some (AsyncRefused AsyncRefusal.Backlog ("the async outbox is over its bound: " +:+ detail))
  | false, _ => None
  end.

(** The deadlines of an invocation accepted at [now]; both the acceptance and the redrive
    compute them. *)
Definition async_deadlines (c : InvokeAsyncConfig) (exec : ExecutionPolicy) (now : Timestamp)
    : Deadlines :=
  let queue := now + Publishing.queue_wait c in
  mkDeadlines queue None None
    (queue + seconds (timeout_seconds exec + initialization_timeout_seconds exec)).

(** The routing envelope of an invocation's first event. *)
Definition first_envelope (inv : Invocation) (input : AsyncInput) : InvokeEnvelope :=
  mkEnvelope ENVELOPE_VERSION (inv_id inv) (inv_tenant_id inv) (inv_function_id inv)
    (inv_revision_id inv) (inv_event_kind inv) (inv_input_digest inv) (inv_input_size_bytes inv)
    (storage input) (inv_accepted_at inv) (queue_deadline (inv_deadlines inv)) (inv_trace_id inv) 0.

(** The stored input of an invocation. *)
Definition async_input (id : InvocationId) (l : Ledger) : option AsyncInput := lg_inputs l !! id.

Section accept.
Context (cfg : StoreConfig) (o : Codec) (c : InvokeAsyncConfig).

(** [crates/application/src/services/invoke_async/mod.rs:343-348 backlog_limits] *)
Definition backlog_limits : BacklogLimits :=
  mkBacklog (ac_max_pending_events c) (Publishing.max_pending_age c).

(** [crates/application/src/services/invoke_async/mod.rs:598-646 put_input] *)
Definition put_input (put : option (TenantId → string → result ObjectError.t ObjectMeta))
    (tenant : TenantId) (bytes : string) (digest : Sha256Digest) : result AppError ObjectRef :=
  match put with
  | None => refused AsyncRefusal.InputTooLarge
              ("the input is " +:+ pretty (byte_len bytes) +:+ " bytes; without an object store " +:+
               "([objects]) asynchronous inputs are limited to inline_input_max_bytes = " +:+
               pretty (ac_inline_input_max_bytes c))
  | Some put =>
      match put tenant bytes with
      | Err (ObjectError.TooLarge size max) =>
          refused AsyncRefusal.InputTooLarge
            ("the input is " +:+ pretty size +:+ " bytes, the object store takes at most "
               +:+ pretty max)
      | Err (ObjectError.QuotaExceeded used requested quota) =>
          refused AsyncRefusal.ObjectQuota
            ("tenant quota exceeded: " +:+ pretty used +:+ " bytes used + " +:+ pretty requested
               +:+ " requested > " +:+ pretty quota)
      | Err (ObjectError.Other code) =>
          refused AsyncRefusal.ObjectStoreUnavailable
            ("the object store is unavailable (" +:+ code +:+ ")")
      | Ok meta =>
          when! (om_digest meta != digest) || negb (om_size_bytes meta =? byte_len bytes) return!
            refused AsyncRefusal.ObjectStoreUnavailable
              "the object store recorded another digest than the input";;
          Ok (om_reference meta)
      end
  end.

(** [crates/application/src/services/invoke_async/mod.rs:648-681 replay] *)
Definition replay (key : string) (digest : Sha256Digest) (binding : IdempotencyBinding) (l : Ledger)
    : result AppError AsyncAcceptance :=
  when! bind_input_digest binding != digest return!
    Err (IdempotencyConflict key (bind_invocation_id binding));;
  match st_invocations (lg_store l) !! bind_invocation_id binding with
  | None => Err (Absent "invocation not found")
  | Some inv =>
      when! inv_mode inv != Async return!
        Err (Conflicting ("idempotency key `" +:+ key +:+ "` is bound to synchronous invocation "
                            +:+ inv_id inv));;
      Ok (mkAcceptance inv
            (match async_input (inv_id inv) l with Some i => storage i | None => "inline" end) true)
  end.

(** Steps 1 to 5: an earlier acceptance to answer with, or what the transaction writes. *)
Inductive Prepared : Type :=
| Replayed (a : AsyncAcceptance)
| Fresh_ (inv : Invocation) (input : AsyncInput) (event : OutboxEvent).

(** [crates/application/src/services/invoke_async/mod.rs:394-518 accept_inner (steps 1 to 5)] *)
Definition prepare (q : InvokeAsyncRequest) (out : Outside) (l : Ledger)
    : result AppError Prepared :=
  _ ← require_invoke (rq_principal q);
  when! os_draining out return! Err (ProviderUnavailable "gateway is shutting down");;
  resolved ← os_resolved out;
  bytes ← map_err (λ e, InvalidRequest ("payload is not JSON: " +:+ e)) (rq_payload q);
  let size := byte_len bytes in
  let max := max_payload_bytes (cfg_limits cfg) in
  when! max <? size return! Err (PayloadTooLarge size max);;
  let digest := sha256 o bytes in
  when! is_some_and (rq_trace_id q) (λ t, MAX_TRACE_ID_BYTES <? byte_len t) return!
    Err (InvalidRequest ("trace id must be at most " +:+ pretty MAX_TRACE_ID_BYTES +:+ " bytes"));;
  let id := os_id out in
  let now := os_now out in
  let fn := re_function resolved in
  let rev := re_revision resolved in
  let trace := match rq_trace_id q with Some t => if t == "" then id else t | None => id end in
  inv ← map_err Domains
          (Inv.accept id (pr_tenant_id (rq_principal q)) (fn_id fn) (re_alias resolved) (rev_id rev)
             Async Json (async_deadlines c (execution (rev_spec rev)) now)
             (rq_idempotency_key q) digest size trace now);
  match k ← rq_idempotency_key q; b ← IdempotencyRepo.lookup (fn_tenant_id fn) (fn_id fn) k now (lg_store l);
        Some (k, b) with
  | Some (key, binding) => a ← replay key digest binding l; Ok (Replayed a)
  | None =>
      match backlog_refusal o (stats_in l) backlog_limits (os_queue out) now with
      | Some refusal => Err refusal
      | None =>
          body ← (if size <=? ac_inline_input_max_bytes c then Ok (InlineBody bytes)
                  else reference ← put_input (os_put out) (fn_tenant_id fn) bytes digest;
                       Ok (ObjectBody reference));
          when! os_fail_put out return!
            Err (Platform ("failpoint accept.after_object_put: the input was stored, the " +:+
                           "transaction never ran"));;
          let input := mkInput id (fn_tenant_id fn) size digest body in
          let envelope :=
            mkEnvelope ENVELOPE_VERSION id (fn_tenant_id fn) (fn_id fn) (rev_id rev) Json digest
              size (storage input) now (now + Publishing.queue_wait c) trace 0 in
          Ok (Fresh_ inv input
                (Event.new id (fn_tenant_id fn) INVOKE_TOPIC (encode o envelope) now))
      end
  end.

(** [crates/application/src/services/invoke_async/mod.rs:356-363 accept] *)
Definition accept (q : InvokeAsyncRequest) (out : Outside) (l : Ledger)
    : result AppError AsyncAcceptance * Ledger :=
  match prepare q out l with
  | Err e => (Err e, l)
  | Ok (Replayed a) => (Ok a, l)
  | Ok (Fresh_ inv input event) =>
      match accept_async cfg inv input event backlog_limits (os_fail_before_commit out) l with
      | Err e => (Err (Ledgers e), l)
      | Ok (AsyncAcceptOutcome.Accepted, l') =>
          if os_fail_after_commit out
          then (Err (Platform ("failpoint accept.after_commit: committed, but the response was " +:+
                               "lost")), l')
          else (Ok (mkAcceptance inv (storage input) false), l')
      | Ok (AsyncAcceptOutcome.Existing binding, l') =>
          (replay (unwrap_or (rq_idempotency_key q) "") (inv_input_digest inv) binding l', l')
      | Ok (AsyncAcceptOutcome.Backlog stats, l') =>
          (Err (unwrap_or (backlog_refusal o stats backlog_limits (os_queue out) (os_now out))
                  (AsyncRefused AsyncRefusal.Backlog "the async outbox is over its bound")), l')
      end
  end.
End accept.

(** ** Publishing *)

(** [crates/application/src/services/invoke_async/publisher.rs:38-53 PublishReport] *)
Record PublishReport := mkReport {
  pp_claimed : nat;
  pp_published : nat;
  pp_duplicates : nat;
  pp_marked : nat;
  pp_lost_claims : nat;
  pp_failed : nat;
  pp_purged : nat
}.
#[global] Instance PublishReport_eta : Eta PublishReport := λ r,
  mkReport (pp_claimed r) (pp_published r) (pp_duplicates r) (pp_marked r) (pp_lost_claims r)
    (pp_failed r) (pp_purged r).

(** What the queue answers to a stored message. *)
Record Receipt := mkReceipt { rc_sequence : Z; rc_duplicate : bool }.

(** A message on its way to the queue. *)
Record OutgoingMessage := mkMessage {
  om_tenant_id : TenantId;
  om_topic : string;
  om_message_id : string;
  om_payload : string
}.

(** The bytes of a message id. *)
Definition is_message_id_byte (b : Ascii.ascii) : bool :=
  is_ascii_alphanumeric b || bool_decide (b ∈ ["."; "_"; ":"; "-"]%char).

(** [crates/durable-port/src/queue.rs:48-61 MessageId::parse] *)
Definition parse_message_id (raw : string) : result QueueError.t string :=
  if (raw == "") || (128 <? byte_len raw) || negb (bytes_all is_message_id_byte raw)
  then Err (QueueError.InvalidMessage "message id must be 1..=128 bytes of [A-Za-z0-9._:-]")
  else Ok raw.

(** [crates/durable-port/src/queue.rs:111-120 Topic::parse] The check of a topic is the check of a
    name of at most 64 bytes. *)
Definition parse_topic (raw : string) : result QueueError.t string :=
  if is_label raw 64 then Ok raw
  else Err (QueueError.InvalidMessage ("topic `" +:+ raw +:+ "` must be 1..=64 bytes of [a-z0-9-]")).

(** [crates/application/src/services/invoke_async/publisher.rs:203-208 publish (message)] *)
Definition message_of (e : OutboxEvent) : result QueueError.t OutgoingMessage :=
  topic ← parse_topic (ob_topic e);
  message_id ← parse_message_id (message_id_for (ob_event_id e) (ob_generation e));
  Ok (mkMessage (ob_tenant_id e) topic message_id (ob_payload e)).

(** What happens outside while one event is published: whether the process dies before
    it takes the event up, the failpoints, the queue, the clock when the outcome is
    recorded, and whether the database refuses to record it. *)
Record PublishStep := mkStep {
  ps_dies : bool;
  ps_fail_before : bool;
  ps_queue_down : bool;
  ps_queue : OutgoingMessage → result QueueError.t Receipt;
  ps_fail_after : bool;
  ps_now : Timestamp;
  ps_write_fails : bool;
  ps_display : QueueError.t → string
}.

(** What the database refuses of a pass before its first event. *)
Record PassStart := mkStart { pt_purge_fails : bool; pt_claim_fails : bool }.

Section publisher.
Context (cfg : StoreConfig) (c : InvokeAsyncConfig) (owner : string).

(** [crates/application/src/services/invoke_async/publisher.rs:194-210 publish] *)
Definition publish (s : PublishStep) (e : OutboxEvent) : result QueueError.t Receipt :=
  when! ps_queue_down s return! Err (QueueError.Unavailable "failpoint outbox.queue_unavailable");;
  m ← message_of e;
  ps_queue s m.

(** [crates/application/src/services/invoke_async/publisher.rs:212-220 release] A failure to
    release is only logged. *)
Definition release (s : PublishStep) (error : string) (l : Ledger) (e : OutboxEvent) : Ledger :=
  when! ps_write_fails s return! l;;
  match retry_outbox (ob_event_id e) owner
          (ps_now s + Publishing.backoff (Z.max (ob_publish_attempts e) 1) c) error l with
  | Ok (_, l') => l'
  | Err _ => l
  end.

(** The queue is down for every event of the batch. *)
Definition gives_up (e : QueueError.t) : bool :=
  match e with QueueError.Unavailable _ | QueueError.Unauthorized _ => true | _ => false end.

(** [crates/application/src/services/invoke_async/publisher.rs:136-174 run_once (event)] One
    event; whether the rest of the batch is given up, with which message. *)
Definition publish_one (s : PublishStep) (e : OutboxEvent) (p : PublishReport) (h : QueueHealth)
    (l : Ledger) : PublishReport * QueueHealth * Ledger * option string :=
  when! ps_fail_before s return!
    (p <| pp_failed ::= S |>, h, release s "failpoint outbox.before_publish" l e, None);;
  match publish s e with
  | Ok receipt =>
      let h := Health.record_ok h in
      let p := if rc_duplicate receipt then p <| pp_duplicates ::= S |> else p <| pp_published ::= S |> in
      when! ps_fail_after s return! (p, h, l, None);;
      match (if ps_write_fails s then Err (Store "")
             else mark_outbox_sent cfg (ob_event_id e) owner (rc_sequence receipt) (ps_now s) l) with
      | Ok (true, l') => (p <| pp_marked ::= S |>, h, l', None)
      | Ok (false, l') => (p <| pp_lost_claims ::= S |>, h, l', None)
      | Err _ => (p <| pp_failed ::= S |>, h, l, None)
      end
  | Err error =>
      let message := QueueError.code error +:+ ": " +:+ ps_display s error in
      (p <| pp_failed ::= S |>, Health.record_error error (ps_now s) h, release s message l e,
       if gives_up error then Some message else None)
  end.

(** [crates/application/src/services/invoke_async/publisher.rs:169-172 run_once (rest)] The rest
    of a batch that is given up, from its [i]th event on. *)
Fixpoint release_rest (steps : nat → PublishStep) (i : nat) (message : string)
    (events : list OutboxEvent) (l : Ledger) : Ledger :=
  match events with
  | [] => l
  | e :: rest =>
      when! ps_dies (steps i) return! l;;
      release_rest steps (S i) message rest (release (steps i) message l e)
  end.

(** [crates/application/src/services/invoke_async/publisher.rs:134-176 run_once (events)] The
    batch, from its [i]th event on; [steps] is what happens outside, event by event. *)
Fixpoint publish_events (steps : nat → PublishStep) (i : nat) (events : list OutboxEvent)
    (p : PublishReport) (h : QueueHealth) (l : Ledger) : PublishReport * QueueHealth * Ledger :=
  match events with
  | [] => (p, h, l)
  | e :: rest =>
      when! ps_dies (steps i) return! (p, h, l);;
      let '(p, h, l, stop) := publish_one (steps i) e p h l in
      match stop with
      | Some message => (p, h, release_rest steps (S i) message rest l)
      | None => publish_events steps (S i) rest p h l
      end
  end.

(** [crates/application/src/services/invoke_async/publisher.rs:222-237 purge] *)
Definition purge (fails : bool) (now : Timestamp) (last : option Timestamp) (p : PublishReport)
    (l : Ledger) : option Timestamp * PublishReport * Ledger :=
  when! is_some_and last (λ t, now - t <? seconds 60) return! (last, p, l);;
  when! fails return! (Some now, p, l);;
  match purge_sent_outbox (now - Publishing.sent_retention c) l with
  | Ok (n, l') => (Some now, p <| pp_purged := n |>, l')
  | Err _ => (Some now, p, l)
  end.

(** [crates/application/src/services/invoke_async/publisher.rs:116-192 run_once] *)
Definition run_once (start : PassStart) (now : Timestamp) (steps : nat → PublishStep)
    (last : option Timestamp) (h : QueueHealth) (l : Ledger)
    : PublishReport * option Timestamp * QueueHealth * Ledger :=
  let '(last, p, l) := purge (pt_purge_fails start) now last (mkReport 0 0 0 0 0 0 0) l in
  when! pt_claim_fails start return! (p <| pp_failed ::= S |>, last, h, l);;
  match claim_outbox owner now (Publishing.claim_ttl c) (Z.to_nat (ac_publish_batch c)) l with
  | Err _ => (p <| pp_failed ::= S |>, last, h, l)
  | Ok (events, l) =>
      let p := p <| pp_claimed := length events |> in
      let '(p, h, l) := publish_events steps 0 events p h l in
      (p, last, h, l)
  end.
End publisher.

(** ** Reading a delivered event back *)

(** [crates/application/src/services/invoke_async/consumer.rs:18-23 AcceptedEvent] *)
Record AcceptedEvent := mkAcceptedEvent {
  ae_envelope : InvokeEnvelope;
  ae_invocation : Invocation;
  ae_input : string
}.

(** [crates/application/src/services/invoke_async/consumer.rs:25-31 mismatch] *)
Definition mismatch {A} (what : string) : result AppError A :=
  Err (Absent ("delivered event does not match the ledger (" +:+ what +:+ ")")).

(** [crates/application/src/services/invoke_async/consumer.rs:33-91 read_delivery] *)
Definition read_delivery (o : Codec) (d : Delivery) (l : Ledger) : result AppError AcceptedEvent :=
  envelope ← map_err (λ e, InvalidRequest ("event envelope: " +:+ e)) (decode o (dv_payload d));
  when! message_id_for (ev_invocation_id envelope) (ev_generation envelope) != dv_message_id d return!
    mismatch "message id";;
  when! ev_tenant_id envelope != dv_tenant_id d return! mismatch "routing tenant";;
  match st_invocations (lg_store l) !! ev_invocation_id envelope with
  | None => mismatch "invocation"
  | Some inv =>
      when! (inv_tenant_id inv != dv_tenant_id d) || (inv_revision_id inv != ev_revision_id envelope)
            || (inv_function_id inv != ev_function_id envelope)
            || (inv_input_digest inv != ev_input_digest envelope) return!
        mismatch "invocation fields";;
      match async_input (inv_id inv) l with
      | None => mismatch "input"
      | Some input =>
          when! in_tenant_id input != inv_tenant_id inv return! mismatch "input tenant";;
          bytes ← match in_body input with
                  | InlineBody bytes => Ok bytes
                  | ObjectBody reference =>
                      when! obj_tenant_id reference != inv_tenant_id inv return!
                        mismatch "object tenant";;
                      match get_object o with
                      | None => Err (Platform ("the input is in the object store, but none is " +:+
                                               "configured"))
                      | Some get =>
                          map_err (λ e, Platform ("reading the input object: " +:+ e)) (get reference)
                      end
                  end;
          when! sha256 o bytes != inv_input_digest inv return!
            Err (Platform "the stored input does not match the accepted digest");;
          Ok (mkAcceptedEvent envelope inv bytes)
      end
  end.

(** ** Dead letters and redrives *)

Definition MAX_REDRIVE_REASON_BYTES : Z := 1024.

(** [crates/application/src/services/invoke_async/dead_letters.rs:51-58 RedriveRequest] *)
Record RedriveRequest := mkRedriveRequest {
  rr_principal : Principal;
  rr_dead_letter_id : string;
  rr_revision_id : option RevisionId;
  rr_reason : option string
}.

(** Whether [sub] occurs in [s]. *)
Definition contains (sub s : string) : bool := is_some (String.index 0 sub s).

Section dead_letters.
Context (cfg : StoreConfig) (o : Codec) (c : InvokeAsyncConfig).

(** [crates/application/src/services/invoke_async/dead_letters.rs:154-161 owned] *)
Definition owned (p : Principal) (id : string) (l : Ledger) : result AppError DeadLetter :=
  match dead_letter id l with
  | None => Err (Absent "dead letter not found")
  | Some dead => _ ← ensure_tenant p (dd_tenant_id dead) "dead letter"; Ok dead
  end.

(** [crates/application/src/services/invoke_async/dead_letters.rs:113-126 list] *)
Definition list_of (p : Principal) (function : FunctionId) (limit : nat) (l : Ledger)
    : result AppError (list DeadLetter) :=
  _ ← require_invoke p;
  Ok (list_dead_letters (pr_tenant_id p) function (Nat.min (Nat.max limit 1) 1000) l).

(** [crates/application/src/services/invoke_async/dead_letters.rs:128-140 get] *)
Definition get_view (p : Principal) (id : string) (l : Ledger)
    : result AppError (DeadLetter * list Redrive) :=
  _ ← require_invoke p;
  dead ← owned p id l;
  Ok (dead, redrives_of id l).

(** [crates/application/src/services/invoke_async/dead_letters.rs:162-205 redrive (checks)] The
    dead letter a caller may redrive, its invocation and its input. *)
Definition redrivable (q : RedriveRequest) (l : Ledger)
    : result AppError (DeadLetter * Invocation * FunctionId * AsyncInput) :=
  _ ← require_redrive (rr_principal q);
  when! is_some_and (rr_reason q) (λ r, MAX_REDRIVE_REASON_BYTES <? byte_len r) return!
    Err (InvalidRequest ("reason must be at most " +:+ pretty MAX_REDRIVE_REASON_BYTES +:+ " bytes"));;
  dead ← owned (rr_principal q) (rr_dead_letter_id q) l;
  when! dd_status dead != Open return!
    Err (Conflicting ("dead letter " +:+ dd_id dead +:+ " is already redriven"));;
  match dd_invocation_id dead, dd_function_id dead with
  | Some source_id, Some function_id =>
      match st_invocations (lg_store l) !! source_id with
      | None => Err (Absent "dead letter not found")
      | Some source =>
          _ ← ensure_tenant (rr_principal q) (inv_tenant_id source) "dead letter";
          match async_input (inv_id source) l with
          | Some input =>
              when! in_tenant_id input != inv_tenant_id source return!
                Err (Conflicting ("the input of invocation " +:+ inv_id source
                                    +:+ " is no longer stored"));;
              Ok (dead, source, function_id, input)
          | None => Err (Conflicting ("the input of invocation " +:+ inv_id source
                                        +:+ " is no longer stored"))
          end
      end
  | _, _ =>
      Err (Conflicting ("dead letter " +:+ dd_id dead +:+ " is a poison event ("
             +:+ DeadLetterReason.as_str DeadLetterReason.Poison
             +:+ "); it names no invocation to redrive"))
  end.

(** [crates/application/src/services/invoke_async/dead_letters.rs:237-303 redrive (write)] What a
    redrive writes. *)
Definition redrive_write (q : RedriveRequest) (dead : DeadLetter) (source : Invocation)
    (input : AsyncInput) (resolved : Resolved) (now : Timestamp) (id redrive_id : string)
    : result AppError RedriveWrite :=
  let rev := re_revision resolved in
  inv ← map_err Domains
          (Inv.accept id (inv_tenant_id source) (inv_function_id source) None (rev_id rev) Async
             (inv_event_kind source) (async_deadlines c (execution (rev_spec rev)) now) None
             (inv_input_digest source) (inv_input_size_bytes source) id now);
  let input := input <| in_invocation_id := id |> in
  Ok (mkRedriveWrite (dd_id dead) inv input
        (Event.new id (inv_tenant_id inv) INVOKE_TOPIC (encode o (first_envelope inv input)) now)
        (mkRedrive redrive_id (dd_id dead) (dd_tenant_id dead) (inv_function_id source)
           (inv_id source) id (rev_id rev) (rev_id rev != inv_revision_id source)
           (pr_subject (rr_principal q)) (rr_reason q) now)).

(** [crates/application/src/services/invoke_async/dead_letters.rs:163-332 redrive] [resolve] is
    the configuration cache. *)
Definition redrive_dead_letter (q : RedriveRequest)
    (resolve : Principal → FunctionId → RevisionId → result AppError Resolved) (queue : QueueCondition.t)
    (now : Timestamp) (id redrive_id : string) (l : Ledger)
    : result AppError (Redrive * Invocation * Ledger) :=
  '(dead, source, function_id, input) ← redrivable q l;
  let target := unwrap_or (rr_revision_id q) (inv_revision_id source) in
  resolved ← resolve (rr_principal q) function_id target;
  when! (rev_function_id (re_revision resolved) != inv_function_id source)
        || (fn_id (re_function resolved) != inv_function_id source) return!
    Err (InvalidRequest "revision_id must name a revision of the dead letter's function");;
  match backlog_refusal o (stats_in l) (backlog_limits c) queue now with
  | Some refusal => Err refusal
  | None =>
      w ← redrive_write q dead source input resolved now id redrive_id;
      match redrive cfg w l with
      | Ok (_, l') => Ok (rw_redrive w, rw_invocation w, l')
      | Err (Conflict m) => Err (Conflicting m)
      | Err (Refused m) =>
          if contains "being collected" m
          then Err (Conflicting ("the input can no longer be redriven: " +:+ m))
          else Err (Ledgers (Refused m))
      | Err e => Err (Ledgers e)
      end
  end.
End dead_letters.
