(* ===== verification/AsyncFrontProps.v ===== *)
(** * Acceptance, publishing and reading back

    What was delivered is what was accepted, nothing is marked sent that the queue did
    not store, and a redrive of an open dead letter succeeds. *)

From Stdlib Require Import Ascii.
From S2P Require Import Prelude Ids Functions Invocation Revision Guard Store StoreInv Scenario Retry.
From S2P Require Import Outbox Dispatch LedgerInv AsyncRun AsyncFront AsyncObjects.

Open Scope string_scope.
Open Scope Z_scope.

(** ** What an acceptance writes *)

(** The outcome of steps 1 to 5 for a new invocation. *)
Record prepared (o : Codec) (q : InvokeAsyncRequest) (out : Outside) (bytes : string)
    (resolved : Resolved) (inv : Invocation) (input : AsyncInput) (event : OutboxEvent) : Prop := {
  pd_payload : rq_payload q = Ok bytes;
  pd_resolved : os_resolved out = Ok resolved;
  pd_id : inv_id inv = os_id out;
  pd_tenant : inv_tenant_id inv = pr_tenant_id (rq_principal q);
  pd_pinned : (inv_function_id inv, inv_revision_id inv)
              = (fn_id (re_function resolved), rev_id (re_revision resolved));
  pd_async : (inv_mode inv, inv_status inv, inv_accepted_at inv)
             = (Async, InvocationStatus.Accepted, os_now out);
  pd_key : inv_idempotency_key inv = rq_idempotency_key q;
  pd_digest : inv_input_digest inv = sha256 o bytes;
  pd_input : (in_invocation_id input, in_digest input, in_size_bytes input)
             = (os_id out, sha256 o bytes, byte_len bytes);
  pd_body : in_body input = InlineBody bytes ∨
    ∃ put meta, os_put out = Some put ∧ put (in_tenant_id input) bytes = Ok meta ∧
      in_body input = ObjectBody (om_reference meta);
  pd_event : in_tenant_id input = inv_tenant_id inv →
    event = Event.new (os_id out) (inv_tenant_id inv) INVOKE_TOPIC
              (encode o (first_envelope inv input)) (os_now out);
  pd_generation : ob_generation event = 0
}.

Lemma accept_Ok id tenant function alias revision mode kind deadlines key digest size trace now inv :
  Inv.accept id tenant function alias revision mode kind deadlines key digest size trace now = Ok inv →
  inv = mkInv id tenant function alias revision None mode kind InvocationStatus.Accepted deadlines
          key digest size None None trace now None None [] None.
Proof. unfold Inv.accept. intros H. pass H. pass H. by injection H as <-. Qed.

Lemma map_err_Ok {E F A} (f : E → F) (r : result E A) a : map_err f r = Ok a → r = Ok a.
Proof. by destruct r; intros [=]; subst. Qed.

Lemma put_input_Ok c put tenant bytes digest reference :
  put_input c put tenant bytes digest = Ok reference →
  ∃ p meta, put = Some p ∧ p tenant bytes = Ok meta ∧ reference = om_reference meta.
Proof.
  unfold put_input, refused. destruct put as [p|]; [|done].
  destruct (p tenant bytes) as [meta|[]] eqn:Hp; try done. intros H. pass H. injection H as <-. eauto.
Qed.

Lemma prepare_Fresh cfg o c q out l inv input event :
  prepare cfg o c q out l = Ok (Fresh_ inv input event) →
  ∃ bytes resolved, prepared o q out bytes resolved inv input event.
Proof.
  unfold prepare. intros H. apply result_bind_Ok in H as (u & _ & H). pass H.
  apply result_bind_Ok in H as (resolved & Hr & H). apply result_bind_Ok in H as (bytes & Hb & H).
  apply map_err_Ok in Hb. pass H. pass H. apply result_bind_Ok in H as (inv1 & Hi & H).
  apply map_err_Ok, accept_Ok in Hi.
  destruct (k ← rq_idempotency_key q; _) as [[key binding]|].
  { by apply result_bind_Ok in H as (a & _ & [=]). }
  destruct (backlog_refusal _ _ _ _ _); [done|]. apply result_bind_Ok in H as (body & Hbody & H).
  pass H. injection H as <- <- <-. exists bytes, resolved. subst inv1.
  split; try done; cbn.
  - destruct (byte_len bytes <=? _); [injection Hbody as <-; by left|].
    apply result_bind_Ok in Hbody as (reference & Hp & [= <-]).
    apply put_input_Ok in Hp as (p & meta & -> & Hp & ->). right. by exists p, meta.
  - intros ->. unfold first_envelope. done.
Qed.

(** A new acceptance: the transaction committed. *)
Lemma accept_new cfg o c q out l a l' :
  accept cfg o c q out l = (Ok a, l') → aa_replayed a = false →
  ∃ bytes resolved input event, prepared o q out bytes resolved (aa_invocation a) input event ∧
    accept_async cfg (aa_invocation a) input event (backlog_limits c) (os_fail_before_commit out) l
      = Ok (AsyncAcceptOutcome.Accepted, l').
Proof.
  assert (Hreplay : ∀ key digest b l0 a0, replay key digest b l0 = Ok a0 → aa_replayed a0 = true).
  { intros key digest b l0 a0. unfold replay. intros H. pass H.
    destruct (_ !! _); [|done]. pass H. by injection H as <-. }
  unfold accept. destruct (prepare _ _ _ _ _ _) as [[a0|inv input event]|e] eqn:Hp; [| |done].
  - intros [= -> ->] Hn. unfold prepare in Hp. apply result_bind_Ok in Hp as (u & _ & H). pass H.
    apply result_bind_Ok in H as (resolved & Hr & H). apply result_bind_Ok in H as (bytes & Hb & H).
    pass H. pass H. apply result_bind_Ok in H as (inv1 & Hi & H).
    destruct (k ← rq_idempotency_key q; _) as [[key binding]|].
    + apply result_bind_Ok in H as (a1 & Ha & [= ->]). apply Hreplay in Ha. congruence.
    + destruct (backlog_refusal _ _ _ _ _); [done|]. apply result_bind_Ok in H as (body & _ & H).
      by pass H.
  - apply prepare_Fresh in Hp as (bytes & resolved & Hp).
    destruct (accept_async _ _ _ _ _ _ _) as [[[|b|stats] l2]|e] eqn:Ha; [| | |done].
    + destruct (os_fail_after_commit out); [done|]. intros [= <- <-] _. by exists bytes, resolved, input, event.
    + intros [= H <-] Hn. apply Hreplay in H. congruence.
    + done.
Qed.

(** ** Inputs and identities stay *)

Lemma command_inputs cfg cmd l :
  ledger_wf l → lcmd_ok cmd → lg_inputs l ⊆ lg_inputs (run_lcmd cfg cmd l).
Proof.
  intros Hwf Hok.
  destruct cmd; cbn [run_lcmd];
    match goal with |- context [after ?t l] => destruct (after_Ok t l) as [->|[a H]]; [done|] end;
    set (l' := after _ l) in *; clearbody l';
    try solve [rewrite (qu_inputs l l'); [done|]; eauto using
    claim_outbox_quiet, mark_outbox_sent_quiet, retry_outbox_quiet, purge_sent_outbox_quiet,
    update_invocation_quiet, claim_object_quiet].
  - apply accept_async_Ok in H as [[-> _]|(_ & _ & _ & _ & Hac & _)]; [done|].
    rewrite (ac_inputs _ _ _ _ _ Hac). apply insert_subseteq, Hac.
  - by apply claim_dispatch_Ok in H as [[-> _]|(? & ? & _ & _ & _ & _ & _ & _ & _ & _ & ->)].
  - by apply renew_dispatch_claim_Ok in H as [[_ ->]|(? & _ & _ & _ & _ & _ & ->)].
  - apply settle_dispatch_Ok in H as [[-> _]|(_ & old & r & S)]; [done|].
    by rewrite (se_inputs _ _ _ _ _ S).
  - apply record_poison_Ok in H as [_ H].
    by apply insert_dead_letter_Ok in H as [(_ & -> & _)|(_ & -> & _)].
  - apply redrive_Ok in H as (? & _ & _ & _ & _ & _ & _ & _ & Hac & _).
    rewrite (ac_inputs _ _ _ _ _ Hac). apply insert_subseteq, Hac.
Qed.

Lemma ledger_run_inputs cfg l l' : ledger_wf l → ledger_run cfg l l' → lg_inputs l ⊆ lg_inputs l'.
Proof.
  intros Hwf. induction 1 as [|l' c Hrun IH Hok]; [done|].
  etrans; [exact IH|]. apply command_inputs; [by eapply ledger_run_wf|done].
Qed.

(** ** Delivered is what was accepted *)

(** What the dispatcher relies on of the code outside: the JSON of an envelope reads back,
    and the object store stores what it is given under the tenant it is given. *)
Record honest (o : Codec) (out : Outside) : Prop := {
  hn_envelope : ∀ e, decode o (encode o e) = Ok e;
  hn_tenant : ∀ put tenant bytes meta, os_put out = Some put → put tenant bytes = Ok meta →
    obj_tenant_id (om_reference meta) = tenant
}.

(** The code outside, with the object store as it answers by now. *)
Definition with_objects (o : Codec) (get : option (ObjectRef → result string string)) : Codec :=
  mkCodec (Payload o) (encode o) (decode o) (sha256 o) (display o) (rfc3339 o) (parse_event o) get.

(** What is relied on of the object store [get] by the time the ledger is [l'']: it
    still gives back the bytes the acceptance stored, unless the collector marked the
    object for deletion at some time between the acceptance and now. *)
Definition undeleted (cfg : StoreConfig) (out : Outside) (bytes : string) (input : AsyncInput)
    (l' l'' : Ledger) (get : option (ObjectRef → result string string)) : Prop :=
  ∀ put meta, os_put out = Some put → put (in_tenant_id input) bytes = Ok meta →
    in_body input = ObjectBody (om_reference meta) →
    (∀ l1, ledger_run cfg l' l1 → ledger_run cfg l1 l'' →
       st_object_tombstones (lg_store l1) !! obj_id (om_reference meta) = None) →
    ∃ g, get = Some g ∧ g (om_reference meta) = Ok bytes.

(** The input of a live invocation was never marked. *)
Lemma live_input_unmarked cfg l' l1 l'' id input object cur :
  ledger_run cfg empty_ledger l' → ledger_run cfg l' l1 → ledger_run cfg l1 l'' →
  lg_inputs l' !! id = Some input → in_body input = ObjectBody object →
  invs l'' !! id = Some cur → InvocationStatus.is_terminal (inv_status cur) = false →
  st_object_tombstones (lg_store l1) !! obj_id object = None.
Proof.
  intros H0 H1 H2 Hin Ho Hcur Hlive. pose proof (ledger_run_wf _ _ _ empty_ledger_wf H0) as Hwf.
  assert (Hr1 : ledger_run cfg empty_ledger l1) by by eapply ledger_run_trans.
  pose proof (ledger_run_wf _ _ _ empty_ledger_wf Hr1) as Hwf1.
  assert (Hin1 : lg_inputs l1 !! id = Some input) by (eapply lookup_weaken; [exact Hin|by eapply ledger_run_inputs]).
  apply (ledger_run_inputs_kept cfg l1 Hr1 id input object Hin1 Ho). left.
  destruct (wf_inputs l1 Hwf1 id input Hin1) as [old Hold]. exists old. split; [done|].
  destruct (ledger_run_rows cfg l1 l'' Hwf1 H2 id old Hold) as (cur' & Hcur' & [_ Hfin]).
  rewrite Hcur in Hcur'. injection Hcur' as <-. apply not_true_is_false. intros Ht.
  specialize (Hfin Ht). subst. congruence.
Qed.

(** The delivery of an event's message. *)
Definition delivered (e : OutboxEvent) (sequence : Z) : Delivery :=
  mkDelivery (message_id_for (ob_event_id e) (ob_generation e)) (ob_tenant_id e) (ob_payload e) sequence.

(** what is delivered is what was accepted. A new acceptance commits the invocation,
    pinned to the resolved revision under the caller's tenant, its input and one unsent
    event; and whenever a message of that event is delivered, however much later and
    whatever happened in between, reading it back through the ledger gives the bytes
    that were accepted, with the envelope of the acceptance, as long as the row is
    still pinned to its revision and either the input is in the ledger or the
    invocation is not over: until then no collector deletes the input's object. *)
Theorem delivered_is_accepted cfg o c q out l a l' bytes :
  ledger_run cfg empty_ledger l → honest o out → accept cfg o c q out l = (Ok a, l') → aa_replayed a = false →
  rq_payload q = Ok bytes →
  let inv := aa_invocation a in
  let id := inv_id inv in
  invs l !! id = None ∧ invs l' !! id = Some inv ∧ inv_status inv = InvocationStatus.Accepted ∧
  inv_tenant_id inv = pr_tenant_id (rq_principal q) ∧
  (∃ resolved, os_resolved out = Ok resolved ∧ inv_revision_id inv = rev_id (re_revision resolved)) ∧
  exceeds (backlog_limits c) (os_now out) (stats_in l) = false ∧
  ∃ e input, lg_outbox l' !! id = Some e ∧ ob_sent_at e = None ∧ lg_inputs l' !! id = Some input ∧
    ∀ l'' cur sequence get, ledger_run cfg l' l'' → invs l'' !! id = Some cur →
      inv_revision_id cur = inv_revision_id inv → undeleted cfg out bytes input l' l'' get →
      in_body input = InlineBody bytes ∨ InvocationStatus.is_terminal (inv_status cur) = false →
      read_delivery (with_objects o get) (delivered e sequence) l'' =
        Ok (mkAcceptedEvent (first_envelope inv input) cur bytes).
Proof.
  intros Hreach [Henv Hobj] Hac Hn Hb. destruct (accept_new _ _ _ _ _ _ _ _ Hac Hn)
    as (bytes' & resolved & input & event & Hp & Ha).
  destruct (accept_async_Ok _ _ _ _ _ _ _ _ _ Ha) as [[_ []]|(_ & _ & Hex & Hck & Hacc & _)]; [done|].
  destruct Hp as [Hpay Hres Hid Hten Hpin Has Hkey Hdig Hin Hbody Hev].
  rewrite Hb in Hpay. injection Hpay as <-. cbn zeta. set (inv := aa_invocation a) in *.
  injection Hpin as Hfn Hrev. injection Has as Hmode Hst Hat. injection Hin as Hi1 Hi2 Hi3.
  assert (Hit : in_tenant_id input = inv_tenant_id inv)
    by (unfold check_accept in Hck; pass Hck; by bools).
  specialize (Hev Hit).
  assert (Hrun' : ledger_run cfg empty_ledger l').
  { eapply ledger_run_trans; [exact Hreach|].
    replace l' with (run_lcmd cfg (LAccept inv input event (backlog_limits c) (os_fail_before_commit out)) l)
      by (cbn [run_lcmd]; unfold after; by rewrite Ha).
    apply run_step; [apply run_here|done]. }
  pose proof (ledger_run_wf _ _ _ empty_ledger_wf Hrun') as Hwf'.
  split_and!; [apply Hacc| |done|done|eauto| |].
  - by rewrite (ac_invs _ _ _ _ _ Hacc), lookup_insert_eq.
  - by rewrite <-Hat.
  - exists (new_row event), input.
    rewrite (ac_outbox _ _ _ _ _ Hacc), (ac_inputs _ _ _ _ _ Hacc), !lookup_insert_eq.
    split_and!; [done..|]. intros l'' cur sequence get Hrun Hcur Hsame Hget Hstill.
    destruct (ledger_run_rows cfg l' l'' Hwf' Hrun (inv_id inv) inv) as (cur' & Hcur' & [Hident _]);
      [by rewrite (ac_invs _ _ _ _ _ Hacc), lookup_insert_eq|].
    rewrite Hcur in Hcur'. injection Hcur' as <-. injection Hident as E1 E2 E3 E4 _ _ E7.
    assert (Hin'' : lg_inputs l'' !! inv_id inv = Some input).
    { eapply lookup_weaken; [|by eapply (ledger_run_inputs cfg l')].
      by rewrite (ac_inputs _ _ _ _ _ Hacc), lookup_insert_eq. }
    unfold read_delivery, delivered. rewrite Hev. cbn [dv_payload dv_message_id dv_tenant_id new_row
      Event.new ob_payload ob_event_id ob_generation ob_tenant_id].
    unfold with_objects. cbn [decode sha256 get_object].
    rewrite Henv. cbn [map_err mbind result_bind first_envelope ev_invocation_id ev_generation ev_tenant_id
      ev_revision_id ev_function_id ev_input_digest].
    rewrite <-Hid, Hcur, E1, E2, E3, E7, Hsame, !bool_decide_eq_true_2 by done. cbn [negb orb].
    unfold async_input. rewrite Hin'', Hit, bool_decide_eq_true_2 by done. cbn [negb].
    assert (Hread : match in_body input with
      | InlineBody bytes => Ok bytes
      | ObjectBody reference =>
          when! obj_tenant_id reference != inv_tenant_id inv return! mismatch "object tenant";;
          match get with
          | None => Err (Platform ("the input is in the object store, but none is " +:+ "configured"))
          | Some get => map_err (λ e, Platform ("reading the input object: " +:+ e)) (get reference)
          end
      end = Ok bytes).
    { destruct Hbody as [->|(put & meta & Hput & Hm & Hb')]; [done|].
      destruct Hstill as [Hinl|Hlive]; [by rewrite Hinl in Hb'|]. rewrite Hb'.
      destruct (Hget put meta Hput Hm Hb') as (g & -> & ->).
      { intros l1 Hr1 Hr2. eapply (live_input_unmarked cfg l' l1 l'' (inv_id inv) input); try done.
        by rewrite (ac_inputs _ _ _ _ _ Hacc), lookup_insert_eq. }
      rewrite (Hobj _ _ _ _ Hput Hm), Hit. by rewrite bool_decide_eq_true_2. }
    rewrite Hread. cbn [mbind result_bind]. by rewrite Hdig, bool_decide_eq_true_2.
Qed.

(** ** An honest outside world

    An envelope as a string of bits: each field as a binary number, all of them
    flattened into one. *)

Fixpoint bits_of (p : positive) : string :=
  match p with
  | xH => ""
  | xO p => String "0"%char (bits_of p)
  | xI p => String "1"%char (bits_of p)
  end.

Fixpoint of_bits (s : string) : positive :=
  match s with
  | EmptyString => xH
  | String b s => if b == "1"%char then xI (of_bits s) else xO (of_bits s)
  end.

Lemma of_bits_bits p : of_bits (bits_of p) = p.
Proof. induction p as [p IH|p IH|]; cbn; rewrite ?IH; done. Qed.

Definition encode_envelope (e : InvokeEnvelope) : string :=
  bits_of (positives_flatten
    [countable.encode (ev_version e); countable.encode (ev_invocation_id e);
     countable.encode (ev_tenant_id e); countable.encode (ev_function_id e);
     countable.encode (ev_revision_id e); countable.encode (ev_event_kind e == Json);
     countable.encode (ev_input_digest e); countable.encode (ev_input_size_bytes e);
     countable.encode (ev_input_storage e); countable.encode (ev_accepted_at e);
     countable.encode (ev_queue_deadline e); countable.encode (ev_trace_id e);
     countable.encode (ev_generation e)]).

Definition decode_envelope (s : string) : result string InvokeEnvelope :=
  match (l ← positives_unflatten (of_bits s);
         match l with
         | [a; b; c; d; e; f; g; h; i; j; k; m; n] =>
             a ← countable.decode a; b ← countable.decode b; c ← countable.decode c;
             d ← countable.decode d; e ← countable.decode e; f ← countable.decode f;
             g ← countable.decode g; h ← countable.decode h; i ← countable.decode i;
             j ← countable.decode j; k ← countable.decode k; m ← countable.decode m;
             n ← countable.decode n;
             Some (mkEnvelope a b c d e (if f : bool then Json else Http) g h i j k m n)
         | _ => None
         end) with
  | Some e => Ok e
  | None => Err "not an envelope"
  end.

Lemma decode_encode_envelope e : decode_envelope (encode_envelope e) = Ok e.
Proof.
  unfold decode_envelope, encode_envelope. rewrite of_bits_bits, positives_unflatten_flatten.
  cbn [mbind option_bind]. rewrite !decode_encode. cbn [mbind option_bind].
  destruct e as [? ? ? ? ? []]; done.
Qed.

Definition codec_bits : Codec :=
  mkCodec string encode_envelope decode_envelope (λ _, "sha256:0") (λ _, "refused") (λ _, "then") Ok None.

Definition caller_a : Principal := mkPrincipal "ann" "tn_a" [Role.Invoke; Role.Redrive].
Definition resolved_a : Resolved :=
  mkResolved (mkFunction "fn_a" "tn_a" "f" "" 0 0 None None)
    (mkRevision "rev_a" "fn_a" "tn_a" 1 spec0 "sha256:1" RevisionStatus.Ready 0 0) None None.
Definition request_a : InvokeAsyncRequest := mkAsyncRequest caller_a (Ok "{}") (Some "k") None.
Definition outside_a (id : InvocationId) : Outside :=
  mkOutside false (Ok resolved_a) 0 id None QueueCondition.Healthy false false false.

Lemma outside_a_honest id : honest codec_bits (outside_a id).
Proof. split; [exact decode_encode_envelope|done]. Qed.

Definition accepted_a : result AppError AsyncAcceptance * Ledger :=
  accept cfg0 codec_bits default_async_config request_a (outside_a "inv_a") empty_ledger.
Definition acceptance_a : AsyncAcceptance :=
  match accepted_a.1 with Ok a => a | Err _ => mkAcceptance inv0 "" true end.
Definition ledger_accepted : Ledger := accepted_a.2.

Lemma accepted_a_eq : accepted_a = (Ok acceptance_a, ledger_accepted).
Proof. vm_compute. reflexivity. Qed.

(** The event is claimed by a publisher, and its message delivered. *)
Lemma delivered_is_accepted_witness :
  ∃ e ev, lg_outbox ledger_accepted !! "inv_a" = Some e ∧
    read_delivery (with_objects codec_bits None) (delivered e 7)
      (run_lcmd cfg0 (LClaimOutbox "pub" 1 10 10) ledger_accepted) = Ok ev ∧ ae_input ev = "{}".
Proof.
  destruct (delivered_is_accepted cfg0 codec_bits default_async_config request_a (outside_a "inv_a")
    empty_ledger acceptance_a ledger_accepted "{}")
    as (_ & _ & _ & _ & _ & _ & e & input & He & _ & _ & Hread).
  - apply run_here.
  - exact (outside_a_honest "inv_a").
  - exact accepted_a_eq.
  - by vm_compute.
  - done.
  - exists e, (mkAcceptedEvent (first_envelope (aa_invocation acceptance_a) input)
                 (aa_invocation acceptance_a) "{}").
    split; [exact He|]. split; [|reflexivity].
    apply (Hread _ (aa_invocation acceptance_a) 7 None).
    + apply (run_step _ _ _ (LClaimOutbox "pub" 1 10 10)); [apply run_here|done].
    + by vm_compute.
    + done.
    + intros put meta [=].
    + right. by vm_compute.
Defined.

(** ** Redriving a dead letter *)

(** A caller who may redrive [dead], whose invocation, input and target revision are the
    tenant's and the function's, when the outbox has room and the new ids are new. *)
Record may_redrive (o : Codec) (c : InvokeAsyncConfig) (q : RedriveRequest)
    (resolve : Principal → FunctionId → RevisionId → result AppError Resolved) (queue : QueueCondition.t)
    (now : Timestamp) (id redrive_id : string) (l : Ledger) (dead : DeadLetter) (source : Invocation)
    (input : AsyncInput) (resolved : Resolved) : Prop := {
  mr_roles : Role.Invoke ∈ pr_roles (rr_principal q) ∧ Role.Redrive ∈ pr_roles (rr_principal q);
  mr_reason : ∀ r, rr_reason q = Some r → byte_len r ≤ MAX_REDRIVE_REASON_BYTES;
  mr_dead : lg_dead l !! rr_dead_letter_id q = Some dead ∧ dd_status dead = Open;
  mr_of : dd_invocation_id dead = Some (inv_id source) ∧ dd_function_id dead = Some (inv_function_id source);
  mr_source : invs l !! inv_id source = Some source;
  mr_input : async_input (inv_id source) l = Some input ∧ in_size_bytes input ≤ i64_max;
  mr_tenant : pr_tenant_id (rr_principal q) = dd_tenant_id dead ∧ inv_tenant_id source = dd_tenant_id dead ∧
    in_tenant_id input = dd_tenant_id dead ∧
    (∀ object, in_body input = ObjectBody object → obj_tenant_id object = dd_tenant_id dead) ∧
    (∀ f, st_functions (lg_store l) !! inv_function_id source = Some f → fn_tenant_id f = dd_tenant_id dead);
  mr_target : resolve (rr_principal q) (inv_function_id source)
                (unwrap_or (rr_revision_id q) (inv_revision_id source)) = Ok resolved;
  mr_function : rev_function_id (re_revision resolved) = inv_function_id source ∧
    fn_id (re_function resolved) = inv_function_id source;
  mr_deadline : now ≤ client_deadline (async_deadlines c (execution (rev_spec (re_revision resolved))) now);
  mr_room : backlog_refusal o (stats_in l) (backlog_limits c) queue now = None;
  mr_fresh : invs l !! id = None ∧ lg_redrives l !! redrive_id = None
}.

(** The input of an open dead letter attaches again. *)
Lemma redrive_input_row cfg l dead source input id s :
  ledger_run cfg empty_ledger l → lg_dead l !! dd_id dead = Some dead → dd_status dead = Open →
  dd_invocation_id dead = Some (inv_id source) → async_input (inv_id source) l = Some input →
  in_size_bytes input ≤ i64_max → lg_inputs l !! id = None →
  objects s = objects (lg_store l) → (∃ inv, st_invocations s !! id = Some inv ∧
    ∀ object, in_body input = ObjectBody object → inv_tenant_id inv = obj_tenant_id object) →
  ∃ s', insert_input_row (input <| in_invocation_id := id |>) (l <| lg_store := s |>) =
    Ok (l <| lg_store := s' |> <| lg_inputs ::= <[id := input <| in_invocation_id := id |>]> |>).
Proof.
  intros Hrun Hd Ho Hi Hin Hsz Hfresh Hob (inv & Hinv & Hten). unfold insert_input_row.
  cbn [in_body in_invocation_id in_size_bytes set_field lg_store lg_inputs].
  assert (∃ s', match in_body input with
                | InlineBody _ => Ok s | ObjectBody object => attach_in object id s end = Ok s') as [s' ->].
  { destruct (in_body input) as [bytes|object] eqn:Hb; [by eexists|].
    destruct (ledger_run_inputs_kept cfg l Hrun _ input object Hin Hb) as [_ Hn].
    injection Hob as _ Ht. unfold attach_in. rewrite Hinv, (Hten object eq_refl), bool_decide_eq_true_2 by done.
    cbn [negb]. rewrite Ht, Hn; [by eexists|]. right. by exists (dd_id dead), dead. }
  cbn [mbind result_bind]. unfold big. rewrite (proj2 (Z.leb_le _ _)) by done.
  cbn [mbind result_bind]. rewrite Hfresh. by exists s'.
Qed.

(** an open dead letter can be redriven. For a caller with both roles in its tenant,
    when the target revision resolves and the outbox has room, the redrive succeeds
    whatever happened before, collections of objects included: it creates an accepted
    invocation of the source's function, pinned to the target revision, that reads the
    source's input (the same bytes or the same object), with an unsent event that names
    it, and the audit record links both. *)
Theorem open_dead_letter_redrives cfg o c q resolve queue now id redrive_id l dead source input resolved :
  ledger_run cfg empty_ledger l →
  may_redrive o c q resolve queue now id redrive_id l dead source input resolved →
  ∃ rd inv l', redrive_dead_letter cfg o c q resolve queue now id redrive_id l = Ok (rd, inv, l') ∧
    invs l' !! id = Some inv ∧ inv_status inv = InvocationStatus.Accepted ∧
    (inv_tenant_id inv, inv_function_id inv, inv_revision_id inv, inv_input_digest inv)
      = (inv_tenant_id source, inv_function_id source, rev_id (re_revision resolved), inv_input_digest source) ∧
    lg_inputs l' !! id = Some (input <| in_invocation_id := id |>) ∧
    (∃ e, lg_outbox l' !! id = Some e ∧ ob_sent_at e = None ∧
       ob_payload e = encode o (first_envelope inv (input <| in_invocation_id := id |>))) ∧
    (rd_dead_letter_id rd, rd_source_invocation_id rd, rd_invocation_id rd) = (dd_id dead, inv_id source, id).
Proof.
  intros Hrun [[Hr1 Hr2] Hreason [Hd Hopen] [Hof Hfn] Hsrc [Hin Hsz] (T1 & T2 & T3 & T4 & T5) Htarget [F1 F2]
    Hdl Hroom [Hnew Hrd]].
  pose proof (ledger_run_wf cfg _ _ empty_ledger_wf Hrun) as Hwf.
  pose proof (wf_dead_keyed l Hwf _ _ Hd) as Hkey.
  assert (Hnin : lg_inputs l !! id = None).
  { apply eq_None_not_Some. intros [i Hi]. destruct (wf_inputs l Hwf id i Hi). congruence. }
  assert (Hnob : lg_outbox l !! id = None).
  { apply eq_None_not_Some. intros [e He]. destruct (wf_outbox l Hwf id e He) as (_ & _ & [? ?]). congruence. }
  assert (Hredrivable : redrivable q l = Ok (dead, source, inv_function_id source, input)).
  { unfold redrivable, require_redrive, require_role, owned, dead_letter, ensure_tenant.
    rewrite (bool_decide_true (Role.Invoke ∈ _)), (bool_decide_true (Role.Redrive ∈ _)) by done.
    cbn [mbind result_bind].
    replace (is_some_and (rr_reason q) _) with false.
    2: { destruct (rr_reason q) as [r|]; [|done]. cbn. symmetry. apply Z.ltb_ge. by apply Hreason. }
    rewrite Hd, T1, bool_decide_eq_true_2 by done. cbn [mbind result_bind].
    rewrite Hopen, bool_decide_eq_true_2 by done. cbn [negb]. rewrite Hof, Hfn, Hsrc, T2.
    rewrite bool_decide_eq_true_2 by done. cbn [mbind result_bind]. rewrite Hin, T3.
    by rewrite bool_decide_eq_true_2. }
  unfold redrive_dead_letter. rewrite Hredrivable. cbn [mbind result_bind]. rewrite Htarget.
  cbn [mbind result_bind]. rewrite F1, F2, bool_decide_eq_true_2 by done. cbn [negb orb].
  rewrite Hroom. unfold redrive_write, Inv.accept. cbn [is_some_and].
  rewrite (proj2 (Z.ltb_ge _ _)) by exact Hdl. cbn [map_err mbind result_bind].
  set (inv := mkInv id _ _ _ _ _ _ _ _ _ _ _ _ _ _ _ _ _ _ _ _).
  set (w := mkRedriveWrite _ _ _ _ _).
  assert (∃ l', redrive cfg w l = Ok (tt, l')) as [l' Hw].
  { unfold redrive, insert_invocation_checked. cbv zeta. subst w.
    cbn [rw_dead_letter_id rw_invocation rw_input rw_event rw_redrive].
    rewrite Hkey, Hd, Hopen, bool_decide_eq_true_2 by done. cbn [negb].
    cbn [inv inv_id inv_tenant_id inv_function_id in_tenant_id in_invocation_id set_field ob_tenant_id
         ob_event_id Event.new rd_tenant_id rd_invocation_id rd_source_invocation_id inv_accepted_at].
    rewrite T2, Hfn, Hof, (bool_decide_eq_true_2 (in_tenant_id input = _) T3), !bool_decide_eq_true_2 by done.
    cbn [negb orb]. rewrite Hnew. cbn [is_some].
    replace (invocation_insert _ _ _) with (Ok (E := RepoError) tt).
    2: { unfold invocation_insert, same_tenant. cbn [inv_tenant_id inv_id].
         destruct (st_functions _ !! _) as [f|] eqn:Hf; [|done].
         by rewrite (T5 f eq_refl), bool_decide_eq_true_2. }
    cbn [mbind result_bind].
    fold inv. set (s := lg_store l <| st_invocations ::= <[id := inv]> |>).
    match goal with |- context [insert_input_row ?i ?l1] =>
      change (insert_input_row i l1) with
        (insert_input_row (input <| in_invocation_id := id |>) (l <| lg_store := s |>)) end.
    destruct (redrive_input_row cfg l dead source input id s) as [s' ->]; try done.
    { by rewrite Hkey. }
    { eexists. split; [apply lookup_insert_eq|]. intros object Hb. cbn. by rewrite (T4 object Hb). }
    cbn [mbind result_bind]. unfold insert_outbox_row, big. cbn [ob_generation Event.new ob_event_id].
    rewrite (proj2 (Z.leb_le 0 i64_max)) by done. cbn [mbind result_bind lg_outbox set_field].
    rewrite Hnob. cbn [is_some mbind result_bind lg_redrives set_field rd_id]. rewrite Hrd. by eexists. }
  pose proof Hw as Hok. apply redrive_Ok in Hok as (dead' & _ & _ & _ & _ & _ & _ & _ & Hac & _).
  exists (rw_redrive w), inv, l'. rewrite Hw. split; [done|].
  pose proof (ac_invs _ _ _ _ _ Hac) as E1. pose proof (ac_inputs _ _ _ _ _ Hac) as E2.
  pose proof (ac_outbox _ _ _ _ _ Hac) as E3.
  cbn [w rw_invocation rw_input rw_event inv inv_id] in E1, E2, E3. rewrite E1, E2, E3, !lookup_insert_eq.
  split_and!; try done. by eexists.
Qed.

Definition redrive_request_a : RedriveRequest := mkRedriveRequest caller_a "dlq_a" None (Some "fixed").

Lemma open_dead_letter_redrives_witness :
  ∃ rd inv l', redrive_dead_letter cfg0 codec_bits default_async_config redrive_request_a
      (λ _ _ _, Ok resolved_a) QueueCondition.Healthy 70 "inv_b" "rdr_a" ledger_object = Ok (rd, inv, l') ∧
    invs l' !! "inv_b" = Some inv.
Proof.
  destruct (open_dead_letter_redrives cfg0 codec_bits default_async_config redrive_request_a
    (λ _ _ _, Ok resolved_a) QueueCondition.Healthy 70 "inv_b" "rdr_a" ledger_object dead_letter_a
    (inv0 <| inv_status := InvocationStatus.Cancelled |>) object_input resolved_a)
    as (rd & inv & l' & H & Hi & _).
  - exact ledger_object_run.
  - split; try (vm_compute; reflexivity).
    + cbn. split; [apply list_elem_of_here|]. apply list_elem_of_further, list_elem_of_here.
    + intros r [= <-]. by vm_compute.
    + split; [by vm_compute|done].
    + done.
    + split; [by vm_compute|done].
    + split_and!; [by vm_compute..| |].
      * by intros object [= <-].
      * intros f Hf. vm_compute in Hf. discriminate Hf.
    + done.
    + by vm_compute.
    + split; by vm_compute.
  - exists rd, inv, l'. split; [exact H|exact Hi].
Defined.
