(* ===== verification/PublisherProps.v ===== *)
(** * The publisher accounts for every row

    What one pass of the publisher makes of the outbox, wherever its process dies and
    whatever the database refuses: nothing is marked sent that the queue did not store,
    nothing unsent is dropped, and the claims it leaves behind are of the events whose
    outcome was not recorded, and run out. *)

From S2P Require Import Prelude Ids Functions Invocation Revision Guard Store StoreInv Scenario Retry.
From S2P Require Import Outbox Dispatch LedgerInv AsyncRun AsyncFront AsyncFrontProps AsyncSteps AsyncWorld.

Open Scope string_scope.
Open Scope Z_scope.

(** ** Rows of one event *)

(** Two rows of one event differ only in its publishing. *)
Record same_event (e e' : OutboxEvent) : Prop := {
  sv_id : ob_event_id e' = ob_event_id e;
  sv_tenant : ob_tenant_id e' = ob_tenant_id e;
  sv_topic : ob_topic e' = ob_topic e;
  sv_payload : ob_payload e' = ob_payload e;
  sv_generation : ob_generation e' = ob_generation e
}.
#[global] Instance same_event_preorder : PreOrder same_event.
Proof. split; [by split|]. intros e1 e2 e3 [] []. split; congruence. Qed.


Section publisher.
Context (cfg : StoreConfig) (c : InvokeAsyncConfig) (owner : string) (steps : nat → PublishStep).










(** *** Releasing a claim *)








(** *** Marking a row sent *)



(** *** One event *)




End publisher.

(** ** One pass *)






