(* ===== verification/UsageMeter.v ===== *)
(** * The usage meter

    [crates/application/src/usage/mod.rs]: admission by the journal, the collector as the
    accesses it makes one after the other, and the sink the services emit into. Processes that
    share a data directory interleave between those accesses; [UsageWorld] is all of them. *)

From S2P Require Import Prelude Usage UsageJournal UsageLedger Store Retry AsyncRun AsyncFront.

Open Scope string_scope.
Open Scope Z_scope.

(** [crates/application/src/usage/mod.rs:107-114 MeteringAdmission] *)
Inductive MeteringAdmission : Type := AdmittedMetered | Unmetered (refusal : JournalRefusal.t).

(** [crates/application/src/usage/mod.rs:70-78 CollectReport] *)
Record CollectReport := mkCollectReport {
  co_batches : Z;
  co_read : Z;
  co_inserted : Z;
  co_duplicates : Z;
  co_cursor_seq : Z
}.
#[global] Instance CollectReport_eta : Eta CollectReport := λ r,
  mkCollectReport (co_batches r) (co_read r) (co_inserted r) (co_duplicates r) (co_cursor_seq r).

(** [crates/application/src/usage/mod.rs:80-90 CollectorStatus] *)
Record CollectorStatus := mkCollectorStatus {
  cs_runs : Z;
  cs_last_run_at : option Timestamp;
  cs_last_success_at : option Timestamp;
  cs_last_error : option string;
  cs_delivered : Z;
  cs_inserted : Z;
  cs_duplicates : Z
}.
#[global] Instance CollectorStatus_eta : Eta CollectorStatus := λ r,
  mkCollectorStatus (cs_runs r) (cs_last_run_at r) (cs_last_success_at r) (cs_last_error r)
    (cs_delivered r) (cs_inserted r) (cs_duplicates r).

Module Meters.

Section meter.
Context `{UsageCodec} (c : UsageConfig).

(** ** Admission *)

(** What the journal and its file do during one admission: two accesses, and the probe between. *)
Record AdmitAccess := mkAdmitAccess {
  aa_first : DbAccess;
  aa_free : bool;
  aa_opens : result string unit;
  aa_second : DbAccess
}.

(** [crates/application/src/usage/mod.rs:213-222 admit (part)] The refusal, after one retry of an
    unavailable journal that can be opened again. *)
Definition admit_journal (a : AdmitAccess) : jop (result JournalRefusal.t unit) := λ j db,
  match admission (aa_first a) j db with
  | (Err JournalRefusal.Unavailable, j, db) =>
      match probe (aa_free a) (aa_opens a) j with
      | (true, j) => admission (aa_second a) j db
      | (false, j) => (Err JournalRefusal.Unavailable, j, db)
      end
  | r => r
  end.

(** [crates/application/src/usage/mod.rs:235-246 admit (part)] *)
Definition refusal_message (r : JournalRefusal.t) : string :=
  match r with
  | JournalRefusal.Full => "the usage journal is full: new invocations are refused until the collector catches up"
  | JournalRefusal.Unavailable => "the usage journal is unavailable: new invocations are refused until it can be written"
  end.

(** [crates/application/src/usage/mod.rs:199-236 admit] *)
Definition admit_ (a : AdmitAccess) : jop (result AppError MeteringAdmission) := λ j db,
  match admit_journal a j db with
  | (Ok _, j, db) => (Ok AdmittedMetered, j, db)
  | (Err refusal, j, db) =>
      match uc_on_journal_full c with
      | JournalFullPolicy.AcceptUnmetered => (Ok (Unmetered refusal), j, db)
      | JournalFullPolicy.Refuse => (Err (UsageRefused refusal (refusal_message refusal)), j, db)
      end
  end.

(** ** The collector

    The loop of [collect_locked] is three accesses: it reads a batch, delivers it and commits
    the cursor. [CollectPc] says which comes next. *)
Inductive CollectPc : Type :=
| Reading
| Delivering (cursor last_seq : Z) (last_chain : string) (events : list UsageEvent)
| Committing (cursor last_seq : Z) (last_chain : string).

(** What a step of the loop leads to: another step, or the end of the collection. *)
Inductive CollectNext : Type :=
| Goes (pc : CollectPc) (report : CollectReport)
| Ends (r : result string CollectReport).

(** [crates/application/src/usage/mod.rs:286-292 collect_locked (part)] *)
Definition collect_read (w : DbAccess) (report : CollectReport) : jop CollectNext := λ j db,
  match read_batch w (uc_collect_batch c) j db with
  | (Err e, j, db) => (Ends (Err e), j, db)
  | (Ok (cursor, _, entries), j, db) =>
      let report := report <| co_cursor_seq := cursor |> in
      match last entries with
      | None => (Ends (Ok report), j, db)
      | Some e => (Goes (Delivering cursor (je_seq e) (je_chain e) (je_event <$> entries)) report, j, db)
      end
  end.

(** [crates/application/src/usage/mod.rs:293-297 collect_locked (part)] *)
Definition collect_deliver (w : DbAccess) (now : Timestamp) (cursor last_seq : Z) (last_chain : string)
    (events : list UsageEvent) (report : CollectReport) (l : UsageTable) : CollectNext * UsageTable :=
  match accept_events w events now l with
  | Err e => (Ends (Err e), l)
  | Ok (accepted, l) =>
      (Goes (Committing cursor last_seq last_chain)
         (report <| co_batches ::= λ n, n + 1 |>
                 <| co_read ::= λ n, n + Z.of_nat (length events) |>
                 <| co_inserted ::= λ n, n + ar_inserted accepted |>
                 <| co_duplicates ::= λ n, n + ar_duplicates accepted |>), l)
  end.

(** [crates/application/src/usage/mod.rs:316-320 collect_locked (part)] *)
Definition collect_commit (w : DbAccess) (cursor last_seq : Z) (last_chain : string)
    (report : CollectReport) : jop CollectNext := λ j db,
  match commit_cursor w cursor last_seq last_chain j db with
  | (Err e, j, db) => (Ends (Err e), j, db)
  | (Ok false, j, db) => (Goes Reading report, j, db)
  | (Ok true, j, db) => (Goes Reading (report <| co_cursor_seq := last_seq |>), j, db)
  end.

(** [crates/application/src/usage/mod.rs:285-321 collect_locked (part)] *)
Definition collect_step (w : DbAccess) (now : Timestamp) (pc : CollectPc) (report : CollectReport)
    (j : UsageJournal) (db : JournalDb) (l : UsageTable)
    : CollectNext * UsageJournal * JournalDb * UsageTable :=
  match pc with
  | Reading => (collect_read w report j db, l)
  | Delivering cursor last_seq last_chain events =>
      let '(n, l) := collect_deliver w now cursor last_seq last_chain events report l in (n, j, db, l)
  | Committing cursor last_seq last_chain =>
      (collect_commit w cursor last_seq last_chain report j db, l)
  end.

Definition no_report : CollectReport := mkCollectReport 0 0 0 0 0.

(** [crates/application/src/usage/mod.rs:284-321 collect_locked (part)] The loop of a process that
    is alone, the [i]-th access being [w i]; [None] when the fuel runs out. *)
Fixpoint collect_loop (fuel : nat) (w : nat → DbAccess) (now : nat → Timestamp) (i : nat)
    (pc : CollectPc) (report : CollectReport) (j : UsageJournal) (db : JournalDb) (l : UsageTable)
    : option (result string CollectReport * UsageJournal * JournalDb * UsageTable) :=
  match fuel with
  | O => None
  | S fuel =>
      match collect_step (w i) (now i) pc report j db l with
      | (Goes pc report, j, db, l) => collect_loop fuel w now (S i) pc report j db l
      | (Ends r, j, db, l) => Some (r, j, db, l)
      end
  end.

(** [crates/application/src/usage/mod.rs:268-307 collect_locked] *)
Definition collect_locked (fuel : nat) (free : bool) (opens : result string unit) (w : nat → DbAccess)
    (now : nat → Timestamp) (j : UsageJournal) (db : JournalDb) (l : UsageTable)
    : option (result string CollectReport * UsageJournal * JournalDb * UsageTable) :=
  collect_loop fuel w now 0 Reading no_report (probe free opens j).2 db l.

(** [crates/application/src/usage/mod.rs:252-264 collect (part)] Before the loop; [paused] is
    whether the pause file of a dev profile is there, and its name. *)
Definition collect_begin (paused : option string) (now : Timestamp) (s : CollectorStatus)
    : result string unit * CollectorStatus :=
  let s := s <| cs_runs ::= λ n, n + 1 |> <| cs_last_run_at := Some now |> in
  match paused with
  | Some flag =>
      let e := "collector paused by " +:+ flag +:+ " (dev profile, test only)" in
      (Err e, s <| cs_last_error := Some e |>)
  | None => (Ok tt, s)
  end.

(** [crates/application/src/usage/mod.rs:265-279 collect (part)] After it. *)
Definition collect_end (r : result string CollectReport) (now : Timestamp) (s : CollectorStatus)
    : CollectorStatus :=
  match r with
  | Ok r => s <| cs_last_success_at := Some now |> <| cs_last_error := None |>
              <| cs_delivered ::= λ n, n + co_read r |>
              <| cs_inserted ::= λ n, n + co_inserted r |>
              <| cs_duplicates ::= λ n, n + co_duplicates r |>
  | Err e => s <| cs_last_error := Some e |>
  end.
End meter.
End Meters.
