(* ===== verification/UsageWorld.v ===== *)
(** * Processes over one usage journal

    The journal and the ledger of a data directory with the processes that append to it and
    collect it, any number of them, interleaved at every access to a database: appends, the three
    accesses of a collection, crashes at any point and restarts. The invariant says where every
    event ever journaled is. *)

From S2P Require Import Prelude Usage UsageJournal UsageLedger Store Retry AsyncRun AsyncFront UsageMeter.

Open Scope string_scope.
Open Scope Z_scope.

(** ** Definitions *)

(** A process: its handle of the journal, and where its collection is, if one runs. *)
Record Site := mkSite {
  st_journal : UsageJournal;
  st_collect : option (Meters.CollectPc * CollectReport)
}.
#[global] Instance Site_eta : Eta Site := λ r, mkSite (st_journal r) (st_collect r).

(** What all of them share, and what was written so far: every row of the journal with its event,
    in order, whether it is still there or not. *)
Record UsageWorld := mkUsageWorld {
  uw_db : JournalDb;
  uw_ledger : UsageTable;
  uw_sites : gmap nat Site;
  uw_written : list (UsageEvent * JournalRow)
}.
#[global] Instance UsageWorld_eta : Eta UsageWorld := λ r,
  mkUsageWorld (uw_db r) (uw_ledger r) (uw_sites r) (uw_written r).

Definition empty_usage_world : UsageWorld := mkUsageWorld empty_journal empty_usage_table ∅ [].

(** Commands: a process starts, appends an event, starts a collection, makes the next access of
    its collection, probes the journal, loses its journal to a test hook, or dies. *)
Inductive ucmd : Type :=
| UStart (p : nat) (opens : result string unit)
| URecord (p : nat) (w : DbAccess) (e : UsageEvent) (now : Timestamp)
| UCollect (p : nat) (free : bool) (opens : result string unit)
| UStep (p : nat) (w : DbAccess) (now : Timestamp)
| UProbe (p : nat) (free : bool) (opens : result string unit)
| UForce (p : nat) (unavailable : bool)
| URefuse (unavailable : bool)
| UCrash (p : nat).

Section world.
Context `{UsageCodec} (c : UsageConfig).

(** [crates/application/src/usage/mod.rs:424-429 record] The journal part of the sink. *)
Definition record (p : nat) (w : DbAccess) (e : UsageEvent) (now : Timestamp) (s : UsageWorld) : UsageWorld :=
  match uw_sites s !! p with
  | None => s
  | Some site =>
      match append w e now (st_journal site) (uw_db s) with
      | (r, j, db) =>
          let s := s <| uw_db := db |> <| uw_sites ::= <[p := site <| st_journal := j |>]> |> in
          match r, last (jd_rows db) with
          | Ok _, Some row => s <| uw_written ::= λ h, (h ++ [(e, row)])%list |>
          | _, _ => s
          end
      end
  end.

Definition step_collect (p : nat) (w : DbAccess) (now : Timestamp) (s : UsageWorld) : UsageWorld :=
  match uw_sites s !! p with
  | Some (mkSite j (Some (pc, report))) =>
      match Meters.collect_step c w now pc report j (uw_db s) (uw_ledger s) with
      | (next, j, db, l) =>
          let collect := match next with
            | Meters.Goes pc report => Some (pc, report) | Meters.Ends _ => None end in
          s <| uw_db := db |> <| uw_ledger := l |> <| uw_sites ::= <[p := mkSite j collect]> |>
      end
  | _ => s
  end.

Definition run_ucmd (cmd : ucmd) (s : UsageWorld) : UsageWorld :=
  match cmd with
  | UStart p opens =>
      if uw_sites s !! p is Some _ then s
      else s <| uw_sites ::= <[p := mkSite (open_journal (UsageConf.limits c) opens) None]> |>
  | URecord p w e now => record p w e now s
  | UCollect p free opens =>
      match uw_sites s !! p with
      | Some (mkSite j None) => s <| uw_sites ::= <[p := mkSite (probe free opens j).2
                                      (Some (Meters.Reading, Meters.no_report))]> |>
      | _ => s
      end
  | UStep p w now => step_collect p w now s
  | UProbe p free opens =>
      s <| uw_sites ::= alter (λ site, site <| st_journal ::= λ j, (probe free opens j).2 |>) p |>
  | UForce p b => s <| uw_sites ::= alter (λ site, site <| st_journal ::= force_unavailable b |>) p |>
  | URefuse b => s <| uw_ledger ::= λ l, l <| ul_unavailable := b |> |>
  | UCrash p => s <| uw_sites ::= delete p |>
  end.
Definition run_ucmds (cmds : list ucmd) (s : UsageWorld) : UsageWorld :=
  foldl (λ s cmd, run_ucmd cmd s) s cmds.

(** The chain of the rows after [previous]. *)
Fixpoint chained (previous : string) (rows : list JournalRow) : Prop :=
  match rows with
  | [] => True
  | r :: rows => jr_chain r = chain_next previous (jr_body r) ∧ chained (jr_chain r) rows
  end.

(** The chain and the sequence after a list of rows. *)
Definition chain_after (rows : list JournalRow) : string :=
  default GENESIS_CHAIN (jr_chain <$> last rows).
Definition seq_after (rows : list JournalRow) : Z := default 0 (jr_seq <$> last rows).

Definition row_sum (rows : list JournalRow) : Z := foldr Z.add 0 (jr_body_bytes <$> rows).

(** A row holds its event, under a sequence above the one before. *)
Record row_holds (e : UsageEvent) (r : JournalRow) : Prop := {
  rh_body : event_json e = Ok (jr_body r);
  rh_id : jr_event_id r = ue_event_id e;
  rh_bytes : jr_body_bytes r = Z.of_nat (String.length (jr_body r))
}.

Definition written_rows (h : list (UsageEvent * JournalRow)) : list JournalRow := h.*2.

(** What was ever written: rows that hold their events, chained, under growing sequences. *)
Record history_ok (h : list (UsageEvent * JournalRow)) : Prop := {
  hi_holds : Forall (λ er, row_holds er.1 er.2) h;
  hi_chained : chained GENESIS_CHAIN (written_rows h);
  hi_sorted : StronglySorted Z.lt (0 :: (jr_seq <$> written_rows h))
}.

(** The database after [d] rows were collected. *)
Record db_after (h : list (UsageEvent * JournalRow)) (d : nat) (db : JournalDb) : Prop := {
  da_collected : (d ≤ length h)%nat;
  da_rows : jd_rows db = drop d (written_rows h);
  da_cursor_seq : jd_cursor_seq db = seq_after (take d (written_rows h));
  da_cursor_chain : jd_cursor_chain db = chain_after (take d (written_rows h));
  da_sequence : jd_sequence db = seq_after (written_rows h);
  da_pending_events : jd_pending_events db = Z.of_nat (length (jd_rows db));
  da_pending_bytes : jd_pending_bytes db = row_sum (jd_rows db)
}.

(** The ledger that took the first [n] events: under an id, the first event that had it. *)
Definition first_with (id : string) (h : list (UsageEvent * JournalRow)) : option (UsageEvent * JournalRow) :=
  List.find (λ er, ue_event_id er.1 == id) h.
Definition ledger_holds (h : list (UsageEvent * JournalRow)) (rows : gmap string LedgerRow) : Prop :=
  ∀ id, match rows !! id, first_with id h with
        | None, None => True
        | Some r, Some (e, jr) => ∃ received, r = row_of received e (jr_body jr)
        | _, _ => False
        end.

(** A collection under way: what it read is a segment of what was written, starting at or before
    the cursor, and it commits only what the ledger took. *)
Definition segment (h : list (UsageEvent * JournalRow)) (i k : nat) (cursor last_seq : Z) (last_chain : string) : Prop :=
  (i < k ≤ length h)%nat ∧ cursor = seq_after (take i (written_rows h)) ∧
  last_seq = seq_after (take k (written_rows h)) ∧ last_chain = chain_after (take k (written_rows h)).
Definition collecting (h : list (UsageEvent * JournalRow)) (d n : nat) (pc : Meters.CollectPc) : Prop :=
  match pc with
  | Meters.Reading => True
  | Meters.Delivering cursor last_seq last_chain events =>
      ∃ i k, segment h i k cursor last_seq last_chain ∧ (i ≤ d)%nat ∧
        events = (drop i (take k h)).*1
  | Meters.Committing cursor last_seq last_chain =>
      ∃ i k, segment h i k cursor last_seq last_chain ∧ (k ≤ n)%nat
  end.

(** The bounds of the journal are integers of a TOML file. *)
Record bounds_ok : Prop := {
  bo_events : 0 ≤ uc_journal_max_events c ≤ i64_max;
  bo_bytes : 0 ≤ uc_journal_max_bytes c ≤ i64_max
}.

Record usage_wf (s : UsageWorld) (d n : nat) : Prop := {
  uf_history : history_ok (uw_written s);
  uf_db : db_after (uw_written s) d (uw_db s);
  uf_room : jd_pending_events (uw_db s) ≤ uc_journal_max_events c ∧
    jd_pending_bytes (uw_db s) ≤ uc_journal_max_bytes c;
  uf_delivered : (d ≤ n ≤ length (uw_written s))%nat;
  uf_ledger : ledger_holds (take n (uw_written s)) (ul_events (uw_ledger s));
  uf_sites : map_Forall (λ _ site, uj_limits (st_journal site) = UsageConf.limits c ∧
    match st_collect site with
    | Some (pc, _) => collecting (uw_written s) d n pc
    | None => True
    end) (uw_sites s)
}.

(** ** Lemmas *)

(** *** Sorted sequences and chains *)

Lemma sorted_lookup_lt (l : list Z) i j a b :
  StronglySorted Z.lt l → (i < j)%nat → l !! i = Some a → l !! j = Some b → a < b.
Proof.
  intros Hs. revert i j. induction Hs as [|x l Hs IH Hx]; intros i j Hij Hi Hj; [done|].
  destruct j as [|j]; [lia|]. destruct i as [|i]; cbn in *.
  - injection Hi as ->. by eapply Forall_lookup_1 in Hj; [|exact Hx].
  - eapply (IH i j); [lia|done..].
Qed.

Lemma last_drop_lt {A} (l : list A) d : (d < length l)%nat → last (drop d l) = last l.
Proof.
  intros Hd. rewrite <-(take_drop d l) at 2. rewrite last_app.
  destruct (last (drop d l)) eqn:E; [done|]. apply last_None in E.
  apply (f_equal length) in E. rewrite length_drop in E. cbn in E. lia.
Qed.

Lemma drop_take_min {A} (l : list A) d k : take k (drop d l) = drop d (take (d + k) l).
Proof. by rewrite skipn_firstn_comm, Nat.add_comm, Nat.add_sub. Qed.

Lemma filter_suffix {A} (p : A → bool) (a b : list A) :
  Forall (λ x, p x = false) a → Forall (λ x, p x = true) b → List.filter p (a ++ b)%list = b.
Proof.
  intros Ha Hb. induction Ha as [|x a Hx _ IH]; cbn; [|by rewrite Hx].
  induction Hb as [|y b Hy _ IH]; cbn; [done|]. by rewrite Hy, IH.
Qed.

Lemma filter_prefix {A} (p : A → bool) (a b : list A) :
  Forall (λ x, p x = true) a → Forall (λ x, p x = false) b → List.filter p (a ++ b)%list = a.
Proof.
  intros Ha Hb. induction Ha as [|x a Hx _ IH]; cbn.
  - induction Hb as [|y b Hy _ IH]; cbn; [done|]. by rewrite Hy.
  - by rewrite Hx, IH.
Qed.

Lemma chained_app previous a b :
  chained previous (a ++ b)%list ↔
  chained previous a ∧ chained (default previous (jr_chain <$> last a)) b.
Proof.
  revert previous. induction a as [|r a IH]; intros previous; cbn [app chained]; [by cbn; naive_solver|].
  rewrite IH. assert (He : default previous (jr_chain <$> last (r :: a))
    = default (jr_chain r) (jr_chain <$> last a)).
  { destruct a as [|r' a]; [done|]. change (last (r :: r' :: a)) with (last (r' :: a)).
    destruct (last (r' :: a)) eqn:E; [done|]. by apply last_None in E. }
  rewrite He. tauto.
Qed.

Section rows.
Variable (h : list (UsageEvent * JournalRow)).
Hypothesis (Hh : history_ok h).

Lemma seq_after_lookup i :
  (i ≤ length h)%nat → (0 :: (jr_seq <$> written_rows h)) !! i = Some (seq_after (take i (written_rows h))).
Proof.
  intros Hi. unfold seq_after. destruct i as [|i]; [by rewrite take_0|].
  assert (Hl : is_Some (written_rows h !! i)).
  { apply lookup_lt_is_Some. unfold written_rows. rewrite length_fmap. lia. }
  destruct Hl as [r Hr]. rewrite lookup_cons_ne_0, list_lookup_fmap; [|done]. cbn [pred]. rewrite Hr.
  by rewrite (take_S_r _ _ r), last_snoc.
Qed.

Lemma seq_after_lt i j :
  (i < j ≤ length h)%nat →
  seq_after (take i (written_rows h)) < seq_after (take j (written_rows h)).
Proof.
  intros Hij. eapply (sorted_lookup_lt _ i j); [apply Hh|lia|apply seq_after_lookup; lia..].
Qed.

Lemma seq_after_inj i j :
  (i ≤ length h)%nat → (j ≤ length h)%nat →
  seq_after (take i (written_rows h)) = seq_after (take j (written_rows h)) → i = j.
Proof.
  intros Hi Hj He. destruct (Nat.lt_trichotomy i j) as [Hlt|[?|Hlt]]; [|done|].
  - pose proof (seq_after_lt i j). lia.
  - pose proof (seq_after_lt j i). lia.
Qed.

(** The rows at or after a position, and before it, by their sequences. *)
Lemma rows_from k r : (k ≤ length h)%nat → r ∈ drop k (written_rows h) →
  seq_after (take k (written_rows h)) < jr_seq r.
Proof.
  intros Hk [j Hj]%list_elem_of_lookup. rewrite lookup_drop in Hj.
  pose proof (lookup_lt_Some _ _ _ Hj) as Hlt. unfold written_rows in Hlt. rewrite length_fmap in Hlt.
  eapply (sorted_lookup_lt _ k (S (k + j))); [apply Hh|lia|apply seq_after_lookup; lia|].
  rewrite lookup_cons_ne_0, list_lookup_fmap; [|done]. cbn [pred]. by rewrite Hj.
Qed.

Lemma rows_until k r : (k ≤ length h)%nat → r ∈ take k (written_rows h) →
  jr_seq r ≤ seq_after (take k (written_rows h)).
Proof.
  intros Hk [j Hj]%list_elem_of_lookup. apply lookup_take_Some in Hj as [Hj Hlt].
  assert (Hr : (0 :: (jr_seq <$> written_rows h)) !! (S j) = Some (jr_seq r)).
  { rewrite lookup_cons_ne_0, list_lookup_fmap; [|done]. cbn [pred]. by rewrite Hj. }
  destruct (decide (S j = k)) as [<-|Hne].
  - rewrite seq_after_lookup in Hr by lia. injection Hr as ->. done.
  - apply Z.lt_le_incl. eapply (sorted_lookup_lt _ (S j) k); [apply Hh|lia|done|].
    apply seq_after_lookup. lia.
Qed.
End rows.
End world.
