(* ===== verification/UsageInv.v ===== *)
(** * Where every usage event is

    Every command of [UsageWorld] keeps the invariant: the journal holds exactly the events not
    yet collected, within its bounds and under an unbroken chain, and the ledger holds each of
    the others once. *)

From S2P Require Import Prelude Usage UsageJournal UsageLedger Store Retry AsyncRun AsyncFront UsageMeter.
From S2P Require Import UsageWorld.

Open Scope string_scope.
Open Scope Z_scope.

Section usage_inv.
Context `{HC : UsageCodec} {HL : UsageCodecLaws} (c : UsageConfig).

(** ** Accesses *)

Lemma with_conn_spec {A} w (f : JournalDb → A * JournalDb) j db r j' db' :
  with_conn w f j db = (r, j', db') →
  uj_limits j' = uj_limits j ∧ uj_lost_unavailable j' = uj_lost_unavailable j ∧
  match r with
  | Ok a => j' = j ∧ f db = (a, db') ∧ uj_open j = true ∧ uj_forced_unavailable j = false ∧ w = Works
  | Err _ => db' = db
  end.
Proof.
  unfold with_conn. intros H. destruct (uj_forced_unavailable j) eqn:?; [by injection H as <- <- <-|].
  destruct w as [| |msg closes]; [|by injection H as <- <- <-|].
  - destruct (uj_open j) eqn:?; cbn in H; [|by injection H as <- <- <-].
    destruct (f db) as [a db1] eqn:?. by injection H as <- <- <-.
  - destruct (uj_open j); cbn in H; by injection H as <- <- <-.
Qed.

Lemma with_conn_works {A} (f : JournalDb → A * JournalDb) j db :
  uj_open j = true → uj_forced_unavailable j = false →
  with_conn Works f j db = (Ok (f db).1, j, (f db).2).
Proof. intros Ho Hf. unfold with_conn. rewrite Hf, Ho. cbn. by destruct (f db). Qed.

(** What an append answers, and what it did. *)
Lemma append_spec w e now j db r j' db' :
  append w e now j db = (r, j', db') →
  uj_limits j' = uj_limits j ∧
  match r with
  | Ok seq => ∃ body, event_json e = Ok body ∧
      append_tx (uj_limits j) (ue_event_id e) (ue_tenant_id e) body now db = (Some seq, db') ∧
      uj_lost_unavailable j' = uj_lost_unavailable j
  | Err JournalRefusal.Full => ∃ body, event_json e = Ok body ∧
      append_tx (uj_limits j) (ue_event_id e) (ue_tenant_id e) body now db = (None, db') ∧
      uj_lost_unavailable j' = uj_lost_unavailable j
  | Err JournalRefusal.Unavailable => db' = db ∧
      uj_lost_unavailable j' = uj_lost_unavailable (note_unavailable_loss (ue_tenant_id e) j)
  end.
Proof.
  unfold append. intros H. destruct (event_json e) as [body|]; [|by injection H as <- <- <-].
  destruct (with_conn _ _ _ _) as [[a j1] db1] eqn:Hw. apply with_conn_spec in Hw as (Hl & Hlost & Hw).
  destruct a as [[seq|]|]; injection H as <- <- <-; cbn.
  - destruct Hw as (-> & ? & _). eauto 6.
  - destruct Hw as (-> & ? & _). eauto 6.
  - by rewrite Hlost.
Qed.

(** The transaction of an append: a loss on record, or one more row. *)
Lemma append_tx_spec limits id tenant body now db r db' :
  append_tx limits id tenant body now db = (r, db') →
  let bytes := Z.of_nat (String.length body) in
  match r with
  | None => no_room limits bytes db = true ∧
      db' = db <| jd_losses ::= λ m, <[tenant := unwrap_or (m !! tenant) 0 + 1]> m |>
  | Some seq => no_room limits bytes db = false ∧
      seq = Z.max (jd_sequence db) (unwrap_or (jr_seq <$> last (jd_rows db)) 0) + 1 ∧
      let row := mkJournalRow seq id tenant body bytes (chain_next (last_chain db) body) now in
      db' = db <| jd_rows ::= λ l, (l ++ [row])%list |> <| jd_sequence := seq |>
               <| jd_pending_events ::= λ n, n + 1 |> <| jd_pending_bytes ::= λ n, n + bytes |>
  end.
Proof.
  unfold append_tx. destruct (no_room _ _ _) eqn:?; intros H; injection H as <- <-; by repeat split.
Qed.

(** ** History *)

Lemma written_rows_app h er : written_rows (h ++ [er])%list = (written_rows h ++ [er.2])%list.
Proof. unfold written_rows. by rewrite fmap_app. Qed.

Lemma length_written h : length (written_rows h) = length h.
Proof. apply length_fmap. Qed.

Lemma take_written_snoc h er k :
  (k ≤ length h)%nat → take k (written_rows (h ++ [er])%list) = take k (written_rows h).
Proof. intros Hk. rewrite written_rows_app, take_app_le; [done|]. by rewrite length_written. Qed.

Lemma seq_after_le h i j :
  history_ok h → (i ≤ j ≤ length h)%nat →
  seq_after (take i (written_rows h)) ≤ seq_after (take j (written_rows h)).
Proof.
  intros Hh Hij. destruct (decide (i = j)) as [->|]; [done|].
  apply Z.lt_le_incl, (seq_after_lt h Hh). lia.
Qed.

Lemma seq_after_nonneg h : history_ok h → 0 ≤ seq_after (written_rows h).
Proof.
  intros Hh. pose proof (seq_after_le h 0 (length h) Hh ltac:(lia)) as Hle.
  rewrite take_0, <-length_written, firstn_all in Hle. done.
Qed.

(** The rows of the journal end where what was written ends. *)
Lemma rows_end h d db : db_after h d db → last_chain db = chain_after (written_rows h) ∧
  unwrap_or (jr_seq <$> last (jd_rows db)) 0 ≤ Z.max 0 (seq_after (written_rows h)).
Proof.
  intros Hdb. pose proof (da_collected _ _ _ Hdb) as Hd. unfold last_chain.
  rewrite (da_rows _ _ _ Hdb), (da_cursor_chain _ _ _ Hdb).
  destruct (decide (d = length h)) as [->|Hne].
  - rewrite <-length_written, drop_all, firstn_all. cbn. split; [done|lia].
  - rewrite last_drop_lt by (rewrite length_written; lia). unfold chain_after, seq_after.
    destruct (last (written_rows h)) eqn:E; cbn; [split; [done|lia]|].
    apply last_None in E. pose proof (length_written h) as He. rewrite E in He. cbn in He. lia.
Qed.

Lemma history_snoc h e r :
  history_ok h → row_holds e r → jr_chain r = chain_next (chain_after (written_rows h)) (jr_body r) →
  seq_after (written_rows h) < jr_seq r → history_ok (h ++ [(e, r)])%list.
Proof.
  intros [Hho Hch Hso] Hr Hchain Hseq. split.
  - apply Forall_app. by split; [|apply Forall_singleton].
  - rewrite written_rows_app. apply chained_app. done.
  - rewrite written_rows_app, fmap_app, app_comm_cons. apply StronglySorted_app_2; [|done|repeat constructor].
    intros a b Ha ->%list_elem_of_singleton. apply list_elem_of_lookup in Ha as [i Hi].
    assert (Hl : (i ≤ length h)%nat).
    { apply lookup_lt_Some in Hi. cbn in Hi. rewrite length_fmap, length_written in Hi. lia. }
    rewrite (seq_after_lookup h) in Hi by done. injection Hi as <-. cbn.
    eapply Z.le_lt_trans; [|exact Hseq].
    rewrite <-(firstn_all (written_rows h)) at 2. rewrite length_written. apply seq_after_le; [by split|lia].
Qed.

Lemma row_sum_app a b : row_sum (a ++ b)%list = row_sum a + row_sum b.
Proof. unfold row_sum. rewrite fmap_app, foldr_app. induction (jr_body_bytes <$> a); cbn; lia. Qed.

Lemma row_sum_nonneg h k : history_ok h → 0 ≤ row_sum (drop k (written_rows h)).
Proof.
  intros [Hho _ _]. unfold written_rows. rewrite <-fmap_drop. apply (Forall_drop _ k) in Hho.
  unfold row_sum. induction Hho as [|er l Her Hl IH]; cbn; [done|]. rewrite (rh_bytes _ _ Her). lia.
Qed.

Lemma db_after_snoc h d db e now body seq db' limits :
  history_ok h → db_after h d db → event_json e = Ok body →
  append_tx limits (ue_event_id e) (ue_tenant_id e) body now db = (Some seq, db') →
  ∃ row, last (jd_rows db') = Some row ∧ history_ok (h ++ [(e, row)])%list ∧
    db_after (h ++ [(e, row)])%list d db'.
Proof.
  intros Hh Hdb Hbody Htx. apply append_tx_spec in Htx as (_ & Hseq & ->).
  destruct (rows_end h d db Hdb) as [Hchain Hlast]. pose proof (seq_after_nonneg h Hh) as H0.
  pose proof Hdb as [Hd Hrows Hcs Hcc Hsq Hpe Hpb].
  set (row := mkJournalRow _ _ _ _ _ _ _). exists row.
  assert (Hrow : seq_after (written_rows h) < jr_seq row) by (cbn; rewrite Hseq, Hsq; lia).
  assert (Hlen : (d ≤ length (written_rows h))%nat) by by rewrite length_written.
  split_and!; [by cbn; rewrite last_snoc|apply history_snoc; [done| |by cbn; rewrite Hchain|done]; by split|].
  split; cbn.
  - rewrite length_app. cbn. lia.
  - by rewrite Hrows, written_rows_app, drop_app_le.
  - by rewrite take_written_snoc.
  - by rewrite take_written_snoc.
  - rewrite written_rows_app. unfold seq_after. by rewrite last_snoc.
  - rewrite Hpe, length_app. cbn. lia.
  - rewrite Hpb. symmetry. etransitivity; [apply row_sum_app|]. f_equal. apply Z.add_0_r.
Qed.

(** ** Delivery *)

Lemma first_with_app id a b :
  first_with id (a ++ b)%list = match first_with id a with Some er => Some er | None => first_with id b end.
Proof.
  unfold first_with. induction a as [|er a IH]; cbn; [done|]. by destruct (bool_decide _).
Qed.

Lemma first_with_take id (h : list (UsageEvent * JournalRow)) i n :
  (i ≤ n)%nat → first_with id (take n h) = None → first_with id (drop i (take n h)) = None.
Proof.
  intros Hi Hn. rewrite <-(take_drop i (take n h)), first_with_app in Hn.
  by destruct (first_with id (take i (take n h))).
Qed.

(** A segment that starts within what the ledger took adds what lies beyond it. *)
Lemma first_with_segment id (h : list (UsageEvent * JournalRow)) n i k :
  (i ≤ n)%nat → (n ≤ length h)%nat → (k ≤ length h)%nat →
  first_with id (take n h ++ drop i (take k h))%list = first_with id (take (Nat.max n k) h).
Proof.
  intros Hi Hn Hk. destruct (decide (k ≤ n)%nat) as [Hkn|Hkn].
  - rewrite Nat.max_l by done. rewrite first_with_app.
    destruct (first_with id (take n h)) eqn:E; [done|].
    assert (He : take n h = (take k h ++ drop k (take n h))%list).
    { rewrite <-(take_drop k (take n h)) at 1. by rewrite firstn_firstn, Nat.min_l. }
    rewrite He, first_with_app in E. destruct (first_with id (take k h)) eqn:Ek; [done|].
    destruct (decide (i ≤ k)%nat); [by apply first_with_take|].
    rewrite drop_ge; [done|]. rewrite length_take. lia.
  - rewrite Nat.max_r by lia.
    assert (He : take k h = (take n h ++ drop n (take k h))%list).
    { rewrite <-(take_drop n (take k h)) at 1. by rewrite firstn_firstn, Nat.min_l by lia. }
    revert He. generalize (drop n (take k h)). intros rest ->.
    rewrite drop_app, length_take, Nat.min_l by done. replace (i - n)%nat with 0%nat by lia.
    rewrite drop_0, !first_with_app. destruct (first_with id (take n h)) eqn:E; [done|].
    by rewrite first_with_take.
Qed.

Lemma ledger_holds_eq a b rows :
  (∀ id, first_with id a = first_with id b) → ledger_holds a rows → ledger_holds b rows.
Proof. intros He Ha id. rewrite <-He. apply Ha. Qed.

Lemma ledger_holds_snoc g rows e r received :
  ledger_holds g rows → row_holds e r →
  ledger_holds (g ++ [(e, r)])%list
    (match rows !! ue_event_id e with
     | None => <[ue_event_id e := row_of received e (jr_body r)]> rows | Some _ => rows end).
Proof.
  intros Hg Hr id. specialize (Hg id) as Hid. rewrite first_with_app.
  assert (H1 : first_with id [(e, r)] = if bool_decide (ue_event_id e = id) then Some (e, r) else None) by done.
  rewrite H1.
  destruct (decide (ue_event_id e = id)) as [<-|Hne].
  - rewrite bool_decide_eq_true_2 by done. destruct (rows !! ue_event_id e) eqn:E; rewrite ?E in Hid.
    + rewrite E. by destruct (first_with _ g) as [[]|].
    + rewrite lookup_insert_eq. destruct (first_with _ g) as [[]|]; [done|]. by eexists.
  - rewrite bool_decide_eq_false_2 by done.
    assert (Hl : match rows !! ue_event_id e with
      | None => <[ue_event_id e := row_of received e (jr_body r)]> rows | Some _ => rows end !! id = rows !! id).
    { destruct (rows !! ue_event_id e); [done|]. by rewrite lookup_insert_ne. }
    rewrite Hl. by destruct (first_with id g).
Qed.

Lemma insert_events_holds received seg g rep rows :
  Forall (λ er, row_holds er.1 er.2) seg → ledger_holds g rows →
  ∃ rep' rows', insert_events received seg.*1 rep rows = Ok (rep', rows') ∧
    ledger_holds (g ++ seg)%list rows' ∧
    ar_inserted rep' + ar_duplicates rep' = ar_inserted rep + ar_duplicates rep + Z.of_nat (length seg) ∧
    ar_inserted rep' - Z.of_nat (size rows') = ar_inserted rep - Z.of_nat (size rows).
Proof.
  intros Hs. revert g rep rows. induction Hs as [|[e r] seg Hr Hs IH]; intros g rep rows Hg.
  - exists rep, rows. cbn. rewrite app_nil_r. split_and!; [done|done|lia|done].
  - cbn [fst snd] in Hr. cbn [fmap list_fmap fst insert_events]. rewrite (rh_body _ _ Hr). cbn [mbind result_bind].
    pose proof (ledger_holds_snoc g rows e r received Hg Hr) as Hn.
    destruct (rows !! ue_event_id e) eqn:E.
    + destruct (IH (g ++ [(e, r)])%list (rep <| ar_duplicates ::= λ n, n + 1 |>) rows Hn)
        as (rep' & rows' & He & Hl & Hc & Hsz).
      exists rep', rows'. rewrite <-app_assoc in Hl. cbn in Hc, Hsz. cbn [length].
      split_and!; [done|done|lia|lia].
    + destruct (IH (g ++ [(e, r)])%list (rep <| ar_inserted ::= λ n, n + 1 |>) _ Hn)
        as (rep' & rows' & He & Hl & Hc & Hsz).
      exists rep', rows'. rewrite <-app_assoc in Hl. rewrite map_size_insert_None in Hsz by done.
      cbn in Hc, Hsz. cbn [length]. split_and!; [done|done|lia|lia].
Qed.

(** ** The accesses of a collection *)

Definition entry_of (er : UsageEvent * JournalRow) : JournalEntry :=
  mkJournalEntry (jr_seq er.2) er.1 (jr_chain er.2).

Lemma check_chain_ok previous seg :
  Forall (λ er, row_holds er.1 er.2) seg → chained previous seg.*2 →
  check_chain previous seg.*2 = Ok (entry_of <$> seg).
Proof.
  intros Hs. revert previous. induction Hs as [|[e r] seg Hr Hs IH]; intros previous Hc; [done|].
  cbn in Hr, Hc |- *. destruct Hc as [Hchain Hc]. rewrite bool_decide_eq_true_2 by done. cbn.
  rewrite (event_reads_back _ _ (rh_body _ _ Hr)). by rewrite (IH _ Hc).
Qed.

Lemma batch_rows h d db limit :
  history_ok h → db_after h d db →
  take limit (List.filter (λ r, jd_cursor_seq db <? jr_seq r) (jd_rows db))
  = (drop d (take (d + limit) h)).*2.
Proof.
  intros Hh Hdb. pose proof (da_collected _ _ _ Hdb) as Hd.
  rewrite (da_rows _ _ _ Hdb), (da_cursor_seq _ _ _ Hdb).
  rewrite <-(app_nil_l (drop d (written_rows h))), filter_suffix; [|constructor|].
  - rewrite drop_take_min. unfold written_rows. by rewrite fmap_drop, fmap_take.
  - apply Forall_forall. intros r Hr. apply Z.ltb_lt. by apply rows_from.
Qed.

Lemma batch_chain h d db limit :
  history_ok h → db_after h d db →
  check_chain (jd_cursor_chain db) (drop d (take (d + limit) h)).*2
  = Ok (entry_of <$> drop d (take (d + limit) h)).
Proof.
  intros Hh Hdb. pose proof Hh as [Hho Hch _]. apply check_chain_ok.
  - by apply Forall_drop, Forall_take.
  - rewrite (da_cursor_chain _ _ _ Hdb). unfold chain_after.
    rewrite <-(take_drop (d + limit) h), <-(take_drop d (take (d + limit) h)) in Hch.
    unfold written_rows in Hch. rewrite !fmap_app in Hch. apply chained_app in Hch as [Hch _].
    apply chained_app in Hch as [_ Hch]. unfold written_rows. rewrite <-fmap_take.
    by rewrite firstn_firstn, Nat.min_l in Hch by lia.
Qed.

Lemma read_batch_spec h d w limit j db r j' db' :
  history_ok h → db_after h d db → read_batch w limit j db = (r, j', db') →
  uj_limits j' = uj_limits j ∧ db' = db ∧
  match r with
  | Ok (cursor, _, entries) =>
      cursor = seq_after (take d (written_rows h)) ∧ entries = entry_of <$> drop d (take (d + limit) h)
  | Err _ => True
  end.
Proof.
  intros Hh Hdb H. unfold read_batch in H. destruct (with_conn _ _ _ _) as [[a j1] db1] eqn:Hw.
  apply with_conn_spec in Hw as (Hl & _ & Hw). destruct a as [[[cur ch] rows]|]; [|by injection H as <- <- <-].
  destruct Hw as (-> & Hf & _). injection Hf as <- <- <- <-.
  rewrite (batch_rows h d db limit Hh Hdb), (batch_chain h d db limit Hh Hdb) in H.
  injection H as <- <- <-. split_and!; [done..|apply Hdb|done].
Qed.

Lemma read_batch_works h d limit j db :
  history_ok h → db_after h d db → uj_open j = true → uj_forced_unavailable j = false →
  read_batch Works limit j db
  = (Ok (seq_after (take d (written_rows h)), jd_cursor_chain db, entry_of <$> drop d (take (d + limit) h)), j, db).
Proof.
  intros Hh Hdb Ho Hf. unfold read_batch. rewrite with_conn_works by done. cbn [fst snd].
  rewrite (batch_rows h d db limit Hh Hdb), (batch_chain h d db limit Hh Hdb). cbn.
  by rewrite (da_cursor_seq _ _ _ Hdb).
Qed.

(** A batch that is not empty is a segment that starts at the cursor. *)
Lemma batch_segment h d limit e :
  (d ≤ length h)%nat → last (entry_of <$> drop d (take (d + limit) h)) = Some e →
  segment h d (Nat.min (d + limit) (length h)) (seq_after (take d (written_rows h))) (je_seq e) (je_chain e) ∧
  drop d (take (d + limit) h) = drop d (take (Nat.min (d + limit) (length h)) h).
Proof.
  intros Hd He. rewrite fmap_last in He.
  destruct (last (drop d (take (d + limit) h))) as [er|] eqn:El; [|done]. injection He as <-.
  assert (Hlt : (d < length (take (d + limit) h))%nat).
  { apply last_Some in El as [l El]. apply (f_equal length) in El.
    rewrite length_drop, length_app in El. cbn in El. lia. }
  rewrite last_drop_lt in El by done. rewrite length_take in Hlt.
  assert (Ht : take (Nat.min (d + limit) (length h)) h = take (d + limit) h).
  { destruct (decide (d + limit ≤ length h)%nat); [by rewrite Nat.min_l|].
    rewrite Nat.min_r, firstn_all, take_ge by lia. done. }
  rewrite Ht. split; [|done]. unfold segment, seq_after, chain_after, written_rows.
  rewrite <-!fmap_take, Ht, !fmap_last, El. cbn. split_and!; [lia|lia|done..].
Qed.

Lemma commit_tx_spec h i k cursor last_seq last_chain d db b db' :
  history_ok h → db_after h d db → segment h i k cursor last_seq last_chain →
  commit_tx cursor last_seq last_chain db = (b, db') →
  if b then i = d ∧ db_after h k db' else i ≠ d ∧ db' = db.
Proof.
  intros Hh Hdb ((Hik & Hk) & -> & -> & ->) H. unfold commit_tx in H.
  pose proof Hdb as [Hd Hrows Hcs Hcc Hsq Hpe Hpb].
  destruct (Z.eqb_spec (jd_cursor_seq db) (seq_after (take i (written_rows h)))) as [He|Hne]; cbn [negb] in H.
  - rewrite Hcs in He. apply (seq_after_inj h Hh) in He; [|lia..]. subst i. injection H as <- <-. split; [done|].
    set (taken := take k (drop d (written_rows h))).
    assert (Hsplit : drop d (written_rows h) = (drop d (take k (written_rows h)) ++ drop k (written_rows h))%list).
    { rewrite <-(take_drop k (written_rows h)) at 1. rewrite drop_app_le; [done|].
      rewrite length_take, length_written. lia. }
    assert (Hbefore : Forall (λ r, jr_seq r ≤ seq_after (take k (written_rows h))
        ∧ seq_after (take d (written_rows h)) < jr_seq r) (drop d (take k (written_rows h)))).
    { apply Forall_forall. intros r Hr. split.
      - apply rows_until; [done..|]. rewrite <-(take_drop d). set_solver.
      - apply rows_from; [done|lia|]. rewrite Hsplit. set_solver. }
    assert (Hafter : Forall (λ r, seq_after (take k (written_rows h)) < jr_seq r) (drop k (written_rows h))).
    { apply Forall_forall. intros r Hr. by apply rows_from. }
    assert (Hcut : List.filter (λ r, seq_after (take k (written_rows h)) <? jr_seq r) (jd_rows db)
      = drop k (written_rows h)).
    { rewrite Hrows, Hsplit. apply filter_suffix; eapply Forall_impl; try eassumption; cbn; intros r.
      - intros [? _]. by apply Z.ltb_ge.
      - intros ?. by apply Z.ltb_lt. }
    assert (Htaken : List.filter (λ r, (seq_after (take d (written_rows h)) <? jr_seq r)
        && (jr_seq r <=? seq_after (take k (written_rows h)))) (jd_rows db) = drop d (take k (written_rows h))).
    { rewrite Hrows, Hsplit. apply filter_prefix; eapply Forall_impl; try eassumption; cbn; intros r.
      - intros [? ?]. apply andb_true_iff. split; [by apply Z.ltb_lt|by apply Z.leb_le].
      - intros ?. apply andb_false_iff. right. by apply Z.leb_gt. }
    rewrite Htaken, Hcut. rewrite Hrows, Hsplit, row_sum_app in Hpb. rewrite Hrows, Hsplit, length_app in Hpe.
    split; cbn; [done|done|done|done|done|lia|]. change (foldr Z.add 0 (jr_body_bytes <$> ?l)) with (row_sum l).
    pose proof (row_sum_nonneg h k Hh). lia.
  - injection H as <- <-. split; [|done]. intros ->. by rewrite Hcs in Hne.
Qed.

(** ** Commands *)

Definition site_ok (h : list (UsageEvent * JournalRow)) (d n : nat) (site : Site) : Prop :=
  uj_limits (st_journal site) = UsageConf.limits c ∧
  match st_collect site with Some (pc, _) => collecting h d n pc | None => True end.

Lemma segment_snoc h er i k cursor ls lc :
  segment h i k cursor ls lc → segment (h ++ [er])%list i k cursor ls lc.
Proof.
  intros ((? & ?) & -> & -> & ->). unfold segment.
  rewrite !take_written_snoc, length_app by lia. cbn. split_and!; [lia|lia|done..].
Qed.

Lemma collecting_mono h d n d' n' pc :
  (d ≤ d')%nat → (n ≤ n')%nat → collecting h d n pc → collecting h d' n' pc.
Proof.
  intros Hd Hn. destruct pc; cbn; [done| |].
  - intros (i & k & ? & ? & ?). exists i, k. split_and!; [done|lia|done].
  - intros (i & k & ? & ?). exists i, k. split; [done|lia].
Qed.

Lemma collecting_snoc h er d n pc : collecting h d n pc → collecting (h ++ [er])%list d n pc.
Proof.
  destruct pc; cbn; [done| |].
  - intros (i & k & Hs & ? & ->). exists i, k. split_and!; [by apply segment_snoc|done|].
    destruct Hs as ((? & ?) & _). by rewrite take_app_le.
  - intros (i & k & Hs & ?). exists i, k. split; [by apply segment_snoc|done].
Qed.

Lemma sites_mono h d n d' n' (sites : gmap nat Site) :
  (d ≤ d')%nat → (n ≤ n')%nat →
  map_Forall (λ _ site, site_ok h d n site) sites → map_Forall (λ _ site, site_ok h d' n' site) sites.
Proof.
  intros Hd Hn Hs p site Hp. destruct (Hs p site Hp) as [? Hc]. split; [done|].
  destruct (st_collect site) as [[pc ?]|]; [|done]. by eapply collecting_mono.
Qed.

Lemma wf_sites d n s (sites : gmap nat Site) :
  usage_wf c s d n → map_Forall (λ _ site, site_ok (uw_written s) d n site) sites →
  usage_wf c (s <| uw_sites := sites |>) d n.
Proof. intros [] Hs. by split. Qed.

Lemma wf_site_insert d n s p site :
  usage_wf c s d n → site_ok (uw_written s) d n site → usage_wf c (s <| uw_sites ::= <[p := site]> |>) d n.
Proof. intros Hwf Hs. apply (wf_sites d n s (<[p := site]> (uw_sites s)) Hwf). apply map_Forall_insert_2; [done|apply Hwf]. Qed.

Lemma append_room body db :
  bounds_ok c → Z.of_nat (String.length body) ≤ i64_max →
  0 ≤ jd_pending_events db ≤ uc_journal_max_events c →
  0 ≤ jd_pending_bytes db ≤ uc_journal_max_bytes c →
  no_room (UsageConf.limits c) (Z.of_nat (String.length body)) db = false →
  jd_pending_events db + 1 ≤ uc_journal_max_events c ∧
  jd_pending_bytes db + Z.of_nat (String.length body) ≤ uc_journal_max_bytes c.
Proof.
  intros [He Hb] Hs Hpe Hpb H. apply orb_false_iff in H as [H1 H2]. cbn in H1, H2. bools.
  unfold i64_max in *.
  rewrite u64_add_small in H1 by (unfold u64_max; lia).
  rewrite u64_add_small in H2 by (unfold u64_max; lia). lia.
Qed.

Lemma pending_nonneg h d db : history_ok h → db_after h d db → 0 ≤ jd_pending_events db ∧ 0 ≤ jd_pending_bytes db.
Proof.
  intros Hh Hdb. rewrite (da_pending_events _ _ _ Hdb), (da_pending_bytes _ _ _ Hdb), (da_rows _ _ _ Hdb).
  pose proof (row_sum_nonneg h d Hh). lia.
Qed.

Lemma record_wf p w e now d n s :
  bounds_ok c → usage_wf c s d n → usage_wf c (record p w e now s) d n.
Proof.
  intros Hb Hwf. unfold record. destruct (uw_sites s !! p) as [site|] eqn:Hp; [|done].
  destruct (append _ _ _ _ _) as [[r j] db] eqn:Ha. apply append_spec in Ha as [Hl Ha].
  pose proof Hwf as [Hh Hdb Hroom Hd Hled Hsites]. destruct (Hsites p site Hp) as [Hlim Hcol].
  assert (Hsame : uw_db s = db → usage_wf c (s <| uw_db := db |> <| uw_sites ::= <[p := site <| st_journal := j |>]> |>) d n).
  { intros <-. apply (wf_site_insert d n s); [done|]. split; cbn; [by rewrite Hl|done]. }
  destruct r as [seq|[|]].
  - destruct Ha as (body & Hbody & Htx & _).
    destruct (db_after_snoc _ _ _ _ _ _ _ _ _ Hh Hdb Hbody Htx) as (row & Hrow & Hh' & Hdb').
    rewrite Hrow. pose proof Htx as (Hno & _ & Heq)%append_tx_spec. rewrite Hlim in Hno.
    pose proof (pending_nonneg _ _ _ Hh Hdb).
    apply append_room in Hno; [|done|by eapply event_size|lia|lia].
    split; cbn; [done|done| | | |].
    + rewrite Heq. cbn. lia.
    + rewrite length_app. cbn. lia.
    + by rewrite take_app_le by lia.
    + apply map_Forall_insert_2.
      * cbn. split; [by rewrite Hl|]. destruct (st_collect site) as [[pc ?]|]; [|done]. by apply collecting_snoc.
      * intros q site' Hq. destruct (Hsites q site' Hq) as [? Hc]. split; [done|].
        destruct (st_collect site') as [[pc ?]|]; [|done]. by apply collecting_snoc.
  - destruct Ha as (body & Hbody & Htx & _). apply append_tx_spec in Htx as [_ ->].
    split; cbn; [done|destruct Hdb; by split|done|done|done|].
    apply map_Forall_insert_2; [|done]. split; cbn; [by rewrite Hl|done].
  - destruct Ha as [-> _]. by apply Hsame.
Qed.

Lemma collect_read_ok h d n w report j db next j' db' :
  history_ok h → db_after h d db → (d ≤ n)%nat →
  Meters.collect_read c w report j db = (next, j', db') →
  uj_limits j' = uj_limits j ∧ db' = db ∧
  match next with Meters.Goes pc _ => collecting h d n pc | Meters.Ends _ => True end.
Proof.
  intros Hh Hdb Hdn H. unfold Meters.collect_read in H.
  destruct (read_batch _ _ _ _) as [[r j1] db1] eqn:Hr.
  apply (read_batch_spec h d) in Hr as (Hl & -> & Hr); [|done..].
  destruct r as [[[cur ch] entries]|]; [|by injection H as <- <- <-]. destruct Hr as [-> ->].
  destruct (last _) as [e|] eqn:El; [|by injection H as <- <- <-]. injection H as <- <- <-.
  split_and!; [done..|]. cbn. apply batch_segment in El as [Hs Ht]; [|apply Hdb].
  eexists d, _. split_and!; [exact Hs|done|]. rewrite <-Ht. by rewrite <-list_fmap_compose.
Qed.

Lemma collect_deliver_ok h d n w now cursor ls lc events report l next l' :
  history_ok h → (d ≤ n ≤ length h)%nat → ledger_holds (take n h) (ul_events l) →
  collecting h d n (Meters.Delivering cursor ls lc events) →
  Meters.collect_deliver w now cursor ls lc events report l = (next, l') →
  ∃ n', (n ≤ n' ≤ length h)%nat ∧ ledger_holds (take n' h) (ul_events l') ∧
    match next with Meters.Goes pc _ => collecting h d n' pc | Meters.Ends _ => True end.
Proof.
  intros Hh Hdn Hled (i & k & Hs & Hi & ->) H. unfold Meters.collect_deliver in H.
  destruct (accept_events _ _ _ _) as [[rep l1]|] eqn:Ha; injection H as <- <-;
    [|exists n; split_and!; [lia|lia|done|done]].
  unfold accept_events in Ha. destruct (ul_unavailable l); [done|]. destruct w; try done.
  pose proof Hs as ((Hik & Hk) & _).
  destruct (insert_events_holds now (drop i (take k h)) (take n h) (mkAcceptReport 0 0) (ul_events l))
    as (rep' & rows & He & Hh' & _); [by apply Forall_drop, Forall_take; apply Hh|done|].
  rewrite He in Ha. injection Ha as <- <-. exists (Nat.max n k). split_and!; [lia|lia| |].
  - cbn. eapply ledger_holds_eq; [|exact Hh']. intros id. apply first_with_segment; lia.
  - exists i, k. split; [done|lia].
Qed.

Lemma collect_commit_ok h d n w cursor ls lc report j db next j' db' :
  history_ok h → db_after h d db → (d ≤ n)%nat →
  collecting h d n (Meters.Committing cursor ls lc) →
  Meters.collect_commit w cursor ls lc report j db = (next, j', db') →
  uj_limits j' = uj_limits j ∧
  ((∃ report', next = Meters.Goes Meters.Reading report') ∨ ∃ e, next = Meters.Ends (Err e)) ∧
  ∃ d', (d ≤ d' ≤ n)%nat ∧ db_after h d' db'.
Proof.
  intros Hh Hdb Hdn (i & k & Hs & Hk) H. unfold Meters.collect_commit, commit_cursor in H.
  destruct (with_conn _ _ _ _) as [[r j1] db1] eqn:Hw. apply with_conn_spec in Hw as (Hl & _ & Hw).
  destruct r as [b|e].
  - destruct Hw as (-> & Hc & _). eapply (commit_tx_spec h i k) in Hc; [|done..].
    destruct b; injection H as <- <- <-; (split; [done|]); (split; [by eauto|]).
    + destruct Hc as [-> Hdb']. exists k. split; [|done]. destruct Hs as ((? & _) & _). lia.
    + destruct Hc as [_ ->]. by exists d.
  - injection H as <- <- <-. subst db1. split_and!; [done|by eauto|by exists d].
Qed.

Lemma room_shrinks h d d' db db' :
  history_ok h → db_after h d db → db_after h d' db' → (d ≤ d')%nat →
  jd_pending_events db' ≤ jd_pending_events db ∧ jd_pending_bytes db' ≤ jd_pending_bytes db.
Proof.
  intros Hh Hdb Hdb' Hd. pose proof (da_collected _ _ _ Hdb') as Hl.
  rewrite (da_pending_events _ _ _ Hdb), (da_pending_events _ _ _ Hdb').
  rewrite (da_pending_bytes _ _ _ Hdb), (da_pending_bytes _ _ _ Hdb').
  rewrite (da_rows _ _ _ Hdb), (da_rows _ _ _ Hdb').
  replace d' with (d + (d' - d))%nat by lia. rewrite <-drop_drop.
  rewrite <-(take_drop (d' - d) (drop d (written_rows h))) at 2 4.
  rewrite length_app, row_sum_app. split; [lia|].
  enough (0 ≤ row_sum (take (d' - d) (drop d (written_rows h)))) by lia.
  pose proof Hh as [Hho _ _]. unfold written_rows. rewrite <-fmap_drop, <-fmap_take.
  apply (Forall_drop _ d), (Forall_take _ (d' - d)) in Hho.
  unfold row_sum. induction Hho as [|er l Her _ IH]; cbn; [done|]. rewrite (rh_bytes _ _ Her). lia.
Qed.

Lemma step_collect_wf p w now d n s :
  usage_wf c s d n → ∃ d' n', (d ≤ d')%nat ∧ (n ≤ n')%nat ∧ usage_wf c (step_collect c p w now s) d' n'.
Proof.
  intros Hwf. unfold step_collect.
  destruct (uw_sites s !! p) as [[j [[pc report]|]]|] eqn:Hp; [|by exists d, n..].
  pose proof Hwf as [Hh Hdb Hroom Hd Hled Hsites]. destruct (Hsites p _ Hp) as [Hlim Hcol].
  cbn in Hlim, Hcol.
  destruct (Meters.collect_step _ _ _ _ _ _ _ _) as [[[next j'] db'] l'] eqn:Hst.
  destruct pc as [|cur ls lc events|cur ls lc]; cbn in Hst.
  - destruct (Meters.collect_read _ _ _ _ _) as [[nx jx] dbx] eqn:Hr. injection Hst as <- <- <- <-.
    eapply (collect_read_ok _ d n) in Hr as (Hl & -> & Hc); [|done|done|lia].
    exists d, n. split_and!; [done..|]. apply (wf_site_insert d n s); [done|].
    split; cbn; [by rewrite Hl|]. by destruct nx.
  - destruct (Meters.collect_deliver _ _ _ _ _ _ _ _) as [nx lx] eqn:Hr. injection Hst as <- <- <- <-.
    eapply collect_deliver_ok in Hr as (n' & Hn & Hled' & Hc); [|done..].
    exists d, n'. split_and!; [done|lia|]. split; cbn; [done|done|done|lia|done|].
    apply map_Forall_insert_2; [|eapply sites_mono; [..|exact Hsites]; lia].
    split; cbn; [done|]. by destruct nx.
  - destruct (Meters.collect_commit _ _ _ _ _ _ _) as [[nx jx] dbx] eqn:Hr. injection Hst as <- <- <- <-.
    eapply (collect_commit_ok _ d n) in Hr as (Hl & Hnx & d' & Hd' & Hdb'); [|done|done|lia|done].
    exists d', n. split_and!; [lia|done|].
    pose proof (room_shrinks _ _ _ _ _ Hh Hdb Hdb' ltac:(lia)).
    split; cbn; [done|done|lia|lia|done|].
    apply map_Forall_insert_2; [|eapply sites_mono; [..|exact Hsites]; lia].
    split; cbn; [by rewrite Hl|]. by destruct Hnx as [[rep ->]|[e ->]].
Qed.

Lemma probe_limits free opens j : uj_limits (probe free opens j).2 = uj_limits j.
Proof. unfold probe. by repeat case_match. Qed.

Lemma run_ucmd_wf cmd d n s :
  bounds_ok c → usage_wf c s d n →
  ∃ d' n', (d ≤ d')%nat ∧ (n ≤ n')%nat ∧ usage_wf c (run_ucmd c cmd s) d' n'.
Proof.
  intros Hb Hwf. pose proof (uf_sites _ _ _ _ Hwf) as Hsites.
  destruct cmd as [p opens|p w e now|p free opens|p w now|p free opens|p b|b|p]; cbn [run_ucmd];
    [| |destruct (uw_sites s !! p) as [[j [?|]]|] eqn:Hp; [by exists d, n| |by exists d, n]
    |by apply step_collect_wf|..]; try (exists d, n; split_and!; [done..|]).
  - destruct (uw_sites s !! p) eqn:Hp; [done|]. by apply wf_site_insert.
  - by apply record_wf.
  - apply wf_site_insert; [done|]. destruct (Hsites p _ Hp). split; cbn; [by rewrite probe_limits|done].
  - apply (wf_sites d n s (alter _ p (uw_sites s)) Hwf). intros q site Hq.
    apply lookup_alter_Some in Hq as [(<- & site' & Hq & ->)|[_ Hq]]; [|by apply (Hsites q)].
    destruct (Hsites _ _ Hq). split; cbn; [by rewrite probe_limits|done].
  - apply (wf_sites d n s (alter _ p (uw_sites s)) Hwf). intros q site Hq.
    apply lookup_alter_Some in Hq as [(<- & site' & Hq & ->)|[_ Hq]]; [|by apply (Hsites q)].
    by destruct (Hsites _ _ Hq).
  - destruct Hwf. by split.
  - apply (wf_sites d n s (delete p (uw_sites s)) Hwf). by apply map_Forall_delete.
Qed.

Lemma empty_usage_wf : bounds_ok c → usage_wf c empty_usage_world 0 0.
Proof.
  intros [He Hb]. split; cbn; [|split; cbn; done|lia|lia|done|apply map_Forall_empty].
  split; cbn; [constructor|done|repeat constructor].
Qed.

Lemma run_ucmds_wf cmds d n s :
  bounds_ok c → usage_wf c s d n →
  ∃ d' n', (d ≤ d')%nat ∧ (n ≤ n')%nat ∧ usage_wf c (run_ucmds c cmds s) d' n'.
Proof.
  intros Hb. revert d n s. induction cmds as [|cmd cmds IH]; intros d n s Hwf; [by exists d, n|].
  destruct (run_ucmd_wf cmd d n s Hb Hwf) as (d1 & n1 & Hd1 & Hn1 & Hwf1).
  destruct (IH d1 n1 _ Hwf1) as (d2 & n2 & ? & ? & ?). exists d2, n2. split_and!; [lia|lia|done].
Qed.
End usage_inv.
