(* ===== verification/UsageScenario.v ===== *)
(** * A concrete journal

    A codec for a handful of events and a digest without collisions, both of which meet the laws
    of [Usage], and runs of processes over a small journal. *)

From Stdlib Require Import Ascii.
From S2P Require Import Prelude Usage UsageJournal UsageLedger Store Retry AsyncRun AsyncFront UsageMeter.
From S2P Require Import UsageWorld.

Open Scope string_scope.
Open Scope Z_scope.

(** ** A digest: the bits of the text *)

Definition bit (b : bool) : ascii := if b then "1"%char else "0"%char.
Fixpoint bits_of (s : string) : string :=
  match s with
  | EmptyString => EmptyString
  | String (Ascii a b c d e f g h) s =>
      String (bit a) (String (bit b) (String (bit c) (String (bit d)
        (String (bit e) (String (bit f) (String (bit g) (String (bit h) (bits_of s))))))))
  end.

Lemma bit_inj a b : bit a = bit b → a = b.
Proof. by destruct a, b. Qed.

Lemma bits_of_inj s t : bits_of s = bits_of t → s = t.
Proof.
  revert t. induction s as [|[] s IH]; intros [|[] t] H; try done. cbn in H.
  injection H as H0 H1 H2 H3 H4 H5 H6 H7 H.
  apply bit_inj in H0, H1, H2, H3, H4, H5, H6, H7. apply IH in H. by subst.
Qed.

Lemma bits_of_chars s x : x ∈ String.list_ascii_of_string (bits_of s) → x = "0"%char ∨ x = "1"%char.
Proof.
  induction s as [|[] s IH]; cbn; [by intros ?%elem_of_nil|].
  intros H. repeat (apply elem_of_cons in H as [->|H]; [unfold bit; case_match; auto|]). auto.
Qed.

(** ** Events *)

Definition seg_use (init handler : Metered) : UsageSegments :=
  mkSegments (Meter.host 3) (Meter.host 40) init handler (Meter.host 2) (Meter.host 0).

(** An attempt of a function, settled. *)
Definition settled_use (id : string) (at_ : Timestamp) (handler : Metered) : UsageEvent :=
  NewUsage.new id "tn_a" "env_1" UsageEventType.AttemptSettled 1 at_
    <| ue_function_id := Some "fn_a" |> <| ue_attempt_id := Some ("at_" +:+ id) |>
    <| ue_attempt_kind := Some AttemptKind.First |> <| ue_outcome := Some UsageOutcome.Succeeded |>
    <| ue_segments := seg_use (Meter.host 10) handler |>
    <| ue_resources := mkUsageResources 500 256 0 Meter.unknown Meter.unknown |>
    <| ue_bytes := mkUsageBytes (Meter.host 100) (Meter.host 400) |>
    <| ue_guest_reported := mkGuestUsage None (Some 9999) |>.

Definition event_1 : UsageEvent := settled_use "e1" (seconds 1000) (Meter.host 120).
Definition event_2 : UsageEvent := settled_use "e2" (seconds 2000) (Meter.guest 5000).
(** The same id with another time: a late second report of one fact. *)
Definition event_1' : UsageEvent := settled_use "e1" (seconds 3000) (Meter.host 120).
Definition event_stop : UsageEvent :=
  NewUsage.new (environment_stopped_event_id "env_1") "tn_a" "env_1" UsageEventType.EnvironmentStopped
    STOP_SEQUENCE_UNKNOWN (seconds 4000)
    <| ue_function_id := Some "fn_a" |> <| ue_monotonic_duration_ms := Some 3600 |>.

Definition samples_use : list (string * UsageEvent) :=
  [("{1}", event_1); ("{2}", event_2); ("{1'}", event_1'); ("{stop}", event_stop)].

#[global] Instance codec_use : UsageCodec := {|
  event_json e := match List.find (λ x, x.2 == e) samples_use with
    | Some (body, _) => Ok body | None => Err "not serializable" end;
  event_of_json body := match List.find (λ x, x.1 == body) samples_use with
    | Some (_, e) => Ok e | None => Err "expected value" end;
  sha256_hex := bits_of
|}.

#[global] Instance codec_use_laws : UsageCodecLaws.
Proof.
  assert (Hall : ∀ e body, event_json e = Ok body →
    event_of_json body = Ok e ∧ Z.of_nat (String.length body) ≤ i64_max).
  { intros e body H. cbn [event_json codec_use] in H.
    destruct (List.find _ samples_use) as [[b e']|] eqn:E; [|done]. injection H as <-.
    apply List.find_some in E as [Hin He]. cbn in He. bools. subst e'.
    repeat (destruct Hin as [[= <- <-]|Hin]; [split; [reflexivity|by vm_compute]|]). destruct Hin. }
  split; intros e body H; by destruct (Hall e body H).
Qed.

#[global] Instance digest_use_laws : DigestLaws.
Proof.
  split.
  - intros a b. apply bits_of_inj.
  - intros a H. by apply bits_of_chars in H as [H|H].
  - intros [|[] a] H; [done|]. injection H as H _. unfold bit in H. by case_match.
Qed.

(** ** Runs *)

Definition config_use : UsageConfig :=
  mkUsageConfig 4 64 1 8 JournalFullPolicy.Refuse 1000 2 false.

Lemma bounds_use : bounds_ok config_use.
Proof. by split. Qed.

(** Two processes write three events; the first starts to collect, delivers its batch and dies
    before the cursor moves. *)
Definition cmds_crash : list ucmd :=
  [UStart 0 (Ok ()); UStart 1 (Ok ()); URecord 0 Works event_1 (seconds 1001);
   URecord 1 Works event_2 (seconds 2001); URecord 0 Works event_1' (seconds 3001);
   UCollect 0 true (Ok ()); UStep 0 Works (seconds 4001); UStep 0 Works (seconds 4002); UCrash 0].

(** It starts again. *)
Definition cmds_restart : list ucmd := (cmds_crash ++ [UStart 0 (Ok ())])%list.

(** Then both processes collect at once. *)
Definition cmds_race : list ucmd :=
  (cmds_restart ++ [UCollect 0 true (Ok ()); UCollect 1 true (Ok ());
   UStep 0 Works (seconds 4003); UStep 1 Works (seconds 4004); UStep 0 Works (seconds 4005);
   UStep 1 Works (seconds 4006); UStep 1 Works (seconds 4007); UStep 0 Works (seconds 4008);
   URecord 1 Works event_stop (seconds 4009)])%list.
