(* ===== verification/UsageProps.v ===== *)
(** * What the usage journal guarantees

    The journal stays within its bounds under any interleaving of processes and crashes; every
    event it took reaches the ledger, which keeps one row per event id however often a batch is
    delivered; a collection that can reach its databases drains the journal; work admitted by the
    journal finds room for its events; and a change of the rows that keeps the last chain value
    stops the collector. *)

From S2P Require Import Prelude Usage UsageJournal UsageLedger Store Retry AsyncRun AsyncFront UsageMeter.
From S2P Require Import UsageWorld UsageInv UsageScenario.

Open Scope string_scope.
Open Scope Z_scope.

(** ** Definitions *)

(** The specification of the ledger: of the events delivered in this order, the first under each id. *)
Definition keep_first (m : gmap string UsageEvent) (e : UsageEvent) : gmap string UsageEvent :=
  if m !! ue_event_id e is Some _ then m else <[ue_event_id e := e]> m.
Definition first_per_id (events : list UsageEvent) : gmap string UsageEvent := foldl keep_first ∅ events.

Section defs.
Context `{UsageCodec}.

(** The events of a ledger table, read back. *)
Definition ledger_events (rows : gmap string LedgerRow) : gmap string (result string UsageEvent) :=
  (λ r, event_of_json (lr_body r)) <$> rows.

(** A run of the processes of a data directory, from the start. *)
Definition usage_run (c : UsageConfig) (cmds : list ucmd) : UsageWorld :=
  run_ucmds c cmds empty_usage_world.
Definition written_events (s : UsageWorld) : list UsageEvent := (uw_written s).*1.

(** The events the processes report in a while. *)
Definition recorded (cmds : list ucmd) : list UsageEvent :=
  omap (λ cmd, match cmd with URecord _ _ e _ => Some e | _ => None end) cmds.
Definition body_bytes (e : UsageEvent) : Z :=
  match event_json e with Ok body => Z.of_nat (String.length body) | Err _ => 0 end.

Definition event_bytes (events : list UsageEvent) : Z := foldr Z.add 0 (body_bytes <$> events).

Definition bodies (rows : list JournalRow) : list string := jr_body <$> rows.
End defs.

(** ** Lemmas *)

Section lemmas.
Context `{HC : UsageCodec} {HL : UsageCodecLaws} (c : UsageConfig).

Lemma usage_run_wf cmds : bounds_ok c → ∃ d n, usage_wf c (usage_run c cmds) d n.
Proof.
  intros Hb. destruct (run_ucmds_wf c cmds 0 0 _ Hb (empty_usage_wf c Hb)) as (d & n & _ & _ & H). eauto.
Qed.

Lemma first_per_id_snoc events e id :
  first_per_id (events ++ [e])%list !! id =
  match first_per_id events !! id with
  | Some e' => Some e' | None => if bool_decide (ue_event_id e = id) then Some e else None end.
Proof.
  unfold first_per_id. rewrite foldl_app. cbn. unfold keep_first at 1.
  destruct (foldl keep_first ∅ events !! ue_event_id e) eqn:E.
  - destruct (foldl keep_first ∅ events !! id) eqn:E'; [done|].
    rewrite bool_decide_eq_false_2; [done|]. congruence.
  - destruct (decide (ue_event_id e = id)) as [<-|Hne].
    + by rewrite lookup_insert_eq, E, bool_decide_eq_true_2.
    + rewrite lookup_insert_ne, bool_decide_eq_false_2 by done. by destruct (_ !! id).
Qed.

Lemma first_with_first h id : fst <$> first_with id h = first_per_id h.*1 !! id.
Proof.
  induction h as [|er h IH] using rev_ind; [done|].
  rewrite first_with_app, fmap_app. cbn [fmap list_fmap]. rewrite first_per_id_snoc, <-IH.
  destruct (first_with id h); [done|]. cbn. unfold first_with. cbn. by destruct (bool_decide _).
Qed.

Lemma first_with_in id h er : first_with id h = Some er → er ∈ h.
Proof. intros [Hin _]%List.find_some. by apply list_elem_of_In. Qed.

(** A ledger that holds a history is the specification of its events. *)
Lemma ledger_holds_spec h rows :
  Forall (λ er, row_holds er.1 er.2) h → ledger_holds h rows →
  ledger_events rows = Ok <$> first_per_id h.*1.
Proof.
  intros Hh Hl. apply map_eq. intros id. unfold ledger_events. rewrite !lookup_fmap.
  rewrite <-first_with_first. specialize (Hl id).
  destruct (rows !! id) as [r|], (first_with id h) as [[e jr]|] eqn:E; try done.
  destruct Hl as [received ->]. cbn. apply first_with_in in E.
  rewrite Forall_forall in Hh. specialize (Hh _ E). cbn in Hh.
  by rewrite (event_reads_back _ _ (rh_body _ _ Hh)).
Qed.

Lemma rows_chained h d db : history_ok h → db_after h d db → chained (jd_cursor_chain db) (jd_rows db).
Proof.
  intros [_ Hch _] Hdb. rewrite (da_rows _ _ _ Hdb), (da_cursor_chain _ _ _ Hdb).
  rewrite <-(take_drop d (written_rows h)) in Hch. by apply chained_app in Hch as [_ ?].
Qed.

(** *** Draining *)

(** One turn of the loop with databases that work: the rest of the batch is delivered and the
    cursor passes it. *)
Lemma collect_turn h d n j db l report now i fuel :
  history_ok h → db_after h d db → (d ≤ n ≤ length h)%nat → ledger_holds (take n h) (ul_events l) →
  uj_open j = true → uj_forced_unavailable j = false → ul_unavailable l = false →
  (0 < uc_collect_batch c)%nat → (d < length h)%nat →
  ∃ k report' db' l', (d < k ≤ length h)%nat ∧
    Meters.collect_loop c (3 + fuel) (λ _, Works) now i Meters.Reading report j db l
    = Meters.collect_loop c fuel (λ _, Works) now (3 + i) Meters.Reading report' j db' l' ∧
    db_after h k db' ∧ ledger_holds (take (Nat.max n k) h) (ul_events l') ∧ ul_unavailable l' = false ∧
    co_read report' = co_read report + Z.of_nat (k - d) ∧
    co_inserted report' + co_duplicates report'
    = co_inserted report + co_duplicates report + Z.of_nat (k - d) ∧
    co_inserted report' - Z.of_nat (size (ul_events l')) = co_inserted report - Z.of_nat (size (ul_events l)).
Proof.
  intros Hh Hdb Hdn Hl Ho Hf Hu Hbatch Hd. change (3 + fuel)%nat with (S (S (S fuel))).
  cbn [Meters.collect_loop Meters.collect_step]. unfold Meters.collect_read.
  rewrite (read_batch_works h d) by done.
  set (seg := drop d (take (d + uc_collect_batch c) h)).
  assert (Hlen : length seg = (Nat.min (d + uc_collect_batch c) (length h) - d)%nat).
  { unfold seg. by rewrite length_drop, length_take. }
  destruct (last (entry_of <$> seg)) as [e|] eqn:El.
  2: { apply last_None, (f_equal length) in El. rewrite length_fmap, Hlen in El. cbn in El. lia. }
  apply batch_segment in El as [Hs Ht]; [|lia]. set (k := Nat.min _ _) in *.
  assert (Hseg : seg = drop d (take k h)) by exact Ht.
  cbn [Meters.collect_loop Meters.collect_step]. unfold Meters.collect_deliver, accept_events. rewrite Hu.
  destruct (insert_events_holds (now (S i)) seg (take n h) (mkAcceptReport 0 0) (ul_events l))
    as (rep & rows & He & Hh' & Hc & Hsz); [apply Forall_drop, Forall_take, Hh|done|].
  replace (je_event <$> (entry_of <$> seg)) with (seg.*1) by (by rewrite <-list_fmap_compose).
  rewrite He. cbn [mbind result_bind Meters.collect_loop Meters.collect_step].
  unfold Meters.collect_commit, commit_cursor.
  rewrite with_conn_works by done.
  destruct (commit_tx _ _ _ db) as [b db'] eqn:Hct.
  eapply (commit_tx_spec h d k) in Hct; [|done..]. destruct b; [|by destruct Hct].
  destruct Hct as [_ Hdb']. cbn [fst snd]. cbn iota.
  eexists k, _, db', _. split_and!; [unfold k; lia|unfold k; lia|reflexivity|done| |done| | |]; cbn.
  - eapply ledger_holds_eq; [|exact Hh']. intros id. rewrite Hseg. apply first_with_segment; unfold k; lia.
  - rewrite length_fmap, Hlen. fold k. lia.
  - cbn in Hc. rewrite Hlen in Hc. fold k in Hc. lia.
  - cbn in Hsz. lia.
Qed.

Lemma collect_end_turn h j db l report now i fuel :
  history_ok h → db_after h (length h) db → uj_open j = true → uj_forced_unavailable j = false →
  Meters.collect_loop c (S fuel) (λ _, Works) now i Meters.Reading report j db l
  = Some (Ok (report <| co_cursor_seq := seq_after (written_rows h) |>), j, db, l).
Proof.
  intros Hh Hdb Ho Hf. cbn [Meters.collect_loop Meters.collect_step]. unfold Meters.collect_read.
  rewrite (read_batch_works h (length h)) by done. rewrite drop_ge by (rewrite length_take; lia). cbn.
  by rewrite <-length_written, firstn_all.
Qed.

Lemma collect_drains_from h d n j db l report now i fuel :
  history_ok h → db_after h d db → (d ≤ n ≤ length h)%nat → ledger_holds (take n h) (ul_events l) →
  uj_open j = true → uj_forced_unavailable j = false → ul_unavailable l = false →
  (0 < uc_collect_batch c)%nat → (3 * (length h - d) < fuel)%nat →
  ∃ report' db' l',
    Meters.collect_loop c fuel (λ _, Works) now i Meters.Reading report j db l = Some (Ok report', j, db', l') ∧
    db_after h (length h) db' ∧ ledger_holds h (ul_events l') ∧
    co_read report' = co_read report + Z.of_nat (length h - d) ∧
    co_inserted report' + co_duplicates report'
    = co_inserted report + co_duplicates report + Z.of_nat (length h - d) ∧
    co_inserted report' - Z.of_nat (size (ul_events l')) = co_inserted report - Z.of_nat (size (ul_events l)) ∧
    co_cursor_seq report' = seq_after (written_rows h).
Proof.
  intros Hh Hdb Hdn Hl Ho Hf Hu Hbatch. remember (length h - d)%nat as m eqn:Hm.
  revert d n db l report i fuel Hdb Hdn Hl Hu Hm.
  induction m as [m IH] using lt_wf_ind. intros d n db l report i fuel Hdb Hdn Hl Hu Hm Hfuel.
  destruct (decide (d = length h)) as [->|Hne].
  - destruct fuel as [|fuel]; [lia|]. assert (n = length h) as -> by lia. rewrite firstn_all in Hl.
    eexists _, db, l. split; [by apply collect_end_turn|]. cbn. split_and!; [done|done|lia|lia|lia|done].
  - destruct fuel as [|[|[|fuel]]]; [lia..|].
    destruct (collect_turn h d n j db l report now i fuel)
      as (k & rep & db1 & l1 & Hk & Hloop & Hdb1 & Hl1 & Hu1 & Hr & Hid & Hsz); [done..|lia|].
    change (S (S (S fuel))) with (3 + fuel)%nat. rewrite Hloop.
    destruct (IH (length h - k)%nat ltac:(lia) k (Nat.max n k) db1 l1 rep (3 + i)%nat fuel)
      as (rep' & db' & l' & He & Hdb' & Hl' & Hr' & Hid' & Hsz' & Hcur); [done|lia|done|done|done|lia|].
    exists rep', db', l'. split_and!; [done|done|done|lia|lia|lia|done].
Qed.

(** *** Room *)

Lemma admission_Ok w j db j' db' :
  admission w j db = (Ok tt, j', db') →
  db' = db ∧ j' = j ∧ uj_open j = true ∧ uj_forced_unavailable j = false ∧
  jl_admission_headroom_events (uj_limits j) < u64_saturating_sub (jl_max_events (uj_limits j)) (jd_pending_events db) ∧
  jl_admission_headroom_bytes (uj_limits j) < u64_saturating_sub (jl_max_bytes (uj_limits j)) (jd_pending_bytes db).
Proof.
  unfold admission. intros H. destruct (with_conn _ _ _ _) as [[r j1] db1] eqn:Hw.
  apply with_conn_spec in Hw as (_ & _ & Hw). destruct r as [[ev by_]|]; [|done].
  destruct Hw as (-> & Hd & Ho & Hf & _). injection Hd as <- <- <-.
  destruct (_ || _) eqn:Hor; [done|]. injection H as <- <-. bools. by split_and!.
Qed.

Lemma admit_journal_Ok a j db j' db' :
  Meters.admit_journal a j db = (Ok tt, j', db') →
  db' = db ∧ uj_limits j' = uj_limits j ∧ uj_open j' = true ∧ uj_forced_unavailable j' = false ∧
  jl_admission_headroom_events (uj_limits j) < u64_saturating_sub (jl_max_events (uj_limits j)) (jd_pending_events db) ∧
  jl_admission_headroom_bytes (uj_limits j) < u64_saturating_sub (jl_max_bytes (uj_limits j)) (jd_pending_bytes db).
Proof.
  unfold Meters.admit_journal. intros H.
  destruct (admission (Meters.aa_first a) j db) as [[r j1] db1] eqn:Ha. destruct r as [[]|[|]].
  - injection H as <- <-. apply admission_Ok in Ha as (-> & -> & ? & ? & ? & ?). by split_and!.
  - done.
  - assert (db1 = db ∧ uj_limits j1 = uj_limits j) as [-> Hl].
    { unfold admission in Ha. destruct (with_conn _ _ _ _) as [[r j2] db2] eqn:Hw.
      apply with_conn_spec in Hw as (? & _ & Hw). destruct r as [[ev by_]|].
      - by destruct (_ || _).
      - injection Ha as <- <-. by split. }
    destruct (probe _ _ j1) as [[] j2] eqn:Hp; [|done].
    pose proof (probe_limits (Meters.aa_free a) (Meters.aa_opens a) j1) as Hl2. rewrite Hp in Hl2. cbn in Hl2.
    apply admission_Ok in H as (-> & -> & ? & ? & ? & ?). rewrite Hl2, Hl in *. by split_and!.
Qed.

Lemma bytes_nonneg e : 0 ≤ body_bytes e.
Proof. unfold body_bytes. destruct (event_json e); lia. Qed.

Lemma event_bytes_app l l' : event_bytes (l ++ l')%list = event_bytes l + event_bytes l'.
Proof. unfold event_bytes. rewrite fmap_app, foldr_app. induction (body_bytes <$> l); cbn in *; lia. Qed.

Lemma event_bytes_sublist l l' : l `sublist_of` l' → event_bytes l ≤ event_bytes l'.
Proof.
  unfold event_bytes. induction 1 as [|x l l' _ IH|x l l' _ IH]; cbn; [done|lia|].
  pose proof (bytes_nonneg x). lia.
Qed.

Lemma rows_bytes h : Forall (λ er, row_holds er.1 er.2) h → row_sum (written_rows h) = event_bytes h.*1.
Proof.
  unfold row_sum, written_rows, event_bytes. induction 1 as [|[e r] h Her _ IH]; cbn; [done|].
  cbn in Her. rewrite IH. unfold body_bytes. by rewrite (rh_body _ _ Her), (rh_bytes _ _ Her).
Qed.

(** What is written in a while is among what was recorded in it. *)
Lemma written_grows later s :
  ∃ more, uw_written (run_ucmds c later s) = (uw_written s ++ more)%list ∧ more.*1 `sublist_of` recorded later.
Proof.
  revert s. induction later as [|cmd later IH]; intros s; [exists []; by rewrite app_nil_r|].
  destruct (IH (run_ucmd c cmd s)) as (more & E & Hm). change (run_ucmds c (cmd :: later) s) with (run_ucmds c later (run_ucmd c cmd s)).
  rewrite E. assert (Hstep : uw_written (run_ucmd c cmd s) = uw_written s ∨
    ∃ p w e now r, cmd = URecord p w e now ∧ uw_written (run_ucmd c cmd s) = (uw_written s ++ [(e, r)])%list).
  { destruct cmd as [p opens|p w e now|p free opens|p w now|p free opens|p b|b|p]; cbn [run_ucmd].
    - left. by destruct (uw_sites s !! p).
    - unfold record. destruct (uw_sites s !! p); [|by left]. destruct (append _ _ _ _ _) as [[r j] db].
      destruct r; [|by left]. destruct (last (jd_rows db)) as [row|]; [right|by left]. by exists p, w, e, now, row.
    - left. by destruct (uw_sites s !! p) as [[j [?|]]|].
    - left. unfold step_collect. destruct (uw_sites s !! p) as [[j [[pc report]|]]|]; [|done..].
      by destruct (Meters.collect_step _ _ _ _ _ _ _ _) as [[[next j'] db'] l'].
    - by left.
    - by left.
    - by left.
    - by left. }
  destruct Hstep as [->|(p & w & e & now & r & -> & ->)].
  - exists more. split; [done|]. etrans; [exact Hm|]. unfold recorded. destruct cmd; cbn; [done|by apply sublist_cons|done..].
  - exists ((e, r) :: more). rewrite <-app_assoc. split; [done|]. cbn. by apply sublist_skip.
Qed.

(** The journal grows by what is recorded, whatever else happens. *)
Lemma pending_grows later s d n :
  bounds_ok c → usage_wf c s d n →
  let s' := run_ucmds c later s in
  ∃ d' n', usage_wf c s' d' n' ∧
    jd_pending_events (uw_db s') ≤ jd_pending_events (uw_db s) + Z.of_nat (length (recorded later)) ∧
    jd_pending_bytes (uw_db s') ≤ jd_pending_bytes (uw_db s) + event_bytes (recorded later).
Proof.
  intros Hb Hwf. cbv zeta. destruct (run_ucmds_wf c later d n s Hb Hwf) as (d' & n' & Hd & _ & Hwf').
  exists d', n'. split; [exact Hwf'|]. destruct (written_grows later s) as (more & Ew & Hm).
  pose proof (uf_history _ _ _ _ Hwf') as Hh'. pose proof (uf_db _ _ _ _ Hwf') as Hdb'. pose proof (uf_db _ _ _ _ Hwf) as Hdb.
  rewrite Ew in *. pose proof (da_collected _ _ _ Hdb) as Hdl.
  assert (Hdb2 : db_after (uw_written s ++ more)%list d
    (mkJournalDb (drop d (written_rows (uw_written s ++ more)%list)) (seq_after (written_rows (uw_written s ++ more)%list))
       (seq_after (take d (written_rows (uw_written s ++ more)%list))) (chain_after (take d (written_rows (uw_written s ++ more)%list)))
       (Z.of_nat (length (drop d (written_rows (uw_written s ++ more)%list))))
       (row_sum (drop d (written_rows (uw_written s ++ more)%list))) ∅)).
  { split; try done. rewrite length_app. lia. }
  destruct (room_shrinks _ _ _ _ _ Hh' Hdb2 Hdb' Hd) as [H1 H2]. cbn in H1, H2.
  rewrite (da_pending_events _ _ _ Hdb), (da_pending_bytes _ _ _ Hdb), (da_rows _ _ _ Hdb).
  unfold written_rows in H1, H2. rewrite fmap_app, drop_app_le in H1, H2 by (rewrite length_fmap; done).
  rewrite length_app, length_fmap in H1. rewrite row_sum_app in H2.
  pose proof Hh' as [Hho _ _]. apply Forall_app in Hho as [_ Hho]. pose proof (rows_bytes more Hho) as Hr.
  unfold written_rows in Hr. rewrite Hr in H2.
  pose proof (sublist_length _ _ Hm) as Hlen. rewrite length_fmap in Hlen.
  pose proof (event_bytes_sublist _ _ Hm). unfold written_rows. split; lia.
Qed.

(** An append that reaches a database with room is taken. *)
Lemma append_fits e now j db :
  bounds_ok c → uj_limits j = UsageConf.limits c → uj_open j = true → uj_forced_unavailable j = false →
  is_ok (event_json e) = true → 0 ≤ jd_pending_events db → 0 ≤ jd_pending_bytes db →
  jd_pending_events db + 1 ≤ uc_journal_max_events c →
  jd_pending_bytes db + body_bytes e ≤ uc_journal_max_bytes c →
  is_ok (append Works e now j db).1.1 = true.
Proof.
  intros [Hbe Hbb] Hl Ho Hf Hok Hpe Hpb He Hby. unfold body_bytes in Hby.
  destruct (event_json e) as [body|] eqn:Hbody; [|done].
  pose proof (event_size _ _ Hbody) as Hsize. unfold i64_max in *.
  assert (Hno : no_room (uj_limits j) (Z.of_nat (String.length body)) db = false).
  { rewrite Hl. unfold no_room. cbn. apply orb_false_iff.
    rewrite !u64_add_small by (unfold u64_max; lia). split; apply Z.ltb_ge; lia. }
  unfold append. rewrite Hbody, with_conn_works by done. unfold append_tx. by rewrite Hno.
Qed.
End lemmas.

(** ** Chains *)

Section chains.
Context `{HC : UsageCodec} {HD : DigestLaws}.

Lemma split_line (a b a' b' : string) :
  one_line a → one_line a' →
  a +:+ String line_feed "" +:+ b = a' +:+ String line_feed "" +:+ b' →
  a = a' ∧ b = b'.
Proof.
  unfold one_line. revert a'. induction a as [|x a IH]; intros [|x' a'] Ha Ha' He; cbn in *.
  - injection He as He. by cbn in He.
  - injection He as <- _. destruct Ha'. left.
  - injection He as -> _. destruct Ha. left.
  - injection He as <- He. apply not_elem_of_cons in Ha as [_ Ha], Ha' as [_ Ha'].
    by destruct (IH a' Ha Ha' He) as [-> ->].
Qed.

Lemma chain_line rows : chained GENESIS_CHAIN rows → one_line (chain_after rows).
Proof.
  destruct rows as [|r rows _] using rev_ind; intros Hc.
  - unfold one_line. cbn. intros H. repeat (apply elem_of_cons in H as [H|H]; [discriminate H|]).
    by apply elem_of_nil in H.
  - apply chained_app in Hc as [_ [Hc _]]. unfold chain_after. rewrite last_snoc. cbn.
    rewrite Hc. apply digest_line.
Qed.

(** Two chains from the start that end in the same value hold the same bodies. *)
Lemma chain_determines a b :
  chained GENESIS_CHAIN a → chained GENESIS_CHAIN b → chain_after a = chain_after b → bodies a = bodies b.
Proof.
  revert b. induction a as [|r a IH] using rev_ind; intros b Ha Hb He;
    destruct b as [|r' b _] using rev_ind.
  - done.
  - apply chained_app in Hb as [_ [Hb _]]. unfold chain_after in He at 2. rewrite last_snoc in He.
    cbn in He. rewrite Hb in He. by apply symmetry, digest_not_genesis in He.
  - apply chained_app in Ha as [_ [Ha _]]. unfold chain_after in He at 1. rewrite last_snoc in He.
    cbn in He. rewrite Ha in He. by apply digest_not_genesis in He.
  - apply chained_app in Ha as [Ha [Hr _]], Hb as [Hb [Hr' _]].
    unfold chain_after in He. rewrite !last_snoc in He. cbn in He. rewrite Hr, Hr' in He.
    apply digest_inj, split_line in He as [He Hbody]; [|by apply chain_line..].
    unfold bodies. rewrite !fmap_app. cbn. rewrite Hbody. f_equal. by apply IH.
Qed.

Lemma check_chain_chained previous rows entries :
  check_chain previous rows = Ok entries → chained previous rows.
Proof.
  revert previous entries. induction rows as [|r rows IH]; intros previous entries H; [done|].
  cbn in H. pass H. bools. destruct (event_of_json _); [|done]. apply result_bind_Ok in H as (es & H & _).
  split; [by symmetry|]. by eapply IH.
Qed.
End chains.

(** ** Properties *)

Section properties.
Context `{HC : UsageCodec} {HL : UsageCodecLaws}.

(** however the processes that share a journal append to it, collect it, crash and start
    again, the journal holds exactly the rows that were written and not yet collected; its
    counters are their number and their bytes, both within the configured bounds; and the rows
    continue the chain of the cursor. *)
Theorem usage_journal_exact (c : UsageConfig) (cmds : list ucmd) (Hb : bounds_ok c) :
  let s := usage_run c cmds in
  let db := uw_db s in
  (∃ d, jd_rows db = drop d (written_rows (uw_written s))) ∧
  jd_pending_events db = Z.of_nat (length (jd_rows db)) ∧
  jd_pending_events db ≤ uc_journal_max_events c ∧
  jd_pending_bytes db = row_sum (jd_rows db) ∧
  jd_pending_bytes db ≤ uc_journal_max_bytes c ∧
  chained (jd_cursor_chain db) (jd_rows db).
Proof.
  destruct (usage_run_wf c cmds Hb) as (d & n & [Hh Hdb [He Hby] _ _ _]). cbv zeta.
  pose proof (rows_chained _ _ _ Hh Hdb). destruct Hdb. split_and!; try done. eauto.
Qed.

(** C33: every event the journal took is delivered exactly once: at any moment of any run the
    events still in the journal are those after some position of what was written, the ledger has
    taken at least everything before that position, and what it holds is the specification of
    what it took: one row for each event id, the first event written under it. Batches delivered
    again after a crash or by a second collector change nothing. *)
Theorem usage_delivered_once (c : UsageConfig) (cmds : list ucmd) (Hb : bounds_ok c) :
  let s := usage_run c cmds in
  ∃ collected taken, (collected ≤ taken ≤ length (written_events s))%nat ∧
    jd_rows (uw_db s) = drop collected (written_rows (uw_written s)) ∧
    Forall (λ er, row_holds er.1 er.2) (uw_written s) ∧
    ledger_events (ul_events (uw_ledger s)) = Ok <$> first_per_id (take taken (written_events s)).
Proof.
  destruct (usage_run_wf c cmds Hb) as (d & n & [Hh Hdb _ Hd Hl _]). cbv zeta.
  exists d, n. unfold written_events. rewrite length_fmap. split_and!; [lia|lia|apply Hdb|apply Hh|].
  rewrite <-fmap_take. apply ledger_holds_spec; [|done]. apply Forall_take, Hh.
Qed.

(** C34: a collection of a process that reaches its databases ends, with fuel for three accesses
    per row of the journal and one more; it reads every row of the journal, leaves the journal
    empty and the cursor on the last event written, the ledger holds every event written, and its
    report counts the new ones as inserted and the rest as duplicates. *)
Theorem collection_drains (c : UsageConfig) (cmds : list ucmd) (p : nat) (site : Site)
    (fuel : nat) (free : bool) (opens : result string unit) (now : nat → Timestamp)
    (Hb : bounds_ok c) (Hbatch : (0 < uc_collect_batch c)%nat) :
  let s := usage_run c cmds in
  uw_sites s !! p = Some site → uj_open (st_journal site) = true →
  uj_forced_unavailable (st_journal site) = false → ul_unavailable (uw_ledger s) = false →
  (3 * length (jd_rows (uw_db s)) < fuel)%nat →
  ∃ report j db l,
    Meters.collect_locked c fuel free opens (λ _, Works) now (st_journal site) (uw_db s) (uw_ledger s)
      = Some (Ok report, j, db, l) ∧
    jd_rows db = [] ∧ jd_cursor_seq db = seq_after (written_rows (uw_written s)) ∧
    ledger_events (ul_events l) = Ok <$> first_per_id (written_events s) ∧
    co_read report = Z.of_nat (length (jd_rows (uw_db s))) ∧
    co_inserted report + co_duplicates report = co_read report ∧
    co_inserted report = Z.of_nat (size (ul_events l)) - Z.of_nat (size (ul_events (uw_ledger s))) ∧
    co_cursor_seq report = jd_cursor_seq db.
Proof.
  destruct (usage_run_wf c cmds Hb) as (d & n & [Hh Hdb _ Hd Hl _]). cbv zeta.
  intros _ Ho Hf Hu Hfuel. pose proof (da_collected _ _ _ Hdb).
  assert (Hlen : length (jd_rows (uw_db (usage_run c cmds))) = (length (uw_written (usage_run c cmds)) - d)%nat).
  { rewrite (da_rows _ _ _ Hdb), length_drop. by rewrite length_written. }
  rewrite Hlen in Hfuel |- *. unfold Meters.collect_locked.
  replace (probe free opens (st_journal site)).2 with (st_journal site)
    by (unfold probe; rewrite Hf, Ho; by destruct free).
  destruct (collect_drains_from c _ d n (st_journal site) _ _ Meters.no_report now 0%nat fuel Hh Hdb Hd Hl Ho Hf
    Hu Hbatch Hfuel) as (rep & db & l & He & Hdb' & Hl' & Hr & Hid & Hsz & Hcur).
  pose proof (da_cursor_seq _ _ _ Hdb') as Hc.
  rewrite <-length_written, firstn_all in Hc.
  cbn in Hr, Hid, Hsz.
  exists rep, (st_journal site), db, l. split_and!; [exact He| |done| |lia|lia|lia|congruence].
  - rewrite (da_rows _ _ _ Hdb'). by rewrite <-length_written, drop_all.
  - apply ledger_holds_spec; [apply Hh|done].
Qed.

(** C35: an invocation is only admitted, under the policy that refuses, when the journal could be
    read and has room to spare. Whatever the processes of the data directory do after that (report
    events, collect, die, restart, lose their journal), an event that any of them
    reports through a handle that reaches the database is taken, as long as the events all of them
    reported since the admission are with it at most one more than the configured headroom, and
    have at most one byte more. An admission changes nothing on disk. *)
Theorem admitted_work_fits (c : UsageConfig) (cmds : list ucmd) (p : nat) (site : Site) (a : Meters.AdmitAccess)
    (admitted : MeteringAdmission) (j' : UsageJournal) (db' : JournalDb) (Hb : bounds_ok c)
    (Hpolicy : uc_on_journal_full c = JournalFullPolicy.Refuse)
    (Hhead : 0 ≤ uc_admission_headroom_events c ∧ 0 ≤ uc_admission_headroom_bytes c)
    (Hsite : uw_sites (usage_run c cmds) !! p = Some site)
    (Hadmit : Meters.admit_ c a (st_journal site) (uw_db (usage_run c cmds)) = (Ok admitted, j', db')) :
  admitted = AdmittedMetered ∧ db' = uw_db (usage_run c cmds) ∧
  ∀ (later : list ucmd) (q : nat) (other : Site) (e : UsageEvent) (now : Timestamp),
    let s := run_ucmds c later (usage_run c cmds <| uw_sites ::= <[p := site <| st_journal := j' |>]> |>) in
    let events := (recorded later ++ [e])%list in
    uw_sites s !! q = Some other →
    uj_open (st_journal other) = true → uj_forced_unavailable (st_journal other) = false →
    is_ok (event_json e) = true →
    Z.of_nat (length events) ≤ uc_admission_headroom_events c + 1 →
    event_bytes events ≤ uc_admission_headroom_bytes c + 1 →
    is_ok (append Works e now (st_journal other) (uw_db s)).1.1 = true.
Proof.
  destruct (usage_run_wf c cmds Hb) as (d & n & Hwf). pose proof Hwf as [Hh Hdb _ _ _ Hsites].
  destruct (Hsites p site Hsite) as [Hlimits Hcol]. unfold Meters.admit_ in Hadmit.
  destruct (Meters.admit_journal a _ _) as [[r j1] db1] eqn:Ha. rewrite Hpolicy in Hadmit.
  destruct r as [[]|]; [|done]. injection Hadmit as <- <- <-.
  apply admit_journal_Ok in Ha as (-> & Hl & _ & _ & Hre & Hrb).
  split; [done|]. split; [done|]. cbv zeta. intros later q other e now Hq Ho Hf Hjson Hevents Hbytes.
  set (s1 := usage_run c cmds <| uw_sites ::= <[p := site <| st_journal := j1 |>]> |>) in *.
  assert (Hwf1 : usage_wf c s1 d n).
  { apply (wf_site_insert c d n _ p (site <| st_journal := j1 |>) Hwf). split; cbn; [congruence|done]. }
  destruct (pending_grows c later s1 d n Hb Hwf1) as (d' & n' & Hwf' & He & Hby).
  change (uw_db s1) with (uw_db (usage_run c cmds)) in He, Hby. rewrite length_app in Hevents. rewrite event_bytes_app in Hbytes.
  unfold event_bytes in Hbytes at 2. cbn in Hevents, Hbytes.
  destruct (pending_nonneg _ _ _ (uf_history _ _ _ _ Hwf') (uf_db _ _ _ _ Hwf')) as [Hpe Hpb].
  rewrite Hlimits in Hre, Hrb. cbn in Hre, Hrb. unfold u64_saturating_sub in *.
  destruct (uf_sites _ _ _ _ Hwf' q other Hq) as [Hlim _]. apply (append_fits c); [done..|lia|lia].
Qed.
End properties.

Section tampering.
Context `{HC : UsageCodec} {HL : UsageCodecLaws} {HD : DigestLaws}.

(** C36: whoever changes the rows of the journal that are not yet collected, in any way that
    leaves the chain value of the last row as it was (edited, inserted, reordered or removed rows
    before it), stops the collector: reading the whole of it is an error unless the bodies are
    those that were written. The digest is taken to be free of collisions. *)
Theorem tampering_stops_collection (c : UsageConfig) (cmds : list ucmd) (j : UsageJournal)
    (rows : list JournalRow) (limit : nat) (Hb : bounds_ok c) :
  let db := uw_db (usage_run c cmds) in
  let forged := db <| jd_rows := rows |> in
  last_chain forged = last_chain db →
  Forall (λ r, jd_cursor_seq db < jr_seq r) rows → (length rows ≤ limit)%nat →
  bodies rows ≠ bodies (jd_rows db) →
  is_err (read_batch Works limit j forged).1.1 = true.
Proof.
  destruct (usage_run_wf c cmds Hb) as (d & n & [Hh Hdb _ _ _ _]). cbv zeta. intros Hlast Hseq Hlen Hne.
  destruct (read_batch _ _ _ _) as [[r j'] db'] eqn:Hr. destruct r as [[[cur ch] entries]|]; [|done].
  destruct Hne. unfold read_batch in Hr. destruct (with_conn _ _ _ _) as [[a j1] db1] eqn:Hw.
  apply with_conn_spec in Hw as (_ & _ & Hw). destruct a as [[[cur1 ch1] batch]|]; [|done].
  destruct Hw as (-> & Hf & _). injection Hf as <- <- <- <-. cbn in Hr.
  assert (Hafter : List.filter (λ r, jd_cursor_seq (uw_db (usage_run c cmds)) <? jr_seq r) rows = rows).
  { apply (filter_suffix _ [] rows); [constructor|]. eapply Forall_impl; [exact Hseq|].
    intros r ?. by apply Z.ltb_lt. }
  rewrite Hafter, take_ge in Hr by done.
  destruct (check_chain _ rows) as [es|] eqn:Hc; [|done]. apply check_chain_chained in Hc.
  pose proof Hh as [_ Hch _]. destruct (rows_end _ _ _ Hdb) as [Hend _].
  set (before := take d (written_rows (uw_written (usage_run c cmds)))).
  assert (Hall : chained GENESIS_CHAIN (before ++ rows)%list).
  { apply chained_app. rewrite <-(take_drop d), chained_app in Hch. split; [apply Hch|].
    by rewrite (da_cursor_chain _ _ _ Hdb) in Hc. }
  assert (Hsame : chain_after (before ++ rows)%list = chain_after (written_rows (uw_written (usage_run c cmds)))).
  { rewrite <-Hend, <-Hlast. unfold chain_after, last_chain. cbn [jd_rows set_field]. rewrite last_app.
    destruct (last rows); [done|]. cbn. by rewrite (da_cursor_chain _ _ _ Hdb). }
  pose proof (chain_determines _ _ Hall Hch Hsame) as Hbodies.
  rewrite <-(take_drop d (written_rows _)) in Hbodies at 1.
  unfold bodies in Hbodies. rewrite !fmap_app in Hbodies. apply app_inv_head in Hbodies.
  by rewrite (da_rows _ _ _ Hdb).
Qed.
End tampering.

(** ** Witnesses *)

Lemma usage_journal_exact_witness :
  let s := usage_run config_use cmds_race in
  length (jd_rows (uw_db s)) = 2%nat ∧ jd_pending_bytes (uw_db s) = 10 ∧
  jd_pending_events (uw_db s) ≤ uc_journal_max_events config_use ∧
  chained (jd_cursor_chain (uw_db s)) (jd_rows (uw_db s)).
Proof.
  split; [by vm_compute|]. split; [by vm_compute|].
  pose proof (usage_journal_exact config_use cmds_race bounds_use) as (_ & _ & H1 & _ & _ & H2).
  exact (conj H1 H2).
Defined.

(** After the crash both processes deliver the batch again: the ledger has its two ids once, and
    the two events written after it still wait. *)
Lemma usage_delivered_once_witness :
  let s := usage_run config_use cmds_race in
  length (written_events s) = 4%nat ∧ size (ul_events (uw_ledger s)) = 2%nat ∧
  ul_duplicates (uw_ledger s) = 4 ∧
  ∃ collected taken, (collected ≤ taken ≤ length (written_events s))%nat ∧
    ledger_events (ul_events (uw_ledger s)) = Ok <$> first_per_id (take taken (written_events s)).
Proof.
  split; [by vm_compute|]. split; [by vm_compute|]. split; [by vm_compute|].
  destruct (usage_delivered_once config_use cmds_race bounds_use) as (d & n & H & _ & _ & Hl).
  exact (ex_intro _ d (ex_intro _ n (conj H Hl))).
Defined.

Definition journal_use : UsageJournal := open_journal (UsageConf.limits config_use) (Ok ()).
Definition clock_use : nat → Timestamp := λ _, seconds 5000.

Lemma restart_reads_three : length (jd_rows (uw_db (usage_run config_use cmds_restart))) = 3%nat.
Proof. by vm_compute. Qed.
Lemma restart_site : uw_sites (usage_run config_use cmds_restart) !! 0%nat = Some (mkSite journal_use None).
Proof. by vm_compute. Qed.
Lemma restart_ledger : ul_unavailable (uw_ledger (usage_run config_use cmds_restart)) = false.
Proof. by vm_compute. Qed.

Lemma collection_drains_witness :
  ∃ report j db l,
    Meters.collect_locked config_use 13 true (Ok ()) (λ _, Works) clock_use journal_use
      (uw_db (usage_run config_use cmds_restart)) (uw_ledger (usage_run config_use cmds_restart))
    = Some (Ok report, j, db, l) ∧
    jd_rows db = [] ∧ co_read report = 3.
Proof.
  assert (Hfuel : (3 * length (jd_rows (uw_db (usage_run config_use cmds_restart))) < 13)%nat)
    by (rewrite restart_reads_three; lia).
  destruct (collection_drains config_use cmds_restart 0 (mkSite journal_use None) 13 true (Ok ()) clock_use
    bounds_use (Nat.lt_0_succ 1) restart_site eq_refl eq_refl restart_ledger Hfuel)
    as (rep & j & db & l & He & Hr & _ & _ & Hc & _).
  exists rep, j, db, l. split; [exact He|]. split; [exact Hr|]. rewrite Hc, restart_reads_three. reflexivity.
Defined.

Definition cmds_one : list ucmd := [UStart 0 (Ok ()); URecord 0 Works event_1 0].
Definition access_use : Meters.AdmitAccess := Meters.mkAdmitAccess Works true (Ok ()) Works.
Lemma admitted_use :
  Meters.admit_ config_use access_use journal_use (uw_db (usage_run config_use cmds_one))
  = (Ok AdmittedMetered, journal_use, uw_db (usage_run config_use cmds_one)).
Proof. by vm_compute. Qed.

(** After the admission by one process, the other reports an event, a collection of the first dies half
    way, and the one that starts in its place reports the next. *)
Definition cmds_later : list ucmd :=
  [UStart 1 (Ok ()); URecord 1 Works event_2 (seconds 2001); UCollect 0 true (Ok ()); UStep 0 Works (seconds 2002);
   UCrash 0; UStart 0 (Ok ())].
Definition site_use : Site := mkSite journal_use None.
Definition world_later : UsageWorld :=
  run_ucmds config_use cmds_later (usage_run config_use cmds_one
    <| uw_sites ::= <[0%nat := site_use <| st_journal := journal_use |>]> |>).
Lemma one_site : uw_sites (usage_run config_use cmds_one) !! 0%nat = Some site_use.
Proof. by vm_compute. Qed.
Lemma later_site : uw_sites world_later !! 0%nat = Some site_use.
Proof. by vm_compute. Qed.

Lemma admitted_work_fits_witness :
  length (jd_rows (uw_db world_later)) = 2%nat ∧
  is_ok (append Works event_1' (seconds 3001) journal_use (uw_db world_later)).1.1 = true.
Proof.
  split; [by vm_compute|].
  refine (proj2 (proj2 (admitted_work_fits config_use cmds_one 0 site_use access_use AdmittedMetered journal_use
    (uw_db (usage_run config_use cmds_one)) bounds_use eq_refl _ one_site admitted_use)) cmds_later 0%nat site_use
    event_1' (seconds 3001) later_site eq_refl eq_refl eq_refl _ _).
  - split; vm_compute; discriminate.
  - vm_compute. discriminate.
  - vm_compute. discriminate.
Defined.

(** A row whose body is exchanged for another's. *)
Definition forged_use : list JournalRow :=
  match jd_rows (uw_db (usage_run config_use cmds_crash)) with
  | r :: rows => (r <| jr_body := "{2}" |>) :: rows
  | [] => []
  end.

Lemma tampering_stops_collection_witness :
  is_err (read_batch Works 10 journal_use
    (uw_db (usage_run config_use cmds_crash) <| jd_rows := forged_use |>)).1.1 = true.
Proof.
  apply (tampering_stops_collection config_use cmds_crash
    journal_use forged_use 10 bounds_use).
  - by vm_compute.
  - vm_compute. repeat constructor.
  - vm_compute. lia.
  - by vm_compute.
Defined.

(** The newest rows are not covered: nothing tells the collector that rows after the last one are
    missing, and it reports success. *)
Example truncated_tail_passes :
  let db := uw_db (usage_run config_use cmds_crash) in
  let cut := db <| jd_rows := take 1 (jd_rows db) |> in
  length (jd_rows db) = 3%nat ∧
  match Meters.collect_locked config_use 13 true (Ok ()) (λ _, Works) clock_use
          journal_use cut empty_usage_table with
  | Some (Ok report, _, _, _) => co_read report = 1
  | _ => False
  end.
Proof. split; by vm_compute. Qed.
