(* ===== verification/Calendar.v ===== *)
(** * Local time: calendars and time zones

    The schedules of [crates/application/src/services/triggers/cron.rs] are stated in local
    wall-clock time, which the program reads through a calendar and a time zone database it does
    not contain ([chrono], [chrono-tz]). Both are interfaces here: [Calendar] and [TimeZone] are
    the operations the program calls, [CalendarLaws] and [ZoneLaws] what their documentation
    promises. The proleptic Gregorian calendar and zones given by a table of transitions are
    instances, so the laws can be met and schedules can be evaluated. *)

From S2P Require Import Prelude.

(** ** Calendars *)

(** The operations of [chrono::NaiveDate]. *)
Class Calendar := {
  NaiveDate : Type;
  year : NaiveDate → Z;
  month : NaiveDate → Z;
  day : NaiveDate → Z;
  num_days_from_sunday : NaiveDate → Z;
  succ_opt : NaiveDate → option NaiveDate;
  from_ymd_opt : Z → Z → Z → option NaiveDate;
  num_days_from_ce : NaiveDate → Z;
  MIN_YEAR : Z;
  MAX_YEAR : Z
}.

(** Dates are ordered as their year, month and day. *)
Definition ymd_lt `{Calendar} (a b : NaiveDate) : Prop :=
  year a < year b
  ∨ year a = year b ∧ (month a < month b ∨ month a = month b ∧ day a < day b).

Class CalendarLaws `{Calendar} := {
  date_inj (a b : NaiveDate) : num_days_from_ce a = num_days_from_ce b → a = b;
  date_order (a b : NaiveDate) : num_days_from_ce a < num_days_from_ce b ↔ ymd_lt a b;
  date_month (a : NaiveDate) : 1 ≤ month a ≤ 12;
  date_day (a : NaiveDate) : 1 ≤ day a;
  date_year_length (a b : NaiveDate) :
    num_days_from_ce b - num_days_from_ce a < 366 * (Z.max 0 (year b - year a) + 1);
  succ_next (a b : NaiveDate) : succ_opt a = Some b → num_days_from_ce b = num_days_from_ce a + 1;
  succ_total (a : NaiveDate) : year a < MAX_YEAR → ∃ b, succ_opt a = Some b;
  ymd_fields (y m d : Z) (a : NaiveDate) :
    from_ymd_opt y m d = Some a → year a = y ∧ month a = m ∧ day a = d;
  ymd_first_total (y m : Z) :
    MIN_YEAR ≤ y ≤ MAX_YEAR → 1 ≤ m ≤ 12 → ∃ a, from_ymd_opt y m 1 = Some a
}.

(** ** Dates with a time of day *)

(** [chrono::NaiveDateTime]: a date, the second of the day and the nanosecond. *)
Record NaiveDateTime `{Calendar} := mkDateTime {
  dt_date : NaiveDate;
  dt_secs : Z;
  dt_nanos : Z
}.
Arguments mkDateTime {_} _ _ _.
Arguments dt_date {_} _.
Arguments dt_secs {_} _.
Arguments dt_nanos {_} _.

Section date_time.
Context `{Calendar}.

Definition hour (t : NaiveDateTime) : Z := dt_secs t / 3600.
Definition minute (t : NaiveDateTime) : Z := dt_secs t / 60 mod 60.
Definition second (t : NaiveDateTime) : Z := dt_secs t mod 60.

(** [t.with_nanosecond(0)] *)
Definition whole_second (t : NaiveDateTime) : NaiveDateTime := mkDateTime (dt_date t) (dt_secs t) 0.

(** [date.and_hms_opt(h, m, s)] *)
Definition and_hms_opt (d : NaiveDate) (h m s : Z) : option NaiveDateTime :=
  if (0 <=? h) && (h <? 24) && (0 <=? m) && (m <? 60) && (0 <=? s) && (s <? 60)
  then Some (mkDateTime d (h * 3600 + m * 60 + s) 0) else None.

(** [t + Duration::seconds(n)], [n] at most a day; [None] is its panic past the last date. *)
Definition plus_seconds (t : NaiveDateTime) (n : Z) : option NaiveDateTime :=
  let s := dt_secs t + n in
  if s <? 86400 then Some (mkDateTime (dt_date t) s (dt_nanos t))
  else d ← succ_opt (dt_date t); Some (mkDateTime d (s - 86400) (dt_nanos t)).

(** The seconds since day 0, and the order of local times. *)
Definition local_second (t : NaiveDateTime) : Z :=
  num_days_from_ce (dt_date t) * 86400 + dt_secs t.

(** A time of day in range. *)
Definition dt_wf (t : NaiveDateTime) : Prop :=
  0 ≤ dt_secs t < 86400 ∧ 0 ≤ dt_nanos t < nanoseconds_per_second.

(** [a < b] *)
Definition local_lt (a b : NaiveDateTime) : Prop :=
  local_second a < local_second b
  ∨ local_second a = local_second b ∧ dt_nanos a < dt_nanos b.

(** A local time on a whole second. *)
Definition on_second (t : NaiveDateTime) : Prop := dt_wf t ∧ dt_nanos t = 0.
End date_time.

(** ** Time zones *)

(** [chrono::LocalResult<DateTime<Tz>>], the instants in UTC. *)
Inductive LocalResult : Type :=
| NoInstant
| Single (t : Timestamp)
| Ambiguous (earlier later : Timestamp).

(** The operations of [chrono_tz::Tz]. *)
Class TimeZone `{Calendar} := {
  naive_local : Timestamp → NaiveDateTime;
  from_local_datetime : NaiveDateTime → LocalResult
}.

(** The instant the program takes for a local time: the earlier of two. *)
Definition instant_of `{TimeZone} (l : NaiveDateTime) : option Timestamp :=
  match from_local_datetime l with
  | NoInstant => None
  | Single t => Some t
  | Ambiguous earlier _ => Some earlier
  end.

(** The clock of a zone shows each local time from its first instant on: a local time a zone
    skips does not come back later, and an earlier local time is not shown for the first time
    after a later one. *)
Class ZoneLaws `{TimeZone} := {
  local_wf (t : Timestamp) : dt_wf (naive_local t);
  instant_total (t : Timestamp) :
    on_second (naive_local t) → ∃ u, instant_of (naive_local t) = Some u;
  instant_local (l : NaiveDateTime) (t : Timestamp) :
    on_second l → instant_of l = Some t → naive_local t = l;
  instant_first (l : NaiveDateTime) (t u : Timestamp) :
    on_second l → instant_of l = Some t → ¬ local_lt (naive_local u) l → t ≤ u
}.

(** ** Facts about local times *)

Section date_time_facts.
Context `{CalendarLaws}.

Lemma plus_seconds_second t n t' :
  plus_seconds t n = Some t' → local_second t' = local_second t + n.
Proof.
  unfold plus_seconds, local_second. case_match; [intros [= <-]; cbn; lia|].
  destruct (succ_opt _) as [d|] eqn:Hd; cbn; [|done]. intros [= <-]. cbn.
  apply succ_next in Hd. lia.
Qed.

Lemma plus_seconds_total t n :
  year (dt_date t) < MAX_YEAR → ∃ t', plus_seconds t n = Some t'.
Proof.
  intros Hy. unfold plus_seconds. case_match; [eauto|].
  destruct (succ_total _ Hy) as [d ->]. cbn. eauto.
Qed.

Lemma plus_seconds_on_second t n t' :
  on_second t → 0 ≤ n ≤ 86400 → plus_seconds t n = Some t' → on_second t'.
Proof.
  intros [[Hs Hn] Hz] Hr. unfold plus_seconds. case_match eqn:Hlt.
  - intros [= <-]. unfold on_second, dt_wf. cbn. lia.
  - destruct (succ_opt _); cbn; [|done]. intros [= <-]. unfold on_second, dt_wf. cbn. lia.
Qed.

Lemma local_second_inj t t' :
  on_second t → on_second t' → local_second t = local_second t' → t = t'.
Proof.
  intros [[Hs _] Hn] [[Hs' _] Hn']. unfold local_second. intros Heq.
  destruct t as [d s n], t' as [d' s' n']; cbn in *. subst.
  assert (Hd : num_days_from_ce d = num_days_from_ce d') by lia.
  rewrite Hd in Heq. apply date_inj in Hd as ->. f_equal. lia.
Qed.

Lemma hms_of t : 0 ≤ dt_secs t < 86400 →
  dt_secs t = hour t * 3600 + minute t * 60 + second t
  ∧ 0 ≤ hour t < 24 ∧ 0 ≤ minute t < 60 ∧ 0 ≤ second t < 60.
Proof. unfold hour, minute, second. Z.to_euclidean_division_equations. lia. Qed.

Lemma hms_fields d h m s : 0 ≤ m < 60 → 0 ≤ s < 60 →
  let t := mkDateTime d (h * 3600 + m * 60 + s) 0 in hour t = h ∧ minute t = m ∧ second t = s.
Proof. intros ??. unfold hour, minute, second. cbn. Z.to_euclidean_division_equations. lia. Qed.

(** Dates of two local times. *)
Lemma local_second_date t t' : dt_wf t → dt_wf t' →
  local_second t ≤ local_second t' → num_days_from_ce (dt_date t) ≤ num_days_from_ce (dt_date t').
Proof. unfold local_second, dt_wf. lia. Qed.

Lemma date_le_year a b : num_days_from_ce a ≤ num_days_from_ce b → year a ≤ year b.
Proof.
  intros Hle. destruct (decide (num_days_from_ce a = num_days_from_ce b)) as [He|Hne].
  - by apply date_inj in He as ->.
  - assert (Hlt : num_days_from_ce a < num_days_from_ce b) by lia.
    apply date_order in Hlt. unfold ymd_lt in Hlt. lia.
Qed.

Lemma date_le_month a b :
  num_days_from_ce a ≤ num_days_from_ce b → year a = year b → month a ≤ month b.
Proof.
  intros Hle. destruct (decide (num_days_from_ce a = num_days_from_ce b)) as [He|Hne].
  - by apply date_inj in He as ->.
  - assert (Hlt : num_days_from_ce a < num_days_from_ce b) by lia.
    apply date_order in Hlt. unfold ymd_lt in Hlt. lia.
Qed.
End date_time_facts.
