(* ===== verification/Cron.v ===== *)
(** * Cron expressions

    [crates/application/src/services/triggers/cron.rs]: the fields of an expression as bit
    masks, the expression itself, the search of the next matching local time, and the instants
    it stands for in a time zone. The loops run with more turns than they can take; the
    theorems of [CronProps] say so. *)

From S2P Require Import Prelude Ids Egress Calendar.
From Stdlib Require Import Ascii.

Open Scope string_scope.
Open Scope Z_scope.

(** ** Text *)

(** The whitespace character a UTF-8 string starts with ([char::is_whitespace]): its bytes. *)
Definition whitespace_prefix (s : string) : nat :=
  let byte i := match String.get i s with Some c => byte_of c | None => -1 end in
  if bool_decide (byte 0%nat ∈ [9; 10; 11; 12; 13; 32]) then 1
  else if (byte 0%nat =? 194) && bool_decide (byte 1%nat ∈ [133; 160]) then 2
  else if (byte 0%nat =? 225) && (byte 1%nat =? 154) && (byte 2%nat =? 128) then 3
  else if (byte 0%nat =? 226) && (byte 1%nat =? 128)
          && ((128 <=? byte 2%nat) && (byte 2%nat <=? 138)
              || bool_decide (byte 2%nat ∈ [168; 169; 175])) then 3
  else if (byte 0%nat =? 226) && (byte 1%nat =? 129) && (byte 2%nat =? 159) then 3
  else if (byte 0%nat =? 227) && (byte 1%nat =? 128) && (byte 2%nat =? 128) then 3
  else 0.

(** [s.split_whitespace()]: [skip] bytes of a whitespace character are left, [word] is the word
    being read. *)
Fixpoint split_whitespace_from (skip : nat) (word s : string) : list string :=
  let flush rest := if word == "" then rest else word :: rest in
  match s with
  | EmptyString => flush []
  | String c rest =>
      match skip with
      | S n => split_whitespace_from n word rest
      | O =>
          match whitespace_prefix s with
          | O => split_whitespace_from 0 (word +:+ String c "") rest
          | S n => flush (split_whitespace_from n "" rest)
          end
      end
  end.
Definition split_whitespace (s : string) : list string := split_whitespace_from 0 "" s.

(** [s.trim()] *)
Fixpoint trim_start (skip : nat) (s : string) : string :=
  match s with
  | EmptyString => ""
  | String _ rest =>
      match skip, whitespace_prefix s with
      | S n, _ => trim_start n rest
      | O, S n => trim_start n rest
      | O, O => s
      end
  end.
Fixpoint trim_end (s : string) : string :=
  match s with
  | EmptyString => ""
  | String c rest => if trim_start 0 s == "" then "" else String c (trim_end rest)
  end.
Definition trim (s : string) : string := trim_end (trim_start 0 s).

(** [s.split(c)] *)
Fixpoint split_on (c : ascii) (s : string) : list string :=
  match s with
  | EmptyString => [""]
  | String d r =>
      if d == c then "" :: split_on c r
      else match split_on c r with
           | [] => [String d ""]
           | p :: ps => String d p :: ps
           end
  end.

(** [s.parse::<u32>()]: decimal digits in range, after an optional plus sign. *)
Definition parse_u32 (s : string) : option Z :=
  let digits := match s with String "+" r => r | _ => s end in
  if negb (byte_len digits =? 0) && bytes_all is_ascii_digit digits
     && (digits_value digits <=? u32_max)
  then Some (digits_value digits) else None.

Definition to_ascii_uppercase_byte (c : ascii) : ascii :=
  if is_ascii_lowercase c then ascii_of_N (N_of_ascii c - 32) else c.
Definition to_ascii_uppercase (s : string) : string :=
  String.string_of_list_ascii (map to_ascii_uppercase_byte (String.list_ascii_of_string s)).

(** [names.iter().position(|n| n == s)] *)
Fixpoint position (s : string) (names : list string) : option Z :=
  match names with
  | [] => None
  | n :: rest => if n == s then Some 0 else Z.succ <$> position s rest
  end.

(** ** Fields *)

(** [crates/application/src/services/triggers/cron.rs:38-44 Field] *)
Record Field := mkField { bits : Z; any : bool }.
#[global] Instance Field_eq_dec : EqDecision Field.
Proof. solve_decision. Defined.

(** [crates/application/src/services/triggers/cron.rs:47-49 matches] *)
Definition matches (f : Field) (v : Z) : bool :=
  (v <? 64) && negb (Z.land (bits f) (Z.shiftl 1 v) =? 0).

(** [crates/application/src/services/triggers/cron.rs:63-65 MONTHS] *)
Definition MONTHS : list string :=
  ["JAN"; "FEB"; "MAR"; "APR"; "MAY"; "JUN"; "JUL"; "AUG"; "SEP"; "OCT"; "NOV"; "DEC"].
(** [crates/application/src/services/triggers/cron.rs:66-66 WEEKDAYS] *)
Definition WEEKDAYS : list string := ["SUN"; "MON"; "TUE"; "WED"; "THU"; "FRI"; "SAT"].

(** [crates/application/src/services/triggers/cron.rs:68-81 value] *)
Definition value (raw : string) (min max : Z) (names : list string) (names_from : Z)
    : result string Z :=
  match parse_u32 raw with
  | Some n =>
      when! (n <? min) || (max <? n) return!
        Err ("`" +:+ raw +:+ "` is outside " +:+ pretty min +:+ "-" +:+ pretty max);;
      Ok n
  | None =>
      match position (to_ascii_uppercase raw) names with
      | Some i => Ok (i + names_from)
      | None => Err ("`" +:+ raw +:+ "` is not a number or a name")
      end
  end.

(** One part of a field: the values from [pt_lo] to [pt_hi] in steps of [pt_step]. *)
Record Part := mkPart { pt_lo : Z; pt_hi : Z; pt_step : Z; pt_star : bool }.

(** [crates/application/src/services/triggers/cron.rs:91-123 field (part)] *)
Definition part_of (part : string) (min max : Z) (names : list string) (names_from : Z)
    : result string Part :=
  '(range, step, slash) ←
    match split_once "/" part with
    | Some (r, s) =>
        match parse_u32 s with
        | None => Err ("step `" +:+ s +:+ "` is not a number")
        | Some s => when! s =? 0 return! Err "a step must be >= 1";; Ok (r, s, true)
        end
    | None => Ok (part, 1, false)
    end;
  if range == "*" then Ok (mkPart min max step (step =? 1))
  else match split_once "-" range with
       | Some (a, b) =>
           a ← value a min max names names_from;
           b ← value b min max names names_from;
           when! b <? a return! Err ("range `" +:+ range +:+ "` is reversed");;
           Ok (mkPart a b step false)
       | None =>
           a ← value range min max names names_from;
           Ok (mkPart a (if slash : bool then max else a) step false)
       end.

(** [crates/application/src/services/triggers/cron.rs:124-128 field (bits)] The step is a 32-bit
    addition, which a release build lets wrap. *)
Fixpoint set_bits (fuel : nat) (v hi step bits : Z) : Z :=
  match fuel with
  | O => bits
  | S n =>
      if v <=? hi then set_bits n (u32_add v step) hi step (Z.lor bits (Z.shiftl 1 v)) else bits
  end.

(** Turns of the loop above: no field has a value over 59. *)
Definition BIT_STEPS : nat := 64.

(** [crates/application/src/services/triggers/cron.rs:83-128 field] *)
Definition field (raw : string) (min max : Z) (names : list string) (names_from : Z)
    : result string Field :=
  when! raw == "" return! Err "empty field";;
  foldl (λ acc part,
      f ← acc;
      p ← part_of part min max names names_from;
      Ok (mkField (set_bits BIT_STEPS (pt_lo p) (pt_hi p) (pt_step p) (bits f))
            (any f || pt_star p)))
    (Ok (mkField 0 false)) (split_on "," raw).

(** ** Expressions *)

(** [crates/application/src/services/triggers/cron.rs:52-61 CronSchedule] *)
Record CronSchedule := mkSchedule {
  cs_seconds : Field;
  cs_minutes : Field;
  cs_hours : Field;
  cs_days : Field;
  cs_months : Field;
  cs_weekdays : Field;
  cs_has_seconds : bool
}.

(** [crates/application/src/services/triggers/cron.rs:32-34 SEARCH_YEARS] *)
Definition SEARCH_YEARS : Z := 5.
(** [crates/application/src/services/triggers/cron.rs:35-36 MAX_LOCAL_STEPS] *)
Definition MAX_LOCAL_STEPS : positive := 200000.

(** What a search comes to; [Overflow] is the panic of date arithmetic past the last date. *)
Inductive Found (A : Type) : Type :=
| At (t : A)
| Nowhere
| Overflow.
Arguments At {A} _.
Arguments Nowhere {A}.
Arguments Overflow {A}.

Definition found {A} (f : Found A) : option A := match f with At t => Some t | _ => None end.

Section schedule.
Context `{Calendar}.

(** [crates/application/src/services/triggers/cron.rs:197-206 day_matches] *)
Definition day_matches (s : CronSchedule) (d : NaiveDate) : bool :=
  let dom := matches (cs_days s) (day d) in
  let dow := matches (cs_weekdays s) (num_days_from_sunday d) in
  match any (cs_days s), any (cs_weekdays s) with
  | true, true => true
  | true, false => dow
  | false, true => dom
  | false, false => dom || dow
  end.

(** [.ok()?] of an operation, and an operation that panics. *)
Definition or_nowhere {A B} (o : option A) (k : A → B + Found A) : B + Found A :=
  match o with Some a => k a | None => inr Nowhere end.
Definition or_overflow {A} (o : option A) : A + Found A :=
  match o with Some a => inl a | None => inr Overflow end.

(** [crates/application/src/services/triggers/cron.rs:221-248 next_local_after (loop body)] The
    next time to look at, or the result. *)
Definition search_step (s : CronSchedule) (limit : Z) (t : NaiveDateTime)
    : NaiveDateTime + Found NaiveDateTime :=
  let d := dt_date t in
  if negb (year d <=? limit) then inr Nowhere
  else if negb (matches (cs_months s) (month d)) then
    let '(y, m) := if month d =? 12 then (year d + 1, 1) else (year d, month d + 1) in
    or_nowhere (d ← from_ymd_opt y m 1; and_hms_opt d 0 0 0) inl
  else if negb (day_matches s d) then
    or_nowhere (d ← succ_opt d; and_hms_opt d 0 0 0) inl
  else if negb (matches (cs_hours s) (hour t)) then
    or_nowhere (and_hms_opt d (hour t) 0 0) (λ t, or_overflow (plus_seconds t 3600))
  else if negb (matches (cs_minutes s) (minute t)) then
    or_nowhere (and_hms_opt d (hour t) (minute t) 0) (λ t, or_overflow (plus_seconds t 60))
  else if negb (matches (cs_seconds s) (second t)) then or_overflow (plus_seconds t 1)
  else inr (At t).

(** Turns of the search: more than the seconds of [SEARCH_YEARS] + 1 years. *)
Definition SEARCH_STEPS : positive := 268435456.

(** [crates/application/src/services/triggers/cron.rs:208-241 next_local_after] *)
Definition next_local_after (s : CronSchedule) (after : NaiveDateTime) : Found NaiveDateTime :=
  match plus_seconds (whole_second after) 1 with
  | None => Overflow
  | Some t =>
      match loop SEARCH_STEPS (search_step s (year (dt_date after) + SEARCH_YEARS)) t with
      | inl _ => Nowhere
      | inr r => r
      end
  end.

(** [crates/application/src/services/triggers/cron.rs:159-160 parse (ctx)] *)
Definition ctx {A} (name : string) (r : result string A) : result string A :=
  map_err (λ e, name +:+ ": " +:+ e) r.

(** [crates/application/src/services/triggers/cron.rs:135-147 parse (macros)] *)
Definition expand (expression : string) : result string string :=
  let other := trim expression in
  if (other == "@yearly") || (other == "@annually") then Ok "0 0 1 1 *"
  else if other == "@monthly" then Ok "0 0 1 * *"
  else if other == "@weekly" then Ok "0 0 * * 0"
  else if (other == "@daily") || (other == "@midnight") then Ok "0 0 * * *"
  else if other == "@hourly" then Ok "0 * * * *"
  else if is_some (strip_prefix "@" other) then Err ("unknown macro `" +:+ other +:+ "`")
  else Ok other.

(** [crates/application/src/services/triggers/cron.rs:161-188 parse (fields)] *)
Definition schedule_of (seconds : option string) (minute hour day month weekday : string)
    : result string CronSchedule :=
  s ← match seconds with
      | Some raw => ctx "second" (field raw 0 59 [] 0)
      | None => Ok (mkField 1 false)
      end;
  mi ← ctx "minute" (field minute 0 59 [] 0);
  h ← ctx "hour" (field hour 0 23 [] 0);
  d ← ctx "day-of-month" (field day 1 31 [] 0);
  mo ← ctx "month" (field month 1 12 MONTHS 1);
  w ← ctx "day-of-week" (field weekday 0 7 WEEKDAYS 0);
  let w := if matches w 7 then mkField (Z.lor (bits w) 1) (any w) else w in
  Ok (mkSchedule s mi h d mo w (is_some seconds)).

(** [crates/application/src/services/triggers/cron.rs:131-190 parse] [None] is the panic of the
    probe when the calendar has no year 2000. *)
Definition parse (expression : string) : option (result string CronSchedule) :=
  let schedule :=
    expanded ← expand expression;
    match split_whitespace expanded with
    | [mi; h; d; mo; w] => schedule_of None mi h d mo w
    | [s; mi; h; d; mo; w] => schedule_of (Some s) mi h d mo w
    | parts =>
        Err ("a cron expression has 5 fields (minute hour day month weekday) or 6 with a leading "
               +:+ "second, not " +:+ pretty (length parts))
    end in
  match schedule with
  | Err e => Some (Err e)
  | Ok s =>
      probe ← (d ← from_ymd_opt 2000 1 1; and_hms_opt d 0 0 0);
      Some (if is_none (found (next_local_after s probe))
            then Err ("`" +:+ expression +:+ "` never matches within " +:+ pretty SEARCH_YEARS
                        +:+ " years")
            else Ok s)
  end.
End schedule.

(** ** Instants *)

Section instants.
Context `{TimeZone}.

(** [crates/application/src/services/triggers/cron.rs:258-267 next_after (loop body)] The local
    time to search on from, or the result. *)
Definition instant_step (s : CronSchedule) (after : Timestamp) (local : NaiveDateTime)
    : NaiveDateTime + option Timestamp :=
  match found (next_local_after s local) with
  | None => inr None
  | Some local =>
      match instant_of local with
      | None => inl local
      | Some utc => if after <? utc then inr (Some utc) else inl local
      end
  end.

(** [crates/application/src/services/triggers/cron.rs:243-261 next_after] *)
Definition next_after (s : CronSchedule) (after : Timestamp) : option Timestamp :=
  match loop MAX_LOCAL_STEPS (instant_step s after) (naive_local after) with
  | inl _ => None
  | inr r => r
  end.

(** [crates/application/src/services/triggers/cron.rs:263-285 between] [room] is how many more
    fit in the answer. *)
Fixpoint between (s : CronSchedule) (after until : Timestamp) (room : nat)
    : list Timestamp * bool :=
  match next_after s after with
  | None => ([], false)
  | Some t =>
      if until <? t then ([], false)
      else match room with
           | O => ([], true)
           | S n => let '(out, more) := between s t until n in (t :: out, more)
           end
  end.
End instants.

(** ** Decimal text

    A number that is not negative is written in digits that read back as it. *)

Lemma digits_value_cons d s :
  digits_value (String d s) = digit_value d * 10 ^ Z.of_nat (String.length s) + digits_value s.
Proof.
  unfold digits_value. cbn [String.list_ascii_of_string fold_left].
  assert (Hg : ∀ s acc, fold_left (λ acc c, acc * 10 + digit_value c) (String.list_ascii_of_string s) acc
    = acc * 10 ^ Z.of_nat (String.length s)
      + fold_left (λ acc c, acc * 10 + digit_value c) (String.list_ascii_of_string s) 0).
  { clear. intros s. induction s as [|x s IH]; intros acc; cbn [String.list_ascii_of_string fold_left String.length];
      [lia|].
    rewrite (IH (acc * 10 + _)), (IH (0 * 10 + _)), Nat2Z.inj_succ, Z.pow_succ_r by lia. lia. }
  rewrite Hg. lia.
Qed.

Lemma pretty_N_char_digit x : (x < 10)%N →
  is_ascii_digit (pretty_N_char x) = true ∧ digit_value (pretty_N_char x) = Z.of_N x.
Proof.
  intros Hx. assert (x = 0 ∨ x = 1 ∨ x = 2 ∨ x = 3 ∨ x = 4 ∨ x = 5 ∨ x = 6 ∨ x = 7 ∨ x = 8 ∨ x = 9)%N as Hc by lia.
  destruct_or! Hc; subst x; by split.
Qed.

Lemma pretty_N_go_digits x : ∀ s, bytes_all is_ascii_digit s = true →
  bytes_all is_ascii_digit (pretty_N_go x s) = true
  ∧ digits_value (pretty_N_go x s) = Z.of_N x * 10 ^ Z.of_nat (String.length s) + digits_value s.
Proof.
  induction (N.lt_wf_0 x) as [x _ IH]. intros s Hs. destruct (decide (0 < x)%N) as [Hx|Hx].
  - rewrite pretty_N_go_step by done.
    destruct (pretty_N_char_digit (x mod 10)) as [Hd Hv]; [by apply N.mod_lt|].
    destruct (IH (x / 10)%N ltac:(apply N.div_lt; lia) (String (pretty_N_char (x mod 10)) s)) as [Ha He].
    { unfold bytes_all in *. cbn. by rewrite Hd. }
    split; [done|]. rewrite He, digits_value_cons, Hv. cbn [String.length].
    rewrite Nat2Z.inj_succ, Z.pow_succ_r, N2Z.inj_div, N2Z.inj_mod by lia.
    pose proof (Z.div_mod (Z.of_N x) 10). nia.
  - assert (x = 0)%N as -> by lia. rewrite pretty_N_go_0. split; [done|]. cbn. lia.
Qed.

Lemma pretty_Z_digits z : 0 ≤ z → bytes_all is_ascii_digit (pretty z) = true ∧ digits_value (pretty z) = z.
Proof.
  intros Hz. destruct z as [|p|p]; [done| |lia].
  change (pretty (Z.pos p)) with (pretty (N.pos p)). unfold pretty, pretty_N. cbn [decide].
  case_decide; [done|]. destruct (pretty_N_go_digits (N.pos p) "" eq_refl) as [Ha He].
  split; [done|]. rewrite He. unfold digits_value. cbn. lia.
Qed.
