(* ===== verification/Gregorian.v ===== *)
(** * The Gregorian calendar and zones of transitions

    Instances of the interfaces of [Calendar]: the proleptic Gregorian calendar, whose dates are
    day numbers, and time zones given by a table of offsets. They meet the laws, and the
    schedules of [Cron] are evaluated with them. *)

From S2P Require Import Prelude Calendar.

(** ** Years *)

Definition is_leap (y : Z) : bool :=
  (y mod 4 =? 0) && (negb (y mod 100 =? 0) || (y mod 400 =? 0)).
Definition year_length (y : Z) : Z := if is_leap y then 366 else 365.

(** The days before the 1st of January of [y], from the year 1. *)
Definition days_before_year (y : Z) : Z :=
  365 * (y - 1) + (y - 1) / 4 - (y - 1) / 100 + (y - 1) / 400.

Lemma year_length_bounds y : 365 ≤ year_length y ≤ 366.
Proof. unfold year_length. case_match; lia. Qed.

Lemma div_step y k : 0 < k → y / k = (y - 1) / k + (if y mod k =? 0 then 1 else 0).
Proof.
  intros Hk. pose proof (Z.div_mod y k ltac:(lia)) as Hd. pose proof (Z.mod_pos_bound y k Hk) as Hm.
  destruct (y mod k =? 0) eqn:E; bools.
  - rewrite <-(Z.div_unique (y - 1) k (y / k - 1) (k - 1)); lia.
  - rewrite <-(Z.div_unique (y - 1) k (y / k) (y mod k - 1)); lia.
Qed.

Lemma days_before_next_year y :
  days_before_year (y + 1) = days_before_year y + year_length y.
Proof.
  unfold days_before_year, year_length, is_leap. rewrite Z.add_simpl_r.
  rewrite (div_step y 4), (div_step y 100), (div_step y 400) by lia.
  assert (H1 : y mod 100 = 0 → y mod 4 = 0) by (clear; Z.to_euclidean_division_equations; lia).
  assert (H2 : y mod 400 = 0 → y mod 100 = 0) by (clear; Z.to_euclidean_division_equations; lia).
  destruct (y mod 4 =? 0) eqn:H4, (y mod 100 =? 0) eqn:H100, (y mod 400 =? 0) eqn:H400; cbn; bools;
    lia.
Qed.

Lemma days_before_year_mono y n :
  0 ≤ n → days_before_year y + 365 * n ≤ days_before_year (y + n) ≤ days_before_year y + 366 * n.
Proof.
  intros Hn. revert n Hn. apply natlike_ind; [replace (y + 0) with y by lia; lia|].
  intros n Hn IH. replace (y + Z.succ n) with (y + n + 1) by lia.
  rewrite days_before_next_year. pose proof (year_length_bounds (y + n)). lia.
Qed.

Lemma days_before_year_lt y y' :
  y < y' → days_before_year y + year_length y ≤ days_before_year y'.
Proof.
  intros Hlt. rewrite <-days_before_next_year.
  pose proof (days_before_year_mono (y + 1) (y' - (y + 1)) ltac:(lia)) as Hm.
  replace (y + 1 + (y' - (y + 1))) with y' in Hm by lia. lia.
Qed.

(** The year of a day number: an estimate, off by one at most. *)
Definition year_of (z : Z) : Z :=
  let y := 400 * z / 146097 + 1 in
  if z <=? days_before_year y then y - 1
  else if days_before_year (y + 1) <? z then y + 1 else y.

Lemma year_of_bounds z :
  days_before_year (year_of z) < z ≤ days_before_year (year_of z) + year_length (year_of z).
Proof.
  rewrite <-days_before_next_year. unfold year_of, days_before_year.
  repeat case_match; bools; Z.to_euclidean_division_equations; lia.
Qed.

Lemma year_of_unique z y :
  days_before_year y < z ≤ days_before_year y + year_length y → year_of z = y.
Proof.
  intros Hz. pose proof (year_of_bounds z) as Hb.
  destruct (Z.lt_trichotomy (year_of z) y) as [Hlt|[?|Hlt]]; [|done|];
    apply days_before_year_lt in Hlt; lia.
Qed.

(** ** Months *)

(** The day of the year (from 1) before the first of each month. *)
Definition days_before_month (leap : bool) (m : Z) : Z :=
  let k := if leap then 1 else 0 in
  match m with
  | 1 => 0 | 2 => 31 | 3 => 59 + k | 4 => 90 + k | 5 => 120 + k | 6 => 151 + k
  | 7 => 181 + k | 8 => 212 + k | 9 => 243 + k | 10 => 273 + k | 11 => 304 + k
  | 12 => 334 + k | _ => 365 + k
  end.

Definition month_of_day (leap : bool) (n : Z) : Z :=
  let fix go (k : nat) (m : Z) :=
    match k with
    | O => m
    | S k => if days_before_month leap m <? n then m else go k (m - 1)
    end in
  go 11%nat 12.

(** Months, and days in them, are those of the table: checked on every day of both kinds of
    year. *)
Definition day_table_ok (leap : bool) (n : Z) : bool :=
  let m := month_of_day leap n in
  (1 <=? m) && (m <=? 12) && (days_before_month leap m <? n)
  && (n <=? days_before_month leap (m + 1))
  && (month_of_day leap (days_before_month leap m + 1) =? m).

Lemma day_table (leap : bool) n : 1 ≤ n ≤ 366 - (if leap then 0 else 1) → day_table_ok leap n = true.
Proof.
  intros Hn. assert (Hall : ∀ leap : bool, forallb (λ k, day_table_ok leap (Z.of_nat k))
      (seq 1 (if leap then 366 else 365)) = true) by (intros []; vm_compute; reflexivity).
  specialize (Hall leap). rewrite forallb_forall in Hall.
  rewrite <-(Z2Nat.id n) by lia. apply Hall, in_seq. destruct leap; lia.
Qed.

Lemma month_length leap m :
  1 ≤ m ≤ 12 → days_before_month leap m + 28 ≤ days_before_month leap (m + 1).
Proof.
  intros Hm. assert (Hc : m = 1 ∨ m = 2 ∨ m = 3 ∨ m = 4 ∨ m = 5 ∨ m = 6 ∨ m = 7 ∨ m = 8 ∨ m = 9
    ∨ m = 10 ∨ m = 11 ∨ m = 12) by lia.
  destruct_or! Hc; subst; destruct leap; by vm_compute.
Qed.

Lemma days_before_month_mono leap m m' :
  1 ≤ m → m < m' ≤ 13 → days_before_month leap m < days_before_month leap m'.
Proof.
  intros Hm Hm'. replace m' with (m + (m' - m)) by lia.
  assert (Hall : ∀ n, 0 ≤ n → m + n + 1 ≤ 13 →
      days_before_month leap m < days_before_month leap (m + n + 1)).
  { apply (natlike_ind (λ n, m + n + 1 ≤ 13 →
      days_before_month leap m < days_before_month leap (m + n + 1))).
    - intros. pose proof (month_length leap m ltac:(lia)). rewrite Z.add_0_r. lia.
    - intros n Hn IH Hle. pose proof (month_length leap (m + n + 1) ltac:(lia)).
      replace (m + Z.succ n + 1) with (m + n + 1 + 1) by lia. lia. }
  specialize (Hall (m' - m - 1) ltac:(lia)).
  replace (m + (m' - m)) with (m + (m' - m - 1) + 1) by lia. apply Hall. lia.
Qed.

(** ** The calendar *)

Definition day_of_year (z : Z) : Z := z - days_before_year (year_of z).
Definition month_of (z : Z) : Z := month_of_day (is_leap (year_of z)) (day_of_year z).
Definition day_of (z : Z) : Z :=
  day_of_year z - days_before_month (is_leap (year_of z)) (month_of z).

#[local] Arguments year_of : simpl never.
#[local] Arguments month_of : simpl never.
#[local] Arguments day_of : simpl never.

(** The range of [chrono::NaiveDate]. *)
Definition greg_min_year : Z := -262143.
Definition greg_max_year : Z := 262142.

Definition greg_from_ymd (y m d : Z) : option Z :=
  let leap := is_leap y in
  if (greg_min_year <=? y) && (y <=? greg_max_year) && (1 <=? m) && (m <=? 12) && (1 <=? d)
     && (d <=? days_before_month leap (m + 1) - days_before_month leap m)
  then Some (days_before_year y + days_before_month leap m + d) else None.

#[global] Instance Gregorian : Calendar := {
  NaiveDate := Z;
  year := year_of;
  month := month_of;
  day := day_of;
  num_days_from_sunday z := z mod 7;
  succ_opt z := if year_of (z + 1) <=? greg_max_year then Some (z + 1) else None;
  from_ymd_opt := greg_from_ymd;
  num_days_from_ce z := z;
  MIN_YEAR := greg_min_year;
  MAX_YEAR := greg_max_year
}.

Lemma day_of_year_bounds z : 1 ≤ day_of_year z ≤ 366 - (if is_leap (year_of z) then 0 else 1).
Proof.
  unfold day_of_year. pose proof (year_of_bounds z) as Hb. unfold year_length in Hb.
  destruct (is_leap (year_of z)); lia.
Qed.

(** A date is its year, month and day. *)
Lemma greg_fields z :
  1 ≤ month_of z ≤ 12
  ∧ days_before_month (is_leap (year_of z)) (month_of z) < day_of_year z
  ∧ day_of_year z ≤ days_before_month (is_leap (year_of z)) (month_of z + 1).
Proof.
  pose proof (day_table _ _ (day_of_year_bounds z)) as Ht. unfold day_table_ok in Ht.
  unfold month_of. bools. lia.
Qed.

(** The month of a day is the one whose span it falls in. *)
Lemma month_span_unique leap m m' n :
  1 ≤ m ≤ 12 → 1 ≤ m' ≤ 12 →
  days_before_month leap m < n ≤ days_before_month leap (m + 1) →
  days_before_month leap m' < n ≤ days_before_month leap (m' + 1) → m = m'.
Proof.
  intros Hm Hm' Hn Hn'.
  assert (Hmono : ∀ a b, 1 ≤ a → a < b ≤ 12 →
      days_before_month leap (a + 1) ≤ days_before_month leap b).
  { intros a b Ha Hb. destruct (decide (a + 1 = b)) as [<-|]; [lia|].
    pose proof (days_before_month_mono leap (a + 1) b ltac:(lia) ltac:(lia)). lia. }
  destruct (Z.lt_trichotomy m m') as [Hlt|[?|Hlt]]; [|done|].
  - pose proof (Hmono m m' ltac:(lia) ltac:(lia)). lia.
  - pose proof (Hmono m' m ltac:(lia) ltac:(lia)). lia.
Qed.

Lemma greg_order a b : a < b ↔ ymd_lt (a : NaiveDate) b.
Proof.
  assert (Hto : ∀ a b, ymd_lt (a : NaiveDate) b → a < b).
  { clear. intros a b Hlt. unfold ymd_lt in Hlt; cbn in Hlt.
    pose proof (greg_fields a) as (Hma & Hla & Hua). pose proof (greg_fields b) as (Hmb & Hlb & Hub).
    unfold day_of in Hlt. destruct Hlt as [Hy|[Hy [Hm|[Hm Hd]]]].
    - apply days_before_year_lt in Hy. pose proof (year_of_bounds a). pose proof (year_of_bounds b). lia.
    - unfold day_of_year in *. rewrite <-Hy in *.
      destruct (decide (month_of a + 1 = month_of b)) as [He|Hne]; [rewrite He in *; lia|].
      pose proof (days_before_month_mono (is_leap (year_of a)) (month_of a + 1) (month_of b)
        ltac:(lia) ltac:(lia)). lia.
    - rewrite Hm, Hy in *. unfold day_of_year in *. rewrite Hy in *. lia. }
  split; [|apply Hto]. intros Hab. unfold ymd_lt; cbn.
  destruct (Z.lt_trichotomy (year_of a) (year_of b)) as [?|[Hy|Hy]]; [by left| |].
  - right. split; [done|].
    destruct (Z.lt_trichotomy (month_of a) (month_of b)) as [?|[Hm|Hm]]; [by left| |].
    + right. split; [done|]. unfold day_of, day_of_year. rewrite Hm, Hy. lia.
    + assert (b < a) by (apply Hto; unfold ymd_lt; cbn; right; split; [done|by left]). lia.
  - assert (b < a) by (apply Hto; unfold ymd_lt; cbn; by left). lia.
Qed.

#[global] Instance Gregorian_laws : CalendarLaws.
Proof.
  split.
  - done.
  - apply greg_order.
  - intros a. apply greg_fields.
  - intros a. cbn. unfold day_of. pose proof (greg_fields a). lia.
  - intros a b. cbn. pose proof (year_of_bounds a) as Ha. pose proof (year_of_bounds b) as Hb.
    pose proof (year_length_bounds (year_of b)).
    destruct (Z.le_gt_cases (year_of a) (year_of b)) as [Hle|Hgt].
    + pose proof (days_before_year_mono (year_of a) (year_of b - year_of a) ltac:(lia)) as Hm.
      replace (year_of a + (year_of b - year_of a)) with (year_of b) in Hm by lia. lia.
    + apply days_before_year_lt in Hgt. lia.
  - cbn. intros a b. case_match; [|done]. by intros [= <-].
  - cbn. intros a Hy. assert (Hle : year_of (a + 1) ≤ greg_max_year).
    { destruct (Z.le_gt_cases (year_of (a + 1)) (year_of a + 1)) as [?|Hgt]; [lia|].
      apply days_before_year_lt in Hgt. pose proof (year_of_bounds (a + 1)).
      pose proof (year_of_bounds a). rewrite days_before_next_year in Hgt.
      pose proof (year_length_bounds (year_of a + 1)). lia. }
    apply Z.leb_le in Hle as ->. eauto.
  - cbn. unfold greg_from_ymd. intros y m d a. case_match eqn:Hc; [|done]. intros [= <-]. bools.
    set (z := days_before_year y + days_before_month (is_leap y) m + d).
    assert (Hhi : days_before_month (is_leap y) (m + 1) ≤ year_length y).
    { unfold year_length. transitivity (days_before_month (is_leap y) 13); [|by destruct (is_leap y)].
      destruct (decide (m = 12)) as [->|]; [done|].
      pose proof (days_before_month_mono (is_leap y) (m + 1) 13 ltac:(lia) ltac:(lia)). lia. }
    assert (Hlo : 0 ≤ days_before_month (is_leap y) m).
    { destruct (decide (m = 1)) as [->|]; [unfold days_before_month; lia|].
      pose proof (days_before_month_mono (is_leap y) 1 m ltac:(lia) ltac:(lia)) as Hm.
      change (days_before_month (is_leap y) 1) with 0 in Hm. lia. }
    assert (Hy : year_of z = y) by (apply year_of_unique; subst z; lia).
    assert (Hd : day_of_year z = days_before_month (is_leap y) m + d)
      by (unfold day_of_year; rewrite Hy; subst z; lia).
    assert (Hm : month_of z = m).
    { pose proof (greg_fields z) as Hf. rewrite Hy in Hf.
      apply (month_span_unique (is_leap y) _ _ (day_of_year z)); lia. }
    split_and!; [done|done|]. unfold day_of. rewrite Hy, Hm, Hd. lia.
  - cbn. unfold greg_from_ymd. intros y m Hy Hm. eexists.
    rewrite (proj2 (Z.leb_le _ _)) by lia. rewrite (proj2 (Z.leb_le _ _)) by lia.
    rewrite (proj2 (Z.leb_le _ _)) by lia. rewrite (proj2 (Z.leb_le _ _)) by lia. cbn.
    rewrite (proj2 (Z.leb_le _ _)); [done|].
    pose proof (days_before_month_mono (is_leap y) m (m + 1) ltac:(lia) ltac:(lia)). lia.
Qed.

(** ** Zones *)

(** The local time a number of seconds after the start of 1970. *)
Definition civil (n : Z) (nanos : Z) : NaiveDateTime :=
  mkDateTime ((719163 + n / 86400) : NaiveDate) (n mod 86400) nanos.

(** The seconds from the start of 1970 to a local time. *)
Definition seconds_of (t : NaiveDateTime) : Z := local_second t - 719163 * 86400.

(** A zone that is [before] seconds ahead of UTC, and [after] seconds from [change] on (all in
    seconds). A clock moved forward skips local times, one moved back repeats them. *)
Section zone.
Context (change before after : Z).

Definition zone_local (t : Timestamp) : NaiveDateTime :=
  let s := t / nanoseconds_per_second in
  civil (s + (if s <? change then before else after)) (t mod nanoseconds_per_second).

Definition zone_instants (l : NaiveDateTime) : LocalResult :=
  let first := seconds_of l - before in
  let second := seconds_of l - after in
  if first <? change then
    if change <=? second then Ambiguous (seconds first) (seconds second) else Single (seconds first)
  else if change <=? second then Single (seconds second) else NoInstant.

Definition transition_zone : TimeZone :=
  {| naive_local := zone_local; from_local_datetime := zone_instants |}.

Lemma civil_second n nanos : seconds_of (civil n nanos) = n.
Proof. unfold seconds_of, local_second, civil; cbn. pose proof (Z.div_mod n 86400). lia. Qed.

Lemma seconds_div s : seconds s / nanoseconds_per_second = s.
Proof. unfold seconds, nanoseconds_per_second. by rewrite Z.div_mul. Qed.

Lemma transition_zone_laws : @ZoneLaws _ transition_zone.
Proof.
  split; unfold instant_of; cbn.
  - intros t. unfold zone_local, civil, dt_wf; cbn.
    split; apply Z.mod_pos_bound; unfold nanoseconds_per_second; lia.
  - intros t _. unfold zone_instants. change (zone_local t) with (civil
      (t / nanoseconds_per_second + (if t / nanoseconds_per_second <? change then before else after))
      (t mod nanoseconds_per_second)). rewrite civil_second. cbv zeta.
    destruct (t / nanoseconds_per_second <? change) eqn:E; repeat case_match; simplify_eq; bools; eauto; lia.
  - intros l t Hl Ht. unfold zone_instants in Ht.
    assert (Hs : ∃ s, t = seconds s ∧ s + (if s <? change then before else after) = seconds_of l).
    { repeat case_match; simplify_eq; bools; eexists; (split; [reflexivity|]); case_match; bools; lia. }
    destruct Hs as (s & -> & Hs). unfold zone_local. rewrite seconds_div, Hs.
    unfold seconds. rewrite Z.mod_mul by (unfold nanoseconds_per_second; lia).
    apply local_second_inj; [|done|].
    + unfold on_second, dt_wf, civil; cbn. split; [|done].
      split; [apply Z.mod_pos_bound; lia|unfold nanoseconds_per_second; lia].
    + pose proof (civil_second (seconds_of l) 0) as Hc. unfold seconds_of in *. lia.
  - intros l t u [_ Hn] Ht Hu. unfold zone_instants in Ht. unfold local_lt in Hu.
    assert (Hle : seconds_of l ≤ seconds_of (zone_local u)).
    { unfold seconds_of. unfold zone_local, civil in Hu |- *. cbn in *. rewrite Hn in Hu.
      pose proof (Z.mod_pos_bound u nanoseconds_per_second).
      unfold nanoseconds_per_second in *. lia. }
    unfold zone_local in Hle. rewrite civil_second in Hle.
    assert (Hs : ∀ s, s ≤ u / nanoseconds_per_second → seconds s ≤ u).
    { intros s Hs. unfold seconds, nanoseconds_per_second in *.
      pose proof (Z.mul_div_le u 1000000000). lia. }
    repeat case_match; simplify_eq; bools; apply Hs; lia.
Qed.
End zone.

(** A zone with one offset all year. *)
Definition fixed_zone (offset : Z) : TimeZone := transition_zone 0 offset offset.
