(* ===== verification/CronProps.v ===== *)
(** * Cron expressions: what the search finds

    The declarative reading of a schedule ([local_matches], [fires_at]) and the theorems that the
    search, its mapping to instants and the bounded list of them are exactly that: the next local
    time is the first that matches, an instant is the first at which a matching local time is
    shown, none is left out and none comes twice. *)

From S2P Require Import Prelude Ids Egress Calendar Cron Gregorian.
From Stdlib Require Import Ascii.

Open Scope string_scope.
Open Scope Z_scope.

(** ** The next local time *)

Section local.
Context `{CalendarLaws} (s : CronSchedule).

(** A local time the expression describes. *)
Definition local_matches (t : NaiveDateTime) : Prop :=
  matches (cs_months s) (month (dt_date t)) = true ∧ day_matches s (dt_date t) = true
  ∧ matches (cs_hours s) (hour t) = true ∧ matches (cs_minutes s) (minute t) = true
  ∧ matches (cs_seconds s) (second t) = true.

(** [t'] comes after everything of [t]'s kind that does not match. *)
Definition skips (t t' : NaiveDateTime) : Prop :=
  on_second t' ∧ local_second t < local_second t'
  ∧ (MIN_YEAR ≤ year (dt_date t) < MAX_YEAR → year (dt_date t') ≤ year (dt_date t) + 1)
  ∧ ∀ u, on_second u → local_second t ≤ local_second u < local_second t' → ¬ local_matches u.

Lemma and_hms_Some d h m sec t : and_hms_opt d h m sec = Some t →
  t = mkDateTime d (h * 3600 + m * 60 + sec) 0 ∧ 0 ≤ h < 24 ∧ 0 ≤ m < 60 ∧ 0 ≤ sec < 60.
Proof. unfold and_hms_opt. case_match; [|done]. intros [= <-]. bools. split; [done|lia]. Qed.

Lemma and_hms_total d h m sec : 0 ≤ h < 24 → 0 ≤ m < 60 → 0 ≤ sec < 60 →
  and_hms_opt d h m sec = Some (mkDateTime d (h * 3600 + m * 60 + sec) 0).
Proof. intros ???. unfold and_hms_opt. case_match; [done|lia]. Qed.

Lemma plus_seconds_some t n : year (dt_date t) < MAX_YEAR → plus_seconds t n ≠ None.
Proof. intros Hy Hn. destruct (plus_seconds_total t n Hy). congruence. Qed.

Lemma succ_opt_some d : year d < MAX_YEAR → succ_opt d ≠ None.
Proof. intros Hy Hn. destruct (succ_total d Hy). congruence. Qed.

Lemma ymd_first_some y m : MIN_YEAR ≤ y ≤ MAX_YEAR → 1 ≤ m ≤ 12 → from_ymd_opt y m 1 ≠ None.
Proof. intros Hy Hm Hn. destruct (ymd_first_total y m Hy Hm). congruence. Qed.

Lemma midnight_on_second d : on_second (mkDateTime d 0 0).
Proof. unfold on_second, dt_wf, nanoseconds_per_second. cbn. lia. Qed.

Lemma succ_year d d' : succ_opt d = Some d' → MIN_YEAR ≤ year d < MAX_YEAR →
  year d' ≤ year d + 1.
Proof.
  intros Hd Hyr.
  assert (Hr : MIN_YEAR ≤ year d + 1 ≤ MAX_YEAR) by lia.
  destruct (ymd_first_total (year d + 1) 1 Hr ltac:(lia)) as [f Hf].
  apply ymd_fields in Hf as (Hy & _ & _). rewrite <-Hy. apply date_le_year.
  apply succ_next in Hd. assert (num_days_from_ce d < num_days_from_ce f); [|lia].
  apply date_order. left. lia.
Qed.

Lemma skip_month t d :
  on_second t → matches (cs_months s) (month (dt_date t)) = false →
  from_ymd_opt (if month (dt_date t) =? 12 then year (dt_date t) + 1 else year (dt_date t))
    (if month (dt_date t) =? 12 then 1 else month (dt_date t) + 1) 1 = Some d →
  skips t (mkDateTime d 0 0).
Proof.
  intros Ht Hm (Hy & Hmo & Hd)%ymd_fields. pose proof (date_month (dt_date t)) as Hr.
  assert (Hlt : num_days_from_ce (dt_date t) < num_days_from_ce d).
  { apply date_order. unfold ymd_lt. destruct (month (dt_date t) =? 12) eqn:E; bools; lia. }
  split_and!; [apply midnight_on_second| | |].
  - destruct Ht as [[? _] _]. unfold local_second. cbn. lia.
  - intros _. cbn. rewrite Hy. case_match; lia.
  - intros u Hu Hb (Hmu & _).
    assert (Hge : num_days_from_ce (dt_date t) ≤ num_days_from_ce (dt_date u))
      by (destruct Ht, Hu; apply local_second_date; tauto || lia).
    assert (Hult : num_days_from_ce (dt_date u) < num_days_from_ce d)
      by (destruct Hu as [[? _] _]; unfold local_second in Hb; cbn in Hb; lia).
    pose proof (date_le_year _ _ Hge) as Hyu. pose proof (date_month (dt_date u)) as Hru.
    pose proof (date_day (dt_date u)) as Hdu. apply date_order in Hult. unfold ymd_lt in Hult.
    assert (Hsame : month (dt_date u) = month (dt_date t)).
    { destruct (decide (year (dt_date t) = year (dt_date u))) as [Heq|Hne].
      - pose proof (date_le_month _ _ Hge Heq). destruct (month (dt_date t) =? 12) eqn:E; bools; lia.
      - destruct (month (dt_date t) =? 12) eqn:E; bools; lia. }
    congruence.
Qed.

Lemma skip_day t d :
  on_second t →
  day_matches s (dt_date t) = false → succ_opt (dt_date t) = Some d → skips t (mkDateTime d 0 0).
Proof.
  intros Ht Hm Hd. pose proof (succ_year _ _ Hd) as Hy. apply succ_next in Hd.
  split_and!; [apply midnight_on_second| |done|].
  - destruct Ht as [[? _] _]. unfold local_second. cbn. lia.
  - intros u [[Hu _] _] Hb (_ & Hmu & _). destruct Ht as [[Ht _] _]. unfold local_second in Hb. cbn in Hb.
    assert (He : dt_date u = dt_date t) by (apply date_inj; lia). congruence.
Qed.

(** The time of day moves to the next multiple of a unit. *)
Lemma skip_unit t start n t' :
  on_second t → 0 < n ≤ 86400 →
  0 ≤ start ≤ dt_secs t → dt_secs t < start + n ≤ 86400 →
  plus_seconds (mkDateTime (dt_date t) start 0) n = Some t' →
  (∀ u, on_second u → dt_date u = dt_date t → dt_secs t ≤ dt_secs u < start + n → ¬ local_matches u) →
  skips t t'.
Proof.
  intros [[Ht _] _] Hn Hs1 Hs2 Hp Hno.
  assert (Hon : on_second t').
  { eapply (plus_seconds_on_second _ n); [|lia|exact Hp].
    unfold on_second, dt_wf, nanoseconds_per_second. cbn. lia. }
  pose proof (plus_seconds_second _ _ _ Hp) as Hsec. unfold local_second in Hsec at 2. cbn in Hsec.
  split_and!; [done| | |].
  - unfold local_second at 1. lia.
  - intros Hyr. unfold plus_seconds in Hp. cbn in Hp. case_match; [simplify_eq/=; lia|].
    destruct (succ_opt _) as [d|] eqn:Hd; cbn in Hp; [|done]. injection Hp as <-. cbn.
    by apply succ_year.
  - intros u Hu Hb. rewrite Hsec in Hb. pose proof Hu as [[Hus _] _]. unfold local_second in Hb.
    assert (He : dt_date u = dt_date t) by (apply date_inj; lia).
    rewrite He in Hb. apply Hno; [done|done|lia].
Qed.

Lemma skip_hour t t' :
  on_second t →
  matches (cs_hours s) (hour t) = false →
  plus_seconds (mkDateTime (dt_date t) (hour t * 3600 + 0 * 60 + 0) 0) 3600 = Some t' → skips t t'.
Proof.
  intros Ht Hm Hp. pose proof (hms_of t) as Hh. destruct Ht as [[Hs Hx] Hn].
  eapply (skip_unit t (hour t * 3600 + 0 * 60 + 0) 3600); [by split; [|done]|lia|lia|lia|done|].
  intros u [[Hus _] _] _ Hb (_ & _ & Hmu & _). pose proof (hms_of u Hus).
  assert (He : hour u = hour t) by lia. congruence.
Qed.

Lemma skip_minute t t' :
  on_second t →
  matches (cs_minutes s) (minute t) = false →
  plus_seconds (mkDateTime (dt_date t) (hour t * 3600 + minute t * 60 + 0) 0) 60 = Some t' →
  skips t t'.
Proof.
  intros Ht Hm Hp. pose proof (hms_of t) as Hh. destruct Ht as [[Hs Hx] Hn].
  eapply (skip_unit t (hour t * 3600 + minute t * 60 + 0) 60);
    [by split; [|done]|lia|lia|lia|done|].
  intros u [[Hus _] _] _ Hb (_ & _ & _ & Hmu & _). pose proof (hms_of u Hus).
  assert (He : minute u = minute t) by lia. congruence.
Qed.

Lemma skip_second t t' :
  on_second t →
  matches (cs_seconds s) (second t) = false → plus_seconds t 1 = Some t' → skips t t'.
Proof.
  intros Ht Hm Hp. pose proof Ht as [[Hs Hx] Hn].
  assert (Heq : t = mkDateTime (dt_date t) (dt_secs t) 0) by (destruct t; cbn in *; congruence).
  rewrite Heq in Hp.
  eapply (skip_unit t (dt_secs t) 1); [done|lia|lia|lia|done|].
  intros u Hu _ Hb (_ & _ & _ & _ & Hmu).
  assert (He : second u = second t) by (unfold second; f_equal; lia). congruence.
Qed.

(** One turn of the search skips only times that do not match, and gives up only past its
    limit. *)
Lemma search_step_spec limit t :
  on_second t →
  match search_step s limit t with
  | inl t' => skips t t' ∧ year (dt_date t) ≤ limit
  | inr (At t') => t' = t ∧ local_matches t ∧ year (dt_date t) ≤ limit
  | inr o => MIN_YEAR ≤ year (dt_date t) → limit < MAX_YEAR → o = Nowhere ∧ limit < year (dt_date t)
  end.
Proof.
  intros Ht. pose proof (hms_of t ltac:(destruct Ht as [[? _] _]; lia)) as Hh.
  unfold search_step, or_nowhere, or_overflow.
  destruct (year (dt_date t) <=? limit) eqn:Hy; cbn [negb]; bools; [|done].
  destruct (matches (cs_months s) _) eqn:Hmo; cbn [negb].
  2:{ pose proof (skip_month t) as Hsk. specialize (Hsk) with (1 := Ht) (2 := Hmo).
      pose proof (date_month (dt_date t)) as Hr.
      destruct (month (dt_date t) =? 12) eqn:E; bools;
        destruct (from_ymd_opt _ _ 1) as [d|] eqn:Hd; cbn; try (by split; [apply Hsk|]);
        intros Hmin Hmax; exfalso; revert Hd.
      - apply (ymd_first_some (year (dt_date t) + 1) 1); lia.
      - apply (ymd_first_some (year (dt_date t)) (month (dt_date t) + 1)); lia. }
  destruct (day_matches s _) eqn:Hda; cbn [negb].
  2:{ destruct (succ_opt _) as [d|] eqn:Hd; cbn; [split; [by apply skip_day|done]|].
      intros Hmin Hmax. exfalso. revert Hd. apply succ_opt_some. lia. }
  destruct (matches (cs_hours s) _) eqn:Hho; cbn [negb].
  2:{ rewrite and_hms_total by lia. destruct (plus_seconds _ 3600) as [t'|] eqn:Hp.
      - split; [by apply skip_hour|done].
      - intros. exfalso. revert Hp. apply plus_seconds_some. cbn. lia. }
  destruct (matches (cs_minutes s) _) eqn:Hmi; cbn [negb].
  2:{ rewrite and_hms_total by lia. destruct (plus_seconds _ 60) as [t'|] eqn:Hp.
      - split; [by apply skip_minute|done].
      - intros. exfalso. revert Hp. apply plus_seconds_some. cbn. lia. }
  destruct (matches (cs_seconds s) _) eqn:Hse; cbn [negb]; [done|].
  destruct (plus_seconds t 1) as [t'|] eqn:Hp.
  - split; [by apply skip_second|done].
  - intros. exfalso. revert Hp. apply plus_seconds_some. lia.
Qed.

(** Where the search stands: nothing that matches lies behind it. *)
Definition searching (after : NaiveDateTime) (t : NaiveDateTime) : Prop :=
  on_second t ∧ local_second after < local_second t
  ∧ ∀ u, on_second u → local_second after < local_second u < local_second t → ¬ local_matches u.

Lemma searching_skips after t t' : searching after t → skips t t' → searching after t'.
Proof.
  intros (Ht & Hlt & Hno) (Ht' & Hlt' & _ & Hno'). split_and!; [done|lia|].
  intros u Hu Hb. destruct (decide (local_second u < local_second t)); [apply Hno|apply Hno']; (done || lia).
Qed.

Lemma search_start after t :
  dt_wf after → plus_seconds (whole_second after) 1 = Some t →
  searching after t ∧ local_second t = local_second after + 1.
Proof.
  intros [Hs Hn] Hp.
  assert (He : local_second t = local_second after + 1) by by apply plus_seconds_second in Hp.
  assert (on_second t).
  { eapply (plus_seconds_on_second _ 1); [|lia|exact Hp].
    unfold on_second, dt_wf, nanoseconds_per_second. cbn. lia. }
  split; [|done]. split_and!; [done|lia|]. intros u _ Hb. lia.
Qed.

(** A local time on a whole second comes after [after] in a later second. *)
Lemma local_lt_second after u :
  dt_wf after → on_second u → local_lt after u ↔ local_second after < local_second u.
Proof. intros [_ Hn] [_ Hu]. unfold local_lt. rewrite Hu. lia. Qed.

(** What the search finds is the first match. *)
Lemma next_local_first after t :
  dt_wf after → next_local_after s after = At t →
  searching after t ∧ local_matches t ∧ year (dt_date t) ≤ year (dt_date after) + SEARCH_YEARS.
Proof.
  intros Hwf. unfold next_local_after. destruct (plus_seconds _ 1) as [t0|] eqn:Hp; [|done].
  apply search_start in Hp as [Hstart _]; [|done].
  pose proof (loop_inv (searching after)
    (λ o, ∀ t, o = At t → searching after t ∧ local_matches t
      ∧ year (dt_date t) ≤ year (dt_date after) + SEARCH_YEARS)
    (search_step s (year (dt_date after) + SEARCH_YEARS)) SEARCH_STEPS t0) as Hl.
  destruct (loop _ _ t0) as [|o]; [done|]. intros ->. apply Hl; [| |done|done]; clear Hl.
  - intros x y Hx Hs. pose proof (search_step_spec (year (dt_date after) + SEARCH_YEARS) x (proj1 Hx)) as Hsp.
    rewrite Hs in Hsp. eapply searching_skips; [done|apply Hsp].
  - intros x o Hx Hs u ->.
    pose proof (search_step_spec (year (dt_date after) + SEARCH_YEARS) x (proj1 Hx)) as Hsp.
    rewrite Hs in Hsp. destruct Hsp as (-> & ? & ?). done.
Qed.

(** The search within its years, and what is left of it. *)
Definition in_window (after t : NaiveDateTime) : Prop :=
  searching after t
  ∧ year (dt_date after) ≤ year (dt_date t) ≤ year (dt_date after) + SEARCH_YEARS + 1.
Definition left_to_search (after t : NaiveDateTime) : Z :=
  366 * 7 * 86400 + local_second after - local_second t.

Lemma left_to_search_pos after t : dt_wf after → in_window after t → 0 ≤ left_to_search after t.
Proof.
  intros [? _] [(([? _] & _) & _) Hy]. unfold left_to_search, SEARCH_YEARS in *.
  pose proof (date_year_length (dt_date after) (dt_date t)) as Hd. unfold local_second. lia.
Qed.

Lemma in_window_start after t :
  dt_wf after → MIN_YEAR ≤ year (dt_date after) < MAX_YEAR →
  plus_seconds (whole_second after) 1 = Some t → in_window after t.
Proof.
  intros Hwf Hyr Hp. pose proof Hp as [Hstart _]%search_start; [|done]. split; [done|].
  destruct Hstart as (Hon & ? & _).
  assert (year (dt_date after) ≤ year (dt_date t))
    by (apply date_le_year, local_second_date; [done|apply Hon|lia]).
  split; [done|]. unfold SEARCH_YEARS, plus_seconds in *. cbn in Hp.
  case_match; [simplify_eq/=; lia|]. destruct (succ_opt _) as [d|] eqn:Hd; cbn in Hp; [|done].
  injection Hp as <-. cbn. pose proof (succ_year _ _ Hd). lia.
Qed.

Lemma search_turn after t :
  dt_wf after → MIN_YEAR ≤ year (dt_date after) →
  year (dt_date after) + SEARCH_YEARS < MAX_YEAR → in_window after t →
  match search_step s (year (dt_date after) + SEARCH_YEARS) t with
  | inl y => in_window after y ∧ 0 ≤ left_to_search after y < left_to_search after t
  | inr (At _) => True
  | inr o => o = Nowhere ∧ year (dt_date after) + SEARCH_YEARS < year (dt_date t)
  end.
Proof.
  intros Hwf Hmin Hmax [Ht Hy].
  pose proof (search_step_spec (year (dt_date after) + SEARCH_YEARS) t (proj1 Ht)) as Hsp.
  destruct (search_step _ _ t) as [y|o].
  - destruct Hsp as [Hsk Hle]. pose proof Hsk as (Hon & Hlt & Hyr & _).
    assert (year (dt_date t) ≤ year (dt_date y))
      by (apply date_le_year, local_second_date; [apply Ht|apply Hon|lia]).
    assert (Hin : in_window after y) by (split; [by eapply searching_skips|lia]).
    pose proof (left_to_search_pos _ _ Hwf Hin). unfold left_to_search in *. split; [done|lia].
  - destruct o; [done| |]; (apply Hsp; [lia|done]).
Qed.

(** The search ends, and finds nothing only when there is nothing. *)
Lemma next_local_ends after :
  dt_wf after → MIN_YEAR ≤ year (dt_date after) → year (dt_date after) + SEARCH_YEARS < MAX_YEAR →
  match next_local_after s after with
  | At _ => True
  | Nowhere => ∀ u, on_second u → local_second after < local_second u →
      year (dt_date u) ≤ year (dt_date after) + SEARCH_YEARS → ¬ local_matches u
  | Overflow => False
  end.
Proof.
  intros Hwf Hmin Hmax. pose proof (search_turn after) as Hturn.
  specialize (Hturn) with (1 := Hwf) (2 := Hmin) (3 := Hmax).
  assert (Hyr : year (dt_date after) < MAX_YEAR) by (unfold SEARCH_YEARS in Hmax; lia).
  unfold next_local_after. destruct (plus_seconds _ 1) as [t0|] eqn:Hp.
  2:{ revert Hp. by apply plus_seconds_some. }
  apply in_window_start in Hp as Hinit; [|done|done].
  set (limit := year (dt_date after) + SEARCH_YEARS) in *.
  pose proof (loop_ends (in_window after) (left_to_search after) (search_step s limit)
    SEARCH_STEPS t0) as He.
  pose proof (loop_inv (in_window after) (λ o, match o with
    | At _ => True | _ => o = Nowhere ∧ ∃ t, in_window after t ∧ limit < year (dt_date t) end)
    (search_step s limit) SEARCH_STEPS t0) as Hq.
  destruct (loop _ _ t0) as [t|o].
  - exfalso. destruct He as [Ht Hle]; [|done|by apply left_to_search_pos|].
    + intros x y Hx Hs. specialize (Hturn x Hx). by rewrite Hs in Hturn.
    + destruct Hinit as [(_ & ? & _) _]. unfold left_to_search, SEARCH_STEPS in *. lia.
  - lapply Hq; [clear Hq; intros Hq; lapply Hq; [clear Hq; intros Hq|]|].
    + specialize (Hq Hinit). destruct o; [done| |by destruct Hq].
      destruct Hq as [_ (t & [(Hon & _ & Hno) _] & Hly)]. intros u Hu Hlt Hyu. apply Hno; [done|].
      split; [done|]. destruct (Z.lt_ge_cases (local_second u) (local_second t)) as [?|Hge]; [done|].
      pose proof (date_le_year _ _ (local_second_date _ _ (proj1 Hon) (proj1 Hu) Hge)). lia.
    + intros x b Hx Hs. specialize (Hturn x Hx). rewrite Hs in Hturn.
      destruct b; [done| |]; (destruct Hturn; split; [done|eauto]).
    + intros x y Hx Hs. specialize (Hturn x Hx). rewrite Hs in Hturn. apply Hturn.
Qed.

(** The search of a schedule is exactly "the first matching local time". For any parsed or
    hand-built schedule and any local time the calendar has five more years after, the search of
    [next_local_after] ends without overflowing; what it returns matches the schedule (month, the
    either-or rule of days, hour, minute and second), lies strictly after the given time, and no
    matching time lies between; when it returns nothing, no time of the five following years
    matches. *)
Theorem next_local_is_first after :
  dt_wf after → MIN_YEAR ≤ year (dt_date after) → year (dt_date after) + SEARCH_YEARS < MAX_YEAR →
  match next_local_after s after with
  | At t => on_second t ∧ local_matches t ∧ local_lt after t
      ∧ ∀ u, on_second u → local_matches u → local_lt after u → ¬ local_lt u t
  | Nowhere => ∀ u, on_second u → local_lt after u →
      year (dt_date u) ≤ year (dt_date after) + SEARCH_YEARS → ¬ local_matches u
  | Overflow => False
  end.
Proof.
  intros Hwf Hmin Hmax. pose proof (next_local_ends after Hwf Hmin Hmax) as He.
  destruct (next_local_after s after) as [t| |] eqn:Hn; [clear He| |done].
  - apply next_local_first in Hn as ((Hon & Hlt & Hno) & Hm & _); [|done].
    split_and!; [done|done|by apply local_lt_second|]. intros u Hu Hmu Hau Hut.
    apply local_lt_second in Hau; [|done|done]. apply local_lt_second in Hut; [|apply Hu|done].
    by apply (Hno u Hu).
  - intros u Hu Hau. apply He; [done|]. by apply local_lt_second.
Qed.
End local.

(** ** Instants *)

Section zone.
Context `{CalendarLaws} {tz : TimeZone} {tz_laws : ZoneLaws} (s : CronSchedule).

(** The instants a schedule stands for, told from the wall clock alone: the clock of the zone
    shows a matching whole second, for the first time. *)
Definition shown_first (t : Timestamp) : Prop :=
  on_second (naive_local t) ∧ ∀ u, naive_local u = naive_local t → t ≤ u.
Definition fires_at (t : Timestamp) : Prop := local_matches s (naive_local t) ∧ shown_first t.

Lemma fires_at_instant t :
  fires_at t ↔ ∃ l, on_second l ∧ local_matches s l ∧ instant_of l = Some t.
Proof.
  assert (Heq : ∀ l u, on_second l → naive_local u = l → ¬ local_lt (naive_local u) l).
  { intros l u _ ->. unfold local_lt. lia. }
  split.
  - intros [Hm [Hon Hfirst]]. exists (naive_local t). split_and!; [done|done|].
    destruct (instant_total t Hon) as [u Hu]. rewrite Hu. f_equal.
    assert (u ≤ t) by (eapply instant_first; [exact Hon|done|by apply Heq]).
    assert (t ≤ u) by (apply Hfirst; by apply instant_local). lia.
  - intros (l & Hon & Hm & Hl). pose proof (instant_local l t Hon Hl) as Ht.
    unfold fires_at, shown_first. rewrite Ht. split_and!; [done|done|].
    intros u Hu. eapply instant_first; [done..|]. by apply Heq.
Qed.

(** The local times the search has gone past without an instant after [after]. *)
Definition passed (after : Timestamp) (l : NaiveDateTime) : Prop :=
  dt_wf l ∧ ∀ l', on_second l' → local_matches s l' →
    local_second (naive_local after) < local_second l' ≤ local_second l →
    ∀ t, instant_of l' = Some t → t ≤ after.

Lemma passed_start after : passed after (naive_local after).
Proof. split; [apply local_wf|]. intros. lia. Qed.

(** One turn goes past one matching local time, the first after the last one. *)
Lemma instant_turn after l :
  passed after l →
  match instant_step s after l with
  | inl l' => passed after l'
  | inr (Some t) => fires_at t ∧ after < t ∧ ∀ u, fires_at u → after < u → t ≤ u
  | inr None => True
  end.
Proof.
  intros [Hwf Hp]. unfold instant_step. destruct (next_local_after s l) as [l1| |] eqn:Hn; [|done..].
  cbn. apply next_local_first in Hn as ((Hon & Hlt & Hno) & Hm & _); [|done].
  assert (Hstep : ∀ l', on_second l' → local_matches s l' →
      local_second (naive_local after) < local_second l' < local_second l1 →
      ∀ t, instant_of l' = Some t → t ≤ after).
  { intros l' Hon' Hm' Hb. apply Hp; [done|done|].
    destruct (Z.lt_ge_cases (local_second l) (local_second l')) as [?|?]; [|lia].
    destruct (Hno l' Hon'); [lia|done]. }
  assert (Hpass : (∀ t, instant_of l1 = Some t → t ≤ after) → passed after l1).
  { intros Hbad. split; [apply Hon|]. intros l' Hon' Hm' Hb.
    destruct (decide (local_second l' = local_second l1)) as [He|].
    - apply local_second_inj in He as ->; done.
    - apply Hstep; [done|done|lia]. }
  destruct (instant_of l1) as [t|] eqn:Hi; [|by apply Hpass].
  destruct (after <? t) eqn:Hat; bools; [|by apply Hpass; intros ? [= <-]].
  split_and!; [apply fires_at_instant; eauto|done|].
  intros u (l' & Hon' & Hm' & Hl')%fires_at_instant Hu.
  destruct (Z.lt_ge_cases (local_second l') (local_second l1)) as [Hb|Hb].
  - exfalso. destruct (Z.lt_ge_cases (local_second (naive_local after)) (local_second l')) as [?|Hge].
    + pose proof (Hstep l' Hon' Hm' ltac:(lia) u Hl'). lia.
    + assert (u ≤ after); [|lia]. eapply instant_first; [exact Hon'|done|].
      rewrite local_lt_second; [lia|apply local_wf|done].
  - eapply instant_first; [exact Hon|done|]. rewrite (instant_local l' u Hon' Hl').
    rewrite local_lt_second; [lia|apply Hon'|done].
Qed.

(** C18: The next instant of a schedule in a time zone is exactly the first one after the given
    instant. Whatever the zone's changes of offset: what [next_after] returns is later than the
    given instant, is an instant at which the zone's clock shows a matching whole second for the
    first time (so a local time the clock skips never fires, and one it shows twice fires once, at
    the earlier instant), and no such instant lies in between. *)
Theorem next_after_is_first after t :
  next_after s after = Some t →
  fires_at t ∧ after < t ∧ ∀ u, fires_at u → after < u → t ≤ u.
Proof.
  unfold next_after. pose proof (loop_inv (passed after)
    (λ o, match o with
      | Some t => fires_at t ∧ after < t ∧ ∀ u, fires_at u → after < u → t ≤ u
      | None => True end) (instant_step s after) MAX_LOCAL_STEPS (naive_local after)) as Hl.
  destruct (loop _ _ _) as [|o]; [done|]. intros ->. apply Hl; [| |apply passed_start]; clear Hl.
  - intros x y Hx Hs. pose proof (instant_turn after x Hx) as Ht. by rewrite Hs in Ht.
  - intros x b Hx Hs. pose proof (instant_turn after x Hx) as Ht. by rewrite Hs in Ht.
Qed.

(** Where the clock only moves on, the search finds an instant whenever the next five years have
    a matching time. *)
Lemma next_after_found after l :
  MIN_YEAR ≤ year (dt_date (naive_local after)) →
  year (dt_date (naive_local after)) + SEARCH_YEARS < MAX_YEAR →
  (∀ l, on_second l → local_lt (naive_local after) l → ∃ t, instant_of l = Some t ∧ after < t) →
  on_second l → local_matches s l → local_lt (naive_local after) l →
  year (dt_date l) ≤ year (dt_date (naive_local after)) + SEARCH_YEARS →
  is_Some (next_after s after).
Proof.
  intros Hmin Hmax Hreg Hon Hm Hlt Hy. pose proof (local_wf after) as Hwf.
  pose proof (next_local_is_first s (naive_local after) Hwf Hmin Hmax) as Hn.
  assert (Hstep : ∃ t, instant_step s after (naive_local after) = inr (Some t)).
  { unfold instant_step. destruct (next_local_after s _) as [l1| |]; [|by apply Hn in Hm|done].
    cbn. destruct Hn as (Hon1 & _ & Hlt1 & _). destruct (Hreg l1 Hon1 Hlt1) as (t & -> & Ht).
    exists t. by rewrite (proj2 (Z.ltb_lt _ _) Ht). }
  destruct Hstep as [t Ht]. exists t. unfold next_after.
  by rewrite (loop_break MAX_LOCAL_STEPS _ _ _ Ht).
Qed.

(** ** The instants of an interval *)

(** Instants in increasing order after a given one. *)
Fixpoint ascending (after : Timestamp) (l : list Timestamp) : Prop :=
  match l with [] => True | t :: l => after < t ∧ ascending t l end.

Lemma ascending_after after l t : ascending after l → t ∈ l → after < t.
Proof.
  revert after. induction l as [|u l IH]; intros after Hl Hin; [by apply not_elem_of_nil in Hin|].
  destruct Hl as [? Hl]. apply elem_of_cons in Hin as [->|Hin]; [done|].
  specialize (IH u Hl Hin). lia.
Qed.

(** The last instant of a list, or where it starts. *)
Definition last_of (after : Timestamp) (l : list Timestamp) : Timestamp := default after (last l).

Lemma last_of_cons after t l : last_of after (t :: l) = last_of t l.
Proof. unfold last_of. rewrite last_cons. by destruct (last l). Qed.

(** The instants of an interval are listed without gap or repetition. Whatever the bound:
    [between] returns instants in strictly increasing order, each in [(after, until]], each one at
    which the schedule fires; an instant of the interval at which the schedule fires is in the
    list unless it is later than all of the list and the list was cut ([more] is then true and the
    list is full) or the search itself gave up at the end of the list. *)
Theorem between_is_exact after until room out more :
  between s after until room = (out, more) →
  ascending after out
  ∧ (∀ t, t ∈ out → fires_at t ∧ after < t ≤ until)
  ∧ (∀ t, fires_at t → after < t ≤ until →
      t ∈ out
      ∨ last_of after out < t
        ∧ (more = true ∧ length out = room ∨ next_after s (last_of after out) = None))
  ∧ (more = true → length out = room
      ∧ ∃ t, fires_at t ∧ last_of after out < t ≤ until).
Proof.
  revert after out more. induction room as [|room IH]; intros after out more; cbn;
    destruct (next_after s after) as [t|] eqn:Ht.
  - pose proof (next_after_is_first after t Ht) as (Hf & Hlt & Hmin). case_match; bools; intros [= <- <-].
    + split_and!; [done|by intros ? ?%not_elem_of_nil| |done]. intros u Hu Hb. specialize (Hmin u Hu). lia.
    + split_and!; [done|by intros ? ?%not_elem_of_nil| |].
      * intros u Hu Hb. right. unfold last_of. cbn. split; [lia|by left].
      * intros _. split; [done|]. exists t. unfold last_of. cbn. split; [done|lia].
  - intros [= <- <-]. split_and!; [done|by intros ? ?%not_elem_of_nil| |done]. intros u Hu Hb. right.
    unfold last_of. cbn. split; [lia|by right].
  - pose proof (next_after_is_first after t Ht) as (Hf & Hlt & Hmin). case_match; bools.
    + intros [= <- <-]. split_and!; [done|by intros ? ?%not_elem_of_nil| |done].
      intros u Hu Hb. specialize (Hmin u Hu). lia.
    + destruct (between s t until room) as [out' more'] eqn:Hb. intros [= <- <-].
      specialize (IH t out' more' Hb) as (Hasc & Hin & Hall & Hmore). rewrite last_of_cons. cbn.
      split_and!; [done|done| | |].
      * intros u [->|Hu]%elem_of_cons; [split; [done|lia]|].
        destruct (Hin u Hu). split; [done|lia].
      * intros u Hu Hbu. specialize (Hmin u Hu ltac:(lia)).
        destruct (decide (u = t)) as [->|Hne]; [left; by left|].
        destruct (Hall u Hu ltac:(lia)) as [?|(? & [[-> <-]|?])]; [left; by right| |]; right; tauto.
      * intros Hm. destruct (Hmore Hm) as [<- ?]. done.
  - intros [= <- <-]. split_and!; [done|by intros ? ?%not_elem_of_nil| |done]. intros u Hu Hb. right.
    unfold last_of. cbn. split; [lia|by right].
Qed.
End zone.

(** ** Fields *)

Lemma matches_testbit f v : 0 ≤ v → matches f v = (v <? 64) && Z.testbit (bits f) v.
Proof.
  intros Hv. unfold matches. f_equal. destruct (Z.testbit (bits f) v) eqn:Hb.
  - apply negb_true_iff, Z.eqb_neq. intros He.
    assert (Hf : Z.testbit (Z.land (bits f) (Z.shiftl 1 v)) v = false) by by rewrite He, Z.bits_0.
    rewrite Z.land_spec, Hb, Z.shiftl_spec, Z.sub_diag in Hf by done. done.
  - apply negb_false_iff, Z.eqb_eq, Z.bits_inj'. intros n Hn.
    rewrite Z.land_spec, Z.bits_0, Z.shiftl_1_l, Z.pow2_bits_eqb by done.
    destruct (Z.eqb_spec v n) as [<-|]; [by rewrite Hb|by rewrite andb_false_r].
Qed.

(** The values a part of a field describes. *)
Definition part_has (p : Part) (v : Z) : bool :=
  (pt_lo p <=? v) && (v <=? pt_hi p) && ((v - pt_lo p) mod pt_step p =? 0).

(** The loop over the bits, when its 32-bit additions do not wrap. *)
Lemma set_bits_spec fuel v hi step b i :
  0 ≤ v → hi ≤ 63 → 1 ≤ step → hi + step ≤ u32_max → hi - v < Z.of_nat fuel → 0 ≤ i →
  Z.testbit (set_bits fuel v hi step b) i
  = Z.testbit b i || part_has (mkPart v hi step false) i.
Proof.
  intros Hv Hhi Hstep Hsum. revert v b Hv. unfold part_has; cbn.
  induction fuel as [|n IH]; intros v b Hv Hf Hi; cbn [set_bits].
  - destruct (v <=? i) eqn:H1, (i <=? hi) eqn:H2; bools; try lia; by rewrite orb_false_r.
  - destruct (v <=? hi) eqn:Hle; bools.
    2:{ destruct (v <=? i) eqn:H1, (i <=? hi) eqn:H2; bools; try lia; by rewrite orb_false_r. }
    assert (Hadd : u32_add v step = v + step) by (apply u32_add_small; lia). rewrite Hadd.
    rewrite IH by lia. rewrite Z.lor_spec, Z.shiftl_1_l, Z.pow2_bits_eqb by done.
    rewrite <-orb_assoc. f_equal.
    replace (i - v) with (i - (v + step) + 1 * step) by lia. rewrite Z.mod_add by lia.
    destruct (Z.eqb_spec v i) as [<-|Hne]; cbn.
    { rewrite (proj2 (Z.leb_le v v)), (proj2 (Z.leb_le v hi)) by lia. cbn.
      replace (v - (v + step)) with (0 + (-1) * step) by lia. by rewrite Z.mod_add by lia. }
    destruct ((i - (v + step)) mod step =? 0) eqn:Hm; [|by rewrite !andb_false_r].
    rewrite !andb_true_r. bools.
    destruct (v + step <=? i) eqn:H1, (v <=? i) eqn:H2; bools; try done; [lia|].
    (* between two steps there is no multiple *)
    exfalso. apply Z.mod_divide in Hm as [k Hk]; [|lia].
    assert (k < 0) by nia. assert (k > -1) by nia. lia.
Qed.

(** A loop over bits that has left by its own condition is not affected by more turns; with a
    step that wraps the value goes down, so [BIT_STEPS] turns are enough either way. *)
Lemma set_bits_down n v hi step b k :
  0 ≤ v ≤ 63 → hi ≤ 63 → u32_max - 63 < step ≤ u32_max → v < Z.of_nat n →
  set_bits n v hi step b = set_bits (n + k) v hi step b.
Proof.
  revert v b. induction n as [|n IH]; intros v b Hv Hhi Hs Hn; [lia|]. cbn.
  destruct (v <=? hi) eqn:Hle; [|done]. unfold u32_max in Hs.
  destruct (decide (v + step < 2 ^ 32)) as [Hsm|Hbig].
  - assert (Hadd : u32_add v step = v + step) by (unfold u32_add; rewrite Z.mod_small; lia).
    rewrite Hadd. destruct n as [|n]; cbn.
    + destruct k as [|k]; cbn; [done|]. by rewrite (proj2 (Z.leb_gt _ _)) by lia.
    + by rewrite (proj2 (Z.leb_gt _ _)) by lia.
  - assert (Hadd : u32_add v step = v + step - 2 ^ 32).
    { unfold u32_add. rewrite <-(Z_mod_plus_full (v + step) (-1) (2 ^ 32)), Z.mod_small; lia. }
    rewrite Hadd. apply IH; unfold u32_max; lia.
Qed.

(** The loop ends within its turns, whatever the step: more would not change the field. *)
Lemma set_bits_ends v hi step b k :
  0 ≤ v ≤ 63 → hi ≤ 63 → 1 ≤ step ≤ u32_max →
  set_bits BIT_STEPS v hi step b = set_bits (BIT_STEPS + k) v hi step b.
Proof.
  intros Hv Hhi Hs. destruct (decide (hi + step ≤ u32_max)) as [Hup|Hdown].
  2:{ apply set_bits_down; unfold BIT_STEPS; lia. }
  apply Z.bits_inj'. intros i Hi. rewrite !set_bits_spec; unfold BIT_STEPS; try done; lia.
Qed.

#[local] Arguments set_bits : simpl never.

Lemma digits_value_nonneg d : bytes_all is_ascii_digit d = true → 0 ≤ digits_value d.
Proof.
  unfold bytes_all, digits_value. generalize (String.list_ascii_of_string d). clear. intros l.
  assert (Hgen : ∀ acc, 0 ≤ acc → forallb is_ascii_digit l = true →
      0 ≤ fold_left (λ acc c, acc * 10 + digit_value c) l acc); [|by apply Hgen].
  induction l as [|c l IH]; intros acc Hacc; cbn; [done|]. intros [Hc Hl]%andb_true_iff.
  apply IH; [|done]. unfold is_ascii_digit, in_range in Hc. unfold digit_value.
  apply andb_true_iff in Hc as [Hc _]. apply Z.leb_le in Hc. change (byte_of "0"%char) with 48 in Hc. lia.
Qed.

Lemma parse_u32_range raw n : parse_u32 raw = Some n → 0 ≤ n ≤ u32_max.
Proof.
  unfold parse_u32. case_match eqn:Hc; [|done]. intros [= <-].
  apply andb_true_iff in Hc as [[_ Hd]%andb_true_iff Hle]. apply Z.leb_le in Hle.
  split; [by apply digits_value_nonneg|done].
Qed.

Lemma position_range raw names i : position raw names = Some i → 0 ≤ i < Z.of_nat (length names).
Proof.
  revert i. induction names as [|n names IH]; intros i; cbn; [done|].
  case_match; [intros [= <-]; lia|]. intros (j & Hj & ->)%fmap_Some_1. specialize (IH j Hj). lia.
Qed.

Section fields.
Context (min max : Z) (names : list string) (names_from : Z).
Context (Hmin : 0 ≤ min ≤ max) (Hmax : max ≤ 63).
Context (Hnames : 0 ≤ names_from) (Hlast : names_from + Z.of_nat (length names) ≤ 64).

Lemma value_range raw v : value raw min max names names_from = Ok v → 0 ≤ v ≤ 63.
Proof using Type*.
  unfold value. destruct (parse_u32 raw) as [n|] eqn:Hp.
  - case_match eqn:Hc; [done|]. intros [= <-]. bools. lia.
  - destruct (position _ _) as [i|] eqn:Hi; [|done]. intros [= <-].
    apply position_range in Hi. lia.
Qed.

(** A part reads as a range of values in bounds and a step of at least 1. *)
Lemma part_of_range part p : part_of part min max names names_from = Ok p →
  0 ≤ pt_lo p ∧ pt_hi p ≤ 63 ∧ pt_lo p ≤ 63 ∧ 1 ≤ pt_step p ≤ u32_max.
Proof using Type*.
  unfold part_of. intros H. apply result_bind_Ok in H as ([[range step] slash] & H1 & H2).
  assert (Hstep : 1 ≤ step ≤ u32_max).
  { destruct (split_once _ part) as [[r st]|]; [|injection H1 as <- <- <-; unfold u32_max; lia].
    destruct (parse_u32 st) as [n|] eqn:Hn; [|done]. apply parse_u32_range in Hn.
    destruct (n =? 0) eqn:Hz; [done|]. injection H1 as <- <- <-. bools. lia. }
  destruct (bool_decide _); [injection H2 as <-; cbn; lia|].
  destruct (split_once _ range) as [[a b]|].
  - apply result_bind_Ok in H2 as (x & Hx & H2). apply result_bind_Ok in H2 as (y & Hy & H2).
    apply value_range in Hx, Hy. destruct (y <? x); [done|]. injection H2 as <-. cbn. lia.
  - apply result_bind_Ok in H2 as (x & Hx & H2). apply value_range in Hx. injection H2 as <-. cbn.
    destruct slash; lia.
Qed.

(** What the loop over the parts of a field has gathered. *)
Lemma field_parts parts f f' :
  foldl (λ acc part,
      f ← acc;
      p ← part_of part min max names names_from;
      Ok (mkField (set_bits BIT_STEPS (pt_lo p) (pt_hi p) (pt_step p) (bits f))
            (any f || pt_star p))) (Ok f) parts = Ok f' →
  ∃ ps, Forall2 (λ part p, part_of part min max names names_from = Ok p) parts ps
  ∧ any f' = any f || existsb pt_star ps
  ∧ (Forall (λ p, pt_hi p + pt_step p ≤ u32_max) ps → ∀ v, 0 ≤ v →
     Z.testbit (bits f') v = Z.testbit (bits f) v || existsb (λ p, part_has p v) ps).
Proof using Type*.
  revert f. induction parts as [|part parts IH]; intros f; cbn.
  - intros [= <-]. exists []. split_and!; [constructor|by rewrite orb_false_r|].
    intros _ v _. by rewrite orb_false_r.
  - destruct (part_of part min max names names_from) as [p|e] eqn:Hp; cbn.
    2:{ intros H. exfalso. clear -H. induction parts as [|q parts IH]; cbn in H; [done|by apply IH]. }
    intros (ps & Hps & Hany & Hbits)%IH. exists (p :: ps). cbn in *. split_and!; [by constructor| |].
    + by rewrite Hany, orb_assoc.
    + intros [Hp1 Hps1]%Forall_cons v Hv. rewrite Hbits by done. apply part_of_range in Hp.
      rewrite set_bits_spec; [|unfold BIT_STEPS; lia..]. by rewrite orb_assoc.
Qed.

Lemma field_error parts f e :
  foldl (λ acc part,
      f ← acc;
      p ← part_of part min max names names_from;
      Ok (mkField (set_bits BIT_STEPS (pt_lo p) (pt_hi p) (pt_step p) (bits f))
            (any f || pt_star p))) (Ok f) parts = Err e →
  ∃ part, part ∈ parts ∧ part_of part min max names names_from = Err e.
Proof.
  revert f. induction parts as [|part parts IH]; intros f; cbn; [done|].
  destruct (part_of part min max names names_from) as [p|e'] eqn:Hp; cbn.
  - intros (q & Hq & He)%IH. exists q. split; [by right|done].
  - intros H. exists part. split; [left|]. rewrite Hp. f_equal. clear -H.
    induction parts as [|q parts IH]; cbn in H; [by injection H|by apply IH].
Qed.

(** A cron field is the set of values its text describes. [field] succeeds exactly when every
    comma-separated part does; a value then matches if and only if some part [a-b/s] has it, that
    is [a <= v <= b] and [s] divides [v - a]; the field counts as unrestricted if and only if some
    part is a bare star. (The 32-bit addition of the loop must not wrap: see
    [cron_step_wraps].) *)
Theorem field_denotes raw :
  match field raw min max names names_from with
  | Ok f => raw ≠ "" ∧ ∃ ps,
      Forall2 (λ part p, part_of part min max names names_from = Ok p) (split_on "," raw) ps
      ∧ any f = existsb pt_star ps
      ∧ (Forall (λ p, pt_hi p + pt_step p ≤ u32_max) ps →
         ∀ v, 0 ≤ v → matches f v = existsb (λ p, part_has p v) ps)
  | Err e => raw = "" ∨ ∃ part,
      part ∈ split_on "," raw ∧ part_of part min max names names_from = Err e
  end.
Proof using Type*.
  unfold field. destruct (decide (raw = "")) as [->|Hne]; [by left|].
  rewrite bool_decide_eq_false_2 by done. destruct (foldl _ _ _) as [f|e] eqn:Hf.
  - split; [done|]. pose proof (field_parts _ _ _ Hf) as (ps & Hps & Hany & Hbits).
    exists ps. split_and!; [done|done|]. intros Hsum v Hv. specialize (Hbits Hsum v Hv).
    cbn [bits] in Hbits. rewrite Z.bits_0 in Hbits. rewrite matches_testbit, Hbits, orb_false_l by done.
    destruct (existsb (λ p, part_has p v) ps) eqn:He; [|by rewrite andb_false_r]. rewrite andb_true_r.
    apply existsb_exists in He as (p & Hin & Hp). apply list_elem_of_In in Hin.
    apply list_elem_of_lookup in Hin as [i Hi].
    destruct (Forall2_lookup_r _ _ _ i p Hps Hi) as (part & _ & Hpart).
    apply part_of_range in Hpart. unfold part_has in Hp. bools. apply Z.ltb_lt. lia.
  - right. by apply field_error in Hf.
Qed.
End fields.

(** A step so large that the addition wraps: minutes [5-10/4294967295] match [0] to [5]. *)
Example cron_step_wraps :
  match field "5-10/4294967295" 0 59 [] 0 with
  | Ok f => map (matches f) [0; 1; 2; 3; 4; 5; 6; 10] = [true; true; true; true; true; true; false; false]
  | Err _ => False
  end.
Proof. vm_compute. reflexivity. Qed.

(** ** The theorems at work *)

(** New York in November 2026: the clock goes back from 4 to 5 hours behind UTC at 06:00 UTC of
    the first. *)
Definition new_york : TimeZone := transition_zone 1793512800 (-14400) (-18000).
Lemma new_york_laws : @ZoneLaws _ new_york.
Proof. by apply transition_zone_laws. Qed.

Definition schedule_of (expression : string) : CronSchedule :=
  match parse expression with
  | Some (Ok s) => s
  | _ => mkSchedule (mkField 0 false) (mkField 0 false) (mkField 0 false) (mkField 0 false)
           (mkField 0 false) (mkField 0 false) false
  end.

(** 01:30 of the first of November is shown twice; the schedule fires at the earlier instant, and
    next on the second. *)
Lemma next_after_is_first_witness :
  let first := 1793511000 * nanoseconds_per_second in
  let second := 1793601000 * nanoseconds_per_second in
  next_after (H0 := new_york) (schedule_of "30 1 * * *") first = Some second
  ∧ fires_at (tz := new_york) (schedule_of "30 1 * * *") second
  ∧ (∀ u, fires_at (tz := new_york) (schedule_of "30 1 * * *") u → first < u → second ≤ u).
Proof.
  cbv zeta.
  assert (Hn : next_after (H0 := new_york) (schedule_of "30 1 * * *") (1793511000 * nanoseconds_per_second)
    = Some (1793601000 * nanoseconds_per_second)) by (vm_compute; reflexivity).
  destruct (next_after_is_first (tz := new_york) (tz_laws := new_york_laws) _ _ _ Hn) as (Hf & _ & Hmin).
  split; [exact Hn|]. split; [exact Hf|exact Hmin].
Defined.

Lemma field_denotes_witness :
  ∃ f ps, field "1-5/2,SAT" 0 7 WEEKDAYS 0 = Ok f
  ∧ Forall2 (λ part p, part_of part 0 7 WEEKDAYS 0 = Ok p) ["1-5/2"; "SAT"] ps
  ∧ map (matches f) [0; 1; 2; 3; 4; 5; 6; 7] = [false; true; false; true; false; true; true; false].
Proof.
  pose proof (field_denotes 0 7 WEEKDAYS 0 ltac:(lia) ltac:(lia) ltac:(lia) ltac:(cbn; lia) "1-5/2,SAT") as Hd.
  destruct (field "1-5/2,SAT" 0 7 WEEKDAYS 0) as [f|e] eqn:Hf; [|exfalso; vm_compute in Hf; discriminate Hf].
  destruct Hd as (_ & ps & Hps & _). exists f, ps. split_and!; [done|exact Hps|].
  vm_compute in Hf. injection Hf as <-. vm_compute. reflexivity.
Defined.
