(* ===== verification/Rating.v ===== *)
(** * Provisional rating

    [crates/application/src/usage/rating.rs] and the report of [usage/mod.rs]: the settled
    attempts of a tenant, accumulated exactly by function and day, priced once per line, and the
    totals of the lines. The lines are the records of [crates/api-types/src/lib.rs]. The text of
    a day is the calendar library's. *)

From S2P Require Import Prelude Ids Usage UsageJournal UsageLedger Store Retry AsyncRun AsyncFront UsageMeter.
From S2P Require Import Calendar Cron.
From Stdlib Require Import Ascii.

Open Scope string_scope.
Open Scope Z_scope.

(** ** 128-bit integers *)

Definition u128_max : Z := 2 ^ 128 - 1.
Definition u128_add (a b : Z) : Z := (a + b) mod 2 ^ 128.
Definition u128_mul (a b : Z) : Z := (a * b) mod 2 ^ 128.
Definition u128_saturating_mul (a b : Z) : Z := Z.min (a * b) u128_max.

(** ** Price tables *)

(** [crates/application/src/usage/rating.rs:40-48 SEGMENT_NAMES] *)
Definition SEGMENT_NAMES : list string :=
  ["queue_wait_ms"; "vm_base_boot_ms"; "user_init_ms"; "handler_ms"; "teardown_ms"; "idle_pooled_ms"].

(** [crates/application/src/usage/rating.rs:50-51 VCPU_MILLI_MS_PER_VCPU_SECOND] *)
Definition VCPU_MILLI_MS_PER_VCPU_SECOND : Z := 1000 * 1000.
(** [crates/application/src/usage/rating.rs:52-53 MIB_MS_PER_GIB_SECOND] *)
Definition MIB_MS_PER_GIB_SECOND : Z := 1024 * 1000.
(** [crates/application/src/usage/rating.rs:54-55 BYTES_PER_GB] *)
Definition BYTES_PER_GB : Z := 1000000000.

(** [crates/application/src/usage/rating.rs:69-76 UnitPrices] *)
Record UnitPrices := mkUnitPrices {
  up_vcpu_second : Z;
  up_gib_second : Z;
  up_invocation : Z;
  up_gb_transferred : Z
}.

(** [crates/application/src/usage/rating.rs:57-67 PriceTable] *)
Record PriceTable := mkPriceTable {
  pt_version : string;
  pt_effective_from : Timestamp;
  pt_currency : string;
  pt_billable_segments : list string;
  pt_unit_prices_micros : UnitPrices
}.

Module Price.
(** [crates/application/src/usage/rating.rs:88-105 builtin] *)
Definition builtin : PriceTable :=
  mkPriceTable "provisional-dev-2026-09-v1" (seconds 1788220800) "JPY" ["user_init_ms"; "handler_ms"]
    (mkUnitPrices 2500 400 30 15000000).

(** [crates/application/src/usage/rating.rs:119-135 validate] *)
Definition validate (t : PriceTable) : result string unit :=
  when! trim (pt_version t) == "" return! Err "price table: version must not be empty";;
  when! trim (pt_currency t) == "" return! Err "price table: currency must not be empty";;
  match List.find (λ s, negb (bool_decide (s ∈ SEGMENT_NAMES))) (pt_billable_segments t) with
  | Some s => Err ("price table: unknown billable segment `" +:+ s +:+ "` (known: "
                +:+ String.concat ", " SEGMENT_NAMES +:+ ")")
  | None => Ok tt
  end.

(** [crates/application/src/usage/rating.rs:107-111 from_toml] [parsed] is what the TOML library
    made of the text. *)
Definition from_toml (parsed : result string PriceTable) : result string PriceTable :=
  match parsed with
  | Err e => Err ("price table: " +:+ e)
  | Ok t => _ ← validate t; Ok t
  end.
End Price.

(** [crates/application/src/usage/rating.rs:154-158 round_half_up_div] *)
Definition round_half_up_div (n d : Z) : Z :=
  n / d + (if d <=? (n mod d) * 2 then 1 else 0).

(** [crates/application/src/usage/rating.rs:160-168 charge] *)
Definition charge (quantity unit_price per : Z) : Z :=
  Z.min (round_half_up_div (u128_saturating_mul quantity unit_price) per) u64_max.

(** [crates/application/src/usage/rating.rs:170-173 ceil_ms] of a duration in nanoseconds. *)
Definition ceil_ms (d : Duration) : Z := Z.min (div_ceil (d / 1000) 1000) u64_max.

(** ** Lines *)

(** [crates/api-types/src/lib.rs:1275-1282 OutcomeCounts] *)
Record OutcomeCounts := mkOutcomes {
  oc_succeeded : Z; oc_failed : Z; oc_timeout : Z; oc_cancelled : Z; oc_outcome_unknown : Z
}.
#[global] Instance OutcomeCounts_eta : Eta OutcomeCounts := λ r,
  mkOutcomes (oc_succeeded r) (oc_failed r) (oc_timeout r) (oc_cancelled r) (oc_outcome_unknown r).

(** [crates/api-types/src/lib.rs:1284-1292 SegmentTotals] *)
Record SegmentTotals := mkSegmentTotals {
  sn_queue_wait_ms : Z;
  sn_vm_base_boot_ms : Z;
  sn_user_init_ms : Z;
  sn_handler_ms : Z;
  sn_teardown_ms : Z;
  sn_idle_pooled_ms : Z
}.
#[global] Instance SegmentTotals_eta : Eta SegmentTotals := λ r,
  mkSegmentTotals (sn_queue_wait_ms r) (sn_vm_base_boot_ms r) (sn_user_init_ms r) (sn_handler_ms r)
    (sn_teardown_ms r) (sn_idle_pooled_ms r).

(** [crates/api-types/src/lib.rs:1256-1273 UsageQuantities] *)
Record UsageQuantities := mkQuantities {
  uq_invocations : Z;
  uq_attempts : Z;
  uq_retries : Z;
  uq_outcomes : OutcomeCounts;
  uq_segments_ms : SegmentTotals;
  uq_billable_ms : Z;
  uq_vcpu_milli_ms : Z;
  uq_mib_ms : Z;
  uq_request_bytes : Z;
  uq_response_bytes : Z
}.
#[global] Instance UsageQuantities_eta : Eta UsageQuantities := λ r,
  mkQuantities (uq_invocations r) (uq_attempts r) (uq_retries r) (uq_outcomes r) (uq_segments_ms r)
    (uq_billable_ms r) (uq_vcpu_milli_ms r) (uq_mib_ms r) (uq_request_bytes r) (uq_response_bytes r).

(** [crates/api-types/src/lib.rs:1294-1303 UnmeteredUsage] *)
Record UnmeteredUsage := mkUnmetered {
  um_attempts : Z; um_segments : SegmentTotals; um_bytes : Z
}.
#[global] Instance UnmeteredUsage_eta : Eta UnmeteredUsage := λ r,
  mkUnmetered (um_attempts r) (um_segments r) (um_bytes r).

(** [crates/api-types/src/lib.rs:1305-1320 HostCostFacts] *)
Record HostCostFacts := mkHostCost {
  hc_environments_stopped : Z;
  hc_environment_lifetime_ms : Z;
  hc_idle_pooled_ms : Z;
  hc_teardown_ms : Z;
  hc_boot_without_attempt_ms : Z;
  hc_cgroup_cpu_usec : Z;
  hc_cgroup_cpu_unknown : Z;
  hc_cgroup_memory_peak_bytes_max : Z
}.
#[global] Instance HostCostFacts_eta : Eta HostCostFacts := λ r,
  mkHostCost (hc_environments_stopped r) (hc_environment_lifetime_ms r) (hc_idle_pooled_ms r)
    (hc_teardown_ms r) (hc_boot_without_attempt_ms r) (hc_cgroup_cpu_usec r)
    (hc_cgroup_cpu_unknown r) (hc_cgroup_memory_peak_bytes_max r).

(** [crates/api-types/src/lib.rs:1322-1330 ProvisionalCharges] *)
Record ProvisionalCharges := mkCharges {
  ch_vcpu : Z; ch_memory : Z; ch_invocations : Z; ch_transfer : Z; ch_total : Z
}.
#[global] Instance ProvisionalCharges_eta : Eta ProvisionalCharges := λ r,
  mkCharges (ch_vcpu r) (ch_memory r) (ch_invocations r) (ch_transfer r) (ch_total r).

(** [crates/api-types/src/lib.rs:1332-1337 GuestReportedTotals] *)
Record GuestReportedTotals := mkGuestTotals { gt_guest_handler_ms : Z; gt_guest_init_ms : Z }.
#[global] Instance GuestReportedTotals_eta : Eta GuestReportedTotals := λ r,
  mkGuestTotals (gt_guest_handler_ms r) (gt_guest_init_ms r).

(** [crates/api-types/src/lib.rs:1242-1254 UsageReportLine] *)
Record UsageReportLine := mkLine {
  ln_function_id : option string;
  ln_day : option string;
  ln_usage : UsageQuantities;
  ln_unmetered : UnmeteredUsage;
  ln_cost : HostCostFacts;
  ln_provisional_charges_micros : ProvisionalCharges;
  ln_guest_reported : GuestReportedTotals
}.
#[global] Instance UsageReportLine_eta : Eta UsageReportLine := λ r,
  mkLine (ln_function_id r) (ln_day r) (ln_usage r) (ln_unmetered r) (ln_cost r)
    (ln_provisional_charges_micros r) (ln_guest_reported r).

(** The [Default]s. *)
Definition no_segments : SegmentTotals := mkSegmentTotals 0 0 0 0 0 0.
Definition no_quantities : UsageQuantities :=
  mkQuantities 0 0 0 (mkOutcomes 0 0 0 0 0) no_segments 0 0 0 0 0.
Definition no_unmetered : UnmeteredUsage := mkUnmetered 0 no_segments 0.
Definition no_cost : HostCostFacts := mkHostCost 0 0 0 0 0 0 0 0.
Definition no_charges : ProvisionalCharges := mkCharges 0 0 0 0 0.
Definition no_guest : GuestReportedTotals := mkGuestTotals 0 0.
Definition empty_line : UsageReportLine :=
  mkLine None None no_quantities no_unmetered no_cost no_charges no_guest.

(** ** Grouping *)

(** [crates/application/src/usage/rating.rs:175-180 GroupBy] *)
Record GroupBy := mkGroupBy { gb_function : bool; gb_day : bool }.
#[global] Instance GroupBy_eta : Eta GroupBy := λ r, mkGroupBy (gb_function r) (gb_day r).

Module Group.
Fixpoint parse_parts (parts : list string) (g : GroupBy) : result string GroupBy :=
  match parts with
  | [] => Ok g
  | part :: parts =>
      if part == "function" then parse_parts parts (g <| gb_function := true |>)
      else if part == "day" then parse_parts parts (g <| gb_day := true |>)
      else if part == "none" then parse_parts parts g
      else Err ("group_by: unknown key `" +:+ part +:+ "` (use function, day, function,day or none)")
  end.

(** [crates/application/src/usage/rating.rs:183-205 parse] *)
Definition parse (raw : option string) : result string GroupBy :=
  match raw with
  | None => Ok (mkGroupBy true true)
  | Some raw =>
      parse_parts (List.filter (λ p, negb (p == "")) (trim <$> split_on ","%char raw)) (mkGroupBy false false)
  end.

(** [crates/application/src/usage/rating.rs:207-216 keys] *)
Definition keys (g : GroupBy) : list string :=
  ((if gb_function g then ["function"] else []) ++ (if gb_day g then ["day"] else []))%list.
End Group.

(** ** Accumulating *)

(** [crates/application/src/usage/rating.rs:219-229 Acc] *)
Record Acc := mkAcc {
  ac_usage : UsageQuantities;
  ac_vcpu_milli_ms : Z;
  ac_mib_ms : Z;
  ac_transfer_bytes : Z;
  ac_unmetered : UnmeteredUsage;
  ac_cost : HostCostFacts;
  ac_guest : GuestReportedTotals
}.
#[global] Instance Acc_eta : Eta Acc := λ r,
  mkAcc (ac_usage r) (ac_vcpu_milli_ms r) (ac_mib_ms r) (ac_transfer_bytes r) (ac_unmetered r)
    (ac_cost r) (ac_guest r).
Definition empty_acc : Acc := mkAcc no_quantities 0 0 0 no_unmetered no_cost no_guest.

(** [crates/application/src/usage/rating.rs:231-242 add_segments] *)
Definition add_segments (name : string) (v : Z) (total : SegmentTotals) : SegmentTotals :=
  let add x := u64_saturating_add x v in
  if name == "queue_wait_ms" then total <| sn_queue_wait_ms ::= add |>
  else if name == "vm_base_boot_ms" then total <| sn_vm_base_boot_ms ::= add |>
  else if name == "user_init_ms" then total <| sn_user_init_ms ::= add |>
  else if name == "handler_ms" then total <| sn_handler_ms ::= add |>
  else if name == "teardown_ms" then total <| sn_teardown_ms ::= add |>
  else if name == "idle_pooled_ms" then total <| sn_idle_pooled_ms ::= add |>
  else total.

Module Accs.

Definition bump (n : Z) : Z := u64_add n 1.

(** [crates/application/src/usage/rating.rs:273-279 add_attempt (part)] *)
Definition count_outcome (o : option UsageOutcome.t) (c : OutcomeCounts) : OutcomeCounts :=
  match o with
  | Some UsageOutcome.Succeeded => c <| oc_succeeded ::= bump |>
  | Some UsageOutcome.Failed => c <| oc_failed ::= bump |>
  | Some UsageOutcome.Timeout => c <| oc_timeout ::= bump |>
  | Some UsageOutcome.Cancelled => c <| oc_cancelled ::= bump |>
  | Some UsageOutcome.OutcomeUnknown | None => c <| oc_outcome_unknown ::= bump |>
  end.

(** [crates/application/src/usage/rating.rs:280-293 add_attempt (part)] One segment: counted as
    usage or as unmetered, and in the billable milliseconds if the table lists it. *)
Definition add_segment (t : PriceTable) (s : Acc * Z * bool) (nm : string * Metered) : Acc * Z * bool :=
  let '(a, billable_ms, unknown) := s in
  let '(name, m) := nm in
  let a := match Meter.ratable_value m with
    | Some v => a <| ac_usage ::= λ u, u <| uq_segments_ms ::= add_segments name v |> |>
    | None => a <| ac_unmetered ::= λ u, u <| um_segments ::= add_segments name 1 |> |>
    end in
  if bool_decide (name ∈ pt_billable_segments t) then
    match Meter.ratable_value m with
    | Some v => (a, u64_saturating_add billable_ms v, unknown)
    | None => (a, billable_ms, true)
    end
  else (a, billable_ms, unknown).

(** [crates/application/src/usage/rating.rs:307-328 add_attempt (part)] *)
Definition add_request (v : Z) (a : Acc) : Acc :=
  a <| ac_usage ::= λ u, u <| uq_request_bytes ::= λ n, u64_saturating_add n v |> |>.
Definition add_response (v : Z) (a : Acc) : Acc :=
  a <| ac_usage ::= λ u, u <| uq_response_bytes ::= λ n, u64_saturating_add n v |> |>.
Definition add_transfer (v : Z) (a : Acc) : Acc := a <| ac_transfer_bytes ::= λ n, u128_add n v |>.
Definition add_bytes (b : UsageBytes) (a : Acc) : Acc :=
  match Meter.ratable_value (ub_request_bytes b), Meter.ratable_value (ub_response_bytes b) with
  | Some req, Some resp => add_transfer (u128_add req resp) (add_response resp (add_request req a))
  | req, resp =>
      let a := a <| ac_unmetered ::= λ u, u <| um_bytes ::= bump |> |> in
      let a := match req with Some req => add_transfer req (add_request req a) | None => a end in
      match resp with Some resp => add_transfer resp (add_response resp a) | None => a end
  end.

(** [crates/application/src/usage/rating.rs:267-330 add_attempt] *)
Definition add_attempt (t : PriceTable) (e : UsageEvent) (a : Acc) : Acc :=
  let a := a <| ac_usage ::= λ u, u <| uq_attempts ::= bump |> |> in
  let a := a <| ac_usage ::= λ u,
    match ue_attempt_kind e with
    | Some AttemptKind.Retry => u <| uq_retries ::= bump |>
    | _ => u <| uq_invocations ::= bump |>
    end |> in
  let a := a <| ac_usage ::= λ u, u <| uq_outcomes ::= count_outcome (ue_outcome e) |> |> in
  let '(a, billable_ms, unknown) := foldl (add_segment t) (a, 0, false) (Segments.named (ue_segments e)) in
  let cpu := ur_requested_cpu_millis (ue_resources e) in
  let mem := ur_requested_memory_mib (ue_resources e) in
  let unknown := unknown || (cpu =? 0) || (mem =? 0) in
  let a := if unknown then a <| ac_unmetered ::= λ u, u <| um_attempts ::= bump |> |> else a in
  let a := a <| ac_usage ::= λ u, u <| uq_billable_ms ::= λ n, u64_saturating_add n billable_ms |> |>
             <| ac_vcpu_milli_ms ::= λ n, u128_add n (u128_mul billable_ms cpu) |>
             <| ac_mib_ms ::= λ n, u128_add n (u128_mul billable_ms mem) |> in
  add_bytes (ue_bytes e) a.

(** [crates/application/src/usage/rating.rs:332-360 add_stop (part)] *)
Definition stop_cost (e : UsageEvent) (c : HostCostFacts) : HostCostFacts :=
  let seg := ue_segments e in
  let c := c <| hc_environments_stopped ::= bump |>
             <| hc_environment_lifetime_ms ::= λ n, u64_saturating_add n (unwrap_or (ue_monotonic_duration_ms e) 0) |> in
  let c := match Meter.ratable_value (sg_idle_pooled_ms seg) with
    | Some v => c <| hc_idle_pooled_ms ::= λ n, u64_saturating_add n v |> | None => c end in
  let c := match Meter.ratable_value (sg_teardown_ms seg) with
    | Some v => c <| hc_teardown_ms ::= λ n, u64_saturating_add n v |> | None => c end in
  let c := if is_none (ue_attempt_id e) && is_some (ue_outcome e) then
      let boot := unwrap_or (Meter.ratable_value (sg_vm_base_boot_ms seg)) 0 in
      let init := unwrap_or (Meter.ratable_value (sg_user_init_ms seg)) 0 in
      c <| hc_boot_without_attempt_ms ::= λ n, u64_saturating_add n (u64_saturating_add boot init) |>
    else c in
  let c := match Meter.ratable_value (ur_cgroup_cpu_usec (ue_resources e)) with
    | Some v => c <| hc_cgroup_cpu_usec ::= λ n, u64_saturating_add n v |>
    | None => c <| hc_cgroup_cpu_unknown ::= bump |> end in
  match Meter.ratable_value (ur_cgroup_memory_peak_bytes (ue_resources e)) with
  | Some v => c <| hc_cgroup_memory_peak_bytes_max ::= λ n, Z.max n v |>
  | None => c
  end.

(** [crates/application/src/usage/rating.rs:332-360 add_stop] *)
Definition add_stop (e : UsageEvent) (a : Acc) : Acc := a <| ac_cost ::= stop_cost e |>.

(** [crates/application/src/usage/rating.rs:258-263 add (part)] *)
Definition add_guest (g : GuestReportedUsage) (a : Acc) : Acc :=
  let a := match gu_guest_handler_ms g with
    | Some ms => a <| ac_guest ::= λ u, u <| gt_guest_handler_ms ::= λ n, u64_saturating_add n ms |> |>
    | None => a end in
  match gu_guest_init_ms g with
  | Some ms => a <| ac_guest ::= λ u, u <| gt_guest_init_ms ::= λ n, u64_saturating_add n ms |> |>
  | None => a
  end.

(** [crates/application/src/usage/rating.rs:249-265 add] *)
Definition add (t : PriceTable) (e : UsageEvent) (a : Acc) : Acc :=
  let a := match ue_event_type e with
    | UsageEventType.AttemptSettled => add_attempt t e a
    | UsageEventType.EnvironmentStopped => add_stop e a
    | _ => a
    end in
  add_guest (ue_guest_reported e) a.

(** [crates/application/src/usage/rating.rs:364-381 finish (part)] *)
Definition charges_of (t : PriceTable) (a : Acc) : ProvisionalCharges :=
  let p := pt_unit_prices_micros t in
  let vcpu := charge (ac_vcpu_milli_ms a) (up_vcpu_second p) VCPU_MILLI_MS_PER_VCPU_SECOND in
  let memory := charge (ac_mib_ms a) (up_gib_second p) MIB_MS_PER_GIB_SECOND in
  let invocations := charge (uq_invocations (ac_usage a)) (up_invocation p) 1 in
  let transfer := charge (ac_transfer_bytes a) (up_gb_transferred p) BYTES_PER_GB in
  mkCharges vcpu memory invocations transfer
    (u64_saturating_add (u64_saturating_add (u64_saturating_add vcpu memory) invocations) transfer).

(** [crates/application/src/usage/rating.rs:362-391 finish] *)
Definition finish (t : PriceTable) (a : Acc) : UsageReportLine :=
  let u := ac_usage a <| uq_vcpu_milli_ms := Z.min (ac_vcpu_milli_ms a) u64_max |>
                      <| uq_mib_ms := Z.min (ac_mib_ms a) u64_max |> in
  mkLine None None u (ac_unmetered a) (ac_cost a) (charges_of t a) (ac_guest a).
End Accs.

(** ** Reports *)

(** [None] comes before every [Some]. *)
Definition opt_le (a b : option string) : Prop :=
  match a, b with
  | None, _ => True
  | Some _, None => False
  | Some a, Some b => string_le a b
  end.
Definition line_key_le (p q : option string * option string) : Prop :=
  (p.1 ≠ q.1 ∧ opt_le p.1 q.1) ∨ (p.1 = q.1 ∧ opt_le p.2 q.2).
#[global] Instance opt_le_dec : RelDecision opt_le.
Proof. intros [a|] [b|]; cbn; apply _. Defined.
#[global] Instance line_key_le_dec : RelDecision line_key_le.
Proof. intros p q. unfold line_key_le. apply _. Defined.
#[global] Instance opt_le_trans : Transitive opt_le.
Proof. intros [a|] [b|] [c|]; cbn; try done. apply string_le_trans. Qed.
#[global] Instance opt_le_total : Total opt_le.
Proof. intros [a|] [b|]; cbn; auto. apply string_le_total. Qed.
#[global] Instance opt_le_anti_symm : AntiSymm (=) opt_le.
Proof. intros [a|] [b|]; cbn; try done. intros H1 H2. f_equal. by apply (anti_symm string_le). Qed.
#[global] Program Instance line_key_btree_key : BTreeKey (option string * option string) :=
  {| bt_le := line_key_le |}.
Next Obligation.
  intros [a1 a2] [b1 b2] [c1 c2]. unfold line_key_le; cbn.
  intros [[Hn H1]|[-> H1]] [[Hm H2]|[<- H2]]; [|by left|by left|right].
  - left. split; [|by etrans]. intros <-. apply Hn. by apply (anti_symm opt_le).
  - split; [done|by etrans].
Qed.
Next Obligation.
  intros [a1 a2] [b1 b2]. unfold line_key_le; cbn.
  destruct (decide (a1 = b1)) as [->|Hn].
  - destruct (total opt_le a2 b2); auto.
  - destruct (total opt_le a1 b1); auto.
Qed.
Next Obligation.
  intros [a1 a2] [b1 b2]. unfold line_key_le; cbn.
  intros [[Hn H1]|[-> H1]] [[Hm H2]|[Heq H2]]; [|done|done|].
  - destruct Hn. by apply (anti_symm opt_le).
  - f_equal. by apply (anti_symm opt_le).
Qed.

Module Rating.
Section rating.
Context (day_of : Timestamp → string).

(** [crates/application/src/usage/rating.rs:402-409 rate (part)] *)
Definition line_key (g : GroupBy) (e : UsageEvent) : option string * option string :=
  (if gb_function g then Some (unwrap_or (ue_function_id e) "unattributed") else None,
   if gb_day g then Some (day_of (ue_observed_at e)) else None).

(** [crates/application/src/usage/rating.rs:401-410 rate (part)] *)
Definition add_event (t : PriceTable) (g : GroupBy) (m : gmap (option string * option string) Acc)
    (e : UsageEvent) : gmap (option string * option string) Acc :=
  <[line_key g e := Accs.add t e (unwrap_or (m !! line_key g e) empty_acc)]> m.

Definition add_events (t : PriceTable) (g : GroupBy) (events : list UsageEvent)
    : gmap (option string * option string) Acc := foldl (add_event t g) ∅ events.

(** [crates/application/src/usage/rating.rs:411-417 rate (part)] *)
Definition line_of (t : PriceTable) (k : option string * option string) (a : Acc) : UsageReportLine :=
  Accs.finish t a <| ln_function_id := k.1 |> <| ln_day := k.2 |>.
End rating.

(** [crates/application/src/usage/rating.rs:427-434 sum_segments] *)
Definition sum_segments (a b : SegmentTotals) : SegmentTotals :=
  mkSegmentTotals (u64_saturating_add (sn_queue_wait_ms a) (sn_queue_wait_ms b))
    (u64_saturating_add (sn_vm_base_boot_ms a) (sn_vm_base_boot_ms b))
    (u64_saturating_add (sn_user_init_ms a) (sn_user_init_ms b))
    (u64_saturating_add (sn_handler_ms a) (sn_handler_ms b))
    (u64_saturating_add (sn_teardown_ms a) (sn_teardown_ms b))
    (u64_saturating_add (sn_idle_pooled_ms a) (sn_idle_pooled_ms b)).

(** [crates/application/src/usage/rating.rs:436-442 sum_outcomes] *)
Definition sum_outcomes (a b : OutcomeCounts) : OutcomeCounts :=
  mkOutcomes (u64_add (oc_succeeded a) (oc_succeeded b)) (u64_add (oc_failed a) (oc_failed b))
    (u64_add (oc_timeout a) (oc_timeout b)) (u64_add (oc_cancelled a) (oc_cancelled b))
    (u64_add (oc_outcome_unknown a) (oc_outcome_unknown b)).

(** [crates/application/src/usage/rating.rs:447-460 sum_lines (part)] *)
Definition sum_usage (u lu : UsageQuantities) : UsageQuantities :=
  mkQuantities (u64_add (uq_invocations u) (uq_invocations lu)) (u64_add (uq_attempts u) (uq_attempts lu))
    (u64_add (uq_retries u) (uq_retries lu)) (sum_outcomes (uq_outcomes u) (uq_outcomes lu))
    (sum_segments (uq_segments_ms u) (uq_segments_ms lu))
    (u64_saturating_add (uq_billable_ms u) (uq_billable_ms lu))
    (u64_saturating_add (uq_vcpu_milli_ms u) (uq_vcpu_milli_ms lu))
    (u64_saturating_add (uq_mib_ms u) (uq_mib_ms lu))
    (u64_saturating_add (uq_request_bytes u) (uq_request_bytes lu))
    (u64_saturating_add (uq_response_bytes u) (uq_response_bytes lu)).

(** [crates/application/src/usage/rating.rs:461-476 sum_lines (part)] *)
Definition sum_cost (c lc : HostCostFacts) : HostCostFacts :=
  mkHostCost (u64_add (hc_environments_stopped c) (hc_environments_stopped lc))
    (u64_saturating_add (hc_environment_lifetime_ms c) (hc_environment_lifetime_ms lc))
    (u64_saturating_add (hc_idle_pooled_ms c) (hc_idle_pooled_ms lc))
    (u64_saturating_add (hc_teardown_ms c) (hc_teardown_ms lc))
    (u64_saturating_add (hc_boot_without_attempt_ms c) (hc_boot_without_attempt_ms lc))
    (u64_saturating_add (hc_cgroup_cpu_usec c) (hc_cgroup_cpu_usec lc))
    (u64_add (hc_cgroup_cpu_unknown c) (hc_cgroup_cpu_unknown lc))
    (Z.max (hc_cgroup_memory_peak_bytes_max c) (hc_cgroup_memory_peak_bytes_max lc)).

(** [crates/application/src/usage/rating.rs:477-485 sum_lines (part)] *)
Definition sum_charges (p lp : ProvisionalCharges) : ProvisionalCharges :=
  mkCharges (u64_saturating_add (ch_vcpu p) (ch_vcpu lp)) (u64_saturating_add (ch_memory p) (ch_memory lp))
    (u64_saturating_add (ch_invocations p) (ch_invocations lp))
    (u64_saturating_add (ch_transfer p) (ch_transfer lp)) (u64_saturating_add (ch_total p) (ch_total lp)).

(** [crates/application/src/usage/rating.rs:444-496 sum_lines] *)
Definition sum_line (t l : UsageReportLine) : UsageReportLine :=
  t <| ln_usage ::= λ u, sum_usage u (ln_usage l) |>
    <| ln_unmetered ::= λ u, mkUnmetered (u64_add (um_attempts u) (um_attempts (ln_unmetered l)))
         (sum_segments (um_segments u) (um_segments (ln_unmetered l)))
         (u64_add (um_bytes u) (um_bytes (ln_unmetered l))) |>
    <| ln_cost ::= λ c, sum_cost c (ln_cost l) |>
    <| ln_provisional_charges_micros ::= λ p, sum_charges p (ln_provisional_charges_micros l) |>
    <| ln_guest_reported ::= λ g, mkGuestTotals
         (u64_saturating_add (gt_guest_handler_ms g) (gt_guest_handler_ms (ln_guest_reported l)))
         (u64_saturating_add (gt_guest_init_ms g) (gt_guest_init_ms (ln_guest_reported l))) |>.
Definition sum_lines (lines : list UsageReportLine) : UsageReportLine := foldl sum_line empty_line lines.

(** [crates/application/src/usage/rating.rs:394-420 rate] *)
Definition rate (day_of : Timestamp → string) (events : list UsageEvent) (t : PriceTable) (g : GroupBy)
    : list UsageReportLine * UsageReportLine :=
  let lines := (λ ka, line_of t ka.1 ka.2) <$> btree_entries (add_events day_of t g events) in
  (lines, sum_lines lines).

(** ** The report *)

(** [crates/application/src/usage/mod.rs:67-68 MAX_REPORT_DAYS] *)
Definition MAX_REPORT_DAYS : Z := 92.

(** [crates/application/src/usage/mod.rs:400-407 UsageQuery] *)
Record UsageQuery := mkUsageQuery {
  qu_from : option Timestamp;
  qu_to : option Timestamp;
  qu_group_by : option string;
  qu_function_id : option FunctionId
}.

(** [crates/api-types/src/lib.rs:1180-1218 UsageReportResponse] The fields that are computed. *)
Record UsageReport := mkUsageReport {
  rp_tenant_id : TenantId;
  rp_function_id : option FunctionId;
  rp_from : Timestamp;
  rp_to : Timestamp;
  rp_group_by : list string;
  rp_lines : list UsageReportLine;
  rp_totals : UsageReportLine;
  rp_unjournaled_events : Z;
  rp_collected_through : option Timestamp
}.

Definition days (n : Z) : Duration := seconds (n * 86400).

(** [crates/application/src/usage/mod.rs:324-378 report] [w] is the access to the ledger, [w'] the
    one to the losses of the journal; [show_time] is the text of an instant. *)
Definition report `{UsageCodec} (day_of show_time : Timestamp → string) (t : PriceTable) (p : Principal)
    (q : UsageQuery) (now : Timestamp) (collected : option Timestamp) (w w' : DbAccess)
    (j : UsageJournal) (db : JournalDb) (l : UsageTable) : result AppError UsageReport :=
  _ ← require_invoke p;
  let to := unwrap_or (qu_to q) now in
  let from := match qu_from q with
    | Some f => f | None => Z.max (to - days 31) (pt_effective_from t) end in
  when! to <=? from return! Err (InvalidRequest "usage: `from` must be before `to`");;
  when! days MAX_REPORT_DAYS <? to - from return!
    Err (InvalidRequest ("usage: the range must not exceed " +:+ pretty MAX_REPORT_DAYS +:+ " days"));;
  when! from <? pt_effective_from t return!
    Err (InvalidRequest ("usage: `from` is before the price table's effective_from ("
      +:+ show_time (pt_effective_from t) +:+ "); one report is rated with one table"));;
  group_by ← map_err InvalidRequest (Group.parse (qu_group_by q));
  events ← map_err (λ e, Platform ("usage ledger: " +:+ e))
             (events_for w (pr_tenant_id p) (qu_function_id q) from to l);
  let '(lines, totals) := rate day_of events t group_by in
  Ok (mkUsageReport (pr_tenant_id p) (qu_function_id q) from to (Group.keys group_by) lines totals
        (unjournaled_for w' (pr_tenant_id p) j db).1.1 collected).
End Rating.
