(* ===== verification/RatingInv.v ===== *)
(** * Accumulating is addition

    The accumulator of a line is a commutative monoid, field by field: counters that wrap,
    quantities that saturate, exact 128-bit sums and one maximum. Adding an event to an accumulator
    is adding the accumulator of that event alone, so the order of the events and the way they are
    grouped cannot matter. *)

From S2P Require Import Prelude Ids Usage UsageJournal UsageLedger Store Retry AsyncRun AsyncFront UsageMeter.
From S2P Require Import Calendar Cron Rating.

Open Scope string_scope.
Open Scope Z_scope.

(** ** Definitions *)

Definition u64s (l : list Z) : Prop := Forall u64_range l.
Definition u128_range (z : Z) : Prop := 0 ≤ z ≤ u128_max.

Definition outcomes_ok (c : OutcomeCounts) : Prop :=
  u64s [oc_succeeded c; oc_failed c; oc_timeout c; oc_cancelled c; oc_outcome_unknown c].
Definition segments_ok (s : SegmentTotals) : Prop :=
  u64s [sn_queue_wait_ms s; sn_vm_base_boot_ms s; sn_user_init_ms s; sn_handler_ms s; sn_teardown_ms s;
        sn_idle_pooled_ms s].
Definition usage_ok (u : UsageQuantities) : Prop :=
  u64s [uq_invocations u; uq_attempts u; uq_retries u; uq_billable_ms u; uq_vcpu_milli_ms u;
        uq_mib_ms u; uq_request_bytes u; uq_response_bytes u] ∧
  outcomes_ok (uq_outcomes u) ∧ segments_ok (uq_segments_ms u).
Definition unmetered_ok (u : UnmeteredUsage) : Prop :=
  u64s [um_attempts u; um_bytes u] ∧ segments_ok (um_segments u).
Definition cost_ok (c : HostCostFacts) : Prop :=
  u64s [hc_environments_stopped c; hc_environment_lifetime_ms c; hc_idle_pooled_ms c; hc_teardown_ms c;
        hc_boot_without_attempt_ms c; hc_cgroup_cpu_usec c; hc_cgroup_cpu_unknown c;
        hc_cgroup_memory_peak_bytes_max c].
Definition guest_ok (g : GuestReportedTotals) : Prop := u64s [gt_guest_handler_ms g; gt_guest_init_ms g].
Record acc_ok (a : Acc) : Prop := {
  ak_usage : usage_ok (ac_usage a);
  ak_vcpu : u128_range (ac_vcpu_milli_ms a);
  ak_mib : u128_range (ac_mib_ms a);
  ak_transfer : u128_range (ac_transfer_bytes a);
  ak_unmetered : unmetered_ok (ac_unmetered a);
  ak_cost : cost_ok (ac_cost a);
  ak_guest : guest_ok (ac_guest a)
}.

Definition sum_unmetered (u v : UnmeteredUsage) : UnmeteredUsage :=
  mkUnmetered (u64_add (um_attempts u) (um_attempts v)) (Rating.sum_segments (um_segments u) (um_segments v))
    (u64_add (um_bytes u) (um_bytes v)).
Definition sum_guest (g h : GuestReportedTotals) : GuestReportedTotals :=
  mkGuestTotals (u64_saturating_add (gt_guest_handler_ms g) (gt_guest_handler_ms h))
    (u64_saturating_add (gt_guest_init_ms g) (gt_guest_init_ms h)).

(** The sum of two accumulators. *)
Definition acc_plus (a b : Acc) : Acc :=
  mkAcc (Rating.sum_usage (ac_usage a) (ac_usage b)) (u128_add (ac_vcpu_milli_ms a) (ac_vcpu_milli_ms b))
    (u128_add (ac_mib_ms a) (ac_mib_ms b)) (u128_add (ac_transfer_bytes a) (ac_transfer_bytes b))
    (sum_unmetered (ac_unmetered a) (ac_unmetered b)) (Rating.sum_cost (ac_cost a) (ac_cost b))
    (sum_guest (ac_guest a) (ac_guest b)).

(** What the types of the source say of an event. *)
Definition opt_u64 (o : option Z) : Prop := match o with Some v => u64_range v | None => True end.
Definition metered_ok (m : Metered) : Prop := opt_u64 (mt_value m).
Record event_ok (e : UsageEvent) : Prop := {
  eo_segments : Forall (λ nm, metered_ok nm.2) (Segments.named (ue_segments e));
  eo_cpu : 0 ≤ ur_requested_cpu_millis (ue_resources e) ≤ u32_max;
  eo_mem : 0 ≤ ur_requested_memory_mib (ue_resources e) ≤ u32_max;
  eo_cgroup_cpu : metered_ok (ur_cgroup_cpu_usec (ue_resources e));
  eo_cgroup_mem : metered_ok (ur_cgroup_memory_peak_bytes (ue_resources e));
  eo_request : metered_ok (ub_request_bytes (ue_bytes e));
  eo_response : metered_ok (ub_response_bytes (ue_bytes e));
  eo_duration : opt_u64 (ue_monotonic_duration_ms e);
  eo_guest_handler : opt_u64 (gu_guest_handler_ms (ue_guest_reported e));
  eo_guest_init : opt_u64 (gu_guest_init_ms (ue_guest_reported e))
}.

(** ** Integers *)

Lemma w_comm a b : u64_add a b = u64_add b a.
Proof. unfold u64_add. f_equal. lia. Qed.
Lemma w_assoc a b d : u64_add (u64_add a b) d = u64_add a (u64_add b d).
Proof. unfold u64_add. rewrite Zplus_mod_idemp_l, Zplus_mod_idemp_r. f_equal. lia. Qed.
Lemma w_0 a : u64_range a → u64_add a 0 = a.
Proof. intros [? ?]. rewrite u64_add_small; lia. Qed.
Lemma w_add a b : u64_add a (u64_add 0 b) = u64_add a b.
Proof. unfold u64_add. by rewrite Zplus_mod_idemp_r. Qed.

Lemma s_comm a b : u64_saturating_add a b = u64_saturating_add b a.
Proof. unfold u64_saturating_add. f_equal. lia. Qed.
Lemma s_assoc a b d : u64_range a → u64_range d →
  u64_saturating_add (u64_saturating_add a b) d = u64_saturating_add a (u64_saturating_add b d).
Proof. unfold u64_saturating_add, u64_range. lia. Qed.
Lemma s_0 a : u64_range a → u64_saturating_add a 0 = a.
Proof. unfold u64_saturating_add, u64_range. lia. Qed.
Lemma s_add a b : u64_range a → u64_saturating_add a (u64_saturating_add 0 b) = u64_saturating_add a b.
Proof. unfold u64_saturating_add, u64_range. lia. Qed.
Lemma s_range a b : u64_range a → u64_range b → u64_range (u64_saturating_add a b).
Proof. unfold u64_saturating_add, u64_range, u64_max. lia. Qed.

Lemma x_comm a b : u128_add a b = u128_add b a.
Proof. unfold u128_add. f_equal. lia. Qed.
Lemma x_assoc a b d : u128_add (u128_add a b) d = u128_add a (u128_add b d).
Proof. unfold u128_add. rewrite Zplus_mod_idemp_l, Zplus_mod_idemp_r. f_equal. lia. Qed.
Lemma x_small a b : 0 ≤ a + b ≤ u128_max → u128_add a b = a + b.
Proof. unfold u128_add, u128_max. intros ?. apply Z.mod_small. lia. Qed.
Lemma x_0 a : u128_range a → u128_add a 0 = a.
Proof. intros [? ?]. rewrite x_small; lia. Qed.
Lemma x_add a b : u128_add a (u128_add 0 b) = u128_add a b.
Proof. unfold u128_add. by rewrite Zplus_mod_idemp_r. Qed.
Lemma x_range a b : u128_range (u128_add a b).
Proof. unfold u128_range, u128_add, u128_max. pose proof (Z.mod_pos_bound (a + b) (2 ^ 128)). lia. Qed.

Lemma m_0 a : u64_range a → Z.max a 0 = a.
Proof. unfold u64_range. lia. Qed.
Lemma m_add a b : u64_range a → Z.max a (Z.max 0 b) = Z.max a b.
Proof. unfold u64_range. lia. Qed.
Lemma m_range a b : u64_range a → u64_range b → u64_range (Z.max a b).
Proof. unfold u64_range. lia. Qed.
Lemma range_0 : u64_range 0.
Proof. by split. Qed.

#[local] Hint Resolve w_comm w_assoc w_0 s_comm s_assoc s_0 s_range x_comm x_assoc x_0 x_range m_0
  m_range range_0 u64_add_range Z.max_comm Z.max_assoc : tally.
#[local] Hint Extern 1 (Z.max (Z.max _ _) _ = _) => symmetry; apply Z.max_assoc : tally.

(** ** The monoid *)

Ltac fields :=
  repeat match goal with
  | H : u64s (_ :: _) |- _ => apply Forall_cons in H as [? H]
  | H : u64s [] |- _ => clear H
  | H : Forall u64_range (_ :: _) |- _ => apply Forall_cons in H as [? H]
  | H : Forall u64_range [] |- _ => clear H
  | H : _ ∧ _ |- _ => destruct H
  end.
Ltac ranges := unfold u64s; repeat apply Forall_cons_2; try apply Forall_nil_2; auto with tally.

Lemma segments_comm a b : Rating.sum_segments a b = Rating.sum_segments b a.
Proof. unfold Rating.sum_segments. f_equal; auto with tally. Qed.
Lemma segments_assoc a b d : segments_ok a → segments_ok d →
  Rating.sum_segments (Rating.sum_segments a b) d = Rating.sum_segments a (Rating.sum_segments b d).
Proof. intros Ha Hd. unfold segments_ok in *. fields. unfold Rating.sum_segments; cbn. f_equal; auto with tally. Qed.
Lemma segments_0 a : segments_ok a → Rating.sum_segments a no_segments = a.
Proof. intros Ha. unfold segments_ok in *. fields. destruct a; unfold Rating.sum_segments; cbn in *. f_equal; auto with tally. Qed.
Lemma segments_plus_ok a b : segments_ok a → segments_ok b → segments_ok (Rating.sum_segments a b).
Proof. intros Ha Hb. unfold segments_ok in *. fields. cbn. ranges. Qed.
Lemma no_segments_ok : segments_ok no_segments.
Proof. unfold segments_ok; cbn. ranges. Qed.

Lemma outcomes_comm a b : Rating.sum_outcomes a b = Rating.sum_outcomes b a.
Proof. unfold Rating.sum_outcomes. f_equal; auto with tally. Qed.
Lemma outcomes_assoc a b d :
  Rating.sum_outcomes (Rating.sum_outcomes a b) d = Rating.sum_outcomes a (Rating.sum_outcomes b d).
Proof. unfold Rating.sum_outcomes; cbn. f_equal; auto with tally. Qed.
Lemma outcomes_0 a : outcomes_ok a → Rating.sum_outcomes a (mkOutcomes 0 0 0 0 0) = a.
Proof. intros Ha. unfold outcomes_ok in *. fields. destruct a; unfold Rating.sum_outcomes; cbn in *. f_equal; auto with tally. Qed.
Lemma outcomes_plus_ok a b : outcomes_ok (Rating.sum_outcomes a b).
Proof. unfold outcomes_ok; cbn. ranges. Qed.

#[local] Hint Resolve segments_comm segments_assoc segments_0 segments_plus_ok no_segments_ok outcomes_comm
  outcomes_assoc outcomes_0 outcomes_plus_ok : tally.

Lemma usage_comm a b : Rating.sum_usage a b = Rating.sum_usage b a.
Proof. unfold Rating.sum_usage. f_equal; auto with tally. Qed.
Lemma usage_assoc a b d : usage_ok a → usage_ok d →
  Rating.sum_usage (Rating.sum_usage a b) d = Rating.sum_usage a (Rating.sum_usage b d).
Proof. intros Ha Hd. unfold usage_ok in *. fields. unfold Rating.sum_usage; cbn. f_equal; auto with tally. Qed.
Lemma usage_0 a : usage_ok a → Rating.sum_usage a no_quantities = a.
Proof. intros Ha. unfold usage_ok in *. fields. destruct a; unfold Rating.sum_usage; cbn in *. f_equal; auto with tally. Qed.
Lemma usage_plus_ok a b : usage_ok a → usage_ok b → usage_ok (Rating.sum_usage a b).
Proof. intros Ha Hb. unfold usage_ok in *. fields. cbn. split_and!; auto with tally. ranges. Qed.

Lemma unmetered_comm a b : sum_unmetered a b = sum_unmetered b a.
Proof. unfold sum_unmetered. f_equal; auto with tally. Qed.
Lemma unmetered_assoc a b d : unmetered_ok a → unmetered_ok d →
  sum_unmetered (sum_unmetered a b) d = sum_unmetered a (sum_unmetered b d).
Proof. intros Ha Hd. unfold unmetered_ok in *. fields. unfold sum_unmetered; cbn. f_equal; auto with tally. Qed.
Lemma unmetered_0 a : unmetered_ok a → sum_unmetered a no_unmetered = a.
Proof. intros Ha. unfold unmetered_ok in *. fields. destruct a; unfold sum_unmetered; cbn in *. f_equal; auto with tally. Qed.
Lemma unmetered_plus_ok a b : unmetered_ok a → unmetered_ok b → unmetered_ok (sum_unmetered a b).
Proof. intros Ha Hb. unfold unmetered_ok in *. fields. cbn. split; auto with tally. ranges. Qed.

Lemma cost_comm a b : Rating.sum_cost a b = Rating.sum_cost b a.
Proof. unfold Rating.sum_cost. f_equal; auto with tally. Qed.
Lemma cost_assoc a b d : cost_ok a → cost_ok d →
  Rating.sum_cost (Rating.sum_cost a b) d = Rating.sum_cost a (Rating.sum_cost b d).
Proof. intros Ha Hd. unfold cost_ok in *. fields. unfold Rating.sum_cost; cbn. f_equal; auto with tally. Qed.
Lemma cost_0 a : cost_ok a → Rating.sum_cost a no_cost = a.
Proof. intros Ha. unfold cost_ok in *. fields. destruct a; unfold Rating.sum_cost; cbn in *. f_equal; auto with tally. Qed.
Lemma cost_plus_ok a b : cost_ok a → cost_ok b → cost_ok (Rating.sum_cost a b).
Proof. intros Ha Hb. unfold cost_ok in *. fields. cbn. ranges. Qed.

Lemma guest_comm a b : sum_guest a b = sum_guest b a.
Proof. unfold sum_guest. f_equal; auto with tally. Qed.
Lemma guest_assoc a b d : guest_ok a → guest_ok d →
  sum_guest (sum_guest a b) d = sum_guest a (sum_guest b d).
Proof. intros Ha Hd. unfold guest_ok in *. fields. unfold sum_guest; cbn. f_equal; auto with tally. Qed.
Lemma guest_0 a : guest_ok a → sum_guest a no_guest = a.
Proof. intros Ha. unfold guest_ok in *. fields. destruct a; unfold sum_guest; cbn in *. f_equal; auto with tally. Qed.
Lemma guest_plus_ok a b : guest_ok a → guest_ok b → guest_ok (sum_guest a b).
Proof. intros Ha Hb. unfold guest_ok in *. fields. cbn. ranges. Qed.

#[local] Hint Resolve usage_comm usage_assoc usage_0 usage_plus_ok unmetered_comm unmetered_assoc unmetered_0
  unmetered_plus_ok cost_comm cost_assoc cost_0 cost_plus_ok guest_comm guest_assoc guest_0 guest_plus_ok : tally.

Lemma acc_comm a b : acc_plus a b = acc_plus b a.
Proof. unfold acc_plus. f_equal; auto with tally. Qed.
Lemma acc_assoc a b d : acc_ok a → acc_ok d → acc_plus (acc_plus a b) d = acc_plus a (acc_plus b d).
Proof. intros [] []. unfold acc_plus; cbn. f_equal; auto with tally. Qed.
Lemma acc_0 a : acc_ok a → acc_plus a empty_acc = a.
Proof. intros []. destruct a; unfold acc_plus; cbn in *. f_equal; auto with tally. Qed.
Lemma acc_plus_ok a b : acc_ok a → acc_ok b → acc_ok (acc_plus a b).
Proof. intros [] []. split; cbn; auto with tally. Qed.
Lemma empty_acc_ok : acc_ok empty_acc.
Proof.
  split; cbn; try (by split); unfold usage_ok, unmetered_ok, outcomes_ok, cost_ok, guest_ok; cbn; split_and?;
    auto with tally; ranges.
Qed.

(** ** Updates that add *)

Section shifts.
Context {A : Type} (plus : A → A → A) (zero : A) (ok : A → Prop).
Context (assoc : ∀ a b d, ok a → ok d → plus (plus a b) d = plus a (plus b d)).
Context (closed : ∀ a b, ok a → ok b → ok (plus a b)).

(** An update that adds what it makes of zero. *)
Definition shifts (f : A → A) : Prop := ok (f zero) ∧ ∀ a, ok a → f a = plus a (f zero).

Lemma shifts_ok f a : shifts f → ok a → ok (f a).
Proof. intros [H0 Hf] Ha. rewrite Hf by done. by apply closed. Qed.

Lemma shifts_compose f g : shifts f → shifts g → shifts (λ a, g (f a)).
Proof.
  intros Hf Hg. pose proof Hf as [Hf0 Hf1]. pose proof Hg as [Hg0 Hg1]. split.
  - by apply shifts_ok.
  - intros a Ha. rewrite Hf1, Hg1 by (try apply closed; done).
    rewrite assoc by done. f_equal. symmetry. by apply Hg1.
Qed.

Context (zero_ok : ok zero) (unit : ∀ a, ok a → plus a zero = a).

(** Updates one after the other. *)
Definition pipe (fs : list (A → A)) (a : A) : A := foldl (λ a f, f a) a fs.
Lemma shifts_pipe fs : Forall shifts fs → shifts (pipe fs).
Proof.
  induction 1 as [|f fs Hf _ IH].
  - split; [done|]. intros a Ha. by rewrite unit.
  - exact (shifts_compose f (pipe fs) Hf IH).
Qed.
End shifts.

Definition adds : (Acc → Acc) → Prop := shifts acc_plus empty_acc acc_ok.
Definition costs : (HostCostFacts → HostCostFacts) → Prop := shifts Rating.sum_cost no_cost cost_ok.

Lemma adds_ok f a : adds f → acc_ok a → acc_ok (f a).
Proof. apply shifts_ok, acc_plus_ok. Qed.
Lemma adds_id : adds (λ a, a).
Proof. split; [apply empty_acc_ok|]. intros a Ha. by rewrite acc_0. Qed.
Lemma adds_compose f g : adds f → adds g → adds (λ a, g (f a)).
Proof. apply shifts_compose; [apply acc_assoc|apply acc_plus_ok]. Qed.
Lemma costs_compose f g : costs f → costs g → costs (λ a, g (f a)).
Proof. apply shifts_compose; [apply cost_assoc|apply cost_plus_ok]. Qed.
Lemma no_cost_ok : cost_ok no_cost.
Proof. unfold cost_ok; cbn. ranges. Qed.
Lemma costs_id : costs (λ c, c).
Proof. split; [apply no_cost_ok|]. intros c Hc. by rewrite cost_0. Qed.

Lemma adds_pipe fs : Forall adds fs → adds (pipe fs).
Proof. apply shifts_pipe; [apply acc_assoc|apply acc_plus_ok|apply empty_acc_ok|apply acc_0]. Qed.
Lemma costs_pipe fs : Forall costs fs → costs (pipe fs).
Proof. apply shifts_pipe; [apply cost_assoc|apply cost_plus_ok|apply no_cost_ok|apply cost_0]. Qed.

(** An update of one part of an accumulator. *)
Lemma adds_usage f : shifts Rating.sum_usage no_quantities usage_ok f → adds (λ a, a <| ac_usage ::= f |>).
Proof.
  intros [H0 Hf]. pose proof empty_acc_ok as []. split; [split; cbn; done|]. intros a [].
  destruct a; unfold acc_plus; cbn in *. f_equal; first [by apply Hf | symmetry; auto with tally].
Qed.
Lemma adds_unmetered f : shifts sum_unmetered no_unmetered unmetered_ok f → adds (λ a, a <| ac_unmetered ::= f |>).
Proof.
  intros [H0 Hf]. pose proof empty_acc_ok as []. split; [split; cbn; done|]. intros a [].
  destruct a; unfold acc_plus; cbn in *. f_equal; first [by apply Hf | symmetry; auto with tally].
Qed.
Lemma adds_cost f : costs f → adds (λ a, a <| ac_cost ::= f |>).
Proof.
  intros [H0 Hf]. pose proof empty_acc_ok as []. split; [split; cbn; done|]. intros a [].
  destruct a; unfold acc_plus; cbn in *. f_equal; first [by apply Hf | symmetry; auto with tally].
Qed.
Lemma adds_guest f : shifts sum_guest no_guest guest_ok f → adds (λ a, a <| ac_guest ::= f |>).
Proof.
  intros [H0 Hf]. pose proof empty_acc_ok as []. split; [split; cbn; done|]. intros a [].
  destruct a; unfold acc_plus; cbn in *. f_equal; first [by apply Hf | symmetry; auto with tally].
Qed.

#[local] Hint Resolve w_add s_add x_add m_add no_cost_ok empty_acc_ok : tally.

Lemma adds_exact v :
  adds (λ a, a <| ac_vcpu_milli_ms ::= λ n, u128_add n v |>) ∧
  adds (λ a, a <| ac_mib_ms ::= λ n, u128_add n v |>) ∧
  adds (λ a, a <| ac_transfer_bytes ::= λ n, u128_add n v |>).
Proof.
  pose proof empty_acc_ok as []. split_and!; (split; [split; cbn; auto with tally|]; intros a [];
    destruct a; unfold acc_plus; cbn in *; f_equal; symmetry; auto with tally).
Qed.

Lemma no_quantities_ok : usage_ok no_quantities.
Proof. apply empty_acc_ok. Qed.
Lemma no_unmetered_ok : unmetered_ok no_unmetered.
Proof. apply empty_acc_ok. Qed.

(** Shifts of the parts of a line. *)
Lemma shift_outcome o : shifts Rating.sum_outcomes (mkOutcomes 0 0 0 0 0) outcomes_ok (Accs.count_outcome o).
Proof.
  split.
  - destruct o as [[]|]; unfold outcomes_ok, Accs.bump; cbn; unfold Accs.bump; ranges.
  - intros c Hc. unfold outcomes_ok in Hc. fields. destruct c; cbn in *.
    destruct o as [[]|]; unfold Rating.sum_outcomes, Accs.bump; cbn; f_equal; symmetry; auto with tally.
Qed.

Lemma shift_segments name v : u64_range v →
  shifts Rating.sum_segments no_segments segments_ok (add_segments name v).
Proof.
  intros Hv. split.
  - unfold add_segments, segments_ok. repeat case_match; cbn; ranges.
  - intros c Hc. unfold segments_ok in Hc. fields. destruct c; cbn in *.
    unfold add_segments. repeat case_match; unfold Rating.sum_segments; cbn; f_equal; symmetry; auto with tally.
Qed.

Ltac shifting okdef plusdef :=
  split; [unfold okdef; cbn; unfold Accs.bump; split_and?; ranges|];
  let x := fresh "x" in let Hx := fresh "Hx" in
  intros x Hx; unfold okdef in Hx; fields; destruct x; unfold plusdef; cbn in *; unfold Accs.bump;
  f_equal; symmetry; auto with tally.

Lemma shift_usage_segments name v : u64_range v →
  shifts Rating.sum_usage no_quantities usage_ok (λ u, u <| uq_segments_ms ::= add_segments name v |>).
Proof.
  intros Hv. destruct (shift_segments name v Hv) as [Hz Hs]. split.
  - destruct no_quantities_ok as (? & ? & ?). by split_and!.
  - intros u Hu. unfold usage_ok in Hu. fields. destruct u; unfold Rating.sum_usage; cbn in *.
    f_equal; first [by apply Hs | symmetry; auto with tally].
Qed.

Lemma shift_usage_outcome o :
  shifts Rating.sum_usage no_quantities usage_ok (λ u, u <| uq_outcomes ::= Accs.count_outcome o |>).
Proof.
  destruct (shift_outcome o) as [Hz Hs]. split.
  - destruct no_quantities_ok as (? & ? & ?). by split_and!.
  - intros u Hu. unfold usage_ok in Hu. fields. destruct u; unfold Rating.sum_usage; cbn in *.
    f_equal; first [by apply Hs | symmetry; auto with tally].
Qed.

Lemma shift_unmetered_segments name v : u64_range v →
  shifts sum_unmetered no_unmetered unmetered_ok (λ u, u <| um_segments ::= add_segments name v |>).
Proof.
  intros Hv. destruct (shift_segments name v Hv) as [Hz Hs]. split.
  - destruct no_unmetered_ok. by split.
  - intros u Hu. unfold unmetered_ok in Hu. fields. destruct u; unfold sum_unmetered; cbn in *.
    f_equal; first [by apply Hs | symmetry; auto with tally].
Qed.

#[local] Hint Extern 1 (usage_ok _) => apply no_quantities_ok : tally.

Lemma outcomes_zero_ok : outcomes_ok (mkOutcomes 0 0 0 0 0).
Proof. apply empty_acc_ok. Qed.
#[local] Hint Resolve outcomes_zero_ok : tally.

(** Shifts of the counters and sums of the quantities. *)
Lemma shift_attempts : shifts Rating.sum_usage no_quantities usage_ok (λ u, u <| uq_attempts ::= Accs.bump |>).
Proof. shifting usage_ok Rating.sum_usage. Qed.
Lemma shift_retries : shifts Rating.sum_usage no_quantities usage_ok (λ u, u <| uq_retries ::= Accs.bump |>).
Proof. shifting usage_ok Rating.sum_usage. Qed.
Lemma shift_invocations : shifts Rating.sum_usage no_quantities usage_ok (λ u, u <| uq_invocations ::= Accs.bump |>).
Proof. shifting usage_ok Rating.sum_usage. Qed.
Lemma shift_billable v : u64_range v →
  shifts Rating.sum_usage no_quantities usage_ok (λ u, u <| uq_billable_ms ::= λ n, u64_saturating_add n v |>).
Proof. intros Hv. shifting usage_ok Rating.sum_usage. Qed.
Lemma shift_request v : u64_range v →
  shifts Rating.sum_usage no_quantities usage_ok (λ u, u <| uq_request_bytes ::= λ n, u64_saturating_add n v |>).
Proof. intros Hv. shifting usage_ok Rating.sum_usage. Qed.
Lemma shift_response v : u64_range v →
  shifts Rating.sum_usage no_quantities usage_ok (λ u, u <| uq_response_bytes ::= λ n, u64_saturating_add n v |>).
Proof. intros Hv. shifting usage_ok Rating.sum_usage. Qed.
Lemma shift_unmetered_attempts : shifts sum_unmetered no_unmetered unmetered_ok (λ u, u <| um_attempts ::= Accs.bump |>).
Proof. shifting unmetered_ok sum_unmetered. Qed.
Lemma shift_unmetered_bytes : shifts sum_unmetered no_unmetered unmetered_ok (λ u, u <| um_bytes ::= Accs.bump |>).
Proof. shifting unmetered_ok sum_unmetered. Qed.

Create HintDb shifts.
#[local] Hint Resolve adds_id adds_usage adds_unmetered adds_cost adds_guest shift_usage_segments
  shift_usage_outcome shift_unmetered_segments shift_attempts shift_retries shift_invocations shift_billable
  shift_request shift_response shift_unmetered_attempts shift_unmetered_bytes : shifts.

(** ** Events *)

Lemma ratable_ok m v : metered_ok m → Meter.ratable_value m = Some v → u64_range v.
Proof.
  unfold metered_ok, Meter.ratable_value. destruct (Measurement.ratable _); [|done].
  intros Hm Hv. by rewrite Hv in Hm.
Qed.

Lemma one_range : u64_range 1.
Proof. by split. Qed.

(** What may be charged of a quantity: what the host or the provider measured of it. *)
Definition metered_value (m : Metered) : option Z :=
  match mt_measurement m with
  | Measurement.HostMeasured | Measurement.ProviderReported => mt_value m
  | Measurement.GuestReported | Measurement.Unknown => None
  end.

Lemma metered_value_eq m : metered_value m = Meter.ratable_value m.
Proof. unfold metered_value, Meter.ratable_value. by destruct (mt_measurement m). Qed.

(** What one segment does to the accumulator, to the billable milliseconds and to the mark that
    something billable was not measured. *)
Definition segment_acc (a : Acc) (nm : string * Metered) : Acc :=
  match Meter.ratable_value nm.2 with
  | Some v => a <| ac_usage ::= λ u, u <| uq_segments_ms ::= add_segments nm.1 v |> |>
  | None => a <| ac_unmetered ::= λ u, u <| um_segments ::= add_segments nm.1 1 |> |>
  end.
Definition segment_ms (t : PriceTable) (ms : Z) (nm : string * Metered) : Z :=
  if bool_decide (nm.1 ∈ pt_billable_segments t) then
    match metered_value nm.2 with Some v => u64_saturating_add ms v | None => ms end
  else ms.
Definition segment_unknown (t : PriceTable) (b : bool) (nm : string * Metered) : bool :=
  if bool_decide (nm.1 ∈ pt_billable_segments t) then
    match metered_value nm.2 with Some _ => b | None => true end
  else b.

Lemma add_segment_fold t l a ms b :
  foldl (Accs.add_segment t) (a, ms, b) l
  = (foldl segment_acc a l, foldl (segment_ms t) ms l, foldl (segment_unknown t) b l).
Proof.
  revert a ms b. induction l as [|[name m] l IH]; intros a ms b; [done|].
  cbn [foldl]. rewrite <-IH. f_equal. unfold Accs.add_segment, segment_acc, segment_ms, segment_unknown.
  cbn [fst snd]. rewrite metered_value_eq. destruct (bool_decide _), (Meter.ratable_value m); done.
Qed.

Lemma segments_fold_adds l : Forall (λ nm, metered_ok nm.2) l → adds (λ a, foldl segment_acc a l).
Proof.
  induction 1 as [|[name m] l Hm _ IH]; [apply adds_id|]. cbn [foldl].
  apply (adds_compose (λ a, segment_acc a (name, m)) (λ a, foldl segment_acc a l)); [|done].
  unfold segment_acc. cbn [fst snd] in *. destruct (Meter.ratable_value m) eqn:E.
  - exact (adds_usage _ (shift_usage_segments name _ (ratable_ok _ _ Hm E))).
  - exact (adds_unmetered _ (shift_unmetered_segments name _ one_range)).
Qed.

Lemma segment_ms_range t l ms :
  Forall (λ nm, metered_ok nm.2) l → u64_range ms → u64_range (foldl (segment_ms t) ms l).
Proof.
  intros Hl. revert ms. induction Hl as [|[name m] l Hm _ IH]; intros ms Hms; [done|]. cbn [foldl].
  apply IH. unfold segment_ms. rewrite metered_value_eq. cbn in Hm |- *. destruct (bool_decide _); [|done].
  destruct (Meter.ratable_value m) eqn:E; [|done]. apply s_range; [done|]. by eapply ratable_ok.
Qed.

(** The billable milliseconds of an attempt, and whether part of it was not measured. *)
Definition billable_ms (t : PriceTable) (e : UsageEvent) : Z :=
  foldl (segment_ms t) 0 (Segments.named (ue_segments e)).
Definition not_measured (t : PriceTable) (e : UsageEvent) : bool :=
  foldl (segment_unknown t) false (Segments.named (ue_segments e))
  || (ur_requested_cpu_millis (ue_resources e) =? 0) || (ur_requested_memory_mib (ue_resources e) =? 0).

Lemma add_bytes_adds b : metered_ok (ub_request_bytes b) → metered_ok (ub_response_bytes b) → adds (Accs.add_bytes b).
Proof.
  intros Hq Hp. unfold Accs.add_bytes.
  destruct (Meter.ratable_value (ub_request_bytes b)) as [req|] eqn:E1;
    destruct (Meter.ratable_value (ub_response_bytes b)) as [resp|] eqn:E2;
    repeat match goal with H : Meter.ratable_value _ = Some _ |- _ => apply ratable_ok in H; [|done] end.
  - apply (adds_compose (λ a, Accs.add_response resp (Accs.add_request req a)) (Accs.add_transfer (u128_add req resp)));
      [|apply adds_exact].
    apply (adds_compose (Accs.add_request req) (Accs.add_response resp)); by apply adds_usage; auto with shifts.
  - apply (adds_compose (λ a, Accs.add_request req (a <| ac_unmetered ::= λ u, u <| um_bytes ::= Accs.bump |> |>))
      (Accs.add_transfer req)); [|apply adds_exact].
    apply (adds_compose (λ a, a <| ac_unmetered ::= λ u, u <| um_bytes ::= Accs.bump |> |>) (Accs.add_request req));
      [apply adds_unmetered, shift_unmetered_bytes|by apply adds_usage; auto with shifts].
  - apply (adds_compose (λ a, Accs.add_response resp (a <| ac_unmetered ::= λ u, u <| um_bytes ::= Accs.bump |> |>))
      (Accs.add_transfer resp)); [|apply adds_exact].
    apply (adds_compose (λ a, a <| ac_unmetered ::= λ u, u <| um_bytes ::= Accs.bump |> |>) (Accs.add_response resp));
      [apply adds_unmetered, shift_unmetered_bytes|by apply adds_usage; auto with shifts].
  - apply adds_unmetered, shift_unmetered_bytes.
Qed.

(** The steps of [add_attempt], one after the other. *)
Definition attempt_steps (t : PriceTable) (e : UsageEvent) : list (Acc → Acc) :=
  [λ a, a <| ac_usage ::= λ u, u <| uq_attempts ::= Accs.bump |> |>;
   λ a, a <| ac_usage ::= λ u, match ue_attempt_kind e with
     | Some AttemptKind.Retry => u <| uq_retries ::= Accs.bump |>
     | _ => u <| uq_invocations ::= Accs.bump |> end |>;
   λ a, a <| ac_usage ::= λ u, u <| uq_outcomes ::= Accs.count_outcome (ue_outcome e) |> |>;
   λ a, foldl segment_acc a (Segments.named (ue_segments e));
   λ a, if not_measured t e then a <| ac_unmetered ::= λ u, u <| um_attempts ::= Accs.bump |> |> else a;
   λ a, a <| ac_usage ::= λ u, u <| uq_billable_ms ::= λ n, u64_saturating_add n (billable_ms t e) |> |>;
   λ a, a <| ac_vcpu_milli_ms ::= λ n, u128_add n
     (u128_mul (billable_ms t e) (ur_requested_cpu_millis (ue_resources e))) |>;
   λ a, a <| ac_mib_ms ::= λ n, u128_add n
     (u128_mul (billable_ms t e) (ur_requested_memory_mib (ue_resources e))) |>;
   Accs.add_bytes (ue_bytes e)].

Lemma add_attempt_eq t e a : Accs.add_attempt t e a = pipe (attempt_steps t e) a.
Proof. unfold Accs.add_attempt. by rewrite add_segment_fold. Qed.

Lemma kind_adds (k : option AttemptKind.t) :
  adds (λ a, a <| ac_usage ::= λ u, match k with
    | Some AttemptKind.Retry => u <| uq_retries ::= Accs.bump |>
    | _ => u <| uq_invocations ::= Accs.bump |> end |>).
Proof. destruct k as [[]|]; [exact (adds_usage _ shift_invocations)|exact (adds_usage _ shift_retries)|exact (adds_usage _ shift_invocations)]. Qed.

Lemma adds_ext f g : (∀ a, f a = g a) → adds f → adds g.
Proof. intros He [H0 Hf]. split; [by rewrite <-He|]. intros a Ha. rewrite <-!He. by apply Hf. Qed.

Lemma add_attempt_adds t e : event_ok e → adds (Accs.add_attempt t e).
Proof.
  intros [Hseg _ _ _ _ Hq Hp _ _ _]. eapply adds_ext; [intros a; symmetry; apply add_attempt_eq|].
  apply adds_pipe. repeat apply Forall_cons_2; try apply Forall_nil_2.
  - exact (adds_usage _ shift_attempts).
  - apply kind_adds.
  - exact (adds_usage _ (shift_usage_outcome _)).
  - by apply segments_fold_adds.
  - destruct (not_measured t e); [exact (adds_unmetered _ shift_unmetered_attempts)|apply adds_id].
  - exact (adds_usage _ (shift_billable _ (segment_ms_range _ _ _ Hseg range_0))).
  - apply adds_exact.
  - apply adds_exact.
  - by apply add_bytes_adds.
Qed.

(** *** Stops and guest reports *)

Lemma cost_stops : costs (λ c, c <| hc_environments_stopped ::= Accs.bump |>).
Proof. shifting cost_ok Rating.sum_cost. Qed.
Lemma cost_lifetime v : u64_range v → costs (λ c, c <| hc_environment_lifetime_ms ::= λ n, u64_saturating_add n v |>).
Proof. intros Hv. shifting cost_ok Rating.sum_cost. Qed.
Lemma cost_idle v : u64_range v → costs (λ c, c <| hc_idle_pooled_ms ::= λ n, u64_saturating_add n v |>).
Proof. intros Hv. shifting cost_ok Rating.sum_cost. Qed.
Lemma cost_teardown v : u64_range v → costs (λ c, c <| hc_teardown_ms ::= λ n, u64_saturating_add n v |>).
Proof. intros Hv. shifting cost_ok Rating.sum_cost. Qed.
Lemma cost_boot v : u64_range v → costs (λ c, c <| hc_boot_without_attempt_ms ::= λ n, u64_saturating_add n v |>).
Proof. intros Hv. shifting cost_ok Rating.sum_cost. Qed.
Lemma cost_cpu v : u64_range v → costs (λ c, c <| hc_cgroup_cpu_usec ::= λ n, u64_saturating_add n v |>).
Proof. intros Hv. shifting cost_ok Rating.sum_cost. Qed.
Lemma cost_cpu_unknown : costs (λ c, c <| hc_cgroup_cpu_unknown ::= Accs.bump |>).
Proof. shifting cost_ok Rating.sum_cost. Qed.
Lemma cost_peak v : u64_range v → costs (λ c, c <| hc_cgroup_memory_peak_bytes_max ::= λ n, Z.max n v |>).
Proof. intros Hv. shifting cost_ok Rating.sum_cost. Qed.

Lemma costs_option (o : option Z) (f : Z → HostCostFacts → HostCostFacts) (g : HostCostFacts → HostCostFacts) :
  opt_u64 o → (∀ v, u64_range v → costs (f v)) → costs g →
  costs (λ c, match o with Some v => f v c | None => g c end).
Proof. destruct o; auto. Qed.

Lemma ratable_opt m : metered_ok m → opt_u64 (Meter.ratable_value m).
Proof. intros Hm. unfold opt_u64. destruct (Meter.ratable_value m) eqn:E; [by eapply ratable_ok|done]. Qed.

Lemma opt_default o : opt_u64 o → u64_range (unwrap_or o 0).
Proof. destruct o; [done|]. intros _. apply range_0. Qed.

(** The steps of [stop_cost]. *)
Definition stop_steps (e : UsageEvent) : list (HostCostFacts → HostCostFacts) :=
  let seg := ue_segments e in
  [λ c, c <| hc_environments_stopped ::= Accs.bump |>;
   λ c, c <| hc_environment_lifetime_ms ::= λ n, u64_saturating_add n (unwrap_or (ue_monotonic_duration_ms e) 0) |>;
   λ c, match Meter.ratable_value (sg_idle_pooled_ms seg) with
     | Some v => c <| hc_idle_pooled_ms ::= λ n, u64_saturating_add n v |> | None => c end;
   λ c, match Meter.ratable_value (sg_teardown_ms seg) with
     | Some v => c <| hc_teardown_ms ::= λ n, u64_saturating_add n v |> | None => c end;
   λ c, if is_none (ue_attempt_id e) && is_some (ue_outcome e) then
       c <| hc_boot_without_attempt_ms ::= λ n, u64_saturating_add n
         (u64_saturating_add (unwrap_or (Meter.ratable_value (sg_vm_base_boot_ms seg)) 0)
            (unwrap_or (Meter.ratable_value (sg_user_init_ms seg)) 0)) |>
     else c;
   λ c, match Meter.ratable_value (ur_cgroup_cpu_usec (ue_resources e)) with
     | Some v => c <| hc_cgroup_cpu_usec ::= λ n, u64_saturating_add n v |>
     | None => c <| hc_cgroup_cpu_unknown ::= Accs.bump |> end;
   λ c, match Meter.ratable_value (ur_cgroup_memory_peak_bytes (ue_resources e)) with
     | Some v => c <| hc_cgroup_memory_peak_bytes_max ::= λ n, Z.max n v |> | None => c end].

Lemma stop_cost_eq e c : Accs.stop_cost e c = pipe (stop_steps e) c.
Proof. reflexivity. Qed.

Lemma stop_cost_costs e : event_ok e → costs (Accs.stop_cost e).
Proof.
  intros [Hseg _ _ Hcpu Hmem _ _ Hdur _ _]. unfold Segments.named in Hseg.
  repeat match goal with H : Forall _ (_ :: _) |- _ => apply Forall_cons in H as [? H] end. cbn [snd] in *.
  change (costs (pipe (stop_steps e))). apply costs_pipe.
  repeat apply Forall_cons_2; try apply Forall_nil_2.
  - exact cost_stops.
  - by apply cost_lifetime, opt_default.
  - by apply (costs_option _ _ (λ c, c)); [apply ratable_opt|apply cost_idle|apply costs_id].
  - by apply (costs_option _ _ (λ c, c)); [apply ratable_opt|apply cost_teardown|apply costs_id].
  - destruct (is_none (ue_attempt_id e) && is_some (ue_outcome e)); [|apply costs_id].
    apply cost_boot, s_range; by apply opt_default, ratable_opt.
  - by apply costs_option; [apply ratable_opt|apply cost_cpu|apply cost_cpu_unknown].
  - by apply (costs_option _ _ (λ c, c)); [apply ratable_opt|apply cost_peak|apply costs_id].
Qed.

Lemma guest_handler v : u64_range v →
  adds (λ a, a <| ac_guest ::= λ u, u <| gt_guest_handler_ms ::= λ n, u64_saturating_add n v |> |>).
Proof. intros Hv. apply adds_guest. shifting guest_ok sum_guest. Qed.
Lemma guest_init v : u64_range v →
  adds (λ a, a <| ac_guest ::= λ u, u <| gt_guest_init_ms ::= λ n, u64_saturating_add n v |> |>).
Proof. intros Hv. apply adds_guest. shifting guest_ok sum_guest. Qed.

Lemma add_guest_adds g : opt_u64 (gu_guest_handler_ms g) → opt_u64 (gu_guest_init_ms g) → adds (Accs.add_guest g).
Proof.
  intros Hh Hi. unfold Accs.add_guest.
  destruct (gu_guest_handler_ms g), (gu_guest_init_ms g).
  - exact (adds_compose _ _ (guest_handler _ Hh) (guest_init _ Hi)).
  - by apply guest_handler.
  - by apply guest_init.
  - apply adds_id.
Qed.

Lemma add_adds t e : event_ok e → adds (Accs.add t e).
Proof.
  intros He. unfold Accs.add.
  apply (adds_compose (λ a, match ue_event_type e with
    | UsageEventType.AttemptSettled => Accs.add_attempt t e a
    | UsageEventType.EnvironmentStopped => Accs.add_stop e a | _ => a end) (Accs.add_guest (ue_guest_reported e)));
    [|apply add_guest_adds; apply He].
  destruct (ue_event_type e); try apply adds_id; [by apply add_attempt_adds|].
  by apply adds_cost, stop_cost_costs.
Qed.

(** ** Sums of events and of groups *)

Definition acc_of (t : PriceTable) (events : list UsageEvent) : Acc :=
  foldl (λ a e, Accs.add t e a) empty_acc events.
Definition acc_sum (l : list Acc) : Acc := foldr acc_plus empty_acc l.

Lemma acc_sum_ok l : Forall acc_ok l → acc_ok (acc_sum l).
Proof. induction 1; [apply empty_acc_ok|]. by apply acc_plus_ok. Qed.

Lemma acc_sum_app l l' : Forall acc_ok l → Forall acc_ok l' → acc_sum (l ++ l')%list = acc_plus (acc_sum l) (acc_sum l').
Proof.
  intros Hl Hl'. induction Hl as [|a l Ha Hl IH]; cbn.
  - rewrite acc_comm, acc_0; [done|by apply acc_sum_ok].
  - fold (acc_sum (l ++ l')%list) (acc_sum l). rewrite IH, acc_assoc; [done|done|by apply acc_sum_ok].
Qed.

Lemma acc_sum_perm l l' : l ≡ₚ l' → Forall acc_ok l → acc_sum l = acc_sum l'.
Proof.
  induction 1 as [|a l l' _ IH|a b l|l1 l2 l3 H1 IH1 H2 IH2]; intros Hl; cbn.
  - done.
  - apply Forall_cons in Hl as [_ Hl]. f_equal. by apply IH.
  - apply Forall_cons in Hl as [Hb Hl]. apply Forall_cons in Hl as [Ha Hl]. fold (acc_sum l).
    pose proof (acc_sum_ok _ Hl). rewrite <-!acc_assoc by done. by rewrite (acc_comm b a).
  - rewrite IH1 by done. apply IH2. by rewrite <-H1.
Qed.

Definition alone (t : PriceTable) (e : UsageEvent) : Acc := Accs.add t e empty_acc.

Lemma alone_ok t e : event_ok e → acc_ok (alone t e).
Proof. intros He. apply (adds_ok _ _ (add_adds t e He)), empty_acc_ok. Qed.

Lemma acc_of_snoc t events e : acc_of t (events ++ [e])%list = Accs.add t e (acc_of t events).
Proof. unfold acc_of. by rewrite foldl_app. Qed.

Lemma acc_of_sum t events : Forall event_ok events → acc_of t events = acc_sum (alone t <$> events).
Proof.
  induction events as [|e events IH] using rev_ind; intros Hok; [done|].
  apply Forall_app in Hok as [Hok [He _]%Forall_cons].
  assert (Hs : Forall acc_ok (alone t <$> events)).
  { apply Forall_fmap. eapply Forall_impl; [exact Hok|]. intros x ?. by apply alone_ok. }
  rewrite acc_of_snoc, IH by done. rewrite fmap_app, acc_sum_app; [|done|].
  2: { apply Forall_fmap, Forall_singleton. by apply alone_ok. }
  change (acc_sum (alone t <$> [e])) with (acc_plus (alone t e) empty_acc).
  rewrite acc_0 by (by apply alone_ok). apply (add_adds t e He). by apply acc_sum_ok.
Qed.

Lemma acc_of_ok t events : Forall event_ok events → acc_ok (acc_of t events).
Proof.
  intros Hok. rewrite acc_of_sum by done. apply acc_sum_ok, Forall_fmap.
  eapply Forall_impl; [exact Hok|]. intros x ?. by apply alone_ok.
Qed.

Lemma acc_of_perm t events events' :
  Forall event_ok events → events ≡ₚ events' → acc_of t events = acc_of t events'.
Proof.
  intros Hok Hp. rewrite !acc_of_sum; [|by rewrite <-Hp|done]. apply acc_sum_perm; [by rewrite Hp|].
  apply Forall_fmap. eapply Forall_impl; [exact Hok|]. intros x ?. by apply alone_ok.
Qed.
