(* ===== verification/RatingProps.v ===== *)
(** * What a usage report shows

    Each line charges exactly the measured quantities of the settled attempts of its function and
    day, rounded half up once; the totals do not depend on the order of the events or on how they
    are grouped, and grouping moves a charge by at most half a unit per line; a report counts every
    event the ledger holds of its tenant and range, once. *)

From S2P Require Import Prelude Ids Usage UsageJournal UsageLedger Store Retry AsyncRun AsyncFront UsageMeter.
From S2P Require Import Sums UsageWorld UsageInv UsageScenario UsageProps.
From S2P Require Import Calendar Cron Rating RatingInv.

Open Scope string_scope.
Open Scope Z_scope.

(** ** Definitions *)

Definition settled (e : UsageEvent) : bool := ue_event_type e == UsageEventType.AttemptSettled.
Definition stopped (e : UsageEvent) : bool := ue_event_type e == UsageEventType.EnvironmentStopped.
Definition retried (e : UsageEvent) : bool := ue_attempt_kind e == Some AttemptKind.Retry.

Definition zsum (l : list Z) : Z := foldr Z.add 0 l.
(** The sum of a quantity over the settled attempts among some events. *)
Definition over_attempts (f : UsageEvent → Z) (events : list UsageEvent) : Z :=
  zsum ((λ e, if settled e then f e else 0) <$> events).
Definition count_of (p : UsageEvent → bool) (events : list UsageEvent) : Z :=
  zsum ((λ e, if p e then 1 else 0) <$> events).

(** A quantity times its price, rounded half up, in a 64-bit integer. *)
Definition priced (quantity price per : Z) : Z := Z.min ((2 * (quantity * price) + per) / (2 * per)) u64_max.

(** What a line charges for these events: only settled attempts count, with what the host or the
    provider measured of their billable segments and of their payload. *)
Definition vcpu_milli_ms (t : PriceTable) (e : UsageEvent) : Z :=
  billable_ms t e * ur_requested_cpu_millis (ue_resources e).
Definition mib_ms (t : PriceTable) (e : UsageEvent) : Z :=
  billable_ms t e * ur_requested_memory_mib (ue_resources e).
Definition transferred (e : UsageEvent) : Z :=
  unwrap_or (metered_value (ub_request_bytes (ue_bytes e))) 0
  + unwrap_or (metered_value (ub_response_bytes (ue_bytes e))) 0.
Definition charges_spec (t : PriceTable) (events : list UsageEvent) : ProvisionalCharges :=
  let p := pt_unit_prices_micros t in
  let vcpu := priced (over_attempts (vcpu_milli_ms t) events) (up_vcpu_second p) 1000000 in
  let memory := priced (over_attempts (mib_ms t) events) (up_gib_second p) 1024000 in
  let invocations := priced (over_attempts (λ e, if retried e then 0 else 1) events) (up_invocation p) 1 in
  let transfer := priced (over_attempts transferred events) (up_gb_transferred p) 1000000000 in
  mkCharges vcpu memory invocations transfer (Z.min (vcpu + memory + invocations + transfer) u64_max).

(** The prices of a table are unsigned. *)
Definition prices_ok (t : PriceTable) : Prop :=
  let p := pt_unit_prices_micros t in
  u64s [up_vcpu_second p; up_gib_second p; up_invocation p; up_gb_transferred p].

(** The events of one line. *)
Definition group (day_of : Timestamp → string) (g : GroupBy) (k : option string * option string)
    (events : list UsageEvent) : list UsageEvent :=
  List.filter (λ e, Rating.line_key day_of g e == k) events.

Definition line_id (l : UsageReportLine) : option string * option string := (ln_function_id l, ln_day l).

(** A report takes far fewer events than would overflow its exact sums. *)
Definition few (events : list UsageEvent) : Prop := Z.of_nat (length events) ≤ 2 ^ 31.

(** ** Lemmas *)

Lemma zsum_app a b : zsum (a ++ b)%list = zsum a + zsum b.
Proof. unfold zsum. rewrite foldr_app. induction a as [|x a IH]; cbn; lia. Qed.

Lemma over_attempts_snoc f events e :
  over_attempts f (events ++ [e])%list = over_attempts f events + (if settled e then f e else 0).
Proof. unfold over_attempts. rewrite fmap_app, zsum_app. cbn. lia. Qed.

Lemma over_attempts_bound f m events :
  (∀ e, e ∈ events → 0 ≤ f e ≤ m) → 0 ≤ m → 0 ≤ over_attempts f events ≤ m * Z.of_nat (length events).
Proof.
  intros Hf Hm. induction events as [|e events IH]; [cbn; lia|]. change (e :: events) with ([e] ++ events)%list.
  unfold over_attempts in *. rewrite fmap_app, zsum_app, length_app. cbn.
  specialize (IH ltac:(set_solver)). pose proof (Hf e ltac:(set_solver)). destruct (settled e); lia.
Qed.

Lemma half_up n d : 0 < d → round_half_up_div n d = (2 * n + d) / (2 * d).
Proof.
  intros Hd. unfold round_half_up_div. pose proof (Z.div_mod n d ltac:(lia)) as He.
  pose proof (Z.mod_pos_bound n d Hd) as Hm.
  destruct (Z.leb_spec d ((n mod d) * 2)).
  - apply (Z.div_unique_pos _ _ _ (2 * (n mod d) - d)); lia.
  - apply (Z.div_unique_pos _ _ _ (2 * (n mod d) + d)); lia.
Qed.

(** The 128-bit product may saturate: the charge is then beyond 64 bits anyway. *)
Lemma charge_priced q p d : 0 ≤ q → 0 ≤ p → 0 < d ≤ 2 ^ 40 → charge q p d = priced q p d.
Proof.
  intros Hq Hp Hd. unfold charge, priced, u128_saturating_mul. rewrite half_up by lia.
  destruct (Z.le_gt_cases (q * p) u128_max) as [Hle|Hgt]; [by rewrite (Z.min_l (q * p))|].
  rewrite (Z.min_r (q * p)) by lia.
  assert (Hbig : ∀ n, u128_max ≤ n → u64_max ≤ (2 * n + d) / (2 * d)).
  { intros n Hn. apply Z.div_le_lower_bound; [lia|]. unfold u128_max, u64_max in *. nia. }
  rewrite !Z.min_r; [done|apply Hbig; lia|apply Hbig; lia].
Qed.

(** *** The exact quantities of an accumulator *)

(** The numbers the charges and the counts of the totals are made of. *)
Definition exacts (a : Acc) : list Z :=
  [ac_vcpu_milli_ms a; ac_mib_ms a; ac_transfer_bytes a; uq_invocations (ac_usage a);
   uq_attempts (ac_usage a); uq_retries (ac_usage a); hc_environments_stopped (ac_cost a);
   uq_vcpu_milli_ms (ac_usage a); uq_mib_ms (ac_usage a)].

Lemma segments_fold_exact l a : exacts (foldl segment_acc a l) = exacts a.
Proof.
  apply (foldl_inv (λ a', exacts a' = exacts a)); [done|].
  intros a' nm _ H. unfold segment_acc. by destruct (Meter.ratable_value nm.2).
Qed.

Lemma add_guest_exact g a : exacts (Accs.add_guest g a) = exacts a.
Proof. unfold Accs.add_guest. by destruct (gu_guest_handler_ms g), (gu_guest_init_ms g). Qed.

Lemma add_bytes_exact b a : u128_range (ac_transfer_bytes a) →
  exacts (Accs.add_bytes b a) =
  exacts (a <| ac_transfer_bytes := u128_add (ac_transfer_bytes a)
    (unwrap_or (Meter.ratable_value (ub_request_bytes b)) 0 + unwrap_or (Meter.ratable_value (ub_response_bytes b)) 0) |>).
Proof.
  intros Hr. unfold Accs.add_bytes.
  destruct (Meter.ratable_value (ub_request_bytes b)) as [req|], (Meter.ratable_value (ub_response_bytes b)) as [resp|];
    unfold exacts, unwrap_or; cbn -[u128_add].
  - do 2 f_equal. f_equal. unfold u128_add. by rewrite Zplus_mod_idemp_r.
  - by rewrite Z.add_0_r.
  - done.
  - by rewrite x_0.
Qed.

Lemma stop_cost_counts e c :
  hc_environments_stopped (Accs.stop_cost e c) = u64_add (hc_environments_stopped c) 1.
Proof. unfold Accs.stop_cost. by repeat case_match. Qed.

Lemma add_exact t e a : acc_ok a → event_ok e →
  exacts (Accs.add t e a) =
  [u128_add (ac_vcpu_milli_ms a) (if settled e then vcpu_milli_ms t e else 0);
   u128_add (ac_mib_ms a) (if settled e then mib_ms t e else 0);
   u128_add (ac_transfer_bytes a) (if settled e then transferred e else 0);
   u64_add (uq_invocations (ac_usage a)) (if settled e then if retried e then 0 else 1 else 0);
   u64_add (uq_attempts (ac_usage a)) (if settled e then 1 else 0);
   u64_add (uq_retries (ac_usage a)) (if settled e then if retried e then 1 else 0 else 0);
   u64_add (hc_environments_stopped (ac_cost a)) (if stopped e then 1 else 0);
   uq_vcpu_milli_ms (ac_usage a); uq_mib_ms (ac_usage a)].
Proof.
  intros Ha He. unfold Accs.add. rewrite add_guest_exact. unfold settled, stopped.
  destruct Ha as [(Hu & _ & _) Hv Hm Ht _ Hc _]. unfold cost_ok in Hc. fields.
  destruct (ue_event_type e) eqn:Ety; rewrite ?bool_decide_eq_true_2, ?bool_decide_eq_false_2 by done;
    try by (rewrite !x_0, !w_0 by done).
  - rewrite add_attempt_eq. cbn [pipe attempt_steps foldl].
    match goal with |- context [foldl segment_acc ?x ?l] =>
      pose proof (segments_fold_exact l x) as Hs; set (b := foldl segment_acc x l) in * end.
    unfold exacts in Hs. cbn -[u128_add u64_add b] in Hs.
    injection Hs as Hb1 Hb2 Hb3 Hb4 Hb5 Hb6 Hb7 Hb8 Hb9.
    rewrite add_bytes_exact by (destruct (not_measured t e); cbn -[b]; by rewrite Hb3).
    unfold exacts. destruct (not_measured t e); cbn -[u128_add u64_add b Accs.bump];
      rewrite Hb1, Hb2, Hb3, Hb4, Hb5, Hb6, Hb7, Hb8, Hb9;
      unfold retried; destruct (ue_attempt_kind e) as [[]|];
      rewrite ?bool_decide_eq_true_2, ?bool_decide_eq_false_2 by done; cbn -[u128_add u64_add];
      unfold Accs.bump; rewrite ?w_0 by done; unfold u128_mul, vcpu_milli_ms, mib_ms, transferred;
      rewrite ?metered_value_eq; unfold u128_add; rewrite ?Zplus_mod_idemp_r; done.
  - rewrite bool_decide_eq_true_2, !x_0, !w_0 by done. unfold exacts, Accs.add_stop.
    cbn -[u64_add Accs.stop_cost]. by rewrite stop_cost_counts.
Qed.

Lemma billable_range t e : event_ok e → u64_range (billable_ms t e).
Proof. intros He. apply segment_ms_range; [apply He|apply range_0]. Qed.

Lemma quantity_bounds t e : event_ok e →
  0 ≤ vcpu_milli_ms t e ≤ 2 ^ 96 ∧ 0 ≤ mib_ms t e ≤ 2 ^ 96 ∧ 0 ≤ transferred e ≤ 2 ^ 65.
Proof.
  intros He. pose proof (billable_range t e He) as [Hb0 Hb1]. unfold vcpu_milli_ms, mib_ms, transferred.
  rewrite !metered_value_eq.
  pose proof (eo_cpu _ He). pose proof (eo_mem _ He).
  pose proof (opt_default _ (ratable_opt _ (eo_request _ He))) as [? ?].
  pose proof (opt_default _ (ratable_opt _ (eo_response _ He))) as [? ?].
  unfold u64_max, u32_max in *. split_and!; nia.
Qed.

Lemma count_snoc p events e :
  count_of p (events ++ [e])%list = count_of p events + (if p e then 1 else 0).
Proof. unfold count_of. rewrite fmap_app, zsum_app. cbn. lia. Qed.

Lemma count_of_bound p events : 0 ≤ count_of p events ≤ Z.of_nat (length events).
Proof.
  induction events as [|e events IH] using rev_ind; [by cbn|]. rewrite count_snoc, length_app. cbn.
  destruct (p e); lia.
Qed.

(** The sums of an accumulator are exact. *)
Lemma acc_exact t events : Forall event_ok events → few events →
  exacts (acc_of t events) =
  [over_attempts (vcpu_milli_ms t) events; over_attempts (mib_ms t) events; over_attempts transferred events;
   over_attempts (λ e, if retried e then 0 else 1) events; over_attempts (λ _, 1) events;
   over_attempts (λ e, if retried e then 1 else 0) events; count_of stopped events; 0; 0].
Proof.
  unfold few. induction events as [|e events IH] using rev_ind; [done|].
  intros [Hok [He _]%Forall_cons]%Forall_app Hlen. rewrite length_app in Hlen. cbn [length] in Hlen.
  specialize (IH Hok ltac:(lia)). unfold exacts in IH. injection IH as I1 I2 I3 I4 I5 I6 I7 I8 I9.
  rewrite acc_of_snoc, add_exact by (try apply acc_of_ok; done).
  rewrite I1, I2, I3, I4, I5, I6, I7, I8, I9, !over_attempts_snoc, count_snoc.
  rewrite Forall_forall in Hok. pose proof (quantity_bounds t e He) as (Q1 & Q2 & Q3).
  pose proof (over_attempts_bound (vcpu_milli_ms t) (2 ^ 96) events
    (λ e He, proj1 (quantity_bounds t e (Hok e He))) ltac:(lia)).
  pose proof (over_attempts_bound (mib_ms t) (2 ^ 96) events
    (λ e He, proj1 (proj2 (quantity_bounds t e (Hok e He)))) ltac:(lia)).
  pose proof (over_attempts_bound transferred (2 ^ 65) events
    (λ e He, proj2 (proj2 (quantity_bounds t e (Hok e He)))) ltac:(lia)).
  pose proof (over_attempts_bound (λ e, if retried e then 0 else 1) 1 events
    ltac:(intros e' _; cbv beta; destruct (retried e'); lia) ltac:(lia)).
  pose proof (over_attempts_bound (λ _, 1) 1 events ltac:(intros; lia) ltac:(lia)).
  pose proof (over_attempts_bound (λ e, if retried e then 1 else 0) 1 events
    ltac:(intros e' _; cbv beta; destruct (retried e'); lia) ltac:(lia)).
  pose proof (count_of_bound stopped events).
  assert (Hm : 2 ^ 96 * (2 ^ 31) + 2 ^ 96 ≤ u128_max) by (unfold u128_max; lia).
  assert (Hm' : 2 ^ 31 + 1 ≤ u64_max) by (unfold u64_max; lia).
  destruct (settled e), (retried e), (stopped e);
    rewrite !x_small by lia; rewrite !u64_add_small by lia; done.
Qed.

Lemma charges_exact t events : Forall event_ok events → few events → prices_ok t →
  Accs.charges_of t (acc_of t events) = charges_spec t events.
Proof.
  intros Hok Hfew Hp. pose proof (acc_exact t events Hok Hfew) as He. unfold exacts in He.
  injection He as E1 E2 E3 E4 _ _ _ _ _. unfold prices_ok in Hp. fields. rewrite Forall_forall in Hok.
  pose proof (over_attempts_bound (vcpu_milli_ms t) (2 ^ 96) events
    (λ e He, proj1 (quantity_bounds t e (Hok e He))) ltac:(lia)).
  pose proof (over_attempts_bound (mib_ms t) (2 ^ 96) events
    (λ e He, proj1 (proj2 (quantity_bounds t e (Hok e He)))) ltac:(lia)).
  pose proof (over_attempts_bound transferred (2 ^ 65) events
    (λ e He, proj2 (proj2 (quantity_bounds t e (Hok e He)))) ltac:(lia)).
  pose proof (over_attempts_bound (λ e, if retried e then 0 else 1) 1 events
    ltac:(intros e' _; cbv beta; destruct (retried e'); lia) ltac:(lia)).
  unfold u64_range in *. unfold Accs.charges_of, charges_spec. rewrite E1, E2, E3, E4.
  unfold VCPU_MILLI_MS_PER_VCPU_SECOND, MIB_MS_PER_GIB_SECOND, BYTES_PER_GB.
  rewrite !charge_priced by lia. change (1000 * 1000) with 1000000. change (1024 * 1000) with 1024000.
  f_equal. unfold u64_saturating_add.
  assert (Hpos : ∀ q p d, 0 ≤ q → 0 ≤ p → 0 < d → 0 ≤ priced q p d).
  { intros q p d ???. unfold priced. apply Z.min_glb; [apply Z.div_pos; nia|unfold u64_max; lia]. }
  set (va := priced _ _ 1000000). set (vb := priced _ _ 1024000). set (vc := priced _ _ 1).
  set (vd := priced _ _ 1000000000).
  assert (0 ≤ va) by (apply Hpos; lia). assert (0 ≤ vb) by (apply Hpos; lia).
  assert (0 ≤ vc) by (apply Hpos; lia). assert (0 ≤ vd) by (apply Hpos; lia). lia.
Qed.

(** *** Groups *)

Section groups.
Context (day_of : Timestamp → string) (t : PriceTable) (g : GroupBy).

Lemma group_snoc k events e :
  group day_of g k (events ++ [e])%list
  = (group day_of g k events ++ (if Rating.line_key day_of g e == k then [e] else []))%list.
Proof. unfold group. rewrite List.filter_app. cbn. by destruct (bool_decide _). Qed.

Lemma add_events_lookup events k :
  Rating.add_events day_of t g events !! k =
  match group day_of g k events with [] => None | l => Some (acc_of t l) end.
Proof.
  induction events as [|e events IH] using rev_ind; [done|].
  unfold Rating.add_events in *. rewrite foldl_app. cbn [foldl]. unfold Rating.add_event at 1.
  rewrite group_snoc. destruct (decide (Rating.line_key day_of g e = k)) as [->|Hne].
  - rewrite lookup_insert_eq, IH, bool_decide_eq_true_2 by done.
    destruct (group day_of g k events) as [|e' l] eqn:E; [done|].
    change (Some (Accs.add t e (acc_of t (e' :: l))) = Some (acc_of t ((e' :: l) ++ [e])%list)).
    by rewrite acc_of_snoc.
  - rewrite lookup_insert_ne, IH, bool_decide_eq_false_2, app_nil_r by done. done.
Qed.

Lemma group_ok k events : Forall event_ok events → Forall event_ok (group day_of g k events).
Proof.
  rewrite !Forall_forall. intros H e [He _]%list_elem_of_In%List.filter_In. apply H. by apply list_elem_of_In.
Qed.

Lemma group_few k events : few events → few (group day_of g k events).
Proof.
  unfold few. enough (length (group day_of g k events) ≤ length events)%nat by lia.
  unfold group. induction events as [|e events IH]; cbn; [done|]. destruct (bool_decide _); cbn; lia.
Qed.

Lemma accs_ok events : Forall event_ok events →
  Forall acc_ok (map_to_list (Rating.add_events day_of t g events)).*2.
Proof.
  intros Hok. apply Forall_fmap, Forall_forall. intros [k a] Hin%elem_of_map_to_list. cbn.
  rewrite add_events_lookup in Hin. destruct (group day_of g k events) as [|e l] eqn:E; [done|].
  injection Hin as <-. apply acc_of_ok. rewrite <-E. by apply group_ok.
Qed.

(** The accumulators of the lines add up to the accumulator of all events. *)
Lemma groups_sum events : Forall event_ok events →
  acc_sum (map_to_list (Rating.add_events day_of t g events)).*2 = acc_of t events.
Proof.
  induction events as [|e events IH] using rev_ind; [done|].
  intros [Hok [He _]%Forall_cons]%Forall_app. pose proof (accs_ok _ Hok) as Hoks. specialize (IH Hok).
  unfold Rating.add_events in *. rewrite foldl_app. cbn [foldl]. unfold Rating.add_event at 1.
  set (m := foldl (Rating.add_event day_of t g) ∅ events) in *. set (k := Rating.line_key day_of g e).
  rewrite acc_of_snoc, <-IH. pose proof (alone_ok t e He) as Ha.
  destruct (m !! k) as [a|] eqn:Hk; unfold unwrap_or; cbn [default from_option id].
  - assert (Hm : map_to_list m ≡ₚ (k, a) :: map_to_list (delete k m)).
    { rewrite <-map_to_list_insert by apply lookup_delete_eq. by rewrite insert_delete_id. }
    rewrite <-insert_delete_eq. rewrite (acc_sum_perm _ ((k, Accs.add t e a) :: map_to_list (delete k m)).*2).
    + rewrite (acc_sum_perm (map_to_list m).*2 ((k, a) :: map_to_list (delete k m)).*2); [|by rewrite Hm|done].
      rewrite Hm in Hoks. cbn in Hoks |- *. apply Forall_cons in Hoks as [Hac Hrest].
      fold (acc_sum (map_to_list (delete k m)).*2). pose proof (acc_sum_ok _ Hrest).
      rewrite (proj2 (add_adds t e He) a Hac). fold (alone t e).
      rewrite (proj2 (add_adds t e He)) by (by apply acc_plus_ok). fold (alone t e).
      rewrite (acc_comm a (alone t e)), (acc_assoc (alone t e)) by done. apply acc_comm.
    + f_equiv. apply map_to_list_insert, lookup_delete_eq.
    + apply Forall_fmap. rewrite map_to_list_insert by apply lookup_delete_eq.
      rewrite Hm, fmap_cons in Hoks. apply Forall_cons in Hoks as [Hac Hrest]. constructor.
      * change (acc_ok (Accs.add t e a)). by apply (adds_ok _ _ (add_adds t e He)).
      * by rewrite Forall_fmap in Hrest.
  - rewrite (acc_sum_perm _ ((k, alone t e) :: map_to_list m).*2).
    + cbn. fold (acc_sum (map_to_list m).*2). rewrite acc_comm. symmetry.
      apply (add_adds t e He). by apply acc_sum_ok.
    + f_equiv. by apply map_to_list_insert.
    + apply Forall_fmap. rewrite map_to_list_insert by done. constructor; [done|by rewrite Forall_fmap in Hoks].
Qed.

(** A quantity that an accumulator keeps exactly adds up over the lines. *)
Lemma groups_total (w : Acc → Z) (f : list UsageEvent → Z) (h : UsageEvent → Z) events :
  (∀ l, Forall event_ok l → few l → w (acc_of t l) = f l) → f [] = 0 →
  (∀ l e, f (l ++ [e])%list = f l + h e) → Forall event_ok events → few events →
  total w (Rating.add_events day_of t g events) = f events.
Proof.
  intros Hw H0 Hf. induction events as [|e events IH] using rev_ind; [intros _ _; by rewrite H0|].
  intros Hok Hfew. pose proof Hok as [Hok1 _]%Forall_app.
  assert (Hfew1 : few events) by (unfold few in *; rewrite length_app in Hfew; lia).
  specialize (IH Hok1 Hfew1). rewrite Hf, <-IH.
  set (k := Rating.line_key day_of g e).
  assert (Hnew : Rating.add_events day_of t g (events ++ [e])%list
    = <[k := acc_of t (group day_of g k (events ++ [e])%list)]> (Rating.add_events day_of t g events)).
  { unfold Rating.add_events at 1. rewrite foldl_app. cbn [foldl]. fold (Rating.add_events day_of t g events).
    unfold Rating.add_event at 1. fold k. f_equal. rewrite add_events_lookup, group_snoc.
    rewrite bool_decide_eq_true_2, acc_of_snoc by done. by destruct (group day_of g k events). }
  rewrite Hnew. pose proof (group_ok k _ Hok) as Hg. pose proof (group_few k _ Hfew) as Hgf.
  pose proof (add_events_lookup events k) as Hl.
  assert (Hsnoc : group day_of g k (events ++ [e])%list = (group day_of g k events ++ [e])%list).
  { by rewrite group_snoc, bool_decide_eq_true_2. }
  destruct (group day_of g k events) as [|e' l] eqn:E; cbn iota in Hl.
  - rewrite total_insert by done. rewrite Hw by done. rewrite Hsnoc, (Hf []), H0. lia.
  - rewrite (total_replace _ _ _ (acc_of t (e' :: l))) by done. rewrite (Hw _ Hg Hgf).
    rewrite Hsnoc, Hf. rewrite (Hw (e' :: l)).
    + lia.
    + rewrite <-E. by apply group_ok.
    + rewrite <-E. by apply group_few.
Qed.
End groups.

(** *** Totals *)

Lemma zsum_perm a b : a ≡ₚ b → zsum a = zsum b.
Proof. unfold zsum. induction 1; cbn; lia. Qed.

Lemma total_entries (w : Acc → Z) (m : gmap (option string * option string) Acc) :
  total w m = zsum (w <$> (btree_entries m).*2).
Proof.
  unfold btree_entries.
  rewrite (zsum_perm _ (w <$> (map_to_list m).*2)) by (by rewrite merge_sort_Permutation).
  unfold total. rewrite map_fold_foldr. unfold zsum. by induction (map_to_list m) as [|[k a] l IH]; cbn; [|rewrite IH].
Qed.

Lemma zsum_cons x l : zsum (x :: l) = x + zsum l.
Proof. done. Qed.

Definition finish_usage (a : Acc) : UsageQuantities :=
  ac_usage a <| uq_vcpu_milli_ms := Z.min (ac_vcpu_milli_ms a) u64_max |>
             <| uq_mib_ms := Z.min (ac_mib_ms a) u64_max |>.

Lemma acc_sum_exact l : Forall acc_ok l →
  zsum (ac_vcpu_milli_ms <$> l) ≤ u128_max → zsum (ac_mib_ms <$> l) ≤ u128_max →
  ac_vcpu_milli_ms (acc_sum l) = zsum (ac_vcpu_milli_ms <$> l) ∧
  ac_mib_ms (acc_sum l) = zsum (ac_mib_ms <$> l).
Proof.
  induction 1 as [|a l [_ [Hv _] [Hm _] _ _ _ _] Hl IH]; [done|].
  rewrite !fmap_cons, !zsum_cons. intros H1 H2.
  assert (∀ w, (∀ x, acc_ok x → 0 ≤ w x) → 0 ≤ zsum (w <$> l)) as Hpos.
  { intros w Hw. clear -Hl Hw. induction Hl as [|x l Hx _ IH]; [done|].
    rewrite fmap_cons, zsum_cons. specialize (Hw x Hx). lia. }
  pose proof (Hpos ac_vcpu_milli_ms (λ x Hx, proj1 (ak_vcpu x Hx))).
  pose proof (Hpos ac_mib_ms (λ x Hx, proj1 (ak_mib x Hx))).
  destruct IH as [I1 I2]; [lia|lia|]. cbn. fold (acc_sum l). rewrite I1, I2, !x_small; [done|lia|lia].
Qed.

Lemma zsum_snoc (l : list Acc) (a : Acc) (w : Acc → Z) : zsum (w <$> (l ++ [a])%list) = zsum (w <$> l) + w a.
Proof. rewrite fmap_app, zsum_app. cbn. lia. Qed.

Lemma sum_lines_spec t (l : list ((option string * option string) * Acc)) :
  Forall acc_ok l.*2 →
  zsum (ac_vcpu_milli_ms <$> l.*2) ≤ u128_max → zsum (ac_mib_ms <$> l.*2) ≤ u128_max →
  let totals := Rating.sum_lines ((λ ka, Rating.line_of t ka.1 ka.2) <$> l) in
  let a := acc_sum l.*2 in
  ln_usage totals = finish_usage a ∧ ln_unmetered totals = ac_unmetered a ∧ ln_cost totals = ac_cost a ∧
  ln_guest_reported totals = ac_guest a ∧
  ln_provisional_charges_micros totals
  = foldl Rating.sum_charges no_charges ((λ ka, Accs.charges_of t ka.2) <$> l).
Proof.
  induction l as [|[k a] l IH] using rev_ind; [done|]. intros Hok H1 H2. cbv zeta.
  rewrite !fmap_app in *. cbn [fmap list_fmap snd fst] in *.
  apply Forall_app in Hok as [Hok [Ha _]%Forall_cons]. rewrite zsum_app in H1, H2. cbn in H1, H2.
  pose proof (ak_vcpu _ Ha) as [Hv0 _]. pose proof (ak_mib _ Ha) as [Hm0 _].
  destruct (IH Hok ltac:(lia) ltac:(lia)) as (I1 & I2 & I3 & I4 & I5). clear IH.
  destruct (acc_sum_exact _ Hok ltac:(lia) ltac:(lia)) as [E1 E2].
  unfold Rating.sum_lines in *. rewrite !foldl_app. cbn [foldl].
  set (totals := foldl Rating.sum_line empty_line _) in *.
  rewrite acc_sum_app; [|done|exact (Forall_cons_2 _ _ _ Ha (Forall_nil_2 _))].
  change (acc_sum [a]) with (acc_plus a empty_acc). rewrite acc_0 by done.
  pose proof (acc_sum_ok _ Hok) as Hs. pose proof (ak_vcpu _ Hs) as [Hs0 _]. pose proof (ak_mib _ Hs) as [Ht0 _].
  split_and!.
  - cbn. rewrite I1. unfold finish_usage, Rating.sum_usage. cbn.
    rewrite !x_small by lia. assert (0 < u64_max) by done. unfold u64_saturating_add. f_equal; lia.
  - cbn. by rewrite I2.
  - cbn. by rewrite I3.
  - cbn. by rewrite I4.
  - cbn [ln_provisional_charges_micros Rating.sum_line set_field]. by rewrite I5.
Qed.

Lemma exact_part t l : Forall event_ok l → few l →
  ac_vcpu_milli_ms (acc_of t l) = over_attempts (vcpu_milli_ms t) l ∧
  ac_mib_ms (acc_of t l) = over_attempts (mib_ms t) l ∧
  ac_transfer_bytes (acc_of t l) = over_attempts transferred l ∧
  uq_invocations (ac_usage (acc_of t l)) = over_attempts (λ e, if retried e then 0 else 1) l.
Proof.
  intros Hok Hfew. pose proof (acc_exact t l Hok Hfew) as He. unfold exacts in He.
  by injection He as -> -> -> -> _ _ _ _ _.
Qed.

(** The exact quantities of the lines add up to those of all events. *)
Lemma lines_total day_of t g events : Forall event_ok events → few events →
  let accs := (btree_entries (Rating.add_events day_of t g events)).*2 in
  zsum (ac_vcpu_milli_ms <$> accs) = over_attempts (vcpu_milli_ms t) events ∧
  zsum (ac_mib_ms <$> accs) = over_attempts (mib_ms t) events ∧
  zsum (ac_transfer_bytes <$> accs) = over_attempts transferred events ∧
  zsum ((λ a, uq_invocations (ac_usage a)) <$> accs) = over_attempts (λ e, if retried e then 0 else 1) events.
Proof.
  intros Hok Hfew. cbv zeta. rewrite <-!total_entries. split_and!.
  - apply (groups_total day_of t g _ _ (λ e, if settled e then vcpu_milli_ms t e else 0)); try done.
    + intros l Hl Hf. apply (exact_part t l Hl Hf).
    + intros l e. apply over_attempts_snoc.
  - apply (groups_total day_of t g _ _ (λ e, if settled e then mib_ms t e else 0)); try done.
    + intros l Hl Hf. apply (exact_part t l Hl Hf).
    + intros l e. apply over_attempts_snoc.
  - apply (groups_total day_of t g _ _ (λ e, if settled e then transferred e else 0)); try done.
    + intros l Hl Hf. apply (exact_part t l Hl Hf).
    + intros l e. apply over_attempts_snoc.
  - apply (groups_total day_of t g _ _ (λ e, if settled e then if retried e then 0 else 1 else 0)); try done.
    + intros l Hl Hf. apply (exact_part t l Hl Hf).
    + intros l e. apply over_attempts_snoc.
Qed.

Lemma over_range t events : Forall event_ok events → few events →
  0 ≤ over_attempts (vcpu_milli_ms t) events ≤ u128_max ∧ 0 ≤ over_attempts (mib_ms t) events ≤ u128_max ∧
  0 ≤ over_attempts transferred events ≤ u128_max.
Proof.
  intros Hok Hfew. destruct (exact_part t events Hok Hfew) as (<- & <- & <- & _).
  pose proof (acc_of_ok t events Hok) as []. unfold u128_range in *. lia.
Qed.

Lemma entries_ok day_of t g events : Forall event_ok events →
  Forall acc_ok (btree_entries (Rating.add_events day_of t g events)).*2.
Proof. intros Hok. unfold btree_entries. rewrite merge_sort_Permutation. by apply accs_ok. Qed.

(** What the totals of a report are. *)
Lemma rate_totals day_of t g events : Forall event_ok events → few events →
  let totals := (Rating.rate day_of events t g).2 in
  let a := acc_of t events in
  ln_usage totals = finish_usage a ∧ ln_unmetered totals = ac_unmetered a ∧ ln_cost totals = ac_cost a ∧
  ln_guest_reported totals = ac_guest a ∧
  ln_provisional_charges_micros totals = foldl Rating.sum_charges no_charges
    ((λ ka, Accs.charges_of t ka.2) <$> btree_entries (Rating.add_events day_of t g events)).
Proof.
  intros Hok Hfew. destruct (lines_total day_of t g events Hok Hfew) as (H1 & H2 & _).
  destruct (over_range t events Hok Hfew) as (? & ? & _).
  pose proof (sum_lines_spec t (btree_entries (Rating.add_events day_of t g events)) (entries_ok _ _ _ _ Hok)
    ltac:(lia) ltac:(lia)) as Hs. cbv zeta in *.
  assert (He : acc_sum (btree_entries (Rating.add_events day_of t g events)).*2 = acc_of t events).
  { rewrite <-(groups_sum day_of t g events Hok). apply acc_sum_perm; [|by apply entries_ok].
    unfold btree_entries. by rewrite merge_sort_Permutation. }
  by rewrite He in Hs.
Qed.

Lemma group_perm day_of g k events events' :
  events ≡ₚ events' → group day_of g k events ≡ₚ group day_of g k events'.
Proof.
  unfold group. induction 1; cbn; repeat case_match; try done; try by constructor. by etrans.
Qed.

(** The lines do not depend on the order of the events. *)
Lemma rate_perm day_of t g events events' : Forall event_ok events → events ≡ₚ events' →
  Rating.rate day_of events t g = Rating.rate day_of events' t g.
Proof.
  intros Hok Hp. unfold Rating.rate.
  assert (He : Rating.add_events day_of t g events = Rating.add_events day_of t g events').
  { apply map_eq. intros k. rewrite !add_events_lookup. pose proof (group_perm day_of g k _ _ Hp) as Hg.
    pose proof (group_ok day_of g k _ Hok) as Hgo.
    destruct (group day_of g k events) as [|e l] eqn:E1, (group day_of g k events') as [|e' l'] eqn:E2; try done.
    - by apply Permutation_nil_cons in Hg.
    - by apply symmetry, Permutation_nil_cons in Hg.
    - f_equal. apply acc_of_perm; [by rewrite <-E1; apply group_ok|by rewrite <-E1, <-E2; apply group_perm]. }
  by rewrite He.
Qed.

(** *** Rounding *)

(** Half up, without the bound of the integer. *)
Definition half_up_price (q p d : Z) : Z := (2 * (q * p) + d) / (2 * d).

Lemma half_up_price_spec q p d : 0 < d →
  2 * (q * p) - d < 2 * d * half_up_price q p d ≤ 2 * (q * p) + d.
Proof.
  intros Hd. unfold half_up_price. pose proof (Z.div_mod (2 * (q * p) + d) (2 * d) ltac:(lia)).
  pose proof (Z.mod_pos_bound (2 * (q * p) + d) (2 * d) ltac:(lia)). lia.
Qed.

Lemma half_up_sum qs p d : 0 < d →
  let s := zsum ((λ q, half_up_price q p d) <$> qs) in
  2 * (zsum qs * p) - d * Z.of_nat (length qs) + Z.of_nat (length qs) ≤ 2 * d * s
  ≤ 2 * (zsum qs * p) + d * Z.of_nat (length qs).
Proof.
  intros Hd. cbv zeta. induction qs as [|q qs IH]; [cbn; lia|].
  rewrite fmap_cons, !zsum_cons. cbn [length]. pose proof (half_up_price_spec q p d Hd). lia.
Qed.

(** Rounding every part moves the sum by at most half a unit for each part. *)
Lemma rounding_drift qs p d : 0 < d →
  2 * Z.abs (zsum ((λ q, half_up_price q p d) <$> qs) - half_up_price (zsum qs) p d) ≤ Z.of_nat (length qs).
Proof.
  intros Hd. pose proof (half_up_sum qs p d Hd) as Hs. cbv zeta in Hs.
  pose proof (half_up_price_spec (zsum qs) p d Hd) as Hw.
  destruct (decide (qs = [])) as [->|Hne].
  { cbn. unfold half_up_price. rewrite Z.mul_0_l, Z.mul_0_r, Z.add_0_l.
    rewrite (Z.div_small d) by lia. done. }
  assert (Hn : 1 ≤ Z.of_nat (length qs)) by (destruct qs; [done|cbn [length]; lia]).
  set (s := zsum (_ <$> qs)) in *. set (w := half_up_price (zsum qs) p d) in *.
  revert Hs Hw Hn. generalize (zsum qs * p) (Z.of_nat (length qs)). clearbody s w. intros x n Hs Hw Hn.
  assert (2 * (s - w) < n + 1) by (apply (Z.mul_lt_mono_pos_l d); lia).
  assert (2 * (w - s) < n + 1) by (apply (Z.mul_lt_mono_pos_l d); lia). lia.
Qed.

(** What a component of the totals is when it does not reach the largest integer. *)
Lemma charge_exact q p d : 0 ≤ q → 0 ≤ p → 0 < d ≤ 2 ^ 40 → charge q p d = Z.min (half_up_price q p d) u64_max.
Proof. apply charge_priced. Qed.

Lemma half_up_nonneg q p d : 0 ≤ q → 0 ≤ p → 0 < d → 0 ≤ half_up_price q p d.
Proof. intros. apply Z.div_pos; [nia|lia]. Qed.

Lemma saturating_total (w : ProvisionalCharges → Z) (l : list ProvisionalCharges) :
  w no_charges = 0 → (∀ a b, w (Rating.sum_charges a b) = u64_saturating_add (w a) (w b)) →
  Forall (λ x, 0 ≤ w x) l → w (foldl Rating.sum_charges no_charges l) = Z.min (zsum (w <$> l)) u64_max.
Proof.
  intros H0 Hp Hl. assert (Hm : 0 < u64_max) by done.
  assert (Hpos : 0 ≤ zsum (w <$> l)).
  { clear Hp. induction Hl as [|x l Hx _ IH]; [done|]. rewrite fmap_cons, zsum_cons. lia. }
  induction l as [|x l IH] using rev_ind; [cbn [foldl]; rewrite H0; cbn; lia|].
  apply Forall_app in Hl as [Hl [Hx _]%Forall_cons]. rewrite foldl_app, fmap_app, zsum_app in *. cbn [foldl].
  rewrite Hp. cbn in Hpos |- *.
  assert (Hpos' : 0 ≤ zsum (w <$> l)).
  { clear -Hl. induction Hl as [|y l Hy _ IH]; [done|]. rewrite fmap_cons, zsum_cons. lia. }
  rewrite IH by done. unfold u64_saturating_add. lia.
Qed.

(** A sum of charges below the largest integer saturated nowhere. *)
Lemma unsaturated_sum (qs : list Z) p d :
  Forall (λ q, 0 ≤ q) qs → 0 ≤ p → 0 < d ≤ 2 ^ 40 →
  zsum ((λ q, charge q p d) <$> qs) < u64_max →
  zsum ((λ q, charge q p d) <$> qs) = zsum ((λ q, half_up_price q p d) <$> qs).
Proof.
  intros Hqs Hp Hd. assert (0 < u64_max) by done.
  assert (Hc : ∀ q, 0 ≤ q → 0 ≤ charge q p d).
  { intros q Hq. rewrite charge_exact by lia. pose proof (half_up_nonneg q p d Hq Hp ltac:(lia)). lia. }
  assert (Hn : ∀ l, Forall (λ q, 0 ≤ q) l → 0 ≤ zsum ((λ q, charge q p d) <$> l)).
  { intros l. induction 1 as [|q l Hq _ IH]; [done|]. rewrite fmap_cons, zsum_cons. specialize (Hc q Hq). lia. }
  induction Hqs as [|q qs Hq Hqs IH]; [done|]. rewrite !fmap_cons, !zsum_cons. intros Hlt.
  pose proof (Hc q Hq). pose proof (Hn qs Hqs). rewrite IH by lia. f_equal.
  rewrite charge_exact in * by lia. lia.
Qed.

Section component.
Context (w : ProvisionalCharges → Z) (quantity : Acc → Z) (p d : Z) (t : PriceTable).
Context (w_none : w no_charges = 0).
Context (w_sum : ∀ a b, w (Rating.sum_charges a b) = u64_saturating_add (w a) (w b)).
Context (w_charge : ∀ a, w (Accs.charges_of t a) = charge (quantity a) p d).
Context (p_ok : 0 ≤ p) (d_ok : 0 < d ≤ 2 ^ 40).

Lemma component_drift (accs : list Acc) (whole : Z) :
  Forall (λ a, 0 ≤ quantity a) accs → zsum (quantity <$> accs) = whole →
  let sum := w (foldl Rating.sum_charges no_charges (Accs.charges_of t <$> accs)) in
  sum < u64_max → priced whole p d < u64_max → 2 * Z.abs (sum - priced whole p d) ≤ Z.of_nat (length accs).
Proof.
  intros Hq Hw. cbv zeta. rewrite saturating_total; [|done|done|].
  2: { apply Forall_fmap. eapply Forall_impl; [exact Hq|]. intros a Ha. cbn in Ha |- *. rewrite w_charge, charge_exact by lia.
       pose proof (half_up_nonneg (quantity a) p d Ha p_ok ltac:(lia)). assert (0 < u64_max) by done. lia. }
  assert (He : w <$> (Accs.charges_of t <$> accs) = (λ q, charge q p d) <$> (quantity <$> accs)).
  { rewrite <-!list_fmap_compose. apply list_fmap_ext. intros i a _. apply w_charge. }
  rewrite He. intros Hs Hp. rewrite Z.min_l in Hs |- * by lia.
  rewrite unsaturated_sum in Hs |- *; [|by apply Forall_fmap|done|done|lia|by apply Forall_fmap|done|done|lia].
  pose proof (rounding_drift (quantity <$> accs) p d ltac:(lia)) as Hd. rewrite Hw, length_fmap in Hd.
  assert (Hpr : priced whole p d = half_up_price whole p d) by (unfold priced, half_up_price in *; lia).
  by rewrite Hpr.
Qed.
End component.

(** Invocations are priced by the piece: nothing is rounded. *)
Lemma invocations_exact t p (accs : list Acc) (whole : Z) :
  p = up_invocation (pt_unit_prices_micros t) → 0 ≤ p →
  Forall (λ a, 0 ≤ uq_invocations (ac_usage a)) accs →
  zsum ((λ a, uq_invocations (ac_usage a)) <$> accs) = whole →
  let sum := ch_invocations (foldl Rating.sum_charges no_charges (Accs.charges_of t <$> accs)) in
  sum < u64_max → priced whole p 1 < u64_max → sum = priced whole p 1.
Proof.
  intros Hp Hpos Hq Hw. cbv zeta.
  assert (Hpiece : ∀ q, half_up_price q p 1 = q * p).
  { intros q. unfold half_up_price. replace (2 * (q * p) + 1) with (1 + (q * p) * (2 * 1)) by lia.
    rewrite Z.div_add by lia. by rewrite Z.div_small by lia. }
  rewrite saturating_total; [|done|done|].
  2: { apply Forall_fmap. eapply Forall_impl; [exact Hq|]. intros a Ha. cbn in Ha |- *. rewrite <-Hp, charge_exact by lia.
       pose proof (half_up_nonneg (uq_invocations (ac_usage a)) p 1 Ha Hpos ltac:(lia)). assert (0 < u64_max) by done. lia. }
  assert (He : ch_invocations <$> (Accs.charges_of t <$> accs)
    = (λ q, charge q p 1) <$> ((λ a, uq_invocations (ac_usage a)) <$> accs)).
  { rewrite <-!list_fmap_compose. apply list_fmap_ext. intros i a _. cbn. by rewrite <-Hp. }
  rewrite He. set (qs := (λ a, uq_invocations (ac_usage a)) <$> accs) in *. intros Hs Hl.
  assert (Hqs : Forall (λ q, 0 ≤ q) qs) by (by apply Forall_fmap).
  rewrite Z.min_l in Hs |- * by lia.
  rewrite unsaturated_sum in Hs |- * by (done || lia).
  assert (Hsum : zsum ((λ q, half_up_price q p 1) <$> qs) = zsum qs * p).
  { clear -Hpiece. induction qs as [|q qs IH]; [done|]. rewrite fmap_cons, !zsum_cons, IH, Hpiece. lia. }
  rewrite Hsum, Hw. pose proof (Hpiece whole) as Hh. unfold priced in *. fold (half_up_price whole p 1) in *. lia.
Qed.

(** ** Properties *)

Section properties.
Context (day_of : Timestamp → string) (t : PriceTable).

(** C37: a report has one line for each function and day that has events, and each line charges
    exactly what its settled attempts used: the sum of their billable milliseconds (the segments
    the table lists, as far as the host or the provider measured them) times the requested CPU and
    memory, their number without retries, and the payload bytes measured, each times its price
    and rounded half up once. What the guest reported, what nobody measured and events of other
    types charge nothing. *)
Theorem lines_charge_measured_attempts (g : GroupBy) (events : list UsageEvent)
    (Hok : Forall event_ok events) (Hfew : few events) (Hprices : prices_ok t) :
  let lines := (Rating.rate day_of events t g).1 in
  NoDup (line_id <$> lines) ∧
  (∀ k, k ∈ line_id <$> lines ↔ group day_of g k events ≠ []) ∧
  (∀ line, line ∈ lines →
     ln_provisional_charges_micros line = charges_spec t (group day_of g (line_id line) events)).
Proof.
  cbv zeta. unfold Rating.rate. cbn [fst]. set (m := Rating.add_events day_of t g events).
  assert (Hids : line_id <$> ((λ ka, Rating.line_of t ka.1 ka.2) <$> btree_entries m) = btree_keys m).
  { unfold btree_keys. rewrite <-list_fmap_compose. apply list_fmap_ext. by intros i [[f d] a] _. }
  rewrite Hids. split_and!.
  - apply NoDup_btree_keys.
  - intros k. unfold btree_keys. rewrite list_elem_of_fmap. split.
    + intros ([k' a] & -> & Hin%elem_of_btree_entries). cbn. unfold m in Hin. rewrite add_events_lookup in Hin.
      intros E. cbn in Hin. by rewrite E in Hin.
    + intros Hne. destruct (group day_of g k events) as [|e l] eqn:E; [done|].
      exists (k, acc_of t (e :: l)). split; [done|]. apply elem_of_btree_entries.
      unfold m. by rewrite add_events_lookup, E.
  - intros line ([k a] & -> & Hin%elem_of_btree_entries)%list_elem_of_fmap. unfold m in Hin.
    rewrite add_events_lookup in Hin. destruct (group day_of g k events) as [|e l] eqn:E; [done|].
    injection Hin as <-. cbn [fst snd]. replace (line_id _) with k by (by destruct k).
    change (Accs.charges_of t (acc_of t (e :: l)) = charges_spec t (group day_of g k events)).
    rewrite <-E. apply charges_exact; [by apply group_ok|by apply group_few|done].
Qed.

(** C38: the totals of a report do not depend on the order in which the events are read nor on how
    they are grouped: usage, unmetered usage, host cost and guest reports are the same for any
    grouping. They count every settled attempt once, as an invocation or as a retry, and every
    environment that stopped. *)
Theorem totals_ignore_grouping (g g' : GroupBy) (events events' : list UsageEvent)
    (Hok : Forall event_ok events) (Hfew : few events) (Hperm : events ≡ₚ events') :
  let totals := (Rating.rate day_of events t g).2 in
  let totals' := (Rating.rate day_of events' t g').2 in
  ln_usage totals = ln_usage totals' ∧ ln_unmetered totals = ln_unmetered totals' ∧
  ln_cost totals = ln_cost totals' ∧ ln_guest_reported totals = ln_guest_reported totals' ∧
  uq_attempts (ln_usage totals) = count_of settled events ∧
  uq_invocations (ln_usage totals) + uq_retries (ln_usage totals) = count_of settled events ∧
  hc_environments_stopped (ln_cost totals) = count_of stopped events.
Proof.
  cbv zeta. rewrite <-(rate_perm day_of t g' _ _ Hok Hperm).
  destruct (rate_totals day_of t g events Hok Hfew) as (-> & -> & -> & -> & _).
  destruct (rate_totals day_of t g' events Hok Hfew) as (-> & -> & -> & -> & _).
  pose proof (acc_exact t events Hok Hfew) as He. unfold exacts in He. injection He as _ _ _ E4 E5 E6 E7 _ _.
  split_and!; [done..|cbn; rewrite E5; done|cbn; rewrite E4, E6|by rewrite E7].
  clear. unfold over_attempts, count_of. induction events as [|e events IH]; [done|].
  rewrite !fmap_cons, !zsum_cons. rewrite <-IH. destruct (settled e), (retried e); lia.
Qed.

(** grouping a report into lines moves a component of its charges by at most half a unit for
    each line from what the whole would be charged, rounded once (as long as no component reaches
    the largest 64-bit integer); the charge for invocations does not move. *)
Theorem grouping_moves_charges_little (g : GroupBy) (events : list UsageEvent)
    (Hok : Forall event_ok events) (Hfew : few events) (Hprices : prices_ok t) :
  let '(lines, totals) := Rating.rate day_of events t g in
  let sum := ln_provisional_charges_micros totals in
  let whole := charges_spec t events in
  let n := Z.of_nat (length lines) in
  (ch_vcpu sum < u64_max → ch_vcpu whole < u64_max → 2 * Z.abs (ch_vcpu sum - ch_vcpu whole) ≤ n) ∧
  (ch_memory sum < u64_max → ch_memory whole < u64_max → 2 * Z.abs (ch_memory sum - ch_memory whole) ≤ n) ∧
  (ch_transfer sum < u64_max → ch_transfer whole < u64_max → 2 * Z.abs (ch_transfer sum - ch_transfer whole) ≤ n) ∧
  (ch_invocations sum < u64_max → ch_invocations whole < u64_max → ch_invocations sum = ch_invocations whole).
Proof.
  destruct (rate_totals day_of t g events Hok Hfew) as (_ & _ & _ & _ & Hc).
  destruct (lines_total day_of t g events Hok Hfew) as (L1 & L2 & L3 & L4).
  pose proof (entries_ok day_of t g events Hok) as Ha. unfold Rating.rate in *. cbn [snd] in Hc.
  rewrite length_fmap, Hc. set (entries := btree_entries _) in *.
  replace ((λ ka, Accs.charges_of t ka.2) <$> entries) with (Accs.charges_of t <$> entries.*2)
    by (by rewrite <-list_fmap_compose).
  replace (length entries) with (length entries.*2) by apply length_fmap.
  unfold prices_ok in Hprices. fields. unfold u64_range in *.
  split_and!.
  - apply (component_drift ch_vcpu ac_vcpu_milli_ms (up_vcpu_second (pt_unit_prices_micros t)) 1000000 t); try done; [lia|].
    eapply Forall_impl; [exact Ha|]. intros a [_ [? _] _ _ _ _ _]. done.
  - apply (component_drift ch_memory ac_mib_ms (up_gib_second (pt_unit_prices_micros t)) 1024000 t); try done; [lia|].
    eapply Forall_impl; [exact Ha|]. intros a [_ _ [? _] _ _ _ _]. done.
  - apply (component_drift ch_transfer ac_transfer_bytes (up_gb_transferred (pt_unit_prices_micros t)) 1000000000 t); try done; [lia|].
    eapply Forall_impl; [exact Ha|]. intros a [_ _ _ [? _] _ _ _]. done.
  - assert (Hi : Forall (λ a, 0 ≤ uq_invocations (ac_usage a)) entries.*2).
    { eapply Forall_impl; [exact Ha|]. intros a [[Hu _] _ _ _ _ _ _]. fields. by destruct H3. }
    apply (invocations_exact t (up_invocation (pt_unit_prices_micros t))); try done; lia.
Qed.
End properties.

(** ** Reports of the ledger *)

Section reports.
Context `{HC : UsageCodec} {HL : UsageCodecLaws}.

(** The events a report is about. *)
Definition in_report (tenant : TenantId) (function : option FunctionId) (from to : Timestamp) (e : UsageEvent) : bool :=
  (ue_tenant_id e == tenant) && (from <=? ue_observed_at e) && (ue_observed_at e <? to)
  && is_none_or function (λ f, ue_function_id e == Some f).

(** The event a row of the ledger holds. *)
Definition row_event (r : LedgerRow) (e : UsageEvent) : Prop :=
  event_of_json (lr_body r) = Ok e ∧ lr_tenant_id r = ue_tenant_id e ∧
  lr_observed_at r = ue_observed_at e ∧ lr_function_id r = ue_function_id e.

Lemma ledger_row_event h rows id r :
  Forall (λ er, row_holds er.1 er.2) h → ledger_holds h rows → rows !! id = Some r →
  ∃ e, row_event r e ∧ first_per_id h.*1 !! id = Some e.
Proof.
  intros Hh Hl Hr. specialize (Hl id). rewrite Hr in Hl. rewrite <-first_with_first.
  destruct (first_with id h) as [[e jr]|] eqn:E; [|done]. destruct Hl as [received ->].
  apply first_with_in in E. rewrite Forall_forall in Hh. specialize (Hh _ E). cbn in Hh.
  exists e. split; [|done]. split; [|done]. apply (event_reads_back _ _ (rh_body _ _ Hh)).
Qed.

Lemma selected_in_report tenant function from to r e :
  row_event r e → selected tenant function from to r = in_report tenant function from to e.
Proof. intros (_ & Ht & Ho & Hf). unfold selected, in_report. by rewrite Ht, Ho, Hf. Qed.

(** Rows of one tenant read back as their events. *)
Lemma events_of_rows tenant rows events :
  Forall2 row_event rows events → Forall (λ e, ue_tenant_id e = tenant) events →
  events_of tenant rows = Ok events.
Proof.
  induction 1 as [|r e rows events (Hj & _) _ IH]; intros Ht; [done|].
  apply Forall_cons in Ht as [He Ht]. cbn. rewrite Hj. cbn. rewrite (IH Ht). cbn.
  by rewrite bool_decide_eq_true_2.
Qed.

Lemma filter_Forall2 (p : LedgerRow → bool) (q : UsageEvent → bool) rows events :
  (∀ r e, row_event r e → p r = q e) → Forall2 row_event rows events →
  Forall2 row_event (List.filter p rows) (List.filter q events).
Proof.
  intros Hpq. induction 1 as [|r e rows events Hr _ IH]; cbn; [constructor|].
  rewrite (Hpq r e Hr). destruct (q e); [by constructor|done].
Qed.

Lemma ledger_values (rows : gmap string LedgerRow) (m : gmap string UsageEvent) :
  (∀ id r, rows !! id = Some r → ∃ e, row_event r e ∧ m !! id = Some e) →
  (∀ id, rows !! id = None → m !! id = None) →
  ∃ events, Forall2 row_event (map_to_list rows).*2 events ∧ events ≡ₚ (map_to_list m).*2.
Proof.
  revert m. induction rows as [|id r rows Hid IH] using map_ind; intros m Hs Hn.
  - exists []. rewrite map_to_list_empty. split; [constructor|].
    assert (m = ∅) as -> by (apply map_empty; intros id; by apply Hn). by rewrite map_to_list_empty.
  - destruct (Hs id r (lookup_insert_eq _ _ _)) as (e & He & Hm).
    destruct (IH (delete id m)) as (events & Hf & Hp).
    + intros id' r' Hr'. assert (id ≠ id') by congruence.
      rewrite lookup_delete_ne by done. apply Hs. by rewrite lookup_insert_ne.
    + intros id' Hr'. destruct (decide (id = id')) as [<-|]; [by rewrite lookup_delete_eq|].
      rewrite lookup_delete_ne by done. apply Hn. by rewrite lookup_insert_ne.
    + assert (Hmr : map_to_list (<[id := r]> rows) ≡ₚ (id, r) :: map_to_list rows) by by apply map_to_list_insert.
      assert (Hf2 : Forall2 row_event (r :: (map_to_list rows).*2) (e :: events)) by by constructor.
      assert (Hrp : r :: (map_to_list rows).*2 ≡ₚ (map_to_list (<[id := r]> rows)).*2) by by rewrite Hmr.
      destruct (Permutation_Forall2 Hrp Hf2) as (es & Hpe & Hes).
      exists es. split; [done|]. rewrite <-Hpe, Hp.
      assert (Hmm : map_to_list m ≡ₚ (id, e) :: map_to_list (delete id m)).
      { rewrite <-map_to_list_insert by apply lookup_delete_eq. by rewrite insert_delete_id. }
      by rewrite Hmm.
Qed.

Lemma filter_perm {A} (p : A → bool) (a b : list A) : a ≡ₚ b → List.filter p a ≡ₚ List.filter p b.
Proof. induction 1; cbn; repeat case_match; try done; try by constructor. by etrans. Qed.

(** What a read of the ledger gives: the events of the tenant and the range, each once. *)
Lemma events_for_spec h rows tenant function from to l :
  Forall (λ er, row_holds er.1 er.2) h → ledger_holds h rows → ul_events l = rows →
  ∃ events, events_for Works tenant function from to l = Ok events ∧
    events ≡ₚ List.filter (in_report tenant function from to) (map_to_list (first_per_id h.*1)).*2.
Proof.
  intros Hh Hl <-.
  destruct (ledger_values (ul_events l) (first_per_id h.*1)) as (evs & Hf & Hp).
  { intros id r Hr. by eapply ledger_row_event. }
  { intros id Hn. specialize (Hl id). rewrite Hn in Hl. rewrite <-first_with_first.
    by destruct (first_with id h) as [[]|]. }
  assert (Hvals : (map_to_list (ul_events l)).*2 ≡ₚ btree_values (ul_events l)).
  { unfold btree_values, btree_entries. by rewrite merge_sort_Permutation. }
  destruct (Permutation_Forall2 Hvals Hf) as (evs' & Hp' & Hf').
  pose proof (filter_Forall2 (selected tenant function from to) (in_report tenant function from to) _ _
    (selected_in_report tenant function from to) Hf') as Hff.
  assert (Hsort : filter_values (selected tenant function from to) (ul_events l)
    ≡ₚ sort_by observed_before (filter_values (selected tenant function from to) (ul_events l)))
    by (symmetry; apply sort_by_Permutation).
  unfold filter_values in Hsort at 1. destruct (Permutation_Forall2 Hsort Hff) as (es & Hpe & Hes).
  exists es. split.
  - apply events_of_rows; [done|]. rewrite <-Hpe. apply Forall_forall.
    intros e [_ He]%list_elem_of_In%List.filter_In. unfold in_report in He. by bools.
  - rewrite <-Hpe. apply filter_perm. by rewrite <-Hp', Hp.
Qed.

(** what a report counts: after any run of the processes of a data directory, a report that
    is given rates exactly the facts the ledger took, one event for each event id of the caller's
    tenant (and function, when one is asked for) observed in the range, whatever was delivered
    twice, in whatever order. *)
Theorem report_counts_each_event_once (c : UsageConfig) (cmds : list ucmd)
    (day_of show_time : Timestamp → string) (t : PriceTable) (p : Principal) (q : Rating.UsageQuery)
    (now : Timestamp) (collected : option Timestamp) (w' : DbAccess) (j : UsageJournal)
    (rep : Rating.UsageReport) (Hb : bounds_ok c) :
  let s := usage_run c cmds in
  Forall event_ok (written_events s) →
  Rating.report day_of show_time t p q now collected Works w' j (uw_db s) (uw_ledger s) = Ok rep →
  ∃ gone taken g,
    jd_rows (uw_db s) = drop gone (written_rows (uw_written s)) ∧
    (gone ≤ taken ≤ length (written_events s))%nat ∧
    let facts := List.filter (in_report (pr_tenant_id p) (Rating.qu_function_id q) (Rating.rp_from rep) (Rating.rp_to rep))
                   (map_to_list (first_per_id (take taken (written_events s)))).*2 in
    Group.parse (Rating.qu_group_by q) = Ok g ∧
    (Rating.rp_lines rep, Rating.rp_totals rep) = Rating.rate day_of facts t g ∧
    Rating.rp_tenant_id rep = pr_tenant_id p ∧ Role.Invoke ∈ pr_roles p.
Proof.
  destruct (usage_run_wf c cmds Hb) as (d & n & [Hh Hdb _ Hd Hl _]). cbv zeta. intros Hok H.
  unfold Rating.report in H. apply result_bind_Ok in H as (u & Hrole & H).
  unfold require_invoke, require_role in Hrole. destruct (bool_decide _) eqn:Hr in Hrole; [|done]. bools.
  pass H. pass H. pass H. apply result_bind_Ok in H as (g & Hg & H).
  apply result_bind_Ok in H as (events & He & H).
  destruct (Rating.rate _ _ _ _) as [lines totals] eqn:Hrate. injection H as <-. cbn.
  exists d, n, g. split; [apply Hdb|]. split; [unfold written_events; rewrite length_fmap; lia|].
  split; [by destruct (Group.parse _); [injection Hg as ->|]|]. split; [|done]. rewrite <-Hrate.
  match type of He with map_err _ (events_for _ _ ?f ?a ?b ?l) = _ =>
    destruct (events_for_spec _ _ (pr_tenant_id p) f a b l
      (Forall_take _ n _ (hi_holds _ Hh)) Hl eq_refl) as (es & Hes & Hp) end.
  rewrite Hes in He. injection He as ->. unfold written_events. rewrite <-fmap_take.
  apply rate_perm; [|done]. rewrite Hp. apply Forall_forall.
  intros e [Hin _]%list_elem_of_In%List.filter_In. apply list_elem_of_In, list_elem_of_fmap in Hin as ([id e'] & -> & Hin).
  apply elem_of_map_to_list in Hin. rewrite <-first_with_first in Hin.
  destruct (first_with id (take n _)) as [er|] eqn:E; [|done]. injection Hin as <-.
  apply first_with_in in E. rewrite Forall_forall in Hok. apply Hok. unfold written_events.
  apply list_elem_of_fmap. exists er. split; [done|]. rewrite <-(take_drop n). apply elem_of_app. by left.
Qed.
End reports.

(** ** Witnesses *)

(** A day by its number. *)
Definition day_use (at_ : Timestamp) : string := pretty (at_ / Rating.days 1).
Definition group_use : GroupBy := mkGroupBy true true.
(** Two attempts of one function and one of another, on another day, whose handler is a little
    too long to price exactly. *)
Definition rated_use : list UsageEvent :=
  [event_1; event_2; settled_use "e3" (Rating.days 1) (Meter.provider 77) <| ue_function_id := None |>; event_stop].

Lemma rated_ok : Forall event_ok rated_use.
Proof.
  repeat apply Forall_cons_2; try apply Forall_nil_2;
    (split; cbn; repeat apply Forall_cons_2; try apply Forall_nil_2;
     unfold metered_ok, opt_u64, u64_range, u64_max, u32_max; cbn; lia).
Qed.
Lemma builtin_prices : prices_ok Price.builtin.
Proof. unfold prices_ok. repeat apply Forall_cons_2; try apply Forall_nil_2; unfold u64_range, u64_max; cbn; lia. Qed.

Lemma lines_charge_measured_attempts_witness :
  let lines := (Rating.rate day_use rated_use Price.builtin group_use).1 in
  length lines = 2%nat ∧
  (∀ line, line ∈ lines → ln_provisional_charges_micros line
     = charges_spec Price.builtin (group day_use group_use (line_id line) rated_use)).
Proof.
  split; [by vm_compute|].
  exact (proj2 (proj2 (lines_charge_measured_attempts day_use Price.builtin group_use rated_use rated_ok
    ltac:(vm_compute; discriminate) builtin_prices))).
Defined.

Lemma totals_ignore_grouping_witness :
  ln_usage (Rating.rate day_use rated_use Price.builtin group_use).2
  = ln_usage (Rating.rate day_use (rev rated_use) Price.builtin (mkGroupBy false false)).2.
Proof.
  exact (proj1 (totals_ignore_grouping day_use Price.builtin group_use (mkGroupBy false false) rated_use
    (rev rated_use) rated_ok ltac:(vm_compute; discriminate) (Permutation_rev rated_use))).
Defined.

Lemma grouping_moves_charges_little_witness :
  ch_vcpu (ln_provisional_charges_micros (Rating.rate day_use rated_use Price.builtin group_use).2) = 284 ∧
  let '(lines, totals) := Rating.rate day_use rated_use Price.builtin group_use in
  ch_vcpu (ln_provisional_charges_micros totals) < u64_max →
  ch_vcpu (charges_spec Price.builtin rated_use) < u64_max →
  2 * Z.abs (ch_vcpu (ln_provisional_charges_micros totals) - ch_vcpu (charges_spec Price.builtin rated_use))
  ≤ Z.of_nat (length lines).
Proof.
  split; [by vm_compute|].
  pose proof (grouping_moves_charges_little day_use Price.builtin group_use rated_use rated_ok
    ltac:(vm_compute; discriminate) builtin_prices) as H.
  destruct (Rating.rate day_use rated_use Price.builtin group_use). exact (proj1 H).
Defined.

Definition principal_use : Principal := mkPrincipal "subject" "tn_a" [Role.Invoke].
(** A table that applies to the events of the run. *)
Definition table_use : PriceTable :=
  mkPriceTable "t" 0 "JPY" ["handler_ms"] (mkUnitPrices 2500 400 30 15000000).
Definition query_use : Rating.UsageQuery := Rating.mkUsageQuery (Some 0) None (Some "day, function") None.
Definition report_use : result AppError Rating.UsageReport :=
  Rating.report day_use pretty table_use principal_use query_use (seconds 6000) None Works Works journal_use
    (uw_db (usage_run config_use cmds_race)) (uw_ledger (usage_run config_use cmds_race)).
Definition refused_use : Rating.UsageReport :=
  Rating.mkUsageReport "" None 0 0 [] [] empty_line 0 None.
Definition rep_use : Rating.UsageReport :=
  match report_use with Ok rep => rep | Err _ => refused_use end.

Lemma written_use : written_events (usage_run config_use cmds_race) = [event_1; event_2; event_1'; event_stop].
Proof. by vm_compute. Qed.
Lemma written_ok : Forall event_ok (written_events (usage_run config_use cmds_race)).
Proof.
  rewrite written_use. repeat apply Forall_cons_2; try apply Forall_nil_2;
    (split; cbn; repeat apply Forall_cons_2; try apply Forall_nil_2;
     unfold metered_ok, opt_u64, u64_range, u64_max, u32_max; cbn; lia).
Qed.

(** The batch was delivered three times: the report counts its two events once. *)
Lemma report_counts_each_event_once_witness :
  uq_attempts (ln_usage (Rating.rp_totals rep_use)) = 2 ∧
  ∃ taken g,
    let facts := List.filter (in_report "tn_a" None 0 (seconds 6000))
                   (map_to_list (first_per_id (take taken (written_events (usage_run config_use cmds_race))))).*2 in
    (Rating.rp_lines rep_use, Rating.rp_totals rep_use) = Rating.rate day_use facts table_use g.
Proof.
  split; [vm_compute; reflexivity|].
  destruct (report_counts_each_event_once config_use cmds_race day_use pretty table_use principal_use query_use
    (seconds 6000) None Works journal_use rep_use bounds_use written_ok
    ltac:(vm_compute; reflexivity)) as (gone & taken & g & _ & _ & _ & H & _).
  exact (ex_intro _ taken (ex_intro _ g H)).
Defined.
