(* ===== verification/TriggerStore.v ===== *)
(** * Triggers: the rows and their transactions

    [crates/application/src/repository/triggers.rs] and its SQL implementation
    ([repository/sqlite/triggers.rs]): cron and webhook triggers, the record of their fires, the
    lease of the cron scheduler, and the transaction that accepts a fire together with its
    asynchronous invocation. The tables sit beside the ledger of [Outbox]; a transaction is a
    function of both whose error leaves them as they were. *)

From S2P Require Import Prelude Ids Functions Invocation Guard Slot Store Retry Outbox.

Open Scope string_scope.
Open Scope Z_scope.

Abbreviation TriggerId := string (only parsing).

(** ** Rows *)

Module TriggerKind.
(** [crates/application/src/repository/triggers.rs:32-37 TriggerKind] *)
Inductive t : Type := Cron | Webhook.
#[global] Instance eq_dec : EqDecision t.
Proof. solve_decision. Defined.

(** [crates/application/src/repository/triggers.rs:40-45 as_str] *)
Definition as_str (k : t) : string := match k with Cron => "cron" | Webhook => "webhook" end.

(** [crates/application/src/repository/sqlite/triggers.rs:30-36 kind_of] *)
Definition kind_of (raw : string) : result RepoError t :=
  if raw == "cron" then Ok Cron
  else if raw == "webhook" then Ok Webhook
  else Err (Serialization ("trigger kind `" +:+ raw +:+ "`")).
End TriggerKind.

Module TriggerStatus.
(** [crates/application/src/repository/triggers.rs:48-54 TriggerStatus] *)
Inductive t : Type := Enabled | Disabled | Deleted.
#[global] Instance eq_dec : EqDecision t.
Proof. solve_decision. Defined.

(** [crates/application/src/repository/triggers.rs:57-63 as_str] *)
Definition as_str (s : t) : string :=
  match s with Enabled => "enabled" | Disabled => "disabled" | Deleted => "deleted" end.
End TriggerStatus.

(** [crates/application/src/repository/triggers.rs:66-73 TriggerTarget] *)
Record TriggerTarget := mkTarget {
  tt_alias : option AliasName;
  tt_revision_id : option RevisionId
}.
#[global] Instance TriggerTarget_eq_dec : EqDecision TriggerTarget.
Proof. solve_decision. Defined.

(** [crates/application/src/repository/triggers.rs:75-81 MissedRunPolicy] *)
Inductive MissedRunPolicy : Type := Skip | RunOnce | RunAll (max_runs : Z).
#[global] Instance MissedRunPolicy_eq_dec : EqDecision MissedRunPolicy.
Proof. solve_decision. Defined.

(** [crates/application/src/repository/triggers.rs:83-89 CronSpec] The payload is its JSON text. *)
Record CronSpec := mkCronSpec {
  cr_expression : string;
  cr_timezone : string;
  cr_payload : string;
  cr_missed_run_policy : MissedRunPolicy
}.
#[global] Instance CronSpec_eq_dec : EqDecision CronSpec.
Proof. solve_decision. Defined.

(** [crates/application/src/repository/triggers.rs:91-99 WebhookSpec] *)
Record WebhookSpec := mkWebhookSpec {
  wh_source : string;
  wh_tolerance_seconds : Z;
  wh_max_body_bytes : Z;
  wh_event_id_header : string;
  wh_secret_fingerprint : string
}.
#[global] Instance WebhookSpec_eq_dec : EqDecision WebhookSpec.
Proof. solve_decision. Defined.

(** [crates/application/src/repository/triggers.rs:101-106 TriggerSpec] *)
Inductive TriggerSpec : Type :=
| CronTrigger (spec : CronSpec)
| WebhookTrigger (spec : WebhookSpec).
#[global] Instance TriggerSpec_eq_dec : EqDecision TriggerSpec.
Proof. solve_decision. Defined.

(** [crates/application/src/repository/triggers.rs:109-114 TriggerSpec::kind] *)
Definition spec_kind (s : TriggerSpec) : TriggerKind.t :=
  match s with CronTrigger _ => TriggerKind.Cron | WebhookTrigger _ => TriggerKind.Webhook end.

(** [crates/application/src/repository/triggers.rs:117-140 Trigger] *)
Record Trigger := mkTrigger {
  tg_id : TriggerId;
  tg_tenant_id : TenantId;
  tg_function_id : FunctionId;
  tg_name : string;
  tg_target : TriggerTarget;
  tg_spec : TriggerSpec;
  tg_status : TriggerStatus.t;
  tg_status_reason : option string;
  tg_generation : Z;
  tg_next_fire_at : option Timestamp;
  tg_last_scheduled_at : option Timestamp;
  tg_created_at : Timestamp;
  tg_updated_at : Timestamp;
  tg_deleted_at : option Timestamp
}.
#[global] Instance Trigger_eta : Eta Trigger := λ r,
  mkTrigger (tg_id r) (tg_tenant_id r) (tg_function_id r) (tg_name r) (tg_target r) (tg_spec r)
    (tg_status r) (tg_status_reason r) (tg_generation r) (tg_next_fire_at r)
    (tg_last_scheduled_at r) (tg_created_at r) (tg_updated_at r) (tg_deleted_at r).
#[global] Instance Trigger_eq_dec : EqDecision Trigger.
Proof. solve_decision. Defined.

(** [crates/application/src/repository/triggers.rs:143-145 Trigger::kind] *)
Definition trigger_kind (t : Trigger) : TriggerKind.t := spec_kind (tg_spec t).
(** [crates/application/src/repository/triggers.rs:147-149 is_enabled] *)
Definition is_enabled (t : Trigger) : bool := tg_status t == TriggerStatus.Enabled.

Module FireOutcome.
(** [crates/application/src/repository/triggers.rs:152-159 FireOutcome] *)
Inductive t : Type := Accepted | Refused.
#[global] Instance eq_dec : EqDecision t.
Proof. solve_decision. Defined.

(** [crates/application/src/repository/triggers.rs:162-167 as_str] *)
Definition as_str (o : t) : string := match o with Accepted => "accepted" | Refused => "refused" end.

(** [crates/application/src/repository/sqlite/triggers.rs:38-44 outcome_of] *)
Definition outcome_of (raw : string) : result RepoError t :=
  if raw == "accepted" then Ok Accepted
  else if raw == "refused" then Ok Refused
  else Err (Serialization ("fire outcome `" +:+ raw +:+ "`")).
End FireOutcome.

(** [crates/application/src/repository/triggers.rs:170-186 FireRecord] *)
Record FireRecord := mkFire {
  fr_trigger_id : TriggerId;
  fr_tenant_id : TenantId;
  fr_fire_key : string;
  fr_kind : TriggerKind.t;
  fr_scheduled_at : option Timestamp;
  fr_event_id : option string;
  fr_signature_digest : option string;
  fr_invocation_id : option InvocationId;
  fr_outcome : FireOutcome.t;
  fr_reason : option string;
  fr_created_at : Timestamp
}.
#[global] Instance FireRecord_eta : Eta FireRecord := λ r,
  mkFire (fr_trigger_id r) (fr_tenant_id r) (fr_fire_key r) (fr_kind r) (fr_scheduled_at r)
    (fr_event_id r) (fr_signature_digest r) (fr_invocation_id r) (fr_outcome r) (fr_reason r)
    (fr_created_at r).
#[global] Instance FireRecord_eq_dec : EqDecision FireRecord.
Proof. solve_decision. Defined.

(** [crates/application/src/repository/triggers.rs:189-191 cron_key] [utc_text] is the text of an
    instant in seconds. *)
Definition cron_key (utc_text : Timestamp → string) (scheduled_at : Timestamp) : string :=
  "cron:" +:+ utc_text scheduled_at.
(** [crates/application/src/repository/triggers.rs:193-195 event_key] *)
Definition event_key (event_id : string) : string := "event:" +:+ event_id.

(** [crates/application/src/repository/triggers.rs:198-207 FireClaim] *)
Record FireClaim := mkClaim {
  fc_expected_generation : option Z;
  fc_record : FireRecord
}.

(** The lease of the cron scheduler: the row of [trigger_scheduler]. *)
Record SchedulerLease := mkSchedulerLease {
  sc_owner_id : DispatcherId;
  sc_acquired_at : Timestamp;
  sc_expires_at : Timestamp
}.

(** The ledger and the three tables. The columns of a trigger are those of its body; its sealed
    secret is a column of its own. *)
Record TriggerStore := mkTriggerStore {
  ts_ledger : Ledger;
  ts_triggers : gmap TriggerId (Trigger * option string);
  ts_fires : gmap (TriggerId * string) FireRecord;
  ts_scheduler : option SchedulerLease
}.
#[global] Instance TriggerStore_eta : Eta TriggerStore := λ r,
  mkTriggerStore (ts_ledger r) (ts_triggers r) (ts_fires r) (ts_scheduler r).

Definition empty_triggers : TriggerStore := mkTriggerStore empty_ledger ∅ ∅ None.

(** A transaction on both. *)
Definition ttx (A : Type) : Type := TriggerStore → result RepoError (A * TriggerStore).

(** ** Reads *)

(** [crates/application/src/repository/sqlite/triggers.rs:46-52 get_trigger_in] *)
Definition get_trigger (id : TriggerId) (s : TriggerStore) : option Trigger :=
  fst <$> ts_triggers s !! id.

(** [crates/application/src/repository/sqlite/triggers.rs:69-75 next_fire_column] *)
Definition next_fire_column (t : Trigger) : option Timestamp :=
  if (trigger_kind t == TriggerKind.Cron) && is_enabled t then tg_next_fire_at t else None.

(** [crates/application/src/repository/sqlite/triggers.rs:131-143 get_fire_in] *)
Definition get_fire (trigger : TriggerId) (key : string) (s : TriggerStore) : option FireRecord :=
  ts_fires s !! (trigger, key).

(** [crates/application/src/repository/sqlite/triggers.rs:145-157 fire_by_signature_in] The
    signature is unique among the fires of a trigger. *)
Definition fire_by_signature (trigger : TriggerId) (digest : string) (s : TriggerStore)
    : option FireRecord :=
  snd <$> btree_find (λ f, (fr_trigger_id f == trigger) && (fr_signature_digest f == Some digest))
            (ts_fires s).

(** Rows not deleted. *)
Definition not_deleted (t : Trigger) : bool := tg_status t != TriggerStatus.Deleted.

Definition trigger_rows (p : Trigger → bool) (s : TriggerStore) : list Trigger :=
  List.filter p (btree_values (ts_triggers s)).*1.

Definition created_earlier (a b : Trigger) : bool :=
  (tg_created_at a <? tg_created_at b)
  || ((tg_created_at a =? tg_created_at b) && String.leb (tg_id a) (tg_id b)).

(** [crates/application/src/repository/sqlite/triggers.rs:235-246 list_triggers] *)
Definition list_triggers (function : FunctionId) (s : TriggerStore) : list Trigger :=
  sort_by created_earlier (trigger_rows (λ t, (tg_function_id t == function) && not_deleted t) s).

(** [crates/application/src/repository/sqlite/triggers.rs:248-257 trigger_secret] *)
Definition trigger_secret (id : TriggerId) (s : TriggerStore) : option string :=
  '(t, sealed) ← ts_triggers s !! id;
  if not_deleted t then sealed else None.

(** A cron trigger is due. *)
Definition due_at (now : Timestamp) (t : Trigger) : bool :=
  (trigger_kind t == TriggerKind.Cron) && is_enabled t
  && is_some_and (next_fire_column t) (λ n, n <=? now).

Definition due_earlier (a b : Trigger) : bool :=
  match next_fire_column a, next_fire_column b with
  | Some x, Some y => (x <? y) || ((x =? y) && String.leb (tg_id a) (tg_id b))
  | Some _, None => false
  | None, Some _ => true
  | None, None => String.leb (tg_id a) (tg_id b)
  end.

(** [crates/application/src/repository/sqlite/triggers.rs:318-331 due_cron_triggers] *)
Definition due_cron_triggers (now : Timestamp) (limit : nat) (s : TriggerStore) : list Trigger :=
  take limit (sort_by due_earlier (trigger_rows (due_at now) s)).

(** [crates/application/src/repository/sqlite/triggers.rs:333-342 next_cron_fire_at] *)
Definition next_cron_fire_at (s : TriggerStore) : option Timestamp :=
  match omap next_fire_column
          (trigger_rows (λ t, (trigger_kind t == TriggerKind.Cron) && is_enabled t) s) with
  | [] => None
  | t :: ts => Some (fold_left Z.min ts t)
  end.

(** ** Writes *)

(** [crates/application/src/repository/sqlite/triggers.rs:191-229 insert_trigger] *)
Definition insert_trigger (trigger : Trigger) (sealed_secret : option string)
    (max_per_function : nat) : ttx unit := λ s,
  let live := length (trigger_rows
                (λ t, (tg_function_id t == tg_function_id trigger) && not_deleted t) s) in
  when! bool_decide (max_per_function ≤ live)%nat return!
    refuse ("function " +:+ tg_function_id trigger +:+ " already has " +:+ pretty live
              +:+ " triggers (max " +:+ pretty max_per_function +:+ ")");;
  _ ← big (tg_generation trigger) "trigger generation";
  when! is_some (ts_triggers s !! tg_id trigger) return! Err (constraint_violation "triggers");;
  Ok (tt, s <| ts_triggers ::= <[tg_id trigger := (trigger, sealed_secret)]> |>).

(** [crates/application/src/repository/sqlite/triggers.rs:259-316 update_trigger] *)
Definition update_trigger (trigger : Trigger) (expected_generation : Z)
    (sealed_secret : option string) : ttx bool := λ s,
  when! negb (tg_generation trigger =? expected_generation + 1) return!
    refuse "a trigger update carries expected_generation + 1";;
  match ts_triggers s !! tg_id trigger with
  | None => Err (NotFound ("trigger " +:+ tg_id trigger))
  | Some (old, sealed) =>
      when! (tg_tenant_id old != tg_tenant_id trigger)
            || (tg_function_id old != tg_function_id trigger)
            || (trigger_kind old != trigger_kind trigger) return!
        refuse "a trigger keeps its tenant, function and kind";;
      when! tg_status old == TriggerStatus.Deleted return! Ok (false, s);;
      _ ← big (tg_generation trigger) "trigger generation";
      _ ← big expected_generation "trigger generation";
      when! negb (tg_generation old =? expected_generation) return! Ok (false, s);;
      let sealed := if tg_status trigger == TriggerStatus.Deleted then None
                    else or_else sealed_secret sealed in
      Ok (true, s <| ts_triggers ::= <[tg_id trigger := (trigger, sealed)]> |>)
  end.

(** [crates/application/src/repository/sqlite/triggers.rs:344-370 advance_cron_cursor] *)
Definition advance_cron_cursor (id : TriggerId) (generation : Z) (next_fire_at : Timestamp)
    (last_scheduled_at : option Timestamp) : ttx bool := λ s,
  match ts_triggers s !! id with
  | None => Ok (false, s)
  | Some (t, sealed) =>
      when! negb (tg_generation t =? generation) || negb (is_enabled t)
            || (trigger_kind t != TriggerKind.Cron) return! Ok (false, s);;
      when! is_some_and (tg_next_fire_at t) (λ cur, next_fire_at <? cur) return! Ok (false, s);;
      let last := match last_scheduled_at with
                  | Some last => if is_none_or (tg_last_scheduled_at t) (λ prev, prev <? last)
                                 then Some last else tg_last_scheduled_at t
                  | None => tg_last_scheduled_at t
                  end in
      _ ← big (tg_generation t) "trigger generation";
      let t := t <| tg_next_fire_at := Some next_fire_at |> <| tg_last_scheduled_at := last |> in
      Ok (true, s <| ts_triggers ::= <[id := (t, sealed)]> |>)
  end.

(** [crates/application/src/repository/sqlite/triggers.rs:159-177 insert_fire_in] Insert or
    ignore; whether a row was written. *)
Definition insert_fire (f : FireRecord) (s : TriggerStore) : bool * TriggerStore :=
  let taken := is_some (get_fire (fr_trigger_id f) (fr_fire_key f) s)
               || is_some_and (fr_signature_digest f)
                    (λ d, is_some (fire_by_signature (fr_trigger_id f) d s)) in
  if taken then (false, s)
  else (true, s <| ts_fires ::= <[(fr_trigger_id f, fr_fire_key f) :=
                                   f <| fr_reason ::= fmap (λ r, truncate r 512) |>]> |>).

Module TriggerAcceptOutcome.
(** [crates/application/src/repository/triggers.rs:209-223 TriggerAcceptOutcome] *)
Inductive t : Type :=
| Accepted
| AlreadyFired (f : FireRecord)
| Inactive (current : option Trigger)
| Existing (binding : IdempotencyBinding)
| Backlog (stats : OutboxStats).
End TriggerAcceptOutcome.

(** [crates/application/src/repository/sqlite/triggers.rs:393-398 accept_trigger_fire (active)] *)
Definition fire_active (current : option Trigger) (inv : Invocation) (claim : FireClaim) : bool :=
  is_some_and current (λ t,
    is_enabled t && (tg_tenant_id t == inv_tenant_id inv) && (tg_function_id t == inv_function_id inv)
    && is_none_or (fc_expected_generation claim) (λ g, g =? tg_generation t)).

(** [crates/application/src/repository/sqlite/triggers.rs:372-435 accept_trigger_fire] *)
Definition accept_trigger_fire (cfg : StoreConfig) (inv : Invocation) (input : AsyncInput)
    (event : OutboxEvent) (backlog : BacklogLimits) (claim : FireClaim) (before_commit : bool)
    : ttx TriggerAcceptOutcome.t := λ s,
  _ ← check_accept inv input event;
  let record := fc_record claim in
  when! (fr_invocation_id record != Some (inv_id inv)) || (fr_tenant_id record != inv_tenant_id inv)
        || (fr_outcome record != FireOutcome.Accepted) return!
    refuse "a fire claim names its accepted invocation and tenant";;
  let current := get_trigger (fr_trigger_id record) s in
  when! negb (fire_active current inv claim) return! Ok (TriggerAcceptOutcome.Inactive current, s);;
  match or_else (get_fire (fr_trigger_id record) (fr_fire_key record) s)
          (d ← fr_signature_digest record; fire_by_signature (fr_trigger_id record) d s) with
  | Some existing => Ok (TriggerAcceptOutcome.AlreadyFired existing, s)
  | None =>
      '(outcome, l) ← accept_in cfg inv input event backlog (ts_ledger s);
      match outcome with
      | AsyncAcceptOutcome.Existing b => Ok (TriggerAcceptOutcome.Existing b, s)
      | AsyncAcceptOutcome.Backlog stats => Ok (TriggerAcceptOutcome.Backlog stats, s)
      | AsyncAcceptOutcome.Accepted =>
          let '(inserted, s') := insert_fire record (s <| ts_ledger := l |>) in
          when! negb inserted return!
            Err (Conflict ("fire " +:+ fr_fire_key record +:+ " of trigger "
                   +:+ fr_trigger_id record +:+ " was recorded concurrently"));;
          when! before_commit return!
            Err (Store "failpoint accept.before_commit: the transaction is rolled back");;
          Ok (TriggerAcceptOutcome.Accepted, s')
      end
  end.

(** [crates/application/src/repository/sqlite/triggers.rs:437-439 record_fire] *)
Definition record_fire (f : FireRecord) : ttx bool := λ s, Ok (insert_fire f s).

(** Newest first. *)
Definition fired_later (a b : FireRecord) : bool :=
  (fr_created_at b <? fr_created_at a)
  || ((fr_created_at a =? fr_created_at b) && String.leb (fr_fire_key b) (fr_fire_key a)).

(** [crates/application/src/repository/sqlite/triggers.rs:457-469 list_fires] *)
Definition list_fires (trigger : TriggerId) (limit : nat) (s : TriggerStore) : list FireRecord :=
  take limit (sort_by fired_later (filter_values (λ f, fr_trigger_id f == trigger) (ts_fires s))).

(** [crates/application/src/repository/sqlite/triggers.rs:476-483 purge_fires (rows)] *)
Definition outdated (webhook_before cron_before : Timestamp) (f : FireRecord) : bool :=
  match fr_kind f with
  | TriggerKind.Webhook => fr_created_at f <? webhook_before
  | TriggerKind.Cron => fr_created_at f <? cron_before
  end.

(** [crates/application/src/repository/sqlite/triggers.rs:471-487 purge_fires] *)
Definition purge_fires (webhook_before cron_before : Timestamp) : ttx nat := λ s,
  let gone := λ f, outdated webhook_before cron_before f in
  Ok (count_values gone (ts_fires s),
      s <| ts_fires ::= filter (λ e, gone e.2 = false) |>).

(** A dispatcher that stopped or was reclaimed owns nothing. *)
Definition dispatcher_gone (owner : DispatcherId) (s : TriggerStore) : bool :=
  is_some_and (st_dispatchers (lg_store (ts_ledger s)) !! owner)
    (λ d, is_some (disp_stopped_at d) || is_some (disp_reclaimed_at d)).

(** [crates/application/src/repository/sqlite/triggers.rs:522-541 acquire_scheduler_lease (take)] *)
Definition may_take (owner : DispatcherId) (now : Timestamp) (s : TriggerStore) : bool :=
  match ts_scheduler s with
  | None => true
  | Some lease =>
      (sc_owner_id lease == owner) || (sc_expires_at lease <=? now)
      || dispatcher_gone (sc_owner_id lease) s
  end.

(** [crates/application/src/repository/sqlite/triggers.rs:489-561 acquire_scheduler_lease] The
    read before the transaction answers what its decision answers. *)
Definition acquire_scheduler_lease (owner : DispatcherId) (now : Timestamp) (ttl : Duration)
    : ttx bool := λ s,
  when! negb (may_take owner now s) return! Ok (false, s);;
  let acquired := match ts_scheduler s with
                  | Some lease => if sc_owner_id lease == owner then sc_acquired_at lease else now
                  | None => now
                  end in
  Ok (true, s <| ts_scheduler := Some (mkSchedulerLease owner acquired (now + ttl)) |>).

(** [crates/application/src/repository/sqlite/triggers.rs:563-571 release_scheduler_lease] *)
Definition release_scheduler_lease (owner : DispatcherId) : ttx unit := λ s,
  Ok (tt, s <| ts_scheduler ::= λ l,
    match l with
    | Some lease => if sc_owner_id lease == owner then None else Some lease
    | None => None
    end |>).
