(* ===== verification/Webhook.v ===== *)
(** * Signed webhooks

    [crates/application/src/services/triggers/webhook.rs]: the HMAC of a delivery, its signature
    header and its timestamp, and the theorems that a header the sender computes verifies, that
    only the HMAC of the delivery verifies, and which text the replay key is a function of. Byte
    strings are strings. The digest (SHA-256) and the hexadecimal codec are libraries: [Hashing]
    are the functions the program calls, [HashLaws] what it relies on. *)

From Stdlib Require Import Ascii.
From S2P Require Import Prelude Ids Egress Cron.

Open Scope string_scope.
Open Scope Z_scope.

(** ** Digests and hexadecimal text *)

Class Hashing := {
  digest_of : string → string;
  hex_encode : string → string;
  hex_decode : string → option string
}.

Definition is_hex_byte (c : ascii) : bool := in_range "0" "9" c || in_range "a" "f" c.

Class HashLaws `{Hashing} := {
  digest_length (m : string) : String.length (digest_of m) = 32%nat;
  hex_length (b : string) : String.length (hex_encode b) = (2 * String.length b)%nat;
  hex_bytes (b : string) : bytes_all is_hex_byte (hex_encode b) = true;
  hex_round_trip (b : string) : hex_decode (hex_encode b) = Some b
}.

(** ** Bytes *)

(** [x ^ y] *)
Definition xor_byte (a b : ascii) : ascii := ascii_of_N (N.lxor (N_of_ascii a) (N_of_ascii b)).

Definition bytes (s : string) : list ascii := String.list_ascii_of_string s.
Definition of_bytes (l : list ascii) : string := String.string_of_list_ascii l.

(** A block with every byte [b ^ k_i]. *)
Definition pad_with (b : ascii) (k : list ascii) : string := of_bytes (xor_byte b <$> k).

(** [crates/application/src/control/wire.rs:213-219 constant_time_eq] *)
Definition constant_time_eq (a b : string) : bool :=
  if negb (byte_len a =? byte_len b) then false
  else bool_decide (foldl (λ acc p, N.lor acc (N.lxor (N_of_ascii p.1) (N_of_ascii p.2))) 0%N
                      (zip (bytes a) (bytes b)) = 0%N).

(** ** Verification *)

(** [crates/application/src/services/triggers/webhook.rs:17-18 SECRET_PREFIX] *)
Definition SECRET_PREFIX : string := "whsec_".
(** [crates/application/src/services/triggers/webhook.rs:19-20 MAX_SIGNATURE_HEADER] *)
Definition MAX_SIGNATURE_HEADER : Z := 1024.
(** [crates/application/src/services/triggers/webhook.rs:21-22 MAX_EVENT_ID_BYTES] *)
Definition MAX_EVENT_ID_BYTES : Z := 128.

Module VerifyError.
(** [crates/application/src/services/triggers/webhook.rs:24-35 VerifyError] *)
Inductive t : Type :=
| MissingTimestamp | MalformedTimestamp | TimestampOutsideTolerance
| MissingSignature | MalformedSignature | SignatureMismatch.
#[global] Instance eq_dec : EqDecision t.
Proof. solve_decision. Defined.

(** [crates/application/src/services/triggers/webhook.rs:38-47 as_str] *)
Definition as_str (e : t) : string :=
  match e with
  | MissingTimestamp => "missing_timestamp"
  | MalformedTimestamp => "malformed_timestamp"
  | TimestampOutsideTolerance => "timestamp_outside_tolerance"
  | MissingSignature => "missing_signature"
  | MalformedSignature => "malformed_signature"
  | SignatureMismatch => "signature_mismatch"
  end.
End VerifyError.

(** [raw.parse::<i64>()] of at most 12 decimal digits. *)
Definition parse_short_i64 (raw : string) : Z := digits_value raw.

(** [crates/application/src/services/triggers/webhook.rs:87-104 check_timestamp] *)
Definition check_timestamp (header : option string) (now_unix tolerance_seconds : Z)
    : result VerifyError.t Z :=
  match header with
  | None => Err VerifyError.MissingTimestamp
  | Some raw =>
      when! (raw == "") || (12 <? byte_len raw) || negb (bytes_all is_ascii_digit raw) return!
        Err VerifyError.MalformedTimestamp;;
      let ts := parse_short_i64 raw in
      let tolerance := Z.min tolerance_seconds i64_max in
      when! tolerance <? Z.abs (now_unix - ts) return! Err VerifyError.TimestampOutsideTolerance;;
      Ok ts
  end.

Definition is_ascii_graphic (c : ascii) : bool := in_range "!" "~" c.

(** [crates/application/src/services/triggers/webhook.rs:146-149 valid_event_id] *)
Definition valid_event_id (id : string) : bool :=
  negb (id == "") && (byte_len id <=? MAX_EVENT_ID_BYTES) && bytes_all is_ascii_graphic id.

Section signatures.
Context `{Hashing}.

Definition zeros (n : nat) : list ascii := repeat "000"%char n.

(** [crates/application/src/services/triggers/webhook.rs:50-75 hmac_sha256] *)
Definition hmac_sha256 (key message : string) : string :=
  let k := if 64 <? byte_len key then digest_of key else key in
  let block := take 64 (bytes k ++ zeros 64) in
  let inner := digest_of (pad_with "054"%char block +:+ message) in
  digest_of (pad_with "092"%char block +:+ inner).

(** [crates/application/src/services/triggers/webhook.rs:77-85 sign] *)
Definition sign (secret : string) (timestamp : Z) (body : string) : string :=
  "v1=" +:+ hex_encode (hmac_sha256 secret (pretty timestamp +:+ "." +:+ body)).

(** One entry of the header: whether it is a [v1] entry, and the signature if it matches. *)
Definition check_entry (expected : string) (acc : bool * option string) (entry : string)
    : bool * option string :=
  match strip_prefix "v1=" (trim entry) with
  | None => acc
  | Some hex_sig =>
      match hex_decode hex_sig with
      | None => (true, acc.2)
      | Some candidate =>
          (true, if constant_time_eq candidate expected && is_none acc.2 then Some candidate
                 else acc.2)
      end
  end.

(** [crates/application/src/services/triggers/webhook.rs:106-144 verify_signature] *)
Definition verify_signature (header : option string) (secret timestamp_raw body : string)
    : result VerifyError.t string :=
  match header with
  | None => Err VerifyError.MissingSignature
  | Some raw =>
      when! (raw == "") || (MAX_SIGNATURE_HEADER <? byte_len raw) return!
        Err VerifyError.MalformedSignature;;
      let expected := hmac_sha256 secret (timestamp_raw +:+ "." +:+ body) in
      match foldl (check_entry expected) (false, None) (split_on "," raw) with
      | (false, _) => Err VerifyError.MalformedSignature
      | (true, None) => Err VerifyError.SignatureMismatch
      | (true, Some sig) => Ok (hex_encode (digest_of sig))
      end
  end.

(** [crates/application/src/services/triggers/webhook.rs:151-158 generate_secret] The 32 random
    bytes are [random]. *)
Definition generate_secret (random : string) : string := SECRET_PREFIX +:+ hex_encode random.

(** The label of a fingerprint, with its final zero byte. *)
Definition FINGERPRINT_LABEL : string :=
  "tachyon-serverless/webhook-secret-fingerprint/v1" +:+ of_bytes ["000"%char].

(** [crates/application/src/services/triggers/webhook.rs:160-165 fingerprint] *)
Definition fingerprint (secret : string) : string :=
  "sha256:" +:+ String.substring 0 12 (hex_encode (digest_of (FINGERPRINT_LABEL +:+ secret))).
End signatures.

(** ** Facts about bytes *)

Lemma lor_fold_zero l acc :
  foldl (λ acc p, N.lor acc (N.lxor (N_of_ascii p.1) (N_of_ascii p.2))) acc l = 0%N
  ↔ acc = 0%N ∧ Forall (λ p : ascii * ascii, p.1 = p.2) l.
Proof.
  revert acc. induction l as [|[x y] l IH]; intros acc; cbn; [split; [by split; [|constructor]|tauto]|].
  rewrite IH, N.lor_eq_0_iff, N.lxor_eq_0_iff, Forall_cons. cbn.
  assert (Hinj : N_of_ascii x = N_of_ascii y ↔ x = y).
  { split; [|by intros ->]. intros He. apply (f_equal ascii_of_N) in He.
    by rewrite !ascii_N_embedding in He. }
  tauto.
Qed.

(** The comparison without early exit is equality. *)
Lemma constant_time_eq_spec a b : constant_time_eq a b = true ↔ a = b.
Proof.
  unfold constant_time_eq, bytes, byte_len. destruct (_ =? _) eqn:Hl; cbn.
  2:{ split; [done|]. intros ->. bools. lia. }
  rewrite bool_decide_eq_true, lor_fold_zero. bools. apply Nat2Z.inj in Hl.
  assert (Hlen : ∀ s, length (String.list_ascii_of_string s) = String.length s).
  { intros s. induction s as [|x s IH]; cbn; auto. }
  assert (Hzip : ∀ k l : list ascii, length k = length l →
    Forall (λ p : ascii * ascii, p.1 = p.2) (zip k l) ↔ k = l).
  { induction k as [|x k IH]; intros [|y l] Hkl; cbn in *; try done.
    rewrite Forall_cons, IH by lia. cbn. naive_solver. }
  rewrite Hzip by (by rewrite !Hlen). split; [intros [_ He]|intros ->; done].
  by rewrite <-(String.string_of_list_ascii_of_string a), He, String.string_of_list_ascii_of_string.
Qed.

(** Text without whitespace is its own trim; text without a separator is one part. *)
Lemma graphic_not_space c t : is_ascii_graphic c = true → whitespace_prefix (String c t) = 0%nat.
Proof. destruct c as [[] [] [] [] [] [] [] []]; (reflexivity || (intros Hc; discriminate Hc)). Qed.

Lemma trim_graphic s : bytes_all is_ascii_graphic s = true → trim s = s.
Proof.
  unfold bytes_all, trim. intros Hs.
  assert (Hstart : ∀ t, forallb is_ascii_graphic (String.list_ascii_of_string t) = true →
    trim_start 0 t = t).
  { intros [|c t] Ht; [done|]. cbn in Ht. apply andb_true_iff in Ht as [Hc _].
    unfold trim_start. by rewrite graphic_not_space. }
  rewrite Hstart by done. induction s as [|c s IH]; [done|]. cbn [trim_end].
  rewrite Hstart, bool_decide_eq_false_2 by done. cbn in Hs. apply andb_true_iff in Hs as [_ Hs].
  by rewrite IH.
Qed.

Lemma split_on_none c s : bytes_all (λ d, d != c) s = true → split_on c s = [s].
Proof.
  unfold bytes_all. induction s as [|d s IH]; [done|]. cbn. intros [Hd Hs]%andb_true_iff.
  apply negb_true_iff in Hd. by rewrite Hd, IH.
Qed.

(** ** What verifies *)

Section theorems.
Context `{Hashing}.

(** An entry of the header that carries the expected bytes. *)
Definition entry_matches (expected entry : string) : Prop :=
  ∃ hex_sig, strip_prefix "v1=" (trim entry) = Some hex_sig ∧ hex_decode hex_sig = Some expected.

Lemma check_entry_spec expected acc entry :
  (∀ s, acc.2 = Some s → acc.1 = true ∧ s = expected) →
  (∀ s, (check_entry expected acc entry).2 = Some s →
     (check_entry expected acc entry).1 = true ∧ s = expected)
  ∧ ((check_entry expected acc entry).2 = Some expected ↔
     acc.2 = Some expected ∨ entry_matches expected entry).
Proof.
  intros Hacc. unfold check_entry, entry_matches.
  destruct (strip_prefix _ _) as [h|] eqn:Hs; [|naive_solver].
  destruct (hex_decode h) as [c|] eqn:Hd; cbn; [|naive_solver].
  destruct (constant_time_eq c expected) eqn:Hc; cbn.
  - apply constant_time_eq_spec in Hc as ->. destruct (acc.2) as [s|] eqn:Ha; cbn; naive_solver.
  - assert (c ≠ expected) by (intros He; by apply constant_time_eq_spec in He; congruence).
    naive_solver.
Qed.

Lemma check_entries_spec expected entries acc :
  (∀ s, acc.2 = Some s → acc.1 = true ∧ s = expected) →
  let out := foldl (check_entry expected) acc entries in
  (∀ s, out.2 = Some s → out.1 = true ∧ s = expected)
  ∧ (out.2 = Some expected ↔
     acc.2 = Some expected ∨ ∃ entry, entry ∈ entries ∧ entry_matches expected entry).
Proof.
  revert acc. induction entries as [|e entries IH]; intros acc Hacc; cbn.
  - split; [done|]. split; [by left|]. intros [?|(? & []%not_elem_of_nil & _)]; done.
  - destruct (check_entry_spec expected acc e Hacc) as [Hs Hm].
    destruct (IH (check_entry expected acc e) Hs) as [Hs' Hm']. split; [done|].
    cbn in Hm'. rewrite Hm', Hm. setoid_rewrite elem_of_cons. naive_solver.
Qed.

(** A signature header verifies exactly when it carries the HMAC of the delivery. For any
    header, secret, timestamp and body: [verify_signature] succeeds if and only if the header is
    at most 1024 bytes and one of its comma-separated entries is [v1=] and hexadecimal text of
    the HMAC-SHA256, under the secret, of the timestamp as sent, a dot and the body. The digest it
    returns, by which replays are recognised, is that of the HMAC alone: the same signed delivery
    has the same one whichever way its header is written. *)
Theorem signature_verifies_iff raw secret timestamp_raw body digest :
  let mac := hmac_sha256 secret (timestamp_raw +:+ "." +:+ body) in
  verify_signature (Some raw) secret timestamp_raw body = Ok digest ↔
  byte_len raw ≤ MAX_SIGNATURE_HEADER
  ∧ (∃ entry, entry ∈ split_on "," raw ∧ entry_matches mac entry)
  ∧ digest = hex_encode (digest_of mac).
Proof.
  intros mac. unfold verify_signature. fold mac.
  destruct (check_entries_spec mac (split_on "," raw) (false, None)) as [Hs Hm]; [done|].
  destruct (foldl _ _ _) as [saw sig]. cbn in Hs, Hm.
  destruct (decide (raw = "")) as [->|Hne].
  { cbn. split; [done|]. intros (_ & (entry & Hin & h & Hh & _) & _).
    apply list_elem_of_singleton in Hin as ->. done. }
  rewrite bool_decide_eq_false_2 by done. cbn [orb].
  destruct (MAX_SIGNATURE_HEADER <? byte_len raw) eqn:Hl; bools.
  { split; [done|]. intros [? _]. lia. }
  destruct sig as [sig|].
  - destruct (Hs sig) as [-> ->]; [done|]. split.
    + intros [= <-]. split_and!; [done|naive_solver|done].
    + by intros (_ & _ & ->).
  - split; [by destruct saw|]. intros (_ & He & _). naive_solver.
Qed.
End theorems.

Section round_trip.
Context `{HashLaws}.

Lemma hmac_length key message : String.length (hmac_sha256 key message) = 32%nat.
Proof. apply digest_length. Qed.

Lemma hex_byte_visible c :
  is_hex_byte c = true → is_ascii_graphic c = true ∧ (c != ","%char) = true.
Proof. destruct c as [[] [] [] [] [] [] [] []]; (by split) || (intros Hc; discriminate Hc). Qed.

(** What a sender signs verifies: the header computed by [sign] for a timestamp and a body is
    accepted for them, with the digest of its HMAC as the replay key. *)
Theorem sign_verifies secret timestamp body :
  verify_signature (Some (sign secret timestamp body)) secret (pretty timestamp) body
  = Ok (hex_encode (digest_of (hmac_sha256 secret (pretty timestamp +:+ "." +:+ body)))).
Proof.
  apply signature_verifies_iff. set (mac := hmac_sha256 _ _).
  assert (Hhex : ∀ p, (∀ c, is_hex_byte c = true → p c = true) → p "v"%char = true →
      p "1"%char = true → p "="%char = true → bytes_all p ("v1=" +:+ hex_encode mac) = true).
  { intros p Hp H1 H2 H3. unfold bytes_all.
    change ("v1=" +:+ hex_encode mac) with (String "v" (String "1" (String "=" (hex_encode mac)))).
    cbn. rewrite H1, H2, H3. cbn.
    pose proof (hex_bytes mac) as Hb. unfold bytes_all in Hb. rewrite forallb_forall in *. auto. }
  split_and!; [| |done].
  - unfold sign, byte_len. fold mac.
    change ("v1=" +:+ hex_encode mac) with (String "v" (String "1" (String "=" (hex_encode mac)))).
    cbn [String.length]. assert (String.length (hex_encode mac) = 64%nat)
      by (rewrite hex_length; unfold mac; by rewrite hmac_length).
    unfold MAX_SIGNATURE_HEADER. lia.
  - exists (sign secret timestamp body). unfold sign. fold mac. rewrite split_on_none.
    + split; [by left|]. exists (hex_encode mac). rewrite trim_graphic.
      * split; [done|]. apply hex_round_trip.
      * apply Hhex; [|done..]. intros c Hc. by apply hex_byte_visible.
    + apply Hhex; [|done..]. intros c Hc. by apply hex_byte_visible.
Qed.
End round_trip.
