(* ===== verification/BudgetStore.v ===== *)
(** * Budgets: reservations and period totals

    [crates/application/src/budget/store.rs]: the reservations of runs, the totals of every tenant
    and function in a period, and the alerts that fired. A transaction is a function of the database
    whose error leaves it as it was; the handle of a process runs one at a time. What SQLite does
    with an access is an argument. Instants are stored as texts of one width, which compare as the
    instants do. A sum that fits a 64-bit column is exact, in SQLite as here. One that does not becomes a
    float there and loses its last digits, which the model does not follow: it keeps the exact sum, and
    reading it fails as the source's read does. The theorems that compare totals with reservations are
    about histories in which no column ever outgrew 64 bits ([BudgetProps.in_range]). *)

From S2P Require Import Prelude Sums Ids UsageJournal BudgetConf.

Open Scope string_scope.
Open Scope Z_scope.

(** [crates/application/src/budget/store.rs:89-90 TENANT_SCOPE] *)
Definition TENANT_SCOPE : string := "".

(** [crates/application/src/budget/store.rs:102-104 to_i64] *)
Definition to_i64 (v : Z) : Z := Z.min v i64_max.

(** ** Rows *)

Module ReservationState.
(** [crates/application/src/budget/store.rs:106-114 ReservationState] *)
Inductive t : Type := Reserved | Settled | Released | Expired.
#[global] Instance eq_dec : EqDecision t.
Proof. solve_decision. Defined.

(** [crates/application/src/budget/store.rs:117-124 as_str] *)
Definition as_str (s : t) : string :=
  match s with
  | Reserved => "reserved"
  | Settled => "settled"
  | Released => "released"
  | Expired => "expired"
  end.

(** [crates/application/src/budget/store.rs:126-133 parse] *)
Definition parse (raw : string) : t :=
  if raw == "settled" then Settled
  else if raw == "released" then Released
  else if raw == "expired" then Expired
  else Reserved.
End ReservationState.

Module BudgetScope.
(** [crates/application/src/budget/store.rs:136-142 BudgetScope] *)
Inductive t : Type := Tenant | Function_.
#[global] Instance eq_dec : EqDecision t.
Proof. solve_decision. Defined.

(** [crates/application/src/budget/store.rs:145-150 as_str] *)
Definition as_str (s : t) : string := match s with Tenant => "tenant" | Function_ => "function" end.
End BudgetScope.

(** [crates/application/src/budget/store.rs:153-161 LimitRefusal] *)
Record LimitRefusal := mkLimitRefusal {
  lr_scope : BudgetScope.t;
  lr_hard_limit_micros : Z;
  lr_committed_micros : Z;
  lr_requested_micros : Z
}.

(** [crates/application/src/budget/store.rs:163-177 NewReservation] *)
Record NewReservation := mkNewReservation {
  nr_reservation_id : string;
  nr_tenant_id : string;
  nr_function_id : string;
  nr_invocation_id : string;
  nr_period : string;
  nr_amount_micros : Z;
  nr_expires_at : Timestamp;
  nr_price_table_version : string;
  nr_config_generation : Z;
  nr_tenant_limit : option Z;
  nr_function_limit : option Z
}.

Module ReserveOutcome.
(** [crates/application/src/budget/store.rs:179-185 ReserveOutcome] *)
Inductive t : Type :=
| Reserved
| Exists (s : ReservationState.t)
| Refused (r : LimitRefusal).
End ReserveOutcome.

(** [crates/application/src/budget/store.rs:187-195 Settlement] *)
Record Settlement := mkSettlement { se_measured_micros : Z; se_complete : bool }.

(** [crates/application/src/budget/store.rs:207-218 AlertFired] *)
Record AlertFired := mkAlertFired {
  af_tenant_id : string;
  af_scope : string;
  af_period : string;
  af_threshold_percent : Z;
  af_soft_limit_micros : Z;
  af_consumed_micros : Z;
  af_fired_at : Timestamp
}.

(** [crates/application/src/budget/store.rs:197-205 Transition] *)
Record Transition := mkTransition {
  tn_state : ReservationState.t;
  tn_changed : bool;
  tn_alerts : list AlertFired
}.

(** [crates/application/src/budget/store.rs:220-225 AlertLimits] *)
Record AlertLimits := mkAlertLimits {
  al_tenant : option BudgetLimits;
  al_function : option BudgetLimits
}.
Definition no_alert_limits : AlertLimits := mkAlertLimits None None.

(** [crates/application/src/budget/store.rs:227-246 ReservationRow] *)
Record ReservationRow := mkReservationRow {
  rr_reservation_id : string;
  rr_tenant_id : string;
  rr_function_id : string;
  rr_invocation_id : string;
  rr_period : string;
  rr_state : ReservationState.t;
  rr_reserved_micros : Z;
  rr_settled_micros : Z;
  rr_held_micros : Z;
  rr_overrun_micros : Z;
  rr_created_at : Timestamp;
  rr_expires_at : Timestamp;
  rr_finished_at : option Timestamp;
  rr_finished_complete : option bool;
  rr_attempts : list string;
  rr_journal_mark : option Z
}.
#[global] Instance ReservationRow_eta : Eta ReservationRow := λ r,
  mkReservationRow (rr_reservation_id r) (rr_tenant_id r) (rr_function_id r) (rr_invocation_id r)
    (rr_period r) (rr_state r) (rr_reserved_micros r) (rr_settled_micros r) (rr_held_micros r)
    (rr_overrun_micros r) (rr_created_at r) (rr_expires_at r) (rr_finished_at r)
    (rr_finished_complete r) (rr_attempts r) (rr_journal_mark r).

(** [crates/application/src/budget/store.rs:35-56 function_budget_reservations] The columns
    [read_row] reads, those it does not, and the row's number in the table. *)
Record BudgetReservation := mkBudgetReservation {
  bv_row : ReservationRow;
  bv_price_table_version : string;
  bv_config_generation : Z;
  bv_closed_at : option Timestamp;
  bv_close_reason : option string;
  bv_rowid : nat
}.
#[global] Instance BudgetReservation_eta : Eta BudgetReservation := λ r,
  mkBudgetReservation (bv_row r) (bv_price_table_version r) (bv_config_generation r) (bv_closed_at r)
    (bv_close_reason r) (bv_rowid r).

(** [crates/application/src/budget/store.rs:248-264 ScopeTotals] *)
Record ScopeTotals := mkScopeTotals {
  to_tenant_id : string;
  to_scope : string;
  to_period : string;
  to_reserved_micros : Z;
  to_settled_micros : Z;
  to_held_micros : Z;
  to_overrun_micros : Z;
  to_active : Z;
  to_reservations : Z;
  to_settlements : Z;
  to_releases : Z;
  to_expiries : Z;
  to_refusals : Z
}.

Module Totals.
(** [crates/application/src/budget/store.rs:267-272 committed] *)
Definition committed (t : ScopeTotals) : Z :=
  u64_saturating_add (u64_saturating_add (to_reserved_micros t) (to_settled_micros t)) (to_held_micros t).

(** [crates/application/src/budget/store.rs:274-278 consumed] *)
Definition consumed (t : ScopeTotals) : Z :=
  u64_saturating_add (to_settled_micros t) (to_held_micros t).
End Totals.

(** [crates/application/src/budget/store.rs:281-288 StoreStats] *)
Record StoreStats := mkStoreStats {
  ss_active_reservations : Z;
  ss_finished_unsettled : Z;
  ss_oldest_finished_unsettled_at : option Timestamp
}.

(** [crates/application/src/budget/store.rs:34-56 SCHEMA] The three tables. *)
Record BudgetDb := mkBudgetDb {
  bd_rows : gmap string BudgetReservation;
  bd_totals : gmap (string * string * string) ScopeTotals;
  bd_alerts : gmap (string * string * string * Z) AlertFired
}.
#[global] Instance BudgetDb_eta : Eta BudgetDb := λ d,
  mkBudgetDb (bd_rows d) (bd_totals d) (bd_alerts d).
Definition empty_budget_db : BudgetDb := mkBudgetDb ∅ ∅ ∅.

(** A transaction: its error rolls back. *)
Definition btx (A : Type) : Type := BudgetDb → result string (A * BudgetDb).

(** ** Inside a transaction *)

(** A transaction that only reads. *)
Definition reading {A} (f : BudgetDb → result string A) : btx A := λ db, a ← f db; Ok (a, db).

(** What every column of a totals row starts at. *)
Definition no_totals (tenant scope period : string) : ScopeTotals :=
  mkScopeTotals tenant scope period 0 0 0 0 0 0 0 0 0 0.

Definition stored_totals (tenant scope period : string) (db : BudgetDb) : ScopeTotals :=
  default (no_totals tenant scope period) (bd_totals db !! (tenant, scope, period)).

(** The columns a read converts, with their names. *)
Definition totals_columns (t : ScopeTotals) : list (string * Z) :=
  [("reserved_micros", to_reserved_micros t); ("settled_micros", to_settled_micros t);
   ("held_micros", to_held_micros t); ("overrun_micros", to_overrun_micros t); ("active", to_active t);
   ("reservations", to_reservations t); ("settlements", to_settlements t); ("releases", to_releases t);
   ("expiries", to_expiries t); ("refusals", to_refusals t)].

(** [crates/application/src/budget/store.rs:343-381 totals_row] *)
Definition totals_row (tenant scope period : string) (db : BudgetDb) : result string ScopeTotals :=
  let t := stored_totals tenant scope period db in
  match List.find (λ c, i64_max <? c.2) (totals_columns t) with
  | Some c => Err ("Invalid column type Real, name: " +:+ c.1)
  | None => Ok t
  end.

(** [crates/application/src/budget/store.rs:383-396 Delta] *)
Record Delta := mkDelta {
  dl_reserved : Z;
  dl_settled : Z;
  dl_held : Z;
  dl_overrun : Z;
  dl_active : Z;
  dl_reservations : Z;
  dl_settlements : Z;
  dl_releases : Z;
  dl_expiries : Z;
  dl_refusals : Z
}.

(** [crates/application/src/budget/store.rs:411-418 apply_delta (part)] What the update sets. *)
Definition moved (d : Delta) (t : ScopeTotals) : ScopeTotals :=
  mkScopeTotals (to_tenant_id t) (to_scope t) (to_period t)
    (to_reserved_micros t + dl_reserved d) (to_settled_micros t + dl_settled d)
    (to_held_micros t + dl_held d) (to_overrun_micros t + dl_overrun d) (to_active t + dl_active d)
    (to_reservations t + dl_reservations d) (to_settlements t + dl_settlements d)
    (to_releases t + dl_releases d) (to_expiries t + dl_expiries d) (to_refusals t + dl_refusals d).

(** [crates/application/src/budget/store.rs:65-69 function_budget_totals] The constraints of the
    table, with the text of the one a row breaks. *)
Definition check_totals (t : ScopeTotals) : option string :=
  match List.find (λ c, c.2 <? 0) (take 5 (totals_columns t)) with
  | Some c => Some ("CHECK constraint failed: " +:+ c.1 +:+ " >= 0")
  | None => None
  end.

(** [crates/application/src/budget/store.rs:398-436 apply_delta] SQLite's sum, while it fits the column. *)
Definition apply_delta (tenant scope period : string) (d : Delta) (db : BudgetDb) : result string BudgetDb :=
  let t := moved d (stored_totals tenant scope period db) in
  match check_totals t with
  | Some e => Err e
  | None => Ok (db <| bd_totals ::= λ m, <[(tenant, scope, period) := t]> m |>)
  end.

(** [crates/application/src/budget/store.rs:456-487 fire_alerts (part)] The loop over the
    thresholds: one that was crossed is recorded unless it already was. *)
Fixpoint fire_thresholds (tenant scope period : string) (soft consumed : Z) (ps : list Z) (now : Timestamp)
    (db : BudgetDb) : list AlertFired * BudgetDb :=
  match ps with
  | [] => ([], db)
  | p :: ps =>
      when! consumed * 100 <? soft * p return! fire_thresholds tenant scope period soft consumed ps now db;;
      match bd_alerts db !! (tenant, scope, period, p) with
      | Some _ => fire_thresholds tenant scope period soft consumed ps now db
      | None =>
          let stored := mkAlertFired tenant scope period p (to_i64 soft) (to_i64 consumed) now in
          let db := db <| bd_alerts ::= λ m, <[(tenant, scope, period, p) := stored]> m |> in
          let '(fired, db) := fire_thresholds tenant scope period soft consumed ps now db in
          (mkAlertFired tenant scope period p soft consumed now :: fired, db)
      end
  end.

(** [crates/application/src/budget/store.rs:438-489 fire_alerts] *)
Definition fire_alerts (tenant scope period : string) (limits : option BudgetLimits) (now : Timestamp)
    : btx (list AlertFired) := λ db,
  match limits with
  | None => Ok ([], db)
  | Some limits =>
      match bl_soft_limit_micros limits with
      | None => Ok ([], db)
      | Some soft =>
          when! bl_alert_thresholds_percent limits == [] return! Ok ([], db);;
          t ← totals_row tenant scope period db;
          Ok (fire_thresholds tenant scope period soft (Totals.consumed t)
                (bl_alert_thresholds_percent limits) now db)
      end
  end.

(** [crates/application/src/budget/store.rs:522-531 get_row] *)
Definition get_row (id : string) (db : BudgetDb) : option ReservationRow := bv_row <$> bd_rows db !! id.

(** ** Reserving *)

(** [crates/application/src/budget/store.rs:637-640 reserve (part)] *)
Definition refusal_delta : Delta := mkDelta 0 0 0 0 0 0 0 0 0 1.

(** [crates/application/src/budget/store.rs:630-636 reserve (part)] The first of two limits that a committed
    amount and what is asked for exceed. *)
Definition over_limit (asked : Z) (tenant function : ScopeTotals) (tenant_limit function_limit : option Z)
    : option (BudgetScope.t * ScopeTotals * Z) :=
  List.find (λ s, s.2 <? u64_saturating_add (Totals.committed s.1.2) asked)
    (omap (λ s, (λ l, (s.1, l)) <$> s.2)
       [((BudgetScope.Tenant, tenant), tenant_limit); ((BudgetScope.Function_, function), function_limit)]).

(** [crates/application/src/budget/store.rs:651-668 reserve (part)] The row that is inserted. *)
Definition reserved_row (r : NewReservation) (now : Timestamp) (rowid : nat) : BudgetReservation :=
  mkBudgetReservation
    (mkReservationRow (nr_reservation_id r) (nr_tenant_id r) (nr_function_id r) (nr_invocation_id r)
       (nr_period r) ReservationState.Reserved (to_i64 (nr_amount_micros r)) 0 0 0 now (nr_expires_at r)
       None None [] None)
    (nr_price_table_version r) (to_i64 (nr_config_generation r)) None None rowid.

(** [crates/application/src/budget/store.rs:621-679 reserve] *)
Definition reserve_tx (r : NewReservation) (now : Timestamp) : btx ReserveOutcome.t := λ db,
  match get_row (nr_reservation_id r) db with
  | Some existing => Ok (ReserveOutcome.Exists (rr_state existing), db)
  | None =>
      tenant ← totals_row (nr_tenant_id r) TENANT_SCOPE (nr_period r) db;
      function ← totals_row (nr_tenant_id r) (nr_function_id r) (nr_period r) db;
      let both d db :=
        db ← apply_delta (nr_tenant_id r) TENANT_SCOPE (nr_period r) d db;
        apply_delta (nr_tenant_id r) (nr_function_id r) (nr_period r) d db in
      match over_limit (nr_amount_micros r) tenant function (nr_tenant_limit r) (nr_function_limit r) with
      | Some (scope, totals, limit) =>
          db ← both refusal_delta db;
          Ok (ReserveOutcome.Refused
                (mkLimitRefusal scope limit (Totals.committed totals) (nr_amount_micros r)), db)
      | None =>
          let row := reserved_row r now (S (size (bd_rows db))) in
          let db := db <| bd_rows ::= λ m, <[nr_reservation_id r := row]> m |> in
          db ← both (mkDelta (to_i64 (nr_amount_micros r)) 0 0 0 1 1 0 0 0 0) db;
          Ok (ReserveOutcome.Reserved, db)
      end
  end.

(** [crates/application/src/budget/store.rs:681-716 recheck] *)
Definition recheck_tx (id : string) (tenant_limit function_limit : option Z)
    : btx (result LimitRefusal ReservationState.t) :=
  reading (λ db,
    match get_row id db with
    | None => Ok (Ok ReservationState.Released)
    | Some row =>
        when! negb (rr_state row == ReservationState.Reserved) return! Ok (Ok (rr_state row));;
        tenant ← totals_row (rr_tenant_id row) TENANT_SCOPE (rr_period row) db;
        function ← totals_row (rr_tenant_id row) (rr_function_id row) (rr_period row) db;
        Ok (match over_limit 0 tenant function tenant_limit function_limit with
            | Some (scope, totals, limit) =>
                Err (mkLimitRefusal scope limit
                       (u64_saturating_sub (Totals.committed totals) (rr_reserved_micros row))
                       (rr_reserved_micros row))
            | None => Ok ReservationState.Reserved
            end)
    end).

(** ** The end of a run *)

(** [crates/application/src/budget/store.rs:718-744 finish] *)
Definition finish_tx (id : string) (attempts : list string) (complete : bool) (mark : option Z)
    (now : Timestamp) : btx bool := λ db,
  match bd_rows db !! id with
  | Some v =>
      let row := bv_row v in
      when! negb ((rr_state row == ReservationState.Reserved) && is_none (rr_finished_at row)) return!
        Ok (false, db);;
      let v := v <| bv_row := row <| rr_finished_at := Some now |> <| rr_finished_complete := Some complete |>
                                  <| rr_attempts := attempts |> <| rr_journal_mark := to_i64 <$> mark |> |> in
      Ok (true, db <| bd_rows ::= λ m, <[id := v]> m |>)
  | None => Ok (false, db)
  end.

(** What a transition makes of a reservation: its state, what is settled, what is held and why. *)
Definition plan : Type := ReservationState.t * Z * Z * string.

(** [crates/application/src/budget/store.rs:775-789 transition (part)] The row after the update. *)
Definition closed_row (p : plan) (now : Timestamp) (v : BudgetReservation) : BudgetReservation :=
  let '(to, settled, held, reason) := p in
  let row := bv_row v in
  let overrun := u64_saturating_sub settled (rr_reserved_micros row) in
  v <| bv_row := row <| rr_state := to |> <| rr_settled_micros := to_i64 settled |>
                     <| rr_held_micros := to_i64 held |> <| rr_overrun_micros := to_i64 overrun |> |>
    <| bv_closed_at := Some now |> <| bv_close_reason := Some reason |>.

Definition one_if (b : bool) : Z := if b then 1 else 0.

(** [crates/application/src/budget/store.rs:797-807 transition (part)] *)
Definition closing_delta (p : plan) (row : ReservationRow) : Delta :=
  let '(to, settled, held, _) := p in
  let overrun := u64_saturating_sub settled (rr_reserved_micros row) in
  mkDelta (- to_i64 (rr_reserved_micros row)) (to_i64 settled) (to_i64 held) (to_i64 overrun) (-1) 0
    (one_if (to == ReservationState.Settled)) (one_if (to == ReservationState.Released))
    (one_if (to == ReservationState.Expired)) 0.

(** [crates/application/src/budget/store.rs:746-832 transition] *)
Definition transition_tx (id : string) (now : Timestamp) (alerts : AlertLimits)
    (plan_of : ReservationRow → option plan) : btx Transition := λ db,
  match bd_rows db !! id with
  | None => Ok (mkTransition ReservationState.Released false [], db)
  | Some v =>
      let row := bv_row v in
      when! negb (rr_state row == ReservationState.Reserved) return!
        Ok (mkTransition (rr_state row) false [], db);;
      match plan_of row with
      | None => Ok (mkTransition (rr_state row) false [], db)
      | Some p =>
          let db := db <| bd_rows ::= λ m, <[id := closed_row p now v]> m |> in
          let d := closing_delta p row in
          db ← apply_delta (rr_tenant_id row) TENANT_SCOPE (rr_period row) d db;
          db ← apply_delta (rr_tenant_id row) (rr_function_id row) (rr_period row) d db;
          '(fired, db) ← fire_alerts (rr_tenant_id row) TENANT_SCOPE (rr_period row) (al_tenant alerts) now db;
          '(more, db) ← fire_alerts (rr_tenant_id row) (rr_function_id row) (rr_period row)
                          (al_function alerts) now db;
          Ok (mkTransition p.1.1.1 true (fired ++ more)%list, db)
      end
  end.

(** [crates/application/src/budget/store.rs:845-859 settle (part)] *)
Definition settle_plan (s : Settlement) (row : ReservationRow) : option plan :=
  let held := if se_complete s then 0
              else u64_saturating_sub (rr_reserved_micros row) (se_measured_micros s) in
  Some (ReservationState.Settled, se_measured_micros s, held,
        if se_complete s then "settled" else "settled_incomplete").

(** [crates/application/src/budget/store.rs:834-861 settle] *)
Definition settle_tx (id : string) (s : Settlement) (now : Timestamp) (alerts : AlertLimits) : btx Transition :=
  transition_tx id now alerts (settle_plan s).

(** [crates/application/src/budget/store.rs:867-869 release (part)] *)
Definition release_plan (row : ReservationRow) : option plan :=
  if is_none (rr_finished_at row) then Some (ReservationState.Released, 0, 0, "released") else None.

(** [crates/application/src/budget/store.rs:863-871 release] *)
Definition release_tx (id : string) (now : Timestamp) : btx Transition :=
  transition_tx id now no_alert_limits release_plan.

(** [crates/application/src/budget/store.rs:882-887 expire (part)] *)
Definition expire_plan (now : Timestamp) (row : ReservationRow) : option plan :=
  if is_none (rr_finished_at row) && (rr_expires_at row <=? now)
  then Some (ReservationState.Expired, 0, rr_reserved_micros row, "expired") else None.

(** [crates/application/src/budget/store.rs:873-889 expire] *)
Definition expire_tx (id : string) (now : Timestamp) (alerts : AlertLimits) : btx Transition :=
  transition_tx id now alerts (expire_plan now).

(** ** Reading *)

(** [crates/application/src/budget/store.rs:891-893 get] *)
Definition get_tx (id : string) : btx (option ReservationRow) := reading (λ db, Ok (get_row id db)).

(** [ORDER BY] a time: rows of one time in the order they were inserted in. *)
Definition row_before (key : ReservationRow → Timestamp) (a b : BudgetReservation) : bool :=
  let x := key (bv_row a) in
  let y := key (bv_row b) in
  (x <? y) || ((x =? y) && (bv_rowid a <=? bv_rowid b)%nat).

(** [crates/application/src/budget/store.rs:895-909 rows] *)
Definition rows_where (p : ReservationRow → bool) (key : ReservationRow → Timestamp) (db : BudgetDb)
    : list ReservationRow :=
  bv_row <$> sort_by (row_before key) (filter_values (λ v, p (bv_row v)) (bd_rows db)).

Definition waits_for_settlement (row : ReservationRow) : bool :=
  (rr_state row == ReservationState.Reserved) && is_some (rr_finished_at row).

(** [crates/application/src/budget/store.rs:911-917 finished_unsettled] *)
Definition finished_unsettled_tx (limit : nat) : btx (list ReservationRow) :=
  reading (λ db, Ok (take limit
    (rows_where waits_for_settlement (λ r, unwrap_or (rr_finished_at r) 0) db))).

Definition is_due (now : Timestamp) (row : ReservationRow) : bool :=
  (rr_state row == ReservationState.Reserved) && is_none (rr_finished_at row) && (rr_expires_at row <=? now).

(** [crates/application/src/budget/store.rs:919-929 due_for_expiry] *)
Definition due_for_expiry_tx (now : Timestamp) (limit : nat) : btx (list ReservationRow) :=
  reading (λ db, Ok (take limit (rows_where (is_due now) rr_expires_at db))).

(** [crates/application/src/budget/store.rs:931-941 reservations_of] *)
Definition reservations_of_tx (tenant period : string) : btx (list ReservationRow) :=
  reading (λ db, Ok (rows_where (λ r, (rr_tenant_id r == tenant) && (rr_period r == period)) rr_created_at db)).

(** A list of reads, all of which must succeed. *)
Fixpoint each {A B} (f : A → result string B) (l : list A) : result string (list B) :=
  match l with
  | [] => Ok []
  | a :: l => b ← f a; bs ← each f l; Ok (b :: bs)
  end.

(** The rows of a table, in the order the map lists them: what is read here is sorted by the rest of
    the key, or does not depend on the order. *)
Definition table_rows {K A} `{Countable K} (m : gmap K A) : list A := (map_to_list m).*2.

(** The scopes or tenants of the totals rows a query selects, in order. *)
Definition totals_keys (key : ScopeTotals → string) (p : ScopeTotals → bool) (db : BudgetDb) : list string :=
  merge_sort string_le (key <$> List.filter p (table_rows (bd_totals db))).

(** [crates/application/src/budget/store.rs:943-963 totals] *)
Definition totals_tx (tenant period : string) : btx (list ScopeTotals) :=
  reading (λ db,
    let scopes := totals_keys to_scope (λ t, (to_tenant_id t == tenant) && (to_period t == period)) db in
    let scopes := if bool_decide (TENANT_SCOPE ∈ scopes) then scopes else TENANT_SCOPE :: scopes in
    each (λ s, totals_row tenant s period db) scopes).

(** [crates/application/src/budget/store.rs:965-981 tenant_totals] *)
Definition tenant_totals_tx (period : string) : btx (list ScopeTotals) :=
  reading (λ db,
    each (λ t, totals_row t TENANT_SCOPE period db)
      (totals_keys to_tenant_id (λ t, (to_scope t == TENANT_SCOPE) && (to_period t == period)) db)).

(** [crates/application/src/budget/store.rs:986-987 alerts (part)] [ORDER BY scope, threshold_percent]. *)
Definition alert_before (a b : AlertFired) : bool :=
  if af_scope a == af_scope b then af_threshold_percent a <=? af_threshold_percent b
  else bool_decide (string_le (af_scope a) (af_scope b)).

(** [crates/application/src/budget/store.rs:983-1005 alerts] *)
Definition alerts_tx (tenant period : string) : btx (list AlertFired) :=
  reading (λ db, Ok (sort_by alert_before
    (List.filter (λ a, (af_tenant_id a == tenant) && (af_period a == period)) (table_rows (bd_alerts db))))).

(** [SELECT MIN(…)] *)
Definition minimum (l : list Z) : option Z :=
  foldr (λ x o, Some (match o with Some y => Z.min x y | None => x end)) None l.

(** [crates/application/src/budget/store.rs:1007-1026 stats] *)
Definition stats_tx : btx StoreStats :=
  reading (λ db,
    let active := filter_values (λ v, rr_state (bv_row v) == ReservationState.Reserved) (bd_rows db) in
    let waiting := filter_values (λ v, waits_for_settlement (bv_row v)) (bd_rows db) in
    Ok (mkStoreStats (Z.of_nat (length active)) (Z.of_nat (length waiting))
          (minimum (omap (λ v, rr_finished_at (bv_row v)) waiting)))).

(** [crates/application/src/budget/store.rs:1045-1046 verify_totals (part)] The rows a totals row is
    about. *)
Definition counts_in (tenant scope period : string) (row : ReservationRow) : bool :=
  (rr_tenant_id row == tenant) && (rr_period row == period)
  && ((scope == TENANT_SCOPE) || (rr_function_id row == scope)).

(** [SUM(…)] over the rows of a scope; SQLite reports a sum that does not fit. *)
Definition sum_in (tenant scope period : string) (w : ReservationRow → Z) (db : BudgetDb) : Z :=
  total (λ v, if counts_in tenant scope period (bv_row v) then w (bv_row v) else 0) (bd_rows db).
Definition sql_sum (n : Z) : result string Z := if i64_max <? n then Err "integer overflow" else Ok n.

Definition while_reserved (w : ReservationRow → Z) (row : ReservationRow) : Z :=
  if rr_state row == ReservationState.Reserved then w row else 0.

Definition show_debug (l : list Z) : string := "[" +:+ String.concat ", " (pretty <$> l) +:+ "]".

(** [crates/application/src/budget/store.rs:1050-1063 verify_totals (part)] One totals row: what it
    stores and what the reservations sum to, when the two differ. *)
Definition totals_mismatch (db : BudgetDb) (t : ScopeTotals) : result string (option string) :=
  let '(tenant, scope, period) := (to_tenant_id t, to_scope t, to_period t) in
  let got := [to_reserved_micros t; to_settled_micros t; to_held_micros t; to_active t] in
  when! existsb (λ n, i64_max <? n) got return! Err "Invalid column type Real";;
  reserved ← sql_sum (sum_in tenant scope period (while_reserved rr_reserved_micros) db);
  settled ← sql_sum (sum_in tenant scope period rr_settled_micros db);
  held ← sql_sum (sum_in tenant scope period rr_held_micros db);
  let active := sum_in tenant scope period (while_reserved (λ _, 1)) db in
  let want := [reserved; settled; held; active] in
  Ok (if got == want then None
      else Some ("totals " +:+ tenant +:+ "/" +:+ scope +:+ "/" +:+ period +:+ ": stored " +:+ show_debug got
                 +:+ " (reserved, settled, held, active) != rows " +:+ show_debug want)).

(** [crates/application/src/budget/store.rs:1028-1076 verify_totals] SQLite gives no order for
    the scan; which mismatch is named first depends on it. *)
Definition verify_totals_tx : btx (option string) :=
  reading (λ db,
    found ← each (totals_mismatch db) (table_rows (bd_totals db));
    Ok (head (omap id found))).

(** ** The handle of a process *)

(** [crates/application/src/budget/store.rs:296-305 BudgetStore] [bs_open] is whether it holds a
    connection. *)
Record BudgetStore := mkBudgetStore {
  bs_path : option string;
  bs_open : bool;
  bs_last_error : option string;
  bs_forced_unavailable : bool
}.
#[global] Instance BudgetStore_eta : Eta BudgetStore := λ r,
  mkBudgetStore (bs_path r) (bs_open r) (bs_last_error r) (bs_forced_unavailable r).

(** What SQLite does in one access: [opens] if the connection has to be opened first, then the
    transaction. *)
Record StoreAccess := mkStoreAccess { sa_opens : result string unit; sa_tx : DbAccess }.
Definition store_works : StoreAccess := mkStoreAccess (Ok tt) Works.

Module Stores.

(** [crates/application/src/budget/store.rs:534-550 open] *)
Definition open (path : option string) (opens : result string unit) : BudgetStore :=
  match opens with
  | Ok _ => mkBudgetStore path true None false
  | Err e => mkBudgetStore path false (Some e) false
  end.

(** [crates/application/src/budget/store.rs:556-560 force_unavailable] *)
Definition force_unavailable (unavailable : bool) (s : BudgetStore) : BudgetStore :=
  s <| bs_forced_unavailable := unavailable |>.

(** [crates/application/src/budget/store.rs:566-619 with_tx] A database in memory is gone with its
    connection. *)
Definition with_tx {A} (w : StoreAccess) (f : btx A) (s : BudgetStore) (db : BudgetDb)
    : result string A * BudgetStore * BudgetDb :=
  when! bs_forced_unavailable s return! (Err "budget store is unavailable (forced)", s, db);;
  match sa_tx w with
  | Stuck => let msg := busy_message "budget store" in (Err msg, s <| bs_last_error := Some msg |>, db)
  | tx =>
      let reopened := if bs_open s then Ok (s, db)
        else match sa_opens w with
             | Ok _ => Ok (s <| bs_open := true |> <| bs_last_error := None |>,
                           if is_none (bs_path s) then empty_budget_db else db)
             | Err e => Err e
             end in
      match reopened with
      | Err e => (Err e, s <| bs_last_error := Some e |>, db)
      | Ok (s, db) =>
          match tx with
          | Breaks msg closes =>
              (Err msg, s <| bs_open ::= λ o, if closes then false else o |> <| bs_last_error := Some msg |>, db)
          | _ =>
              match f db with
              | Ok (a, db') => (Ok a, s <| bs_last_error := None |>, db')
              | Err msg => (Err msg, s <| bs_last_error := Some msg |>, db)
              end
          end
      end
  end.

(** [crates/application/src/budget/store.rs:1028-1076 verify_totals] *)
Definition verify_totals (w : StoreAccess) (s : BudgetStore) (db : BudgetDb)
    : result string unit * BudgetStore * BudgetDb :=
  let '(r, s, db) := with_tx w verify_totals_tx s db in
  (match r with
   | Ok None => Ok tt
   | Ok (Some m) => Err m
   | Err e => Err e
   end, s, db).
End Stores.
