(* ===== verification/BudgetInv.v ===== *)
(** * Budgets: what every transaction keeps

    The transactions of [BudgetStore] as commands, the invariant that ties the totals to the
    reservations, and the databases a run of commands reaches, whichever process issued them. *)

From S2P Require Import Prelude Sums Ids UsageJournal BudgetConf BudgetStore.

Open Scope string_scope.
Open Scope Z_scope.

(** ** Commands *)

Inductive bcmd : Type :=
| BReserve (r : NewReservation) (now : Timestamp)
| BFinish (id : string) (attempts : list string) (complete : bool) (mark : option Z) (now : Timestamp)
| BSettle (id : string) (s : Settlement) (now : Timestamp) (alerts : AlertLimits)
| BRelease (id : string) (now : Timestamp)
| BExpire (id : string) (now : Timestamp) (alerts : AlertLimits).

(** The database after a transaction: unchanged when it failed. *)
Definition after_tx {A} (t : btx A) (db : BudgetDb) : BudgetDb :=
  match t db with Ok (_, db') => db' | Err _ => db end.

Definition run_bcmd (db : BudgetDb) (c : bcmd) : BudgetDb :=
  match c with
  | BReserve r now => after_tx (reserve_tx r now) db
  | BFinish id attempts complete mark now => after_tx (finish_tx id attempts complete mark now) db
  | BSettle id s now alerts => after_tx (settle_tx id s now alerts) db
  | BRelease id now => after_tx (release_tx id now) db
  | BExpire id now alerts => after_tx (expire_tx id now alerts) db
  end.

Definition run_bcmds (cs : list bcmd) : BudgetDb := foldl run_bcmd empty_budget_db cs.

(** What the callers pass: amounts are unsigned, and a function has an id. *)
Definition bcmd_ok (c : bcmd) : Prop :=
  match c with
  | BReserve r _ => u64_range (nr_amount_micros r) ∧ nr_function_id r ≠ TENANT_SCOPE
  | BSettle _ s _ _ => u64_range (se_measured_micros s)
  | _ => True
  end.

(** ** The invariant *)

(** What the state of a reservation says of its amounts. *)
Definition amounts_ok (row : ReservationRow) : Prop :=
  0 ≤ rr_reserved_micros row ≤ i64_max ∧ 0 ≤ rr_settled_micros row ≤ i64_max ∧
  0 ≤ rr_held_micros row ≤ i64_max ∧ 0 ≤ rr_overrun_micros row ≤ i64_max ∧
  match rr_state row with
  | ReservationState.Reserved | ReservationState.Released =>
      rr_settled_micros row = 0 ∧ rr_held_micros row = 0 ∧ rr_overrun_micros row = 0
  | ReservationState.Expired =>
      rr_settled_micros row = 0 ∧ rr_held_micros row = rr_reserved_micros row ∧ rr_overrun_micros row = 0
  | ReservationState.Settled =>
      rr_settled_micros row + rr_held_micros row ≤ rr_reserved_micros row + rr_overrun_micros row
  end.

Definition row_ok (id : string) (v : BudgetReservation) : Prop :=
  rr_reservation_id (bv_row v) = id ∧ rr_function_id (bv_row v) ≠ TENANT_SCOPE ∧ amounts_ok (bv_row v).

Definition in_state (s : ReservationState.t) (row : ReservationRow) : Z := one_if (rr_state row == s).

(** The totals of a scope as the sums over its reservations; refusals are only counted. *)
Definition totals_exact (db : BudgetDb) (tenant scope period : string) : Prop :=
  let t := stored_totals tenant scope period db in
  let sum w := sum_in tenant scope period w db in
  to_tenant_id t = tenant ∧ to_scope t = scope ∧ to_period t = period ∧
  to_reserved_micros t = sum (while_reserved rr_reserved_micros) ∧
  to_settled_micros t = sum rr_settled_micros ∧
  to_held_micros t = sum rr_held_micros ∧
  to_overrun_micros t = sum rr_overrun_micros ∧
  to_active t = sum (in_state ReservationState.Reserved) ∧
  to_reservations t = sum (λ _, 1) ∧
  to_settlements t = sum (in_state ReservationState.Settled) ∧
  to_releases t = sum (in_state ReservationState.Released) ∧
  to_expiries t = sum (in_state ReservationState.Expired) ∧
  0 ≤ to_refusals t.

Record budget_wf (db : BudgetDb) : Prop := {
  bw_rows : ∀ id v, bd_rows db !! id = Some v → row_ok id v;
  bw_totals : ∀ tenant scope period, totals_exact db tenant scope period
}.

(** ** What the parts of a transaction change *)

Lemma reading_Ok {A} (f : BudgetDb → result string A) db a db' :
  reading f db = Ok (a, db') → f db = Ok a ∧ db' = db.
Proof. unfold reading. intros H. apply result_bind_Ok in H as (x & Hx & H). by injection H as -> ->. Qed.

(** A read totals row is the stored one, and fits. *)
Definition fits (t : ScopeTotals) : Prop := Forall (λ c, c.2 ≤ i64_max) (totals_columns t).

Lemma totals_row_Ok tenant scope period db t :
  totals_row tenant scope period db = Ok t → t = stored_totals tenant scope period db ∧ fits t.
Proof.
  unfold totals_row. destruct (List.find _ _) eqn:E; [done|]. intros [= <-]. split; [done|].
  apply Forall_forall. intros c Hc%list_elem_of_In. apply (List.find_none _ _ E) in Hc. cbv beta in Hc. by bools.
Qed.

Lemma totals_row_total tenant scope period db :
  fits (stored_totals tenant scope period db) →
  totals_row tenant scope period db = Ok (stored_totals tenant scope period db).
Proof.
  unfold totals_row, fits. rewrite Forall_forall. intros Hf. destruct (List.find _ _) as [c|] eqn:E; [|done].
  apply List.find_some in E as [Hin%list_elem_of_In Hc]. apply Hf in Hin. bools. lia.
Qed.

Definition nonneg (t : ScopeTotals) : Prop :=
  0 ≤ to_reserved_micros t ∧ 0 ≤ to_settled_micros t ∧ 0 ≤ to_held_micros t ∧ 0 ≤ to_overrun_micros t ∧
  0 ≤ to_active t.

Lemma check_totals_None t : check_totals t = None ↔ nonneg t.
Proof.
  unfold check_totals, nonneg, totals_columns. cbn.
  repeat match goal with |- context [if ?b then _ else _] => destruct b eqn:?; bools end; split; intros; try done; lia.
Qed.

Lemma stored_totals_insert t s p x t' s' p' db :
  stored_totals t' s' p' (db <| bd_totals ::= λ m, <[(t, s, p) := x]> m |>) =
  if bool_decide ((t', s', p') = (t, s, p)) then x else stored_totals t' s' p' db.
Proof.
  unfold stored_totals. cbn. case_bool_decide as E; [injection E as -> -> ->; by rewrite lookup_insert_eq|].
  by rewrite lookup_insert_ne.
Qed.

Lemma apply_delta_Ok tenant scope period d db db' :
  apply_delta tenant scope period d db = Ok db' →
  nonneg (moved d (stored_totals tenant scope period db)) ∧
  db' = db <| bd_totals ::= λ m, <[(tenant, scope, period) := moved d (stored_totals tenant scope period db)]> m |>.
Proof.
  unfold apply_delta. destruct (check_totals _) eqn:E; [done|]. intros [= <-]. by rewrite <-check_totals_None.
Qed.

(** The tenant and one of its functions move together. *)
Definition moves_scope (tenant function period : string) (t s p : string) : bool :=
  (t == tenant) && (p == period) && ((s == TENANT_SCOPE) || (s == function)).

Lemma both_deltas tenant function period d db db1 db' :
  function ≠ TENANT_SCOPE →
  apply_delta tenant TENANT_SCOPE period d db = Ok db1 → apply_delta tenant function period d db1 = Ok db' →
  bd_rows db' = bd_rows db ∧ bd_alerts db' = bd_alerts db ∧
  ∀ t s p, stored_totals t s p db' =
    (if moves_scope tenant function period t s p then moved d (stored_totals t s p db) else stored_totals t s p db) ∧
    (moves_scope tenant function period t s p = true → nonneg (stored_totals t s p db')).
Proof.
  intros Hf [H1 ->]%apply_delta_Ok [H2 ->]%apply_delta_Ok. split; [done|]. split; [done|]. intros t s p.
  rewrite !stored_totals_insert in *. unfold moves_scope. rewrite bool_decide_eq_false_2 in * by congruence.
  repeat (case_bool_decide; simplify_eq/=); try done; congruence.
Qed.

(** Alerts leave reservations and totals alone. *)
Lemma fire_thresholds_frame tenant scope period soft consumed ps now db fired db' :
  fire_thresholds tenant scope period soft consumed ps now db = (fired, db') →
  bd_rows db' = bd_rows db ∧ bd_totals db' = bd_totals db.
Proof.
  revert db fired db'. induction ps as [|p ps IH]; intros db fired db' H; cbn in H; [by injection H as <- <-|].
  destruct (_ <? _) in H; [by eauto|]. destruct (_ !! _) in H; [by eauto|].
  destruct (fire_thresholds _ _ _ _ _ ps _ _) as [l d] eqn:E. injection H as <- <-. apply IH in E as [-> ->]. done.
Qed.

Lemma fire_alerts_frame tenant scope period limits now db fired db' :
  fire_alerts tenant scope period limits now db = Ok (fired, db') →
  bd_rows db' = bd_rows db ∧ bd_totals db' = bd_totals db.
Proof.
  unfold fire_alerts. destruct limits as [l|]; [|by intros [= <- <-]].
  destruct (bl_soft_limit_micros l) as [soft|]; [|by intros [= <- <-]].
  destruct (bool_decide _); [by intros [= <- <-]|]. intros H.
  apply result_bind_Ok in H as (t & _ & H). injection H as H. by eapply fire_thresholds_frame.
Qed.

Lemma stored_totals_ext t s p db db' : bd_totals db' = bd_totals db → stored_totals t s p db' = stored_totals t s p db.
Proof. unfold stored_totals. by intros ->. Qed.

(** ** Sums *)

Definition weigh (o : option BudgetReservation) (w : ReservationRow → Z) : Z :=
  match o with Some v => w (bv_row v) | None => 0 end.

(** A reservation that is written keeps its tenant, function and period. *)
Lemma sum_in_write t s p w id v db :
  (∀ v0, bd_rows db !! id = Some v0 → counts_in t s p (bv_row v0) = counts_in t s p (bv_row v)) →
  sum_in t s p w (db <| bd_rows ::= λ m, <[id := v]> m |>) =
  sum_in t s p w db + (if counts_in t s p (bv_row v) then w (bv_row v) - weigh (bd_rows db !! id) w else 0).
Proof.
  intros Hkeep. unfold sum_in. cbn. destruct (bd_rows db !! id) as [v0|] eqn:E.
  - rewrite (total_replace _ _ _ v0) by done. rewrite (Hkeep v0 eq_refl). cbn.
    destruct (counts_in t s p (bv_row v)); lia.
  - rewrite total_insert by done. cbn. destruct (counts_in t s p (bv_row v)); lia.
Qed.

Lemma sum_in_rows t s p w db db' : bd_rows db' = bd_rows db → sum_in t s p w db' = sum_in t s p w db.
Proof. unfold sum_in. by intros ->. Qed.

Lemma sum_in_nonneg t s p w db :
  (∀ id v, bd_rows db !! id = Some v → 0 ≤ w (bv_row v)) → 0 ≤ sum_in t s p w db.
Proof. intros H. apply total_nonneg. intros k v Hk. specialize (H k v Hk). destruct (counts_in _ _ _ _); lia. Qed.

Lemma counts_moves t s p row :
  counts_in t s p row = moves_scope (rr_tenant_id row) (rr_function_id row) (rr_period row) t s p.
Proof.
  unfold counts_in, moves_scope. f_equal; [f_equal|f_equal]; apply bool_decide_ext; split; congruence.
Qed.

(** How much a delta moves each column. *)
Definition delta_moves (d : Delta) (δ : (ReservationRow → Z) → Z) : Prop :=
  dl_reserved d = δ (while_reserved rr_reserved_micros) ∧ dl_settled d = δ rr_settled_micros ∧
  dl_held d = δ rr_held_micros ∧ dl_overrun d = δ rr_overrun_micros ∧
  dl_active d = δ (in_state ReservationState.Reserved) ∧ dl_reservations d = δ (λ _, 1) ∧
  dl_settlements d = δ (in_state ReservationState.Settled) ∧
  dl_releases d = δ (in_state ReservationState.Released) ∧
  dl_expiries d = δ (in_state ReservationState.Expired) ∧ 0 ≤ dl_refusals d.

(** Totals that move by a delta stay the sums, when the sums move by the same. *)
Lemma totals_follow d δ (m : bool) db db' t s p :
  totals_exact db t s p → delta_moves d δ →
  stored_totals t s p db' = (if m then moved d (stored_totals t s p db) else stored_totals t s p db) →
  (∀ w, sum_in t s p w db' = sum_in t s p w db + (if m then δ w else 0)) →
  totals_exact db' t s p.
Proof.
  intros H (D1 & D2 & D3 & D4 & D5 & D6 & D7 & D8 & D9 & D10) Hs Hw.
  unfold totals_exact in *. cbv zeta in *. rewrite Hs, !Hw. clear Hs Hw.
  destruct H as (H1 & H2 & H3 & H4 & H5 & H6 & H7 & H8 & H9 & H10 & H11 & H12 & H13).
  destruct m; [|split_and!; first [done|lia]].
  unfold moved; cbn [to_tenant_id to_scope to_period to_reserved_micros to_settled_micros to_held_micros
    to_overrun_micros to_active to_reservations to_settlements to_releases to_expiries to_refusals].
  split_and!; first [done|lia].
Qed.

(** A reservation is written, and the totals of its tenant and function move with it. *)
Lemma write_wf db id v d db1 db2 :
  budget_wf db → row_ok id v →
  (∀ v0, bd_rows db !! id = Some v0 → rr_tenant_id (bv_row v0) = rr_tenant_id (bv_row v) ∧
    rr_function_id (bv_row v0) = rr_function_id (bv_row v) ∧ rr_period (bv_row v0) = rr_period (bv_row v)) →
  delta_moves d (λ w, w (bv_row v) - weigh (bd_rows db !! id) w) →
  apply_delta (rr_tenant_id (bv_row v)) TENANT_SCOPE (rr_period (bv_row v)) d
    (db <| bd_rows ::= λ m, <[id := v]> m |>) = Ok db1 →
  apply_delta (rr_tenant_id (bv_row v)) (rr_function_id (bv_row v)) (rr_period (bv_row v)) d db1 = Ok db2 →
  budget_wf db2.
Proof.
  intros [Hrows Htot] Hv Hkeep Hd H1 H2. pose proof Hv as (_ & Hf & _).
  destruct (both_deltas _ _ _ _ _ _ _ Hf H1 H2) as (Hr & _ & Ht). split.
  - intros id' v'. rewrite Hr. cbn. destruct (decide (id' = id)) as [->|Hne].
    + rewrite lookup_insert_eq. by intros [= <-].
    + rewrite lookup_insert_ne by done. apply Hrows.
  - intros t s p. destruct (Ht t s p) as [Hst _].
    apply (totals_follow d _ _ db db2 t s p (Htot t s p) Hd Hst). intros w.
    rewrite (sum_in_rows _ _ _ _ (db <| bd_rows ::= λ m, <[id := v]> m |>) db2) by done.
    rewrite <-counts_moves. apply sum_in_write.
    intros v0 Hv0. destruct (Hkeep v0 Hv0) as (E1 & E2 & E3). unfold counts_in. by rewrite E1, E2, E3.
Qed.

(** ** Transactions keep the invariant *)

Lemma clamp_id v : v ≤ i64_max → to_i64 v = v.
Proof. unfold to_i64. lia. Qed.

Lemma finish_row_wf db id v row' :
  budget_wf db → bd_rows db !! id = Some v → row_ok id (v <| bv_row := row' |>) →
  (∀ t s p, counts_in t s p row' = counts_in t s p (bv_row v)) →
  rr_state row' = rr_state (bv_row v) → rr_reserved_micros row' = rr_reserved_micros (bv_row v) →
  rr_settled_micros row' = rr_settled_micros (bv_row v) → rr_held_micros row' = rr_held_micros (bv_row v) →
  rr_overrun_micros row' = rr_overrun_micros (bv_row v) →
  budget_wf (db <| bd_rows ::= λ m, <[id := v <| bv_row := row' |>]> m |>).
Proof.
  intros [Hrows Htot] Hv Hok Hc E1 E2 E3 E4 E5. split.
  - intros id' v'. cbn. destruct (decide (id' = id)) as [->|Hne].
    + rewrite lookup_insert_eq. by intros [= <-].
    + rewrite lookup_insert_ne by done. apply Hrows.
  - intros t s p. apply (totals_follow (mkDelta 0 0 0 0 0 0 0 0 0 0)
      (λ w, w row' - weigh (bd_rows db !! id) w) (counts_in t s p row') db); [done| | |].
    + rewrite Hv. unfold delta_moves, while_reserved, in_state, weigh. cbn. rewrite E1, E2, E3, E4, E5. split_and!; lia.
    + change (stored_totals t s p _) with (stored_totals t s p db). unfold moved.
      destruct (stored_totals t s p db). cbn. rewrite !Z.add_0_r. by destruct (counts_in t s p row').
    + intros w. rewrite (sum_in_write t s p w id (v <| bv_row := row' |>)); [done|].
      intros v0. rewrite Hv. intros [= <-]. cbn. by rewrite Hc.
Qed.

Lemma finish_tx_wf id attempts complete mark now db : budget_wf db →
  budget_wf (after_tx (finish_tx id attempts complete mark now) db).
Proof.
  intros Hwf. unfold after_tx, finish_tx. destruct (bd_rows db !! id) as [v|] eqn:Hv; [|done].
  destruct (negb _); [done|]. apply finish_row_wf; try done. apply (bw_rows db Hwf id v Hv).
Qed.

Lemma refusal_wf tenant function period db db1 db2 : budget_wf db → function ≠ TENANT_SCOPE →
  apply_delta tenant TENANT_SCOPE period refusal_delta db = Ok db1 →
  apply_delta tenant function period refusal_delta db1 = Ok db2 → budget_wf db2.
Proof.
  intros [Hrows Htot] Hf H1 H2. destruct (both_deltas _ _ _ _ _ _ _ Hf H1 H2) as (Hr & _ & Ht). split.
  - intros id v. rewrite Hr. apply Hrows.
  - intros t s p. apply (totals_follow refusal_delta (λ _, 0) (moves_scope tenant function period t s p) db db2 t s p (Htot t s p)); [|apply Ht|].
    + unfold delta_moves; cbn. split_and!; lia.
    + intros w. rewrite (sum_in_rows _ _ _ _ db db2) by done. destruct (moves_scope _ _ _ _ _ _); lia.
Qed.

Lemma get_row_None id db : get_row id db = None ↔ bd_rows db !! id = None.
Proof. unfold get_row. by destruct (_ !! id). Qed.

Lemma fits_reserved t : fits t → nonneg t →
  0 ≤ to_reserved_micros t ≤ i64_max ∧ 0 ≤ to_settled_micros t ≤ i64_max ∧ 0 ≤ to_held_micros t ≤ i64_max.
Proof.
  unfold fits, totals_columns, nonneg. intros Hf ?.
  repeat match goal with H : Forall _ (_ :: _) |- _ => apply Forall_cons in H as [? H] end. cbn [snd] in *. lia.
Qed.

Lemma one_if_eq (a b : ReservationState.t) : one_if (a == b) = if decide (a = b) then 1 else 0.
Proof. unfold one_if. case_bool_decide; by case_decide. Qed.

(** Column by column: a delta against the change of a reservation. *)
Ltac moving :=
  unfold delta_moves, while_reserved, in_state, closing_delta, one_if; cbn; split_and!;
  repeat (case_bool_decide; try congruence); try lia.

(** The successful branches of a reservation. *)
Inductive reserve_spec (r : NewReservation) (now : Timestamp) (db : BudgetDb) : ReserveOutcome.t → BudgetDb → Prop :=
| reserve_exists row : get_row (nr_reservation_id r) db = Some row →
    reserve_spec r now db (ReserveOutcome.Exists (rr_state row)) db
| reserve_refused tenant function scope totals limit db1 db2 :
    get_row (nr_reservation_id r) db = None →
    totals_row (nr_tenant_id r) TENANT_SCOPE (nr_period r) db = Ok tenant →
    totals_row (nr_tenant_id r) (nr_function_id r) (nr_period r) db = Ok function →
    over_limit (nr_amount_micros r) tenant function (nr_tenant_limit r) (nr_function_limit r)
      = Some (scope, totals, limit) →
    apply_delta (nr_tenant_id r) TENANT_SCOPE (nr_period r) refusal_delta db = Ok db1 →
    apply_delta (nr_tenant_id r) (nr_function_id r) (nr_period r) refusal_delta db1 = Ok db2 →
    reserve_spec r now db (ReserveOutcome.Refused
      (mkLimitRefusal scope limit (Totals.committed totals) (nr_amount_micros r))) db2
| reserve_reserved tenant function row d db1 db2 :
    get_row (nr_reservation_id r) db = None →
    totals_row (nr_tenant_id r) TENANT_SCOPE (nr_period r) db = Ok tenant →
    totals_row (nr_tenant_id r) (nr_function_id r) (nr_period r) db = Ok function →
    over_limit (nr_amount_micros r) tenant function (nr_tenant_limit r) (nr_function_limit r) = None →
    row = reserved_row r now (S (size (bd_rows db))) →
    d = mkDelta (to_i64 (nr_amount_micros r)) 0 0 0 1 1 0 0 0 0 →
    apply_delta (nr_tenant_id r) TENANT_SCOPE (nr_period r) d
      (db <| bd_rows ::= λ m, <[nr_reservation_id r := row]> m |>) = Ok db1 →
    apply_delta (nr_tenant_id r) (nr_function_id r) (nr_period r) d db1 = Ok db2 →
    reserve_spec r now db ReserveOutcome.Reserved db2.

Lemma reserve_tx_spec r now db o db' : reserve_tx r now db = Ok (o, db') → reserve_spec r now db o db'.
Proof.
  unfold reserve_tx. destruct (get_row _ db) as [row|] eqn:Hg; [intros [= <- <-]; by constructor|]. intros H.
  apply result_bind_Ok in H as (tenant & Ht & H). apply result_bind_Ok in H as (function & Hf & H).
  destruct (over_limit _ _ _ _ _) as [[[scope totals] limit]|] eqn:Ho;
    apply result_bind_Ok in H as (db2 & H & [= <- <-]); apply result_bind_Ok in H as (db1 & H1 & H2).
  - by eapply reserve_refused.
  - by eapply reserve_reserved.
Qed.

Lemma reserve_tx_wf r now db : budget_wf db → bcmd_ok (BReserve r now) →
  budget_wf (after_tx (reserve_tx r now) db).
Proof.
  intros Hwf [Ha Hf]. unfold after_tx. destruct (reserve_tx r now db) as [[o db']|] eqn:H; [|done].
  apply reserve_tx_spec in H as [row|????? db1 db2 _ _ _ _ H1 H2|tenant function row d db1 db2 Hg _ _ _ -> -> H1 H2].
  - done.
  - by eapply refusal_wf.
  - apply get_row_None in Hg. unfold u64_range, u64_max in Ha.
    eapply (write_wf db (nr_reservation_id r) (reserved_row r now (S (size (bd_rows db)))) _ _ _ Hwf);
      [..|exact H1|exact H2].
    + unfold row_ok, amounts_ok; cbn. unfold to_i64, i64_max. split_and!; first [done|lia].
    + intros v0. by rewrite Hg.
    + rewrite Hg. moving.
Qed.

(** The successful branches of a transition. *)
Inductive transition_spec (id : string) (now : Timestamp) (alerts : AlertLimits)
    (plan_of : ReservationRow → option plan) (db : BudgetDb) : Transition → BudgetDb → Prop :=
| transition_missing : bd_rows db !! id = None →
    transition_spec id now alerts plan_of db (mkTransition ReservationState.Released false []) db
| transition_closed v : bd_rows db !! id = Some v → rr_state (bv_row v) ≠ ReservationState.Reserved →
    transition_spec id now alerts plan_of db (mkTransition (rr_state (bv_row v)) false []) db
| transition_refused v : bd_rows db !! id = Some v → rr_state (bv_row v) = ReservationState.Reserved →
    plan_of (bv_row v) = None →
    transition_spec id now alerts plan_of db (mkTransition (rr_state (bv_row v)) false []) db
| transition_made v p db1 db2 fired db3 more db4 :
    bd_rows db !! id = Some v → rr_state (bv_row v) = ReservationState.Reserved → plan_of (bv_row v) = Some p →
    apply_delta (rr_tenant_id (bv_row v)) TENANT_SCOPE (rr_period (bv_row v)) (closing_delta p (bv_row v))
      (db <| bd_rows ::= λ m, <[id := closed_row p now v]> m |>) = Ok db1 →
    apply_delta (rr_tenant_id (bv_row v)) (rr_function_id (bv_row v)) (rr_period (bv_row v))
      (closing_delta p (bv_row v)) db1 = Ok db2 →
    fire_alerts (rr_tenant_id (bv_row v)) TENANT_SCOPE (rr_period (bv_row v)) (al_tenant alerts) now db2
      = Ok (fired, db3) →
    fire_alerts (rr_tenant_id (bv_row v)) (rr_function_id (bv_row v)) (rr_period (bv_row v))
      (al_function alerts) now db3 = Ok (more, db4) →
    transition_spec id now alerts plan_of db (mkTransition p.1.1.1 true (fired ++ more)%list) db4.

Lemma transition_tx_spec id now alerts plan_of db t db' :
  transition_tx id now alerts plan_of db = Ok (t, db') → transition_spec id now alerts plan_of db t db'.
Proof.
  unfold transition_tx. destruct (bd_rows db !! id) as [v|] eqn:Hv; [|intros [= <- <-]; by constructor].
  destruct (decide (rr_state (bv_row v) = ReservationState.Reserved)) as [Hs|Hs].
  2: { rewrite bool_decide_eq_false_2 by done. cbn. intros [= <- <-]. by apply transition_closed. }
  rewrite bool_decide_eq_true_2 by done. cbn [negb].
  destruct (plan_of (bv_row v)) as [p|] eqn:Hp; [|intros [= <- <-]; by eapply transition_refused]. intros H.
  apply result_bind_Ok in H as (db1 & H1 & H). apply result_bind_Ok in H as (db2 & H2 & H).
  apply result_bind_Ok in H as ([fired db3] & H3 & H). apply result_bind_Ok in H as ([more db4] & H4 & H).
  injection H as <- <-. by eapply transition_made.
Qed.

(** What a plan may make of a reservation. *)
Definition plan_ok (row : ReservationRow) (p : plan) : Prop :=
  match p with
  | (ReservationState.Settled, settled, held, _) =>
      u64_range settled ∧ 0 ≤ held ≤ Z.max 0 (rr_reserved_micros row - settled)
  | (ReservationState.Released, settled, held, _) => settled = 0 ∧ held = 0
  | (ReservationState.Expired, settled, held, _) => settled = 0 ∧ held = rr_reserved_micros row
  | (ReservationState.Reserved, _, _, _) => False
  end.

Lemma closed_row_ok id p now v : row_ok id v → rr_state (bv_row v) = ReservationState.Reserved →
  plan_ok (bv_row v) p → row_ok id (closed_row p now v).
Proof.
  intros (H1 & H2 & (Hr & _ & _ & _ & _)) Hs Hp. destruct p as [[[to settled] held] reason].
  unfold row_ok, amounts_ok. cbn. split; [done|]. split; [done|].
  unfold plan_ok in Hp. unfold u64_range, u64_max, u64_saturating_sub, to_i64, i64_max in *.
  destruct to; [done|..]; split_and!; lia.
Qed.

Lemma transition_tx_wf id now alerts plan_of db :
  (∀ row p, plan_of row = Some p → amounts_ok row → plan_ok row p) →
  budget_wf db → budget_wf (after_tx (transition_tx id now alerts plan_of) db).
Proof.
  intros Hplan Hwf. unfold after_tx. destruct (transition_tx _ _ _ _ db) as [[t db']|] eqn:H; [|done].
  apply transition_tx_spec in H as [| | |v p db1 db2 fired db3 more db4 Hv Hs Hp H1 H2 H3 H4]; try done.
  apply fire_alerts_frame in H3 as [Hr3 Ht3], H4 as [Hr4 Ht4].
  pose proof (bw_rows db Hwf id v Hv) as Hok. specialize (Hplan _ _ Hp (proj2 (proj2 Hok))).
  pose proof (closed_row_ok id p now v Hok Hs Hplan) as Hok'.
  assert (Hwf2 : budget_wf db2).
  { destruct p as [[[to settled] held] reason].
    eapply (write_wf db id (closed_row (to, settled, held, reason) now v) _ _ _ Hwf Hok'); [..|exact H1|exact H2].
    - rewrite Hv. by intros v0 [= <-].
    - rewrite Hv. destruct Hok as (_ & _ & (Hr & _ & _ & _ & Hst)). rewrite Hs in Hst. destruct Hst as (E1 & E2 & E3).
      unfold weigh. destruct to; [done|..]; moving; rewrite ?E1, ?E2, ?E3, ?(clamp_id (rr_reserved_micros _)) by lia; lia. }
  destruct Hwf2 as [Hrows Htot]. split.
  - intros id' v'. rewrite Hr4, Hr3. apply Hrows.
  - intros t' s p'. specialize (Htot t' s p'). unfold totals_exact in *.
    rewrite (stored_totals_ext _ _ _ db2 db4) by congruence.
    rewrite !(sum_in_rows _ _ _ _ db2 db4) by congruence. done.
Qed.

Lemma settle_plan_ok s row p : u64_range (se_measured_micros s) → settle_plan s row = Some p → amounts_ok row → plan_ok row p.
Proof. intros Hs [= <-] (Hr & _). cbn. split; [done|]. unfold u64_saturating_sub. destruct (se_complete s); lia. Qed.
Lemma release_plan_ok row p : release_plan row = Some p → plan_ok row p.
Proof. unfold release_plan. destruct (is_none _); [|done]. by intros [= <-]. Qed.
Lemma expire_plan_ok now row p : expire_plan now row = Some p → plan_ok row p.
Proof. unfold expire_plan. destruct (_ && _); [|done]. by intros [= <-]. Qed.

Lemma run_bcmd_wf db c : bcmd_ok c → budget_wf db → budget_wf (run_bcmd db c).
Proof.
  intros Hc Hwf. destruct c; cbn.
  - by apply reserve_tx_wf.
  - by apply finish_tx_wf.
  - apply transition_tx_wf; [|done]. intros row p. by apply settle_plan_ok.
  - apply transition_tx_wf; [|done]. intros row p ??. by apply release_plan_ok.
  - apply transition_tx_wf; [|done]. intros row p ??. by eapply expire_plan_ok.
Qed.

Lemma empty_budget_wf : budget_wf empty_budget_db.
Proof.
  split; [intros id v; cbn; by rewrite lookup_empty|]. intros t s p.
  unfold totals_exact, stored_totals, sum_in. cbn. rewrite lookup_empty, !total_empty. cbn. split_and!; first [done|lia].
Qed.

Lemma run_bcmds_wf cs : Forall bcmd_ok cs → budget_wf (run_bcmds cs).
Proof.
  intros Hcs. rewrite Forall_forall in Hcs.
  apply (foldl_inv budget_wf); [apply empty_budget_wf|]. intros db c Hc. by apply run_bcmd_wf, Hcs.
Qed.
