(* ===== verification/BudgetProps.v ===== *)
(** * What the budget store guarantees

    The totals are the sums of the reservations, a hard limit bounds what is committed, a reservation
    that was closed stays as it is, and an alert fires once. *)

From S2P Require Import Prelude Sums Ids UsageJournal BudgetConf BudgetStore BudgetInv.

Open Scope string_scope.
Open Scope Z_scope.

(** ** Definitions *)

(** Every column of every totals row can be read. *)
Definition readable (db : BudgetDb) : Prop := ∀ k t, bd_totals db !! k = Some t → fits t.

(** No database of a history outgrew its 64-bit columns: every sum SQLite made on the way is exact. *)
Definition in_range (cs : list bcmd) : Prop := ∀ n, readable (run_bcmds (take n cs)).

Lemma in_range_readable cs : in_range cs → readable (run_bcmds cs).
Proof. intros Hr. specialize (Hr (length cs)). by rewrite take_ge in Hr. Qed.

(** Each of the finitely many databases of a history is looked at. *)
Lemma in_range_check cs :
  Forall (λ n, map_Forall (λ _ t, fits t) (bd_totals (run_bcmds (take n cs)))) (seq 0 (S (length cs))) → in_range cs.
Proof.
  intros Hall n k t Hk. rewrite Forall_forall in Hall.
  assert (Ht : take n cs = take (n `min` length cs) cs) by (rewrite <-take_take, (take_ge cs (length cs)) by done; done).
  rewrite Ht in Hk. apply (Hall (n `min` length cs)%nat) in Hk; [done|]. apply elem_of_seq. lia.
Qed.

(** The limit a reservation states for a scope. *)
Definition limit_for (scope : string) (r : NewReservation) : option Z :=
  if scope == TENANT_SCOPE then nr_tenant_limit r else nr_function_limit r.
Definition asks_in (tenant scope period : string) (r : NewReservation) : bool :=
  (nr_tenant_id r == tenant) && (nr_period r == period)
  && ((scope == TENANT_SCOPE) || (nr_function_id r == scope)).

(** Every reservation asked for in a scope states a limit of at most [L]. *)
Definition limited (tenant scope period : string) (L : Z) (c : bcmd) : Prop :=
  match c with
  | BReserve r _ => asks_in tenant scope period r = true → ∃ l, limit_for scope r = Some l ∧ l ≤ L
  | _ => True
  end.

(** What a reservation counts against a limit, less its overrun. *)
Definition claims (row : ReservationRow) : Z :=
  while_reserved rr_reserved_micros row + rr_settled_micros row + rr_held_micros row - rr_overrun_micros row.

(** ** Totals *)

Lemma each_Ok {A B} (f : A → result string B) l bs : Forall2 (λ a b, f a = Ok b) l bs → each f l = Ok bs.
Proof. induction 1 as [|a b l bs Hab _ IH]; cbn; [done|]. rewrite Hab. cbn. by rewrite IH. Qed.

Lemma elem_of_table_rows {K A} `{Countable K} (m : gmap K A) a : a ∈ table_rows m ↔ ∃ k, m !! k = Some a.
Proof.
  unfold table_rows. rewrite list_elem_of_fmap. split.
  - intros ([k a'] & -> & Hin). exists k. by apply elem_of_map_to_list.
  - intros [k Hk]. exists (k, a). split; [done|]. by apply elem_of_map_to_list.
Qed.

Lemma totals_key db k t : budget_wf db → bd_totals db !! k = Some t → k = (to_tenant_id t, to_scope t, to_period t).
Proof.
  destruct k as [[tenant scope] period]. intros [_ Htot] Hk. destruct (Htot tenant scope period) as (H1 & H2 & H3 & _).
  unfold stored_totals in *. rewrite Hk in *. cbn in *. congruence.
Qed.

Lemma stored_at db k t : budget_wf db → bd_totals db !! k = Some t →
  stored_totals (to_tenant_id t) (to_scope t) (to_period t) db = t.
Proof. intros Hwf Hk. pose proof (totals_key db k t Hwf Hk) as ->. unfold stored_totals. by rewrite Hk. Qed.

Lemma sql_sum_fits n : n ≤ i64_max → sql_sum n = Ok n.
Proof. unfold sql_sum. intros Hn. destruct (Z.ltb_spec i64_max n); [lia|done]. Qed.

Lemma no_mismatch db k t : budget_wf db → bd_totals db !! k = Some t → fits t → totals_mismatch db t = Ok None.
Proof.
  intros Hwf Hk Hf. destruct (bw_totals db Hwf (to_tenant_id t) (to_scope t) (to_period t))
    as (_ & _ & _ & E1 & E2 & E3 & _ & E4 & _). rewrite (stored_at db k t Hwf Hk) in *.
  unfold fits, totals_columns in Hf.
  repeat match goal with H : Forall _ (_ :: _) |- _ => apply Forall_cons in H as [? H] end. cbn [snd] in *.
  unfold totals_mismatch. cbn [existsb].
  repeat match goal with |- context [i64_max <? ?x] => rewrite (proj2 (Z.ltb_ge i64_max x)) by lia end. cbn [orb].
  rewrite !sql_sum_fits by lia. cbn. rewrite bool_decide_eq_true_2; [done|].
  rewrite E1, E2, E3, E4. done.
Qed.

Lemma wf_verifies db : budget_wf db → readable db → verify_totals_tx db = Ok (None, db).
Proof.
  intros Hwf Hr. unfold verify_totals_tx, reading.
  rewrite (each_Ok _ _ ((λ _, None) <$> table_rows (bd_totals db))).
  - cbn. do 2 f_equal. induction (table_rows (bd_totals db)) as [|t l IH]; [done|]. exact IH.
  - apply Forall2_fmap_r, Forall2_same_length_lookup_2; [done|].
    intros i t t' Hi Hi'. assert (t' = t) as -> by congruence. apply list_elem_of_lookup_2 in Hi.
    apply elem_of_table_rows in Hi as [k Hk]. apply (no_mismatch db k t Hwf Hk (Hr k t Hk)).
Qed.

(** C27: the totals are the reservations: after any transactions of any processes, as long as no column
    outgrew 64 bits on the way (where SQLite's sums are no longer exact), every column of the totals of a tenant and of each of its functions is the sum over the reservations of that scope
    (reserved, settled, held and overrun amounts, and the counts of open, made, settled, released and
    expired reservations), and the check of the totals finds no mismatch. *)
Theorem totals_match_reservations (cs : list bcmd) (Hok : Forall bcmd_ok cs) (Hr : in_range cs) :
  (∀ tenant scope period, totals_exact (run_bcmds cs) tenant scope period) ∧
  verify_totals_tx (run_bcmds cs) = Ok (None, run_bcmds cs).
Proof.
  pose proof (run_bcmds_wf cs Hok) as Hwf. split; [apply Hwf|]. by apply wf_verifies, in_range_readable.
Qed.

(** ** The hard limit *)

Lemma over_limit_None asked tenant function tl fl :
  over_limit asked tenant function tl fl = None →
  (∀ l, tl = Some l → u64_saturating_add (Totals.committed tenant) asked ≤ l) ∧
  (∀ l, fl = Some l → u64_saturating_add (Totals.committed function) asked ≤ l).
Proof.
  unfold over_limit. destruct tl as [tl|], fl as [fl|]; cbn;
    repeat (match goal with |- context [if ?b then _ else _] => destruct b eqn:? end); try done;
    bools; intros _; split; intros l [=]; subst; lia.
Qed.

Lemma committed_room t asked l : nonneg t → u64_saturating_add (Totals.committed t) asked ≤ l → l ≤ i64_max →
  0 ≤ asked → to_reserved_micros t + to_settled_micros t + to_held_micros t + asked ≤ l.
Proof.
  unfold Totals.committed, u64_saturating_add, nonneg, i64_max, u64_max. lia.
Qed.

Lemma claims_total db t s p : sum_in t s p claims db =
  sum_in t s p (while_reserved rr_reserved_micros) db + sum_in t s p rr_settled_micros db
  + sum_in t s p rr_held_micros db - sum_in t s p rr_overrun_micros db.
Proof.
  assert (Hadd : ∀ u v w, (∀ row, u row = v row + w row) →
    sum_in t s p u db = sum_in t s p v db + sum_in t s p w db).
  { intros u v w H. unfold sum_in. apply total_add. intros a. destruct (counts_in _ _ _ _); [apply H|done]. }
  rewrite <-!Hadd with (u := λ row, while_reserved rr_reserved_micros row + rr_settled_micros row) by done.
  rewrite <-(Hadd (λ row, while_reserved rr_reserved_micros row + rr_settled_micros row + rr_held_micros row)) by done.
  rewrite (Hadd (λ row, while_reserved rr_reserved_micros row + rr_settled_micros row + rr_held_micros row)
    claims rr_overrun_micros); [lia|]. intros row. unfold claims. lia.
Qed.

Lemma wf_nonneg db t s p : budget_wf db → nonneg (stored_totals t s p db).
Proof.
  intros [Hrows Htot]. unfold nonneg. destruct (Htot t s p) as (_ & _ & _ & -> & -> & -> & -> & -> & _).
  split_and!; apply sum_in_nonneg; intros id v (_ & _ & (H1 & H2 & H3 & H4 & _))%Hrows;
    unfold while_reserved, in_state, one_if; repeat case_match; lia.
Qed.

Lemma totals_rows_frame tenant function period d db db1 db2 :
  apply_delta tenant TENANT_SCOPE period d db = Ok db1 → apply_delta tenant function period d db1 = Ok db2 →
  bd_rows db2 = bd_rows db ∧ bd_alerts db2 = bd_alerts db.
Proof. by intros [_ ->]%apply_delta_Ok [_ ->]%apply_delta_Ok. Qed.

Lemma closed_claims id p now v : row_ok id v → rr_state (bv_row v) = ReservationState.Reserved →
  plan_ok (bv_row v) p → claims (bv_row (closed_row p now v)) ≤ claims (bv_row v).
Proof.
  intros (_ & _ & (Hr & _ & _ & _ & Hst)) Hs Hp. rewrite Hs in Hst. destruct p as [[[to settled] held] reason].
  unfold claims, while_reserved. cbn. rewrite Hs. unfold plan_ok, u64_range in Hp. unfold u64_saturating_sub, to_i64.
  destruct to; [done|..]; repeat (case_bool_decide; try congruence); lia.
Qed.

Lemma transition_claims id now alerts plan_of db t s p :
  (∀ row p, plan_of row = Some p → amounts_ok row → plan_ok row p) → budget_wf db →
  sum_in t s p claims (after_tx (transition_tx id now alerts plan_of) db) ≤ sum_in t s p claims db.
Proof.
  intros Hplan Hwf. unfold after_tx. destruct (transition_tx _ _ _ _ db) as [[tr db']|] eqn:H; [|done].
  apply transition_tx_spec in H as [| | |v pl db1 db2 fired db3 more db4 Hv Hs Hp H1 H2 H3 H4]; try done.
  apply fire_alerts_frame in H3 as [Hr3 _], H4 as [Hr4 _].
  pose proof (bw_rows db Hwf id v Hv) as Hok. pose proof (totals_rows_frame _ _ _ _ _ _ _ H1 H2) as [Hr2 _].
  specialize (Hplan _ _ Hp (proj2 (proj2 Hok))).
  rewrite (sum_in_rows _ _ _ _ (db <| bd_rows ::= λ m, <[id := closed_row pl now v]> m |>) db4) by congruence.
  destruct pl as [[[to settled] held] reason].
  rewrite sum_in_write by (intros v0; rewrite Hv; by intros [= <-]). rewrite Hv. cbn [weigh].
  pose proof (closed_claims id _ now v Hok Hs Hplan). destruct (counts_in _ _ _ _); lia.
Qed.

Lemma reserve_claims L r now db t s p : budget_wf db → bcmd_ok (BReserve r now) → L ≤ i64_max →
  limited t s p L (BReserve r now) → sum_in t s p claims db ≤ L →
  sum_in t s p claims (after_tx (reserve_tx r now) db) ≤ L.
Proof.
  intros Hwf [[Ha0 Ha1] Hf] HL Hlim Hle. unfold after_tx. destruct (reserve_tx r now db) as [[o db']|] eqn:H; [|done].
  apply reserve_tx_spec in H as [row|????? db1 db2 _ _ _ _ H1 H2|tenant function row d db1 db2 Hg Ht Hfn Ho -> -> H1 H2];
    [done|by rewrite (sum_in_rows _ _ _ _ db db2 (proj1 (totals_rows_frame _ _ _ _ _ _ _ H1 H2)))|].
  rewrite (sum_in_rows _ _ _ _ _ db2 (proj1 (totals_rows_frame _ _ _ _ _ _ _ H1 H2))).
  apply get_row_None in Hg. rewrite sum_in_write, Hg by (intros v0; by rewrite Hg). cbn [weigh].
  apply totals_row_Ok in Ht as [-> _], Hfn as [-> _]. apply over_limit_None in Ho as [Hot Hof].
  destruct (counts_in t s p _) eqn:Hc; [|lia].
  assert (Hasks : asks_in t s p r = true).
  { unfold counts_in in Hc. unfold asks_in. cbn in Hc. exact Hc. }
  destruct (Hlim Hasks) as (l & Hl & HlL). unfold asks_in in Hasks. apply andb_true_iff in Hasks as [[Et Ep]%andb_true_iff Es].
  bools. subst t p. assert (Hroom : u64_saturating_add (Totals.committed (stored_totals (nr_tenant_id r) s (nr_period r) db))
    (nr_amount_micros r) ≤ l).
  { unfold limit_for in Hl. destruct (decide (s = TENANT_SCOPE)) as [->|Hs].
    - rewrite bool_decide_eq_true_2 in Hl by done. by apply Hot.
    - rewrite bool_decide_eq_false_2 in Hl by done. destruct Es as [Es|Es]; bools; [done|]. subst s. by apply Hof. }
  pose proof (wf_nonneg db (nr_tenant_id r) s (nr_period r) Hwf) as Hn.
  apply committed_room in Hroom; [|done|lia|lia]. rewrite claims_total. unfold nonneg in Hn.
  destruct (bw_totals db Hwf (nr_tenant_id r) s (nr_period r)) as (_ & _ & _ & E1 & E2 & E3 & E4 & _).
  rewrite <-E1, <-E2, <-E3, <-E4. unfold claims, while_reserved. cbn.
  rewrite bool_decide_eq_true_2 by done. unfold to_i64. lia.
Qed.

Lemma run_claims L c db t s p : budget_wf db → bcmd_ok c → L ≤ i64_max → limited t s p L c →
  sum_in t s p claims db ≤ L → sum_in t s p claims (run_bcmd db c) ≤ L.
Proof.
  intros Hwf Hc HL Hlim Hle. destruct c; cbn.
  - by apply reserve_claims.
  - unfold after_tx, finish_tx. destruct (bd_rows db !! id) as [v|] eqn:Hv; [|done]. destruct (negb _); [done|].
    rewrite sum_in_write by (rewrite Hv; by intros v0 [= <-]). rewrite Hv. cbn [weigh].
    match goal with |- context [if _ then ?a - ?b else 0] => change a with b end. destruct (counts_in _ _ _ _); lia.
  - etrans; [apply transition_claims; [|done]|done]. intros row p'. by apply settle_plan_ok.
  - etrans; [apply transition_claims; [|done]|done]. intros row p' ??. by apply release_plan_ok.
  - etrans; [apply transition_claims; [|done]|done]. intros row p' ??. by eapply expire_plan_ok.
Qed.

(** C22: a hard limit bounds what is committed: when every reservation asked for a tenant (or a function)
    in a period states a limit of at most [L], then after any transactions of any processes, in any order,
    what is reserved, settled and held there is at most [L] and the overruns, the amounts by which measured
    charges exceeded their reservations. *)
Theorem hard_limit_bounds_commitment (cs : list bcmd) (tenant scope period : string) (L : Z)
    (Hok : Forall bcmd_ok cs) (Hl : Forall (limited tenant scope period L) cs) (HL : 0 ≤ L ≤ i64_max) :
  let t := stored_totals tenant scope period (run_bcmds cs) in
  to_reserved_micros t + to_settled_micros t + to_held_micros t ≤ L + to_overrun_micros t.
Proof.
  cbv zeta. rewrite Forall_forall in Hok, Hl.
  assert (H : budget_wf (run_bcmds cs) ∧ sum_in tenant scope period claims (run_bcmds cs) ≤ L).
  { apply (foldl_inv (λ db, budget_wf db ∧ sum_in tenant scope period claims db ≤ L)).
    - split; [apply empty_budget_wf|]. unfold sum_in. cbn. rewrite total_empty. lia.
    - intros db c Hc [Hwf Hle]. split; [by apply run_bcmd_wf; [apply Hok|]|].
      apply run_claims; try done; [by apply Hok|lia|by apply Hl]. }
  destruct H as [Hwf Hle]. rewrite claims_total in Hle.
  destruct (bw_totals _ Hwf tenant scope period) as (_ & _ & _ & -> & -> & -> & -> & _). lia.
Qed.

(** ** Closed reservations *)

Definition closed (v : BudgetReservation) : Prop := rr_state (bv_row v) ≠ ReservationState.Reserved.

Lemma transition_on_closed id now alerts plan_of db v : bd_rows db !! id = Some v → closed v →
  transition_tx id now alerts plan_of db = Ok (mkTransition (rr_state (bv_row v)) false [], db).
Proof. intros Hv Hc. unfold transition_tx. by rewrite Hv, bool_decide_eq_false_2. Qed.

Lemma transition_other id now alerts plan_of db id' : id' ≠ id →
  bd_rows (after_tx (transition_tx id now alerts plan_of) db) !! id' = bd_rows db !! id'.
Proof.
  intros Hne. unfold after_tx. destruct (transition_tx _ _ _ _ db) as [[t db']|] eqn:H; [|done].
  apply transition_tx_spec in H as [| | |v p db1 db2 fired db3 more db4 Hv Hs Hp H1 H2 H3 H4]; try done.
  apply fire_alerts_frame in H3 as [Hr3 _], H4 as [Hr4 _]. destruct (totals_rows_frame _ _ _ _ _ _ _ H1 H2) as [Hr2 _].
  rewrite Hr4, Hr3, Hr2. cbn. by rewrite lookup_insert_ne.
Qed.

Lemma transition_keeps_closed id now alerts plan_of db id' v : bd_rows db !! id' = Some v → closed v →
  bd_rows (after_tx (transition_tx id now alerts plan_of) db) !! id' = Some v.
Proof.
  intros Hv Hc. destruct (decide (id' = id)) as [->|Hne]; [|by rewrite transition_other].
  unfold after_tx. by rewrite (transition_on_closed _ _ _ _ _ v).
Qed.

Lemma run_keeps_closed db c id v : bd_rows db !! id = Some v → closed v → bd_rows (run_bcmd db c) !! id = Some v.
Proof.
  intros Hv Hc. destruct c as [r now|id' attempts complete mark now|id' s now al|id' now|id' now al]; cbn;
    try by apply transition_keeps_closed.
  - unfold after_tx. destruct (reserve_tx r now db) as [[o db']|] eqn:H; [|done].
    apply reserve_tx_spec in H as [row|????? db1 db2 _ _ _ _ H1 H2|tenant function row d db1 db2 Hg _ _ _ _ _ H1 H2]; [done|..];
      destruct (totals_rows_frame _ _ _ _ _ _ _ H1 H2) as [-> _]; [done|]. cbn.
    rewrite lookup_insert_ne; [done|]. intros <-. apply get_row_None in Hg. congruence.
  - unfold after_tx, finish_tx. destruct (bd_rows db !! id') as [v'|] eqn:Hv'; [|done].
    destruct (negb _) eqn:Hn; [done|]. cbn. rewrite lookup_insert_ne; [done|]. intros <-.
    bools. unfold closed in Hc. congruence.
Qed.

(** a reservation moves once: once it is settled, released or expired, no transaction of any process
    changes its row, and every later call for it (a second reservation of the run, a late or repeated
    settlement, release, expiry or report of its end) changes nothing and reports what it already is. *)
Theorem closed_reservation_is_final (cs cs' : list bcmd) (id : string) (v : BudgetReservation)
    (Hv : bd_rows (run_bcmds cs) !! id = Some v) (Hc : closed v) :
  let db := run_bcmds (cs ++ cs') in
  let known := mkTransition (rr_state (bv_row v)) false [] in
  bd_rows db !! id = Some v ∧
  (∀ r now, nr_reservation_id r = id → reserve_tx r now db = Ok (ReserveOutcome.Exists (rr_state (bv_row v)), db)) ∧
  (∀ s now alerts, settle_tx id s now alerts db = Ok (known, db)) ∧
  (∀ now, release_tx id now db = Ok (known, db)) ∧
  (∀ now alerts, expire_tx id now alerts db = Ok (known, db)) ∧
  (∀ attempts complete mark now, finish_tx id attempts complete mark now db = Ok (false, db)).
Proof.
  cbv zeta. assert (H : bd_rows (run_bcmds (cs ++ cs')) !! id = Some v).
  { unfold run_bcmds. rewrite foldl_app. apply (foldl_inv (λ db, bd_rows db !! id = Some v)); [done|].
    intros db c _ Hdb. by apply run_keeps_closed. }
  generalize dependent (run_bcmds (cs ++ cs')). intros db H. split; [done|].
  split_and!; try (intros; by apply transition_on_closed).
  - intros r now Hr. unfold reserve_tx, get_row. by rewrite Hr, H.
  - intros attempts complete mark now. unfold finish_tx. by rewrite H, bool_decide_eq_false_2.
Qed.

(** ** Alerts *)

Definition alert_key (a : AlertFired) : string * string * string * Z :=
  (af_tenant_id a, af_scope a, af_period a, af_threshold_percent a).
Definition crossed (a : AlertFired) : Prop :=
  af_soft_limit_micros a * af_threshold_percent a ≤ af_consumed_micros a * 100.

(** What a transaction reports as fired. *)
Definition fired_by (db : BudgetDb) (c : bcmd) : list AlertFired :=
  let alerts (t : btx Transition) := match t db with Ok (tr, _) => tn_alerts tr | Err _ => [] end in
  match c with
  | BSettle id s now al => alerts (settle_tx id s now al)
  | BRelease id now => alerts (release_tx id now)
  | BExpire id now al => alerts (expire_tx id now al)
  | _ => []
  end.
Definition run_fired (cs : list bcmd) : list AlertFired :=
  (foldl (λ s c, (run_bcmd s.1 c, s.2 ++ fired_by s.1 c)%list) (empty_budget_db, []) cs).2.

(** The alerts that were fired between two databases. *)
Record fires (db : BudgetDb) (fired : list AlertFired) (db' : BudgetDb) : Prop := {
  fi_once : NoDup (alert_key <$> fired);
  fi_fresh : ∀ a, a ∈ fired → alert_key a ∉ dom (bd_alerts db);
  fi_recorded : dom (bd_alerts db') = list_to_set (alert_key <$> fired) ∪ dom (bd_alerts db);
  fi_crossed : Forall crossed fired
}.

Lemma fires_nothing db db' : bd_alerts db' = bd_alerts db → fires db [] db'.
Proof. intros He. split; [constructor|set_solver|rewrite He; set_solver|constructor]. Qed.

Lemma fires_compose db f db1 g db2 : fires db f db1 → fires db1 g db2 → fires db (f ++ g)%list db2.
Proof.
  intros [A1 A2 A3 A4] [B1 B2 B3 B4]. split.
  - rewrite fmap_app. apply NoDup_app. split; [done|]. split; [|done]. intros k Hk Hk'.
    apply list_elem_of_fmap in Hk' as (a & -> & Ha). apply (B2 a Ha). rewrite A3.
    apply elem_of_union_l, elem_of_list_to_set. done.
  - intros a [Ha|Ha]%elem_of_app; [by apply A2|]. specialize (B2 a Ha). rewrite A3 in B2. set_solver.
  - rewrite B3, A3, fmap_app, list_to_set_app_L. set_solver.
  - by apply Forall_app.
Qed.

Lemma fire_thresholds_fires tenant scope period soft consumed ps now db fired db' :
  fire_thresholds tenant scope period soft consumed ps now db = (fired, db') → fires db fired db'.
Proof.
  revert db fired db'. induction ps as [|p ps IH]; intros db fired db' H; cbn in H.
  { injection H as <- <-. by apply fires_nothing. }
  destruct (_ <? _) eqn:Hc in H; [by eauto|]. bools.
  destruct (bd_alerts db !! (tenant, scope, period, p)) eqn:Ha in H; [by eauto|].
  destruct (fire_thresholds _ _ _ _ _ ps _ _) as [l d] eqn:E. injection H as <- <-. apply IH in E.
  refine (fires_compose db [mkAlertFired tenant scope period p soft consumed now] _ l d _ E). split.
  - apply NoDup_singleton.
  - intros a ->%list_elem_of_singleton. unfold alert_key; cbn. by apply not_elem_of_dom.
  - cbn. rewrite dom_insert_L. set_solver.
  - apply Forall_cons. split; [exact Hc|constructor].
Qed.

(** Every threshold that was crossed is on record. *)
Lemma fire_thresholds_all tenant scope period soft consumed ps now db fired db' p :
  fire_thresholds tenant scope period soft consumed ps now db = (fired, db') →
  (p ∈ ps ∧ soft * p ≤ consumed * 100) ∨ (tenant, scope, period, p) ∈ dom (bd_alerts db) →
  (tenant, scope, period, p) ∈ dom (bd_alerts db').
Proof.
  revert db fired db'. induction ps as [|q ps IH]; intros db fired db' H Hp; cbn in H.
  { injection H as <- <-. set_solver. }
  destruct (_ <? _) eqn:Hc in H; bools.
  { apply (IH _ _ _ H). destruct Hp as [[[->|Hp]%elem_of_cons Hle]|Hp]; [lia|auto|auto]. }
  destruct (bd_alerts db !! (tenant, scope, period, q)) eqn:Ha in H.
  { apply (IH _ _ _ H). destruct Hp as [[[->|Hp]%elem_of_cons Hle]|Hp]; [|auto|auto]. right.
    by apply elem_of_dom. }
  destruct (fire_thresholds _ _ _ _ _ ps _ _) as [l d] eqn:E. injection H as <- <-. apply (IH _ _ _ E). cbn.
  rewrite dom_insert_L. destruct Hp as [[[->|Hp]%elem_of_cons Hle]|Hp]; set_solver.
Qed.

Lemma fire_alerts_fires tenant scope period limits now db fired db' :
  fire_alerts tenant scope period limits now db = Ok (fired, db') → fires db fired db'.
Proof.
  unfold fire_alerts. destruct limits as [l|]; [|intros [= <- <-]; by apply fires_nothing].
  destruct (bl_soft_limit_micros l) as [soft|]; [|intros [= <- <-]; by apply fires_nothing].
  destruct (bool_decide _); [intros [= <- <-]; by apply fires_nothing|]. intros H.
  apply result_bind_Ok in H as (t & _ & H). injection H as H. by eapply fire_thresholds_fires.
Qed.

Lemma transition_fires id now alerts plan_of db :
  fires db (match transition_tx id now alerts plan_of db with Ok (tr, _) => tn_alerts tr | Err _ => [] end)
    (after_tx (transition_tx id now alerts plan_of) db).
Proof.
  unfold after_tx. destruct (transition_tx _ _ _ _ db) as [[t db']|] eqn:H; [|by apply fires_nothing].
  apply transition_tx_spec in H as [| | |v p db1 db2 fired db3 more db4 Hv Hs Hp H1 H2 H3 H4]; try by apply fires_nothing.
  apply fire_alerts_fires in H3, H4. destruct (totals_rows_frame _ _ _ _ _ _ _ H1 H2) as [_ Ha2].
  cbn. pose proof (fires_nothing db db2 Ha2) as H0.
  exact (fires_compose db [] db2 _ db4 H0 (fires_compose _ _ _ _ _ H3 H4)).
Qed.

Lemma run_bcmd_fires db c : fires db (fired_by db c) (run_bcmd db c).
Proof.
  destruct c as [r now|id attempts complete mark now|id s now al|id now|id now al]; cbn; try apply transition_fires.
  - apply fires_nothing. unfold after_tx. destruct (reserve_tx r now db) as [[o db']|] eqn:H; [|done].
    apply reserve_tx_spec in H as [row|????? db1 db2 _ _ _ _ H1 H2|tenant function row d db1 db2 _ _ _ _ _ _ H1 H2]; [done|..];
      by destruct (totals_rows_frame _ _ _ _ _ _ _ H1 H2) as [_ ->].
  - apply fires_nothing. unfold after_tx, finish_tx. destruct (bd_rows db !! id) as [v|]; [|done]. by destruct (negb _).
Qed.

Lemma run_fires cs : fires empty_budget_db (run_fired cs) (run_bcmds cs).
Proof.
  unfold run_fired, run_bcmds. induction cs as [|c cs IH] using rev_ind; [by apply fires_nothing|].
  rewrite !foldl_app. cbn.
  assert (E : (foldl (λ s c, (run_bcmd s.1 c, s.2 ++ fired_by s.1 c)%list) (empty_budget_db, []) cs).1
    = foldl run_bcmd empty_budget_db cs).
  { clear. induction cs as [|c cs IH] using rev_ind; [done|]. rewrite !foldl_app. cbn. by rewrite IH. }
  rewrite E. exact (fires_compose _ _ _ _ _ IH (run_bcmd_fires _ c)).
Qed.

(** The limits of a scope have a threshold [p] that a consumption reaches. *)
Definition reaches (limits : option BudgetLimits) (consumed p : Z) : Prop :=
  ∃ l soft, limits = Some l ∧ bl_soft_limit_micros l = Some soft ∧
    p ∈ bl_alert_thresholds_percent l ∧ soft * p ≤ consumed * 100.

Lemma fire_alerts_all tenant scope period limits now db fired db' p :
  fire_alerts tenant scope period limits now db = Ok (fired, db') →
  reaches limits (Totals.consumed (stored_totals tenant scope period db)) p →
  (tenant, scope, period, p) ∈ dom (bd_alerts db').
Proof.
  intros H (l & soft & -> & Hs & Hp & Hle). unfold fire_alerts in H. rewrite Hs in H.
  rewrite bool_decide_eq_false_2 in H by (intros E; rewrite E in Hp; set_solver).
  apply result_bind_Ok in H as (t & [-> _]%totals_row_Ok & H). injection H as H.
  apply (fire_thresholds_all _ _ _ _ _ _ _ _ _ _ p H). by left.
Qed.

Lemma fires_keep db f db' k : fires db f db' → k ∈ dom (bd_alerts db) → k ∈ dom (bd_alerts db').
Proof. intros [_ _ -> _]. set_solver. Qed.

(** An alert fires once: over any transactions, each threshold of a tenant or function in a period is
    reported at most once, only when the consumption (settled and held) has reached it, and exactly those
    reported are on record; and a transition that is made leaves on record every threshold of the limits
    it was given that the consumption reaches. *)
Theorem alerts_fire_once (cs : list bcmd) :
  NoDup (alert_key <$> run_fired cs) ∧ Forall crossed (run_fired cs) ∧
  dom (bd_alerts (run_bcmds cs)) = list_to_set (alert_key <$> run_fired cs) ∧
  ∀ id now alerts plan_of tr db' v p,
    transition_tx id now alerts plan_of (run_bcmds cs) = Ok (tr, db') → tn_changed tr = true →
    bd_rows (run_bcmds cs) !! id = Some v →
    let '(tenant, function, period) := (rr_tenant_id (bv_row v), rr_function_id (bv_row v), rr_period (bv_row v)) in
    (reaches (al_tenant alerts) (Totals.consumed (stored_totals tenant TENANT_SCOPE period db')) p →
     (tenant, TENANT_SCOPE, period, p) ∈ dom (bd_alerts db')) ∧
    (reaches (al_function alerts) (Totals.consumed (stored_totals tenant function period db')) p →
     (tenant, function, period, p) ∈ dom (bd_alerts db')).
Proof.
  destruct (run_fires cs) as [H1 H2 H3 H4]. split; [done|]. split; [done|]. split.
  { rewrite H3. cbn. by rewrite dom_empty_L, union_empty_r_L. }
  clear. generalize (run_bcmds cs). intros db id now alerts plan_of tr db' v p H%transition_tx_spec Hch Hv.
  destruct H as [| | |v' pl db1 db2 fired db3 more db4 Hv' Hs Hp H1 H2 H3 H4]; try discriminate Hch.
  assert (v' = v) as -> by congruence. cbv beta iota.
  pose proof (fire_alerts_frame _ _ _ _ _ _ _ _ H3) as [_ Ht3]. pose proof (fire_alerts_frame _ _ _ _ _ _ _ _ H4) as [_ Ht4].
  rewrite !(stored_totals_ext _ _ _ db3 db4), !(stored_totals_ext _ _ _ db2 db3) by done. split; intros Hr.
  - eapply (fires_keep db3); [by eapply fire_alerts_fires|]. by eapply fire_alerts_all.
  - eapply fire_alerts_all; [exact H4|]. by rewrite (stored_totals_ext _ _ _ db2 db3).
Qed.

(** ** What a reservation decides *)

Definition committed_in (tenant scope period : string) (db : BudgetDb) : Z :=
  let t := stored_totals tenant scope period db in
  to_reserved_micros t + to_settled_micros t + to_held_micros t.
Definition exceeds (limit : option Z) (amount : Z) : bool := is_some_and limit (λ l, l <? amount).

Lemma exceeds_saturating t asked limit : nonneg t → 0 ≤ asked → is_none_or limit (λ l, l <=? i64_max) = true →
  exceeds limit (to_reserved_micros t + to_settled_micros t + to_held_micros t + asked)
  = exceeds limit (u64_saturating_add (Totals.committed t) asked).
Proof.
  intros Hn Ha Hl. destruct limit as [l|]; [|done]. cbn in *. bools. unfold nonneg in Hn.
  unfold Totals.committed, u64_saturating_add, u64_max, i64_max in *.
  match goal with |- (?l <? ?a) = (?l <? ?b) => destruct (Z.ltb_spec l a), (Z.ltb_spec l b); lia end.
Qed.

Lemma committed_exact t : nonneg t → fits t → Totals.committed t = Z.min (to_reserved_micros t + to_settled_micros t + to_held_micros t) u64_max.
Proof.
  intros Hn Hf. destruct (fits_reserved t Hf Hn). unfold Totals.committed, u64_saturating_add, nonneg, i64_max, u64_max in *. lia.
Qed.

Lemma readable_fits db : readable db → ∀ t s p, fits (stored_totals t s p db).
Proof.
  intros Hr t s p. unfold stored_totals. destruct (bd_totals db !! _) eqn:E; [by eapply Hr|].
  unfold fits, totals_columns. cbn. repeat constructor; unfold i64_max; cbn; lia.
Qed.

Lemma both_apply tenant function period d db :
  function ≠ TENANT_SCOPE → nonneg (moved d (stored_totals tenant TENANT_SCOPE period db)) →
  nonneg (moved d (stored_totals tenant function period db)) →
  ∃ db1 db2, apply_delta tenant TENANT_SCOPE period d db = Ok db1 ∧ apply_delta tenant function period d db1 = Ok db2.
Proof.
  intros Hf H1%check_totals_None H2%check_totals_None.
  exists (db <| bd_totals ::= λ m, <[(tenant, TENANT_SCOPE, period) := moved d (stored_totals tenant TENANT_SCOPE period db)]> m |>).
  eexists. unfold apply_delta. rewrite H1. split; [done|].
  rewrite stored_totals_insert, bool_decide_eq_false_2 by congruence. by rewrite H2.
Qed.

Lemma over_limit_cases asked tenant function tl fl :
  over_limit asked tenant function tl fl =
  (if exceeds tl (u64_saturating_add (Totals.committed tenant) asked)
   then (λ l, (BudgetScope.Tenant, tenant, l)) <$> tl
   else if exceeds fl (u64_saturating_add (Totals.committed function) asked)
   then (λ l, (BudgetScope.Function_, function, l)) <$> fl else None).
Proof.
  unfold over_limit, exceeds. destruct tl as [tl|], fl as [fl|]; cbn;
    repeat (match goal with |- context [if ?b then _ else _] => destruct b end); done.
Qed.

(** C26: a reservation is decided by the limits alone: when its run has none yet, the totals it reads fit
    and the limits are valid, the call succeeds; it is refused for the tenant exactly when what the tenant
    has reserved, settled and held, and the amount, exceed the tenant's limit, otherwise for the function
    exactly when the function's exceed its limit; a refusal writes no reservation and names the amounts,
    and otherwise exactly the new reservation is written, committing its amount in both scopes. *)
Theorem reserve_decides_by_limits (cs : list bcmd) (r : NewReservation) (now : Timestamp)
    (Hok : Forall bcmd_ok cs) (Hr : bcmd_ok (BReserve r now))
    (Hnew : get_row (nr_reservation_id r) (run_bcmds cs) = None) (Hfit : readable (run_bcmds cs))
    (Ht : is_none_or (nr_tenant_limit r) (λ l, l <=? i64_max) = true)
    (Hf : is_none_or (nr_function_limit r) (λ l, l <=? i64_max) = true) :
  let db := run_bcmds cs in
  let amount := nr_amount_micros r in
  let tenant := committed_in (nr_tenant_id r) TENANT_SCOPE (nr_period r) db in
  let function := committed_in (nr_tenant_id r) (nr_function_id r) (nr_period r) db in
  let refused scope limit committed :=
    ReserveOutcome.Refused (mkLimitRefusal scope (unwrap_or limit 0) (Z.min committed u64_max) amount) in
  let row := reserved_row r now (S (size (bd_rows db))) in
  ∃ db', reserve_tx r now db = Ok
    (if exceeds (nr_tenant_limit r) (tenant + amount) then refused BudgetScope.Tenant (nr_tenant_limit r) tenant
     else if exceeds (nr_function_limit r) (function + amount)
     then refused BudgetScope.Function_ (nr_function_limit r) function
     else ReserveOutcome.Reserved, db') ∧
  if exceeds (nr_tenant_limit r) (tenant + amount) || exceeds (nr_function_limit r) (function + amount)
  then bd_rows db' = bd_rows db
  else bd_rows db' = <[nr_reservation_id r := row]> (bd_rows db) ∧
       committed_in (nr_tenant_id r) TENANT_SCOPE (nr_period r) db' = tenant + to_i64 amount ∧
       committed_in (nr_tenant_id r) (nr_function_id r) (nr_period r) db' = function + to_i64 amount.
Proof.
  pose proof (run_bcmds_wf cs Hok) as Hwf. destruct Hr as [[Ha0 Ha1] Hfn]. cbv zeta.
  generalize dependent (run_bcmds cs). intros db Hnew Hfit Hwf.
  set (T := stored_totals (nr_tenant_id r) TENANT_SCOPE (nr_period r) db).
  set (F := stored_totals (nr_tenant_id r) (nr_function_id r) (nr_period r) db).
  assert (HT : nonneg T) by by apply wf_nonneg. assert (HF : nonneg F) by by apply wf_nonneg.
  pose proof (readable_fits db Hfit) as Hfits.
  assert (Hmoved : ∀ t, nonneg t → nonneg (moved refusal_delta t) ∧
    nonneg (moved (mkDelta (to_i64 (nr_amount_micros r)) 0 0 0 1 1 0 0 0 0) t)).
  { intros t. unfold nonneg, to_i64, i64_max. cbn. lia. }
  unfold committed_in. cbv zeta. fold T F.
  rewrite !exceeds_saturating by done. unfold reserve_tx. rewrite Hnew, !totals_row_total by apply Hfits. cbn [mbind result_bind].
  rewrite over_limit_cases. fold T F.
  rewrite <-!committed_exact by (done || apply Hfits).
  destruct (both_apply (nr_tenant_id r) (nr_function_id r) (nr_period r) refusal_delta db Hfn) as (d1 & d2 & E1 & E2);
    [by apply Hmoved|by apply Hmoved|].
  destruct (exceeds (nr_tenant_limit r) _) eqn:Ht'.
  { destruct (nr_tenant_limit r) as [l|]; [|done]. cbn [fmap option_fmap option_map].
    rewrite E1. cbn [mbind result_bind]. rewrite E2. exists d2. split; [done|].
    by destruct (totals_rows_frame _ _ _ _ _ _ _ E1 E2). }
  destruct (exceeds (nr_function_limit r) _) eqn:Hf'.
  { destruct (nr_function_limit r) as [l|]; [|done]. cbn [fmap option_fmap option_map].
    rewrite E1. cbn [mbind result_bind]. rewrite E2. exists d2. split; [done|].
    by destruct (totals_rows_frame _ _ _ _ _ _ _ E1 E2). }
  set (row := reserved_row r now (S (size (bd_rows db)))). set (d := mkDelta _ _ _ _ _ _ _ _ _ _).
  destruct (both_apply (nr_tenant_id r) (nr_function_id r) (nr_period r) d
    (db <| bd_rows ::= λ m, <[nr_reservation_id r := row]> m |>) Hfn) as (g1 & g2 & G1 & G2);
    [by apply Hmoved|by apply Hmoved|].
  rewrite G1. cbn [mbind result_bind]. rewrite G2. exists g2. split; [done|].
  destruct (both_deltas _ _ _ _ _ _ _ Hfn G1 G2) as (Hrows & _ & Htot). split; [done|].
  destruct (Htot (nr_tenant_id r) TENANT_SCOPE (nr_period r)) as [-> _].
  destruct (Htot (nr_tenant_id r) (nr_function_id r) (nr_period r)) as [-> _].
  assert (Hm : ∀ s, s = TENANT_SCOPE ∨ s = nr_function_id r → moves_scope (nr_tenant_id r) (nr_function_id r)
    (nr_period r) (nr_tenant_id r) s (nr_period r) = true).
  { intros s Hs. unfold moves_scope. repeat (case_bool_decide; try done). destruct Hs; congruence. }
  rewrite !Hm by auto. unfold T, F, stored_totals. cbn. lia.
Qed.

(** ** Witnesses *)

Definition reservation_use (id : string) (amount : Z) (limit : option Z) : NewReservation :=
  mkNewReservation id "tn_a" "fn_a" "inv_a" "2026-09" amount (seconds 600) "v1" 1 limit None.
Definition alerts_use : AlertLimits := mkAlertLimits (Some (mkBudgetLimits (Some 100) [50; 100; 200] (Some 300))) None.
(** Two runs within a limit of 300, the second measured above its reservation; a third is refused, and a
    fourth never reports back. *)
Definition cmds_budget : list bcmd :=
  [BReserve (reservation_use "r1" 100 (Some 300)) 0; BReserve (reservation_use "r2" 100 (Some 300)) 0;
   BFinish "r1" ["at_1"] true (Some 1) (seconds 1); BReserve (reservation_use "r3" 101 (Some 300)) (seconds 1);
   BReserve (reservation_use "r4" 100 (Some 300)) (seconds 1);
   BSettle "r1" (mkSettlement 60 true) (seconds 2) alerts_use; BFinish "r2" ["at_2"] true (Some 2) (seconds 2);
   BSettle "r2" (mkSettlement 130 true) (seconds 3) alerts_use; BExpire "r4" (seconds 700) alerts_use].
Abbreviation budget_use := (run_bcmds cmds_budget).

Lemma cmds_budget_ok : Forall bcmd_ok cmds_budget.
Proof. repeat apply Forall_cons_2; try apply Forall_nil_2; cbn; unfold u64_range, u64_max; try split; try done; lia. Qed.
Lemma budget_use_in_range : in_range cmds_budget.
Proof. apply in_range_check, (bool_decide_unpack _). unfold fits. vm_compute. exact I. Qed.
Lemma budget_use_readable : readable budget_use.
Proof. apply in_range_readable, budget_use_in_range. Qed.
Lemma cmds_budget_limited : Forall (limited "tn_a" TENANT_SCOPE "2026-09" 300) cmds_budget.
Proof.
  repeat apply Forall_cons_2; try apply Forall_nil_2; try exact I; intros _; exists 300; by split.
Qed.

Lemma totals_match_reservations_witness :
  (∀ tenant scope period, totals_exact budget_use tenant scope period) ∧
  verify_totals_tx budget_use = Ok (None, budget_use).
Proof. exact (totals_match_reservations cmds_budget cmds_budget_ok budget_use_in_range). Defined.

(** 60 and 130 settled and 100 held, with 30 of overrun. *)
Lemma hard_limit_bounds_commitment_witness :
  to_settled_micros (stored_totals "tn_a" TENANT_SCOPE "2026-09" budget_use) = 190 ∧
  to_overrun_micros (stored_totals "tn_a" TENANT_SCOPE "2026-09" budget_use) = 30 ∧
  let t := stored_totals "tn_a" TENANT_SCOPE "2026-09" budget_use in
  to_reserved_micros t + to_settled_micros t + to_held_micros t ≤ 300 + to_overrun_micros t.
Proof.
  split; [vm_compute; reflexivity|]. split; [vm_compute; reflexivity|].
  exact (hard_limit_bounds_commitment cmds_budget "tn_a" TENANT_SCOPE "2026-09" 300 cmds_budget_ok
    cmds_budget_limited ltac:(unfold i64_max; lia)).
Defined.

Definition settled_use : BudgetReservation :=
  mkBudgetReservation (mkReservationRow "r1" "tn_a" "fn_a" "inv_a" "2026-09" ReservationState.Settled 100 60 0 0 0
    (seconds 600) (Some (seconds 1)) (Some true) ["at_1"] (Some 1)) "v1" 1 (Some (seconds 2)) (Some "settled") 1.

Lemma settled_use_at : bd_rows (run_bcmds (take 6 cmds_budget)) !! "r1" = Some settled_use.
Proof. vm_compute. reflexivity. Qed.

Lemma closed_reservation_is_final_witness :
  release_tx "r1" 0 (run_bcmds (take 6 cmds_budget ++ drop 6 cmds_budget))
  = Ok (mkTransition ReservationState.Settled false [], run_bcmds (take 6 cmds_budget ++ drop 6 cmds_budget)).
Proof.
  exact (proj1 (proj2 (proj2 (proj2 (closed_reservation_is_final (take 6 cmds_budget) (drop 6 cmds_budget) "r1" settled_use
    settled_use_at ltac:(discriminate))))) 0).
Defined.

(** At 60 the half is crossed, at 190 all of it, at 290 twice as much. *)
Example alerts_fired_use : af_threshold_percent <$> run_fired cmds_budget = [50; 100; 200].
Proof. vm_compute. reflexivity. Qed.

Lemma alerts_fire_once_witness : NoDup (alert_key <$> run_fired cmds_budget).
Proof. exact (proj1 (alerts_fire_once cmds_budget)). Defined.

Definition next_use : NewReservation := reservation_use "r5" 40 (Some 300).

Lemma next_use_ok : bcmd_ok (BReserve next_use (seconds 800)).
Proof. split; [split; by vm_compute|discriminate]. Qed.

Lemma reserve_decides_by_limits_witness :
  ∃ db', reserve_tx next_use (seconds 800) budget_use
    = Ok (ReserveOutcome.Refused (mkLimitRefusal BudgetScope.Tenant 300 290 40), db') ∧
  bd_rows db' = bd_rows budget_use.
Proof.
  destruct (reserve_decides_by_limits cmds_budget next_use (seconds 800) cmds_budget_ok
    next_use_ok ltac:(vm_compute; reflexivity) budget_use_readable eq_refl eq_refl)
    as (db' & H & Hrows).
  exists db'. split; [exact H|exact Hrows].
Defined.
