(* ===== verification/BudgetCharge.v ===== *)
(** * Budgets: the maximum charge of a run

    [crates/application/src/budget/charge.rs] and [rated] of [mod.rs]: what a reservation reserves,
    from upper bounds of every rated quantity, and what the settled attempts of a run are charged. The
    maximum covers the charge of every run that keeps within its bounds. *)

From S2P Require Import Prelude Ids Usage UsageJournal UsageLedger Store Retry AsyncRun AsyncFront UsageMeter.
From S2P Require Import UsageScenario Calendar Cron Rating RatingInv RatingProps.

Open Scope string_scope.
Open Scope Z_scope.

(** [crates/application/src/budget/charge.rs:34-35 UNBOUNDED_SEGMENTS] *)
Definition UNBOUNDED_SEGMENTS : list string := ["teardown_ms"; "idle_pooled_ms"].

(** [crates/application/src/budget/charge.rs:37-52 RunBounds] *)
Record RunBounds := mkRunBounds {
  rb_cpu_millis : Z;
  rb_memory_mib : Z;
  rb_window_ms : Z;
  rb_queue_timeout_ms : Z;
  rb_init_timeout_ms : Z;
  rb_handshake_timeout_ms : Z;
  rb_execution_timeout_ms : Z;
  rb_cancel_grace_ms : Z;
  rb_request_bytes : Z;
  rb_max_response_bytes : Z;
  rb_slack_ms : Z
}.

(** [crates/application/src/budget/charge.rs:54-64 MaxCharge] *)
Record MaxCharge := mkMaxCharge {
  mc_billable_ms : Z;
  mc_transfer_bytes : Z;
  mc_vcpu_micros : Z;
  mc_memory_micros : Z;
  mc_invocation_micros : Z;
  mc_transfer_micros : Z;
  mc_total_micros : Z
}.

(** [crates/application/src/budget/charge.rs:66-78 check_table] *)
Definition check_table (t : PriceTable) : result string unit :=
  match List.find (λ s, bool_decide (s ∈ UNBOUNDED_SEGMENTS)) (pt_billable_segments t) with
  | Some s => Err ("[budget] price table " +:+ pt_version t +:+ " bills `" +:+ s +:+ "`, whose duration no reservation can bound; budgets need a table without it")
  | None => Ok tt
  end.

(** [crates/application/src/budget/charge.rs:84-91 max_charge (part)] The bound of one segment. *)
Definition segment_bound (b : RunBounds) (s : string) : Z :=
  if s == "queue_wait_ms" then rb_queue_timeout_ms b
  else if s == "vm_base_boot_ms" then rb_window_ms b
  else if s == "user_init_ms" then u64_saturating_add (rb_init_timeout_ms b) (rb_handshake_timeout_ms b)
  else if s == "handler_ms" then u64_saturating_add (rb_execution_timeout_ms b) (rb_cancel_grace_ms b)
  else rb_window_ms b.

(** [crates/application/src/budget/charge.rs:92-92 max_charge (part)] *)
Definition in_one_attempt (s : string) : bool := (s == "user_init_ms") || (s == "handler_ms").

(** [crates/application/src/budget/charge.rs:80-132 max_charge] *)
Definition max_charge (t : PriceTable) (b : RunBounds) : MaxCharge :=
  let '(per_attempt, only_single_attempt_segments) :=
    foldl (λ acc s,
      let only := if negb (in_one_attempt s) then false else acc.2 in
      (u64_saturating_add acc.1 (segment_bound b s), only)) (0, true) (pt_billable_segments t) in
  let attempts := if only_single_attempt_segments then 1 else 2 in
  let billable_ms := u64_saturating_add
    (Z.min (u64_saturating_mul per_attempt attempts)
           (u64_saturating_add (rb_window_ms b) (rb_cancel_grace_ms b)))
    (rb_slack_ms b) in
  let transfer_bytes := u64_saturating_add (u64_saturating_mul (rb_request_bytes b) 2) (rb_max_response_bytes b) in
  let p := pt_unit_prices_micros t in
  let vcpu := charge (u128_mul billable_ms (rb_cpu_millis b)) (up_vcpu_second p) VCPU_MILLI_MS_PER_VCPU_SECOND in
  let memory := charge (u128_mul billable_ms (rb_memory_mib b)) (up_gib_second p) MIB_MS_PER_GIB_SECOND in
  let invocation := charge 1 (up_invocation p) 1 in
  let transfer := charge transfer_bytes (up_gb_transferred p) BYTES_PER_GB in
  mkMaxCharge billable_ms transfer_bytes vcpu memory invocation transfer
    (u64_saturating_add (u64_saturating_add (u64_saturating_add vcpu memory) invocation) transfer).

(** [crates/application/src/budget/mod.rs:1010-1026 rated] *)
Definition rated (day_of : Timestamp → string) (events : list UsageEvent) (t : PriceTable) : Z * bool :=
  match events with
  | [] => (0, true)
  | _ =>
      let totals := (Rating.rate day_of events t (mkGroupBy false false)).2 in
      let fully := (um_attempts (ln_unmetered totals) =? 0) && (um_bytes (ln_unmetered totals) =? 0) in
      (ch_total (ln_provisional_charges_micros totals), fully)
  end.

(** ** A run within its bounds *)

(** What is measured of a billable segment. *)
Definition measured (t : PriceTable) (name : string) (e : UsageEvent) : Z :=
  if bool_decide (name ∈ pt_billable_segments t)
  then unwrap_or (m ← Segments.get name (ue_segments e); metered_value m) 0 else 0.

Definition requested (e : UsageEvent) : Z := unwrap_or (metered_value (ub_request_bytes (ue_bytes e))) 0.
Definition responded (e : UsageEvent) : Z := unwrap_or (metered_value (ub_response_bytes (ue_bytes e))) 0.

(** The settled attempts of one run: at most two, one of which retries the other; each with the
    resources that were reserved and every segment within its bound; user code is initialised and the
    handler runs in one of them only, and only one is answered; they run one after the other inside the
    window, its grace and the slack. *)
Record run_within (t : PriceTable) (b : RunBounds) (events : list UsageEvent) : Prop := {
  rw_settled : ∀ e, e ∈ events → settled e = true;
  rw_attempts : over_attempts (λ _, 1) events ≤ 2;
  rw_first : over_attempts (λ e, if retried e then 0 else 1) events ≤ 1;
  rw_resources : ∀ e, e ∈ events →
    ur_requested_cpu_millis (ue_resources e) = rb_cpu_millis b ∧
    ur_requested_memory_mib (ue_resources e) = rb_memory_mib b;
  rw_segments : ∀ e name, e ∈ events → measured t name e ≤ segment_bound b name;
  rw_once : ∀ name, in_one_attempt name = true → over_attempts (measured t name) events ≤ segment_bound b name;
  rw_serial : over_attempts (billable_ms t) events ≤ rb_window_ms b + rb_cancel_grace_ms b + rb_slack_ms b;
  rw_request : ∀ e, e ∈ events → requested e ≤ rb_request_bytes b;
  rw_response : over_attempts responded events ≤ rb_max_response_bytes b
}.

(** Unsigned bounds that do not overflow when they are added. *)
Definition bounds_fit (b : RunBounds) : Prop :=
  Forall (Z.le 0) [rb_cpu_millis b; rb_memory_mib b; rb_window_ms b; rb_queue_timeout_ms b; rb_init_timeout_ms b;
    rb_handshake_timeout_ms b; rb_execution_timeout_ms b; rb_cancel_grace_ms b; rb_request_bytes b;
    rb_max_response_bytes b; rb_slack_ms b] ∧
  rb_cpu_millis b ≤ u32_max ∧ rb_memory_mib b ≤ u32_max ∧
  rb_window_ms b + rb_cancel_grace_ms b + rb_slack_ms b ≤ u64_max ∧
  2 * rb_request_bytes b + rb_max_response_bytes b ≤ u64_max.

(** ** Lemmas *)

(** A sum over the settled attempts is bounded attempt by attempt. *)
Lemma over_attempts_le f g events :
  (∀ e, e ∈ events → settled e = true → f e ≤ g e) → over_attempts f events ≤ over_attempts g events.
Proof.
  unfold over_attempts. induction events as [|e events IH]; intros H; cbn; [done|].
  specialize (IH ltac:(intros e' ??; apply H; [set_solver|done])). specialize (H e ltac:(set_solver)).
  fold (zsum ((λ e, if settled e then f e else 0) <$> events)).
  fold (zsum ((λ e, if settled e then g e else 0) <$> events)). destruct (settled e); [specialize (H eq_refl)|]; lia.
Qed.

Lemma over_attempts_scale k f events : over_attempts (λ e, k * f e) events = k * over_attempts f events.
Proof.
  induction events as [|e events IH] using rev_ind; [cbn; lia|]. rewrite !over_attempts_snoc, IH.
  destruct (settled e); lia.
Qed.

Lemma over_attempts_add f g events :
  over_attempts (λ e, f e + g e) events = over_attempts f events + over_attempts g events.
Proof.
  induction events as [|e events IH] using rev_ind; [cbn; lia|]. rewrite !over_attempts_snoc, IH.
  destruct (settled e); lia.
Qed.

Lemma over_attempts_names (f : string → UsageEvent → Z) names events :
  over_attempts (λ e, zsum ((λ n, f n e) <$> names)) events = zsum ((λ n, over_attempts (f n) events) <$> names).
Proof.
  induction names as [|n names IH].
  - cbn. induction events as [|e events IH'] using rev_ind; [done|]. rewrite over_attempts_snoc, IH'.
    by destruct (settled e).
  - rewrite fmap_cons, zsum_cons, <-IH, <-over_attempts_add. done.
Qed.

Lemma over_attempts_const k events : over_attempts (λ _, k) events = k * over_attempts (λ _, 1) events.
Proof.
  induction events as [|e events IH] using rev_ind; [cbn; lia|]. rewrite !over_attempts_snoc, IH.
  destruct (settled e); lia.
Qed.

Lemma zsum_le {A} (f g : A → Z) l : (∀ a, a ∈ l → f a ≤ g a) → zsum (f <$> l) ≤ zsum (g <$> l).
Proof.
  induction l as [|a l IH]; intros H; [done|]. rewrite !fmap_cons, !zsum_cons.
  specialize (IH ltac:(set_solver)). specialize (H a ltac:(set_solver)). lia.
Qed.

Lemma zsum_submseteq {A} (f : A → Z) l l' : (∀ a, 0 ≤ f a) → l ⊆+ l' → zsum (f <$> l) ≤ zsum (f <$> l').
Proof.
  intros Hf. induction 1 as [|a l l' _ IH|a b l|a l l' _ IH|l1 l2 l3 _ IH1 _ IH2];
    rewrite ?fmap_cons, ?zsum_cons; try specialize (Hf a); lia.
Qed.

Lemma over_attempts_nonneg f events :
  (∀ e, e ∈ events → settled e = true → 0 ≤ f e) → 0 ≤ over_attempts f events.
Proof.
  intros H. etrans; [|exact (over_attempts_le (λ _, 0) f events H)].
  pose proof (over_attempts_const 0 events) as ->. lia.
Qed.

(** What a billable segment of an event counts. *)
Definition segment_value (t : PriceTable) (nm : string * Metered) : Z :=
  if bool_decide (nm.1 ∈ pt_billable_segments t) then unwrap_or (metered_value nm.2) 0 else 0.

Lemma foldl_segments_le t l ms : foldl (segment_ms t) ms l ≤ ms + zsum (segment_value t <$> l).
Proof.
  revert ms. induction l as [|nm l IH]; intros ms; [cbn; lia|].
  cbn [foldl]. rewrite fmap_cons, zsum_cons. etrans; [apply IH|].
  enough (segment_ms t ms nm ≤ ms + segment_value t nm) by lia.
  unfold segment_ms, segment_value. destruct (bool_decide _); [|lia].
  destruct (metered_value nm.2); cbn; unfold u64_saturating_add; lia.
Qed.

Lemma billable_le t e : billable_ms t e ≤ zsum ((λ n, measured t n e) <$> SEGMENT_NAMES).
Proof. unfold billable_ms. etrans; [apply foldl_segments_le|]. rewrite Z.add_0_l. by unfold measured. Qed.

Lemma measured_nonneg t n e : event_ok e → 0 ≤ measured t n e.
Proof.
  intros He. unfold measured. destruct (bool_decide _); [|done]. unfold Segments.get.
  destruct (List.find _ _) as [[n' m]|] eqn:E; [|done]. cbn.
  apply List.find_some in E as [Hin%list_elem_of_In _]. pose proof (eo_segments _ He) as Hs.
  rewrite Forall_forall in Hs. specialize (Hs _ Hin). rewrite metered_value_eq. by apply (opt_default _ (ratable_opt _ Hs)).
Qed.

Lemma segment_bound_nonneg b s : bounds_fit b → 0 ≤ segment_bound b s.
Proof.
  intros [Hb _]. repeat match goal with H : Forall _ (_ :: _) |- _ => apply Forall_cons in H as [? H] end.
  unfold segment_bound, u64_saturating_add, u64_max. repeat case_bool_decide; lia.
Qed.

(** The sums of the loop of [max_charge]. *)
Lemma attempt_fold b l m only : bounds_fit b →
  foldl (λ acc s, (u64_saturating_add acc.1 (segment_bound b s),
    if negb (in_one_attempt s) then false else acc.2)) (Z.min m u64_max, only) l
  = (Z.min (m + zsum (segment_bound b <$> l)) u64_max, only && forallb in_one_attempt l).
Proof.
  intros Hb. revert m only. induction l as [|s l IH]; intros m only.
  { cbn. by rewrite Z.add_0_r, andb_true_r. }
  pose proof (segment_bound_nonneg b s Hb). cbn [foldl forallb fst snd]. rewrite fmap_cons, zsum_cons.
  unfold u64_saturating_add at 2.
  replace (Z.min (Z.min m u64_max + segment_bound b s) u64_max) with (Z.min (m + segment_bound b s) u64_max) by lia.
  rewrite IH. f_equal; [f_equal; lia|]. by destruct only, (in_one_attempt s).
Qed.

Definition attempts_of (t : PriceTable) : Z := if forallb in_one_attempt (pt_billable_segments t) then 1 else 2.
Definition per_attempt (t : PriceTable) (b : RunBounds) : Z := zsum (segment_bound b <$> pt_billable_segments t).

Lemma max_billable t b : bounds_fit b →
  mc_billable_ms (max_charge t b) = u64_saturating_add
    (Z.min (u64_saturating_mul (Z.min (per_attempt t b) u64_max) (attempts_of t))
       (u64_saturating_add (rb_window_ms b) (rb_cancel_grace_ms b))) (rb_slack_ms b).
Proof.
  intros Hb. unfold max_charge. pose proof (attempt_fold b (pt_billable_segments t) 0 true Hb) as H.
  change (Z.min 0 u64_max) with 0 in H. cbv zeta in *. rewrite H. cbn. done.
Qed.

Section covered.
Context (t : PriceTable) (b : RunBounds) (events : list UsageEvent).
Context (Hb : bounds_fit b) (Hok : Forall event_ok events) (Hrun : run_within t b events).

Lemma segment_covered name :
  over_attempts (measured t name) events ≤
  if bool_decide (name ∈ pt_billable_segments t) then attempts_of t * segment_bound b name else 0.
Proof.
  destruct (bool_decide (name ∈ _)) eqn:Hin.
  2: { etrans; [apply (over_attempts_le _ (λ _, 0))|rewrite over_attempts_const; lia].
       intros e _ _. unfold measured. by rewrite Hin. }
  bools. unfold attempts_of. destruct (forallb _ _) eqn:Hall.
  - rewrite Z.mul_1_l. apply (rw_once t b events Hrun). rewrite forallb_forall in Hall. by apply Hall, list_elem_of_In.
  - etrans; [apply (over_attempts_le _ (λ _, segment_bound b name))|].
    + intros e He Hs. by apply (rw_segments t b events Hrun).
    + rewrite over_attempts_const. pose proof (rw_attempts t b events Hrun). pose proof (segment_bound_nonneg b name Hb). nia.
Qed.

Lemma bounds_of_billable :
  zsum ((λ n, if bool_decide (n ∈ pt_billable_segments t) then attempts_of t * segment_bound b n else 0) <$> SEGMENT_NAMES)
  ≤ attempts_of t * per_attempt t b.
Proof.
  assert (Hf : ∀ names, zsum ((λ n, if bool_decide (n ∈ pt_billable_segments t) then attempts_of t * segment_bound b n else 0) <$> names)
    = attempts_of t * zsum (segment_bound b <$> List.filter (λ n, bool_decide (n ∈ pt_billable_segments t)) names)).
  { induction names as [|n names IH]; [cbn; lia|]. rewrite fmap_cons, zsum_cons, IH. cbn [List.filter].
    destruct (bool_decide _); rewrite ?fmap_cons, ?zsum_cons; lia. }
  rewrite Hf. apply Z.mul_le_mono_nonneg_l; [unfold attempts_of; by destruct (forallb _ _)|].
  apply zsum_submseteq; [intros s; by apply segment_bound_nonneg|]. apply NoDup_submseteq.
  - apply NoDup_ListNoDup, List.NoDup_filter, NoDup_ListNoDup. by apply (bool_decide_unpack _); vm_compute.
  - intros n [_ Hn]%list_elem_of_In%List.filter_In. by bools.
Qed.

Lemma billable_covered : 0 ≤ over_attempts (billable_ms t) events ≤ mc_billable_ms (max_charge t b).
Proof.
  rewrite Forall_forall in Hok. split.
  { apply over_attempts_nonneg. intros e He _. by apply (billable_range t e (Hok e He)). }
  assert (H : over_attempts (billable_ms t) events ≤ attempts_of t * per_attempt t b).
  { etrans; [apply (over_attempts_le _ (λ e, zsum ((λ n, measured t n e) <$> SEGMENT_NAMES)))|].
    - intros e _ _. apply billable_le.
    - rewrite over_attempts_names. etrans; [|apply bounds_of_billable]. apply zsum_le. intros n _. apply segment_covered. }
  pose proof (rw_serial t b events Hrun) as Hs. destruct Hb as (Hpos & _ & _ & Hfit & _).
  repeat match goal with H : Forall _ (_ :: _) |- _ => apply Forall_cons in H as [? H] end.
  rewrite max_billable by done. unfold attempts_of in *. unfold u64_saturating_add, u64_saturating_mul.
  destruct (forallb _ _); lia.
Qed.

Lemma transfer_covered : 0 ≤ over_attempts transferred events ≤ mc_transfer_bytes (max_charge t b).
Proof.
  rewrite Forall_forall in Hok. split.
  { apply over_attempts_nonneg. intros e He _. by apply (quantity_bounds t e (Hok e He)). }
  assert (H : over_attempts transferred events ≤ 2 * rb_request_bytes b + rb_max_response_bytes b).
  { change transferred with (λ e, requested e + responded e). rewrite over_attempts_add.
    pose proof (rw_response t b events Hrun).
    assert (over_attempts requested events ≤ rb_request_bytes b * over_attempts (λ _, 1) events).
    { rewrite <-over_attempts_const. apply over_attempts_le. intros e He _. by apply (rw_request t b events Hrun). }
    pose proof (rw_attempts t b events Hrun). destruct Hb as (Hpos & _).
    repeat match goal with H : Forall _ (_ :: _) |- _ => apply Forall_cons in H as [? H] end. nia. }
  destruct Hb as (Hpos & _ & _ & _ & Hfit).
  repeat match goal with H : Forall _ (_ :: _) |- _ => apply Forall_cons in H as [? H] end.
  unfold max_charge. cbv zeta. destruct (foldl _ _ _). cbn. unfold u64_saturating_add, u64_saturating_mul. lia.
Qed.

(** The resources of every attempt are the reserved ones. *)
Lemma resource_covered (r : UsageEvent → Z) (v : Z) :
  (∀ e, e ∈ events → settled e = true → r e = v) → 0 ≤ v →
  0 ≤ over_attempts (λ e, billable_ms t e * r e) events ≤ mc_billable_ms (max_charge t b) * v.
Proof.
  intros Hr Hv. pose proof billable_covered as [H0 H1].
  assert (E : over_attempts (λ e, billable_ms t e * r e) events = v * over_attempts (billable_ms t) events).
  { rewrite <-over_attempts_scale. apply Z.le_antisymm; apply over_attempts_le; intros e He Hs; rewrite (Hr e He Hs); lia. }
  rewrite E. nia.
Qed.
End covered.

(** *** The charge of a run *)

Section rated.
Context (day_of : Timestamp → string) (t : PriceTable).

Lemma charge_nonneg q p d : 0 ≤ q → 0 ≤ p → 0 < d → 0 ≤ charge q p d.
Proof.
  intros Hq Hp Hd. unfold charge, round_half_up_div, u128_saturating_mul, u128_max, u64_max.
  apply Z.min_glb; [|lia]. apply Z.add_nonneg_nonneg; [|by case_match].
  apply Z.div_pos; [|done]. apply Z.min_glb; [nia|done].
Qed.

Lemma charges_range a : acc_ok a → prices_ok t → u64_range (ch_total (Accs.charges_of t a)).
Proof.
  intros [(Hu & _ & _) [Hv _] [Hm _] [Ht _] _ _ _] Hp. unfold prices_ok in Hp. fields. unfold u64_range in *.
  unfold Accs.charges_of. cbn.
  pose proof (charge_nonneg _ (up_vcpu_second (pt_unit_prices_micros t)) VCPU_MILLI_MS_PER_VCPU_SECOND Hv ltac:(lia) ltac:(done)).
  pose proof (charge_nonneg _ (up_gib_second (pt_unit_prices_micros t)) MIB_MS_PER_GIB_SECOND Hm ltac:(lia) ltac:(done)).
  pose proof (charge_nonneg (uq_invocations (ac_usage a)) (up_invocation (pt_unit_prices_micros t)) 1 ltac:(lia) ltac:(lia) ltac:(done)).
  pose proof (charge_nonneg _ (up_gb_transferred (pt_unit_prices_micros t)) BYTES_PER_GB Ht ltac:(lia) ltac:(done)).
  unfold u64_saturating_add, u64_max. lia.
Qed.

(** All events of a run are in one group. *)
Lemma one_group events : events ≠ [] →
  Rating.add_events day_of t (mkGroupBy false false) events = {[ (None, None) := acc_of t events ]}.
Proof.
  intros Hne.
  assert (Hg : ∀ k, group day_of (mkGroupBy false false) k events = if bool_decide ((None, None) = k) then events else []).
  { intros k. unfold group, Rating.line_key. cbn. clear. induction events as [|e events IH]; cbn; [by case_bool_decide|].
    rewrite IH. by case_bool_decide. }
  apply map_eq. intros k. rewrite add_events_lookup, Hg. destruct (decide (k = (None, None))) as [->|Hk].
  - rewrite bool_decide_eq_true_2, lookup_singleton_eq by done. by destruct events.
  - by rewrite bool_decide_eq_false_2, lookup_singleton_ne by congruence.
Qed.

Lemma rated_one_line events : events ≠ [] → Forall event_ok events → prices_ok t →
  ch_total (ln_provisional_charges_micros (Rating.rate day_of events t (mkGroupBy false false)).2)
  = ch_total (Accs.charges_of t (acc_of t events)).
Proof.
  intros Hne Hok Hp. unfold Rating.rate. rewrite one_group by done. unfold btree_entries. rewrite map_to_list_singleton. cbn -[acc_of Accs.charges_of].
  pose proof (charges_range (acc_of t events) (acc_of_ok t events Hok) Hp). unfold u64_saturating_add. unfold u64_range in *. lia.
Qed.

Lemma rated_range events : Forall event_ok events → prices_ok t → u64_range (rated day_of events t).1.
Proof.
  intros Hok Hp. unfold rated. destruct events as [|e l] eqn:E; [by split|]. cbv zeta. cbn [fst].
  rewrite rated_one_line by done. by apply charges_range; [apply acc_of_ok|].
Qed.

(** *** Whether all was measured *)

(** Nothing that may be charged of an attempt is missing: the segments the table lists, the resources
    that were asked for, and the payloads. *)
Record fully_metered (e : UsageEvent) : Prop := {
  fm_segments : ∀ name m, (name, m) ∈ Segments.named (ue_segments e) → name ∈ pt_billable_segments t →
    is_Some (metered_value m);
  fm_cpu : ur_requested_cpu_millis (ue_resources e) ≠ 0;
  fm_memory : ur_requested_memory_mib (ue_resources e) ≠ 0;
  fm_request : is_Some (metered_value (ub_request_bytes (ue_bytes e)));
  fm_response : is_Some (metered_value (ub_response_bytes (ue_bytes e)))
}.

Definition bytes_missing (e : UsageEvent) : bool :=
  is_none (metered_value (ub_request_bytes (ue_bytes e))) || is_none (metered_value (ub_response_bytes (ue_bytes e))).

Lemma segments_missing l b : foldl (segment_unknown t) b l = false ↔
  b = false ∧ ∀ name m, (name, m) ∈ l → name ∈ pt_billable_segments t → is_Some (metered_value m).
Proof.
  revert b. induction l as [|[n x] l IH]; intros b; cbn [foldl].
  { split; [intros ->; split; [done|by intros ?? ?%elem_of_nil]|by intros []]. }
  rewrite IH. unfold segment_unknown. cbn [fst snd]. clear IH. case_bool_decide as Hn.
  - destruct (metered_value x) as [v|] eqn:E.
    + split; intros [-> H0]; (split; [done|]).
      * intros name m [[= -> ->]|Hin]%elem_of_cons; [by rewrite E|by apply H0].
      * intros name m Hin. apply H0. by right.
    + split; [by intros []|]. intros [_ H0]. specialize (H0 n x (list_elem_of_here _ _) Hn). rewrite E in H0. by destruct H0.
  - split; intros [-> H0]; (split; [done|]).
    + intros name m [[= -> ->]|Hin]%elem_of_cons; [by intros ?|by apply H0].
    + intros name m Hin. apply H0. by right.
Qed.

Lemma fully_metered_iff e : fully_metered e ↔ not_measured t e = false ∧ bytes_missing e = false.
Proof.
  unfold not_measured, bytes_missing. rewrite !orb_false_iff, segments_missing, !Z.eqb_neq.
  assert (Ho : ∀ o : option Z, is_none o = false ↔ is_Some o) by (intros [v|]; split; [by exists v|done|done|by intros [? ?]]).
  rewrite !Ho. split; [by intros [? ? ? ? ?]|]. intros ([[[_ ?] ?] ?] & ? & ?). by split.
Qed.

Lemma add_unmetered e a :
  um_attempts (ac_unmetered (Accs.add t e a))
    = (if settled e && not_measured t e then u64_add (um_attempts (ac_unmetered a)) 1 else um_attempts (ac_unmetered a)) ∧
  um_bytes (ac_unmetered (Accs.add t e a))
    = (if settled e && bytes_missing e then u64_add (um_bytes (ac_unmetered a)) 1 else um_bytes (ac_unmetered a)).
Proof.
  assert (Hg : ∀ g b, ac_unmetered (Accs.add_guest g b) = ac_unmetered b).
  { intros g b. unfold Accs.add_guest. by destruct (gu_guest_handler_ms g), (gu_guest_init_ms g). }
  assert (Hs : ∀ l b, um_attempts (ac_unmetered (foldl segment_acc b l)) = um_attempts (ac_unmetered b)
                      ∧ um_bytes (ac_unmetered (foldl segment_acc b l)) = um_bytes (ac_unmetered b)).
  { intros l b. apply (foldl_inv (λ b', um_attempts (ac_unmetered b') = um_attempts (ac_unmetered b)
      ∧ um_bytes (ac_unmetered b') = um_bytes (ac_unmetered b))); [done|].
    intros b' nm _ H. unfold segment_acc. by destruct (Meter.ratable_value nm.2). }
  unfold Accs.add. rewrite Hg. unfold settled.
  destruct (ue_event_type e) eqn:Ety; rewrite ?bool_decide_eq_true_2, ?bool_decide_eq_false_2 by done; try done.
  rewrite add_attempt_eq. cbn [pipe attempt_steps foldl].
  match goal with |- context [foldl segment_acc ?x ?l] =>
    pose proof (Hs l x) as [H1 H2]; set (b := foldl segment_acc x l) in * end.
  cbn -[b] in H1, H2. unfold Accs.add_bytes, bytes_missing. rewrite !metered_value_eq.
  destruct (Meter.ratable_value (ub_request_bytes (ue_bytes e))), (Meter.ratable_value (ub_response_bytes (ue_bytes e))),
    (not_measured t e); cbn -[b u64_add]; unfold Accs.bump; by rewrite H1, H2.
Qed.

Lemma unmetered_counts events : few events →
  um_attempts (ac_unmetered (acc_of t events)) = count_of (λ e, settled e && not_measured t e) events ∧
  um_bytes (ac_unmetered (acc_of t events)) = count_of (λ e, settled e && bytes_missing e) events.
Proof.
  unfold few. induction events as [|e events IH] using rev_ind; [done|]. rewrite length_app. cbn [length]. intros Hlen.
  destruct (IH ltac:(lia)) as [I1 I2]. rewrite acc_of_snoc, !count_snoc. destruct (add_unmetered e (acc_of t events)) as [-> ->].
  rewrite I1, I2. pose proof (count_of_bound (λ e, settled e && not_measured t e) events).
  pose proof (count_of_bound (λ e, settled e && bytes_missing e) events). unfold u64_max in *.
  split; [destruct (settled e && not_measured t e)|destruct (settled e && bytes_missing e)];
    rewrite ?u64_add_small by (unfold u64_max; lia); lia.
Qed.

Lemma count_zero p events : count_of p events = 0 ↔ ∀ e, e ∈ events → p e = false.
Proof.
  induction events as [|e events IH]; [split; [by intros _ ? ?%elem_of_nil|done]|].
  unfold count_of in *. rewrite fmap_cons, zsum_cons. pose proof (count_of_bound p events) as Hb. unfold count_of in Hb.
  split.
  - intros H x [->|Hx]%elem_of_cons; [destruct (p e); [lia|done]|]. apply IH; [destruct (p e); lia|done].
  - intros H. rewrite (H e) by by left. rewrite Z.add_0_l. apply IH. intros x Hx. apply H. by right.
Qed.

Lemma one_line_totals events : events ≠ [] → Forall event_ok events →
  let u := ln_unmetered (Rating.rate day_of events t (mkGroupBy false false)).2 in
  um_attempts u = u64_add 0 (um_attempts (ac_unmetered (acc_of t events))) ∧
  um_bytes u = u64_add 0 (um_bytes (ac_unmetered (acc_of t events))).
Proof.
  intros Hne Hok. cbv zeta. unfold Rating.rate. rewrite one_group by done.
  unfold btree_entries. rewrite map_to_list_singleton. cbn -[acc_of]. by split.
Qed.

(** What a run is rated at, and whether that is all of it. *)
Lemma rated_spec events : Forall event_ok events → few events → prices_ok t →
  (rated day_of events t).1 = ch_total (charges_spec t events) ∧
  ((rated day_of events t).2 = true ↔ ∀ e, e ∈ events → settled e = true → fully_metered e).
Proof.
  intros Hok Hfew Hp. unfold rated. destruct events as [|e l] eqn:E.
  { cbn [fst snd]. split; [|split; [intros _ ? H%elem_of_nil; done|done]]. rewrite <-charges_exact by done.
    unfold Accs.charges_of, charge. cbn. unfold u64_saturating_add, u128_saturating_mul. cbn. done. }
  rewrite <-E in *. cbv zeta. cbn [fst snd]. rewrite rated_one_line, charges_exact by (done || by subst). split; [done|].
  destruct (one_line_totals events) as [-> ->]; [by subst|done|]. destruct (unmetered_counts events Hfew) as [-> ->].
  pose proof (count_of_bound (λ e, settled e && not_measured t e) events).
  pose proof (count_of_bound (λ e, settled e && bytes_missing e) events).
  unfold few in Hfew. rewrite !u64_add_small by (unfold u64_max; lia).
  rewrite andb_true_iff, !Z.eqb_eq, !Z.add_0_l, !count_zero. split.
  - intros [H1 H2] x Hx Hs. apply fully_metered_iff. specialize (H1 x Hx). specialize (H2 x Hx). by rewrite Hs in H1, H2.
  - intros H'. split; intros x Hx; destruct (settled x) eqn:Hs; try done; by apply (fully_metered_iff x), H'.
Qed.
End rated.

Lemma charge_mono q q' p per : 0 ≤ q ≤ q' → 0 ≤ p → 0 < per ≤ 2 ^ 40 → 0 ≤ charge q p per ≤ charge q' p per.
Proof.
  intros Hq Hp Hper. rewrite !charge_priced by lia. unfold priced. split.
  - apply Z.min_glb; [apply Z.div_pos; nia|done].
  - apply Z.min_le_compat_r, Z.div_le_mono; nia.
Qed.

Lemma run_few t b events : run_within t b events → few events.
Proof.
  intros Hr. pose proof (rw_attempts t b events Hr) as H2. pose proof (rw_settled t b events Hr) as Hs. unfold few.
  enough (over_attempts (λ _, 1) events = Z.of_nat (length events)) by lia. clear -Hs.
  induction events as [|e events IH] using rev_ind; [done|]. rewrite over_attempts_snoc, length_app, IH by set_solver.
  rewrite (Hs e) by set_solver. cbn. lia.
Qed.

(** What a maximum charges. *)
Lemma max_total t b : bounds_fit b →
  mc_total_micros (max_charge t b) = u64_saturating_add (u64_saturating_add (u64_saturating_add
    (charge (mc_billable_ms (max_charge t b) * rb_cpu_millis b) (up_vcpu_second (pt_unit_prices_micros t)) 1000000)
    (charge (mc_billable_ms (max_charge t b) * rb_memory_mib b) (up_gib_second (pt_unit_prices_micros t)) 1024000))
    (charge 1 (up_invocation (pt_unit_prices_micros t)) 1))
    (charge (mc_transfer_bytes (max_charge t b)) (up_gb_transferred (pt_unit_prices_micros t)) 1000000000).
Proof.
  intros Hb. pose proof Hb as (Hpos & Hcpu & Hmem & _).
  repeat match goal with H : Forall _ (_ :: _) |- _ => apply Forall_cons in H as [? H] end.
  assert (Hbm : 0 ≤ mc_billable_ms (max_charge t b) ≤ u64_max).
  { rewrite max_billable by done. unfold u64_saturating_add, u64_saturating_mul, per_attempt, attempts_of.
    assert (0 ≤ zsum (segment_bound b <$> pt_billable_segments t)).
    { induction (pt_billable_segments t) as [|s l IH]; [done|]. rewrite fmap_cons, zsum_cons.
      pose proof (segment_bound_nonneg b s Hb). lia. }
    unfold u64_max in *. destruct (forallb _ _); lia. }
  assert (Hx : ∀ v, 0 ≤ v ≤ u32_max → u128_mul (mc_billable_ms (max_charge t b)) v = mc_billable_ms (max_charge t b) * v).
  { intros v Hv. unfold u128_mul. apply Z.mod_small. unfold u64_max, u32_max in *. nia. }
  rewrite <-!Hx by done. unfold max_charge. cbv zeta. by destruct (foldl _ _ _).
Qed.

(** C24: a reservation covers its run: whatever the settled attempts of a run are rated at with the price
    table it was reserved with is at most the reserved maximum, whenever the run kept within its bounds
    (two attempts at most, every billable segment within its timeout, the attempts within the window, the
    payloads within their limits), with any prices, rounding included. *)
Theorem max_charge_covers_run (day_of : Timestamp → string) (t : PriceTable) (b : RunBounds)
    (events : list UsageEvent) (Hb : bounds_fit b) (Hp : prices_ok t) (Hok : Forall event_ok events)
    (Hrun : run_within t b events) :
  0 ≤ (rated day_of events t).1 ≤ mc_total_micros (max_charge t b).
Proof.
  pose proof (run_few t b events Hrun) as Hfew.
  assert (Hm : 0 ≤ ch_total (charges_spec t events) ≤ mc_total_micros (max_charge t b)); cycle 1.
  { unfold rated. destruct events as [|e l] eqn:E; [|cbv zeta; cbn [fst]; by rewrite rated_one_line, charges_exact].
    split; [done|]. etrans; [|apply Hm]. done. }
  unfold prices_ok in Hp. fields. unfold u64_range in *.
  pose proof (billable_covered t b events Hb Hok Hrun) as Hbill.
  pose proof (transfer_covered t b events Hb Hok Hrun) as Htr.
  pose proof (rw_resources t b events Hrun) as Hres. pose proof Hb as (Hpos & Hcpu & Hmem & _).
  repeat match goal with H : Forall _ (_ :: _) |- _ => apply Forall_cons in H as [? H] end.
  pose proof (resource_covered t b events Hb Hok Hrun (λ e, ur_requested_cpu_millis (ue_resources e)) (rb_cpu_millis b)
    (λ e He _, proj1 (Hres e He)) ltac:(done)) as Hv.
  pose proof (resource_covered t b events Hb Hok Hrun (λ e, ur_requested_memory_mib (ue_resources e)) (rb_memory_mib b)
    (λ e He _, proj2 (Hres e He)) ltac:(done)) as Hmm.
  assert (Hinv : 0 ≤ over_attempts (λ e, if retried e then 0 else 1) events ≤ 1).
  { split; [|apply Hrun]. apply over_attempts_nonneg. intros e _ _. by destruct (retried e). }
  rewrite max_total by (split_and?; done). unfold charges_spec. cbn [ch_total].
  pose proof (charge_mono _ _ (up_vcpu_second (pt_unit_prices_micros t)) 1000000 Hv ltac:(lia) ltac:(lia)).
  pose proof (charge_mono _ _ (up_gib_second (pt_unit_prices_micros t)) 1024000 Hmm ltac:(lia) ltac:(lia)).
  pose proof (charge_mono _ _ (up_invocation (pt_unit_prices_micros t)) 1 Hinv ltac:(lia) ltac:(lia)).
  pose proof (charge_mono _ _ (up_gb_transferred (pt_unit_prices_micros t)) 1000000000 Htr ltac:(lia) ltac:(lia)).
  unfold vcpu_milli_ms, mib_ms, u64_saturating_add. rewrite !charge_priced in * by lia. lia.
Qed.

(** ** Witness *)

(** A warm dispatch that was not delivered, and the cold attempt that retried it. *)
Definition attempts_use : list UsageEvent :=
  [settled_use "w1" 0 (Meter.host 0) <| ue_segments := seg_use (Meter.host 0) (Meter.host 0) |>
     <| ue_bytes := mkUsageBytes (Meter.host 100) (Meter.host 0) |>;
   settled_use "w2" 0 (Meter.host 120) <| ue_attempt_kind := Some AttemptKind.Retry |>].
Definition bounds_of_use : RunBounds := mkRunBounds 500 256 60000 1000 1000 500 10000 1000 200 400 100.

Lemma bounds_of_use_fit : bounds_fit bounds_of_use.
Proof. split; [repeat constructor; by vm_compute|]. by vm_compute. Qed.
Lemma attempts_use_ok : Forall event_ok attempts_use.
Proof.
  repeat apply Forall_cons_2; try apply Forall_nil_2;
    (split; cbn; repeat apply Forall_cons_2; try apply Forall_nil_2;
     unfold metered_ok, opt_u64, u64_range, u64_max, u32_max; cbn; lia).
Qed.
Lemma measured_use e name : e ∈ attempts_use → measured Price.builtin name e ≤ segment_bound bounds_of_use name.
Proof.
  intros He. unfold measured. case_bool_decide as Hn; [|by apply segment_bound_nonneg, bounds_of_use_fit].
  apply elem_of_cons in Hn as [->|[->|Hn]%elem_of_cons]; [| |by apply elem_of_nil in Hn];
    (apply elem_of_cons in He as [->|[->|He]%elem_of_cons]; [by vm_compute|by vm_compute|by apply elem_of_nil in He]).
Qed.
Lemma each_use (P : UsageEvent → Prop) : Forall P attempts_use → ∀ e, e ∈ attempts_use → P e.
Proof. by rewrite Forall_forall. Qed.
Lemma run_within_use : run_within Price.builtin bounds_of_use attempts_use.
Proof.
  split; [apply each_use; by repeat constructor|by vm_compute|by vm_compute|apply each_use; by repeat constructor| | |by vm_compute| |by vm_compute].
  - intros e name. apply measured_use.
  - intros name [H|H]%orb_true_iff; apply bool_decide_eq_true in H as ->; by vm_compute.
  - apply each_use. repeat constructor; by vm_compute.
Qed.

Lemma max_charge_covers_run_witness :
  (rated day_use attempts_use Price.builtin).1 = 215 ∧
  mc_total_micros (max_charge Price.builtin bounds_of_use) = 17052 ∧
  0 ≤ (rated day_use attempts_use Price.builtin).1 ≤ mc_total_micros (max_charge Price.builtin bounds_of_use).
Proof.
  split; [vm_compute; reflexivity|]. split; [vm_compute; reflexivity|].
  exact (max_charge_covers_run day_use Price.builtin bounds_of_use attempts_use bounds_of_use_fit builtin_prices
    attempts_use_ok run_within_use).
Defined.
