(* ===== verification/ControlWire.v ===== *)
(** * What the control plane delivers

    [crates/application/src/control/wire.rs]: the keys of the configuration, their values, and the
    deliveries of generation-stamped entries a data plane's cache is fed with. The JSON of keys
    and values and the digest of a value are parameters ([ConfigCodec]). *)

From S2P Require Import Prelude Ids Functions Revision BudgetConf AsyncRun AsyncFront Webhook.

Open Scope string_scope.
Open Scope Z_scope.

(** ** Keys *)

(** [crates/application/src/control/wire.rs:28-58 ConfigKey] *)
Inductive ConfigKey : Type :=
| KFunction (function_id : FunctionId)
| KRoute (function_id : FunctionId) (alias : AliasName)
| KRevision (revision_id : RevisionId)
| KGrant (token_digest : string)
| KTenant (tenant_id : TenantId)
| KPolicy
| KBudget (tenant_id : TenantId).
#[global] Instance ConfigKey_eq_dec : EqDecision ConfigKey.
Proof. solve_decision. Defined.

(** The order of the variants, then of their fields. *)
Definition key_rank (k : ConfigKey) : Z * (string * string) :=
  match k with
  | KFunction f => (0, (f, ""))
  | KRoute f a => (1, (f, a))
  | KRevision r => (2, (r, ""))
  | KGrant d => (3, (d, ""))
  | KTenant t => (4, (t, ""))
  | KPolicy => (5, ("", ""))
  | KBudget t => (6, (t, ""))
  end.
Definition key_of_rank (r : Z * (string * string)) : option ConfigKey :=
  let '(n, (a, b)) := r in
  if n =? 0 then Some (KFunction a) else if n =? 1 then Some (KRoute a b)
  else if n =? 2 then Some (KRevision a) else if n =? 3 then Some (KGrant a)
  else if n =? 4 then Some (KTenant a) else if n =? 5 then Some KPolicy
  else if n =? 6 then Some (KBudget a) else None.

Lemma key_of_key_rank k : key_of_rank (key_rank k) = Some k.
Proof. by destruct k. Qed.

#[global] Instance ConfigKey_countable : Countable ConfigKey :=
  inj_countable key_rank key_of_rank key_of_key_rank.

Definition config_key_le (j k : ConfigKey) : Prop :=
  (key_rank j).1 < (key_rank k).1 ∨
  ((key_rank j).1 = (key_rank k).1 ∧ bt_le (key_rank j).2 (key_rank k).2).
#[global] Instance config_key_le_dec : RelDecision config_key_le.
Proof. intros j k. unfold config_key_le. apply _. Defined.
#[global] Program Instance config_key_btree_key : BTreeKey ConfigKey := {| bt_le := config_key_le |}.
Next Obligation.
  intros a b c. unfold config_key_le. intros [H1|[E1 H1]] [H2|[E2 H2]]; [left; lia..|right].
  split; [lia|]. by apply (transitivity (R := bt_le) (y := (key_rank b).2)).
Qed.
Next Obligation.
  intros a b. unfold config_key_le. destruct (Z.lt_total (key_rank a).1 (key_rank b).1) as [?|[E|?]]; [auto| |auto].
  destruct (total bt_le (key_rank a).2 (key_rank b).2); auto.
Qed.
Next Obligation.
  intros a b. unfold config_key_le. intros [H1|[E1 H1]] [H2|[E2 H2]]; [lia..|].
  pose proof (anti_symm bt_le _ _ H1 H2) as E.
  apply (inj Some). rewrite <-!key_of_key_rank. by rewrite (surjective_pairing (key_rank a)), E1, E, <-surjective_pairing.
Qed.

Module Keys.
(** [crates/application/src/control/wire.rs:61-68 is_authorization] *)
Definition is_authorization (k : ConfigKey) : bool :=
  match k with KGrant _ | KTenant _ | KBudget _ => true | _ => false end.

(** [crates/application/src/control/wire.rs:80-90 kind] *)
Definition kind (k : ConfigKey) : string :=
  match k with
  | KFunction _ => "function"
  | KRoute _ _ => "route"
  | KRevision _ => "revision"
  | KGrant _ => "grant"
  | KTenant _ => "tenant"
  | KPolicy => "policy"
  | KBudget _ => "budget"
  end.
End Keys.

(** ** Values *)

(** [crates/application/src/control/wire.rs:93-100 AuthGrant] *)
Record AuthGrant := mkAuthGrant {
  gr_subject : string;
  gr_tenant_id : TenantId;
  gr_roles : list Role.t
}.
#[global] Instance AuthGrant_eq_dec : EqDecision AuthGrant.
Proof. solve_decision. Defined.

(** [crates/application/src/control/wire.rs:107-113 ConfigPolicy] *)
Record ConfigPolicy := mkConfigPolicy { cp_allowed_egress : list EgressProfile.t }.
#[global] Instance ConfigPolicy_eq_dec : EqDecision ConfigPolicy.
Proof. solve_decision. Defined.

(** [crates/application/src/control/wire.rs:115-126 ConfigValue] *)
Inductive ConfigValue : Type :=
| VFunction (f : FunctionDef)
| VRoute (a : FunctionAlias)
| VRevision (r : FunctionRevision)
| VGrant (g : AuthGrant)
| VTenant (tenant_id : TenantId)
| VPolicy (p : ConfigPolicy)
| VBudget (b : TenantBudget).
#[global] Instance ConfigValue_eq_dec : EqDecision ConfigValue.
Proof. solve_decision. Defined.

Module Values.
(** [crates/application/src/control/wire.rs:134-152 natural_version] *)
Definition natural_version (v : ConfigValue) : Z :=
  match v with
  | VFunction f => (if fn_deleted_at f then 1 else 0) + (if fn_drained_at f then 1 else 0)
  | VRoute a => alias_generation a
  | VRevision r =>
      match rev_status r with
      | RevisionStatus.Pending => 0
      | RevisionStatus.Preparing => 1
      | RevisionStatus.Validating => 2
      | RevisionStatus.Ready | RevisionStatus.Failed _ => 3
      end
  | VGrant _ | VTenant _ | VPolicy _ | VBudget _ => 0
  end.
End Values.

(** The JSON of keys and values, and the digest of a text. *)
Class ConfigCodec := {
  key_json : ConfigKey → string;
  key_of_json : string → option ConfigKey;
  value_json : ConfigValue → string;
  value_of_json : string → result string ConfigValue;
  config_digest : string → Sha256Digest
}.
Class ConfigCodecLaws `{ConfigCodec} := {
  key_round_trip k : key_of_json (key_json k) = Some k;
  value_round_trip v : value_of_json (value_json v) = Ok v
}.

(** ** Deliveries *)

(** [crates/application/src/control/wire.rs:155-162 ConfigEntry] *)
Record ConfigEntry := mkConfigEntry {
  ce_key : ConfigKey;
  ce_generation : Z;
  ce_value : option ConfigValue
}.

(** [crates/application/src/control/wire.rs:164-179 ConfigDelivery] *)
Record ConfigDelivery := mkConfigDelivery {
  cd_source : string;
  cd_generation : Z;
  cd_since : Z;
  cd_config_ttl_seconds : Z;
  cd_auth_lease_seconds : Z;
  cd_entries : list ConfigEntry
}.

(** [crates/application/src/control/wire.rs:181-211 grant_key] *)
Definition grant_key `{Hashing} (secret token : string) : string := hex_encode (hmac_sha256 secret token).
