(* ===== verification/ControlCache.v ===== *)
(** * The configuration cache of a data plane

    [crates/application/src/control/cache.rs] and [gate.rs]: how deliveries are applied, how long
    an entry is valid, and what authentication, resolution, scaling, budgets and cold starts read
    from it. The lock around the cache makes every operation a function of its contents; a
    refresh is two of them, with the answer of the control plane in between. *)

From S2P Require Import Prelude Ids Functions Invocation Revision Retry BudgetConf AsyncRun AsyncFront Webhook ControlWire.

Open Scope string_scope.
Open Scope Z_scope.

(** [crates/application/src/control/cache.rs:49-58 CacheSettings] *)
Record CacheSettings := mkCacheSettings {
  cse_refresh_interval : Duration;
  cse_config_ttl : Duration;
  cse_auth_lease : Duration;
  cse_stale_after : Duration;
  cse_backoff_initial : Duration;
  cse_backoff_max : Duration
}.

Module EntryState.
(** [crates/application/src/control/cache.rs:73-80 EntryState] *)
Inductive t : Type := Fresh | StaleButValid | Expired | Unknown.
#[global] Instance eq_dec : EqDecision t.
Proof. solve_decision. Defined.

(** [crates/application/src/control/cache.rs:83-85 is_valid] *)
Definition is_valid (s : t) : bool := match s with Fresh | StaleButValid => true | _ => false end.
End EntryState.

(** [crates/application/src/control/cache.rs:92-98 CachedEntry] *)
Record CachedEntry := mkCachedEntry {
  en_generation : Z;
  en_value : option ConfigValue;
  en_valid_until : Timestamp;
  en_confirmed_at : Timestamp
}.
#[global] Instance CachedEntry_eta : Eta CachedEntry := λ r,
  mkCachedEntry (en_generation r) (en_value r) (en_valid_until r) (en_confirmed_at r).

(** [crates/application/src/control/cache.rs:100-126 CacheStatus] *)
Record CacheStatus := mkCacheStatus {
  cst_source : string;
  cst_generation : Z;
  cst_ever_synced : bool;
  cst_last_attempt_at : option Timestamp;
  cst_last_success_at : option Timestamp;
  cst_consecutive_failures : Z;
  cst_last_error : option string;
  cst_config_valid_until : option Timestamp;
  cst_auth_valid_until : option Timestamp;
  cst_reconnects : Z;
  cst_ignored_older_entries : Z;
  cst_ignored_regressed_deliveries : Z;
  cst_entries : nat
}.
#[global] Instance CacheStatus_eta : Eta CacheStatus := λ r,
  mkCacheStatus (cst_source r) (cst_generation r) (cst_ever_synced r) (cst_last_attempt_at r)
    (cst_last_success_at r) (cst_consecutive_failures r) (cst_last_error r)
    (cst_config_valid_until r) (cst_auth_valid_until r) (cst_reconnects r)
    (cst_ignored_older_entries r) (cst_ignored_regressed_deliveries r) (cst_entries r).

(** [crates/application/src/control/cache.rs:128-139 ApplyReport] *)
Record ApplyReport := mkApplyReport {
  apr_applied : nat;
  apr_ignored_older : nat;
  apr_ignored_inconsistent : nat;
  apr_regressed : bool
}.
#[global] Instance ApplyReport_eta : Eta ApplyReport := λ r,
  mkApplyReport (apr_applied r) (apr_ignored_older r) (apr_ignored_inconsistent r) (apr_regressed r).

(** [crates/application/src/control/cache.rs:141-147 RefreshReport] *)
Record RefreshReport := mkRefreshReport {
  rfr_apply : ApplyReport;
  rfr_reconnected : bool;
  rfr_generation : Z
}.

(** [crates/application/src/control/cache.rs:149-160 BudgetEntry] *)
Inductive BudgetEntry : Type :=
| BudgetNotDelivered
| BudgetExpired
| BudgetValid (budget : TenantBudget) (generation : Z).

(** [crates/application/src/control/cache.rs:173-182 ScaleView] *)
Record ScaleView := mkScaleView {
  sv_routed : gmap RevisionId (FunctionDef * FunctionRevision);
  sv_deleted : list (FunctionDef * list RevisionId)
}.

(** [crates/application/src/control/cache.rs:184-189 Inner] *)
Record Inner := mkInner {
  ci_entries : gmap ConfigKey CachedEntry;
  ci_status : CacheStatus;
  ci_marker : option (Z * Z)
}.
#[global] Instance Inner_eta : Eta Inner := λ r, mkInner (ci_entries r) (ci_status r) (ci_marker r).

Module SourceError.
(** [crates/application/src/control/source.rs:34-45 SourceError] *)
Inductive t : Type := Unavailable (message : string) | Rejected (message : string).
#[global] Instance eq_dec : EqDecision t.
Proof. solve_decision. Defined.
(** [crates/application/src/control/source.rs:33-43 Display] *)
Definition to_string (e : t) : string :=
  match e with
  | Unavailable m => "control plane unavailable: " +:+ m
  | Rejected m => "control plane refused the request: " +:+ m
  end.
End SourceError.

(** What a lookup finds. *)
Inductive Lookup : Type :=
| Missing
| Outdated
| Valid (v : ConfigValue).

(** [crates/application/src/control/cache.rs:215-217 secs] *)
Definition secs (n : Z) : option Duration :=
  if 0 <? n then Some (seconds (Z.min n (i64_max / 1000))) else None.

(** The orders in which two [HashMap]s of [scale_view] are iterated. *)
Class ScaleOrder := {
  order_functions : gmap FunctionId FunctionDef → list FunctionDef;
  order_functions_perm m : order_functions m ≡ₚ (map_to_list m).*2;
  order_revisions : gmap RevisionId FunctionRevision → list FunctionRevision;
  order_revisions_perm m : order_revisions m ≡ₚ (map_to_list m).*2
}.

Module Cache.

(** [crates/application/src/control/cache.rs:220-241 new] *)
Definition new (source : string) : Inner :=
  mkInner ∅ (mkCacheStatus source 0 false None None 0 None None None 0 0 0 0) None.

(** [crates/application/src/control/cache.rs:255-260 status] *)
Definition status (s : Inner) : CacheStatus := ci_status s <| cst_entries := size (ci_entries s) |>.

(** [crates/application/src/control/cache.rs:262-267 outage] *)
Definition outage (s : Inner) : bool :=
  (0 <? cst_consecutive_failures (ci_status s)) || negb (cst_ever_synced (ci_status s)).

Section cache.
Context (st : CacheSettings).

(** [crates/application/src/control/cache.rs:818-829 backoff_delay] A [Duration] saturates at its
    largest value, 2^64 - 1 seconds and 999999999 nanoseconds. *)
Definition backoff_delay (failures : Z) : Duration :=
  when! failures =? 0 return! cse_refresh_interval st;;
  let factor := Z.shiftl 1 (Z.min (failures - 1) 20) in
  Z.min (Z.min (cse_backoff_initial st * factor) (2 ^ 64 * nanoseconds_per_second - 1)) (cse_backoff_max st).

(** [crates/application/src/control/cache.rs:269-273 next_delay] *)
Definition next_delay (s : Inner) : Duration := backoff_delay (cst_consecutive_failures (ci_status s)).

(** ** Applying deliveries *)

(** [crates/application/src/control/cache.rs:356-378 apply (part)] One entry of a delivery of
    generation [g] that was fetched at [at_]. *)
Definition apply_entry (g : Z) (at_ : Timestamp) (acc : gmap ConfigKey CachedEntry * ApplyReport)
    (e : ConfigEntry) : gmap ConfigKey CachedEntry * ApplyReport :=
  let '(m, report) := acc in
  when! g <? ce_generation e return! (m, report <| apr_ignored_inconsistent ::= S |>);;
  when! is_some_and (m !! ce_key e) (λ x, ce_generation e <=? en_generation x) return!
    (m, report <| apr_ignored_older ::= S |>);;
  (<[ce_key e := mkCachedEntry (ce_generation e) (ce_value e) at_ at_]> m, report <| apr_applied ::= S |>).

(** [crates/application/src/control/cache.rs:348-355 apply (part)] What the control plane allows,
    and no more than this gateway does. *)
Definition ttl_of (cap : Z) (own : Duration) : Duration :=
  match secs cap with Some cap => Z.min cap own | None => own end.

(** [crates/application/src/control/cache.rs:383-391 apply (part)] *)
Definition confirm (config_until auth_until at_ : Timestamp) (k : ConfigKey) (e : CachedEntry) : CachedEntry :=
  let until := if Keys.is_authorization k then auth_until else config_until in
  e <| en_valid_until ::= λ t, Z.max t until |> <| en_confirmed_at ::= λ t, Z.max t at_ |>.

Definition later (o : option Timestamp) (t : Timestamp) : option Timestamp :=
  Some (match o with None => t | Some u => Z.max u t end).

(** [crates/application/src/control/cache.rs:328-403 apply] *)
Definition apply (d : ConfigDelivery) (at_ : Timestamp) (s : Inner) : ApplyReport * Inner :=
  let report := mkApplyReport 0 0 0 false in
  when! (cd_generation d <? cst_generation (ci_status s)) || (cst_generation (ci_status s) <? cd_since d) return!
    (report <| apr_regressed := true |>,
     s <| ci_status ::= λ t, t <| cst_ignored_regressed_deliveries ::= λ n, u64_add n 1 |> |>);;
  let config_ttl := ttl_of (cd_config_ttl_seconds d) (cse_config_ttl st) in
  let auth_ttl := ttl_of (cd_auth_lease_seconds d) (cse_auth_lease st) in
  let '(entries, report) := foldl (apply_entry (cd_generation d) at_) (ci_entries s, report) (cd_entries d) in
  let config_until := at_ + config_ttl in
  let auth_until := at_ + auth_ttl in
  (report,
   s <| ci_entries := map_imap (λ k e, Some (confirm config_until auth_until at_ k e)) entries |>
     <| ci_status ::= λ t,
          t <| cst_ignored_older_entries ::= λ n, u64_add n (Z.of_nat (apr_ignored_older report)) |>
            <| cst_generation ::= λ g, Z.max g (cd_generation d) |>
            <| cst_ever_synced := true |>
            <| cst_last_attempt_at := Some at_ |>
            <| cst_last_success_at ::= λ o, later o at_ |>
            <| cst_consecutive_failures := 0 |>
            <| cst_last_error := None |>
            <| cst_config_valid_until ::= λ o, later o config_until |>
            <| cst_auth_valid_until ::= λ o, later o auth_until |> |>).

(** [crates/application/src/control/cache.rs:321-326 record_failure] *)
Definition record_failure (at_ : Timestamp) (error : string) (s : Inner) : Inner :=
  s <| ci_status ::= λ t,
         t <| cst_last_attempt_at := Some at_ |>
           <| cst_consecutive_failures ::= λ n, Z.min (n + 1) u32_max |>
           <| cst_last_error := Some error |> |>.

(** ** Refreshing *)

(** What a refresh read before it asked the control plane: the change marker, the time, the
    generation it asks from, and whether the last refresh had failed. *)
Record RefreshStart := mkRefreshStart {
  rs_marker : option (Z * Z);
  rs_started : Timestamp;
  rs_since : Z;
  rs_was_failing : bool
}.

(** [crates/application/src/control/cache.rs:289-298 refresh_locked (part)] *)
Definition refresh_begin (marker : option (Z * Z)) (now : Timestamp) (s : Inner) : RefreshStart :=
  mkRefreshStart marker now (cst_generation (ci_status s)) (0 <? cst_consecutive_failures (ci_status s)).

Definition regressed_message : string :=
  "the control plane answered with an older generation than this cache holds; nothing was applied or renewed".

(** [crates/application/src/control/cache.rs:299-321 refresh_locked (part)] *)
Definition refresh_end (r : RefreshStart) (answer : result SourceError.t ConfigDelivery) (s : Inner)
    : result SourceError.t RefreshReport * Inner :=
  match answer with
  | Err e => (Err e, record_failure (rs_started r) (SourceError.to_string e) s)
  | Ok d =>
      let '(report, s) := apply d (rs_started r) s in
      when! apr_regressed report return!
        (Err (SourceError.Rejected regressed_message), record_failure (rs_started r) regressed_message s);;
      let s := s <| ci_marker := rs_marker r |> in
      let s := if rs_was_failing r
        then s <| ci_status ::= λ t, t <| cst_reconnects ::= λ n, u64_add n 1 |> |> else s in
      (Ok (mkRefreshReport report (rs_was_failing r) (cst_generation (ci_status s))), s)
  end.

(** A control plane: whether it is this process, its change marker, and what it answers. *)
Record ConfigSource := mkConfigSource {
  src_authoritative : bool;
  src_marker : option (Z * Z);
  src_fetch : Z → result SourceError.t ConfigDelivery
}.

(** [crates/application/src/control/cache.rs:285-319 refresh_locked] *)
Definition refresh (src : ConfigSource) (now : Timestamp) (s : Inner)
    : result SourceError.t RefreshReport * Inner :=
  let r := refresh_begin (src_marker src) now s in refresh_end r (src_fetch src (rs_since r)) s.

(** [crates/application/src/control/cache.rs:421-431 needs_sync] *)
Definition needs_sync (src : ConfigSource) (now : Timestamp) (s : Inner) : bool :=
  let horizon := now + cse_refresh_interval st in
  negb (cst_ever_synced (ci_status s)) || (ci_marker s != src_marker src)
  || is_none_or (cst_config_valid_until (ci_status s)) (λ t, t <=? horizon)
  || is_none_or (cst_auth_valid_until (ci_status s)) (λ t, t <=? horizon).

(** [crates/application/src/control/cache.rs:405-419 sync_if_authoritative] The second look, once
    the lock of the refreshes is held, finds the same contents. *)
Definition sync_if_authoritative (src : ConfigSource) (now : Timestamp) (s : Inner) : Inner :=
  when! negb (src_authoritative src) || negb (needs_sync src now s) return! s;;
  (refresh src now s).2.

(** ** Lookups *)

(** [crates/application/src/control/cache.rs:435-444 lookup] *)
Definition lookup (s : Inner) (k : ConfigKey) (now : Timestamp) : Lookup :=
  match ci_entries s !! k with
  | None => Missing
  | Some e =>
      match en_value e with
      | None => Missing
      | Some v => if en_valid_until e <=? now then Outdated else Valid v
      end
  end.

(** [crates/application/src/control/cache.rs:456-464 state_of] *)
Definition state_of (e : CachedEntry) (now : Timestamp) : EntryState.t :=
  if en_valid_until e <=? now then EntryState.Expired
  else if cse_stale_after st <? now - en_confirmed_at e then EntryState.StaleButValid
  else EntryState.Fresh.

(** [crates/application/src/control/cache.rs:446-454 entry] *)
Definition entry (k : ConfigKey) (now : Timestamp) (s : Inner)
    : EntryState.t * option Z * option ConfigValue :=
  match ci_entries s !! k with
  | None => (EntryState.Unknown, None, None)
  | Some e => (state_of e now, Some (en_generation e), en_value e)
  end.

(** [crates/application/src/control/cache.rs:466-488 state] *)
Definition state (now : Timestamp) (s : Inner) : EntryState.t :=
  let t := ci_status s in
  when! negb (cst_ever_synced t) return! EntryState.Unknown;;
  match cst_config_valid_until t, cst_auth_valid_until t with
  | Some a, Some b =>
      if Z.min a b <=? now then EntryState.Expired
      else if is_some_and (cst_last_success_at t) (λ l, cse_stale_after st <? now - l)
           then EntryState.StaleButValid
      else EntryState.Fresh
  | _, _ => EntryState.Unknown
  end.
End cache.

(** [crates/application/src/control/cache.rs:490-495 not_delivered] *)
Definition not_delivered (what : string) : AppError :=
  Control ControlError.ConfigNotDelivered (what +:+ " has not been delivered to this gateway yet").
(** [crates/application/src/control/cache.rs:497-505 expired] *)
Definition expired (what : string) : AppError :=
  Control ControlError.ConfigExpired (what +:+ " was not confirmed by the control plane within its TTL; new invocations are refused until it is").

(** *** Authorization *)

(** [crates/application/src/control/cache.rs:507-553 authenticate] After the synchronisation. *)
Definition authenticate `{Hashing} (secret credential : string) (now : Timestamp) (s : Inner)
    : result AppError Principal :=
  let key := KGrant (grant_key secret credential) in
  when! negb (cst_ever_synced (ci_status s)) return! Err (not_delivered "authorization");;
  grant ←
    match lookup s key now with
    | Missing => Err (Unauthorized "unknown credential")
    | Outdated => Err (Control ControlError.AuthLeaseExpired "the authorization lease of this credential expired: the control plane has not confirmed it within auth_lease_seconds")
    | Valid (VGrant g) => Ok g
    | Valid _ => Err (Unauthorized "unknown credential")
    end;
  match lookup s (KTenant (gr_tenant_id grant)) now with
  | Valid (VTenant _) => Ok (mkPrincipal (gr_subject grant) (gr_tenant_id grant) (gr_roles grant))
  | Outdated => Err (Control ControlError.AuthLeaseExpired "the authorization lease of this tenant expired")
  | _ => Err (Control ControlError.UnknownTenant "the tenant of this credential is not known to this gateway")
  end.

(** [crates/application/src/control/cache.rs:555-581 authorize_tenant] *)
Definition authorize_tenant (tenant : TenantId) (now : Timestamp) (s : Inner) : result AppError unit :=
  when! negb (cst_ever_synced (ci_status s)) return! Err (not_delivered "authorization");;
  match lookup s (KTenant tenant) now with
  | Valid (VTenant _) => Ok tt
  | Outdated => Err (Control ControlError.AuthLeaseExpired "the authorization lease of this tenant expired")
  | _ => Err (Control ControlError.UnknownTenant "the tenant of this trigger is not known to this gateway")
  end.

(** *** Resolution *)

(** [crates/application/src/services/revision.rs:394-405 ensure_ready] *)
Definition ensure_ready (r : FunctionRevision) : result AppError unit :=
  match rev_status r with
  | RevisionStatus.Ready => Ok tt
  | other => Err (RevisionNotReady ("revision " +:+ rev_id r +:+ " is " +:+ RevisionStatus.name other))
  end.

(** [crates/application/src/control/cache.rs:615-634 resolve (part)] *)
Definition resolve_function (p : Principal) (function_id : FunctionId) (now : Timestamp) (s : Inner)
    : result AppError FunctionDef :=
  function ←
    match lookup s (KFunction function_id) now with
    | Missing => Err (Absent "function not found")
    | Outdated => Err (expired ("function " +:+ function_id))
    | Valid (VFunction f) => Ok f
    | Valid _ => Err (Absent "function not found")
    end;
  _ ← ensure_tenant p (fn_tenant_id function) "function";
  when! Fn.is_deleted function return!
    Err (FunctionDeleted ("function " +:+ fn_id function +:+ " is deleted"));;
  Ok function.

(** [crates/application/src/control/cache.rs:635-658 resolve (part)] The revision, and the route
    that chose it. *)
Definition resolve_target (function : FunctionDef) (alias : option AliasName)
    (revision_id : option RevisionId) (now : Timestamp) (s : Inner)
    : result AppError (RevisionId * option AliasName * option Z) :=
  match revision_id with
  | Some pinned => Ok (pinned, None, None)
  | None =>
      let name := unwrap_or alias default_alias in
      let missing := Err (Absent ("alias `" +:+ name +:+ "` not found")) in
      match lookup s (KRoute (fn_id function) name) now with
      | Missing => missing
      | Outdated => Err (expired ("alias `" +:+ name +:+ "` of " +:+ fn_id function))
      | Valid (VRoute a) => Ok (alias_revision_id a, Some name, Some (alias_generation a))
      | Valid _ => missing
      end
  end.

(** [crates/application/src/control/cache.rs:659-678 resolve (part)] *)
Definition resolve_revision (authoritative : bool) (function : FunctionDef) (target : RevisionId)
    (now : Timestamp) (s : Inner) : result AppError FunctionRevision :=
  match lookup s (KRevision target) now with
  | Missing =>
      if authoritative then Err (Absent "revision not found") else Err (not_delivered ("revision " +:+ target))
  | Outdated => Err (expired ("revision " +:+ target))
  | Valid (VRevision r) =>
      if (rev_function_id r == fn_id function) && (rev_tenant_id r == fn_tenant_id function)
      then Ok r else Err (Absent "revision not found")
  | Valid _ => Err (Absent "revision not found")
  end.

(** [crates/application/src/control/cache.rs:680-696 resolve (part)] *)
Definition check_policy (revision : FunctionRevision) (now : Timestamp) (s : Inner) : result AppError unit :=
  match lookup s KPolicy now with
  | Missing => Err (not_delivered "the invoke policy")
  | Outdated => Err (expired "the invoke policy")
  | Valid (VPolicy p) =>
      let e := egress (rev_spec revision) in
      if bool_decide (e ∈ cp_allowed_egress p) then Ok tt
      else Err (Control ControlError.PolicyDenied
                  ("egress profile `" +:+ EgressProfile.as_str e +:+ "` of revision "
                    +:+ rev_id revision +:+ " is not allowed by the policy"))
  | Valid _ => Err (not_delivered "the invoke policy")
  end.

(** [crates/application/src/control/cache.rs:583-690 resolve] After the synchronisation. *)
Definition resolve (authoritative : bool) (p : Principal) (function_id : FunctionId)
    (alias : option AliasName) (revision_id : option RevisionId) (now : Timestamp) (s : Inner)
    : result AppError Resolved :=
  when! negb (cst_ever_synced (ci_status s)) return! Err (not_delivered "configuration");;
  function ← resolve_function p function_id now s;
  '(target, alias, alias_generation) ← resolve_target function alias revision_id now s;
  revision ← resolve_revision authoritative function target now s;
  _ ← ensure_ready revision;
  _ ← check_policy revision now s;
  Ok (mkResolved function revision alias alias_generation).

(** [crates/application/src/control/cache.rs:740-758 function_deleted] After the synchronisation. *)
Definition function_deleted (function : FunctionId) (now : Timestamp) (s : Inner) : bool :=
  match lookup s (KFunction function) now with
  | Valid (VFunction f) => Fn.is_deleted f
  | _ => false
  end.

(** [crates/application/src/control/cache.rs:760-782 budget] *)
Definition budget (tenant : TenantId) (now : Timestamp) (s : Inner) : BudgetEntry :=
  when! negb (cst_ever_synced (ci_status s)) return! BudgetNotDelivered;;
  match lookup s (KBudget tenant) now with
  | Missing => BudgetNotDelivered
  | Outdated => BudgetExpired
  | Valid (VBudget b) => BudgetValid b (unwrap_or (en_generation <$> ci_entries s !! KBudget tenant) 0)
  | Valid _ => BudgetNotDelivered
  end.

(** [crates/application/src/control/cache.rs:784-815 start_still_valid] *)
Definition start_still_valid (revision : RevisionId) (tenant : TenantId) (now : Timestamp) (s : Inner)
    : result ControlError.t unit :=
  match lookup s (KRevision revision) now with
  | Outdated => Err ControlError.ConfigExpired
  | Missing => Err ControlError.ConfigNotDelivered
  | Valid _ =>
      match lookup s (KTenant tenant) now with
      | Valid _ => Ok tt
      | Outdated => Err ControlError.AuthLeaseExpired
      | Missing => Err ControlError.UnknownTenant
      end
  end.

(** *** What the scale reconciler sees *)

Section scale.
Context (st : CacheSettings) `{ScaleOrder}.

(** The values that are valid now, in the order of their keys. *)
Definition valid_values (now : Timestamp) (s : Inner) : list ConfigValue :=
  omap (λ e, if now <? en_valid_until e then en_value e else None) (btree_values (ci_entries s)).

(** [crates/application/src/control/cache.rs:719-730 scale_view (part)] *)
Definition functions_of (vs : list ConfigValue) : gmap FunctionId FunctionDef :=
  foldl (λ m v, match v with VFunction f => <[fn_id f := f]> m | _ => m end) ∅ vs.
Definition revisions_of (vs : list ConfigValue) : gmap RevisionId FunctionRevision :=
  foldl (λ m v, match v with VRevision r => <[rev_id r := r]> m | _ => m end) ∅ vs.

(** [crates/application/src/control/cache.rs:731-741 scale_view (part)] *)
Definition route_value (functions : gmap FunctionId FunctionDef)
    (revisions : gmap RevisionId FunctionRevision) (v : ConfigValue)
    : option (FunctionDef * FunctionRevision) :=
  match v with
  | VRoute a =>
      f ← functions !! alias_function_id a;
      r ← revisions !! alias_revision_id a;
      if negb (Fn.is_deleted f) && (rev_function_id r == fn_id f) then Some (f, r) else None
  | _ => None
  end.

(** [crates/application/src/control/cache.rs:692-738 scale_view] *)
Definition scale_view (now : Timestamp) (s : Inner) : option ScaleView :=
  when! negb (EntryState.is_valid (state st now s)) return! None;;
  let vs := valid_values now s in
  let functions := functions_of vs in
  let revisions := revisions_of vs in
  let routed := foldl (λ m v, match route_value functions revisions v with
      | Some (f, r) => <[rev_id r := (f, r)]> m | None => m end) ∅ vs in
  let deleted := (λ f, (f, rev_id <$> List.filter (λ r, rev_function_id r == fn_id f) (order_revisions revisions)))
    <$> List.filter Fn.is_deleted (order_functions functions) in
  Some (mkScaleView routed deleted).
End scale.
End Cache.

(** ** The gate *)

(** [crates/application/src/control/gate.rs:35-40 InvokeGate] The role, whether cold starts are
    allowed in an outage, and the verdict of the provider's last preflight while it is cached. *)
Record InvokeGate := mkInvokeGate {
  ig_allow_cold_start_during_outage : bool;
  ig_provider_ok : option bool
}.

(** [crates/application/src/control/gate.rs:42-61 InvokeView] What is computed of it. *)
Record InvokeView := mkInvokeView {
  iv_config_state : EntryState.t;
  iv_control_plane_reachable : bool;
  iv_new_invocations : bool;
  iv_new_cold_starts : bool;
  iv_refusal : option ControlError.t
}.

Module Gate.
Section gate.
Context (g : InvokeGate).

(** [crates/application/src/control/gate.rs:104-140 permit_cold_start] The message is left out. *)
Definition permit_cold_start (revision : FunctionRevision) (tenant : TenantId) (now : Timestamp)
    (s : Inner) : result ControlError.t unit :=
  _ ← Cache.start_still_valid (rev_id revision) tenant now s;
  when! negb (ig_allow_cold_start_during_outage g) && Cache.outage s return!
    Err ControlError.ColdStartRestricted;;
  when! ig_provider_ok g == Some false return! Err ControlError.ProviderControlUnavailable;;
  Ok tt.

(** [crates/application/src/control/gate.rs:82-102 resolve] [messages] is the text of a refusal. *)
Definition resolve (messages : ControlError.t → string) (authoritative : bool) (p : Principal)
    (function_id : FunctionId) (alias : option AliasName) (revision_id : option RevisionId)
    (reuse_enabled : bool) (now : Timestamp) (s : Inner) : result AppError Resolved :=
  resolved ← Cache.resolve authoritative p function_id alias revision_id now s;
  when! reuse_enabled return! Ok resolved;;
  _ ← map_err (λ k, Control k (messages k))
        (permit_cold_start (re_revision resolved) (fn_tenant_id (re_function resolved)) now s);
  Ok resolved.

(** [crates/application/src/control/gate.rs:148-221 view] After the synchronisation. *)
Definition view (st : CacheSettings) (reuse_enabled : bool) (now : Timestamp) (s : Inner) : InvokeView :=
  let state := Cache.state st now s in
  let '(accepted, refusal) :=
    match state with
    | EntryState.Fresh | EntryState.StaleButValid => (true, None)
    | EntryState.Unknown => (false, Some ControlError.ConfigNotDelivered)
    | EntryState.Expired =>
        (false, Some (if is_some_and (cst_auth_valid_until (ci_status s)) (λ t, t <=? now)
                      then ControlError.AuthLeaseExpired else ControlError.ConfigExpired))
    end in
  let outage_refusal := negb (ig_allow_cold_start_during_outage g) && Cache.outage s in
  let provider_refusal := ig_provider_ok g == Some false in
  let '(cold, refusal) :=
    if accepted && (outage_refusal || provider_refusal)
    then (false, Some (if outage_refusal then ControlError.ColdStartRestricted
                       else ControlError.ProviderControlUnavailable))
    else (accepted, refusal) in
  let accepted := if negb cold && negb reuse_enabled then false else accepted in
  mkInvokeView state (negb (Cache.outage s)) accepted cold refusal.
End gate.
End Gate.
