(* ===== verification/Budget.v ===== *)
(** * Budgets: the service

    [crates/application/src/budget/mod.rs]: runs reserve their maximum charge before they are
    admitted, are rechecked when they are granted capacity, report their end, and are settled once
    their usage reached the ledger or expired when it never does. The configuration cache, the journal
    and the ledger of usage are those of [ControlCache], [UsageJournal] and [UsageLedger]; what SQLite
    does with each access is an argument. [month_of] is the calendar library's text of a month. *)

From S2P Require Import Prelude Ids Functions Revision Usage UsageJournal UsageLedger Store Retry AsyncRun AsyncFront.
From S2P Require Import UsageMeter Calendar Cron Rating BudgetConf BudgetStore BudgetCharge Webhook ControlWire ControlCache.

Open Scope string_scope.
Open Scope Z_scope.

#[global] Instance refusal_cause_countable : Countable RefusalCause.t.
Proof.
  refine (inj_countable'
    (λ c, match c with
      | RefusalCause.TenantLimit => 0%nat | RefusalCause.FunctionLimit => 1%nat | RefusalCause.NotDelivered => 2%nat
      | RefusalCause.LeaseExpired => 3%nat | RefusalCause.PriceTableMismatch => 4%nat
      | RefusalCause.CollectorStalled => 5%nat | RefusalCause.StoreError => 6%nat end)
    (λ n, match n with
      | 0 => RefusalCause.TenantLimit | 1 => RefusalCause.FunctionLimit | 2 => RefusalCause.NotDelivered
      | 3 => RefusalCause.LeaseExpired | 4 => RefusalCause.PriceTableMismatch
      | 5 => RefusalCause.CollectorStalled | _ => RefusalCause.StoreError end)%nat _).
  by intros [].
Defined.

(** [crates/application/src/budget/mod.rs:189-198 BudgetHold] *)
Record BudgetHold := mkBudgetHold {
  bh_reservation_id : string;
  bh_tenant_id : TenantId;
  bh_function_id : FunctionId;
  bh_period : string;
  bh_amount_micros : Z;
  bh_max : MaxCharge
}.

(** [crates/application/src/budget/mod.rs:200-206 GatewayBounds] *)
Record GatewayBounds := mkGatewayBounds {
  gw_handshake_timeout_ms : Z;
  gw_cancel_grace_ms : Z;
  gw_max_response_bytes : Z
}.

(** [crates/application/src/budget/mod.rs:208-222 RunRequest] *)
Record RunRequest := mkRunRequest {
  rq_run_id : string;
  rq_function : FunctionDef;
  rq_revision : FunctionRevision;
  rq_invocation_id : InvocationId;
  rq_request_bytes : Z;
  rq_window_ms : Z;
  rq_queue_timeout_ms : Z;
  rq_run_deadline : Timestamp
}.

(** [crates/application/src/budget/mod.rs:224-233 SettleReport] *)
Record SettleReport := mkSettleReport {
  sp_settled : Z;
  sp_settled_incomplete : Z;
  sp_waiting : Z;
  sp_expired : Z;
  sp_alerts : Z;
  sp_errors : Z
}.
#[global] Instance SettleReport_eta : Eta SettleReport := λ r,
  mkSettleReport (sp_settled r) (sp_settled_incomplete r) (sp_waiting r) (sp_expired r) (sp_alerts r) (sp_errors r).

(** [crates/application/src/budget/mod.rs:235-249 BudgetCounters] *)
Record BudgetCounters := mkBudgetCounters {
  bcn_reservations : Z;
  bcn_refusals : gmap RefusalCause.t Z;
  bcn_recheck_refusals : Z;
  bcn_releases : Z;
  bcn_settlements : Z;
  bcn_settlements_incomplete : Z;
  bcn_expiries : Z;
  bcn_alerts : gmap string Z;
  bcn_overrun_micros : Z;
  bcn_settle_passes : Z;
  bcn_settle_errors : Z
}.
#[global] Instance BudgetCounters_eta : Eta BudgetCounters := λ r,
  mkBudgetCounters (bcn_reservations r) (bcn_refusals r) (bcn_recheck_refusals r) (bcn_releases r)
    (bcn_settlements r) (bcn_settlements_incomplete r) (bcn_expiries r) (bcn_alerts r) (bcn_overrun_micros r)
    (bcn_settle_passes r) (bcn_settle_errors r).
Definition no_counters : BudgetCounters := mkBudgetCounters 0 ∅ 0 0 0 0 0 ∅ 0 0 0.

(** [crates/application/src/budget/mod.rs:295-304 BudgetService] What changes in it, with the database its
    store is a handle of. *)
Record BudgetService := mkBudgetService {
  sv_store : BudgetStore;
  sv_db : BudgetDb;
  sv_counters : BudgetCounters
}.
#[global] Instance BudgetService_eta : Eta BudgetService := λ r,
  mkBudgetService (sv_store r) (sv_db r) (sv_counters r).

(** An operation of the service. *)
Definition svc (A : Type) : Type := BudgetService → A * BudgetService.

Definition count (f : BudgetCounters → BudgetCounters) (s : BudgetService) : BudgetService :=
  s <| sv_counters ::= f |>.
Definition next (n : Z) : Z := u64_add n 1.

(** One transaction of the store. *)
Definition in_store {A} (w : StoreAccess) (f : btx A) : svc (result string A) := λ s,
  let '(r, store, db) := Stores.with_tx w f (sv_store s) (sv_db s) in
  (r, s <| sv_store := store |> <| sv_db := db |>).

(** [crates/application/src/budget/mod.rs:315-320 limit_cause] *)
Definition limit_cause (s : BudgetScope.t) : RefusalCause.t :=
  match s with
  | BudgetScope.Tenant => RefusalCause.TenantLimit
  | BudgetScope.Function_ => RefusalCause.FunctionLimit
  end.

Module Budgeting.

(** [crates/application/src/budget/mod.rs:368-379 refuse] *)
Definition refuse (cause : RefusalCause.t) (message : string) : svc AppError := λ s,
  (BudgetRefused (RefusalCause.refusal cause) message,
   count (λ c, c <| bcn_refusals ::= λ m, <[cause := next (unwrap_or (m !! cause) 0)]> m |>) s).

Definition unavailable (e : string) : string := "the budget store is unavailable: " +:+ e.

Section service.
Context (config : BudgetConfig) (table : PriceTable) (gateway : GatewayBounds) (cache : Inner).
Context (month_of : Timestamp → string).

(** [crates/application/src/budget/mod.rs:323-349 open] *)
Definition open (path : option string) (opens : result string unit) (db : BudgetDb) : result string BudgetService :=
  _ ← Budgets.validate config;
  _ ← (if bc_enabled config then check_table table else Ok tt);
  Ok (mkBudgetService (Stores.open path opens) db no_counters).

(** [crates/application/src/budget/mod.rs:390-397 delivered (part)] *)
Definition mismatch (b : TenantBudget) : string :=
  "the delivered budget is in price table " +:+ tb_price_table_version b +:+ " (" +:+ tb_currency b
  +:+ "), this gateway rates with " +:+ pt_version table +:+ " (" +:+ pt_currency table
  +:+ "): new invocations are refused until they agree".

(** [crates/application/src/budget/mod.rs:381-415 delivered] *)
Definition delivered (tenant : TenantId) (now : Timestamp) : svc (result AppError (TenantBudget * Z)) := λ s,
  match Cache.budget tenant now cache with
  | BudgetValid budget generation =>
      if negb (tb_price_table_version budget == pt_version table) || negb (tb_currency budget == pt_currency table)
      then let '(e, s) := refuse RefusalCause.PriceTableMismatch (mismatch budget) s in (Err e, s)
      else (Ok (budget, generation), s)
  | BudgetExpired =>
      let '(e, s) := refuse RefusalCause.LeaseExpired
        "the tenant's budget was not confirmed by the control plane within the auth lease: new invocations are refused until it is" s in
      (Err e, s)
  | BudgetNotDelivered =>
      let '(e, s) := refuse RefusalCause.NotDelivered
        "no budget is delivered for this tenant: new invocations are refused (fail closed)" s in
      (Err e, s)
  end.

(** [Duration::num_seconds], which truncates, of what has passed since [t]. *)
Definition age_seconds (t now : Timestamp) : Z := Z.max (Z.quot (now - t) nanoseconds_per_second) 0.

(** [crates/application/src/budget/mod.rs:417-423 stalled] *)
Definition stalled (stats : StoreStats) (now : Timestamp) : option Z :=
  oldest ← ss_oldest_finished_unsettled_at stats;
  let age := age_seconds oldest now in
  if bc_max_unsettled_age_seconds config <=? age then Some age else None.

(** [crates/application/src/budget/mod.rs:440-452 max_charge_for (part)] *)
Definition bounds_for (revision : FunctionRevision) (request_bytes window_ms queue_timeout_ms : Z) : RunBounds :=
  let spec := rev_spec revision in
  mkRunBounds (cpu_millis (resources spec)) (memory_mib (resources spec)) window_ms queue_timeout_ms
    (initialization_timeout_seconds (execution spec) * 1000) (gw_handshake_timeout_ms gateway)
    (timeout_seconds (execution spec) * 1000) (gw_cancel_grace_ms gateway) request_bytes
    (gw_max_response_bytes gateway) (bc_reservation_slack_ms config).

(** [crates/application/src/budget/mod.rs:425-452 max_charge_for] *)
Definition max_charge_for (revision : FunctionRevision) (request_bytes window_ms queue_timeout_ms : Z) : MaxCharge :=
  max_charge table (bounds_for revision request_bytes window_ms queue_timeout_ms).

(** [crates/application/src/budget/mod.rs:489-504 reserve (part)] *)
Definition reservation_for (run : RunRequest) (budget : TenantBudget) (generation : Z) (max : MaxCharge)
    (now : Timestamp) : NewReservation :=
  mkNewReservation (rq_run_id run) (fn_tenant_id (rq_function run)) (fn_id (rq_function run)) (rq_invocation_id run)
    (month_of now) (mc_total_micros max) (rq_run_deadline run + seconds (bc_expiry_grace_seconds config))
    (pt_version table) generation (bl_hard_limit_micros (tb_limits budget))
    (Budgets.function (fn_id (rq_function run)) budget ≫= bl_hard_limit_micros).

(** [crates/application/src/budget/mod.rs:525-532 reserve (part)] *)
Definition over_message (r : LimitRefusal) (period : string) : string :=
  "the " +:+ BudgetScope.as_str (lr_scope r) +:+ " budget's hard limit (" +:+ pretty (lr_hard_limit_micros r)
  +:+ " micro-units) does not admit this invocation's maximum charge of " +:+ pretty (lr_requested_micros r)
  +:+ " (" +:+ pretty (lr_committed_micros r) +:+ " already committed in " +:+ period +:+ ")".

(** [crates/application/src/budget/mod.rs:475-479 reserve (part)] *)
Definition stalled_message (age : Z) : string :=
  "usage of a finished run has waited " +:+ pretty age +:+ " s for collection (limit "
  +:+ pretty (bc_max_unsettled_age_seconds config)
  +:+ " s): the budget cannot be known, new invocations are refused".

(** [crates/application/src/budget/mod.rs:454-539 reserve] [w] and [w'] are its accesses to the store. *)
Definition reserve (w w' : StoreAccess) (run : RunRequest) (now : Timestamp)
    : svc (result AppError (option BudgetHold)) := λ s,
  when! negb (bc_enabled config) return! (Ok None, s);;
  let tenant := fn_tenant_id (rq_function run) in
  let refused cause message s := let '(e, s) := refuse cause message s in (Err e, s) in
  match delivered tenant now s with
  | (Err e, s) => (Err e, s)
  | (Ok (budget, generation), s) =>
      match in_store w stats_tx s with
      | (Err e, s) => refused RefusalCause.StoreError (unavailable e) s
      | (Ok stats, s) =>
          match stalled stats now with
          | Some age => refused RefusalCause.CollectorStalled (stalled_message age) s
          | None =>
              let max := max_charge_for (rq_revision run) (rq_request_bytes run) (rq_window_ms run)
                           (rq_queue_timeout_ms run) in
              let period := month_of now in
              match in_store w' (reserve_tx (reservation_for run budget generation max now) now) s with
              | (Ok ReserveOutcome.Reserved, s) | (Ok (ReserveOutcome.Exists ReservationState.Reserved), s) =>
                  (Ok (Some (mkBudgetHold (rq_run_id run) tenant (fn_id (rq_function run)) period
                               (mc_total_micros max) max)),
                   count (λ c, c <| bcn_reservations ::= next |>) s)
              | (Ok (ReserveOutcome.Exists state), s) =>
                  (Err (Conflicting ("run " +:+ rq_run_id run +:+ " already has a " +:+ ReservationState.as_str state
                                  +:+ " budget reservation")), s)
              | (Ok (ReserveOutcome.Refused r), s) => refused (limit_cause (lr_scope r)) (over_message r period) s
              | (Err e, s) => refused RefusalCause.StoreError (unavailable e) s
              end
          end
      end
  end.

(** [crates/application/src/budget/mod.rs:558-564 recheck (part)] *)
Definition lowered_message (r : LimitRefusal) : string :=
  "the " +:+ BudgetScope.as_str (lr_scope r) +:+ " budget's hard limit (" +:+ pretty (lr_hard_limit_micros r)
  +:+ " micro-units) was lowered while this invocation waited and no longer admits it ("
  +:+ pretty (u64_saturating_add (lr_committed_micros r) (lr_requested_micros r)) +:+ " committed including it)".

(** [crates/application/src/budget/mod.rs:541-572 recheck] *)
Definition recheck (w : StoreAccess) (hold : BudgetHold) (now : Timestamp) : svc (result AppError unit) := λ s,
  let refused cause message s := let '(e, s) := refuse cause message s in (Err e, s) in
  match delivered (bh_tenant_id hold) now s with
  | (Err e, s) => (Err e, s)
  | (Ok (budget, _), s) =>
      let tx := recheck_tx (bh_reservation_id hold) (bl_hard_limit_micros (tb_limits budget))
                  (Budgets.function (bh_function_id hold) budget ≫= bl_hard_limit_micros) in
      match in_store w tx s with
      | (Ok (Ok _), s) => (Ok tt, s)
      | (Ok (Err r), s) =>
          let s := count (λ c, c <| bcn_recheck_refusals ::= next |>) s in
          refused (limit_cause (lr_scope r)) (lowered_message r) s
      | (Err e, s) => refused RefusalCause.StoreError (unavailable e) s
      end
  end.

(** [crates/application/src/budget/mod.rs:574-585 release] *)
Definition release (w : StoreAccess) (hold : BudgetHold) (now : Timestamp) (s : BudgetService) : BudgetService :=
  match in_store w (release_tx (bh_reservation_id hold) now) s with
  | (Ok t, s) => if tn_changed t then count (λ c, c <| bcn_releases ::= next |>) s else s
  | (Err _, s) => s
  end.

(** [crates/application/src/budget/mod.rs:587-600 alert_limits] *)
Definition alert_limits (tenant function : string) (now : Timestamp) : AlertLimits :=
  match parse_id Tenant tenant with
  | Err _ => no_alert_limits
  | Ok tenant =>
      match Cache.budget tenant now cache with
      | BudgetValid budget _ =>
          mkAlertLimits (Some (tb_limits budget))
            (match parse_id Function_ function with Ok f => Budgets.function f budget | Err _ => None end)
      | _ => no_alert_limits
      end
  end.

(** [crates/application/src/budget/mod.rs:614-620 note_transition (part)] *)
Definition note_alert (c : BudgetCounters) (a : AlertFired) : BudgetCounters :=
  let scope := if af_scope a == "" then "tenant" else "function" in
  c <| bcn_alerts ::= λ m, <[scope := next (unwrap_or (m !! scope) 0)]> m |>.

(** [crates/application/src/budget/mod.rs:602-631 note_transition] *)
Definition note_transition (t : Transition) (incomplete : bool) (overrun : Z) : BudgetService → BudgetService :=
  count (λ c,
    let c := if tn_changed t then
        (match tn_state t with
         | ReservationState.Settled =>
             if incomplete then c <| bcn_settlements_incomplete ::= next |> else c <| bcn_settlements ::= next |>
         | ReservationState.Expired => c <| bcn_expiries ::= next |>
         | ReservationState.Released => c <| bcn_releases ::= next |>
         | ReservationState.Reserved => c
         end) <| bcn_overrun_micros ::= λ n, u64_saturating_add n overrun |>
      else c in
    foldl note_alert c (tn_alerts t)).

(** [crates/application/src/budget/mod.rs:633-669 finish] [mark] is what [journal().head_seq()] gave. *)
Definition finish (w w' : StoreAccess) (hold : BudgetHold) (attempts : list string) (complete : bool)
    (mark : option Z) (now : Timestamp) (s : BudgetService) : BudgetService :=
  match in_store w (finish_tx (bh_reservation_id hold) attempts complete mark now) s with
  | (Ok true, s) =>
      when! negb ((attempts == []) && complete) return! s;;
      let alerts := alert_limits (bh_tenant_id hold) (bh_function_id hold) now in
      match in_store w' (settle_tx (bh_reservation_id hold) (mkSettlement 0 true) now alerts) s with
      | (Ok t, s) => note_transition t false 0 s
      | (Err _, s) => s
      end
  | (_, s) => s
  end.

Section settling.
(** What a pass reads: the position of the collector in the journal, if the journal is healthy, the
    newest journaled event, if it can be read, the ledger, and the text of a day in a report. *)
Context (cursor head : option Z) (ledger : UsageTable) (day_of : Timestamp → string) `{UsageCodec}.
(** What becomes of the accesses a pass makes for a reservation. *)
Context (reads : string → DbAccess) (writes : string → StoreAccess).

(** [crates/application/src/budget/mod.rs:686-716 settle_ready (part)] What the ledger says of a finished run:
    it cannot be read, the run has to wait, or what was measured and whether that is all. *)
Definition settlement_of (row : ReservationRow) : result string (option Settlement) :=
  events ← attempt_settled_events (reads (rr_reservation_id row)) (rr_tenant_id row) (rr_attempts row) ledger;
  let found := omap ue_attempt_id events in
  let all_found := forallb (λ a, bool_decide (a ∈ found)) (rr_attempts row) in
  let journal_passed :=
    match cursor, or_else (rr_journal_mark row) head with
    | Some c, Some m => m <=? c
    | _, _ => false
    end in
  when! negb all_found && negb journal_passed return! Ok None;;
  let '(measured, metered_fully) := rated day_of events table in
  Ok (Some (mkSettlement measured (all_found && metered_fully && unwrap_or (rr_finished_complete row) false))).

(** [crates/application/src/budget/mod.rs:685-747 settle_ready (part)] One finished run. *)
Definition settle_one (now : Timestamp) (acc : SettleReport * BudgetService) (row : ReservationRow)
    : SettleReport * BudgetService :=
  let '(report, s) := acc in
  match settlement_of row with
  | Err _ => (report <| sp_errors ::= next |>, s)
  | Ok None => (report <| sp_waiting ::= next |>, s)
  | Ok (Some m) =>
      let alerts := alert_limits (rr_tenant_id row) (rr_function_id row) now in
      match in_store (writes (rr_reservation_id row)) (settle_tx (rr_reservation_id row) m now alerts) s with
      | (Ok t, s) =>
          let report := if tn_changed t then
              if se_complete m then report <| sp_settled ::= next |> else report <| sp_settled_incomplete ::= next |>
            else report in
          (report <| sp_alerts ::= λ n, u64_add n (Z.of_nat (length (tn_alerts t))) |>,
           note_transition t (negb (se_complete m))
             (u64_saturating_sub (se_measured_micros m) (rr_reserved_micros row)) s)
      | (Err _, s) => (report <| sp_errors ::= next |>, s)
      end
  end.

(** [crates/application/src/budget/mod.rs:756-778 settle_ready (part)] One run that never reported back. *)
Definition expire_one (now : Timestamp) (acc : SettleReport * BudgetService) (row : ReservationRow)
    : SettleReport * BudgetService :=
  let '(report, s) := acc in
  let alerts := alert_limits (rr_tenant_id row) (rr_function_id row) now in
  match in_store (writes (rr_reservation_id row)) (expire_tx (rr_reservation_id row) now alerts) s with
  | (Ok t, s) =>
      let report := if tn_changed t then report <| sp_expired ::= next |> else report in
      (report <| sp_alerts ::= λ n, u64_add n (Z.of_nat (length (tn_alerts t))) |>, note_transition t false 0 s)
  | (Err _, s) => (report <| sp_errors ::= next |>, s)
  end.

(** [crates/application/src/budget/mod.rs:671-786 settle_ready] [w] and [w'] are the accesses of its two
    queries. *)
Definition settle_ready (w w' : StoreAccess) (now : Timestamp) : svc SettleReport := λ s,
  let none := mkSettleReport 0 0 0 0 0 0 in
  when! negb (bc_enabled config) return! (none, s);;
  let '(report, s) :=
    match in_store w (finished_unsettled_tx (bc_settle_batch config)) s with
    | (Ok rows, s) => foldl (settle_one now) (none, s) rows
    | (Err _, s) => (none <| sp_errors ::= next |>, s)
    end in
  let '(report, s) :=
    match in_store w' (due_for_expiry_tx now (bc_settle_batch config)) s with
    | (Ok rows, s) => foldl (expire_one now) (report, s) rows
    | (Err _, s) => (report <| sp_errors ::= next |>, s)
    end in
  (report, count (λ c, c <| bcn_settle_passes ::= next |>
                         <| bcn_settle_errors ::= λ n, u64_add n (sp_errors report) |>) s).
End settling.

(** ** What it shows *)

(** [crates/application/src/budget/mod.rs:792-832 status] The refusal [/readyz] shows, with what the store
    counts and the age of the oldest finished run that waits for its settlement. *)
Record BudgetStatus := mkBudgetStatus {
  bst_refusal : option string;
  bst_period : string;
  bst_stats : option StoreStats;
  bst_stalled : bool;
  bst_oldest_unsettled_age_seconds : option Z
}.
Definition accepting (st : BudgetStatus) : bool := is_none (bst_refusal st).

(** [crates/application/src/budget/mod.rs:792-832 status] *)
Definition status (w : StoreAccess) (now : Timestamp) : svc BudgetStatus := λ s,
  let '(stats, s) := in_store w stats_tx s in
  let stats := match stats with Ok st => Some st | Err _ => None end in
  let stalled_age := stats ≫= λ st, stalled st now in
  let refusal :=
    if negb (bc_enabled config) then None
    else if is_none stats then Some (BudgetRefusal.error_type BudgetRefusal.StoreUnavailable)
    else if is_some stalled_age then Some (BudgetRefusal.error_type BudgetRefusal.Unknown)
    else None in
  (mkBudgetStatus refusal (month_of now) stats (is_some stalled_age)
     (stats ≫= λ st, (λ t, age_seconds t now) <$> ss_oldest_finished_unsettled_at st), s).

(** [crates/application/src/budget/mod.rs:854-858 metrics (part)] *)
Definition more_committed (a b : string * ScopeTotals * option Z) : bool :=
  let x := Totals.committed a.1.2 in
  let y := Totals.committed b.1.2 in
  (y <? x) || ((x =? y) && bool_decide (string_le a.1.1 b.1.1)).

(** [crates/application/src/budget/mod.rs:838-860 metrics (part)] The tenants it shows: those with the most
    committed, in the order of their ids. *)
Definition metric_tenants (max_tenants : nat) (totals : list ScopeTotals) (now : Timestamp)
    : list (string * ScopeTotals * option Z) :=
  let limit_of id := match parse_id Tenant id with
    | Ok id => match Cache.budget id now cache with
               | BudgetValid budget _ => bl_hard_limit_micros (tb_limits budget)
               | _ => None
               end
    | Err _ => None
    end in
  let rows := (λ t, (to_tenant_id t, t, limit_of (to_tenant_id t))) <$> totals in
  sort_by (λ a b, bool_decide (string_le a.1.1 b.1.1)) (take max_tenants (sort_by more_committed rows)).

(** [crates/api-types/src/lib.rs:1438-1470 BudgetScopeReport] *)
Record BudgetScopeReport := mkScopeReport {
  sr_function_id : option string;
  sr_soft_limit_micros : option Z;
  sr_alert_thresholds_percent : list Z;
  sr_hard_limit_micros : option Z;
  sr_totals : ScopeTotals;
  sr_committed_micros : Z;
  sr_remaining_micros : option Z;
  sr_alerts_fired : list AlertFired
}.

(** [crates/application/src/budget/mod.rs:926-964 report (part)] *)
Definition scope_report (totals : list ScopeTotals) (alerts : list AlertFired) (scope : string)
    (limits : option BudgetLimits) : BudgetScopeReport :=
  let t := unwrap_or (List.find (λ t, to_scope t == scope) totals) (no_totals "" "" "") in
  let committed := Totals.committed t in
  let hard := limits ≫= bl_hard_limit_micros in
  mkScopeReport (if scope == "" then None else Some scope) (limits ≫= bl_soft_limit_micros)
    (match limits with Some l => bl_alert_thresholds_percent l | None => [] end) hard t committed
    ((λ h, u64_saturating_sub h committed) <$> hard)
    (List.filter (λ a, af_scope a == scope) alerts).

(** [crates/api-types/src/lib.rs:1396-1436 BudgetReportResponse] The fields that are computed. *)
Record BudgetReport := mkBudgetReport {
  br_tenant_id : TenantId;
  br_period : string;
  br_period_start : Timestamp;
  br_period_end : Timestamp;
  br_config_state : string;
  br_config_generation : option Z;
  br_admitting : bool;
  br_refusal : option string;
  br_tenant : BudgetScopeReport;
  br_functions : list BudgetScopeReport
}.

(** [crates/application/src/budget/mod.rs:911-925 report (part)] *)
Definition report_refusal (budget : option TenantBudget) (stats : option StoreStats) (now : Timestamp) : option string :=
  when! negb (bc_enabled config) return! None;;
  match budget with
  | None => Some (BudgetRefusal.error_type BudgetRefusal.Unknown)
  | Some b =>
      when! negb (tb_price_table_version b == pt_version table) return!
        Some (BudgetRefusal.error_type BudgetRefusal.Unknown);;
      match stats with
      | None => Some (BudgetRefusal.error_type BudgetRefusal.StoreUnavailable)
      | Some st => if is_some (stalled st now) then Some (BudgetRefusal.error_type BudgetRefusal.Unknown) else None
      end
  end.

(** [crates/application/src/budget/mod.rs:874-1007 report] [bounds_of] is what parsing a period gives, and the
    three accesses are of its totals, its alerts and its stats. *)
Definition report (bounds_of : string → option (Timestamp * Timestamp)) (w w' w'' : StoreAccess) (p : Principal)
    (period : option string) (now : Timestamp) : svc (result AppError BudgetReport) := λ s,
  match require_invoke p with
  | Err e => (Err e, s)
  | Ok _ =>
      let period := match period with
        | Some p => if p == "" then month_of now else p
        | None => month_of now
        end in
      match bounds_of period with
      | None => (Err (InvalidRequest ("budget: period must be YYYY-MM, got `" +:+ period +:+ "`")), s)
      | Some (start, stop) =>
          let tenant := pr_tenant_id p in
          let '(budget, generation, config_state) := match Cache.budget tenant now cache with
            | BudgetValid budget generation => (Some budget, Some generation, "valid")
            | BudgetExpired => (None, None, "expired")
            | BudgetNotDelivered => (None, None, "not_delivered")
            end in
          match in_store w (totals_tx tenant period) s with
          | (Err e, s) => (Err (BudgetRefused BudgetRefusal.StoreUnavailable (unavailable e)), s)
          | (Ok totals, s) =>
              let '(alerts, s) := in_store w' (alerts_tx tenant period) s in
              let alerts := match alerts with Ok l => l | Err _ => [] end in
              let '(stats, s) := in_store w'' stats_tx s in
              let stats := match stats with Ok st => Some st | Err _ => None end in
              let refusal := report_refusal budget stats now in
              let scope_of := scope_report totals alerts in
              let tenant_report := scope_of TENANT_SCOPE (tb_limits <$> budget) in
              let ids : gset string := list_to_set
                (List.filter (λ s, negb (s == "")) (to_scope <$> totals)
                 ++ match budget with Some b => fbu_function_id <$> tb_functions b | None => [] end)%list in
              let functions := (λ f, scope_of f (budget ≫= Budgets.function f)) <$> merge_sort string_le (elements ids) in
              let admitting := is_none refusal
                && is_none_or (sr_remaining_micros tenant_report) (λ r, 0 <? r) in
              (Ok (mkBudgetReport tenant period start stop config_state generation admitting refusal
                     tenant_report functions), s)
          end
      end
  end.
End service.
End Budgeting.
