(* ===== verification/ControlWorld.v ===== *)
(** * A control plane and the cache of a data plane

    [crates/application/src/control/source.rs]: what a control plane observes and stamps. Requests of a cache, their answers by a control plane whose ledger, grants, policy and budgets
    change, and the deliveries of those answers in any order, late, repeated or never; with what
    was published when. *)

From S2P Require Import Prelude Ids Functions Revision Guard Slot Store Publication BudgetConf AsyncRun AsyncFront Webhook ControlWire ControlCache.

Open Scope string_scope.
Open Scope Z_scope.

(** A token of [identity.tokens]. *)
Record TokenConfig := mkTokenConfig {
  tk_token : string;
  tk_subject : string;
  tk_tenant_id : TenantId;
  tk_roles : list Role.t
}.

(** The settings of the control plane a source reads. *)
Record ControlSettings := mkControlSettings {
  ctl_allowed_egress : list EgressProfile.t;
  ctl_config_ttl_seconds : Z;
  ctl_auth_lease_seconds : Z;
  ctl_internal_token : option string
}.

(** [crates/application/src/control/source.rs:84-99 LedgerConfigSource] *)
Record LedgerConfigSource := mkLedgerConfigSource {
  ls_grants : list (ConfigKey * AuthGrant);
  ls_policy : ConfigPolicy;
  ls_config_ttl_seconds : Z;
  ls_auth_lease_seconds : Z;
  ls_name : string;
  ls_budgets : option BudgetPublisher
}.
#[global] Instance LedgerConfigSource_eta : Eta LedgerConfigSource := λ r,
  mkLedgerConfigSource (ls_grants r) (ls_policy r) (ls_config_ttl_seconds r) (ls_auth_lease_seconds r)
    (ls_name r) (ls_budgets r).

Module Source.

(** [crates/application/src/control/source.rs:287-295 grant_secret] *)
Definition grant_secret (c : ControlSettings) : string :=
  unwrap_or (ctl_internal_token c) "tachyon-serverless/grant-key/in-process".

(** [crates/application/src/control/source.rs:111-147 new] *)
Definition new `{Hashing} (tokens : list TokenConfig) (c : ControlSettings) (name : string)
    : LedgerConfigSource :=
  mkLedgerConfigSource
    ((λ t, (KGrant (grant_key (grant_secret c) (tk_token t)),
            mkAuthGrant (tk_subject t) (tk_tenant_id t) (tk_roles t))) <$> tokens)
    (mkConfigPolicy (ctl_allowed_egress c)) (ctl_config_ttl_seconds c) (ctl_auth_lease_seconds c) name None.

(** The tenants of the grants, each once, in order: a [BTreeSet]. *)
Definition tenants_of (grants : list (ConfigKey * AuthGrant)) : list TenantId :=
  merge_sort string_le (elements (list_to_set (C := gset TenantId) ((λ g, gr_tenant_id g.2) <$> grants))).

(** [crates/application/src/control/source.rs:159-212 observe] [budgets] is what the publisher gave
    for the tenants. *)
Definition observe (src : LedgerConfigSource) (budgets : list TenantBudget) (rows : ConfigRows)
    : list (ConfigKey * ConfigValue) :=
  (((λ f, (KFunction (fn_id f), VFunction f)) <$> cr_functions rows)
   ++ ((λ a, (KRoute (alias_function_id a) (alias_name a), VRoute a)) <$> cr_aliases rows)
   ++ ((λ r, (KRevision (rev_id r), VRevision r)) <$> cr_revisions rows)
   ++ ((λ g, (g.1, VGrant g.2)) <$> ls_grants src)
   ++ ((λ b, (KBudget (tb_tenant_id b), VBudget b)) <$> budgets)
   ++ ((λ t, (KTenant t, VTenant t)) <$> tenants_of (ls_grants src))
   ++ [(KPolicy, VPolicy (ls_policy src))])%list.

(** The budgets of the known tenants; the publisher looks at its file. *)
Definition budgets_of (file : FileState) (src : LedgerConfigSource)
    : list TenantBudget * LedgerConfigSource :=
  match ls_budgets src with
  | None => ([], src)
  | Some b =>
      let '(bs, b) := Publisher.budgets file (tenants_of (ls_grants src)) b in
      (bs, src <| ls_budgets := Some b |>)
  end.

Section publish.
Context `{ConfigCodec}.

(** [crates/application/src/control/source.rs:218-229 publish (part)] *)
Definition observation (kv : ConfigKey * ConfigValue) : ConfigObservation :=
  mkObservation (key_json kv.1) (Values.natural_version kv.2) (config_digest (value_json kv.2))
    (value_json kv.2).

(** [crates/application/src/control/source.rs:231-250 publish (part)] *)
Fixpoint read_entries (es : list StampedEntry) : result RepoError (list ConfigEntry) :=
  match es with
  | [] => Ok []
  | e :: es =>
      match key_of_json (se_key e) with
      | None => Err (Serialization ("unreadable publication key " +:+ se_key e))
      | Some key =>
          value ← match se_body e with
            | Some body => v ← map_err Serialization (value_of_json body); Ok (Some v)
            | None => Ok None
            end;
          rest ← read_entries es;
          Ok (mkConfigEntry key (se_generation e) value :: rest)
      end
  end.

(** [crates/application/src/control/source.rs:214-259 publish] (When an entry does not read back the
    store keeps the stamp; the error here has no state.) *)
Definition publish (file : FileState) (src : LedgerConfigSource) (since : Z) : op (ConfigDelivery * LedgerConfigSource) :=
  λ s,
  let '(budgets, src) := budgets_of file src in
  '(stamped, s) ← ConfigRepo.stamp_config (λ rows, Ok (observation <$> observe src budgets rows)) since s;
  entries ← read_entries (sc_entries stamped);
  Ok (mkConfigDelivery (ls_name src) (sc_generation stamped) since (ls_config_ttl_seconds src)
        (ls_auth_lease_seconds src) entries, src, s).

(** [crates/application/src/control/source.rs:281-284 fetch] [display] is the text of the error. *)
Definition fetch (display : RepoError → string) (file : FileState) (src : LedgerConfigSource) (since : Z)
    (s : State) : result SourceError.t (ConfigDelivery * LedgerConfigSource * State) :=
  map_err (λ e, SourceError.Unavailable ("ledger: " +:+ display e)) (publish file src since s).
End publish.
End Source.

Open Scope string_scope.
Open Scope Z_scope.

(** One publication: when it was made, what the control plane observed, and the table after it. *)
Record Snapshot := mkSnapshot {
  sn_at : Timestamp;
  sn_observed : list (ConfigKey * ConfigValue);
  sn_rows : gmap string PublishedRow;
  sn_generation : Z
}.

(** [cw_changes] counts the rows the publications wrote; the newest snapshot is first. *)
Record ControlWorld := mkControlWorld {
  cw_now : Timestamp;
  cw_store : State;
  cw_changes : Z;
  cw_history : list Snapshot;
  cw_requests : list Cache.RefreshStart;
  cw_answers : list (Cache.RefreshStart * ConfigDelivery);
  cw_cache : Inner
}.
#[global] Instance ControlWorld_eta : Eta ControlWorld := λ r,
  mkControlWorld (cw_now r) (cw_store r) (cw_changes r) (cw_history r) (cw_requests r) (cw_answers r)
    (cw_cache r).

(** How the control plane is configured when it answers. *)
Record PlaneConfig := mkPlaneConfig {
  pc_tokens : list TokenConfig;
  pc_settings : ControlSettings;
  pc_budgets : option BudgetPublisher;
  pc_file : FileState
}.

Inductive ccmd : Type :=
| CTick (d : Duration)
| CWrite (functions : gmap FunctionId FunctionDef)
    (aliases : gmap (FunctionId * AliasName) FunctionAlias)
    (revisions : gmap RevisionId FunctionRevision)
| CRequest (marker : option (Z * Z))
| CAnswer (request : nat) (plane : PlaneConfig)
| CDeliver (answer : nat)
| CFailed (request : nat) (error : SourceError.t).

Section world.
Context (st : CacheSettings) `{Hashing} `{ConfigCodec}.

Definition plane_source (p : PlaneConfig) : LedgerConfigSource :=
  Source.new (pc_tokens p) (pc_settings p) "plane" <| ls_budgets := pc_budgets p |>.

(** What the control plane observes of the ledger and of its settings. *)
Definition plane_observed (p : PlaneConfig) (s : State) : list (ConfigKey * ConfigValue) :=
  let '(budgets, src) := Source.budgets_of (pc_file p) (plane_source p) in
  Source.observe src budgets
    (mkConfigRows (btree_values (st_functions s)) (btree_values (st_aliases s)) (btree_values (st_revisions s))).

Definition start_world (name : string) (now : Timestamp) (store : State) : ControlWorld :=
  mkControlWorld now (store <| st_publication := ∅ |> <| st_publication_generation := 0 |>) 0
    [mkSnapshot now [] ∅ 0] [] [] (Cache.new name).

Definition run_ccmd (w : ControlWorld) (c : ccmd) : ControlWorld :=
  match c with
  | CTick d => w <| cw_now ::= λ t, t + Z.max d 0 |>
  | CWrite fs als rs =>
      w <| cw_store ::= λ s, s <| st_functions := fs |> <| st_aliases := als |> <| st_revisions := rs |> |>
  | CRequest marker =>
      w <| cw_requests ::= λ l, (l ++ [Cache.refresh_begin marker (cw_now w) (cw_cache w)])%list |>
  | CAnswer i p =>
      match cw_requests w !! i with
      | None => w
      | Some r =>
          match Source.publish (pc_file p) (plane_source p) (Cache.rs_since r) (cw_store w) with
          | Err _ => w
          | Ok (d, _, s) =>
              let observed := plane_observed p (cw_store w) in
              let '(_, _, changed) := stamp (st_publication (cw_store w))
                (st_publication_generation (cw_store w)) (Source.observation <$> observed) in
              w <| cw_store := s |>
                <| cw_changes ::= λ n, n + Z.of_nat (length changed) |>
                <| cw_history ::= λ l, mkSnapshot (cw_now w) observed (st_publication s)
                                         (st_publication_generation s) :: l |>
                <| cw_answers ::= λ l, (l ++ [(r, d)])%list |>
          end
      end
  | CDeliver i =>
      match cw_answers w !! i with
      | None => w
      | Some (r, d) => w <| cw_cache := (Cache.refresh_end st r (Ok d) (cw_cache w)).2 |>
      end
  | CFailed i e =>
      match cw_requests w !! i with
      | None => w
      | Some r => w <| cw_cache := (Cache.refresh_end st r (Err e) (cw_cache w)).2 |>
      end
  end.
Definition run_ccmds (w : ControlWorld) (cs : list ccmd) : ControlWorld := foldl run_ccmd w cs.

(** ** The invariant *)

(** A value under the key it is published under. *)
Definition fits (k : ConfigKey) (v : ConfigValue) : Prop :=
  match k, v with
  | KFunction f, VFunction x => f = fn_id x
  | KRoute f a, VRoute x => f = alias_function_id x ∧ a = alias_name x
  | KRevision r, VRevision x => r = rev_id x
  | KGrant _, VGrant _ => True
  | KTenant t, VTenant t' => t = t'
  | KPolicy, VPolicy _ => True
  | KBudget t, VBudget b => t = tb_tenant_id b
  | _, _ => False
  end.

(** A row of the table: a tombstone, or a value under its key with its version and digest. *)
Definition row_value (k : ConfigKey) (row : PublishedRow) (v : option ConfigValue) : Prop :=
  match v with
  | None => pub_body row = None
  | Some v => pub_body row = Some (value_json v) ∧ fits k v ∧
      pub_natural_version row = Values.natural_version v ∧
      pub_digest row = config_digest (value_json v)
  end.
Definition table_ok (rows : gmap string PublishedRow) : Prop :=
  ∀ key row, rows !! key = Some row → ∃ k v, key = key_json k ∧ row_value k row v.

(** A control plane that observed [observed] vouches for a value: it observed it, or something
    older that the table has already left behind. *)
Definition vouches (observed : list (ConfigKey * ConfigValue)) (k : ConfigKey) (v : ConfigValue) : Prop :=
  (k, v) ∈ observed ∨
  ∃ v', (k, v') ∈ observed ∧ Values.natural_version v' < Values.natural_version v.

(** One table is an earlier state of another. *)
Record older (r1 : gmap string PublishedRow) (g1 : Z) (r2 : gmap string PublishedRow) (g2 : Z) : Prop := {
  ol_generation : g1 ≤ g2;
  ol_same : g1 = g2 → r1 = r2;
  ol_rows : ∀ k, r2 !! k = r1 !! k ∨ ∃ row, r2 !! k = Some row ∧ g1 < pub_generation row
}.
Definition older_snapshot (h1 h2 : Snapshot) : Prop :=
  older (sn_rows h1) (sn_generation h1) (sn_rows h2) (sn_generation h2).

Record snapshot_ok (h : Snapshot) : Prop := {
  so_pub : pub_ok (sn_rows h) (sn_generation h);
  so_table : table_ok (sn_rows h);
  so_fit : Forall (λ kv, fits kv.1 kv.2) (sn_observed h);
  so_vouched : ∀ k row v, sn_rows h !! key_json k = Some row → row_value k row (Some v) →
    vouches (sn_observed h) k v
}.

(** The cache holds exactly the table of a snapshot. *)
Definition mirrors_table (h : Snapshot) (entries : gmap ConfigKey CachedEntry) : Prop :=
  ∀ k, match sn_rows h !! key_json k, entries !! k with
       | None, None => True
       | Some row, Some e => en_generation e = pub_generation row ∧ row_value k row (en_value e)
       | _, _ => False
       end.

Definition own_ttl (k : ConfigKey) : Duration :=
  if Keys.is_authorization k then cse_auth_lease st else cse_config_ttl st.

(** A publication made at most one lifetime before the entry ends had the entry as it is. *)
Definition confirmed_by (history : list Snapshot) (k : ConfigKey) (e : CachedEntry) : Prop :=
  ∃ h row, h ∈ history ∧ en_valid_until e ≤ sn_at h + own_ttl k ∧
    sn_rows h !! key_json k = Some row ∧ pub_generation row = en_generation e ∧
    row_value k row (en_value e).

Record answer_ok (w : ControlWorld) (a : Cache.RefreshStart * ConfigDelivery) : Prop := {
  an_source : ∃ h, h ∈ cw_history w ∧ cd_generation a.2 = sn_generation h ∧
    Cache.rs_started a.1 ≤ sn_at h ∧
    Source.read_entries (above (sn_rows h) (cd_since a.2)) = Ok (cd_entries a.2)
}.

Record control_wf (w : ControlWorld) : Prop := {
  cf_counter : st_publication_generation (cw_store w) = cw_changes w;
  cf_current : ∃ h rest, cw_history w = h :: rest ∧ sn_rows h = st_publication (cw_store w) ∧
    sn_generation h = st_publication_generation (cw_store w);
  cf_snapshots : Forall snapshot_ok (cw_history w);
  cf_chain : StronglySorted (λ new old, older_snapshot old new) (cw_history w);
  cf_times : Forall (λ h, sn_at h ≤ cw_now w) (cw_history w);
  cf_requests : Forall (λ r, Cache.rs_started r ≤ cw_now w) (cw_requests w);
  cf_answers : Forall (answer_ok w) (cw_answers w);
  cf_cache : ∃ h, h ∈ cw_history w ∧ cst_generation (ci_status (cw_cache w)) = sn_generation h ∧
    mirrors_table h (ci_entries (cw_cache w));
  cf_valid : ∀ k e, ci_entries (cw_cache w) !! k = Some e → confirmed_by (cw_history w) k e
}.
End world.
