(* ===== verification/ControlInv.v ===== *)
(** * The invariant of a control plane and a cache

    What a stamp writes of the observed configuration, what a delivery says of the table it was
    read from, and that a cache fed with deliveries in any order holds one of the tables. *)

From S2P Require Import Prelude Ids Functions Revision Guard Slot Store Publication BudgetConf AsyncRun AsyncFront Webhook ControlWire ControlCache ControlWorld.

Open Scope string_scope.
Open Scope Z_scope.

Section control.
Context `{HH : Hashing} `{HC : ConfigCodec} `{HL : !ConfigCodecLaws}.

#[global] Instance key_json_inj : Inj (=) (=) key_json.
Proof. intros j k E. apply (inj Some). by rewrite <-!key_round_trip, E. Qed.
#[global] Instance value_json_inj : Inj (=) (=) value_json.
Proof.
  intros v w E. pose proof (value_round_trip v) as Hv. rewrite E, value_round_trip in Hv. by injection Hv.
Qed.

Lemma row_value_unique k row v w : row_value k row v → row_value k row w → v = w.
Proof.
  destruct v as [v|], w as [w|]; cbn; [|intros (-> & _); done|intros -> (? & _); done|done].
  intros (E & _) (E' & _). rewrite E in E'. injection E' as E'. by apply value_json_inj in E' as ->.
Qed.

(** ** Stamps *)

Definition all_fit (observed : list (ConfigKey * ConfigValue)) : Prop := Forall (λ kv, fits kv.1 kv.2) observed.

Lemma stamp_one_table kv p : fits kv.1 kv.2 → table_ok p.1.1 → table_ok (stamp_one p (Source.observation kv)).1.1.
Proof.
  destruct p as [[rows c] ch]. intros Hf Ht. unfold stamp_one. destruct (replaces _ _); [|done].
  cbn. intros key row [[<- <-]|[_ Hr]]%lookup_insert_Some; [|by apply Ht].
  exists kv.1, (Some kv.2). by split_and!.
Qed.

Lemma tombstone_one_table seen p e : table_ok p.1.1 → p.1.1 !! e.1 = Some e.2 → table_ok (tombstone_one seen p e).1.1.
Proof.
  destruct p as [[rows c] ch], e as [key row]. intros Ht He. unfold tombstone_one. destruct (_ && _); [|done].
  cbn. intros key' row' [[<- <-]|[_ Hr]]%lookup_insert_Some; [|by apply Ht].
  destruct (Ht key row He) as (k & v & -> & _). by exists k, None.
Qed.

(** Tombstones leave the rows of the keys that are still to come. *)
Lemma tombstones_table seen l p : table_ok p.1.1 → NoDup l.*1 → (∀ e, e ∈ l → p.1.1 !! e.1 = Some e.2) →
  table_ok (foldl (tombstone_one seen) p l).1.1.
Proof.
  revert p. induction l as [|e l IH]; intros p Ht Hnd Hl; [done|]. cbn in *.
  apply NoDup_cons in Hnd as [Hn Hnd]. apply IH; [apply tombstone_one_table; [done|]; apply Hl; left|done|].
  intros e' He'. assert (e'.1 ≠ e.1) by (intros E; apply Hn; rewrite <-E; by apply (list_elem_of_fmap_2 fst)).
  destruct p as [[rows c] ch], e as [key row]. unfold tombstone_one. destruct (_ && _).
  - cbn. rewrite lookup_insert_ne by done. apply (Hl e'). by right.
  - apply (Hl e'). by right.
Qed.

Lemma stamp_table rows c observed rows' c' ch : all_fit observed → table_ok rows →
  stamp rows c (Source.observation <$> observed) = (rows', c', ch) → table_ok rows'.
Proof.
  intros Hf Ht H. unfold stamp in H.
  assert (Hobs : table_ok (foldl stamp_one (rows, c, []) (Source.observation <$> observed)).1.1).
  { clear H. revert Hf. induction observed as [|kv l IH] using rev_ind; intros Hf; [done|].
    apply Forall_app in Hf as [Hf [Hkv _]%Forall_cons].
    rewrite fmap_app, foldl_app. cbn. apply stamp_one_table; [exact Hkv|by apply IH]. }
  destruct (foldl stamp_one _ _) as [[r1 c1] ch1].
  assert (rows' = (foldl (tombstone_one (list_to_set (map obs_key (Source.observation <$> observed))))
    (r1, c1, ch1) (btree_entries r1)).1.1) as -> by by rewrite H.
  apply tombstones_table; [done|apply NoDup_btree_keys|].
  intros [k row] Hin. by apply elem_of_btree_entries.
Qed.

(** The last observation of a key decides its row. *)
Lemma stamp_obs_vouched observed p k : k ∈ observed.*1 →
  ∃ v row, (k, v) ∈ observed ∧
    (foldl stamp_one p (Source.observation <$> observed)).1.1 !! key_json k = Some row ∧ pub_body row ≠ None ∧
    (pub_digest row = config_digest (value_json v) ∨ Values.natural_version v < pub_natural_version row).
Proof.
  induction observed as [|[k' v'] l IH] using rev_ind; [by intros ?%elem_of_nil|].
  rewrite fmap_app, elem_of_app. intros Hin. rewrite fmap_app, foldl_app. cbn.
  destruct (decide (k = k')) as [->|Hne].
  - destruct (stamp_one_mirrors (foldl stamp_one p (Source.observation <$> l)) (Source.observation (k', v')))
      as (row & Hrow & Hm). exists v', row. split; [apply elem_of_app; right; by left|]. split; [exact Hrow|].
    unfold mirrors in Hm. destruct (replaces _ _); [|apply Hm]. destruct Hm as (Hd & Hb & _). rewrite Hb. auto.
  - destruct Hin as [Hin|Hin]; [|set_solver].
    destruct (IH Hin) as (v & row & Hv & Hrow & Hd). exists v, row. split; [set_solver|]. split; [|done].
    rewrite <-Hrow. apply (stamp_obs_other [Source.observation (k', v')]). cbn.
    intros E%list_elem_of_singleton. by apply key_json_inj in E.
Qed.

(** What a stamp leaves of an observed key, and of one that was not. *)
Lemma stamp_observed rows c observed rows' c' ch k : Inj (=) (=) config_digest → all_fit observed → table_ok rows →
  stamp rows c (Source.observation <$> observed) = (rows', c', ch) → k ∈ observed.*1 →
  ∃ v v' row, (k, v) ∈ observed ∧ rows' !! key_json k = Some row ∧ row_value k row (Some v') ∧
    (v' = v ∨ Values.natural_version v < Values.natural_version v').
Proof.
  intros Hinj Hfit Htab H Hin. pose proof (stamp_table _ _ _ _ _ _ Hfit Htab H) as Htab'.
  destruct (stamp_obs_vouched observed (rows, c, []) k Hin) as (v & row & Hv & Hrow & Hb & Hor).
  assert (rows' !! key_json k = Some row) as Hrow'.
  { unfold stamp in H. destruct (foldl stamp_one _ _) as [[r1 c1] ch1]. cbn in Hrow.
    replace rows' with (foldl (tombstone_one (list_to_set (map obs_key (Source.observation <$> observed))))
      (r1, c1, ch1) (btree_entries r1)).1.1 by by rewrite H.
    rewrite tombstones_seen; [done|]. apply elem_of_list_to_set.
    apply list_elem_of_fmap in Hin as (kv & -> & Hkv). apply list_elem_of_In, in_map_iff.
    exists (Source.observation kv). split; [done|]. apply list_elem_of_In. by apply list_elem_of_fmap_2. }
  destruct (Htab' _ _ Hrow') as (k' & [v'|] & E & Hval); [|done]. apply key_json_inj in E as <-.
  exists v, v', row. split_and!; [done..|]. destruct Hval as (Hbody & _ & Hn & Hd). destruct Hor as [Hor|Hor].
  - left. rewrite Hd in Hor. by apply Hinj, value_json_inj in Hor.
  - right. lia.
Qed.

Lemma stamp_unobserved rows c observed rows' c' ch k row :
  stamp rows c (Source.observation <$> observed) = (rows', c', ch) → k ∉ observed.*1 →
  rows' !! key_json k = Some row → pub_body row = None.
Proof.
  intros H Hnot Hrow. unfold stamp in H.
  assert (key_json k ∉ map obs_key (Source.observation <$> observed)) as Hk.
  { intros Hin. apply list_elem_of_In, in_map_iff in Hin as (o & E & Ho).
    apply list_elem_of_In, list_elem_of_fmap in Ho as (kv & -> & Hkv). cbn in E. apply key_json_inj in E as <-.
    apply Hnot. by apply (list_elem_of_fmap_2 fst). }
  destruct (foldl stamp_one _ _) as [[r1 c1] ch1].
  eapply (tombstones_unseen (list_to_set (map obs_key (Source.observation <$> observed)))
    (btree_entries r1) (r1, c1, ch1) (key_json k)).
  - by rewrite elem_of_list_to_set.
  - intros row0 Hrow0. right. by apply elem_of_btree_entries.
  - by rewrite H.
Qed.

Lemma stamp_vouched rows c observed rows' c' ch k row v :
  Inj (=) (=) config_digest → all_fit observed → table_ok rows →
  stamp rows c (Source.observation <$> observed) = (rows', c', ch) →
  rows' !! key_json k = Some row → row_value k row (Some v) → vouches observed k v.
Proof.
  intros Hinj Hfit Htab H Hrow Hval. destruct (decide (k ∈ observed.*1)) as [Hin|Hnot].
  - destruct (stamp_observed _ _ _ _ _ _ _ Hinj Hfit Htab H Hin) as (v0 & v' & row' & Hv0 & Hrow' & Hval' & Hor).
    rewrite Hrow in Hrow'. injection Hrow' as <-. pose proof (row_value_unique _ _ _ _ Hval Hval') as [= <-].
    destruct Hor as [->|Hlt]; [by left|right; eauto].
  - pose proof (stamp_unobserved _ _ _ _ _ _ _ _ H Hnot Hrow) as E. destruct Hval as (Hb & _). congruence.
Qed.

(** Every stamp leads to a later state of the table. *)
Lemma stamp_older rows c obs rows' c' ch : pub_ok rows c →
  stamp rows c obs = (rows', c', ch) → c + Z.of_nat (length ch) ≤ u64_max →
  c' = c + Z.of_nat (length ch) ∧ pub_ok rows' c' ∧ older rows c rows' c'.
Proof.
  intros Hok H Hmax. destruct (stamp_le rows c obs) as (l & Hl & Hs). rewrite H in Hl, Hs. cbn in Hl, Hs. subst l.
  destruct Hs as (Hc & Hok' & Hk); [apply Hok|done|]. split_and!; [done|auto|]. split; [lia| |].
  - intros E. apply map_eq. intros k. destruct (Hk k) as [->|(Hin & _)]; [done|].
    destruct ch; [by apply elem_of_nil in Hin|cbn in *; lia].
  - intros k. destruct (Hk k) as [?|(_ & row & ? & ?)]; [by left|right; eauto].
Qed.

Lemma older_trans r1 g1 r2 g2 r3 g3 : older r1 g1 r2 g2 → older r2 g2 r3 g3 → older r1 g1 r3 g3.
Proof.
  intros [H1 S1 R1] [H2 S2 R2]. split; [lia| |].
  - intros E. rewrite S1, S2; [done|lia..].
  - intros k. destruct (R2 k) as [->|(row & Hr & Hg)]; [apply R1|]. right. exists row. split; [done|lia].
Qed.
Lemma older_refl r g : older r g r g.
Proof. split; [lia|done|auto]. Qed.

(** ** Reading a delivery *)

Lemma read_entries_spec rows es : table_ok rows →
  (∀ e, e ∈ es → ∃ row, rows !! se_key e = Some row ∧ se_generation e = pub_generation row ∧ se_body e = pub_body row) →
  ∃ ces, Source.read_entries es = Ok ces ∧
    Forall2 (λ e ce, se_key e = key_json (ce_key ce) ∧ ∃ row, rows !! se_key e = Some row ∧
      ce_generation ce = pub_generation row ∧ row_value (ce_key ce) row (ce_value ce)) es ces.
Proof.
  intros Ht. induction es as [|e es IH]; intros He; [by exists []|].
  destruct IH as (ces & Hces & Hf); [intros; apply He; by right|].
  destruct (He e) as (row & Hrow & Hg & Hb); [by left|]. destruct (Ht _ _ Hrow) as (k & v & Ek & Hv).
  cbn. rewrite Ek, key_round_trip, Hb, Hces.
  pose proof Hv as Hv'. destruct v as [v|]; cbn in Hv.
  - destruct Hv as (Hbody & Hrest). rewrite Hbody, value_round_trip. cbn. eexists. split; [done|].
    constructor; [|done]. cbn. split; [done|]. exists row. done.
  - rewrite Hv. cbn. eexists. split; [done|]. constructor; [|done]. cbn. split; [done|]. exists row. done.
Qed.

Definition entry_for (k : ConfigKey) (ces : list ConfigEntry) : option ConfigEntry :=
  List.find (λ e, bool_decide (ce_key e = k)) ces.

Lemma read_above rows since : table_ok rows → ∃ ces, Source.read_entries (above rows since) = Ok ces ∧
  NoDup (ce_key <$> ces) ∧
  ∀ k, match entry_for k ces with
       | Some e => ∃ row, rows !! key_json k = Some row ∧ since < pub_generation row ∧
           ce_generation e = pub_generation row ∧ row_value k row (ce_value e)
       | None => ∀ row, rows !! key_json k = Some row → pub_generation row ≤ since
       end.
Proof.
  intros Ht. destruct (read_entries_spec rows (above rows since) Ht) as (ces & Hces & Hf).
  { intros e (row & ? & ? & ? & ?)%elem_of_above. eauto. }
  exists ces. split; [done|].
  assert (Hkeys : map se_key (above rows since) = key_json <$> (ce_key <$> ces)).
  { clear -Hf. induction Hf as [|e ce es ces [E _] _ IH]; [done|]. cbn. by rewrite E, IH. }
  split.
  - pose proof (above_keys rows since) as Hnd. rewrite Hkeys in Hnd. by apply NoDup_fmap_1 in Hnd.
  - intros k. unfold entry_for. destruct (List.find _ _) as [e|] eqn:E.
    + apply List.find_some in E as [Hin Hk]. bools. subst k. apply list_elem_of_In, list_elem_of_lookup in Hin as [i Hi].
      destruct (Forall2_lookup_r _ _ _ _ _ Hf Hi) as (se & Hse & Ek & row & Hrow & Hg & Hv).
      apply list_elem_of_lookup_2, elem_of_above in Hse as (row' & Hrow' & Hsince & _).
      rewrite Ek in *. rewrite Hrow in Hrow'. injection Hrow' as <-. eauto.
    + intros row Hrow. destruct (Z.le_gt_cases (pub_generation row) since) as [|Hgt]; [done|].
      assert (Hin : mkStamped (key_json k) (pub_generation row) (pub_body row) ∈ above rows since)
        by (apply elem_of_above; by exists row).
      apply list_elem_of_lookup in Hin as [i Hi]. destruct (Forall2_lookup_l _ _ _ _ _ Hf Hi) as (ce & Hce & Ek & _).
      cbn in Ek. apply key_json_inj in Ek.
      apply (List.find_none _ _) with (x := ce) in E; [by rewrite bool_decide_true in E|].
      apply list_elem_of_In. by eapply list_elem_of_lookup_2.
Qed.

(** ** Applying a delivery *)

Lemma apply_entries_at g at_ ces m rep k : NoDup (ce_key <$> ces) →
  (foldl (Cache.apply_entry g at_) (m, rep) ces).1 !! k =
    match entry_for k ces with
    | Some e => if g <? ce_generation e then m !! k
                else if is_some_and (m !! k) (λ x, ce_generation e <=? en_generation x) then m !! k
                else Some (mkCachedEntry (ce_generation e) (ce_value e) at_ at_)
    | None => m !! k
    end.
Proof.
  revert m rep. induction ces as [|e ces IH]; intros m rep Hnd; [done|].
  cbn in Hnd. apply NoDup_cons in Hnd as [Hnot Hnd]. cbn [foldl]. unfold entry_for. cbn [List.find].
  destruct (Cache.apply_entry g at_ (m, rep) e) as [m' rep'] eqn:E. rewrite IH by done. clear IH.
  assert (Hother : ce_key e ≠ k → m' !! k = m !! k).
  { intros Hne. unfold Cache.apply_entry in E. destruct (g <? _); [by injection E as <- _|].
    destruct (is_some_and _ _); injection E as <- _; [done|by rewrite lookup_insert_ne]. }
  case_bool_decide as Hk.
  - subst k. assert (entry_for (ce_key e) ces = None) as ->.
    { unfold entry_for. destruct (List.find _ _) as [e'|] eqn:F; [|done].
      apply List.find_some in F as [Hin Hk]. bools. destruct Hnot. rewrite <-Hk.
      apply list_elem_of_fmap_2. by apply list_elem_of_In. }
    unfold Cache.apply_entry in E. destruct (g <? _); [by injection E as <- _|].
    destruct (is_some_and _ _); injection E as <- _; [done|by rewrite lookup_insert_eq].
  - rewrite Hother by done. done.
Qed.

(** What an entry of the cache becomes. *)
Definition renewed (st : CacheSettings) (d : ConfigDelivery) (at_ : Timestamp) (k : ConfigKey) (e : CachedEntry)
    : CachedEntry :=
  Cache.confirm (at_ + Cache.ttl_of (cd_config_ttl_seconds d) (cse_config_ttl st))
    (at_ + Cache.ttl_of (cd_auth_lease_seconds d) (cse_auth_lease st)) at_ k e.

Lemma apply_lookup st d at_ s k : NoDup (ce_key <$> cd_entries d) →
  cst_generation (ci_status s) ≤ cd_generation d → cd_since d ≤ cst_generation (ci_status s) →
  let s' := (Cache.apply st d at_ s).2 in
  cst_generation (ci_status s') = cd_generation d ∧ apr_regressed (Cache.apply st d at_ s).1 = false ∧
  ci_entries s' !! k = renewed st d at_ k <$>
    (foldl (Cache.apply_entry (cd_generation d) at_) (ci_entries s, mkApplyReport 0 0 0 false) (cd_entries d)).1 !! k.
Proof.
  intros Hnd Hg Hs. unfold Cache.apply.
  replace (cd_generation d <? _) with false by (symmetry; by apply Z.ltb_ge).
  replace (cst_generation _ <? cd_since d) with false by (symmetry; by apply Z.ltb_ge). cbn [orb].
  destruct (foldl _ _ _) as [m rep] eqn:E.
  assert (Hrep : apr_regressed rep = false).
  { replace rep with (foldl (Cache.apply_entry (cd_generation d) at_)
      (ci_entries s, mkApplyReport 0 0 0 false) (cd_entries d)).2 by by rewrite E.
    apply (foldl_inv (λ acc, apr_regressed acc.2 = false)); [done|].
    intros [m0 r0] e _ Hr. unfold Cache.apply_entry. destruct (_ <? _); [done|]. by destruct (is_some_and _ _). }
  cbn. split_and!; [lia|done|]. rewrite map_lookup_imap. by destruct (m !! k).
Qed.

Lemma ttl_of_le cap own : Cache.ttl_of cap own ≤ own.
Proof. unfold Cache.ttl_of. destruct (secs cap); lia. Qed.
Lemma ttl_of_nonneg cap own : 0 ≤ own → 0 ≤ Cache.ttl_of cap own.
Proof.
  intros H. unfold Cache.ttl_of, secs, seconds, nanoseconds_per_second. destruct (0 <? cap) eqn:E; [|done].
  apply Z.ltb_lt in E. assert (0 < i64_max / 1000) by (vm_compute; done). lia.
Qed.

(** A cache that holds the table of [hc] and applies a delivery of [hd] holds the table of [hd]. *)
Lemma apply_mirrors st d at_ s hc hd : snapshot_ok hc → snapshot_ok hd → older_snapshot hc hd →
  mirrors_table hc (ci_entries s) → cst_generation (ci_status s) = sn_generation hc →
  cd_generation d = sn_generation hd → cd_since d ≤ sn_generation hc →
  Source.read_entries (above (sn_rows hd) (cd_since d)) = Ok (cd_entries d) →
  let s' := (Cache.apply st d at_ s).2 in
  mirrors_table hd (ci_entries s') ∧ cst_generation (ci_status s') = sn_generation hd ∧
  apr_regressed (Cache.apply st d at_ s).1 = false ∧
  ∀ k e', ci_entries s' !! k = Some e' →
    ∃ e, e' = renewed st d at_ k e ∧
      (ci_entries s !! k = Some e ∨ (en_valid_until e = at_ ∧ en_confirmed_at e = at_)).
Proof.
  intros Hc Hd Hold Hm Hgc Hgd Hsince Hread. cbv zeta.
  destruct (read_above (sn_rows hd) (cd_since d) (so_table _ Hd)) as (ces & Hces & Hnd & Hfor).
  rewrite Hces in Hread. injection Hread as Hread. rewrite Hread in Hnd, Hfor. clear ces Hces Hread.
  pose proof (ol_generation _ _ _ _ Hold) as Hle.
  assert (Hlook : ∀ k, ci_entries (Cache.apply st d at_ s).2 !! k = renewed st d at_ k <$>
     match entry_for k (cd_entries d) with
     | Some e => if is_some_and (ci_entries s !! k) (λ x, ce_generation e <=? en_generation x) then ci_entries s !! k
                 else Some (mkCachedEntry (ce_generation e) (ce_value e) at_ at_)
     | None => ci_entries s !! k
     end).
  { intros k. destruct (apply_lookup st d at_ s k Hnd) as (_ & _ & ->); [lia|lia|].
    rewrite apply_entries_at by done. specialize (Hfor k). destruct (entry_for k _) as [e|]; [|done].
    destruct Hfor as (row & Hrow & _ & Hg & _). pose proof (po_range _ _ (so_pub _ Hd) _ _ Hrow).
    replace (cd_generation d <? ce_generation e) with false by (symmetry; apply Z.ltb_ge; lia). done. }
  split_and!.
  - intros k. rewrite Hlook. specialize (Hm k). specialize (Hfor k).
    pose proof (ol_rows _ _ _ _ Hold (key_json k)) as Hr.
    destruct (sn_rows hd !! key_json k) as [row|] eqn:Er.
    + destruct (entry_for k (cd_entries d)) as [ce|].
      * destruct Hfor as (row' & [= <-] & Hs & Hg & Hv).
        destruct (ci_entries s !! k) as [e|] eqn:Ee; cbn; [|by split].
        destruct (sn_rows hc !! key_json k) as [rc|] eqn:Erc; [|done]. destruct Hm as [Hge Hve].
        destruct Hr as [[= <-]|(row' & [= <-] & Hgt)].
        -- rewrite Hg, Hge, Z.leb_refl. by split.
        -- pose proof (po_range _ _ (so_pub _ Hc) _ _ Erc).
           replace (ce_generation ce <=? en_generation e) with false by (symmetry; apply Z.leb_gt; lia). by split.
      * specialize (Hfor row eq_refl). destruct Hr as [Hr|(row' & [= <-] & Hgt)]; [|lia].
        rewrite <-Hr in Hm. by destruct (ci_entries s !! k).
    + destruct Hr as [Hr|(? & ? & _)]; [|done]. rewrite <-Hr in Hm.
      destruct (ci_entries s !! k) as [e|]; [done|]. destruct (entry_for k _) as [ce|]; [|done].
      by destruct Hfor as (? & ? & _).
  - rewrite <-Hgd. destruct (apply_lookup st d at_ s KPolicy Hnd) as (-> & _); [lia..|done].
  - destruct (apply_lookup st d at_ s KPolicy Hnd) as (_ & -> & _); [lia..|done].
  - intros k e'. rewrite Hlook. destruct (entry_for k _) as [ce|].
    + destruct (is_some_and _ _).
      * destruct (ci_entries s !! k) as [e|]; [|done]. intros [= <-]. eauto.
      * intros [= <-]. eexists. split; [done|]. by right.
    + destruct (ci_entries s !! k) as [e|]; [|done]. intros [= <-]. eauto.
Qed.

(** ** Steps of the world *)

Lemma plane_fits p s : all_fit (plane_observed p s).
Proof.
  unfold plane_observed. destruct (Source.budgets_of _ _) as [bs src] eqn:E.
  assert (Hg : ls_grants src = ls_grants (plane_source p)).
  { unfold Source.budgets_of in E. destruct (ls_budgets _); [|by injection E as <- <-].
    destruct (Publisher.budgets _ _ _). by injection E as <- <-. }
  unfold Source.observe, all_fit.
  repeat (apply Forall_app; split); try (apply Forall_fmap, Forall_forall; by intros x _).
  - rewrite Hg. unfold plane_source, Source.new. cbn. rewrite <-list_fmap_compose.
    apply Forall_fmap, Forall_forall. by intros x _.
  - apply Forall_cons_2; [done|apply Forall_nil_2].
Qed.

Lemma publish_spec p since s d src s' : Source.publish (pc_file p) (plane_source p) since s = Ok (d, src, s') →
  ∃ changed, stamp (st_publication s) (st_publication_generation s) (Source.observation <$> plane_observed p s)
      = (st_publication s', st_publication_generation s', changed) ∧
    cd_generation d = st_publication_generation s' ∧ cd_since d = since ∧
    Source.read_entries (above (st_publication s') since) = Ok (cd_entries d).
Proof.
  unfold Source.publish, plane_observed, ConfigRepo.stamp_config.
  destruct (Source.budgets_of _ _) as [bs src0]. cbn.
  destruct (stamp _ _ _) as [[rows c] ch] eqn:E. cbn. intros H. apply result_bind_Ok in H as (es & Hes & H).
  injection H as <- <- <-. exists ch. by split_and!.
Qed.

Lemma answer_ok_history w w' a : (∀ h, h ∈ cw_history w → h ∈ cw_history w') → answer_ok w a → answer_ok w' a.
Proof. intros Hh [(h & Hin & Hrest)]. split. exists h. split; [by apply Hh|done]. Qed.

(** Of two snapshots of a run one is an earlier state of the other. *)
Lemma chain_older l h1 h2 : StronglySorted (λ new old, older_snapshot old new) l → h1 ∈ l → h2 ∈ l →
  sn_generation h1 ≤ sn_generation h2 → older_snapshot h1 h2.
Proof.
  intros Hs H1 H2 Hg. revert H1 H2. induction Hs as [|h l Hs IH Hall]; [by intros ?%elem_of_nil|].
  rewrite Forall_forall in Hall. intros [->|H1]%elem_of_cons [->|H2]%elem_of_cons.
  - apply older_refl.
  - destruct (Hall _ H2) as [G S R]. assert (sn_generation h2 = sn_generation h) as E by lia.
    unfold older_snapshot. rewrite (S E), E. apply older_refl.
  - by apply Hall.
  - by apply IH.
Qed.

(** What a refresh that did not apply leaves. *)
Definition same_contents (s s' : Inner) : Prop :=
  ci_entries s' = ci_entries s ∧ cst_generation (ci_status s') = cst_generation (ci_status s).

Lemma refresh_end_cases st r d s :
  let s' := (Cache.refresh_end st r (Ok d) s).2 in
  (cd_generation d < cst_generation (ci_status s) ∨ cst_generation (ci_status s) < cd_since d) ∧ same_contents s s' ∨
  cst_generation (ci_status s) ≤ cd_generation d ∧ cd_since d ≤ cst_generation (ci_status s) ∧
  (apr_regressed (Cache.apply st d (Cache.rs_started r) s).1 = false →
   same_contents (Cache.apply st d (Cache.rs_started r) s).2 s' ∧
   cst_ever_synced (ci_status s') = cst_ever_synced (ci_status (Cache.apply st d (Cache.rs_started r) s).2)).
Proof.
  cbv zeta. unfold Cache.refresh_end.
  destruct ((cd_generation d <? cst_generation (ci_status s)) || (cst_generation (ci_status s) <? cd_since d)) eqn:E.
  - left. unfold Cache.apply. rewrite E. split; [|done]. bools. destruct E; bools; lia.
  - right. apply orb_false_iff in E as [E1 E2]. apply Z.ltb_ge in E1, E2. split_and!; [lia|lia|].
    destruct (Cache.apply st d _ s) as [rep s1]. cbn. intros ->. cbn. by destruct (Cache.rs_was_failing r).
Qed.

Section steps.
Context (st : CacheSettings) (Hinj : Inj (=) (=) config_digest)
  (Httl : 0 ≤ cse_config_ttl st) (Hlease : 0 ≤ cse_auth_lease st).

Lemma renewed_confirmed history d at_ hd k e row : hd ∈ history → at_ ≤ sn_at hd →
  sn_rows hd !! key_json k = Some row → en_generation e = pub_generation row → row_value k row (en_value e) →
  (confirmed_by st history k e ∨ en_valid_until e = at_ ∧ en_confirmed_at e = at_) →
  confirmed_by st history k (renewed st d at_ k e).
Proof.
  intros Hin Hat Er Hg Hv Hor.
  assert (Hu : en_valid_until (renewed st d at_ k e) ≤ Z.max (en_valid_until e) (at_ + own_ttl st k)).
  { unfold renewed, Cache.confirm, own_ttl. cbn.
    pose proof (ttl_of_le (cd_config_ttl_seconds d) (cse_config_ttl st)).
    pose proof (ttl_of_le (cd_auth_lease_seconds d) (cse_auth_lease st)). destruct (Keys.is_authorization k); lia. }
  assert (0 ≤ own_ttl st k) by (unfold own_ttl; by destruct (Keys.is_authorization k)).
  destruct (Z.le_gt_cases (en_valid_until (renewed st d at_ k e)) (at_ + own_ttl st k)) as [Hle|Hgt].
  - exists hd, row. by split_and!; [done|lia|..].
  - destruct Hor as [Hc|[Hu0 _]]; [|lia].
    destruct Hc as (h & r & Hh & Huntil & Hr & Hgr & Hvr). exists h, r. by split_and!; [done|lia|..].
Qed.

Lemma deliver_wf w r d : control_wf st w → answer_ok w (r, d) →
  control_wf st (w <| cw_cache := (Cache.refresh_end st r (Ok d) (cw_cache w)).2 |>).
Proof.
  intros Hwf [(hd & Hin & Hgd & Hat & Hread)]. cbn in Hgd, Hat, Hread.
  pose proof Hwf as [Hcnt Hcur Hsn Hch Htm Hrq Han (hc & Hhc & Hgc & Hm) Hval].
  pose proof (refresh_end_cases st r d (cw_cache w)) as Hcases. cbv zeta in Hcases.
  revert Hcases. generalize (Cache.refresh_end st r (Ok d) (cw_cache w)).2. intros c' [(_ & He & Hg)|(Hle & Hsince & Hok)].
  { split; cbn; try done.
    - eapply Forall_impl; [exact Han|]. intros a. by apply answer_ok_history.
    - exists hc. rewrite Hg, He. by split_and!.
    - intros k e. rewrite He. apply Hval. }
  pose proof (proj1 (Forall_forall _ _) Hsn) as Hall. pose proof (Hall _ Hhc) as Hsc. pose proof (Hall _ Hin) as Hsd.
  assert (Hold : older_snapshot hc hd) by (eapply chain_older; [exact Hch|done|done|lia]).
  destruct (apply_mirrors st d (Cache.rs_started r) (cw_cache w) hc hd) as (Hm' & Hg' & Hreg & Hent); try done; [lia|].
  destruct (Hok Hreg) as [[He Hg] _].
  split; cbn; try done.
  - eapply Forall_impl; [exact Han|]. intros a. by apply answer_ok_history.
  - exists hd. rewrite Hg, He. by split_and!.
  - intros k e'. rewrite He. intros Hk. destruct (Hent k e' Hk) as (e & -> & Hor).
    specialize (Hm' k). rewrite Hk in Hm'. destruct (sn_rows hd !! key_json k) as [row|] eqn:Er; [|done].
    destruct Hm' as [Hgk Hvk]. apply (renewed_confirmed _ d _ hd k e row); try done.
    destruct Hor as [Hor|Hor]; [left; by apply Hval|by right].
Qed.

Lemma answer_wf w r p d src s : control_wf st w → r ∈ cw_requests w →
  Source.publish (pc_file p) (plane_source p) (Cache.rs_since r) (cw_store w) = Ok (d, src, s) →
  ∀ changed, (stamp (st_publication (cw_store w)) (st_publication_generation (cw_store w))
     (Source.observation <$> plane_observed p (cw_store w))).2 = changed →
  cw_changes w + Z.of_nat (length changed) ≤ u64_max →
  control_wf st (w <| cw_store := s |> <| cw_changes ::= λ n, n + Z.of_nat (length changed) |>
    <| cw_history ::= λ l, mkSnapshot (cw_now w) (plane_observed p (cw_store w)) (st_publication s)
                             (st_publication_generation s) :: l |>
    <| cw_answers ::= λ l, (l ++ [(r, d)])%list |>).
Proof.
  intros Hwf Hr Hp changed Hchanged Hmax.
  apply publish_spec in Hp as (ch & Hst & Hgd & Hsd & Hread). rewrite Hst in Hchanged. cbn in Hchanged. subst ch.
  pose proof Hwf as [Hcnt (h0 & rest & Hhist & Hr0 & Hg0) Hsn Hch Htm Hrq Han (hc & Hhc & Hgc & Hm) Hval].
  assert (H0 : snapshot_ok h0) by (rewrite Hhist in Hsn; by apply Forall_cons in Hsn as [? _]).
  pose proof (so_pub _ H0) as Hpub. pose proof (so_table _ H0) as Htab. rewrite Hr0, Hg0 in Hpub. rewrite Hr0 in Htab.
  destruct (stamp_older _ _ _ _ _ _ Hpub Hst) as (Hc' & Hpub' & Hold); [lia|].
  pose proof (stamp_table _ _ _ _ _ _ (plane_fits p (cw_store w)) Htab Hst) as Htab'.
  set (new := mkSnapshot (cw_now w) (plane_observed p (cw_store w)) (st_publication s) (st_publication_generation s)).
  assert (Hmore : ∀ h, h ∈ cw_history w → h ∈ new :: cw_history w) by (intros; by right).
  split; cbn.
  - lia.
  - by exists new, (cw_history w).
  - apply Forall_cons_2; [|done]. split; [done|done|apply plane_fits|]. intros k row v. eapply stamp_vouched; [done|apply plane_fits|exact Htab|exact Hst].
  - constructor; [done|]. apply Forall_forall. intros h Hh. unfold older_snapshot. cbn.
    eapply older_trans; [|rewrite <-Hr0, <-Hg0 in Hold; exact Hold].
    rewrite Hhist in Hh, Hch. apply elem_of_cons in Hh as [->|Hh]; [apply older_refl|].
    apply StronglySorted_inv in Hch as [_ Hall]. rewrite Forall_forall in Hall. by apply Hall.
  - by apply Forall_cons_2.
  - done.
  - apply Forall_app. split; [eapply Forall_impl; [exact Han|]; intros a; by apply answer_ok_history|].
    apply Forall_cons_2; [|apply Forall_nil_2]. split. exists new. split_and!; [by left|done| |cbn; by rewrite Hsd].
    cbn. rewrite Forall_forall in Hrq. by apply Hrq.
  - exists hc. split_and!; [by right|done|done].
  - intros k e Hk. destruct (Hval k e Hk) as (h & row & Hh & Hrest). exists h, row. split; [by right|done].
Qed.

Lemma run_ccmd_changes w c : cw_changes w ≤ cw_changes (run_ccmd st w c).
Proof.
  destruct c as [d|fs als rs|m|i p|i|i e]; cbn; try lia.
  - destruct (cw_requests w !! i); [|lia]. destruct (Source.publish _ _ _ _) as [[[d src] s]|]; [|lia].
    destruct (stamp _ _ _) as [[? ?] ch]. cbn. lia.
  - destruct (cw_answers w !! i) as [[r d]|]; cbn; lia.
  - destruct (cw_requests w !! i); cbn; lia.
Qed.

Lemma run_ccmd_wf w c : control_wf st w → cw_changes (run_ccmd st w c) ≤ u64_max → control_wf st (run_ccmd st w c).
Proof.
  intros Hwf Hmax. pose proof Hwf as [Hcnt Hcur Hsn Hch Htm Hrq Han (hc & Hhc & Hgc & Hm) Hval].
  assert (Han' : ∀ w', cw_history w' = cw_history w → Forall (answer_ok w') (cw_answers w)).
  { intros w' E. eapply Forall_impl; [exact Han|]. intros a. apply answer_ok_history. by rewrite E. }
  destruct c as [d|fs als rs|m|i p|i|i e]; cbn in *.
  - split; cbn; eauto; eapply Forall_impl; try eassumption; cbn; intros; lia.
  - split; cbn; eauto.
  - split; cbn; eauto. apply Forall_app. split; [done|]. apply Forall_cons_2; [cbn; lia|apply Forall_nil_2].
  - destruct (cw_requests w !! i) as [r|] eqn:Er; [|done]. apply list_elem_of_lookup_2 in Er.
    destruct (Source.publish _ _ _ _) as [[[d src] s]|] eqn:Ep; [|done].
    pose proof (answer_wf w r p d src s Hwf Er Ep) as Hans.
    destruct (stamp _ _ _) as [[r1 c1] ch]. apply (Hans ch); [done|]. cbn in Hmax. lia.
  - destruct (cw_answers w !! i) as [[r d]|] eqn:Ea; [|done]. apply list_elem_of_lookup_2 in Ea.
    rewrite Forall_forall in Han. by apply deliver_wf, Han.
  - destruct (cw_requests w !! i) as [r|] eqn:Er; [|done]. split; cbn; eauto.
Qed.

Lemma run_ccmds_changes w cs : cw_changes w ≤ cw_changes (run_ccmds st w cs).
Proof.
  revert w. induction cs as [|c cs IH]; intros w; cbn; [done|]. etrans; [apply run_ccmd_changes|apply IH].
Qed.

Lemma run_ccmds_wf w cs : control_wf st w → cw_changes (run_ccmds st w cs) ≤ u64_max → control_wf st (run_ccmds st w cs).
Proof.
  revert w. induction cs as [|c cs IH]; intros w Hwf Hmax; [done|]. cbn in *.
  apply IH; [|done]. apply run_ccmd_wf; [done|]. pose proof (run_ccmds_changes (run_ccmd st w c) cs). unfold run_ccmds in *. lia.
Qed.

Lemma start_wf name now store : control_wf st (start_world name now store).
Proof.
  split; cbn [cw_history cw_now cw_cache start_world].
  - done.
  - by eexists _, [].
  - apply Forall_cons_2; [|apply Forall_nil_2]. split; cbn.
    + split; [done| |]; intros *; by rewrite lookup_empty.
    + intros key row. by rewrite lookup_empty.
    + apply Forall_nil_2.
    + intros k row v. by rewrite lookup_empty.
  - repeat constructor.
  - apply Forall_cons_2; [cbn; lia|apply Forall_nil_2].
  - apply Forall_nil_2.
  - apply Forall_nil_2.
  - exists (mkSnapshot now [] ∅ 0). split_and!; [by left|done|]. intros k. cbn. by rewrite !lookup_empty.
  - intros k e. cbn. by rewrite lookup_empty.
Qed.
End steps.
End control.
