(* ===== verification/ControlScenario.v ===== *)
(** * A concrete encoding of the configuration

    JSON texts for a few values, and for every other key and value the bits of its number in an
    enumeration of them: an encoding that meets the laws of [ControlWire]; and a small run of a
    control plane and a cache. *)

From Stdlib Require Import Ascii.
From S2P Require Import Prelude Ids Functions Egress Revision Guard Slot Store BudgetConf AsyncRun AsyncFront Webhook ControlWire ControlCache ControlWorld.

Open Scope string_scope.
Open Scope Z_scope.

(** ** The values are countable *)

Ltac solve_injective := by intros [].

#[global] Instance Architecture_countable : Countable Architecture :=
  inj_countable' (λ a, match a with X86_64 => 0 | Aarch64 => 1 end) (λ n, if n =? 0 then X86_64 else Aarch64)
    ltac:(solve_injective).
#[global] Instance ArtifactRef_countable : Countable ArtifactRef :=
  inj_countable' (λ a, match a with Binary d s => inl (d, s) | OciImage r d => inr (r, d) end)
    (λ x, match x with inl (d, s) => Binary d s | inr (r, d) => OciImage r d end) ltac:(solve_injective).
#[global] Instance RuntimeSpec_countable : Countable RuntimeSpec :=
  inj_countable' (λ r, (protocol r, architecture r)) (λ '(p, a), mkRuntime p a) ltac:(solve_injective).
#[global] Instance ResourceProfile_countable : Countable ResourceProfile :=
  inj_countable' (λ r, (memory_mib r, cpu_millis r, ephemeral_storage_mib r))
    (λ '(m, c, e), mkResources m c e) ltac:(solve_injective).
#[global] Instance ExecutionPolicy_countable : Countable ExecutionPolicy :=
  inj_countable' (λ r, (timeout_seconds r, initialization_timeout_seconds r, concurrency_per_environment r,
      max_concurrency r, min_ready r, idle_ttl_seconds r, scale_down_cooldown_seconds r))
    (λ '(a, b, c, d, e, f, g), mkPolicy a b c d e f g) ltac:(solve_injective).
#[global] Instance EgressProfile_countable : Countable EgressProfile.t :=
  inj_countable' (λ p, match p with EgressProfile.None_ => 0 | EgressProfile.Restricted => 1 | EgressProfile.PublicWeb => 2 end)
    (λ n, if n =? 0 then EgressProfile.None_ else if n =? 1 then EgressProfile.Restricted else EgressProfile.PublicWeb)
    ltac:(solve_injective).
#[global] Instance EgressProtocol_countable : Countable EgressProtocol :=
  inj_countable' (λ p, match p with Tcp => 0 | Udp => 1 end) (λ n, if n =? 0 then Tcp else Udp) ltac:(solve_injective).
#[global] Instance EgressAllowRule_countable : Countable EgressAllowRule :=
  inj_countable' (λ r, (rule_cidr r, rule_protocol r, rule_ports r)) (λ '(a, b, c), mkRule a b c) ltac:(solve_injective).
#[global] Instance SecretBinding_countable : Countable SecretBinding :=
  inj_countable' (λ r, (env_name r, binding_ref r)) (λ '(a, b), mkSecret a b) ltac:(solve_injective).
#[global] Instance Placement_countable : Countable Placement :=
  inj_countable' region mkPlacement ltac:(solve_injective).
#[global] Instance RestorePolicy_countable : Countable RestorePolicy.t :=
  inj_countable' (λ p, match p with RestorePolicy.Disabled => 0 | RestorePolicy.Prefer => 1 | RestorePolicy.Require => 2 end)
    (λ n, if n =? 0 then RestorePolicy.Disabled else if n =? 1 then RestorePolicy.Prefer else RestorePolicy.Require)
    ltac:(solve_injective).
#[global] Instance RestoreSettings_countable : Countable RestoreSettings :=
  inj_countable' (λ r, (policy r, synthetic_init_sample r)) (λ '(a, b), mkRestore a b) ltac:(solve_injective).
#[global] Instance RevisionSpec_countable : Countable RevisionSpec :=
  inj_countable' (λ r, (artifact r, runtime r, resources r, execution r, egress r, egress_allow r, env_vars r,
      secrets r, description r, placement r, restore r))
    (λ '(a, b, c, d, e, f, g, h, i, j, k), mkSpec a b c d e f g h i j k) ltac:(solve_injective).
#[global] Instance RevisionStatus_countable : Countable RevisionStatus.t :=
  inj_countable' (λ s, match s with
      | RevisionStatus.Pending => inl 0 | RevisionStatus.Preparing => inl 1 | RevisionStatus.Validating => inl 2
      | RevisionStatus.Ready => inl 3 | RevisionStatus.Failed r => inr r end)
    (λ x, match x with
      | inl n => if n =? 0 then RevisionStatus.Pending else if n =? 1 then RevisionStatus.Preparing
                 else if n =? 2 then RevisionStatus.Validating else RevisionStatus.Ready
      | inr r => RevisionStatus.Failed r end) ltac:(solve_injective).
#[global] Instance FunctionRevision_countable : Countable FunctionRevision :=
  inj_countable' (λ r, (rev_id r, rev_function_id r, rev_tenant_id r, rev_number r, rev_spec r, rev_spec_digest r,
      rev_status r, rev_created_at r, rev_updated_at r))
    (λ '(a, b, c, d, e, f, g, h, i), mkRevision a b c d e f g h i) ltac:(solve_injective).
#[global] Instance FunctionDef_countable : Countable FunctionDef :=
  inj_countable' (λ r, (fn_id r, fn_tenant_id r, fn_name r, fn_description r, fn_created_at r, fn_updated_at r,
      fn_deleted_at r, fn_drained_at r))
    (λ '(a, b, c, d, e, f, g, h), mkFunction a b c d e f g h) ltac:(solve_injective).
#[global] Instance FunctionAlias_countable : Countable FunctionAlias :=
  inj_countable' (λ r, (alias_function_id r, alias_tenant_id r, alias_name r, alias_revision_id r, alias_generation r,
      alias_previous_revision_id r, alias_created_at r, alias_updated_at r))
    (λ '(a, b, c, d, e, f, g, h), mkAlias a b c d e f g h) ltac:(solve_injective).
#[global] Instance Role_countable : Countable Role.t :=
  inj_countable' (λ r, match r with Role.Deploy => 0 | Role.Invoke => 1 | Role.Operator => 2 | Role.Redrive => 3 end)
    (λ n, if n =? 0 then Role.Deploy else if n =? 1 then Role.Invoke else if n =? 2 then Role.Operator else Role.Redrive)
    ltac:(solve_injective).
#[global] Instance AuthGrant_countable : Countable AuthGrant :=
  inj_countable' (λ g, (gr_subject g, gr_tenant_id g, gr_roles g)) (λ '(a, b, c), mkAuthGrant a b c) ltac:(solve_injective).
#[global] Instance ConfigPolicy_countable : Countable ConfigPolicy :=
  inj_countable' cp_allowed_egress mkConfigPolicy ltac:(solve_injective).
#[global] Instance BudgetLimits_countable : Countable BudgetLimits :=
  inj_countable' (λ l, (bl_soft_limit_micros l, bl_alert_thresholds_percent l, bl_hard_limit_micros l))
    (λ '(a, b, c), mkBudgetLimits a b c) ltac:(solve_injective).
#[global] Instance FunctionBudget_countable : Countable FunctionBudget :=
  inj_countable' (λ f, (fbu_function_id f, fbu_limits f)) (λ '(a, b), mkFunctionBudget a b) ltac:(solve_injective).
#[global] Instance TenantBudget_countable : Countable TenantBudget :=
  inj_countable' (λ b, (tb_tenant_id b, tb_period b, tb_currency b, tb_price_table_version b, tb_limits b, tb_functions b))
    (λ '(a, b, c, d, e, f), mkTenantBudget a b c d e f) ltac:(solve_injective).
#[global] Instance ConfigValue_countable : Countable ConfigValue :=
  inj_countable' (λ v, match v with
      | VFunction f => inl (inl f) | VRoute a => inl (inr (inl a)) | VRevision r => inl (inr (inr r))
      | VGrant g => inr (inl g) | VTenant t => inr (inr (inl t)) | VPolicy p => inr (inr (inr (inl p)))
      | VBudget b => inr (inr (inr (inr b))) end)
    (λ x, match x with
      | inl (inl f) => VFunction f | inl (inr (inl a)) => VRoute a | inl (inr (inr r)) => VRevision r
      | inr (inl g) => VGrant g | inr (inr (inl t)) => VTenant t | inr (inr (inr (inl p))) => VPolicy p
      | inr (inr (inr (inr b))) => VBudget b end) ltac:(solve_injective).

(** ** Texts *)

Fixpoint text_of_pos (p : positive) : string :=
  match p with
  | xH => ""
  | xO p => String "0"%char (text_of_pos p)
  | xI p => String "1"%char (text_of_pos p)
  end.
Fixpoint pos_of_text (s : string) : positive :=
  match s with
  | EmptyString => xH
  | String c s => if bool_decide (c = "0"%char) then xO (pos_of_text s) else xI (pos_of_text s)
  end.

(** A sample, or a question mark and the bits. *)
Definition sample_text `{Countable A} (samples : list (string * A)) (a : A) : string :=
  match List.find (λ x, x.2 == a) samples with
  | Some (text, _) => text
  | None => "?" +:+ text_of_pos (countable.encode a)
  end.
Definition sample_of `{Countable A} (samples : list (string * A)) (text : string) : option A :=
  match List.find (λ x, x.1 == text) samples with
  | Some (_, a) => Some a
  | None => match text with String _ bits => countable.decode (pos_of_text bits) | EmptyString => None end
  end.

Lemma pos_text p : pos_of_text (text_of_pos p) = p.
Proof. induction p as [p IH|p IH|]; cbn; [by rewrite IH..|done]. Qed.

(** No sample starts with a question mark, and the texts and the values of the samples are distinct. *)
Definition samples_ok `{EqDecision A} (samples : list (string * A)) : Prop :=
  NoDup samples.*1 ∧ Forall (λ t, match t with String "?" _ => False | _ => True end) samples.*1.

Lemma text_round_trip `{Countable A} (samples : list (string * A)) a : samples_ok samples →
  sample_of samples (sample_text samples a) = Some a.
Proof.
  intros [Hnd Hq]. unfold sample_text, sample_of. destruct (List.find (λ x, bool_decide (x.2 = a)) samples) as [[text b]|] eqn:E.
  - apply List.find_some in E as [Hin Hb]. cbn in Hb. bools. subst b.
    destruct (List.find (λ x, bool_decide (x.1 = text)) samples) as [[t c]|] eqn:F.
    + apply List.find_some in F as [Hin' Ht]. cbn in Ht. bools. subst t. f_equal.
      apply list_elem_of_In, list_elem_of_lookup in Hin as [i Hi]. apply list_elem_of_In, list_elem_of_lookup in Hin' as [j Hj].
      assert (i = j) as ->; [|congruence].
      eapply NoDup_lookup; [exact Hnd|by rewrite list_lookup_fmap, Hi|by rewrite list_lookup_fmap, Hj].
    + eapply List.find_none in F; [|exact Hin]. cbn in F. by rewrite bool_decide_true in F.
  - destruct (List.find (λ x, bool_decide (x.1 = "?" +:+ text_of_pos (countable.encode a))) samples) as [[t c]|] eqn:F.
    + apply List.find_some in F as [Hin Ht]. cbn in Ht. bools. subst t. rewrite Forall_forall in Hq.
      destruct (Hq ("?" +:+ text_of_pos (countable.encode a))). by apply (list_elem_of_fmap_2 fst _ (_, c)), list_elem_of_In.
    + change (countable.decode (pos_of_text (text_of_pos (countable.encode a))) = Some a).
      by rewrite pos_text, countable.decode_encode.
Qed.

(** ** A small configuration *)

Definition fn_use : FunctionDef := mkFunction "fn_a" "tn_a" "f" "" 0 0 None None.
Definition rev_use : FunctionRevision :=
  mkRevision "rev_1" "fn_a" "tn_a" 1
    (mkSpec (Binary "sha256:00" 10) (mkRuntime "v1" X86_64) resources_default policy_default EgressProfile.None_ [] [] [] ""
       (mkPlacement None) (mkRestore RestorePolicy.Disabled false)) "sha256:01" RevisionStatus.Ready 0 0.
Definition alias_use : FunctionAlias := Alias.new "fn_a" "tn_a" "prod" "rev_1" 0.
Definition grant_use : AuthGrant := mkAuthGrant "alice" "tn_a" [Role.Invoke].
Definition policy_use : ConfigPolicy := mkConfigPolicy [EgressProfile.None_].

(** Texts stand for their digests. *)
#[global] Instance hashing_use : Hashing := {|
  digest_of text := text;
  hex_encode text := text;
  hex_decode text := Some text
|}.

Definition key_samples : list (string * ConfigKey) :=
  [("function:a", KFunction "fn_a"); ("route:a", KRoute "fn_a" "prod"); ("revision:1", KRevision "rev_1");
   ("grant:1", KGrant (grant_key "internal" "token")); ("tenant:a", KTenant "tn_a"); ("policy", KPolicy)].
Definition value_samples : list (string * ConfigValue) :=
  [("f", VFunction fn_use); ("a", VRoute alias_use); ("r", VRevision rev_use); ("g", VGrant grant_use);
   ("t", VTenant "tn_a"); ("p", VPolicy policy_use)].

#[global] Instance config_codec_use : ConfigCodec := {|
  key_json := sample_text key_samples;
  key_of_json := sample_of key_samples;
  value_json := sample_text value_samples;
  value_of_json text := match sample_of value_samples text with Some v => Ok v | None => Err "expected value" end;
  config_digest text := text
|}.
#[global] Instance config_codec_use_laws : ConfigCodecLaws.
Proof.
  split; cbn; intros.
  - apply text_round_trip. split; [by apply (bool_decide_unpack _); vm_compute|by repeat constructor].
  - rewrite text_round_trip; [done|]. split; [by apply (bool_decide_unpack _); vm_compute|by repeat constructor].
Qed.

(** ** A small run *)

Definition cache_use : CacheSettings :=
  mkCacheSettings (seconds 5) (seconds 60) (seconds 30) (seconds 20) (seconds 1) (seconds 60).
Definition control_use : ControlSettings := mkControlSettings [EgressProfile.None_] 0 0 (Some "internal").
Definition no_file : FileState := mkFileState None (Err "no file").
Definition plane_use : PlaneConfig :=
  mkPlaneConfig [mkTokenConfig "token" "alice" "tn_a" [Role.Invoke]] control_use None no_file.
(** The same control plane after the token was removed. *)
Definition plane_revoked : PlaneConfig := mkPlaneConfig [] control_use None no_file.

(** Two answers arrive late and in the wrong order, the first one twice. *)
Definition ccmds_use : list ccmd :=
  [CWrite {["fn_a" := fn_use]} {[("fn_a", "prod") := alias_use]} {["rev_1" := rev_use]};
   CRequest None; CTick (seconds 1); CAnswer 0 plane_use; CTick (seconds 3); CRequest None;
   CAnswer 1 plane_use; CTick (seconds 20); CDeliver 1; CDeliver 0; CFailed 1 (SourceError.Unavailable "timeout");
   CDeliver 0; CTick (seconds 5)].
