(* ===== verification/BudgetRun.v ===== *)
(** * Budgets: what the service guarantees

    A run is admitted only on a budget that is known, and a pass settles every finished run whose usage
    was collected and expires every run that never reported back. *)

From S2P Require Import Prelude Sums Ids Functions Revision Usage UsageJournal UsageLedger Store Retry AsyncRun AsyncFront.
From S2P Require Import UsageMeter UsageWorld UsageInv UsageScenario UsageProps Calendar Cron Rating RatingInv RatingProps BudgetConf BudgetStore BudgetInv BudgetProps.
From S2P Require Import BudgetCharge Webhook ControlWire ControlCache ControlScenario Budget.

Open Scope string_scope.
Open Scope Z_scope.

(** ** Definitions *)

(** No column is within [k] of the largest integer. *)
Definition room (db : BudgetDb) (k : Z) : Prop :=
  ∀ t s p, Forall (λ c, c.2 + k ≤ i64_max) (totals_columns (stored_totals t s p db)).

(** ** Transitions succeed *)

Lemma room_fits db k : 0 ≤ k → room db k → ∀ t s p, fits (stored_totals t s p db).
Proof.
  intros Hk Hr t s p. unfold fits. eapply Forall_impl; [exact (Hr t s p)|]. intros [n x]; cbn. lia.
Qed.

Lemma fire_alerts_total tenant scope period limits now db :
  fits (stored_totals tenant scope period db) →
  ∃ fired db', fire_alerts tenant scope period limits now db = Ok (fired, db').
Proof.
  intros Hf. unfold fire_alerts. destruct limits as [l|]; [|by eauto].
  destruct (bl_soft_limit_micros l) as [soft|]; [|by eauto]. destruct (bool_decide _); [by eauto|].
  rewrite totals_row_total by done. cbn. destruct (fire_thresholds _ _ _ _ _ _ _ _) as [fired db']. by eauto.
Qed.

Lemma sum_in_ge t s p w db id v : (∀ id v, bd_rows db !! id = Some v → 0 ≤ w (bv_row v)) →
  bd_rows db !! id = Some v → counts_in t s p (bv_row v) = true → w (bv_row v) ≤ sum_in t s p w db.
Proof.
  intros Hw Hv Hc. unfold sum_in.
  pose proof (total_ge (λ v, if counts_in t s p (bv_row v) then w (bv_row v) else 0) (bd_rows db) id v) as H.
  cbv beta in H. rewrite Hc in H. apply H; [|done]. intros k a Hk. specialize (Hw k a Hk). destruct (counts_in t s p (bv_row a)); [exact Hw|lia].
Qed.

(** The totals of the scopes of an open reservation cover it. *)
Lemma open_covered db id v s : budget_wf db → bd_rows db !! id = Some v →
  rr_state (bv_row v) = ReservationState.Reserved → s = TENANT_SCOPE ∨ s = rr_function_id (bv_row v) →
  let t := stored_totals (rr_tenant_id (bv_row v)) s (rr_period (bv_row v)) db in
  rr_reserved_micros (bv_row v) ≤ to_reserved_micros t ∧ 1 ≤ to_active t.
Proof.
  intros Hwf Hv Hs Hsc. cbv zeta.
  destruct (bw_totals db Hwf (rr_tenant_id (bv_row v)) s (rr_period (bv_row v))) as (_ & _ & _ & -> & _ & _ & _ & -> & _).
  assert (Hc : counts_in (rr_tenant_id (bv_row v)) s (rr_period (bv_row v)) (bv_row v) = true).
  { unfold counts_in. repeat (case_bool_decide; try done). destruct Hsc; congruence. }
  split.
  - etrans; [|apply (sum_in_ge _ _ _ _ db id v); [|done|done]].
    + unfold while_reserved. by rewrite Hs, bool_decide_eq_true_2.
    + intros id' v' (_ & _ & (H1 & _))%(bw_rows db Hwf). unfold while_reserved. case_bool_decide; lia.
  - etrans; [|apply (sum_in_ge _ _ _ _ db id v); [|done|done]].
    + unfold in_state. by rewrite Hs, bool_decide_eq_true_2.
    + intros id' v' _. unfold in_state, one_if. by case_bool_decide.
Qed.

Lemma closing_nonneg db id v p s : budget_wf db → bd_rows db !! id = Some v →
  rr_state (bv_row v) = ReservationState.Reserved → plan_ok (bv_row v) p →
  s = TENANT_SCOPE ∨ s = rr_function_id (bv_row v) →
  nonneg (moved (closing_delta p (bv_row v)) (stored_totals (rr_tenant_id (bv_row v)) s (rr_period (bv_row v)) db)).
Proof.
  intros Hwf Hv Hs Hp Hsc. destruct (open_covered db id v s Hwf Hv Hs Hsc) as [H1 H2].
  pose proof (wf_nonneg db (rr_tenant_id (bv_row v)) s (rr_period (bv_row v)) Hwf) as Hn.
  destruct (bw_rows db Hwf id v Hv) as (_ & _ & (Hr & _)). destruct p as [[[to settled] held] reason].
  unfold nonneg, closing_delta, moved, plan_ok, u64_range in *. cbn in *. rewrite (clamp_id (rr_reserved_micros _)) by lia.
  unfold to_i64, u64_saturating_sub, i64_max in *. destruct to; [done|..]; split_and!; lia.
Qed.

(** No delta adds more than [k] to a column. *)
Definition small (d : Delta) (k : Z) : Prop :=
  dl_reserved d ≤ k ∧ dl_settled d ≤ k ∧ dl_held d ≤ k ∧ dl_overrun d ≤ k ∧ dl_active d ≤ k ∧
  dl_reservations d ≤ k ∧ dl_settlements d ≤ k ∧ dl_releases d ≤ k ∧ dl_expiries d ≤ k ∧ dl_refusals d ≤ k.

Lemma moved_room d t k rest : small d k → 0 ≤ k → Forall (λ c, c.2 + (k + rest) ≤ i64_max) (totals_columns t) →
  Forall (λ c, c.2 + rest ≤ i64_max) (totals_columns (moved d t)) ∧ Forall (λ c, c.2 + rest ≤ i64_max) (totals_columns t).
Proof.
  unfold small, totals_columns, moved. intros Hs Hk H.
  repeat match goal with H : Forall _ (_ :: _) |- _ => apply Forall_cons in H as [? H] end. cbn [snd] in *.
  split; repeat apply Forall_cons_2; try apply Forall_nil_2; cbn; lia.
Qed.

Definition plan_cost (p : plan) (k : Z) : Prop := p.1.1.2 ≤ k ∧ p.1.2 ≤ k ∧ 1 ≤ k.

Lemma closing_small p row k : plan_ok row p → amounts_ok row → plan_cost p k → small (closing_delta p row) k.
Proof.
  destruct p as [[[to settled] held] reason]. unfold plan_cost, plan_ok, amounts_ok, small, closing_delta, u64_range. cbn.
  intros Hp Hr Hk. unfold to_i64, u64_saturating_sub, i64_max, one_if in *.
  destruct to; [done|..]; repeat (case_bool_decide; try congruence); lia.
Qed.

Lemma transition_succeeds id now alerts plan_of db v p k rest :
  budget_wf db → bd_rows db !! id = Some v → rr_state (bv_row v) = ReservationState.Reserved →
  plan_of (bv_row v) = Some p → plan_ok (bv_row v) p → plan_cost p k → 0 ≤ rest → room db (k + rest) →
  ∃ tr db', transition_tx id now alerts plan_of db = Ok (tr, db') ∧ tn_changed tr = true ∧
    bd_rows db' = <[id := closed_row p now v]> (bd_rows db) ∧ room db' rest.
Proof.
  intros Hwf Hv Hs Hplan Hp Hk Hrest Hroom. pose proof (bw_rows db Hwf id v Hv) as (_ & Hf & Ham).
  pose proof (closing_small p (bv_row v) k Hp Ham Hk) as Hsm. assert (Hk1 : 0 ≤ k) by (destruct Hk as (_ & _ & ?); lia).
  destruct (both_apply (rr_tenant_id (bv_row v)) (rr_function_id (bv_row v)) (rr_period (bv_row v))
    (closing_delta p (bv_row v)) (db <| bd_rows ::= λ m, <[id := closed_row p now v]> m |>) Hf) as (db1 & db2 & H1 & H2);
    [by apply (closing_nonneg db id v); auto|by apply (closing_nonneg db id v); auto|].
  destruct (both_deltas _ _ _ _ _ _ _ Hf H1 H2) as (Hr2 & _ & Ht2).
  assert (Hroom2 : room db2 rest).
  { intros t s q. destruct (Ht2 t s q) as [-> _]. specialize (Hroom t s q).
    destruct (moved_room (closing_delta p (bv_row v)) _ k rest Hsm Hk1 Hroom) as [Hm Hu]. by destruct (moves_scope _ _ _ _ _ _). }
  destruct (fire_alerts_total (rr_tenant_id (bv_row v)) TENANT_SCOPE (rr_period (bv_row v)) (al_tenant alerts) now db2)
    as (fired & db3 & H3); [by apply (room_fits _ rest)|]. pose proof (fire_alerts_frame _ _ _ _ _ _ _ _ H3) as [Hr3 Ht3].
  destruct (fire_alerts_total (rr_tenant_id (bv_row v)) (rr_function_id (bv_row v)) (rr_period (bv_row v)) (al_function alerts) now db3)
    as (more & db4 & H4). { rewrite (stored_totals_ext _ _ _ db2 db3) by done. by apply (room_fits _ rest). }
  pose proof (fire_alerts_frame _ _ _ _ _ _ _ _ H4) as [Hr4 Ht4].
  exists (mkTransition p.1.1.1 true (fired ++ more)%list), db4. split_and!.
  - unfold transition_tx. rewrite Hv, Hs, bool_decide_eq_true_2, Hplan by done. cbn [negb].
    rewrite H1. cbn [mbind result_bind]. rewrite H2. cbn [mbind result_bind]. rewrite H3. cbn [mbind result_bind]. by rewrite H4.
  - done.
  - by rewrite Hr4, Hr3, Hr2.
  - intros t s q. rewrite (stored_totals_ext _ _ _ db2 db4) by congruence. apply Hroom2.
Qed.

Lemma room_mono db k k' : k' ≤ k → room db k → room db k'.
Proof. intros Hk Hr t s p. eapply Forall_impl; [exact (Hr t s p)|]. intros [n x]; cbn. lia. Qed.

(** ** Access *)

(** A store on disk that is not switched off. *)
Definition healthy (s : BudgetService) : Prop :=
  bs_path (sv_store s) ≠ None ∧ bs_forced_unavailable (sv_store s) = false.

Lemma in_store_works {A} (f : btx A) s a db' : healthy s → f (sv_db s) = Ok (a, db') →
  ∃ s', in_store store_works f s = (Ok a, s') ∧ sv_db s' = db' ∧ sv_counters s' = sv_counters s ∧ healthy s'.
Proof.
  intros [Hp Hf] H. unfold in_store, Stores.with_tx. rewrite Hf. cbn [sa_tx store_works sa_opens].
  destruct (bs_open (sv_store s)).
  - rewrite H. eexists. split; [done|]. cbn. split_and!; done.
  - destruct (bs_path (sv_store s)) as [path|] eqn:E; [|done]. cbn [is_none]. rewrite H.
    eexists. split; [done|]. cbn. split_and!; [done|done|]. split; cbn; congruence.
Qed.

(** Whatever becomes of an access, the database of a store on disk is as before or as after the transaction. *)
Lemma in_store_cases {A} w (f : btx A) s r s' : bs_path (sv_store s) ≠ None → in_store w f s = (r, s') →
  bs_path (sv_store s') = bs_path (sv_store s) ∧ sv_counters s' = sv_counters s ∧
  ((∃ e, r = Err e) ∧ sv_db s' = sv_db s ∨ ∃ a, r = Ok a ∧ f (sv_db s) = Ok (a, sv_db s')).
Proof.
  intros Hp H. unfold in_store, Stores.with_tx in H. destruct s as [[path o le forced] db counters]. cbn in *.
  destruct path as [path|]; [|done].
  destruct forced; cbn in H; [injection H as <- <-; cbn; eauto 6|].
  destruct (sa_tx w) as [| |msg closes]; cbn in H; [|injection H as <- <-; cbn; eauto 6|].
  - destruct o; cbn in H.
    + destruct (f db) as [[a db']|e] eqn:E; injection H as <- <-; cbn; eauto 8.
    + destruct (sa_opens w); cbn in H; [|injection H as <- <-; cbn; eauto 6].
      destruct (f db) as [[a' db']|e] eqn:E; injection H as <- <-; cbn; eauto 8.
  - destruct o; cbn in H; [injection H as <- <-; cbn; eauto 6|].
    destruct (sa_opens w); injection H as <- <-; cbn; eauto 6.
Qed.

(** ** Rows that a query selects *)

Lemma elem_of_rows_where p key db row :
  row ∈ rows_where p key db ↔ ∃ id v, bd_rows db !! id = Some v ∧ bv_row v = row ∧ p row = true.
Proof.
  unfold rows_where. rewrite list_elem_of_fmap. split.
  - intros (v & -> & Hv). rewrite sort_by_Permutation in Hv. apply elem_of_filter_values in Hv as [[id Hid] Hp]. eauto.
  - intros (id & v & Hid & <- & Hp). exists v. split; [done|]. rewrite sort_by_Permutation. apply elem_of_filter_values. eauto.
Qed.

Lemma rows_where_nodup p key db : (∀ id v, bd_rows db !! id = Some v → row_ok id v) →
  NoDup (rr_reservation_id <$> rows_where p key db).
Proof.
  intros Hrows. unfold rows_where. rewrite <-list_fmap_compose, sort_by_Permutation. unfold filter_values.
  assert (Hn : NoDup ((rr_reservation_id ∘ bv_row) <$> btree_values (bd_rows db))).
  { assert (E : (rr_reservation_id ∘ bv_row) <$> btree_values (bd_rows db) = btree_keys (bd_rows db)).
    { unfold btree_values, btree_keys. rewrite <-list_fmap_compose. apply list_fmap_ext. intros i [k v] Hi. cbn.
      apply list_elem_of_lookup_2, elem_of_btree_entries in Hi. apply (Hrows k v Hi). }
    rewrite E. apply NoDup_btree_keys. }
  induction (btree_values (bd_rows db)) as [|v l IH]; cbn; [constructor|]. rewrite fmap_cons in Hn.
  apply NoDup_cons in Hn as [Hni Hn]. specialize (IH Hn). destruct (p (bv_row v)); [|done]. cbn.
  apply NoDup_cons. split; [|done]. intros Hin. apply Hni. apply list_elem_of_fmap in Hin as (x & E & Hx).
  apply list_elem_of_fmap. exists x. split; [exact E|]. apply list_elem_of_In, List.filter_In in Hx as [Hx _]. by apply list_elem_of_In.
Qed.

(** ** A pass over some rows *)

Section folding.
Context (one : SettleReport * BudgetService → ReservationRow → SettleReport * BudgetService).
Context (close : BudgetReservation → BudgetReservation) (good : ReservationRow → Prop) (K : Z).

(** One step closes the row it is given, without an error. *)
Hypothesis step : ∀ report s v rest,
  healthy s → budget_wf (sv_db s) → bd_rows (sv_db s) !! rr_reservation_id (bv_row v) = Some v → good (bv_row v) →
  0 ≤ rest → room (sv_db s) (K + rest) →
  ∃ report' s', one (report, s) (bv_row v) = (report', s') ∧ healthy s' ∧ budget_wf (sv_db s') ∧
    bd_rows (sv_db s') = <[rr_reservation_id (bv_row v) := close v]> (bd_rows (sv_db s)) ∧ room (sv_db s') rest ∧
    sp_errors report' = sp_errors report ∧ sp_waiting report' = sp_waiting report.

Lemma fold_closes l report s rest :
  0 ≤ K → healthy s → budget_wf (sv_db s) → NoDup (rr_reservation_id <$> l) →
  (∀ row, row ∈ l → good row ∧ ∃ v, bd_rows (sv_db s) !! rr_reservation_id row = Some v ∧ bv_row v = row) →
  0 ≤ rest → room (sv_db s) (K * Z.of_nat (length l) + rest) →
  ∃ report' s', foldl one (report, s) l = (report', s') ∧ healthy s' ∧ budget_wf (sv_db s') ∧ room (sv_db s') rest ∧
    sp_errors report' = sp_errors report ∧ sp_waiting report' = sp_waiting report ∧
    ∀ id, bd_rows (sv_db s') !! id =
      (λ v, if bool_decide (id ∈ rr_reservation_id <$> l) then close v else v) <$> bd_rows (sv_db s) !! id.
Proof.
  intros HK. revert report s. induction l as [|row l IH]; intros report s Hh Hwf Hnd Hl Hrest Hroom.
  { exists report, s. split; [done|]. split_and!; try done; [eapply room_mono; [|exact Hroom]; cbn; lia|].
    intros id. by destruct (bd_rows (sv_db s) !! id). }
  destruct (Hl row ltac:(set_solver)) as (Hg & v & Hv & <-). apply NoDup_cons in Hnd as [Hni Hnd].
  destruct (step report s v (K * Z.of_nat (length l) + rest) Hh Hwf Hv Hg ltac:(lia)) as
    (rep1 & s1 & E1 & Hh1 & Hwf1 & Hrows1 & Hroom1 & He1 & Hw1).
  { eapply room_mono; [|exact Hroom]. cbn [length]. lia. }
  destruct (IH rep1 s1 Hh1 Hwf1 Hnd) as (rep2 & s2 & E2 & Hh2 & Hwf2 & Hroom2 & He2 & Hw2 & Hrows2); [|done|done|].
  { intros row' Hin. destruct (Hl row' ltac:(set_solver)) as (Hg' & v' & Hv' & Hrow'). split; [done|]. exists v'.
    split; [|done]. rewrite Hrows1, lookup_insert_ne; [done|]. intros E. apply Hni. rewrite E.
    by apply (list_elem_of_fmap_2 rr_reservation_id). }
  exists rep2, s2. split; [cbn [foldl]; by rewrite E1|]. split_and!; try done; try congruence.
  intros id. rewrite Hrows2, Hrows1. destruct (decide (id = rr_reservation_id (bv_row v))) as [->|Hne].
  - rewrite lookup_insert_eq, Hv. cbn [fmap option_fmap option_map]. f_equal.
    rewrite bool_decide_eq_false_2 by done. by rewrite bool_decide_eq_true_2 by set_solver.
  - rewrite lookup_insert_ne by done. destruct (bd_rows (sv_db s) !! id); [|done]. cbn [fmap option_fmap option_map]. f_equal.
    rewrite fmap_cons. repeat case_bool_decide; set_solver.
Qed.
End folding.

Section service.
Context (config : BudgetConfig) (table : PriceTable) (cache : Inner).
Context (cursor head : option Z) (ledger : UsageTable) (day_of : Timestamp → string) `{UsageCodec}.
Context (reads : string → DbAccess) (writes : string → StoreAccess) (now : Timestamp).
Abbreviation settlement_of := (Budgeting.settlement_of table cursor head ledger day_of reads).

(** What settling a finished run and expiring another make of them. *)
Definition settled_reservation (v : BudgetReservation) : BudgetReservation :=
  match settlement_of (bv_row v) with
  | Ok (Some m) => match settle_plan m (bv_row v) with Some p => closed_row p now v | None => v end
  | _ => v
  end.
Definition expired_reservation (v : BudgetReservation) : BudgetReservation :=
  match expire_plan now (bv_row v) with Some p => closed_row p now v | None => v end.

(** The values a test selects, in some order. *)
Lemma filter_values_perm {A} (p : A → bool) (P : A → Prop) `{∀ x, base.Decision (P x)} (m : gmap string A) :
  (∀ x, p x = true ↔ P x) → filter_values p m ≡ₚ filter P (map_to_list m).*2.
Proof.
  intros Hp. unfold filter_values. assert (Hv : btree_values m ≡ₚ (map_to_list m).*2).
  { unfold btree_values, btree_entries. by rewrite merge_sort_Permutation. }
  rewrite <-Hv. apply reflexive_eq. clear Hv. induction (btree_values m) as [|x l IH]; [done|].
  rewrite filter_cons. cbn. rewrite IH. specialize (Hp x). destruct (p x), (decide (P x)); naive_solver.
Qed.

(** *** What a run that is over should come to *)

(** A run that reported its end, and one that did not by its expiry. *)
Definition finished_open (row : ReservationRow) : Prop :=
  rr_state row = ReservationState.Reserved ∧ rr_finished_at row ≠ None.
Definition silent_open (row : ReservationRow) : Prop :=
  rr_state row = ReservationState.Reserved ∧ rr_finished_at row = None ∧ rr_expires_at row ≤ now.

(** What the ledger holds of a run: the rows of its attempts that settled, and the events they carry. *)
Definition run_rows (row : ReservationRow) : list LedgerRow :=
  rr_attempts row ≫= λ a,
    filter (λ r, lr_tenant_id r = rr_tenant_id row ∧ lr_attempt_id r = Some a ∧ lr_event_type r = "attempt_settled")
      (map_to_list (ul_events ledger)).*2.
Definition event_in (tenant : TenantId) (r : LedgerRow) : option UsageEvent :=
  match event_of_json (lr_body r) with
  | Ok e => if decide (ue_tenant_id e = tenant) then Some e else None
  | Err _ => None
  end.
Definition run_events (row : ReservationRow) : list UsageEvent := omap (event_in (rr_tenant_id row)) (run_rows row).

(** What a finished run costs: its measured CPU, memory, invocation and transfer at the prices of the
    table, each rounded half up. *)
Definition run_charge (row : ReservationRow) : Z := ch_total (charges_spec table (run_events row)).

(** That is all of it: the run ended in order, every attempt was found, and nothing that may be charged of
    them went unmeasured. *)
Definition all_attempts_found (row : ReservationRow) : Prop :=
  ∀ a, a ∈ rr_attempts row → ∃ e, e ∈ run_events row ∧ ue_attempt_id e = Some a.
Definition complete_run (row : ReservationRow) : Prop :=
  rr_finished_complete row = Some true ∧ all_attempts_found row ∧
  ∀ e, e ∈ run_events row → settled e = true → fully_metered table e.

(** A reservation closed now, with nothing else changed. *)
Definition closed (v : BudgetReservation) (to : ReservationState.t) (settled held overrun : Z) (reason : string)
    : BudgetReservation :=
  v <| bv_row := bv_row v <| rr_state := to |> <| rr_settled_micros := settled |> <| rr_held_micros := held |>
                          <| rr_overrun_micros := overrun |> |>
    <| bv_closed_at := Some now |> <| bv_close_reason := Some reason |>.

(** What a pass makes of a reservation. A complete run settles at its charge; an incomplete one also keeps
    the rest of what was reserved on hold; a silent one keeps all of it on hold. *)
Inductive after_pass (v : BudgetReservation) : BudgetReservation → Prop :=
| ap_complete : finished_open (bv_row v) → complete_run (bv_row v) →
    after_pass v (closed v ReservationState.Settled (run_charge (bv_row v)) 0
      (Z.max (run_charge (bv_row v) - rr_reserved_micros (bv_row v)) 0) "settled")
| ap_incomplete : finished_open (bv_row v) → ¬ complete_run (bv_row v) →
    after_pass v (closed v ReservationState.Settled (run_charge (bv_row v))
      (Z.max (rr_reserved_micros (bv_row v) - run_charge (bv_row v)) 0)
      (Z.max (run_charge (bv_row v) - rr_reserved_micros (bv_row v)) 0) "settled_incomplete")
| ap_silent : silent_open (bv_row v) →
    after_pass v (closed v ReservationState.Expired 0 (rr_reserved_micros (bv_row v)) 0 "expired")
| ap_other : ¬ finished_open (bv_row v) → ¬ silent_open (bv_row v) → after_pass v v.

(** The usage of a finished run was collected: the ledger can be read, and holds an event of every attempt
    or else the collector is past the newest event that was journaled when the run ended. *)
Record collected (row : ReservationRow) : Prop := {
  co_reads : reads (rr_reservation_id row) = Works;
  co_ledger : ul_unavailable ledger = false;
  co_decodes : ∀ r, r ∈ run_rows row → ∃ e, event_of_json (lr_body r) = Ok e;
  co_events : Forall event_ok (run_events row) ∧ few (run_events row);
  co_settled : all_attempts_found row ∨
    ∃ c m, cursor = Some c ∧ or_else (rr_journal_mark row) head = Some m ∧ m ≤ c
}.

(** *** The settlement of a finished run *)

Lemma events_of_spec tenant rows : (∀ r, r ∈ rows → ∃ e, event_of_json (lr_body r) = Ok e) →
  events_of tenant rows = Ok (omap (event_in tenant) rows).
Proof.
  induction rows as [|r rows IH]; intros Hd; [done|]. cbn [events_of omap list_omap].
  destruct (Hd r ltac:(by left)) as [e He]. unfold event_in at 1. rewrite He. cbn [mbind result_bind].
  rewrite IH by (intros; apply Hd; by right). cbn [mbind result_bind].
  destruct (decide (ue_tenant_id e = tenant)) as [Ht|Ht].
  - by rewrite bool_decide_eq_true_2.
  - by rewrite bool_decide_eq_false_2.
Qed.

(** The ledger reads the events of a run. *)
Lemma run_events_read row : ul_unavailable ledger = false →
  (∀ r, r ∈ run_rows row → ∃ e, event_of_json (lr_body r) = Ok e) →
  ∃ events, attempt_settled_events Works (rr_tenant_id row) (rr_attempts row) ledger = Ok events ∧
    events ≡ₚ run_events row.
Proof.
  intros Hu Hd. unfold attempt_settled_events. rewrite Hu.
  match goal with |- context [events_of _ ?l] => assert (Hrows : l ≡ₚ run_rows row) end.
  { unfold run_rows. induction (rr_attempts row) as [|a l IH]; [done|]. cbn. rewrite IH. apply Permutation_app_tail.
    rewrite sort_by_Permutation. apply filter_values_perm. intros r. unfold settled_row.
    rewrite !andb_true_iff, !bool_decide_eq_true. tauto. }
  rewrite events_of_spec by (intros r Hr; apply Hd; by rewrite <-Hrows).
  eexists. split; [done|]. unfold run_events. by rewrite Hrows.
Qed.

Lemma found_iff row events : events ≡ₚ run_events row →
  forallb (λ a, bool_decide (a ∈ omap ue_attempt_id events)) (rr_attempts row) = true ↔ all_attempts_found row.
Proof.
  intros Hp. unfold all_attempts_found. rewrite forallb_forall. split; intros Hall a Ha.
  - specialize (Hall a (proj1 (list_elem_of_In _ _) Ha)). apply bool_decide_eq_true, list_elem_of_omap in Hall as (e & He & Hid).
    exists e. by rewrite <-Hp.
  - apply bool_decide_eq_true, list_elem_of_omap. destruct (Hall a) as (e & He & Hid); [by apply list_elem_of_In|].
    exists e. by rewrite Hp.
Qed.

Lemma charges_spec_perm events events' : Forall event_ok events' → few events' → prices_ok table → events ≡ₚ events' →
  charges_spec table events = charges_spec table events'.
Proof.
  intros Hok Hfew Hp Hperm. assert (Hok' : Forall event_ok events) by by rewrite Hperm.
  assert (Hfew' : few events) by (unfold few in *; by rewrite Hperm).
  rewrite <-!charges_exact by done. by rewrite (acc_of_perm table events events').
Qed.

Lemma collected_settles row : prices_ok table → collected row →
  ∃ complete, settlement_of row = Ok (Some (mkSettlement (run_charge row) complete)) ∧ u64_range (run_charge row) ∧
    (complete = true ↔ complete_run row).
Proof.
  intros Hp [Hr Hu Hd [Hok Hfew] Hco]. destruct (run_events_read row Hu Hd) as (events & He & Hperm).
  assert (Hok' : Forall event_ok events) by by rewrite Hperm.
  assert (Hfew' : few events) by (unfold few in *; by rewrite Hperm).
  pose proof (rated_spec day_of table events Hok' Hfew' Hp) as [Hch Hfull].
  pose proof (rated_range day_of table events Hok' Hp) as Hrange.
  pose proof (found_iff row events Hperm) as Hfound. unfold Budgeting.settlement_of. rewrite Hr, He. cbn [mbind result_bind].
  set (found := forallb _ _) in *.
  assert (Hgo : negb found && negb (match cursor, or_else (rr_journal_mark row) head with
    | Some c, Some m => m <=? c | _, _ => false end) = false).
  { destruct found; [done|]. destruct Hco as [Hco|(c & m & -> & -> & Hle)]; [by apply Hfound in Hco|].
    by rewrite (proj2 (Z.leb_le m c)). }
  rewrite Hgo. destruct (rated day_of events table) as [measured fully]. cbn [fst snd] in *.
  rewrite Hch in *. unfold run_charge. rewrite (charges_spec_perm events (run_events row)) in * by done.
  eexists. split; [done|]. split; [done|]. unfold complete_run. rewrite !andb_true_iff, Hfound, Hfull. setoid_rewrite Hperm.
  destruct (rr_finished_complete row) as [[]|]; cbn; naive_solver.
Qed.

Section steps.
Context (K : Z).

Definition settles_within (row : ReservationRow) : Prop :=
  waits_for_settlement row = true ∧ writes (rr_reservation_id row) = store_works ∧ rr_reserved_micros row ≤ K ∧
  ∃ m, settlement_of row = Ok (Some m) ∧ u64_range (se_measured_micros m) ∧ se_measured_micros m ≤ K.
Definition expires_within (row : ReservationRow) : Prop :=
  is_due now row = true ∧ writes (rr_reservation_id row) = store_works ∧ rr_reserved_micros row ≤ K.

Lemma settle_step (HK : 1 ≤ K) : ∀ report s v rest,
  healthy s → budget_wf (sv_db s) → bd_rows (sv_db s) !! rr_reservation_id (bv_row v) = Some v →
  settles_within (bv_row v) → 0 ≤ rest → room (sv_db s) (K + rest) →
  ∃ report' s', Budgeting.settle_one table cache cursor head ledger day_of reads writes now (report, s) (bv_row v)
      = (report', s') ∧ healthy s' ∧ budget_wf (sv_db s') ∧
    bd_rows (sv_db s') = <[rr_reservation_id (bv_row v) := settled_reservation v]> (bd_rows (sv_db s)) ∧ room (sv_db s') rest ∧
    sp_errors report' = sp_errors report ∧ sp_waiting report' = sp_waiting report.
Proof.
  intros report s v rest Hh Hwf Hv (Hw & Hwr & HrK & m & Hm & Hrange & HmK) Hrest Hroom.
  pose proof (bw_rows _ Hwf _ v Hv) as (_ & _ & Ham). unfold Budgeting.settle_one. rewrite Hm, Hwr.
  unfold waits_for_settlement in Hw. apply andb_true_iff in Hw as [Hs%bool_decide_eq_true _].
  assert (Hp : settle_plan m (bv_row v) = Some (ReservationState.Settled, se_measured_micros m,
    if se_complete m then 0 else u64_saturating_sub (rr_reserved_micros (bv_row v)) (se_measured_micros m),
    if se_complete m then "settled" else "settled_incomplete")) by done.
  pose proof (settle_plan_ok m (bv_row v) _ Hrange Hp Ham) as Hok.
  destruct (transition_succeeds (rr_reservation_id (bv_row v)) now
    (Budgeting.alert_limits cache (rr_tenant_id (bv_row v)) (rr_function_id (bv_row v)) now) (settle_plan m)
    (sv_db s) v _ K rest Hwf Hv Hs Hp Hok) as (tr & db' & Htx & Hch & Hrows & Hroom'); [|done|done|].
  { unfold plan_cost, u64_range, u64_saturating_sub in *. cbn. destruct Ham as ((? & ?) & _). destruct (se_complete m); lia. }
  destruct (in_store_works _ s _ _ Hh Htx) as (s' & E & Hdb & _ & Hh'). unfold settle_tx. rewrite E, Hch.
  eexists _, _. split; [done|]. split; [exact Hh'|].
  assert (Hwf' : budget_wf db').
  { pose proof (run_bcmd_wf (sv_db s) (BSettle (rr_reservation_id (bv_row v)) m now
      (Budgeting.alert_limits cache (rr_tenant_id (bv_row v)) (rr_function_id (bv_row v)) now)) Hrange Hwf) as Hx.
    cbn in Hx. unfold after_tx, settle_tx in Hx. by rewrite Htx in Hx. }
  unfold Budgeting.note_transition, count. cbn [sv_db set_field]. rewrite Hdb. split; [done|]. split.
  { rewrite Hrows. unfold settled_reservation. by rewrite Hm, Hp. }
  split; [done|]. by destruct (se_complete m).
Qed.

Lemma expire_step (HK : 1 ≤ K) : ∀ report s v rest,
  healthy s → budget_wf (sv_db s) → bd_rows (sv_db s) !! rr_reservation_id (bv_row v) = Some v →
  expires_within (bv_row v) → 0 ≤ rest → room (sv_db s) (K + rest) →
  ∃ report' s', Budgeting.expire_one cache writes now (report, s) (bv_row v) = (report', s') ∧ healthy s' ∧ budget_wf (sv_db s') ∧
    bd_rows (sv_db s') = <[rr_reservation_id (bv_row v) := expired_reservation v]> (bd_rows (sv_db s)) ∧ room (sv_db s') rest ∧
    sp_errors report' = sp_errors report ∧ sp_waiting report' = sp_waiting report.
Proof.
  intros report s v rest Hh Hwf Hv (Hd & Hwr & HrK) Hrest Hroom.
  pose proof (bw_rows _ Hwf _ v Hv) as (_ & _ & Ham). unfold Budgeting.expire_one. rewrite Hwr.
  unfold is_due in Hd. apply andb_true_iff in Hd as [[Hs%bool_decide_eq_true Hn]%andb_true_iff He].
  assert (Hp : expire_plan now (bv_row v) = Some (ReservationState.Expired, 0, rr_reserved_micros (bv_row v), "expired")).
  { unfold expire_plan. by rewrite Hn, He. }
  pose proof (expire_plan_ok now (bv_row v) _ Hp) as Hok.
  destruct (transition_succeeds (rr_reservation_id (bv_row v)) now
    (Budgeting.alert_limits cache (rr_tenant_id (bv_row v)) (rr_function_id (bv_row v)) now) (expire_plan now)
    (sv_db s) v _ K rest Hwf Hv Hs Hp Hok) as (tr & db' & Htx & Hch & Hrows & Hroom'); [|done|done|].
  { unfold plan_cost. cbn. lia. }
  destruct (in_store_works _ s _ _ Hh Htx) as (s' & E & Hdb & _ & Hh'). unfold expire_tx. rewrite E, Hch.
  eexists _, _. split; [done|]. split; [exact Hh'|].
  assert (Hwf' : budget_wf db').
  { pose proof (run_bcmd_wf (sv_db s) (BExpire (rr_reservation_id (bv_row v)) now
      (Budgeting.alert_limits cache (rr_tenant_id (bv_row v)) (rr_function_id (bv_row v)) now)) I Hwf) as Hx.
    cbn in Hx. unfold after_tx, expire_tx in Hx. by rewrite Htx in Hx. }
  unfold Budgeting.note_transition, count. cbn [sv_db set_field]. rewrite Hdb. split; [done|]. split; [|done].
  rewrite Hrows. unfold expired_reservation. by rewrite Hp.
Qed.
End steps.

Definition pass_result (v : BudgetReservation) : BudgetReservation :=
  if waits_for_settlement (bv_row v) then settled_reservation v
  else if is_due now (bv_row v) then expired_reservation v else v.

Lemma waits_iff row : waits_for_settlement row = true ↔ finished_open row.
Proof.
  unfold waits_for_settlement, finished_open. rewrite andb_true_iff, bool_decide_eq_true.
  destruct (rr_finished_at row); cbn; naive_solver.
Qed.
Lemma due_iff row : is_due now row = true ↔ silent_open row.
Proof.
  unfold is_due, silent_open. rewrite !andb_true_iff, bool_decide_eq_true, Z.leb_le.
  destruct (rr_finished_at row); cbn; naive_solver.
Qed.

(** The store works and has room, the usage of every finished run was collected, and the rows fit in the batch;
    no amount is more than [K]. *)
Record pass_ready (K : Z) (s : BudgetService) : Prop := {
  pr_enabled : bc_enabled config = true;
  pr_prices : prices_ok table;
  pr_store : healthy s;
  pr_bound : 1 ≤ K ≤ i64_max;
  pr_finished : ∀ id v, bd_rows (sv_db s) !! id = Some v → finished_open (bv_row v) →
    collected (bv_row v) ∧ writes id = store_works ∧ rr_reserved_micros (bv_row v) ≤ K ∧ run_charge (bv_row v) ≤ K;
  pr_due : ∀ id v, bd_rows (sv_db s) !! id = Some v → silent_open (bv_row v) →
    writes id = store_works ∧ rr_reserved_micros (bv_row v) ≤ K;
  pr_batch : (count_values (λ v, waits_for_settlement (bv_row v)) (bd_rows (sv_db s)) ≤ bc_settle_batch config)%nat ∧
    (count_values (λ v, is_due now (bv_row v)) (bd_rows (sv_db s)) ≤ bc_settle_batch config)%nat;
  pr_room : room (sv_db s) (2 * (K * Z.of_nat (bc_settle_batch config)))
}.

Lemma rows_where_length p key db : length (rows_where p key db) = count_values (λ v, p (bv_row v)) (bd_rows db).
Proof. unfold rows_where, count_values. rewrite length_fmap. by rewrite sort_by_Permutation. Qed.

Lemma rows_where_id p key db id v : (∀ id v, bd_rows db !! id = Some v → row_ok id v) → bd_rows db !! id = Some v →
  id ∈ rr_reservation_id <$> rows_where p key db ↔ p (bv_row v) = true.
Proof.
  intros Hrows Hv. rewrite list_elem_of_fmap. split.
  - intros (row & -> & (id' & v' & Hv' & <- & Hp)%elem_of_rows_where).
    pose proof (proj1 (Hrows id' v' Hv')) as E. rewrite E in Hv. congruence.
  - intros Hp. exists (bv_row v). split; [symmetry; apply (Hrows id v Hv)|]. apply elem_of_rows_where. eauto.
Qed.

Lemma waits_not_due row : waits_for_settlement row = true → is_due now row = false.
Proof.
  unfold waits_for_settlement, is_due. intros [_ Hf]%andb_true_iff. destruct (rr_finished_at row); [|done].
  by rewrite andb_false_r.
Qed.

Lemma settled_not_due v : prices_ok table → collected (bv_row v) →
  is_due now (bv_row (settled_reservation v)) = false ∧ waits_for_settlement (bv_row (settled_reservation v)) = false.
Proof.
  intros Hp Hc. destruct (collected_settles (bv_row v) Hp Hc) as (b & Hm & _). unfold settled_reservation. by rewrite Hm.
Qed.

Lemma expired_not_due v : is_due now (bv_row v) = true →
  is_due now (bv_row (expired_reservation v)) = false ∧ waits_for_settlement (bv_row (expired_reservation v)) = false.
Proof.
  unfold is_due at 1. intros [[_ Hn]%andb_true_iff He]%andb_true_iff. unfold expired_reservation, expire_plan.
  by rewrite Hn, He.
Qed.

(** The rows of a query, after a pass over others: no more than before. *)
Lemma rows_where_shrinks p key db db' : (∀ id v, bd_rows db' !! id = Some v → row_ok id v) →
  (∀ id v', bd_rows db' !! id = Some v' → p (bv_row v') = true → bd_rows db !! id = Some v') →
  (length (rows_where p key db') ≤ length (rows_where p key db))%nat.
Proof.
  intros Hrows Hsub. apply submseteq_length, NoDup_submseteq.
  - by apply (NoDup_fmap_1 rr_reservation_id), rows_where_nodup.
  - intros row (id & v & Hv & <- & Hp)%elem_of_rows_where. apply elem_of_rows_where. exists id, v. auto.
Qed.

(** The first half of a pass. *)
Lemma finished_pass K s : pass_ready K s → budget_wf (sv_db s) →
  ∃ rows s1 report s2, in_store store_works (finished_unsettled_tx (bc_settle_batch config)) s = (Ok rows, s1) ∧
    foldl (Budgeting.settle_one table cache cursor head ledger day_of reads writes now) (mkSettleReport 0 0 0 0 0 0, s1) rows
      = (report, s2) ∧
    healthy s2 ∧ budget_wf (sv_db s2) ∧ room (sv_db s2) (K * Z.of_nat (bc_settle_batch config)) ∧
    sp_errors report = 0 ∧ sp_waiting report = 0 ∧
    ∀ id, bd_rows (sv_db s2) !! id =
      (λ v, if waits_for_settlement (bv_row v) then settled_reservation v else v) <$> bd_rows (sv_db s) !! id.
Proof.
  intros [Hen Hp Hh [HK _] Hfin _ [Hb _] Hroom] Hwf. set (B := Z.of_nat (bc_settle_batch config)) in *.
  set (l := rows_where waits_for_settlement (λ r, unwrap_or (rr_finished_at r) 0) (sv_db s)).
  assert (Htx : finished_unsettled_tx (bc_settle_batch config) (sv_db s) = Ok (l, sv_db s)).
  { unfold finished_unsettled_tx, reading. cbn. fold l. rewrite take_ge; [done|]. unfold l. by rewrite rows_where_length. }
  destruct (in_store_works _ s _ _ Hh Htx) as (s1 & E1 & Hdb1 & _ & Hh1). exists l, s1.
  destruct (fold_closes (Budgeting.settle_one table cache cursor head ledger day_of reads writes now) settled_reservation
    (settles_within K) K (settle_step K HK) l (mkSettleReport 0 0 0 0 0 0) s1 (K * B))
    as (rep2 & s2 & E2 & Hh2 & Hwf2 & Hroom2 & He2 & Hw2 & Hrows2); try done; [lia|congruence|..|nia| |].
  - by apply rows_where_nodup, Hwf.
  - intros row (id & v & Hv & <- & Hw)%elem_of_rows_where. pose proof (proj1 (bw_rows _ Hwf id v Hv)) as Eid.
    destruct (Hfin id v Hv (proj1 (waits_iff _) Hw)) as (Hc & Hwr & HrK & HmK).
    destruct (collected_settles _ Hp Hc) as (b & Hm & Hrange & _).
    rewrite Hdb1, Eid. split; [|by exists v]. unfold settles_within. rewrite Eid. split_and!; try done. eexists. by split_and!.
  - rewrite Hdb1. eapply room_mono; [|exact Hroom]. unfold l. rewrite rows_where_length. nia.
  - exists rep2, s2. split_and!; try done. intros id. rewrite Hrows2, Hdb1.
    destruct (bd_rows (sv_db s) !! id) as [v|] eqn:Hv; [|done]. cbn [fmap option_fmap option_map]. f_equal.
    pose proof (rows_where_id waits_for_settlement (λ r, unwrap_or (rr_finished_at r) 0) (sv_db s) id v (bw_rows _ Hwf) Hv) as Hi.
    case_bool_decide as Hin; [by rewrite (proj1 Hi Hin)|].
    destruct (waits_for_settlement (bv_row v)); [|done]. by destruct (Hin (proj2 Hi eq_refl)).
Qed.

(** The second half. *)
Lemma due_pass K report s : healthy s → budget_wf (sv_db s) → 1 ≤ K →
  room (sv_db s) (K * Z.of_nat (bc_settle_batch config)) →
  (count_values (λ v, is_due now (bv_row v)) (bd_rows (sv_db s)) ≤ bc_settle_batch config)%nat →
  (∀ id v, bd_rows (sv_db s) !! id = Some v → is_due now (bv_row v) = true →
    writes id = store_works ∧ rr_reserved_micros (bv_row v) ≤ K) →
  ∃ rows s1 report' s2, in_store store_works (due_for_expiry_tx now (bc_settle_batch config)) s = (Ok rows, s1) ∧
    foldl (Budgeting.expire_one cache writes now) (report, s1) rows = (report', s2) ∧
    sp_errors report' = sp_errors report ∧ sp_waiting report' = sp_waiting report ∧
    ∀ id, bd_rows (sv_db s2) !! id =
      (λ v, if is_due now (bv_row v) then expired_reservation v else v) <$> bd_rows (sv_db s) !! id.
Proof.
  intros Hh Hwf HK Hroom Hb Hdue. set (l := rows_where (is_due now) rr_expires_at (sv_db s)).
  assert (Hl : (length l ≤ bc_settle_batch config)%nat) by (unfold l; by rewrite rows_where_length).
  assert (Htx : due_for_expiry_tx now (bc_settle_batch config) (sv_db s) = Ok (l, sv_db s)).
  { unfold due_for_expiry_tx, reading. cbn. fold l. by rewrite take_ge. }
  destruct (in_store_works _ s _ _ Hh Htx) as (s1 & E1 & Hdb1 & _ & Hh1). exists l, s1.
  destruct (fold_closes (Budgeting.expire_one cache writes now) expired_reservation (expires_within K) K (expire_step K HK)
    l report s1 0) as (rep2 & s2 & E2 & _ & _ & _ & He2 & Hw2 & Hrows2); try done; [lia|congruence|..].
  - by apply rows_where_nodup, Hwf.
  - intros row (id & v & Hv & <- & Hd)%elem_of_rows_where. pose proof (proj1 (bw_rows _ Hwf id v Hv)) as Eid.
    destruct (Hdue id v Hv Hd) as (Hwr & HrK). rewrite Hdb1, Eid. split; [|by exists v].
    unfold expires_within. rewrite Eid. by split_and!.
  - rewrite Hdb1. eapply room_mono; [|exact Hroom]. nia.
  - exists rep2, s2. split_and!; try done. intros id. rewrite Hrows2, Hdb1.
    destruct (bd_rows (sv_db s) !! id) as [v|] eqn:Hv; [|done]. cbn [fmap option_fmap option_map]. f_equal.
    pose proof (rows_where_id (is_due now) rr_expires_at (sv_db s) id v (bw_rows _ Hwf) Hv) as Hi.
    case_bool_decide as Hin; [by rewrite (proj1 Hi Hin)|].
    destruct (is_due now (bv_row v)); [|done]. by destruct (Hin (proj2 Hi eq_refl)).
Qed.

(** What a pass computes. *)
Lemma pass_computes K s : pass_ready K s → budget_wf (sv_db s) →
  ∃ report s',
    Budgeting.settle_ready config table cache cursor head ledger day_of reads writes store_works store_works now s
      = (report, s') ∧
    sp_errors report = 0 ∧ sp_waiting report = 0 ∧
    ∀ id, bd_rows (sv_db s') !! id = pass_result <$> bd_rows (sv_db s) !! id.
Proof.
  intros Hready Hwf. pose proof Hready as [Hen Hp Hh [HK _] Hfin Hdue [_ Hb2] _].
  destruct (finished_pass K s Hready Hwf) as (l1 & s1 & rep2 & s2 & E1 & E2 & Hh2 & Hwf2 & Hroom2 & He2 & Hw2 & Hrows2).
  assert (Hkeep : ∀ id v', bd_rows (sv_db s2) !! id = Some v' → is_due now (bv_row v') = true →
    bd_rows (sv_db s) !! id = Some v').
  { intros id v' Hv' Hd. rewrite Hrows2 in Hv'. destruct (bd_rows (sv_db s) !! id) as [v|] eqn:Hv; [|done].
    cbn in Hv'. injection Hv' as <-. destruct (waits_for_settlement (bv_row v)) eqn:Hw; [|done].
    destruct (Hfin id v Hv (proj1 (waits_iff _) Hw)) as (Hc & _). destruct (settled_not_due v Hp Hc). congruence. }
  destruct (due_pass K rep2 s2 Hh2 Hwf2 HK Hroom2) as (l3 & s3 & rep4 & s4 & E3 & E4 & He4 & Hw4 & Hrows4).
  { etrans; [|exact Hb2]. rewrite <-!(rows_where_length (is_due now) rr_expires_at). by apply rows_where_shrinks; [apply Hwf2|]. }
  { intros id v Hv Hd. apply (Hdue id v); [by apply Hkeep|by apply due_iff]. }
  unfold Budgeting.settle_ready. rewrite Hen, E1. cbn [negb]. rewrite E2, E3, E4.
  eexists _, _. split; [done|]. split; [congruence|]. split; [congruence|]. unfold count. cbn [sv_db set_field].
  intros id. rewrite Hrows4, Hrows2. destruct (bd_rows (sv_db s) !! id) as [v|] eqn:Hv; [|done].
  cbn [fmap option_fmap option_map]. f_equal. unfold pass_result. destruct (waits_for_settlement (bv_row v)) eqn:Hw; [|done].
  destruct (Hfin id v Hv (proj1 (waits_iff _) Hw)) as (Hc & _). by destruct (settled_not_due v Hp Hc) as [-> _].
Qed.

Lemma pass_result_closed v : prices_ok table → (finished_open (bv_row v) → collected (bv_row v)) →
  waits_for_settlement (bv_row (pass_result v)) = false ∧ is_due now (bv_row (pass_result v)) = false.
Proof.
  intros Hp Hc. unfold pass_result. destruct (waits_for_settlement (bv_row v)) eqn:Hw.
  - apply waits_iff in Hw. by destruct (settled_not_due v Hp (Hc Hw)).
  - destruct (is_due now (bv_row v)) eqn:Hd; [|done]. by destruct (expired_not_due v Hd).
Qed.

(** What it computes is what should come of each reservation. *)
Lemma pass_result_spec K v : prices_ok table → K ≤ i64_max → amounts_ok (bv_row v) →
  (finished_open (bv_row v) → collected (bv_row v) ∧ run_charge (bv_row v) ≤ K) →
  after_pass v (pass_result v).
Proof.
  intros Hp HK ((Hr0 & Hr1) & _) Hfin. unfold pass_result.
  destruct (waits_for_settlement (bv_row v)) eqn:Hw; [apply waits_iff in Hw|apply not_true_iff_false in Hw; rewrite waits_iff in Hw].
  - destruct (Hfin Hw) as [Hc Hk]. destruct (collected_settles _ Hp Hc) as (complete & Hm & [Hc0 _] & Hcomplete).
    unfold settled_reservation. rewrite Hm. unfold settle_plan, closed_row, to_i64, u64_saturating_sub.
    cbn [se_complete se_measured_micros]. rewrite !Z.min_l by (destruct complete; lia).
    destruct complete; [apply (ap_complete v Hw)|apply (ap_incomplete v Hw)]; [by apply Hcomplete|]. by rewrite <-Hcomplete.
  - destruct (is_due now (bv_row v)) eqn:Hd; [apply due_iff in Hd|apply not_true_iff_false in Hd; rewrite due_iff in Hd].
    + unfold expired_reservation, expire_plan. destruct Hd as (Hs & Hf & He). rewrite Hf. cbn. rewrite (proj2 (Z.leb_le _ _) He).
      unfold closed_row, to_i64, u64_saturating_sub. rewrite !Z.min_l by lia. rewrite (Z.max_r _ 0) by lia. by apply ap_silent.
    + by apply ap_other.
Qed.

(** C23: a pass settles what is over: after any transactions in which no column of the totals outgrew 64
    bits, when the usage of every finished run was collected, a pass of the service over a working store with room and with a batch that is large enough
    ends without an error and without a run that waits. It settles every finished run at its charge, the
    measured CPU, memory, invocations and transfer of the settled attempts the ledger holds of it, priced
    with the table; a run that did not end in order, misses an attempt or has anything billable unmeasured
    also keeps the rest of its reservation on hold; a run that did not report back by its expiry keeps all of
    it on hold; every other reservation stays as it was ([after_pass]). *)
Theorem pass_settles_what_is_over (cs : list bcmd) (K : Z) (s : BudgetService)
    (Hok : Forall bcmd_ok cs) (Hr : in_range cs) (Hdb : sv_db s = run_bcmds cs) (Hready : pass_ready K s) :
  ∃ report s',
    Budgeting.settle_ready config table cache cursor head ledger day_of reads writes store_works store_works now s
      = (report, s') ∧
    sp_errors report = 0 ∧ sp_waiting report = 0 ∧
    (∀ id, option_Forall2 after_pass (bd_rows (sv_db s) !! id) (bd_rows (sv_db s') !! id)) ∧
    ∀ id v, bd_rows (sv_db s') !! id = Some v → ¬ finished_open (bv_row v) ∧ ¬ silent_open (bv_row v).
Proof.
  assert (Hwf : budget_wf (sv_db s)) by (rewrite Hdb; by apply run_bcmds_wf). clear Hdb Hok.
  destruct (pass_computes K s Hready Hwf) as (report & s' & E & He & Hw & Hrows).
  pose proof Hready as [_ Hp _ [_ HK] Hfin _ _ _]. exists report, s'. split_and!; [done..| |].
  - intros id. rewrite Hrows. destruct (bd_rows (sv_db s) !! id) as [v|] eqn:Hv; constructor.
    apply (pass_result_spec K); [done|done|by apply (bw_rows _ Hwf id v)|]. intros Hf.
    by destruct (Hfin id v Hv Hf) as (? & _ & _ & ?).
  - intros id v'. rewrite Hrows. destruct (bd_rows (sv_db s) !! id) as [v|] eqn:Hv; [|done]. intros [= <-].
    rewrite <-waits_iff, <-due_iff, !not_true_iff_false. apply pass_result_closed; [done|]. intros Hf. by apply (Hfin id v Hv).
Qed.
End service.

(** ** Admission *)

Lemma minimum_spec l : match minimum l with Some m => ∀ x, x ∈ l → m ≤ x | None => l = [] end.
Proof.
  induction l as [|y l IH]; [done|]. cbn. destruct (foldr _ None l) as [m|] eqn:E; unfold minimum in IH; rewrite E in IH.
  - intros x [->|Hx]%elem_of_cons; [lia|]. specialize (IH x Hx). lia.
  - subst l. intros x ->%list_elem_of_singleton. done.
Qed.

(** A pass that is not stalled leaves no finished run behind for long. *)
Definition not_stalled (config : BudgetConfig) (db : BudgetDb) (now : Timestamp) : Prop :=
  ∀ id v t, bd_rows db !! id = Some v → waits_for_settlement (bv_row v) = true → rr_finished_at (bv_row v) = Some t →
    now - t < seconds (bc_max_unsettled_age_seconds config).

Lemma stalled_none config db now stats : stats_tx db = Ok (stats, db) → Budgeting.stalled config stats now = None →
  1 ≤ bc_max_unsettled_age_seconds config → not_stalled config db now.
Proof.
  intros [= <-] Hst Hage id v t Hv Hw Ht. unfold Budgeting.stalled in Hst. cbn in Hst.
  set (l := omap _ _) in Hst. assert (Hin : t ∈ l).
  { apply list_elem_of_omap. exists v. split; [|done]. apply elem_of_filter_values. eauto. }
  pose proof (minimum_spec l) as Hm. destruct (minimum l) as [m|]; [|rewrite Hm in Hin; set_solver].
  specialize (Hm t Hin). cbn in Hst. destruct (_ <=? _) eqn:E in Hst; [done|]. bools.
  unfold Budgeting.age_seconds, seconds, nanoseconds_per_second in *.
  destruct (Z.le_gt_cases 0 (now - m)) as [H0|H0]; [|lia].
  rewrite Z.quot_div_nonneg in E by lia. pose proof (Z.mod_pos_bound (now - m) 1000000000 ltac:(lia)).
  pose proof (Z.div_mod (now - m) 1000000000 ltac:(lia)). nia.
Qed.

Lemma reserve_keeps_rows r now db o db' : reserve_tx r now db = Ok (o, db') → o ≠ ReserveOutcome.Reserved →
  bd_rows db' = bd_rows db.
Proof.
  intros H%reserve_tx_spec Ho. destruct H as [row|????? db1 db2 _ _ _ _ H1 H2|]; [done| |by destruct Ho].
  by destruct (totals_rows_frame _ _ _ _ _ _ _ H1 H2).
Qed.

Lemma reserve_makes_row r now db o db' : reserve_tx r now db = Ok (o, db') →
  o = ReserveOutcome.Reserved ∨ o = ReserveOutcome.Exists ReservationState.Reserved →
  ∃ v, bd_rows db' !! nr_reservation_id r = Some v ∧ rr_state (bv_row v) = ReservationState.Reserved.
Proof.
  intros H%reserve_tx_spec Ho. destruct H as [row Hg|????? db1 db2 _ _ _ _ H1 H2|t f row d db1 db2 _ _ _ _ -> _ H1 H2].
  - unfold get_row in Hg. destruct (bd_rows db !! _) as [v|]; [|done]. injection Hg as <-. exists v. split; [done|].
    destruct Ho as [|Ho]; [done|]. congruence.
  - by destruct Ho.
  - destruct (totals_rows_frame _ _ _ _ _ _ _ H1 H2) as [-> _]. cbn. rewrite lookup_insert_eq. by eexists.
Qed.

(** C25: admission fails closed: with budgets enforced, a run is admitted only while the tenant's budget is
    known (delivered, confirmed within its lease, in the gateway's price table), the store answers, and no
    finished run has waited too long for its settlement; the run then has an open reservation, decided by
    the store against the limits of that very budget. Every other answer is a refusal or a conflict that
    leaves all reservations as they were, whatever SQLite does. *)
Theorem admission_fails_closed (config : BudgetConfig) (table : PriceTable) (gateway : GatewayBounds) (cache : Inner)
    (month_of : Timestamp → string) (w w' : StoreAccess) (run : RunRequest) (now : Timestamp) (s s' : BudgetService)
    (r : result AppError (option BudgetHold)) (Hen : bc_enabled config = true) (Hpath : bs_path (sv_store s) ≠ None)
    (Hage : 1 ≤ bc_max_unsettled_age_seconds config)
    (H : Budgeting.reserve config table gateway cache month_of w w' run now s = (r, s')) :
  match r with
  | Ok None => False
  | Ok (Some hold) =>
      let max := Budgeting.max_charge_for config table gateway (rq_revision run) (rq_request_bytes run)
                   (rq_window_ms run) (rq_queue_timeout_ms run) in
      bh_reservation_id hold = rq_run_id run ∧ bh_max hold = max ∧ not_stalled config (sv_db s) now ∧
      ∃ budget generation o,
        Cache.budget (fn_tenant_id (rq_function run)) now cache = BudgetValid budget generation ∧
        tb_price_table_version budget = pt_version table ∧ tb_currency budget = pt_currency table ∧
        reserve_tx (Budgeting.reservation_for config table month_of run budget generation max now) now (sv_db s)
          = Ok (o, sv_db s') ∧
        ∃ v, bd_rows (sv_db s') !! rq_run_id run = Some v ∧ rr_state (bv_row v) = ReservationState.Reserved
  | Err (BudgetRefused _ _) => bd_rows (sv_db s') = bd_rows (sv_db s)
  | Err (Conflicting _) =>
      sv_db s' = sv_db s ∧
      ∃ row, get_row (rq_run_id run) (sv_db s) = Some row ∧ rr_state row ≠ ReservationState.Reserved
  | Err _ => False
  end.
Proof.
  unfold Budgeting.reserve in H. rewrite Hen in H. cbn [negb] in H. unfold Budgeting.delivered in H.
  destruct (Cache.budget _ now cache) as [| |budget generation] eqn:Hb; [by injection H as <- <-|by injection H as <- <-|].
  destruct (negb _ || negb _) eqn:Hm; [by injection H as <- <-|]. bools.
  destruct (in_store w stats_tx s) as [[stats|e] s1] eqn:E1;
    pose proof (in_store_cases _ _ _ _ _ Hpath E1) as (Hp1 & _ & [[[e' He'] Hd1]|(a & Ha & Hst)]); try done.
  2: { injection H as <- <-. cbn. by rewrite Hd1. }
  injection Ha as <-. pose proof Hst as [= _ Hd1].
  destruct (Budgeting.stalled config stats now) as [age|] eqn:Hstall; [injection H as <- <-; cbn; by rewrite <-Hd1|].
  assert (Hns : not_stalled config (sv_db s) now) by (apply (stalled_none _ _ _ stats); [by rewrite Hst, <-Hd1|done|done]).
  match type of H with context [in_store w' (reserve_tx ?q now) s1] => set (rv := q) in *; set (max := Budgeting.max_charge_for _ _ _ _ _ _ _) in * end.
  destruct (in_store w' (reserve_tx rv now) s1) as [[o|e] s2] eqn:E2;
    pose proof (in_store_cases _ _ _ _ _ ltac:(by rewrite Hp1) E2) as (_ & _ & [[[e' He'] Hd2]|(a & Ha & Htx)]); try done.
  2: { injection H as <- <-. cbn. by rewrite Hd2, <-Hd1. }
  injection Ha as <-. rewrite <-Hd1 in Htx.
  lazymatch goal with |- ?G => assert (Hdone : (o = ReserveOutcome.Reserved ∨ o = ReserveOutcome.Exists ReservationState.Reserved) →
    (Ok (Some (mkBudgetHold (rq_run_id run) (fn_tenant_id (rq_function run)) (fn_id (rq_function run)) (month_of now)
       (mc_total_micros max) max)), count (λ c, c <| bcn_reservations ::= next |>) s2) = (r, s') → G) end; cycle 1.
  { destruct o as [|st|rf].
    - apply Hdone; [by left|exact H].
    - destruct st; [apply Hdone; [by right|exact H]|..]; injection H as <- <-;
        apply reserve_tx_spec in Htx as Hsp; inversion Hsp as [row Hg| |]; subst; split; try congruence;
        exists row; (split; [exact Hg|congruence]).
    - injection H as <- <-. cbn. by apply (reserve_keeps_rows _ _ _ _ _ Htx). }
  intros Ho [= <- <-]. cbn. split; [done|]. split; [done|]. split; [done|]. exists budget, generation, o.
  split_and!; try done. apply (reserve_makes_row _ _ _ _ _ Htx Ho).
Qed.

(** ** Witnesses *)

Definition budget_config_use : BudgetConfig := mkBudgetConfig true PERIOD_CALENDAR_MONTH_UTC None [] None 250 30 30 10.
Definition gateway_use : GatewayBounds := mkGatewayBounds 500 1000 400.
Definition tenant_budget_use : TenantBudget :=
  mkTenantBudget "tn_a" PERIOD_CALENDAR_MONTH_UTC "JPY" (pt_version Price.builtin) (mkBudgetLimits None [] (Some 100000)) [].
Definition inner_use : Inner :=
  mkInner {[KBudget "tn_a" := mkCachedEntry 3 (Some (VBudget tenant_budget_use)) (seconds 1000) 0]}
    (mkCacheStatus "internal" 3 true (Some 0) (Some 0) 0 None None None 0 0 0 1) None.
Definition run_use : RunRequest := mkRunRequest "r1" fn_use rev_use "inv_a" 100 60000 1000 (seconds 70).
Definition service_use (db : BudgetDb) : BudgetService :=
  mkBudgetService (mkBudgetStore (Some "budget.db") true None false) db no_counters.
Definition month_use (t : Timestamp) : string := "2026-09".
Abbreviation reserve_use := (Budgeting.reserve budget_config_use Price.builtin gateway_use inner_use month_use
  store_works store_works run_use (seconds 10) (service_use empty_budget_db)).

Definition hold_use : BudgetHold :=
  match reserve_use.1 with
  | Ok (Some hold) => hold
  | _ => mkBudgetHold "" "" "" "" 0 (max_charge Price.builtin (mkRunBounds 0 0 0 0 0 0 0 0 0 0 0))
  end.
Lemma reserve_use_eq : reserve_use = (Ok (Some hold_use), reserve_use.2).
Proof. vm_compute. reflexivity. Qed.

Lemma admission_fails_closed_witness :
  bh_amount_micros hold_use = 82727 ∧ not_stalled budget_config_use (sv_db (service_use empty_budget_db)) (seconds 10) ∧
  ∃ v, bd_rows (sv_db reserve_use.2) !! "r1" = Some v ∧ rr_state (bv_row v) = ReservationState.Reserved.
Proof.
  split; [vm_compute; reflexivity|].
  destruct (admission_fails_closed budget_config_use Price.builtin gateway_use inner_use month_use store_works store_works
    run_use (seconds 10) (service_use empty_budget_db) reserve_use.2 (Ok (Some hold_use)) eq_refl ltac:(discriminate)
    ltac:(by vm_compute) reserve_use_eq) as (_ & _ & Hns & _ & _ & _ & _ & _ & _ & _ & Hv).
  exact (conj Hns Hv).
Defined.

(** A run that finished, whose attempt the ledger holds, and one that never reported back. *)
Definition cmds_pass : list bcmd :=
  [BReserve (reservation_use "r1" 1000 None) 0; BFinish "r1" ["at_e1"] true (Some 1) (seconds 1);
   BReserve (reservation_use "r2" 500 None) 0].
Abbreviation pass_db := (run_bcmds cmds_pass).
Definition finished_use : BudgetReservation :=
  mkBudgetReservation (mkReservationRow "r1" "tn_a" "fn_a" "inv_a" "2026-09" ReservationState.Reserved 1000 0 0 0 0
    (seconds 600) (Some (seconds 1)) (Some true) ["at_e1"] (Some 1)) "v1" 1 None None 1.
Definition silent_use : BudgetReservation :=
  mkBudgetReservation (mkReservationRow "r2" "tn_a" "fn_a" "inv_a" "2026-09" ReservationState.Reserved 500 0 0 0 0
    (seconds 600) None None [] None) "v1" 1 None None 2.
Abbreviation pass_use := (Budgeting.settle_ready budget_config_use Price.builtin inner_use (Some 5) None
  (uw_ledger (usage_run config_use cmds_race)) day_use (λ _, Works) (λ _, store_works) store_works store_works (seconds 700)
  (service_use pass_db)).

Lemma cmds_pass_ok : Forall bcmd_ok cmds_pass.
Proof. repeat apply Forall_cons_2; try apply Forall_nil_2; cbn; unfold u64_range, u64_max; try split; try done; lia. Qed.
Lemma cmds_pass_in_range : in_range cmds_pass.
Proof. apply in_range_check, (bool_decide_unpack _). unfold fits. vm_compute. exact I. Qed.
Lemma pass_rows id v : bd_rows pass_db !! id = Some v → (id = "r1" ∧ v = finished_use) ∨ (id = "r2" ∧ v = silent_use).
Proof.
  assert (E : bd_rows pass_db = <["r1" := finished_use]> {["r2" := silent_use]}) by (vm_compute; reflexivity).
  rewrite E. clear E. intros [[<- <-]|[_ H]]%lookup_insert_Some; [by left|]. apply lookup_singleton_Some in H as [<- <-]. by right.
Qed.
Lemma pass_room : room pass_db 200000.
Proof.
  intros t s p. unfold stored_totals. destruct (bd_totals pass_db !! (t, s, p)) as [x|] eqn:E; [|by repeat constructor].
  assert (Hall : map_Forall (λ _ t, Forall (λ c, c.2 + 200000 ≤ i64_max) (totals_columns t)) (bd_totals pass_db)).
  { apply (bool_decide_unpack _). vm_compute. exact I. }
  exact (Hall _ x E).
Qed.
Abbreviation ledger_pass := (uw_ledger (usage_run config_use cmds_race)).
Lemma pass_decodes : Forall (λ r, is_Some (event_in "tn_a" r)) (run_rows ledger_pass (bv_row finished_use)).
Proof. apply (bool_decide_unpack _). vm_compute. exact I. Qed.
Lemma pass_events : run_events ledger_pass (bv_row finished_use) = [event_1].
Proof. vm_compute. reflexivity. Qed.
Lemma pass_charge : run_charge Price.builtin ledger_pass (bv_row finished_use) = 214.
Proof. vm_compute. reflexivity. Qed.
Lemma pass_ready_use : pass_ready budget_config_use Price.builtin (Some 5) None ledger_pass
  (λ _, Works) (λ _, store_works) (seconds 700) 10000 (service_use pass_db).
Proof.
  split.
  - done.
  - apply builtin_prices.
  - by split.
  - unfold i64_max. lia.
  - intros id v [[-> ->]|[-> ->]]%pass_rows; [|by intros []]. intros _. rewrite pass_charge. split_and!; [|done|by vm_compute|lia].
    split; [done|done| |rewrite pass_events|right; by exists 5, 1].
    + intros r Hr. pose proof pass_decodes as Hd. rewrite Forall_forall in Hd. destruct (Hd r Hr) as [e He].
      unfold event_in in He. destruct (event_of_json (lr_body r)) as [e'|]; [by exists e'|done].
    + split; [|by vm_compute]. apply Forall_cons; split; [|constructor]. by pose proof rated_ok as [H _]%Forall_cons.
  - intros id v [[-> ->]|[-> ->]]%pass_rows; [by intros (_ & [=] & _)|]. intros _. by split.
  - split; vm_compute; lia.
  - apply pass_room.
Qed.

(** The finished run settles at what its attempt is charged. *)
Lemma pass_settles_what_is_over_witness :
  ∃ report s', pass_use = (report, s') ∧ sp_errors report = 0 ∧
    ∃ v, bd_rows (sv_db s') !! "r1" = Some v ∧ rr_settled_micros (bv_row v) = 214.
Proof.
  destruct (pass_settles_what_is_over budget_config_use Price.builtin inner_use (Some 5) None
    ledger_pass day_use (λ _, Works) (λ _, store_works) (seconds 700) cmds_pass 10000
    (service_use pass_db) cmds_pass_ok cmds_pass_in_range eq_refl pass_ready_use) as (report & s' & H1 & H2 & _ & H3 & _).
  exists report, s'. split; [exact H1|]. split; [exact H2|]. specialize (H3 "r1").
  assert (E : bd_rows (sv_db (service_use pass_db)) !! "r1" = Some finished_use) by (vm_compute; reflexivity).
  rewrite E in H3. inversion H3 as [x v Hv Ex Ev|]. exists v. split; [reflexivity|]. rewrite <-pass_charge.
  inversion Hv as [Hf _|Hf _|Hf|Hf]; [reflexivity|reflexivity| |].
  - destruct Hf as (_ & Hf & _). discriminate Hf.
  - exfalso. apply Hf. split; [reflexivity|discriminate].
Defined.
