(* ===== verification/ControlProps.v ===== *)
(** * What the configuration cache guarantees

    Whatever the order in which deliveries arrive, the cache holds one of the published tables
    and never goes back; who is let in and what an invocation resolves to was published within
    the auth lease and the config TTL; an answered refresh makes the cache answer like the control
    plane at once. *)

From S2P Require Import Prelude Ids Functions Revision Guard Slot Store Publication Retry BudgetConf AsyncRun AsyncFront Webhook ControlWire ControlCache ControlWorld ControlInv ControlScenario.

Open Scope string_scope.
Open Scope Z_scope.

Section definitions.
Context (st : CacheSettings) `{HH : Hashing} `{HC : ConfigCodec}.

(** A run from a cache that never heard of the control plane and a store with any rows. *)
Definition control_run (name : string) (now : Timestamp) (store : State) (cs : list ccmd) : ControlWorld :=
  run_ccmds st (start_world name now store) cs.

(** A publication of the last lifetime vouches for the value of a key. *)
Definition recently (w : ControlWorld) (k : ConfigKey) (v : ConfigValue) : Prop :=
  ∃ h, h ∈ cw_history w ∧ cw_now w - own_ttl st k < sn_at h ≤ cw_now w ∧ vouches (sn_observed h) k v.
(** A request, its answer by a control plane, and the delivery of the answer. *)
Definition answered_refresh (w : ControlWorld) (marker : option (Z * Z)) (plane : PlaneConfig) : list ccmd :=
  [CRequest marker; CAnswer (length (cw_requests w)) plane; CDeliver (length (cw_answers w))].

(** How long the delivery of a control plane vouches for a key. *)
Definition delivered_ttl (plane : PlaneConfig) (k : ConfigKey) : Duration :=
  if Keys.is_authorization k then Cache.ttl_of (ctl_auth_lease_seconds (pc_settings plane)) (cse_auth_lease st)
  else Cache.ttl_of (ctl_config_ttl_seconds (pc_settings plane)) (cse_config_ttl st).
End definitions.

Section properties.
Context (st : CacheSettings) `{HH : Hashing} `{HC : ConfigCodec} `{HL : !ConfigCodecLaws}
  (Hinj : Inj (=) (=) config_digest) (Httl : 0 ≤ cse_config_ttl st) (Hlease : 0 ≤ cse_auth_lease st).

Lemma control_run_wf name now store cs : cw_changes (control_run st name now store cs) ≤ u64_max →
  control_wf st (control_run st name now store cs).
Proof. apply run_ccmds_wf; [done..|]. apply start_wf. Qed.

(** ** Lemmas *)

Lemma world_history_grows w cs h : h ∈ cw_history w → h ∈ cw_history (run_ccmds st w cs).
Proof.
  revert w. induction cs as [|c cs IH]; intros w Hin; [done|]. cbn. apply IH.
  destruct c as [d|fs als rs|m|i p|i|i e]; cbn; try done.
  - destruct (cw_requests w !! i); [|done]. destruct (Source.publish _ _ _ _) as [[[d src] s]|]; [|done].
    destruct (stamp _ _ _) as [[? ?] ch]. cbn. by right.
  - by destruct (cw_answers w !! i) as [[r d]|].
  - by destruct (cw_requests w !! i).
Qed.

Lemma apply_generation d at_ s : cst_generation (ci_status s) ≤ cst_generation (ci_status (Cache.apply st d at_ s).2).
Proof.
  unfold Cache.apply. destruct (_ || _); [done|]. destruct (foldl _ _ _) as [m rep]. cbn. lia.
Qed.

Lemma refresh_end_generation r a s :
  cst_generation (ci_status s) ≤ cst_generation (ci_status (Cache.refresh_end st r a s).2).
Proof.
  destruct a as [d|e]; [|done]. pose proof (apply_generation d (Cache.rs_started r) s) as H.
  unfold Cache.refresh_end. destruct (Cache.apply st d _ s) as [rep s1]. cbn in H.
  destruct (apr_regressed rep); [done|]. cbn. by destruct (Cache.rs_was_failing r).
Qed.

Lemma run_generation w cs :
  cst_generation (ci_status (cw_cache w)) ≤ cst_generation (ci_status (cw_cache (run_ccmds st w cs))).
Proof.
  revert w. induction cs as [|c cs IH]; intros w; [done|]. cbn. etrans; [|apply IH].
  destruct c as [d|fs als rs|m|i p|i|i e]; cbn; try done.
  - destruct (cw_requests w !! i); [|done]. destruct (Source.publish _ _ _ _) as [[[d src] s]|]; [|done].
    by destruct (stamp _ _ _) as [[? ?] ch].
  - destruct (cw_answers w !! i) as [[r d]|]; [|done]. apply (refresh_end_generation r (Ok d)).
  - destruct (cw_requests w !! i); [|done]. done.
Qed.

Lemma lookup_Valid s k now v : Cache.lookup s k now = Valid v →
  ∃ e, ci_entries s !! k = Some e ∧ en_value e = Some v ∧ now < en_valid_until e.
Proof.
  unfold Cache.lookup. destruct (ci_entries s !! k) as [e|]; [|done]. destruct (en_value e) as [v'|] eqn:Ev; [|done].
  destruct (_ <=? _) eqn:E; [done|]. intros [= ->]. apply Z.leb_gt in E. eauto.
Qed.

Lemma valid_recent w k v : control_wf st w → Cache.lookup (cw_cache w) k (cw_now w) = Valid v → recently st w k v.
Proof.
  intros [_ _ Hsn _ Htm _ _ _ Hval] (e & He & Hv & Hu)%lookup_Valid.
  destruct (Hval k e He) as (h & row & Hh & Huntil & Hrow & _ & Hr). rewrite Hv in Hr.
  exists h. split; [done|]. rewrite Forall_forall in Htm. specialize (Htm h Hh). split; [lia|].
  rewrite Forall_forall in Hsn. by eapply (so_vouched _ (Hsn h Hh)).
Qed.

Lemma valid_fits w k v : control_wf st w → Cache.lookup (cw_cache w) k (cw_now w) = Valid v → fits k v.
Proof.
  intros Hwf (e & He & Hv & _)%lookup_Valid. destruct (cf_valid _ _ Hwf k e He) as (h & row & _ & _ & _ & _ & Hr).
  rewrite Hv in Hr. by destruct Hr as (_ & ? & _).
Qed.

(** The version of these values never changes: who vouches for one observed it. *)
Lemma vouches_observed observed k v : (∀ v', fits k v' → Values.natural_version v' = 0) →
  all_fit observed → Values.natural_version v = 0 → vouches observed k v → (k, v) ∈ observed.
Proof.
  intros H0 Hfit Hv [?|(v' & Hin & Hlt)]; [done|]. unfold all_fit in Hfit. rewrite Forall_forall in Hfit.
  rewrite (H0 v') in Hlt by (apply (Hfit (k, v')); done). lia.
Qed.

(** ** Properties *)

(** C20: the cache follows the publications of the control plane: at any moment of any run, however
    deliveries were delayed, repeated, reordered or lost, its entries are exactly the published
    table at the generation it shows, tombstones included, and at a later moment it is that of
    the same or a later publication. (As long as the 64-bit generation does not wrap.) *)
Theorem cache_follows_publication (name : string) (now : Timestamp) (store : State) (cs cs' : list ccmd) :
  let w := control_run st name now store cs in
  let w' := run_ccmds st w cs' in
  cw_changes w' ≤ u64_max →
  ∃ h h', h ∈ cw_history w ∧ h' ∈ cw_history w' ∧ older_snapshot h h' ∧
    cst_generation (ci_status (cw_cache w)) = sn_generation h ∧ mirrors_table h (ci_entries (cw_cache w)) ∧
    cst_generation (ci_status (cw_cache w')) = sn_generation h' ∧ mirrors_table h' (ci_entries (cw_cache w')).
Proof.
  cbv zeta. intros Hmax. pose proof (run_ccmds_changes st (control_run st name now store cs) cs').
  assert (Hwf : control_wf st (control_run st name now store cs)) by (apply control_run_wf; lia).
  assert (Hwf' : control_wf st (run_ccmds st (control_run st name now store cs) cs')) by (by apply run_ccmds_wf).
  destruct (cf_cache _ _ Hwf) as (h & Hh & Hg & Hm). destruct (cf_cache _ _ Hwf') as (h' & Hh' & Hg' & Hm').
  exists h, h'. split_and!; try done. eapply chain_older; [apply (cf_chain _ _ Hwf')| |done|].
  - by apply world_history_grows.
  - rewrite <-Hg, <-Hg'. apply run_generation.
Qed.

(** C19: nobody is let in on an authorization the control plane no longer gives: a credential that
    authenticates now was listed, with that subject and those roles, in a publication made less
    than one auth lease ago, and so was its tenant. *)
Theorem authenticated_callers_were_granted (name : string) (now : Timestamp) (store : State) (cs : list ccmd)
    (secret credential : string) (p : Principal) :
  let w := control_run st name now store cs in
  cw_changes w ≤ u64_max →
  Cache.authenticate secret credential (cw_now w) (cw_cache w) = Ok p →
  ∃ h h', h ∈ cw_history w ∧ h' ∈ cw_history w ∧
    cw_now w - cse_auth_lease st < sn_at h ≤ cw_now w ∧ cw_now w - cse_auth_lease st < sn_at h' ≤ cw_now w ∧
    (KGrant (grant_key secret credential),
     VGrant (mkAuthGrant (pr_subject p) (pr_tenant_id p) (pr_roles p))) ∈ sn_observed h ∧
    (KTenant (pr_tenant_id p), VTenant (pr_tenant_id p)) ∈ sn_observed h'.
Proof.
  cbv zeta. intros Hmax H. pose proof (control_run_wf _ _ _ _ Hmax) as Hwf.
  set (w := control_run st name now store cs) in *. unfold Cache.authenticate in H. pass H.
  destruct (Cache.lookup _ (KGrant _) _) as [| |v] eqn:El; [done..|].
  destruct v; try done. cbn in H.
  destruct (Cache.lookup _ (KTenant _) _) as [| |v'] eqn:El'; [done..|]. destruct v' as [| | | |t| |]; try done.
  injection H as <-. cbn. destruct g as [subject tenant roles]. cbn in *.
  pose proof (valid_fits _ _ _ Hwf El') as Hfit. cbn in Hfit. subst t.
  apply valid_recent in El, El'; [|done..]. destruct El as (h & Hh & Ht & Hv), El' as (h' & Hh' & Ht' & Hv').
  pose proof (cf_snapshots _ _ Hwf) as Hsn. rewrite Forall_forall in Hsn.
  exists h, h'. split_and!; try done.
  - by apply Ht.
  - by apply Ht.
  - by apply Ht'.
  - by apply Ht'.
  - eapply vouches_observed; [|apply (so_fit _ (Hsn h Hh))|done|done]. by intros [] ?.
  - eapply vouches_observed; [|apply (so_fit _ (Hsn h' Hh'))|done|done]. by intros [] ?.
Qed.

(** what a new invocation resolves to was published within the config TTL: the function, the
    route that chose the revision, the revision and the policy were all in publications made less
    than one TTL ago (or are newer than what those observed); the function is the caller's and not
    deleted, the revision is ready and its own, and the policy allows its egress. *)
Theorem resolved_configuration_was_published (name : string) (now : Timestamp) (store : State) (cs : list ccmd)
    (authoritative : bool) (p : Principal) (function_id : FunctionId) (alias : option AliasName)
    (revision_id : option RevisionId) (r : Resolved) :
  let w := control_run st name now store cs in
  let f := re_function r in
  let rev := re_revision r in
  cw_changes w ≤ u64_max →
  Cache.resolve authoritative p function_id alias revision_id (cw_now w) (cw_cache w) = Ok r →
  recently st w (KFunction function_id) (VFunction f) ∧ fn_id f = function_id ∧
  fn_tenant_id f = pr_tenant_id p ∧ Fn.is_deleted f = false ∧
  recently st w (KRevision (rev_id rev)) (VRevision rev) ∧ rev_function_id rev = function_id ∧
  rev_tenant_id rev = pr_tenant_id p ∧ rev_status rev = RevisionStatus.Ready ∧
  (∃ policy, recently st w KPolicy (VPolicy policy) ∧ egress (rev_spec rev) ∈ cp_allowed_egress policy) ∧
  match revision_id with
  | Some pinned => rev_id rev = pinned ∧ re_alias r = None ∧ re_alias_generation r = None
  | None => ∃ a, recently st w (KRoute function_id (unwrap_or alias default_alias)) (VRoute a) ∧
      alias_revision_id a = rev_id rev ∧ re_alias r = Some (unwrap_or alias default_alias) ∧
      re_alias_generation r = Some (alias_generation a)
  end.
Proof.
  cbv zeta. intros Hmax H. pose proof (control_run_wf _ _ _ _ Hmax) as Hwf.
  set (w := control_run st name now store cs) in *.
  assert (Hl : ∀ k v, Cache.lookup (cw_cache w) k (cw_now w) = Valid v → recently st w k v ∧ fits k v).
  { intros k v E. split; [by apply valid_recent|by apply (valid_fits w)]. }
  unfold Cache.resolve in H. pass H. apply result_bind_Ok in H as (f & Hf & H).
  apply result_bind_Ok in H as ([[target al] ag] & Ht & H). apply result_bind_Ok in H as (rev & Hrev & H).
  apply result_bind_Ok in H as ([] & Hready & H). apply result_bind_Ok in H as ([] & Hpol & H). injection H as <-.
  cbn. unfold Cache.resolve_function in Hf. apply result_bind_Ok in Hf as (f' & Hf' & Hf).
  apply result_bind_Ok in Hf as ([] & Hten & Hf). unfold ensure_tenant in Hten.
  destruct (bool_decide _) eqn:Htn in Hten; [|done]. bools.
  destruct (Fn.is_deleted f') eqn:Hdel; [done|]. injection Hf as <-.
  destruct (Cache.lookup _ (KFunction _) _) as [| |v] eqn:Ef; [done..|]. destruct v; try done. injection Hf' as ->.
  apply Hl in Ef as [Hrf Hff]. cbn in Hff.
  unfold Cache.resolve_revision in Hrev.
  destruct (Cache.lookup _ (KRevision _) _) as [| |v] eqn:Er; [by destruct authoritative|done|].
  destruct v as [| |rv| | | |]; try done. destruct (_ && _) eqn:Hown; [|done]. injection Hrev as ->. bools.
  apply Hl in Er as [Hrr Hfr]. cbn in Hfr.
  unfold Cache.check_policy in Hpol. destruct (Cache.lookup _ KPolicy _) as [| |v] eqn:Ep; [done..|].
  destruct v as [| | | | |pol|]; try done. destruct (bool_decide _) eqn:Heg in Hpol; [|done]. bools.
  apply Hl in Ep as [Hrp _]. unfold Cache.ensure_ready in Hready.
  split_and!; try done; try congruence.
  - by destruct (rev_status rev).
  - by exists pol.
  - unfold Cache.resolve_target in Ht. destruct revision_id as [pinned|].
    + injection Ht as <- <- <-. done.
    + destruct (Cache.lookup _ (KRoute _ _) _) as [| |v] eqn:Ea; [done..|]. destruct v as [|a| | | | |]; try done.
      injection Ht as <- <- <-. apply Hl in Ea as [Hra _]. exists a. rewrite <-Hff in Hra. by split_and!.
Qed.

(** ** A refresh that is answered *)

Lemma lookup_snoc_length {A} (l : list A) (a : A) : (l ++ [a])%list !! length l = Some a.
Proof. by rewrite lookup_app_r, Nat.sub_diag by done. Qed.

(** An answer never fails, and these are its commands. *)
Lemma publish_answers plane since s : table_ok (st_publication s) →
  ∃ d src s', Source.publish (pc_file plane) (plane_source plane) since s = Ok (d, src, s') ∧
    cd_config_ttl_seconds d = ctl_config_ttl_seconds (pc_settings plane) ∧
    cd_auth_lease_seconds d = ctl_auth_lease_seconds (pc_settings plane).
Proof.
  intros Htab. pose proof (plane_fits plane s) as Hfit.
  unfold Source.publish, plane_observed, ConfigRepo.stamp_config in *.
  destruct (Source.budgets_of _ _) as [bs src0] eqn:Eb. cbn in *.
  destruct (stamp _ _ _) as [[rows c] ch] eqn:E. cbn.
  destruct (read_above rows since) as (ces & -> & _); [by eapply stamp_table|]. cbn.
  eexists _, _, _. split; [done|]. cbn. unfold Source.budgets_of in Eb. destruct (ls_budgets _); [|by injection Eb as <- <-].
  destruct (Publisher.budgets _ _ _). by injection Eb as <- <-.
Qed.

Lemma answered_run w marker plane d src s :
  Source.publish (pc_file plane) (plane_source plane) (cst_generation (ci_status (cw_cache w))) (cw_store w) = Ok (d, src, s) →
  let r := Cache.refresh_begin marker (cw_now w) (cw_cache w) in
  let w1 := run_ccmd st w (CRequest marker) in
  let w2 := run_ccmd st w1 (CAnswer (length (cw_requests w)) plane) in
  let w3 := run_ccmds st w (answered_refresh w marker plane) in
  w3 = w2 <| cw_cache := (Cache.refresh_end st r (Ok d) (cw_cache w)).2 |> ∧
  (r, d) ∈ cw_answers w2 ∧ cw_store w2 = s ∧ cw_cache w2 = cw_cache w ∧
  ∃ rest, cw_history w2 = mkSnapshot (cw_now w) (plane_observed plane (cw_store w)) (st_publication s)
                   (st_publication_generation s) :: rest.
Proof.
  intros Hp r. unfold run_ccmds, answered_refresh. cbn [foldl run_ccmd].
  assert (Hreq : ∀ w0, (w0 <| cw_requests ::= λ l, (l ++ [r])%list |>) = w0 <| cw_requests := (cw_requests w0 ++ [r])%list |>) by done.
  cbn [cw_requests set_field]. rewrite lookup_snoc_length. cbn [Cache.rs_since r Cache.refresh_begin cw_store set_field pc_file].
  unfold r. cbn. rewrite Hp. destruct (stamp _ _ _) as [[r1 c1] ch]. cbn. rewrite lookup_snoc_length. cbn.
  split_and!; [done|set_solver|done|done|eauto].
Qed.

Lemma refresh_end_clears r d s : apr_regressed (Cache.apply st d (Cache.rs_started r) s).1 = false →
  Cache.outage (Cache.refresh_end st r (Ok d) s).2 = false.
Proof.
  unfold Cache.refresh_end, Cache.apply. destruct (_ || _); [done|]. destruct (foldl _ _ _) as [m rep]. cbn.
  intros ->. cbn. by destruct (Cache.rs_was_failing r).
Qed.

(** C21: a refresh that is answered always takes effect: the cache has no outage on record, is at
    the generation of the control plane, and until the lifetime of the delivery has passed it
    answers every lookup like the control plane: what was observed is found (or something newer
    of the same key), what was not, a revoked grant for one, is gone at once. *)
Theorem answered_refresh_takes_effect (name : string) (now : Timestamp) (store : State) (cs : list ccmd)
    (marker : option (Z * Z)) (plane : PlaneConfig) (k : ConfigKey) (t : Timestamp) :
  let w := control_run st name now store cs in
  let w' := run_ccmds st w (answered_refresh w marker plane) in
  let observed := plane_observed plane (cw_store w) in
  cw_changes w' ≤ u64_max → t < cw_now w + delivered_ttl st plane k →
  Cache.outage (cw_cache w') = false ∧
  cst_generation (ci_status (cw_cache w')) = st_publication_generation (cw_store w') ∧
  match Cache.lookup (cw_cache w') k t with
  | Valid v' => ∃ v, (k, v) ∈ observed ∧ (v' = v ∨ Values.natural_version v < Values.natural_version v')
  | Missing => k ∉ observed.*1
  | Outdated => False
  end.
Proof.
  cbv zeta. set (w := control_run st name now store cs). intros Hmax Ht.
  pose proof (run_ccmds_changes st w (answered_refresh w marker plane)).
  assert (Hwf : control_wf st w) by (apply control_run_wf; fold w; lia).
  assert (Htab : table_ok (st_publication (cw_store w))).
  { destruct (cf_current _ _ Hwf) as (h0 & rest & Hh & <- & _). pose proof (cf_snapshots _ _ Hwf) as Hsn.
    rewrite Hh in Hsn. apply Forall_cons in Hsn as [Hsn _]. by apply so_table. }
  destruct (publish_answers plane (cst_generation (ci_status (cw_cache w))) (cw_store w) Htab)
    as (d & src & s & Hp & Hcap & Hcap').
  destruct (answered_run w marker plane d src s Hp) as (Hw3 & Hans & Hs & Hc & rest & Hhist).
  set (w2 := run_ccmd st (run_ccmd st w (CRequest marker)) (CAnswer (length (cw_requests w)) plane)) in *.
  assert (Hwf2 : control_wf st w2).
  { pose proof (run_ccmds_wf st Hinj Httl Hlease w [CRequest marker; CAnswer (length (cw_requests w)) plane] Hwf) as Hw2.
    apply Hw2. fold w2. rewrite Hw3 in Hmax. exact Hmax. }
  rewrite Hw3. cbn [cw_cache cw_store set_field]. rewrite Hs.
  apply publish_spec in Hp as (ch & Hst & Hgd & Hsd & Hread).
  set (hd := mkSnapshot (cw_now w) (plane_observed plane (cw_store w)) (st_publication s) (st_publication_generation s)) in *.
  destruct (cf_cache _ _ Hwf2) as (hc & Hhc & Hgc & Hm). rewrite Hc in Hgc, Hm.
  assert (Hin : hd ∈ cw_history w2) by (rewrite Hhist; by left).
  pose proof (proj1 (Forall_forall _ _) (cf_snapshots _ _ Hwf2)) as Hsn.
  assert (Hold : older_snapshot hc hd).
  { pose proof (cf_chain _ _ Hwf2) as Hch. rewrite Hhist in Hch, Hhc. apply elem_of_cons in Hhc as [->|Hhc]; [apply older_refl|].
    apply StronglySorted_inv in Hch as [_ Hall]. rewrite Forall_forall in Hall. by apply Hall. }
  set (r := Cache.refresh_begin marker (cw_now w) (cw_cache w)) in *.
  pose proof (ol_generation _ _ _ _ Hold) as Hgen. cbn in Hgen.
  destruct (apply_mirrors st d (Cache.rs_started r) (cw_cache w) hc hd) as (Hm' & Hg' & Hreg & Hent);
    [by apply Hsn|by apply Hsn|done..| |by rewrite Hsd|]; [lia|].
  split; [by apply refresh_end_clears|].
  destruct (refresh_end_cases st r d (cw_cache w)) as [([?|?] & _)|(_ & _ & Hok)]; [lia|lia|].
  destruct (Hok Hreg) as [[He Hg] _]. split; [by rewrite Hg|].
  unfold Cache.lookup. rewrite He. specialize (Hm' k). cbn [sn_rows hd] in Hm'.
  destruct (ci_entries _ !! k) as [e'|] eqn:Ee; destruct (st_publication s !! key_json k) as [row|] eqn:Er; try done.
  - destruct Hm' as [_ Hv]. destruct (Hent k e' Ee) as (e & -> & _).
    destruct (decide (k ∈ (plane_observed plane (cw_store w)).*1)) as [Hk|Hk].
    + destruct (stamp_observed _ _ _ _ _ _ _ Hinj (plane_fits plane (cw_store w)) Htab Hst Hk)
        as (v & v' & row' & Hv0 & Hrow' & Hv' & Hor).
      rewrite Er in Hrow'. injection Hrow' as <-. rewrite (row_value_unique _ _ _ _ Hv Hv').
      replace (en_valid_until _ <=? t) with false; [eauto|]. symmetry. apply Z.leb_gt.
      unfold renewed, Cache.confirm. cbn. unfold delivered_ttl in Ht. rewrite Hcap, Hcap'.
      destruct (Keys.is_authorization k); lia.
    + pose proof (stamp_unobserved _ _ _ _ _ _ _ _ Hst Hk Er) as Hb. destruct (en_value _) as [v|]; [|done].
      destruct Hv as (Hb' & _). congruence.
  - intros Hk. destruct (stamp_observed _ _ _ _ _ _ _ Hinj (plane_fits plane (cw_store w)) Htab Hst Hk)
      as (v & v' & row' & _ & Hrow' & _). congruence.
Qed.
End properties.
(** ** Witnesses *)

Abbreviation world_use := (control_run cache_use "cp" 0 empty_state ccmds_use).
Definition caller_use : Principal := mkPrincipal "alice" "tn_a" [Role.Invoke].

Lemma digest_inj : Inj (=) (=) config_digest.
Proof. by intros x y. Qed.
Lemma world_changes : cw_changes world_use = 6.
Proof. by vm_compute. Qed.
Lemma world_small : cw_changes world_use ≤ u64_max.
Proof. rewrite world_changes. by vm_compute. Qed.
Lemma ttl_use : 0 ≤ cse_config_ttl cache_use.
Proof. by vm_compute. Qed.
Lemma lease_use : 0 ≤ cse_auth_lease cache_use.
Proof. by vm_compute. Qed.
Lemma caller_authenticates :
  Cache.authenticate "internal" "token" (cw_now world_use) (cw_cache world_use) = Ok caller_use.
Proof. vm_compute. reflexivity. Qed.

Lemma authenticated_callers_were_granted_witness :
  ∃ h, h ∈ cw_history world_use ∧ cw_now world_use - cse_auth_lease cache_use < sn_at h ∧
    (KGrant (grant_key "internal" "token"),
     VGrant (mkAuthGrant (pr_subject caller_use) (pr_tenant_id caller_use) (pr_roles caller_use))) ∈ sn_observed h.
Proof.
  destruct (authenticated_callers_were_granted cache_use digest_inj ttl_use lease_use "cp" 0 empty_state ccmds_use
    "internal" "token" caller_use world_small caller_authenticates) as (h & h' & Hh & _ & [Ht _] & _ & Hin & _).
  exact (ex_intro _ h (conj Hh (conj Ht Hin))).
Defined.

Definition resolved_use : Resolved := mkResolved fn_use rev_use (Some "prod") (Some 1).
Lemma caller_resolves : Cache.resolve false caller_use "fn_a" None None (cw_now world_use) (cw_cache world_use) = Ok resolved_use.
Proof. vm_compute. reflexivity. Qed.

Lemma resolved_configuration_was_published_witness :
  recently cache_use world_use (KFunction "fn_a") (VFunction (re_function resolved_use)).
Proof.
  exact (proj1 (resolved_configuration_was_published cache_use digest_inj ttl_use lease_use "cp" 0 empty_state ccmds_use
    false caller_use "fn_a" None None resolved_use world_small caller_resolves)).
Defined.

(** The token is gone as soon as the answer that no longer has it is delivered. *)
Abbreviation revoked_use := (run_ccmds cache_use world_use (answered_refresh world_use None plane_revoked)).
Lemma revoked_small : cw_changes revoked_use ≤ u64_max.
Proof. vm_compute. discriminate. Qed.

Lemma answered_refresh_takes_effect_witness :
  Cache.outage (cw_cache revoked_use) = false ∧
  is_err (Cache.authenticate "internal" "token" (cw_now revoked_use) (cw_cache revoked_use)) = true.
Proof.
  split; [|vm_compute; reflexivity].
  exact (proj1 (answered_refresh_takes_effect cache_use digest_inj ttl_use lease_use "cp" 0 empty_state ccmds_use None
    plane_revoked (KGrant (grant_key "internal" "token")) 0 revoked_small ltac:(vm_compute; reflexivity))).
Defined.

Lemma cache_follows_publication_witness :
  ∃ h h', older_snapshot h h' ∧ mirrors_table h (ci_entries (cw_cache world_use)) ∧
    mirrors_table h' (ci_entries (cw_cache revoked_use)).
Proof.
  destruct (cache_follows_publication cache_use digest_inj ttl_use lease_use "cp" 0 empty_state ccmds_use
    (answered_refresh world_use None plane_revoked) revoked_small) as (h & h' & _ & _ & H & _ & Hm & _ & Hm').
  exact (ex_intro _ h (ex_intro _ h' (conj H (conj Hm Hm')))).
Defined.
