(* ===== verification/Triggers.v ===== *)
(** * The cron scheduler

    [crates/application/src/services/triggers/mod.rs], the part that fires scheduled times: the
    acceptance of a fire ([accept_for_trigger] of invoke_async/mod.rs), the times a due trigger
    fires and drops, the fires of a pass and the move of the cursor. What comes from outside (the
    configuration cache, clock readings, fresh ids, failures of the store) is an argument, fire by
    fire. A result comes with the store it leaves. *)

From S2P Require Import Prelude Ids Functions Invocation Revision Guard Slot Store Retry.
From S2P Require Import Outbox Dispatch AsyncRun AsyncFront.
From S2P Require Import Calendar Cron TriggerStore.

Open Scope string_scope.
Open Scope Z_scope.

(** ** Configuration *)

(** [crates/application/src/services/triggers/config.rs:10-45 TriggersConfig] The fields that are
    not file paths. *)
Record TriggersConfig := mkTriggersConfig {
  tc_scheduler_interval_ms : Z;
  tc_scheduler_batch : nat;
  tc_grace_seconds : Z;
  tc_max_catchup_seconds : Z;
  tc_max_run_all : Z;
  tc_max_triggers_per_function : nat;
  tc_webhook_max_body_bytes : Z;
  tc_webhook_default_tolerance_seconds : Z;
  tc_webhook_max_tolerance_seconds : Z;
  tc_webhook_dedup_retention_seconds : Z;
  tc_fire_retention_seconds : Z;
  tc_secret_key_file : bool;
  tc_secret_key_env : bool
}.

Module TriggersConf.
(** [crates/application/src/services/triggers/config.rs:48-65 default] *)
Definition default_config : TriggersConfig :=
  mkTriggersConfig 1000 100 30 (24 * 60 * 60) 100 20 (256 * 1024) 300 3600 (7 * 24 * 60 * 60)
    (30 * 24 * 60 * 60) false false.

(** [crates/application/src/services/triggers/config.rs:68-70 secs] *)
Definition secs (n : Z) : Duration := seconds (Z.min n (i64_max / 1000)).

Section config.
Context (c : TriggersConfig).
(** [crates/application/src/services/triggers/config.rs:73-75 scheduler_interval] *)
Definition scheduler_interval : Duration := milliseconds (Z.max (tc_scheduler_interval_ms c) 1).
(** [crates/application/src/services/triggers/config.rs:77-79 grace] *)
Definition grace : Duration := secs (tc_grace_seconds c).
(** [crates/application/src/services/triggers/config.rs:81-83 max_catchup] *)
Definition max_catchup : Duration := secs (tc_max_catchup_seconds c).
(** [crates/application/src/services/triggers/config.rs:85-87 webhook_dedup_retention] *)
Definition webhook_dedup_retention : Duration := secs (tc_webhook_dedup_retention_seconds c).
(** [crates/application/src/services/triggers/config.rs:89-93 effective_webhook_max_body_bytes] *)
Definition effective_webhook_max_body_bytes (max_payload_bytes : Z) : Z :=
  Z.min (tc_webhook_max_body_bytes c) max_payload_bytes.
(** [crates/application/src/services/triggers/config.rs:95-97 fire_retention] *)
Definition fire_retention : Duration := secs (tc_fire_retention_seconds c).

(** [crates/application/src/services/triggers/config.rs:99-148 validate] *)
Definition validate : result string unit :=
  let invalid m := Err ("[triggers] " +:+ m) in
  when! (tc_scheduler_interval_ms c =? 0) || bool_decide (tc_scheduler_batch c = 0%nat) return!
    invalid "scheduler_interval_ms and scheduler_batch must be > 0";;
  when! bool_decide (tc_max_triggers_per_function c = 0%nat) || (tc_max_run_all c =? 0) return!
    invalid "max_triggers_per_function and max_run_all must be > 0";;
  when! tc_max_catchup_seconds c <? tc_grace_seconds c return!
    invalid "max_catchup_seconds must be >= grace_seconds";;
  when! tc_fire_retention_seconds c <=? tc_max_catchup_seconds c return!
    invalid ("fire_retention_seconds must be > max_catchup_seconds: a scheduled time must be "
               +:+ "remembered for as long as it can be fired");;
  when! tc_webhook_max_body_bytes c =? 0 return! invalid "webhook_max_body_bytes must be > 0";;
  when! (tc_webhook_default_tolerance_seconds c =? 0)
        || (tc_webhook_max_tolerance_seconds c <? tc_webhook_default_tolerance_seconds c) return!
    invalid "needs 0 < webhook_default_tolerance_seconds <= webhook_max_tolerance_seconds";;
  when! tc_webhook_dedup_retention_seconds c
          <? (2 * tc_webhook_max_tolerance_seconds c) mod 2 ^ 64 return!
    invalid ("webhook_dedup_retention_seconds must be >= 2 * webhook_max_tolerance_seconds: a "
               +:+ "replay inside the signature tolerance must still find its event id");;
  when! tc_secret_key_file c && tc_secret_key_env c return!
    invalid "set at most one of secret_key_file / secret_key_env";;
  Ok tt.
End config.
End TriggersConf.

(** ** What the services are given *)

(** A JSON value the services build; [JValue] is one they were given, by its text. *)
Inductive Json : Type :=
| JNull
| JString (s : string)
| JValue (text : string)
| JObject (fields : list (string * Json)).

(** The code outside the repository the trigger services rely on: the JSON text of a value and
    its reader, the text of an instant, UTF-8 and base 64, the zone database, the cipher of the
    sealed secrets, and the status code and text of an error. *)
Record TriggerCodec `{Calendar} := mkTriggerCodec {
  tk_to_vec : Json → result string string;
  tk_from_slice : string → option Json;
  tk_utc_text : Timestamp → string;
  tk_is_utf8 : string → bool;
  tk_base64 : string → string;
  tk_zone : string → option TimeZone;
  tk_seal : option (string → string → string);
  tk_open : string → string → option string;
  tk_reason : AppError → string
}.
Arguments tk_to_vec {_} _.
Arguments tk_from_slice {_} _.
Arguments tk_utc_text {_} _.
Arguments tk_is_utf8 {_} _.
Arguments tk_base64 {_} _.
Arguments tk_zone {_} _.
Arguments tk_seal {_} _.
Arguments tk_open {_} _.
Arguments tk_reason {_} _.

(** What one fire meets outside: the answers of the configuration cache, the clock, ids, queue and
    failpoints of an acceptance, and whether reading and recording fires fails. *)
Record FireOutside := mkFireOutside {
  fo_authorize : result AppError unit;
  fo_resolve : Principal → FunctionId → option AliasName → option RevisionId → result AppError Resolved;
  fo_out : Outside;
  fo_read_fails : bool;
  fo_record_fails : bool
}.

Module Fire.
(** [crates/application/src/services/triggers/mod.rs:141-147 Fire] *)
Inductive t : Type := Done | Refused | AlreadyFired | Inactive | Deferred.
#[global] Instance eq_dec : EqDecision t.
Proof. solve_decision. Defined.
End Fire.

(** [crates/application/src/services/triggers/mod.rs:100-121 SchedulerReport] *)
Record SchedulerReport := mkScheduler {
  sr_owner : bool;
  sr_due_triggers : nat;
  sr_accepted : nat;
  sr_already_fired : nat;
  sr_refused : nat;
  sr_skipped_late : nat;
  sr_late_run : nat;
  sr_inactive : nat;
  sr_deferred : nat;
  sr_purged_fires : nat
}.
#[global] Instance SchedulerReport_eta : Eta SchedulerReport := λ r,
  mkScheduler (sr_owner r) (sr_due_triggers r) (sr_accepted r) (sr_already_fired r) (sr_refused r)
    (sr_skipped_late r) (sr_late_run r) (sr_inactive r) (sr_deferred r) (sr_purged_fires r).

Definition empty_report : SchedulerReport := mkScheduler false 0 0 0 0 0 0 0 0 0.

(** ** Acceptance for a trigger *)

(** [crates/application/src/services/invoke_async/mod.rs:218-228 TriggerAcceptance] *)
Inductive TriggerAcceptance : Type :=
| TAccepted (a : AsyncAcceptance)
| TAlreadyFired (f : FireRecord)
| TInactive (current : option Trigger).

(** [crates/application/src/services/triggers/mod.rs:220-231 is_transient] Of the error the
    repository's becomes. *)
Definition is_transient (e : AppError) : bool :=
  match (match e with Ledgers r => from_repo r | _ => e end) with
  | AsyncRefused AsyncRefusal.InputTooLarge _ => false
  | AsyncRefused _ _ => true
  | Control (ControlError.PolicyDenied | ControlError.UnknownTenant) _ => false
  | Control _ _ => true
  | ProviderUnavailable _ | Platform _ => true
  | _ => false
  end.

(** [crates/application/src/services/triggers/mod.rs:716-724 principal_of] *)
Definition principal_of (t : Trigger) : Principal :=
  mkPrincipal ("trigger:" +:+ tg_id t) (tg_tenant_id t) [Role.Invoke].

(** What the acceptance of a fire meets outside, the resolution of the trigger's target included. *)
Definition outside_for (t : Trigger) (f : FireOutside) : Outside :=
  let out := fo_out f in
  mkOutside (os_draining out)
    (fo_resolve f (principal_of t) (tg_function_id t) (tt_alias (tg_target t))
       (tt_revision_id (tg_target t)))
    (os_now out) (os_id out) (os_put out) (os_queue out) (os_fail_put out)
    (os_fail_before_commit out) (os_fail_after_commit out).

Section scheduler.
Context `{Calendar} (cfg : StoreConfig) (o : Codec) (c : InvokeAsyncConfig) (tc : TriggersConfig).
Context (k : TriggerCodec).

(** [crates/application/src/services/invoke_async/mod.rs:365-378 accept_for_trigger] The claim
    names the new invocation. *)
Definition accept_for_trigger (q : InvokeAsyncRequest) (out : Outside) (claim : FireClaim)
    (s : TriggerStore) : result AppError TriggerAcceptance * TriggerStore :=
  match prepare cfg o c q out (ts_ledger s) with
  | Err e => (Err e, s)
  | Ok (Replayed a) => (Ok (TAccepted a), s)
  | Ok (Fresh_ inv input event) =>
      let claim := mkClaim (fc_expected_generation claim)
                     (fc_record claim <| fr_invocation_id := Some (os_id out) |>) in
      match accept_trigger_fire cfg inv input event (backlog_limits c) claim
              (os_fail_before_commit out) s with
      | Err e => (Err (Ledgers e), s)
      | Ok (TriggerAcceptOutcome.Accepted, s') =>
          if os_fail_after_commit out
          then (Err (Platform ("failpoint accept.after_commit: committed, but the response was " +:+
                               "lost")), s')
          else (Ok (TAccepted (mkAcceptance inv (storage input) false)), s')
      | Ok (TriggerAcceptOutcome.AlreadyFired f, s') => (Ok (TAlreadyFired f), s')
      | Ok (TriggerAcceptOutcome.Inactive current, s') => (Ok (TInactive current), s')
      | Ok (TriggerAcceptOutcome.Existing binding, s') =>
          (TAccepted <$> replay (unwrap_or (rq_idempotency_key q) "") (inv_input_digest inv) binding
                           (ts_ledger s'), s')
      | Ok (TriggerAcceptOutcome.Backlog stats, s') =>
          (Err (unwrap_or (backlog_refusal o stats (backlog_limits c) (os_queue out) (os_now out))
                  (AsyncRefused AsyncRefusal.Backlog "the async outbox is over its bound")), s')
      end
  end.

(** ** One scheduled time *)

(** [crates/application/src/services/triggers/mod.rs:976-984 fire_cron (payload)] *)
Definition cron_event (t : Trigger) (spec : CronSpec) (scheduled : string) : Json :=
  JObject [("source", JString "tachyon.cron"); ("trigger_id", JString (tg_id t));
           ("trigger_name", JString (tg_name t)); ("scheduled_at", JString scheduled);
           ("timezone", JString (cr_timezone spec)); ("payload", JValue (cr_payload spec))].

(** [crates/application/src/services/triggers/mod.rs:726-740 request] *)
Definition request (t : Trigger) (payload : Json) (idempotency_key : string) : InvokeAsyncRequest :=
  mkAsyncRequest (principal_of t) (tk_to_vec k payload) (Some idempotency_key) None.

(** [crates/application/src/services/triggers/mod.rs:960-972 fire_cron (record)] *)
Definition cron_fire (t : Trigger) (scheduled_at now : Timestamp) : FireRecord :=
  mkFire (tg_id t) (tg_tenant_id t) (cron_key (tk_utc_text k) scheduled_at) TriggerKind.Cron
    (Some scheduled_at) None None None FireOutcome.Accepted None now.

Definition REASON_FUNCTION_DELETED : string := "function_deleted".

(** [crates/application/src/services/triggers/mod.rs:1054-1069 disable_for] A failure is only
    logged. *)
Definition disable_for (t : Trigger) (reason : string) (now : Timestamp) (s : TriggerStore)
    : TriggerStore :=
  let next := mkTrigger (tg_id t) (tg_tenant_id t) (tg_function_id t) (tg_name t) (tg_target t)
                (tg_spec t) TriggerStatus.Disabled (Some reason) (tg_generation t + 1) None
                (tg_last_scheduled_at t) (tg_created_at t) now (tg_deleted_at t) in
  match update_trigger next (tg_generation t) None s with Ok (_, s') => s' | Err _ => s end.

(** [crates/application/src/services/triggers/mod.rs:950-1052 fire_cron] *)
Definition fire_cron (f : FireOutside) (t : Trigger) (spec : CronSpec)
    (scheduled_at now : Timestamp) (s : TriggerStore) : Fire.t * TriggerStore :=
  when! fo_read_fails f return! (Fire.Deferred, s);;
  when! is_some (get_fire (tg_id t) (cron_key (tk_utc_text k) scheduled_at) s) return!
    (Fire.AlreadyFired, s);;
  let scheduled := tk_utc_text k scheduled_at in
  let record := cron_fire t scheduled_at now in
  let '(answer, s') :=
    match fo_authorize f with
    | Err e => (Err e, s)
    | Ok _ =>
        accept_for_trigger
          (request t (cron_event t spec scheduled) ("cron:" +:+ tg_id t +:+ ":" +:+ scheduled))
          (outside_for t f) (mkClaim (Some (tg_generation t)) record) s
    end in
  match answer with
  | Ok (TAccepted a) => (if aa_replayed a then Fire.AlreadyFired else Fire.Done, s')
  | Ok (TAlreadyFired _) => (Fire.AlreadyFired, s')
  | Ok (TInactive _) => (Fire.Inactive, s')
  | Err e =>
      when! is_transient e return! (Fire.Deferred, s');;
      when! fo_record_fails f return! (Fire.Deferred, s');;
      let s' := (insert_fire (record <| fr_outcome := FireOutcome.Refused |>
                                     <| fr_reason := Some (tk_reason k e) |>) s').2 in
      match e with
      | FunctionDeleted _ => (Fire.Inactive, disable_for t REASON_FUNCTION_DELETED now s')
      | _ => (Fire.Refused, s')
      end
  end.

(** ** The times of a due trigger *)

(** The scan of the scheduled times: where it is, the late times kept, how many were late, the
    times on time. *)
Record Scan := mkScan {
  sn_at : Timestamp;
  sn_late : list Timestamp;
  sn_late_total : nat;
  sn_on_time : list Timestamp
}.

(** [crates/application/src/services/triggers/mod.rs:857-861 process_cron_trigger (keep_late)] *)
Definition keep_late (p : MissedRunPolicy) : nat :=
  match p with
  | Skip => 0
  | RunOnce => 1
  | RunAll max_runs => Z.to_nat (Z.min max_runs (tc_max_run_all tc))
  end.

(** [crates/application/src/services/triggers/mod.rs:877-892 process_cron_trigger (loop body)] *)
Definition scan_step {tz : TimeZone} (schedule : CronSchedule) (now grace_start : Timestamp)
    (keep : nat) (n : Scan) : Scan + Scan :=
  match next_after schedule (sn_at n) with
  | None => inr n
  | Some t =>
      when! now <? t return! inr n;;
      if t <? grace_start then
        let late := (sn_late n ++ [t])%list in
        inl (mkScan t (if bool_decide (keep < length late)%nat then tail late else late)
               (S (sn_late_total n)) (sn_on_time n))
      else inl (mkScan t (sn_late n) (sn_late_total n) (sn_on_time n ++ [t])%list)
  end.

(** Turns of the scan: more than the nanoseconds of the longest catch-up window. *)
Definition SCAN_STEPS : positive := 2 ^ 90.

(** [crates/application/src/services/triggers/mod.rs:862-894 process_cron_trigger (times)] *)
Definition due_times {tz : TimeZone} (schedule : CronSchedule) (policy : MissedRunPolicy)
    (cursor now : Timestamp) : Scan :=
  let grace_start := now - TriggersConf.grace tc in
  let window_start := now - TriggersConf.max_catchup tc in
  let start := Z.max cursor window_start in
  let n := mkScan (start - seconds 1) [] 0 [] in
  match loop SCAN_STEPS (scan_step schedule now grace_start (keep_late policy)) n with
  | inl n | inr n => n
  end.

(** What the fires of a trigger came to: all tried, the last time fired; or the pass over it is
    over. *)
Inductive Fired : Type :=
| AllTried (last : option Timestamp)
| GaveUp.

(** [crates/application/src/services/triggers/mod.rs:905-928 process_cron_trigger (fires)]
    [outs i] is what the [i]-th fire meets outside. *)
Fixpoint fire_all (outs : nat → FireOutside) (i : nat) (t : Trigger) (spec : CronSpec)
    (now : Timestamp) (times : list Timestamp) (last : option Timestamp) (report : SchedulerReport)
    (s : TriggerStore) : Fired * SchedulerReport * TriggerStore :=
  match times with
  | [] => (AllTried last, report, s)
  | scheduled_at :: times =>
      let '(fire, s) := fire_cron (outs i) t spec scheduled_at now s in
      let go report := fire_all outs (S i) t spec now times (Some scheduled_at) report s in
      match fire with
      | Fire.Done => go (report <| sr_accepted ::= S |>)
      | Fire.AlreadyFired => go (report <| sr_already_fired ::= S |>)
      | Fire.Refused => go (report <| sr_refused ::= S |>)
      | Fire.Inactive => (GaveUp, report <| sr_inactive ::= S |>, s)
      | Fire.Deferred =>
          (GaveUp, report <| sr_deferred ::= S |>,
           match advance_cron_cursor (tg_id t) (tg_generation t) scheduled_at last s with
           | Ok (_, s') => s'
           | Err _ => s
           end)
      end
  end.

(** [CronSchedule::parse]; a calendar without the year 2000 would make it panic. *)
Definition parse_schedule (expression : string) : result string CronSchedule :=
  match parse expression with Some r => r | None => Err "a valid date" end.

(** [crates/application/src/services/triggers/cron.rs:288-292 parse_timezone] *)
Definition parse_timezone (name : string) : result string TimeZone :=
  match tk_zone k name with
  | Some tz => Ok tz
  | None => Err ("`" +:+ name +:+ "` is not an IANA time zone")
  end.

(** [crates/application/src/services/triggers/mod.rs:838-948 process_cron_trigger] *)
Definition process_cron_trigger (outs : nat → FireOutside) (t : Trigger) (now : Timestamp)
    (report : SchedulerReport) (s : TriggerStore) : SchedulerReport * TriggerStore :=
  match tg_spec t with
  | WebhookTrigger _ => (report, s)
  | CronTrigger spec =>
      match parse_schedule (cr_expression spec), parse_timezone (cr_timezone spec), tg_next_fire_at t with
      | Ok schedule, Ok tz, Some cursor =>
          let n := due_times (tz := tz) schedule (cr_missed_run_policy spec) cursor now in
          let report := report <| sr_skipped_late ::= Nat.add (sn_late_total n - length (sn_late n)) |>
                               <| sr_late_run ::= Nat.add (length (sn_late n)) |> in
          let '(fired, report, s) :=
            fire_all outs 0 t spec now (sn_late n ++ sn_on_time n)%list None report s in
          match fired with
          | GaveUp => (report, s)
          | AllTried last =>
              match next_after (H0 := tz) schedule now with
              | None => (report, s)
              | Some next =>
                  match advance_cron_cursor (tg_id t) (tg_generation t) next last s with
                  | Ok (true, s') => (report, s')
                  | Ok (false, s') => (report <| sr_inactive ::= S |>, s')
                  | Err _ => (report, s)
                  end
              end
          end
      | _, _, _ => (report, s)
      end
  end.

(** ** A pass *)

(** [crates/application/src/services/triggers/mod.rs:819-836 purge_if_due] *)
Definition purge_if_due (now : Timestamp) (last_purge : option Timestamp) (s : TriggerStore)
    : nat * option Timestamp * TriggerStore :=
  when! is_some_and last_purge (λ t, now - t <? seconds 3600) return! (0%nat, last_purge, s);;
  match purge_fires (now - TriggersConf.webhook_dedup_retention tc)
          (now - TriggersConf.fire_retention tc) s with
  | Ok (n, s') => (n, Some now, s')
  | Err _ => (0%nat, Some now, s)
  end.

(** [crates/application/src/services/triggers/mod.rs:789-791 scheduler_pass (due triggers)] One after the other; [outs i j] is what the [j]-th fire of the [i]-th meets. *)
Fixpoint process_all (outs : nat → nat → FireOutside) (i : nat) (due : list Trigger)
    (now : Timestamp) (report : SchedulerReport) (s : TriggerStore)
    : SchedulerReport * TriggerStore :=
  match due with
  | [] => (report, s)
  | t :: due =>
      let '(report, s) := process_cron_trigger (outs i) t now report s in
      process_all outs (S i) due now report s
  end.

(** [crates/application/src/services/triggers/mod.rs:760-794 scheduler_pass] [ttl] is the lease
    time of a dispatcher. *)
Definition scheduler_pass (fenced : bool) (owner : DispatcherId) (ttl : Duration) (now : Timestamp)
    (outs : nat → nat → FireOutside) (last_purge : option Timestamp) (s : TriggerStore)
    : SchedulerReport * option Timestamp * TriggerStore :=
  when! fenced return! (empty_report, last_purge, s);;
  match acquire_scheduler_lease owner now ttl s with
  | Ok (true, s) =>
      let due := due_cron_triggers now (tc_scheduler_batch tc) s in
      let report := empty_report <| sr_owner := true |> <| sr_due_triggers := length due |> in
      let '(report, s) := process_all outs 0 due now report s in
      let '(purged, last_purge, s) := purge_if_due now last_purge s in
      (report <| sr_purged_fires := purged |>, last_purge, s)
  | _ => (empty_report, last_purge, s)
  end.

(** [crates/application/src/services/triggers/mod.rs:806-817 next_wake] *)
Definition next_wake (now : Timestamp) (s : TriggerStore) : Duration :=
  let interval := TriggersConf.scheduler_interval tc in
  match next_cron_fire_at s with
  | None => interval
  | Some next => Z.min (Z.max (next - now) 0) interval
  end.
End scheduler.
