(* ===== verification/TriggerInv.v ===== *)
(** * Triggers: what every transaction preserves

    The transactions of [TriggerStore] as commands, what each writes, the invariant of the tables
    they write together with the ledger's, and how the rows move: a deleted trigger stays deleted
    with its secret erased, a generation never goes back, a fire is only ever purged. *)

From S2P Require Import Prelude Ids Functions Invocation Guard Slot Store StoreInv Retry.
From S2P Require Import Outbox Dispatch LedgerInv TriggerStore.

Open Scope string_scope.
Open Scope Z_scope.

(** ** Commands *)

(** One transaction, with its arguments. *)
Inductive tcmd : Type :=
| TLedger (c : lcmd)
| TInsert (t : Trigger) (sealed : option string) (max : nat)
| TUpdate (t : Trigger) (generation : Z) (sealed : option string)
| TCursor (id : TriggerId) (generation : Z) (next : Timestamp) (last : option Timestamp)
| TFire (inv : Invocation) (input : AsyncInput) (event : OutboxEvent) (backlog : BacklogLimits)
    (claim : FireClaim) (before_commit : bool)
| TRecord (f : FireRecord)
| TPurge (webhook_before cron_before : Timestamp)
| TAcquire (owner : DispatcherId) (now : Timestamp) (ttl : Duration)
| TRelease (owner : DispatcherId).

(** The store after a transaction: unchanged when it failed. *)
Definition after_tx {A} (t : ttx A) (s : TriggerStore) : TriggerStore :=
  match t s with Ok (_, s') => s' | Err _ => s end.

Definition run_tcmd (cfg : StoreConfig) (c : tcmd) (s : TriggerStore) : TriggerStore :=
  match c with
  | TLedger c => s <| ts_ledger ::= run_lcmd cfg c |>
  | TInsert t sealed max => after_tx (insert_trigger t sealed max) s
  | TUpdate t generation sealed => after_tx (update_trigger t generation sealed) s
  | TCursor id generation next last => after_tx (advance_cron_cursor id generation next last) s
  | TFire inv input event backlog claim b =>
      after_tx (accept_trigger_fire cfg inv input event backlog claim b) s
  | TRecord f => after_tx (record_fire f) s
  | TPurge wb cb => after_tx (purge_fires wb cb) s
  | TAcquire owner now ttl => after_tx (acquire_scheduler_lease owner now ttl) s
  | TRelease owner => after_tx (release_scheduler_lease owner) s
  end.

(** What the services pass: a new trigger is not deleted, the first event of a fire has
    generation 0, and what is recorded without an acceptance is a refusal. *)
Definition tcmd_ok (c : tcmd) : Prop :=
  match c with
  | TLedger c => lcmd_ok c
  | TInsert t _ _ => not_deleted t = true
  | TFire _ _ event _ _ _ => ob_generation event = 0
  | TRecord f => fr_outcome f = FireOutcome.Refused ∧ fr_invocation_id f = None
  | _ => True
  end.

(** ** The invariant *)

Abbreviation rows s := (invs (ts_ledger s)).

(** An accepted fire names its invocation. *)
Definition fire_backed (s : TriggerStore) (f : FireRecord) : Prop :=
  match fr_outcome f with
  | FireOutcome.Accepted => ∃ id inv,
      fr_invocation_id f = Some id ∧ rows s !! id = Some inv ∧ inv_tenant_id inv = fr_tenant_id f
  | FireOutcome.Refused => fr_invocation_id f = None
  end.

Record triggers_wf (s : TriggerStore) : Prop := {
  tw_ledger : ledger_wf (ts_ledger s);
  tw_keyed : ∀ id t sealed, ts_triggers s !! id = Some (t, sealed) → tg_id t = id;
  tw_erased : ∀ id t sealed, ts_triggers s !! id = Some (t, sealed) →
    not_deleted t = false → sealed = None;
  tw_fire_key : ∀ k f, ts_fires s !! k = Some f → k = (fr_trigger_id f, fr_fire_key f);
  tw_signature : ∀ k k' f f' d, ts_fires s !! k = Some f → ts_fires s !! k' = Some f' →
    fr_trigger_id f = fr_trigger_id f' → fr_signature_digest f = Some d →
    fr_signature_digest f' = Some d → k = k';
  tw_backed : ∀ k f, ts_fires s !! k = Some f → fire_backed s f;
  tw_distinct : ∀ k k' f f' id, ts_fires s !! k = Some f → ts_fires s !! k' = Some f' →
    fr_invocation_id f = Some id → fr_invocation_id f' = Some id → k = k'
}.

Lemma empty_triggers_wf : triggers_wf empty_triggers.
Proof. split; [apply empty_ledger_wf|..]; intros *; cbn; rewrite ?lookup_empty; done. Qed.

(** ** What the transactions write *)

Lemma after_tx_Ok {A} (t : ttx A) s : after_tx t s = s ∨ ∃ a, t s = Ok (a, after_tx t s).
Proof. unfold after_tx. destruct (t s) as [[a s']|]; eauto. Qed.

Lemma fire_by_signature_Some trigger d s f :
  fire_by_signature trigger d s = Some f →
  ∃ k, ts_fires s !! k = Some f ∧ fr_trigger_id f = trigger ∧ fr_signature_digest f = Some d.
Proof.
  unfold fire_by_signature. intros ([k f'] & Hf & ->)%fmap_Some. apply btree_find_Some in Hf as [Hk Hp].
  bools. eauto.
Qed.

Lemma fire_by_signature_None trigger d s :
  fire_by_signature trigger d s = None →
  ∀ k f, ts_fires s !! k = Some f → fr_trigger_id f = trigger → fr_signature_digest f ≠ Some d.
Proof.
  unfold fire_by_signature. rewrite fmap_None, btree_find_None. intros Hn k f Hk Ht Hd.
  specialize (Hn k f Hk). by apply andb_false_iff in Hn as [?|?]; bools.
Qed.

(** The row an insert writes: the reason is cut. *)
Definition fire_row (f : FireRecord) : FireRecord := f <| fr_reason ::= fmap (λ r, truncate r 512) |>.

Lemma insert_fire_spec f s b s' :
  insert_fire f s = (b, s') →
  b = false ∧ s' = s ∨
  b = true ∧ s' = s <| ts_fires ::= <[(fr_trigger_id f, fr_fire_key f) := fire_row f]> |>
  ∧ ts_fires s !! (fr_trigger_id f, fr_fire_key f) = None
  ∧ (∀ d, fr_signature_digest f = Some d → ∀ k g, ts_fires s !! k = Some g →
       fr_trigger_id g = fr_trigger_id f → fr_signature_digest g ≠ Some d).
Proof.
  unfold insert_fire. destruct (is_some (get_fire _ _ _)) eqn:Hk; cbn.
  { intros [= <- <-]. by left. }
  destruct (fr_signature_digest f) as [d|] eqn:Hd; cbn.
  - destruct (is_some (fire_by_signature _ _ _)) eqn:Hs; intros [= <- <-]; [by left|right]. bools.
    split_and!; try done; [unfold fire_row; cbn; by rewrite Hd|].
    intros d' [= <-] k g Hg Ht. by eapply fire_by_signature_None.
  - intros [= <- <-]. right. bools. split_and!; try done. unfold fire_row. cbn. by rewrite Hd.
Qed.

(** An accepted fire: the rows of an asynchronous acceptance and its fire row, together. *)
Record fired (inv : Invocation) (input : AsyncInput) (event : OutboxEvent) (claim : FireClaim)
    (s s' : TriggerStore) : Prop := {
  fd_accepted : accepted inv input event (ts_ledger s) (ts_ledger s');
  fd_active : ∃ t, get_trigger (fr_trigger_id (fc_record claim)) s = Some t
    ∧ is_enabled t = true ∧ tg_tenant_id t = inv_tenant_id inv
    ∧ tg_function_id t = inv_function_id inv
    ∧ (∀ g, fc_expected_generation claim = Some g → tg_generation t = g);
  fd_new_key : get_fire (fr_trigger_id (fc_record claim)) (fr_fire_key (fc_record claim)) s = None;
  fd_new_signature : ∀ d, fr_signature_digest (fc_record claim) = Some d →
    fire_by_signature (fr_trigger_id (fc_record claim)) d s = None;
  fd_names : fr_invocation_id (fc_record claim) = Some (inv_id inv)
    ∧ fr_tenant_id (fc_record claim) = inv_tenant_id inv
    ∧ fr_outcome (fc_record claim) = FireOutcome.Accepted;
  fd_fires : ts_fires s' = <[(fr_trigger_id (fc_record claim), fr_fire_key (fc_record claim)) :=
                              fire_row (fc_record claim)]> (ts_fires s);
  fd_triggers : ts_triggers s' = ts_triggers s;
  fd_scheduler : ts_scheduler s' = ts_scheduler s
}.

(** A fire writes all of its rows or nothing; its ledger is that of the plain acceptance. *)
Lemma accept_trigger_fire_Ok cfg inv input event backlog claim b s out s' :
  accept_trigger_fire cfg inv input event backlog claim b s = Ok (out, s') →
  s' = s ∧ out ≠ TriggerAcceptOutcome.Accepted ∨
  out = TriggerAcceptOutcome.Accepted ∧ b = false ∧ fired inv input event claim s s'
  ∧ ts_ledger s' = run_lcmd cfg (LAccept inv input event backlog false) (ts_ledger s).
Proof.
  unfold accept_trigger_fire. intros H. steps. destruct a. pass Hk. bools.
  destruct (fire_active _ _ _) eqn:Hact; cbn in *; [|steps; by left].
  destruct (or_else _ _) as [f|] eqn:Hold; [steps; by left|]. steps.
  destruct a as [outcome l]. pose proof (accept_in_Ok _ _ _ _ _ _ _ _ Hm Hm0) as Hacc.
  destruct outcome; [|steps; by left..].
  destruct Hacc as [[_ Hne]|(_ & _ & Hac & _)]; [done|].
  destruct (insert_fire _ _) as [ins s1] eqn:Hins.
  apply insert_fire_spec in Hins as [[-> _]|(-> & -> & Hnew & _)]; [done|].
  destruct b; [done|]. cbn in Hk0. steps. right.
  destruct (get_fire _ _ _) eqn:Hg; [done|]. cbn in Hold.
  unfold fire_active in Hact. destruct (get_trigger _ s) as [t|] eqn:Ht; [|done]. cbn in Hact. bools.
  split_and!; try done.
  - split; try done.
    + exists t. split_and!; try done. intros g Hg'. rewrite Hg' in *. cbn in *. bools. done.
    + intros d Hd. rewrite Hd in Hold. done.
  - cbn. unfold after, accept_async. rewrite Hm. cbn. by rewrite Hm0.
Qed.

Lemma update_trigger_Ok t g sealed s b s' :
  update_trigger t g sealed s = Ok (b, s') →
  b = false ∧ s' = s ∨
  b = true ∧ ∃ old sealed0, ts_triggers s !! tg_id t = Some (old, sealed0)
  ∧ tg_generation old = g ∧ tg_generation t = g + 1 ∧ not_deleted old = true
  ∧ tg_tenant_id t = tg_tenant_id old ∧ tg_function_id t = tg_function_id old
  ∧ trigger_kind t = trigger_kind old
  ∧ s' = s <| ts_triggers ::= <[tg_id t :=
           (t, if not_deleted t then or_else sealed sealed0 else None)]> |>.
Proof.
  unfold update_trigger, not_deleted. intros H. pass H. bools.
  destruct (_ !! _) as [[old sealed0]|] eqn:Hold; [|done]. pass H.
  apply orb_false_iff in Heqb1 as [[Ht Hf]%orb_false_iff Hkd].
  destruct (bool_decide (tg_status old = _)) eqn:Hdel; [steps; by left|]. steps.
  destruct (tg_generation old =? g) eqn:Hg; cbn in Hk0; [|steps; by left]. steps. right.
  bools. split; [done|]. exists old, sealed0. cbn.
  split_and!; try done; try congruence; try lia; [by apply negb_true_iff, bool_decide_eq_false|].
  by destruct (bool_decide (tg_status t = _)).
Qed.

Lemma advance_cron_cursor_Ok id g next last s b s' :
  advance_cron_cursor id g next last s = Ok (b, s') →
  b = false ∧ s' = s ∨
  b = true ∧ ∃ t sealed last', ts_triggers s !! id = Some (t, sealed)
  ∧ tg_generation t = g ∧ is_enabled t = true ∧ trigger_kind t = TriggerKind.Cron
  ∧ (∀ cur, tg_next_fire_at t = Some cur → cur ≤ next)
  ∧ s' = s <| ts_triggers ::= <[id := (t <| tg_next_fire_at := Some next |>
                                         <| tg_last_scheduled_at := last' |>, sealed)]> |>.
Proof.
  unfold advance_cron_cursor. destruct (_ !! _) as [[t sealed]|] eqn:Ht; [|intros; steps; by left].
  destruct (_ || _ || _) eqn:Hc; [intros; steps; by left|].
  destruct (is_some_and _ _) eqn:Hb; [intros; steps; by left|]. intros. steps. right. split; [done|].
  eexists t, sealed, _. bools. split_and!; try done. intros cur Hcur. rewrite Hcur in Hb. cbn in Hb.
  bools. done.
Qed.

(** ** The invariant is preserved *)

Lemma insert_trigger_Ok t sealed max s u s' :
  insert_trigger t sealed max s = Ok (u, s') →
  ts_triggers s !! tg_id t = None ∧ s' = s <| ts_triggers ::= <[tg_id t := (t, sealed)]> |>.
Proof. unfold insert_trigger. intros H. pass H. steps. pass Hk. steps. bools. done. Qed.

(** The tables of fires and of invocations are all that backs a fire. *)
Lemma fire_backed_mono s s' f :
  rows_le inv_row_le (rows s) (rows s') → fire_backed s f → fire_backed s' f.
Proof.
  unfold fire_backed. intros Hle. destruct (fr_outcome f); [|done].
  intros (id & inv & Hid & Hrow & Ht). destruct (Hle id inv Hrow) as (inv' & Hrow' & Hi).
  exists id, inv'. split_and!; [done..|]. destruct Hi as [Hi _]. congruence.
Qed.

(** What a transaction on the triggers alone must keep. *)
Lemma triggers_change_wf s tr' :
  triggers_wf s →
  (∀ id t sealed, tr' !! id = Some (t, sealed) →
     tg_id t = id ∧ (not_deleted t = false → sealed = None)) →
  triggers_wf (s <| ts_triggers := tr' |>).
Proof. intros [] Hall. split; cbn; try done; intros * Ht; by apply Hall in Ht as [? ?]. Qed.

Lemma trigger_insert_wf s id t sealed :
  triggers_wf s → tg_id t = id → (not_deleted t = false → sealed = None) →
  triggers_wf (s <| ts_triggers ::= <[id := (t, sealed)]> |>).
Proof.
  intros Hwf Hid Hdel. apply triggers_change_wf; [done|]. intros id' t' sealed' Ht.
  destruct (decide (id' = id)) as [->|Hne].
  - rewrite lookup_insert_eq in Ht. by simplify_eq.
  - rewrite lookup_insert_ne in Ht by done. split; [by eapply tw_keyed|by eapply tw_erased].
Qed.

(** A fire row under a new key with a new signature, whose invocation no fire names. *)
Lemma fire_insert_wf s s' f :
  triggers_wf s → ts_ledger s' = ts_ledger s → ts_triggers s' = ts_triggers s →
  ts_fires s' = <[(fr_trigger_id f, fr_fire_key f) := fire_row f]> (ts_fires s) →
  ts_fires s !! (fr_trigger_id f, fr_fire_key f) = None →
  (∀ d, fr_signature_digest f = Some d → ∀ k g, ts_fires s !! k = Some g →
     fr_trigger_id g = fr_trigger_id f → fr_signature_digest g ≠ Some d) →
  fire_backed s f →
  (∀ k g id, ts_fires s !! k = Some g → fr_invocation_id g = Some id → fr_invocation_id f ≠ Some id) →
  triggers_wf s'.
Proof.
  intros [] Hl Ht Hf Hnew Hsig Hback Hinv.
  assert (∀ g, fire_backed s g → fire_backed s' g) as Hb by by unfold fire_backed; rewrite Hl.
  split; rewrite ?Hl, ?Ht, ?Hf; try done.
  - intros k g [[<- <-]|[_ Hg]]%lookup_insert_Some; [done|by eapply tw_fire_key0].
  - intros k k' g g' d [[<- <-]|[_ Hg]]%lookup_insert_Some
      [[<- <-]|[_ Hg']]%lookup_insert_Some He Hd Hd'; cbn in *; [done|..].
    + exfalso. by eapply (Hsig d Hd).
    + exfalso. by eapply (Hsig d Hd').
    + by eapply (tw_signature0 k k').
  - intros k g [[<- <-]|[_ Hg]]%lookup_insert_Some; [by apply Hb|by eapply Hb, tw_backed0].
  - intros k k' g g' id [[<- <-]|[_ Hg]]%lookup_insert_Some
      [[<- <-]|[_ Hg']]%lookup_insert_Some Hi Hi'; cbn in *; [done|..].
    + exfalso. by eapply Hinv.
    + exfalso. by eapply Hinv.
    + by eapply (tw_distinct0 k k').
Qed.

Lemma ledger_change_wf s l' :
  triggers_wf s → ledger_wf l' → rows_le inv_row_le (rows s) (invs l') →
  triggers_wf (s <| ts_ledger := l' |>).
Proof.
  intros [] Hl Hle. split; cbn; try done.
  intros k f Hf. eapply (fire_backed_mono s); [done|by eapply tw_backed0].
Qed.

Lemma fires_filter_wf s (P : (TriggerId * string) * FireRecord → Prop) `{!∀ x, Decision (P x)} :
  triggers_wf s → triggers_wf (s <| ts_fires ::= filter P |>).
Proof.
  intros []. split; cbn; try done; intros *;
    repeat first [intros [? _]%map_lookup_filter_Some | intros ?]; eauto.
Qed.

(** An accepted fire names a new invocation. *)
Lemma fired_wf cfg inv input event backlog claim s s' :
  triggers_wf s → ob_generation event = 0 → fired inv input event claim s s' →
  ts_ledger s' = run_lcmd cfg (LAccept inv input event backlog false) (ts_ledger s) → triggers_wf s'.
Proof.
  intros Hwf Hgen [Hacc _ Hkey Hsig (Hid & Hten & Hout) Hf Ht _] Hl.
  assert (rows_le inv_row_le (rows s) (rows s')) as Hle
    by (rewrite Hl; apply run_lcmd_rows, Hwf).
  assert (triggers_wf (s <| ts_ledger := ts_ledger s' |>)) as Hwf1.
  { apply ledger_change_wf; [done| |done]. rewrite Hl. by apply run_lcmd_wf; [apply Hwf|]. }
  eapply (fire_insert_wf _ s' (fc_record claim) Hwf1); cbn; try done.
  - intros d Hd. by apply fire_by_signature_None, Hsig.
  - unfold fire_backed. rewrite Hout. exists (inv_id inv), inv. cbn.
    rewrite (ac_invs _ _ _ _ _ Hacc), lookup_insert_eq. done.
  - intros k g id Hg Hgid Hc. pose proof (tw_backed s Hwf k g Hg) as Hb. unfold fire_backed in Hb.
    destruct (fr_outcome g); [|congruence]. destruct Hb as (id' & inv' & Hid' & Hrow & _).
    rewrite Hid in Hc. simplify_eq. pose proof (ac_fresh _ _ _ _ _ Hacc). congruence.
Qed.

Lemma run_tcmd_wf cfg c s : triggers_wf s → tcmd_ok c → triggers_wf (run_tcmd cfg c s).
Proof.
  intros Hwf Hok. destruct c; cbn [run_tcmd tcmd_ok] in *.
  { apply (ledger_change_wf s); [done|apply run_lcmd_wf; [apply Hwf|done]|apply run_lcmd_rows, Hwf]. }
  all: match goal with |- triggers_wf (after_tx ?t ?s) =>
         destruct (after_tx_Ok t s) as [->|[a H]]; [done|];
         revert H; generalize (after_tx t s) end; intros s'.
  - intros [_ ->]%insert_trigger_Ok. apply trigger_insert_wf; [done..|]. by rewrite Hok.
  - intros [[_ ->]|(_ & old & sealed0 & Hold & _ & _ & Hnd & _ & _ & _ & ->)]%update_trigger_Ok; [done|].
    apply trigger_insert_wf; [done..|]. by intros ->.
  - intros [[_ ->]|(_ & t & sealed & last' & Ht & _ & Hen & _ & _ & ->)]%advance_cron_cursor_Ok; [done|].
    apply trigger_insert_wf; cbn; [done|by eapply tw_keyed in Ht|]. intros Hd. exfalso.
    unfold is_enabled in Hen. unfold not_deleted in Hd. cbn in Hd. bools. congruence.
  - intros [[-> _]|(_ & _ & Hf & Hl)]%accept_trigger_fire_Ok; [done|]. by eapply fired_wf.
  - unfold record_fire. intros [= H]. destruct Hok as [Hr Hi].
    apply insert_fire_spec in H as [[_ ->]|(_ & -> & Hk & Hs)]; [done|].
    eapply (fire_insert_wf s _ f); try done; [unfold fire_backed; by rewrite Hr|].
    intros k g id _ _. congruence.
  - intros [= _ <-]. by apply fires_filter_wf.
  - unfold acquire_scheduler_lease. intros H. destruct (may_take _ _ _); cbn in H; steps; [|done].
    by destruct Hwf.
  - intros [= _ <-]. by destruct Hwf.
Qed.

(** ** How the rows move *)

(** The trigger with another cursor. *)
Definition same_but_cursor (t t' : Trigger) : Prop :=
  t' = t <| tg_next_fire_at := tg_next_fire_at t' |> <| tg_last_scheduled_at := tg_last_scheduled_at t' |>.

(** A trigger keeps its tenant, function and kind; its generation grows with every change but
    that of the cursor, which only moves forward; a deleted trigger is final. *)
Record trigger_le (p p' : Trigger * option string) : Prop := {
  tl_identity : (tg_tenant_id p'.1, tg_function_id p'.1, trigger_kind p'.1) =
                (tg_tenant_id p.1, tg_function_id p.1, trigger_kind p.1);
  tl_generation : tg_generation p.1 ≤ tg_generation p'.1;
  tl_same : tg_generation p'.1 = tg_generation p.1 →
    same_but_cursor p.1 p'.1 ∧ p'.2 = p.2
    ∧ (∀ cur, tg_next_fire_at p.1 = Some cur →
         ∃ next, tg_next_fire_at p'.1 = Some next ∧ cur ≤ next);
  tl_final : not_deleted p.1 = false → p' = p
}.

#[global] Instance trigger_le_preorder : PreOrder trigger_le.
Proof.
  split.
  - intros [t sealed]. split; cbn; try done. intros _. split_and!; [by destruct t|done|eauto using Z.le_refl].
  - intros [t1 s1] [t2 s2] [t3 s3] [I1 G1 S1 F1] [I2 G2 S2 F2]. cbn in *. split; cbn.
    + congruence.
    + lia.
    + intros Hg. destruct (S1 ltac:(lia)) as (B1 & -> & N1), (S2 ltac:(lia)) as (B2 & -> & N2).
      split_and!; [|done|].
      { unfold same_but_cursor in *. destruct t1, t2, t3. cbn in *. injection B1; injection B2; intros; subst; reflexivity. }
      intros cur (n & Hn & ?)%N1. apply N2 in Hn as (n' & ? & ?). exists n'. split; [done|lia].
    + intros Hd. specialize (F1 Hd). simplify_eq. by apply F2.
Qed.

Lemma trigger_change_le s id p p' :
  ts_triggers s !! id = Some p → trigger_le p p' →
  rows_le trigger_le (ts_triggers s) (<[id := p']> (ts_triggers s)).
Proof. intros. eapply rows_le_insert; [apply _|done..]. Qed.

Lemma advance_le t sealed cur' last' :
  (∀ cur, tg_next_fire_at t = Some cur → cur ≤ cur') → is_enabled t = true →
  trigger_le (t, sealed) (t <| tg_next_fire_at := Some cur' |> <| tg_last_scheduled_at := last' |>, sealed).
Proof.
  intros Hcur Hen. split; cbn; try done.
  - intros _. split_and!; [done..|]. intros cur Hc. eexists. split; [done|]. by apply Hcur.
  - unfold not_deleted, is_enabled in *. intros Hd. bools. congruence.
Qed.

Lemma run_tcmd_triggers cfg c s :
  triggers_wf s → rows_le trigger_le (ts_triggers s) (ts_triggers (run_tcmd cfg c s)).
Proof.
  intros Hwf. destruct c; cbn [run_tcmd]; [done|..].
  all: match goal with |- rows_le _ _ (ts_triggers (after_tx ?t ?s)) =>
         destruct (after_tx_Ok t s) as [->|[a H]]; [done|];
         revert H; generalize (after_tx t s) end; intros s'.
  - intros [Hn ->]%insert_trigger_Ok. apply rows_le_insert_fresh; [apply _|done].
  - intros [[_ ->]|(_ & old & sealed0 & Hold & Hg & Hg' & Hnd & ? & ? & ? & ->)]%update_trigger_Ok; [done|].
    eapply trigger_change_le; [done|]. split; cbn; [congruence|lia|intros; exfalso; lia|congruence].
  - intros [[_ ->]|(_ & t & sealed & last' & Ht & _ & Hen & _ & Hc & ->)]%advance_cron_cursor_Ok; [done|].
    eapply trigger_change_le; [done|]. by apply advance_le.
  - by intros [[-> _]|(_ & _ & [] & _)]%accept_trigger_fire_Ok; [|rewrite fd_triggers0].
  - unfold record_fire. intros [= H]. destruct a.
    all: by apply insert_fire_spec in H as [[_ ->]|(_ & -> & _)].
  - by intros [= _ <-].
  - unfold acquire_scheduler_lease. intros H. by destruct (may_take _ _ _); cbn in H; steps.
  - by intros [= _ <-].
Qed.

(** Runs of transactions that [P] allows. *)
Inductive trigger_run (cfg : StoreConfig) (P : tcmd → Prop) (s : TriggerStore) : TriggerStore → Prop :=
| trun_here : trigger_run cfg P s s
| trun_step s' c : trigger_run cfg P s s' → P c → trigger_run cfg P s (run_tcmd cfg c s').

Section runs.
Context (cfg : StoreConfig) (P : tcmd → Prop).

Lemma trun_one s c : P c → trigger_run cfg P s (run_tcmd cfg c s).
Proof. intros. apply trun_step; [constructor|done]. Qed.

Lemma trun_trans s1 s2 s3 :
  trigger_run cfg P s1 s2 → trigger_run cfg P s2 s3 → trigger_run cfg P s1 s3.
Proof. intros H12. induction 1; [done|by constructor]. Qed.

Lemma trun_weaken (Q : tcmd → Prop) s s' :
  (∀ c, P c → Q c) → trigger_run cfg P s s' → trigger_run cfg Q s s'.
Proof. intros HPQ. induction 1; constructor; auto. Qed.

Context (Pok : ∀ c, P c → tcmd_ok c).

Lemma trun_wf s s' : triggers_wf s → trigger_run cfg P s s' → triggers_wf s'.
Proof. intros Hwf. induction 1; [done|]. apply run_tcmd_wf; auto. Qed.

Lemma trun_rows s s' :
  triggers_wf s → trigger_run cfg P s s' → rows_le trigger_le (ts_triggers s) (ts_triggers s').
Proof.
  intros Hwf. induction 1 as [|s' c Hrun IH]; [done|].
  etrans; [exact IH|]. apply run_tcmd_triggers. by eapply trun_wf.
Qed.
End runs.

(** ** Fires stay *)

(** The command does not purge the fire. *)
Definition keeps (f : FireRecord) (c : tcmd) : Prop :=
  match c with TPurge wb cb => outdated wb cb f = false | _ => True end.

Lemma insert_keeps (m : gmap (TriggerId * string) FireRecord) k f k' f' :
  m !! k = Some f → m !! k' = None → <[k' := f']> m !! k = Some f.
Proof. intros Hk Hn. rewrite lookup_insert_ne; [done|]. intros ->. congruence. Qed.

Lemma run_tcmd_fire cfg c s k f :
  ts_fires s !! k = Some f → keeps f c → ts_fires (run_tcmd cfg c s) !! k = Some f.
Proof.
  intros Hf Hkeep. destruct c; cbn [run_tcmd]; [done|..].
  all: match goal with |- context [after_tx ?t ?s] =>
         destruct (after_tx_Ok t s) as [->|[a H]]; [done|];
         revert H; generalize (after_tx t s) end; intros s'.
  - by intros [_ ->]%insert_trigger_Ok.
  - by intros [[_ ->]|(_ & ? & ? & _ & _ & _ & _ & _ & _ & _ & ->)]%update_trigger_Ok.
  - by intros [[_ ->]|(_ & ? & ? & ? & _ & _ & _ & _ & _ & ->)]%advance_cron_cursor_Ok.
  - intros [[-> _]|(_ & _ & [] & _)]%accept_trigger_fire_Ok; [done|]. rewrite fd_fires0.
    by apply insert_keeps.
  - unfold record_fire. intros [= H]. destruct a.
    all: apply insert_fire_spec in H as [[_ ->]|(_ & -> & Hn & _)]; [done|].
    all: by apply insert_keeps.
  - intros [= _ <-]. by apply map_lookup_filter_Some.
  - unfold acquire_scheduler_lease. intros H. by destruct (may_take _ _ _); cbn in H; steps.
  - by intros [= _ <-].
Qed.

Lemma trun_fire cfg P s s' k f :
  (∀ c, P c → keeps f c) → trigger_run cfg P s s' →
  ts_fires s !! k = Some f → ts_fires s' !! k = Some f.
Proof. intros HP. induction 1; [done|]. intros Hf. apply run_tcmd_fire; auto. Qed.
