(* ===== verification/TriggerService.v ===== *)
(** * Triggers: their administration and webhook deliveries

    [crates/application/src/services/triggers/mod.rs], the part callers reach: creation, change and
    deletion of triggers with the sealing of webhook secrets, and the verification and acceptance
    of a webhook delivery. Requests are as [crates/api-types/src/triggers.rs] decodes them. Clock
    readings, fresh ids and the random bytes of a secret are arguments; reads of the tables do not
    fail here. *)

From Stdlib Require Import Ascii.
From S2P Require Import Prelude Ids Functions Invocation Revision Guard Slot Store Retry.
From S2P Require Import Outbox Dispatch AsyncRun AsyncFront.
From S2P Require Import Calendar Cron TriggerStore Webhook Triggers.

Open Scope string_scope.
Open Scope Z_scope.

(** ** Requests *)

(** [crates/api-types/src/triggers.rs:39-47 TriggerTargetRequest] *)
Record TriggerTargetRequest := mkTargetRequest {
  tr_alias : option string;
  tr_revision_id : option string
}.

(** [crates/api-types/src/triggers.rs:63-79 CronTriggerRequest] *)
Record CronTriggerRequest := mkCronRequest {
  cq_expression : string;
  cq_timezone : string;
  cq_payload : string;
  cq_missed_run_policy : MissedRunPolicy
}.

(** [crates/api-types/src/triggers.rs:89-106 WebhookTriggerRequest] *)
Record WebhookTriggerRequest := mkWebhookRequest {
  wq_source : option string;
  wq_tolerance_seconds : option Z;
  wq_max_body_bytes : option Z;
  wq_event_id_header : option string
}.
(** [crates/api-types/src/triggers.rs:90-90 default] *)
Definition default_webhook_request : WebhookTriggerRequest := mkWebhookRequest None None None None.

(** [crates/api-types/src/triggers.rs:108-124 CreateTriggerRequest] *)
Record CreateTriggerRequest := mkCreate {
  ct_name : string;
  ct_kind : string;
  ct_enabled : bool;
  ct_target : TriggerTargetRequest;
  ct_cron : option CronTriggerRequest;
  ct_webhook : option WebhookTriggerRequest
}.

(** [crates/api-types/src/triggers.rs:130-164 UpdateTriggerRequest] *)
Record UpdateTriggerRequest := mkUpdate {
  ut_expected_generation : option Z;
  ut_name : option string;
  ut_enabled : option bool;
  ut_target : option TriggerTargetRequest;
  ut_expression : option string;
  ut_timezone : option string;
  ut_payload : option string;
  ut_missed_run_policy : option MissedRunPolicy;
  ut_tolerance_seconds : option Z;
  ut_max_body_bytes : option Z;
  ut_event_id_header : option string;
  ut_rotate_secret : option bool
}.

(** [crates/application/src/services/triggers/mod.rs:132-139 WebhookDelivery] *)
Record WebhookDelivery := mkDelivery {
  wd_timestamp : option string;
  wd_signature : option string;
  wd_event_id : option string;
  wd_content_type : option string
}.

(** [crates/application/src/services/triggers/mod.rs:123-130 WebhookAcceptance] *)
Record WebhookAcceptance := mkWebhookAcceptance {
  wa_trigger_id : TriggerId;
  wa_event_id : string;
  wa_invocation : Invocation;
  wa_replayed : bool
}.

(** [crates/application/src/services/triggers/mod.rs:93-98 TriggerWithSecret] *)
Record TriggerWithSecret := mkWithSecret {
  ws_trigger : Trigger;
  ws_secret : option string
}.

(** [crates/api-types/src/triggers.rs:36-37 WEBHOOK_SOURCE_GENERIC_HMAC] *)
Definition WEBHOOK_SOURCE_GENERIC_HMAC : string := "generic-hmac".
(** [crates/api-types/src/triggers.rs:26-27 TIMESTAMP] *)
Definition TIMESTAMP_HEADER : string := "x-tachyon-webhook-timestamp".
(** [crates/api-types/src/triggers.rs:28-31 SIGNATURE] *)
Definition SIGNATURE_HEADER : string := "x-tachyon-webhook-signature".
(** [crates/api-types/src/triggers.rs:32-33 EVENT_ID] *)
Definition EVENT_ID_HEADER : string := "x-tachyon-webhook-id".

(** [crates/application/src/services/triggers/mod.rs:68-68 MAX_NAME_LEN] *)
Definition MAX_NAME_LEN : Z := 64.
(** [crates/application/src/services/triggers/mod.rs:69-77 RESERVED_HEADERS] *)
Definition RESERVED_HEADERS : list string :=
  [TIMESTAMP_HEADER; SIGNATURE_HEADER; "authorization"; "content-type"; "content-length"; "host"].

(** ** Text *)

(** [s.chars().count()] of UTF-8 text: the bytes that do not continue a character. *)
Definition char_count (s : string) : Z :=
  Z.of_nat (length (List.filter (λ c, negb (Z.land (byte_of c) 192 =? 128))
                     (String.list_ascii_of_string s))).

(** [s.chars().any(char::is_control)] of UTF-8 text: C0, DEL or C1. *)
Fixpoint has_control (s : string) : bool :=
  match s with
  | EmptyString => false
  | String c rest =>
      (byte_of c <? 32) || (byte_of c =? 127)
      || (match rest with
          | String d _ => (byte_of c =? 194) && (byte_of d <? 160)
          | EmptyString => false
          end)
      || has_control rest
  end.

(** [crates/application/src/services/triggers/mod.rs:211-218 valid_header_name] *)
Definition valid_header_name (name : string) : bool :=
  negb (name == "") && (byte_len name <=? 64)
  && bytes_all (λ b, is_ascii_lowercase b || is_ascii_digit b || (b == "-"%char)) name
  && negb (bool_decide (name ∈ RESERVED_HEADERS)).

(** [crates/application/src/services/triggers/mod.rs:181-194 policy_from] *)
Definition policy_from (req : MissedRunPolicy) (max : Z) : result AppError MissedRunPolicy :=
  match req with
  | Skip => Ok Skip
  | RunOnce => Ok RunOnce
  | RunAll max_runs =>
      when! (max_runs =? 0) || (max <? max_runs) return!
        Err (InvalidRequest ("missed_run_policy.run_all.max_runs must be 1..=" +:+ pretty max));;
      Ok (RunAll max_runs)
  end.

(** [crates/application/src/services/triggers/mod.rs:196-202 policy_to_api] *)
Definition policy_to_api (p : MissedRunPolicy) : MissedRunPolicy :=
  match p with Skip => Skip | RunOnce => RunOnce | RunAll max_runs => RunAll max_runs end.

(** [crates/application/src/services/triggers/mod.rs:173-175 secret_aad] *)
Definition secret_aad (trigger : TriggerId) (tenant : TenantId) : string :=
  let nul := String "000"%char "" in
  "tachyon-serverless/webhook-secret/v1" +:+ nul +:+ trigger +:+ nul +:+ tenant.

(** [crates/application/src/authz.rs:25-28 require_deploy] *)
Definition require_deploy (p : Principal) : result AppError unit := require_role p Role.Deploy.

(** [crates/application/src/authz.rs:42-51 require_read] *)
Definition require_read (p : Principal) : result AppError unit :=
  if bool_decide (Role.Deploy ∈ pr_roles p) || bool_decide (Role.Invoke ∈ pr_roles p)
     || bool_decide (Role.Operator ∈ pr_roles p)
  then Ok tt else Err (Forbidden "a deploy or invoke role is required").

(** The request that fails leaves the store as it was. *)
Definition answer {A} (s : TriggerStore) (r : result AppError (A * TriggerStore))
    : result AppError A * TriggerStore :=
  match r with Ok (a, s') => (Ok a, s') | Err e => (Err e, s) end.

(** [crates/application/src/services/triggers/mod.rs:328-338 validate_name] *)
Definition validate_name (name : string) : result AppError unit :=
  when! (trim name == "") || (MAX_NAME_LEN <? char_count name) || has_control name return!
    Err (InvalidRequest ("name must be 1..=" +:+ pretty MAX_NAME_LEN
           +:+ " characters without control characters"));;
  Ok tt.

Section service.
Context `{Calendar, Hashing} (cfg : StoreConfig) (o : Codec) (c : InvokeAsyncConfig).
Context (tc : TriggersConfig) (k : TriggerCodec).

(** ** Ownership *)

(** [crates/application/src/services/triggers/mod.rs:266-278 owned_function] *)
Definition owned_function (p : Principal) (id : FunctionId) (s : TriggerStore)
    : result AppError FunctionDef :=
  match st_functions (lg_store (ts_ledger s)) !! id with
  | None => Err (Absent "function not found")
  | Some f => _ ← ensure_tenant p (fn_tenant_id f) "function"; Ok f
  end.

(** [crates/application/src/services/triggers/mod.rs:280-296 owned_trigger] *)
Definition owned_trigger (p : Principal) (function : FunctionId) (id : TriggerId) (s : TriggerStore)
    : result AppError Trigger :=
  _ ← owned_function p function s;
  match get_trigger id s with
  | Some t =>
      if (tg_tenant_id t == pr_tenant_id p) && (tg_function_id t == function)
         && (tg_status t != TriggerStatus.Deleted)
      then Ok t else Err (Absent "trigger not found")
  | None => Err (Absent "trigger not found")
  end.

(** [crates/application/src/services/triggers/mod.rs:298-326 target_from] *)
Definition target_from (show : DomainError → string) (f : FunctionDef) (req : TriggerTargetRequest)
    (s : TriggerStore) : result AppError TriggerTarget :=
  match tr_alias req, tr_revision_id req with
  | Some _, Some _ => Err (InvalidRequest "target takes an alias or a revision_id, not both")
  | Some a, None =>
      a ← map_err (λ e, InvalidRequest (show e)) (parse_alias_name a);
      Ok (mkTarget (Some a) None)
  | None, Some r =>
      id ← map_err (λ _, Absent "revision not found") (parse_id Ids.Revision r);
      match st_revisions (lg_store (ts_ledger s)) !! id with
      | Some rev =>
          if (rev_function_id rev == fn_id f) && (rev_tenant_id rev == fn_tenant_id f)
          then Ok (mkTarget None (Some id)) else Err (Absent "revision not found")
      | None => Err (Absent "revision not found")
      end
  | None, None => Ok (mkTarget None None)
  end.

(** ** Validation *)

(** [crates/application/src/services/triggers/mod.rs:340-352 validate_cron] *)
Definition validate_cron (spec : CronSpec) : result AppError (CronSchedule * TimeZone) :=
  schedule ← map_err InvalidRequest (parse_schedule (cr_expression spec));
  tz ← map_err InvalidRequest (parse_timezone k (cr_timezone spec));
  payload ← map_err (λ e, InvalidRequest ("payload: " +:+ e)) (tk_to_vec k (JValue (cr_payload spec)));
  let max := u64_saturating_sub (max_payload_bytes (cfg_limits cfg)) 1024 in
  when! max <? byte_len payload return! Err (PayloadTooLarge (byte_len payload) max);;
  Ok (schedule, tz).

(** The largest body a webhook of this configuration takes. *)
Definition webhook_max_body_bytes : Z :=
  TriggersConf.effective_webhook_max_body_bytes tc (max_payload_bytes (cfg_limits cfg)).

(** [crates/application/src/services/triggers/mod.rs:354-387 validate_webhook] *)
Definition validate_webhook (spec : WebhookSpec) : result AppError unit :=
  when! wh_source spec != WEBHOOK_SOURCE_GENERIC_HMAC return!
    Err (InvalidRequest ("webhook.source must be `" +:+ WEBHOOK_SOURCE_GENERIC_HMAC +:+ "`"));;
  when! (wh_tolerance_seconds spec =? 0)
        || (tc_webhook_max_tolerance_seconds tc <? wh_tolerance_seconds spec) return!
    Err (InvalidRequest ("webhook.tolerance_seconds must be 1..="
           +:+ pretty (tc_webhook_max_tolerance_seconds tc)));;
  when! (wh_max_body_bytes spec =? 0) || (webhook_max_body_bytes <? wh_max_body_bytes spec) return!
    Err (InvalidRequest ("webhook.max_body_bytes must be 1..=" +:+ pretty webhook_max_body_bytes));;
  when! negb (valid_header_name (wh_event_id_header spec)) return!
    Err (InvalidRequest
           ("webhook.event_id_header must be a lowercase header name (a-z, 0-9, -) that is "
              +:+ "not the timestamp, signature or a standard header"));;
  Ok tt.

(** [crates/application/src/services/triggers/mod.rs:389-400 seal] *)
Definition seal (t : Trigger) (secret : string) : result AppError string :=
  match tk_seal k with
  | None => Err (InvalidRequest ("webhook triggers need a key to seal their secret: set [triggers] "
                                   +:+ "secret_key_file or secret_key_env"))
  | Some seal => Ok (seal secret (secret_aad (tg_id t) (tg_tenant_id t)))
  end.

(** [crates/application/src/services/triggers/mod.rs:402-417 unseal] *)
Definition unseal (t : Trigger) (s : TriggerStore) : result AppError string :=
  match trigger_secret (tg_id t) s with
  | None => Err (Absent "trigger not found")
  | Some sealed =>
      match tk_seal k with
      | None => Err (Platform "webhook secret key is not configured")
      | Some _ =>
          match tk_open k sealed (secret_aad (tg_id t) (tg_tenant_id t)) with
          | None => Err (Platform
                           "the webhook secret cannot be unsealed with the configured key")
          | Some plain =>
              if tk_is_utf8 k plain then Ok plain else Err (Platform "webhook secret is not UTF-8")
          end
      end
  end.

(** [secret.map(|s| self.seal(..)).transpose()] *)
Definition seal_opt (t : Trigger) (secret : option string) : result AppError (option string) :=
  match secret with
  | Some secret => sealed ← seal t secret; Ok (Some sealed)
  | None => Ok None
  end.

(** ** Administration *)

(** [crates/application/src/services/triggers/mod.rs:443-486 create (spec)] The specification, the
    first scheduled time and the secret of a new trigger; [random] is the 32 bytes drawn. *)
Definition spec_from (req : CreateTriggerRequest) (now : Timestamp) (random : string)
    : result AppError (TriggerSpec * option Timestamp * option string) :=
  if ct_kind req == "cron" then
    match ct_cron req, ct_webhook req with
    | Some q, None =>
        policy ← policy_from (cq_missed_run_policy q) (tc_max_run_all tc);
        let spec := mkCronSpec (trim (cq_expression q)) (cq_timezone q) (cq_payload q) policy in
        '(schedule, tz) ← validate_cron spec;
        let next := if ct_enabled req then next_after (H0 := tz) schedule now else None in
        Ok (CronTrigger spec, next, None)
    | _, _ => Err (InvalidRequest "a cron trigger takes `cron` and no `webhook`")
    end
  else if ct_kind req == "webhook" then
    match ct_cron req with
    | None =>
        let w := unwrap_or (ct_webhook req) default_webhook_request in
        let secret := generate_secret random in
        let spec := mkWebhookSpec
          (unwrap_or (wq_source w) WEBHOOK_SOURCE_GENERIC_HMAC)
          (unwrap_or (wq_tolerance_seconds w) (tc_webhook_default_tolerance_seconds tc))
          (unwrap_or (wq_max_body_bytes w) webhook_max_body_bytes)
          (match wq_event_id_header w with Some h => to_ascii_lowercase h | None => EVENT_ID_HEADER end)
          (fingerprint secret) in
        _ ← validate_webhook spec;
        Ok (WebhookTrigger spec, None, Some secret)
    | Some _ => Err (InvalidRequest "a webhook trigger takes no `cron`")
    end
  else Err (InvalidRequest ("kind `" +:+ ct_kind req +:+ "` is not `cron` or `webhook`")).

(** [crates/application/src/services/triggers/mod.rs:419-521 create] *)
Definition create (show : DomainError → string) (p : Principal) (function : FunctionId)
    (req : CreateTriggerRequest) (now : Timestamp) (ulid random : string) (s : TriggerStore)
    : result AppError TriggerWithSecret * TriggerStore :=
  answer s
    (_ ← require_deploy p;
     f ← owned_function p function s;
     when! Fn.is_deleted f return!
       Err (FunctionDeleted ("function " +:+ fn_id f +:+ " is deleted"));;
     _ ← validate_name (ct_name req);
     target ← target_from show f (ct_target req) s;
     '(spec, next_fire_at, secret) ← spec_from req now random;
     let status := if ct_enabled req then TriggerStatus.Enabled else TriggerStatus.Disabled in
     let t := mkTrigger (from_ulid Ids.Trigger ulid) (fn_tenant_id f) (fn_id f) (ct_name req) target
                spec status None 1 next_fire_at None now now None in
     sealed ← seal_opt t secret;
     '(_, s') ← ledger (insert_trigger t sealed (tc_max_triggers_per_function tc) s);
     Ok (mkWithSecret t secret, s')).

(** [crates/application/src/services/triggers/mod.rs:523-531 get] *)
Definition get (p : Principal) (function : FunctionId) (id : TriggerId) (s : TriggerStore)
    : result AppError Trigger :=
  _ ← require_read p;
  owned_trigger p function id s.

(** [crates/application/src/services/triggers/mod.rs:533-546 list] *)
Definition list_of_function (p : Principal) (function : FunctionId) (s : TriggerStore)
    : result AppError (list Trigger) :=
  _ ← require_read p;
  _ ← owned_function p function s;
  Ok (List.filter (λ t, tg_tenant_id t == pr_tenant_id p) (list_triggers function s)).

(** [crates/application/src/services/triggers/mod.rs:586-645 update (spec)] The specification after
    a change, the next scheduled time and the new secret. [next] is the trigger with its new name,
    target and status. *)
Definition respec (req : UpdateTriggerRequest) (next : Trigger) (reschedule : bool)
    (now : Timestamp) (random : string)
    : result AppError (TriggerSpec * option Timestamp * option string) :=
  let cron_fields := is_some (ut_expression req) || is_some (ut_timezone req)
                     || is_some (ut_payload req) || is_some (ut_missed_run_policy req) in
  let webhook_fields := is_some (ut_tolerance_seconds req) || is_some (ut_max_body_bytes req)
                        || is_some (ut_event_id_header req) || is_some (ut_rotate_secret req) in
  match tg_spec next with
  | CronTrigger spec =>
      when! webhook_fields return!
        Err (InvalidRequest "webhook fields do not apply to a cron trigger");;
      let reschedule := reschedule || is_some (ut_expression req) || is_some (ut_timezone req) in
      policy ← match ut_missed_run_policy req with
               | Some p => policy_from p (tc_max_run_all tc)
               | None => Ok (cr_missed_run_policy spec)
               end;
      let spec := mkCronSpec
        (match ut_expression req with Some e => trim e | None => cr_expression spec end)
        (unwrap_or (ut_timezone req) (cr_timezone spec))
        (unwrap_or (ut_payload req) (cr_payload spec)) policy in
      '(schedule, tz) ← validate_cron spec;
      let at_ := if negb (is_enabled next) then None
                 else if reschedule || is_none (tg_next_fire_at next)
                 then next_after (H0 := tz) schedule now else tg_next_fire_at next in
      Ok (CronTrigger spec, at_, None)
  | WebhookTrigger spec =>
      when! cron_fields return!
        Err (InvalidRequest "cron fields do not apply to a webhook trigger");;
      let rotate := ut_rotate_secret req == Some true in
      let secret := generate_secret random in
      let spec := mkWebhookSpec (wh_source spec)
        (unwrap_or (ut_tolerance_seconds req) (wh_tolerance_seconds spec))
        (unwrap_or (ut_max_body_bytes req) (wh_max_body_bytes spec))
        (match ut_event_id_header req with
         | Some h => to_ascii_lowercase h | None => wh_event_id_header spec end)
        (if rotate then fingerprint secret else wh_secret_fingerprint spec) in
      _ ← validate_webhook spec;
      Ok (WebhookTrigger spec, tg_next_fire_at next, if rotate then Some secret else None)
  end.

Definition changed_concurrently (t : Trigger) : AppError :=
  Conflicting ("trigger " +:+ tg_id t +:+ " changed concurrently; read it again").

(** [crates/application/src/services/triggers/mod.rs:548-670 update] *)
Definition update (show : DomainError → string) (p : Principal) (function : FunctionId)
    (id : TriggerId) (req : UpdateTriggerRequest) (now : Timestamp) (random : string)
    (s : TriggerStore) : result AppError TriggerWithSecret * TriggerStore :=
  answer s
    (_ ← require_deploy p;
     current ← owned_trigger p function id s;
     when! is_some_and (ut_expected_generation req) (λ g, negb (g =? tg_generation current)) return!
       Err (Conflicting ("trigger " +:+ tg_id current +:+ " is at generation "
              +:+ pretty (tg_generation current) +:+ ", not "
              +:+ pretty (unwrap_or (ut_expected_generation req) 0)));;
     f ← owned_function p function s;
     _ ← match ut_name req with Some name => validate_name name | None => Ok tt end;
     target ← match ut_target req with
              | Some target => target_from show f target s
              | None => Ok (tg_target current)
              end;
     let status := match ut_enabled req with
                   | Some enabled =>
                       if enabled then TriggerStatus.Enabled else TriggerStatus.Disabled
                   | None => tg_status current
                   end in
     let reason := if ut_enabled req is Some _ then None else tg_status_reason current in
     let reschedule := is_some_and (ut_enabled req) (λ enabled, enabled && negb (is_enabled current)) in
     let named := mkTrigger (tg_id current) (tg_tenant_id current) (tg_function_id current)
                    (unwrap_or (ut_name req) (tg_name current)) target (tg_spec current) status reason
                    (tg_generation current + 1) (tg_next_fire_at current)
                    (tg_last_scheduled_at current) (tg_created_at current) now
                    (tg_deleted_at current) in
     '(spec, at_, secret) ← respec req named reschedule now random;
     let next := mkTrigger (tg_id named) (tg_tenant_id named) (tg_function_id named) (tg_name named)
                   (tg_target named) spec (tg_status named) (tg_status_reason named)
                   (tg_generation named) at_ (tg_last_scheduled_at named) (tg_created_at named)
                   (tg_updated_at named) (tg_deleted_at named) in
     sealed ← seal_opt next secret;
     '(written, s') ← ledger (update_trigger next (tg_generation current) sealed s);
     when! negb written return! Err (changed_concurrently current);;
     Ok (mkWithSecret next secret, s')).

(** The row of a deleted trigger. *)
Definition deleted_trigger (t : Trigger) (now : Timestamp) : Trigger :=
  mkTrigger (tg_id t) (tg_tenant_id t) (tg_function_id t) (tg_name t) (tg_target t) (tg_spec t)
    TriggerStatus.Deleted (tg_status_reason t) (tg_generation t + 1) None (tg_last_scheduled_at t)
    (tg_created_at t) now (Some now).

(** [crates/application/src/services/triggers/mod.rs:672-700 delete] *)
Definition delete_trigger (p : Principal) (function : FunctionId) (id : TriggerId)
    (now : Timestamp) (s : TriggerStore) : result AppError Trigger * TriggerStore :=
  answer s
    (_ ← require_deploy p;
     current ← owned_trigger p function id s;
     let next := deleted_trigger current now in
     '(written, s') ← ledger (update_trigger next (tg_generation current) None s);
     when! negb written return! Err (changed_concurrently current);;
     Ok (next, s')).

(** [crates/application/src/services/triggers/mod.rs:702-712 list_fires] *)
Definition list_fires_of (p : Principal) (function : FunctionId) (id : TriggerId) (limit : nat)
    (s : TriggerStore) : result AppError (list FireRecord) :=
  _ ← require_read p;
  t ← owned_trigger p function id s;
  Ok (list_fires (tg_id t) (Nat.max 1 (Nat.min limit 1000)) s).

(** ** Deliveries *)

(** [crates/application/src/services/triggers/mod.rs:1073-1085 webhook_trigger] *)
Definition webhook_trigger (id : TriggerId) (s : TriggerStore) : result AppError Trigger :=
  match get_trigger id s with
  | Some t =>
      if (trigger_kind t == TriggerKind.Webhook) && (tg_status t != TriggerStatus.Deleted)
      then Ok t else Err (Absent "trigger not found")
  | None => Err (Absent "trigger not found")
  end.

(** [crates/application/src/services/triggers/mod.rs:1260-1278 webhook_replay] *)
Definition webhook_replay (t : Trigger) (event_id : string) (f : FireRecord) (s : TriggerStore)
    : result AppError WebhookAcceptance :=
  match (id ← fr_invocation_id f; st_invocations (lg_store (ts_ledger s)) !! id) with
  | None => Err (Conflicting "the earlier delivery has no invocation")
  | Some inv => Ok (mkWebhookAcceptance (tg_id t) (unwrap_or (fr_event_id f) event_id) inv true)
  end.

(** [now.timestamp()] *)
Definition unix_seconds (now : Timestamp) : Z := now / nanoseconds_per_second.

(** What the checks of a delivery establish: its event id and the digest of its signature. *)
Definition unauthorized (e : VerifyError.t) : AppError :=
  Unauthorized ("webhook verification failed: " +:+ VerifyError.as_str e).

(** [crates/application/src/services/triggers/mod.rs:1125-1170 verify_and_accept (verify)] *)
Definition verify (t : Trigger) (spec : WebhookSpec) (d : WebhookDelivery) (body : string)
    (now : Timestamp) (s : TriggerStore) : result AppError (string * string) :=
  let size := byte_len body in
  when! wh_max_body_bytes spec <? size return! Err (PayloadTooLarge size (wh_max_body_bytes spec));;
  _ ← map_err unauthorized
        (check_timestamp (wd_timestamp d) (unix_seconds now) (wh_tolerance_seconds spec));
  secret ← unseal t s;
  signature_digest ← map_err unauthorized
    (verify_signature (wd_signature d) secret (unwrap_or (wd_timestamp d) "") body);
  when! negb (is_enabled t) return! Err (Gone ("trigger " +:+ tg_id t +:+ " is disabled"));;
  match wd_event_id d with
  | Some e =>
      when! valid_event_id e return! Ok (e, signature_digest);;
      Err (InvalidRequest ("header `" +:+ wh_event_id_header spec +:+ "` must carry an event id of 1..="
             +:+ pretty MAX_EVENT_ID_BYTES +:+ " visible ASCII characters"))
  | None =>
      Err (InvalidRequest ("header `" +:+ wh_event_id_header spec +:+ "` must carry an event id of 1..="
             +:+ pretty MAX_EVENT_ID_BYTES +:+ " visible ASCII characters"))
  end.

(** [crates/application/src/services/triggers/mod.rs:1184-1204 verify_and_accept (payload)] *)
Definition webhook_event (t : Trigger) (event_id : string) (content_type : option string)
    (body : string) : Json :=
  let body := match tk_from_slice k body with
              | Some v => ("body", v)
              | None => if tk_is_utf8 k body then ("body_text", JString body)
                        else ("body_base64", JString (tk_base64 k body))
              end in
  JObject [("source", JString "tachyon.webhook"); ("trigger_id", JString (tg_id t));
           ("trigger_name", JString (tg_name t)); ("event_id", JString event_id);
           ("content_type", match content_type with Some c => JString c | None => JNull end); body].

(** [crates/application/src/services/triggers/mod.rs:1206-1218 verify_and_accept (record)] *)
Definition webhook_fire (t : Trigger) (event_id signature_digest : string) (now : Timestamp)
    : FireRecord :=
  mkFire (tg_id t) (tg_tenant_id t) (event_key event_id) TriggerKind.Webhook None (Some event_id)
    (Some signature_digest) None FireOutcome.Accepted None now.

(** [crates/application/src/services/triggers/mod.rs:1116-1258 verify_and_accept] *)
Definition verify_and_accept (f : FireOutside) (t : Trigger) (d : WebhookDelivery) (body : string)
    (now : Timestamp) (s : TriggerStore) : result AppError WebhookAcceptance * TriggerStore :=
  match tg_spec t with
  | CronTrigger _ => (Err (Absent "trigger not found"), s)
  | WebhookTrigger spec =>
      match verify t spec d body now s with
      | Err e => (Err e, s)
      | Ok (event_id, signature_digest) =>
          match or_else (get_fire (tg_id t) (event_key event_id) s)
                  (fire_by_signature (tg_id t) signature_digest s) with
          | Some fire => (webhook_replay t event_id fire s, s)
          | None =>
              match fo_authorize f with
              | Err e => (Err e, s)
              | Ok _ =>
                  let '(accepted, s') :=
                    accept_for_trigger cfg o c
                      (request k t (webhook_event t event_id (wd_content_type d) body)
                         ("webhook:" +:+ tg_id t +:+ ":" +:+ event_id))
                      (outside_for t f)
                      (mkClaim None (webhook_fire t event_id signature_digest now)) s in
                  match accepted with
                  | Err e => (Err e, s')
                  | Ok (TAccepted a) =>
                      (Ok (mkWebhookAcceptance (tg_id t) event_id (aa_invocation a) (aa_replayed a)), s')
                  | Ok (TAlreadyFired fire) => (webhook_replay t event_id fire s', s')
                  | Ok (TInactive (Some t')) =>
                      if tg_status t' == TriggerStatus.Disabled
                      then (Err (Gone ("trigger " +:+ tg_id t +:+ " is disabled")), s')
                      else (Err (Absent "trigger not found"), s')
                  | Ok (TInactive None) => (Err (Absent "trigger not found"), s')
                  end
              end
          end
      end
  end.

(** [s.contains(t)] *)
Definition contains (t s : string) : bool := is_some (String.index 0 t s).

(** [crates/application/src/services/triggers/mod.rs:1093-1114 receive_webhook] The answer and the
    counter it is counted under. *)
Definition receive_webhook (f : FireOutside) (t : Trigger) (d : WebhookDelivery) (body : string)
    (now : Timestamp) (s : TriggerStore) : (result AppError WebhookAcceptance * string) * TriggerStore :=
  let '(r, s') := verify_and_accept f t d body now s in
  let error e := match e with Ledgers e => from_repo e | _ => e end in
  let label :=
    match r with
    | Ok a => if wa_replayed a then "replayed" else "accepted"
    | Err e =>
        match error e with
        | Unauthorized m => if contains "timestamp" m then "timestamp_refused" else "signature_refused"
        | PayloadTooLarge _ _ => "too_large"
        | InvalidRequest _ => "invalid_event_id"
        | Gone _ => "disabled"
        | Absent _ => "not_found"
        | _ => "refused"
        end
    end in
  ((r, label), s').
End service.
