(* ===== verification/TriggerScenario.v ===== *)
(** * Concrete triggers

    A digest with the laws of [HashLaws], a codec, and a store with one function: the runs that
    show the theorems on triggers at work are evaluated on them. *)

From Stdlib Require Import Ascii.
From S2P Require Import Prelude Ids Functions Invocation Revision Guard Slot Store StoreInv Scenario Retry.
From S2P Require Import Outbox Dispatch LedgerInv AsyncRun AsyncFront AsyncFrontProps.
From S2P Require Import Calendar Cron Gregorian TriggerStore Webhook Triggers TriggerInv TriggerService.

Open Scope string_scope.
Open Scope Z_scope.

(** ** A digest *)

(** The bytes of a text as a number in base 257, of which 32 bytes are kept. *)
Definition text_number (m : string) : N :=
  fold_left (λ acc c, (acc * 257 + N_of_ascii c + 1) mod 2 ^ 256)%N (String.list_ascii_of_string m) 7%N.
Definition toy_digest (m : string) : string :=
  let n := text_number m in
  of_bytes ((λ i, ascii_of_N (N.shiftr n (8 * N.of_nat i) mod 256)) <$> seq 0 32).

Definition hex_digit (n : N) : ascii := ascii_of_N (if (n <? 10)%N then 48 + n else 87 + n)%N.
Definition hex_value (c : ascii) : N :=
  let n := N_of_ascii c in if (n <? 58)%N then (n - 48)%N else (n - 87)%N.
Fixpoint toy_hex (b : string) : string :=
  match b with
  | EmptyString => ""
  | String c b => String (hex_digit (N_of_ascii c / 16)) (String (hex_digit (N_of_ascii c mod 16)) (toy_hex b))
  end.
Fixpoint toy_unhex (s : string) : option string :=
  match s with
  | EmptyString => Some ""
  | String c (String d rest) =>
      if is_hex_byte c && is_hex_byte d
      then String (ascii_of_N (hex_value c * 16 + hex_value d)) <$> toy_unhex rest else None
  | _ => None
  end.

#[global] Instance toy_hashing : Hashing := {
  digest_of := toy_digest; hex_encode := toy_hex; hex_decode := toy_unhex
}.

Lemma toy_hex_byte c :
  is_hex_byte (hex_digit (N_of_ascii c / 16)) && is_hex_byte (hex_digit (N_of_ascii c mod 16)) = true
  ∧ ascii_of_N (hex_value (hex_digit (N_of_ascii c / 16)) * 16 + hex_value (hex_digit (N_of_ascii c mod 16))) = c.
Proof. destruct c as [[] [] [] [] [] [] [] []]; by vm_compute. Qed.

Lemma of_bytes_length l : String.length (of_bytes l) = length l.
Proof. induction l as [|c l IH]; [done|]. cbn. by rewrite <-IH. Qed.

#[global] Instance toy_hash_laws : HashLaws.
Proof.
  split; unfold digest_of, hex_encode, hex_decode, toy_hashing.
  - intros m. unfold toy_digest. by rewrite of_bytes_length, length_fmap, length_seq.
  - intros b. induction b as [|c b IH]; [done|]. cbn [toy_hex String.length]. rewrite IH. lia.
  - intros b. unfold bytes_all. induction b as [|c b IH]; [done|].
    destruct (toy_hex_byte c) as [[H1 H2]%andb_true_iff _]. cbn [toy_hex String.list_ascii_of_string forallb].
    by rewrite H1, H2, IH.
  - intros b. induction b as [|c b IH]; [done|]. destruct (toy_hex_byte c) as [H1 H2].
    cbn [toy_hex toy_unhex]. by rewrite H1, H2, IH.
Qed.

(** ** A codec and the outside *)

#[global] Arguments tk_zone : simpl never.

Definition codec_trg : TriggerCodec :=
  mkTriggerCodec Gregorian (λ _, Ok "{}") (λ _, None) pretty (λ _, true) (λ s, s)
    (λ n, if n == "UTC" then Some (fixed_zone 0) else None)
    (Some (λ plain aad, aad +:+ plain))
    (λ sealed aad, strip_prefix aad sealed) (λ _, "refused").

Definition resolve_a (p : Principal) (f : FunctionId) (a : option AliasName) (r : option RevisionId)
    : result AppError Resolved := Ok resolved_a.

(** Nothing fails; the acceptance names [id] at [now]. *)
Definition outside_trg (id : InvocationId) (now : Timestamp) : FireOutside :=
  mkFireOutside (Ok tt) resolve_a
    (mkOutside false (Ok resolved_a) now id None QueueCondition.Healthy false false false) false false.

(** ** A store with one function *)

Definition state_trg : State :=
  empty_state <| st_functions := {["fn_a" := mkFunction "fn_a" "tn_a" "f" "" 0 0 None None]} |>.
Definition store_trg : TriggerStore :=
  mkTriggerStore (mkLedger state_trg ∅ ∅ ∅ ∅ ∅) ∅ ∅ None.

Lemma store_trg_wf : triggers_wf store_trg.
Proof.
  split; [split|..]; intros *; cbn; rewrite ?lookup_empty; try done.
Qed.

Definition deployer_a : Principal := mkPrincipal "ann" "tn_a" [Role.Deploy].

(** A retention of twice the largest tolerance, as the validation allows. *)
Definition config_trg : TriggersConfig :=
  mkTriggersConfig 1000 100 30 600 100 20 (256 * 1024) 60 60 120 1200 false false.
Lemma config_trg_valid : TriggersConf.validate config_trg = Ok tt.
Proof. by vm_compute. Qed.

Definition create_hook : CreateTriggerRequest :=
  mkCreate "orders" "webhook" true (mkTargetRequest None None) None None.
Definition ulid_a : string := "01arz3ndektsv4rrffq69g5fav".
Definition trg_a : TriggerId := "trg_01arz3ndektsv4rrffq69g5fav".

(** The webhook, its secret, and the store with it. *)
Definition hooked : result AppError TriggerWithSecret * TriggerStore :=
  create cfg0 config_trg codec_trg (λ _, "refused") deployer_a "fn_a" create_hook 0 ulid_a "0123456789abcdef" store_trg.
Definition hook_secret : string :=
  match hooked.1 with Ok ws => unwrap_or (ws_secret ws) "" | Err _ => "" end.
Definition hook_trigger : Trigger :=
  match hooked.1 with
  | Ok ws => ws_trigger ws
  | Err _ => mkTrigger "" "" "" "" (mkTarget None None) (CronTrigger (mkCronSpec "" "" "" Skip))
               TriggerStatus.Deleted None 0 None None 0 0 None
  end.
Definition hook_store : TriggerStore := hooked.2.

Lemma hooked_eq : hooked = (Ok (mkWithSecret hook_trigger (Some hook_secret)), hook_store).
Proof. vm_compute. reflexivity. Qed.

(** A delivery signed at 1000 seconds. *)
Definition delivery_at (event_id : string) : WebhookDelivery :=
  mkDelivery (Some "1000") (Some (sign hook_secret 1000 "{}")) (Some event_id) None.
Definition deliver (id : InvocationId) (event_id : string) (now : Timestamp) (s : TriggerStore)
    : result AppError WebhookAcceptance * TriggerStore :=
  verify_and_accept cfg0 codec_bits default_async_config codec_trg (outside_trg id now) hook_trigger
    (delivery_at event_id) "{}" now s.

(** ** A cron trigger *)

Definition create_cron : CreateTriggerRequest :=
  mkCreate "every minute" "cron" true (mkTargetRequest None None)
    (Some (mkCronRequest "* * * * *" "UTC" "{}" RunOnce)) None.

Definition croned : result AppError TriggerWithSecret * TriggerStore :=
  create cfg0 config_trg codec_trg (λ _, "refused") deployer_a "fn_a" create_cron 0 ulid_a "" store_trg.
Definition cron_store : TriggerStore := croned.2.
Definition trigger_of (r : result AppError TriggerWithSecret) : Trigger :=
  match r with Ok ws => ws_trigger ws | Err _ => hook_trigger end.
Definition cron_trigger : Trigger := trigger_of croned.1.
Definition cron_spec : CronSpec := mkCronSpec "* * * * *" "UTC" "{}" RunOnce.

(** What the fires of a pass at 190 seconds meet: the second one finds the queue full. *)
Definition outs_trg (i : nat) : FireOutside :=
  match i with
  | 1%nat => mkFireOutside (Err (AsyncRefused AsyncRefusal.QueueFull "full")) resolve_a
               (fo_out (outside_trg "inv_y" (seconds 190))) false false
  | _ => outside_trg "inv_x" (seconds 190)
  end.
Definition cron_pass : SchedulerReport * TriggerStore :=
  process_cron_trigger cfg0 codec_bits default_async_config config_trg codec_trg outs_trg cron_trigger
    (seconds 190) empty_report cron_store.
