(* ===== verification/TriggerRun.v ===== *)
(** * Triggers: the services as runs of transactions

    What the acceptance of a fire writes, and that a fire, the fires of a trigger, a pass of the
    scheduler, a delivery and every request of the administration leave the store a run of
    transactions leaves, with the purges they make named. *)

From S2P Require Import Prelude Ids Functions Invocation Revision Guard Slot Store StoreInv Retry.
From S2P Require Import Outbox Dispatch LedgerInv AsyncRun AsyncFront AsyncFrontProps.
From S2P Require Import Calendar Cron TriggerStore Webhook Triggers TriggerInv TriggerService.

Open Scope string_scope.
Open Scope Z_scope.

(** A transaction of a service that purges nothing. *)
Definition quiet_cmd (c : tcmd) : Prop :=
  tcmd_ok c ∧ match c with TPurge _ _ => False | _ => True end.

(** One that may purge fires created before the given times. *)
Definition purging_cmd (webhook_before cron_before : Timestamp) (c : tcmd) : Prop :=
  tcmd_ok c ∧ match c with TPurge wb cb => wb ≤ webhook_before ∧ cb ≤ cron_before | _ => True end.

Lemma quiet_ok c : quiet_cmd c → tcmd_ok c.
Proof. by intros [? _]. Qed.
Lemma purging_ok wb cb c : purging_cmd wb cb c → tcmd_ok c.
Proof. by intros [? _]. Qed.
Lemma quiet_purging wb cb c : quiet_cmd c → purging_cmd wb cb c.
Proof. by intros [? ?]; split; [|destruct c]. Qed.
#[export] Hint Resolve quiet_ok purging_ok quiet_purging : tsls.

Lemma quiet_keeps f c : quiet_cmd c → keeps f c.
Proof. by intros [_ ?]; destruct c. Qed.

(** A fire as recent as the purges go is kept. *)
Lemma purging_keeps wb cb f c :
  match fr_kind f with TriggerKind.Cron => cb | TriggerKind.Webhook => wb end ≤ fr_created_at f →
  purging_cmd wb cb c → keeps f c.
Proof.
  intros Hle [_ Hc]. destruct c; cbn; try done. unfold outdated. destruct (fr_kind f); lia.
Qed.

(** ** Acceptance *)

(** The claim as it is committed: it names the new invocation. *)
Definition named (claim : FireClaim) (id : InvocationId) : FireClaim :=
  mkClaim (fc_expected_generation claim) (fc_record claim <| fr_invocation_id := Some id |>).

(** A fire recorded under the key or the signature of the claim. *)
Definition known (claim : FireClaim) (s : TriggerStore) (f : FireRecord) : Prop :=
  get_fire (fr_trigger_id (fc_record claim)) (fr_fire_key (fc_record claim)) s = Some f ∨
  ∃ d, fr_signature_digest (fc_record claim) = Some d
    ∧ fire_by_signature (fr_trigger_id (fc_record claim)) d s = Some f.

(** What an acceptance of a fire committed. *)
Record commits (cfg : StoreConfig) (o : Codec) (c : InvokeAsyncConfig) (q : InvokeAsyncRequest)
    (out : Outside) (claim : FireClaim) (inv : Invocation) (input : AsyncInput)
    (event : OutboxEvent) (s s' : TriggerStore) : Prop := {
  cm_prepared : ∃ bytes resolved, prepared o q out bytes resolved inv input event;
  cm_fired : fired inv input event (named claim (os_id out)) s s';
  cm_run : s' = run_tcmd cfg (TFire inv input event (backlog_limits c) (named claim (os_id out)) false) s
}.

Lemma prepare_Replayed cfg o c q out l a :
  prepare cfg o c q out l = Ok (Replayed a) → aa_replayed a = true.
Proof.
  unfold prepare. intros H. apply result_bind_Ok in H as (u & _ & H). pass H.
  apply result_bind_Ok in H as (resolved & _ & H). apply result_bind_Ok in H as (bytes & _ & H).
  pass H. pass H. apply result_bind_Ok in H as (inv & _ & H).
  destruct (k ← rq_idempotency_key q; _) as [[key b]|].
  - apply result_bind_Ok in H as (a' & Ha & [= <-]). unfold replay in Ha. pass Ha.
    destruct (_ !! _); [|done]. pass Ha. by injection Ha as <-.
  - destruct (backlog_refusal _ _ _ _ _); [done|].
    apply result_bind_Ok in H as (body & _ & H). by pass H.
Qed.

Lemma replay_replayed key digest b l a : replay key digest b l = Ok a → aa_replayed a = true.
Proof.
  unfold replay. intros H. pass H. destruct (_ !! _); [|done]. pass H. by injection H as <-.
Qed.

(** An earlier acceptance answers the request: its idempotency key is bound, and the binding not
    expired, to an asynchronous invocation of the same payload. The two lookups name the tenant of
    the function and that of the caller. *)
Record answered (o : Codec) (q : InvokeAsyncRequest) (out : Outside) (key payload : string)
    (inv : Invocation) (l : Ledger) : Prop := {
  an_key : rq_idempotency_key q = Some key;
  an_payload : rq_payload q = Ok payload;
  an_bound : ∃ resolved tenant b, os_resolved out = Ok resolved
    ∧ (tenant = pr_tenant_id (rq_principal q) ∨ tenant = fn_tenant_id (re_function resolved))
    ∧ live_binding (lg_store l) (tenant, fn_id (re_function resolved), key) (os_now out) = Some b
    ∧ bind_input_digest b = sha256 o payload
    ∧ invs l !! bind_invocation_id b = Some inv;
  an_mode : inv_mode inv = Async
}.

Lemma replay_Ok key digest b l a :
  replay key digest b l = Ok a →
  bind_input_digest b = digest
  ∧ ∃ inv, invs l !! bind_invocation_id b = Some inv ∧ inv_mode inv = Async.
Proof.
  unfold replay. intros H. pass H. destruct (_ !! _) as [inv|] eqn:Hi; [|done]. pass H. bools. eauto.
Qed.

Lemma prepare_answered cfg o c q out l a :
  prepare cfg o c q out l = Ok (Replayed a) → ∃ key payload inv, answered o q out key payload inv l.
Proof.
  unfold prepare. intros H. apply result_bind_Ok in H as (u & _ & H). pass H.
  apply result_bind_Ok in H as (resolved & Hr & H). apply result_bind_Ok in H as (bytes & Hb & H).
  apply map_err_Ok in Hb. pass H. pass H. apply result_bind_Ok in H as (inv & _ & H).
  destruct (rq_idempotency_key q) as [key|] eqn:Hk; cbn in H.
  - destruct (IdempotencyRepo.lookup _ _ _ _ _) as [b|] eqn:Hl; cbn in H.
    + apply result_bind_Ok in H as (a' & Ha & _). apply replay_Ok in Ha as (Hd & inv' & Hi & Hm).
      exists key, bytes, inv'. split; [done..| |done]. exists resolved, (fn_tenant_id (re_function resolved)), b. split_and!; eauto.
    + destruct (backlog_refusal _ _ _ _ _); [done|]. apply result_bind_Ok in H as (body & _ & H). by pass H.
  - destruct (backlog_refusal _ _ _ _ _); [done|]. apply result_bind_Ok in H as (body & _ & H). by pass H.
Qed.

Lemma existing_answered cfg o c q out l inv input event limits claim b1 s s' b a :
  prepare cfg o c q out l = Ok (Fresh_ inv input event) →
  accept_trigger_fire cfg inv input event limits claim b1 s = Ok (TriggerAcceptOutcome.Existing b, s') →
  replay (unwrap_or (rq_idempotency_key q) "") (inv_input_digest inv) b (ts_ledger s) = Ok a →
  ∃ key payload inv', answered o q out key payload inv' (ts_ledger s).
Proof.
  intros (bytes & resolved & Hp)%prepare_Fresh Ha (Hd & inv' & Hi & Hm)%replay_Ok.
  unfold accept_trigger_fire in Ha. apply result_bind_Ok in Ha as (u & _ & Ha). pass Ha.
  destruct (negb (fire_active _ _ _)); [done|]. destruct (or_else _ _); [done|].
  apply result_bind_Ok in Ha as ([ao l1] & Hacc & Ha).
  destruct ao as [|b2|st]; [|injection Ha as -> ->|done].
  { destruct (insert_fire _ _) as [[] s2]; cbn in Ha; [|done]. by pass Ha. }
  destruct Hp as [Hpay Hres _ Hten [= Hfn _] [= _ _ Hnow] Hkey Hdig _ _ _ _].
  unfold accept_in, IdempotencyRepo.key_of in Hacc. rewrite Hkey in Hacc.
  destruct (rq_idempotency_key q) as [key|] eqn:Hk; cbn in Hacc.
  - destruct (live_binding _ _ _) as [b3|] eqn:Hl.
    + injection Hacc as -> _. exists key, bytes, inv'. split; [done..| |done].
      exists resolved, (inv_tenant_id inv), b. rewrite <-Hfn, <-Hnow, <-Hdig. split_and!; auto.
    + pass Hacc. by steps.
  - pass Hacc. by steps.
Qed.

(** An acceptance changes nothing and answers an earlier one, or commits all its rows. *)
Lemma accept_for_trigger_spec cfg o c q out claim s r s' :
  accept_for_trigger cfg o c q out claim s = (r, s') →
  s' = s ∧ (∀ a, r = Ok (TAccepted a) → aa_replayed a = true)
         ∧ (∀ f, r = Ok (TAlreadyFired f) → known claim s f)
         ∧ (∀ t, r = Ok (TInactive t) → t = get_trigger (fr_trigger_id (fc_record claim)) s) ∨
  ∃ inv input event, commits cfg o c q out claim inv input event s s' ∧
    (r = Ok (TAccepted (mkAcceptance inv (storage input) false))
     ∨ os_fail_after_commit out = true ∧ ∃ m, r = Err (Platform m)).
Proof.
  unfold accept_for_trigger.
  destruct (prepare _ _ _ _ _ _) as [[a|inv input event]|e] eqn:Hp.
  - intros [= <- <-]. left. split_and!; try done. intros a' [= ->]. by apply prepare_Replayed in Hp.
  - fold (named claim (os_id out)).
    destruct (accept_trigger_fire _ _ _ _ _ _ _ _) as [[ao s1]|e] eqn:Ha.
    2: { intros [= <- <-]. by left. }
    pose proof Ha as Ha0. apply accept_trigger_fire_Ok in Ha0 as [[-> Hne]|(-> & Hb & Hf & Hl)].
    + intros H. left.
      assert (Hk : ∀ f, ao = TriggerAcceptOutcome.AlreadyFired f → known claim s f).
      { intros f ->. unfold accept_trigger_fire in Ha. apply result_bind_Ok in Ha as (u & _ & Ha).
        pass Ha. destruct (negb (fire_active _ _ _)); [by injection Ha|].
        destruct (or_else _ _) as [g|] eqn:Hg; [injection Ha as ->|].
        2: { apply result_bind_Ok in Ha as ([[] l1] & _ & Ha); try (injection Ha; done).
             destruct (insert_fire _ _) as [[] s2]; cbn in Ha; [|done]. by pass Ha. }
        unfold known. cbn in Hg |- *.
        destruct (get_fire _ _ s); cbn in Hg; [by left|right].
        destruct (fr_signature_digest _) as [d|]; [|done]. cbn in Hg. eauto. }
      assert (Hi : ∀ t, ao = TriggerAcceptOutcome.Inactive t →
                t = get_trigger (fr_trigger_id (fc_record claim)) s).
      { intros t ->. unfold accept_trigger_fire in Ha. apply result_bind_Ok in Ha as (u & _ & Ha).
        pass Ha. destruct (negb (fire_active _ _ _)); [by injection Ha as <-|].
        destruct (or_else _ _); [by injection Ha|].
        apply result_bind_Ok in Ha as ([[] l1] & _ & Ha); try (injection Ha; done).
        destruct (insert_fire _ _) as [[] s2]; cbn in Ha; [|done]. by pass Ha. }
      destruct ao; [done|..]; injection H as <- <-.
      * split_and!; try done. intros f' [= <-]. by apply Hk.
      * split_and!; try done. intros t [= <-]. by apply Hi.
      * split_and!; try done; intros a Hr; destruct (replay _ _ _ _) eqn:Hre; cbn in Hr; try done.
        injection Hr as <-. by apply replay_replayed in Hre.
      * by split_and!.
    + destruct (os_fail_after_commit out) eqn:Hc; intros [= <- <-]; right; exists inv, input, event.
      all: split; [|by eauto].
      all: apply prepare_Fresh in Hp; split; [done|done|].
      all: cbn [run_tcmd]; unfold after_tx; rewrite Hb in Ha; by rewrite Ha.
  - intros [= <- <-]. by left.
Qed.

(** An acceptance that says its fire was taken before found its record or an earlier answer. *)
Lemma accept_for_trigger_old cfg o c q out claim s r s' :
  accept_for_trigger cfg o c q out claim s = (Ok r, s') →
  match r with
  | TAccepted a => aa_replayed a = true → ∃ key payload inv, answered o q out key payload inv (ts_ledger s)
  | TAlreadyFired f => known claim s f
  | TInactive _ => True
  end.
Proof.
  intros Ha. pose proof (accept_for_trigger_spec _ _ _ _ _ _ _ _ _ Ha) as Hs.
  destruct r as [a|f|t]; [|by destruct Hs as [(_ & _ & Hk & _)|(? & ? & ? & _ & [[=]|(_ & m & [=])])]; auto|done].
  intros Hrep. unfold accept_for_trigger in Ha.
  destruct (prepare _ _ _ _ _ _) as [[a'|inv input event]|e] eqn:Hp; [|
    |done]; [by eapply prepare_answered|].
  destruct (accept_trigger_fire _ _ _ _ _ _ _ _) as [[ao s1]|e] eqn:Hf; [|done].
  destruct ao as [|g|cur|b|st]; try done.
  - destruct (os_fail_after_commit out); [done|]. by injection Ha as <- _.
  - destruct (replay _ _ _ _) as [a1|] eqn:Hr; [|done].
    apply accept_trigger_fire_Ok in Hf as Hs1. destruct Hs1 as [[-> _]|([=] & _)].
    by eapply existing_answered.
Qed.

Lemma commits_run cfg o c q out claim inv input event s s' :
  commits cfg o c q out claim inv input event s s' → trigger_run cfg quiet_cmd s s'.
Proof.
  intros [(bytes & resolved & Hp) _ ->]. apply trun_one. split; [|done]. cbn. by destruct Hp.
Qed.

(** The row a committed fire leaves. *)
Lemma commits_row cfg o c q out claim inv input event s s' :
  commits cfg o c q out claim inv input event s s' →
  get_fire (fr_trigger_id (fc_record claim)) (fr_fire_key (fc_record claim)) s = None ∧
  ts_fires s' = <[(fr_trigger_id (fc_record claim), fr_fire_key (fc_record claim)) :=
    fire_row (fc_record claim <| fr_invocation_id := Some (inv_id inv) |>)]> (ts_fires s).
Proof.
  intros [(bytes & resolved & Hp) Hf _]. split; [by apply Hf|].
  rewrite (fd_fires _ _ _ _ _ _ Hf). cbn. by rewrite (pd_id _ _ _ _ _ _ _ _ Hp).
Qed.

(** ** A scheduled time *)

Section scheduler.
Context `{Calendar} (cfg : StoreConfig) (o : Codec) (c : InvokeAsyncConfig) (tc : TriggersConfig).
Context (k : TriggerCodec).

Abbreviation key_of at_ := (cron_key (tk_utc_text k) at_).

(** What the acceptance of a scheduled time is asked and meets. *)
Definition cron_request (t : Trigger) (spec : CronSpec) (at_ : Timestamp) : InvokeAsyncRequest :=
  request k t (cron_event t spec (tk_utc_text k at_))
    ("cron:" +:+ tg_id t +:+ ":" +:+ tk_utc_text k at_).

(** A fire of a scheduled time changes nothing, or commits an acceptance, or records why it was
    refused for good. *)
Inductive fire_effect (f : FireOutside) (t : Trigger) (spec : CronSpec) (at_ now : Timestamp)
    (s : TriggerStore) : Fire.t → TriggerStore → Prop :=
| fe_none r : r ≠ Fire.Done → r ≠ Fire.Refused → fire_effect f t spec at_ now s r s
| fe_done inv input event s' r :
    commits cfg o c (cron_request t spec at_) (outside_for t f)
      (mkClaim (Some (tg_generation t)) (cron_fire k t at_ now)) inv input event s s' →
    r = Fire.Done ∨ r = Fire.Deferred ∧ os_fail_after_commit (fo_out f) = true →
    fire_effect f t spec at_ now s r s'
| fe_refused e s1 s' r :
    s1 = run_tcmd cfg (TRecord (cron_fire k t at_ now <| fr_outcome := FireOutcome.Refused |>
                                  <| fr_reason := Some (tk_reason k e) |>)) s →
    is_transient e = false → get_fire (tg_id t) (key_of at_) s = None →
    (r = Fire.Refused ∧ s' = s1 ∨
     r = Fire.Inactive ∧ s' = disable_for t REASON_FUNCTION_DELETED now s1) →
    fire_effect f t spec at_ now s r s'.

Lemma fire_cron_effect f t spec at_ now s r s' :
  fire_cron cfg o c k f t spec at_ now s = (r, s') → fire_effect f t spec at_ now s r s'.
Proof.
  unfold fire_cron. destruct (fo_read_fails f); [intros [= <- <-]; by constructor|].
  destruct (get_fire _ _ _) as [old|] eqn:Hg; cbn; [intros [= <- <-]; by constructor|].
  assert (Hrefuse : ∀ e s2 r s', is_transient e = false → s2 = s →
    (match e with
     | FunctionDeleted _ =>
         (Fire.Inactive, disable_for t REASON_FUNCTION_DELETED now
            (insert_fire (cron_fire k t at_ now <| fr_outcome := FireOutcome.Refused |>
                            <| fr_reason := Some (tk_reason k e) |>) s2).2)
     | _ => (Fire.Refused, (insert_fire (cron_fire k t at_ now <| fr_outcome := FireOutcome.Refused |>
                            <| fr_reason := Some (tk_reason k e) |>) s2).2)
     end = (r, s')) → fire_effect f t spec at_ now s r s').
  { intros e s2 r1 s1 He -> Hr. eapply (fe_refused _ _ _ _ _ _ e); [done|done|done|].
    replace (run_tcmd cfg (TRecord (cron_fire k t at_ now <| fr_outcome := FireOutcome.Refused |>
                                  <| fr_reason := Some (tk_reason k e) |>)) s)
      with (insert_fire (cron_fire k t at_ now <| fr_outcome := FireOutcome.Refused |>
                            <| fr_reason := Some (tk_reason k e) |>) s).2
      by (cbn [run_tcmd]; unfold after_tx, record_fire; by destruct (insert_fire _ s)).
    destruct e; injection Hr as <- <-; eauto. }
  assert (Herr : ∀ e s2 r s', s2 = s →
    (if is_transient e then (Fire.Deferred, s2)
     else if fo_record_fails f then (Fire.Deferred, s2)
     else match e with
     | FunctionDeleted _ =>
         (Fire.Inactive, disable_for t REASON_FUNCTION_DELETED now
            (insert_fire (cron_fire k t at_ now <| fr_outcome := FireOutcome.Refused |>
                            <| fr_reason := Some (tk_reason k e) |>) s2).2)
     | _ => (Fire.Refused, (insert_fire (cron_fire k t at_ now <| fr_outcome := FireOutcome.Refused |>
                            <| fr_reason := Some (tk_reason k e) |>) s2).2)
     end) = (r, s') → fire_effect f t spec at_ now s r s').
  { intros e s2 r1 s1 ->. destruct (is_transient e) eqn:He; [intros [= <- <-]; by constructor|].
    destruct (fo_record_fails f); [intros [= <- <-]; by constructor|]. by apply Hrefuse. }
  destruct (fo_authorize f) as [u|e]; [|by apply Herr].
  destruct (accept_for_trigger _ _ _ _ _ _ _) as [answer s2] eqn:Ha.
  apply accept_for_trigger_spec in Ha as [(-> & Hr & _)|(inv & input & event & Hc & Hr)].
  - destruct answer as [[a|g|t']|e]; [| | |by apply Herr].
    + rewrite (Hr a) by done. intros [= <- <-]. by constructor.
    + intros [= <- <-]. by constructor.
    + intros [= <- <-]. by constructor.
  - destruct Hr as [->|(Hl & m & ->)]; cbn; intros [= <- <-]; eapply fe_done; eauto.
Qed.

Lemma disable_run t reason now s :
  trigger_run cfg quiet_cmd s (disable_for t reason now s).
Proof.
  unfold disable_for. destruct (update_trigger _ _ _ s) as [[b s']|] eqn:Hu; [|constructor].
  replace s' with (run_tcmd cfg (TUpdate (mkTrigger (tg_id t) (tg_tenant_id t) (tg_function_id t)
    (tg_name t) (tg_target t) (tg_spec t) TriggerStatus.Disabled (Some reason) (tg_generation t + 1)
    None (tg_last_scheduled_at t) (tg_created_at t) now (tg_deleted_at t)) (tg_generation t) None) s)
    by (cbn [run_tcmd]; unfold after_tx; by rewrite Hu).
  by apply trun_one.
Qed.

Lemma cursor_run id g next last s b s' :
  advance_cron_cursor id g next last s = Ok (b, s') → trigger_run cfg quiet_cmd s s'.
Proof.
  intros Ha. replace s' with (run_tcmd cfg (TCursor id g next last) s)
    by (cbn [run_tcmd]; unfold after_tx; by rewrite Ha). by apply trun_one.
Qed.

Lemma fire_effect_run f t spec at_ now s r s' :
  fire_effect f t spec at_ now s r s' → trigger_run cfg quiet_cmd s s'.
Proof.
  intros [r0 _ _|inv input event s1 r0 Hc _|e s1 s2 r0 -> _ _ [[_ ->]|[_ ->]]].
  - constructor.
  - by eapply commits_run.
  - by apply trun_one.
  - eapply trun_trans; [|apply disable_run]. by apply trun_one.
Qed.

Lemma fire_cron_run f t spec at_ now s r s' :
  fire_cron cfg o c k f t spec at_ now s = (r, s') → trigger_run cfg quiet_cmd s s'.
Proof. intros H0. by eapply fire_effect_run, fire_cron_effect. Qed.

Lemma fire_all_run outs t spec now times : ∀ i last report s out s',
  fire_all cfg o c k outs i t spec now times last report s = (out, s') →
  trigger_run cfg quiet_cmd s s'.
Proof.
  induction times as [|at_ times IH]; intros i last report s out s'; cbn; [intros [= _ <-]; constructor|].
  destruct (fire_cron _ _ _ _ _ _ _ _ _ _) as [r s1] eqn:Hf. apply fire_cron_run in Hf.
  destruct r; intros Hg; try (eapply trun_trans; [exact Hf|by eapply IH]).
  - by injection Hg as _ <-.
  - injection Hg as _ <-. destruct (advance_cron_cursor _ _ _ _ _) as [[b s2]|] eqn:Ha; [|done].
    eapply trun_trans; [exact Hf|]. by eapply cursor_run.
Qed.

Lemma process_run outs t now report s report' s' :
  process_cron_trigger cfg o c tc k outs t now report s = (report', s') →
  trigger_run cfg quiet_cmd s s'.
Proof.
  unfold process_cron_trigger. destruct (tg_spec t) as [spec|]; [|intros [= _ <-]; constructor].
  destruct (parse_schedule _) as [schedule|]; [|intros [= _ <-]; constructor].
  destruct (parse_timezone _ _) as [tz|]; [|intros [= _ <-]; constructor].
  destruct (tg_next_fire_at t) as [cursor|]; [|intros [= _ <-]; constructor]. cbv zeta.
  destruct (fire_all _ _ _ _ _ _ _ _ _ _ _ _ _) as [[fired report1] s1] eqn:Hf.
  apply fire_all_run in Hf. destruct fired as [last|]; [|by intros [= _ <-]].
  destruct (next_after _ _) as [next|]; [|by intros [= _ <-]].
  destruct (advance_cron_cursor _ _ _ _ _) as [[[] s2]|] eqn:Ha; intros [= _ <-]; [| |done].
  all: eapply trun_trans; [exact Hf|by eapply cursor_run].
Qed.

Lemma process_all_run outs due now : ∀ i report s report' s',
  process_all cfg o c tc k outs i due now report s = (report', s') → trigger_run cfg quiet_cmd s s'.
Proof.
  induction due as [|t due IH]; intros i report s report' s'; cbn; [intros [= _ <-]; constructor|].
  destruct (process_cron_trigger _ _ _ _ _ _ _ _ _ _) as [r1 s1] eqn:Hp. intros Hr.
  eapply trun_trans; [by eapply process_run|by eapply IH].
Qed.

(** A pass purges no fire younger than the retentions. *)
Lemma scheduler_pass_run fenced owner ttl now outs last_purge s out s' :
  scheduler_pass cfg o c tc k fenced owner ttl now outs last_purge s = (out, s') →
  trigger_run cfg (purging_cmd (now - TriggersConf.webhook_dedup_retention tc)
                               (now - TriggersConf.fire_retention tc)) s s'.
Proof.
  unfold scheduler_pass. destruct fenced; [intros [= _ <-]; constructor|].
  destruct (acquire_scheduler_lease _ _ _ _) as [[b s1]|] eqn:Hl; [|intros [= _ <-]; constructor].
  destruct b; [|intros [= _ <-]; constructor].
  replace s1 with (run_tcmd cfg (TAcquire owner now ttl) s)
    by (cbn [run_tcmd]; unfold after_tx; by rewrite Hl).
  destruct (process_all _ _ _ _ _ _ _ _ _ _ _) as [report2 s2] eqn:Hp. apply process_all_run in Hp.
  destruct (purge_if_due _ _ _ _) as [[purged last] s3] eqn:Hu. intros [= _ <-].
  eapply (trun_trans _ _ _ (run_tcmd cfg (TAcquire owner now ttl) s)); [by apply trun_one|].
  eapply trun_trans; [eauto using trun_weaken with tsls|].
  unfold purge_if_due in Hu. destruct (is_some_and _ _); [injection Hu as _ _ <-; constructor|].
  cbn in Hu. injection Hu as _ _ <-.
  by apply (trun_one cfg _ s2 (TPurge (now - TriggersConf.webhook_dedup_retention tc)
                                 (now - TriggersConf.fire_retention tc))).
Qed.
End scheduler.

(** ** Requests and deliveries *)

(** Follows [?], early returns and the pairs they bind to the end of a hypothesis [_ = Ok _]. *)
Ltac follow :=
  repeat (steps; match goal with
  | H : (if _ then Err _ else _) = Ok _ |- _ => pass H
  | H : (let '(_, _) := ?p in _) = Ok _ |- _ => destruct p
  end); steps.

Lemma answer_Ok {A} s (r : result AppError (A * TriggerStore)) a s' :
  answer s r = (Ok a, s') → r = Ok (a, s').
Proof. by destruct r as [[a' s1]|]; cbn; intros [= <- <-]. Qed.

Lemma answer_Err {A} s (r : result AppError (A * TriggerStore)) e s' :
  answer s r = (Err e, s') → s' = s.
Proof. by destruct r as [[a' s1]|]; cbn; intros [= <-]. Qed.

Section requests.
Context `{Calendar, Hashing} (cfg : StoreConfig) (o : Codec) (c : InvokeAsyncConfig).
Context (tc : TriggersConfig) (k : TriggerCodec) (show : DomainError → string).

Lemma create_run p function req now ulid random s r s' :
  create cfg tc k show p function req now ulid random s = (r, s') → trigger_run cfg quiet_cmd s s'.
Proof.
  destruct r as [a|e]; [|by intros ->%answer_Err; constructor].
  unfold create. intros Hr%answer_Ok. follow.
  match goal with H : ledger (insert_trigger ?t ?sealed ?max s) = _ |- _ =>
    apply map_err_Ok in H; replace s' with (run_tcmd cfg (TInsert t sealed max) s)
      by (cbn [run_tcmd]; unfold after_tx; by rewrite H) end.
  apply trun_one. split; [|done]. cbn. unfold not_deleted. cbn. by destruct (ct_enabled req).
Qed.

(** A change that answers wrote one row. *)
Lemma update_trigger_run t g sealed s b s' :
  ledger (update_trigger t g sealed s) = Ok (b, s') → trigger_run cfg quiet_cmd s s'.
Proof.
  intros H1%map_err_Ok. replace s' with (run_tcmd cfg (TUpdate t g sealed) s)
    by (cbn [run_tcmd]; unfold after_tx; by rewrite H1). by apply trun_one.
Qed.

Lemma update_run p function id req now random s r s' :
  update cfg tc k show p function id req now random s = (r, s') → trigger_run cfg quiet_cmd s s'.
Proof.
  destruct r as [a|e]; [|by intros ->%answer_Err; constructor].
  unfold update. intros Hr%answer_Ok. follow. by eapply update_trigger_run.
Qed.

Lemma delete_run p function id now s r s' :
  delete_trigger p function id now s = (r, s') → trigger_run cfg quiet_cmd s s'.
Proof.
  destruct r as [a|e]; [|by intros ->%answer_Err; constructor].
  unfold delete_trigger. intros Hr%answer_Ok. follow. by eapply update_trigger_run.
Qed.
End requests.
