(* ===== verification/TriggerProps.v ===== *)
(** * What the cron scheduler guarantees

    The times a pass fires are exactly those of the schedule, late ones dropped as the policy
    says; a scheduled time starts at most one invocation over any run of any number of gateways;
    and a pass loses no time. *)

From S2P Require Import Prelude Ids Functions Invocation Revision Guard Slot Store StoreInv Retry.
From S2P Require Import Outbox Dispatch LedgerInv AsyncRun AsyncFront AsyncFrontProps.
From S2P Require Import Calendar Cron CronProps TriggerStore Webhook Triggers TriggerInv TriggerService TriggerRun.

Open Scope string_scope.
Open Scope Z_scope.

(** ** The times of a pass *)

Lemma ascending_app a l l' :
  ascending a (l ++ l')%list ↔ ascending a l ∧ ascending (last_of a l) l'.
Proof.
  revert a. induction l as [|t l IH]; intros a; cbn; [by unfold last_of; cbn; tauto|].
  rewrite IH, last_of_cons. tauto.
Qed.

Lemma last_of_snoc a l t : last_of a (l ++ [t])%list = t.
Proof. unfold last_of. by rewrite last_snoc. Qed.

Lemma last_of_elem a l l' : l' ≠ [] → last_of a (l ++ l')%list ∈ l'.
Proof.
  destruct l' as [|t k _] using rev_ind; [done|]. intros _. rewrite app_assoc, last_of_snoc.
  apply elem_of_app. right. by left.
Qed.

(** The longest catch-up is less than the turns of the scan, in nanoseconds. *)
Lemma catchup_bound tc : TriggersConf.max_catchup tc ≤ 2 ^ 84.
Proof.
  unfold TriggersConf.max_catchup, TriggersConf.secs, seconds, nanoseconds_per_second.
  change (i64_max / 1000) with 9223372036854775. lia.
Qed.

Section due.
Context `{CalendarLaws} {tz : TimeZone} {tz_laws : ZoneLaws} (tc : TriggersConfig).
Context (schedule : CronSchedule) (now : Timestamp).

Abbreviation grace_start := (now - TriggersConf.grace tc).

(** Where the scan of the times after [from] stands: [dropped] are the late times it let go. *)
Record scanned (keep : nat) (from : Timestamp) (dropped : list Timestamp) (n : Scan) : Prop := {
  sd_order : ascending from (dropped ++ sn_late n ++ sn_on_time n)%list;
  sd_at : sn_at n = last_of from (dropped ++ sn_late n ++ sn_on_time n)%list;
  sd_fires : ∀ t, t ∈ (dropped ++ sn_late n ++ sn_on_time n)%list → fires_at schedule t ∧ t ≤ now;
  sd_late : ∀ t, t ∈ (dropped ++ sn_late n)%list → t < grace_start;
  sd_on_time : ∀ t, t ∈ sn_on_time n → grace_start ≤ t;
  sd_total : sn_late_total n = (length dropped + length (sn_late n))%nat;
  sd_kept : length (sn_late n) = Nat.min keep (sn_late_total n);
  sd_all : ∀ u, fires_at schedule u → from < u ≤ sn_at n →
    u ∈ (dropped ++ sn_late n ++ sn_on_time n)%list
}.

Lemma scan_start keep from : scanned keep from [] (mkScan from [] 0 []).
Proof.
  split; cbn; try done; try (intros * []%not_elem_of_nil); try lia.
Qed.

(** A time later than the scan joins the end of the list. *)
Lemma scanned_next keep from dropped n t :
  scanned keep from dropped n → next_after schedule (sn_at n) = Some t →
  ∀ u, fires_at schedule u → from < u ≤ t →
    u ∈ (dropped ++ sn_late n ++ sn_on_time n ++ [t])%list.
Proof.
  intros Hs Hn u Hu Hb. apply next_after_is_first in Hn as (_ & _ & Hmin).
  rewrite !app_assoc, <-(app_assoc dropped). apply elem_of_app.
  destruct (Z.le_gt_cases u (sn_at n)); [left; apply Hs; [done|lia]|right].
  specialize (Hmin u Hu ltac:(lia)). assert (u = t) as -> by lia. by left.
Qed.

Lemma scan_turn keep from dropped n :
  scanned keep from dropped n →
  match scan_step schedule now grace_start keep n with
  | inl n' => (∃ dropped', scanned keep from dropped' n') ∧ sn_at n < sn_at n' ≤ now
  | inr n' => n' = n ∧ (next_after schedule (sn_at n) = None
                        ∨ ∀ u, fires_at schedule u → sn_at n < u → now < u)
  end.
Proof.
  intros Hs. unfold scan_step. destruct (next_after schedule (sn_at n)) as [t|] eqn:Hn; [|by auto].
  pose proof (next_after_is_first schedule _ _ Hn) as (Hf & Hlt & Hmin).
  pose proof (scanned_next _ _ _ _ _ Hs Hn) as Hall.
  destruct (now <? t) eqn:Hnow; bools.
  { split; [done|]. right. intros u Hu Hb. specialize (Hmin u Hu Hb). lia. }
  destruct Hs as [Hord Hat Hfi Hla Hon Htot Hkept _].
  assert (Hasc : ascending from (dropped ++ sn_late n ++ sn_on_time n ++ [t])%list).
  { rewrite !app_assoc, <-(app_assoc dropped), ascending_app, <-Hat. by split. }
  assert (Hfi' : ∀ u, u ∈ (dropped ++ sn_late n ++ sn_on_time n ++ [t])%list →
            fires_at schedule u ∧ u ≤ now).
  { intros u. rewrite !app_assoc, <-(app_assoc dropped).
    intros [?| ->%list_elem_of_singleton]%elem_of_app; [by apply Hfi|done]. }
  destruct (t <? now - TriggersConf.grace tc) eqn:Hg; bools; cbn; (split; [|lia]).
  - assert (sn_on_time n = []) as Ho.
    { destruct (sn_on_time n) as [|u l] eqn:Ho; [done|exfalso].
      assert (last_of from ((dropped ++ sn_late n) ++ u :: l)%list ∈ u :: l)%list as Hin
        by by apply last_of_elem.
      rewrite <-app_assoc, <-Hat in Hin. specialize (Hon _ Hin). lia. }
    rewrite Ho in *. cbn [app] in *. rewrite !app_nil_r in *.
    assert (Hj : ∀ dropped' late', (dropped' ++ late')%list = (dropped ++ sn_late n ++ [t])%list →
      length late' = Nat.min keep (S (sn_late_total n)) →
      scanned keep from dropped' (mkScan t late' (S (sn_late_total n)) [])).
    { intros d' l' He Hl. apply (f_equal length) in He as Hlen. rewrite !length_app in Hlen. cbn in Hlen.
      split; cbn; rewrite ?app_nil_r, ?He; try done; [by rewrite app_assoc, last_of_snoc| |lia].
      intros u. rewrite app_assoc.
      intros [Hu| ->%list_elem_of_singleton]%elem_of_app; [by apply Hla|done]. }
    case_bool_decide as Hk; rewrite length_app in Hk; cbn in Hk.
    + destruct (sn_late n ++ [t])%list as [|x tl] eqn:Hx; [by destruct (sn_late n)|].
      exists (dropped ++ [x])%list. apply Hj; cbn [tail]; [by rewrite <-app_assoc|].
      apply (f_equal length) in Hx. rewrite length_app in Hx. cbn in Hx. lia.
    + exists dropped. apply Hj; [done|]. rewrite length_app. cbn. lia.
  - exists dropped. split; cbn; try done.
    + by rewrite !app_assoc, last_of_snoc.
    + intros u [?| ->%list_elem_of_singleton]%elem_of_app; [by apply Hon|done].
Qed.

(** A pass over a due trigger fires exactly the times of its schedule, late ones dropped as its
    policy says. For any trigger whose cursor and the longest catch-up reach back to [from]: there
    are times [dropped] such that the dropped, the late and the on-time ones, in this order,
    increase strictly from after [from] to now, and each is one at which the schedule fires; the
    late and the dropped ones lie before the start of the grace period and the others in it; of
    the late ones the last [keep_late] are kept; and no time of the schedule between [from] and
    now is missing, unless the search gave up five years ahead. *)
Theorem due_times_exact policy cursor :
  let n := due_times tc schedule policy cursor now in
  let from := Z.max cursor (now - TriggersConf.max_catchup tc) - seconds 1 in
  ∃ dropped,
    let all := (dropped ++ sn_late n ++ sn_on_time n)%list in
    ascending from all
    ∧ (∀ t, t ∈ all → fires_at schedule t ∧ t ≤ now)
    ∧ (∀ t, t ∈ (dropped ++ sn_late n)%list → t < now - TriggersConf.grace tc)
    ∧ (∀ t, t ∈ sn_on_time n → now - TriggersConf.grace tc ≤ t)
    ∧ sn_late_total n = (length dropped + length (sn_late n))%nat
    ∧ length (sn_late n) = Nat.min (keep_late tc policy) (sn_late_total n)
    ∧ (∀ u, fires_at schedule u → from < u ≤ now →
         u ∈ all ∨ next_after schedule (last_of from all) = None).
Proof.
  cbv zeta. unfold due_times. set (from := _ - seconds 1). set (keep := keep_late tc policy).
  set (step := scan_step schedule now (now - TriggersConf.grace tc) keep).
  pose proof (scan_start keep from) as H0s.
  pose proof (loop_ends (λ n, ∃ dropped, scanned keep from dropped n) (λ n, Z.max 0 (now - sn_at n))
    step SCAN_STEPS (mkScan from [] 0 [])) as Hend.
  pose proof (loop_inv (λ n, ∃ dropped, scanned keep from dropped n)
    (λ n, ∃ dropped, scanned keep from dropped n ∧
       (next_after schedule (sn_at n) = None ∨ ∀ u, fires_at schedule u → sn_at n < u → now < u))
    step SCAN_STEPS (mkScan from [] 0 [])) as Hinv.
  destruct (loop _ _ _) as [n|n].
  - exfalso. destruct Hend as [_ Hle]; [|by exists []|lia|].
    + intros x y [d Hx] Hs. pose proof (scan_turn _ _ _ _ Hx) as Ht. fold step in Ht.
      rewrite Hs in Ht. destruct Ht as [? ?]. split; [done|lia].
    + cbn [sn_at] in Hle. change (Z.pos SCAN_STEPS) with (2 ^ 90) in Hle.
      pose proof (catchup_bound tc). unfold from, seconds, nanoseconds_per_second in Hle. lia.
  - destruct Hinv as (dropped & Hs & Hout); [| |by exists []|].
    + intros x y [d Hx] Hs. pose proof (scan_turn _ _ _ _ Hx) as Ht. fold step in Ht.
      rewrite Hs in Ht. by destruct Ht as [? _].
    + intros x b [d Hx] Hs. pose proof (scan_turn _ _ _ _ Hx) as Ht. fold step in Ht.
      rewrite Hs in Ht. destruct Ht as [-> ?]. eauto.
    + exists dropped. destruct Hs. split_and!; try done. intros u Hu Hb.
      destruct (Z.le_gt_cases u (sn_at n)); [left; apply sd_all0; [done|lia]|].
      rewrite <-sd_at0. destruct Hout as [?|Hno]; [by right|]. specialize (Hno u Hu). lia.
Qed.
End due.

(** The times of a pass lie in its window, whatever the time zone. *)
Section window.
Context `{Calendar} {tz : TimeZone} (tc : TriggersConfig) (schedule : CronSchedule) (now : Timestamp).

Lemma next_after_later after t : next_after schedule after = Some t → after < t.
Proof.
  unfold next_after. pose proof (loop_inv (λ _, True) (λ o, ∀ t, o = Some t → after < t)
    (instant_step schedule after) MAX_LOCAL_STEPS (naive_local after)) as Hl.
  destruct (loop _ _ _) as [|o]; [done|]. intros ->. apply Hl; [done| |done|done].
  intros x b _ Hs u ->. unfold instant_step in Hs. destruct (found _) as [l|]; [|done].
  destruct (instant_of l) as [v|]; cbn in Hs; [|done]. destruct (after <? v) eqn:Hv; [|done].
  injection Hs as <-. bools. done.
Qed.

(** The kept times, in order, are behind the scan. *)
Record within (from : Timestamp) (n : Scan) : Prop := {
  wi_at : from ≤ sn_at n;
  wi_times : ∀ t, t ∈ (sn_late n ++ sn_on_time n)%list → from < t ≤ now ∧ t ≤ sn_at n;
  wi_order : ascending from (sn_late n ++ sn_on_time n)%list;
  wi_on_time : ∀ t, t ∈ sn_on_time n → now - TriggersConf.grace tc ≤ t
}.

Lemma ascending_snoc a l t :
  ascending a l → (∀ u, u ∈ l → u < t) → a < t → ascending a (l ++ [t])%list.
Proof.
  intros Hl Hu Ha. apply ascending_app. split; [done|]. split; [|done].
  unfold last_of. destruct (last l) eqn:Hlast; [|done]. cbn. apply Hu. by apply last_Some_elem_of.
Qed.

Lemma ascending_weaken a b l : a ≤ b → ascending b l → ascending a l.
Proof. intros Hab. destruct l; [done|]. intros [? ?]. split; [lia|done]. Qed.

Lemma ascending_tail a l : ascending a l → ascending a (tail l).
Proof. destruct l as [|x l]; [done|]. cbn. intros [? ?]. apply (ascending_weaken a x); [lia|done]. Qed.

Lemma scan_within from keep n :
  within from n →
  match scan_step schedule now (now - TriggersConf.grace tc) keep n with
  | inl n' | inr n' => within from n' end.
Proof.
  intros Hw. unfold scan_step. destruct (next_after _ _) as [t|] eqn:Hn; [|done].
  apply next_after_later in Hn. destruct (now <? t) eqn:Hnow; [done|]. bools.
  destruct Hw as [Hat Hin Hord Hon].
  assert (Hlt : ∀ u, u ∈ (sn_late n ++ sn_on_time n)%list → u < t) by (intros u Hu; apply Hin in Hu; lia).
  destruct (t <? now - TriggersConf.grace tc) eqn:Hg; bools.
  - assert (sn_on_time n = []) as Ho.
    { destruct (sn_on_time n) as [|u l] eqn:Ho; [done|exfalso]. specialize (Hon u (list_elem_of_here _ _)).
      specialize (Hlt u). rewrite elem_of_app in Hlt. assert (u < t); [|lia].
      apply Hlt. right. by left. }
    rewrite Ho in *. rewrite app_nil_r in *.
    assert (Hall : ascending from (sn_late n ++ [t])%list) by (apply ascending_snoc; [done..|lia]).
    assert (Hin2 : ∀ u, u ∈ (sn_late n ++ [t])%list → from < u ≤ now ∧ u ≤ t).
    { intros u [Hu| ->%list_elem_of_singleton]%elem_of_app; [apply Hin in Hu; lia|lia]. }
    case_bool_decide; (split; cbn; [lia| | |done]); rewrite app_nil_r; try done.
    + intros u Hu. apply Hin2. by destruct (sn_late n ++ [t])%list; [|right].
    + by apply ascending_tail.
  - split; cbn; [lia| | |].
    + intros u. rewrite app_assoc. intros [Hu| ->%list_elem_of_singleton]%elem_of_app; [apply Hin in Hu; lia|lia].
    + rewrite app_assoc. apply ascending_snoc; [done..|lia].
    + intros u [Hu| ->%list_elem_of_singleton]%elem_of_app; [by apply Hon|done].
Qed.

Lemma due_times_within policy cursor :
  within (Z.max cursor (now - TriggersConf.max_catchup tc) - seconds 1)
    (due_times tc schedule policy cursor now).
Proof.
  unfold due_times. set (from := _ - seconds 1).
  set (step := scan_step _ _ _ _). pose proof (loop_inv (within from) (within from) step SCAN_STEPS
    (mkScan from [] 0 [])) as Hl.
  assert (Hstep : ∀ x, within from x → match step x with inl n | inr n => within from n end)
    by (intros; by apply scan_within).
  destruct (loop _ _ _) as [n|n]; apply Hl.
  all: try (intros x y Hx Hs; specialize (Hstep x Hx); by rewrite Hs in Hstep).
  all: split; cbn; [lia| |done|]; by intros ? ?%not_elem_of_nil.
Qed.
End window.

(** ** One invocation for a scheduled time *)

(** How far a scheduler may run behind the clock and still find every fire it could repeat. *)
Definition slack (tc : TriggersConfig) : Duration :=
  TriggersConf.fire_retention tc - TriggersConf.max_catchup tc - seconds 1.

Lemma validate_slack tc :
  TriggersConf.validate tc = Ok tt → tc_fire_retention_seconds tc ≤ i64_max / 1000 → 0 ≤ slack tc.
Proof.
  unfold TriggersConf.validate. intros H Hle. do 4 pass H. bools.
  unfold slack, TriggersConf.fire_retention, TriggersConf.max_catchup, TriggersConf.secs, seconds,
    nanoseconds_per_second.
  change (i64_max / 1000) with 9223372036854775 in *. lia.
Qed.

Section once.
Context `{Calendar} (cfg : StoreConfig) (o : Codec) (c : InvokeAsyncConfig) (tc : TriggersConfig).
Context (k : TriggerCodec).

(** The store, the clock, and the scheduled times an invocation was started for. *)
Record World := mkWorld {
  wd_store : TriggerStore;
  wd_clock : Timestamp;
  wd_log : list (TriggerId * Timestamp)
}.

(** Between [s] and [s'] an accepted fire of the scheduled time appeared. *)
Definition started (id : TriggerId) (at_ : Timestamp) (s s' : TriggerStore) : bool :=
  is_none (get_fire id (cron_key (tk_utc_text k) at_) s)
  && is_some_and (get_fire id (cron_key (tk_utc_text k) at_) s')
       (λ f, fr_outcome f == FireOutcome.Accepted).

Definition logged (id : TriggerId) (at_ : Timestamp) (s s' : TriggerStore) (log : list (TriggerId * Timestamp))
    : list (TriggerId * Timestamp) :=
  if started id at_ s s' then (id, at_) :: log else log.

(** What the schedulers of any number of gateways do to one store, one transaction or fire at a
    time, in any order: time passes; a scheduler fires a time of the window of the reading [now]
    its pass began with; fires older than the retention are purged; other transactions. *)
Inductive wstep : World → World → Prop :=
| w_tick s τ τ' log : τ ≤ τ' → wstep (mkWorld s τ log) (mkWorld s τ' log)
| w_fire s τ log f t spec at_ now r s' :
    τ - slack tc ≤ now ≤ τ → now - TriggersConf.max_catchup tc - seconds 1 < at_ ≤ now →
    fire_cron cfg o c k f t spec at_ now s = (r, s') →
    wstep (mkWorld s τ log) (mkWorld s' τ (logged (tg_id t) at_ s s' log))
| w_purge s τ log wb cb :
    cb ≤ τ - TriggersConf.fire_retention tc →
    wstep (mkWorld s τ log) (mkWorld (run_tcmd cfg (TPurge wb cb) s) τ log)
| w_other s τ log cmd :
    quiet_cmd cmd → wstep (mkWorld s τ log) (mkWorld (run_tcmd cfg cmd s) τ log).

(** A logged time is still recorded, or too old to be fired. *)
Definition remembered (w : World) (e : TriggerId * Timestamp) : Prop :=
  (∃ f, ts_fires (wd_store w) !! (e.1, cron_key (tk_utc_text k) e.2) = Some f
        ∧ fr_kind f = TriggerKind.Cron ∧ e.2 ≤ fr_created_at f)
  ∨ e.2 < wd_clock w - TriggersConf.fire_retention tc.

Record world_ok (w : World) : Prop := {
  wo_once : NoDup (wd_log w);
  wo_remembered : ∀ e, e ∈ wd_log w → remembered w e
}.

Lemma remembered_run P s s' τ log log' e :
  (∀ f cmd, fr_kind f = TriggerKind.Cron → e.2 ≤ fr_created_at f → P cmd →
     keeps f cmd ∨ e.2 < τ - TriggersConf.fire_retention tc) →
  trigger_run cfg P s s' → remembered (mkWorld s τ log) e → remembered (mkWorld s' τ log') e.
Proof.
  intros HP Hrun Hr. induction Hrun as [|s' cmd Hrun IH Hc]; [exact Hr|].
  destruct IH as [(f & Hf & Hk & Hle)|?]; [|by right].
  destruct (HP f cmd Hk Hle Hc) as [Hkeep|?]; [left|by right].
  exists f. split_and!; [|done..]. by apply run_tcmd_fire.
Qed.

Lemma remembered_quiet s s' τ log log' e :
  trigger_run cfg quiet_cmd s s' → remembered (mkWorld s τ log) e → remembered (mkWorld s' τ log') e.
Proof. apply remembered_run. intros f cmd _ _ Hc. left. by apply quiet_keeps. Qed.

(** A record under a new key is written. *)
Lemma record_row s f :
  get_fire (fr_trigger_id f) (fr_fire_key f) s = None → fr_signature_digest f = None →
  ts_fires (run_tcmd cfg (TRecord f) s) !! (fr_trigger_id f, fr_fire_key f) = Some (fire_row f).
Proof.
  intros Hn Hd. cbn [run_tcmd]. unfold after_tx, record_fire. destruct (insert_fire f s) as [b s1] eqn:Hi.
  apply insert_fire_spec in Hi as Hi'. destruct Hi' as [[-> ->]|(_ & -> & _)].
  - unfold insert_fire in Hi. rewrite Hn, Hd in Hi. by cbn in Hi.
  - cbn. by rewrite lookup_insert_eq.
Qed.

(** What a refused time records. *)
Abbreviation refusal t at_ now e := (cron_fire k t at_ now <| fr_outcome := FireOutcome.Refused |>
                                       <| fr_reason := Some (tk_reason k e) |>).

(** What started an invocation left its row, created at the reading of the pass. *)
Lemma started_row f t spec at_ now s r s' :
  fire_cron cfg o c k f t spec at_ now s = (r, s') → started (tg_id t) at_ s s' = true →
  ∃ g, ts_fires s' !! (tg_id t, cron_key (tk_utc_text k) at_) = Some g
       ∧ fr_kind g = TriggerKind.Cron ∧ fr_created_at g = now.
Proof.
  intros Hf%fire_cron_effect Hs. unfold started in Hs. apply andb_true_iff in Hs as [Hn Ha].
  apply is_none_true in Hn.
  destruct Hf as [r0 _ _|inv input event s1 r0 Hc _|e s1 s2 r0 -> _ _ Hr].
  - by rewrite Hn in Ha.
  - apply commits_row in Hc as [_ Hc]. cbn in Hc. rewrite Hc, lookup_insert_eq. eauto.
  - exfalso. pose proof (record_row s (refusal t at_ now e) Hn eq_refl) as Hrow. cbn -[run_tcmd] in Hrow.
    assert (get_fire (tg_id t) (cron_key (tk_utc_text k) at_) s2 = Some (fire_row (refusal t at_ now e)))
      as Hrow2; [|by rewrite Hrow2 in Ha].
    destruct Hr as [[_ ->]|[_ ->]]; [done|].
    eapply (trun_fire cfg quiet_cmd); [intros; by apply quiet_keeps|apply disable_run|done].
Qed.

Lemma wstep_ok w w' : world_ok w → wstep w w' → world_ok w'.
Proof.
  intros Hok Hstep.
  destruct Hstep as [s τ τ' log Hle|s τ log f t spec at_ now r s' Hτ Hat Hf|s τ log wb cb Hcb|s τ log cmd Hq];
    destruct Hok as [Hnd Hrem].
  - split; [exact Hnd|]. intros e He. destruct (Hrem e He) as [?|?]; [by left|right]. cbn in *. lia.
  - pose proof (fire_cron_run _ _ _ _ _ _ _ _ _ _ _ _ Hf) as Hrun.
    unfold logged. destruct (started _ _ _ _) eqn:Hs.
    + split; cbn.
      * apply NoDup_cons. split; [|done]. intros Hin. apply Hrem in Hin as [(g & Hg & _)|Hold].
        { unfold started, get_fire in Hs. cbn in Hg. by rewrite Hg in Hs. }
        cbn in Hold. unfold slack in Hτ. lia.
      * intros e [->|He]%elem_of_cons; [left|by eapply remembered_quiet, Hrem].
        destruct (started_row _ _ _ _ _ _ _ _ Hf Hs) as (g & Hg & Hk & Hc).
        exists g. cbn. split_and!; [done|done|]. cbn. lia.
    + split; [exact Hnd|]. intros e He. by eapply remembered_quiet, Hrem.
  - split; [exact Hnd|]. intros e He.
    eapply (remembered_run (λ cmd, cmd = TPurge wb cb)); [|by apply trun_one|by apply Hrem].
    intros g cmd Hk Hle ->. cbn. unfold outdated. rewrite Hk. lia.
  - split; [exact Hnd|]. intros e He. eapply remembered_quiet; [by apply trun_one|by apply Hrem].
Qed.

(** C14: At most one invocation is started for a scheduled time. Over any run, of any length, of any
    number of schedulers on one store (each firing times of the catch-up window of the reading its
    pass began with, any other transactions and purges of the fires older than the retention in
    between, clocks only moving on, and a scheduler at most [slack] behind them): no pair of a
    trigger and a scheduled time gets two accepted fires. The validation of the configuration
    makes [slack], retention less catch-up window less one second, not negative. *)
Theorem scheduled_time_fires_once s τ w :
  rtc wstep (mkWorld s τ []) w →
  NoDup (wd_log w)
  ∧ (TriggersConf.validate tc = Ok tt → tc_fire_retention_seconds tc ≤ i64_max / 1000 → 0 ≤ slack tc).
Proof.
  intros Hsteps. split; [|apply validate_slack].
  assert (world_ok (mkWorld s τ [])) as Hok by (split; [constructor|by intros e ?%not_elem_of_nil]).
  revert Hok. remember (mkWorld s τ []) as w0 eqn:Hw. clear Hw.
  induction Hsteps as [w1|w1 w2 w3 Hs _ IH]; intros Hok; [apply Hok|]. by eapply IH, wstep_ok.
Qed.

(** *** A pass is a sequence of such steps *)

Lemma quiet_steps s s' τ log :
  trigger_run cfg quiet_cmd s s' → rtc wstep (mkWorld s τ log) (mkWorld s' τ log).
Proof.
  induction 1 as [|s' cmd Hrun IH Hc]; [done|]. eapply rtc_r; [exact IH|]. by constructor.
Qed.

Context (Hslack : 0 ≤ slack tc).

Lemma fire_all_steps outs t spec now times :
  (∀ u, u ∈ times → now - TriggersConf.max_catchup tc - seconds 1 < u ≤ now) →
  ∀ i last report s out s' log, fire_all cfg o c k outs i t spec now times last report s = (out, s') →
  ∃ log', rtc wstep (mkWorld s now log) (mkWorld s' now log').
Proof.
  induction times as [|u times IH]; intros Hw i last report s out s' log; cbn.
  { intros [= _ <-]. by exists log. }
  destruct (fire_cron _ _ _ _ _ _ _ _ _ _) as [r s1] eqn:Hf.
  assert (Hstep : wstep (mkWorld s now log) (mkWorld s1 now (logged (tg_id t) u s s1 log))).
  { eapply (w_fire s now log _ t spec u now); [lia| |exact Hf]. apply Hw. by left. }
  destruct r; intros Hg.
  1-3: destruct (IH ltac:(intros; apply Hw; by right) _ _ _ _ _ _
         (logged (tg_id t) u s s1 log) Hg) as [log' Hl]; exists log'; by eapply rtc_l.
  - injection Hg as _ <-. eexists. by apply rtc_once.
  - injection Hg as _ <-. eexists. eapply rtc_l; [exact Hstep|]. apply quiet_steps.
    destruct (advance_cron_cursor _ _ _ _ _) as [[b s2]|] eqn:Ha; [by eapply cursor_run|constructor].
Qed.

Lemma process_steps outs t now report s report' s' log :
  process_cron_trigger cfg o c tc k outs t now report s = (report', s') →
  ∃ log', rtc wstep (mkWorld s now log) (mkWorld s' now log').
Proof.
  unfold process_cron_trigger. destruct (tg_spec t) as [spec|]; [|intros [= _ <-]; by exists log].
  destruct (parse_schedule _) as [schedule|]; [|intros [= _ <-]; by exists log].
  destruct (parse_timezone _ _) as [tz|]; [|intros [= _ <-]; by exists log].
  destruct (tg_next_fire_at t) as [cursor|]; [|intros [= _ <-]; by exists log]. cbv zeta.
  destruct (fire_all _ _ _ _ _ _ _ _ _ _ _ _ _) as [[fired report1] s1] eqn:Hf.
  apply (fire_all_steps _ _ _ _ _) with (log := log) in Hf as [log' Hl].
  2: { intros u Hu. apply (wi_times _ _ _ _ (due_times_within _ _ _ _ _)) in Hu. lia. }
  destruct fired as [last|]; [|intros [= _ <-]; eauto].
  destruct (next_after _ _) as [next|]; [|intros [= _ <-]; eauto].
  destruct (advance_cron_cursor _ _ _ _ _) as [[[] s2]|] eqn:Ha; intros [= _ <-]; [| |eauto].
  all: exists log'; (etrans; [exact Hl|]); by eapply quiet_steps, cursor_run.
Qed.

(** A pass of the scheduler is a sequence of the steps of the world in which scheduled times
    are fired once. Whatever each fire meets outside, and whether the lease is held or not: from
    the clock its pass began at, [scheduler_pass] (taking the lease, firing the due times of up to
    a batch of triggers, moving their cursors, purging old fires) goes from the store it finds to
    the store it leaves by steps of [wstep], so [scheduled_time_fires_once] speaks of any number
    of passes of any number of gateways. *)
Theorem scheduler_pass_refines fenced owner ttl now outs last_purge s out s' log :
  scheduler_pass cfg o c tc k fenced owner ttl now outs last_purge s = (out, s') →
  ∃ log', rtc wstep (mkWorld s now log) (mkWorld s' now log').
Proof.
  unfold scheduler_pass. destruct fenced; [intros [= _ <-]; by exists log|].
  destruct (acquire_scheduler_lease _ _ _ _) as [[[] s1]|] eqn:Hl; try (intros [= _ <-]; by exists log).
  assert (H1 : rtc wstep (mkWorld s now log) (mkWorld s1 now log)).
  { replace s1 with (run_tcmd cfg (TAcquire owner now ttl) s)
      by (cbn [run_tcmd]; unfold after_tx; by rewrite Hl). by apply rtc_once, w_other. }
  assert (Hall : ∀ due i report s report' s' log, process_all cfg o c tc k outs i due now report s
      = (report', s') → ∃ log', rtc wstep (mkWorld s now log) (mkWorld s' now log')).
  { intros due. induction due as [|t due IH]; intros i report s0 report' s0' log0; cbn.
    { intros [= _ <-]. by exists log0. }
    destruct (process_cron_trigger _ _ _ _ _ _ _ _ _ _) as [r1 s2] eqn:Hp. intros Hr.
    destruct (process_steps _ _ _ _ _ _ _ log0 Hp) as [log1 Hl1].
    destruct (IH _ _ _ _ _ log1 Hr) as [log2 Hl2]. exists log2. by etrans. }
  destruct (process_all _ _ _ _ _ _ _ _ _ _ _) as [report2 s2] eqn:Hp.
  destruct (Hall _ _ _ _ _ _ log Hp) as [log' Hsteps].
  destruct (purge_if_due _ _ _ _) as [[purged last] s3] eqn:Hu. intros [= _ <-]. exists log'.
  etrans; [exact H1|]. etrans; [exact Hsteps|].
  unfold purge_if_due in Hu. destruct (is_some_and _ _); [by injection Hu as _ _ <-|].
  cbn in Hu. injection Hu as _ _ <-.
  by apply rtc_once, (w_purge s2 now log' (now - TriggersConf.webhook_dedup_retention tc)).
Qed.
End once.

(** ** No time is lost *)

Section lossless.
Context `{Calendar} (cfg : StoreConfig) (o : Codec) (c : InvokeAsyncConfig) (tc : TriggersConfig).
Context (k : TriggerCodec) (outs : nat → FireOutside) (t : Trigger) (spec : CronSpec) (now : Timestamp).

Abbreviation key_of u := (cron_key (tk_utc_text k) u).

(** A due time is done with in the store [s'] that a pass over [s] leaves: its fire is recorded
    there; or, at some point of the pass, an invocation accepted earlier for the very event of this
    time was bound to its idempotency key ([answered]). *)
Inductive tried (s s' : TriggerStore) (u : Timestamp) : Prop :=
| td_recorded f : get_fire (tg_id t) (key_of u) s' = Some f → tried s s' u
| td_answered i s1 payload inv :
    trigger_run cfg quiet_cmd s s1 → trigger_run cfg quiet_cmd s1 s' →
    tk_to_vec k (cron_event t spec (tk_utc_text k u)) = Ok payload →
    answered o (cron_request k t spec u) (outside_for t (outs i))
      ("cron:" +:+ tg_id t +:+ ":" +:+ tk_utc_text k u) payload inv (ts_ledger s1) →
    tried s s' u.

(** The cursor of the trigger still reaches it. *)
Definition still_due (s' : TriggerStore) (u : Timestamp) : Prop :=
  ∃ t' cur, get_trigger (tg_id t) s' = Some t' ∧ tg_generation t' = tg_generation t
    ∧ tg_next_fire_at t' = Some cur ∧ cur - seconds 1 < u.

Lemma tried_run s s1 s' u : trigger_run cfg quiet_cmd s1 s' → tried s s1 u → tried s s' u.
Proof.
  intros Hrun [f Hf|i s2 payload inv H12 H23 Hp Ha].
  - eapply td_recorded. eapply trun_fire; [|exact Hrun|exact Hf]. intros. by apply quiet_keeps.
  - eapply td_answered; [exact H12| |exact Hp|exact Ha]. by eapply trun_trans.
Qed.

Lemma tried_after s s1 s' u : trigger_run cfg quiet_cmd s s1 → tried s1 s' u → tried s s' u.
Proof.
  intros Hrun [f Hf|i s2 payload inv H12 H23 Hp Ha]; [by eapply td_recorded|].
  eapply td_answered; [by eapply trun_trans|done..].
Qed.

(** A fire that leaves the trigger alone. *)
Lemma fire_cron_trigger f u s r s' :
  fire_cron cfg o c k f t spec u now s = (r, s') → r ≠ Fire.Inactive → ts_triggers s' = ts_triggers s.
Proof.
  intros Hf%fire_cron_effect Hr.
  destruct Hf as [r0 _ _|inv input event s1 r0 Hc _|e s1 s2 r0 -> _ _ [[_ ->]|[-> _]]]; [done| | |done].
  - by destruct Hc as [_ [] _].
  - cbn [run_tcmd]. unfold after_tx, record_fire. destruct (insert_fire _ s) as [b s1] eqn:Hi.
    by apply insert_fire_spec in Hi as [[_ ->]|(_ & -> & _)].
Qed.

(** A fire that was accepted or refused is recorded. *)
Lemma fire_cron_recorded f u s r s' :
  fire_cron cfg o c k f t spec u now s = (r, s') → r = Fire.Done ∨ r = Fire.Refused →
  ∃ g, get_fire (tg_id t) (key_of u) s' = Some g.
Proof.
  intros Hf%fire_cron_effect Hr.
  destruct Hf as [r0 ? ?|inv input event s1 r0 Hc _|e s1 s2 r0 -> _ Hn [[_ ->]|[-> _]]].
  - naive_solver.
  - apply commits_row in Hc as [_ Hc]. cbn in Hc. unfold get_fire. rewrite Hc, lookup_insert_eq. eauto.
  - eexists. unfold get_fire. exact (record_row cfg s (cron_fire k t u now <| fr_outcome := FireOutcome.Refused |>
      <| fr_reason := Some (tk_reason k e) |>) Hn eq_refl).
  - naive_solver.
Qed.

Lemma already_fired_same f u s s' :
  fire_cron cfg o c k f t spec u now s = (Fire.AlreadyFired, s') → s' = s.
Proof.
  intros Hf%fire_cron_effect. inversion Hf; subst; try done; naive_solver.
Qed.

(** A fire that says its time was taken before found its row or an earlier answer. *)
Lemma already_fired_tried i u s s' :
  fire_cron cfg o c k (outs i) t spec u now s = (Fire.AlreadyFired, s') → tried s s' u.
Proof.
  intros Hf. pose proof Hf as ->%already_fired_same. unfold fire_cron in Hf.
  destruct (fo_read_fails _); [done|].
  destruct (get_fire _ _ s) as [g|] eqn:Hg; [by eapply td_recorded|]. cbn in Hf.
  destruct (fo_authorize _) as [u'|e].
  2: { destruct (is_transient e); [done|]. destruct (fo_record_fails _); [done|]. by destruct e. }
  destruct (accept_for_trigger _ _ _ _ _ _ _) as [answer s2] eqn:Ha.
  destruct answer as [r|e].
  2: { destruct (is_transient e); [done|]. destruct (fo_record_fails _); [done|]. by destruct e. }
  apply accept_for_trigger_old in Ha. destruct r as [a|g|cur]; [|by destruct Ha as [Ha|(d & [=] & _)]; eapply td_recorded|done].
  destruct (aa_replayed a); [|done]. destruct (Ha eq_refl) as (key & payload & inv & Hans).
  pose proof (an_key _ _ _ _ _ _ _ Hans) as [= <-].
  eapply (td_answered _ _ _ i s); [constructor|constructor| |exact Hans].
  exact (an_payload _ _ _ _ _ _ _ Hans).
Qed.

Lemma fire_cron_tried i u s r s' :
  fire_cron cfg o c k (outs i) t spec u now s = (r, s') →
  r = Fire.Done ∨ r = Fire.Refused ∨ r = Fire.AlreadyFired → tried s s' u.
Proof.
  intros Hf [Hr|[Hr| ->]]; [..|by eapply already_fired_tried].
  all: destruct (fire_cron_recorded _ _ _ _ _ Hf ltac:(tauto)) as [g Hg]; by eapply td_recorded.
Qed.

(** A deferred fire leaves the cursor at its time or before. *)
Lemma deferred_due sealed cur u last s s2 :
  ts_triggers s !! tg_id t = Some (t, sealed) → tg_next_fire_at t = Some cur → cur - seconds 1 < u →
  s2 = match advance_cron_cursor (tg_id t) (tg_generation t) u last s with Ok (_, s') => s' | Err _ => s end →
  ∀ v, u ≤ v → still_due s2 v.
Proof.
  intros Ht Hcur Hu -> v Hv.
  assert (Hstay : still_due s v).
  { exists t, cur. unfold get_trigger. rewrite Ht. split_and!; [done..|lia]. }
  destruct (advance_cron_cursor _ _ _ _ _) as [[b s2]|] eqn:Ha; [|done].
  apply advance_cron_cursor_Ok in Ha as [[_ ->]|(_ & t2 & sealed2 & last' & Ht2 & Hg & _ & _ & _ & ->)]; [done|].
  rewrite Ht in Ht2. injection Ht2 as <- <-.
  eexists (t <| tg_next_fire_at := Some u |> <| tg_last_scheduled_at := last' |>), u.
  unfold get_trigger. cbn. rewrite lookup_insert_eq. split_and!; [done..|].
  unfold seconds, nanoseconds_per_second. lia.
Qed.

(** The fires of a pass: every time was tried, or those from a deferred one on are still due. *)
Lemma fire_all_settles sealed cur times : ∀ from,
  ascending from times → cur - seconds 1 ≤ from → tg_next_fire_at t = Some cur →
  ∀ i last report s fired report' s',
  ts_triggers s !! tg_id t = Some (t, sealed) →
  fire_all cfg o c k outs i t spec now times last report s = (fired, report', s') →
  match fired with
  | AllTried _ => ∀ u, u ∈ times → tried s s' u
  | GaveUp => (∀ u, u ∈ times → tried s s' u ∨ still_due s' u)
              ∨ sr_inactive report' = S (sr_inactive report)
  end.
Proof.
  induction times as [|u times IH]; intros from Hasc Hcur Hnext i last report s fired report' s' Ht; cbn.
  { intros [= <- _ _]. by intros ? ?%not_elem_of_nil. }
  destruct Hasc as [Hu Hasc]. destruct (fire_cron _ _ _ _ _ _ _ _ _ _) as [r s1] eqn:Hf.
  assert (Hgo : ∀ report1, r = Fire.Done ∨ r = Fire.Refused ∨ r = Fire.AlreadyFired →
    sr_inactive report1 = sr_inactive report →
    fire_all cfg o c k outs (S i) t spec now times (Some u) report1 s1 = (fired, report', s') →
    match fired with
    | AllTried _ => ∀ v, v ∈ u :: times → tried s s' v
    | GaveUp => (∀ v, v ∈ u :: times → tried s s' v ∨ still_due s' v)
                ∨ sr_inactive report' = S (sr_inactive report)
    end).
  { intros report1 Hr <- Hg.
    assert (Hu' : tried s s' u)
      by (eapply tried_run; [by eapply fire_all_run|by eapply fire_cron_tried]).
    assert (Hrest : ∀ v, tried s1 s' v → tried s s' v)
      by (intros; eapply tried_after; [by eapply fire_cron_run|done]).
    specialize (IH u Hasc ltac:(lia) Hnext _ _ _ _ _ _ _
      ltac:(rewrite (fire_cron_trigger _ _ _ _ _ Hf); naive_solver) Hg).
    destruct fired; [|destruct IH as [IH|?]; [left|by right]];
      intros v [->|Hv]%elem_of_cons; auto. by destruct (IH v Hv); auto. }
  destruct r; try (apply Hgo; auto; fail).
  - intros [= <- <- _]. by right.
  - intros [= <- <- Hs]. left. intros v Hv. right.
    assert (u ≤ v).
    { apply elem_of_cons in Hv as [->|Hv]; [lia|]. pose proof (ascending_after u times v Hasc Hv). lia. }
    eapply deferred_due; [|exact Hnext| |by symmetry|done]; [|lia].
    by rewrite (fire_cron_trigger _ _ _ _ _ Hf).
Qed.

(** C16: A pass loses no due time. Every time [due_times] keeps of an enabled cron trigger is, when
    the pass over the trigger ends: recorded as fired or refused, in a row of the fires; or
    accepted earlier: at some point of the pass its idempotency key was bound, in the ledger, to an
    asynchronous invocation whose input has the digest of this time's event; or still reached by the
    cursor of the trigger, which a deferred fire moves no further than itself; unless a fire met a
    trigger disabled, deleted or changed in the meantime, which the report counts. Failures to
    read, to resolve, to accept or to record, and lost responses, are what the fires may meet
    outside. *)
Theorem pass_loses_no_time sealed schedule tz cursor report s report' s' u :
  let n := due_times (tz := tz) tc schedule (cr_missed_run_policy spec) cursor now in
  tg_spec t = CronTrigger spec → parse_schedule (cr_expression spec) = Ok schedule →
  parse_timezone k (cr_timezone spec) = Ok tz → tg_next_fire_at t = Some cursor →
  ts_triggers s !! tg_id t = Some (t, sealed) →
  process_cron_trigger cfg o c tc k outs t now report s = (report', s') →
  u ∈ (sn_late n ++ sn_on_time n)%list →
  tried s s' u ∨ still_due s' u ∨ sr_inactive report' = S (sr_inactive report).
Proof.
  intros n Hspec Hsch Htz Hcur Ht Hp Hu. unfold process_cron_trigger in Hp.
  rewrite Hspec, Hsch, Htz, Hcur in Hp. cbv zeta in Hp. fold n in Hp.
  pose proof (due_times_within (tz := tz) tc schedule now (cr_missed_run_policy spec) cursor) as Hw.
  fold n in Hw.
  destruct (fire_all _ _ _ _ _ _ _ _ _ _ _ _ _) as [[fired report1] s1] eqn:Hf.
  pose proof (fire_all_settles sealed cursor _ _ (wi_order _ _ _ _ Hw) ltac:(lia) Hcur
    _ _ _ _ _ _ _ Ht Hf) as Hall.
  destruct fired as [last|].
  - left. specialize (Hall u Hu). destruct (next_after _ _) as [next|]; [|by injection Hp as _ <-].
    destruct (advance_cron_cursor _ _ _ _ _) as [[[] s2]|] eqn:Ha; injection Hp as _ <-; [| |done].
    all: by eapply tried_run; [eapply cursor_run|].
  - injection Hp as <- <-. destruct Hall as [Hall|?]; [|by right; right].
    destruct (Hall u Hu); auto.
Qed.
End lossless.

(** ** The theorems at work *)

From S2P Require Import Scenario Gregorian TriggerScenario.

Definition every_minute : CronSchedule :=
  match parse_schedule "* * * * *" with Ok s => s | Err _ => mkSchedule (mkField 0 false)
    (mkField 0 false) (mkField 0 false) (mkField 0 false) (mkField 0 false) (mkField 0 false) false end.

Lemma utc_laws : @ZoneLaws _ (fixed_zone 0).
Proof. by apply transition_zone_laws. Qed.

(** At 190 seconds, 60 is dropped, 120 run late and 180 on time. *)
Lemma minutes_due_eq :
  due_times (tz := fixed_zone 0) config_trg every_minute RunOnce (seconds 60) (seconds 190)
  = mkScan (seconds 180) [seconds 120] 2 [seconds 180].
Proof. vm_compute. reflexivity. Qed.

Lemma due_times_exact_witness :
  ∃ dropped, length dropped = 1%nat
  ∧ ascending (seconds 59) (dropped ++ [seconds 120] ++ [seconds 180])%list
  ∧ (∀ t, t ∈ (dropped ++ [seconds 120] ++ [seconds 180])%list →
       fires_at (tz := fixed_zone 0) every_minute t ∧ t ≤ seconds 190).
Proof.
  pose proof (due_times_exact (tz := fixed_zone 0) (tz_laws := utc_laws) config_trg every_minute
    (seconds 190) RunOnce (seconds 60)) as Hd. cbv zeta in Hd. rewrite minutes_due_eq in Hd. destruct Hd as (dropped & Hord & Hall & _ & _ & Htot & _).
  exists dropped. split; [cbn in Htot; lia|]. split; [exact Hord|exact Hall].
Defined.

(** A time is fired at 125 seconds and tried again at 190: it is logged once. *)
Definition fire_at_ (id : InvocationId) (now : Timestamp) (s : TriggerStore) : Fire.t * TriggerStore :=
  fire_cron cfg0 codec_bits default_async_config codec_trg (outside_trg id now) cron_trigger cron_spec
    (seconds 120) now s.

Lemma cron_trigger_id : tg_id cron_trigger = trg_a.
Proof. vm_compute. reflexivity. Qed.

Definition store_fired : TriggerStore := (fire_at_ "inv_x" (seconds 125) cron_store).2.
Definition log_fired : list (TriggerId * Timestamp) :=
  logged codec_trg (tg_id cron_trigger) (seconds 120) cron_store store_fired [].

Lemma log_fired_eq : log_fired = [(trg_a, seconds 120)].
Proof. vm_compute. reflexivity. Qed.

Lemma window_125 : seconds 125 - slack config_trg ≤ seconds 125 ≤ seconds 125
  ∧ seconds 125 - TriggersConf.max_catchup config_trg - seconds 1 < seconds 120 ≤ seconds 125.
Proof. by vm_compute. Qed.
Lemma window_190 : seconds 190 - slack config_trg ≤ seconds 190 ≤ seconds 190
  ∧ seconds 190 - TriggersConf.max_catchup config_trg - seconds 1 < seconds 120 ≤ seconds 190.
Proof. by vm_compute. Qed.
Lemma slack_trg : 0 ≤ slack config_trg.
Proof. by vm_compute. Qed.

Lemma scheduled_time_fires_once_witness :
  NoDup (logged codec_trg (tg_id cron_trigger) (seconds 120) store_fired
           (fire_at_ "inv_y" (seconds 190) store_fired).2 log_fired)
  ∧ log_fired = [(trg_a, seconds 120)] ∧ 0 ≤ slack config_trg.
Proof.
  destruct (fire_at_ "inv_x" (seconds 125) cron_store) as [r1 s1] eqn:H1.
  destruct (fire_at_ "inv_y" (seconds 190) store_fired) as [r2 s2] eqn:H2.
  pose (w := mkWorld s2 (seconds 190)
    (logged codec_trg (tg_id cron_trigger) (seconds 120) store_fired s2 log_fired)).
  assert (Hrun : rtc (wstep cfg0 codec_bits default_async_config config_trg codec_trg)
    (mkWorld cron_store (seconds 125) []) w).
  { assert (s1 = store_fired) as Hs1 by (unfold store_fired; by rewrite H1).
    unfold fire_at_ in H1, H2. subst s1.
    apply rtc_l with (mkWorld store_fired (seconds 125) log_fired).
    { unfold log_fired. exact (w_fire cfg0 codec_bits default_async_config config_trg codec_trg cron_store (seconds 125) []
        (outside_trg "inv_x" (seconds 125)) cron_trigger cron_spec (seconds 120) (seconds 125) r1 store_fired
        (proj1 window_125) (proj2 window_125) H1). }
    apply rtc_l with (mkWorld store_fired (seconds 190) log_fired).
    { apply w_tick. vm_compute. discriminate. }
    apply rtc_once. unfold w.
    exact (w_fire cfg0 codec_bits default_async_config config_trg codec_trg store_fired (seconds 190) log_fired
      (outside_trg "inv_y" (seconds 190)) cron_trigger cron_spec (seconds 120) (seconds 190) r2 s2
      (proj1 window_190) (proj2 window_190) H2). }
  destruct (scheduled_time_fires_once cfg0 codec_bits default_async_config config_trg codec_trg _ _ _ Hrun)
    as [Hnd Hslack].
  split; [exact Hnd|]. split; [exact log_fired_eq|].
  exact slack_trg.
Defined.

Definition owner_trg : DispatcherId := "dsp_a".
Lemma scheduler_pass_refines_witness :
  ∃ s' log', rtc (wstep cfg0 codec_bits default_async_config config_trg codec_trg)
    (mkWorld cron_store (seconds 190) []) (mkWorld s' (seconds 190) log').
Proof.
  destruct (scheduler_pass cfg0 codec_bits default_async_config config_trg codec_trg false owner_trg
    (seconds 10) (seconds 190) (λ _, outs_trg) None cron_store) as [out s'] eqn:Hp.
  destruct (scheduler_pass_refines cfg0 codec_bits default_async_config config_trg codec_trg
    slack_trg false owner_trg (seconds 10) (seconds 190) (λ _, outs_trg) None cron_store out s' [] Hp)
    as [log' Hl].
  exists s', log'. exact Hl.
Defined.

Lemma cron_pass_eq : cron_pass.1 = mkScheduler false 0 1 0 0 1 1 0 1 0.
Proof. vm_compute. reflexivity. Qed.
Lemma cron_row : ts_triggers cron_store !! tg_id cron_trigger = Some (cron_trigger, None).
Proof. vm_compute. reflexivity. Qed.

(** The fire of 180 seconds is deferred: it is not lost. *)
Lemma pass_loses_no_time_witness :
  tried cfg0 codec_bits codec_trg outs_trg cron_trigger cron_spec cron_store cron_pass.2 (seconds 180)
  ∨ still_due cron_trigger cron_pass.2 (seconds 180).
Proof.
  destruct cron_pass as [report s'] eqn:Hp. cbn [snd].
  pose proof cron_pass_eq as Hrep. rewrite Hp in Hrep. cbn [fst] in Hrep.
  destruct (pass_loses_no_time cfg0 codec_bits default_async_config config_trg codec_trg outs_trg cron_trigger
    cron_spec (seconds 190) None every_minute (fixed_zone 0) (seconds 60) empty_report cron_store report s'
    (seconds 180)) as [Ht|[Hd|Hi]].
  - vm_compute. reflexivity.
  - vm_compute. reflexivity.
  - reflexivity.
  - vm_compute. reflexivity.
  - exact cron_row.
  - exact Hp.
  - cbn [cr_missed_run_policy cron_spec]. rewrite minutes_due_eq. right. left.
  - left. exact Ht.
  - right. exact Hd.
  - exfalso. rewrite Hrep in Hi. discriminate Hi.
Defined.
