(* ===== verification/WebhookProps.v ===== *)
(** * What webhook deliveries guarantee

    A delivery starts an invocation only when it is signed with the trigger's secret, fresh and
    within its limits; a refused one writes nothing; a delivery repeated while its signature is
    fresh is answered with the invocation of the first; the secret returned once verifies what is
    signed with it; a deleted trigger never fires again. *)

From Stdlib Require Import Ascii.
From S2P Require Import Prelude Ids Egress Functions Invocation Revision Guard Slot Store StoreInv Retry.
From S2P Require Import Outbox Dispatch LedgerInv AsyncRun AsyncFront AsyncFrontProps.
From S2P Require Import Calendar Cron TriggerStore Webhook Triggers TriggerInv TriggerService TriggerRun.

Open Scope string_scope.
Open Scope Z_scope.

Section deliveries.
Context `{Calendar, Hashing} (cfg : StoreConfig) (o : Codec) (c : InvokeAsyncConfig).
Context (tc : TriggersConfig) (k : TriggerCodec).

(** ** What is checked *)

(** A delivery that passes: within the size, fresh, signed, of an enabled trigger. *)
Record authentic (t : Trigger) (spec : WebhookSpec) (d : WebhookDelivery) (body : string)
    (now : Timestamp) (s : TriggerStore) (event_id digest : string) : Prop := {
  au_size : byte_len body ≤ wh_max_body_bytes spec;
  au_fresh : ∃ raw, wd_timestamp d = Some raw ∧ bytes_all is_ascii_digit raw = true
    ∧ Z.abs (unix_seconds now - digits_value raw) ≤ wh_tolerance_seconds spec;
  au_signed : ∃ secret raw header entry,
    unseal k t s = Ok secret ∧ wd_timestamp d = Some raw ∧ wd_signature d = Some header
    ∧ byte_len header ≤ MAX_SIGNATURE_HEADER ∧ entry ∈ split_on "," header
    ∧ entry_matches (hmac_sha256 secret (raw +:+ "." +:+ body)) entry
    ∧ digest = hex_encode (digest_of (hmac_sha256 secret (raw +:+ "." +:+ body)));
  au_enabled : is_enabled t = true;
  au_event : wd_event_id d = Some event_id ∧ valid_event_id event_id = true
}.

Lemma check_timestamp_Ok header now tolerance ts :
  check_timestamp header now tolerance = Ok ts →
  ∃ raw, header = Some raw ∧ bytes_all is_ascii_digit raw = true ∧ ts = digits_value raw
    ∧ Z.abs (now - ts) ≤ tolerance.
Proof.
  unfold check_timestamp. destruct header as [raw|]; [|done]. intros Hr. pass Hr.
  destruct (_ <? Z.abs _) eqn:Hd; [done|]. injection Hr as <-. bools. exists raw.
  split_and!; try done. lia.
Qed.

Lemma verify_authentic t spec d body now s event_id digest :
  verify k t spec d body now s = Ok (event_id, digest) → authentic t spec d body now s event_id digest.
Proof.
  unfold verify. intros Hv. pass Hv. apply result_bind_Ok in Hv as (ts & Hts & Hv).
  apply map_err_Ok, check_timestamp_Ok in Hts as (raw & Hraw & Hdig & -> & Hfresh).
  apply result_bind_Ok in Hv as (secret & Hsec & Hv).
  apply result_bind_Ok in Hv as (dg & Hsig & Hv). apply map_err_Ok in Hsig. pass Hv.
  rewrite Hraw in Hsig. cbn in Hsig.
  destruct (wd_signature d) as [header|] eqn:Hh; [|done].
  apply signature_verifies_iff in Hsig as (Hlen & (entry & Hin & Hm) & ->).
  destruct (wd_event_id d) as [e|] eqn:He; [|done]. destruct (valid_event_id e) eqn:Hval; [|done].
  injection Hv as <- <-. bools. split; try done.
  - by exists raw.
  - by exists secret, raw, header, entry.
Qed.

(** ** What is written *)

(** The fire of a delivery already recorded under its event id or its signature. *)
Definition seen (t : Trigger) (event_id digest : string) (s : TriggerStore) (f : FireRecord) : Prop :=
  get_fire (tg_id t) (event_key event_id) s = Some f
  ∨ fire_by_signature (tg_id t) digest s = Some f.

Lemma webhook_replay_Ok t event_id f s a :
  webhook_replay t event_id f s = Ok a →
  wa_replayed a = true ∧ ∃ id, fr_invocation_id f = Some id ∧ rows s !! id = Some (wa_invocation a).
Proof.
  unfold webhook_replay. destruct (fr_invocation_id f) as [id|]; [|done]. cbn.
  destruct (_ !! id) as [inv|] eqn:Hi; [|done]. intros [= <-]. split; [done|]. by exists id.
Qed.

(** A fresh invocation and its fire, committed together. *)
Record delivered_new (f : FireOutside) (t : Trigger) (d : WebhookDelivery) (body : string)
    (now : Timestamp) (event_id digest : string) (inv : Invocation) (s s' : TriggerStore) : Prop := {
  dn_unseen : ∀ g, ¬ seen t event_id digest s g;
  dn_commits : ∃ input event, commits cfg o c
    (request k t (webhook_event k t event_id (wd_content_type d) body)
       ("webhook:" +:+ tg_id t +:+ ":" +:+ event_id))
    (outside_for t f) (mkClaim None (webhook_fire t event_id digest now)) inv input event s s'
}.

(** What a delivery does, whatever it meets outside. *)
Inductive delivery_effect (f : FireOutside) (t : Trigger) (d : WebhookDelivery) (body : string)
    (now : Timestamp) (s : TriggerStore) : result AppError WebhookAcceptance → TriggerStore → Prop :=
| de_refused e : delivery_effect f t d body now s (Err e) s
| de_replay spec event_id digest a :
    tg_spec t = WebhookTrigger spec → authentic t spec d body now s event_id digest →
    wa_replayed a = true →
    (∃ g, or_else (get_fire (tg_id t) (event_key event_id) s) (fire_by_signature (tg_id t) digest s)
            = Some g ∧ webhook_replay t event_id g s = Ok a)
    ∨ (∀ g, ¬ seen t event_id digest s g) →
    delivery_effect f t d body now s (Ok a) s
| de_new spec event_id digest inv s' r :
    tg_spec t = WebhookTrigger spec → authentic t spec d body now s event_id digest →
    delivered_new f t d body now event_id digest inv s s' →
    r = Ok (mkWebhookAcceptance (tg_id t) event_id inv false)
    ∨ os_fail_after_commit (fo_out f) = true ∧ (∃ m, r = Err (Platform m)) →
    delivery_effect f t d body now s r s'.

Lemma delivery_effect_spec f t d body now s r s' :
  verify_and_accept cfg o c k f t d body now s = (r, s') → delivery_effect f t d body now s r s'.
Proof.
  unfold verify_and_accept. destruct (tg_spec t) as [|spec] eqn:Hspec; [intros [= <- <-]; constructor|].
  destruct (verify _ _ _ _ _ _ _) as [[event_id digest]|e] eqn:Hv; [|intros [= <- <-]; constructor].
  apply verify_authentic in Hv.
  destruct (or_else _ _) as [g|] eqn:Hg.
  { intros [= <- <-]. destruct (webhook_replay _ _ _ _) as [a|e] eqn:Hr; [|constructor].
    eapply de_replay; [done|done| |left; by eauto]. by apply webhook_replay_Ok in Hr as [? _]. }
  assert (Hunseen : ∀ g, ¬ seen t event_id digest s g).
  { intros g [E|E]; rewrite E in Hg; [done|]. by destruct (get_fire _ _ _). }
  destruct (fo_authorize f) as [u|e]; [|intros [= <- <-]; constructor].
  destruct (accept_for_trigger _ _ _ _ _ _ _) as [answer s2] eqn:Ha.
  apply accept_for_trigger_spec in Ha as [(-> & Hrep & Hknown & _)|(inv & input & event & Hc & Hr)].
  - destruct answer as [[a|g|[t'|]]|e]; try (intros [= <- <-]; constructor).
    + intros [= <- <-]. eapply de_replay; [done|done| |by right]. by apply Hrep.
    + intros [= <- <-]. exfalso. destruct (Hknown g eq_refl) as [Hk|(dg & [= <-] & Hk)].
      * by apply (Hunseen g); left.
      * by apply (Hunseen g); right.
    + destruct (_ == _); intros [= <- <-]; constructor.
  - destruct Hr as [->|(Hl & m & ->)]; intros [= <- <-]; eapply de_new; eauto; split; eauto.
Qed.
(** C15: A delivery is accepted only if it is authentic, and starts at most one invocation.
    Whatever the store and whatever the acceptance meets outside: when [verify_and_accept] answers
    with an invocation, the trigger is an enabled webhook, the body is within its limit, the
    timestamp is a decimal number within the tolerance of the clock, the signature header carries
    the HMAC of timestamp and body under the secret unsealed for the trigger, and the event id is
    valid. A new invocation has its row, input, event and fire committed together, the fire under
    the event id and the digest of the signature, neither recorded before; a replay changes
    nothing. *)
Theorem only_signed_deliveries_fire f t d body now s a s' :
  triggers_wf s →
  verify_and_accept cfg o c k f t d body now s = (Ok a, s') →
  ∃ spec event_id digest, tg_spec t = WebhookTrigger spec
  ∧ authentic t spec d body now s event_id digest
  ∧ triggers_wf s'
  ∧ (wa_replayed a = true ∧ s' = s ∨
     wa_replayed a = false ∧ wa_event_id a = event_id
     ∧ (∀ g, ¬ seen t event_id digest s g)
     ∧ rows s !! inv_id (wa_invocation a) = None
     ∧ rows s' !! inv_id (wa_invocation a) = Some (wa_invocation a)
     ∧ ∃ g, ts_fires s' = <[(tg_id t, event_key event_id) := g]> (ts_fires s)
            ∧ fr_invocation_id g = Some (inv_id (wa_invocation a))
            ∧ fr_signature_digest g = Some digest ∧ fr_kind g = TriggerKind.Webhook
            ∧ fr_created_at g = now).
Proof.
  intros Hwf Hv%delivery_effect_spec. inversion Hv as [|spec event_id digest a0 Hspec Hau Hrep _ Ha Hs|
    spec event_id digest inv s1 r Hspec Hau [Hun (input & event & Hc)] Hr Hr0 Hs]; subst.
  - exists spec, event_id, digest. split_and!; try done. by left.
  - exists spec, event_id, digest. split_and!; try done.
    { by eapply trun_wf, commits_run; [intros; by apply quiet_ok| |]. }
    right. destruct Hr as [[= ->]|(_ & m & [=])]. cbn.
    apply commits_row in Hc as Hrow. destruct Hrow as [_ Hrow]. destruct Hc as [_ Hf _].
    pose proof (fd_accepted _ _ _ _ _ _ Hf) as Hacc.
    split_and!; try done; [apply Hacc| |].
    + by rewrite (ac_invs _ _ _ _ _ Hacc), lookup_insert_eq.
    + eexists. split; [exact Hrow|]. done.
Qed.

(** A refused delivery writes nothing. Whatever the request and the store: when
    [verify_and_accept] answers an error the store is unchanged, unless the acceptance committed
    and only its answer was lost. *)
Theorem refused_delivery_writes_nothing f t d body now s e s' :
  verify_and_accept cfg o c k f t d body now s = (Err e, s') →
  s' = s ∨ os_fail_after_commit (fo_out f) = true.
Proof.
  intros Hv%delivery_effect_spec. inversion Hv as [|?|spec event_id digest inv s1 r _ _ _ Hr]; subst;
    [by left|]. destruct Hr as [[=]|[? _]]. by right.
Qed.
(** ** Deliveries repeated *)

(** A fire recorded is seen. *)
Lemma fire_is_seen t event_id digest s key g :
  ts_fires s !! (tg_id t, key) = Some g → fr_trigger_id g = tg_id t →
  key = event_key event_id ∨ fr_signature_digest g = Some digest →
  ∃ g', seen t event_id digest s g'.
Proof.
  intros Hg Ht [->|Hd]; [exists g; by left|].
  destruct (fire_by_signature (tg_id t) digest s) as [g'|] eqn:E; [exists g'; by right|].
  by destruct (fire_by_signature_None _ _ _ E _ _ Hg Ht).
Qed.

(** After a delivery, another with its event id or its signature starts nothing while the fire of
    the first is kept; with its event id it is answered with its invocation. *)
Lemma redelivery_starts_nothing f t d body now s a s1 wb cb s2 f2 t2 d2 body2 now2 r s3 :
  triggers_wf s →
  verify_and_accept cfg o c k f t d body now s = (Ok a, s1) → wa_replayed a = false →
  trigger_run cfg (purging_cmd wb cb) s1 s2 → wb ≤ now →
  tg_id t2 = tg_id t →
  verify_and_accept cfg o c k f2 t2 d2 body2 now2 s2 = (r, s3) →
  (∀ spec spec2 event_id digest event_id2 digest2,
     authentic t spec d body now s event_id digest →
     authentic t2 spec2 d2 body2 now2 s2 event_id2 digest2 →
     event_id2 = event_id ∨ digest2 = digest) →
  s3 = s2 ∧ ∀ a2, r = Ok a2 → wa_replayed a2 = true
    ∧ (wd_event_id d2 = wd_event_id d → inv_id (wa_invocation a2) = inv_id (wa_invocation a)).
Proof.
  intros Hwf Hv Hnew Hrun Hwb Hid Hv2 Hsame.
  destruct (only_signed_deliveries_fire _ _ _ _ _ _ _ _ Hwf Hv) as
    (spec & event_id & digest & _ & Hau & Hwf1 & [[? _]|(_ & _ & _ & _ & _ & g & Hg & Hgi & Hgd & Hgk & Hgc)]);
    [congruence|].
  assert (Hwf2 : triggers_wf s2) by (eapply trun_wf; [|exact Hwf1|exact Hrun]; eauto with tsls).
  assert (Hrow : ts_fires s2 !! (tg_id t2, event_key event_id) = Some g).
  { rewrite Hid. eapply (trun_fire _ _ _ _ _ _); [|exact Hrun|by rewrite Hg, lookup_insert_eq].
    intros cmd. apply purging_keeps. rewrite Hgk, Hgc. done. }
  assert (Hgt : fr_trigger_id g = tg_id t2) by by (apply (tw_fire_key _ Hwf2) in Hrow as [= ? _]).
  apply delivery_effect_spec in Hv2. destruct Hv2 as [e|spec2 event_id2 digest2 a2 _ Hau2 Hrep Hseen|
    spec2 event_id2 digest2 inv s3 r _ Hau2 [Hun _] _].
  - done.
  - split; [done|]. intros a3 [= <-]. split; [done|]. intros He.
    assert (event_id2 = event_id) as ->.
    { destruct Hau as [_ _ _ _ [He1 _]], Hau2 as [_ _ _ _ [He2 _]]. congruence. }
    destruct Hseen as [(g2 & Hs & Ha2)|Hno].
    2: { destruct (fire_is_seen t2 event_id digest2 s2 _ g Hrow Hgt (or_introl eq_refl)) as [g2 Hs].
         by apply Hno in Hs. }
    unfold get_fire in Hs. rewrite Hrow in Hs. injection Hs as <-.
    apply webhook_replay_Ok in Ha2 as (_ & id & Hi & Hin). rewrite Hgi in Hi. injection Hi as <-.
    by apply (wf_invocations _ (tw_ledger _ Hwf2)) in Hin.
  - exfalso. destruct (Hsame _ _ _ _ _ _ Hau Hau2) as [->| ->];
      (edestruct (fire_is_seen t2) as [g2 Hs]; [exact Hrow|exact Hgt| |by apply (Hun g2)]); auto.
Qed.
(** Two readings at which one timestamp is fresh are less than twice the tolerance and a second
    apart. *)
Lemma fresh_twice now now2 ts tol tol2 max :
  Z.abs (unix_seconds now - ts) ≤ tol → Z.abs (unix_seconds now2 - ts) ≤ tol2 → tol ≤ max → tol2 ≤ max →
  now2 - seconds (2 * max + 1) ≤ now.
Proof.
  unfold unix_seconds, seconds, nanoseconds_per_second. intros H1 H2 ? ?.
  pose proof (Z.div_mod now 1000000000). pose proof (Z.mod_pos_bound now 1000000000).
  pose proof (Z.div_mod now2 1000000000). pose proof (Z.mod_pos_bound now2 1000000000). lia.
Qed.

(** C17: A signed delivery starts at most one invocation however often it is sent. After a delivery
    started one, the same timestamp and body, under the same secret, with any signature header,
    any event id and whatever transactions, fires and purges by clocks not past the second
    delivery's in between: the second delivery changes nothing, and with the event id of the first
    it can only be answered with the same invocation. The dedup retention must be a second longer
    than twice the largest tolerance; the validation of the configuration asks a second less. *)
Theorem resent_delivery_starts_nothing f t d body now s a s1 cb s2 f2 t2 d2 now2 r s3 spec spec2 :
  triggers_wf s →
  seconds (2 * tc_webhook_max_tolerance_seconds tc + 1) ≤ TriggersConf.webhook_dedup_retention tc →
  tg_spec t = WebhookTrigger spec → wh_tolerance_seconds spec ≤ tc_webhook_max_tolerance_seconds tc →
  tg_spec t2 = WebhookTrigger spec2 → wh_tolerance_seconds spec2 ≤ tc_webhook_max_tolerance_seconds tc →
  verify_and_accept cfg o c k f t d body now s = (Ok a, s1) → wa_replayed a = false →
  trigger_run cfg (purging_cmd (now2 - TriggersConf.webhook_dedup_retention tc) cb) s1 s2 →
  tg_id t2 = tg_id t → wd_timestamp d2 = wd_timestamp d → unseal k t2 s2 = unseal k t s →
  verify_and_accept cfg o c k f2 t2 d2 body now2 s2 = (r, s3) →
  s3 = s2 ∧ ∀ a2, r = Ok a2 → wa_replayed a2 = true
    ∧ (wd_event_id d2 = wd_event_id d → inv_id (wa_invocation a2) = inv_id (wa_invocation a)).
Proof.
  intros Hwf Hret Hspec Htol Hspec2 Htol2 Hv Hnew Hrun Hid Hts Hsec Hv2.
  destruct (verify k t2 spec2 d2 body now2 s2) as [[event_id2 digest2]|e] eqn:Hver.
  2: { unfold verify_and_accept in Hv2. rewrite Hspec2, Hver in Hv2. by injection Hv2 as <- <-. }
  apply verify_authentic in Hver as Hau2.
  destruct (only_signed_deliveries_fire _ _ _ _ _ _ _ _ Hwf Hv) as (spec' & event_id & digest & Hs & Hau & _).
  rewrite Hspec in Hs. injection Hs as <-.
  assert (Hwb : now2 - TriggersConf.webhook_dedup_retention tc ≤ now).
  { destruct Hau as [_ (raw & Hr & _ & Hf) _ _ _], Hau2 as [_ (raw2 & Hr2 & _ & Hf2) _ _ _].
    assert (raw2 = raw) as -> by congruence. pose proof (fresh_twice _ _ _ _ _ _ Hf Hf2 Htol Htol2). lia. }
  eapply redelivery_starts_nothing; [exact Hwf|exact Hv|done|exact Hrun|done|done|exact Hv2|].
  intros sp sp2 ev dg ev2 dg2 [_ _ (x & raw & ? & ? & Hx & Hraw & _ & _ & _ & _ & ->) _ _]
    [_ _ (x2 & raw2 & ? & ? & Hx2 & Hraw2 & _ & _ & _ & _ & ->) _ _].
  right. assert (raw2 = raw) as -> by congruence. assert (x2 = x) as -> by congruence. done.
Qed.
(** ** Deletion *)

Lemma record_ledger f s : ts_ledger (run_tcmd cfg (TRecord f) s) = ts_ledger s.
Proof.
  cbn [run_tcmd]. unfold after_tx, record_fire. destruct (insert_fire f s) as [b s1] eqn:Hi.
  by apply insert_fire_spec in Hi as [[_ ->]|(_ & -> & _)].
Qed.

Lemma disable_ledger t reason now s : ts_ledger (disable_for t reason now s) = ts_ledger s.
Proof.
  unfold disable_for. destruct (update_trigger _ _ _ _) as [[b s1]|] eqn:Hu; [|done].
  by apply update_trigger_Ok in Hu as [[_ ->]|(_ & ? & ? & _ & _ & _ & _ & _ & _ & _ & ->)].
Qed.

(** A deleted row, with its secret, stays. *)
Lemma deleted_stays s s' id t :
  triggers_wf s → trigger_run cfg tcmd_ok s s' → ts_triggers s !! id = Some (t, None) →
  not_deleted t = false → ts_triggers s' !! id = Some (t, None).
Proof.
  intros Hwf Hrun Ht Hd.
  destruct (trun_rows cfg tcmd_ok (λ _ x, x) _ _ Hwf Hrun id _ Ht) as (p & Hp & Hle).
  by rewrite (tl_final _ _ Hle Hd) in Hp.
Qed.

Lemma delete_row p function id now s t s1 :
  triggers_wf s → delete_trigger p function id now s = (Ok t, s1) →
  ts_triggers s1 !! id = Some (t, None) ∧ tg_status t = TriggerStatus.Deleted.
Proof.
  unfold delete_trigger. intros Hwf Hd%answer_Ok. follow.
  match goal with Ho : owned_trigger _ _ _ _ = Ok ?x |- _ => rename x into cur; rename Ho into Hown end.
  match goal with Hu : ledger _ = Ok _ |- _ => apply map_err_Ok, update_trigger_Ok in Hu as Hup end.
  assert (tg_id cur = id) as Hid.
  { unfold owned_trigger, get_trigger in Hown. apply result_bind_Ok in Hown as (u & _ & Hown).
    destruct (ts_triggers s !! id) as [[t0 sealed]|] eqn:Ht; [|done]. cbn in Hown.
    destruct (_ && _ && _); [|done]. injection Hown as <-. by eapply tw_keyed. }
  destruct Hup as [[-> _]|(_ & old & sealed & _ & _ & _ & _ & _ & _ & _ & ->)]; [done|].
  split; [|done]. cbn. by rewrite Hid, lookup_insert_eq.
Qed.

(** A deleted trigger never fires again. After [delete] answered, over any run of transactions
    of any services: the row is still the deleted one and its sealed secret is gone; and no cron
    fire and no delivery for it, from any copy of the trigger read before, changes the ledger of
    invocations. *)
Theorem deleted_trigger_is_silent p function id now s t s1 s2 :
  triggers_wf s → delete_trigger p function id now s = (Ok t, s1) →
  trigger_run cfg tcmd_ok s1 s2 →
  get_trigger id s2 = Some t ∧ tg_status t = TriggerStatus.Deleted ∧ trigger_secret id s2 = None
  ∧ (∀ f t' d body now' r s3, tg_id t' = id →
       verify_and_accept cfg o c k f t' d body now' s2 = (r, s3) → s3 = s2 ∧ is_err r = true)
  ∧ (∀ f t' spec at_ now' r s3, tg_id t' = id →
       fire_cron cfg o c k f t' spec at_ now' s2 = (r, s3) → ts_ledger s3 = ts_ledger s2).
Proof.
  intros Hwf Hd Hrun. pose proof (delete_run cfg _ _ _ _ _ _ _ Hd) as Hrun1.
  assert (Hwf1 : triggers_wf s1) by (eapply trun_wf; [|exact Hwf|exact Hrun1]; eauto with tsls).
  apply delete_row in Hd as [Hrow Hst]; [|done].
  assert (Hnd : not_deleted t = false) by (unfold not_deleted; by rewrite Hst).
  pose proof (deleted_stays _ _ _ _ Hwf1 Hrun Hrow Hnd) as Hrow2.
  assert (Hsec : trigger_secret id s2 = None) by (unfold trigger_secret; rewrite Hrow2; cbn; by rewrite Hnd).
  split_and!; [unfold get_trigger; by rewrite Hrow2|done|done| |].
  - intros f t' d body now' r s3 <- Hv%delivery_effect_spec.
    assert (Hno : ∀ spec ev dg, ¬ authentic t' spec d body now' s2 ev dg).
    { intros spec ev dg [_ _ (secret & raw & hd & en & Hu & _) _ _]. unfold unseal in Hu. by rewrite Hsec in Hu. }
    destruct Hv as [e|spec ev dg a _ Hau|spec ev dg inv s3 r _ Hau]; [done| |]; by apply Hno in Hau.
  - intros f t' spec at_ now' r s3 <- Hf%fire_cron_effect.
    destruct Hf as [r0 _ _|inv input event s3 r0 Hc _|e s3 s4 r0 -> _ _ Hr]; [done| |].
    + exfalso. destruct Hc as [_ [_ (t0 & Ht0 & Hen & _) _ _ _ _ _ _] _]. cbn in Ht0.
      unfold get_trigger in Ht0. rewrite Hrow2 in Ht0. injection Ht0 as <-.
      unfold is_enabled in Hen. rewrite Hst in Hen. done.
    + destruct Hr as [[_ ->]|[_ ->]]; rewrite ?disable_ledger; apply record_ledger.
Qed.
End deliveries.

(** ** The secret returned once *)

Section created.
Context `{Calendar, HashLaws} (cfg : StoreConfig) (o : Codec) (c : InvokeAsyncConfig).
Context (tc : TriggersConfig) (k : TriggerCodec) (show : DomainError → string).

(** What a created trigger with a secret left in the store. *)
Lemma create_row p function req now ulid random s ws s' secret :
  create cfg tc k show p function req now ulid random s = (Ok ws, s') → ws_secret ws = Some secret →
  ∃ seal, tk_seal k = Some seal
    ∧ trigger_secret (tg_id (ws_trigger ws)) s'
      = Some (seal secret (secret_aad (tg_id (ws_trigger ws)) (tg_tenant_id (ws_trigger ws))))
    ∧ is_enabled (ws_trigger ws) = ct_enabled req.
Proof.
  unfold create. intros Hr%answer_Ok Hsec. follow. cbn in Hsec. subst.
  match goal with Hs : seal_opt _ _ _ = Ok _ |- _ =>
    unfold seal_opt, seal in Hs; apply result_bind_Ok in Hs as (sealed & Hseal & [= <-]) end.
  destruct (tk_seal k) as [seal|] eqn:Hk; [|done]. injection Hseal as <-.
  match goal with Hi : ledger _ = Ok _ |- _ =>
    apply map_err_Ok, insert_trigger_Ok in Hi as [_ ->] end.
  exists seal. split; [done|]. cbn. unfold trigger_secret. cbn. rewrite lookup_insert_eq. cbn.
  unfold not_deleted, is_enabled. cbn. by destruct (ct_enabled req).
Qed.

(** The secret returned at creation verifies what is signed with it. When [create] answered with
    a secret for an enabled webhook, the cipher opens what it sealed, and the secret is UTF-8:
    every delivery whose header is [sign] of that secret over its timestamp and body, with a
    timestamp of at most twelve digits within the tolerance, a body within the limit and a valid
    event id, passes the verification against the store the creation left. *)
Theorem created_webhook_verifies p function req now ulid random s ws s' secret spec ts body event_id ct now2 :
  create cfg tc k show p function req now ulid random s = (Ok ws, s') → ws_secret ws = Some secret →
  tg_spec (ws_trigger ws) = WebhookTrigger spec → ct_enabled req = true →
  (∀ seal plain aad, tk_seal k = Some seal → tk_open k (seal plain aad) aad = Some plain) →
  tk_is_utf8 k secret = true →
  byte_len body ≤ wh_max_body_bytes spec → 0 ≤ ts → byte_len (pretty ts) ≤ 12 →
  Z.abs (unix_seconds now2 - ts) ≤ Z.min (wh_tolerance_seconds spec) i64_max →
  valid_event_id event_id = true →
  verify k (ws_trigger ws) spec
    (mkDelivery (Some (pretty ts)) (Some (sign secret ts body)) (Some event_id) ct) body now2 s'
  = Ok (event_id, hex_encode (digest_of (hmac_sha256 secret (pretty ts +:+ "." +:+ body)))).
Proof.
  intros Hc Hsec Hspec Hen Hopen Hutf Hbody Hts Hlen Htol He.
  destruct (create_row _ _ _ _ _ _ _ _ _ _ Hc Hsec) as (seal & Hk & Hrow & Hena).
  destruct (pretty_Z_digits ts Hts) as [Hdig Hval].
  assert (Hne : pretty ts ≠ "") by (intros E; rewrite E in Hval; cbn in Hval; by subst ts).
  unfold verify. rewrite (proj2 (Z.ltb_ge _ _) Hbody). cbn [wd_timestamp wd_signature wd_event_id].
  unfold check_timestamp. rewrite bool_decide_eq_false_2 by done. rewrite Hdig.
  rewrite (proj2 (Z.ltb_ge _ _) Hlen). cbn [orb negb]. unfold parse_short_i64. rewrite Hval.
  rewrite (proj2 (Z.ltb_ge _ _) Htol). cbn [map_err mbind result_bind].
  unfold unseal. rewrite Hrow, Hk, (Hopen _ _ _ Hk), Hutf. cbn [mbind result_bind unwrap_or default].
  change (default "" (Some (pretty ts))) with (pretty ts). rewrite sign_verifies.
  cbn [map_err mbind result_bind]. rewrite Hena, Hen. cbn [negb]. by rewrite He.
Qed.
End created.

(** ** The theorems at work *)

From S2P Require Import Scenario Gregorian TriggerScenario.

Definition first_delivery : result AppError WebhookAcceptance * TriggerStore :=
  deliver "inv_1" "e1" (seconds 1000) hook_store.
(** The acceptance of an answer. *)
Definition acceptance_of (r : result AppError WebhookAcceptance) : WebhookAcceptance :=
  match r with Ok a => a | Err _ => mkWebhookAcceptance "" "" inv0 true end.
Definition first_acceptance : WebhookAcceptance := acceptance_of first_delivery.1.
Definition delivered_store : TriggerStore := first_delivery.2.


(** A successful answer is its acceptance with the store left. *)
Lemma answered (x : result AppError WebhookAcceptance * TriggerStore) :
  is_ok x.1 = true → x = (Ok (acceptance_of x.1), x.2).
Proof. by destruct x as [[a|e] s]. Qed.

Lemma first_delivery_eq : first_delivery = (Ok first_acceptance, delivered_store).
Proof. apply answered. vm_compute. reflexivity. Qed.
Lemma first_delivery_new : wa_replayed first_acceptance = false.
Proof. vm_compute. reflexivity. Qed.

Lemma hook_store_wf : triggers_wf hook_store.
Proof.
  eapply trun_wf; [exact quiet_ok|exact store_trg_wf|]. eapply create_run, hooked_eq.
Qed.

Lemma only_signed_deliveries_fire_witness :
  triggers_wf delivered_store ∧ wa_replayed first_acceptance = false
  ∧ rows delivered_store !! inv_id (wa_invocation first_acceptance) = Some (wa_invocation first_acceptance).
Proof.
  destruct (only_signed_deliveries_fire cfg0 codec_bits default_async_config codec_trg _ _ _ _ _ _ _ _
    hook_store_wf first_delivery_eq) as (spec & ev & dg & _ & _ & Hwf & [[Hr _]|(Hr & _ & _ & _ & Hrow & _)]).
  - exfalso. rewrite first_delivery_new in Hr. discriminate Hr.
  - split; [exact Hwf|]. split; [exact Hr|exact Hrow].
Defined.

(** A body that is not the signed one. *)
Definition forged_delivery : result AppError WebhookAcceptance * TriggerStore :=
  verify_and_accept cfg0 codec_bits default_async_config codec_trg (outside_trg "inv_2" (seconds 1000))
    hook_trigger (delivery_at "e2") "{1}" (seconds 1000) hook_store.

Lemma forged_delivery_refused : is_ok forged_delivery.1 = false.
Proof. vm_compute. reflexivity. Qed.

Lemma refused_delivery_writes_nothing_witness :
  ∃ e, forged_delivery = (Err e, hook_store).
Proof.
  pose proof forged_delivery_refused as Hno. destruct forged_delivery as [r s] eqn:Hf.
  destruct r as [a|e]; [discriminate Hno|].
  - exists e. destruct (refused_delivery_writes_nothing cfg0 codec_bits default_async_config codec_trg
      _ _ _ _ _ _ _ _ Hf) as [->|Hc]; [reflexivity|]. exfalso. discriminate Hc.
Defined.

(** The same delivery under another event id, half a minute later: no second invocation. *)
Definition config_wide : TriggersConfig :=
  mkTriggersConfig 1000 100 30 600 100 20 (256 * 1024) 60 60 121 1200 false false.

Lemma hook_spec_eq : tg_spec hook_trigger
  = WebhookTrigger (mkWebhookSpec "generic-hmac" 60 262144 "x-tachyon-webhook-id" "sha256:48d243512bc1").
Proof. vm_compute. reflexivity. Qed.
Lemma resent_answered : is_ok (deliver "inv_2" "e2" (seconds 1030) delivered_store).1 = true.
Proof. vm_compute. reflexivity. Qed.

Lemma resent_delivery_starts_nothing_witness :
  ∃ r, deliver "inv_2" "e2" (seconds 1030) delivered_store = (r, delivered_store)
  ∧ (∀ a, r = Ok a → wa_replayed a = true) ∧ is_ok r = true.
Proof.
  pose proof resent_answered as Hok.
  destruct (deliver "inv_2" "e2" (seconds 1030) delivered_store) as [r s] eqn:Hd.
  destruct (resent_delivery_starts_nothing cfg0 codec_bits default_async_config config_wide codec_trg
    (outside_trg "inv_1" (seconds 1000)) hook_trigger (delivery_at "e1") "{}" (seconds 1000) hook_store
    first_acceptance delivered_store 0 delivered_store (outside_trg "inv_2" (seconds 1030)) hook_trigger
    (delivery_at "e2") (seconds 1030) r s _ _ hook_store_wf ltac:(vm_compute; discriminate)
    hook_spec_eq ltac:(vm_compute; discriminate) hook_spec_eq ltac:(vm_compute; discriminate)
    first_delivery_eq first_delivery_new (trun_here _ _ _) eq_refl eq_refl) as [-> Hall].
  - vm_compute. reflexivity.
  - exact Hd.
  - exists r. split; [reflexivity|]. split; [intros a Ha; exact (proj1 (Hall a Ha))|exact Hok].
Defined.

(** With a dedup retention of exactly twice the tolerance, as [validate] allows, the fire of a
    delivery can be purged while its signature is still fresh: sent once at 940 seconds and again
    at 1060.9, after a purge at 1060.5, the delivery signed at 1000 starts two invocations. *)
Example dedup_gap_starts_two :
  let purge_at := seconds 1060 + 500000000 in
  let again_at := seconds 1060 + 900000000 in
  let '(r1, s1) := deliver "inv_1" "e1" (seconds 940) hook_store in
  let s2 := run_tcmd cfg0 (TPurge (purge_at - TriggersConf.webhook_dedup_retention config_trg)
                             (purge_at - TriggersConf.fire_retention config_trg)) s1 in
  let '(r2, s3) := deliver "inv_2" "e2" again_at s2 in
  TriggersConf.validate config_trg = Ok tt
  ∧ match r1, r2 with
    | Ok a1, Ok a2 => wa_replayed a1 = false ∧ wa_replayed a2 = false
        ∧ inv_id (wa_invocation a1) = "inv_1" ∧ inv_id (wa_invocation a2) = "inv_2"
    | _, _ => False
    end.
Proof. vm_compute. auto. Qed.

Definition hook_deleted : result AppError Trigger * TriggerStore :=
  delete_trigger deployer_a "fn_a" trg_a 5 delivered_store.

Lemma hook_deleted_ok : is_ok hook_deleted.1 = true.
Proof. vm_compute. reflexivity. Qed.
Lemma hook_trigger_id : tg_id hook_trigger = trg_a.
Proof. vm_compute. reflexivity. Qed.

Lemma deleted_trigger_is_silent_witness :
  ∃ t s, hook_deleted = (Ok t, s) ∧ trigger_secret trg_a s = None
  ∧ ∃ e, deliver "inv_3" "e3" (seconds 1001) s = (Err e, s).
Proof.
  pose proof hook_deleted_ok as Hok.
  destruct hook_deleted as [[t|e] s] eqn:Hd; [|discriminate Hok].
  exists t, s. split; [reflexivity|].
  pose proof only_signed_deliveries_fire_witness as (Hwf & _).
  destruct (deleted_trigger_is_silent cfg0 codec_bits default_async_config codec_trg _ _ _ _ _ _ _ s Hwf Hd
    (trun_here _ _ _)) as (_ & _ & Hsec & Hdel & _).
  split; [exact Hsec|]. destruct (deliver "inv_3" "e3" (seconds 1001) s) as [r s3] eqn:Hv.
  destruct (Hdel (outside_trg "inv_3" (seconds 1001)) hook_trigger (delivery_at "e3") "{}" (seconds 1001) r s3
    hook_trigger_id Hv) as [-> Herr].
  destruct r as [a|e]; [discriminate Herr|]. exists e. reflexivity.
Defined.

Lemma created_webhook_verifies_witness :
  ∃ spec dg, verify codec_trg hook_trigger spec (delivery_at "e1") "{}" (seconds 1000) hook_store = Ok ("e1", dg).
Proof.
  eexists _, _.
  apply (created_webhook_verifies cfg0 config_trg codec_trg (λ _, "refused") deployer_a "fn_a" create_hook 0
    ulid_a "0123456789abcdef" store_trg (mkWithSecret hook_trigger (Some hook_secret)) hook_store hook_secret
    _ 1000 "{}" "e1" None (seconds 1000) hooked_eq eq_refl hook_spec_eq eq_refl).
  - intros seal plain aad [= <-]. cbn [codec_trg tk_open].
    apply strip_prefix_app.
  - reflexivity.
  - vm_compute. discriminate.
  - lia.
  - vm_compute. discriminate.
  - vm_compute. discriminate.
  - reflexivity.
Defined.
