(* ===== verification/Queue.v ===== *)
(** * The embedded event queue

    [crates/application/src/durable/sqlite_queue.rs], the queue of one node, with the types of
    its port [crates/durable-port/src/queue.rs]: a stream of messages with its limits, the ids of
    recent messages, and the consumers bound to topics. A transaction is a function of the
    database whose error leaves it as it was; what SQLite does with an access, and the clock, are
    arguments. Columns count milliseconds. [published_at] of a delivery is a clock reading cut to
    milliseconds, so it is in the range of instants. *)

From S2P Require Import Prelude Sums Ids Egress Cron UsageJournal AsyncFront.
From Stdlib Require Import Ascii.

Open Scope string_scope.
Open Scope Z_scope.

(** [i64::saturating_add] and [i64::saturating_sub] *)
Definition i64_min : Z := - 2 ^ 63.
Definition i64_clamp (z : Z) : Z := Z.max i64_min (Z.min z i64_max).
Definition i64_saturating_add (a b : Z) : Z := i64_clamp (a + b).
Definition i64_saturating_sub (a b : Z) : Z := i64_clamp (a - b).

(** [s.parse::<i64>()] *)
Definition parse_i64 (s : string) : option Z :=
  let '(negative, digits) :=
    match s with
    | String "+" r => (false, r)
    | String "-" r => (true, r)
    | _ => (false, s)
    end in
  let v := if negative : bool then - digits_value digits else digits_value digits in
  if negb (byte_len digits =? 0) && bytes_all is_ascii_digit digits && (i64_min <=? v) && (v <=? i64_max)
  then Some v else None.

#[global] Instance Z_btree_key : BTreeKey Z := {| bt_le := Z.le |}.

(** ** The port *)

(** [crates/durable-port/src/queue.rs:247-258 QueueLimits] *)
Record QueueLimits := mkQueueLimits {
  ql_max_messages : Z;
  ql_max_bytes : Z;
  ql_max_message_bytes : Z;
  ql_max_age : Duration;
  ql_duplicate_window : Duration
}.

(** [crates/durable-port/src/queue.rs:261-269 default] *)
Definition default_queue_limits : QueueLimits :=
  mkQueueLimits 100000 (256 * 1024 * 1024) (256 * 1024) (seconds (7 * 24 * 60 * 60)) (seconds (2 * 60)).

(** [crates/durable-port/src/queue.rs:273-287 validate] *)
Definition validate_queue_limits (l : QueueLimits) : result string unit :=
  when! (ql_max_messages l =? 0) || (ql_max_bytes l =? 0) || (ql_max_message_bytes l =? 0) return!
    Err "max_messages, max_bytes and max_message_bytes must be > 0";;
  when! ql_max_bytes l <? ql_max_message_bytes l return! Err "max_message_bytes must be <= max_bytes";;
  when! ql_max_age l =? 0 return! Err "max_age must be > 0 (an unbounded stream is not allowed)";;
  when! (ql_duplicate_window l =? 0) || (ql_max_age l <? ql_duplicate_window l) return!
    Err "duplicate_window must be > 0 and <= max_age";;
  Ok tt.

(** [crates/durable-port/src/queue.rs:236-245 ConsumerSpec] *)
Record ConsumerSpec := mkConsumerSpec {
  sp_name : string;
  sp_topic : string;
  sp_ack_wait : Duration;
  sp_max_deliver : Z
}.

(** [crates/durable-port/src/queue.rs:210-221 Delivery] *)
Record QueueDelivery := mkQueueDelivery {
  qv_sequence : Z;
  qv_tenant_id : TenantId;
  qv_topic : string;
  qv_message_id : string;
  qv_payload : string;
  qv_delivery_count : Z;
  qv_published_at : Timestamp;
  qv_token : string
}.

(** [crates/durable-port/src/queue.rs:290-303 BacklogStats] *)
Record BacklogStats := mkBacklogStats {
  qb_stream_messages : Z;
  qb_stream_bytes : Z;
  qb_pending : Z;
  qb_ack_pending : Z;
  qb_redelivered : Z
}.

(** ** The database *)

(** [crates/application/src/durable/sqlite_queue.rs:32-44 SCHEMA (messages)] *)
Record MessageRow := mkMessageRow {
  mr_seq : Z;
  mr_tenant_id : TenantId;
  mr_topic : string;
  mr_message_id : string;
  mr_payload : string;
  mr_size : Z;
  mr_published_ms : Z;
  mr_deliveries : Z;
  mr_visible_ms : Z
}.
#[global] Instance MessageRow_eta : Eta MessageRow := λ r,
  mkMessageRow (mr_seq r) (mr_tenant_id r) (mr_topic r) (mr_message_id r) (mr_payload r) (mr_size r)
    (mr_published_ms r) (mr_deliveries r) (mr_visible_ms r).

(** [crates/application/src/durable/sqlite_queue.rs:45-49 SCHEMA (dedup)] *)
Record DedupRow := mkDedupRow { dd_seq : Z; dd_published_ms : Z }.

(** [crates/application/src/durable/sqlite_queue.rs:50-55 SCHEMA (consumers)] *)
Record ConsumerRow := mkConsumerRow { cr_topic : string; cr_ack_wait_ms : Z; cr_max_deliver : Z }.

(** [crates/application/src/durable/sqlite_queue.rs:28-57 SCHEMA (tables)] The three tables, and the
    largest sequence number ever given out ([AUTOINCREMENT]). *)
Record QueueDb := mkQueueDb {
  qd_messages : gmap Z MessageRow;
  qd_last_seq : Z;
  qd_dedup : gmap string DedupRow;
  qd_consumers : gmap string ConsumerRow
}.
#[global] Instance QueueDb_eta : Eta QueueDb := λ d,
  mkQueueDb (qd_messages d) (qd_last_seq d) (qd_dedup d) (qd_consumers d).
Definition empty_queue_db : QueueDb := mkQueueDb ∅ 0 ∅ ∅.

(** [crates/application/src/durable/sqlite_queue.rs:68-70 ms] *)
Definition ms (t : Timestamp) : Z := t / 1000000.

(** [crates/application/src/durable/sqlite_queue.rs:72-74 dur_ms] *)
Definition dur_ms (d : Duration) : Z := Z.min (d / 1000000) i64_max.

(** What becomes of an access: the transaction runs and commits, the connection stayed taken for
    longer than a caller waits, SQLite reports the database busy, or it fails. *)
Inductive QueueAccess : Type :=
| QueueWorks
| QueueStuck
| QueueBusy (message : string)
| QueueBroken (message : string).

(** [crates/application/src/durable/sqlite_queue.rs:59-66 backend] *)
Definition backend (busy : bool) (message : string) : QueueError.t :=
  if busy then QueueError.Unavailable message else QueueError.Backend message.

(** A transaction at a clock reading in milliseconds: its error rolls back. *)
Definition qtx (A : Type) : Type := Z → QueueDb → result QueueError.t (A * QueueDb).

Section queue.
Context (display : DomainError → string) (limits : QueueLimits).

(** [crates/application/src/durable/sqlite_queue.rs:159-164 tx (retention)] *)
Definition retain (now : Z) (db : QueueDb) : QueueDb :=
  let oldest := i64_saturating_sub now (dur_ms (ql_max_age limits)) in
  db <| qd_messages ::= filter (λ e, ¬ mr_published_ms e.2 < oldest) |>.

(** [crates/application/src/durable/sqlite_queue.rs:146-168 tx] *)
Definition tx {A} (f : qtx A) (w : QueueAccess) (now : Timestamp) (db : QueueDb) : result QueueError.t A * QueueDb :=
  match w with
  | QueueStuck => (Err (QueueError.Unavailable (busy_message "queue.db")), db)
  | QueueBusy message => (Err (backend true message), db)
  | QueueBroken message => (Err (backend false message), db)
  | QueueWorks =>
      match f (ms now) (retain (ms now) db) with
      | Ok (a, db') => (Ok a, db')
      | Err e => (Err e, db)
      end
  end.

(** [crates/application/src/durable/sqlite_queue.rs:111-140 open] What the handle works with;
    [opens] is what creating the file and its schema gave. *)
Definition open (opens : result string unit) : result QueueError.t QueueLimits :=
  map_err QueueError.InvalidMessage (validate_queue_limits limits);;
  map_err QueueError.Backend opens;;
  Ok limits.

(** [crates/application/src/durable/sqlite_queue.rs:170-179 consumer] *)
Definition consumer (name : string) (db : QueueDb) : result QueueError.t ConsumerRow :=
  match qd_consumers db !! name with
  | Some row => Ok row
  | None => Err (QueueError.ConsumerNotFound name)
  end.

(** ** Delivering *)

(** [crates/application/src/durable/sqlite_queue.rs:188-188 try_fetch (where)] *)
Definition eligible (c : ConsumerRow) (now : Z) (m : MessageRow) : bool :=
  (mr_topic m == cr_topic c) && (mr_visible_ms m <=? now) && (mr_deliveries m <? cr_max_deliver c).

(** [crates/application/src/durable/sqlite_queue.rs:184-209 try_fetch (rows)] *)
Definition fetch_rows (c : ConsumerRow) (max : nat) (now : Z) (db : QueueDb) : list MessageRow :=
  take (Nat.min max 10000) (filter_values (eligible c now) (qd_messages db)).

(** [crates/application/src/durable/sqlite_queue.rs:228-228 try_fetch (token)] *)
Definition delivery_token (seq count : Z) : string :=
  "sqlite:" +:+ pretty seq +:+ ":" +:+ pretty count.

(** [crates/application/src/durable/sqlite_queue.rs:212-217 try_fetch (update)] *)
Definition hand_out (c : ConsumerRow) (now : Z) (m : MessageRow) : MessageRow :=
  m <| mr_deliveries ::= Z.succ |> <| mr_visible_ms := i64_saturating_add now (cr_ack_wait_ms c) |>.

(** [crates/application/src/durable/sqlite_queue.rs:218-229 try_fetch (delivery)] *)
Definition delivery_of (m : MessageRow) : result QueueError.t QueueDelivery :=
  let count := mr_deliveries m + 1 in
  tenant ← map_err (λ e, QueueError.Backend ("stored tenant id: " +:+ display e)) (parse_id Tenant (mr_tenant_id m));
  topic ← parse_topic (mr_topic m);
  message_id ← parse_message_id (mr_message_id m);
  Ok (mkQueueDelivery (mr_seq m) tenant topic message_id (mr_payload m)
        (if (0 <=? count) && (count <=? u32_max) then count else u32_max)
        (milliseconds (mr_published_ms m)) (delivery_token (mr_seq m) count)).

(** [crates/application/src/durable/sqlite_queue.rs:210-231 try_fetch (loop)] *)
Fixpoint deliver_rows (c : ConsumerRow) (now : Z) (rows : list MessageRow) (db : QueueDb)
    : result QueueError.t (list QueueDelivery * QueueDb) :=
  match rows with
  | [] => Ok ([], db)
  | m :: rows =>
      let db := db <| qd_messages ::= λ ms, <[mr_seq m := hand_out c now m]> ms |> in
      d ← delivery_of m;
      out ← deliver_rows c now rows db;
      Ok (d :: out.1, out.2)
  end.

(** [crates/application/src/durable/sqlite_queue.rs:182-232 try_fetch (transaction)] *)
Definition try_fetch_tx (name : string) (max : nat) : qtx (list QueueDelivery) := λ now db,
  c ← consumer name db;
  deliver_rows c now (fetch_rows c max now db) db.

(** [crates/application/src/durable/sqlite_queue.rs:181-233 try_fetch] *)
Definition try_fetch (name : string) (max : nat) := tx (try_fetch_tx name max).

(** [crates/application/src/durable/sqlite_queue.rs:235-250 parse_token] *)
Definition parse_token (token : string) : result QueueError.t (Z * Z) :=
  let malformed := Err (QueueError.InvalidMessage "malformed delivery token") in
  match split_on ":" token with
  | [scheme; seq; count] =>
      when! scheme != "sqlite" return! malformed;;
      match parse_i64 seq, parse_i64 count with
      | Some s, Some c => Ok (s, c)
      | _, _ => malformed
      end
  | _ => malformed
  end.

(** One turn of the waiting loop: what the access and the clocks are, and what others did to
    the database since the turn before. *)
Record FetchTurn := mkFetchTurn {
  ft_access : QueueAccess;
  ft_now : Timestamp;
  ft_instant : Z;
  ft_others : QueueDb → QueueDb
}.

(** [crates/application/src/durable/sqlite_queue.rs:398-410 fetch (loop)] [None]: the turns given
    are over and it still waits. *)
Fixpoint fetch_turns (name : string) (max : nat) (deadline : Z) (turns : list FetchTurn) (db : QueueDb)
    : option (result QueueError.t (list QueueDelivery) * QueueDb) :=
  match turns with
  | [] => None
  | t :: turns =>
      match try_fetch name (Nat.max max 1) (ft_access t) (ft_now t) (ft_others t db) with
      | (Ok [], db) =>
          if deadline <=? ft_instant t then Some (Ok [], db) else fetch_turns name max deadline turns db
      | answer => Some answer
      end
  end.

(** [crates/application/src/durable/sqlite_queue.rs:391-411 fetch] *)
Definition fetch (name : string) (max : nat) (wait : Duration) (start : Z) (turns : list FetchTurn) (db : QueueDb)
    : option (result QueueError.t (list QueueDelivery) * QueueDb) :=
  fetch_turns name max (start + wait) turns db.

(** ** Consumers *)

(** [crates/application/src/durable/sqlite_queue.rs:269-315 ensure_consumer (transaction)] *)
Definition ensure_consumer_tx (spec : ConsumerSpec) : qtx unit := λ now db,
  let other := fst <$> btree_find (λ c, cr_topic c == sp_topic spec) (qd_consumers db) in
  when! is_some_and other (λ name, name != sp_name spec) return!
    Err (QueueError.ConsumerConflict ("topic `" +:+ sp_topic spec +:+ "` is already consumed by `"
           +:+ default "" other +:+ "` (work queue)"));;
  let existing := cr_topic <$> qd_consumers db !! sp_name spec in
  when! is_some_and existing (λ topic, topic != sp_topic spec) return!
    Err (QueueError.ConsumerConflict ("consumer `" +:+ sp_name spec +:+ "` is bound to topic `"
           +:+ default "" existing +:+ "`"));;
  Ok (tt, db <| qd_consumers ::= λ m,
    <[sp_name spec := mkConsumerRow (sp_topic spec) (dur_ms (sp_ack_wait spec)) (sp_max_deliver spec)]> m |>).

(** [crates/application/src/durable/sqlite_queue.rs:263-316 ensure_consumer] *)
Definition ensure_consumer (spec : ConsumerSpec) (w : QueueAccess) (now : Timestamp) (db : QueueDb)
    : result QueueError.t unit * QueueDb :=
  when! (sp_max_deliver spec =? 0) || (sp_ack_wait spec =? 0) return!
    (Err (QueueError.InvalidMessage "a consumer needs max_deliver >= 1 and ack_wait > 0"), db);;
  tx (ensure_consumer_tx spec) w now db.

(** ** Publishing *)

(** [crates/application/src/durable/sqlite_queue.rs:325-329 publish (window)] *)
Definition forget_ids (now : Z) (db : QueueDb) : QueueDb :=
  let oldest := i64_saturating_sub now (dur_ms (ql_duplicate_window limits)) in
  db <| qd_dedup ::= filter (λ e, ¬ dd_published_ms e.2 < oldest) |>.

(** [crates/application/src/durable/sqlite_queue.rs:344-362 publish (room)] The sums of the
    stream fail past [i64_max], as SQLite's do. *)
Definition refuse_full (size : Z) (db : QueueDb) : result QueueError.t unit :=
  let count := Z.of_nat (base.size (qd_messages db)) in
  let bytes := total mr_size (qd_messages db) in
  when! i64_max <? bytes return! Err (backend false "integer overflow");;
  when! ql_max_messages limits <=? count return!
    Err (QueueError.QueueFull ("maximum messages exceeded (" +:+ pretty count +:+ " of "
           +:+ pretty (ql_max_messages limits) +:+ ")"));;
  when! ql_max_bytes limits <? bytes + size return!
    Err (QueueError.QueueFull ("maximum bytes exceeded (" +:+ pretty bytes +:+ " + " +:+ pretty size
           +:+ " > " +:+ pretty (ql_max_bytes limits) +:+ ")"));;
  Ok tt.

(** [crates/application/src/durable/sqlite_queue.rs:363-375 publish (row)] *)
Definition new_message (m : OutgoingMessage) (seq now : Z) : MessageRow :=
  mkMessageRow seq (om_tenant_id m) (om_topic m) (om_message_id m) (om_payload m)
    (byte_len (om_payload m)) now 0 0.

(** [crates/application/src/durable/sqlite_queue.rs:324-386 publish (transaction)] *)
Definition publish_tx (m : OutgoingMessage) : qtx Receipt := λ now db,
  let db := forget_ids now db in
  match qd_dedup db !! om_message_id m with
  | Some row => Ok (mkReceipt (dd_seq row) true, db)
  | None =>
      refuse_full (byte_len (om_payload m)) db;;
      when! i64_max <=? qd_last_seq db return! Err (backend false "database or disk is full");;
      let seq := qd_last_seq db + 1 in
      Ok (mkReceipt seq false,
          db <| qd_messages ::= λ ms, <[seq := new_message m seq now]> ms |> <| qd_last_seq := seq |>
             <| qd_dedup ::= λ ms, <[om_message_id m := mkDedupRow seq now]> ms |>)
  end.

(** [crates/application/src/durable/sqlite_queue.rs:318-389 publish] *)
Definition publish (m : OutgoingMessage) (w : QueueAccess) (now : Timestamp) (db : QueueDb)
    : result QueueError.t Receipt * QueueDb :=
  let size := byte_len (om_payload m) in
  when! ql_max_message_bytes limits <? size return!
    (Err (QueueError.MessageTooLarge size (ql_max_message_bytes limits)), db);;
  tx (publish_tx m) w now db.

(** ** Settling a delivery *)

(** [crates/application/src/durable/sqlite_queue.rs:415-419 ack (transaction)] *)
Definition remove_tx (seq : Z) : qtx unit := λ _ db, Ok (tt, db <| qd_messages ::= base.delete seq |>).

(** [crates/application/src/durable/sqlite_queue.rs:413-420 ack] *)
Definition ack (token : string) (w : QueueAccess) (now : Timestamp) (db : QueueDb) : result QueueError.t unit * QueueDb :=
  match parse_token token with
  | Err e => (Err e, db)
  | Ok (seq, _) => tx (remove_tx seq) w now db
  end.

(** [crates/application/src/durable/sqlite_queue.rs:424-436 nak (transaction)] *)
Definition nak_tx (seq count : Z) (delay : option Duration) : qtx unit := λ now db,
  let visible := i64_saturating_add now (default 0 (dur_ms <$> delay)) in
  Ok (tt, db <| qd_messages ::= alter (λ m,
        if mr_deliveries m =? count then m <| mr_visible_ms := visible |> else m) seq |>).

(** [crates/application/src/durable/sqlite_queue.rs:422-439 nak] *)
Definition nak (token : string) (delay : option Duration) (w : QueueAccess) (now : Timestamp) (db : QueueDb)
    : result QueueError.t unit * QueueDb :=
  match parse_token token with
  | Err e => (Err e, db)
  | Ok (seq, count) => tx (nak_tx seq count delay) w now db
  end.

(** [crates/application/src/durable/sqlite_queue.rs:441-443 term] *)
Definition term (token : string) := ack token.

(** ** Backlog *)

(** How many rows of a topic a condition holds of. *)
Definition count_rows (topic : string) (p : MessageRow → bool) (db : QueueDb) : Z :=
  Z.of_nat (count_values (λ m, (mr_topic m == topic) && p m) (qd_messages db)).

(** [crates/application/src/durable/sqlite_queue.rs:446-473 stats (transaction)] *)
Definition stats_tx (name : string) : qtx BacklogStats := λ now db,
  c ← consumer name db;
  let bytes := total mr_size (qd_messages db) in
  when! i64_max <? bytes return! Err (backend false "integer overflow");;
  let count p := count_rows (cr_topic c) p db in
  Ok (mkBacklogStats (Z.of_nat (base.size (qd_messages db))) bytes
        (count (λ m, mr_deliveries m =? 0))
        (count (λ m, (0 <? mr_deliveries m) && (now <? mr_visible_ms m)
                     && (mr_deliveries m <=? cr_max_deliver c)))
        (count (λ m, 1 <? mr_deliveries m)), db).

(** [crates/application/src/durable/sqlite_queue.rs:445-474 stats] *)
Definition stats (name : string) := tx (stats_tx name).

(** ** Histories *)

(** A call on the queue. *)
Inductive QueueCall : Type :=
| Publish (m : OutgoingMessage)
| Fetch (name : string) (max : nat)
| Ack (token : string)
| Nak (token : string) (delay : option Duration)
| Term (token : string)
| Ensure (spec : ConsumerSpec)
| Stats (name : string).

(** Its answer. *)
Inductive QueueAnswer : Type :=
| Published (r : result QueueError.t Receipt)
| Fetched (r : result QueueError.t (list QueueDelivery))
| Settled (r : result QueueError.t unit)
| Counted (r : result QueueError.t BacklogStats).

(** A call with what the access and the clock are: one transaction. *)
Record QueueEvent := mkQueueEvent { qe_call : QueueCall; qe_access : QueueAccess; qe_now : Timestamp }.

(** Each method as one step of the queue. [Fetch] is one turn of the waiting loop. *)
Definition queue_step (e : QueueEvent) (db : QueueDb) : QueueAnswer * QueueDb :=
  let answer {A} (k : A → QueueAnswer) (r : A * QueueDb) := (k r.1, r.2) in
  let w := qe_access e in
  let now := qe_now e in
  match qe_call e with
  | Publish m => answer Published (publish m w now db)
  | Fetch name max => answer Fetched (try_fetch name max w now db)
  | Ack token => answer Settled (ack token w now db)
  | Nak token delay => answer Settled (nak token delay w now db)
  | Term token => answer Settled (term token w now db)
  | Ensure spec => answer Settled (ensure_consumer spec w now db)
  | Stats name => answer Counted (stats name w now db)
  end.

(** A sequence of calls of any number of callers, with the answers. *)
Fixpoint queue_run (h : list QueueEvent) (db : QueueDb) : list QueueAnswer * QueueDb :=
  match h with
  | [] => ([], db)
  | e :: h =>
      let '(a, db) := queue_step e db in
      let '(l, db) := queue_run h db in
      (a :: l, db)
  end.
End queue.
