(* ===== verification/QueueProps.v ===== *)
(** * What the embedded event queue promises

    Theorems on [Queue]: what one call does to the row of one message, and from it what any
    sequence of calls of publishers and consumers does: bounds of the stream, deliveries,
    redeliveries, acknowledgements and repeated publications. *)

From S2P Require Import Prelude Sums Ids Egress Cron UsageJournal AsyncFront Queue.
From Stdlib Require Import Ascii.

Open Scope string_scope.
Open Scope Z_scope.

(** ** What an answer delivers *)

Definition deliveries (a : QueueAnswer) : list QueueDelivery :=
  if a is Fetched (Ok ds) then ds else [].
Definition deliveries_of (s : Z) (a : QueueAnswer) : list QueueDelivery :=
  filter (λ d, qv_sequence d = s) (deliveries a).

(** Rows are stored under their sequence numbers, which were all given out. *)
Record keyed (db : QueueDb) : Prop := mkKeyed {
  ky_last : 0 ≤ qd_last_seq db;
  ky_row : ∀ s m, qd_messages db !! s = Some m → mr_seq m = s ∧ 1 ≤ s ≤ qd_last_seq db
}.

Lemma empty_keyed : keyed empty_queue_db.
Proof. split; [done|]. intros s m H. cbn in H. by rewrite lookup_empty in H. Qed.

Section steps.
Context (display : DomainError → string) (limits : QueueLimits).
Implicit Types (db : QueueDb) (m : MessageRow) (c : ConsumerRow).

(** ** One fetch *)

Lemma delivery_of_Ok m d :
  delivery_of display m = Ok d →
  qv_sequence d = mr_seq m ∧ qv_tenant_id d = mr_tenant_id m ∧ qv_topic d = mr_topic m ∧
  qv_message_id d = mr_message_id m ∧ qv_payload d = mr_payload m ∧
  qv_published_at d = milliseconds (mr_published_ms m) ∧
  qv_token d = delivery_token (mr_seq m) (mr_deliveries m + 1) ∧
  (0 ≤ mr_deliveries m < u32_max → qv_delivery_count d = mr_deliveries m + 1).
Proof.
  unfold delivery_of. intros H. steps.
  match goal with H : map_err _ _ = Ok ?t |- _ =>
    assert (t = mr_tenant_id m) as -> by
      (unfold parse_id, parse_prefixed in H; destruct (_ ≫= _); [case_match|]; by simplify_eq/=) end.
  match goal with H : parse_topic _ = Ok ?t |- _ =>
    assert (t = mr_topic m) as -> by (unfold parse_topic in H; case_match; by simplify_eq) end.
  match goal with H : parse_message_id _ = Ok ?t |- _ =>
    assert (t = mr_message_id m) as -> by (unfold parse_message_id in H; case_match; by simplify_eq) end.
  cbn. split_and!; [done..|]. intros ?. destruct (_ && _) eqn:E; [done|]. bools; lia.
Qed.

Lemma deliver_rows_frame c now rows db ds db' :
  deliver_rows display c now rows db = Ok (ds, db') →
  qd_last_seq db' = qd_last_seq db ∧ qd_dedup db' = qd_dedup db ∧ qd_consumers db' = qd_consumers db ∧
  Forall2 (λ m d, delivery_of display m = Ok d) rows ds.
Proof.
  revert db ds db'. induction rows as [|m rows IH]; intros db ds db' H; cbn in H; steps; [done|].
  destruct a0 as [ds' db1]. apply IH in Hm0 as (? & ? & ? & ?). cbn in *. eauto.
Qed.

(** A row that is fetched is handed out; the others stay. *)
Lemma deliver_rows_row c now rows db ds db' s :
  deliver_rows display c now rows db = Ok (ds, db') → NoDup (mr_seq <$> rows) →
  (∃ m d, m ∈ rows ∧ mr_seq m = s ∧ delivery_of display m = Ok d ∧
     filter (λ d, qv_sequence d = s) ds = [d] ∧ qd_messages db' !! s = Some (hand_out c now m)) ∨
  ((∀ m, m ∈ rows → mr_seq m ≠ s) ∧ filter (λ d, qv_sequence d = s) ds = [] ∧
     qd_messages db' !! s = qd_messages db !! s).
Proof.
  revert db ds db'. induction rows as [|m rows IH]; intros db ds db' H Hnd; cbn in H; steps.
  { right. split_and!; [|done..]. intros m Hm. by apply elem_of_nil in Hm. }
  destruct a0 as [ds' db1]. cbn [fst snd] in *. cbn in Hnd. apply NoDup_cons in Hnd as [Hni Hnd].
  destruct (delivery_of_Ok _ _ Hm) as [Hs _]. rewrite filter_cons, Hs.
  destruct (IH _ _ _ Hm0 Hnd) as [(m' & d & Hin & Hsm & Hd & Hf & Hl)|(Hno & Hf & Hl)].
  - left. exists m', d. assert (mr_seq m ≠ s).
    { intros E. apply Hni. rewrite E, <-Hsm. by apply list_elem_of_fmap_2. }
    rewrite decide_False by done. split_and!; [by right|done..].
  - destruct (decide (mr_seq m = s)) as [E|E].
    + left. exists m, a. split_and!; [by left|done|done|by rewrite Hf|].
      rewrite Hl. cbn. by rewrite E, lookup_insert_eq.
    + right. split_and!; [|done|].
      * intros m' [->|?]%elem_of_cons; [done|]. by apply Hno.
      * rewrite Hl. cbn. by rewrite lookup_insert_ne.
Qed.

Lemma fetch_rows_spec c max now db m :
  m ∈ fetch_rows c max now db → (∃ s, qd_messages db !! s = Some m) ∧ eligible c now m = true.
Proof.
  intros H. apply elem_of_take in H as (i & Hi & _).
  apply elem_of_filter_values. by eapply list_elem_of_lookup_2.
Qed.

(** The rows of the stream in the order of their sequence numbers. *)
Definition by_seq (x y : MessageRow) : Prop := mr_seq x < mr_seq y.

Lemma filter_sorted (p : MessageRow → bool) l :
  StronglySorted by_seq l → StronglySorted by_seq (List.filter p l).
Proof.
  induction 1 as [|m l Hl IH Hm]; cbn; [constructor|]. destruct (p m); [|done].
  constructor; [done|]. apply Forall_forall. intros x Hx. rewrite Forall_forall in Hm. apply Hm.
  rewrite list_elem_of_In, filter_In, <-list_elem_of_In in Hx. apply Hx.
Qed.

Lemma values_sorted db : keyed db → StronglySorted by_seq (btree_values (qd_messages db)).
Proof.
  intros Hk. assert (Hin : ∀ e, e ∈ btree_entries (qd_messages db) → mr_seq e.2 = e.1).
  { intros [s m] He. by apply elem_of_btree_entries, (ky_row _ Hk) in He as [? _]. }
  assert (Hs : StronglySorted entry_le (btree_entries (qd_messages db)))
    by (apply StronglySorted_merge_sort; unfold entry_le; [intros x y z|intros x y]; cbn; lia).
  pose proof (NoDup_btree_keys (qd_messages db)) as Hn. unfold btree_keys in Hn. unfold btree_values.
  induction Hs as [|e l Hl IH He]; cbn in *; [constructor|]. apply NoDup_cons in Hn as [Hni Hn].
  constructor; [apply IH; [|done]; intros; apply Hin; by right|].
  apply Forall_fmap, Forall_forall. intros e' He'. rewrite Forall_forall in He. specialize (He e' He').
  unfold by_seq. cbn. rewrite (Hin e), (Hin e') by (by left || by right).
  assert (e.1 ≠ e'.1); [|unfold entry_le in He; cbn in He; lia].
  intros E. apply Hni. rewrite E. by apply list_elem_of_fmap_2.
Qed.

Lemma fetch_rows_sorted c max now db : keyed db → StronglySorted by_seq (fetch_rows c max now db).
Proof.
  intros Hk%values_sorted%(filter_sorted (eligible c now)).
  unfold fetch_rows, filter_values. set (l := List.filter _ _) in *.
  apply StronglySorted_app_1_l with (drop (Nat.min max 10000) l). by rewrite take_drop.
Qed.

Lemma fetch_rows_NoDup c max now db : keyed db → NoDup (mr_seq <$> fetch_rows c max now db).
Proof.
  intros Hk%(fetch_rows_sorted c max now). induction Hk as [|m l Hl IH Hm]; cbn; [constructor|].
  constructor; [|done]. intros (m' & E & Hin)%list_elem_of_fmap. rewrite Forall_forall in Hm.
  specialize (Hm m' Hin). unfold by_seq in Hm. lia.
Qed.

(** A row that is due is fetched, unless the fetch is full of earlier ones. *)
Lemma fetch_rows_due c max now db s m :
  keyed db → qd_messages db !! s = Some m → eligible c now m = true →
  m ∈ fetch_rows c max now db ∨
  (length (fetch_rows c max now db) = Nat.min max 10000 ∧
   ∀ m', m' ∈ fetch_rows c max now db → mr_seq m' < s).
Proof.
  intros Hk Hl He. pose proof (filter_sorted (eligible c now) _ (values_sorted _ Hk)) as Hs.
  assert (Hin : m ∈ filter_values (eligible c now) (qd_messages db))
    by (apply elem_of_filter_values; eauto).
  fold (filter_values (eligible c now) (qd_messages db)) in Hs. unfold fetch_rows.
  set (l := filter_values _ _) in *. set (n := Nat.min max 10000). clearbody l n.
  rewrite <-(take_drop n l) in Hin, Hs. apply elem_of_app in Hin as [?|Hd]; [by left|right]. split.
  - apply length_take_le. destruct (decide (n ≤ length l)%nat); [done|].
    rewrite drop_ge in Hd by lia. by apply elem_of_nil in Hd.
  - intros m' Hm'. pose proof (StronglySorted_app_1_elem_of _ _ _ _ _ Hs Hm' Hd) as Hlt.
    unfold by_seq in Hlt. by rewrite (proj1 (ky_row _ Hk _ _ Hl)) in Hlt.
Qed.
(** ** One call, seen by the row of one message *)

Lemma tx_cases {A} (f : qtx A) w now db r db' :
  tx limits f w now db = (r, db') →
  (is_ok r = false ∧ db' = db) ∨
  (w = QueueWorks ∧ ∃ a, r = Ok a ∧ f (ms now) (retain limits (ms now) db) = Ok (a, db')).
Proof.
  unfold tx. destruct w; intros H; try (injection H as <- <-; by left).
  destruct (f _ _) as [[a db1]|] eqn:E; injection H as <- <-; eauto.
Qed.

Definition aged (now : Z) m : Prop := mr_published_ms m < i64_saturating_sub now (dur_ms (ql_max_age limits)).
#[local] Instance aged_dec now m : Decision (aged now m).
Proof. unfold aged. apply _. Defined.

Lemma retain_Some now db s m :
  qd_messages (retain limits now db) !! s = Some m ↔ qd_messages db !! s = Some m ∧ ¬ aged now m.
Proof. cbn. apply map_lookup_filter_Some. Qed.

Lemma retain_keyed now db : keyed db → keyed (retain limits now db).
Proof. intros [Hl Hr]. split; [done|]. intros s m [H _]%retain_Some. by apply Hr. Qed.

(** What a call that gets the answer [a] does to the row of [s]. *)
Inductive row_step (e : QueueEvent) (a : QueueAnswer) (cs : gmap string ConsumerRow) (s : Z)
    : option MessageRow → option MessageRow → Prop :=
| row_stays o : deliveries_of s a = [] → row_step e a cs s o o
| row_ages m : deliveries_of s a = [] → aged (ms (qe_now e)) m → row_step e a cs s (Some m) None
| row_settled m token count : deliveries_of s a = [] →
    qe_call e = Ack token ∨ qe_call e = Term token → parse_token token = Ok (s, count) →
    row_step e a cs s (Some m) None
| row_published om : deliveries_of s a = [] → qe_call e = Publish om → a = Published (Ok (mkReceipt s false)) →
    row_step e a cs s None (Some (new_message om s (ms (qe_now e))))
| row_handed_out m name max c d : qe_call e = Fetch name max → cs !! name = Some c →
    eligible c (ms (qe_now e)) m = true → ¬ aged (ms (qe_now e)) m →
    delivery_of display m = Ok d → deliveries_of s a = [d] →
    row_step e a cs s (Some m) (Some (hand_out c (ms (qe_now e)) m))
| row_nacked m token delay visible : deliveries_of s a = [] → qe_call e = Nak token delay →
    parse_token token = Ok (s, mr_deliveries m) →
    row_step e a cs s (Some m) (Some (m <| mr_visible_ms := visible |>)).

Lemma row_retained e a cs s db :
  deliveries_of s a = [] →
  row_step e a cs s (qd_messages db !! s) (qd_messages (retain limits (ms (qe_now e)) db) !! s).
Proof.
  intros Ha. destruct (qd_messages (retain _ _ db) !! s) as [m|] eqn:E.
  - apply retain_Some in E as [-> _]. by constructor.
  - destruct (qd_messages db !! s) as [m|] eqn:Em; [|by constructor]. apply row_ages; [done|].
    destruct (decide (aged (ms (qe_now e)) m)); [done|].
    by rewrite (proj2 (retain_Some _ _ _ _) (conj Em n)) in E.
Qed.

Ltac no_access H := apply tx_cases in H as [[? ->]|(? & ? & -> & H)].

Lemma publish_row om w now db r db' s :
  keyed db → publish limits om w now db = (r, db') →
  row_step (mkQueueEvent (Publish om) w now) (Published r) (qd_consumers db) s
    (qd_messages db !! s) (qd_messages db' !! s).
Proof.
  intros Hk H. unfold publish in H. destruct (_ <? _); [injection H as <- <-; by constructor|].
  no_access H; [by constructor|]. unfold publish_tx in H.
  destruct (qd_dedup _ !! _); [injection H as <- <-; by apply (row_retained (mkQueueEvent _ _ _))|].
  steps. destruct (i64_max <=? _); [done|]. injection Hk0 as <- <-. cbn.
  destruct (decide (s = qd_last_seq db + 1)) as [->|Hs].
  - rewrite lookup_insert_eq. destruct (qd_messages db !! _) as [m|] eqn:E.
    { apply (ky_row _ Hk) in E. lia. }
    by apply (row_published (mkQueueEvent _ _ _)).
  - rewrite lookup_insert_ne by done. by apply (row_retained (mkQueueEvent _ _ _)).
Qed.

Lemma fetch_row name max w now db r db' s :
  keyed db → try_fetch display limits name max w now db = (r, db') →
  row_step (mkQueueEvent (Fetch name max) w now) (Fetched r) (qd_consumers db) s
    (qd_messages db !! s) (qd_messages db' !! s).
Proof.
  intros Hk H. no_access H.
  { destruct r; [done|]. by constructor. }
  unfold try_fetch_tx in H. steps. unfold consumer in Hm. case_match; [|done]. injection Hm as ->.
  pose proof (fetch_rows_NoDup a max (ms now) _ (retain_keyed (ms now) _ Hk)) as Hnd.
  destruct (deliver_rows_row _ _ _ _ _ _ s Hk0 Hnd) as [(m & d & Hin & Hs & Hd & Hf & Hl)|(_ & Hf & Hl)].
  - apply fetch_rows_spec in Hin as [[s' Hs'] He].
    assert (s' = s) as ->.
    { rewrite <-Hs. symmetry. by apply (ky_row _ (retain_keyed (ms now) _ Hk)). }
    apply retain_Some in Hs' as [Hs' ?]. rewrite Hl, Hs'.
    by eapply (row_handed_out (mkQueueEvent _ _ _)).
  - rewrite Hl. by apply (row_retained (mkQueueEvent _ _ _)).
Qed.

Lemma remove_row call token w now db r db' s :
  call = Ack token ∨ call = Term token → ack limits token w now db = (r, db') →
  row_step (mkQueueEvent call w now) (Settled r) (qd_consumers db) s
    (qd_messages db !! s) (qd_messages db' !! s).
Proof.
  intros Hc H. unfold ack in H. destruct (parse_token token) as [[s' count]|] eqn:Et.
  2: { injection H as <- <-. by constructor. }
  no_access H; [by constructor|]. injection H as <- <-. cbn.
  destruct (decide (s' = s)) as [->|Hs].
  - rewrite lookup_delete_eq. destruct (qd_messages db !! s) eqn:E; [|by constructor].
    by eapply (row_settled (mkQueueEvent _ _ _)).
  - rewrite lookup_delete_ne by done. by apply (row_retained (mkQueueEvent _ _ _)).
Qed.

Lemma nak_row token delay w now db r db' s :
  nak limits token delay w now db = (r, db') →
  row_step (mkQueueEvent (Nak token delay) w now) (Settled r) (qd_consumers db) s
    (qd_messages db !! s) (qd_messages db' !! s).
Proof.
  intros H. unfold nak in H. destruct (parse_token token) as [[s' count]|] eqn:Et.
  2: { injection H as <- <-. by constructor. }
  no_access H; [by constructor|]. injection H as <- <-.
  pose proof (row_retained (mkQueueEvent (Nak token delay) w now) (Settled (Ok tt)) (qd_consumers db) s db eq_refl)
    as Hr. cbn in Hr |- *. destruct (decide (s' = s)) as [->|Hs]; [|by rewrite lookup_alter_ne].
  rewrite lookup_alter_eq. destruct (filter _ (qd_messages db) !! s) as [m|] eqn:E; [|done]. cbn.
  destruct (Z.eqb_spec (mr_deliveries m) count) as [<-|]; [|done].
  apply (retain_Some (ms now)) in E as [-> _]. by eapply (row_nacked (mkQueueEvent _ _ _)).
Qed.

Lemma queue_step_row e db a db' s :
  keyed db → queue_step display limits e db = (a, db') →
  row_step e a (qd_consumers db) s (qd_messages db !! s) (qd_messages db' !! s).
Proof.
  intros Hk. destruct e as [[om|name max|token|token delay|token|spec|name] w now]; cbn;
    intros H; injection H as <- <-.
  - destruct (publish _ _ _ _ _) eqn:E. by apply publish_row.
  - destruct (try_fetch _ _ _ _ _ _ _) eqn:E. by apply fetch_row.
  - destruct (ack _ _ _ _ _) eqn:E. eapply remove_row; eauto.
  - destruct (nak _ _ _ _ _ _) eqn:E. by apply nak_row.
  - destruct (term _ _ _ _ _) eqn:E. eapply remove_row; eauto.
  - destruct (ensure_consumer _ _ _ _ _) as [r db1] eqn:H. unfold ensure_consumer in H.
    destruct (_ || _); [injection H as <- <-; by constructor|]. no_access H; [by constructor|].
    unfold ensure_consumer_tx in H. do 2 pass H. injection H as <- <-.
    by apply (row_retained (mkQueueEvent _ _ _)).
  - destruct (stats _ _ _ _ _) as [r db1] eqn:H. no_access H; [by constructor|].
    unfold stats_tx in H. steps. pass Hk0. injection Hk0 as <- <-.
    by apply (row_retained (mkQueueEvent _ _ _)).
Qed.
(** ** What a call leaves alone *)

Lemma publish_outcomes om w now db r db' :
  publish limits om w now db = (r, db') →
  (is_ok r = false ∧ db' = db) ∨
  (w = QueueWorks ∧
   let db1 := forget_ids limits (ms now) (retain limits (ms now) db) in
   (∃ row, qd_dedup db1 !! om_message_id om = Some row ∧ r = Ok (mkReceipt (dd_seq row) true) ∧ db' = db1) ∨
   (qd_dedup db1 !! om_message_id om = None ∧ byte_len (om_payload om) ≤ ql_max_message_bytes limits ∧
    refuse_full limits (byte_len (om_payload om)) db1 = Ok tt ∧ qd_last_seq db < i64_max ∧
    let seq := qd_last_seq db + 1 in
    r = Ok (mkReceipt seq false) ∧
    db' = db1 <| qd_messages ::= λ ms', <[seq := new_message om seq (ms now)]> ms' |> <| qd_last_seq := seq |>
             <| qd_dedup ::= λ ms', <[om_message_id om := mkDedupRow seq (ms now)]> ms' |>)).
Proof.
  intros H. unfold publish in H. destruct (Z.ltb_spec (ql_max_message_bytes limits) (byte_len (om_payload om))).
  { injection H as <- <-. by left. }
  apply tx_cases in H as [?|(-> & x & -> & H)]; [by left|right]. split; [done|].
  unfold publish_tx in H. cbn zeta in *. destruct (qd_dedup _ !! _) as [row|] eqn:E.
  - injection H as <- <-. eauto.
  - steps. destruct a. destruct (Z.leb_spec i64_max (qd_last_seq (forget_ids limits (ms now) (retain limits (ms now) db))));
      [done|]. injection Hk as <- <-. right. by split_and!.
Qed.

(** At most one consumer is bound to a topic. *)
Definition one_consumer db : Prop :=
  ∀ n1 n2 c1 c2, qd_consumers db !! n1 = Some c1 → qd_consumers db !! n2 = Some c2 →
    cr_topic c1 = cr_topic c2 → n1 = n2.

Lemma ensure_outcomes spec w now db r db' :
  one_consumer db → ensure_consumer limits spec w now db = (r, db') →
  (is_ok r = false ∧ db' = db) ∨
  (w = QueueWorks ∧ r = Ok tt ∧
   (∀ name c, qd_consumers db !! name = Some c → cr_topic c = sp_topic spec → name = sp_name spec) ∧
   db' = retain limits (ms now) db <| qd_consumers ::= λ cs,
     <[sp_name spec := mkConsumerRow (sp_topic spec) (dur_ms (sp_ack_wait spec)) (sp_max_deliver spec)]> cs |>).
Proof.
  intros Hone H. unfold ensure_consumer in H. destruct (_ || _); [injection H as <- <-; by left|].
  apply tx_cases in H as [?|(-> & [] & -> & H)]; [by left|right].
  unfold ensure_consumer_tx in H. pass H. pass H. injection H as <-. split_and!; [done..| |done].
  intros name c Hc Ht. destruct (btree_find _ _) as [[other c']|] eqn:E; cbn in *.
  - apply btree_find_Some in E as [Ho Ht']. bools. rewrite <-Heqb. apply (Hone _ _ _ _ Hc Ho). congruence.
  - apply btree_find_None with (k := name) (v := c) in E; [|done]. by bools.
Qed.
Definition same_frame db db' : Prop :=
  qd_last_seq db' = qd_last_seq db ∧ qd_dedup db' = qd_dedup db ∧ qd_consumers db' = qd_consumers db.

Lemma tx_frame {A} (f : qtx A) w now db :
  (∀ t db1 a db2, f t db1 = Ok (a, db2) → same_frame db1 db2) → same_frame db (tx limits f w now db).2.
Proof.
  intros Hf. destruct (tx limits f w now db) as [r db'] eqn:E. no_access E; [done|]. by apply Hf in E.
Qed.

(** Only [Publish] and [Ensure] touch anything but messages. *)
Lemma quiet_call e db :
  match qe_call e with Publish _ | Ensure _ => True
  | _ => same_frame db (queue_step display limits e db).2 end.
Proof.
  destruct e as [[om|name max|token|token delay|token|spec|name] w now]; cbn; try done.
  - apply tx_frame. intros t db1 a db2 H. unfold try_fetch_tx in H. steps.
    by destruct (deliver_rows_frame _ _ _ _ _ _ Hk) as (? & ? & ? & _).
  - unfold ack. destruct (parse_token token) as [[]|]; [|done]. apply tx_frame. intros t db1 a db2 [= _ <-]. done.
  - unfold nak. destruct (parse_token token) as [[]|]; [|done]. apply tx_frame. intros t db1 a db2 [= _ <-]. done.
  - unfold term, ack. destruct (parse_token token) as [[]|]; [|done]. apply tx_frame. intros t db1 a db2 [= _ <-]. done.
  - apply tx_frame. intros t db1 a db2 H. unfold stats_tx in H. steps. pass Hk. by injection Hk as <- <-.
Qed.

(** A call gives out the next sequence number, or none and then no row is added. *)
Lemma queue_step_last e db a db' :
  one_consumer db → queue_step display limits e db = (a, db') →
  (qd_last_seq db' = qd_last_seq db ∧ ∀ s, a ≠ Published (Ok (mkReceipt s false))) ∨
  (∃ om, qe_call e = Publish om ∧ qd_last_seq db < i64_max ∧ qd_last_seq db' = qd_last_seq db + 1 ∧
     a = Published (Ok (mkReceipt (qd_last_seq db') false)) ∧ byte_len (om_payload om) ≤ ql_max_message_bytes limits ∧
     qd_messages db' = <[qd_last_seq db' := new_message om (qd_last_seq db') (ms (qe_now e))]>
                         (qd_messages (retain limits (ms (qe_now e)) db)) ∧
     refuse_full limits (byte_len (om_payload om))
       (forget_ids limits (ms (qe_now e)) (retain limits (ms (qe_now e)) db)) = Ok tt).
Proof.
  intros Hone H. pose proof (quiet_call e db) as Hq. rewrite H in Hq.
  destruct e as [[om|name max|token|token delay|token|spec|name] w now]; cbn -[retain forget_ids] in *;
    injection H as <- <-; try (left; by split; [apply Hq|]).
  - destruct (publish _ _ _ _ _) as [r db1] eqn:E. cbn -[retain forget_ids].
    destruct (publish_outcomes _ _ _ _ _ _ E)
      as [[Hr ->]|(-> & [(row & _ & -> & ->)|(_ & Hlen & Hfull & Hlt & -> & ->)])].
    + left. split; [done|]. by intros s [= ->].
    + left. by split.
    + right. exists om. by split_and!.
  - left. split; [|done]. destruct (ensure_consumer _ _ _ _ _) as [r db1] eqn:E.
    by destruct (ensure_outcomes _ _ _ _ _ _ Hone E) as [[_ ->]|(_ & _ & _ & ->)].
Qed.

(** The consumers change by [Ensure] only. *)
Lemma queue_step_consumers e db a db' :
  one_consumer db → queue_step display limits e db = (a, db') →
  qd_consumers db' = qd_consumers db ∨
  ∃ spec, qe_call e = Ensure spec ∧
    (∀ name c, qd_consumers db !! name = Some c → cr_topic c = sp_topic spec → name = sp_name spec) ∧
    qd_consumers db' = <[sp_name spec := mkConsumerRow (sp_topic spec) (dur_ms (sp_ack_wait spec)) (sp_max_deliver spec)]>
                         (qd_consumers db).
Proof.
  intros Hone H. pose proof (quiet_call e db) as Hq. rewrite H in Hq.
  destruct e as [[om|name max|token|token delay|token|spec|name] w now]; cbn -[retain forget_ids] in *;
    injection H as <- <-; try (left; by apply Hq).
  - left. destruct (publish _ _ _ _ _) as [r db1] eqn:E.
    by destruct (publish_outcomes _ _ _ _ _ _ E) as [[_ ->]|(_ & [(row & _ & _ & ->)|(_ & _ & _ & _ & _ & ->)])].
  - destruct (ensure_consumer _ _ _ _ _) as [r db1] eqn:E.
    destruct (ensure_outcomes _ _ _ _ _ _ Hone E) as [[_ ->]|(_ & _ & ? & ->)]; [by left|right; eauto].
Qed.
(** ** Well-formed streams *)

(** What was published with valid types reads back. *)
Definition readable (tenant topic message_id : string) : bool :=
  is_ok (parse_id Tenant tenant) && is_ok (parse_topic topic) && is_ok (parse_message_id message_id).

Definition row_ok m : Prop :=
  readable (mr_tenant_id m) (mr_topic m) (mr_message_id m) = true ∧ 0 ≤ mr_deliveries m ∧ 0 ≤ mr_size m.

(** The arguments of a call that its types guarantee. *)
Definition call_ok (call : QueueCall) : Prop :=
  match call with
  | Publish om => readable (om_tenant_id om) (om_topic om) (om_message_id om) = true
  | Ensure spec => 0 ≤ sp_max_deliver spec ≤ u32_max
  | _ => True
  end.

Record queue_wf db : Prop := mkQueueWf {
  qw_keyed : keyed db;
  qw_last : qd_last_seq db ≤ i64_max;
  qw_row : ∀ s m, qd_messages db !! s = Some m → row_ok m;
  qw_count : Z.of_nat (size (qd_messages db)) ≤ ql_max_messages limits;
  qw_bytes : total mr_size (qd_messages db) ≤ ql_max_bytes limits;
  qw_one : one_consumer db;
  qw_consumer : ∀ name c, qd_consumers db !! name = Some c → 0 ≤ cr_max_deliver c ≤ u32_max
}.

Lemma empty_queue_wf : 0 ≤ ql_max_messages limits → 0 ≤ ql_max_bytes limits → queue_wf empty_queue_db.
Proof.
  intros ??. split; [apply empty_keyed|done|..]; cbn.
  - intros s m H1. by rewrite lookup_empty in H1.
  - by rewrite map_size_empty.
  - by rewrite total_empty.
  - intros n1 n2 c1 c2 H1. cbn in H1. by rewrite lookup_empty in H1.
  - intros n c H1. by rewrite lookup_empty in H1.
Qed.

Lemma readable_delivery m : row_ok m → ∃ d, delivery_of display m = Ok d.
Proof.
  intros [H _]. unfold readable in H. bools. unfold delivery_of.
  destruct (parse_id _ _); [|done]. destruct (parse_topic _); [|done].
  destruct (parse_message_id _); [|done]. by eexists.
Qed.

Lemma row_step_ok e a cs s o o' :
  call_ok (qe_call e) → row_step e a cs s o o' →
  (∀ m, o = Some m → row_ok m) → ∀ m', o' = Some m' → row_ok m'.
Proof.
  intros Hc Hs Ho m' ->. inversion Hs as [| | |om _ Hp| |]; subst; eauto.
  - rewrite Hp in Hc. split_and!; [done|done|]. cbn. unfold byte_len. lia.
  - destruct (Ho m eq_refl) as (? & ? & ?). split_and!; [done| |done]. cbn. lia.
  - exact (Ho m eq_refl).
Qed.

(** The row of a message keeps everything but its deliveries and its visibility. *)
Definition same_message m m' : Prop :=
  mr_seq m' = mr_seq m ∧ mr_tenant_id m' = mr_tenant_id m ∧ mr_topic m' = mr_topic m ∧
  mr_message_id m' = mr_message_id m ∧ mr_payload m' = mr_payload m ∧ mr_size m' = mr_size m ∧
  mr_published_ms m' = mr_published_ms m.

Lemma row_step_same e a cs s m o : row_step e a cs s (Some m) o → ∀ m', o = Some m' → same_message m m'.
Proof. intros H m' ->. by inversion H. Qed.

Lemma row_step_sizes e db a db' :
  keyed db → (∀ s, a ≠ Published (Ok (mkReceipt s false))) → queue_step display limits e db = (a, db') →
  mr_size <$> qd_messages db' ⊆ mr_size <$> qd_messages db.
Proof.
  intros Hk Hno H. apply map_subseteq_spec. intros s n Hn. rewrite lookup_fmap in *.
  pose proof (queue_step_row _ _ _ _ s Hk H) as Hr.
  destruct (qd_messages db' !! s) as [m'|] eqn:E'; [|done]. cbn in Hn. injection Hn as <-.
  destruct (qd_messages db !! s) as [m|] eqn:E.
  - cbn. f_equal. symmetry. by eapply row_step_same.
  - exfalso. inversion Hr; subst. by eapply Hno.
Qed.

Lemma retain_total now db :
  (∀ s m, qd_messages db !! s = Some m → row_ok m) →
  total mr_size (qd_messages (retain limits now db)) ≤ total mr_size (qd_messages db).
Proof.
  intros H. apply total_subseteq; [intros s m Hs; by apply (H s m)|]. apply map_filter_subseteq.
Qed.

Lemma map_size_mono {A} (m1 m2 : gmap Z A) : m1 ⊆ m2 → (size m1 ≤ size m2)%nat.
Proof. intros H. rewrite <-!size_dom. by apply subseteq_size, subseteq_dom. Qed.

Lemma queue_step_keyed e db a db' :
  keyed db → one_consumer db → queue_step display limits e db = (a, db') → keyed db'.
Proof.
  intros Hk Ho H. pose proof (queue_step_last _ _ _ _ Ho H) as Hl.
  assert (Hle : qd_last_seq db ≤ qd_last_seq db') by (destruct Hl as [[-> _]|(? & _ & _ & -> & _)]; lia).
  split; [pose proof (ky_last _ Hk); lia|]. intros s m' Hm'.
  pose proof (queue_step_row _ _ _ _ s Hk H) as Hr.
  destruct (qd_messages db !! s) as [m|] eqn:E.
  - destruct (ky_row _ Hk _ _ E) as [Hs ?]. destruct (row_step_same _ _ _ _ _ _ Hr _ Hm') as [-> _]. split; [done|lia].
  - rewrite Hm' in Hr. inversion Hr; subst. cbn. split; [done|]. pose proof (ky_last _ Hk).
    destruct Hl as [[_ Hno]|(? & _ & _ & ? & Ha & _)]; [by edestruct Hno|]. injection Ha as ->. lia.
Qed.

Lemma queue_step_bounds e db a db' :
  queue_wf db → queue_step display limits e db = (a, db') →
  qd_last_seq db' ≤ i64_max ∧ Z.of_nat (size (qd_messages db')) ≤ ql_max_messages limits ∧
  total mr_size (qd_messages db') ≤ ql_max_bytes limits.
Proof.
  intros [Hk Hl Hr Hn Hb Ho _] H.
  destruct (queue_step_last _ _ _ _ Ho H) as [[-> Hno]|(om & _ & Hlt & Hl' & _ & _ & Hm & Hf)].
  - pose proof (row_step_sizes _ _ _ _ Hk Hno H) as Hs. split_and!; [done|..].
    + apply map_size_mono in Hs. rewrite !map_size_fmap in Hs. lia.
    + transitivity (total (id ∘ mr_size) (qd_messages db)); [|exact Hb].
      change (total (id ∘ mr_size) (qd_messages db') ≤ total (id ∘ mr_size) (qd_messages db)).
      rewrite <-!total_fmap. apply total_subseteq; [|done]. intros s n Hsn. rewrite lookup_fmap in Hsn. destruct (qd_messages db !! s) eqn:E; [|done].
      injection Hsn as <-. by apply Hr in E as (_ & _ & ?).
  - unfold refuse_full in Hf. do 3 pass Hf. bools. rewrite Hm. cbn in *.
    assert (Hnone : filter (λ e0, ¬ mr_published_ms e0.2 < i64_saturating_sub (ms (qe_now e)) (dur_ms (ql_max_age limits)))
                      (qd_messages db) !! qd_last_seq db' = None).
    { apply eq_None_not_Some. intros [m Hs]. apply map_lookup_filter_Some in Hs as [Hs _].
      apply (ky_row _ Hk) in Hs. lia. }
    rewrite map_size_insert_None, total_insert by done. cbn. split_and!; lia.
Qed.

Lemma queue_step_wf e db a db' :
  queue_wf db → call_ok (qe_call e) → queue_step display limits e db = (a, db') → queue_wf db'.
Proof.
  intros Hwf Hok H. pose proof Hwf as [Hk _ Hr _ _ Ho Hc].
  destruct (queue_step_bounds _ _ _ _ Hwf H) as (? & ? & ?). split; [by eapply queue_step_keyed|done|..|done|done| |].
  - intros s. eapply row_step_ok; [done|by apply queue_step_row|]. apply Hr.
  - destruct (queue_step_consumers _ _ _ _ Ho H) as [E|(spec & _ & Hu & E)]; intros n1 n2 c1 c2; rewrite E; [apply Ho|].
    intros Hl1%lookup_insert_Some Hl2%lookup_insert_Some Ht.
    destruct Hl1 as [[<- <-]|[_ ?]], Hl2 as [[<- <-]|[_ ?]]; [done|symmetry; by eapply Hu|by eapply Hu|by eapply Ho].
  - destruct (queue_step_consumers _ _ _ _ Ho H) as [E|(spec & He & _ & E)]; intros n c; rewrite E; [apply Hc|].
    intros [[_ <-]|[_ Hn]]%lookup_insert_Some; [|by eapply Hc]. by rewrite He in Hok.
Qed.

(** ** Histories *)

Lemma queue_run_app h1 h2 db :
  queue_run display limits (h1 ++ h2) db =
  let r1 := queue_run display limits h1 db in
  let r2 := queue_run display limits h2 r1.2 in ((r1.1 ++ r2.1)%list, r2.2).
Proof.
  revert db. induction h1 as [|e h1 IH]; intros db; cbn; [by destruct (queue_run _ _ _ _)|].
  destruct (queue_step _ _ _ _) as [a db1]. rewrite IH. cbn. by destruct (queue_run _ _ h1 db1).
Qed.

Definition calls_ok (h : list QueueEvent) : Prop := ∀ e, e ∈ h → call_ok (qe_call e).

Lemma queue_run_wf h db : queue_wf db → calls_ok h → queue_wf (queue_run display limits h db).2.
Proof.
  revert db. induction h as [|e h IH]; intros db Hwf Hok; [done|]. cbn.
  destruct (queue_step _ _ _ _) as [a db1] eqn:E.
  assert (Hwf1 : queue_wf (queue_run display limits h db1).2).
  { apply IH; [|intros e' He'; apply Hok; by right]. eapply queue_step_wf; [done| |done]. apply Hok. by left. }
  by destruct (queue_run _ _ _ _).
Qed.
(** The deliveries of one message in the answers of a history. *)
Definition deliveries_in (s : Z) (answers : list QueueAnswer) : list QueueDelivery :=
  flat_map (deliveries_of s) answers.

Lemma deliveries_in_snoc s answers a : deliveries_in s (answers ++ [a]) = (deliveries_in s answers ++ deliveries_of s a)%list.
Proof. unfold deliveries_in. rewrite flat_map_app. cbn. by rewrite app_nil_r. Qed.

Lemma calls_ok_cons e h : calls_ok (e :: h) ↔ call_ok (qe_call e) ∧ calls_ok h.
Proof.
  unfold calls_ok. split.
  - intros H. split; [apply H; by left|intros e' ?; apply H; by right].
  - intros [? H] e' [->|?]%elem_of_cons; auto.
Qed.

Lemma queue_run_cons e h db :
  queue_run display limits (e :: h) db =
  let r1 := queue_step display limits e db in
  let r2 := queue_run display limits h r1.2 in (r1.1 :: r2.1, r2.2).
Proof. cbn. destruct (queue_step _ _ _ _) as [a db1]. cbn. by destruct (queue_run _ _ _ _). Qed.

Lemma queue_step_later e db a db' :
  one_consumer db → queue_step display limits e db = (a, db') → qd_last_seq db ≤ qd_last_seq db'.
Proof. intros Ho H. destruct (queue_step_last _ _ _ _ Ho H) as [[-> _]|(? & _ & _ & -> & _)]; lia. Qed.

Lemma queue_run_later h db :
  queue_wf db → calls_ok h → qd_last_seq db ≤ qd_last_seq (queue_run display limits h db).2.
Proof.
  revert db. induction h as [|e h IH]; intros db Hwf Hok; [done|].
  apply calls_ok_cons in Hok as [He Hh]. rewrite queue_run_cons. destruct (queue_step _ _ _ _) as [a db1] eqn:E. cbn.
  transitivity (qd_last_seq db1); [eapply queue_step_later; [apply Hwf|exact E]|].
  apply IH; [by eapply queue_step_wf|done].
Qed.

(** A message that is not there, whose number was given out, never comes back. *)
Lemma gone_stays h db s :
  queue_wf db → calls_ok h → s ≤ qd_last_seq db → qd_messages db !! s = None →
  deliveries_in s (queue_run display limits h db).1 = [].
Proof.
  revert db. induction h as [|e h IH]; intros db Hwf Hok Hs Hn; [done|].
  apply calls_ok_cons in Hok as [He Hh]. rewrite queue_run_cons. destruct (queue_step _ _ _ _) as [a db1] eqn:E. cbn.
  pose proof (queue_step_last _ _ _ _ (qw_one _ Hwf) E) as Hl.
  pose proof (queue_step_row _ _ _ _ s (qw_keyed _ Hwf) E) as Hr. rewrite Hn in Hr.
  assert (deliveries_of s a = [] ∧ qd_messages db1 !! s = None) as [-> Hn1].
  { inversion Hr as [| | |? ? ? Ha| |]; subst; [done|].
    destruct Hl as [[_ Hno]|(? & _ & _ & Hl & Ha & _)]; [by edestruct Hno|]. injection Ha as ->. lia. }
  apply IH; [by eapply queue_step_wf|done| |done].
  pose proof (queue_step_later _ _ _ _ (qw_one _ Hwf) E). lia.
Qed.

(** ** What is delivered was published *)

(** A sequence number is given out once. *)
Definition given_once (answers : list QueueAnswer) db : Prop :=
  ∀ i s, answers !! i = Some (Published (Ok (mkReceipt s false))) →
    s ≤ qd_last_seq db ∧ ∀ j, answers !! j = Some (Published (Ok (mkReceipt s false))) → i = j.

Lemma given_once_step answers e db a db' :
  one_consumer db → queue_step display limits e db = (a, db') → given_once answers db → given_once (answers ++ [a]) db'.
Proof.
  intros Ho H Hseq. pose proof (queue_step_last _ _ _ _ Ho H) as Hl.
  pose proof (queue_step_later _ _ _ _ Ho H) as Hle.
  assert (Hlast : ∀ i s, (answers ++ [a])%list !! i = Some (Published (Ok (mkReceipt s false))) →
    (answers !! i = Some (Published (Ok (mkReceipt s false))) ∧ s ≤ qd_last_seq db) ∨
    (i = length answers ∧ s = qd_last_seq db' ∧ qd_last_seq db < qd_last_seq db')).
  { intros i s Hi. apply lookup_app_Some in Hi as [Hi|[Hle' Hi]].
    - left. split; [done|]. by apply (Hseq i s).
    - right. destruct (i - length answers)%nat eqn:Ei; [|done]. cbn in Hi. injection Hi as ->.
      destruct Hl as [[_ Hno]|(? & _ & _ & Hl & [= ->] & _)]; [by edestruct Hno|]. split_and!; [lia|done|lia]. }
  intros i s Hi. split; [destruct (Hlast _ _ Hi) as [[_ ?]|(_ & -> & _)]; lia|]. intros j Hj.
  destruct (Hlast _ _ Hi) as [[Hi' ?]|(-> & -> & ?)], (Hlast _ _ Hj) as [[Hj' ?]|(-> & ? & ?)]; try lia.
  by apply (Hseq i s).
Qed.

(** Every stored message is one the history published, and its row counts its deliveries. *)
Record traced (h : list QueueEvent) (answers : list QueueAnswer) db : Prop := mkTraced {
  tr_row : ∀ s m, qd_messages db !! s = Some m →
    (∃ i e om, h !! i = Some e ∧ answers !! i = Some (Published (Ok (mkReceipt s false))) ∧
       qe_call e = Publish om ∧ same_message (new_message om s (ms (qe_now e))) m) ∧
    mr_deliveries m = Z.of_nat (length (deliveries_in s answers));
  tr_new : ∀ s, qd_last_seq db < s → deliveries_in s answers = [];
  tr_seq : given_once answers db
}.

Lemma traced_step h answers e db a db' :
  keyed db → one_consumer db → length answers = length h → traced h answers db →
  queue_step display limits e db = (a, db') → traced (h ++ [e]) (answers ++ [a]) db'.
Proof.
  intros Hk Ho Hlen [Hrow Hnew Hseq] H. pose proof (queue_step_last _ _ _ _ Ho H) as Hl.
  pose proof (queue_step_later _ _ _ _ Ho H) as Hle. split.
  - intros s m' Hm'. pose proof (queue_step_row _ _ _ _ s Hk H) as Hr. rewrite deliveries_in_snoc, length_app.
    destruct (qd_messages db !! s) as [m|] eqn:E.
    + destruct (Hrow _ _ E) as [(i & e0 & om & Hi & Ha & Hp & Hsame) Hd].
      pose proof (row_step_same _ _ _ _ _ _ Hr _ Hm') as Hsame'. split.
      { exists i, e0, om. rewrite !lookup_app_l by (by eapply lookup_lt_Some). split_and!; [done..|].
        unfold same_message in *. destruct_and!. split_and!; congruence. }
      rewrite Hm' in Hr. inversion Hr as [? Hnil| | | |? ? ? ? ? _ _ _ _ _ Hone|? ? ? ? Hnil]; subst.
      * rewrite Hnil. cbn. lia.
      * rewrite Hone. cbn. lia.
      * rewrite Hnil. cbn. lia.
    + rewrite Hm' in Hr. inversion Hr as [| | |om Hnil Hp Ha| |]; subst. rewrite Hnil. split.
      * exists (length h), e, om. rewrite !lookup_app_r by lia. rewrite Hlen, Nat.sub_diag. by split_and!.
      * cbn. destruct Hl as [[_ Hno]|(? & _ & _ & Hl & Ha & _)]; [by edestruct Hno|]. injection Ha as ->.
        rewrite Hnew by lia. done.
  - intros s Hs. rewrite deliveries_in_snoc, Hnew by lia. cbn.
    pose proof (queue_step_row _ _ _ _ s Hk H) as Hr.
    destruct (qd_messages db !! s) as [m|] eqn:E; [apply (ky_row _ Hk) in E; lia|]. by inversion Hr.
  - by eapply given_once_step.
Qed.

Lemma traced_run h :
  0 ≤ ql_max_messages limits → 0 ≤ ql_max_bytes limits → calls_ok h →
  let r := queue_run display limits h empty_queue_db in
  queue_wf r.2 ∧ length r.1 = length h ∧ traced h r.1 r.2.
Proof.
  intros Hm Hb. induction h as [|e h IH] using rev_ind; intros Hok.
  { split_and!; [by apply empty_queue_wf|done|]. split; [|done|done]. intros s m H. cbn in H. by rewrite lookup_empty in H. }
  destruct IH as (Hwf & Hlen & Ht); [intros e' He'; apply Hok, elem_of_app; by left|].
  rewrite queue_run_app. cbn. destruct (queue_step _ _ _ _) as [a db'] eqn:E. cbn. split_and!.
  - eapply queue_step_wf; [done| |done]. apply Hok, elem_of_app. right. by left.
  - rewrite !length_app. cbn. lia.
  - by eapply traced_step; [apply Hwf..| | |].
Qed.

(** What one delivery was made from. *)
Lemma delivery_source e db a db' d :
  queue_wf db → queue_step display limits e db = (a, db') → d ∈ deliveries a →
  ∃ m name max c, qd_messages db !! qv_sequence d = Some m ∧ qe_call e = Fetch name max ∧
    qd_consumers db !! name = Some c ∧ eligible c (ms (qe_now e)) m = true ∧ ¬ aged (ms (qe_now e)) m ∧
    delivery_of display m = Ok d ∧ deliveries_of (qv_sequence d) a = [d] ∧
    qd_messages db' !! qv_sequence d = Some (hand_out c (ms (qe_now e)) m) ∧
    qv_delivery_count d = mr_deliveries m + 1 ∧ mr_deliveries m < cr_max_deliver c ≤ u32_max.
Proof.
  intros Hwf H Hd. assert (Hin : d ∈ deliveries_of (qv_sequence d) a) by (by apply list_elem_of_filter).
  pose proof (queue_step_row _ _ _ _ (qv_sequence d) (qw_keyed _ Hwf) H) as Hr.
  inversion Hr as [? Hnil|? Hnil|? ? ? Hnil|? Hnil|m name max c d' Hf Hc He Hy Hdel Hone|? ? ? ? Hnil];
    try (rewrite Hnil in Hin; by apply elem_of_nil in Hin).
  rewrite Hone in Hin. apply list_elem_of_singleton in Hin as <-.
  assert (mr_deliveries m < cr_max_deliver c) by (unfold eligible in He; bools; lia).
  pose proof (qw_consumer _ Hwf _ _ Hc).
  destruct (qw_row _ Hwf (qv_sequence d) m) as (_ & ? & _); [done|].
  exists m, name, max, c. split_and!; try done; try lia.
  apply (delivery_of_Ok _ _ Hdel). lia.
Qed.
End steps.

(** C30: what the queue delivers is what was published to it, and the deliveries of a message are numbered.
    Whatever calls publishers and consumers made on a queue that started empty, in whatever
    order and however the accesses went: a delivery carries the tenant, topic, id and payload of an
    earlier publication that was answered with the same sequence number as new; it goes to the
    consumer of that topic; its count is one more than all the deliveries of that message before,
    within the consumer's [max_deliver], and its token names the message and the count, so no two deliveries
    have the same token; and the message is not past the retention. *)
Theorem deliveries_are_numbered_copies display limits h e d :
  0 ≤ ql_max_messages limits → 0 ≤ ql_max_bytes limits → calls_ok (h ++ [e]) →
  let answers := (queue_run display limits h empty_queue_db).1 in
  let db := (queue_run display limits h empty_queue_db).2 in
  let answer := (queue_step display limits e db).1 in
  d ∈ deliveries answer →
  (∃ i e0 om, h !! i = Some e0 ∧ qe_call e0 = Publish om ∧
     answers !! i = Some (Published (Ok (mkReceipt (qv_sequence d) false))) ∧
     qv_tenant_id d = om_tenant_id om ∧ qv_topic d = om_topic om ∧ qv_message_id d = om_message_id om ∧
     qv_payload d = om_payload om ∧ qv_published_at d = milliseconds (ms (qe_now e0)) ∧
     i64_saturating_sub (ms (qe_now e)) (dur_ms (ql_max_age limits)) ≤ ms (qe_now e0)) ∧
  (∃ name max c, qe_call e = Fetch name max ∧ qd_consumers db !! name = Some c ∧ cr_topic c = qv_topic d ∧
     qv_delivery_count d ≤ cr_max_deliver c) ∧
  qv_delivery_count d = Z.of_nat (length (deliveries_in (qv_sequence d) answers)) + 1 ∧
  deliveries_of (qv_sequence d) answer = [d] ∧
  qv_token d = delivery_token (qv_sequence d) (qv_delivery_count d).
Proof.
  intros Hm Hb Hok answers db answer Hd.
  destruct (traced_run display limits h Hm Hb) as (Hwf & Hlen & Ht); [intros e' ?; apply Hok, elem_of_app; by left|].
  destruct (queue_step display limits e db) as [a db'] eqn:E. subst answer. cbn in *.
  destruct (delivery_source _ _ _ _ _ _ _ Hwf E Hd)
    as (m & name & max & c & Hl & Hf & Hc & He & Hy & Hdel & Hone & _ & Hn & Hlt & _).
  destruct (tr_row _ _ _ Ht _ _ Hl) as [(i & e0 & om & Hi & Ha & Hp & Hsame) Hcount].
  destruct (delivery_of_Ok _ _ _ Hdel) as (Hs & Hte & Hto & Hid & Hpa & Hpub & Htok & _).
  unfold same_message in Hsame. cbn in Hsame. destruct_and!. split_and!.
  - exists i, e0, om. split_and!; try congruence; [exact Ha|].
    apply Z.nlt_ge. replace (ms (qe_now e0)) with (mr_published_ms m) by done. exact Hy.
  - exists name, max, c. unfold eligible in He. bools. split_and!; [done|exact Hc|congruence|lia].
  - subst answers. lia.
  - done.
  - by rewrite Htok, Hn, Hs.
Qed.

(** ** Holding a delivery *)

Section held.
Context (display : DomainError → string) (limits : QueueLimits).

(** An event that does not settle message [s] and comes before its retention ends. *)
Definition leaves (s published : Z) (e : QueueEvent) : Prop :=
  (∀ token, qe_call e = Ack token ∨ qe_call e = Term token ∨ (∃ delay, qe_call e = Nak token delay) →
     ∀ count, parse_token token ≠ Ok (s, count)) ∧
  i64_saturating_sub (ms (qe_now e)) (dur_ms (ql_max_age limits)) ≤ published.

Lemma row_left e a cs s m o :
  leaves s (mr_published_ms m) e → row_step display limits e a cs s (Some m) o →
  (deliveries_of s a = [] ∧ o = Some m) ∨
  (∃ name max c, qe_call e = Fetch name max ∧ mr_visible_ms m ≤ ms (qe_now e) ∧ o = Some (hand_out c (ms (qe_now e)) m)).
Proof.
  intros [Hs Hage] Hr. inversion Hr as [| |? token ? ? Hc Ht| |? name max c ? Hf ? He|? token delay ? ? Hc Ht]; subst.
  - by left.
  - unfold aged in *. lia.
  - destruct (Hs token) with (count := count); [|done]. destruct Hc; auto.
  - right. exists name, max, c. unfold eligible in He. bools. by split_and!.
  - destruct (Hs token) with (count := mr_deliveries m); eauto.
Qed.

(** While no fetch comes after it turns visible, nothing delivers it and its row stays. *)
Lemma held_run h db s m :
  queue_wf limits db → calls_ok h → qd_messages db !! s = Some m →
  (∀ e, e ∈ h → leaves s (mr_published_ms m) e ∧ ∀ name max, qe_call e = Fetch name max → ms (qe_now e) < mr_visible_ms m) →
  let r := queue_run display limits h db in
  deliveries_in s r.1 = [] ∧ qd_messages r.2 !! s = Some m ∧ queue_wf limits r.2.
Proof.
  revert db. induction h as [|e h IH]; intros db Hwf Hok Hm Hh; [done|].
  apply calls_ok_cons in Hok as [He Hok]. rewrite queue_run_cons. destruct (queue_step _ _ _ _) as [a db1] eqn:E. cbn.
  pose proof (queue_step_row _ _ _ _ _ _ s (qw_keyed _ _ Hwf) E) as Hr. rewrite Hm in Hr.
  destruct (Hh e) as [Hl Hv]; [by left|].
  destruct (row_left _ _ _ _ _ _ Hl Hr) as [[-> Hm1]|(name & max & c & Hf & Hle & _)].
  - apply IH; [by eapply queue_step_wf|done|done|]. intros e' He'. apply Hh. by right.
  - apply Hv in Hf. lia.
Qed.

Lemma deliver_rows_total c now rows db :
  (∀ m, m ∈ rows → row_ok m) → ∃ ds db', deliver_rows display c now rows db = Ok (ds, db').
Proof.
  revert db. induction rows as [|m rows IH]; intros db H; cbn; [by eexists _, _|].
  destruct (readable_delivery display m) as [d ->]; [apply H; by left|]. cbn.
  match goal with |- context [deliver_rows _ _ _ rows ?x] =>
    destruct (IH x) as (ds & db' & ->); [intros m' ?; apply H; by right|] end.
  by eexists _, _.
Qed.

(** A fetch of a bound consumer is answered, with the due message or full of earlier ones. *)
Lemma due_is_fetched db s m name max now c :
  queue_wf limits db → qd_messages db !! s = Some m → qd_consumers db !! name = Some c →
  eligible c (ms now) m = true → ¬ aged limits (ms now) m →
  ∃ ds db', queue_step display limits (mkQueueEvent (Fetch name max) QueueWorks now) db = (Fetched (Ok ds), db') ∧
    ((∃ d, d ∈ ds ∧ delivery_of display m = Ok d) ∨
     (length ds = Nat.min max 10000 ∧ ∀ d, d ∈ ds → qv_sequence d < s)).
Proof.
  intros Hwf Hm Hc He Hy. pose proof (qw_keyed _ _ Hwf) as Hk. set (db0 := retain limits (ms now) db).
  assert (Hm0 : qd_messages db0 !! s = Some m) by (by apply retain_Some).
  assert (Hok : ∀ m', m' ∈ fetch_rows c max (ms now) db0 → row_ok m').
  { intros m' [[s' Hs'] _]%fetch_rows_spec. apply retain_Some in Hs' as [? _]. by eapply qw_row. }
  destruct (deliver_rows_total c (ms now) _ db0 Hok) as (ds & db' & E).
  destruct (deliver_rows_frame _ _ _ _ _ _ _ E) as (_ & _ & _ & Hall). exists ds, db'. split.
  { cbn. unfold try_fetch, tx, try_fetch_tx, consumer. fold db0. change (qd_consumers db0) with (qd_consumers db).
    rewrite Hc. cbn. by rewrite E. }
  destruct (fetch_rows_due c max (ms now) db0 s m) as [Hin|[Hlen Hlt]]; [by apply retain_keyed|done|done|left|right].
  - apply list_elem_of_lookup in Hin as [i Hi]. destruct (Forall2_lookup_l _ _ _ _ _ Hall Hi) as (d & Hd & ?).
    exists d. split; [by eapply list_elem_of_lookup_2|done].
  - rewrite <-(Forall2_length _ _ _ Hall). split; [done|]. intros d Hd.
    apply list_elem_of_lookup in Hd as [i Hi]. destruct (Forall2_lookup_r _ _ _ _ _ Hall Hi) as (m' & Hm' & Hd').
    destruct (delivery_of_Ok _ _ _ Hd') as [-> _]. apply Hlt. by eapply list_elem_of_lookup_2.
Qed.
End held.

(** C29: an unsettled delivery is held, then repeated. After a fetch delivered a message, no
    call of anyone delivers it again before the consumer's [ack_wait] has passed, as long as it is
    not acknowledged, terminated or given back; and at any time from then on, while the
    message is within its retention and its deliveries below [max_deliver], a fetch for its topic
    that reaches the database delivers it again, the same message with the next count, or is full of
    messages published before it. *)
Theorem delivery_is_held_then_repeated display limits db name max w now answer db1 d c h :
  queue_wf limits db → queue_step display limits (mkQueueEvent (Fetch name max) w now) db = (answer, db1) →
  d ∈ deliveries answer → qd_consumers db !! name = Some c → calls_ok h →
  let until := i64_saturating_add (ms now) (cr_ack_wait_ms c) in
  let published := qv_published_at d / 1000000 in
  (∀ e, e ∈ h → leaves limits (qv_sequence d) published e ∧
     ∀ name' max', qe_call e = Fetch name' max' → ms (qe_now e) < until) →
  deliveries_in (qv_sequence d) (queue_run display limits h db1).1 = [] ∧
  ∀ name2 max2 now2 c2,
    let db2 := (queue_run display limits h db1).2 in
    qd_consumers db2 !! name2 = Some c2 → cr_topic c2 = qv_topic d → until ≤ ms now2 →
    qv_delivery_count d < cr_max_deliver c2 →
    i64_saturating_sub (ms now2) (dur_ms (ql_max_age limits)) ≤ published →
    ∃ ds db3, queue_step display limits (mkQueueEvent (Fetch name2 max2) QueueWorks now2) db2 = (Fetched (Ok ds), db3) ∧
      ((∃ d2, d2 ∈ ds ∧ qv_sequence d2 = qv_sequence d ∧ qv_tenant_id d2 = qv_tenant_id d ∧
          qv_message_id d2 = qv_message_id d ∧ qv_payload d2 = qv_payload d ∧
          qv_delivery_count d2 = qv_delivery_count d + 1) ∨
       (length ds = Nat.min max2 10000 ∧ ∀ d', d' ∈ ds → qv_sequence d' < qv_sequence d)).
Proof.
  intros Hwf H Hd Hc Hok until published Hh.
  destruct (delivery_source _ _ _ _ _ _ _ Hwf H Hd)
    as (m & name' & max' & c' & Hl & [= <- <-] & Hc' & _ & _ & Hdel & _ & Hl1 & Hn & Hlt & _).
  rewrite Hc in Hc'. injection Hc' as <-. cbn [qe_now] in Hl1.
  destruct (delivery_of_Ok _ _ _ Hdel) as (Hs & Hte & Hto & Hid & Hpa & Hpub & _ & _).
  assert (published = mr_published_ms m) as Hp.
  { unfold published. rewrite Hpub. unfold milliseconds. by rewrite Z.div_mul. }
  rewrite Hp in Hh. destruct (held_run display limits h db1 (qv_sequence d) (hand_out c (ms now) m))
    as (Hnone & Hl2 & Hwf2); [eapply queue_step_wf; [exact Hwf| |exact H]; exact I|done..|].
  split; [done|]. intros name2 max2 now2 c2 db2 Hc2 Ht2 Hu Hcount Hage.
  pose proof (qw_consumer _ _ Hwf2 _ _ Hc2) as Hmax. destruct (qw_row _ _ Hwf _ _ Hl) as (_ & Hdn & _).
  destruct (due_is_fetched display limits db2 (qv_sequence d) _ name2 max2 now2 c2 Hwf2 Hl2 Hc2)
    as (ds & db3 & E & Hres).
  - unfold eligible. cbn. rewrite bool_decide_eq_true_2 by congruence. cbn.
    apply andb_true_iff. split; [by apply Z.leb_le|]. apply Z.ltb_lt. rewrite Hn in Hcount. lia.
  - unfold aged. cbn. apply Z.nlt_ge. by rewrite <-Hp.
  - exists ds, db3. split; [done|]. destruct Hres as [(d2 & Hin & Hd2)|?]; [left|by right].
    exists d2. destruct (delivery_of_Ok _ _ _ Hd2) as (? & ? & ? & ? & ? & _ & _ & Hn2). cbn in *.
    rewrite Hn in *. split_and!; try congruence. rewrite Hn2; lia.
Qed.

(** ** Tokens *)

Lemma split_on_cons c d r :
  d ≠ c → split_on c (String d r) = match split_on c r with [] => [String d ""] | p :: ps => String d p :: ps end.
Proof. intros H. cbn [split_on]. by rewrite bool_decide_eq_false_2. Qed.

Lemma split_on_digits s :
  bytes_all is_ascii_digit s = true →
  split_on ":" s = [s] ∧ ∀ r, split_on ":" (s +:+ String ":" r) = s :: split_on ":" r.
Proof.
  unfold bytes_all. induction s as [|c s IH]; cbn [String.list_ascii_of_string forallb]; intros H; [by split|].
  apply andb_true_iff in H as [Hc Hs]. destruct (IH Hs) as [E1 E2].
  assert (c ≠ ":"%char) by (by intros ->). split; [by rewrite split_on_cons, E1|]. intros r.
  change (String c s +:+ ?t) with (String c (s +:+ t)). by rewrite split_on_cons, E2.
Qed.

Lemma parse_i64_pretty z : 0 ≤ z ≤ i64_max → parse_i64 (pretty z) = Some z.
Proof.
  intros Hz. destruct (pretty_Z_digits z) as [Hd Hv]; [lia|].
  assert (Hne : pretty z ≠ "").
  { intros E. rewrite E in Hv. cbn in Hv. subst z. done. }
  revert Hd Hv Hne. generalize (pretty z). intros s Hd Hv Hne.
  assert (Hp : parse_i64 s = if negb (byte_len s =? 0) && bytes_all is_ascii_digit s && (i64_min <=? digits_value s)
                               && (digits_value s <=? i64_max) then Some (digits_value s) else None).
  { destruct s as [|c r]; [done|]. unfold bytes_all in Hd. cbn in Hd. apply andb_true_iff in Hd as [Hc _].
    destruct c as [[] [] [] [] [] [] [] []]; try done; discriminate Hc. }
  rewrite Hp, Hd, Hv. unfold i64_min, i64_max in *.
  destruct (Z.eqb_spec (byte_len s) 0) as [E|_]; [destruct s; [done|unfold byte_len in E; cbn in E; lia]|].
  rewrite (proj2 (Z.leb_le _ _)), (proj2 (Z.leb_le _ _)) by lia. done.
Qed.

Lemma parse_delivery_token s n :
  0 ≤ s ≤ i64_max → 0 ≤ n ≤ i64_max → parse_token (delivery_token s n) = Ok (s, n).
Proof.
  intros Hs Hn. destruct (pretty_Z_digits s) as [Hd _]; [lia|]. destruct (pretty_Z_digits n) as [Hd' _]; [lia|].
  unfold parse_token, delivery_token. change (":" +:+ pretty n) with (String ":" (pretty n)).
  assert (E : ∀ r, split_on ":" ("sqlite:" +:+ r) = "sqlite" :: split_on ":" r) by done.
  rewrite E, (proj2 (split_on_digits _ Hd)), (proj1 (split_on_digits _ Hd')). cbn [negb].
  by rewrite bool_decide_eq_true_2, !parse_i64_pretty by done.
Qed.

(** C31: an acknowledged message never returns. When the acknowledgement (or termination) of a
    delivery is answered without an error, however long after and whatever happened in between,
    also when the message was delivered again to others meanwhile, its row is gone and no
    later call of anyone delivers it, not even one that publishes the same message id anew. *)
Theorem acknowledged_message_never_returns display limits db e answer db1 d h1 call w now db3 h2 :
  queue_wf limits db → calls_ok (e :: h1 ++ h2) → queue_step display limits e db = (answer, db1) →
  d ∈ deliveries answer → call = Ack (qv_token d) ∨ call = Term (qv_token d) →
  let db2 := (queue_run display limits h1 db1).2 in
  queue_step display limits (mkQueueEvent call w now) db2 = (Settled (Ok tt), db3) →
  qd_messages db3 !! qv_sequence d = None ∧
  deliveries_in (qv_sequence d) (queue_run display limits h2 db3).1 = [].
Proof.
  intros Hwf Hok H Hd Hcall db2 H3. apply calls_ok_cons in Hok as [He Hok].
  assert (calls_ok h1 ∧ calls_ok h2) as [Hok1 Hok2].
  { split; intros e' ?; apply Hok, elem_of_app; auto. }
  destruct (delivery_source _ _ _ _ _ _ _ Hwf H Hd) as (m & name & max & c & Hl & _ & _ & _ & _ & Hdel & _ & Hl1 & _ & Hlt & Hmax).
  assert (Hwf1 : queue_wf limits db1) by (by eapply queue_step_wf).
  pose proof (queue_run_wf display limits h1 db1 Hwf1 Hok1) as Hwf2. fold db2 in Hwf2.
  assert (Hwf3 : queue_wf limits db3).
  { eapply queue_step_wf; [exact Hwf2| |exact H3]. by destruct Hcall as [-> | ->]. }
  destruct (ky_row _ (qw_keyed _ _ Hwf) _ _ Hl) as [Hms Hs]. destruct (qw_row _ _ Hwf _ _ Hl) as (_ & ? & _).
  pose proof (qw_last _ _ Hwf). destruct (delivery_of_Ok _ _ _ Hdel) as (_ & _ & _ & _ & _ & _ & Htok & _).
  assert (Hp : parse_token (qv_token d) = Ok (qv_sequence d, mr_deliveries m + 1)).
  { rewrite Htok, Hms. apply parse_delivery_token; unfold u32_max, i64_max in *; lia. }
  assert (Hack : ack limits (qv_token d) w now db2 = (Ok tt, db3)).
  { destruct Hcall as [-> | ->]; cbn in H3; unfold term in H3; by destruct (ack _ _ _ _ _); injection H3 as -> ->. }
  unfold ack in Hack. rewrite Hp in Hack. apply tx_cases in Hack as [[? _]|(_ & [] & _ & [= Hdb])]; [done|].
  assert (Hgone : qd_messages db3 !! qv_sequence d = None) by (rewrite <-Hdb; apply lookup_delete_eq).
  split; [done|]. apply gone_stays; [done..| |done].
  rewrite <-Hdb. cbn. etrans; [|by apply queue_run_later]. by apply (ky_row _ (qw_keyed _ _ Hwf1) _ _ Hl1).
Qed.

(** ** Publishing again *)

Section again.
Context (display : DomainError → string) (limits : QueueLimits).

(** A publication at this clock still remembers what was published at [t]. *)
Definition in_window (t : Z) (now : Timestamp) : Prop :=
  i64_saturating_sub (ms now) (dur_ms (ql_duplicate_window limits)) ≤ t.

Lemma forget_keeps now db id row :
  in_window (dd_published_ms row) now → qd_dedup db !! id = Some row →
  qd_dedup (forget_ids limits (ms now) (retain limits (ms now) db)) !! id = Some row.
Proof. intros Hw Hr. apply map_lookup_filter_Some. split; [done|]. apply Z.nlt_ge. exact Hw. Qed.

Lemma remembered_id_step e db a db' id row :
  one_consumer db → queue_step display limits e db = (a, db') → qd_dedup db !! id = Some row →
  (∀ om, qe_call e = Publish om → in_window (dd_published_ms row) (qe_now e)) →
  qd_dedup db' !! id = Some row.
Proof.
  intros Ho H Hr Hw. pose proof (quiet_call display limits e db) as Hq. rewrite H in Hq.
  destruct e as [[om|name max|token|token delay|token|spec|name] w now]; cbn -[retain forget_ids] in *;
    injection H as <- <-; try (destruct Hq as (_ & Hq & _); cbn in Hq; by rewrite Hq).
  - destruct (publish _ _ _ _ _) as [r db1] eqn:E. pose proof (forget_keeps now db id row (Hw om eq_refl) Hr) as Hf.
    destruct (publish_outcomes _ _ _ _ _ _ _ E) as [[_ ->]|(_ & [(? & _ & _ & ->)|(Hn & _ & _ & _ & _ & ->)])]; [done..|].
    cbn -[retain forget_ids]. rewrite lookup_insert_ne; [done|]. intros Heq. rewrite Heq, Hf in Hn. done.
  - destruct (ensure_consumer _ _ _ _ _) as [r db1] eqn:E.
    by destruct (ensure_outcomes _ _ _ _ _ _ _ Ho E) as [[_ ->]|(_ & _ & _ & ->)].
Qed.

Lemma remembered_id_run h db id row :
  queue_wf limits db → calls_ok h → qd_dedup db !! id = Some row →
  (∀ e om, e ∈ h → qe_call e = Publish om → in_window (dd_published_ms row) (qe_now e)) →
  qd_dedup (queue_run display limits h db).2 !! id = Some row.
Proof.
  revert db. induction h as [|e h IH]; intros db Hwf Hok Hr Hw; [done|].
  apply calls_ok_cons in Hok as [He Hh]. rewrite queue_run_cons. destruct (queue_step _ _ _ _) as [a db1] eqn:E. cbn.
  apply IH; [by eapply queue_step_wf|done| |intros e' om ?; apply Hw; by right].
  eapply remembered_id_step; [apply Hwf|done..|]. intros om Hp. by eapply Hw; [left|].
Qed.
End again.

(** C32: publishing again inside the window stores nothing. After a publication was answered as
    new, whatever calls follow, also when the message was acknowledged meanwhile: a publication of the
    same message id that reaches the database, while that and every publication between come within the
    duplicate window of the first, is answered as a duplicate with the sequence number of the first, and
    adds no row. *)
Theorem repeated_publish_stores_nothing display limits db om w now seq db1 h again now2 :
  queue_wf limits db → calls_ok (mkQueueEvent (Publish om) w now :: h) →
  queue_step display limits (mkQueueEvent (Publish om) w now) db = (Published (Ok (mkReceipt seq false)), db1) →
  (∀ e om', e ∈ h → qe_call e = Publish om' → in_window limits (ms now) (qe_now e)) →
  om_message_id again = om_message_id om → byte_len (om_payload again) ≤ ql_max_message_bytes limits →
  in_window limits (ms now) now2 →
  let db2 := (queue_run display limits h db1).2 in
  ∃ db3, queue_step display limits (mkQueueEvent (Publish again) QueueWorks now2) db2 =
           (Published (Ok (mkReceipt seq true)), db3) ∧ qd_messages db3 ⊆ qd_messages db2 ∧
         qd_last_seq db3 = qd_last_seq db2.
Proof.
  intros Hwf [Hom Hok]%calls_ok_cons H Hw Hid Hlen Hw2 db2.
  assert (Hwf1 : queue_wf limits db1) by (by eapply queue_step_wf).
  assert (Hr : qd_dedup db1 !! om_message_id om = Some (mkDedupRow seq (ms now))).
  { cbn in H. destruct (publish _ _ _ _ _) as [r db'] eqn:E. injection H as -> ->.
    destruct (publish_outcomes _ _ _ _ _ _ _ E) as [[? _]|(_ & [(? & _ & ? & _)|(_ & _ & _ & _ & Hs & ->)])]; [done..|].
    injection Hs as ->. apply lookup_insert_eq. }
  pose proof (remembered_id_run display limits h db1 _ _ Hwf1 Hok Hr Hw) as Hr2. fold db2 in Hr2. rewrite <-Hid in Hr2.
  apply (forget_keeps limits now2) in Hr2; [|exact Hw2].
  exists (forget_ids limits (ms now2) (retain limits (ms now2) db2)). split_and!; [|apply map_filter_subseteq|done].
  cbn -[retain forget_ids]. unfold publish. rewrite (proj2 (Z.ltb_ge _ _)) by done.
  unfold tx, publish_tx. cbn zeta. by rewrite Hr2.
Qed.

(** ** Bounds *)

(** The answer is an error. *)
Definition refused (a : QueueAnswer) : bool :=
  match a with
  | Published r => is_err r
  | Fetched r => is_err r
  | Settled r => is_err r
  | Counted r => is_err r
  end.

Lemma refused_writes_nothing display limits e db :
  refused (queue_step display limits e db).1 = true → (queue_step display limits e db).2 = db.
Proof.
  assert (Htx : ∀ A (f : qtx A) w now, is_err (tx limits f w now db).1 = true → (tx limits f w now db).2 = db).
  { intros A f w now. destruct (tx limits f w now db) as [r db'] eqn:E. cbn.
    by destruct (tx_cases _ _ _ _ _ _ _ E) as [[_ ->]|(_ & x & -> & _)]. }
  destruct e as [[om|name max|token|token delay|token|spec|name] w now]; cbn; try apply Htx.
  - unfold publish. destruct (_ <? _); [done|apply Htx].
  - unfold ack. destruct (parse_token token) as [[]|]; [apply Htx|done].
  - unfold nak. destruct (parse_token token) as [[]|]; [apply Htx|done].
  - unfold term, ack. destruct (parse_token token) as [[]|]; [apply Htx|done].
  - unfold ensure_consumer. destruct (_ || _); [done|apply Htx].
Qed.

(** The stream stays within its limits and never evicts. Whatever calls came, a queue that started
    empty holds at most [max_messages] rows of at most [max_bytes] together, and at most one
    consumer per topic; and a call that is answered with an error, a publication on a full stream among
    them, leaves everything as it was. *)
Theorem stream_stays_bounded display limits h e :
  0 ≤ ql_max_messages limits → 0 ≤ ql_max_bytes limits → calls_ok h →
  let db := (queue_run display limits h empty_queue_db).2 in
  Z.of_nat (size (qd_messages db)) ≤ ql_max_messages limits ∧
  total mr_size (qd_messages db) ≤ ql_max_bytes limits ∧ one_consumer db ∧
  (refused (queue_step display limits e db).1 = true → (queue_step display limits e db).2 = db).
Proof.
  intros Hm Hb Hok db. pose proof (queue_run_wf display limits h _ (empty_queue_wf _ Hm Hb) Hok) as Hwf. fold db in Hwf.
  split_and!; [apply Hwf..|apply refused_writes_nothing].
Qed.

(** ** A run *)

Definition tenant_q : string := "tn_01hzzzzzzzzzzzzzzzzzzzzzza".
Definition limits_q : QueueLimits := mkQueueLimits 3 100 10 (seconds 600) (seconds 60).
Definition spec_q : ConsumerSpec := mkConsumerSpec "dispatcher" "invoke" (seconds 30) 5.
Definition message_q (id payload : string) : OutgoingMessage := mkMessage tenant_q "invoke" id payload.
Definition display_q (e : DomainError) : string := "invalid".
Definition at_q (n : Z) (call : QueueCall) : QueueEvent := mkQueueEvent call QueueWorks (seconds n).
Definition step_q := queue_step display_q limits_q.
Definition run_q := queue_run display_q limits_q.

Definition opened_q : list QueueEvent := [at_q 1 (Ensure spec_q); at_q 2 (Publish (message_q "m-1" "one"))].
Definition delivery_q (count : Z) : QueueDelivery :=
  mkQueueDelivery 1 tenant_q "invoke" "m-1" "one" count (seconds 2) (delivery_token 1 count).
Definition fetch_q (n : Z) : QueueEvent := at_q n (Fetch "dispatcher" 1).

(** The message is delivered, held, delivered again after thirty seconds, and removed by the
    token of either delivery; its id is remembered and the fourth publication of the stream is refused. *)
Example queue_run_q :
  (run_q (opened_q ++ [fetch_q 3; fetch_q 32; fetch_q 33; at_q 34 (Ack "sqlite:1:1"); fetch_q 63;
     at_q 61 (Publish (message_q "m-1" "one")); at_q 63 (Publish (message_q "m-1" "two"));
     at_q 64 (Publish (message_q "m-2" "x")); at_q 64 (Publish (message_q "m-3" "y"));
     at_q 65 (Publish (message_q "m-4" "z")); at_q 66 (Nak "sqlite:2:0:1" None)]) empty_queue_db).1 =
  [Settled (Ok tt); Published (Ok (mkReceipt 1 false)); Fetched (Ok [delivery_q 1]); Fetched (Ok []);
   Fetched (Ok [delivery_q 2]); Settled (Ok tt); Fetched (Ok []); Published (Ok (mkReceipt 1 true));
   Published (Ok (mkReceipt 2 false)); Published (Ok (mkReceipt 3 false)); Published (Ok (mkReceipt 4 false));
   Published (Err (QueueError.QueueFull "maximum messages exceeded (3 of 3)"));
   Settled (Err (QueueError.InvalidMessage "malformed delivery token"))].
Proof. vm_compute. reflexivity. Qed.

(** ** Witnesses *)

(** The calls of a concrete history are valid; the start of a concrete run. *)
Lemma calls_ok_Forall h : Forall (λ e, call_ok (qe_call e)) h → calls_ok h.
Proof. intros H e He. rewrite Forall_forall in H. by apply H. Qed.
Ltac valid_calls :=
  apply calls_ok_Forall;
  repeat (match goal with |- Forall ?P ?l => let l' := eval hnf in l in change (Forall P l') end;
          first [by apply Forall_nil|apply Forall_cons; split; [by vm_compute|]]).

Abbreviation db_opened := (run_q opened_q empty_queue_db).2 (only parsing).
Abbreviation db_fetched := (step_q (fetch_q 3) db_opened).2 (only parsing).

Lemma opened_ok : calls_ok opened_q.
Proof. valid_calls. Qed.

Lemma opened_wf : queue_wf limits_q db_opened.
Proof. apply queue_run_wf; [by apply empty_queue_wf|apply opened_ok]. Qed.

Lemma fetched_q : (step_q (fetch_q 3) db_opened).1 = Fetched (Ok [delivery_q 1]).
Proof. vm_compute. reflexivity. Qed.

Lemma step_split e db : step_q e db = ((step_q e db).1, (step_q e db).2).
Proof. by destruct (step_q e db). Qed.

Lemma first_fetch : step_q (fetch_q 3) db_opened = (Fetched (Ok [delivery_q 1]), db_fetched).
Proof. rewrite (step_split (fetch_q 3)) at 1. by rewrite fetched_q. Qed.

Lemma bound_q : qd_consumers db_opened !! "dispatcher" = Some (mkConsumerRow "invoke" 30000 5).
Proof. vm_compute. reflexivity. Qed.

(** The second delivery of the run. *)
Lemma deliveries_are_numbered_copies_witness :
  qv_delivery_count (delivery_q 2) =
  Z.of_nat (length (deliveries_in 1 (run_q (opened_q ++ [fetch_q 3]) empty_queue_db).1)) + 1.
Proof.
  apply (deliveries_are_numbered_copies display_q limits_q (opened_q ++ [fetch_q 3]) (fetch_q 33) (delivery_q 2)).
  - done.
  - done.
  - valid_calls.
  - replace (deliveries _) with [delivery_q 2] by (vm_compute; reflexivity). by left.
Defined.

(** A fetch while it is held, and one when the wait is over. *)
Lemma delivery_is_held_then_repeated_witness :
  deliveries_in 1 (run_q [fetch_q 32] db_fetched).1 = [].
Proof.
  apply (delivery_is_held_then_repeated display_q limits_q db_opened "dispatcher" 1 QueueWorks (seconds 3)
           (Fetched (Ok [delivery_q 1])) db_fetched (delivery_q 1) (mkConsumerRow "invoke" 30000 5) [fetch_q 32]
           opened_wf first_fetch).
  - by left.
  - exact bound_q.
  - valid_calls.
  - intros e ->%list_elem_of_singleton. split; [split; [|done]|intros ??; done].
    intros token [?|[?|[? ?]]]; done.
Defined.

(** The message is fetched again by another, then acknowledged with the first token. *)
Lemma acknowledged_message_never_returns_witness :
  deliveries_in 1 (run_q [at_q 35 (Publish (message_q "m-1" "one")); fetch_q 70]
    (step_q (at_q 34 (Ack (qv_token (delivery_q 1)))) (run_q [fetch_q 33] db_fetched).2).2).1 = [].
Proof.
  apply (acknowledged_message_never_returns display_q limits_q db_opened (fetch_q 3) (Fetched (Ok [delivery_q 1]))
           db_fetched (delivery_q 1) [fetch_q 33] (Ack (qv_token (delivery_q 1))) QueueWorks (seconds 34)
           (step_q (at_q 34 (Ack (qv_token (delivery_q 1)))) (run_q [fetch_q 33] db_fetched).2).2
           [at_q 35 (Publish (message_q "m-1" "one")); fetch_q 70] opened_wf).
  - valid_calls.
  - exact first_fetch.
  - by left.
  - by left.
  - vm_compute. reflexivity.
Defined.

Abbreviation db_consumer := (run_q [at_q 1 (Ensure spec_q)] empty_queue_db).2 (only parsing).
Abbreviation db_published := (step_q (at_q 2 (Publish (message_q "m-1" "one"))) db_consumer).2 (only parsing).

Lemma consumer_wf : queue_wf limits_q db_consumer.
Proof. apply queue_run_wf; [by apply empty_queue_wf|valid_calls]. Qed.

(** The same id is published again after the message was acknowledged. *)
Lemma repeated_publish_stores_nothing_witness :
  ∃ db3, step_q (at_q 61 (Publish (message_q "m-1" "two"))) (run_q [fetch_q 3; at_q 4 (Ack "sqlite:1:1")] db_published).2
         = (Published (Ok (mkReceipt 1 true)), db3).
Proof.
  destruct (repeated_publish_stores_nothing display_q limits_q db_consumer (message_q "m-1" "one") QueueWorks (seconds 2) 1
    db_published [fetch_q 3; at_q 4 (Ack "sqlite:1:1")] (message_q "m-1" "two") (seconds 61) consumer_wf) as (db3 & H & _).
  - valid_calls.
  - vm_compute. reflexivity.
  - intros e om [->|[->|H]%elem_of_cons]%elem_of_cons; [done..|by apply elem_of_nil in H].
  - done.
  - done.
  - done.
  - exists db3. exact H.
Defined.

Lemma stream_stays_bounded_witness :
  Z.of_nat (size (qd_messages (run_q opened_q empty_queue_db).2)) ≤ 3.
Proof.
  apply (stream_stays_bounded display_q limits_q opened_q (fetch_q 3)).
  - done.
  - done.
  - exact opened_ok.
Defined.

(** ** From the acceptance to the consumer *)

From S2P Require Import Functions Invocation Revision Guard Store Scenario Retry.
From S2P Require Import Outbox Dispatch LedgerInv AsyncRun AsyncFrontProps.

(** The part of a delivery the dispatcher reads. *)
Definition handed (d : QueueDelivery) : Delivery :=
  mkDelivery (qv_message_id d) (qv_tenant_id d) (qv_payload d) (qv_sequence d).

Lemma message_of_Ok ev m :
  message_of ev = Ok m →
  om_tenant_id m = ob_tenant_id ev ∧ om_message_id m = message_id_for (ob_event_id ev) (ob_generation ev) ∧
  om_payload m = ob_payload ev.
Proof.
  unfold message_of. intros H. steps. cbn. split_and!; [done| |done].
  match goal with H : parse_message_id _ = Ok _ |- _ => unfold parse_message_id in H; case_match; by simplify_eq end.
Qed.

(** C12: what the consumer of the queue reads is what was accepted. A new acceptance commits an event; when
    a publisher gives its message to the queue, in whatever history of calls, and is answered with a
    new sequence number, then every delivery of that number, however often and however much later,
    read through the ledger as it is by then, gives the envelope of the acceptance and the bytes that were
    accepted, as long as the row is still pinned to its revision and the invocation is not over; and
    after it is over too, when the input is in the ledger itself. An input in the object store is asked of
    the store only until the collector marks it: that no collector does while the invocation is live is
    shown, not assumed. *)
Theorem accepted_event_reaches_consumer cfg o c q out l a l' bytes :
  ledger_run cfg empty_ledger l → honest o out → accept cfg o c q out l = (Ok a, l') → aa_replayed a = false →
  rq_payload q = Ok bytes →
  let inv := aa_invocation a in
  ∃ ev input, lg_outbox l' !! inv_id inv = Some ev ∧ lg_inputs l' !! inv_id inv = Some input ∧
    ∀ display limits h e d i e0 om l'' cur get,
      0 ≤ ql_max_messages limits → 0 ≤ ql_max_bytes limits → calls_ok (h ++ [e]) →
      let r := queue_run display limits h empty_queue_db in
      h !! i = Some e0 → qe_call e0 = Publish om → message_of ev = Ok om →
      r.1 !! i = Some (Published (Ok (mkReceipt (qv_sequence d) false))) →
      d ∈ deliveries (queue_step display limits e r.2).1 →
      ledger_run cfg l' l'' → invs l'' !! inv_id inv = Some cur → inv_revision_id cur = inv_revision_id inv →
      undeleted cfg out bytes input l' l'' get →
      in_body input = InlineBody bytes ∨ InvocationStatus.is_terminal (inv_status cur) = false →
      read_delivery (with_objects o get) (handed d) l'' = Ok (mkAcceptedEvent (first_envelope inv input) cur bytes).
Proof.
  intros Hreach Hh Ha Hn Hb inv.
  destruct (delivered_is_accepted cfg o c q out l a l' bytes Hreach Hh Ha Hn Hb)
    as (_ & _ & _ & _ & _ & _ & ev & input & Hev & _ & Hin & Hread). exists ev, input. split; [done|]. split; [done|].
  intros display limits h e d i e0 om l'' cur get Hm Hby Hok r Hi Hp Hom Hans Hd Hrun Hcur Hrev Hget Hstill.
  destruct (traced_run display limits h Hm Hby) as (Hqwf & _ & Ht); [intros e' ?; apply Hok, elem_of_app; by left|].
  fold r in Hqwf, Ht. destruct (queue_step display limits e r.2) as [answer db'] eqn:E. cbn in Hd.
  destruct (delivery_source _ _ _ _ _ _ _ Hqwf E Hd) as (m & _ & _ & _ & Hl & _ & _ & _ & _ & Hdel & _).
  destruct (tr_row _ _ _ Ht _ _ Hl) as [(j & e1 & om1 & Hj & Hans1 & Hp1 & Hsame) _].
  assert (i = j) as -> by (by eapply (tr_seq _ _ _ Ht)).
  rewrite Hi in Hj. injection Hj as <-. rewrite Hp in Hp1. injection Hp1 as <-.
  destruct (delivery_of_Ok _ _ _ Hdel) as (_ & Hte & _ & Hid & Hpa & _). unfold same_message in Hsame. cbn in Hsame.
  destruct (message_of_Ok _ _ Hom) as (? & ? & ?). destruct_and!.
  replace (handed d) with (delivered ev (qv_sequence d)); [by eapply Hread|].
  unfold handed, delivered. f_equal; congruence.
Qed.

Definition caller_q : Principal := mkPrincipal "ann" tenant_q [Role.Invoke].
Definition request_q : InvokeAsyncRequest := mkAsyncRequest caller_q (Ok "{}") None None.
Definition resolved_q : Resolved :=
  mkResolved (mkFunction "fn_a" tenant_q "f" "" 0 0 None None)
    (mkRevision "rev_a" "fn_a" tenant_q 1 spec0 "sha256:1" RevisionStatus.Ready 0 0) None None.
(** Every input goes to the object store; [get_q] is the store after the acceptance. *)
Definition config_q : InvokeAsyncConfig := mkAsyncConfig 0 10000 300 (24 * 60 * 60) 100 200 30 500 30000 (60 * 60).
Definition object_q : ObjectRef := mkObject "obj_q" tenant_q 0.
Definition put_q (tenant : TenantId) (bytes : string) : result ObjectError.t ObjectMeta :=
  Ok (mkMeta (mkObject "obj_q" tenant 0) "sha256:0" (byte_len bytes)).
Definition get_q (reference : ObjectRef) : result string string :=
  if obj_id reference == "obj_q" then Ok "{}" else Err "not_found".
Definition outside_q : Outside :=
  mkOutside false (Ok resolved_q) 0 "inv_a" (Some put_q) QueueCondition.Healthy false false false.
Definition accepted_q : result AppError AsyncAcceptance * Ledger :=
  accept cfg0 codec_bits config_q request_q outside_q empty_ledger.
Definition acceptance_q : AsyncAcceptance :=
  match accepted_q.1 with Ok a => a | Err _ => mkAcceptance inv0 "" true end.
Definition limits_big : QueueLimits := mkQueueLimits 3 1000000 1000000 (seconds 600) (seconds 60).

(** The message of the accepted event. *)
Definition accepted_message : OutgoingMessage :=
  match lg_outbox accepted_q.2 !! "inv_a" ≫= (λ ev, match message_of ev with Ok m => Some m | Err _ => None end) with
  | Some m => m
  | None => message_q "m-1" ""
  end.
Definition history_acc : list QueueEvent := [at_q 1 (Ensure spec_q); at_q 2 (Publish accepted_message)].
Definition received_q : list QueueDelivery :=
  deliveries (queue_step display_q limits_big (fetch_q 3)
    (queue_run display_q limits_big history_acc empty_queue_db).2).1.

Lemma accepted_q_eq : accepted_q = (Ok acceptance_q, accepted_q.2).
Proof. vm_compute. reflexivity. Qed.

Lemma event_q ev : lg_outbox accepted_q.2 !! "inv_a" = Some ev → message_of ev = Ok accepted_message.
Proof.
  intros H. assert (Hm : message_of <$> lg_outbox accepted_q.2 !! "inv_a" = Some (Ok accepted_message))
    by (vm_compute; reflexivity).
  rewrite H in Hm. by injection Hm.
Qed.

Lemma received_q_one : (λ d, qv_sequence d) <$> received_q = [1].
Proof. vm_compute. reflexivity. Qed.

Lemma history_acc_answers :
  (queue_run display_q limits_big history_acc empty_queue_db).1 !! 1%nat = Some (Published (Ok (mkReceipt 1 false))).
Proof. vm_compute. reflexivity. Qed.

Lemma row_q : invs accepted_q.2 !! "inv_a" = Some (aa_invocation acceptance_q).
Proof. vm_compute. reflexivity. Qed.

(** The input is an object, and it is read back of the object store. *)
Lemma accepted_event_reaches_consumer_witness :
  in_body <$> lg_inputs accepted_q.2 !! "inv_a" = Some (ObjectBody object_q) ∧
  ∃ d ev, received_q = [d] ∧
    read_delivery (with_objects codec_bits (Some get_q)) (handed d) accepted_q.2 = Ok ev ∧ ae_input ev = "{}".
Proof.
  split; [vm_compute; reflexivity|].
  destruct (accepted_event_reaches_consumer cfg0 codec_bits config_q request_q outside_q empty_ledger
    acceptance_q accepted_q.2 "{}" (run_here _ _)) as (ev & input & Hev & _ & Hread).
  - split; [exact decode_encode_envelope|]. by intros put tenant bytes meta [= <-] [= <-].
  - exact accepted_q_eq.
  - by vm_compute.
  - done.
  - pose proof received_q_one as Hone. destruct received_q as [|d [|]] eqn:Hr; [done| |done].
    injection Hone as Hs. exists d, (mkAcceptedEvent (first_envelope (aa_invocation acceptance_q) input)
                                       (aa_invocation acceptance_q) "{}").
    split; [done|]. split; [|done].
    apply (Hread display_q limits_big history_acc (fetch_q 3) d 1%nat (at_q 2 (Publish accepted_message)) accepted_message _ _ (Some get_q)).
    + done.
    + done.
    + valid_calls.
    + done.
    + done.
    + by apply event_q.
    + rewrite Hs. exact history_acc_answers.
    + fold received_q. rewrite Hr. by left.
    + apply run_here.
    + exact row_q.
    + done.
    + intros put meta [= <-] [= <-] _ _. exists get_q. split; reflexivity.
    + right. by vm_compute.
Defined.
